(* ===== verification/_CoqProject ===== *)
-Q . S2P
Prelude.v
GoStrings.v
GoTime.v
Paths.v
Effects.v
Fs.v
Sha256.v
Regex.v
Json.v
TektonTypes.v
Dag.v
Resolver.v
Run.v
Matrix.v
Policy.v
Scope.v
Steps.v
Validator.v
Engine.v
Scheduler.v
Invariants.v
RunProps.v
ClusterStatus.v
ClusterProps.v
ClusterWatch.v
ClusterSubmit.v
EngineCluster.v
Loader.v
LoaderProps.v
Docker.v
DockerTask.v
DockerStaging.v
DockerRun.v
DockerProps.v
DockerSafety.v
Workspace.v
Volumes.v
GoDate.v
JsonText.v
JsonPrefix.v
RefCache.v
RefCacheProps.v
Resolvers.v
RefRegistry.v
RefRegistryProps.v
ResolverProps.v
RunIndex.v
RunStore.v
RunStoreProps.v
RunTrail.v
RunHistory.v
RunOpsProps.v
RunPrune.v
LogLines.v
Events.v
Pretty.v
Reporters.v
ReplayProps.v
ExitCode.v
Discovery.v
Cli.v
CliProps.v
Commands.v
CommandProps.v
ClusterUp.v
ClusterUpProps.v
SchemaJson.v
SchemaProps.v
SchemaSubmit.v
ClusterLogs.v
DockerDial.v
GuideGen.v
HelpJson.v
