(* ===== verification/Prelude.v ===== *)
(** * tkn-act: a verification library

    tkn-act runs Tekton pipelines on a developer's machine.  This library models
    the program from its command line to the calls that leave it: what is loaded and
    validated, what runs, when and with which inputs, the backends that execute it, what
    a run reports, records and replays.  Definitions are translated from the Go sources
    under src/internal and src/cmd/tkn-act, keep their names, and are executable;
    theorems are about them.

    ** How the program's parts interact, and where they are

    - Prelude (this file): texts, the error type, map iteration order, sorted
      strings, shared list lemmas and tactics.  GoStrings, GoTime, Sha256, Regex
      and Json are the pieces of Go's standard library the sources call: strings,
      strconv and wrap-around 64-bit integers; time.ParseDuration with its float
      arithmetic; sha256; regexp for the patterns in use; encoding/json for string
      lists and maps.
    - TektonTypes (tektontypes/types.go): the records of tasks, pipelines, steps.
    - Run (engine/run.go, backend/backend.go, reporter/event.go): the run's input,
      outcomes and events; param defaults.
    - Validator (validator/validator.go, refs.go): the checks before a run.
    - Matrix (engine/matrix.go, tektontypes.MaterializeMatrixRows): a matrix task
      becomes one task per row; the rows' results become one list.
    - Dag (engine/dag/dag.go): the dependency graph and its levels.
    - Resolver (resolver/resolver.go): [$(...)] substitution.
    - Scope (engine/when.go, implicit_edges.go, substitution.go,
      pipeline_results.go, workspace_paths.go): what a task sees: guards, results
      of other tasks, context variables; what the pipeline reports.
    - Steps (engine/step_action.go, step_template.go, substituteSpec and
      uniqueImages of engine.go, backend/docker/security.go's support check).
    - Policy (engine/policy.go, pipeline_timeouts.go): retries and budgets.
    - Engine (engine.go's runOne, lazy_resolve.go): one attempt at a task, and the
      tests that decide whether a task is dispatched.
    - Scheduler (engine.go's RunPipeline): the run as a state machine.  The
      dispatch loop, the goroutines and the contexts that end are its actions;
      [run] is one interleaving.
    - Invariants, RunProps: what holds after every sequence of actions, and the
      properties of a run read off from it.
    - Loader, LoaderProps (loader/loader.go): YAML files to a bundle of resources.
    - ClusterStatus, ClusterProps, ClusterWatch, ClusterSubmit
      (backend/cluster/run.go, watch.go, volumes.go, sidecars_status.go): the
      PipelineRun that is submitted, the watch on it with the TaskRun tracker, and
      reading outcomes and results back from the objects of the API server.
    - EngineCluster (engine.go's runViaPipelineBackend, eager_pipelineref.go,
      cluster_inline_resolver.go): runs that are handed to a backend as a whole.
    - Paths, Effects: path/filepath's lexical operations; programs of calls to the
      outside, their traces and the logic over them.
    - Docker, DockerTask, DockerStaging, DockerRun (backend/docker: docker.go,
      security.go, workspaces.go, sidecars.go, staging.go): one Task on a docker
      daemon, local or remote, as a program whose calls are the daemon's API and
      the file system; DockerProps and DockerSafety hold their theorems.
    - Fs: a file system as a tree of files and folders, which answers the calls that
      programs make to it; what each call changes ([contents], [leaves_be]).
    - GoDate, JsonText: calendar dates and RFC 3339; the texts json.Encoder writes,
      their reading back, and the decoding of objects into records by field.
    - Workspace, Volumes (workspace/workspace.go, volumes/store.go): the directories
      of a run and the materialisation of volumes, as programs over the file system.
    - RefCache, RefCacheProps (refresolver/cache.go, CacheKey of refresolver.go, the
      redaction of httpsafe.go): the cache of resolved resources on disk.
    - Resolvers, ResolverProps (refresolver/http.go, hub.go, git.go, bundles.go,
      cluster.go, remote.go): each resolver, as a program of calls to the network, to
      git, to a registry, to an API server and to the file system.
    - RefRegistry, RefRegistryProps (refresolver/refresolver.go): the registry that
      picks a resolver and caches its answers.  Its state is changed under a mutex; a
      run of [Resolve] is a program whose locked sections are calls, and other
      goroutines may change the state between them (a rely condition).
    - RunIndex, RunStore (runstore/index.go, meta.go, liveness.go, runid.go; store.go,
      gc.go, statedir.go): the store of runs, its data and lookups, and its operations
      as programs over the file system, the lock file and temporary files.
      RunStoreProps answers those calls from a tree of [Fs]; RunTrail follows index.json
      call by call; RunHistory has the abstract index, histories of operations with
      crashes; RunOpsProps and RunPrune hold what the operations leave on disk.
    - SchemaJson, SchemaProps, SchemaSubmit (the json tags of tektontypes/types.go, the
      custom UnmarshalJSON methods): the decoders of all documents, which implement
      [Loader.Yaml] over a conversion of YAML to JSON, their round trips, and what
      becomes of a loaded Pipeline that is submitted to a cluster.
    - LogLines (backend/loglines.go): lines of logs out of a stream of chunks.
    - Events, Pretty, Reporters, with JsonPrefix and ReplayProps (reporter/event.go,
      json.go, pretty.go, color.go, filters.go, persistsink.go, runstore/replay.go):
      events and their JSON, the sinks with their buffers, the terminal's text, the
      replay of a log.  An emit holds the reporter's mutex and is one step.
    - ExitCode, Discovery (exitcode/exitcode.go, discovery/discovery.go).
    - Cli, CliProps, Commands, CommandProps (cmd/tkn-act: run.go, inputs.go,
      persistence.go, resolverconfig.go, remote_docker.go; validate.go, list.go, logs.go,
      runs.go, cache.go): the commands as programs over the file system, the run store,
      the engine and the terminal.
    - ClusterUp, ClusterUpProps (cmdrunner/runner.go, cluster/k3d/k3d.go,
      cluster/tekton/install.go, backend/cluster/cluster.go, cmd/tkn-act's cluster.go and
      doctor.go): the cluster a run brings up, by commands and calls to its API server.
    - ClusterLogs (backend/cluster/watch.go's [streamPodLogs] and what it starts): the logs
      of a pod; a goroutine per container is an element of the list it returns.
    - DockerDial (backend/docker: sshdial.go, [New] and [newDockerClient] of docker.go,
      registryauth.go): reaching the daemon.
    - GuideGen, HelpJson (cmd/tkn-act/internal/agentguide; helpjson.go, agentguide.go,
      version.go): what the tool says about itself, and where its guide comes from.

    The state of a run ([Scheduler.sstate]) is RunPipeline's own: the maps
    [outcomes] and [results], [overall], the events emitted, the contexts that
    have ended, and the errgroup of the current level or of the finally tasks.
    [Scheduler.sched] is what is fixed once the run has started.

    The engine calls a backend for one Task ([Engine.BackendRunTask], a call of the program
    [runOne]; [DockerRun.RunTask] implements it, [to_TaskResult] being its answer) or for the
    whole run ([EngineCluster.PipelineBackend], the cluster's way).  A backend's own
    state is explicit: [Docker.Backend] and the sidecars of a Task for docker, the
    tracker and the last object seen for the watch.  [Cli.runWith] calls the engine as one
    call ([RunEngine]) between opening the run's record and finalizing it.

    ** What the theorems show

    - Runs (RunProps): every interleaving ends, within a bound on its steps; each
      task gets exactly one outcome, kept from then on; the final status is a
      function of the outcomes and of the contexts that ended; a task never starts
      before its ancestors have outcomes that let it start; at most MaxParallel
      goroutines run; finally tasks see the final statuses of the main tasks.
    - Validator: what a validated bundle guarantees to the engine.
    - Graph, matrix, substitution, results, steps, policy: the functional
      behaviour of each operation on every branch, against a direct specification
      (reachability, assignments of values, a one-pass substitution, ...), for
      every order in which the runtime may range over a map ([MapRange]).
    - Loader: loading files is loading their documents in order into one bundle;
      where volume data comes from and that its keys stay below their directory.
    - Cluster backend: the outcomes read back are those of the engine's own
      expansion, whatever order the objects arrive in; the tracker reports each
      transition once; the watch ends; what is submitted has the schema's shape.
    - Docker backend, for every answer of the daemon: no container or volume
      outlives its Task or run; each sidecar ends once; a Task's status and results
      follow from its Steps; nothing is mounted or extracted outside its directory;
      what is not supported is refused before the first call.
    - Workspaces and volumes: for every answer of the file system nothing outside the
      run's own directories is changed; what a volume's directory holds in the end.
    - Ref resolvers: which resolver is asked, once a run; the allow-list comes before
      every cache; offline runs call nothing and replay what was fetched; each
      resolver's requests, retries and limits; the git resolver stays in its clone;
      waiting for a remote resolution ends; redaction hides credentials.
    - Run store: wherever a process dies, index.json stays readable and one step from
      what it was; run numbers are never used twice; a run that was recorded or ended is
      found so by readers; pruning follows the rule of its documentation.
    - Schema: what a decoder accepts is what an encoder of the tags writes; a loaded
      Pipeline reaches the cluster with every field it had.
    - Logs, events, replay: a stream is cut into its lines, whatever the chunks; an event
      log replays to the events that were emitted, also when the process died at the end
      of a line, and prints what the run printed, lists and rounded durations apart; the
      log of a container is opened once it has started, and its lines are those of that log.
    - Command line: a run that began is recorded and finalized with the code the process
      ends with; validate accepts what run accepts; the queries change nothing, down to the
      store's own calls, and each cause of failure has its exit code; help-json lists what is
      reachable, once.
    - Cluster bring-up: Tekton is applied exactly when it is missing or of another version,
      and waiting for it ends; the driver creates and deletes only its own cluster.
    - Dialling: no connection outlives a dial that fails; a handshake has a deadline, ends
      with its context, and checks the host's key.
    - Where the code does not do what it means to, the theorem says so: the row
      count that overflows, the attempt number after a timeout, the validator's
      narrower pattern, fields dropped when a StepAction is inlined, the docker
      check that cannot fire, retention periods beyond the range of a Duration, names
      with ".." that lead out of the run's directories.

    ** Bounds and fuel

    [Dag.levels_loop] has one unit of fuel per node and one more, since a round
    removes a node; [Dag.desc_loop] one per edge target, since a push marks one;
    both are proved to return a result.  The matrix odometer runs as many rounds
    as there are rows.  The scheduler needs no fuel: [Invariants.work] bounds the
    steps left.  The watch loop recurses over the answers of the API server.
    Polling a remote resolution has one round per poll interval of its timeout and two
    more; [ResolverProps.remote_returns] shows that they are enough.  The wait for a rollout
    has the rounds of two seconds of its timeout and two more ([ClusterUpProps.Install_returns]);
    scanning a stream one per byte and one more.  Following a container's log and waiting
    for a pod go on until the context ends: their fuel counts rounds, and [Waiting] is
    answered only after that many pauses.  Programs of
    calls are finite trees and always return.  Machine integers are 64-bit with wrap-around ([wrap64]).

    ** Parameters

    The conversion of YAML to JSON ([SchemaJson.YamlToJson]) and the JSON of the core types
    with its round trip; the Kubernetes types that are only carried along ([TektonTypes.CoreV1]) and
    their fields where they are read ([Docker.SecurityView]); the services the
    engine reads from ([Engine.Services], whose answers are arguments of the steps), and the
    random bytes of a run's ID ([Run.Entropy]);
    the decoding of YAML documents ([Loader.Yaml]), the accessors of unstructured
    objects ([ClusterStatus.Unstructured]), the JSON of core types
    ([ClusterSubmit.CoreJson]), the API server's answers, fmt's scan of a float
    ([Docker.FloatScan]); the raw YAML view of step refs in the validator.  The
    results snapshot of a dispatched task is taken in the same step as its dispatch
    test.  url.Parse and its kin ([RefCache.NetUrl]), the ULID library
    ([RunIndex.Ulid]), this host's name and processes ([RunIndex.Host]) and the names of
    temporary files ([RunStoreProps.TempFiles]) are classes; the resolvers are one for
    the registry ([RefRegistry.ResolverI]), with the code's as an instance.  A root context ends only by cancellation.  The daemon, the file system
    and the clock are the answers of a program's calls, and theorems hold for all of
    them.

    ** Not modelled

    Processes that use the store at the same time: the lock of the index is always granted,
    and histories of store operations are sequential.  The order sort.Slice gives to rows of
    one index: it is the map's.  The demultiplexing of a container's log stream over io.Pipe (stdcopy), the waits of
    the backends for their log goroutines, the transports of the API clients and the
    redirect policy given to the HTTP client, the parsing of flags and the help text (cobra,
    pflag); clock readings and debug events of the engine.  Writes of a reporter to the
    terminal and to its file succeed; the local time zone is UTC; numbers inside a value of
    type any keep their text, and whole numbers lie within 2^53.  Two spellings of a key
    differing in case that decode into one slice, the second into the first's memory, are
    not followed ([SchemaProps.tidy] excludes them).  The tree of [Fs] has no symbolic links, permissions or
    full disks, and a rename of a folder fails; theorems over all answers of the file
    system do not depend on it.  The JSON reader of [JsonText] takes times as
    encoding/json writes them. *)

From Stdlib Require Export Ascii String.
From stdpp Require Export base tactics list strings gmap sorting fin_maps.
From Stdlib Require Export ZArith Lia.

#[global] Set Default Goal Selector "!".
#[global] Open Scope Z_scope.
#[global] Open Scope string_scope.
#[global] Open Scope list_scope.
#[global] Open Scope nat_scope.

(** ** Texts: the values of [fmt.Errorf] / [fmt.Sprintf]

    A Go error or message built by a format string is kept as the
    format together with its arguments.  Two texts are equal when they come
    from the same call site with the same arguments.  [TErr] is a wrapped
    error ([%w] / [err.Error()]); [Sentinel] is an [errors.New] package
    variable, compared by [errors.Is]. *)
Inductive text : Type :=
  | Sentinel (name : string)
  | Fmt (format : string) (args : list targ)
with targ : Type :=
  | TStr (s : string)
  | TInt (z : Z)
  | TStrs (l : list string)
  | TErr (t : text).

(** A message that is a plain string literal. *)
Definition lit (s : string) : text := Fmt s [].

(** The empty message [""]. *)
Definition no_text : text := lit "".

(** ** Fallible computations: Go's [(T, error)] *)
Inductive result (A : Type) : Type :=
  | Ok (a : A)
  | Err (e : text).
Arguments Ok {A} a.
Arguments Err {A} e.

#[export] Instance result_ret : MRet result := fun A a => Ok a.
#[export] Instance result_bind : MBind result := fun A B f r =>
  match r with Ok a => f a | Err e => Err e end.
#[export] Instance result_fmap : FMap result := fun A B f r =>
  match r with Ok a => Ok (f a) | Err e => Err e end.

(** Wrap an error the way [fmt.Errorf("...: %w", args, err)] does. *)
Definition wrap_err {A} (f : string) (args : list targ) (r : result A) : result A :=
  match r with Ok a => Ok a | Err e => Err (Fmt f (args ++ [TErr e])) end.

Definition is_ok {A} (r : result A) : bool :=
  match r with Ok _ => true | Err _ => false end.

(** A loop [for _, x := range l { y, err := f(x); if err != nil { return err } ... }]
    collecting the [y]s in order and stopping at the first error. *)
Fixpoint collect {A B} (f : A -> result B) (l : list A) : result (list B) :=
  match l with
  | [] => Ok []
  | x :: l' =>
    match f x with
    | Err e => Err e
    | Ok y => match collect f l' with Err e => Err e | Ok ys => Ok (y :: ys) end
    end
  end.

(** The same loop over an accumulator. *)
Fixpoint foldM {A S} (f : S -> A -> result S) (s : S) (l : list A) : result S :=
  match l with
  | [] => Ok s
  | x :: l' => match f s x with Err e => Err e | Ok s' => foldM f s' l' end
  end.

Lemma collect_ok_Forall2 {A B} (f : A -> result B) l ys :
  collect f l = Ok ys <-> Forall2 (fun x y => f x = Ok y) l ys.
Proof.
  revert ys; induction l as [|x l IH]; intros ys; simpl.
  - split; [by intros [= <-]; constructor | by inversion 1].
  - split.
    + destruct (f x) eqn:Hx; [|done]. destruct (collect f l) eqn:Hl; [|done].
      intros [= <-]. constructor; [done|]. by apply IH.
    + inversion 1 as [|? y ? ys' Hx Hl]; subst. rewrite Hx.
      apply IH in Hl. by rewrite Hl.
Qed.

Lemma foldM_app {A S} (f : S -> A -> result S) s l1 l2 :
  foldM f s (l1 ++ l2) = match foldM f s l1 with Ok s' => foldM f s' l2 | Err e => Err e end.
Proof. revert s; induction l1 as [|x l1 IH]; intros s; simpl; [done|]. by destruct (f s x). Qed.

Lemma collect_length {A B} (f : A -> result B) l ys :
  collect f l = Ok ys -> length ys = length l.
Proof. intros H%collect_ok_Forall2. symmetry. by eapply Forall2_length. Qed.

Lemma collect_ext {A B} (f g : A -> result B) l :
  (forall x, x ∈ l -> f x = g x) -> collect f l = collect g l.
Proof.
  induction l as [|x l IH]; intros Hfg; simpl; [done|].
  rewrite Hfg by set_solver. rewrite IH; [done|]. intros; apply Hfg; set_solver.
Qed.

Lemma collect_err {A B} (f : A -> result B) l e :
  collect f l = Err e -> exists x, x ∈ l /\ f x = Err e.
Proof.
  induction l as [|x l IH]; simpl; [done|].
  destruct (f x) eqn:Hx.
  - destruct (collect f l); [done|]. intros [= ->].
    destruct IH as (z & ? & ?); [done|]. exists z; set_solver.
  - intros [= ->]. exists x; set_solver.
Qed.

Lemma submseteq_NoDup {A} (l k : list A) : NoDup k -> l ⊆+ k -> NoDup l.
Proof. intros Hk [k' Hp]%submseteq_Permutation. rewrite Hp in Hk. by apply NoDup_app in Hk as [? _]. Qed.

(** ** Map iteration order

    Go leaves the iteration order of [range m] unspecified.  Every definition
    that ranges over a map takes an instance of [MapRange], the order the
    runtime picked; theorems hold for every instance. *)
Class MapRange := {
  map_range : forall {A : Type}, gmap string A -> list (string * A);
  map_range_perm : forall {A : Type} (m : gmap string A),
    map_range m ≡ₚ map_to_list m;
}.

(** One concrete order, used to evaluate definitions on inputs. *)
Definition default_range : MapRange.
Proof. refine {| map_range := fun A m => map_to_list m |}. done. Defined.

(** Another one. *)
Definition reverse_range : MapRange.
Proof.
  refine {| map_range := fun A m => rev (map_to_list m) |}. intros A m. symmetry. apply Permutation_rev.
Defined.

Section map_range.
Context `{MapRange}.

Lemma elem_of_map_range {A} (m : gmap string A) k v :
  (k, v) ∈ map_range m <-> m !! k = Some v.
Proof. rewrite map_range_perm. apply elem_of_map_to_list. Qed.

Lemma map_range_keys_NoDup {A} (m : gmap string A) : NoDup (map_range m).*1.
Proof. rewrite map_range_perm. apply NoDup_fst_map_to_list. Qed.

Lemma elem_of_map_range_keys {A} (m : gmap string A) k :
  k ∈ (map_range m).*1 <-> is_Some (m !! k).
Proof.
  rewrite list_elem_of_fmap. split.
  - intros ([k' v] & -> & Hin%elem_of_map_range). by exists v.
  - intros [v Hv]. exists (k, v). split; [done|]. by apply elem_of_map_range.
Qed.
End map_range.

(** Keys of a [map[string]struct{}] set, in range order. *)
Definition set_range `{MapRange} (s : gmap string unit) : list string :=
  (map_range s).*1.

(** ** [sort.Strings] *)
Definition sort_strings (l : list string) : list string := merge_sort String.le l.

Lemma sort_strings_perm l : sort_strings l ≡ₚ l.
Proof. apply merge_sort_Permutation. Qed.

Lemma elem_of_sort_strings l x : x ∈ sort_strings l <-> x ∈ l.
Proof. by rewrite sort_strings_perm. Qed.

Lemma sort_strings_length l : length (sort_strings l) = length l.
Proof. by rewrite sort_strings_perm. Qed.

Lemma sort_strings_NoDup l : NoDup (sort_strings l) <-> NoDup l.
Proof. by rewrite sort_strings_perm. Qed.

Lemma sort_strings_sorted l : StronglySorted String.le (sort_strings l).
Proof. apply StronglySorted_merge_sort; apply _. Qed.

(** ** [sort.SliceStable]: elements none of which is less than the other keep
    their order. *)
Section stable_sort.
Context {A : Type} (less : A -> A -> bool).

Fixpoint stable_insert (x : A) (l : list A) : list A :=
  match l with
  | [] => [x]
  | y :: l' => if less y x then y :: stable_insert x l' else x :: l
  end.

Definition stable_sort (l : list A) : list A := foldr stable_insert [] l.

Lemma stable_insert_perm x l : stable_insert x l ≡ₚ x :: l.
Proof.
  induction l as [|y l IH]; simpl; [done|]. destruct (less y x); [|done].
  rewrite IH. apply Permutation_swap.
Qed.

Lemma stable_sort_perm l : stable_sort l ≡ₚ l.
Proof. induction l as [|x l IH]; simpl; [done|]. by rewrite stable_insert_perm, IH. Qed.

(** For a strict weak order. *)
Context (Htr : forall x y z, less y x = false -> less z y = false -> less z x = false)
  (Has : forall x y, less x y = true -> less y x = false).

Lemma stable_insert_sorted x l :
  StronglySorted (fun a b => less b a = false) l ->
  StronglySorted (fun a b => less b a = false) (stable_insert x l).
Proof.
  induction 1 as [|y l Hl IH Hy]; simpl; [repeat constructor|].
  destruct (less y x) eqn:E.
  - constructor; [done|]. rewrite Forall_forall in *. intros z.
    rewrite stable_insert_perm, elem_of_cons. intros [->|Hz]; [by apply Has|by apply Hy].
  - constructor; [by constructor|]. constructor; [done|].
    eapply Forall_impl; [exact Hy|]. intros z Hz. by eapply Htr.
Qed.

Lemma stable_sort_sorted l : StronglySorted (fun a b => less b a = false) (stable_sort l).
Proof. induction l; simpl; [constructor|]. by apply stable_insert_sorted. Qed.
End stable_sort.

(** Sorting makes a result independent of the iteration order. *)
Lemma sort_strings_perm_eq l1 l2 : l1 ≡ₚ l2 -> sort_strings l1 = sort_strings l2.
Proof.
  intros Hp. eapply (StronglySorted_unique String.le).
  - apply sort_strings_sorted.
  - apply sort_strings_sorted.
  - by rewrite !sort_strings_perm.
Qed.

(** ** Merging named lists

    The loop shared by [mergeParams] and [mergeEnv]: every base entry in order,
    replaced by the last override of the same name, then the overrides whose
    name no base entry has. *)
Section merge_named.
Context {A : Type} (name : A -> string).

(** [rowIdx[p.Name] = i] for every override: the last index wins. *)
Definition row_index (row : list A) : gmap string nat :=
  foldl (fun (m : gmap string nat) ip => <[name ip.2 := ip.1]> m) ∅ (imap pair row).

Definition merge_named (base row : list A) : list A :=
  map (fun p => match row_index row !! name p with
                | Some i => default p (row !! i)
                | None => p
                end) base
  ++ filter (fun p => name p ∉ map name base) row.

(** The last entry called [n]: what assigning the entries in order leaves. *)
Definition last_named (n : string) (l : list A) : option A :=
  foldl (fun o p => if String.eqb (name p) n then Some p else o) None l.

Lemma last_named_snoc n l p :
  last_named n (l ++ [p]) = if String.eqb (name p) n then Some p else last_named n l.
Proof. unfold last_named. by rewrite foldl_app. Qed.

Lemma row_index_snoc row p : row_index (row ++ [p]) = <[name p := length row]> (row_index row).
Proof. unfold row_index. rewrite imap_app, foldl_app. simpl. by rewrite Nat.add_0_r. Qed.

(** The index points at the last override of that name. *)
Lemma row_index_lookup row n :
  match row_index row !! n with
  | Some i => exists p, row !! i = Some p /\ name p = n /\ last_named n row = Some p
  | None => last_named n row = None /\ n ∉ map name row
  end.
Proof.
  induction row as [|p row IH] using rev_ind; [by split; [|apply not_elem_of_nil]|].
  rewrite row_index_snoc, last_named_snoc.
  destruct (String.eqb_spec (name p) n) as [<-|Hne].
  - rewrite lookup_insert_eq. exists p. rewrite lookup_app_r, Nat.sub_diag by lia. done.
  - rewrite lookup_insert_ne by done. destruct (row_index row !! n) as [i|].
    + destruct IH as (q & Hq & ? & ?). exists q. split; [|done].
      by apply lookup_app_l_Some.
    + destruct IH as [? Hn]. split; [done|]. rewrite map_app. simpl. set_solver.
Qed.

(** The override of a base entry carries the base entry's name. *)
Lemma merge_named_base_name row p :
  name (match row_index row !! name p with Some i => default p (row !! i) | None => p end) = name p.
Proof.
  pose proof (row_index_lookup row (name p)) as Hr.
  destruct (row_index row !! name p); [|done]. by destruct Hr as (q & -> & ? & _).
Qed.

Lemma last_named_app n l1 l2 :
  last_named n (l1 ++ l2) =
    match last_named n l2 with Some p => Some p | None => last_named n l1 end.
Proof.
  induction l2 as [|p l2 IH] using rev_ind; [by rewrite app_nil_r|].
  rewrite app_assoc, !last_named_snoc. destruct (String.eqb (name p) n); [done|]. apply IH.
Qed.

Lemma last_named_None n l : last_named n l = None <-> n ∉ map name l.
Proof.
  induction l as [|p l IH] using rev_ind; [by split; intros; [apply not_elem_of_nil|]|].
  rewrite map_app, last_named_snoc, elem_of_app. simpl. rewrite list_elem_of_singleton.
  destruct (String.eqb_spec (name p) n) as [<-|Hne]; [split; [done|tauto]|].
  rewrite IH. split; [intros Hn [?|?]; [tauto|by apply Hne]|tauto].
Qed.

Lemma last_named_filter (P : A -> Prop) `{!forall x, Decision (P x)} n l :
  (forall p, name p = n -> P p) -> last_named n (filter P l) = last_named n l.
Proof.
  intros HP. induction l as [|p l IH] using rev_ind; [done|].
  rewrite filter_app, last_named_app, IH, last_named_snoc, filter_cons, filter_nil.
  destruct (decide (P p)) as [?|HnP].
  - change [p] with ([] ++ [p]). rewrite last_named_snoc. by destruct (String.eqb (name p) n).
  - simpl. destruct (String.eqb_spec (name p) n) as [Hn|]; [by apply HP in Hn|done].
Qed.

Lemma last_named_overridden n base row :
  last_named n (map (fun p => match row_index row !! name p with
                              | Some i => default p (row !! i)
                              | None => p
                              end) base) =
    match last_named n base with
    | Some b => Some (default b (last_named n row))
    | None => None
    end.
Proof.
  induction base as [|p base IH] using rev_ind; [done|].
  rewrite map_app. cbn [map]. rewrite !last_named_snoc, IH, merge_named_base_name.
  destruct (String.eqb_spec (name p) n) as [<-|]; [|done].
  pose proof (row_index_lookup row (name p)) as Hr. destruct (row_index row !! name p).
  - destruct Hr as (q & -> & _ & ->). done.
  - by destruct Hr as [-> _].
Qed.

(** Overrides win; the last entry of a name counts on both sides. *)
Lemma merge_named_last n base row :
  last_named n (merge_named base row) =
    match last_named n row with Some p => Some p | None => last_named n base end.
Proof.
  unfold merge_named. rewrite last_named_app, last_named_overridden.
  destruct (last_named n base) as [b|] eqn:Eb.
  - assert (last_named n (filter (fun p => name p ∉ map name base) row) = None) as ->.
    { apply last_named_None. intros (p & -> & [Hp _]%list_elem_of_filter)%list_elem_of_fmap.
      apply last_named_None in Hp. congruence. }
    by destruct (last_named n row).
  - rewrite last_named_filter; [by destruct (last_named n row)|].
    intros p <-. by apply last_named_None.
Qed.

(** Base entries keep their places; the row-only entries follow. *)
Lemma merge_named_names base row :
  map name (merge_named base row) =
    map name base ++ filter (fun n => n ∉ map name base) (map name row).
Proof.
  unfold merge_named. rewrite map_app. f_equal.
  - rewrite map_map. apply map_ext. intros p. apply merge_named_base_name.
  - generalize (map name base) as bn. intros bn. induction row as [|p row IH]; [done|].
    simpl. rewrite !filter_cons.
    destruct (decide (name p ∉ bn)); simpl; by rewrite IH.
Qed.
End merge_named.

(** ** Hint databases *)
Create HintDb tkn discriminated.
Create Rewrite HintDb tkn.
#[export] Hint Resolve sort_strings_sorted sort_strings_perm : tkn.
#[export] Hint Rewrite sort_strings_length : tkn.

(** ** Generic lemmas *)
Lemma String_eqb_decide (a b : string) : String.eqb a b = bool_decide (a = b).
Proof.
  case_bool_decide as Hab; [subst; apply String.eqb_refl | by apply String.eqb_neq].
Qed.

(** Break a hypothesis [match r with Ok .. | Err .. end = Ok y]. *)
Ltac inv_result :=
  repeat match goal with
  | H : context [match ?r with Ok _ => _ | Err _ => _ end] |- _ =>
      let E := fresh "E" in destruct r eqn:E; simplify_eq/=
  | H : Ok _ = Ok _ |- _ => injection H as H; subst
  end.

(** In a goal [x ← r; k x = Ok y -> P], keep the case where [r] succeeds. *)
Ltac bind_ok :=
  match goal with |- mbind _ ?r = Ok _ -> _ =>
    let E := fresh "E" in destruct r eqn:E; [|done]; cbn [mbind result_bind]; cbv zeta end.

(** Break all [if] / [match] heads of the goal. *)
Ltac split_matches := repeat (case_match; simplify_eq/=; try done).
