(* ===== verification/GoStrings.v ===== *)
(** * Go's [strings] and [strconv] functions

    The standard-library string operations the program calls, on byte strings,
    with the lemmas the components share.  A Go [string] is a [string] of
    bytes; an index result [-1] is [None]. *)

From stdpp Require Import pretty.
From S2P Require Import Prelude.

(** ** Definitions *)

(** [strings.HasPrefix(s, p)] and the rest of [s] after [p]. *)
Fixpoint strip_prefix (p s : string) : option string :=
  match p, s with
  | "", _ => Some s
  | String a p', String b s' => if Ascii.eqb a b then strip_prefix p' s' else None
  | String _ _, "" => None
  end.

Definition has_prefix (s p : string) : bool :=
  match strip_prefix p s with Some _ => true | None => false end.

(** [strings.TrimPrefix]. *)
Definition trim_prefix (s p : string) : string := default s (strip_prefix p s).

(** The part of [s] before a trailing [p]. *)
Fixpoint strip_suffix (p s : string) : option string :=
  if String.eqb s p then Some "" else
  match s with
  | "" => None
  | String a s' => String a <$> strip_suffix p s'
  end.

Definition has_suffix (s p : string) : bool :=
  match strip_suffix p s with Some _ => true | None => false end.

(** [strings.TrimSuffix]. *)
Definition trim_suffix (s p : string) : string := default s (strip_suffix p s).

(** [strings.Index] as a cut: the text before the first [sep] and after it. *)
Fixpoint cut (sep s : string) : option (string * string) :=
  match strip_prefix sep s with
  | Some t => Some ("", t)
  | None =>
    match s with
    | "" => None
    | String a s' =>
      match cut sep s' with
      | Some (b, t) => Some (String a b, t)
      | None => None
      end
    end
  end.

(** [strings.LastIndex] for a one-byte separator, as a cut. *)
Fixpoint cut_last (c : ascii) (s : string) : option (string * string) :=
  match s with
  | "" => None
  | String a s' =>
    match cut_last c s' with
    | Some (b, t) => Some (String a b, t)
    | None => if Ascii.eqb a c then Some ("", s') else None
    end
  end.

Definition contains (s sub : string) : bool :=
  match cut sub s with Some _ => true | None => false end.

(** [strings.SplitN(s, sep, n)] for [n > 0] and a non-empty [sep]. *)
Fixpoint split_n (s sep : string) (n : nat) : list string :=
  match n with
  | O => []
  | S O => [s]
  | S n' => match cut sep s with
            | None => [s]
            | Some (a, b) => a :: split_n b sep n'
            end
  end.

(** The prefix of [s] up to the first byte satisfying [p] ([strings.IndexAny]). *)
Fixpoint before_any (p : ascii -> bool) (s : string) : string :=
  match s with
  | "" => ""
  | String a s' => if p a then "" else String a (before_any p s')
  end.

(** [strings.Count] of a one-byte substring. *)
Fixpoint count_byte (c : ascii) (s : string) : nat :=
  match s with
  | "" => 0
  | String a s' => (if Ascii.eqb a c then 1 else 0) + count_byte c s'
  end.

(** [strings.ReplaceAll(s, old, new)] for a non-empty [old]: non-overlapping
    occurrences from the left; [skip] bytes of the last occurrence remain. *)
Fixpoint replace_go (old new : string) (skip : nat) (s : string) : string :=
  match s with
  | "" => ""
  | String a s' =>
    match skip with
    | S n => replace_go old new n s'
    | O => if has_prefix s old
           then new +:+ replace_go old new (String.length old - 1) s'
           else String a (replace_go old new 0 s')
    end
  end.

Definition replace_all (s old new : string) : string := replace_go old new 0 s.

(** [strings.Join]. *)
Fixpoint join (sep : string) (l : list string) : string :=
  match l with
  | [] => ""
  | [x] => x
  | x :: l' => x +:+ sep +:+ join sep l'
  end.

(** [strings.ToLower].  ASCII letters are lowered; of the non-ASCII runes only
    U+0130 (to [i]) and U+212A (to [k]) have an ASCII lower case, the others
    map to non-ASCII runes and are left as they are: the program compares
    results with ASCII constants only. *)
Definition lower_byte (a : ascii) : ascii :=
  let n := nat_of_ascii a in
  if (65 <=? n) && (n <=? 90) then ascii_of_nat (n + 32) else a.

Fixpoint to_lower (s : string) : string :=
  match s with
  | "" => ""
  | String a s' =>
    match a, s' with
    | "196"%char, String "176"%char t => String "i"%char (to_lower t)
    | "226"%char, String "132"%char (String "170"%char t) => String "k"%char (to_lower t)
    | _, _ => String (lower_byte a) (to_lower s')
    end
  end.

(** [strconv.Itoa]. *)
Definition itoa (z : Z) : string := pretty z.

Definition is_digit (a : ascii) : bool :=
  let n := nat_of_ascii a in (48 <=? n) && (n <=? 57).

Fixpoint digits_val (acc : Z) (s : string) : option Z :=
  match s with
  | "" => Some acc
  | String a s' =>
    if is_digit a then digits_val (acc * 10 + Z.of_nat (nat_of_ascii a - 48))%Z s' else None
  end.

Definition max_int : Z := (2 ^ 63 - 1)%Z.
Definition min_int : Z := (- 2 ^ 63)%Z.

(** 64-bit [int] arithmetic wraps around. *)
Definition wrap64 (z : Z) : Z := ((z + 2 ^ 63) mod 2 ^ 64 - 2 ^ 63)%Z.

(** [strconv.Atoi] on a 64-bit platform: [None] on a syntax or range error. *)
Definition atoi (s : string) : option Z :=
  let '(neg, d) := match s with
                   | String "-"%char t => (true, t)
                   | String "+"%char t => (false, t)
                   | _ => (false, s)
                   end in
  if String.eqb d "" then None else
  v ← digits_val 0 d;
  let z := if neg : bool then (- v)%Z else v in
  if (min_int <=? z)%Z && (z <=? max_int)%Z then Some z else None.

(** [strings.TrimSpace]: the encodings of the white-space runes. *)
Definition bytes_str (l : list nat) : string := String.string_of_list_ascii (map ascii_of_nat l).

Definition space_runes : list string :=
  map bytes_str
    ([[9]; [10]; [11]; [12]; [13]; [32]; [194; 133]; [194; 160]; [225; 154; 128]]
     ++ map (fun n => [226; 128; n]) (seq 128 11)
     ++ [[226; 128; 168]; [226; 128; 169]; [226; 128; 175]; [226; 129; 159]; [227; 128; 128]]).

Fixpoint trim_with (strip : string -> string -> option string) (fuel : nat) (s : string) : string :=
  match fuel with
  | O => s
  | S f =>
    match head (omap (fun r => strip r s) space_runes) with
    | Some s' => trim_with strip f s'
    | None => s
    end
  end.

Definition trim_space (s : string) : string :=
  let l := trim_with strip_prefix (String.length s) s in
  trim_with strip_suffix (String.length l) l.

Example trim_space_ex : trim_space (bytes_str [32; 9; 226; 128; 131; 97; 32; 98; 194; 160; 10]) = "a b".
Proof. vm_compute. reflexivity. Qed.

(** ** Lemmas *)

Lemma wrap64_id z : (min_int <= z <= max_int)%Z -> wrap64 z = z.
Proof. unfold wrap64, min_int, max_int. intros H. rewrite Z.mod_small; lia. Qed.

Lemma wrap64_range z : (min_int <= wrap64 z <= max_int)%Z.
Proof.
  unfold wrap64, min_int, max_int. pose proof (Z.mod_pos_bound (z + 2 ^ 63) (2 ^ 64)). lia.
Qed.

Lemma str_app_nil_r s : s +:+ "" = s.
Proof. induction s as [|a s IH]; [done|]. change (String a (s +:+ "") = String a s). by rewrite IH. Qed.

Lemma str_app_assoc a b c : a +:+ (b +:+ c) = (a +:+ b) +:+ c.
Proof.
  induction a as [|x a IH]; [done|].
  change (String x (a +:+ (b +:+ c)) = String x ((a +:+ b) +:+ c)). by rewrite IH.
Qed.

Lemma str_app_cons x a b : String x a +:+ b = String x (a +:+ b).
Proof. done. Qed.

Lemma str_app_nil_l s : "" +:+ s = s.
Proof. done. Qed.

Lemma str_length_app a b : String.length (a +:+ b) = String.length a + String.length b.
Proof. induction a as [|x a IH]; [done|]. rewrite str_app_cons; simpl. by rewrite IH. Qed.

Lemma str_app_inj_r a b c : a +:+ c = b +:+ c -> a = b.
Proof.
  revert b; induction a as [|x a IH]; intros [|y b]; rewrite ?str_app_cons, ?str_app_nil_l.
  - done.
  - intros H. apply (f_equal String.length) in H. simpl in H. rewrite str_length_app in H. lia.
  - intros H. apply (f_equal String.length) in H. simpl in H. rewrite str_length_app in H. lia.
  - intros [= -> H]. f_equal. by apply IH.
Qed.

Lemma strip_prefix_Some p s t : strip_prefix p s = Some t <-> s = p +:+ t.
Proof.
  revert s; induction p as [|a p IH]; intros s; simpl.
  - rewrite str_app_nil_l. naive_solver.
  - rewrite str_app_cons. destruct s as [|b s]; [done|].
    destruct (Ascii.eqb_spec a b) as [->|Hab].
    + rewrite IH. naive_solver.
    + split; [done|]. intros [=]; congruence.
Qed.

Lemma strip_prefix_app p s : strip_prefix p (p +:+ s) = Some s.
Proof. by apply strip_prefix_Some. Qed.

Lemma has_prefix_app p s : has_prefix (p +:+ s) p = true.
Proof. unfold has_prefix. by rewrite strip_prefix_app. Qed.

Lemma has_prefix_true s p : has_prefix s p = true <-> exists t, s = p +:+ t.
Proof.
  unfold has_prefix. destruct (strip_prefix p s) as [t|] eqn:H.
  - apply strip_prefix_Some in H. naive_solver.
  - split; [done|]. intros [t ->]. by rewrite strip_prefix_app in H.
Qed.

Lemma trim_prefix_app p s : trim_prefix (p +:+ s) p = s.
Proof. unfold trim_prefix. by rewrite strip_prefix_app. Qed.

Lemma strip_suffix_app p s : strip_suffix p (s +:+ p) = Some s.
Proof.
  induction s as [|a s IH].
  - rewrite str_app_nil_l. destruct p as [|b p]; [done|].
    unfold strip_suffix. by rewrite String.eqb_refl.
  - rewrite str_app_cons. cbn [strip_suffix]. destruct (String.eqb_spec (String a (s +:+ p)) p) as [Heq|_].
    + apply (f_equal String.length) in Heq. simpl in Heq. rewrite str_length_app in Heq. lia.
    + by rewrite IH.
Qed.

Lemma strip_suffix_Some p s t : strip_suffix p s = Some t <-> s = t +:+ p.
Proof.
  split; [|intros ->; apply strip_suffix_app].
  revert t; induction s as [|a s IH]; intros t; cbn [strip_suffix].
  - destruct (String.eqb_spec "" p) as [<-|]; [|done]. by intros [= <-].
  - destruct (String.eqb_spec (String a s) p) as [<-|]; [by intros [= <-]|].
    destruct (strip_suffix p s) as [u|]; [|done]. simpl. intros [= <-].
    rewrite str_app_cons. f_equal. by apply IH.
Qed.

Lemma has_suffix_true s p : has_suffix s p = true <-> exists t, s = t +:+ p.
Proof.
  unfold has_suffix. destruct (strip_suffix p s) as [t|] eqn:H.
  - apply strip_suffix_Some in H. naive_solver.
  - split; [done|]. intros [t ->]. by rewrite strip_suffix_app in H.
Qed.

Lemma trim_suffix_app p s : trim_suffix (s +:+ p) p = s.
Proof. unfold trim_suffix. by rewrite strip_suffix_app. Qed.

Lemma cut_Some sep s a b : cut sep s = Some (a, b) -> s = a +:+ sep +:+ b.
Proof.
  revert a b; induction s as [|x s IH]; intros a b; simpl.
  - destruct (strip_prefix sep "") eqn:H; [|done]. intros [= <- <-].
    by apply strip_prefix_Some in H.
  - destruct (strip_prefix sep (String x s)) eqn:H.
    + intros [= <- <-]. by apply strip_prefix_Some in H.
    + destruct (cut sep s) as [[b' t]|]; [|done]. intros [= <- <-].
      rewrite str_app_cons. f_equal. by apply IH.
Qed.

(** A one-byte separator is cut at its first occurrence. *)
Fixpoint no_byte (c : ascii) (s : string) : bool :=
  match s with
  | "" => true
  | String a s' => negb (Ascii.eqb a c) && no_byte c s'
  end.

Lemma cut_byte_first c a b :
  no_byte c a = true -> cut (String c "") (a +:+ String c b) = Some (a, b).
Proof.
  induction a as [|x a IH]; intros Ha; [rewrite str_app_nil_l | rewrite str_app_cons]; simpl.
  - by rewrite Ascii.eqb_refl.
  - simpl in Ha. apply andb_true_iff in Ha as [Hx%negb_true_iff Ha].
    rewrite Ascii.eqb_sym, Hx. by rewrite IH.
Qed.

(** A separator whose first byte is not in [a] is found after [a]. *)
Lemma cut_first c sep a b :
  no_byte c a = true -> cut (String c sep) (a +:+ String c sep +:+ b) = Some (a, b).
Proof.
  induction a as [|x a IH]; intros Ha; [rewrite str_app_nil_l | rewrite str_app_cons].
  - rewrite str_app_cons. cbn [cut strip_prefix].
    rewrite Ascii.eqb_refl, strip_prefix_app. done.
  - simpl in Ha. apply andb_true_iff in Ha as [Hx%negb_true_iff Ha]. cbn [cut strip_prefix].
    rewrite Ascii.eqb_sym, Hx. by rewrite IH.
Qed.

Lemma cut_byte_none c a : no_byte c a = true -> cut (String c "") a = None.
Proof.
  induction a as [|x a IH]; [done|]. simpl. intros [Hx%negb_true_iff Ha]%andb_true_iff.
  rewrite Ascii.eqb_sym, Hx. by rewrite IH.
Qed.

Lemma no_byte_app c a b : no_byte c (a +:+ b) = no_byte c a && no_byte c b.
Proof.
  induction a as [|x a IH]; [done|]. rewrite str_app_cons; simpl.
  by rewrite IH, andb_assoc.
Qed.

Lemma cut_last_Some c s a b : cut_last c s = Some (a, b) -> s = a +:+ String c b.
Proof.
  revert a b; induction s as [|x s IH]; intros a b; cbn [cut_last]; [done|].
  destruct (cut_last c s) as [[a' b']|].
  - intros [= <- <-]. rewrite str_app_cons. f_equal. by apply IH.
  - destruct (Ascii.eqb_spec x c) as [->|]; [|done]. by intros [= <- <-].
Qed.

Lemma no_byte_trim_prefix c s p : no_byte c s = true -> no_byte c (trim_prefix s p) = true.
Proof.
  unfold trim_prefix. destruct (strip_prefix p s) as [t|] eqn:E; simpl; [|done].
  apply strip_prefix_Some in E as ->. rewrite no_byte_app. by intros [_ ?]%andb_true_iff.
Qed.

Lemma no_byte_trim_suffix c s p : no_byte c s = true -> no_byte c (trim_suffix s p) = true.
Proof.
  unfold trim_suffix. destruct (strip_suffix p s) as [t|] eqn:E; simpl; [|done].
  apply strip_suffix_Some in E as ->. rewrite no_byte_app. by intros [? _]%andb_true_iff.
Qed.

(** Every byte of [s] satisfies [p]. *)
Fixpoint str_all (p : ascii -> bool) (s : string) : bool :=
  match s with
  | "" => true
  | String a s' => p a && str_all p s'
  end.

Lemma str_all_app p a b : str_all p (a +:+ b) = str_all p a && str_all p b.
Proof.
  induction a as [|x a IH]; [done|]. rewrite str_app_cons; simpl. by rewrite IH, andb_assoc.
Qed.

Lemma str_all_no_byte p c s : p c = false -> str_all p s = true -> no_byte c s = true.
Proof.
  intros Hc. induction s as [|a s IH]; [done|]. simpl.
  intros [Ha Hs]%andb_true_iff. rewrite IH by done. rewrite andb_true_r.
  apply negb_true_iff, Ascii.eqb_neq. intros ->. congruence.
Qed.

Lemma str_all_impl (p q : ascii -> bool) s :
  (forall a, p a = true -> q a = true) -> str_all p s = true -> str_all q s = true.
Proof.
  intros Hpq. induction s as [|a s IH]; [done|]. simpl.
  intros [Ha Hs]%andb_true_iff. by rewrite Hpq, IH.
Qed.

Lemma replace_go_no_byte c old new s :
  no_byte c s = true -> replace_go (String c old) new 0 s = s.
Proof.
  induction s as [|x s IH]; [done|].
  cbn [no_byte replace_go]. intros [Hx%negb_true_iff Hs]%andb_true_iff.
  unfold has_prefix. cbn [strip_prefix]. rewrite Ascii.eqb_sym, Hx. f_equal. by apply IH.
Qed.

Lemma replace_all_no_byte c old new s :
  no_byte c s = true -> replace_all s (String c old) new = s.
Proof. apply replace_go_no_byte. Qed.

#[export] Hint Rewrite str_app_nil_r str_length_app : tkn.

#[export] Instance itoa_inj : Inj (=) (=) itoa.
Proof. unfold itoa. apply _. Qed.

Example itoa_ex : itoa 120 = "120". Proof. vm_compute. reflexivity. Qed.
Example atoi_ex : atoi "9223372036854775808" = None. Proof. vm_compute. reflexivity. Qed.
Example split_n_ex : split_n "steps.a.results.b.c" "." 4 = ["steps"; "a"; "results"; "b.c"].
Proof. vm_compute. reflexivity. Qed.
Example replace_ex : replace_all "a$$$$b$c" "$$" "D" = "aDDb$c". Proof. vm_compute. reflexivity. Qed.

Lemma cut_last_none c e : no_byte c e = true -> cut_last c e = None.
Proof.
  induction e as [|x e IH]; simpl; [done|]. intros [Hx He]%andb_true_iff. rewrite IH by done.
  by apply negb_true_iff in Hx as ->.
Qed.

Lemma cut_last_last c a e : no_byte c e = true -> cut_last c (a +:+ String c e) = Some (a, e).
Proof.
  intros He. induction a as [|x a IH]; simpl; [|by rewrite IH].
  rewrite cut_last_none by done. by rewrite Ascii.eqb_refl.
Qed.
