(* ===== verification/GoTime.v ===== *)
(** * Go's [time.ParseDuration]

    A [time.Duration] is its number of nanoseconds, a 64-bit integer.  The
    fraction of a field goes through [float64] in Go; the model computes it with
    the Standard Library's [SpecFloat] at 53 bits of precision. *)

From Stdlib Require Import SpecFloat.
From S2P Require Import Prelude GoStrings.

(** ** [float64] *)
Definition f64_of_Z (z : Z) : spec_float := binary_normalize 53 1024 z 0 false.
Definition f64_mul (a b : spec_float) : spec_float := SFmul 53 1024 a b.
Definition f64_div (a b : spec_float) : spec_float := SFdiv 53 1024 a b.
(** The conversion of a non-negative [float64] to [uint64] in range. *)
Definition uint64_of_f64 (f : spec_float) : Z :=
  match f with S754_finite false m e => Z.shiftl (Z.pos m) e | _ => 0%Z end.

Definition two63 : Z := (2 ^ 63)%Z.

Definition digit_val (a : ascii) : Z := Z.of_nat (nat_of_ascii a - 48).

(** [leadingInt]: [None] on overflow. *)
Fixpoint leadingInt (x : Z) (s : string) : option (Z * string) :=
  match s with
  | String a s' =>
    if is_digit a then
      if (two63 / 10 <? x)%Z then None
      else let x' := (x * 10 + digit_val a)%Z in
           if (two63 <? x')%Z then None else leadingInt x' s'
    else Some (x, s)
  | "" => Some (x, s)
  end.

(** [leadingFraction]: the digits, the scale, the rest. *)
Fixpoint leadingFraction (x : Z) (scale : spec_float) (overflow : bool) (s : string)
    : Z * spec_float * string :=
  match s with
  | String a s' =>
    if is_digit a then
      if overflow then leadingFraction x scale true s'
      else if ((two63 - 1) / 10 <? x)%Z then leadingFraction x scale true s'
      else let y := (x * 10 + digit_val a)%Z in
           if (two63 <? y)%Z then leadingFraction x scale true s'
           else leadingFraction y (f64_mul scale (f64_of_Z 10)) false s'
    else (x, scale, s)
  | "" => (x, scale, s)
  end.

(** The unit's text, up to the next digit or dot. *)
Fixpoint take_unit (s : string) : string * string :=
  match s with
  | String a s' =>
    if Ascii.eqb a "." || is_digit a then ("", s)
    else let '(u, r) := take_unit s' in (String a u, r)
  | "" => ("", "")
  end.

Definition Nanosecond : Z := 1.
Definition Microsecond : Z := 1000.
Definition Millisecond : Z := 1000000.
Definition Second : Z := 1000000000.
Definition Minute : Z := (60 * Second)%Z.
Definition Hour : Z := (60 * Minute)%Z.

Definition unitMap : list (string * Z) :=
  [("ns", Nanosecond); ("us", Microsecond); ("µs", Microsecond); ("μs", Microsecond);
   ("ms", Millisecond); ("s", Second); ("m", Minute); ("h", Hour)].

Definition unit_of (u : string) : option Z :=
  snd <$> List.find (fun kv => String.eqb (fst kv) u) unitMap.

Definition err_duration (orig : string) : text := Fmt "time: invalid duration %q" [TStr orig].

(** The optional fraction: digits, scale, rest, whether there were digits. *)
Definition duration_fraction (s1 : string) : Z * spec_float * string * bool :=
  match s1 with
  | String "."%char s1' =>
    let '(f, scale, r) := leadingFraction 0 (f64_of_Z 1) false s1' in
    (f, scale, r, negb (String.length s1' =? String.length r))
  | _ => (0%Z, f64_of_Z 1, s1, false)
  end.

(** One field [v[.f]unit] of [s]: its nanoseconds and the rest of [s]. *)
Definition duration_field (orig s : string) : result (Z * string) :=
  match s with
  | "" => Err (err_duration orig)
  | String c _ =>
    if negb (Ascii.eqb c "." || is_digit c) then Err (err_duration orig) else
    match leadingInt 0 s with
    | None => Err (err_duration orig)
    | Some (v, s1) =>
      let pre := negb (String.length s =? String.length s1) in
      let '(f, scale, s2, post) := duration_fraction s1 in
      if negb (pre || post) then Err (err_duration orig) else
      let '(u, s3) := take_unit s2 in
      if String.eqb u "" then Err (Fmt "time: missing unit in duration %q" [TStr orig]) else
      match unit_of u with
      | None => Err (Fmt "time: unknown unit %q in duration %q" [TStr u; TStr orig])
      | Some w =>
        if (two63 / w <? v)%Z then Err (err_duration orig) else
        let v := (v * w)%Z in
        let v := if (0 <? f)%Z
                 then (v + uint64_of_f64 (f64_mul (f64_of_Z f) (f64_div (f64_of_Z w) scale)))%Z
                 else v in
        if (0 <? f)%Z && (two63 <? v)%Z then Err (err_duration orig) else Ok (v, s3)
      end
    end
  end.

(** The loop over the fields; each consumes at least one byte, so the length of
    [s] is enough fuel. *)
Fixpoint duration_fields (fuel : nat) (orig s : string) (d : Z) : result Z :=
  match s with
  | "" => Ok d
  | _ =>
    match fuel with
    | O => Err (err_duration orig)
    | S fuel' =>
      '(v, s') ← duration_field orig s;
      let d' := ((d + v) mod 2 ^ 64)%Z in
      if (two63 <? d')%Z then Err (err_duration orig) else duration_fields fuel' orig s' d'
    end
  end.

Definition duration_sign (s : string) : bool * string :=
  match s with
  | String "-"%char t => (true, t)
  | String "+"%char t => (false, t)
  | _ => (false, s)
  end.

Definition ParseDuration (orig : string) : result Z :=
  let '(neg, s) := duration_sign orig in
  if String.eqb s "0" then Ok 0%Z
  else if String.eqb s "" then Err (err_duration orig)
  else
    d ← duration_fields (String.length s) orig s 0;
    if neg : bool then Ok (wrap64 (- wrap64 d))
    else if (two63 - 1 <? d)%Z then Err (err_duration orig)
    else Ok d.

Example parse_1 : ParseDuration "1h30m" = Ok 5400000000000%Z. Proof. vm_compute. reflexivity. Qed.
Example parse_2 : ParseDuration "1.5s" = Ok 1500000000%Z. Proof. vm_compute. reflexivity. Qed.
Example parse_3 : ParseDuration "-.5ms" = Ok (-500000)%Z. Proof. vm_compute. reflexivity. Qed.
Example parse_4 : ParseDuration "10" = Err (Fmt "time: missing unit in duration %q" [TStr "10"]).
Proof. vm_compute. reflexivity. Qed.
Example parse_5 : ParseDuration "0.3µs" = Ok 300%Z. Proof. vm_compute. reflexivity. Qed.
Example parse_6 : ParseDuration "9223372036854775807ns" = Ok max_int. Proof. vm_compute. reflexivity. Qed.
Example parse_7 : is_ok (ParseDuration "9223372036854775808ns") = false. Proof. vm_compute. reflexivity. Qed.

(** ** Lemmas *)
Lemma leadingInt_length x s v r : leadingInt x s = Some (v, r) -> String.length r <= String.length s.
Proof.
  revert x; induction s as [|a s IH]; intros x; simpl; [by intros [= <- <-]|].
  destruct (is_digit a); [|by intros [= <- <-]].
  destruct (_ <? x)%Z; [done|]. destruct (two63 <? _)%Z; [done|]. intros H%IH. lia.
Qed.

Lemma leadingInt_nonneg x s v r : (0 <= x)%Z -> leadingInt x s = Some (v, r) -> (0 <= v <= Z.max x two63)%Z.
Proof.
  revert x; induction s as [|a s IH]; intros x Hx; simpl; [intros [= <- <-]; lia|].
  destruct (is_digit a); [|intros [= <- <-]; lia].
  destruct (_ <? x)%Z; [done|]. destruct (two63 <? _)%Z eqn:E; [done|]. apply Z.ltb_ge in E.
  intros H%IH; [lia|]. unfold digit_val. lia.
Qed.

Lemma leadingFraction_length x sc o s f sc' r :
  leadingFraction x sc o s = (f, sc', r) -> String.length r <= String.length s.
Proof.
  revert x sc o; induction s as [|a s IH]; intros x sc o; simpl; [by intros [= <- <- <-]|].
  destruct (is_digit a); [|by intros [= <- <- <-]].
  destruct o; [intros H%IH; lia|]. destruct (_ <? x)%Z; [intros H%IH; lia|].
  destruct (_ <? _)%Z; intros H%IH; lia.
Qed.

Lemma take_unit_length s u r : take_unit s = (u, r) -> String.length r + String.length u = String.length s.
Proof.
  revert u r; induction s as [|a s IH]; intros u r; simpl; [by intros [= <- <-]|].
  destruct (_ || _); [intros [= <- <-]; simpl; lia|].
  destruct (take_unit s) as [u' r']. intros [= <- <-]. specialize (IH _ _ eq_refl). simpl. lia.
Qed.

Lemma duration_fraction_length s f sc r p :
  duration_fraction s = (f, sc, r, p) -> String.length r <= String.length s.
Proof.
  destruct s as [|[b1 b2 b3 b4 b5 b6 b7 b8] s]; [by intros [= _ _ <- _]|].
  destruct b1, b2, b3, b4, b5, b6, b7, b8; try (by intros [= _ _ <- _]).
  cbn [duration_fraction]. destruct (leadingFraction _ _ _ s) as [[f' sc'] r'] eqn:E.
  apply leadingFraction_length in E. intros [= _ _ <- _]. simpl. lia.
Qed.

Lemma duration_field_length orig s v r : duration_field orig s = Ok (v, r) -> String.length r < String.length s.
Proof.
  unfold duration_field. destruct s as [|c s]; [done|]. destruct (negb _); [done|].
  destruct (leadingInt 0 (String c s)) as [[w s1]|] eqn:E1; [|done]. apply leadingInt_length in E1.
  destruct (duration_fraction s1) as [[[f sc] s2] post] eqn:Ef. apply duration_fraction_length in Ef.
  destruct (negb _); [done|]. destruct (take_unit s2) as [u s3] eqn:Eu.
  apply take_unit_length in Eu. destruct (String.eqb_spec u "") as [|Hu]; [done|].
  destruct (unit_of u); [|done]. destruct (_ <? w)%Z; [done|]. destruct (_ && _); [done|].
  intros [= <- <-]. destruct u; [done|]. simpl in Eu. lia.
Qed.

(** More fuel than the length of the text changes nothing. *)
Lemma duration_fields_fuel f g orig s d :
  String.length s <= f -> String.length s <= g ->
  duration_fields f orig s d = duration_fields g orig s d.
Proof.
  revert g s d; induction f as [|f IH]; intros g s d Hf Hg.
  - destruct s as [|a s]; [by destruct g|simpl in Hf; lia].
  - destruct s as [|a s]; [by destruct g|]. destruct g as [|g]; [simpl in Hg; lia|].
    cbn [duration_fields]. destruct (duration_field orig (String a s)) as [[v r]|] eqn:E; [|done].
    apply duration_field_length in E. simpl. destruct (two63 <? _)%Z; [done|].
    apply IH; simpl in *; lia.
Qed.

Lemma duration_fields_range f orig s d v :
  (0 <= d <= two63)%Z -> duration_fields f orig s d = Ok v -> (0 <= v <= two63)%Z.
Proof.
  revert s d; induction f as [|f IH]; intros s d Hd; destruct s as [|a s]; cbn [duration_fields];
    [by intros [= <-]|done|by intros [= <-]|].
  destruct (duration_field _ _) as [[w r]|]; [|done]. simpl.
  destruct (two63 <? _)%Z eqn:E; [done|]. apply Z.ltb_ge in E. apply IH. split; [|done].
  apply Z.mod_pos_bound. lia.
Qed.

(** A parsed duration fits in 64 bits. *)
Lemma ParseDuration_range s d : ParseDuration s = Ok d -> (min_int <= d <= max_int)%Z.
Proof.
  unfold ParseDuration.
  destruct (duration_sign s) as [neg t].
  destruct (String.eqb t "0"); [intros [= <-]; unfold min_int, max_int; lia|].
  destruct (String.eqb t ""); [done|].
  destruct (duration_fields _ _ _ _) as [v|] eqn:E; [|done]. simpl.
  apply duration_fields_range in E; [|unfold two63; lia].
  destruct neg; [intros [= <-]; apply wrap64_range|].
  destruct (two63 - 1 <? v)%Z eqn:Ev; [done|]. apply Z.ltb_ge in Ev.
  intros [= <-]. unfold min_int, max_int, two63 in *. lia.
Qed.
