(* ===== verification/Paths.v ===== *)
(** * path/filepath on Unix

    The lexical operations of Go's path/filepath that the backends use:
    [Clean], [Join], [Dir], [Base], [IsAbs], [IsLocal] and [Rel].  A cleaned
    path is a flag (rooted or not) and a list of elements; the lemmas read the
    strings back as such lists, which is where containment is decided. *)

From S2P Require Import Prelude GoStrings.

Definition slash : ascii := "/"%char.
Definition sep : string := "/".

(** The elements between slashes; always at least one. *)
Fixpoint split_slash (s : string) : list string :=
  match s with
  | "" => [""]
  | String a s' =>
    if Ascii.eqb a slash then "" :: split_slash s'
    else match split_slash s' with
         | p :: l => String a p :: l
         | [] => [String a ""]
         end
  end.

Definition IsAbs (p : string) : bool := has_prefix p sep.

(** One element onto the reversed list of the elements kept. *)
Definition clean_step (rooted : bool) (st : list string) (e : string) : list string :=
  if String.eqb e "" || String.eqb e "." then st
  else if String.eqb e ".." then
    match st with
    | top :: st' => if String.eqb top ".." then e :: st else st'
    | [] => if rooted then [] else [e]
    end
  else e :: st.

Definition clean_elems (rooted : bool) (l : list string) : list string :=
  reverse (foldl (clean_step rooted) [] l).

(** The elements of [Clean p]. *)
Definition elems (p : string) : list string := clean_elems (IsAbs p) (split_slash p).

Definition render (rooted : bool) (l : list string) : string :=
  if rooted then sep +:+ join sep l
  else match l with [] => "." | _ => join sep l end.

Definition Clean (p : string) : string := render (IsAbs p) (elems p).

(** Leading empty elements are dropped. *)
Fixpoint Join (l : list string) : string :=
  match l with
  | [] => ""
  | e :: l' => if String.eqb e "" then Join l' else Clean (join sep l)
  end.

Definition Dir (p : string) : string :=
  match cut_last slash p with Some (d, _) => Clean (d +:+ sep) | None => "." end.

Fixpoint trim_slashes (fuel : nat) (p : string) : string :=
  match fuel with
  | O => p
  | S f => match strip_suffix sep p with Some q => trim_slashes f q | None => p end
  end.

Definition Base (p : string) : string :=
  if String.eqb p "" then "."
  else let q := trim_slashes (String.length p) p in
       if String.eqb q "" then sep
       else match cut_last slash q with Some (_, b) => b | None => q end.

(** [filepathlite.unixIsLocal]. *)
Definition IsLocal (p : string) : bool :=
  if IsAbs p || String.eqb p "" then false
  else
    let dots := existsb (fun e => String.eqb e "." || String.eqb e "..") (split_slash p) in
    let q := if dots then Clean p else p in
    negb (String.eqb q ".." || has_prefix q "../").

(** [Rel]: the elements left once the common ones are gone.  A base of ["."] has
    no elements; a target of ["."] has one. *)
Fixpoint strip_common (b t : list string) : list string * list string :=
  match b, t with
  | x :: b', y :: t' => if String.eqb x y then strip_common b' t' else (b, t)
  | _, _ => (b, t)
  end.

Definition Rel (basepath targpath : string) : result string :=
  let base := Clean basepath in
  let targ := Clean targpath in
  if String.eqb targ base then Ok "."
  else
    let err := Fmt "Rel: can't make %s relative to %s" [TStr targpath; TStr basepath] in
    if negb (Bool.eqb (IsAbs basepath) (IsAbs targpath)) then Err err
    else
      let '(b, t) := strip_common (elems basepath) (if String.eqb targ "." then ["."] else elems targpath) in
      match b, t with
      | [], _ => Ok (join sep t)
      | e :: _, _ :: _ => if String.eqb e ".." then Err err else Ok (join sep (map (fun _ => "..") b ++ t))
      | _, [] => Ok (join sep (map (fun _ => "..") b))
      end.

Example clean_ex : Clean "/a/./b//../c/" = "/a/c" /\ Clean "../a/../../b" = "../../b" /\ Clean "" = "." /\ Clean "/.." = "/".
Proof. vm_compute. done. Qed.

Example rel_ex : Rel "/a/b" "/a/b/c/d" = Ok "c/d" /\ Rel "/a/b" "/a/c" = Ok "../c" /\ Rel "a" "../x" = Ok "../../x".
Proof. vm_compute. done. Qed.

Example dir_base_ex : Dir "a/b/c" = "a/b" /\ Dir "x" = "." /\ Dir "/x" = "/" /\ Base "/a/b/" = "b" /\ Base "/" = "/".
Proof. vm_compute. done. Qed.

(** ** Elements *)

(** An element without a slash. *)
Definition plain (e : string) : Prop := no_byte slash e = true.

(** What [Clean] keeps below the leading [..]s. *)
Definition normal (e : string) : Prop := plain e /\ e <> "" /\ e <> "." /\ e <> "..".

Lemma split_slash_nonempty s : split_slash s <> [].
Proof. destruct s as [|a s]; simpl; [done|]. repeat case_match; done. Qed.

Lemma split_slash_plain s : Forall plain (split_slash s).
Proof.
  induction s as [|a s IH]; simpl; [by constructor|]. destruct (Ascii.eqb_spec a slash) as [->|Ha].
  - by constructor.
  - destruct (split_slash s) as [|p l]; [constructor; [|done]|].
    + unfold plain. simpl. by destruct (Ascii.eqb_spec a slash).
    + apply Forall_cons in IH as [Hp Hl]. constructor; [|done]. unfold plain in *. simpl.
      rewrite Hp. by destruct (Ascii.eqb_spec a slash).
Qed.

Lemma split_slash_app a b : split_slash (a +:+ sep +:+ b) = split_slash a ++ split_slash b.
Proof.
  induction a as [|x a IH]; [done|]. rewrite str_app_cons. cbn [split_slash]. rewrite IH.
  case_match; [done|]. pose proof (split_slash_nonempty a). by destruct (split_slash a).
Qed.

Lemma split_slash_plain_one e : plain e -> split_slash e = [e].
Proof.
  unfold plain. induction e as [|a e IH]; simpl; [done|]. intros [Ha He]%andb_prop.
  apply negb_true_iff in Ha. rewrite Ha. by rewrite IH.
Qed.

Lemma join_cons e l : l <> [] -> join sep (e :: l) = e +:+ sep +:+ join sep l.
Proof. by destruct l. Qed.

Lemma split_slash_join l : l <> [] -> Forall plain l -> split_slash (join sep l) = l.
Proof.
  induction l as [|e l IH]; [done|]. intros _ [He Hl]%Forall_cons. destruct l as [|e' l].
  - simpl. by apply split_slash_plain_one.
  - rewrite join_cons, split_slash_app, split_slash_plain_one, IH by done. done.
Qed.

Lemma join_split_slash s : join sep (split_slash s) = s.
Proof.
  induction s as [|a s IH]; [done|]. cbn [split_slash]. pose proof (split_slash_nonempty s).
  destruct (Ascii.eqb_spec a slash) as [->|Ha].
  - rewrite join_cons by done. by rewrite IH.
  - destruct (split_slash s) as [|p l]; [done|]. rewrite <-IH. by destruct l.
Qed.

(** ** Cleaned lists *)

(** The form [Clean] produces: leading [..]s, in a relative path only, and normal
    elements. *)
Definition cleaned (rooted : bool) (l : list string) : Prop :=
  exists k m, l = replicate k ".." ++ m /\ Forall normal m /\ (rooted = true -> k = 0).

Lemma normal_plain l : Forall normal l -> Forall plain l.
Proof. intros Hl. eapply Forall_impl; [exact Hl|]. by intros e (? & _). Qed.

Lemma cleaned_plain r l : cleaned r l -> Forall plain l.
Proof.
  intros (k & m & -> & Hm & _). apply Forall_app. split; [|by apply normal_plain]. by apply Forall_replicate.
Qed.

Lemma clean_step_normal r st e : normal e -> clean_step r st e = e :: st.
Proof.
  intros (_ & H1 & H2 & H3). unfold clean_step. by rewrite !(proj2 (String.eqb_neq _ _)).
Qed.

Lemma foldl_normal r st l : Forall normal l -> foldl (clean_step r) st l = reverse l ++ st.
Proof.
  revert st; induction l as [|e l IH]; intros st Hl; simpl; [done|]. apply Forall_cons in Hl as [He Hl].
  rewrite clean_step_normal, IH by done. by rewrite reverse_cons, <-(assoc_L (++)).
Qed.

Lemma replicate_snoc {A} k (x : A) l : replicate k x ++ x :: l = x :: replicate k x ++ l.
Proof. induction k as [|k IH]; simpl; [done|]. by rewrite IH. Qed.

Lemma foldl_dots k : foldl (clean_step false) [] (replicate k "..") = replicate k "..".
Proof.
  assert (forall n, foldl (clean_step false) (replicate n "..") (replicate k "..") = replicate (n + k) "..") as H;
    [|apply (H 0)].
  induction k as [|k IH]; intros n; simpl; [by rewrite Nat.add_0_r|].
  assert (clean_step false (replicate n "..") ".." = replicate (S n) "..") as ->
    by (unfold clean_step; simpl; by destruct n).
  rewrite IH. f_equal. lia.
Qed.

Lemma clean_elems_cleaned r l : cleaned r l -> clean_elems r l = l.
Proof.
  intros (k & m & -> & Hm & Hk). unfold clean_elems. rewrite foldl_app. destruct r.
  - rewrite (Hk eq_refl). simpl. rewrite foldl_normal by done. by rewrite app_nil_r, reverse_involutive.
  - rewrite foldl_dots, foldl_normal by done. rewrite reverse_app, reverse_involutive, reverse_replicate. done.
Qed.

Lemma foldl_clean_inv r l st :
  Forall plain l -> cleaned r (reverse st) -> cleaned r (reverse (foldl (clean_step r) st l)).
Proof.
  revert st; induction l as [|e l IH]; intros st; simpl; [done|]. intros [He Hl]%Forall_cons (k & m & Hst & Hm & Hk).
  apply IH; [done|]. unfold clean_step.
  destruct (String.eqb_spec e ""); [by exists k, m|]. destruct (String.eqb_spec e "."); [by exists k, m|]. simpl.
  destruct (String.eqb_spec e "..") as [->|]; [|exists k, (m ++ [e]); rewrite reverse_cons, Hst, (assoc_L (++));
    split_and!; [done|apply Forall_app; split; [done|repeat constructor; done]|done]].
  destruct st as [|top st].
  - apply (f_equal length) in Hst. rewrite length_app, length_replicate in Hst. simpl in Hst.
    destruct r; [exists 0, []|exists 1, []]; split_and!; done || constructor.
  - rewrite reverse_cons in Hst. destruct (String.eqb_spec top "..") as [->|Ht].
    + destruct m as [|x m' _] using rev_ind.
      * exists (S k), []. rewrite app_nil_r in *. rewrite !reverse_cons, Hst. split_and!; [|constructor|].
        -- symmetry. apply (replicate_S_end k "..").
        -- intros Hr. rewrite (Hk Hr) in Hst. by destruct (reverse st).
      * rewrite (assoc_L (++)) in Hst. apply app_inj_tail in Hst as [_ <-].
        apply Forall_app in Hm as [_ (_ & _ & _ & ?)%Forall_singleton]. done.
    + destruct m as [|x m' _] using rev_ind.
      * destruct k as [|k]; [by destruct (reverse st)|]. rewrite app_nil_r, replicate_S_end in Hst.
        apply app_inj_tail in Hst as [_ ?]. done.
      * rewrite (assoc_L (++)) in Hst. apply app_inj_tail in Hst as [-> _].
        apply Forall_app in Hm as [? _]. by exists k, m'.
Qed.

Lemma clean_elems_is_cleaned r l : Forall plain l -> cleaned r (clean_elems r l).
Proof. intros Hl. apply foldl_clean_inv; [done|]. exists 0, []. by repeat constructor. Qed.

Lemma elems_cleaned p : cleaned (IsAbs p) (elems p).
Proof. apply clean_elems_is_cleaned, split_slash_plain. Qed.

(** ** Reading a cleaned path back *)
Lemma is_abs_plain e s : plain e -> e <> "" -> IsAbs (e +:+ s) = false.
Proof.
  destruct e as [|a e]; [done|]. unfold plain. simpl. intros [Ha _]%andb_prop _.
  destruct (IsAbs (String a (e +:+ s))) eqn:E; [|done]. apply has_prefix_true in E as [t Et].
  injection Et as -> _. by rewrite Ascii.eqb_refl in Ha.
Qed.

Lemma elem_nonempty r l : cleaned r l -> Forall (fun e => e <> "") l.
Proof.
  intros (k & m & -> & Hm & _). apply Forall_app. split; [by apply Forall_replicate|].
  eapply Forall_impl; [exact Hm|]. by intros e (_ & ? & _).
Qed.

Lemma IsAbs_render r l : cleaned r l -> IsAbs (render r l) = r.
Proof.
  intros Hl. destruct r; [apply has_prefix_app|]. destruct l as [|e l]; [done|].
  pose proof (cleaned_plain _ _ Hl) as [He _]%Forall_cons. pose proof (elem_nonempty _ _ Hl) as [Hne _]%Forall_cons.
  simpl. destruct l; [|by apply is_abs_plain]. rewrite <-(str_app_nil_r e). by apply is_abs_plain.
Qed.

Lemma elems_render r l : cleaned r l -> elems (render r l) = l.
Proof.
  intros Hl. unfold elems. rewrite IsAbs_render by done. pose proof (cleaned_plain _ _ Hl) as Hp.
  transitivity (clean_elems r l); [|by apply clean_elems_cleaned].
  unfold clean_elems. f_equal. destruct r; unfold render.
  - change (sep +:+ join sep l) with ("" +:+ sep +:+ join sep l). rewrite split_slash_app, foldl_app.
    destruct l as [|e l]; [done|]. by rewrite split_slash_join.
  - destruct l as [|e l]; [done|]. by rewrite split_slash_join.
Qed.

(** Two paths have the same cleaned form exactly when they are rooted alike and have
    the same elements. *)
Lemma IsAbs_Clean p : IsAbs (Clean p) = IsAbs p.
Proof. apply IsAbs_render, elems_cleaned. Qed.

Lemma elems_Clean p : elems (Clean p) = elems p.
Proof. apply elems_render, elems_cleaned. Qed.

Lemma Clean_idemp p : Clean (Clean p) = Clean p.
Proof. unfold Clean at 1. by rewrite IsAbs_Clean, elems_Clean. Qed.

Lemma Clean_eq p q : Clean p = Clean q <-> IsAbs p = IsAbs q /\ elems p = elems q.
Proof.
  split; [|by intros [Ha He]; unfold Clean; rewrite Ha, He]. intros H.
  by rewrite <-(IsAbs_Clean p), <-(elems_Clean p), H, IsAbs_Clean, elems_Clean.
Qed.

(** ** [IsLocal] *)
Lemma render_local l : cleaned false l ->
  negb (String.eqb (render false l) ".." || has_prefix (render false l) "../") = true <-> Forall normal l.
Proof.
  intros Hl. pose proof Hl as (k & m & -> & Hm & _). pose proof (cleaned_plain _ _ Hl) as Hp. destruct k as [|k].
  - simpl. split; [done|]. intros _. apply negb_true_iff, orb_false_iff.
    destruct m as [|e m]; [done|]. apply Forall_cons in Hm as [(_ & _ & _ & He) Hm].
    assert (forall t, join sep (e :: m) <> ".." +:+ t \/ t <> "" /\ forall u, t <> sep +:+ u) as Hno.
    { intros t. destruct (decide (t = "")) as [->|]; [left|].
      - rewrite str_app_nil_r. intros Heq. apply (f_equal split_slash) in Heq.
        rewrite split_slash_join in Heq by done. by injection Heq as ->.
      - destruct (has_prefix t sep) eqn:Hpre; [left|right; split; [done|]].
        + apply has_prefix_true in Hpre as [u ->]. intros Heq. apply (f_equal split_slash) in Heq.
          rewrite split_slash_join in Heq by done. rewrite split_slash_app in Heq. by injection Heq as ->.
        + intros u ->. by rewrite has_prefix_app in Hpre. }
    split.
    + apply String.eqb_neq. destruct (Hno "") as [?|[? _]]; [|done]. by rewrite str_app_nil_r in *.
    + destruct (has_prefix _ _) eqn:E; [|done]. apply has_prefix_true in E as [u Eu].
      destruct (Hno (sep +:+ u)) as [H|[_ H]]; [|by destruct (H u)]. by destruct H.
  - split; [|by intros [(_ & _ & _ & ?) _]%Forall_cons]. intros Hn.
    apply negb_true_iff, orb_false_iff in Hn as [H1 H2]. exfalso. cbn [replicate app] in *.
    destruct (replicate k ".." ++ m) as [|e l]; [done|]. change (render false (".." :: e :: l)) with ("../" +:+ join sep (e :: l)) in H2.
    by rewrite has_prefix_app in H2.
Qed.

Lemma IsLocal_Clean p : IsLocal (Clean p) = true <-> IsAbs p = false /\ Forall normal (elems p).
Proof.
  unfold IsLocal. rewrite IsAbs_Clean, Clean_idemp. destruct (IsAbs p) eqn:Ha; [simpl; by split; [|intros [? _]]|].
  pose proof (elems_cleaned p) as Hc. rewrite Ha in Hc. pose proof (render_local _ Hc) as Hr.
  assert (String.eqb (Clean p) "" = false) as ->.
  { apply String.eqb_neq. unfold Clean. rewrite Ha. intros He. apply (f_equal split_slash) in He.
    destruct (elems p) as [|e l] eqn:El; [done|]. simpl in He.
    change (match l with [] => e | _ :: _ => e +:+ sep +:+ join sep l end) with (join sep (e :: l)) in He.
    rewrite split_slash_join in He; [|done|by eapply cleaned_plain]. injection He as -> ->.
    by pose proof (elem_nonempty _ _ Hc) as [? _]%Forall_cons. }
  simpl. unfold Clean. rewrite Ha. assert (forall b : bool, (if b then render false (elems p) else render false (elems p)) = render false (elems p))
    as -> by (by intros []). rewrite Hr. tauto.
Qed.

(** ** [Join] *)

(** Joining a cleaned local path adds its elements. *)
Lemma Join_local h p :
  h <> "" -> IsLocal (Clean p) = true ->
  IsAbs (Join [h; Clean p]) = IsAbs h /\ elems (Join [h; Clean p]) = elems h ++ elems p.
Proof.
  intros Hh [Ha Hn]%IsLocal_Clean. cbn [Join]. rewrite (proj2 (String.eqb_neq _ _)) by done.
  change (join sep [h; Clean p]) with (h +:+ sep +:+ Clean p). rewrite IsAbs_Clean, elems_Clean.
  assert (IsAbs (h +:+ sep +:+ Clean p) = IsAbs h) as Habs.
  { destruct h; [done|]. rewrite str_app_cons. unfold IsAbs, has_prefix. cbn [strip_prefix sep]. by destruct (Ascii.eqb _ _). }
  split; [done|]. unfold elems at 1. rewrite Habs, split_slash_app. unfold clean_elems at 1.
  rewrite foldl_app. assert (forall st, foldl (clean_step (IsAbs h)) st (split_slash (Clean p)) = reverse (elems p) ++ st) as ->.
  { intros st. unfold Clean. rewrite Ha. pose proof (elems_cleaned p) as Hc. rewrite Ha in Hc.
    destruct (elems p) as [|e l]; [done|]. unfold render. rewrite split_slash_join; [|done|by eapply cleaned_plain].
    by apply foldl_normal. }
  by rewrite reverse_app, reverse_involutive.
Qed.

(** ** Containment *)

(** [pathContainedIn]'s test on cleaned paths is the prefix order on elements. *)
Lemma render_prefix l l' :
  cleaned true l -> cleaned true l' -> l <> [] ->
  has_prefix (render true l') (render true l +:+ sep) = true <-> exists rest, rest <> [] /\ l' = l ++ rest.
Proof.
  intros Hl Hl' Hne. rewrite has_prefix_true. pose proof (cleaned_plain _ _ Hl). pose proof (cleaned_plain _ _ Hl').
  unfold render. split.
  - intros [t Ht]. rewrite <-!str_app_assoc in Ht. apply (f_equal split_slash) in Ht.
    rewrite <-(str_app_nil_l (sep +:+ join sep l')), <-(str_app_nil_l (sep +:+ join sep l +:+ _)) in Ht.
    rewrite !split_slash_app, (split_slash_join l) in Ht by done. injection Ht as Ht.
    destruct l' as [|e l']; [by destruct l; [|destruct l; injection Ht as; destruct (split_slash_nonempty t)]|].
    rewrite split_slash_join in Ht by done. exists (split_slash t). split; [apply split_slash_nonempty|done].
  - intros (rest & Hr & ->). exists (join sep rest). rewrite <-!str_app_assoc. f_equal.
    clear -Hne Hr. induction l as [|e l IH]; [done|]. destruct l as [|e' l].
    + simpl. by destruct rest.
    + change ((e :: e' :: l) ++ rest) with (e :: (e' :: l) ++ rest). rewrite !join_cons by done.
      rewrite IH by done. by rewrite <-!str_app_assoc.
Qed.

Lemma IsAbs_app h t : h <> "" -> IsAbs (h +:+ t) = IsAbs h.
Proof. intros Hh. destruct h; [done|]. rewrite str_app_cons. unfold IsAbs, has_prefix. cbn [strip_prefix sep]. by destruct (Ascii.eqb _ _). Qed.

Lemma split_slash_join_app h l : l <> [] -> Forall plain l -> split_slash (h +:+ sep +:+ join sep l) = split_slash h ++ l.
Proof. intros Hl Hp. by rewrite split_slash_app, split_slash_join. Qed.

(** Ordinary names joined to a directory are added to its elements. *)
Lemma Join_normal h l :
  Forall normal l -> l <> [] ->
  IsAbs (Join (h :: l)) = IsAbs h /\ elems (Join (h :: l)) = elems h ++ l.
Proof.
  intros Hn Hl. pose proof (normal_plain _ Hn) as Hp. cbn [Join]. destruct (String.eqb_spec h "") as [->|Hh].
  - destruct l as [|e l]; [done|]. inversion Hn as [|? ? He Hn']; subst.
    cbn [Join]. rewrite (proj2 (String.eqb_neq _ _)) by apply He. rewrite IsAbs_Clean, elems_Clean.
    assert (cleaned false (e :: l)) as Hc by by exists 0, (e :: l).
    change (join sep (e :: l)) with (render false (e :: l)). by rewrite IsAbs_render, elems_render.
  - rewrite IsAbs_Clean, elems_Clean, join_cons by done. rewrite IsAbs_app by done. split; [done|].
    unfold elems at 1. rewrite IsAbs_app by done. rewrite split_slash_join_app by done.
    unfold clean_elems at 1. rewrite foldl_app, foldl_normal by done. by rewrite reverse_app, reverse_involutive.
Qed.

(** A directory's children are told apart. *)
Lemma Join_child h e : normal e -> IsAbs (Join [h; e]) = IsAbs h /\ elems (Join [h; e]) = elems h ++ [e].
Proof. intros He. apply Join_normal; [by constructor|done]. Qed.

(** ** Paths without ".." *)
Lemma cut_occurs sub a b : sub <> "" -> is_Some (cut sub (a +:+ sub +:+ b)).
Proof.
  intros Hs. induction a as [|c a IH].
  - rewrite str_app_nil_l. destruct sub as [|x sub]; [done|]. rewrite str_app_cons. cbn [cut].
    rewrite <-str_app_cons, strip_prefix_app. by eexists.
  - rewrite str_app_cons. cbn [cut]. destruct (strip_prefix sub _); [by eexists|]. destruct IH as [[u v] ->]. by eexists.
Qed.

Lemma split_slash_elem e s : e ∈ split_slash s -> exists a b, s = a +:+ e +:+ b.
Proof.
  revert e; induction s as [|c s IH]; intros e; simpl; [intros ->%list_elem_of_singleton; by exists "", ""|].
  destruct (Ascii.eqb c slash) eqn:E.
  - intros [->|Hin]%elem_of_cons; [by exists "", (String c s)|]. destruct (IH _ Hin) as (a & b & ->).
    exists (String c a), b. by rewrite str_app_cons.
  - destruct (split_slash s) as [|p l] eqn:Es; [by destruct (split_slash_nonempty s)|].
    intros [->|Hin]%elem_of_cons.
    + rewrite <-(join_split_slash s), Es. destruct l as [|q l].
      * exists "", "". simpl. by rewrite str_app_nil_r.
      * exists "", (sep +:+ join sep (q :: l)). rewrite join_cons by done. by rewrite str_app_nil_l, str_app_cons.
    + destruct (IH e) as (a & b & ->); [by right|]. exists (String c a), b. by rewrite str_app_cons.
Qed.

Lemma no_dots p : contains p ".." = false -> ".." ∉ split_slash p.
Proof.
  intros Hc Hin. apply split_slash_elem in Hin as (a & b & ->). unfold contains in Hc.
  destruct (cut_occurs ".." a b) as [x Hx]; [done|]. by rewrite Hx in Hc.
Qed.

Lemma foldl_no_dots r st l :
  ".." ∉ l -> foldl (clean_step r) st l = reverse (filter (fun e => e <> "" /\ e <> ".") l) ++ st.
Proof.
  revert st; induction l as [|e l IH]; intros st Hl; [done|]. apply not_elem_of_cons in Hl as [He Hl]. simpl foldl. rewrite IH by done.
  rewrite filter_cons. unfold clean_step. destruct (String.eqb_spec e "") as [->|H1]; simpl; [done|].
  destruct (String.eqb_spec e ".") as [->|H2]; simpl; [done|]. rewrite (proj2 (String.eqb_neq e "..")) by done.
  rewrite decide_True by done. by rewrite reverse_cons, <-app_assoc.
Qed.

Lemma elems_no_dots p :
  contains p ".." = false -> elems p = filter (fun e => e <> "" /\ e <> ".") (split_slash p) /\ Forall normal (elems p).
Proof.
  intros Hc%no_dots. assert (elems p = filter (fun e => e <> "" /\ e <> ".") (split_slash p)) as He.
  { unfold elems, clean_elems. rewrite foldl_no_dots by done. by rewrite app_nil_r, reverse_involutive. }
  split; [done|]. rewrite He. apply Forall_forall. intros e [[H1 H2] H3]%list_elem_of_filter.
  pose proof (split_slash_plain p) as Hp. rewrite Forall_forall in Hp. split_and!; [by apply Hp|done..|]. by intros ->.
Qed.

(** Such a path, joined to a directory, stays below it. *)
Lemma Join_no_dots h p :
  IsAbs p = false -> contains p ".." = false ->
  IsAbs (Join [h; p]) = IsAbs h /\ elems (Join [h; p]) = elems h ++ elems p.
Proof.
  intros Ha Hc. cbn [Join]. destruct (String.eqb_spec h "") as [->|Hh].
  - destruct (String.eqb_spec p "") as [->|Hp]; [done|]. simpl join. by rewrite IsAbs_Clean, elems_Clean.
  - rewrite IsAbs_Clean, elems_Clean. change (join sep [h; p]) with (h +:+ sep +:+ p). rewrite IsAbs_app by done. split; [done|].
    unfold elems at 1. rewrite IsAbs_app, split_slash_app by done. unfold clean_elems at 1.
    rewrite foldl_app, foldl_no_dots by by apply no_dots. rewrite <-(proj1 (elems_no_dots p Hc)).
    by rewrite reverse_app, reverse_involutive.
Qed.

Lemma elems_trailing_slash d : d <> "" -> elems (d +:+ sep) = elems d.
Proof.
  intros Hd. unfold elems. rewrite IsAbs_app by done. rewrite <-(str_app_nil_r sep), split_slash_app. simpl.
  unfold clean_elems. rewrite foldl_app. done.
Qed.

Lemma join_snoc l e : l <> [] -> join sep (l ++ [e]) = join sep l +:+ String slash e.
Proof.
  intros Hl. induction l as [|x l IH]; [done|]. destruct l as [|y l]; [done|].
  rewrite <-app_comm_cons, !join_cons by done. rewrite IH by done. by rewrite <-!str_app_assoc.
Qed.

Lemma cleaned_init r l e : cleaned r (l ++ [e]) -> cleaned r l.
Proof.
  intros (k & m & He & Hm & Hk). induction m as [|e' m _] using rev_ind.
  - rewrite app_nil_r in He. destruct k as [|k]; [by destruct l|]. exists k, []. rewrite app_nil_r.
    replace (S k) with (k + 1) in He by lia. rewrite replicate_add in He. apply app_inj_tail in He as [-> _].
    split_and!; [done..|]. intros ->. by specialize (Hk eq_refl).
  - rewrite app_assoc in He. apply app_inj_tail in He as [-> _]. apply Forall_app in Hm as [Hm _]. by exists k, m.
Qed.

Lemma render_nonempty r l : cleaned r l -> l <> [] -> render r l <> "".
Proof. intros Hc Hl Hr. apply elems_render in Hc. rewrite Hr in Hc. by subst l. Qed.

(** [Dir] of a cleaned path drops its last element. *)
Lemma Dir_Clean q : IsAbs (Dir (Clean q)) = IsAbs q /\ elems (Dir (Clean q)) = removelast (elems q).
Proof.
  pose proof (elems_cleaned q) as Hc. unfold Clean. destruct (decide (elems q = [])) as [Hq|Hq].
  { rewrite Hq. unfold render, Dir. by destruct (IsAbs q). }
  destruct (exists_last Hq) as (l & e & Hl). rewrite Hl in Hc |- *. rewrite List.removelast_last.
  pose proof (cleaned_plain _ _ Hc) as He. rewrite Forall_app, Forall_singleton in He. destruct He as [_ He].
  pose proof (cleaned_init _ _ _ Hc) as Hi. destruct l as [|y l].
  - unfold render. simpl. destruct (IsAbs q); unfold Dir.
    + change (sep +:+ e) with ("" +:+ String slash e). by rewrite cut_last_last by exact He.
    + by rewrite cut_last_none by exact He.
  - assert (render (IsAbs q) ((y :: l) ++ [e]) = render (IsAbs q) (y :: l) +:+ String slash e) as ->.
    { unfold render. destruct (IsAbs q); [rewrite join_snoc by done; by rewrite str_app_assoc|]. rewrite <-join_snoc by done. done. }
    unfold Dir. rewrite cut_last_last by exact He. rewrite IsAbs_Clean, elems_Clean.
    pose proof (render_nonempty _ _ Hi ltac:(done)) as Hne.
    by rewrite elems_trailing_slash, IsAbs_app, IsAbs_render, elems_render.
Qed.
