(* ===== verification/Effects.v ===== *)
(** * Programs that talk to the outside

    A backend method is a tree of calls to a daemon and to the file system: each
    node is one call, and its continuation takes the answer.  [exec p t a] says
    that [p] can return [a] after the calls and answers of the trace [t], for any
    behaviour of the outside; [post] is the program logic over these traces and
    [interp] runs a program against a concrete outside. *)

From stdpp Require Import sets.
From S2P Require Import Prelude.

Section Programs.
Context {E : Type -> Type}.

Inductive prog (A : Type) : Type :=
  | Ret (a : A)
  | Call {X : Type} (e : E X) (k : X -> prog A).
Arguments Ret {A} a.
Arguments Call {A X} e k.

Fixpoint prog_bind' {A B} (f : A -> prog B) (p : prog A) : prog B :=
  match p with
  | Ret a => f a
  | Call e k => Call e (fun x => prog_bind' f (k x))
  end.

#[export] Instance prog_ret : MRet prog := fun A => Ret.
#[export] Instance prog_bind : MBind prog := fun A B => prog_bind'.

(** One call. *)
Definition call {X} (e : E X) : prog X := Call e Ret.

(** [for _, x := range l { s = f(s, x) }]. *)
Fixpoint foldP {A S} (f : S -> A -> prog S) (s : S) (l : list A) : prog S :=
  match l with
  | [] => Ret s
  | x :: l' => s' ← f s x; foldP f s' l'
  end.

(** ** Errors: a program that returns [(T, error)] *)

(** [if err != nil { return err }]. *)
Definition try_ {A B} (p : prog (result A)) (k : A -> prog (result B)) : prog (result B) :=
  r ← p; match r with Ok a => k a | Err e => Ret (Err e) end.

Definition wrapP {A} (f : string) (args : list targ) (p : prog (result A)) : prog (result A) :=
  r ← p; Ret (wrap_err f args r).

(** The loop that stops at the first error. *)
Fixpoint foldT {A S} (f : S -> A -> prog (result S)) (s : S) (l : list A) : prog (result S) :=
  match l with
  | [] => Ret (Ok s)
  | x :: l' => try_ (f s x) (fun s' => foldT f s' l')
  end.

(** [defer]: [d] runs on the way out. *)
Definition defer_ {A} (d : prog unit) (p : prog A) : prog A := a ← p; _ ← d; Ret a.

(** ** Traces *)
Record ev : Type := Ev { ev_type : Type; ev_call : E ev_type; ev_answer : ev_type }.
Arguments Ev {ev_type} _ _.

Fixpoint exec {A} (p : prog A) (t : list ev) (a : A) : Prop :=
  match p with
  | Ret b => t = [] /\ a = b
  | Call e k => exists x t', t = Ev e x :: t' /\ exec (k x) t' a
  end.

Lemma exec_bind {A B} (p : prog A) (f : A -> prog B) t b :
  exec (p ≫= f) t b <-> exists t1 t2 a, t = t1 ++ t2 /\ exec p t1 a /\ exec (f a) t2 b.
Proof.
  revert t; induction p as [a|X e k IH]; intros t; simpl.
  - split; [intros He; by exists [], t, a|]. by intros (t1 & t2 & a' & -> & [-> ->] & He).
  - split.
    + intros (x & t' & -> & He). apply IH in He as (t1 & t2 & a & -> & H1 & H2).
      exists (Ev e x :: t1), t2, a. split_and!; [done| |done]. by exists x, t1.
    + intros (t1 & t2 & a & -> & (x & t' & -> & H1) & H2). exists x, (t' ++ t2). split; [done|].
      apply IH. by exists t', t2, a.
Qed.

(** Every run of [p] from behind the calls [t0] ends with [Q]. *)
Definition post {A} (p : prog A) (Q : list ev -> A -> Prop) : Prop := forall t a, exec p t a -> Q t a.

Lemma post_ret {A} (a : A) (Q : list ev -> A -> Prop) : Q [] a -> post (Ret a) Q.
Proof. by intros HQ t b [-> ->]. Qed.

Lemma post_call {X A} (e : E X) (k : X -> prog A) (Q : list ev -> A -> Prop) :
  (forall x, post (k x) (fun t => Q (Ev e x :: t))) -> post (Call e k) Q.
Proof. intros Hk t a (x & t' & -> & He). by apply Hk. Qed.

Lemma post_bind {A B} (p : prog A) (f : A -> prog B) (Q : list ev -> B -> Prop) :
  post p (fun t a => post (f a) (fun t' => Q (t ++ t'))) -> post (p ≫= f) Q.
Proof. intros Hp t b He. apply exec_bind in He as (t1 & t2 & a & -> & H1 & H2). by apply (Hp t1 a H1 t2 b). Qed.

Lemma post_mono {A} (p : prog A) (Q Q' : list ev -> A -> Prop) :
  post p Q -> (forall t a, Q t a -> Q' t a) -> post p Q'.
Proof. intros Hp HQ t a He. by apply HQ, Hp. Qed.

Lemma post_and {A} (p : prog A) (Q Q' : list ev -> A -> Prop) :
  post p Q -> post p Q' -> post p (fun t a => Q t a /\ Q' t a).
Proof. intros H1 H2 t a He. split; [by apply H1|by apply H2]. Qed.

Lemma post_try {A B} (p : prog (result A)) (k : A -> prog (result B)) (Q : list ev -> result B -> Prop) :
  post p (fun t r => match r with Ok a => post (k a) (fun t' => Q (t ++ t')) | Err e => Q t (Err e) end) ->
  post (try_ p k) Q.
Proof.
  intros Hp. apply post_bind. eapply post_mono; [exact Hp|]. intros t [a|e] H; [done|].
  apply post_ret. by rewrite app_nil_r.
Qed.

Lemma post_wrap {A} f args (p : prog (result A)) (Q : list ev -> result A -> Prop) :
  post p (fun t r => Q t (wrap_err f args r)) -> post (wrapP f args p) Q.
Proof.
  intros Hp. apply post_bind. eapply post_mono; [exact Hp|]. intros t r H. apply post_ret. by rewrite app_nil_r.
Qed.

Lemma post_defer {A} d (p : prog A) (Q : list ev -> A -> Prop) :
  post p (fun t a => post d (fun t' _ => Q (t ++ t') a)) -> post (defer_ d p) Q.
Proof.
  intros Hp. apply post_bind. eapply post_mono; [exact Hp|]. intros t a H. apply post_bind.
  eapply post_mono; [exact H|]. intros t' [] H'. apply post_ret. by rewrite app_nil_r.
Qed.

(** A loop keeps what each round keeps, of the calls and of the state. *)
Lemma post_foldP {A S} (f : S -> A -> prog S) (I : S -> Prop) (T : ev -> Prop) l s :
  (forall s x, I s -> x ∈ l -> post (f s x) (fun t s' => Forall T t /\ I s')) -> I s ->
  post (foldP f s l) (fun t s' => Forall T t /\ I s').
Proof.
  intros Hf. revert s; induction l as [|x l IH]; intros s Hs; simpl; [by apply post_ret|].
  apply post_bind. eapply post_mono; [apply Hf; [done|set_solver]|]. intros t s1 [Ht H1]. eapply post_mono.
  - apply IH; [|done]. intros s2 y H2 Hy. apply Hf; [done|set_solver].
  - intros t2 s2 [Ht2 H2]. split; [by apply Forall_app|done].
Qed.

(** ** Which calls a program can make *)
Section Calls.
Variable P : forall X, E X -> Prop.

Fixpoint calls {A} (p : prog A) : Prop :=
  match p with
  | Ret _ => True
  | Call e k => P _ e /\ forall x, calls (k x)
  end.

Lemma calls_call {X} (e : E X) : P _ e -> calls (call e).
Proof. by split. Qed.

Lemma calls_bind {A B} (p : prog A) (f : A -> prog B) : calls p -> (forall a, calls (f a)) -> calls (p ≫= f).
Proof.
  intros Hp Hf. induction p as [a|X e k IH]; simpl; [apply Hf|]. destruct Hp as [He Hk].
  split; [done|]. intros x. by apply IH.
Qed.

Lemma calls_try {A B} (p : prog (result A)) (k : A -> prog (result B)) :
  calls p -> (forall a, calls (k a)) -> calls (try_ p k).
Proof. intros Hp Hk. apply calls_bind; [done|]. by intros [a|e]. Qed.

Lemma calls_wrap {A} f args (p : prog (result A)) : calls p -> calls (wrapP f args p).
Proof. intros Hp. by apply calls_bind. Qed.

Lemma calls_foldT {A S} (f : S -> A -> prog (result S)) s l : (forall s a, calls (f s a)) -> calls (foldT f s l).
Proof. intros Hf. revert s; induction l as [|x l IH]; intros s; simpl; [done|]. by apply calls_try. Qed.

Lemma calls_foldP {A S} (f : S -> A -> prog S) s l : (forall s a, calls (f s a)) -> calls (foldP f s l).
Proof. intros Hf. revert s; induction l as [|x l IH]; intros s; simpl; [done|]. by apply calls_bind. Qed.

Lemma calls_exec {A} (p : prog A) t a : calls p -> exec p t a -> Forall (fun e => P _ (ev_call e)) t.
Proof.
  revert t; induction p as [b|X e k IH]; intros t; simpl.
  - by intros _ [-> _].
  - intros [He Hk] (x & t' & -> & Ht). constructor; [done|]. by eapply IH.
Qed.

Lemma calls_post {A} (p : prog A) : calls p -> post p (fun t _ => Forall (fun e => P _ (ev_call e)) t).
Proof. intros Hp t a. by apply calls_exec. Qed.
End Calls.

Lemma calls_mono (P Q : forall X, E X -> Prop) {A} (p : prog A) :
  (forall X (e : E X), P X e -> Q X e) -> calls P p -> calls Q p.
Proof.
  intros HPQ. induction p as [a|X e k IH]; [done|]. intros [He Hk]. split; [by apply HPQ|]. intros x. by apply IH.
Qed.

(** ** Running against a concrete outside *)
Section Interp.
Context {W : Type} (answer : forall X, E X -> W -> X * W).

Fixpoint interp {A} (p : prog A) (w : W) : list ev * A * W :=
  match p with
  | Ret a => ([], a, w)
  | Call e k =>
    let '(x, w') := answer _ e w in
    let '(t, a, w'') := interp (k x) w' in (Ev e x :: t, a, w'')
  end.

Lemma interp_exec {A} (p : prog A) w t a w' : interp p w = (t, a, w') -> exec p t a.
Proof.
  revert w t w'; induction p as [b|X e k IH]; intros w t w'; simpl.
  - by intros [= <- <- <-].
  - destruct (answer X e w) as [x w1]. destruct (interp (k x) w1) as [[t1 a1] w2] eqn:Hi.
    intros [= <- <- <-]. exists x, t1. split; [done|]. by eapply IH.
Qed.

(** The result and the outside it leaves. *)
Definition run {A} (p : prog A) (w : W) : A * W := let '(_, a, w') := interp p w in (a, w').

Lemma run_ret {A} (a : A) w : run (Ret a) w = (a, w).
Proof. done. Qed.

Lemma run_call {X A} (e : E X) (k : X -> prog A) w :
  run (Call e k) w = let '(x, w') := answer _ e w in run (k x) w'.
Proof. unfold run; simpl. destruct (answer X e w) as [x w']. by destruct (interp (k x) w') as [[t a] w'']. Qed.

Lemma run_bind {A B} (p : prog A) (f : A -> prog B) w :
  run (p ≫= f) w = let '(a, w') := run p w in run (f a) w'.
Proof.
  revert w; induction p as [a|X e k IH]; intros w; [done|].
  change (Call e k ≫= f) with (Call e (fun x => k x ≫= f)). rewrite !run_call.
  destruct (answer X e w) as [x w']. apply IH.
Qed.

Lemma run_try {A B} (p : prog (result A)) (k : A -> prog (result B)) w :
  run (try_ p k) w = let '(r, w') := run p w in match r with Ok a => run (k a) w' | Err e => (Err e, w') end.
Proof. unfold try_. rewrite run_bind. by destruct (run p w) as [[a|e] w']. Qed.

Lemma run_wrap {A} f args (p : prog (result A)) w :
  run (wrapP f args p) w = let '(r, w') := run p w in (wrap_err f args r, w').
Proof. unfold wrapP. rewrite run_bind. by destruct (run p w). Qed.

(** An invariant of the outside. *)
Lemma run_invariant {A} (I : W -> Prop) (p : prog A) w :
  (forall X (e : E X) w, I w -> I (answer X e w).2) -> I w -> I (run p w).2.
Proof.
  intros Hans. revert w; induction p as [a|X e k IH]; intros w Hw; [done|].
  rewrite run_call. pose proof (Hans X e w Hw). destruct (answer X e w) as [x w']. by apply IH.
Qed.

(** An invariant of the outside that the calls a program can make keep. *)
Lemma run_calls_invariant {A} (P : forall X, E X -> Prop) (I : W -> Prop) (p : prog A) w :
  (forall X (e : E X) w, P X e -> I w -> I (answer X e w).2) -> calls P p -> I w -> I (run p w).2.
Proof.
  intros Hans. revert w; induction p as [a|X e k IH]; intros w; [done|]. intros [He Hk] Hw.
  rewrite run_call. pose proof (Hans X e w He Hw). destruct (answer X e w) as [x w']. by apply IH.
Qed.

(** What holds of every trace holds of this one. *)
Lemma run_post {A} (p : prog A) (Q : A -> Prop) w : post p (fun _ a => Q a) -> Q (run p w).1.
Proof.
  intros Hp. unfold run. destruct (interp p w) as [[t a] w'] eqn:E1. simpl. eapply Hp, interp_exec, E1.
Qed.

(** A program always returns. *)
Lemma exec_total {A} (p : prog A) w : exists t a, exec p t a /\ interp p w = (t, a, (interp p w).2).
Proof.
  destruct (interp p w) as [[t a] w'] eqn:Hi. exists t, a. split; [by eapply interp_exec|done].
Qed.
End Interp.
End Programs.

Arguments prog E A : clear implicits.
Arguments ev E : clear implicits.
Arguments Ret {E A} a.
Arguments Call {E A X} e k.
Arguments Ev {E ev_type} _ _.

(** ** A program over a part of the outside *)
Fixpoint hoist {E F : Type -> Type} (h : forall X, E X -> F X) {A} (p : prog E A) : prog F A :=
  match p with
  | Ret a => Ret a
  | Call e k => Call (h _ e) (fun x => hoist h (k x))
  end.

Section Hoist.
Context {E F : Type -> Type} (h : forall X, E X -> F X).

Lemma hoist_calls (P : forall X, E X -> Prop) (Q : forall X, F X -> Prop) {A} (p : prog E A) :
  (forall X (e : E X), P X e -> Q X (h X e)) -> calls P p -> calls Q (hoist h p).
Proof.
  intros HPQ. induction p as [a|X e k IH]; simpl; [done|]. intros [He Hk]. split; [by apply HPQ|]. intros x. by apply IH.
Qed.

Lemma hoist_exec {A} (p : prog E A) t a :
  exec (hoist h p) t a -> exists t', exec p t' a /\ t = map (fun e => Ev (h _ (ev_call e)) (ev_answer e)) t'.
Proof.
  revert t; induction p as [b|X e k IH]; intros t; simpl.
  - intros [-> ->]. by exists [].
  - intros (x & t' & -> & He). apply IH in He as (t1 & H1 & ->). exists (Ev e x :: t1). split; [by exists x, t1|done].
Qed.

Lemma run_hoist {W} (ansE : forall X, E X -> W -> X * W) (ansF : forall X, F X -> W -> X * W) {A} (p : prog E A) w :
  (forall X e w, ansF X (h X e) w = ansE X e w) -> run ansF (hoist h p) w = run ansE p w.
Proof.
  intros Hans. revert w; induction p as [a|X e k IH]; intros w; [done|]. simpl hoist. rewrite !run_call, Hans.
  destruct (ansE X e w) as [x w']. apply IH.
Qed.
End Hoist.

Notation "'do!' x ← p ; k" := (try_ p (fun x => k)) (at level 200, x name, p at level 100, k at level 200, right associativity).

(** One step of the program logic, by the head of the program. *)
Ltac post_step :=
  match goal with
  | |- post (Ret _) _ => apply post_ret
  | |- post (Call _ _) _ => apply post_call; intro
  | |- post (call _) _ => apply post_call; intro; apply post_ret
  | |- post (try_ _ _) _ => apply post_try
  | |- post (wrapP _ _ _) _ => apply post_wrap
  | |- post (defer_ _ _) _ => apply post_defer
  | |- post (mbind _ _) _ => apply post_bind
  end.

(** Use what is known of a part. *)
Ltac post_use H := eapply post_mono; [eapply H|].
