(* ===== verification/Fs.v ===== *)
(** * The file system, as package os shows it

    The calls the run's stores make, and a file system to run them on: a tree of
    folders and files by the elements of cleaned paths.  It has no symbolic links,
    its only failures are those of the tree itself (what is missing, what is a folder,
    what is not), a relative path is a path of its own, what lies above the working
    directory is not accessible, and only files are renamed.  A theorem that speaks of
    all answers also covers every other failure. *)

From S2P Require Import Prelude GoStrings Paths Effects.

(** ** Calls *)
Inductive errno : Type :=
  | NotExist (e : text)    (* errors.Is(err, os.ErrNotExist) *)
  | OtherErr (e : text).

Definition errno_text (e : errno) : text := match e with NotExist t | OtherErr t => t end.

Record FileInfo := mkFileInfo {
  fi_IsDir : bool;
  fi_Size : Z;
  fi_ModTime : Z;
}.

Record DirEntry := mkDirEntry {
  de_Name : string;
  de_IsDir : bool;
}.

Inductive FsE : Type -> Type :=
  | MkdirAll (dir : string) (mode : Z) : FsE (unit + errno)
  | Chmod (p : string) (mode : Z) : FsE (unit + errno)
  | Chtimes (p : string) (mtime : Z) : FsE (unit + errno)
  | WriteFile (p data : string) (mode : Z) : FsE (unit + errno)
  | ReadFile (p : string) : FsE (string + errno)
  | Stat (p : string) : FsE (FileInfo + errno)
  | Lstat (p : string) : FsE (FileInfo + errno)
  | ReadDir (p : string) : FsE (list DirEntry + errno)
  | WalkRegular (dir : string) : FsE (list (FileInfo + errno))   (* Info of the regular files WalkDir visits *)
  | Remove (p : string) : FsE (unit + errno)
  | RemoveAll (p : string) : FsE (unit + errno)
  | Rename (old new : string) : FsE (unit + errno)
  | Now : FsE Z.

(** [if err := ...; err != nil { return err }]. *)
Definition fails {E A} (p : prog E (A + errno)) : prog E (result A) :=
  r ← p; Ret (match r with inl a => Ok a | inr e => Err (errno_text e) end).

(** The error is dropped: [_ = ...]. *)
Definition ignore {E A} (p : prog E A) : prog E unit := _ ← p; Ret tt.

(** ** The tree *)
Inductive node : Type :=
  | File (mode mtime : Z) (data : string)
  | Folder (mode mtime : Z).

Notation path := (bool * list string)%type.

(** Where a path leads: what [Clean] keeps of it. *)
Definition key (p : string) : path := (IsAbs p, elems p).

Lemma key_Clean p q : Clean p = Clean q <-> key p = key q.
Proof. rewrite Clean_eq. unfold key. split; [by intros [-> ->]|by intros [= -> ->]]. Qed.

Abbreviation tree := (gmap path node).

(** The roots always exist. *)
Definition find (f : tree) (k : path) : option node :=
  match k.2 with [] => Some (Folder 493 0) | _ => f !! k end.

Definition is_folder (o : option node) : bool := match o with Some (Folder _ _) => true | _ => false end.
Definition is_file (o : option node) : bool := match o with Some (File _ _ _) => true | _ => false end.

Definition folder_at (f : tree) (k : path) : bool := is_folder (find f k).

Definition parent (k : path) : path := (k.1, removelast k.2).
Definition child (k : path) (e : string) : path := (k.1, k.2 ++ [e]).

(** [k] is [d] or lies below it. *)
Definition under (d k : path) : Prop := k.1 = d.1 /\ d.2 `prefix_of` k.2.

#[export] Instance under_dec d k : Decision (under d k).
Proof. unfold under. apply _. Defined.

Definition errno_of (op p msg : string) : text := Fmt "%s %s: %s" [TStr op; TStr p; TStr msg].

(** The way to [k] leads above the working directory, or through a file. *)
Definition blocked (f : tree) (k : path) : bool :=
  existsb (String.eqb "..") k.2 ||
  existsb (fun n => is_file (find f (k.1, take n k.2))) (seq 1 (pred (length k.2))).

(** Why nothing is found at [k]. *)
Definition missing (op p : string) (f : tree) (k : path) : errno :=
  if blocked f k then OtherErr (errno_of op p "not a directory")
  else NotExist (errno_of op p "no such file or directory").

(** A folder whose entries change. *)
Definition touch (now : Z) (k : path) (f : tree) : tree :=
  match f !! k with Some (Folder m _) => <[k := Folder m now]> f | _ => f end.

Definition set_node (now : Z) (k : path) (n : node) (f : tree) : tree := <[k := n]> (touch now (parent k) f).
Definition del_node (now : Z) (k : path) (f : tree) : tree := delete k (touch now (parent k) f).

(** The folders on the way are created; [None] when one is a file. *)
Fixpoint mkdir_path (now mode : Z) (r : bool) (done rest : list string) (f : tree) : option tree :=
  match rest with
  | [] => Some f
  | e :: rest' =>
    if String.eqb ".." e then None
    else match f !! (r, done ++ [e]) with
    | Some (File _ _ _) => None
    | Some (Folder _ _) => mkdir_path now mode r (done ++ [e]) rest' f
    | None => mkdir_path now mode r (done ++ [e]) rest' (set_node now (r, done ++ [e]) (Folder mode now) f)
    end
  end.

Definition remove_tree (now : Z) (k : path) (f : tree) : tree :=
  filter (fun kn => ~ under k kn.1) (touch now (parent k) f).

(** The name of [k'] in the folder [k]. *)
Definition name_in (k k' : path) : option string :=
  match last k'.2 with
  | Some e => if decide (k' = child k e) then Some e else None
  | None => None
  end.

(** [os.ReadDir] sorts. *)
Definition names_in (f : tree) (k : path) : list string :=
  sort_strings (omap (fun kn => name_in k kn.1) (map_to_list f)).

Definition info (n : node) : FileInfo :=
  match n with
  | File _ t d => mkFileInfo false (Z.of_nat (String.length d)) t
  | Folder _ t => mkFileInfo true 0 t
  end.

Definition set_mode (mode : Z) (n : node) : node :=
  match n with File _ t d => File mode t d | Folder _ t => Folder mode t end.
Definition set_mtime (t : Z) (n : node) : node :=
  match n with File m _ d => File m t d | Folder m _ => Folder m t end.

(** The roots have no attributes of interest. *)
Definition put (k : path) (n : node) (f : tree) : tree := match k.2 with [] => f | _ => <[k := n]> f end.

(** ** The answers of the tree *)
Record world := mkWorld { w_now : Z; w_tree : tree }.

Definition on_node {A} (op p : string) (w : world) (g : node -> A * tree) : (A + errno) * world :=
  match find (w_tree w) (key p) with
  | Some n => let '(a, f) := g n in (inl a, mkWorld (w_now w) f)
  | None => (inr (missing op p (w_tree w) (key p)), w)
  end.

Definition fs_answer (X : Type) (e : FsE X) (w : world) : X * world :=
  let now := w_now w in
  let f := w_tree w in
  let ok {A} (a : A) f' : (A + errno) * world := (inl a, mkWorld now f') in
  let no {A} op p msg : (A + errno) * world := (inr (OtherErr (errno_of op p msg)), w) in
  match e in FsE X return X * world with
  | MkdirAll p mode =>
    match mkdir_path now mode (IsAbs p) [] (elems p) f with
    | Some f' => ok tt f'
    | None => no "mkdir" p "not a directory"
    end
  | Chmod p mode => on_node "chmod" p w (fun n => (tt, put (key p) (set_mode mode n) f))
  | Chtimes p t => on_node "chtimes" p w (fun n => (tt, put (key p) (set_mtime t n) f))
  | WriteFile p data mode =>
    match find f (key p) with
    | Some (Folder _ _) => no "open" p "is a directory"
    | Some (File m _ _) => ok tt (<[key p := File m now data]> f)
    | None =>
      if negb (blocked f (key p)) && folder_at f (parent (key p)) then ok tt (set_node now (key p) (File mode now data) f)
      else (inr (missing "open" p f (key p)), w)
    end
  | ReadFile p =>
    match find f (key p) with
    | Some (File _ _ d) => ok d f
    | Some (Folder _ _) => no "read" p "is a directory"
    | None => (inr (missing "open" p f (key p)), w)
    end
  | Stat p => on_node "stat" p w (fun n => (info n, f))
  | Lstat p => on_node "lstat" p w (fun n => (info n, f))
  | ReadDir p =>
    match find f (key p) with
    | Some (Folder _ _) =>
      ok (map (fun e => mkDirEntry e (is_folder (f !! child (key p) e))) (names_in f (key p))) f
    | Some (File _ _ _) => no "open" p "not a directory"
    | None => (inr (missing "open" p f (key p)), w)
    end
  | WalkRegular d =>
    (omap (fun kn => if decide (under (key d) kn.1)
                     then match kn.2 with File _ _ _ => Some (inl (info kn.2)) | Folder _ _ => None end
                     else None) (map_to_list f), w)
  | Remove p =>
    match find f (key p) with
    | Some (Folder _ _) =>
      match names_in f (key p) with [] => ok tt (del_node now (key p) f) | _ => no "remove" p "directory not empty" end
    | Some (File _ _ _) => ok tt (del_node now (key p) f)
    | None => (inr (missing "remove" p f (key p)), w)
    end
  | RemoveAll p =>
    if blocked f (key p) then no "unlinkat" p "not a directory"
    else if bool_decide ((key p).2 = []) then no "unlinkat" p "device or resource busy"
    else ok tt (remove_tree now (key p) f)
  | Rename a b =>
    match find f (key a), find f (key b) with
    | None, _ => (inr (missing "rename" a f (key a)), w)
    | Some (Folder _ _), _ => no "rename" a "invalid cross-device link"
    | Some (File _ _ _), Some (Folder _ _) => no "rename" b "file exists"
    | Some (File m t d), _ =>
      if negb (blocked f (key b)) && folder_at f (parent (key b)) then ok tt (set_node now (key b) (File m t d) (del_node now (key a) f))
      else (inr (missing "rename" b f (key b)), w)
    end
  | Now => (now, w)
  end.

Abbreviation run_fs := (run fs_answer).

(** ** What a tree holds *)

(** The bytes of the file at [k]. *)
Definition contents (f : tree) (k : path) : option string :=
  match f !! k with Some (File _ _ d) => Some d | _ => None end.

(** Paths that stay paths: the elements a path keeps are none of [""], ["."]. *)
Lemma parent_child k e : parent (child k e) = k.
Proof. destruct k as [r l]. unfold parent, child. simpl. by rewrite List.removelast_last. Qed.

Lemma child_inj k k' e e' : child k e = child k' e' -> k = k' /\ e = e'.
Proof. destruct k, k'. intros [= -> H]. by apply app_inj_tail in H as [-> ->]. Qed.

Lemma child_parent k : k.2 <> [] -> exists e, k = child (parent k) e.
Proof.
  destruct k as [r l]. simpl. intros Hl. destruct (exists_last Hl) as (l' & e & ->). exists e.
  unfold parent, child. simpl. by rewrite List.removelast_last.
Qed.

Lemma name_in_Some k k' e : name_in k k' = Some e <-> k' = child k e.
Proof.
  unfold name_in. split.
  - destruct (last k'.2); [|done]. case_decide; [|done]. by intros [= ->].
  - intros ->. unfold child at 1. simpl. rewrite last_snoc. by rewrite decide_True.
Qed.

Lemma elem_of_names_in f k e : e ∈ names_in f k <-> is_Some (f !! child k e).
Proof.
  unfold names_in. rewrite elem_of_sort_strings, list_elem_of_omap. split.
  - intros ([k' n] & Hin & Hn). simpl in Hn. apply name_in_Some in Hn as ->. apply elem_of_map_to_list in Hin. by exists n.
  - intros [n Hn]. exists (child k e, n). split; [by apply elem_of_map_to_list|]. by apply name_in_Some.
Qed.

Lemma names_in_NoDup f k : NoDup (names_in f k).
Proof.
  apply sort_strings_NoDup. pose proof (NoDup_fst_map_to_list f) as Hnd. induction (map_to_list f) as [|[k' n] l IH]; simpl; [constructor|].
  apply NoDup_cons in Hnd as [Hk Hnd]. destruct (name_in k k') as [e|] eqn:E; [|by apply IH]. apply NoDup_cons. split; [|by apply IH].
  intros Hin. apply list_elem_of_omap in Hin as ([k2 n2] & Hin & He). apply name_in_Some in E as ->. simpl in He. apply name_in_Some in He as ->.
  apply Hk. apply (list_elem_of_fmap_2 fst _ _ Hin).
Qed.

(** *** Each change, seen through [contents] *)
Lemma calls_fails (P : forall X, FsE X -> Prop) {A} (e : FsE (A + errno)) : P _ e -> calls P (fails (call e)).
Proof. intros He. by split. Qed.

Lemma contents_touch now k f j : contents (touch now k f) j = contents f j.
Proof.
  unfold contents, touch. destruct (f !! k) as [[m t d|m t]|] eqn:E; [done| |done].
  destruct (decide (j = k)) as [->|Hj]; [by rewrite lookup_insert_eq, E|by rewrite lookup_insert_ne].
Qed.

Lemma folder_at_touch now k f j : folder_at (touch now k f) j = folder_at f j.
Proof.
  unfold folder_at, find. destruct j.2; [done|]. unfold touch. destruct (f !! k) as [[m t d|m t]|] eqn:E; [done| |done].
  destruct (decide (j = k)) as [->|Hj]; [by rewrite lookup_insert_eq, E|by rewrite lookup_insert_ne].
Qed.

Lemma contents_insert k n f j :
  contents (<[k := n]> f) j = if decide (j = k) then match n with File _ _ d => Some d | Folder _ _ => None end else contents f j.
Proof. unfold contents. case_decide; [subst; by rewrite lookup_insert_eq|by rewrite lookup_insert_ne]. Qed.

Lemma folder_at_insert k n f j :
  j.2 <> [] -> folder_at (<[k := n]> f) j = if decide (j = k) then is_folder (Some n) else folder_at f j.
Proof.
  intros Hj. unfold folder_at, find. destruct j.2; [done|]. case_decide; [subst; by rewrite lookup_insert_eq|by rewrite lookup_insert_ne].
Qed.

Lemma contents_set_node now k n f j :
  contents (set_node now k n f) j = if decide (j = k) then match n with File _ _ d => Some d | Folder _ _ => None end else contents f j.
Proof. unfold set_node. by rewrite contents_insert, contents_touch. Qed.

Lemma folder_at_set_node now k n f j :
  j.2 <> [] -> folder_at (set_node now k n f) j = if decide (j = k) then is_folder (Some n) else folder_at f j.
Proof. intros Hj. unfold set_node. by rewrite folder_at_insert, folder_at_touch. Qed.

Lemma lookup_touch_None now k f j : touch now k f !! j = None <-> f !! j = None.
Proof.
  unfold touch. destruct (f !! k) as [[m t d|m t]|] eqn:E; [done| |done].
  destruct (decide (j = k)) as [->|Hj]; [rewrite lookup_insert_eq, E; by split|by rewrite lookup_insert_ne].
Qed.

Lemma lookup_remove_tree now k f j : remove_tree now k f !! j = if decide (under k j) then None else touch now (parent k) f !! j.
Proof.
  unfold remove_tree. rewrite map_lookup_filter. destruct (touch now (parent k) f !! j) as [n|]; simpl; [|by case_decide].
  case_decide; case_guard; try done; naive_solver.
Qed.

Lemma contents_remove_tree now k f j : contents (remove_tree now k f) j = if decide (under k j) then None else contents f j.
Proof.
  unfold contents at 1. rewrite lookup_remove_tree. case_decide; [done|]. exact (contents_touch now (parent k) f j).
Qed.

Lemma folder_at_remove_tree now k f j :
  j.2 <> [] -> folder_at (remove_tree now k f) j = if decide (under k j) then false else folder_at f j.
Proof.
  intros Hj. rewrite <-(folder_at_touch now (parent k) f j). unfold folder_at, find. destruct j.2; [done|].
  rewrite lookup_remove_tree. by case_decide.
Qed.

(** *** [MkdirAll] *)

(** Some prefix of [rest], the whole of it included, is a file. *)
Fixpoint file_on_way (r : bool) (done rest : list string) (f : tree) : bool :=
  match rest with
  | [] => false
  | e :: rest' => String.eqb ".." e || is_file (f !! (r, done ++ [e])) || file_on_way r (done ++ [e]) rest' f
  end.

Lemma file_on_way_ext r done rest f f' :
  (forall j, is_file (f' !! j) = is_file (f !! j)) -> file_on_way r done rest f' = file_on_way r done rest f.
Proof. intros H. revert done; induction rest as [|e rest IH]; intros done; simpl; [done|]. by rewrite H, IH. Qed.

Lemma is_file_set_folder now k m t f j : f !! k = None -> is_file (set_node now k (Folder m t) f !! j) = is_file (f !! j).
Proof.
  intros Hk. unfold set_node. destruct (decide (j = k)) as [->|Hj]; [by rewrite lookup_insert_eq, Hk|].
  rewrite lookup_insert_ne by done. unfold touch. destruct (f !! parent k) as [[]|] eqn:E; [done| |done].
  destruct (decide (j = parent k)) as [->|Hp]; [by rewrite lookup_insert_eq, E|by rewrite lookup_insert_ne].
Qed.

Lemma mkdir_path_None now mode r done rest f : mkdir_path now mode r done rest f = None <-> file_on_way r done rest f = true.
Proof.
  revert done f; induction rest as [|e rest IH]; intros done f; cbn [mkdir_path file_on_way]; [done|].
  destruct (String.eqb ".." e); [done|].
  destruct (f !! (r, done ++ [e])) as [[]|] eqn:E; simpl; [done|apply IH|]. rewrite IH.
  rewrite (file_on_way_ext _ _ _ f); [done|]. intros j. by apply is_file_set_folder.
Qed.

(** A successful call leaves the files, keeps the folders and makes the missing ones of the path. *)
Lemma mkdir_path_Some now mode r done rest f f' :
  mkdir_path now mode r done rest f = Some f' ->
  (forall j, contents f' j = contents f j) /\
  (forall j, folder_at f' j = true <->
     folder_at f j = true \/ exists l, l <> [] /\ l `prefix_of` rest /\ j = (r, done ++ l)).
Proof.
  revert done f; induction rest as [|e rest IH]; intros done f; cbn [mkdir_path].
  - intros [= <-]. split; [done|]. intros j. split; [by left|]. intros [?|(l & Hl & [k Hk] & _)]; [done|]. by destruct l.
  - assert (forall l : list string, l <> [] /\ l `prefix_of` e :: rest <-> l = [e] \/ exists l', l = e :: l' /\ l' <> [] /\ l' `prefix_of` rest) as Hpre.
    { intros l. split.
      - intros [Hl [k Hk]]. destruct l as [|e' l]; [done|]. injection Hk as <- Hk. destruct l; [by left|]. right.
        eexists; split_and!; [done..|]. by exists k.
      - intros [->|(l' & -> & Hl & [k ->])]; (split; [done|]); [by exists rest|by exists k]. }
    assert (forall f1, (forall j, contents f1 j = contents f j) ->
              (forall j, folder_at f1 j = true <-> folder_at f j = true \/ j = (r, done ++ [e])) ->
              mkdir_path now mode r (done ++ [e]) rest f1 = Some f' ->
              (forall j, contents f' j = contents f j) /\
              (forall j, folder_at f' j = true <->
                folder_at f j = true \/ exists l, l <> [] /\ l `prefix_of` e :: rest /\ j = (r, done ++ l))) as Hnext.
    { intros f1 Hc Hf Hm. apply IH in Hm as [Hc' Hf']. split; [intros j; by rewrite Hc', Hc|]. intros j. rewrite Hf', Hf.
      split.
      - intros [[?| ->]|(l & Hl & Hp & ->)]; [by left|right; exists [e]; split_and!; [done|by exists rest|done]|].
        right. exists (e :: l). rewrite <-app_assoc. split_and!; [done|by apply prefix_cons|done].
      - intros [?|(l & Hl & Hp & ->)]; [by do 2 left|]. destruct (proj1 (Hpre l) (conj Hl Hp)) as [->|(l' & -> & Hl' & Hp')].
        + left; by right.
        + right. exists l'. by rewrite <-app_assoc. }
    destruct (String.eqb ".." e); [done|].
    destruct (f !! (r, done ++ [e])) as [[]|] eqn:E; [done| |]; apply Hnext.
    + done.
    + intros j. split; [by left|]. intros [?| ->]; [done|]. unfold folder_at, find. simpl. destruct (done ++ [e]) eqn:E'; [done|]. by rewrite E.
    + intros j. rewrite contents_set_node. case_decide as Hj; [|done]. subst. unfold contents. by rewrite E.
    + intros j. destruct (decide (j.2 = [])) as [Hj|Hj].
      * unfold folder_at, find. rewrite Hj. simpl. split; [by left|done].
      * rewrite folder_at_set_node by done. case_decide as Hd; simpl; [subst; split; [by right|done]|]. split; [by left|]. by intros [?|?].
Qed.

Lemma key_Join d l : Forall normal l -> l <> [] -> key (Join (d :: l)) = ((key d).1, (key d).2 ++ l).
Proof. intros Hn Hl. unfold key. by destruct (Join_normal d l Hn Hl) as [-> ->]. Qed.

Lemma key_child d e : normal e -> key (Join [d; e]) = child (key d) e.
Proof. intros He. by apply key_Join; [constructor|]. Qed.

Lemma lookup_None_iff f j : j.2 <> [] -> f !! j = None <-> contents f j = None /\ folder_at f j = false.
Proof.
  intros Hj. unfold contents, folder_at, find. destruct j.2; [done|]. destruct (f !! j) as [[]|]; simpl; naive_solver.
Qed.

Lemma names_in_nil f k : names_in f k = [] <-> forall e, f !! child k e = None.
Proof.
  split.
  - intros Hn e. apply eq_None_not_Some. rewrite <-elem_of_names_in, Hn. apply not_elem_of_nil.
  - intros Hn. apply elem_of_nil_inv. intros e. rewrite elem_of_names_in, Hn. by intros [? ?].
Qed.

Lemma child_nonempty k e : (child k e).2 <> [].
Proof. unfold child. simpl. by destruct k.2. Qed.

(** *** A folder made anew *)

(** [RemoveAll] then [MkdirAll] of the same path. *)
Definition renewed (k : path) (f f' : tree) : Prop :=
  folder_at f' k = true /\ names_in f' k = [] /\
  (forall j, ~ under k j -> contents f' j = contents f j) /\
  (forall j, under k j -> contents f' j = None).

Lemma renew_folder now mode k f f' :
  k.2 <> [] -> mkdir_path now mode k.1 [] k.2 (remove_tree now k f) = Some f' -> renewed k f f'.
Proof.
  intros Hk Hm. apply mkdir_path_Some in Hm as [Hc Hf]. simpl in *. split_and!.
  - apply Hf. right. exists k.2. by destruct k.
  - apply names_in_nil. intros e. apply lookup_None_iff; [apply child_nonempty|].
    assert (under k (child k e)) as Hu by (by split; [|exists [e]]). rewrite Hc, contents_remove_tree, decide_True by done.
    split; [done|]. apply not_true_is_false. rewrite Hf, folder_at_remove_tree by apply child_nonempty.
    rewrite decide_True by done. intros [?|(l & _ & [t Ht] & Hj)]; [done|]. unfold child in Hj. injection Hj as Hj.
    apply (f_equal length) in Ht. rewrite length_app, <-Hj, length_app in Ht. simpl in Ht. lia.
  - intros j Hj. by rewrite Hc, contents_remove_tree, decide_False.
  - intros j Hj. by rewrite Hc, contents_remove_tree, decide_True.
Qed.

(** The clock does not move while a program runs, and only [contents] and folders change. *)
Lemma now_answer X (e : FsE X) w : w_now (fs_answer X e w).2 = w_now w.
Proof. unfold fs_answer, on_node. destruct e; repeat case_match; simplify_eq/=; done. Qed.

Lemma run_now {A} (p : prog FsE A) w : w_now (run_fs p w).2 = w_now w.
Proof. apply (run_invariant fs_answer (fun w' => w_now w' = w_now w) p w); [|done]. intros X e w' <-. apply now_answer. Qed.

Lemma run_fails {A} (e : FsE (A + errno)) w :
  run_fs (fails (call e)) w =
  let '(r, w') := fs_answer _ e w in (match r with inl a => Ok a | inr e => Err (errno_text e) end, w').
Proof. unfold fails. rewrite run_bind. unfold call. rewrite run_call. by destruct (fs_answer _ e w). Qed.

(** Attributes are not contents. *)
Lemma put_attr k n n' f :
  find f k = Some n -> is_folder (Some n') = is_folder (Some n) -> contents {[ k := n' ]} k = contents {[ k := n ]} k ->
  (forall j, contents (put k n' f) j = contents f j) /\ (forall j, folder_at (put k n' f) j = folder_at f j).
Proof.
  unfold put, find, folder_at. destruct k as [r [|x l]]; simpl; [done|]. intros Hf Hn Hc.
  unfold contents in Hc. rewrite !lookup_singleton_eq in Hc. split; intros j.
  - rewrite contents_insert. case_decide as E; [|done]. subst j. unfold contents. rewrite Hf. done.
  - unfold find. destruct j.2 eqn:Hj; [done|]. destruct (decide (j = (r, x :: l))) as [->|Hne].
    + by rewrite lookup_insert_eq, Hf.
    + by rewrite lookup_insert_ne.
Qed.

Lemma put_mode k n mode f :
  find f k = Some n ->
  (forall j, contents (put k (set_mode mode n) f) j = contents f j) /\ (forall j, folder_at (put k (set_mode mode n) f) j = folder_at f j).
Proof. intros Hf. apply put_attr with n; [done|by destruct n|]. unfold contents. rewrite !lookup_singleton_eq. by destruct n. Qed.

Lemma put_mtime k n t f :
  find f k = Some n ->
  (forall j, contents (put k (set_mtime t n) f) j = contents f j) /\ (forall j, folder_at (put k (set_mtime t n) f) j = folder_at f j).
Proof. intros Hf. apply put_attr with n; [done|by destruct n|]. unfold contents. rewrite !lookup_singleton_eq. by destruct n. Qed.

(** *** Below a directory *)
Lemma under_refl k : under k k.
Proof. by split. Qed.

Lemma under_trans a b c : under a b -> under b c -> under a c.
Proof. intros [H1 H2] [H3 H4]. split; [by rewrite H3|by trans b.2]. Qed.

Lemma under_child k e : under k (child k e).
Proof. split; [done|by exists [e]]. Qed.

Lemma under_app k l : under k (k.1, k.2 ++ l).
Proof. split; [done|by exists l]. Qed.

Lemma key_no_dots d p : IsAbs p = false -> contains p ".." = false -> key (Join [d; p]) = ((key d).1, (key d).2 ++ elems p).
Proof. intros Ha Hc. unfold key. by destruct (Join_no_dots d p Ha Hc) as [-> ->]. Qed.

Lemma key_Dir q : key (Dir (Clean q)) = parent (key q).
Proof. unfold key. by destruct (Dir_Clean q) as [-> ->]. Qed.

(** [Join] is clean. *)
Lemma Join_Clean l : Join l <> "" -> exists q, Join l = Clean q.
Proof. induction l as [|e l IH]; [done|]. cbn [Join]. destruct (String.eqb e ""); [done|]. by eexists. Qed.

Lemma key_Dir_Join l : key (Dir (Join l)) = parent (key (Join l)).
Proof.
  destruct (decide (Join l = "")) as [->|H]; [done|]. destruct (Join_Clean l H) as [q ->].
  rewrite key_Dir. unfold key. by rewrite IsAbs_Clean, elems_Clean.
Qed.

Lemma under_parent k : under (parent k) k.
Proof.
  destruct (decide (k.2 = [])) as [Hk|Hk]; [|destruct (child_parent k Hk) as [e He]; rewrite He at 2; apply under_child].
  unfold parent. rewrite Hk. split; [done|]. by rewrite Hk.
Qed.

(** Two prefixes of one path are comparable. *)
Lemma under_linear a b c : under a c -> under b c -> under a b \/ under b a.
Proof.
  intros [H1 [l1 H2]] [H3 [l2 H4]]. rewrite H2 in H4. apply app_eq_app in H4 as [l [[H5 _]|[H5 _]]].
  - right. split; [congruence|]. by exists l.
  - left. split; [congruence|]. by exists l.
Qed.

Lemma run_WriteFile p data mode w w' :
  run_fs (fails (call (WriteFile p data mode))) w = (Ok tt, w') ->
  forall j, contents (w_tree w') j = if decide (j = key p) then Some data else contents (w_tree w) j.
Proof.
  rewrite run_fails. simpl. destruct (find _ (key p)) as [[m t d|]|] eqn:E; [|done|].
  - intros [= <-] j. simpl. apply contents_insert.
  - destruct (_ && _); [|done]. intros [= <-] j. simpl. apply contents_set_node.
Qed.

Lemma run_MkdirAll p mode w w' :
  run_fs (fails (call (MkdirAll p mode))) w = (Ok tt, w') ->
  mkdir_path (w_now w) mode (IsAbs p) [] (elems p) (w_tree w) = Some (w_tree w') /\
  (forall j, contents (w_tree w') j = contents (w_tree w) j).
Proof.
  rewrite run_fails. simpl. destruct (mkdir_path _ _ _ _ _ _) as [f|] eqn:E; [|done]. intros [= <-].
  split; [done|]. exact (proj1 (mkdir_path_Some _ _ _ [] _ _ _ E)).
Qed.

(** A directory emptied and made again. *)
Lemma run_renew p mode w w' :
  run_fs (do! _ ← fails (call (RemoveAll p)); fails (call (MkdirAll p mode))) w = (Ok tt, w') ->
  renewed (key p) (w_tree w) (w_tree w').
Proof.
  rewrite run_try, run_fails. simpl. destruct (blocked _ _); [done|]. case_bool_decide as Hne; [done|].
  intros [Hm _]%run_MkdirAll. simpl in Hm. by eapply renew_folder.
Qed.

(** The files of a folder. *)
Definition dir_files (f : tree) (k : path) : gmap string string :=
  list_to_map (omap (fun e => pair e <$> contents f (child k e)) (names_in f k)).

Lemma lookup_dir_files f k e : dir_files f k !! e = contents f (child k e).
Proof.
  unfold dir_files. assert (e ∉ names_in f k -> contents f (child k e) = None) as Hout.
  { intros He. unfold contents. destruct (f !! child k e) eqn:E; [|done]. destruct He. apply elem_of_names_in. by rewrite E. }
  pose proof (names_in_NoDup f k) as Hnd. induction (names_in f k) as [|x l IH]; simpl; [rewrite lookup_empty, Hout; [done|apply not_elem_of_nil]|].
  apply NoDup_cons in Hnd as [Hx Hnd]. destruct (decide (x = e)) as [->|Hne].
  - destruct (contents f (child k e)) as [d|] eqn:E; simpl; [by rewrite lookup_insert_eq|].
    apply not_elem_of_list_to_map_1. intros Hin. apply list_elem_of_fmap in Hin as ([e' d'] & -> & Hin).
    apply list_elem_of_omap in Hin as (y & Hy & Hd). simpl in Hx. destruct (contents f (child k y)) eqn:E'; [|done].
    simpl in Hd. by injection Hd as -> _.
  - assert (e ∉ l -> contents f (child k e) = None) as Hout' by (intros Hl; apply Hout; set_solver).
    destruct (contents f (child k x)); simpl; [rewrite lookup_insert_ne by done|]; by apply IH.
Qed.

(** ** Well-formed trees *)

(** Every node lies in a folder and has an ordinary name. *)
Definition wf (f : tree) : Prop :=
  forall k n, f !! k = Some n -> k.2 <> [] /\ Forall normal k.2 /\ folder_at f (parent k) = true.

Lemma key_normal p : existsb (String.eqb "..") (key p).2 = false -> Forall normal (key p).2.
Proof.
  simpl. destruct (elems_cleaned p) as (k & m & -> & Hm & _). rewrite existsb_app. destruct k as [|k]; [done|].
  by intros [H _]%orb_false_iff.
Qed.

Lemma blocked_false f p : blocked f (key p) = false -> Forall normal (key p).2.
Proof. unfold blocked. intros [H _]%orb_false_iff. by apply key_normal. Qed.

Lemma find_nonempty f k : k.2 <> [] -> find f k = f !! k.
Proof. unfold find. by destruct k.2. Qed.

Lemma folder_at_root f k : k.2 = [] -> folder_at f k = true.
Proof. unfold folder_at, find. by intros ->. Qed.

(** A well-formed tree stays so under a change that keeps the folders its nodes are in. *)
Lemma wf_change f f' :
  wf f ->
  (forall k n, f' !! k = Some n -> is_Some (f !! k) \/ k.2 <> [] /\ Forall normal k.2 /\ folder_at f' (parent k) = true) ->
  (forall k n, f' !! k = Some n -> folder_at f (parent k) = true -> folder_at f' (parent k) = true) -> wf f'.
Proof.
  intros Hwf Hkeys Hfold k n Hk. destruct (Hkeys k n Hk) as [[n' Hn']|?]; [|done].
  destruct (Hwf k n' Hn') as (H1 & H2 & H3). split_and!; [done..|]. by eapply Hfold.
Qed.

Lemma lookup_set_node now k n f j n' :
  set_node now k n f !! j = Some n' -> j = k \/ is_Some (f !! j).
Proof.
  unfold set_node. destruct (decide (j = k)) as [->|Hj]; [by left|]. rewrite lookup_insert_ne by done. intros Ht. right.
  destruct (f !! j) eqn:E; [by eexists|]. by rewrite (proj2 (lookup_touch_None now (parent k) f j) E) in Ht.
Qed.

Lemma wf_set_node now k n f :
  wf f -> k.2 <> [] -> Forall normal k.2 -> folder_at f (parent k) = true ->
  (is_folder (Some n) = true \/ folder_at f k = false) -> wf (set_node now k n f).
Proof.
  intros Hwf Hk Hn Hp Hf.
  assert (forall j, folder_at f j = true -> folder_at (set_node now k n f) j = true) as Hmono.
  { intros j Hj. destruct (decide (j.2 = [])) as [Hj0|Hj0]; [by apply folder_at_root|].
    rewrite folder_at_set_node by done. case_decide as E; [|done]. subst j. destruct Hf as [?|Hf]; [done|]. by rewrite Hf in Hj. }
  apply (wf_change f); [done| |].
  - intros j n' [->|?]%lookup_set_node; [|by left]. right. split_and!; [done..|]. by apply Hmono.
  - intros j n' _. apply Hmono.
Qed.

Lemma wf_put k n n' f : wf f -> find f k = Some n -> is_folder (Some n') = is_folder (Some n) -> wf (put k n' f).
Proof.
  intros Hwf Hf Hn. unfold put. destruct k.2 eqn:Hk; [done|]. rewrite find_nonempty in Hf by by rewrite Hk.
  apply (wf_change f); [done| |].
  - intros j m Hj. left. destruct (decide (j = k)) as [->|Hjk]; [by rewrite Hf|]. rewrite lookup_insert_ne in Hj by done. by rewrite Hj.
  - intros j m _ Hp. destruct (decide ((parent j).2 = [])) as [H0|H0]; [by apply folder_at_root|].
    rewrite folder_at_insert by done. case_decide as E; [|done]. rewrite Hn. unfold folder_at in Hp. by rewrite E, find_nonempty, Hf in Hp by by rewrite Hk.
Qed.

Lemma wf_remove_tree now k f : wf f -> wf (remove_tree now k f).
Proof.
  intros Hwf. apply (wf_change f); [done| |].
  - intros j n Hj. left. rewrite lookup_remove_tree in Hj. case_decide; [done|]. destruct (f !! j) eqn:E; [by eexists|].
    by rewrite (proj2 (lookup_touch_None now (parent k) f j) E) in Hj.
  - intros j n Hj Hp. destruct (decide ((parent j).2 = [])) as [H0|H0]; [by apply folder_at_root|].
    rewrite folder_at_remove_tree by done. case_decide as Hu; [|done]. rewrite lookup_remove_tree in Hj. case_decide as Hu'; [done|].
    destruct Hu'. eapply under_trans; [exact Hu|apply under_parent].
Qed.

Lemma lookup_del_node now k f j : del_node now k f !! j = if decide (j = k) then None else touch now (parent k) f !! j.
Proof. unfold del_node. case_decide; [subst; apply lookup_delete_eq|by apply lookup_delete_ne]. Qed.

Lemma folder_at_del_node now k f j : j.2 <> [] -> j <> k -> folder_at (del_node now k f) j = folder_at f j.
Proof.
  intros Hj Hk. rewrite <-(folder_at_touch now (parent k) f j). unfold folder_at. by rewrite !find_nonempty, lookup_del_node, decide_False.
Qed.

Lemma wf_del_node now k f : wf f -> names_in f k = [] -> wf (del_node now k f).
Proof.
  intros Hwf He. rewrite names_in_nil in He. apply (wf_change f); [done| |].
  - intros j n Hj. left. rewrite lookup_del_node in Hj. case_decide; [done|]. destruct (f !! j) eqn:E; [by eexists|].
    by rewrite (proj2 (lookup_touch_None now (parent k) f j) E) in Hj.
  - intros j n Hj Hp. destruct (decide ((parent j).2 = [])) as [H0|H0]; [by apply folder_at_root|].
    rewrite folder_at_del_node; [done..|]. intros E. rewrite lookup_del_node in Hj. case_decide; [done|].
    destruct (child_parent j) as [e Hje].
    { intros Hj0. destruct j as [r l]. simpl in *. by subst l. }
    rewrite E in Hje. pose proof (He e) as Hn. rewrite <-Hje in Hn. by rewrite (proj2 (lookup_touch_None now (parent k) f j) Hn) in Hj.
Qed.

(** A file has nothing below it. *)
Lemma file_no_names f k : wf f -> is_file (f !! k) = true -> names_in f k = [].
Proof.
  intros Hwf Hk. destruct (f !! k) as [n|] eqn:Ek; [|done]. destruct (Hwf _ _ Ek) as (Hk0 & _). apply names_in_nil. intros e.
  destruct (f !! child k e) as [n'|] eqn:E; [|done]. destruct (Hwf _ _ E) as (_ & _ & Hp).
  rewrite parent_child in Hp. unfold folder_at in Hp. rewrite find_nonempty, Ek in Hp by done. by destruct n.
Qed.

Lemma file_lookup f k m t d : find f k = Some (File m t d) -> f !! k = Some (File m t d).
Proof. unfold find. by destruct k.2. Qed.

Lemma wf_insert_file f k m t d m' t' d' : wf f -> find f k = Some (File m t d) -> wf (<[k := File m' t' d']> f).
Proof.
  intros Hwf Hf. pose proof (wf_put k (File m t d) (File m' t' d') f Hwf Hf eq_refl) as H. unfold put in H.
  destruct k.2 eqn:Hk; [|done]. unfold find in Hf. by rewrite Hk in Hf.
Qed.

Lemma wf_mkdir_path now mode r done rest f f' :
  wf f -> Forall normal done -> Forall (fun e => plain e /\ e <> "" /\ e <> ".") rest -> folder_at f (r, done) = true ->
  mkdir_path now mode r done rest f = Some f' -> wf f'.
Proof.
  revert done f; induction rest as [|e rest IH]; intros done f Hwf Hd Hr Hp; cbn [mkdir_path]; [by intros [= <-]|].
  destruct (String.eqb_spec ".." e) as [|He]; [discriminate|]. apply Forall_cons in Hr as [(H1 & H2 & H3) Hr].
  assert (Forall normal (done ++ [e])) as Hn by (apply Forall_app; split; [exact Hd|]; apply Forall_singleton; split_and!; congruence).
  assert ((r, done ++ [e]).2 <> []) as Hne by by destruct done.
  destruct (f !! (r, done ++ [e])) as [[]|] eqn:E; [discriminate| |].
  - apply IH; [exact Hwf|exact Hn|exact Hr|]. unfold folder_at. by rewrite find_nonempty, E.
  - assert (parent (r, done ++ [e]) = (r, done)) as Hpar by (unfold parent; simpl; by rewrite List.removelast_last).
    apply IH; [|exact Hn|exact Hr|].
    + apply wf_set_node; [exact Hwf|exact Hne|exact Hn|by rewrite Hpar|by left].
    + rewrite folder_at_set_node by exact Hne. by rewrite decide_True.
Qed.

Lemma elems_not_dot p : Forall (fun e => plain e /\ e <> "" /\ e <> ".") (elems p).
Proof.
  destruct (elems_cleaned p) as (k & m & -> & Hm & _). apply Forall_app. split; [by apply Forall_replicate|].
  eapply Forall_impl; [exact Hm|]. intros e (? & ? & ? & ?). done.
Qed.

(** Every call keeps the tree well formed. *)
Lemma fs_answer_wf X (e : FsE X) w : wf (w_tree w) -> wf (w_tree (fs_answer X e w).2).
Proof.
  intros Hwf. destruct w as [now f]. simpl in Hwf. destruct e; cbn [fs_answer w_now w_tree]; try exact Hwf.
  - destruct (mkdir_path _ _ _ _ _ _) eqn:E; [|exact Hwf]. eapply wf_mkdir_path; [exact Hwf|constructor|apply elems_not_dot|done|exact E].
  - unfold on_node. simpl. destruct (find f (key p)) as [n|] eqn:E; [|exact Hwf]. eapply wf_put; [exact Hwf|exact E|by destruct n].
  - unfold on_node. simpl. destruct (find f (key p)) as [n|] eqn:E; [|exact Hwf]. eapply wf_put; [exact Hwf|exact E|by destruct n].
  - destruct (find f (key p)) as [[]|] eqn:E; [by eapply wf_insert_file|exact Hwf|].
    destruct (blocked f (key p)) eqn:Eb; simpl; [exact Hwf|]. destruct (folder_at f (parent (key p))) eqn:Ep; simpl; [|exact Hwf].
    assert ((key p).2 <> []) as Hne by (intros H0; unfold find in E; by rewrite H0 in E).
    apply wf_set_node; [exact Hwf|exact Hne|by apply (blocked_false f)|exact Ep|]. right. unfold folder_at. by rewrite E.
  - destruct (find f (key p)) as [[]|]; exact Hwf.
  - unfold on_node. simpl. by destruct (find f (key p)).
  - unfold on_node. simpl. by destruct (find f (key p)).
  - destruct (find f (key p)) as [[]|]; exact Hwf.
  - destruct (find f (key p)) as [[]|] eqn:E; [| |exact Hwf].
    + apply wf_del_node; [exact Hwf|]. apply file_no_names; [exact Hwf|]. by rewrite (file_lookup _ _ _ _ _ E).
    + destruct (names_in f (key p)) eqn:En; [|exact Hwf]. by apply wf_del_node.
  - destruct (blocked f (key p)); [exact Hwf|]. destruct (bool_decide _); [exact Hwf|]. by apply wf_remove_tree.
  - destruct (find f (key old)) as [[m t d|]|] eqn:Ea; [|exact Hwf|exact Hwf].
    pose proof (file_lookup _ _ _ _ _ Ea) as Hla.
    assert (wf (del_node now (key old) f)) as Hwd by (apply wf_del_node; [exact Hwf|]; apply file_no_names; [exact Hwf|by rewrite Hla]).
    destruct (find f (key new)) as [[]|] eqn:Eb; [|exact Hwf|];
      (destruct (blocked f (key new)) eqn:Ebl; simpl; [exact Hwf|]; destruct (folder_at f (parent (key new))) eqn:Ep; simpl; [|exact Hwf]).
    1-2: assert ((key new).2 <> []) as Hne by (intros H0; unfold find in Eb; by rewrite H0 in Eb).
    1-2: apply wf_set_node; [exact Hwd|exact Hne|by apply (blocked_false f)| |].
    1,3: destruct (decide ((parent (key new)).2 = [])) as [H0|H0]; [by apply folder_at_root|]; rewrite folder_at_del_node; [exact Ep|exact H0|];
      intros Heq; unfold folder_at in Ep; rewrite Heq, Ea in Ep; discriminate.
    1-2: right; destruct (decide (key new = key old)) as [Heq|Hno];
      [rewrite Heq; unfold folder_at; rewrite Heq in Hne; by rewrite find_nonempty, lookup_del_node, decide_True|
       rewrite folder_at_del_node by done; unfold folder_at; by rewrite Eb].
Qed.

Lemma run_wf {A} (p : prog FsE A) w : wf (w_tree w) -> wf (w_tree (run_fs p w).2).
Proof. intros Hw. apply (run_invariant fs_answer (fun w => wf (w_tree w))); [|done]. intros X e w' H. by apply fs_answer_wf. Qed.

(** ** Frames: what a program leaves alone *)

(** The call changes no file of [K]. *)
Definition leaves_be (K : path -> Prop) {X} (e : FsE X) : Prop :=
  match e with
  | WriteFile p _ _ | Remove p => ~ K (key p)
  | RemoveAll p => forall j, under (key p) j -> ~ K j
  | Rename a b => ~ K (key a) /\ ~ K (key b)
  | _ => True
  end.

Lemma contents_del_node now k f j : contents (del_node now k f) j = if decide (j = k) then None else contents f j.
Proof.
  unfold contents at 1. rewrite lookup_del_node. case_decide; [done|]. apply contents_touch.
Qed.

Lemma answer_frame (K : path -> Prop) X (e : FsE X) w j :
  leaves_be K e -> K j -> contents (w_tree (fs_answer X e w).2) j = contents (w_tree w) j.
Proof.
  intros He Hj. destruct w as [now f]. destruct e; cbn [leaves_be] in He; cbn [fs_answer w_now w_tree]; try done.
  - destruct (mkdir_path _ _ _ _ _ _) eqn:E; [|done]. by apply (proj1 (mkdir_path_Some _ _ _ [] _ _ _ E)).
  - unfold on_node. simpl. destruct (find f (key p)) as [n|] eqn:E; [|done]. by apply (proj1 (put_mode _ _ _ _ E)).
  - unfold on_node. simpl. destruct (find f (key p)) as [n|] eqn:E; [|done]. by apply (proj1 (put_mtime _ _ _ _ E)).
  - assert (j <> key p) as Hne by (by intros ->). destruct (find f (key p)) as [[]|]; [|done|].
    + simpl. by rewrite contents_insert, decide_False.
    + destruct (_ && _); [|done]. simpl. by rewrite contents_set_node, decide_False.
  - by destruct (find f (key p)) as [[]|].
  - unfold on_node. simpl. by destruct (find f (key p)).
  - unfold on_node. simpl. by destruct (find f (key p)).
  - by destruct (find f (key p)) as [[]|].
  - assert (j <> key p) as Hne by (by intros ->). destruct (find f (key p)) as [[]|]; [| |done].
    + simpl. by rewrite contents_del_node, decide_False.
    + destruct (names_in f (key p)); [|done]. simpl. by rewrite contents_del_node, decide_False.
  - destruct (blocked f (key p)); [done|]. destruct (bool_decide _); [done|]. simpl. rewrite contents_remove_tree.
    rewrite decide_False; [done|]. intros Hu. by apply (He j).
  - destruct He as [Ha Hb]. assert (j <> key old /\ j <> key new) as [H1 H2] by (split; by intros ->).
    destruct (find f (key old)) as [[]|]; [|done|done]. destruct (find f (key new)) as [[]|]; [|done|];
      (destruct (_ && _); [|done]; simpl; by rewrite contents_set_node, decide_False, contents_del_node, decide_False).
Qed.

Lemma run_frame (K : path -> Prop) {A} (p : prog FsE A) w j :
  calls (@leaves_be K) p -> K j -> contents (w_tree (run_fs p w).2) j = contents (w_tree w) j.
Proof.
  intros Hp Hj. revert w; induction p as [a|X e k IH]; intros w; [done|]. destruct Hp as [He Hk].
  rewrite run_call. rewrite <-(answer_frame K X e w j He Hj). destruct (fs_answer X e w) as [x w']. by apply IH.
Qed.

(** Reading a file shows its contents. *)
Lemma ReadFile_contents p w d : contents (w_tree w) (key p) = Some d -> (key p).2 <> [] -> fs_answer _ (ReadFile p) w = (inl d, w).
Proof.
  intros Hc Hne. destruct w as [now f]. simpl in *. rewrite find_nonempty by done. unfold contents in Hc.
  destruct (f !! key p) as [[]|]; by simplify_eq.
Qed.
