(* ===== verification/Sha256.v ===== *)
(** * Go's [crypto/sha256] and the [%x] verb on bytes

    Words are 32-bit integers in [Z]; bytes are [ascii]. *)

From S2P Require Import Prelude GoStrings.

#[local] Open Scope Z_scope.

Definition w32 (z : Z) : Z := Z.land z 0xffffffff.
Definition add32 (a b : Z) : Z := w32 (a + b).
Definition rotr (n x : Z) : Z := w32 (Z.lor (Z.shiftr x n) (Z.shiftl x (32 - n))).
Definition not32 (x : Z) : Z := Z.lxor x 0xffffffff.

(** The constants are the first 32 bits of the fractional parts of the cube roots
    of the first 64 primes, and of the square roots of the first 8. *)
Definition is_prime (n : nat) : bool :=
  forallb (fun d => negb (n mod d =? 0)%nat) (seq 2 (n - 2)).

Definition primes (bound : nat) : list nat := List.filter is_prime (seq 2 (bound - 2)).

(** The integer cube root of [n], bit by bit from bit [k - 1] down. *)
Fixpoint cube_root (k : nat) (n r : Z) : Z :=
  match k with
  | O => r
  | S k' =>
    let r' := r + 2 ^ Z.of_nat k' in
    cube_root k' n (if r' * r' * r' <=? n then r' else r)
  end.

Definition round_constants : list Z :=
  Eval vm_compute in map (fun p => w32 (cube_root 36 (Z.of_nat p * 2 ^ 96) 0)) (primes 312).

Definition initial_hash : list Z :=
  Eval vm_compute in map (fun p => w32 (Z.sqrt (Z.of_nat p * 2 ^ 64))) (primes 20).

(** The message's bytes, a 1 bit, zeros, and the 64-bit bit length. *)
Definition be_bytes (n : nat) (z : Z) : list Z :=
  map (fun i => Z.land (Z.shiftr z (8 * Z.of_nat (n - 1 - i))) 255) (seq 0 n).

Definition pad (msg : list Z) : list Z :=
  let l := length msg in
  let zeros := ((119 - (l mod 64)) mod 64)%nat in
  msg ++ [128] ++ repeat 0 zeros ++ be_bytes 8 (8 * Z.of_nat l).

Fixpoint words (bs : list Z) : list Z :=
  match bs with
  | a :: b :: c :: d :: rest =>
    Z.lor (Z.shiftl a 24) (Z.lor (Z.shiftl b 16) (Z.lor (Z.shiftl c 8) d)) :: words rest
  | _ => []
  end.

Definition sched_word (w : list Z) (i : nat) : Z :=
  let at_ (k : nat) := nth (i - k) w 0 in
  let w15 := at_ 15%nat in
  let w2 := at_ 2%nat in
  let s0 := Z.lxor (rotr 7 w15) (Z.lxor (rotr 18 w15) (Z.shiftr w15 3)) in
  let s1 := Z.lxor (rotr 17 w2) (Z.lxor (rotr 19 w2) (Z.shiftr w2 10)) in
  add32 (add32 (at_ 16%nat) s0) (add32 (at_ 7%nat) s1).

Definition schedule (block : list Z) : list Z :=
  foldl (fun w i => w ++ [sched_word w i]) block (seq 16 48).

Definition round (st : list Z) (kw : Z * Z) : list Z :=
  match st with
  | [a; b; c; d; e; f; g; h] =>
    let s1 := Z.lxor (rotr 6 e) (Z.lxor (rotr 11 e) (rotr 25 e)) in
    let ch := Z.lxor (Z.land e f) (Z.land (not32 e) g) in
    let t1 := add32 h (add32 s1 (add32 ch (add32 kw.1 kw.2))) in
    let s0 := Z.lxor (rotr 2 a) (Z.lxor (rotr 13 a) (rotr 22 a)) in
    let maj := Z.lxor (Z.land a b) (Z.lxor (Z.land a c) (Z.land b c)) in
    [add32 t1 (add32 s0 maj); a; b; c; add32 d t1; e; f; g]
  | _ => st
  end.

Definition compress (st block : list Z) : list Z :=
  zip_with add32 st (foldl round st (zip round_constants (schedule block))).

(** Blocks of 16 words; the fuel is the number of words. *)
Fixpoint blocks (fuel : nat) (ws : list Z) : list (list Z) :=
  match fuel with
  | O => []
  | S f => match ws with [] => [] | _ => take 16 ws :: blocks f (drop 16 ws) end
  end.

Definition bytes_of (s : string) : list Z :=
  map (fun a => Z.of_nat (nat_of_ascii a)) (String.list_ascii_of_string s).

(** [sha256.Sum256]: 32 bytes. *)
Definition Sum256 (msg : list Z) : list Z :=
  let ws := words (pad msg) in
  flat_map (be_bytes 4) (foldl compress initial_hash (blocks (length ws) ws)).

(** [%x] *)
Definition hex_digit (z : Z) : string :=
  nth (Z.to_nat z) ["0"; "1"; "2"; "3"; "4"; "5"; "6"; "7"; "8"; "9"; "a"; "b"; "c"; "d"; "e"; "f"] "0".

Definition hex_byte (b : Z) : string := hex_digit (Z.shiftr b 4) +:+ hex_digit (Z.land b 15).

Definition hex (bs : list Z) : string := foldr (fun b s => hex_byte b +:+ s) "" bs.

Example sha256_abc : hex (Sum256 (bytes_of "abc")) =
  "ba7816bf8f01cfea414140de5dae2223b00361a396177a9cb410ff61f20015ad".
Proof. vm_compute. reflexivity. Qed.
Example sha256_empty : hex (Sum256 []) =
  "e3b0c44298fc1c149afbf4c8996fb92427ae41e4649b934ca495991b7852b855".
Proof. vm_compute. reflexivity. Qed.
Example sha256_two_blocks : hex (Sum256 (bytes_of "abcdbcdecdefdefgefghfghighijhijkijkljklmklmnlmnomnopnopq")) =
  "248d6a61d20638b8e5c026930c3e6039a33ce45964ff2167f6ecedd419db06c1".
Proof. vm_compute. reflexivity. Qed.

(** ** Lemmas *)
Lemma be_bytes_length n z : length (be_bytes n z) = n.
Proof. unfold be_bytes. by rewrite length_map, length_seq. Qed.

Lemma be_bytes_range n z : Forall (fun b => 0 <= b < 256) (be_bytes n z).
Proof.
  unfold be_bytes. apply Forall_forall. intros b (i & -> & _)%list_elem_of_fmap.
  change 255 with (Z.ones 8). rewrite Z.land_ones by lia. apply Z.mod_pos_bound. lia.
Qed.

Lemma round_length st kw : length st = 8%nat -> length (round st kw) = 8%nat.
Proof. do 9 (destruct st as [|? st]; [done|]). done. Qed.

Lemma compress_length st block : length st = 8%nat -> length (compress st block) = 8%nat.
Proof.
  intros Hst. unfold compress. rewrite length_zip_with.
  assert (forall l st, length st = 8%nat -> length (foldl round st l) = 8%nat) as Hr.
  { induction l as [|kw l IH]; intros st' Hst'; simpl; [done|]. by apply IH, round_length. }
  rewrite Hr by done. rewrite Hst. done.
Qed.

(** A digest has 32 bytes. *)
Lemma Sum256_length msg : length (Sum256 msg) = 32%nat.
Proof.
  unfold Sum256. set (bl := blocks _ _).
  assert (forall l st, length st = 8%nat -> length (foldl compress st l) = 8%nat) as Hf.
  { induction l as [|b l IH]; intros st Hst; simpl; [done|]. by apply IH, compress_length. }
  specialize (Hf bl initial_hash eq_refl). revert Hf. generalize (foldl compress initial_hash bl).
  intros st Hst. do 9 (destruct st as [|? st]; [done|]). by destruct st.
Qed.

Lemma Sum256_range msg : Forall (fun b => 0 <= b < 256) (Sum256 msg).
Proof.
  unfold Sum256. apply Forall_forall. intros b (w & _ & Hb)%list_elem_of_In%in_flat_map.
  apply list_elem_of_In in Hb. by eapply Forall_forall in Hb; [|apply be_bytes_range].
Qed.

Lemma hex_digit_length z : String.length (hex_digit z) = 1%nat.
Proof.
  unfold hex_digit. generalize (Z.to_nat z). intros n. do 17 (destruct n as [|n]; [done|]). done.
Qed.

Lemma hex_length bs : String.length (hex bs) = (2 * length bs)%nat.
Proof.
  induction bs as [|b bs IH]; [done|]. simpl. unfold hex_byte.
  rewrite !str_length_app, !hex_digit_length, IH. lia.
Qed.

Definition hex_char (z : Z) : ascii :=
  nth (Z.to_nat z) ["0"; "1"; "2"; "3"; "4"; "5"; "6"; "7"; "8"; "9"; "a"; "b"; "c"; "d"; "e"; "f"]%char "0"%char.

Lemma hex_digit_char z : hex_digit z = String (hex_char z) "".
Proof.
  unfold hex_digit, hex_char. generalize (Z.to_nat z). intros n. do 17 (destruct n as [|n]; [done|]). done.
Qed.

Lemma hex_cons b bs :
  hex (b :: bs) = String (hex_char (Z.shiftr b 4)) (String (hex_char (Z.land b 15)) (hex bs)).
Proof.
  change (hex (b :: bs)) with (hex_byte b +:+ hex bs). unfold hex_byte. by rewrite !hex_digit_char.
Qed.
