(* ===== verification/Regex.v ===== *)
(** * Go's [regexp] for the patterns the program compiles

    A pattern is its syntax tree; [rmatch] is the backtracking, leftmost-first
    (Perl) matcher [regexp] implements.  All repetitions in the program's
    patterns are greedy repetitions of one character class, so the matcher is
    structural.  Bytes stand for runes: the classes below treat every byte of
    a multi-byte rune alike. *)

From S2P Require Import Prelude GoStrings.

(** ** Syntax and matcher *)
Inductive regex : Type :=
  | RLit (s : string)
  | RCls (p : ascii -> bool)
  | RStar (p : ascii -> bool)
  | RPlus (p : ascii -> bool)
  | RSeq (r1 r2 : regex)
  | RAlt (r1 r2 : regex)
  | ROpt (r : regex)
  | RGroup (n : nat) (r : regex)
  | REnd.

Declare Scope regex_scope.
Delimit Scope regex_scope with regex.
Bind Scope regex_scope with regex.
Infix "·" := RSeq (at level 41, right associativity) : regex_scope.

(** Captured groups. *)
Abbreviation caps := (list (nat * string)).

(** The group [n], [""] when it did not take part in the match. *)
Definition group (n : nat) (c : caps) : string :=
  default "" (snd <$> List.find (fun kv => Nat.eqb (fst kv) n) c).

(** The text consumed between [s] and its suffix [s']. *)
Definition consumed (s s' : string) : string :=
  String.substring 0 (String.length s - String.length s') s.

Fixpoint star_match {X} (p : ascii -> bool) (s : string) (k : string -> option X) : option X :=
  match s with
  | "" => k ""
  | String a s' =>
    if p a then
      match star_match p s' k with
      | Some x => Some x
      | None => k s
      end
    else k s
  end.

Fixpoint rmatch {X} (r : regex) (s : string) (c : caps) (k : string -> caps -> option X) : option X :=
  match r with
  | RLit l => match strip_prefix l s with Some s' => k s' c | None => None end
  | RCls p => match s with String a s' => if p a then k s' c else None | "" => None end
  | RStar p => star_match p s (fun s' => k s' c)
  | RPlus p => match s with
               | String a s' => if p a then star_match p s' (fun s'' => k s'' c) else None
               | "" => None
               end
  | RSeq r1 r2 => rmatch r1 s c (fun s' c' => rmatch r2 s' c' k)
  | RAlt r1 r2 => match rmatch r1 s c k with Some x => Some x | None => rmatch r2 s c k end
  | ROpt r => match rmatch r s c k with Some x => Some x | None => k s c end
  | RGroup n r => rmatch r s c (fun s' c' => k s' ((n, consumed s s') :: c'))
  | REnd => match s with "" => k "" c | _ => None end
  end.

(** Match [r] at the start of [s]: the captures and the rest. *)
Definition match_here (r : regex) (s : string) : option (string * caps) :=
  rmatch r s [] (fun s' c => Some (s', c)).

(** [FindStringSubmatch] for a pattern anchored by [^]. *)
Definition match_anchored (r : regex) (s : string) : option caps := snd <$> match_here r s.

(** ** Scanning: [FindAllString...] and [ReplaceAllStringFunc]

    [segments r s] splits [s] at the successive leftmost non-overlapping
    matches of [r]; the program's patterns never match the empty string. *)
Inductive segment : Type :=
  | SByte (a : ascii)
  | SMatch (whole : string) (c : caps).

Fixpoint segments_go (r : regex) (skip : nat) (s : string) : list segment :=
  match s with
  | "" => []
  | String a s' =>
    match skip with
    | S n => segments_go r n s'
    | O =>
      match match_here r s with
      | Some (rest, c) =>
        SMatch (consumed s rest) c
          :: segments_go r (String.length s - String.length rest - 1) s'
      | None => SByte a :: segments_go r 0 s'
      end
    end
  end.

Definition segments (r : regex) (s : string) : list segment := segments_go r 0 s.

(** [FindAllStringSubmatch(s, -1)]: the captures of every match. *)
Definition find_all (r : regex) (s : string) : list caps :=
  omap (fun g => match g with SMatch _ c => Some c | SByte _ => None end) (segments r s).

(** ** Character classes *)
Definition is_upper (a : ascii) : bool :=
  let n := nat_of_ascii a in (65 <=? n) && (n <=? 90).
Definition is_lower (a : ascii) : bool :=
  let n := nat_of_ascii a in (97 <=? n) && (n <=? 122).
(** [[a-zA-Z0-9]] *)
Definition is_alnum (a : ascii) : bool := is_upper a || is_lower a || is_digit a.
(** [\w] *)
Definition is_word (a : ascii) : bool := is_alnum a || Ascii.eqb a "_".
(** [\s]: [[\t\n\f\r ]] *)
Definition is_space (a : ascii) : bool :=
  match a with "009" | "010" | "012" | "013" | " " => true | _ => false end%char.
(** [.]: anything but a newline *)
Definition not_newline (a : ascii) : bool := negb (Ascii.eqb a "010").

(** ** Lemmas *)

Lemma star_match_None {X} p s (k : string -> option X) :
  (forall s', k s' = None) -> star_match p s k = None.
Proof.
  intros Hk. induction s as [|a s IH]; simpl; [apply Hk|].
  destruct (p a); [by rewrite IH, Hk | apply Hk].
Qed.

Lemma star_match_inv {X} p s (k : string -> option X) x :
  star_match p s k = Some x ->
  exists u t, s = u +:+ t /\ str_all p u = true /\ k t = Some x.
Proof.
  induction s as [|a s IH]; cbn [star_match].
  - intros H. by exists "", "".
  - destruct (p a) eqn:Ha.
    + destruct (star_match p s k) as [y|] eqn:E.
      * intros [= ->]. destruct (IH eq_refl) as (u & t & -> & Hu & Hk). exists (String a u), t.
        simpl. by rewrite Ha, Hu.
      * intros H. by exists "", (String a s).
    + intros H. by exists "", (String a s).
Qed.

(** A greedy run stops at the first byte outside the class. *)
Lemma star_match_greedy {X} p u b t (k : string -> option X) x :
  str_all p u = true -> p b = false -> k (String b t) = Some x ->
  star_match p (u +:+ String b t) k = Some x.
Proof.
  intros Hu Hb Hk. induction u as [|a u IH].
  - rewrite str_app_nil_l. cbn [star_match]. by rewrite Hb.
  - simpl in Hu. apply andb_true_iff in Hu as [Ha Hu].
    rewrite str_app_cons. cbn [star_match]. by rewrite Ha, (IH Hu).
Qed.

(** If the continuation succeeds after a run of the class, so does the star. *)
Lemma star_match_complete {X} p u t (k : string -> option X) :
  str_all p u = true -> k t <> None -> star_match p (u +:+ t) k <> None.
Proof.
  intros Hu Hk. induction u as [|a u IH].
  - rewrite str_app_nil_l. destruct t as [|b t]; cbn [star_match]; [done|].
    destruct (p b); [|done]. by destruct (star_match p t k).
  - simpl in Hu. apply andb_true_iff in Hu as [Ha Hu].
    rewrite str_app_cons. cbn [star_match]. rewrite Ha.
    specialize (IH Hu). by destruct (star_match p (u +:+ t) k).
Qed.

(** A match consumes a prefix of the input. *)
Lemma rmatch_inv {X} r s c (k : string -> caps -> option X) x :
  rmatch r s c k = Some x -> exists u t c', s = u +:+ t /\ k t c' = Some x.
Proof.
  revert s c k; induction r as [l|p|p|p|r1 IH1 r2 IH2|r1 IH1 r2 IH2|r IH|n r IH|];
    intros s c k; cbn [rmatch].
  - destruct (strip_prefix l s) as [t|] eqn:E; [|done]. apply strip_prefix_Some in E as ->. eauto.
  - destruct s as [|a s]; [done|]. destruct (p a); [|done]. intros H. by exists (String a ""), s, c.
  - intros (u & t & -> & _ & H)%star_match_inv. eauto.
  - destruct s as [|a s]; [done|]. destruct (p a); [|done].
    intros (u & t & -> & _ & H)%star_match_inv. by exists (String a u), t, c.
  - intros (u & t & c' & -> & (u' & t' & c'' & -> & H)%IH2)%IH1.
    exists (u +:+ u'), t', c''. by rewrite str_app_assoc.
  - destruct (rmatch r1 s c k) eqn:E; [intros [= ->]; by apply IH1 in E | apply IH2].
  - destruct (rmatch r s c k) eqn:E; [intros [= ->]; by apply IH in E|]. intros H. by exists "", s, c.
  - intros (u & t & c' & -> & H)%IH. eauto.
  - destruct s as [|a s]; [|done]. intros H. by exists "", "", c.
Qed.

Lemma match_here_inv r s rest c : match_here r s = Some (rest, c) -> exists u, s = u +:+ rest.
Proof. intros (u & t & c' & -> & [= -> ->])%rmatch_inv. by exists u. Qed.

Lemma substring_prefix u t : String.substring 0 (String.length u) (u +:+ t) = u.
Proof.
  induction u as [|a u IH]; [by destruct t|]. rewrite str_app_cons; cbn. by rewrite IH.
Qed.

Lemma consumed_app u t : consumed (u +:+ t) t = u.
Proof.
  unfold consumed. rewrite str_length_app, Nat.add_sub. apply substring_prefix.
Qed.

(** The text of a segment; the segments of [s] spell [s] when every match is
    non-empty. *)
Definition seg_text (g : segment) : string :=
  match g with SByte a => String a "" | SMatch w _ => w end.

Definition segs_text (l : list segment) : string := foldr (fun g t => seg_text g +:+ t) "" l.

Lemma segments_go_skip r u t : segments_go r (String.length u) (u +:+ t) = segments_go r 0 t.
Proof. induction u as [|a u IH]; [done|]. rewrite str_app_cons. cbn. apply IH. Qed.

(** A pattern that never matches the empty string. *)
Definition nonempty (r : regex) : Prop := forall s rest c, match_here r s = Some (rest, c) -> rest <> s.

Lemma segments_cons_match r a s u rest c :
  String a s = String a u +:+ rest -> match_here r (String a s) = Some (rest, c) ->
  segments r (String a s) = SMatch (String a u) c :: segments r rest.
Proof.
  intros Heq Hm. unfold segments. cbn [segments_go]. rewrite Hm.
  rewrite Heq, consumed_app. f_equal.
  rewrite str_app_cons in Heq. injection Heq as ->.
  rewrite str_app_cons. cbn [String.length]. rewrite str_length_app.
  replace (S (String.length u + String.length rest) - String.length rest - 1)
    with (String.length u) by lia.
  apply segments_go_skip.
Qed.

Lemma segments_cons_byte r a s :
  match_here r (String a s) = None -> segments r (String a s) = SByte a :: segments r s.
Proof. intros Hm. unfold segments. cbn [segments_go]. by rewrite Hm. Qed.

Lemma segments_text r s : nonempty r -> segs_text (segments r s) = s.
Proof.
  intros Hne. remember (String.length s) as n eqn:Hn. revert s Hn.
  induction n as [n IH] using lt_wf_ind; intros [|a s] ->; [done|].
  destruct (match_here r (String a s)) as [[rest c]|] eqn:Hm.
  - destruct (match_here_inv _ _ _ _ Hm) as [u Hu].
    destruct u as [|b u].
    { exfalso. apply (Hne _ _ _ Hm). by rewrite Hu. }
    rewrite str_app_cons in Hu. injection Hu as <- ->.
    rewrite (segments_cons_match _ _ _ u rest c) by done.
    simpl. f_equal. rewrite (IH (String.length rest)); [done| |done].
    simpl. rewrite str_length_app. lia.
  - rewrite segments_cons_byte by done. simpl. f_equal.
    apply (IH (String.length s)); [simpl; lia | done].
Qed.

(** Without the first byte of the pattern there is no match. *)
Definition starts_with_lit (c : ascii) (r : regex) : Prop :=
  exists l r', r = RSeq (RLit (String c l)) r'.

Lemma match_here_lit_None c r a s :
  starts_with_lit c r -> a <> c -> match_here r (String a s) = None.
Proof.
  intros (l & r' & ->) Hac. unfold match_here. cbn.
  destruct (Ascii.eqb_spec c a) as [->|]; done.
Qed.

Lemma starts_with_lit_nonempty c r : starts_with_lit c r -> nonempty r.
Proof.
  intros (l & r' & ->) s rest caps. unfold match_here. cbn [rmatch].
  destruct (strip_prefix (String c l) s) as [t|] eqn:E; [|done].
  apply strip_prefix_Some in E as ->.
  intros (u & t' & c' & -> & [= -> ->])%rmatch_inv Heq.
  apply (f_equal String.length) in Heq. rewrite !str_length_app in Heq. simpl in Heq. lia.
Qed.

Lemma segments_no_byte c r s :
  starts_with_lit c r -> no_byte c s = true ->
  segments r s = SByte <$> String.list_ascii_of_string s.
Proof.
  intros Hr. induction s as [|a s IH]; [done|].
  cbn [no_byte]. intros [Ha%negb_true_iff%Ascii.eqb_neq Hs]%andb_true_iff.
  rewrite segments_cons_byte by (by eapply match_here_lit_None).
  simpl. by rewrite IH.
Qed.

(** ** Occurrences are found

    A pattern that begins with a byte and does not use it elsewhere: an
    occurrence of the byte starts a fresh attempt, whatever precedes it. *)
Fixpoint avoids (c : ascii) (r : regex) : Prop :=
  match r with
  | RLit l => no_byte c l = true
  | RCls p | RStar p | RPlus p => p c = false
  | RSeq r1 r2 | RAlt r1 r2 => avoids c r1 /\ avoids c r2
  | ROpt r | RGroup _ r => avoids c r
  | REnd => True
  end.

Lemma rmatch_avoids {X} b r s c (k : string -> caps -> option X) x :
  avoids b r -> rmatch r s c k = Some x ->
  exists u t c', s = u +:+ t /\ no_byte b u = true /\ k t c' = Some x.
Proof.
  revert s c k; induction r as [l|p|p|p|r1 IH1 r2 IH2|r1 IH1 r2 IH2|r IH|n r IH|];
    intros s c k; cbn [rmatch avoids]; intros Hav.
  - destruct (strip_prefix l s) as [t|] eqn:E; [|done]. apply strip_prefix_Some in E as ->. intros H. by exists l, t, c.
  - destruct s as [|a s]; [done|]. destruct (p a) eqn:Hp; [|done]. intros H.
    exists (String a ""), s, c. split_and!; [done| |done].
    apply (str_all_no_byte p); [done|]. simpl. by rewrite Hp.
  - intros (u & t & -> & Hu & H)%star_match_inv. exists u, t, c. split_and!; [done| |done].
    by apply (str_all_no_byte p).
  - destruct s as [|a s]; [done|]. destruct (p a) eqn:Hp; [|done].
    intros (u & t & -> & Hu & H)%star_match_inv. exists (String a u), t, c. split_and!; [done| |done].
    apply (str_all_no_byte p); [done|]. simpl. by rewrite Hp.
  - destruct Hav as [H1 H2]. intros H. apply IH1 in H as (u & t & c' & -> & Hu & H); [|done].
    apply IH2 in H as (u' & t' & c'' & -> & Hu' & H); [|done].
    exists (u +:+ u'), t', c''. rewrite str_app_assoc, no_byte_app, Hu, Hu'. done.
  - destruct Hav. destruct (rmatch r1 s c k) eqn:E; [intros [= ->]; by apply IH1 in E | by apply IH2].
  - destruct (rmatch r s c k) eqn:E; [intros [= ->]; by apply IH in E|]. intros H. by exists "", s, c.
  - intros H. apply IH in H as (u & t & c' & -> & Hu & H); [|done]. eexists u, t, _. split_and!; [done|done|exact H].
  - destruct s as [|a s]; [|done]. intros H. by exists "", "", c.
Qed.

Lemma app_split_byte c p t u rest :
  p +:+ String c t = u +:+ rest -> no_byte c u = true ->
  exists p', p = u +:+ p' /\ rest = p' +:+ String c t.
Proof.
  revert u; induction p as [|a p IH]; intros u Heq Hu.
  - destruct u as [|b u]; [by exists ""|]. rewrite str_app_nil_l, str_app_cons in Heq.
    injection Heq as <- _. simpl in Hu. by rewrite Ascii.eqb_refl in Hu.
  - destruct u as [|b u]; [by exists (String a p)|]. rewrite !str_app_cons in Heq. injection Heq as <- Heq.
    simpl in Hu. apply andb_true_iff in Hu as [_ Hu].
    destruct (IH u Heq Hu) as (p' & -> & ->). by exists p'.
Qed.

Lemma segments_resume c l r' p t :
  no_byte c l = true -> avoids c r' ->
  exists g, segments (RSeq (RLit (String c l)) r') (p +:+ String c t) =
            g ++ segments (RSeq (RLit (String c l)) r') (String c t).
Proof.
  intros Hl Hr. set (r := RSeq (RLit (String c l)) r').
  remember (String.length p) as n eqn:Hn. revert p Hn.
  induction n as [n IH] using lt_wf_ind; intros [|a p] ->; [by exists []|].
  destruct (match_here r (String a p +:+ String c t)) as [[rest m]|] eqn:Hm.
  - pose proof Hm as Hm'. unfold match_here, r in Hm. cbn [rmatch] in Hm.
    destruct (strip_prefix (String c l) (String a p +:+ String c t)) as [v|] eqn:E; [|done].
    apply strip_prefix_Some in E.
    apply (rmatch_avoids c) in Hm as (u & w & c' & -> & Hu & [= -> ->]); [|done].
    rewrite !str_app_cons in E. injection E as -> E. rewrite str_app_assoc in E.
    assert (no_byte c (l +:+ u) = true) as Hlu by (by rewrite no_byte_app, Hl, Hu).
    destruct (app_split_byte _ _ _ _ _ E Hlu) as (p' & -> & ->).
    destruct (IH (String.length p')) with (p := p') as [g Hg]; [|done|].
    { simpl. rewrite str_length_app. lia. }
    exists (SMatch (String c (l +:+ u)) m :: g).
    rewrite str_app_cons in Hm' |- *.
    rewrite (segments_cons_match r c _ (l +:+ u) (p' +:+ String c t) m); [|by rewrite str_app_cons, str_app_assoc|done].
    by rewrite Hg.
  - destruct (IH (String.length p)) with (p := p) as [g Hg]; [simpl; lia|done|].
    exists (SByte a :: g). rewrite str_app_cons in Hm |- *. rewrite segments_cons_byte by done. by rewrite Hg.
Qed.

(** What a fresh attempt captures is among the matches. *)
Lemma find_all_occurrence c l r' p t rest m :
  no_byte c l = true -> avoids c r' ->
  match_here (RSeq (RLit (String c l)) r') (String c t) = Some (rest, m) ->
  m ∈ find_all (RSeq (RLit (String c l)) r') (p +:+ String c t).
Proof.
  intros Hl Hr Hm. destruct (segments_resume c l r' p t Hl Hr) as [g Hg].
  unfold find_all. rewrite Hg, omap_app. apply elem_of_app; right.
  destruct (match_here_inv _ _ _ _ Hm) as [u Hu]. destruct u as [|a u].
  - exfalso. assert (nonempty (RSeq (RLit (String c l)) r')) as Hne.
    { eapply starts_with_lit_nonempty. by eexists _, _. }
    apply (Hne _ _ _ Hm). by rewrite Hu.
  - rewrite str_app_cons in Hu. injection Hu as <- Hu.
    rewrite (segments_cons_match _ c t u rest m); [|by rewrite str_app_cons, Hu|done].
    simpl. by apply elem_of_cons; left.
Qed.
