(* ===== verification/Json.v ===== *)
(** * Go's [encoding/json] for string arrays and string maps

    [json.Marshal([]string)] and [json.Unmarshal] into [[]string] and
    [map[string]string], on byte strings: UTF-8 decoding with Go's acceptance
    ranges, HTML-safe escaping, the full JSON grammar on input.  The text of a
    decoding error is not modelled ([None]). *)

From S2P Require Import Prelude GoStrings.

(** ** UTF-8 *)
#[local] Open Scope N_scope.
Definition byte (a : ascii) : N := N_of_ascii a.
Definition in_range (lo hi : N) (a : ascii) : bool := (lo <=? byte a) && (byte a <=? hi).
Definition cont (a : ascii) : bool := in_range 128 191 a.

(** Number of continuation bytes of a well-formed multi-byte rune at the start
    of [s]; [None] when the bytes are not well-formed. *)
Definition rune_extra (s : string) : option nat :=
  match s with
  | String a (String b t) =>
    if in_range 194 223 a then if cont b then Some 1%nat else None
    else if in_range 224 239 a then
      let lo := if byte a =? 224 then 160 else 128 in
      let hi := if byte a =? 237 then 159 else 191 in
      match t with
      | String c _ => if in_range lo hi b && cont c then Some 2%nat else None
      | "" => None
      end
    else if in_range 240 244 a then
      let lo := if byte a =? 240 then 144 else 128 in
      let hi := if byte a =? 244 then 143 else 191 in
      match t with
      | String c (String d _) => if in_range lo hi b && cont c && cont d then Some 3%nat else None
      | _ => None
      end
    else None
  | _ => None
  end.

Definition is_ascii (a : ascii) : bool := byte a <? 128.

(** [utf8.ValidString]; [k] continuation bytes of the current rune remain. *)
Fixpoint valid_utf8_go (k : nat) (s : string) : bool :=
  match s with
  | "" => true
  | String a s' =>
    match k with
    | S n => valid_utf8_go n s'
    | O => if is_ascii a then valid_utf8_go 0%nat s'
           else match rune_extra s with Some n => valid_utf8_go n s' | None => false end
    end
  end.

Definition valid_utf8 (s : string) : bool := valid_utf8_go 0%nat s.

Definition chr (n : N) : string := String (ascii_of_N n) "".

(** [utf8.AppendRune] for a code point below [0x110000]. *)
Definition encode_rune (r : N) : string :=
  if r <? 128 then chr r
  else if r <? 2048 then chr (192 + r / 64) +:+ chr (128 + r mod 64)
  else if r <? 65536 then
    chr (224 + r / 4096) +:+ chr (128 + r / 64 mod 64) +:+ chr (128 + r mod 64)
  else chr (240 + r / 262144) +:+ chr (128 + r / 4096 mod 64)
         +:+ chr (128 + r / 64 mod 64) +:+ chr (128 + r mod 64).

Definition replacement : string := encode_rune 65533.

(** ** Strings: escaping and unescaping *)
Definition hex_digit (n : N) : string :=
  chr (if n <? 10 then 48 + n else 87 + n).

Definition hex_val (a : ascii) : option N :=
  if in_range 48 57 a then Some (byte a - 48)
  else if in_range 97 102 a then Some (byte a - 87)
  else if in_range 65 70 a then Some (byte a - 55)
  else None.

Definition hex4 (a b c d : ascii) : option N :=
  x ← hex_val a; y ← hex_val b; z ← hex_val c; w ← hex_val d;
  Some (x * 4096 + y * 256 + z * 16 + w).

Definition dquote : ascii := "034"%char.
Definition backslash : ascii := "092"%char.

(** One ASCII byte of [appendString] with [escapeHTML]. *)
Definition quote_ascii (a : ascii) : string :=
  let n := byte a in
  if Ascii.eqb a backslash || Ascii.eqb a dquote then String backslash (String a "")
  else if n =? 8 then String backslash "b"
  else if n =? 12 then String backslash "f"
  else if n =? 10 then String backslash "n"
  else if n =? 13 then String backslash "r"
  else if n =? 9 then String backslash "t"
  else if (n <? 32) || (n =? 38) || (n =? 60) || (n =? 62)
       then String backslash "u00" +:+ hex_digit (n / 16) +:+ hex_digit (n mod 16)
  else String a "".

(** The escape of U+2028 / U+2029 at the start of [s]. *)
Definition line_sep (s : string) : option string :=
  if has_prefix s (chr 226 +:+ chr 128 +:+ chr 168) then Some (String backslash "u2028")
  else if has_prefix s (chr 226 +:+ chr 128 +:+ chr 169) then Some (String backslash "u2029")
  else None.

(** [skip] bytes of an escaped rune are dropped, then [k] bytes of a rune are
    copied. *)
Fixpoint quote_go (skip k : nat) (s : string) : string :=
  match s with
  | "" => ""
  | String a s' =>
    match skip, k with
    | S m, _ => quote_go m k s'
    | O, S n => String a (quote_go 0%nat n s')
    | O, O =>
      if is_ascii a then quote_ascii a +:+ quote_go 0%nat 0%nat s'
      else
        match line_sep s with
        | Some e => e +:+ quote_go 2%nat 0%nat s'
        | None =>
          match rune_extra s with
          | Some n => String a (quote_go 0%nat n s')
          | None => String backslash "ufffd" +:+ quote_go 0%nat 0%nat s'
          end
        end
    end
  end.

Definition quote (s : string) : string :=
  String dquote (quote_go 0%nat 0%nat s) +:+ String dquote "".

Definition cons_str (p : string) (r : option (string * string)) : option (string * string) :=
  match r with Some (u, t) => Some (p +:+ u, t) | None => None end.

Definition simple_escape (a : ascii) : option string :=
  if Ascii.eqb a backslash || Ascii.eqb a dquote || Ascii.eqb a "/" then Some (String a "")
  else if Ascii.eqb a "b" then Some (chr 8)
  else if Ascii.eqb a "f" then Some (chr 12)
  else if Ascii.eqb a "n" then Some (chr 10)
  else if Ascii.eqb a "r" then Some (chr 13)
  else if Ascii.eqb a "t" then Some (chr 9)
  else None.

Definition high_surrogate (r : N) : bool := (55296 <=? r) && (r <=? 56319).
Definition low_surrogate (r : N) : bool := (56320 <=? r) && (r <=? 57343).

(** The string literal after its opening quote: its value and the rest. *)
Fixpoint unquote_go (k : nat) (s : string) : option (string * string) :=
  match s with
  | "" => None
  | String a s' =>
    match k with
    | S n => cons_str (String a "") (unquote_go n s')
    | O =>
      if Ascii.eqb a dquote then Some ("", s')
      else if Ascii.eqb a backslash then
        match s' with
        | String "u" (String a1 (String a2 (String a3 (String a4 t)))) =>
          match hex4 a1 a2 a3 a4 with
          | None => None
          | Some r =>
            if high_surrogate r then
              match t with
              | String b (String "u" (String b1 (String b2 (String b3 (String b4 t'))))) =>
                match hex4 b1 b2 b3 b4 with
                | Some r2 =>
                  if Ascii.eqb b backslash && low_surrogate r2
                  then cons_str (encode_rune (65536 + (r - 55296) * 1024 + (r2 - 56320)))
                         (unquote_go 0%nat t')
                  else cons_str replacement (unquote_go 0%nat t)
                | None => cons_str replacement (unquote_go 0%nat t)
                end
              | _ => cons_str replacement (unquote_go 0%nat t)
              end
            else if low_surrogate r then cons_str replacement (unquote_go 0%nat t)
            else cons_str (encode_rune r) (unquote_go 0%nat t)
          end
        | String e t =>
          match simple_escape e with
          | Some x => cons_str x (unquote_go 0%nat t)
          | None => None
          end
        | "" => None
        end
      else if byte a <? 32 then None
      else if is_ascii a then cons_str (String a "") (unquote_go 0%nat s')
      else match rune_extra s with
           | Some n => cons_str (String a "") (unquote_go n s')
           | None => cons_str replacement (unquote_go 0%nat s')
           end
    end
  end.

#[local] Open Scope nat_scope.
(** ** Documents *)
#[warnings="-register-all"]
Inductive json : Type :=
  | JNull
  | JBool (b : bool)
  | JNum (s : string)
  | JStr (s : string)
  | JArr (l : list json)
  | JObj (l : list (string * json)).

Inductive token : Type :=
  | TkLB | TkRB | TkLC | TkRC | TkComma | TkColon
  | TkVal (j : json).

Definition is_ws (a : ascii) : bool :=
  match a with " " | "009" | "010" | "013" => true | _ => false end%char.

Fixpoint take_digits (s : string) : string * string :=
  match s with
  | String a s' => if is_digit a then let '(d, t) := take_digits s' in (String a d, t) else ("", s)
  | "" => ("", "")
  end.

(** The optional exponent of a number. *)
Definition take_exp (s : string) : option (string * string) :=
  match s with
  | String e t =>
    if Ascii.eqb e "e" || Ascii.eqb e "E" then
      let '(sg, t') := match t with
                       | String "+" u => ("+"%string, u)
                       | String "-" u => ("-"%string, u)
                       | _ => (""%string, t)
                       end%char in
      let '(d, u) := take_digits t' in
      if String.eqb d "" then None else Some (String e (sg +:+ d), u)
    else Some ("", s)
  | "" => Some ("", "")
  end.

Definition take_frac (s : string) : option (string * string) :=
  match s with
  | String "." t => let '(d, u) := take_digits t in
                    if String.eqb d ""%string then None else Some (String "." d, u)
  | _ => Some (""%string, s)
  end%char.

Definition take_int (s : string) : option (string * string) :=
  match s with
  | String "0" t => Some ("0"%string, t)
  | String a _ => if is_digit a then Some (take_digits s) else None
  | ""%string => None
  end%char.

Definition take_number (s : string) : option (string * string) :=
  let '(sg, t) := match s with String "-" t => ("-"%string, t) | _ => (""%string, s) end%char in
  '(i, t1) ← take_int t;
  '(f, t2) ← take_frac t1;
  '(e, t3) ← take_exp t2;
  Some (sg +:+ i +:+ f +:+ e, t3).

Definition cons_tok (x : token) (r : option (list token)) : option (list token) :=
  match r with Some l => Some (x :: l) | None => None end.

(** Tokens of [s]; every step consumes a byte, so [S (length s)] is enough. *)
Fixpoint lex (fuel : nat) (s : string) : option (list token) :=
  match fuel with
  | O => None
  | S f =>
    match s with
    | "" => Some []
    | String a t =>
      if is_ws a then lex f t
      else if Ascii.eqb a "[" then cons_tok TkLB (lex f t)
      else if Ascii.eqb a "]" then cons_tok TkRB (lex f t)
      else if Ascii.eqb a "{" then cons_tok TkLC (lex f t)
      else if Ascii.eqb a "}" then cons_tok TkRC (lex f t)
      else if Ascii.eqb a "," then cons_tok TkComma (lex f t)
      else if Ascii.eqb a ":" then cons_tok TkColon (lex f t)
      else if Ascii.eqb a dquote then
        match unquote_go 0%nat t with
        | Some (v, u) => cons_tok (TkVal (JStr v)) (lex f u)
        | None => None
        end
      else if Ascii.eqb a "t" then
        match strip_prefix "true" s with Some u => cons_tok (TkVal (JBool true)) (lex f u) | None => None end
      else if Ascii.eqb a "f" then
        match strip_prefix "false" s with Some u => cons_tok (TkVal (JBool false)) (lex f u) | None => None end
      else if Ascii.eqb a "n" then
        match strip_prefix "null" s with Some u => cons_tok (TkVal JNull) (lex f u) | None => None end
      else
        match take_number s with
        | Some (n, u) => cons_tok (TkVal (JNum n)) (lex f u)
        | None => None
        end
    end
  end.

(** An open container: the elements so far, and for an object the key whose
    value is being read. *)
#[warnings="-register-all"]
Inductive frame : Type :=
  | FArr (acc : list json)
  | FObj (acc : list (string * json)) (key : string).

Inductive position : Type :=
  | PValue           (* a value *)
  | PValueOrEnd      (* after "[" *)
  | PKey             (* after "," in an object *)
  | PKeyOrEnd        (* after "{" *)
  | PColon
  | PAfter           (* after an element *)
  | PDone (j : json).

Definition max_depth : N := 10000%N.

(** A finished value [j] goes into the innermost container. *)
Definition complete (j : json) (st : list frame) : position * list frame :=
  match st with
  | [] => (PDone j, [])
  | FArr acc :: st' => (PAfter, FArr (acc ++ [j]) :: st')
  | FObj acc k :: st' => (PAfter, FObj (acc ++ [(k, j)]) "" :: st')
  end.

Definition pushed (f : frame) (p : position) (st : list frame) : option (position * list frame) :=
  if (N.of_nat (length st) <? max_depth)%N then Some (p, f :: st) else None.

Definition parse_step (ps : position * list frame) (t : token) : option (position * list frame) :=
  let '(p, st) := ps in
  match p, t with
  | PValue, TkVal j | PValueOrEnd, TkVal j => Some (complete j st)
  | PValue, TkLB | PValueOrEnd, TkLB => pushed (FArr []) PValueOrEnd st
  | PValue, TkLC | PValueOrEnd, TkLC => pushed (FObj [] "") PKeyOrEnd st
  | PValueOrEnd, TkRB | PAfter, TkRB =>
    match st with FArr acc :: st' => Some (complete (JArr acc) st') | _ => None end
  | PKeyOrEnd, TkRC | PAfter, TkRC =>
    match st with FObj acc _ :: st' => Some (complete (JObj acc) st') | _ => None end
  | PKey, TkVal (JStr k) | PKeyOrEnd, TkVal (JStr k) =>
    match st with FObj acc _ :: st' => Some (PColon, FObj acc k :: st') | _ => None end
  | PColon, TkColon => Some (PValue, st)
  | PAfter, TkComma =>
    match st with
    | FArr _ :: _ => Some (PValue, st)
    | FObj _ _ :: _ => Some (PKey, st)
    | [] => None
    end
  | _, _ => None
  end.

Fixpoint parse_tokens (ps : position * list frame) (l : list token) : option json :=
  match l with
  | [] => match ps with (PDone j, []) => Some j | _ => None end
  | t :: l' => match parse_step ps t with Some ps' => parse_tokens ps' l' | None => None end
  end.

Definition parse_json (s : string) : option json :=
  l ← lex (S (String.length s)) s; parse_tokens (PValue, []) l.

(** An element decoded into a Go [string]: [null] leaves the zero value. *)
Definition as_string (j : json) : option string :=
  match j with JStr s => Some s | JNull => Some "" | _ => None end.

(** [json.Unmarshal([]byte(raw), &arr)] with [arr []string]. *)
Definition unmarshal_strings (raw : string) : option (list string) :=
  j ← parse_json raw;
  match j with
  | JArr l => mapM as_string l
  | JNull => Some []
  | _ => None
  end.

(** [json.Unmarshal([]byte(raw), &obj)] with [obj map[string]string]. *)
Definition unmarshal_string_map (raw : string) : option (gmap string string) :=
  j ← parse_json raw;
  match j with
  | JObj l =>
    kvs ← mapM (fun kv => v ← as_string (snd kv); Some (fst kv, v)) l;
    Some (foldl (fun (m : gmap string string) kv => <[fst kv := snd kv]> m) ∅ kvs)
  | JNull => Some ∅
  | _ => None
  end.

(** [json.Marshal(arr)] with [arr []string], non-nil. *)
Definition marshal_strings (l : list string) : string :=
  "[" +:+ join "," (map quote l) +:+ "]".

(** ** Round trip *)

Lemma cons_str_app a b r : cons_str a (cons_str b r) = cons_str (a +:+ b) r.
Proof. destruct r as [[u t]|]; simpl; [|done]. by rewrite str_app_assoc. Qed.

Lemma unquote_go_copy u v k :
  k = String.length u -> unquote_go k (u +:+ v) = cons_str u (unquote_go 0 v).
Proof.
  revert k; induction u as [|a u IH]; intros k ->; [by cbn; rewrite str_app_nil_l; destruct (unquote_go 0 v) as [[]|]|].
  rewrite str_app_cons. cbn [String.length unquote_go]. rewrite IH by done.
  by rewrite cons_str_app.
Qed.

Lemma quote_go_copy u v k :
  k = String.length u -> quote_go 0 k (u +:+ v) = u +:+ quote_go 0 0 v.
Proof.
  revert k; induction u as [|a u IH]; intros k ->; [done|].
  rewrite !str_app_cons. cbn [String.length quote_go]. by rewrite IH.
Qed.

Lemma valid_utf8_go_skip u v k :
  k = String.length u -> valid_utf8_go k (u +:+ v) = valid_utf8_go 0 v.
Proof.
  revert k; induction u as [|a u IH]; intros k ->; [done|].
  rewrite !str_app_cons. cbn [String.length valid_utf8_go]. by rewrite IH.
Qed.

(** A well-formed rune is recognised whatever follows it. *)
Lemma rune_extra_split a s n :
  rune_extra (String a s) = Some n ->
  exists u v, s = u +:+ v /\ n = String.length u /\
    forall v', rune_extra (String a (u +:+ v')) = Some n.
Proof.
  destruct s as [|b s]; [done|]. cbn [rune_extra].
  destruct (in_range 194 223 a) eqn:E1.
  { destruct (cont b) eqn:E2; [|done]. intros [= <-]. exists (String b ""), s.
    split; [done|]. split; [done|]. intros v'. rewrite str_app_cons. cbn [rune_extra]. by rewrite ?E1, E2. }
  destruct (in_range 224 239 a) eqn:E3.
  { destruct s as [|c s]; [done|]. destruct (_ && cont c) eqn:E2; [|done]. intros [= <-].
    exists (String b (String c "")), s. split; [done|]. split; [done|].
    intros v'. rewrite !str_app_cons. cbn [rune_extra]. by rewrite ?E1, ?E3, E2. }
  destruct (in_range 240 244 a) eqn:E4; [|done].
  destruct s as [|c [|d s]]; [done..|]. destruct (_ && cont d) eqn:E2; [|done]. intros [= <-].
  exists (String b (String c (String d ""))), s. split; [done|]. split; [done|].
  intros v'. rewrite !str_app_cons. cbn [rune_extra]. by rewrite ?E1, ?E3, ?E4, E2.
Qed.

Lemma unquote_quote_ascii a t :
  is_ascii a = true ->
  unquote_go 0 (quote_ascii a +:+ t) = cons_str (String a "") (unquote_go 0 t).
Proof. destruct a as [[] [] [] [] [] [] [] []]; intros H; try discriminate H; reflexivity. Qed.

(** A byte that starts a multi-byte rune is neither special nor a control. *)
Lemma unquote_go_rune a s n :
  is_ascii a = false -> rune_extra (String a s) = Some n ->
  unquote_go 0 (String a s) = cons_str (String a "") (unquote_go n s).
Proof.
  intros Ha Hr. assert (Ha' := Ha). unfold is_ascii in Ha'. apply N.ltb_ge in Ha'.
  cbn [unquote_go].
  destruct (Ascii.eqb_spec a dquote) as [->|_]; [done|].
  destruct (Ascii.eqb_spec a backslash) as [->|_]; [done|].
  rewrite (proj2 (N.ltb_ge _ _)) by lia. by rewrite Ha, Hr.
Qed.

Lemma line_sep_inv s e :
  line_sep s = Some e ->
  exists p t, s = p +:+ t /\ String.length p = 3 /\
    (forall u, unquote_go 0 (e +:+ u) = cons_str p (unquote_go 0 u)) /\
    rune_extra s = Some 2.
Proof.
  unfold line_sep. destruct (has_prefix _ _) eqn:H1.
  { apply has_prefix_true in H1 as [t ->]. intros [= <-].
    by exists (chr 226 +:+ chr 128 +:+ chr 168), t. }
  clear H1. destruct (has_prefix _ _) eqn:H1; [|done].
  apply has_prefix_true in H1 as [t ->]. intros [= <-].
  by exists (chr 226 +:+ chr 128 +:+ chr 169), t.
Qed.

Lemma quote_go_skip u v : quote_go (String.length u) 0 (u +:+ v) = quote_go 0 0 v.
Proof. induction u as [|a u IH]; [done|]. rewrite str_app_cons. apply IH. Qed.

Lemma unquote_quote_go s rest :
  valid_utf8 s = true ->
  unquote_go 0 (quote_go 0 0 s +:+ String dquote rest) = Some (s, rest).
Proof.
  unfold valid_utf8. remember (String.length s) as n eqn:Hn. revert s Hn.
  induction n as [n IH] using lt_wf_ind; intros [|a s] ->; [done|].
  cbn [valid_utf8_go quote_go]. destruct (is_ascii a) eqn:Ha.
  { intros Hv. rewrite <-str_app_assoc, unquote_quote_ascii by done.
    rewrite (IH (String.length s)); [done|simpl; lia|done|done]. }
  destruct (line_sep (String a s)) as [e|] eqn:Hl.
  - apply line_sep_inv in Hl as (p & t & Heq & Hp & Hu & Hr). rewrite Hr.
    destruct p as [|b [|c [|d [|]]]]; try done. rewrite !str_app_cons, str_app_nil_l in Heq.
    injection Heq as <- ->. cbn [valid_utf8_go quote_go]. intros Hv.
    rewrite <-str_app_assoc, Hu.
    rewrite (IH (String.length t)); [|simpl; lia|done|done]. done.
  - destruct (rune_extra (String a s)) as [m|] eqn:Hr; [|done].
    apply rune_extra_split in Hr as (u & v & -> & -> & Hr).
    rewrite valid_utf8_go_skip, quote_go_copy by done. intros Hv.
    rewrite str_app_cons, <-str_app_assoc, (unquote_go_rune _ _ _ Ha (Hr _)).
    rewrite unquote_go_copy by done. rewrite cons_str_app.
    rewrite (IH (String.length v)); [done| |done|done].
    simpl. rewrite str_length_app. lia.
Qed.

(** One string literal is one token. *)
Lemma lex_quote f s t :
  valid_utf8 s = true ->
  lex (S f) (quote s +:+ t) = cons_tok (TkVal (JStr s)) (lex f t).
Proof.
  intros Hv. unfold quote. rewrite !str_app_cons, <-str_app_assoc, str_app_cons, str_app_nil_l.
  cbn [lex]. change (is_ws dquote) with false. cbv iota.
  change (Ascii.eqb dquote "[") with false; change (Ascii.eqb dquote "]") with false.
  change (Ascii.eqb dquote "{") with false; change (Ascii.eqb dquote "}") with false.
  change (Ascii.eqb dquote ",") with false; change (Ascii.eqb dquote ":") with false.
  rewrite Ascii.eqb_refl. cbv iota. by rewrite unquote_quote_go.
Qed.

Definition comma_tokens (l : list string) : list token :=
  l ≫= (fun s => [TkComma; TkVal (JStr s)]).

Lemma lex_join f x l :
  forallb valid_utf8 (x :: l) = true ->
  2 * length l + 3 <= f ->
  lex f (join "," (map quote (x :: l)) +:+ "]") =
    Some (TkVal (JStr x) :: comma_tokens l ++ [TkRB]).
Proof.
  revert f x; induction l as [|y l IH]; intros f x [Hx Hl]%andb_true_iff Hf.
  - destruct f as [|[|[|f]]]; [cbn in Hf; lia..|]. cbn [map join]. by rewrite lex_quote.
  - destruct f as [|[|f]]; [cbn in Hf; lia..|].
    change (join "," (map quote (x :: y :: l)))
      with (quote x +:+ "," +:+ join "," (map quote (y :: l))).
    rewrite <-!str_app_assoc, lex_quote by done.
    rewrite str_app_cons, str_app_nil_l.
    change (lex (S f) (String "," ?s)) with (cons_tok TkComma (lex f s)).
    rewrite IH; [done|done|]. cbn [length] in Hf. lia.
Qed.

Lemma quote_length s : 2 <= String.length (quote s).
Proof. unfold quote. rewrite str_length_app. simpl. lia. Qed.

Lemma join_quote_length x l :
  3 * length l + 2 <= String.length (join "," (map quote (x :: l))).
Proof.
  revert x; induction l as [|y l IH]; intros x.
  - cbn. apply quote_length.
  - change (join "," (map quote (x :: y :: l)))
      with (quote x +:+ "," +:+ join "," (map quote (y :: l))).
    rewrite !str_length_app. specialize (IH y). pose proof (quote_length x).
    cbn [length String.length]. lia.
Qed.

Lemma parse_comma_tokens acc l :
  parse_tokens (PAfter, [FArr acc]) (comma_tokens l ++ [TkRB]) = Some (JArr (acc ++ map JStr l)).
Proof.
  revert acc; induction l as [|x l IH]; intros acc; simpl; [by rewrite app_nil_r|].
  fold (comma_tokens l). rewrite IH. by rewrite <-app_assoc.
Qed.

Lemma parse_marshal l :
  forallb valid_utf8 l = true -> parse_json (marshal_strings l) = Some (JArr (map JStr l)).
Proof.
  intros Hl. unfold parse_json, marshal_strings. destruct l as [|x l]; [done|].
  change ("[" +:+ join "," (map quote (x :: l)) +:+ "]")
    with (String "[" (join "," (map quote (x :: l)) +:+ "]")).
  change (lex (S ?n) (String "[" ?s)) with (cons_tok TkLB (lex n s)).
  cbn [String.length]. rewrite lex_join; [|done|].
  - simpl. apply parse_comma_tokens.
  - pose proof (join_quote_length x l). rewrite str_length_app. cbn [String.length]. lia.
Qed.

Lemma mapM_as_string l : mapM as_string (map JStr l) = Some l.
Proof. induction l as [|x l IH]; [done|]. simpl. by rewrite IH. Qed.

(** Decoding an encoded array gives the array back. *)
Lemma unmarshal_marshal_strings l :
  forallb valid_utf8 l = true -> unmarshal_strings (marshal_strings l) = Some l.
Proof.
  intros Hl. unfold unmarshal_strings. rewrite parse_marshal by done. simpl. apply mapM_as_string.
Qed.

(** ** The lexer's fuel is enough *)
Lemma unquote_go_length k s u t : unquote_go k s = Some (u, t) -> String.length t < String.length s.
Proof.
  remember (String.length s) as n eqn:Hn. revert k s u t Hn.
  induction n as [n IH] using lt_wf_ind; intros k s u t ->.
  assert (Hrec : forall k s' p u t, String.length s' < String.length s ->
    cons_str p (unquote_go k s') = Some (u, t) -> String.length t < String.length s).
  { intros k' s' p u' t' Hs'. destruct (unquote_go k' s') as [[v w]|] eqn:E; [|done].
    intros [= <- <-]. eapply (IH _ Hs') in E; [|done]. lia. }
  destruct s as [|a s]; [done|]. cbn [unquote_go].
  repeat first
    [ intros [= <- <-]; simpl; lia
    | done
    | apply Hrec; simpl; lia
    | case_match; subst ].
Qed.

Lemma take_digits_length s d t : take_digits s = (d, t) -> String.length t <= String.length s.
Proof.
  revert d t; induction s as [|a s IH]; intros d t; cbn [take_digits]; [by intros [= <- <-]|].
  destruct (is_digit a); [|by intros [= <- <-]].
  destruct (take_digits s) as [d' t'] eqn:E. intros [= <- <-]. specialize (IH _ _ eq_refl). simpl; lia.
Qed.

Lemma take_int_length s d t : take_int s = Some (d, t) -> String.length t < String.length s.
Proof.
  unfold take_int. destruct s as [|a s]; [done|].
  destruct (decide (a = "0"%char)) as [->|Ha]; [intros [= <- <-]; simpl; lia|].
  intros H. assert (H' : (if is_digit a then Some (take_digits (String a s)) else None) = Some (d, t)).
  { revert H. by repeat case_match. }
  cbn [take_digits] in H'. destruct (is_digit a); [|done].
  destruct (take_digits s) as [d' t'] eqn:E. apply take_digits_length in E.
  injection H' as <- <-. simpl. lia.
Qed.

Lemma take_frac_length s d t : take_frac s = Some (d, t) -> String.length t <= String.length s.
Proof.
  unfold take_frac. repeat (case_match; try done); intros; simplify_eq; try lia.
  all: match goal with H : take_digits _ = _ |- _ => apply take_digits_length in H end; simpl; lia.
Qed.

Lemma take_exp_length s d t : take_exp s = Some (d, t) -> String.length t <= String.length s.
Proof.
  unfold take_exp. destruct s as [|a s]; [by intros [= <- <-]|].
  destruct (Ascii.eqb a "e" || Ascii.eqb a "E"); [|by intros [= <- <-]].
  match goal with |- context [let '(_, _) := ?x in _] => destruct x as [sg t'] eqn:E1 end.
  assert (String.length t' <= String.length s).
  { revert E1. repeat case_match; intros; simplify_eq; simpl; lia. }
  destruct (take_digits t') as [d' u] eqn:E2. apply take_digits_length in E2.
  destruct (String.eqb d' ""); [done|]. intros [= <- <-]. simpl. lia.
Qed.

Lemma take_number_length s d t : take_number s = Some (d, t) -> String.length t < String.length s.
Proof.
  unfold take_number.
  match goal with |- context [let '(_, _) := ?x in _] => destruct x as [sg t0] eqn:E0 end.
  assert (String.length t0 <= String.length s).
  { revert E0. repeat case_match; intros; simplify_eq; simpl; lia. }
  intros H'. simpl in H'.
  destruct (take_int t0) as [[i t1]|] eqn:E1; [|done]. simpl in H'.
  destruct (take_frac t1) as [[f t2]|] eqn:E2; [|done]. simpl in H'.
  destruct (take_exp t2) as [[e t3]|] eqn:E3; [|done]. simpl in H'. injection H' as <- <-.
  apply take_int_length in E1. apply take_frac_length in E2. apply take_exp_length in E3. lia.
Qed.

Lemma lex_fuel_irrel f g s :
  String.length s < f -> String.length s < g -> lex f s = lex g s.
Proof.
  revert g s; induction f as [|f IH]; intros [|g] s Hf Hg; [lia..|].
  destruct s as [|a s]; [done|]. simpl in Hf, Hg.
  assert (Hrec : forall u, String.length u <= String.length s -> lex f u = lex g u).
  { intros u Hu. apply IH; lia. }
  cbn [lex]. rewrite (Hrec s) by done.
  repeat (case_match; try done).
  all: f_equal; apply Hrec.
  all: repeat match goal with
  | H : unquote_go _ _ = Some _ |- _ => apply unquote_go_length in H
  | H : strip_prefix _ _ = Some _ |- _ =>
      apply strip_prefix_Some in H; apply (f_equal String.length) in H;
      rewrite str_length_app in H; simpl in H
  | H : take_number _ = Some _ |- _ => apply take_number_length in H; simpl in H
  end; lia.
Qed.

Example unmarshal_ex :
  unmarshal_strings (marshal_strings ["a<b"; "x"; ""]) = Some ["a<b"; "x"; ""].
Proof. vm_compute. reflexivity. Qed.
