(* ===== verification/TektonTypes.v ===== *)
(** * internal/tektontypes/types.go

    The [tekton.dev/v1] schema as the program reads it.  A Go pointer field is
    an [option], a slice a [list] (nil and empty are not told apart: no code
    path does), a [map[string]string] a [gmap string string].  The field
    [Name] of a struct is written with the struct's prefix ([pt_Name] for
    [PipelineTask.Name]). *)

From S2P Require Import Prelude GoStrings.

(** The [k8s.io/api/core/v1] structs carried verbatim by the schema. *)
Class CoreV1 := {
  SecurityContext : Type;
  EnvFromSource : Type;
  EnvVarSource : Type;
}.

(** One concrete choice, to evaluate definitions on inputs. *)
Definition core_unit : CoreV1 :=
  {| SecurityContext := unit; EnvFromSource := unit; EnvVarSource := unit |}.

(** ** Metadata *)
Record Metadata := mkMetadata {
  md_Name : string;
  md_Namespace : string;
  md_Labels : gmap string string;
  md_Annotations : gmap string string;
}.

Record Object := mkObject {
  ob_APIVersion : string;
  ob_Kind : string;
  ob_Metadata : Metadata;
}.

(** ** Param values *)
Abbreviation ParamType := string.
Definition ParamTypeString : ParamType := "string".
Definition ParamTypeArray : ParamType := "array".
Definition ParamTypeObject : ParamType := "object".

Record ParamValue := mkParamValue {
  pv_Type : ParamType;
  pv_StringVal : string;
  pv_ArrayVal : list string;
  pv_ObjectVal : gmap string string;
}.

Definition StringParam (s : string) : ParamValue := mkParamValue ParamTypeString s [] ∅.
Definition ArrayParam (l : list string) : ParamValue := mkParamValue ParamTypeArray "" l ∅.
Definition ObjectParam (m : gmap string string) : ParamValue := mkParamValue ParamTypeObject "" [] m.

Record Param := mkParam {
  p_Name : string;
  p_Value : ParamValue;
}.

Record ParamSpec := mkParamSpec {
  ps_Name : string;
  ps_Type : ParamType;
  ps_Description : string;
  ps_Default : option ParamValue;
}.

Record ResultSpec := mkResultSpec {
  rs_Name : string;
  rs_Description : string;
  rs_Type : string;
}.

(** ** Volumes, env, resources *)
Record EmptyDirSource := mkEmptyDirSource { ed_Medium : string }.
Record HostPathSource := mkHostPathSource { hp_Path : string; hp_Type : string }.
Record KeyToPath := mkKeyToPath { kp_Key : string; kp_Path : string }.

Record ConfigMapSource := mkConfigMapSource {
  cm_Name : string;
  cm_Items : list KeyToPath;
  cm_Optional : option bool;
}.

Record SecretSource := mkSecretSource {
  sec_SecretName : string;
  sec_Items : list KeyToPath;
  sec_Optional : option bool;
}.

Record Volume := mkVolume {
  vol_Name : string;
  vol_EmptyDir : option EmptyDirSource;
  vol_HostPath : option HostPathSource;
  vol_ConfigMap : option ConfigMapSource;
  vol_Secret : option SecretSource;
}.

Record VolumeMount := mkVolumeMount {
  vm_Name : string;
  vm_MountPath : string;
  vm_ReadOnly : bool;
  vm_SubPath : string;
}.

Record ResourceList := mkResourceList {
  rl_CPU : string;
  rl_Memory : string;
  rl_Other : gmap string string;
}.

Record StepResources := mkStepResources {
  res_Limits : ResourceList;
  res_Requests : ResourceList;
}.

Record WorkspaceDecl := mkWorkspaceDecl {
  wd_Name : string;
  wd_Description : string;
  wd_MountPath : string;
  wd_ReadOnly : bool;
  wd_Optional : bool;
}.

Definition DefaultWorkspaceMountPath (name : string) : string := "/workspace/" +:+ name.

Definition EffectiveMountPath (d : WorkspaceDecl) : string :=
  if String.eqb (wd_MountPath d) "" then DefaultWorkspaceMountPath (wd_Name d)
  else wd_MountPath d.

Record WorkspaceUsage := mkWorkspaceUsage {
  wu_Name : string;
  wu_MountPath : string;
  wu_SubPath : string;
}.

Record ContainerPort := mkContainerPort {
  cp_Name : string;
  cp_ContainerPort : Z;
  cp_Protocol : string;
}.

Record WorkspaceBinding := mkWorkspaceBinding {
  wb_Name : string;
  wb_Workspace : string;
  wb_SubPath : string;
}.

Record WhenExpression := mkWhenExpression {
  we_Input : string;
  we_Operator : string;
  we_Values : list string;
}.

Record StepActionRef := mkStepActionRef { sar_Name : string }.

(** ** Tasks and steps *)
Section Tasks.
Context {K : CoreV1}.

Record EnvVar := mkEnvVar {
  ev_Name : string;
  ev_Value : string;
  ev_ValueFrom : option EnvVarSource;
}.

Record Step := mkStep {
  st_Name : string;
  st_DisplayName : string;
  st_Description : string;
  st_Ref : option StepActionRef;
  st_Params : list Param;
  st_Image : string;
  st_Command : list string;
  st_Args : list string;
  st_Script : string;
  st_Env : list EnvVar;
  st_WorkingDir : string;
  st_Resources : option StepResources;
  st_ImagePullPolicy : string;
  st_SecurityContext : option SecurityContext;
  st_EnvFrom : list EnvFromSource;
  st_Timeout : string;
  st_OnError : string;
  st_Results : list ResultSpec;
  st_VolumeMounts : list VolumeMount;
}.

Record StepTemplate := mkStepTemplate {
  tm_Image : string;
  tm_Command : list string;
  tm_Args : list string;
  tm_Env : list EnvVar;
  tm_WorkingDir : string;
  tm_Resources : option StepResources;
  tm_ImagePullPolicy : string;
  tm_SecurityContext : option SecurityContext;
  tm_EnvFrom : list EnvFromSource;
}.

Record Sidecar := mkSidecar {
  sc_Name : string;
  sc_Image : string;
  sc_Command : list string;
  sc_Args : list string;
  sc_Script : string;
  sc_Env : list EnvVar;
  sc_WorkingDir : string;
  sc_Resources : option StepResources;
  sc_VolumeMounts : list VolumeMount;
  sc_Workspaces : list WorkspaceUsage;
  sc_Ports : list ContainerPort;
  sc_ImagePullPolicy : string;
  sc_SecurityContext : option SecurityContext;
  sc_EnvFrom : list EnvFromSource;
}.

Record StepActionSpec := mkStepActionSpec {
  sas_Description : string;
  sas_Params : list ParamSpec;
  sas_Results : list ResultSpec;
  sas_Image : string;
  sas_Command : list string;
  sas_Args : list string;
  sas_Script : string;
  sas_Env : list EnvVar;
  sas_WorkingDir : string;
  sas_ImagePullPolicy : string;
  sas_Resources : option StepResources;
  sas_VolumeMounts : list VolumeMount;
}.

Record StepAction := mkStepAction {
  sa_Object : Object;
  sa_Spec : StepActionSpec;
}.

Record TaskSpec := mkTaskSpec {
  ts_Params : list ParamSpec;
  ts_Results : list ResultSpec;
  ts_Workspaces : list WorkspaceDecl;
  ts_Steps : list Step;
  ts_DisplayName : string;
  ts_Description : string;
  ts_Timeout : string;
  ts_Volumes : list Volume;
  ts_StepTemplate : option StepTemplate;
  ts_Sidecars : list Sidecar;
}.

Record Task := mkTask {
  task_Object : Object;
  task_Spec : TaskSpec;
}.

(** [var s TaskSpec]. *)
Definition zero_TaskSpec : TaskSpec := mkTaskSpec [] [] [] [] "" "" "" [] None [].

(** A Step that only sets [Name] and [Image], the rest zero. *)
Definition image_step (name image : string) : Step :=
  mkStep name "" "" None [] image [] [] "" [] "" None "" None [] "" "" [] [].

Definition ts_set_Steps (s : TaskSpec) (l : list Step) : TaskSpec :=
  mkTaskSpec (ts_Params s) (ts_Results s) (ts_Workspaces s) l (ts_DisplayName s)
    (ts_Description s) (ts_Timeout s) (ts_Volumes s) (ts_StepTemplate s) (ts_Sidecars s).

Definition ts_set_Sidecars (s : TaskSpec) (l : list Sidecar) : TaskSpec :=
  mkTaskSpec (ts_Params s) (ts_Results s) (ts_Workspaces s) (ts_Steps s) (ts_DisplayName s)
    (ts_Description s) (ts_Timeout s) (ts_Volumes s) (ts_StepTemplate s) l.
End Tasks.

(** ** Pipelines *)
Record ResolverParam := mkResolverParam {
  rp_Name : string;
  rp_Value : ParamValue;
}.

Record TaskRef := mkTaskRef {
  tr_Name : string;
  tr_Kind : string;
  tr_Resolver : string;
  tr_ResolverParams : list ResolverParam;
}.

Record MatrixParam := mkMatrixParam {
  mp_Name : string;
  mp_Value : list string;
}.

Record MatrixInclude := mkMatrixInclude {
  mi_Name : string;
  mi_Params : list Param;
}.

Record Matrix := mkMatrix {
  mx_Params : list MatrixParam;
  mx_Include : list MatrixInclude;
}.

Record MatrixInfo := mkMatrixInfo {
  inf_Parent : string;
  inf_Index : Z;
  inf_Of : Z;
  inf_Params : gmap string string;
  inf_IncludeName : string;
}.

Record MatrixRow := mkMatrixRow {
  row_Params : gmap string string;
  row_IncludeName : string;
}.

Record Timeouts := mkTimeouts {
  to_Pipeline : string;
  to_Tasks : string;
  to_Finally : string;
}.

Record PipelineWorkspaceDecl := mkPipelineWorkspaceDecl {
  pwd_Name : string;
  pwd_Description : string;
  pwd_Optional : bool;
}.

Record PipelineResultSpec := mkPipelineResultSpec {
  prs_Name : string;
  prs_Description : string;
  prs_Value : ParamValue;
}.

Section Pipelines.
Context {K : CoreV1}.

Record PipelineTask := mkPipelineTask {
  pt_Name : string;
  pt_DisplayName : string;
  pt_TaskRef : option TaskRef;
  pt_TaskSpec : option TaskSpec;
  pt_Params : list Param;
  pt_Workspaces : list WorkspaceBinding;
  pt_RunAfter : list string;
  pt_When : list WhenExpression;
  pt_Retries : Z;
  pt_Timeout : string;
  pt_Matrix : option Matrix;
  pt_MatrixInfo : option MatrixInfo;
}.

Record PipelineSpec := mkPipelineSpec {
  spec_DisplayName : string;
  spec_Description : string;
  spec_Params : list ParamSpec;
  spec_Workspaces : list PipelineWorkspaceDecl;
  spec_Tasks : list PipelineTask;
  spec_Finally : list PipelineTask;
  spec_Results : list PipelineResultSpec;
  spec_Timeouts : option Timeouts;
}.

Record Pipeline := mkPipeline {
  pl_Object : Object;
  pl_Spec : PipelineSpec;
}.

Definition pl_Name (p : Pipeline) : string := md_Name (ob_Metadata (pl_Object p)).

(** Field updates. *)
Definition pt_set_RunAfter (p : PipelineTask) (l : list string) : PipelineTask :=
  mkPipelineTask (pt_Name p) (pt_DisplayName p) (pt_TaskRef p) (pt_TaskSpec p) (pt_Params p)
    (pt_Workspaces p) l (pt_When p) (pt_Retries p) (pt_Timeout p) (pt_Matrix p) (pt_MatrixInfo p).

Definition pt_set_TaskSpec (p : PipelineTask) (s : option TaskSpec) : PipelineTask :=
  mkPipelineTask (pt_Name p) (pt_DisplayName p) (pt_TaskRef p) s (pt_Params p)
    (pt_Workspaces p) (pt_RunAfter p) (pt_When p) (pt_Retries p) (pt_Timeout p) (pt_Matrix p)
    (pt_MatrixInfo p).

Definition spec_set_tasks (s : PipelineSpec) (tasks finally : list PipelineTask) : PipelineSpec :=
  mkPipelineSpec (spec_DisplayName s) (spec_Description s) (spec_Params s) (spec_Workspaces s)
    tasks finally (spec_Results s) (spec_Timeouts s).

Definition pl_set_tasks (p : Pipeline) (tasks finally : list PipelineTask) : Pipeline :=
  mkPipeline (pl_Object p) (spec_set_tasks (pl_Spec p) tasks finally).

(** [spec.tasks] followed by [spec.finally]. *)
Definition all_tasks (p : Pipeline) : list PipelineTask :=
  spec_Tasks (pl_Spec p) ++ spec_Finally (pl_Spec p).

(** A PipelineTask that only names an inline Task, the rest zero. *)
Definition plain_task (name : string) (runAfter : list string) (s : TaskSpec) : PipelineTask :=
  mkPipelineTask name "" None (Some s) [] [] runAfter [] 0 "" None None.
End Pipelines.

(** ** Runs *)
Record PipelineRef := mkPipelineRef {
  plr_Name : string;
  plr_Resolver : string;
  plr_ResolverParams : list ResolverParam;
}.

Record PipelineRunWSBinding := mkPipelineRunWSBinding {
  pws_Name : string;
  pws_EmptyDir : option unit;
  pws_HostPath : string;
}.

Record PipelineRunSpec `{K : CoreV1} := mkPipelineRunSpec {
  prun_PipelineRef : option PipelineRef;
  prun_PipelineSpec : option PipelineSpec;
  prun_Params : list Param;
  prun_Workspaces : list PipelineRunWSBinding;
}.

Record PipelineRun `{K : CoreV1} := mkPipelineRun {
  prun_Object : Object;
  prun_Spec : PipelineRunSpec;
}.

Arguments mkPipelineRunSpec {K}.
Arguments mkPipelineRun {K}.

(** The [switch] case [ParamTypeString, ""]. *)
Definition is_string_type (t : ParamType) : bool :=
  String.eqb t ParamTypeString || String.eqb t "".

Lemma EffectiveMountPath_default d :
  wd_MountPath d = "" -> EffectiveMountPath d = "/workspace/" +:+ wd_Name d.
Proof. intros H. unfold EffectiveMountPath. by rewrite H. Qed.
