(* ===== verification/Dag.v ===== *)
(** * internal/engine/dag/dag.go

    The dependency graph: construction, [Levels] (Kahn's algorithm in rounds),
    [Descendants] (depth-first search with an explicit stack) and [Nodes].
    Maps are ranged over in the runtime's order ([MapRange]). *)

From S2P Require Import Prelude GoStrings.

(** [map[string]struct{}] *)
Abbreviation strset := (gmap string unit).

Record Graph := mkGraph {
  nodes : strset;
  out : gmap string strset;
  inn : gmap string strset;
}.

(** [g.out[u]] and [g.in[v]], the nil map when absent. *)
Definition outs (g : Graph) (u : string) : strset := default ∅ (out g !! u).
Definition ins (g : Graph) (v : string) : strset := default ∅ (inn g !! v).

Definition New : Graph := mkGraph ∅ ∅ ∅.

Definition AddNode (g : Graph) (n : string) : Graph :=
  match nodes g !! n with
  | Some _ => g
  | None => mkGraph (<[n := tt]> (nodes g)) (<[n := ∅]> (out g)) (<[n := ∅]> (inn g))
  end.

Definition AddEdge (g : Graph) (u v : string) : Graph :=
  mkGraph (nodes g) (<[u := <[v := tt]> (outs g u)]> (out g))
    (<[v := <[u := tt]> (ins g v)]> (inn g)).

Section Dag.
Context `{MapRange}.

(** ** Levels *)

(** The first loop: every edge joins known nodes. *)
Definition check_outs (g : Graph) (_ : unit) (uo : string * strset) : result unit :=
  let '(u, o) := uo in
  match nodes g !! u with
  | None => if 0 <? size o then Err (Fmt "edge from unknown node %q" [TStr u]) else Ok tt
  | Some _ => Ok tt
  end ≫= fun _ =>
  foldM (fun _ v =>
    match nodes g !! v with
    | None => Err (Fmt "edge %q→%q to unknown node" [TStr u; TStr v])
    | Some _ => Ok tt
    end) tt (set_range o).

Definition check_edges (g : Graph) : result unit :=
  foldM (check_outs g) tt (map_range (out g)).

(** [indeg[n] = len(g.in[n])] for every node. *)
Definition init_indeg (g : Graph) : gmap string Z :=
  map_imap (fun n _ => Some (Z.of_nat (size (ins g n)))) (nodes g).

Definition ready_nodes (indeg : gmap string Z) : list string :=
  omap (fun nd => if (snd nd =? 0)%Z then Some (fst nd) else None) (map_range indeg).

(** [if _, ok := indeg[v]; ok { indeg[v]-- }] *)
Definition decr (indeg : gmap string Z) (v : string) : gmap string Z :=
  match indeg !! v with
  | Some d => <[v := (d - 1)%Z]> indeg
  | None => indeg
  end.

(** One ready node is removed and its successors' degrees lowered. *)
Definition relax (g : Graph) (indeg : gmap string Z) (n : string) : gmap string Z :=
  foldl decr (delete n indeg) (set_range (outs g n)).

Definition cycle_error (indeg : gmap string Z) : text :=
  Fmt "cycle detected among: %v" [TStrs (sort_strings ((map_range indeg).*1))].

(** The outer loop; [None] is out of fuel. *)
Fixpoint levels_loop (fuel : nat) (g : Graph) (indeg : gmap string Z)
    : option (result (list (list string))) :=
  match fuel with
  | O => None
  | S f =>
    if decide (indeg = ∅) then Some (Ok []) else
    match sort_strings (ready_nodes indeg) with
    | [] => Some (Err (cycle_error indeg))
    | ready =>
      match levels_loop f g (foldl (relax g) indeg ready) with
      | None => None
      | Some (Err e) => Some (Err e)
      | Some (Ok ls) => Some (Ok (ready :: ls))
      end
    end
  end.

(** Every round removes a node, so [S (size nodes)] rounds are enough
    ([levels_loop_total]). *)
Definition Levels (g : Graph) : result (list (list string)) :=
  match check_edges g with
  | Err e => Err e
  | Ok _ => default (Err (Sentinel "out of fuel")) (levels_loop (S (size (nodes g))) g (init_indeg g))
  end.

(** ** Descendants *)

(** The inner loop: unseen successors are marked and pushed. *)
Definition visit (ss : list string * strset) (v : string) : list string * strset :=
  let '(stack, seen) := ss in
  match seen !! v with
  | Some _ => (stack, seen)
  | None => (v :: stack, <[v := tt]> seen)
  end.

Fixpoint desc_loop (fuel : nat) (g : Graph) (stack : list string) (seen : strset) : option strset :=
  match fuel with
  | O => None
  | S f =>
    match stack with
    | [] => Some seen
    | u :: stack' =>
      let '(stack'', seen') := foldl visit (stack', seen) (set_range (outs g u)) in
      desc_loop f g stack'' seen'
    end
  end.

(** All targets of edges: what can ever be pushed. *)
Definition targets (g : Graph) : gset string :=
  ⋃ ((fun uo => dom (snd uo)) <$> map_to_list (out g)).

Definition Descendants (g : Graph) (start : string) : list string :=
  sort_strings (set_range (default ∅ (desc_loop (S (S (size (targets g)))) g [start] ∅))).

(** ** Nodes *)
Definition Nodes (g : Graph) : list string := sort_strings (set_range (nodes g)).
End Dag.

(** ** Graph invariants *)

(** [u → v] is recorded. *)
Definition edge (g : Graph) (u v : string) : Prop := outs g u !! v = Some tt.

#[export] Instance edge_dec g : RelDecision (edge g).
Proof. intros u v. unfold edge. apply _. Defined.

Record wf (g : Graph) : Prop := {
  wf_sym : forall u v, ins g v !! u = outs g u !! v;
  wf_src : forall u v, edge g u v -> is_Some (nodes g !! u);
  wf_dst : forall u v, edge g u v -> is_Some (nodes g !! v);
}.

Lemma outs_AddNode g n u : wf g -> outs (AddNode g n) u = outs g u.
Proof.
  intros Hwf. unfold AddNode. destruct (nodes g !! n) eqn:Hn; [done|].
  unfold outs; simpl. destruct (decide (n = u)) as [->|Hne]; [|by rewrite lookup_insert_ne].
  rewrite lookup_insert_eq. simpl. symmetry. apply map_eq. intros v. rewrite lookup_empty.
  destruct (default ∅ (out g !! u) !! v) as [[]|] eqn:E; [|done].
  destruct (wf_src _ Hwf u v E) as [? ?]. congruence.
Qed.

Lemma ins_AddNode g n u : wf g -> ins (AddNode g n) u = ins g u.
Proof.
  intros Hwf. unfold AddNode. destruct (nodes g !! n) eqn:Hn; [done|].
  unfold ins; simpl. destruct (decide (n = u)) as [->|Hne]; [|by rewrite lookup_insert_ne].
  rewrite lookup_insert_eq. simpl. symmetry. apply map_eq. intros v. rewrite lookup_empty.
  destruct (default ∅ (inn g !! u) !! v) as [[]|] eqn:E; [|done].
  assert (Hed : edge g v u) by (unfold edge; rewrite <-(wf_sym _ Hwf); exact E).
  destruct (wf_dst _ Hwf v u Hed) as [? ?]. congruence.
Qed.

Lemma nodes_AddNode g n x : is_Some (nodes (AddNode g n) !! x) <-> x = n \/ is_Some (nodes g !! x).
Proof.
  unfold AddNode. destruct (nodes g !! n) eqn:Hn; simpl.
  - naive_solver.
  - rewrite lookup_insert. case_decide; naive_solver.
Qed.

Lemma outs_AddEdge g u v x y :
  outs (AddEdge g u v) x !! y = (if decide (x = u /\ y = v) then Some tt else outs g x !! y).
Proof.
  unfold outs; simpl. destruct (decide (x = u)) as [->|Hx].
  - rewrite lookup_insert_eq. simpl. rewrite lookup_insert.
    destruct (decide (v = y)), (decide (u = u /\ y = v)); naive_solver.
  - rewrite lookup_insert_ne by done. rewrite decide_False by naive_solver. done.
Qed.

Lemma ins_AddEdge g u v x y :
  ins (AddEdge g u v) x !! y = (if decide (y = u /\ x = v) then Some tt else ins g x !! y).
Proof.
  unfold ins; simpl. destruct (decide (x = v)) as [->|Hx].
  - rewrite lookup_insert_eq. simpl. rewrite lookup_insert.
    destruct (decide (u = y)), (decide (y = u /\ v = v)); naive_solver.
  - rewrite lookup_insert_ne by done. rewrite decide_False by naive_solver. done.
Qed.

Lemma edge_AddEdge g u v x y : edge (AddEdge g u v) x y <-> (x = u /\ y = v) \/ edge g x y.
Proof. unfold edge. rewrite outs_AddEdge. case_decide; naive_solver. Qed.

Lemma edge_AddNode g n x y : wf g -> edge (AddNode g n) x y <-> edge g x y.
Proof. intros Hwf. unfold edge. by rewrite outs_AddNode. Qed.

Lemma wf_New : wf New.
Proof.
  split; unfold edge, outs, ins; simpl; intros; rewrite ?lookup_empty in *; simpl in *; try done.
Qed.

Lemma wf_AddNode g n : wf g -> wf (AddNode g n).
Proof.
  intros Hwf. split.
  - intros u v. rewrite ins_AddNode, outs_AddNode by done. apply (wf_sym _ Hwf).
  - intros u v He%edge_AddNode; [|done]. apply nodes_AddNode. right. by eapply wf_src.
  - intros u v He%edge_AddNode; [|done]. apply nodes_AddNode. right. by eapply wf_dst.
Qed.

Lemma wf_AddEdge g u v :
  wf g -> is_Some (nodes g !! u) -> is_Some (nodes g !! v) -> wf (AddEdge g u v).
Proof.
  intros Hwf Hu Hv. split.
  - intros x y. rewrite ins_AddEdge, outs_AddEdge, (wf_sym _ Hwf).
    repeat case_decide; naive_solver.
  - intros x y [[-> ->]|He]%edge_AddEdge; [done|]. by eapply (wf_src g).
  - intros x y [[-> ->]|He]%edge_AddEdge; [done|]. by eapply (wf_dst g).
Qed.

#[export] Hint Resolve wf_New wf_AddNode wf_AddEdge : tkn.

(** ** Reachability *)

(** A non-empty path. *)
Definition reaches (g : Graph) : string -> string -> Prop := tc (edge g).

Lemma edge_reaches g u v : edge g u v -> reaches g u v.
Proof. apply tc_once. Qed.

Lemma reaches_src g u v : reaches g u v -> exists w, edge g u w.
Proof. intros [? ? He|? ? ? He _]; eauto. Qed.

Lemma reaches_dst g u v : reaches g u v -> exists w, edge g w v.
Proof. induction 1 as [? ? He|? ? ? _ _ IH]; eauto. Qed.

Lemma elem_of_targets g u v : edge g u v -> v ∈ targets g.
Proof.
  intros He. unfold targets. apply elem_of_union_list. unfold edge, outs in He.
  destruct (out g !! u) as [o|] eqn:Ho; simpl in He; [|by rewrite lookup_empty in He].
  exists (dom o). split; [|by apply elem_of_dom; eauto].
  apply list_elem_of_fmap. exists (u, o). split; [done|]. by apply elem_of_map_to_list.
Qed.

Section Descendants.
Context `{MapRange}.

(** What one run of the inner loop does to the stack and the marks. *)
Lemma visit_foldl (l : list string) stack (seen : strset) stack' seen' :
  foldl visit (stack, seen) l = (stack', seen') ->
  (forall x, is_Some (seen' !! x) <-> is_Some (seen !! x) \/ x ∈ l) /\
  (forall x, x ∈ stack' <-> x ∈ stack \/ (x ∈ l /\ seen !! x = None)) /\
  length stack' + size seen = length stack + size seen'.
Proof.
  revert stack seen; induction l as [|v l IH]; intros stack seen; simpl.
  { intros [= <- <-]. set_solver. }
  destruct (seen !! v) as [[]|] eqn:Hv; intros Hf;
    apply IH in Hf as (H1 & H2 & H3).
  - split_and!; [| |done].
    + intros x. rewrite H1, elem_of_cons. naive_solver.
    + intros x. rewrite H2, elem_of_cons. naive_solver.
  - split_and!.
    + intros x. rewrite H1, elem_of_cons, lookup_insert_is_Some.
      destruct (decide (v = x)); naive_solver.
    + intros x. rewrite H2, !elem_of_cons, lookup_insert.
      case_decide; subst; naive_solver.
    + rewrite map_size_insert_None in H3 by done. simpl in H3. lia.
Qed.

Lemma elem_of_set_range_outs g u v : v ∈ set_range (outs g u) <-> edge g u v.
Proof.
  unfold set_range. rewrite elem_of_map_range_keys. unfold edge. split; [|by eauto].
  by intros [[] ?].
Qed.

(** Marked nodes are reachable, and the successors of every marked node not
    on the stack are marked. *)
Record desc_inv (g : Graph) (start : string) (stack : list string) (seen : strset) : Prop := {
  di_sound : forall x, is_Some (seen !! x) -> reaches g start x;
  di_stack : forall x, x ∈ stack -> x = start \/ is_Some (seen !! x);
  di_closed : forall x y, x = start \/ is_Some (seen !! x) -> x ∉ stack ->
                edge g x y -> is_Some (seen !! y);
  di_targets : forall x, is_Some (seen !! x) -> x ∈ targets g;
}.

Lemma desc_inv_step g start u stack seen stack' seen' :
  desc_inv g start (u :: stack) seen ->
  foldl visit (stack, seen) (set_range (outs g u)) = (stack', seen') ->
  desc_inv g start stack' seen'.
Proof.
  intros [Hs Hst Hc Ht] (H1 & H2 & _)%visit_foldl.
  assert (Hu : u = start \/ reaches g start u).
  { destruct (Hst u) as [->|?]; [set_solver|by left|right; by apply Hs]. }
  split.
  - intros x [?|Hx%elem_of_set_range_outs]%H1; [by apply Hs|].
    destruct Hu as [->|Hu]; [by apply tc_once|]. by eapply tc_r.
  - intros x [?|[Hx _]]%H2; [|right; apply H1; by right].
    destruct (Hst x) as [?|?]; [set_solver|by left|right; apply H1; by left].
  - intros x y Hx Hnin He. apply H1.
    destruct (decide (x = u)) as [->|Hne]; [right; by apply elem_of_set_range_outs|].
    left. assert (Hns : x ∉ stack) by (intros ?; apply Hnin, H2; by left).
    apply (Hc x y); [|set_solver|done].
    destruct Hx as [?|[?|Hx]%H1]; [by left|by right|].
    destruct (seen !! x) eqn:E; [right; by eauto|]. exfalso. apply Hnin, H2. by right.
  - intros x [?|Hx%elem_of_set_range_outs]%H1; [by apply Ht|]. by eapply elem_of_targets.
Qed.

Lemma desc_inv_size g start stack seen :
  desc_inv g start stack seen -> size seen <= size (targets g).
Proof.
  intros [_ _ _ Ht]. rewrite <-(size_dom seen). apply subseteq_size.
  intros x Hx%elem_of_dom. by apply Ht.
Qed.

(** The search returns, with any fuel above the number of pushes left. *)
Lemma desc_loop_spec fuel g start stack seen :
  desc_inv g start stack seen ->
  length stack + size (targets g) < fuel + size seen ->
  exists seen', desc_loop fuel g stack seen = Some seen' /\ desc_inv g start [] seen'.
Proof.
  revert stack seen; induction fuel as [|f IH]; intros stack seen Hi Hlt.
  { pose proof (desc_inv_size _ _ _ _ Hi). lia. }
  simpl. destruct stack as [|u stack]; [by exists seen|].
  destruct (foldl visit _ _) as [stack' seen'] eqn:Hf.
  pose proof (desc_inv_step _ _ _ _ _ _ _ Hi Hf) as Hi'.
  apply IH; [done|]. apply visit_foldl in Hf as (_ & _ & Hlen). simpl in Hlt. lia.
Qed.

Lemma desc_inv_init g start : desc_inv g start [start] ∅.
Proof.
  split.
  - intros x [? Hx]. by rewrite lookup_empty in Hx.
  - intros x ->%list_elem_of_singleton. by left.
  - intros x y [->|[? Hx]] Hnin; [set_solver|]. by rewrite lookup_empty in Hx.
  - intros x [? Hx]. by rewrite lookup_empty in Hx.
Qed.

Lemma desc_inv_final g start seen x :
  desc_inv g start [] seen -> is_Some (seen !! x) <-> reaches g start x.
Proof.
  intros [Hs _ Hc _]. split; [apply Hs|]. unfold reaches.
  assert (Hgen : forall a b, tc (edge g) a b -> a = start \/ is_Some (seen !! a) -> is_Some (seen !! b)).
  { induction 1 as [a b He|a b c He Htc IH]; intros Ha.
    - eapply Hc; [done|set_solver|done].
    - apply IH. right. eapply Hc; [done|set_solver|done]. }
  intros Htc. apply (Hgen start x Htc). by left.
Qed.

Lemma elem_of_Descendants g start x : x ∈ Descendants g start <-> reaches g start x.
Proof.
  unfold Descendants. rewrite elem_of_sort_strings. unfold set_range.
  rewrite elem_of_map_range_keys.
  destruct (desc_loop_spec (S (S (size (targets g)))) g start [start] ∅) as (seen & -> & Hi).
  - apply desc_inv_init.
  - simpl. rewrite map_size_empty. lia.
  - simpl. by apply desc_inv_final.
Qed.

Lemma Descendants_NoDup g start : NoDup (Descendants g start).
Proof. unfold Descendants. rewrite sort_strings_NoDup. apply map_range_keys_NoDup. Qed.

Lemma elem_of_Nodes g x : x ∈ Nodes g <-> is_Some (nodes g !! x).
Proof.
  unfold Nodes. rewrite elem_of_sort_strings. unfold set_range. apply elem_of_map_range_keys.
Qed.

Lemma Nodes_NoDup g : NoDup (Nodes g).
Proof. unfold Nodes. rewrite sort_strings_NoDup. apply map_range_keys_NoDup. Qed.
End Descendants.

#[export] Instance reaches_dec g : RelDecision (reaches g).
Proof.
  intros u v. refine (cast_if (decide (v ∈ @Descendants default_range g u)));
    by rewrite <-(elem_of_Descendants (H := default_range)).
Defined.

(** ** Correctness of [Levels] *)

(** Incoming edges of [v] whose source is still in the map [rem]. *)
Definition npred (g : Graph) (rem : gmap string Z) (v : string) : nat :=
  size (filter (fun ku : string * unit => is_Some (rem !! ku.1)) (ins g v)).

(** The degrees count the remaining predecessors. *)
Definition indeg_inv (g : Graph) (rem : gmap string Z) : Prop :=
  forall v d, rem !! v = Some d -> is_Some (nodes g !! v) /\ d = Z.of_nat (npred g rem v).

(** [v] may run once [R] is what remains. *)
Definition free_in (g : Graph) (R : gset string) (v : string) : Prop :=
  v ∈ R /\ forall u, edge g u v -> u ∉ R.

(** A run of the rounds on the remaining set [R]. *)
Inductive peel (g : Graph) : gset string -> list (list string) -> Prop :=
  | peel_nil : peel g ∅ []
  | peel_cons R ready ls :
      ready <> [] ->
      StronglySorted String.le ready ->
      NoDup ready ->
      (forall v, v ∈ ready <-> free_in g R v) ->
      peel g (R ∖ list_to_set ready) ls ->
      peel g R (ready :: ls).

(** Every node of [R] waits for another of [R]. *)
Definition held (g : Graph) (R : gset string) : Prop := forall v, v ∈ R -> exists u, u ∈ R /\ edge g u v.

(** Nothing in [R] can run. *)
Definition stuck (g : Graph) (R : gset string) : Prop :=
  R <> ∅ /\ held g R.

Section Levels.
Context `{MapRange}.

Lemma foldl_decr_lookup (l : list string) (m : gmap string Z) v :
  NoDup l ->
  foldl decr m l !! v = (fun d => if decide (v ∈ l) then (d - 1)%Z else d) <$> m !! v.
Proof.
  revert m; induction l as [|x l IH]; intros m Hnd; cbn [foldl].
  { by destruct (m !! v). }
  apply NoDup_cons in Hnd as [Hx Hnd]. rewrite IH by done.
  assert (Hcons : v <> x -> forall d, (if decide (v ∈ l) then (d - 1)%Z else d)
    = (if decide (v ∈ x :: l) then (d - 1)%Z else d)).
  { intros Hne d. destruct (decide (v ∈ l)), (decide (v ∈ x :: l)); set_solver. }
  unfold decr. destruct (m !! x) as [dx|] eqn:Hm.
  - destruct (decide (x = v)) as [->|Hne].
    + rewrite lookup_insert_eq, Hm. simpl. rewrite decide_False by done.
      rewrite decide_True by set_solver. done.
    + rewrite lookup_insert_ne by done. destruct (m !! v); simpl; [|done].
      f_equal. by apply Hcons.
  - destruct (m !! v) as [d|] eqn:Hmv; simpl; [|done].
    f_equal. apply Hcons. congruence.
Qed.

Lemma set_range_outs_NoDup g n : NoDup (set_range (outs g n)).
Proof. apply map_range_keys_NoDup. Qed.

Lemma relax_lookup g rem n v :
  relax g rem n !! v =
    if decide (v = n) then None
    else (fun d => if decide (edge g n v) then (d - 1)%Z else d) <$> rem !! v.
Proof.
  unfold relax. rewrite foldl_decr_lookup by apply set_range_outs_NoDup.
  destruct (decide (v = n)) as [->|Hv]; [by rewrite lookup_delete_eq|].
  rewrite lookup_delete_ne by done. destruct (rem !! v) as [d|]; simpl; [|done]. f_equal.
  pose proof (elem_of_set_range_outs g n v).
  destruct (decide (edge g n v)), (decide (v ∈ set_range (outs g n))); tauto.
Qed.

Lemma relax_dom g rem n : dom (relax g rem n) = dom rem ∖ {[n]}.
Proof.
  apply set_eq. intros v. rewrite elem_of_difference, !elem_of_dom, relax_lookup, elem_of_singleton.
  destruct (decide (v = n)); [split; [by intros [? ?]|naive_solver]|].
  rewrite fmap_is_Some. naive_solver.
Qed.

Lemma npred_relax g rem n v :
  wf g -> is_Some (rem !! n) ->
  npred g rem v = npred g (relax g rem n) v + (if decide (edge g n v) then 1 else 0).
Proof.
  intros Hwf Hn. unfold npred.
  assert (Heq : filter (fun ku : string * unit => is_Some (relax g rem n !! ku.1)) (ins g v)
    = delete n (filter (fun ku : string * unit => is_Some (rem !! ku.1)) (ins g v))).
  { apply map_eq. intros u. destruct (decide (u = n)) as [->|Hne].
    - rewrite lookup_delete_eq. apply map_lookup_filter_None. right.
      intros [] _. simpl. rewrite relax_lookup, decide_True by done. by intros [? ?].
    - rewrite lookup_delete_ne by done. rewrite !map_lookup_filter.
      destruct (ins g v !! u) as [[]|]; simpl; [|done].
      rewrite relax_lookup, decide_False by done.
      assert (is_Some ((fun d => if decide (edge g n u) then (d - 1)%Z else d) <$> rem !! u)
        <-> is_Some (rem !! u)) as Hiff by apply fmap_is_Some.
      unfold guard. repeat case_decide; simpl; tauto. }
  rewrite Heq. clear Heq. rewrite map_size_delete.
  destruct (decide (edge g n v)) as [He|He].
  - assert (Hf : filter (fun ku : string * unit => is_Some (rem !! ku.1)) (ins g v) !! n = Some tt).
    { apply map_lookup_filter_Some. split; [by rewrite (wf_sym _ Hwf)|done]. }
    rewrite Hf.
    assert (size (filter (fun ku : string * unit => is_Some (rem !! ku.1)) (ins g v)) <> 0).
    { rewrite map_size_non_empty_iff. intros Hz. by rewrite Hz, lookup_empty in Hf. }
    simpl. lia.
  - assert (Hf : filter (fun ku : string * unit => is_Some (rem !! ku.1)) (ins g v) !! n = None).
    { apply map_lookup_filter_None. left. rewrite (wf_sym _ Hwf).
      destruct (outs g n !! v) as [[]|] eqn:E; [|done]. done. }
    rewrite Hf. simpl. lia.
Qed.

Lemma relax_inv g rem n :
  wf g -> indeg_inv g rem -> is_Some (rem !! n) -> indeg_inv g (relax g rem n).
Proof.
  intros Hwf Hi Hn v d. rewrite relax_lookup. case_decide as Hv; [done|].
  intros (d0 & Hd0 & ->)%fmap_Some. apply Hi in Hd0 as [? ->]. split; [done|].
  rewrite (npred_relax g rem n v) by done. case_decide; lia.
Qed.

Lemma foldl_relax_inv g rem l :
  wf g -> indeg_inv g rem -> NoDup l -> (forall x, x ∈ l -> is_Some (rem !! x)) ->
  indeg_inv g (foldl (relax g) rem l) /\ dom (foldl (relax g) rem l) = dom rem ∖ list_to_set l.
Proof.
  revert rem; induction l as [|n l IH]; intros rem Hwf Hi Hnd Hl; simpl; [set_solver|].
  apply NoDup_cons in Hnd as [Hn Hnd].
  destruct (IH (relax g rem n)) as [H1 H2]; [done| |done| |].
  - apply relax_inv; [done|done|]. apply Hl. set_solver.
  - intros x Hx. rewrite relax_lookup, decide_False by set_solver.
    rewrite fmap_is_Some. apply Hl. set_solver.
  - split; [done|]. rewrite H2, relax_dom. set_solver.
Qed.

Lemma npred_zero g rem v :
  wf g -> npred g rem v = 0 <-> forall u, edge g u v -> u ∉ dom rem.
Proof.
  intros Hwf. unfold npred. rewrite map_size_empty_iff, map_empty. split.
  - intros Hz u He Hu%elem_of_dom. specialize (Hz u).
    apply map_lookup_filter_None in Hz as [Hz|Hz].
    + rewrite (wf_sym _ Hwf) in Hz. unfold edge in He. congruence.
    + apply (Hz tt); [by rewrite (wf_sym _ Hwf)|done].
  - intros Hu u. apply map_lookup_filter_None.
    destruct (ins g v !! u) as [[]|] eqn:Hin; [right|by left].
    intros [] _. simpl. rewrite <-elem_of_dom. apply Hu. unfold edge.
    by rewrite <-(wf_sym _ Hwf).
Qed.

Lemma elem_of_ready g rem v :
  wf g -> indeg_inv g rem -> v ∈ ready_nodes rem <-> free_in g (dom rem) v.
Proof.
  intros Hwf Hi. unfold ready_nodes, free_in. rewrite list_elem_of_omap. split.
  - intros ([u d] & Hin%elem_of_map_range & Hz). simpl in Hz.
    destruct (Z.eqb_spec d 0) as [->|]; [|done]. injection Hz as ->.
    split; [apply elem_of_dom; eauto|]. apply npred_zero; [done|].
    apply Hi in Hin as [_ ?]. lia.
  - intros [[d Hd]%elem_of_dom Hu]. exists (v, d). split; [by apply elem_of_map_range|].
    apply npred_zero in Hu; [|done]. simpl. apply Hi in Hd as [_ ->]. by rewrite Hu.
Qed.

Lemma ready_nodes_NoDup rem : NoDup (ready_nodes rem).
Proof.
  unfold ready_nodes. pose proof (map_range_keys_NoDup rem) as Hnd.
  induction (map_range rem) as [|[n d] l IH]; simpl; [constructor|].
  apply NoDup_cons in Hnd as [Hn Hnd]. destruct (d =? 0)%Z; [|by apply IH].
  constructor; [|by apply IH]. intros ([u d'] & Hin & Hz)%list_elem_of_omap. apply Hn.
  simpl in Hz. destruct (d' =? 0)%Z; [|done]. injection Hz as ->.
  apply list_elem_of_fmap. by exists (n, d').
Qed.

(** With more fuel than nodes the loop returns: either all rounds, or an
    error with the greatest set in which nothing can run. *)
Lemma levels_loop_spec fuel g rem :
  wf g -> indeg_inv g rem -> size rem < fuel ->
  (exists ls, levels_loop fuel g rem = Some (Ok ls) /\ peel g (dom rem) ls) \/
  (exists e, levels_loop fuel g rem = Some (Err (cycle_error e)) /\ stuck g (dom e) /\ dom e ⊆ dom rem /\
     forall R, R ⊆ dom rem -> held g R -> R ⊆ dom e).
Proof.
  revert rem; induction fuel as [|f IH]; intros rem Hwf Hi Hsz; [lia|].
  cbn [levels_loop]. case_decide as Hrem.
  { left. exists []. subst. rewrite dom_empty_L. split; [done|constructor]. }
  pose proof (elem_of_ready g rem) as Hready.
  pose proof (sort_strings_perm (ready_nodes rem)) as Hperm.
  pose proof (ready_nodes_NoDup rem) as Hnd. rewrite <-Hperm in Hnd.
  assert (Hel : forall v, v ∈ sort_strings (ready_nodes rem) <-> free_in g (dom rem) v).
  { intros v. rewrite elem_of_sort_strings. by apply Hready. }
  pose proof (sort_strings_sorted (ready_nodes rem)) as Hsort.
  destruct (sort_strings (ready_nodes rem)) as [|n ready] eqn:Hr.
  - right. exists rem. split; [done|]. split; [|done]. split.
    + by rewrite dom_empty_iff_L.
    + intros v Hv. destruct (decide (set_Exists (fun u => edge g u v) (dom rem))) as [(u & ? & ?)|Hno].
      { by exists u. }
      exfalso. destruct (Hel v) as [_ Hfree]. apply not_elem_of_nil in Hfree; [done|].
      split; [done|]. intros u He Hu. apply Hno. by exists u.
  - rewrite <-Hr in *. set (ready' := sort_strings _) in *.
    assert (Hrd : forall x, x ∈ ready' -> is_Some (rem !! x)).
    { intros x Hx%Hel. apply elem_of_dom, Hx. }
    destruct (foldl_relax_inv g rem ready') as [Hi' Hd']; [done..|].
    assert (Hlt : size (foldl (relax g) rem ready') < f).
    { rewrite <-(size_dom (foldl (relax g) rem ready')), Hd'.
      assert (n ∈ ready') as Hn by (rewrite Hr; set_solver).
      assert (dom rem ∖ list_to_set ready' ⊂ dom rem) as Hlt%subset_size.
      { split; [intros x [? _]%elem_of_difference; done|].
        intros Hsub. assert (n ∈ dom rem) as Hn' by (by apply elem_of_dom, Hrd).
        apply Hsub, elem_of_difference in Hn' as [_ Hn']. by apply Hn', elem_of_list_to_set. }
      rewrite size_dom in Hlt. lia. }
    destruct (IH _ Hwf Hi' Hlt) as [(ls & Hl & Hp)|(e & Hl & Hst & Hsub & Hmax)]; rewrite Hl.
    + left. exists (ready' :: ls). split; [done|].
      constructor; [by rewrite Hr|done..|]. by rewrite Hd' in Hp.
    + right. exists e. rewrite Hd' in Hsub, Hmax. split_and!; [done|done|set_solver|]. intros R HR Hheld. apply Hmax; [|done].
      intros v Hv. apply elem_of_difference. split; [by apply HR|]. intros Hin%elem_of_list_to_set%Hel.
      destruct (Hheld v Hv) as (u & Hu & He). destruct Hin as [_ Hin]. by apply (Hin u He), HR.
Qed.
End Levels.

(** *** Consequences of a complete run *)

Definition in_level (ls : list (list string)) (i : nat) (v : string) : Prop :=
  exists l, ls !! i = Some l /\ v ∈ l.

Lemma in_level_S l ls i v : in_level (l :: ls) (S i) v <-> in_level ls i v.
Proof. done. Qed.

Lemma in_level_0 l ls v : in_level (l :: ls) 0 v <-> v ∈ l.
Proof. unfold in_level. simpl. naive_solver. Qed.

Lemma elem_of_concat_level ls v : v ∈ concat ls <-> exists i, in_level ls i v.
Proof.
  rewrite list_elem_of_In, in_concat. split.
  - intros (l & Hl%list_elem_of_In & Hv%list_elem_of_In).
    apply list_elem_of_lookup in Hl as [i Hi]. by exists i, l.
  - intros (i & l & Hi & Hv). exists l. rewrite <-!list_elem_of_In. split; [|done].
    by eapply list_elem_of_lookup_2.
Qed.

Lemma peel_elem g R ls v : peel g R ls -> v ∈ concat ls <-> v ∈ R.
Proof.
  induction 1 as [|R ready ls Hne _ _ Hr _ IH]; simpl; [set_solver|].
  rewrite elem_of_app, IH, Hr, elem_of_difference, elem_of_list_to_set, Hr.
  split; [naive_solver|]. intros Hv. destruct (decide (v ∈ ready)) as [Hin|Hin].
  - left. by apply Hr.
  - right. by rewrite <-Hr.
Qed.

Lemma peel_NoDup g R ls : peel g R ls -> NoDup (concat ls).
Proof.
  induction 1 as [|R ready ls Hne _ Hnd Hr Hp IH]; simpl; [constructor|].
  apply NoDup_app. split_and!; [done| |done].
  intros x Hx Hx'. apply (peel_elem _ _ _ _ Hp) in Hx'. set_solver.
Qed.

Lemma peel_levels g R ls l : peel g R ls -> l ∈ ls -> l <> [] /\ StronglySorted String.le l.
Proof. induction 1 as [|R ready ls Hne Hs Hnd Hr Hp IH]; set_solver. Qed.

(** Dependencies come in an earlier level. *)
Lemma peel_order g R ls u v i :
  peel g R ls -> edge g u v -> u ∈ R -> in_level ls i v -> exists j, j < i /\ in_level ls j u.
Proof.
  intros Hp; revert i; induction Hp as [|R ready ls Hne Hs Hnd Hr Hp IH]; intros i He Hu Hv.
  { by destruct Hv as (? & ? & ?). }
  destruct (decide (u ∈ ready)) as [Hur|Hur].
  - destruct i as [|i].
    + apply in_level_0, Hr in Hv as [_ Hv]. exfalso. by eapply Hv.
    + exists 0. split; [lia|]. by apply in_level_0.
  - destruct i as [|i].
    + apply in_level_0, Hr in Hv as [_ Hv]. exfalso. by eapply Hv.
    + destruct (IH i He) as (j & Hj & Hl); [set_solver|done|].
      exists (S j). split; [lia|done].
Qed.

(** A node is in the first level it can be in. *)
Lemma peel_greedy g R ls i v :
  peel g R ls -> in_level ls (S i) v -> exists u, in_level ls i u /\ edge g u v.
Proof.
  intros Hp; revert i; induction Hp as [|R ready ls Hne Hs Hnd Hr Hp IH]; intros i Hv.
  { by destruct Hv as (? & ? & ?). }
  apply in_level_S in Hv. destruct i as [|i].
  - remember (R ∖ list_to_set ready) as R1 eqn:HR1. destruct Hp as [|R' ready' ls' Hne' Hs' Hnd' Hr' Hp']; [by destruct Hv as (? & ? & ?)|].
    apply in_level_0, Hr' in Hv as [HvR Hfree].
    destruct (decide (set_Exists (fun u => edge g u v) (list_to_set ready : gset string))) as [(u & Hu & He)|Hno].
    + exists u. split; [|done]. apply in_level_0. by apply elem_of_list_to_set in Hu.
    + exfalso. assert (Hv : v ∈ ready).
      { apply Hr. subst R'. split; [by apply elem_of_difference in HvR as [? _]|]. intros u He Hu.
        apply (Hfree u He). apply elem_of_difference. split; [done|].
        intros Hur. apply Hno. by exists u. }
      subst R'. apply elem_of_difference in HvR as [_ HvR]. by apply HvR, elem_of_list_to_set.
  - destruct (IH i Hv) as (u & Hu & He). by exists u.
Qed.

(** Every ancestor comes in an earlier level. *)
Lemma peel_reaches g R ls u v i :
  peel g R ls -> (forall u v, edge g u v -> u ∈ R /\ v ∈ R) ->
  reaches g u v -> in_level ls i v -> exists j, j < i /\ in_level ls j u.
Proof.
  intros Hp HR Hr. revert i. induction Hr as [x y He|x y z He Htc IH]; intros i Hi.
  - eapply peel_order; [done..|exact (proj1 (HR _ _ He))|done].
  - destruct (IH i Hi) as (j & Hj & Hl). destruct (peel_order _ _ _ x y j Hp He) as (k & ? & ?);
      [exact (proj1 (HR _ _ He))|done|]. exists k. split; [lia|done].
Qed.

(** A complete run leaves no cycle. *)
Lemma peel_acyclic g R ls :
  peel g R ls -> (forall u v, edge g u v -> u ∈ R /\ v ∈ R) -> forall x, ~ reaches g x x.
Proof.
  intros Hp HR.
  intros x Hx. assert (Hall : forall i, ~ in_level ls i x).
  { intros i. induction i as [i IH] using lt_wf_ind. intros Hi.
    destruct (peel_reaches g R ls x x i) as (j & Hj & Hl); [done..|]. by eapply IH. }
  assert (x ∈ R) as HxR by (destruct (reaches_src _ _ _ Hx) as [z He]; exact (proj1 (HR _ _ He))).
  apply (peel_elem _ _ _ _ Hp), elem_of_concat_level in HxR as [i Hi]. by eapply Hall.
Qed.

Lemma stuck_cycle g R : stuck g R -> exists x, reaches g x x.
Proof.
  intros [Hne Hpred].
  destruct (minimal_exists_elem_of_L (reaches g) R Hne) as (x & Hx & Hmin).
  destruct (Hpred x Hx) as (u & Hu & He). exists x.
  apply tc_once in He. eapply tc_transitive; [|exact He].
  by apply (Hmin u Hu).
Qed.

(** What waits for a cycle: the nodes on one and behind one. *)
Definition behind_cycle (g : Graph) (v : string) : Prop := exists x, reaches g x x /\ (x = v \/ reaches g x v).

Lemma stuck_behind g R v : stuck g R -> v ∈ R -> behind_cycle g v.
Proof.
  intros [_ Hpred] Hv. set (A := filter (fun u => u = v \/ reaches g u v) R).
  assert (forall u, u ∈ A <-> (u = v \/ reaches g u v) /\ u ∈ R) as HA by (intros u; unfold A; rewrite elem_of_filter; done).
  assert (stuck g A) as Hs.
  { split; [intros E; apply (not_elem_of_empty (C := gset string) v); rewrite <-E; apply HA; auto|].
    intros u [Hu HuR]%HA. destruct (Hpred u HuR) as (w & Hw & He). exists w. split; [|done]. apply HA. split; [|done]. right.
    destruct Hu as [->|Hu]; [by apply tc_once|by eapply tc_l]. }
  destruct Hs as [Hne Hp]. destruct (minimal_exists_elem_of_L (reaches g) A Hne) as (x & Hx & Hmin).
  destruct (Hp x Hx) as (u & Hu & He). exists x. split.
  - apply tc_once in He. eapply tc_transitive; [|exact He]. by apply (Hmin u Hu).
  - by apply HA in Hx as [? _].
Qed.

(** A node on or behind a cycle waits for another such node. *)
Lemma behind_cycle_pred g v : behind_cycle g v -> exists u, behind_cycle g u /\ edge g u v.
Proof.
  assert (forall x y, reaches g x y -> exists u, (x = u \/ reaches g x u) /\ edge g u y) as Hlast.
  { induction 1 as [x y He|x y z He Ht (u & Hu & Hz)]; [by exists x; auto|]. exists u. split; [|done]. right.
    destruct Hu as [<-|Hu]; [by apply tc_once|by eapply tc_l]. }
  intros (x & Hx & Hv). assert (reaches g x v) as (u & Hu & He)%Hlast by by destruct Hv as [<-|]. exists u. split; [by exists x|done].
Qed.

Section Levels_theorems.
Context `{MapRange}.

Lemma check_edges_ok g : wf g -> check_edges g = Ok tt.
Proof.
  intros Hwf. unfold check_edges.
  assert (Hall : forall uo, uo ∈ map_range (out g) -> check_outs g tt uo = Ok tt).
  { intros [u o] Hin%elem_of_map_range. unfold check_outs.
    assert (Ho : forall v, v ∈ set_range o -> edge g u v).
    { intros v Hv. unfold edge, outs. rewrite Hin. simpl.
      apply elem_of_map_range_keys in Hv as [[] ?]. done. }
    assert (Hfold : forall l, (forall v, v ∈ l -> edge g u v) ->
      foldM (fun _ v => match nodes g !! v with
        | None => Err (Fmt "edge %q→%q to unknown node" [TStr u; TStr v])
        | Some _ => Ok tt end) tt l = Ok tt).
    { induction l as [|v l IH]; intros Hl; simpl; [done|].
      destruct (wf_dst _ Hwf u v) as [? ->]; [apply Hl; set_solver|]. apply IH. set_solver. }
    destruct (nodes g !! u) as [[]|] eqn:Hu; [by apply Hfold|].
    assert (size o = 0) as Hz.
    { apply map_size_empty_iff, map_empty. intros v. destruct (o !! v) as [[]|] eqn:Hv; [|done].
      destruct (wf_src _ Hwf u v) as [? ?]; [|congruence].
      unfold edge, outs. by rewrite Hin. }
    rewrite Hz. simpl. by apply Hfold. }
  induction (map_range (out g)) as [|uo l IH]; simpl; [done|].
  rewrite Hall by set_solver. apply IH. set_solver.
Qed.

(** Conversely, the check finds every edge that leaves the nodes. *)
Lemma foldM_unit_ok {A} (f : unit -> A -> result unit) l r :
  foldM f tt l = Ok r -> forall x, x ∈ l -> f tt x = Ok tt.
Proof.
  revert r; induction l as [|a l IH]; intros r; simpl; [by intros _ x ?%not_elem_of_nil|].
  destruct (f tt a) as [[]|] eqn:E; [|done]. intros Hf x [->|Hx]%elem_of_cons; [done|]. by eapply IH.
Qed.

Lemma checked_wf g :
  (forall u v, ins g v !! u = outs g u !! v) -> check_edges g = Ok tt -> wf g.
Proof.
  intros Hsym Hc.
  assert (forall u v, edge g u v -> is_Some (nodes g !! u) /\ is_Some (nodes g !! v)) as He.
  { intros u v He. assert (exists o, out g !! u = Some o /\ o !! v = Some tt) as (o & Ho & Hv).
    { unfold edge, outs in He. destruct (out g !! u) as [o|]; simpl in He; [by exists o|].
      by rewrite lookup_empty in He. }
    pose proof (foldM_unit_ok _ _ _ Hc (u, o)) as Hu. rewrite elem_of_map_range in Hu. specialize (Hu Ho).
    unfold check_outs in Hu.
    assert (is_Some (nodes g !! u) /\ foldM (fun _ v => match nodes g !! v with
        | None => Err (Fmt "edge %q→%q to unknown node" [TStr u; TStr v]) | Some _ => Ok tt end) tt (set_range o) = Ok tt)
      as [Hn Hf].
    { destruct (nodes g !! u); [split; [by eexists|exact Hu]|].
      destruct (0 <? size o) eqn:Hs; [done|]. apply Nat.ltb_ge in Hs.
      assert (o = ∅) as -> by (apply map_size_empty_iff; lia). by rewrite lookup_empty in Hv. }
    split; [done|]. assert (v ∈ set_range o) as Hin.
    { unfold set_range. apply elem_of_map_range_keys. by eexists. }
    pose proof (foldM_unit_ok _ _ _ Hf v Hin) as Hn'. simpl in Hn'.
    destruct (nodes g !! v); [by eexists|done]. }
  split; [done|intros u v; apply He..].
Qed.

Lemma Levels_ok_wf g ls :
  (forall u v, ins g v !! u = outs g u !! v) -> Levels g = Ok ls -> wf g.
Proof.
  intros Hsym HL. apply checked_wf; [done|]. unfold Levels in HL. by destruct (check_edges g) as [[]|].
Qed.

Lemma init_indeg_lookup g v :
  init_indeg g !! v = (fun _ => Z.of_nat (size (ins g v))) <$> nodes g !! v.
Proof. unfold init_indeg. rewrite map_lookup_imap. by destruct (nodes g !! v). Qed.

Lemma init_indeg_dom g : dom (init_indeg g) = dom (nodes g).
Proof.
  apply set_eq. intros v. rewrite !elem_of_dom, init_indeg_lookup. by rewrite fmap_is_Some.
Qed.

Lemma init_indeg_inv g : wf g -> indeg_inv g (init_indeg g).
Proof.
  intros Hwf v d. rewrite init_indeg_lookup.
  intros (x & Hx & ->)%fmap_Some. split; [by eauto|]. f_equal. unfold npred.
  f_equal. symmetry. apply map_filter_id. intros u [] Hu. simpl.
  rewrite init_indeg_lookup, fmap_is_Some. eapply (wf_src _ Hwf u v). unfold edge.
  by rewrite <-(wf_sym _ Hwf).
Qed.

(** [Levels] either runs all rounds or stops at a set nothing of which can run. *)
Lemma Levels_spec g :
  wf g ->
  (exists ls, Levels g = Ok ls /\ peel g (dom (nodes g)) ls) \/
  (exists e, Levels g = Err (cycle_error e) /\ stuck g (dom e) /\ forall R, R ⊆ dom (nodes g) -> held g R -> R ⊆ dom e).
Proof.
  intros Hwf. unfold Levels. rewrite check_edges_ok by done.
  destruct (levels_loop_spec (S (size (nodes g))) g (init_indeg g)) as [(ls & -> & Hp)|(e & -> & Hs & _ & Hmax)].
  - done.
  - by apply init_indeg_inv.
  - rewrite <-(size_dom (init_indeg g)), init_indeg_dom, size_dom. lia.
  - left. exists ls. split; [done|]. by rewrite init_indeg_dom in Hp.
  - right. exists e. by rewrite init_indeg_dom in Hmax.
Qed.

Lemma Levels_ok_peel g ls : wf g -> Levels g = Ok ls -> peel g (dom (nodes g)) ls.
Proof.
  intros Hwf HL. destruct (Levels_spec g Hwf) as [(ls' & HL' & Hp)|(? & HL' & _)];
    rewrite HL in HL'; by simplify_eq.
Qed.

Lemma wf_edges_in_nodes g : wf g -> forall u v, edge g u v -> u ∈ dom (nodes g) /\ v ∈ dom (nodes g).
Proof.
  intros Hwf u v He. split; apply elem_of_dom; [by eapply wf_src|by eapply wf_dst].
Qed.

Lemma Levels_ok_acyclic g ls x : wf g -> Levels g = Ok ls -> ~ reaches g x x.
Proof.
  intros Hwf HL. eapply peel_acyclic; [by apply Levels_ok_peel|by apply wf_edges_in_nodes].
Qed.

Lemma Levels_err_cycle g e : wf g -> Levels g = Err e -> exists x, reaches g x x.
Proof.
  intros Hwf HL. destruct (Levels_spec g Hwf) as [(? & HL' & _)|(? & _ & Hs & _)];
    [congruence|]. by eapply stuck_cycle.
Qed.
End Levels_theorems.

(** *** The result does not depend on the iteration order *)
Section range_irrelevance.
Context (M1 M2 : MapRange).

Lemma map_range_perm2 {A} (m : gmap string A) : map_range (MapRange := M1) m ≡ₚ map_range (MapRange := M2) m.
Proof. by rewrite !map_range_perm. Qed.

Lemma ready_nodes_perm2 rem : ready_nodes (H := M1) rem ≡ₚ ready_nodes (H := M2) rem.
Proof. unfold ready_nodes. by rewrite map_range_perm2. Qed.

Lemma relax_perm2 g rem n : relax (H := M1) g rem n = relax (H := M2) g rem n.
Proof. apply map_eq. intros v. by rewrite (relax_lookup (H := M1)), (relax_lookup (H := M2)). Qed.

Lemma foldl_relax_perm2 g rem l :
  foldl (relax (H := M1) g) rem l = foldl (relax (H := M2) g) rem l.
Proof. revert rem; induction l as [|n l IH]; intros rem; simpl; [done|]. by rewrite relax_perm2. Qed.

Lemma levels_loop_perm2 fuel g rem :
  levels_loop (H := M1) fuel g rem = levels_loop (H := M2) fuel g rem.
Proof.
  revert rem; induction fuel as [|f IH]; intros rem; cbn [levels_loop]; [done|].
  rewrite (sort_strings_perm_eq _ _ (ready_nodes_perm2 rem)).
  case_decide; [done|].
  assert (Hce : cycle_error (H := M1) rem = cycle_error (H := M2) rem).
  { unfold cycle_error. do 3 f_equal. apply sort_strings_perm_eq. by rewrite map_range_perm2. }
  destruct (sort_strings _); [by rewrite Hce|].
  by rewrite foldl_relax_perm2, IH.
Qed.
End range_irrelevance.

(** ** Properties *)

(** A diamond: [a → b], [a → c], [b → d], [c → d]. *)
Definition diamond : Graph :=
  let g := foldl AddNode New ["a"; "b"; "c"; "d"] in
  AddEdge (AddEdge (AddEdge (AddEdge g "a" "b") "a" "c") "b" "d") "c" "d".

Lemma diamond_wf : wf diamond.
Proof.
  repeat apply wf_AddEdge; [repeat apply wf_AddNode; apply wf_New|..];
    vm_compute; eauto.
Defined.

(** C7: a successful [Levels] partitions the nodes: every node is in exactly one
    level, levels are non-empty and sorted, every edge goes from an earlier to a
    later level, and a node of level [i+1] has a direct dependency in level [i]
    (it is placed as early as possible). *)
Theorem Levels_partition `{MapRange} (g : Graph) (ls : list (list string)) :
  wf g -> Levels g = Ok ls ->
  NoDup (concat ls) /\
  (forall v, v ∈ concat ls <-> is_Some (nodes g !! v)) /\
  (forall l, l ∈ ls -> l <> [] /\ StronglySorted String.le l) /\
  (forall u v i, edge g u v -> in_level ls i v -> exists j, j < i /\ in_level ls j u) /\
  (forall v i, in_level ls (S i) v -> exists u, in_level ls i u /\ edge g u v).
Proof.
  intros Hwf HL. pose proof (Levels_ok_peel g ls Hwf HL) as Hp. split_and!.
  - by eapply peel_NoDup.
  - intros v. by rewrite (peel_elem _ _ _ _ Hp), elem_of_dom.
  - intros l. by eapply peel_levels.
  - intros u v i He Hi. eapply peel_order; [done..| |done]. by eapply elem_of_dom, wf_src.
  - intros v i. by eapply peel_greedy.
Qed.

Lemma Levels_partition_witness :
  Levels (H := default_range) diamond = Ok [["a"]; ["b"; "c"]; ["d"]] /\
  (forall v, v ∈ concat [["a"]; ["b"; "c"]; ["d"]] <-> is_Some (nodes diamond !! v)).
Proof.
  assert (HL : Levels (H := default_range) diamond = Ok [["a"]; ["b"; "c"]; ["d"]])
    by (vm_compute; reflexivity).
  split; [exact HL|]. exact (proj1 (proj2 (Levels_partition diamond _ diamond_wf HL))).
Defined.

(** C8: on a graph with a cycle [Levels] terminates with the cycle error, and only there:
    it names, each once and in order, exactly the nodes that lie on a cycle or behind one;
    without a cycle it returns levels. *)
Theorem Levels_error_iff_cycle `{MapRange} (g : Graph) : wf g ->
  ((exists x, reaches g x x) ->
     exists remaining, Levels g = Err (Fmt "cycle detected among: %v" [TStrs remaining]) /\
       (forall v, v ∈ remaining <-> behind_cycle g v) /\ NoDup remaining /\ StronglySorted String.le remaining) /\
  ((forall x, ~ reaches g x x) -> exists ls, Levels g = Ok ls).
Proof.
  intros Hwf. destruct (Levels_spec g Hwf) as [(ls & HL & Hp)|(e & HL & Hs & Hmax)]; (split; intros Hc).
  - destruct Hc as [x Hx]. exfalso. by eapply Levels_ok_acyclic.
  - by exists ls.
  - exists (sort_strings (map_range e).*1). split_and!; [done| | |apply sort_strings_sorted].
    2:{ apply sort_strings_NoDup, map_range_keys_NoDup. }
    intros v. rewrite elem_of_sort_strings, elem_of_map_range_keys, <-elem_of_dom. split; [by apply stuck_behind|].
    intros Hv. assert (forall u, behind_cycle g u -> u ∈ dom (nodes g)) as Hn.
    { intros u (w & _ & He)%behind_cycle_pred. by eapply (wf_edges_in_nodes g Hwf). }
    set (R := filter (fun u => set_Exists (fun x => reaches g x x /\ (x = u \/ reaches g x u)) (dom (nodes g))) (dom (nodes g))).
    assert (forall u, u ∈ R <-> behind_cycle g u) as HR.
    { intros u. unfold R. rewrite elem_of_filter. split; [intros [(x & _ & Hx) _]; by exists x|]. intros Hu. split; [|by apply Hn].
      destruct Hu as (x & Hx & Hu). exists x. split; [|done]. apply Hn. by exists x; auto. }
    apply (Hmax R); [intros u Hu; by apply Hn, HR| |by apply HR]. intros u (w & Hw & He)%HR%behind_cycle_pred. exists w. by rewrite HR.
  - exfalso. destruct (stuck_cycle g _ Hs) as [x Hx]. by apply (Hc x).
Qed.

Lemma Levels_error_iff_cycle_witness :
  exists remaining, Levels (H := default_range) (AddEdge diamond "d" "a") = Err (Fmt "cycle detected among: %v" [TStrs remaining]) /\
    (forall v, v ∈ remaining <-> behind_cycle (AddEdge diamond "d" "a") v) /\ NoDup remaining /\ StronglySorted String.le remaining.
Proof.
  apply (proj1 (Levels_error_iff_cycle (H := default_range) (AddEdge diamond "d" "a") ltac:(apply wf_AddEdge; [exact diamond_wf|vm_compute; eauto..]))).
  exists "a". apply (tc_l _ "a" "b" "a"); [vm_compute; reflexivity|].
  apply (tc_l _ "b" "d" "a"); [vm_compute; reflexivity|].
  apply tc_once. vm_compute. reflexivity.
Defined.

(** the result of [Levels], error message included, is the same for every
    order in which the runtime ranges over the maps. *)
Theorem Levels_range_irrelevant (M1 M2 : MapRange) (g : Graph) :
  wf g -> Levels (H := M1) g = Levels (H := M2) g.
Proof.
  intros Hwf. unfold Levels.
  rewrite (check_edges_ok (H := M1)), (check_edges_ok (H := M2)) by done.
  by rewrite (levels_loop_perm2 M1 M2).
Qed.

Lemma Levels_range_irrelevant_witness :
  map_range (MapRange := reverse_range) (nodes diamond) <> map_range (MapRange := default_range) (nodes diamond) /\
  Levels (H := reverse_range) diamond = Levels (H := default_range) diamond.
Proof.
  split; [vm_compute; discriminate|]. exact (Levels_range_irrelevant reverse_range default_range diamond diamond_wf).
Defined.

(** [Descendants] is the sorted, duplicate-free list of the nodes reachable
    from [start] by a non-empty path, for every graph, cyclic ones included. *)
Theorem Descendants_correct `{MapRange} (g : Graph) (start : string) :
  (forall x, x ∈ Descendants g start <-> reaches g start x) /\
  NoDup (Descendants g start) /\ StronglySorted String.le (Descendants g start).
Proof.
  split_and!; [apply elem_of_Descendants|apply Descendants_NoDup|apply sort_strings_sorted].
Qed.
