(* ===== verification/Resolver.v ===== *)
(** * internal/resolver/resolver.go

    Tekton-style variable substitution: [$(params.x)], [$(tasks.t.results.r)],
    [$(context.v)], ... with the three tolerance modes and the whole-array
    [[*]] expansion of argument lists. *)

From S2P Require Import Prelude GoStrings Regex Json.

(** ** Context *)
Record Context := mkContext {
  rc_Params : gmap string string;
  rc_ArrayParams : gmap string (list string);
  rc_ObjectParams : gmap string (gmap string string);
  rc_Results : gmap string (gmap string string);
  rc_ContextVars : gmap string string;
  (** [None] is the nil map in the next and the [Bound] / [TaskStatuses] fields:
      the code tells nil and empty apart there. *)
  rc_StepResults : option (gmap string (gmap string string));
  rc_CurrentStep : string;
  rc_BoundWorkspaces : option (gmap string bool);
  rc_TasksStatus : string;
  rc_TaskStatuses : option (gmap string string);
  rc_WorkspacePaths : gmap string string;
}.

(** [resolver.Context{}] *)
Definition empty_context : Context := mkContext ∅ ∅ ∅ ∅ ∅ None "" None "" None ∅.

(** [resolver.Context{Params: params}] *)
Definition params_context (params : gmap string string) : Context :=
  mkContext params ∅ ∅ ∅ ∅ None "" None "" None ∅.

(** [resolver.Context{Results: results}] *)
Definition results_context (results : gmap string (gmap string string)) : Context :=
  mkContext ∅ ∅ ∅ results ∅ None "" None "" None ∅.

Definition errStepRefDeferred : text := Sentinel "step ref deferred".
Definition errLeaveLiteral : text := Sentinel "not a tekton reference".

(** [errors.Is(err, sentinel)]; no lookup error wraps a sentinel. *)
Definition errors_is (e sentinel : text) : bool :=
  match e, sentinel with
  | Sentinel a, Sentinel b => String.eqb a b
  | _, _ => false
  end.

Definition knownNamespaces : list string :=
  ["params"; "tasks"; "context"; "workspaces"; "results"; "steps"; "step"].

(** ** Patterns *)

(** The pattern of [refPat]: a dollar and an opening parenthesis, group 1 being
    an alphanumeric followed by word characters, dots, brackets, stars or dashes,
    and a closing parenthesis. *)
Definition ref_char (a : ascii) : bool :=
  is_word a || match a with "." | "[" | "]" | "*" | "-" => true | _ => false end%char.

Definition refPat : regex :=
  (RLit "$(" · RGroup 1 (RCls is_alnum · RStar ref_char) · RLit ")")%regex.

(** [^(.+)\[(\d+)\]$] *)
Definition indexSuffix : regex :=
  (RGroup 1 (RPlus not_newline) · RLit "[" · RGroup 2 (RPlus is_digit) · RLit "]" · REnd)%regex.

(** [^\$\((?:params|tasks)\.[^()$\s]*\[\*\]\)$] *)
Definition star_char (a : ascii) : bool :=
  negb (is_space a || match a with "(" | ")" | "$" => true | _ => false end%char).

Definition arrayStarRefPat : regex :=
  (RLit "$(" · RAlt (RLit "params") (RLit "tasks") · RLit "." · RStar star_char
     · RLit "[*])" · REnd)%regex.

(** ** Lookups *)

Definition namespaceOf (key : string) : string :=
  before_any (fun a => Ascii.eqb a "." || Ascii.eqb a "[") key.

Definition errWholeArray (key : string) : text :=
  Fmt "$(%s) is a whole-array reference: it must be used on its own as an array element (args/command item, array param value, when.values item), not embedded in a string" [TStr key].

(** [what] is the rendered subject of the message. *)
Definition indexInto (arr : list string) (idx : string) (what : text) : result string :=
  match atoi idx with
  | None => Err (Fmt "bad index %q for %s" [TStr idx; TErr what])
  | Some n =>
    if (n <? 0)%Z || (Z.of_nat (length arr) <=? n)%Z
    then Err (Fmt "index %d out of range for %s (length %d)" [TInt n; TErr what; TInt (Z.of_nat (length arr))])
    else match arr !! Z.to_nat n with
         | Some v => Ok v
         | None => Err (Sentinel "index out of range")
         end
  end.

Definition lookupParam (rest : string) (ctx : Context) : result string :=
  if has_suffix rest "[*]" then Err (errWholeArray ("params." +:+ rest)) else
  match rc_Params ctx !! rest with
  | Some v => Ok v
  | None =>
    match match_anchored indexSuffix rest with
    | Some m =>
      match rc_ArrayParams ctx !! group 1 m with
      | None => Err (Fmt "unknown array param %q" [TStr (group 1 m)])
      | Some arr => indexInto arr (group 2 m) (Fmt "param %q" [TStr (group 1 m)])
      end
    | None =>
      match cut "." rest with
      | Some (obj, k) =>
        match rc_ObjectParams ctx !! obj with
        | Some om =>
          match om !! k with
          | Some v => Ok v
          | None => Err (Fmt "object param %q has no key %q" [TStr obj; TStr k])
          end
        | None => Err (Fmt "unknown object param %q" [TStr obj])
        end
      | None => Err (Fmt "unknown param %q" [TStr rest])
      end
    end
  end.

(** The text of a decoding error is not modelled. *)
Definition json_error : text := Sentinel "json: cannot unmarshal".

Definition lookupTaskResult (task sel : string) (ctx : Context) : result string :=
  match rc_Results ctx !! task with
  | None => Err (Fmt "no results for task %q" [TStr task])
  | Some rs =>
    match rs !! sel with
    | Some v => Ok v
    | None =>
      if has_suffix sel "[*]" then Err (errWholeArray ("tasks." +:+ task +:+ ".results." +:+ sel)) else
      match match_anchored indexSuffix sel with
      | Some m =>
        match rs !! group 1 m with
        | None => Err (Fmt "task %q has no result %q" [TStr task; TStr (group 1 m)])
        | Some raw =>
          match unmarshal_strings raw with
          | None => Err (Fmt "task result %q is not a JSON array: %w"
                           [TStr (task +:+ "." +:+ group 1 m); TErr json_error])
          | Some arr => indexInto arr (group 2 m) (Fmt "result %q" [TStr (task +:+ "." +:+ group 1 m)])
          end
        end
      | None =>
        match cut "." sel with
        | Some (name, k) =>
          match rs !! name with
          | None => Err (Fmt "task %q has no result %q" [TStr task; TStr name])
          | Some raw =>
            match unmarshal_string_map raw with
            | None => Err (Fmt "task result %q is not a JSON object: %w"
                             [TStr (task +:+ "." +:+ name); TErr json_error])
            | Some obj =>
              match obj !! k with
              | None => Err (Fmt "task result %q has no key %q" [TStr (task +:+ "." +:+ name); TStr k])
              | Some v => Ok v
              end
            end
          end
        | None => Err (Fmt "task %q has no result %q" [TStr task; TStr sel])
        end
      end
    end
  end.

Definition lookupTasks (key : string) (ctx : Context) : result string :=
  let rest := trim_prefix key "tasks." in
  if String.eqb rest "status" then
    match rc_TaskStatuses ctx with
    | None => Err (lit "$(tasks.status) is only available in finally tasks")
    | Some _ => Ok (rc_TasksStatus ctx)
    end
  else
    match split_n rest "." 3 with
    | [t; "status"] =>
      match rc_TaskStatuses ctx with
      | None => Err (Fmt "$(%s) is only available in finally tasks" [TStr key])
      | Some sts =>
        match sts !! t with
        | Some v => Ok v
        | None => Err (Fmt "$(%s): unknown pipeline task %q (must be a task in spec.tasks)" [TStr key; TStr t])
        end
      end
    | [t; "results"; sel] => lookupTaskResult t sel ctx
    | _ => Err (Fmt "malformed task ref %q" [TStr key])
    end.

Definition lookupWorkspace (key : string) (ctx : Context) : result string :=
  let rest := trim_prefix key "workspaces." in
  match cut_last "." rest with
  | None => Err (Fmt "unknown workspaces ref %q" [TStr key])
  | Some (name, attr) =>
    if String.eqb attr "path" then
      match rc_WorkspacePaths ctx !! name with
      | Some p => if String.eqb p "" then Ok ("/workspace/" +:+ name) else Ok p
      | None => Ok ("/workspace/" +:+ name)
      end
    else if String.eqb attr "bound" then
      match rc_BoundWorkspaces ctx with
      | None => Err (Fmt "$(%s): workspace binding info unavailable here" [TStr key])
      | Some bw => if default false (bw !! name) then Ok "true" else Ok "false"
      end
    else if String.eqb attr "claim" then Ok ""
    else if String.eqb attr "volume" then Ok name
    else Err (Fmt "unknown workspaces ref %q" [TStr key])
  end.

Definition lookupSteps (key : string) (ctx : Context) : result string :=
  match split_n key "." 4 with
  | [_; stepName; "results"; resName] =>
    match rc_StepResults ctx with
    | None => Err errStepRefDeferred
    | Some srs =>
      match srs !! stepName with
      | Some rs =>
        match rs !! resName with
        | Some v => Ok v
        | None => Err (Fmt "step %q has no result %q" [TStr stepName; TStr resName])
        end
      | None => Err (Fmt "no results for step %q (must be a previous step in the same Task)" [TStr stepName])
      end
    end
  | _ => Err (Fmt "malformed steps ref %q" [TStr key])
  end.

Definition lookup (key : string) (ctx : Context) : result string :=
  if negb (existsb (String.eqb (namespaceOf key)) knownNamespaces) then Err errLeaveLiteral
  else if has_prefix key "params." then lookupParam (trim_prefix key "params.") ctx
  else if has_prefix key "tasks." then lookupTasks key ctx
  else if has_prefix key "context." then
    let rest := trim_prefix key "context." in
    match rc_ContextVars ctx !! rest with
    | Some v => Ok v
    | None => Err (Fmt "unknown context var %q" [TStr rest])
    end
  else if has_prefix key "results." then
    let rest := trim_prefix key "results." in
    if has_suffix rest ".path" then Ok ("/tekton/results/" +:+ trim_suffix rest ".path")
    else Err (Fmt "unknown results ref %q" [TStr key])
  else if has_prefix key "step.results." then
    let rest := trim_prefix key "step.results." in
    if negb (has_suffix rest ".path") then Err (Fmt "unknown step.results ref %q" [TStr key])
    else if String.eqb (rc_CurrentStep ctx) "" then Err errStepRefDeferred
    else Ok ("/tekton/steps/" +:+ rc_CurrentStep ctx +:+ "/results/" +:+ trim_suffix rest ".path")
  else if has_prefix key "steps." then lookupSteps key ctx
  else if has_prefix key "workspaces." then lookupWorkspace key ctx
  else Err (Fmt "unknown reference $(%s)" [TStr key]).

Definition is_none {A} (o : option A) : bool := match o with None => true | Some _ => false end.

Definition lookupAllowDefer (key : string) (ctx : Context) : result string :=
  match lookup key ctx with
  | Ok v => Ok v
  | Err err =>
    if errors_is err errStepRefDeferred || errors_is err errLeaveLiteral then Err err
    else if has_prefix key "params." then Err errStepRefDeferred
    else if has_prefix key "context." then Err errStepRefDeferred
    else if has_prefix key "workspaces." && has_suffix key ".bound" && is_none (rc_BoundWorkspaces ctx)
    then Err errStepRefDeferred
    else if has_prefix key "tasks." then
      match split_n key "." 4 with
      | [_; _; "results"; _] => Err errStepRefDeferred
      | _ => Err err
      end
    else Err err
  end.

(** ** Substitution *)
Inductive substMode := modeStrict | modeDeferStep | modeDeferAll.

#[export] Instance substMode_eq_dec : EqDecision substMode.
Proof. solve_decision. Defined.

Definition nul : ascii := "000"%char.
Definition sentinel : string := String nul "DOLLAR" +:+ String nul "".

(** The replacement of one segment of the scanned text. *)
Definition subst_segment (ctx : Context) (mode : substMode) (g : segment) : result string :=
  match g with
  | SByte a => Ok (String a "")
  | SMatch m c =>
    let key := group 1 c in
    let r := match mode with modeDeferAll => lookupAllowDefer key ctx | _ => lookup key ctx end in
    match r with
    | Ok v => Ok v
    | Err e =>
      if errors_is e errLeaveLiteral then Ok m
      else if negb (bool_decide (mode = modeStrict)) && errors_is e errStepRefDeferred then Ok m
      else Err e
    end
  end.

Definition concat_str (l : list string) : string := foldr String.append "" l.

Definition substitute (s : string) (ctx : Context) (mode : substMode) : result string :=
  let s' := replace_all s "$$" sentinel in
  match collect (subst_segment ctx mode) (segments refPat s') with
  | Err e => Err e
  | Ok parts => Ok (replace_all (concat_str parts) sentinel "$")
  end.

Definition Substitute (s : string) (ctx : Context) : result string := substitute s ctx modeStrict.
Definition SubstituteDeferStepRefs (s : string) (ctx : Context) : result string :=
  substitute s ctx modeDeferStep.
Definition SubstituteAllowStepRefs (s : string) (ctx : Context) : result string :=
  substitute s ctx modeDeferAll.

(** ** Argument lists *)
Definition isArrayStarRef (s : string) : bool :=
  match match_anchored arrayStarRefPat s with Some _ => true | None => false end.

Definition IsArrayStarRef (s : string) : bool := isArrayStarRef s.

(** [s[2 : len(s)-len("[*])")]] *)
Definition star_inner (s : string) : string := String.substring 2 (String.length s - 6) s.

Definition expandArrayStar (s : string) (ctx : Context) : result (list string) :=
  let inner := star_inner s in
  if has_prefix inner "params." then
    let name := trim_prefix inner "params." in
    match rc_ArrayParams ctx !! name with
    | None => Err (Fmt "unknown array param %q" [TStr name])
    | Some vals => Ok vals
    end
  else if has_prefix inner "tasks." then
    let rest := trim_prefix inner "tasks." in
    match cut ".results." rest with
    | None => Err (Fmt "malformed task-result [*] ref %q" [TStr s])
    | Some (task, name) =>
      match rc_Results ctx !! task with
      | None => Err (Fmt "no results for task %q" [TStr task])
      | Some rs =>
        match rs !! name with
        | None => Err (Fmt "task %q has no result %q" [TStr task; TStr name])
        | Some raw =>
          match unmarshal_strings raw with
          | None => Err (Fmt "task result %q is not a JSON-array: %w"
                           [TStr (task +:+ "." +:+ name); TErr json_error])
          | Some arr => Ok arr
          end
        end
      end
    end
  else Err (Fmt "unrecognised [*] reference %q" [TStr s]).

(** One argument: a whole-array reference is spliced, anything else goes
    through [sub]; [on_star_err] is what happens when the splice fails. *)
Definition subst_arg (sub : string -> Context -> result string)
    (on_star_err : string -> text -> result (list string)) (ctx : Context) (a : string)
    : result (list string) :=
  if isArrayStarRef a then
    match expandArrayStar a ctx with
    | Ok vals => Ok vals
    | Err e => on_star_err a e
    end
  else
    match sub a ctx with
    | Ok s => Ok [s]
    | Err e => Err e
    end.

Definition SubstituteArgs (args : list string) (ctx : Context) : result (list string) :=
  (@concat string) <$> collect (subst_arg Substitute (fun _ e => Err e) ctx) args.

Definition SubstituteArgsDeferStepRefs (args : list string) (ctx : Context) : result (list string) :=
  (@concat string) <$> collect (subst_arg SubstituteDeferStepRefs (fun _ e => Err e) ctx) args.

(** A failing splice is left for the outer pass. *)
Definition SubstituteArgsAllowStepRefs (args : list string) (ctx : Context) : result (list string) :=
  (@concat string) <$> collect (subst_arg SubstituteAllowStepRefs (fun a _ => Ok [a]) ctx) args.

(** ** Examples *)
Definition ex_ctx : Context :=
  mkContext {["who" := "world"]} {["a" := ["x"; "y"]]} ∅ {["t" := {["r" := marshal_strings ["1"; "2"]]}]}
    ∅ None "" None "" None ∅.

Example subst_ex1 : Substitute "hi $(params.who) $(date) $$(params.who) $(params.a[1])" ex_ctx
  = Ok "hi world $(date) $(params.who) y".
Proof. vm_compute. reflexivity. Qed.
Example subst_ex2 : SubstituteArgs ["a$(tasks.t.results.r[1])"; "$(tasks.t.results.r[*])"; "$(params.a[*])"] ex_ctx
  = Ok ["a2"; "1"; "2"; "x"; "y"].
Proof. vm_compute. reflexivity. Qed.
Example subst_ex3 : SubstituteDeferStepRefs "$(steps.a.results.b)" ex_ctx = Ok "$(steps.a.results.b)".
Proof. vm_compute. reflexivity. Qed.

(** ** Reference tokens *)

(** The text between [$(] and [)] of a reference. *)
Definition key_ok (key : string) : bool :=
  match key with
  | "" => false
  | String a k => is_alnum a && str_all ref_char k
  end.

Definition ref_text (key : string) : string := "$(" +:+ key +:+ ")".

Lemma alnum_ref_char a : is_alnum a = true -> ref_char a = true.
Proof. intros H. unfold ref_char, is_word. by rewrite H. Qed.

Lemma key_ok_all key : key_ok key = true -> str_all ref_char key = true.
Proof.
  destruct key as [|a k]; [done|]. simpl. intros [Ha Hk]%andb_true_iff.
  by rewrite alnum_ref_char, Hk.
Qed.

Lemma key_no_dollar key : key_ok key = true -> no_byte "$" key = true.
Proof. intros H%key_ok_all. by apply (str_all_no_byte ref_char). Qed.

Lemma key_no_nul key : key_ok key = true -> no_byte nul key = true.
Proof. intros H%key_ok_all. by apply (str_all_no_byte ref_char). Qed.

(** A well-formed token is recognised whatever follows it. *)
Lemma match_here_ref key rest :
  key_ok key = true -> match_here refPat (ref_text key +:+ rest) = Some (rest, [(1, key)]).
Proof.
  destruct key as [|a k]; [done|]. simpl. intros [Ha Hk]%andb_true_iff.
  unfold ref_text, refPat, match_here.
  rewrite <-!str_app_assoc, str_app_cons, (str_app_cons "("), str_app_nil_l.
  cbn [rmatch strip_prefix].
  rewrite !Ascii.eqb_refl. rewrite !str_app_cons, str_app_nil_l. cbv beta iota. rewrite Ha.
  eapply star_match_greedy; [done|done|].
  cbn [strip_prefix]. rewrite Ascii.eqb_refl.
  change (String a (k +:+ String ")" rest)) with (String a k +:+ String ")" rest).
  by rewrite consumed_app.
Qed.

(** Only well-formed tokens are recognised. *)
Lemma match_here_ref_inv s rest c :
  match_here refPat s = Some (rest, c) ->
  exists key, key_ok key = true /\ s = ref_text key +:+ rest /\ c = [(1, key)].
Proof.
  unfold match_here, refPat. cbn [rmatch].
  destruct (strip_prefix "$(" s) as [t|] eqn:E; [|done]. apply strip_prefix_Some in E as ->.
  destruct t as [|a t]; [done|]. destruct (is_alnum a) eqn:Ha; [|done].
  intros (u & v & -> & Hu & Hk)%star_match_inv.
  destruct (strip_prefix ")" v) as [w|] eqn:E; [|done]. apply strip_prefix_Some in E as ->.
  injection Hk as -> <-. exists (String a u). split; [simpl; by rewrite Ha, Hu|].
  split.
  - unfold ref_text. by rewrite <-!str_app_assoc.
  - change (String a (u +:+ ")" +:+ rest)) with (String a u +:+ ")" +:+ rest).
    by rewrite consumed_app.
Qed.

Lemma refPat_lit : starts_with_lit "$" refPat.
Proof. by eexists "(", _. Qed.

Lemma segments_ref key rest :
  key_ok key = true ->
  segments refPat (ref_text key +:+ rest) = SMatch (ref_text key) [(1, key)] :: segments refPat rest.
Proof.
  intros Hk. pose proof (match_here_ref key rest Hk) as Hm.
  unfold ref_text in *. rewrite !str_app_cons in *.
  by apply segments_cons_match.
Qed.

Lemma segments_byte a rest :
  a <> "$"%char -> segments refPat (String a rest) = SByte a :: segments refPat rest.
Proof. intros Ha. apply segments_cons_byte. eapply match_here_lit_None; [apply refPat_lit|done]. Qed.

Lemma segments_plain v rest :
  no_byte "$" v = true ->
  segments refPat (v +:+ rest) = (SByte <$> String.list_ascii_of_string v) ++ segments refPat rest.
Proof.
  induction v as [|a v IH]; [done|]. simpl. intros [Ha%negb_true_iff%Ascii.eqb_neq Hv]%andb_true_iff.
  rewrite str_app_cons, segments_byte by done. by rewrite IH.
Qed.

(** Every match of a scan is a well-formed token. *)
Lemma segments_wf s g :
  g ∈ segments refPat s ->
  match g with SByte _ => True | SMatch m c => exists key, key_ok key = true /\ m = ref_text key /\ c = [(1, key)] end.
Proof.
  remember (String.length s) as n eqn:Hn. revert s Hn.
  induction n as [n IH] using lt_wf_ind; intros [|a s] ->; [set_solver|].
  destruct (match_here refPat (String a s)) as [[rest c]|] eqn:Hm.
  - apply match_here_ref_inv in Hm as (key & Hk & Heq & ->). rewrite Heq, segments_ref by done.
    intros [->|Hin]%elem_of_cons; [by exists key|].
    eapply (IH (String.length rest)); [|done|done].
    rewrite Heq. unfold ref_text. rewrite !str_length_app. simpl. lia.
  - rewrite segments_cons_byte by done. intros [->|Hin]%elem_of_cons; [done|].
    eapply (IH (String.length s)); [simpl; lia|done|done].
Qed.

(** ** [collect] over segments *)

Lemma collect_app {A B} (f : A -> result B) l1 l2 :
  collect f (l1 ++ l2) =
    match collect f l1 with
    | Err e => Err e
    | Ok y1 => match collect f l2 with Err e => Err e | Ok y2 => Ok (y1 ++ y2) end
    end.
Proof.
  induction l1 as [|x l1 IH]; simpl; [by destruct (collect f l2)|].
  destruct (f x); [|done]. rewrite IH. destruct (collect f l1); [|done].
  by destruct (collect f l2).
Qed.

Lemma collect_bytes ctx mode v :
  collect (subst_segment ctx mode) (SByte <$> String.list_ascii_of_string v)
    = Ok ((fun a => String a "") <$> String.list_ascii_of_string v).
Proof.
  induction v as [|a v IH]; [done|]. cbn [String.list_ascii_of_string]. rewrite !fmap_cons.
  cbn [collect subst_segment]. by rewrite IH.
Qed.

Lemma concat_str_app l1 l2 : concat_str (l1 ++ l2) = concat_str l1 +:+ concat_str l2.
Proof. induction l1 as [|x l1 IH]; [done|]. simpl. by rewrite IH, str_app_assoc. Qed.

Lemma concat_str_bytes v :
  concat_str ((fun a => String a "") <$> String.list_ascii_of_string v) = v.
Proof.
  induction v as [|a v IH]; [done|]. cbn [String.list_ascii_of_string]. rewrite fmap_cons.
  change (String a "" +:+ concat_str ((fun a => String a "") <$> String.list_ascii_of_string v) = String a v).
  by rewrite IH.
Qed.

(** Restoring the sentinel changes nothing in a text without NUL bytes. *)
Lemma replace_sentinel s : no_byte nul s = true -> replace_all s sentinel "$" = s.
Proof. apply (replace_all_no_byte nul ("DOLLAR" +:+ String nul "")). Qed.

(** ** Plain text *)
Lemma substitute_plain s ctx mode :
  no_byte "$" s = true -> no_byte nul s = true -> substitute s ctx mode = Ok s.
Proof.
  intros Hd Hn. unfold substitute. rewrite (replace_all_no_byte "$") by done.
  rewrite (segments_no_byte _ _ _ refPat_lit Hd), collect_bytes, concat_str_bytes.
  by rewrite replace_sentinel.
Qed.

(** ** Modes *)
Lemma lookupAllowDefer_Ok key ctx v : lookup key ctx = Ok v -> lookupAllowDefer key ctx = Ok v.
Proof. intros H. unfold lookupAllowDefer. by rewrite H. Qed.

Lemma lookupAllowDefer_literal key ctx e :
  lookup key ctx = Err e -> errors_is e errLeaveLiteral = true -> lookupAllowDefer key ctx = Err e.
Proof. intros H He. unfold lookupAllowDefer. by rewrite H, He, orb_true_r. Qed.

Lemma subst_segment_modes ctx mode g t :
  subst_segment ctx modeStrict g = Ok t -> subst_segment ctx mode g = Ok t.
Proof.
  destruct g as [a|m c]; [done|]. unfold subst_segment.
  destruct (lookup (group 1 c) ctx) as [v|e] eqn:Hl.
  - intros [= ->]. destruct mode; [done..|]. by rewrite (lookupAllowDefer_Ok _ _ _ Hl).
  - destruct (errors_is e errLeaveLiteral) eqn:He; [|by rewrite bool_decide_true].
    intros [= ->]. destruct mode; [by rewrite He|by rewrite He|].
    by rewrite (lookupAllowDefer_literal _ _ _ Hl He), He.
Qed.

Lemma collect_impl {A B} (f g : A -> result B) l ys :
  (forall x y, f x = Ok y -> g x = Ok y) -> collect f l = Ok ys -> collect g l = Ok ys.
Proof.
  intros Hfg. rewrite !collect_ok_Forall2. intros HF. eapply Forall2_impl; [exact HF|].
  intros x y. apply Hfg.
Qed.

(** ** Two passes: a StepAction body, then the Task *)

(** Every dollar of [s] starts a reference, and there is no NUL byte. *)
Definition refs_only (s : string) : Prop :=
  forall g, g ∈ segments refPat s ->
    match g with SByte a => a <> "$"%char /\ a <> nul | SMatch _ _ => True end.

(** A replacement value without dollars or NUL bytes. *)
Definition inert (v : string) : Prop := no_byte "$" v = true /\ no_byte nul v = true.

(** A piece of output: inert text or a reference left in place. *)
Definition piece (t : string) : Prop :=
  inert t \/ exists key, key_ok key = true /\ t = ref_text key.

Lemma replace_dollars_inert v rest :
  no_byte "$" v = true ->
  replace_all (v +:+ rest) "$$" sentinel = v +:+ replace_all rest "$$" sentinel.
Proof.
  unfold replace_all. induction v as [|a v IH]; [done|]. cbn [no_byte].
  intros [Ha%negb_true_iff%Ascii.eqb_neq Hv]%andb_true_iff.
  rewrite !str_app_cons. cbn [replace_go]. unfold has_prefix. cbn [strip_prefix].
  destruct (Ascii.eqb_spec "$" a) as [<-|_]; [done|]. f_equal. by apply IH.
Qed.

Lemma replace_dollars_ref key rest :
  key_ok key = true ->
  replace_all (ref_text key +:+ rest) "$$" sentinel = ref_text key +:+ replace_all rest "$$" sentinel.
Proof.
  intros Hk%key_no_dollar. unfold ref_text. rewrite <-!str_app_assoc.
  change ("$(" +:+ ?t) with (String "$" (String "(" t)).
  unfold replace_all at 1. cbn [replace_go]. unfold has_prefix. cbn [strip_prefix].
  change (Ascii.eqb "$" "$") with true. change (Ascii.eqb "$" "(") with false. cbv iota.
  f_equal. f_equal.
  change (replace_go "$$" sentinel 0 ?t) with (replace_all t "$$" sentinel).
  rewrite replace_dollars_inert by done. reflexivity.
Qed.

Lemma replace_dollars_pieces parts :
  Forall piece parts -> replace_all (concat_str parts) "$$" sentinel = concat_str parts.
Proof.
  induction 1 as [|t parts [[Hd _]|(key & Hk & ->)] _ IH]; [done|..];
    change (concat_str (?x :: ?l)) with (x +:+ concat_str l).
  - by rewrite replace_dollars_inert, IH.
  - by rewrite replace_dollars_ref, IH.
Qed.

Lemma no_nul_pieces parts : Forall piece parts -> no_byte nul (concat_str parts) = true.
Proof.
  induction 1 as [|t parts Ht _ IH]; [done|].
  change (concat_str (?x :: ?l)) with (x +:+ concat_str l). rewrite no_byte_app, IH, andb_true_r.
  destruct Ht as [[_ ?]|(key & Hk & ->)]; [done|]. unfold ref_text.
  rewrite !no_byte_app. by rewrite (key_no_nul _ Hk).
Qed.

(** A text whose dollars all start references is made of pieces. *)
Lemma refs_only_pieces s :
  refs_only s -> Forall piece (seg_text <$> segments refPat s).
Proof.
  intros Hs. apply Forall_fmap, Forall_forall. intros [a|m c] Hg; simpl.
  - left. destruct (Hs _ Hg) as [Hd Hn]. split; simpl; rewrite andb_true_r;
      by apply negb_true_iff, Ascii.eqb_neq.
  - right. apply segments_wf in Hg as (key & Hk & -> & _). by exists key.
Qed.

Lemma segs_text_concat gs : segs_text gs = concat_str (seg_text <$> gs).
Proof.
  induction gs as [|g gs IH]; [done|].
  change (seg_text g +:+ segs_text gs = seg_text g +:+ concat_str (seg_text <$> gs)). by rewrite IH.
Qed.

Lemma concat_segments s : concat_str (seg_text <$> segments refPat s) = s.
Proof.
  rewrite <-segs_text_concat. apply segments_text, (starts_with_lit_nonempty "$"), refPat_lit.
Qed.

Lemma refs_only_replace s : refs_only s -> replace_all s "$$" sentinel = s.
Proof.
  intros Hs. rewrite <-(concat_segments s) at 1 2.
  by apply replace_dollars_pieces, refs_only_pieces.
Qed.

(** On a text of that kind one pass only needs [collect]. *)
Lemma substitute_refs_only s ctx mode parts :
  refs_only s ->
  collect (subst_segment ctx mode) (segments refPat s) = Ok parts ->
  Forall piece parts ->
  substitute s ctx mode = Ok (concat_str parts).
Proof.
  intros Hs Hc Hp. unfold substitute. rewrite refs_only_replace by done. rewrite Hc.
  by rewrite replace_sentinel by by apply no_nul_pieces.
Qed.

(** A StepAction's own context resolves references to inert text only. *)
Lemma lookup_params_inert params key v :
  (forall k w, params !! k = Some w -> inert w) -> key_ok key = true ->
  lookup key (params_context params) = Ok v -> inert v.
Proof.
  intros Hps Hk. pose proof (key_no_dollar _ Hk) as Hd. pose proof (key_no_nul _ Hk) as Hn.
  unfold lookup. destruct (negb _); [done|].
  destruct (has_prefix key "params."); [|destruct (has_prefix key "tasks.");
    [|destruct (has_prefix key "context."); [|destruct (has_prefix key "results.");
    [|destruct (has_prefix key "step.results."); [|destruct (has_prefix key "steps.");
    [|destruct (has_prefix key "workspaces."); [|done]]]]]]].
  - unfold lookupParam. destruct (has_suffix _ _); [done|]. simpl.
    destruct (params !! _) as [w|] eqn:E; [intros [= <-]; by eapply Hps|].
    destruct (match_anchored _ _); [by rewrite ?lookup_empty|].
    destruct (cut _ _) as [[o k]|]; [|done]. by rewrite ?lookup_empty.
  - unfold lookupTasks, lookupTaskResult. destruct (String.eqb _ _); [done|]. simpl.
    intros H. exfalso. revert H. rewrite ?lookup_empty. by repeat case_match.
  - simpl. by rewrite ?lookup_empty.
  - destruct (has_suffix _ _); [|done]. intros [= <-]. split;
      rewrite no_byte_app, no_byte_trim_suffix; auto using no_byte_trim_prefix.
  - by destruct (negb _).
  - unfold lookupSteps. intros H. exfalso. revert H. by repeat case_match.
  - unfold lookupWorkspace. destruct (cut_last _ _) as [[name attr]|] eqn:E; [|done].
    apply cut_last_Some in E.
    assert (Hname : inert name).
    { split; [pose proof (no_byte_trim_prefix _ _ "workspaces." Hd) as H'
             |pose proof (no_byte_trim_prefix _ _ "workspaces." Hn) as H'];
        rewrite E, no_byte_app in H'; by apply andb_true_iff in H' as [? _]. }
    simpl. rewrite ?lookup_empty.
    destruct (String.eqb attr "path").
    { intros [= <-]. destruct Hname as [H1 H2]. split; rewrite no_byte_app; [by rewrite H1|by rewrite H2]. }
    destruct (String.eqb attr "bound"); [done|].
    destruct (String.eqb attr "claim"); [by intros [= <-]|].
    destruct (String.eqb attr "volume"); [by intros [= <-]|done].
Qed.

Lemma lookupAllowDefer_inv key ctx v : lookupAllowDefer key ctx = Ok v -> lookup key ctx = Ok v.
Proof. unfold lookupAllowDefer. destruct (lookup key ctx); [done|]. by repeat case_match. Qed.

(** What the two passes do with one segment of the body: the StepAction's own
    scope first, the Task's scope for everything it leaves. *)
Definition two_pass_segment (inner outer : Context) (g : segment) : result string :=
  match g with
  | SByte a => Ok (String a "")
  | SMatch m c =>
    match lookupAllowDefer (group 1 c) inner with
    | Ok v => Ok v
    | Err _ => subst_segment outer modeDeferStep g
    end
  end.

(** First-pass output of a segment: a byte, an inert value, or the reference. *)
Definition first_pass_ok (inner : Context) (g : segment) (t : string) : Prop :=
  match g with
  | SByte a => t = String a "" /\ a <> "$"%char /\ a <> nul
  | SMatch m c =>
    exists key, key_ok key = true /\ m = ref_text key /\ c = [(1, key)] /\
      ((lookupAllowDefer key inner = Ok t /\ inert t) \/
       (is_ok (lookupAllowDefer key inner) = false /\ t = m))
  end.

Lemma first_pass params s parts :
  refs_only s -> (forall k w, params !! k = Some w -> inert w) ->
  collect (subst_segment (params_context params) modeDeferAll) (segments refPat s) = Ok parts ->
  Forall2 (first_pass_ok (params_context params)) (segments refPat s) parts.
Proof.
  intros Hs Hps Hc%collect_ok_Forall2.
  eapply Forall2_same_length_lookup_2; [by eapply Forall2_length|].
  intros i g t Hg Ht. pose proof (Forall2_lookup_lr _ _ _ _ _ _ Hc Hg Ht) as Hsub.
  apply list_elem_of_lookup_2 in Hg. pose proof (Hs _ Hg) as Hr.
  destruct g as [a|m c]; simpl in Hsub; [by injection Hsub as <-|].
  apply segments_wf in Hg as (key & Hk & -> & ->). exists key. split_and!; [done..|].
  unfold subst_segment in Hsub. change (group 1 [(1, key)]) with key in Hsub.
  destruct (lookupAllowDefer key _) as [v|e] eqn:E.
  - injection Hsub as ->. left. split; [done|].
    apply lookupAllowDefer_inv in E. by eapply lookup_params_inert.
  - right. split; [done|]. destruct (errors_is e errLeaveLiteral); [by injection Hsub|].
    destruct (errors_is e errStepRefDeferred); [by injection Hsub|done].
Qed.

Lemma first_pass_pieces inner gs parts :
  Forall2 (first_pass_ok inner) gs parts -> Forall piece parts.
Proof.
  induction 1 as [|g t gs parts Hg _ IH]; constructor; [|done].
  destruct g as [a|m c]; simpl in Hg.
  - destruct Hg as (-> & Hd & Hn). left. split; simpl; rewrite andb_true_r;
      by apply negb_true_iff, Ascii.eqb_neq.
  - destruct Hg as (key & Hk & -> & -> & [[_ Hi]|[_ ->]]); [by left|right; by exists key].
Qed.

Lemma concat_fmap_collect_app (r1 r2 : result (list string)) p t :
  concat_str p = t ->
  (concat_str <$> r1) = (concat_str <$> r2) ->
  (concat_str <$> (match r1 with Err e => Err e | Ok y => Ok (p ++ y) end)) =
  (concat_str <$> (match r2 with Err e => Err e | Ok y => Ok (t :: y) end)).
Proof.
  intros <-. destruct r1 as [y1|e1], r2 as [y2|e2]; simpl; intros H; simplify_eq; [|done].
  f_equal. rewrite concat_str_app, H. done.
Qed.

(** The second pass over the first pass's output. *)
Lemma second_pass inner outer gs parts :
  Forall2 (first_pass_ok inner) gs parts ->
  (concat_str <$> collect (subst_segment outer modeDeferStep) (segments refPat (concat_str parts)))
  = (concat_str <$> collect (two_pass_segment inner outer) gs).
Proof.
  induction 1 as [|g t gs parts Hg _ IH]; [done|].
  change (concat_str (t :: parts)) with (t +:+ concat_str parts). cbn [collect].
  destruct g as [a|m c]; simpl in Hg.
  - destruct Hg as (-> & Hd & _). rewrite str_app_cons, str_app_nil_l, segments_byte by done.
    cbn [collect two_pass_segment subst_segment].
    exact (concat_fmap_collect_app _ _ [String a ""] _ eq_refl IH).
  - destruct Hg as (key & Hk & -> & -> & [[Hl [Hd _]]|[Hl ->]]);
      cbn [two_pass_segment]; change (group 1 [(1, key)]) with key.
    + rewrite Hl, segments_plain, collect_app, collect_bytes by done.
      apply concat_fmap_collect_app; [apply concat_str_bytes|done].
    + destruct (lookupAllowDefer key inner); [done|].
      rewrite segments_ref by done. cbn [collect].
      destruct (subst_segment outer modeDeferStep _) as [v|e0]; [|done].
      exact (concat_fmap_collect_app _ _ [v] v (str_app_nil_r v) IH).
Qed.

(** ** Properties *)

(** What a text becomes, read from left to right: a well-formed reference is replaced by
    its value, one whose namespace is not Tekton's is kept as it stands, and every other byte
    is kept. *)
Inductive rendered (ctx : Context) : string -> string -> Prop :=
  | rendered_end : rendered ctx "" ""
  | rendered_ref key v s o :
      key_ok key = true -> namespaceOf key ∈ knownNamespaces -> lookup key ctx = Ok v ->
      rendered ctx s o -> rendered ctx (ref_text key +:+ s) (v +:+ o)
  | rendered_shell key s o :
      key_ok key = true -> namespaceOf key ∉ knownNamespaces ->
      rendered ctx s o -> rendered ctx (ref_text key +:+ s) (ref_text key +:+ o)
  | rendered_byte a s o :
      (forall key rest, key_ok key = true -> String a s <> ref_text key +:+ rest) ->
      rendered ctx s o -> rendered ctx (String a s) (String a o).

(** The values of the references a task's texts are made of. *)
Inductive denotes (ctx : Context) : string -> string -> Prop :=
  | denotes_param p v : has_suffix p "[*]" = false -> rc_Params ctx !! p = Some v -> denotes ctx ("params." +:+ p) v
  | denotes_context c v : rc_ContextVars ctx !! c = Some v -> denotes ctx ("context." +:+ c) v
  | denotes_result t r rs v :
      no_byte "." t = true -> rc_Results ctx !! t = Some rs -> rs !! r = Some v -> denotes ctx ("tasks." +:+ t +:+ ".results." +:+ r) v
  | denotes_path r : denotes ctx ("results." +:+ r +:+ ".path") ("/tekton/results/" +:+ r)
  | denotes_workspace w p : no_byte "." w = true -> p <> "" -> rc_WorkspacePaths ctx !! w = Some p -> denotes ctx ("workspaces." +:+ w +:+ ".path") p.

Lemma lookup_leave key ctx : namespaceOf key ∉ knownNamespaces -> lookup key ctx = Err errLeaveLiteral.
Proof.
  intros Hn. unfold lookup. destruct (existsb _ knownNamespaces) eqn:E; [|done]. exfalso. apply Hn.
  apply existsb_exists in E as (x & Hx & ->%String.eqb_eq). by apply list_elem_of_In.
Qed.

(** No lookup in one of Tekton's namespaces answers that the token is to be left. *)
Lemma lookup_not_left key ctx e :
  namespaceOf key ∈ knownNamespaces -> lookup key ctx = Err e -> errors_is e errLeaveLiteral = false.
Proof.
  intros Hns Hl. unfold lookup in Hl.
  assert (existsb (String.eqb (namespaceOf key)) knownNamespaces = true) as Hex.
  { apply existsb_exists. exists (namespaceOf key). split; [by apply list_elem_of_In|apply String.eqb_refl]. }
  rewrite Hex in Hl. cbn [negb] in Hl. apply not_true_is_false. intros He. destruct e as [n|]; [|done].
  assert (n = "not a tekton reference") as -> by (by apply String.eqb_eq).
  revert Hl. clear. unfold lookupParam, lookupTasks, lookupTaskResult, lookupSteps, lookupWorkspace, indexInto.
  repeat (case_match; try done).
Qed.

Lemma collect_cons {A B} (f : A -> result B) x l : collect f (x :: l) = (y ← f x; ys ← collect f l; Ok (y :: ys)).
Proof. cbn [collect]. destruct (f x); [|done]. by destruct (collect f l). Qed.

Lemma ref_text_head key : exists t, ref_text key = String "$" t.
Proof. by eexists. Qed.

Lemma segments_other a s :
  (forall key rest, key_ok key = true -> String a s <> ref_text key +:+ rest) -> segments refPat (String a s) = SByte a :: segments refPat s.
Proof.
  intros Hno. apply segments_cons_byte. destruct (match_here refPat (String a s)) as [[rest c]|] eqn:E; [|done].
  apply match_here_ref_inv in E as (key & Hk & E & _). by destruct (Hno key rest Hk).
Qed.

Lemma subst_rendered ctx n : forall t parts, String.length t <= n ->
  collect (subst_segment ctx modeStrict) (segments refPat t) = Ok parts -> rendered ctx t (concat_str parts).
Proof.
  induction n as [|n IH]; intros [|a t] parts Hn Hc; try (simpl in Hn; lia); try (injection Hc as <-; constructor).
  destruct (match_here refPat (String a t)) as [[rest c]|] eqn:E.
  - apply match_here_ref_inv in E as (key & Hk & E & _). rewrite E in Hc |- *. rewrite segments_ref, collect_cons in Hc by done.
    assert (String.length rest <= n) as Hr.
    { apply (f_equal String.length) in E. rewrite str_length_app in E. unfold ref_text in E. simpl in *. lia. }
    cbn [subst_segment] in Hc. change (group 1 [(1, key)]) with key in Hc.
    destruct (lookup key ctx) as [v|e] eqn:El.
    + simpl in Hc. destruct (collect _ (segments refPat rest)) as [ps|] eqn:Ec; [|done]. injection Hc as <-.
      apply (rendered_ref ctx key v rest (concat_str ps)); [done| |done|by apply IH].
      destruct (decide (namespaceOf key ∈ knownNamespaces)) as [?|Hns]; [done|]. by rewrite lookup_leave in El.
    + destruct (errors_is e errLeaveLiteral) eqn:He.
      * simpl in Hc. destruct (collect _ (segments refPat rest)) as [ps|] eqn:Ec; [|done]. injection Hc as <-.
        apply (rendered_shell ctx key rest (concat_str ps)); [done| |by apply IH]. intros Hns. by rewrite (lookup_not_left _ _ _ Hns El) in He.
      * rewrite bool_decide_true in Hc by done. done.
  - assert (forall key rest, key_ok key = true -> String a t <> ref_text key +:+ rest) as Hno.
    { intros key rest Hk Heq. by rewrite Heq, match_here_ref in E. }
    rewrite segments_other, collect_cons in Hc by done. simpl in Hc.
    destruct (collect _ (segments refPat t)) as [ps|] eqn:Ec; [|done]. injection Hc as <-.
    apply (rendered_byte ctx a t (concat_str ps)); [done|]. apply IH; [simpl in Hn; lia|done].
Qed.

Lemma rendered_subst ctx t o : rendered ctx t o ->
  exists parts, collect (subst_segment ctx modeStrict) (segments refPat t) = Ok parts /\ concat_str parts = o.
Proof.
  induction 1 as [|key v s o Hk Hns Hl _ (ps & Hc & <-)|key s o Hk Hns _ (ps & Hc & <-)|a s o Hno _ (ps & Hc & <-)]; [by exists []|..].
  - exists (v :: ps). rewrite segments_ref, collect_cons, Hc by done. cbn [subst_segment]. change (group 1 [(1, key)]) with key. by rewrite Hl.
  - exists (ref_text key :: ps). rewrite segments_ref, collect_cons, Hc by done. cbn [subst_segment]. change (group 1 [(1, key)]) with key.
    by rewrite lookup_leave.
  - exists (String a "" :: ps). by rewrite segments_other, collect_cons, Hc by done.
Qed.

Lemma denotes_lookup ctx key v : denotes ctx key v -> lookup key ctx = Ok v.
Proof.
  destruct 1 as [p v Hs Hp|c v Hc|t r rs v Ht Hrs Hr|r|w p Hw Hne Hp].
  - change (lookupParam (trim_prefix ("params." +:+ p) "params.") ctx = Ok v). rewrite trim_prefix_app. unfold lookupParam. by rewrite Hs, Hp.
  - change (match rc_ContextVars ctx !! trim_prefix ("context." +:+ c) "context." with Some v => Ok v
            | None => Err (Fmt "unknown context var %q" [TStr (trim_prefix ("context." +:+ c) "context.")]) end = Ok v).
    by rewrite trim_prefix_app, Hc.
  - change (lookupTasks ("tasks." +:+ t +:+ ".results." +:+ r) ctx = Ok v). unfold lookupTasks. rewrite trim_prefix_app.
    destruct (String.eqb_spec (t +:+ ".results." +:+ r) "status") as [E|_].
    { exfalso. assert (no_byte "." (t +:+ ".results." +:+ r) = true) as Hb by by rewrite E. rewrite no_byte_app in Hb. apply andb_true_iff in Hb as [_ Hb]. done. }
    cbn [split_n]. change (t +:+ ".results." +:+ r) with (t +:+ String "." ("results." +:+ r)). rewrite cut_byte_first by done.
    change ("results." +:+ r) with ("results" +:+ String "." r). rewrite cut_byte_first by done. unfold lookupTaskResult. by rewrite Hrs, Hr.
  - change ((if has_suffix (trim_prefix ("results." +:+ r +:+ ".path") "results.") ".path"
             then Ok ("/tekton/results/" +:+ trim_suffix (trim_prefix ("results." +:+ r +:+ ".path") "results.") ".path")
             else Err (Fmt "unknown results ref %q" [TStr ("results." +:+ r +:+ ".path")])) = Ok ("/tekton/results/" +:+ r)).
    rewrite trim_prefix_app, trim_suffix_app. rewrite (proj2 (has_suffix_true _ _)) by by exists r. done.
  - change (lookupWorkspace ("workspaces." +:+ w +:+ ".path") ctx = Ok p). unfold lookupWorkspace. rewrite trim_prefix_app.
    change (w +:+ ".path") with (w +:+ String "." "path"). rewrite cut_last_last by done. rewrite String.eqb_refl, Hp.
    by destruct (String.eqb_spec p "").
Qed.

(** C5: strict substitution resolves every reference.  It succeeds exactly when every
    reference of a Tekton namespace in the text has a value, and its result is the text with
    each such reference replaced by its value, every other byte kept: tokens outside Tekton's
    namespaces (shell [$(date)]) stand as they were, and $$ has become a dollar.  The value
    of a param, a context variable, a task's result, a result's path and a workspace's path
    is the one the task's scope holds. *)
Theorem Substitute_resolves_every_ref (s : string) (ctx : Context) :
  (forall out, Substitute s ctx = Ok out <->
     exists body, rendered ctx (replace_all s "$$" sentinel) body /\ out = replace_all body sentinel "$") /\
  (forall key v, denotes ctx key v -> lookup key ctx = Ok v).
Proof.
  split; [|apply denotes_lookup]. intros out. unfold Substitute, substitute. split.
  - destruct (collect _ _) as [parts|] eqn:Hc; [|done]. intros [= <-]. exists (concat_str parts). split; [|done]. by eapply subst_rendered.
  - intros (body & Hb & ->). apply rendered_subst in Hb as (parts & -> & ->). done.
Qed.

Lemma Substitute_resolves_every_ref_witness :
  Substitute "hi $(params.who) $(date)" ex_ctx = Ok "hi world $(date)" /\
  exists body, rendered ex_ctx (replace_all "hi $(params.who) $(date)" "$$" sentinel) body /\ "hi world $(date)" = replace_all body sentinel "$".
Proof.
  assert (Hs : Substitute "hi $(params.who) $(date)" ex_ctx = Ok "hi world $(date)") by (vm_compute; reflexivity).
  split; [exact Hs|]. exact (proj1 (proj1 (Substitute_resolves_every_ref "hi $(params.who) $(date)" ex_ctx) _) Hs).
Defined.

(** the three modes agree wherever the strict one succeeds: tolerance only
    changes what would have been an error. *)
Theorem substitute_modes_agree (s out : string) (ctx : Context) (mode : substMode) :
  Substitute s ctx = Ok out -> substitute s ctx mode = Ok out.
Proof.
  unfold Substitute, substitute. destruct (collect (subst_segment ctx modeStrict) _) as [parts|] eqn:Hc; [|done].
  intros [= <-]. by rewrite (collect_impl _ (subst_segment ctx mode) _ _ (subst_segment_modes ctx mode) Hc).
Qed.

Lemma substitute_modes_agree_witness :
  SubstituteAllowStepRefs "$(params.who)$$" ex_ctx = Ok "world$".
Proof. apply (substitute_modes_agree "$(params.who)$$" "world$" ex_ctx modeDeferAll). vm_compute. reflexivity. Defined.

(** the two passes over a StepAction body (its own params first, the Task
    scope for what that leaves) are one pass that tries the StepAction's scope and
    then the Task's, for a body whose dollars all start references and for inert
    param values. *)
Theorem step_action_two_passes (s s' : string) (params : gmap string string) (outer : Context) :
  refs_only s -> (forall k v, params !! k = Some v -> inert v) ->
  SubstituteAllowStepRefs s (params_context params) = Ok s' ->
  SubstituteDeferStepRefs s' outer =
    (fun parts => replace_all (concat_str parts) sentinel "$") <$>
      collect (two_pass_segment (params_context params) outer) (segments refPat s).
Proof.
  intros Hs Hps H1. unfold SubstituteAllowStepRefs, substitute in H1.
  rewrite refs_only_replace in H1 by done.
  destruct (collect _ _) as [parts|] eqn:Hc; [|done]. injection H1 as <-.
  apply first_pass in Hc; [|done|done]. pose proof (first_pass_pieces _ _ _ Hc) as Hp.
  rewrite replace_sentinel by by apply no_nul_pieces.
  unfold SubstituteDeferStepRefs, substitute. rewrite replace_dollars_pieces by done.
  pose proof (second_pass _ outer _ _ Hc) as H2.
  destruct (collect (subst_segment outer modeDeferStep) _) as [p1|e1],
    (collect (two_pass_segment _ outer) _) as [p2|e2]; simpl in H2 |- *; simplify_eq; [|done].
  by rewrite H2.
Qed.

Lemma step_action_two_passes_witness :
  exists s', SubstituteAllowStepRefs "run $(params.x) $(params.who)" (params_context {["x" := "1"]}) = Ok s' /\
    SubstituteDeferStepRefs s' ex_ctx = Ok "run 1 world".
Proof.
  eexists. split; [vm_compute; reflexivity|].
  rewrite (step_action_two_passes "run $(params.x) $(params.who)" _ {["x" := "1"]} ex_ctx).
  - vm_compute. reflexivity.
  - intros g Hg. vm_compute in Hg.
    repeat (apply elem_of_cons in Hg as [->|Hg]; [first [done | split; discriminate]|]). by apply not_elem_of_nil in Hg.
  - intros k v Hv. apply lookup_singleton_Some in Hv as [_ <-]. split; reflexivity.
  - vm_compute. reflexivity.
Defined.
