(* ===== verification/Run.v ===== *)
(** * internal/engine/run.go and the types it shares

    The run's input and outcome records, the loader's [Bundle], the backend's
    task contract, the reporter's events, and the param views of run.go.
    Clock readings ([Time], [Duration] of events and outcomes) are not part of
    the records. *)

From S2P Require Import Prelude GoStrings Sha256 TektonTypes.

(** ** internal/refresolver: what is asked of a resolver, and its answer *)
Record Request := mkRequest {
  rq_Kind : string;   (* "task" or "pipeline" *)
  rq_Resolver : string;
  rq_Params : gmap string string;
}.

Record Resolved := mkResolved {
  rv_Bytes : string;
  rv_Source : string;
  rv_SHA256 : string;
  rv_Cached : bool;
}.

(** ** internal/reporter/event.go *)
Inductive EventKind :=
  | EvtRunStart | EvtRunEnd | EvtTaskStart | EvtTaskEnd | EvtTaskSkip | EvtTaskRetry
  | EvtStepStart | EvtStepEnd | EvtStepLog
  | EvtSidecarStart | EvtSidecarEnd | EvtSidecarLog
  | EvtError | EvtResolverStart | EvtResolverEnd | EvtDebug.

#[export] Instance EventKind_eq_dec : EqDecision EventKind.
Proof. solve_decision. Defined.

Record MatrixEvent := mkMatrixEvent {
  me_Parent : string;
  me_Index : Z;
  me_Of : Z;
  me_Params : gmap string string;
}.

(** The values of [Event.Results] and [RunResult.Results]. *)
Inductive result_value :=
  | RVString (s : string)
  | RVArray (l : list string)
  | RVObject (m : gmap string string).

Record Event := mkEvent {
  evt_Kind : EventKind;
  evt_RunID : string;
  evt_Pipeline : string;
  evt_Task : string;
  evt_Status : string;
  evt_Message : text;
  evt_Attempt : Z;
  evt_Results : gmap string result_value;
  evt_DisplayName : string;
  evt_Description : string;
  evt_Resolver : string;
  evt_Matrix : option MatrixEvent;
}.

(** ** internal/backend/backend.go *)
Definition TaskSucceeded := "succeeded".
Definition TaskFailed := "failed".
Definition TaskInfraFailed := "infrafailed".
Definition TaskNotRun := "not-run".
Definition TaskSkipped := "skipped".
Definition TaskTimeout := "timeout".

Record WorkspaceMount := mkWorkspaceMount {
  wm_HostPath : string;
  wm_ReadOnly : bool;
  wm_SubPath : string;
}.

Record TaskInvocation `{K : CoreV1} := mkTaskInvocation {
  inv_RunID : string;
  inv_PipelineRun : string;
  inv_TaskName : string;
  inv_TaskRunName : string;
  inv_Task : TaskSpec;
  inv_Params : gmap string ParamValue;
  inv_Workspaces : gmap string WorkspaceMount;
  inv_ContextVars : gmap string string;
  inv_ResultsHost : string;
  inv_VolumeHosts : gmap string string;
}.

(** [TaskResult], without the per-step summary and the clock readings. *)
Record TaskResult := mkTaskResult {
  res_Status : string;
  res_Results : option (gmap string string);
  res_Err : option text;
}.

(** ** internal/loader/loader.go: [Bundle] *)
Record Bundle `{K : CoreV1} := mkBundle {
  b_Tasks : gmap string Task;
  b_Pipelines : gmap string Pipeline;
  b_PipelineRuns : list PipelineRun;
  b_StepActions : gmap string StepAction;
}.

Arguments mkTaskInvocation {K}.
Arguments mkBundle {K}.

(** ** internal/engine/run.go *)
Record PipelineInput `{K : CoreV1} := mkPipelineInput {
  in_Bundle : Bundle;
  in_Name : string;
  in_Params : gmap string ParamValue;
  in_Workspaces : gmap string string;
  in_RunID : string;
}.

Arguments mkPipelineInput {K}.

(** crypto/rand: the bytes read. *)
Class Entropy := rand_byte : nat -> Z.

(** Six random bytes, in hex. *)
Definition newRunID `{Entropy} : string := hex (map rand_byte (seq 0 6)).

(** The caller's run ID, or a new one. *)
Definition run_id `{K : CoreV1} `{Entropy} (i : PipelineInput) : string :=
  if String.eqb (in_RunID i) "" then newRunID else in_RunID i.

Inductive skipKind := skipNone | skipWhen | skipBlocked | skipStopped.

#[export] Instance skipKind_eq_dec : EqDecision skipKind.
Proof. solve_decision. Defined.

(** [Results] is [None] for the nil map. *)
Record TaskOutcome := mkTaskOutcome {
  oc_Status : string;
  oc_Message : text;
  oc_Results : option (gmap string string);
  oc_Attempt : Z;
  oc_Matrix : option MatrixInfo;
  oc_skip : skipKind;
}.

(** [TaskOutcome{Status: status, Message: msg}] *)
Definition outcome (status : string) (msg : text) : TaskOutcome :=
  mkTaskOutcome status msg None 0 None skipNone.

Definition oc_set_Attempt (oc : TaskOutcome) (n : Z) : TaskOutcome :=
  mkTaskOutcome (oc_Status oc) (oc_Message oc) (oc_Results oc) n (oc_Matrix oc) (oc_skip oc).
Definition oc_set_timeout (oc : TaskOutcome) (msg : text) : TaskOutcome :=
  mkTaskOutcome "timeout" msg (oc_Results oc) (oc_Attempt oc) (oc_Matrix oc) (oc_skip oc).
Definition oc_set_Matrix (oc : TaskOutcome) (mi : option MatrixInfo) : TaskOutcome :=
  mkTaskOutcome (oc_Status oc) (oc_Message oc) (oc_Results oc) (oc_Attempt oc) mi (oc_skip oc).
Definition oc_set_skip (oc : TaskOutcome) (k : skipKind) : TaskOutcome :=
  mkTaskOutcome (oc_Status oc) (oc_Message oc) (oc_Results oc) (oc_Attempt oc) (oc_Matrix oc) k.

(** [RunResult], without the cluster backend's [Reason] and [Message]. *)
Record RunResult := mkRunResult {
  rr_Status : string;
  rr_Tasks : gmap string TaskOutcome;
  rr_Results : gmap string result_value;
}.

Definition flattenStringParams (m : gmap string ParamValue) : gmap string string :=
  omap (fun v => if is_string_type (pv_Type v) then Some (pv_StringVal v) else None) m.

Definition arrayParams (m : gmap string ParamValue) : gmap string (list string) :=
  omap (fun v => if String.eqb (pv_Type v) ParamTypeArray then Some (pv_ArrayVal v) else None) m.

Definition objectParams (m : gmap string ParamValue) : gmap string (gmap string string) :=
  omap (fun v => if String.eqb (pv_Type v) ParamTypeObject then Some (pv_ObjectVal v) else None) m.

(** Declared defaults fill the params that were not given. *)
Definition apply_default (o : gmap string ParamValue) (d : ParamSpec) : result (gmap string ParamValue) :=
  match o !! ps_Name d with
  | Some _ => Ok o
  | None =>
    match ps_Default d with
    | None => Err (Fmt "param %q is required" [TStr (ps_Name d)])
    | Some v => Ok (<[ps_Name d := v]> o)
    end
  end.

Definition applyDefaults (declared : list ParamSpec) (given : gmap string ParamValue)
    : result (gmap string ParamValue) :=
  foldM apply_default given declared.

(** ** Param views *)

(** What [applyDefaults] binds [n] to: the given value, else the first declared
    default. *)
Definition default_of (declared : list ParamSpec) (n : string) : option ParamValue :=
  d ← List.find (fun d => String.eqb (ps_Name d) n) declared; ps_Default d.

Lemma applyDefaults_lookup declared given o n :
  applyDefaults declared given = Ok o ->
  o !! n = match given !! n with Some v => Some v | None => default_of declared n end.
Proof.
  unfold applyDefaults. revert given; induction declared as [|d declared IH]; intros given; simpl.
  { intros [= ->]. by destruct (o !! n). }
  unfold apply_default at 1. destruct (given !! ps_Name d) as [w|] eqn:Hd.
  - intros H%IH. rewrite H. destruct (given !! n) eqn:Hn; [done|].
    unfold default_of. simpl. destruct (String.eqb_spec (ps_Name d) n); [congruence|done].
  - destruct (ps_Default d) as [v|] eqn:Hv; [|done]. intros H%IH. rewrite H.
    destruct (decide (ps_Name d = n)) as [<-|Hne].
    + rewrite lookup_insert_eq, Hd. unfold default_of. simpl. rewrite String.eqb_refl. simpl. by rewrite Hv.
    + rewrite lookup_insert_ne by done. destruct (given !! n); [done|].
      unfold default_of. simpl. by destruct (String.eqb_spec (ps_Name d) n).
Qed.

Lemma applyDefaults_err declared given e :
  applyDefaults declared given = Err e ->
  exists d, d ∈ declared /\ ps_Default d = None /\ given !! ps_Name d = None /\
    e = Fmt "param %q is required" [TStr (ps_Name d)].
Proof.
  unfold applyDefaults. revert given; induction declared as [|d declared IH]; intros given; simpl; [done|].
  unfold apply_default at 1. destruct (given !! ps_Name d) as [w|] eqn:Hd.
  - intros (d' & ? & ? & ? & ?)%IH. exists d'. set_solver.
  - destruct (ps_Default d) as [v|] eqn:Hv.
    + intros (d' & ? & ? & Hl & ?)%IH. exists d'. split_and!; [set_solver|done| |done].
      by apply lookup_insert_None in Hl as [? _].
    + intros [= <-]. exists d. set_solver.
Qed.

(** A value is in exactly one of the three views, by its type. *)
Lemma param_views_disjoint m k v :
  m !! k = Some v ->
  pv_Type v ∈ [ParamTypeString; ""; ParamTypeArray; ParamTypeObject] ->
  (flattenStringParams m !! k = Some (pv_StringVal v) /\ arrayParams m !! k = None /\ objectParams m !! k = None) \/
  (flattenStringParams m !! k = None /\ arrayParams m !! k = Some (pv_ArrayVal v) /\ objectParams m !! k = None) \/
  (flattenStringParams m !! k = None /\ arrayParams m !! k = None /\ objectParams m !! k = Some (pv_ObjectVal v)).
Proof.
  intros Hk Ht. unfold flattenStringParams, arrayParams, objectParams.
  rewrite !lookup_omap, Hk. simpl. unfold is_string_type.
  rewrite !elem_of_cons in Ht. destruct Ht as [->|[->|[->|[->|Hx]]]]; [auto..|].
  by apply not_elem_of_nil in Hx.
Qed.

(** ** Properties *)

(** [applyDefaults] succeeds exactly when every declared param without a
    default is given; the result then binds each name to the given value, else to
    its declared default, and to nothing else. *)
Theorem applyDefaults_correct (declared : list ParamSpec) (given : gmap string ParamValue) :
  (forall o, applyDefaults declared given = Ok o ->
    forall n, o !! n = match given !! n with Some v => Some v | None => default_of declared n end) /\
  (forall e, applyDefaults declared given = Err e ->
    exists d, d ∈ declared /\ ps_Default d = None /\ given !! ps_Name d = None /\
      e = Fmt "param %q is required" [TStr (ps_Name d)]) /\
  ((forall d, d ∈ declared -> ps_Default d = None -> is_Some (given !! ps_Name d)) ->
    is_ok (applyDefaults declared given) = true).
Proof.
  split_and!.
  - intros o Ho n. by apply applyDefaults_lookup.
  - apply applyDefaults_err.
  - intros Hall. destruct (applyDefaults declared given) as [|e] eqn:E; [done|].
    apply applyDefaults_err in E as (d & Hd & Hn & Hg & _). destruct (Hall d Hd Hn). congruence.
Qed.
