(* ===== verification/Matrix.v ===== *)
(** * internal/engine/matrix.go and [tektontypes.MaterializeMatrixRows]

    The fan-out of [PipelineTask.matrix] into expansion tasks, and the fold of
    the expansions' results back into the parent's name.  Go's [int] is kept at
    64 bits ([wrap64]) where the row count is computed; the odometer's indices
    are list positions. *)

From S2P Require Import Prelude GoStrings Regex Json TektonTypes Resolver Run.

Definition matrixMaxRows : Z := 256.

(** ** The odometer

    One increment of [idxs], the last position first; the flag is [done], set
    when every position wrapped to 0. *)
Fixpoint odometer (lens idxs : list nat) : list nat * bool :=
  match lens, idxs with
  | len :: lens', i :: idxs' =>
    let '(r, wrapped) := odometer lens' idxs' in
    if wrapped then (if S i <? len then (S i :: r, false) else (0 :: r, true))
    else (i :: r, false)
  | _, _ => ([], true)
  end.

(** The [for] loop: one row per index vector until [done].  [fuel] bounds the
    number of rows. *)
Fixpoint cross_loop {A} (row : list nat -> A) (lens : list nat) (fuel : nat) (idxs : list nat) : list A :=
  match fuel with
  | O => []
  | S f =>
    row idxs ::
    let '(idxs', done) := odometer lens idxs in
    if done then [] else cross_loop row lens f idxs'
  end.

(** How many index vectors there are. *)
Definition total_rows (lens : list nat) : nat := foldr Nat.mul 1 lens.

(** All index vectors, the first position slowest. *)
Fixpoint indices (lens : list nat) : list (list nat) :=
  match lens with
  | [] => [[]]
  | n :: lens' => flat_map (fun i => map (cons i) (indices lens')) (seq 0 n)
  end.

Definition mp_lens (mps : list MatrixParam) : list nat := map (fun mp => length (mp_Value mp)) mps.

(** [mp.Value[idxs[i]]] for every matrix param. *)
Definition row_values (mps : list MatrixParam) (idxs : list nat) : list (string * string) :=
  zip_with (fun mp i => (mp_Name mp, default "" (mp_Value mp !! i))) mps idxs.

(** [cross]: the product of the value counts, in 64-bit arithmetic. *)
Definition cross_count (mps : list MatrixParam) : Z :=
  match mps with
  | [] => 0%Z
  | _ => foldl (fun c mp => wrap64 (c * Z.of_nat (length (mp_Value mp)))) 1%Z mps
  end.

Definition cross_rows (mps : list MatrixParam) : list (list (string * string)) :=
  cross_loop (row_values mps) (mp_lens mps) (total_rows (mp_lens mps)) (map (fun _ => 0) mps).

Definition empty_param (mps : list MatrixParam) : option MatrixParam :=
  List.find (fun mp => Nat.eqb (length (mp_Value mp)) 0) mps.

(** ** Rows in the engine *)
Record matrixRow := mkmatrixRow {
  mr_params : list Param;
  mr_includeName : string;
}.

Definition row_param (nv : string * string) : Param := mkParam nv.1 (StringParam nv.2).

Definition include_row (inc : MatrixInclude) : matrixRow := mkmatrixRow (mi_Params inc) (mi_Name inc).

Definition rowName (parent : string) (idx : Z) (includeName : string) : string :=
  if negb (String.eqb includeName "") then includeName else parent +:+ "-" +:+ itoa idx.

Definition mergeParams (base row : list Param) : list Param := merge_named p_Name base row.

Definition rewriteRunAfter (input : list string) (rewrite : gmap string (list string)) : list string :=
  flat_map (fun dep => match rewrite !! dep with Some expansions => expansions | None => [dep] end) input.

Definition rowParamMap (ps : list Param) : gmap string string :=
  foldl (fun (m : gmap string string) p => <[p_Name p := pv_StringVal (p_Value p)]> m) ∅ ps.

(** ** [tektontypes.MaterializeMatrixRows]: the cluster backend's rows *)
Definition MatrixRow_of_values (nvs : list (string * string)) : MatrixRow :=
  mkMatrixRow (foldl (fun (m : gmap string string) nv => <[nv.1 := nv.2]> m) ∅ nvs) "".

Definition MatrixRow_of_include (inc : MatrixInclude) : MatrixRow :=
  mkMatrixRow
    (foldl (fun (m : gmap string string) p => <[p_Name p := pv_StringVal (p_Value p)]> m) ∅ (mi_Params inc))
    (mi_Name inc).

Section Expand.
Context {K : CoreV1}.

Definition materializeRows (pt : PipelineTask) (m : Matrix) : result (list matrixRow) :=
  match empty_param (mx_Params m) with
  | Some mp =>
    Err (Fmt "pipeline task %q matrix param %q must be a non-empty string list"
           [TStr (pt_Name pt); TStr (mp_Name mp)])
  | None =>
    let cross := cross_count (mx_Params m) in
    let total := wrap64 (cross + Z.of_nat (length (mx_Include m))) in
    if (matrixMaxRows <? total)%Z then
      Err (Fmt "pipeline task %q matrix would produce %d rows, exceeding the cap of %d"
             [TStr (pt_Name pt); TInt total; TInt matrixMaxRows])
    else
      Ok ((if (0 <? cross)%Z
           then map (fun nvs => mkmatrixRow (map row_param nvs) "") (cross_rows (mx_Params m))
           else [])
          ++ map include_row (mx_Include m))
  end.

Definition MaterializeMatrixRows (pt : PipelineTask) : list MatrixRow :=
  match pt_Matrix pt with
  | None => []
  | Some m =>
    match empty_param (mx_Params m) with
    | Some _ => []
    | None =>
      (if (0 <? cross_count (mx_Params m))%Z
       then map MatrixRow_of_values (cross_rows (mx_Params m))
       else [])
      ++ map MatrixRow_of_include (mx_Include m)
    end
  end.

Definition hasAnyMatrix (pl : Pipeline) : bool :=
  existsb (fun pt => match pt_Matrix pt with Some _ => true | None => false end) (all_tasks pl).

(** The expansion child of row [i] of [n]. *)
Definition expansion_child (pt : PipelineTask) (n : nat) (i : nat) (row : matrixRow) : PipelineTask :=
  mkPipelineTask (rowName (pt_Name pt) (Z.of_nat i) (mr_includeName row))
    (pt_DisplayName pt) (pt_TaskRef pt) (pt_TaskSpec pt)
    (mergeParams (pt_Params pt) (mr_params row))
    (pt_Workspaces pt) (pt_RunAfter pt) (pt_When pt) (pt_Retries pt) (pt_Timeout pt)
    None
    (Some (mkMatrixInfo (pt_Name pt) (Z.of_nat i) (Z.of_nat n) (rowParamMap (mr_params row))
             (mr_includeName row))).

Definition expansion_children (pt : PipelineTask) (rows : list matrixRow) : list PipelineTask :=
  imap (expansion_child pt (length rows)) rows.

(** One iteration of [expandList]: the tasks it appends, and [rewrite]. *)
Definition expand_step (st : list PipelineTask * gmap string (list string)) (pt : PipelineTask)
    : result (list PipelineTask * gmap string (list string)) :=
  match pt_Matrix pt with
  | None => Ok (st.1 ++ [pt], st.2)
  | Some m =>
    rows ← materializeRows pt m;
    let children := expansion_children pt rows in
    Ok (st.1 ++ children, <[pt_Name pt := map pt_Name children]> st.2)
  end.

Definition expandList (input : list PipelineTask) (rewrite : gmap string (list string))
    : result (list PipelineTask * gmap string (list string)) :=
  foldM expand_step ([], rewrite) input.

Definition rewrite_task (rewrite : gmap string (list string)) (pt : PipelineTask) : PipelineTask :=
  pt_set_RunAfter pt (rewriteRunAfter (pt_RunAfter pt) rewrite).

Definition expandMatrix (pl : Pipeline) : result Pipeline :=
  if negb (hasAnyMatrix pl) then Ok pl else
  '(newTasks, rewrite) ← expandList (spec_Tasks (pl_Spec pl)) ∅;
  '(newFinally, rewrite) ← expandList (spec_Finally (pl_Spec pl)) rewrite;
  Ok (pl_set_tasks pl (map (rewrite_task rewrite) newTasks) (map (rewrite_task rewrite) newFinally)).

(** ** Events *)
Definition matrixEventFromInfo (mi : option MatrixInfo) : option MatrixEvent :=
  mi ← mi;
  Some (mkMatrixEvent (inf_Parent mi) (inf_Index mi) (inf_Of mi) (inf_Params mi)).

Definition matrixEventFor (pt : PipelineTask) : option MatrixEvent :=
  mi ← pt_MatrixInfo pt;
  Some (mkMatrixEvent (inf_Parent mi) (inf_Index mi) (inf_Of mi) (inf_Params mi)).

(** ** Results *)

(** [results[n]], the nil map when absent. *)
Definition results_of (results : gmap string (gmap string string)) (n : string) : gmap string string :=
  default ∅ (results !! n).

(** [nameSet]: the result names of all expansions. *)
Definition result_names (expansionNames : list string) (results : gmap string (gmap string string))
    : gset string :=
  foldl (fun s n => s ∪ dom (results_of results n)) ∅ expansionNames.

(** [results[n][k]], "" when absent. *)
Definition result_column (expansionNames : list string) (results : gmap string (gmap string string))
    (k : string) : list string :=
  map (fun n => default "" (results_of results n !! k)) expansionNames.

(** [results[parent][k] = string(b)]: one name's column. *)
Definition aggregate_name (parent : string) (expansionNames : list string)
    (results : gmap string (gmap string string)) (k : string) : gmap string (gmap string string) :=
  <[parent := <[k := marshal_strings (result_column expansionNames results k)]>
                (results_of results parent)]> results.

Context `{MapRange}.

Definition aggregateMatrixResults (parent : string) (expansionNames : list string)
    (results : gmap string (gmap string string)) : gmap string (gmap string string) :=
  match expansionNames with
  | [] => results
  | _ =>
    let nameSet := result_names expansionNames results in
    if bool_decide (nameSet = ∅) then results
    else foldl (aggregate_name parent expansionNames) results (set_range (gset_to_gmap tt nameSet))
  end.

Definition same_parent (mi : MatrixInfo) (pt : PipelineTask) : bool :=
  match pt_MatrixInfo pt with
  | Some mi' => String.eqb (inf_Parent mi') (inf_Parent mi)
  | None => false
  end.

Definition expansionNamesOf (mi : option MatrixInfo) (pts : list PipelineTask) : list string :=
  match mi with
  | None => []
  | Some mi => map pt_Name (List.filter (same_parent mi) pts)
  end.

Definition siblingsAllTerminal (mi : option MatrixInfo) (pts : list PipelineTask)
    (outcomes : gmap string TaskOutcome) : bool :=
  match mi with
  | None => false
  | Some mi =>
    forallb (fun pt => negb (same_parent mi pt) || bool_decide (is_Some (outcomes !! pt_Name pt))) pts
  end.

Definition maybeAggregateMatrix (pt : PipelineTask) (pl : Pipeline)
    (outcomes : gmap string TaskOutcome) (results : gmap string (gmap string string))
    : gmap string (gmap string string) :=
  match pt_MatrixInfo pt with
  | None => results
  | Some mi =>
    if negb (siblingsAllTerminal (Some mi) (all_tasks pl) outcomes) then results
    else match results !! inf_Parent mi with
         | Some _ => results
         | None => aggregateMatrixResults (inf_Parent mi) (expansionNamesOf (Some mi) (all_tasks pl)) results
         end
  end.
End Expand.

(** ** The odometer visits every index vector once *)

(** The vectors from [idxs] on, in order. *)
Fixpoint rest_indices (lens idxs : list nat) : list (list nat) :=
  match lens, idxs with
  | n :: lens', i :: idxs' =>
    map (cons i) (rest_indices lens' idxs')
    ++ flat_map (fun j => map (cons j) (indices lens')) (seq (S i) (n - S i))
  | _, _ => [[]]
  end.

Lemma rest_indices_zeros lens :
  Forall (fun n => 0 < n) lens -> rest_indices lens (map (fun _ => 0) lens) = indices lens.
Proof.
  induction 1 as [|n lens Hn _ IH]; [done|]. simpl. rewrite IH.
  destruct n as [|n]; [lia|]. simpl. by rewrite Nat.sub_0_r.
Qed.

Lemma odometer_step lens idxs :
  Forall2 (fun i n => i < n) idxs lens ->
  let '(idxs', done) := odometer lens idxs in
  Forall2 (fun i n => i < n) idxs' lens /\
  (done = true -> idxs' = map (fun _ => 0) lens) /\
  rest_indices lens idxs = idxs :: if done then [] else rest_indices lens idxs'.
Proof.
  induction 1 as [|i n idxs lens Hi Hidxs IH]; simpl; [by split_and!|].
  assert (Forall (fun n => 0 < n) lens) as Hpos.
  { clear -Hidxs. induction Hidxs; constructor; [lia|done]. }
  destruct (odometer lens idxs) as [r wrapped]. destruct IH as (Hr & Hz & Hrest). destruct wrapped.
  - specialize (Hz eq_refl) as ->. destruct (S i <? n) eqn:Hlt.
    + apply Nat.ltb_lt in Hlt. split; [by constructor|]. split; [done|].
      rewrite Hrest. simpl. rewrite rest_indices_zeros by done.
      by replace (n - S i) with (S (n - S (S i))) by lia.
    + apply Nat.ltb_ge in Hlt. split; [constructor; [lia|done]|]. split; [done|].
      rewrite Hrest. by replace (n - S i) with 0 by lia.
  - split; [by constructor|]. split; [done|]. by rewrite Hrest.
Qed.

Lemma indices_length lens : length (indices lens) = total_rows lens.
Proof.
  induction lens as [|n lens IH]; [done|]. simpl. generalize 0.
  induction n as [|n IHn]; intros k; [done|].
  simpl. rewrite length_app, length_map, IH, IHn. unfold total_rows. lia.
Qed.

Lemma cross_loop_rest {A} (row : list nat -> A) lens idxs fuel :
  Forall2 (fun i n => i < n) idxs lens -> length (rest_indices lens idxs) <= fuel ->
  cross_loop row lens fuel idxs = map row (rest_indices lens idxs).
Proof.
  revert idxs; induction fuel as [|fuel IH]; intros idxs Hv Hf; pose proof (odometer_step lens idxs Hv) as Hs.
  - destruct (odometer lens idxs). destruct Hs as (_ & _ & Hs). rewrite Hs in Hf. simpl in Hf. lia.
  - simpl. destruct (odometer lens idxs) as [idxs' d]. destruct Hs as (Hv' & _ & Hs).
    rewrite Hs in Hf |- *. simpl. f_equal. destruct d; [done|]. apply IH; [done|].
    simpl in Hf. lia.
Qed.

(** Any fuel of at least the number of rows gives every row once, in order. *)
Lemma cross_loop_total {A} (row : list nat -> A) lens fuel :
  Forall (fun n => 0 < n) lens -> total_rows lens <= fuel ->
  cross_loop row lens fuel (map (fun _ => 0) lens) = map row (indices lens).
Proof.
  intros Hpos Hf. rewrite cross_loop_rest, rest_indices_zeros; [done|done| |].
  - clear Hf. induction Hpos; constructor; [lia|done].
  - rewrite rest_indices_zeros by done. by rewrite indices_length.
Qed.

(** ** The specification: the assignments of a value to every matrix param *)
Fixpoint assignments (mps : list MatrixParam) : list (list (string * string)) :=
  match mps with
  | [] => [[]]
  | mp :: mps' => flat_map (fun v => map (cons (mp_Name mp, v)) (assignments mps')) (mp_Value mp)
  end.

Lemma row_values_indices mps : map (row_values mps) (indices (mp_lens mps)) = assignments mps.
Proof.
  induction mps as [|mp mps IH]; [done|]. simpl. rewrite <- IH.
  assert (forall (l : list string) k, k + length l = length (mp_Value mp) -> drop k (mp_Value mp) = l ->
    map (row_values (mp :: mps)) (flat_map (fun i => map (cons i) (indices (mp_lens mps))) (seq k (length l))) =
    flat_map (fun v => map (cons (mp_Name mp, v)) (map (row_values mps) (indices (mp_lens mps)))) l) as Hgen.
  { induction l as [|v l IHl]; intros k Hk Hd; [done|]. simpl. rewrite map_app. f_equal.
    - rewrite !map_map. apply map_ext. intros idxs. unfold row_values. simpl. do 2 f_equal.
      assert (mp_Value mp !! k = Some v) as ->; [|done].
      rewrite <- (Nat.add_0_r k), <- lookup_drop, Hd. done.
    - apply IHl; [simpl in Hk; lia|]. rewrite <- Nat.add_1_r, <- drop_drop. by rewrite Hd. }
  by apply Hgen; [|rewrite drop_0].
Qed.

Lemma cross_rows_assignments mps :
  empty_param mps = None -> cross_rows mps = assignments mps.
Proof.
  intros He. unfold cross_rows. rewrite <- row_values_indices.
  replace (map (fun _ => 0) mps) with (map (fun _ => 0) (mp_lens mps)) by (unfold mp_lens; by rewrite map_map).
  apply cross_loop_total; [|done].
  unfold mp_lens. apply Forall_forall. intros n (mp & -> & Hin)%list_elem_of_fmap.
  pose proof (List.find_none _ _ He mp) as Hn. rewrite <- list_elem_of_In in Hn.
  specialize (Hn Hin). apply Nat.eqb_neq in Hn. lia.
Qed.

Lemma assignments_length mps : length (assignments mps) = total_rows (mp_lens mps).
Proof. by rewrite <- row_values_indices, length_map, indices_length. Qed.

(** ** The row count in 64-bit arithmetic *)
Definition true_cross (mps : list MatrixParam) : nat :=
  match mps with [] => 0 | _ => total_rows (mp_lens mps) end.

Lemma wrapped_product (mps : list MatrixParam) (c : Z) :
  Forall (fun mp => 0 < length (mp_Value mp)) mps ->
  (0 <= c)%Z -> (c * Z.of_nat (total_rows (mp_lens mps)) <= max_int)%Z ->
  foldl (fun c mp => wrap64 (c * Z.of_nat (length (mp_Value mp)))) c mps =
    (c * Z.of_nat (total_rows (mp_lens mps)))%Z.
Proof.
  intros Hpos. revert c; induction Hpos as [|mp mps Hmp Hmps IH]; intros c Hc Hle; [simpl; lia|].
  assert (0 < total_rows (mp_lens mps)) as Ht.
  { clear -Hmps. induction Hmps; [simpl; lia|]. unfold total_rows in *. simpl. nia. }
  change (total_rows (mp_lens (mp :: mps)))
    with (length (mp_Value mp) * total_rows (mp_lens mps)) in Hle |- *.
  simpl. rewrite wrap64_id by (unfold min_int, max_int in *; nia).
  rewrite IH by nia. nia.
Qed.

Lemma empty_param_None mps :
  empty_param mps = None -> Forall (fun mp => 0 < length (mp_Value mp)) mps.
Proof.
  intros He. apply Forall_forall. intros mp Hin%list_elem_of_In.
  pose proof (List.find_none _ _ He mp Hin) as Hn. apply Nat.eqb_neq in Hn. lia.
Qed.

Lemma cross_count_true mps :
  empty_param mps = None -> (Z.of_nat (true_cross mps) <= max_int)%Z ->
  cross_count mps = Z.of_nat (true_cross mps).
Proof.
  intros He Hle. destruct mps as [|mp mps]; [done|]. unfold cross_count, true_cross in *.
  rewrite wrapped_product; [lia|by apply empty_param_None|lia|]. simpl in *. lia.
Qed.

(** The rows a matrix stands for: every assignment, then every include. *)
Definition spec_rows (m : Matrix) : list matrixRow :=
  (match mx_Params m with
   | [] => []
   | mps => map (fun nvs => mkmatrixRow (map row_param nvs) "") (assignments mps)
   end) ++ map include_row (mx_Include m).

Lemma spec_rows_length m :
  length (spec_rows m) = true_cross (mx_Params m) + length (mx_Include m).
Proof.
  unfold spec_rows. rewrite length_app, length_map. f_equal.
  unfold true_cross. destruct (mx_Params m); [done|]. by rewrite length_map, assignments_length.
Qed.

Lemma true_cross_pos mp mps :
  Forall (fun mp => 0 < length (mp_Value mp)) (mp :: mps) -> 0 < true_cross (mp :: mps).
Proof.
  unfold true_cross. generalize (mp :: mps) as l. induction 1 as [|x l Hx _ IH]; [simpl; lia|].
  unfold total_rows in *. simpl. nia.
Qed.

Section ExpandFacts.
Context {K : CoreV1}.
Implicit Types (pt t : PipelineTask) (pl : Pipeline).

(** The cross-product part of both row builders, without overflow. *)
Lemma cross_part {A} (f : list (string * string) -> A) mps :
  empty_param mps = None -> (Z.of_nat (true_cross mps) <= max_int)%Z ->
  (if (0 <? cross_count mps)%Z then map f (cross_rows mps) else []) =
    match mps with [] => [] | _ => map f (assignments mps) end.
Proof.
  intros He Hle. rewrite cross_count_true by done. destruct mps as [|mp mps]; [done|].
  pose proof (true_cross_pos mp mps (empty_param_None _ He)).
  destruct (0 <? _)%Z eqn:E; [|lia]. by rewrite cross_rows_assignments.
Qed.

(** The tasks a PipelineTask becomes. *)
Definition expanded pt : list PipelineTask :=
  match pt_Matrix pt with
  | None => [pt]
  | Some m => match materializeRows pt m with Ok rows => expansion_children pt rows | Err _ => [] end
  end.

(** What a [runAfter] entry naming [d] waits on. *)
Definition expanded_names pl (d : string) : list string :=
  match List.find (fun t => String.eqb (pt_Name t) d) (all_tasks pl) with
  | Some t => map pt_Name (expanded t)
  | None => [d]
  end.

Lemma expand_step_ok st pt st' :
  expand_step st pt = Ok st' ->
  st'.1 = st.1 ++ expanded pt /\
  st'.2 = match pt_Matrix pt with None => st.2 | Some _ => <[pt_Name pt := map pt_Name (expanded pt)]> st.2 end.
Proof.
  unfold expand_step, expanded. destruct (pt_Matrix pt) as [m|]; [|by intros [= <-]].
  destruct (materializeRows pt m); simpl; [|done]. by intros [= <-].
Qed.

Lemma expandList_ok input st st' :
  foldM expand_step st input = Ok st' ->
  st'.1 = st.1 ++ flat_map expanded input /\
  (forall n, n ∉ map pt_Name input -> st'.2 !! n = st.2 !! n) /\
  (NoDup (map pt_Name input) -> forall pt, pt ∈ input ->
    st'.2 !! pt_Name pt = match pt_Matrix pt with
                          | None => st.2 !! pt_Name pt
                          | Some _ => Some (map pt_Name (expanded pt))
                          end).
Proof.
  revert st; induction input as [|pt input IH]; intros st; simpl.
  { intros [= ->]. split_and!; [by rewrite app_nil_r|done|]. intros _ pt Hpt. by apply not_elem_of_nil in Hpt. }
  destruct (expand_step st pt) as [st1|] eqn:E; [|done]. intros (H1 & H2 & H3)%IH.
  apply expand_step_ok in E as [E1 E2]. split_and!.
  - rewrite H1, E1. by rewrite app_assoc.
  - intros n [Hn Hni]%not_elem_of_cons. rewrite H2, E2 by done.
    destruct (pt_Matrix pt); [|done]. by rewrite lookup_insert_ne.
  - intros [Hpt Hnd]%NoDup_cons t [->|Ht]%elem_of_cons.
    + rewrite H2, E2 by done. destruct (pt_Matrix pt); [|done]. by rewrite lookup_insert_eq.
    + rewrite H3, E2 by done. destruct (pt_Matrix t); [done|]. destruct (pt_Matrix pt); [|done].
      rewrite lookup_insert_ne; [done|]. intros Heq. apply Hpt. rewrite Heq.
      by apply list_elem_of_fmap_2.
Qed.

Lemma expandList_err input st e :
  foldM expand_step st input = Err e ->
  exists pt m, pt ∈ input /\ pt_Matrix pt = Some m /\ materializeRows pt m = Err e.
Proof.
  revert st; induction input as [|pt input IH]; intros st; simpl; [done|].
  destruct (expand_step st pt) as [st1|] eqn:E.
  - intros (t & m & ? & ? & ?)%IH. exists t, m. split_and!; [by right|done|done].
  - intros [= ->]. unfold expand_step in E. destruct (pt_Matrix pt) as [m|] eqn:Hm; [|done].
    destruct (materializeRows pt m) eqn:Hr; [done|]. simpl in E. injection E as [= ->].
    exists pt, m. split_and!; [by left|done|done].
Qed.

Lemma find_unique pl t :
  NoDup (map pt_Name (all_tasks pl)) -> t ∈ all_tasks pl ->
  List.find (fun t' => String.eqb (pt_Name t') (pt_Name t)) (all_tasks pl) = Some t.
Proof.
  generalize (all_tasks pl) as l. induction l as [|x l IH]; intros Hnd Ht; [by apply not_elem_of_nil in Ht|].
  apply NoDup_cons in Hnd as [Hx Hnd]. simpl. apply elem_of_cons in Ht as [->|Ht].
  - by rewrite String.eqb_refl.
  - destruct (String.eqb_spec (pt_Name x) (pt_Name t)) as [Heq|]; [|by apply IH].
    destruct Hx. rewrite Heq. by apply list_elem_of_fmap_2.
Qed.

Lemma find_none_name pl d :
  d ∉ map pt_Name (all_tasks pl) ->
  List.find (fun t => String.eqb (pt_Name t) d) (all_tasks pl) = None.
Proof.
  intros Hd. destruct (List.find _ _) as [t|] eqn:E; [|done].
  apply List.find_some in E as [Ht Hn%String.eqb_eq]. destruct Hd. rewrite <- Hn.
  apply list_elem_of_fmap_2. by apply list_elem_of_In.
Qed.

Lemma rewriteRunAfter_names pl rw (deps : list string) :
  NoDup (map pt_Name (all_tasks pl)) ->
  (forall n, n ∉ map pt_Name (all_tasks pl) -> rw !! n = None) ->
  (forall t, t ∈ all_tasks pl -> rw !! pt_Name t =
    match pt_Matrix t with None => None | Some _ => Some (map pt_Name (expanded t)) end) ->
  rewriteRunAfter deps rw = flat_map (expanded_names pl) deps.
Proof.
  intros Hnd Hout Hin. apply flat_map_ext. intros d. unfold expanded_names.
  destruct (decide (d ∈ map pt_Name (all_tasks pl))) as [(t & -> & Ht)%list_elem_of_fmap|Hd].
  - rewrite find_unique, Hin by done. unfold expanded. destruct (pt_Matrix t) eqn:Hm; [|done].
    done.
  - by rewrite find_none_name, Hout.
Qed.

Lemma rewriteRunAfter_empty deps : rewriteRunAfter deps ∅ = deps.
Proof.
  unfold rewriteRunAfter. induction deps as [|d deps IH]; [done|]. simpl.
  rewrite lookup_empty. simpl. by f_equal.
Qed.

Lemma expand_nothing pl l :
  (forall t, t ∈ all_tasks pl -> pt_Matrix t = None) ->
  NoDup (map pt_Name (all_tasks pl)) -> l ⊆ all_tasks pl ->
  map (fun c => pt_set_RunAfter c (flat_map (expanded_names pl) (pt_RunAfter c))) (flat_map expanded l) = l.
Proof.
  intros Hm Hnd. induction l as [|t l IH]; intros Hl; [done|]. simpl.
  rewrite map_app, IH by (intros x ?; apply Hl, elem_of_cons; by right).
  assert (expanded t = [t]) as -> by (unfold expanded; rewrite Hm; [done|apply Hl, elem_of_cons; by left]).
  simpl. f_equal. rewrite <- (rewriteRunAfter_names pl ∅); [|done|done|].
  - rewrite rewriteRunAfter_empty. by destruct t.
  - intros x Hx. rewrite Hm by done. done.
Qed.

Lemma hasAnyMatrix_false pl :
  hasAnyMatrix pl = false -> forall t, t ∈ all_tasks pl -> pt_Matrix t = None.
Proof.
  intros Hm t Ht%list_elem_of_In. destruct (pt_Matrix t) eqn:E; [|done].
  assert (hasAnyMatrix pl = true); [|congruence].
  apply existsb_exists. exists t. by rewrite E.
Qed.

Lemma expand_tasks_err pl l rw e :
  (forall t, t ∈ l -> t ∈ all_tasks pl) -> expandList l rw = Err e ->
  exists pt m, pt ∈ all_tasks pl /\ pt_Matrix pt = Some m /\ materializeRows pt m = Err e.
Proof. intros Hl (t & m & ? & ? & ?)%expandList_err. exists t, m. auto. Qed.

(** The two passes together: the tasks, and the rewrite map they leave. *)
Lemma expand_both pl nt nf rw rw' :
  NoDup (map pt_Name (all_tasks pl)) ->
  expandList (spec_Tasks (pl_Spec pl)) ∅ = Ok (nt, rw) ->
  expandList (spec_Finally (pl_Spec pl)) rw = Ok (nf, rw') ->
  nt = flat_map expanded (spec_Tasks (pl_Spec pl)) /\
  nf = flat_map expanded (spec_Finally (pl_Spec pl)) /\
  (forall deps, rewriteRunAfter deps rw' = flat_map (expanded_names pl) deps).
Proof.
  intros Hnd (R1 & R2 & R3)%expandList_ok (S1 & S2 & S3)%expandList_ok. simpl in *.
  split_and!; [done|done|]. intros deps. apply rewriteRunAfter_names; [done|..].
  - unfold all_tasks. rewrite map_app. intros n [H1 H2]%not_elem_of_app.
    by rewrite S2, R2, lookup_empty.
  - unfold all_tasks in *. rewrite map_app in Hnd. apply NoDup_app in Hnd as (Hn1 & Hdis & Hn2).
    intros t [Ht|Ht]%elem_of_app.
    + rewrite S2 by (apply Hdis, list_elem_of_fmap_2, Ht). rewrite R3 by done.
      by rewrite lookup_empty.
    + rewrite S3 by done. destruct (pt_Matrix t); [done|]. rewrite R2; [by rewrite lookup_empty|].
      intros Hin. apply (Hdis _ Hin), list_elem_of_fmap_2, Ht.
Qed.
End ExpandFacts.

(** ** The parent's results *)
Section AggregateFacts.
Context {K : CoreV1} `{MapRange}.
Implicit Types (results : gmap string (gmap string string)) (names : list string).

Lemma elem_of_result_names names results k :
  k ∈ result_names names results <-> exists n, n ∈ names /\ is_Some (results_of results n !! k).
Proof.
  unfold result_names. induction names as [|n names IH] using rev_ind; simpl.
  - split; [by intros ?%not_elem_of_empty|]. by intros (n & Hn%not_elem_of_nil & _).
  - rewrite foldl_app. simpl. rewrite elem_of_union, IH, elem_of_dom. setoid_rewrite elem_of_app.
    setoid_rewrite list_elem_of_singleton. split.
    + intros [(x & ? & ?)|?]; [exists x; auto|exists n; auto].
    + intros (x & [?| ->] & ?); [left; by exists x|by right].
Qed.

Lemma aggregate_name_lookup parent names results k n k' :
  results_of (aggregate_name parent names results k) n !! k' =
    if decide (n = parent /\ k' = k) then Some (marshal_strings (result_column names results k))
    else results_of results n !! k'.
Proof.
  unfold aggregate_name, results_of at 1. destruct (decide (n = parent)) as [->|Hn].
  - rewrite lookup_insert_eq. simpl. destruct (decide (k' = k)) as [->|Hk].
    + by rewrite lookup_insert_eq, decide_True.
    + rewrite lookup_insert_ne, decide_False by (done || by intros [_ ?]). done.
  - rewrite lookup_insert_ne, decide_False by (done || by intros [? _]). done.
Qed.

Lemma aggregate_name_column parent names results k k' :
  k <> k' -> result_column names (aggregate_name parent names results k) k' = result_column names results k'.
Proof.
  intros Hk. apply map_ext. intros n. rewrite aggregate_name_lookup, decide_False; [done|].
  by intros [_ ?].
Qed.

Lemma aggregate_fold_lookup parent names ks results n k :
  NoDup ks ->
  results_of (foldl (aggregate_name parent names) results ks) n !! k =
    if decide (n = parent /\ k ∈ ks) then Some (marshal_strings (result_column names results k))
    else results_of results n !! k.
Proof.
  intros Hnd. revert results. induction Hnd as [|k0 ks Hk0 Hnd IH]; intros results; simpl.
  { rewrite decide_False; [done|]. by intros [_ ?%not_elem_of_nil]. }
  rewrite IH, aggregate_name_lookup. destruct (decide (n = parent)) as [->|Hn].
  - destruct (decide (k = k0)) as [->|Hk].
    + rewrite decide_False by tauto. rewrite !decide_True; [done| |done].
      split; [done|by apply elem_of_cons; left].
    + destruct (decide (k ∈ ks)) as [Hin|Hin].
      * rewrite decide_True by done.
        rewrite decide_True by (split; [done|by apply elem_of_cons; right]).
        by rewrite aggregate_name_column by congruence.
      * rewrite decide_False by (intros [_ ?]; done). rewrite decide_False by tauto.
        rewrite decide_False; [done|]. intros [_ [?|?]%elem_of_cons]; done.
  - rewrite !decide_False by tauto. done.
Qed.

Lemma aggregate_lookup parent names results n k :
  results_of (aggregateMatrixResults parent names results) n !! k =
    if decide (n = parent /\ k ∈ result_names names results)
    then Some (marshal_strings (result_column names results k))
    else results_of results n !! k.
Proof.
  unfold aggregateMatrixResults. destruct names as [|n0 names].
  { rewrite decide_False; [done|]. by intros [_ ?%not_elem_of_empty]. }
  remember (n0 :: names) as l eqn:Hl. clear Hl. case_bool_decide as He.
  - rewrite decide_False; [done|]. rewrite He. by intros [_ ?%not_elem_of_empty].
  - rewrite aggregate_fold_lookup by apply map_range_keys_NoDup.
    assert (forall k, k ∈ set_range (gset_to_gmap () (result_names l results)) <->
                      k ∈ result_names l results) as Hk.
    { intros k'. unfold set_range. rewrite elem_of_map_range_keys, lookup_gset_to_gmap.
      destruct (decide (k' ∈ result_names l results)).
      - by rewrite option_guard_True.
      - rewrite option_guard_False by done. split; [by intros [? ?]|done]. }
    destruct (decide (n = parent /\ k ∈ result_names l results)) as [[? ?]|Hd].
    + rewrite decide_True; [done|]. by rewrite Hk.
    + rewrite decide_False; [done|]. by rewrite Hk.
Qed.

Lemma siblingsAllTerminal_true mi pts outcomes :
  siblingsAllTerminal (Some mi) pts outcomes = true <->
  (forall t mi', t ∈ pts -> pt_MatrixInfo t = Some mi' -> inf_Parent mi' = inf_Parent mi ->
     is_Some (outcomes !! pt_Name t)).
Proof.
  unfold siblingsAllTerminal. rewrite forallb_forall. unfold same_parent. split.
  - intros Hall t mi' Ht%list_elem_of_In Hmi Hp. specialize (Hall t Ht). rewrite Hmi, Hp, String.eqb_refl in Hall.
    by apply bool_decide_eq_true in Hall.
  - intros Hall t Ht%list_elem_of_In. destruct (pt_MatrixInfo t) as [mi'|] eqn:Hmi; [|done].
    destruct (String.eqb_spec (inf_Parent mi') (inf_Parent mi)); [|done].
    apply bool_decide_eq_true. by apply (Hall t mi').
Qed.
End AggregateFacts.

(** ** [$(tasks.<parent>.results.<name>[*])] *)
Definition name_byte (a : ascii) : bool := is_word a || Ascii.eqb a "-".

(** The reference a consumer writes. *)
Definition star_ref (parent k : string) : string :=
  "$(tasks." +:+ (parent +:+ ".results." +:+ k) +:+ "[*])".

Lemma name_byte_star a : name_byte a = true -> star_char a = true.
Proof. by destruct a as [[] [] [] [] [] [] [] []]. Qed.

Lemma isArrayStarRef_star_ref parent k :
  str_all name_byte parent = true -> str_all name_byte k = true ->
  isArrayStarRef (star_ref parent k) = true.
Proof.
  intros Hp Hk. unfold isArrayStarRef, match_anchored, match_here, arrayStarRefPat, star_ref.
  rewrite !str_app_cons, str_app_nil_l. cbn [rmatch strip_prefix Ascii.eqb Bool.eqb].
  match goal with |- context [star_match ?p ?s ?kk] => generalize (star_match_complete p
    (parent +:+ ".results." +:+ k) "[*])" kk); intros Hs;
    change s with ((parent +:+ ".results." +:+ k) +:+ "[*])");
    destruct (star_match p ((parent +:+ ".results." +:+ k) +:+ "[*])") kk) end; [done|].
  exfalso. apply Hs; [|done|done].
  rewrite !str_all_app. simpl.
  rewrite andb_true_iff. split; by eapply str_all_impl; [apply name_byte_star|].
Qed.

Lemma star_inner_app x : star_inner ("$(" +:+ x +:+ "[*])") = x.
Proof.
  unfold star_inner. rewrite !str_app_cons, str_app_nil_l. cbn [String.length String.substring].
  rewrite str_length_app. simpl. replace (String.length x + 4 - 4) with (String.length x) by lia.
  apply substring_prefix.
Qed.

Lemma expandArrayStar_star_ref parent k ctx l :
  no_byte "." parent = true -> forallb valid_utf8 l = true ->
  results_of (rc_Results ctx) parent !! k = Some (marshal_strings l) ->
  expandArrayStar (star_ref parent k) ctx = Ok l.
Proof.
  intros Hp Hl Hr. unfold expandArrayStar, star_ref.
  assert ("$(tasks." +:+ (parent +:+ ".results." +:+ k) +:+ "[*])" =
          "$(" +:+ ("tasks." +:+ (parent +:+ ".results." +:+ k)) +:+ "[*])") as ->.
  { by rewrite !str_app_assoc. }
  rewrite star_inner_app.
  assert (has_prefix ("tasks." +:+ (parent +:+ ".results." +:+ k)) "params." = false) as -> by done.
  rewrite has_prefix_app, trim_prefix_app.
  change ".results." with (String "." "results."). rewrite cut_first by done.
  unfold results_of in Hr. destruct (rc_Results ctx !! parent) as [rs|]; [|done].
  simpl in Hr. rewrite Hr. by rewrite unmarshal_marshal_strings.
Qed.

(** ** Examples *)
Section Examples.
#[local] Existing Instance core_unit.

Definition ex_matrix : Matrix :=
  mkMatrix [mkMatrixParam "os" ["linux"; "darwin"]; mkMatrixParam "go" ["1.21"; "1.22"]]
    [mkMatrixInclude "arm" [mkParam "os" (StringParam "arm64")]].

Definition ex_build : PipelineTask :=
  mkPipelineTask "build" "" None (Some zero_TaskSpec) [mkParam "os" (StringParam "none")] [] [] [] 0 ""
    (Some ex_matrix) None.

Definition ex_pl : Pipeline :=
  mkPipeline (mkObject "" "" (mkMetadata "p" "" ∅ ∅))
    (mkPipelineSpec "" "" [] [] [ex_build; plain_task "test" ["build"; "lint"] zero_TaskSpec;
                                 plain_task "lint" [] zero_TaskSpec] [] [] None).

(** [n] params of two values each. *)
Definition binary_matrix (n : nat) : Matrix :=
  mkMatrix (map (fun i => mkMatrixParam (itoa (Z.of_nat i)) ["0"; "1"]) (seq 0 n)) [].
End Examples.

(** ** Properties *)
Section MatrixProperties.
Context {K : CoreV1}.

(** unless the row count overflows 64 bits, [materializeRows] gives one row
    per assignment of a value to every matrix param, the first param slowest,
    then the include rows; it rejects exactly a param without values and more
    than 256 rows, naming the count. *)
Theorem materializeRows_correct (pt : PipelineTask) (m : Matrix) :
  (Z.of_nat (length (spec_rows m)) <= max_int)%Z ->
  materializeRows pt m =
    match empty_param (mx_Params m) with
    | Some mp =>
      Err (Fmt "pipeline task %q matrix param %q must be a non-empty string list"
             [TStr (pt_Name pt); TStr (mp_Name mp)])
    | None =>
      if 256 <? length (spec_rows m) then
        Err (Fmt "pipeline task %q matrix would produce %d rows, exceeding the cap of %d"
               [TStr (pt_Name pt); TInt (Z.of_nat (length (spec_rows m))); TInt 256])
      else Ok (spec_rows m)
    end.
Proof.
  intros Hle. unfold materializeRows. destruct (empty_param (mx_Params m)) eqn:He; [done|].
  rewrite spec_rows_length in Hle |- *.
  rewrite cross_count_true, wrap64_id by (done || unfold min_int, max_int in *; lia).
  rewrite <- Nat2Z.inj_add. unfold matrixMaxRows.
  destruct (256 <? Z.of_nat _)%Z eqn:E1, (256 <? _)%nat eqn:E2;
    rewrite ?Z.ltb_lt, ?Z.ltb_ge, ?Nat.ltb_lt, ?Nat.ltb_ge in *; [done|lia|lia|].
  assert (Z.of_nat (true_cross (mx_Params m)) <= max_int)%Z as Hc by lia.
  pose proof (cross_part (fun nvs => mkmatrixRow (map row_param nvs) "") _ He Hc) as Hp.
  rewrite cross_count_true in Hp by done. rewrite Hp. unfold spec_rows. by destruct (mx_Params m).
Qed.

(** The two materialisations agree on the rows. *)
Lemma MaterializeMatrixRows_rows (pt : PipelineTask) (m : Matrix) (rows : list matrixRow) :
  pt_Matrix pt = Some m -> materializeRows pt m = Ok rows ->
  MaterializeMatrixRows pt = map (fun r => mkMatrixRow (rowParamMap (mr_params r)) (mr_includeName r)) rows.
Proof.
  intros Hm. unfold materializeRows, MaterializeMatrixRows. rewrite Hm.
  destruct (empty_param (mx_Params m)); [done|].
  destruct (matrixMaxRows <? _)%Z; [done|]. intros [= <-]. rewrite map_app, !map_map. f_equal.
  destruct (0 <? _)%Z; [|done]. rewrite map_map. apply map_ext. intros nvs. simpl.
  unfold MatrixRow_of_values, rowParamMap. f_equal. generalize (∅ : gmap string string).
  induction nvs as [|nv nvs IH]; intros m0; [done|]. simpl. apply IH.
Qed.

(** [expandMatrix], on both outcomes. *)
Lemma expandMatrix_spec (pl : Pipeline) (Hnd : NoDup (map pt_Name (all_tasks pl))) :
  let f := fun l => map (fun c => pt_set_RunAfter c (flat_map (expanded_names pl) (pt_RunAfter c)))
                      (flat_map expanded l) in
  match expandMatrix pl with
  | Ok pl' => pl' = pl_set_tasks pl (f (spec_Tasks (pl_Spec pl))) (f (spec_Finally (pl_Spec pl)))
  | Err e => exists pt m, pt ∈ all_tasks pl /\ pt_Matrix pt = Some m /\ materializeRows pt m = Err e
  end.
Proof.
  intros f. destruct (hasAnyMatrix pl) eqn:Hm.
  - unfold expandMatrix. rewrite Hm. cbn [negb].
    destruct (expandList (spec_Tasks (pl_Spec pl)) ∅) as [[nt rw]|e] eqn:E1; simpl.
    2:{ by apply (expand_tasks_err pl _ _ _ (fun t Ht => proj2 (elem_of_app _ _ t) (or_introl Ht))) in E1. }
    destruct (expandList (spec_Finally (pl_Spec pl)) rw) as [[nf rw']|e] eqn:E2; simpl.
    2:{ by apply (expand_tasks_err pl _ _ _ (fun t Ht => proj2 (elem_of_app _ _ t) (or_intror Ht))) in E2. }
    destruct (expand_both pl nt nf rw rw' Hnd E1 E2) as (-> & -> & Hrw).
    unfold f. f_equal; apply map_ext; intros c; unfold rewrite_task; by rewrite Hrw.
  - unfold expandMatrix. rewrite Hm. unfold f.
    pose proof (hasAnyMatrix_false pl Hm) as Hnone.
    rewrite (expand_nothing pl (spec_Tasks (pl_Spec pl)) Hnone Hnd).
    2:{ intros t Ht. apply elem_of_app. by left. }
    rewrite (expand_nothing pl (spec_Finally (pl_Spec pl)) Hnone Hnd).
    2:{ intros t Ht. apply elem_of_app. by right. }
    by destruct pl as [? []].
Qed.

Lemma expandList_rows input st st' pt m :
  foldM expand_step st input = Ok st' -> pt ∈ input -> pt_Matrix pt = Some m ->
  exists rows, materializeRows pt m = Ok rows.
Proof.
  revert st; induction input as [|p input IH]; intros st; simpl; [by intros _ ?%not_elem_of_nil|].
  destruct (expand_step st p) as [st1|] eqn:E; [|done].
  intros H [->|Hin]%elem_of_cons Hm; [|by eapply IH].
  unfold expand_step in E. rewrite Hm in E. destruct (materializeRows p m) as [rows|]; [by exists rows|done].
Qed.

(** The rows of every matrix task of an expanded pipeline. *)
Lemma expandMatrix_rows pl pl' pt m :
  expandMatrix pl = Ok pl' -> pt ∈ all_tasks pl -> pt_Matrix pt = Some m ->
  exists rows, materializeRows pt m = Ok rows.
Proof.
  unfold expandMatrix. destruct (hasAnyMatrix pl) eqn:Hm; cbn [negb].
  - destruct (expandList (spec_Tasks (pl_Spec pl)) ∅) as [[nt rw]|e] eqn:E1; simpl; [|done].
    destruct (expandList (spec_Finally (pl_Spec pl)) rw) as [[nf rw']|e] eqn:E2; simpl; [|done].
    intros _ [Ht|Ht]%elem_of_app Hpt; (eapply expandList_rows; [|exact Ht|exact Hpt]); [exact E1|exact E2].
  - intros _ Ht Hpt. pose proof (hasAnyMatrix_false pl Hm _ Ht). congruence.
Qed.

(** Names and matrix infos of the expanded pipeline. *)
Lemma expandMatrix_tasks pl pl' :
  NoDup (map pt_Name (all_tasks pl)) -> expandMatrix pl = Ok pl' ->
  map (fun c => (pt_Name c, pt_MatrixInfo c)) (all_tasks pl') =
  map (fun c => (pt_Name c, pt_MatrixInfo c)) (flat_map expanded (all_tasks pl)).
Proof.
  intros Hnd E. pose proof (expandMatrix_spec pl Hnd) as H. rewrite E in H. rewrite H.
  unfold all_tasks. simpl. rewrite flat_map_app, !map_app, !map_map. done.
Qed.

(** whenever the engine expands a matrix, the rows the cluster backend
    rebuilds for it are the engine's rows, in the same order, as the maps
    that [MatrixInfo.Params] carries. *)
Theorem MaterializeMatrixRows_engine (pt : PipelineTask) (m : Matrix) (rows : list matrixRow) :
  pt_Matrix pt = Some m -> materializeRows pt m = Ok rows ->
  MaterializeMatrixRows pt = map (fun r => mkMatrixRow (rowParamMap (mr_params r)) (mr_includeName r)) rows.
Proof. apply MaterializeMatrixRows_rows. Qed.

(** C6: for a pipeline with distinct task names, [expandMatrix] replaces every
    matrix task by its expansions, in place, and every [runAfter] entry that
    names a task by the names of all its expansions; nothing else of the tasks
    changes, in [tasks] and in [finally].  It fails only when the rows of a
    matrix task cannot be built. *)
Theorem expandMatrix_correct (pl : Pipeline) (Hnd : NoDup (map pt_Name (all_tasks pl))) :
  let f := fun l => map (fun c => pt_set_RunAfter c (flat_map (expanded_names pl) (pt_RunAfter c)))
                      (flat_map expanded l) in
  match expandMatrix pl with
  | Ok pl' => pl' = pl_set_tasks pl (f (spec_Tasks (pl_Spec pl))) (f (spec_Finally (pl_Spec pl)))
  | Err e => exists pt m, pt ∈ all_tasks pl /\ pt_Matrix pt = Some m /\ materializeRows pt m = Err e
  end.
Proof. apply (expandMatrix_spec pl Hnd). Qed.

(** merging the row's params into the task's: the last entry of a name in
    the row wins over the task's, every other param keeps its value, and the
    names are the task's in order followed by the row-only ones. *)
Theorem mergeParams_correct (base row : list Param) :
  (forall n, last_named p_Name n (mergeParams base row) =
     match last_named p_Name n row with Some p => Some p | None => last_named p_Name n base end) /\
  map p_Name (mergeParams base row) =
    map p_Name base ++ filter (fun n => n ∉ map p_Name base) (map p_Name row).
Proof. split; [intros n; apply merge_named_last|apply merge_named_names]. Qed.

Context `{MapRange}.

(** when the last expansion of a matrix parent becomes terminal, a
    consumer's [$(tasks.<parent>.results.<k>[*])] is spliced into one argument
    per expansion, in row order, with "" for an expansion without that result;
    no other task's results change. *)
Theorem maybeAggregateMatrix_star (pt : PipelineTask) (mi : MatrixInfo) (pl : Pipeline)
    (outcomes : gmap string TaskOutcome) (results : gmap string (gmap string string))
    (k : string) (ctx : Context) :
  let names := expansionNamesOf (Some mi) (all_tasks pl) in
  let column := map (fun n => default "" (results_of results n !! k)) names in
  let results' := maybeAggregateMatrix pt pl outcomes results in
  pt_MatrixInfo pt = Some mi ->
  (forall t mi', t ∈ all_tasks pl -> pt_MatrixInfo t = Some mi' -> inf_Parent mi' = inf_Parent mi ->
     is_Some (outcomes !! pt_Name t)) ->
  results !! inf_Parent mi = None ->
  (exists n, n ∈ names /\ is_Some (results_of results n !! k)) ->
  str_all name_byte (inf_Parent mi) = true -> str_all name_byte k = true ->
  forallb valid_utf8 column = true ->
  rc_Results ctx = results' ->
  SubstituteArgs [star_ref (inf_Parent mi) k] ctx = Ok column /\
  (forall n k', n <> inf_Parent mi -> results_of results' n !! k' = results_of results n !! k').
Proof.
  intros names column results' Hmi Hterm Hnone Hsome Hp Hk Hutf Hctx.
  assert (results' = aggregateMatrixResults (inf_Parent mi) names results) as Hr.
  { unfold results', maybeAggregateMatrix. rewrite Hmi.
    rewrite (proj2 (siblingsAllTerminal_true mi _ outcomes) Hterm). cbn [negb]. by rewrite Hnone. }
  split.
  - assert (results_of (rc_Results ctx) (inf_Parent mi) !! k = Some (marshal_strings column)) as Hcol.
    { rewrite Hctx, Hr, aggregate_lookup, decide_True; [done|]. split; [done|].
      by apply elem_of_result_names. }
    unfold SubstituteArgs. cbn [collect]. unfold subst_arg.
    rewrite isArrayStarRef_star_ref, (expandArrayStar_star_ref _ _ _ column) by
      (done || by eapply str_all_no_byte; [|exact Hp]).
    cbn. by rewrite app_nil_r.
  - intros n k' Hn. rewrite Hr, aggregate_lookup, decide_False; [done|]. by intros [? _].
Qed.
End MatrixProperties.

(** a code defect.  The row count is a 64-bit product, so 64 params of two
    values count as zero rows: the cap does not reject the matrix, and the task
    expands to nothing at all instead of the rows (or the error) it stands for. *)
Theorem materializeRows_overflow :
  materializeRows (K := core_unit) ex_build (binary_matrix 64) = Ok [] /\
  true_cross (mx_Params (binary_matrix 9)) = 512 /\
  is_ok (materializeRows (K := core_unit) ex_build (binary_matrix 9)) = false.
Proof. vm_compute. auto. Qed.

(** ** Witnesses *)
Lemma materializeRows_correct_witness :
  materializeRows (K := core_unit) ex_build ex_matrix = Ok (spec_rows ex_matrix) /\
  length (spec_rows ex_matrix) = 5.
Proof.
  split; [|reflexivity].
  rewrite (materializeRows_correct (K := core_unit) ex_build ex_matrix); [reflexivity|].
  apply Z.leb_le. vm_compute. reflexivity.
Defined.

Lemma MaterializeMatrixRows_engine_witness :
  MaterializeMatrixRows (K := core_unit) ex_build =
    map (fun r => mkMatrixRow (rowParamMap (mr_params r)) (mr_includeName r)) (spec_rows ex_matrix).
Proof. apply (MaterializeMatrixRows_engine ex_build ex_matrix); vm_compute; reflexivity. Defined.

Lemma expandMatrix_correct_witness :
  match expandMatrix (K := core_unit) ex_pl with
  | Ok pl' => map pt_Name (spec_Tasks (pl_Spec pl')) =
                ["build-0"; "build-1"; "build-2"; "build-3"; "arm"; "test"; "lint"] /\
              map pt_RunAfter (spec_Tasks (pl_Spec pl')) =
                [[]; []; []; []; []; ["build-0"; "build-1"; "build-2"; "build-3"; "arm"; "lint"]; []]
  | Err _ => False
  end.
Proof.
  assert (NoDup (map pt_Name (all_tasks (K := core_unit) ex_pl))) as Hnd.
  { apply (bool_decide_eq_true_1 (NoDup _)). vm_compute. reflexivity. }
  pose proof (expandMatrix_correct (K := core_unit) ex_pl Hnd) as H.
  destruct (expandMatrix ex_pl) as [pl'|e] eqn:E.
  - rewrite H. split; vm_compute; reflexivity.
  - exfalso. apply (f_equal is_ok) in E. revert E. vm_compute. discriminate.
Defined.

(** Two expansions have run; their results reach the consumer as two arguments. *)
Definition ex_agg_task (i : Z) : PipelineTask (K := core_unit) :=
  mkPipelineTask (rowName "b" i "") "" None None [] [] [] [] 0 "" None
    (Some (mkMatrixInfo "b" i 2 ∅ "")).
Definition ex_agg_pl : Pipeline (K := core_unit) :=
  pl_set_tasks ex_pl [ex_agg_task 0; ex_agg_task 1] [].
Definition ex_agg_outcomes : gmap string TaskOutcome :=
  {["b-0" := outcome TaskSucceeded no_text; "b-1" := outcome TaskSucceeded no_text]}.
Definition ex_agg_results : gmap string (gmap string string) :=
  {["b-0" := {["r" := "x"]}; "b-1" := {["r" := "y"]}]}.

Lemma maybeAggregateMatrix_star_witness :
  SubstituteArgs ["$(tasks.b.results.r[*])"]
    (results_context (maybeAggregateMatrix (H := default_range) (ex_agg_task 1) ex_agg_pl ex_agg_outcomes
       ex_agg_results)) = Ok ["x"; "y"].
Proof.
  apply (maybeAggregateMatrix_star (H := default_range) (ex_agg_task 1)
    (mkMatrixInfo "b" 1 2 ∅ "") ex_agg_pl ex_agg_outcomes ex_agg_results "r"); try reflexivity.
  - intros t mi' [->|[->|[]%not_elem_of_nil]%elem_of_cons]%elem_of_cons _ _;
      apply (bool_decide_eq_true_1 (is_Some _)); vm_compute; reflexivity.
  - exists "b-0". split; [apply (bool_decide_eq_true_1 (_ ∈ _)); vm_compute; reflexivity|].
    apply (bool_decide_eq_true_1 (is_Some _)); vm_compute; reflexivity.
Defined.
