(* ===== verification/Policy.v ===== *)
(** * internal/engine/pipeline_timeouts.go and internal/engine/policy.go

    The timeout budgets, and the retry loop around one task.  A context's state
    when the code reads it is an observation ([ctxErr], [attempt_view]): the
    clock and the cancellation of the run are not determined by the program. *)

From S2P Require Import Prelude GoStrings GoTime TektonTypes Run.

(** ** pipeline_timeouts.go *)
Record pipelineTimeouts := mkpipelineTimeouts {
  tm_Pipeline : Z;
  tm_Tasks : Z;
  tm_Finally : Z;
}.

Definition parse_timeout (field s : string) : result Z :=
  if String.eqb s "" then Ok 0%Z
  else match ParseDuration s with
       | Ok d => Ok d
       | Err e => Err (Fmt "timeouts.%s: %w" [TStr field; TErr e])
       end.

Definition parsePipelineTimeouts (t : option Timeouts) : result pipelineTimeouts :=
  match t with
  | None => Ok (mkpipelineTimeouts 0 0 0)
  | Some t =>
    p ← parse_timeout "pipeline" (to_Pipeline t);
    k ← parse_timeout "tasks" (to_Tasks t);
    f ← parse_timeout "finally" (to_Finally t);
    Ok (mkpipelineTimeouts p k f)
  end.

Definition tasksBudget (p : pipelineTimeouts) : Z :=
  if (0 <? tm_Tasks p)%Z then tm_Tasks p
  else if (0 <? tm_Pipeline p)%Z && (0 <? tm_Finally p)%Z then wrap64 (tm_Pipeline p - tm_Finally p)
  else if (0 <? tm_Pipeline p)%Z then tm_Pipeline p
  else 0.

Definition finallyBudget (p : pipelineTimeouts) : Z :=
  if (0 <? tm_Finally p)%Z then tm_Finally p
  else if (0 <? tm_Pipeline p)%Z && (0 <? tm_Tasks p)%Z then wrap64 (tm_Pipeline p - tm_Tasks p)
  else if (0 <? tm_Pipeline p)%Z then tm_Pipeline p
  else 0.

(** [withMaybeBudget] / [withMaybeTimeout] derive a deadline only for [d > 0]. *)
Definition withMaybeBudget (d : Z) : bool := (0 <? d)%Z.
Definition withMaybeTimeout (d : Z) : bool := (0 <? d)%Z.

(** Parsed timeouts are 64-bit integers. *)
Lemma parse_timeout_range f s d : parse_timeout f s = Ok d -> (min_int <= d <= max_int)%Z.
Proof.
  unfold parse_timeout. destruct (String.eqb s ""); [intros [= <-]; unfold min_int, max_int; lia|].
  destruct (ParseDuration s) as [d'|] eqn:E; [|done]. intros [= <-]. by apply ParseDuration_range in E.
Qed.

Lemma parsePipelineTimeouts_range t p :
  parsePipelineTimeouts t = Ok p ->
  (tm_Pipeline p <= max_int /\ tm_Tasks p <= max_int /\ tm_Finally p <= max_int)%Z.
Proof.
  destruct t as [t|]; simpl; [|intros [= <-]; unfold max_int; simpl; lia].
  destruct (parse_timeout "pipeline" _) eqn:E1; simpl; [|done].
  destruct (parse_timeout "tasks" _) eqn:E2; simpl; [|done].
  destruct (parse_timeout "finally" _) eqn:E3; simpl; [|done].
  intros [= <-]. simpl. apply parse_timeout_range in E1, E2, E3. lia.
Qed.

(** ** policy.go *)

(** [ctx.Err()]. *)
Inductive ctxErr := Canceled | DeadlineExceeded.

#[export] Instance ctxErr_eq_dec : EqDecision ctxErr.
Proof. solve_decision. Defined.

(** What one call of [runOne] returned and emitted, with [runCtx.Err()] and
    [ctx.Err() != nil] as read after it. *)
Record attempt_view := mkattempt {
  at_outcome : TaskOutcome;
  at_events : list Event;
  at_runErr : option ctxErr;
  at_parentDead : bool;
}.

Section Policy.
Context {K : CoreV1}.

Definition taskTimeoutFor (b : Bundle) (pt : PipelineTask) : result Z :=
  if negb (String.eqb (pt_Timeout pt) "") then ParseDuration (pt_Timeout pt)
  else
    match pt_TaskSpec pt, pt_TaskRef pt with
    | Some spec, _ =>
      if String.eqb (ts_Timeout spec) "" then Ok 0%Z else ParseDuration (ts_Timeout spec)
    | None, Some r =>
      match b_Tasks b !! tr_Name r with
      | None => Ok 0%Z
      | Some t =>
        if String.eqb (ts_Timeout (task_Spec t)) "" then Ok 0%Z else ParseDuration (ts_Timeout (task_Spec t))
      end
    | None, None => Ok 0%Z
    end.

(** [taskTimeout, _ := taskTimeoutFor(in, pt)]: the error is dropped and the
    duration is 0 with it. *)
Definition taskTimeout (b : Bundle) (pt : PipelineTask) : Z :=
  match taskTimeoutFor b pt with Ok d => d | Err _ => 0%Z end.

Definition maxAttempts (pt : PipelineTask) : Z :=
  let m := wrap64 (1 + pt_Retries pt) in if (m <? 1)%Z then 1%Z else m.

Definition timed_out (timeout : Z) (a : attempt_view) : bool :=
  (0 <? timeout)%Z && negb (at_parentDead a) && bool_decide (at_runErr a = Some DeadlineExceeded).

Definition retry_event (pt : PipelineTask) (oc : TaskOutcome) (attempt : Z) : Event :=
  mkEvent EvtTaskRetry "" "" (pt_Name pt) (oc_Status oc) (oc_Message oc) attempt ∅
    (pt_DisplayName pt) "" "" None.

(** [if oc.Attempt == 0 { oc.Attempt = maxAttempts }] *)
Definition policy_end (pt : PipelineTask) (oc : TaskOutcome) : TaskOutcome :=
  if (oc_Attempt oc =? 0)%Z then oc_set_Attempt oc (maxAttempts pt) else oc.

Definition timeout_message (timeout : Z) : text := Fmt "task timeout %s exceeded" [TInt timeout].

(** The loop from [attempt] on, [left] being [maxAttempts - attempt]. *)
Fixpoint policy_loop (pt : PipelineTask) (timeout : Z) (run : Z -> attempt_view)
    (left : nat) (attempt : Z) : TaskOutcome * list Event :=
  let a := run (attempt - 1)%Z in
  let oc := at_outcome a in
  if timed_out timeout a then
    (policy_end pt (oc_set_timeout oc (timeout_message timeout)), at_events a)
  else if at_parentDead a then (policy_end pt oc, at_events a)
  else if String.eqb (oc_Status oc) "timeout" then
    (policy_end pt (oc_set_Attempt oc attempt), at_events a)
  else if String.eqb (oc_Status oc) "succeeded" || String.eqb (oc_Status oc) "skipped" then
    (oc_set_Attempt oc attempt, at_events a)
  else
    match left with
    | O => (policy_end pt oc, at_events a)
    | S left' =>
      let '(oc', evs) := policy_loop pt timeout run left' (attempt + 1)%Z in
      (oc', at_events a ++ [retry_event pt oc attempt] ++ evs)
    end.

(** [run k] is the [k]-th call of [runOne], under retry count [k]. *)
Definition runOneWithPolicy (b : Bundle) (pt : PipelineTask) (run : Z -> attempt_view)
    : TaskOutcome * list Event :=
  policy_loop pt (taskTimeout b pt) run (Z.to_nat (maxAttempts pt - 1)) 1.

(** ** Specification of the loop *)

(** A failed attempt that the policy may repeat. *)
Definition retryable (timeout : Z) (a : attempt_view) : bool :=
  negb (timed_out timeout a) && negb (at_parentDead a)
  && negb (existsb (String.eqb (oc_Status (at_outcome a))) ["timeout"; "succeeded"; "skipped"]).

(** The outcome the policy reports when attempt [n] is the last. *)
Definition final_outcome (pt : PipelineTask) (timeout : Z) (n : Z) (a : attempt_view) : TaskOutcome :=
  let oc := at_outcome a in
  if timed_out timeout a then policy_end pt (oc_set_timeout oc (timeout_message timeout))
  else if negb (at_parentDead a)
       && existsb (String.eqb (oc_Status oc)) ["timeout"; "succeeded"; "skipped"]
  then oc_set_Attempt oc n
  else policy_end pt oc.

(** The events of attempts [first, first+1, ...], a task-retry event between
    two of them. *)
Fixpoint retry_events (pt : PipelineTask) (run : Z -> attempt_view) (n : nat) (attempt : Z) : list Event :=
  match n with
  | O => at_events (run (attempt - 1)%Z)
  | S n' => at_events (run (attempt - 1)%Z)
            ++ [retry_event pt (at_outcome (run (attempt - 1)%Z)) attempt]
            ++ retry_events pt run n' (attempt + 1)
  end.

Lemma maxAttempts_pos pt : (1 <= maxAttempts pt)%Z.
Proof. unfold maxAttempts. destruct (_ <? 1)%Z eqn:E; [lia|]. by apply Z.ltb_ge in E. Qed.

(** One iteration of the loop, in the terms of the specification. *)
Lemma policy_loop_step pt timeout run left attempt :
  (1 <= attempt)%Z ->
  policy_loop pt timeout run left attempt =
    let a := run (attempt - 1)%Z in
    match retryable timeout a, left with
    | true, S left' =>
      let '(oc, evs) := policy_loop pt timeout run left' (attempt + 1)%Z in
      (oc, at_events a ++ [retry_event pt (at_outcome a) attempt] ++ evs)
    | _, _ => (final_outcome pt timeout attempt a, at_events a)
    end.
Proof.
  intros Hatt. destruct left; simpl; set (a := run (attempt - 1)%Z);
    unfold retryable, final_outcome; destruct (timed_out timeout a); simpl; try done;
    destruct (at_parentDead a); simpl; try done;
    destruct (String.eqb (oc_Status (at_outcome a)) "timeout") eqn:E1; simpl;
    try (unfold policy_end; simpl; destruct (attempt =? 0)%Z eqn:E; [lia|done]);
    destruct (String.eqb (oc_Status (at_outcome a)) "succeeded"); simpl; try done;
    destruct (String.eqb (oc_Status (at_outcome a)) "skipped"); simpl; done.
Qed.

Lemma policy_loop_spec pt timeout run left attempt :
  (1 <= attempt)%Z ->
  exists n, n <= left /\
    (forall i, i < n -> retryable timeout (run (attempt - 1 + Z.of_nat i)%Z) = true) /\
    (n < left -> retryable timeout (run (attempt - 1 + Z.of_nat n)%Z) = false) /\
    policy_loop pt timeout run left attempt =
      (final_outcome pt timeout (attempt + Z.of_nat n) (run (attempt - 1 + Z.of_nat n)%Z),
       retry_events pt run n attempt).
Proof.
  revert attempt; induction left as [|left IH]; intros attempt Hatt; rewrite policy_loop_step by done; cbn zeta.
  - exists 0. split_and!; [done|lia|lia|]. change (Z.of_nat 0) with 0%Z. rewrite !Z.add_0_r. cbn zeta. by destruct (retryable timeout (run (attempt - 1)%Z)).
  - destruct (retryable timeout (run (attempt - 1)%Z)) eqn:Er; simpl.
    + destruct (IH (attempt + 1)%Z) as (n & Hn & Hall & Hstop & ->); [lia|].
      assert (forall j, attempt + 1 - 1 + Z.of_nat j = attempt - 1 + Z.of_nat (S j))%Z as Hz by lia.
      exists (S n). split_and!; [lia| | |].
      * intros [|i] Hi; [by change (Z.of_nat 0) with 0%Z; rewrite Z.add_0_r|]. rewrite <- Hz. apply Hall. lia.
      * intros Hlt. rewrite <- Hz. apply Hstop. lia.
      * rewrite <- Hz. simpl.
        by replace (attempt + 1 + Z.of_nat n)%Z with (attempt + Z.of_nat (S n))%Z by lia.
    + exists 0. split_and!; [lia|lia| |].
      * intros _. change (Z.of_nat 0) with 0%Z. by rewrite Z.add_0_r.
      * change (Z.of_nat 0) with 0%Z. by rewrite !Z.add_0_r.
Qed.
End Policy.

(** ** Examples *)
Section Examples.
#[local] Existing Instance core_unit.

Definition ex_retry_task : PipelineTask :=
  mkPipelineTask "t" "" None (Some zero_TaskSpec) [] [] [] [] 2 "1s" None None.

Definition ex_bundle : Bundle := mkBundle ∅ ∅ [] ∅.

(** Fails once, then succeeds. *)
Definition ex_flaky (k : Z) : attempt_view :=
  mkattempt (outcome (if (k =? 0)%Z then "failed" else "succeeded") no_text) [] None false.

(** The first attempt runs into the task's timeout. *)
Definition ex_slow (k : Z) : attempt_view :=
  mkattempt (outcome "infrafailed" no_text) [] (Some DeadlineExceeded) false.

Example flaky_ok : oc_Attempt (runOneWithPolicy ex_bundle ex_retry_task ex_flaky).1 = 2%Z.
Proof. vm_compute. reflexivity. Qed.
End Examples.

(** ** Properties *)
Section PolicyProperties.
Context {K : CoreV1}.

(** The attempts a task has: one, and its retries, in 64-bit arithmetic; never less than one. *)
Definition attempt_limit (pt : PipelineTask) : Z := Z.max 1 (wrap64 (1 + pt_Retries pt)).

(** The task's timeout: the pipeline task's, else that of its own spec or of the Task it
    refers to; none when that is no duration. *)
Definition own_timeout (b : Bundle) (pt : PipelineTask) : Z :=
  let spec := match pt_TaskSpec pt with Some s => Some s | None => r ← pt_TaskRef pt; task_Spec <$> b_Tasks b !! tr_Name r end in
  match List.find (fun s => negb (String.eqb s "")) [pt_Timeout pt; from_option ts_Timeout "" spec] with
  | Some s => match ParseDuration s with Ok d => d | Err _ => 0%Z end
  | None => 0%Z
  end.

Lemma taskTimeout_own b pt : taskTimeout b pt = own_timeout b pt.
Proof.
  unfold taskTimeout, taskTimeoutFor, own_timeout. cbn [List.find]. destruct (String.eqb (pt_Timeout pt) ""); [|done]. cbn [negb].
  destruct (pt_TaskSpec pt) as [spec|]; cbn [from_option].
  - by destruct (String.eqb (ts_Timeout spec) "").
  - destruct (pt_TaskRef pt) as [r|]; [|done]. cbn. destruct (b_Tasks b !! tr_Name r) as [t|]; [|done]. cbn.
    by destruct (String.eqb (ts_Timeout (task_Spec t)) "").
Qed.

(** The task's own deadline fired during the attempt, under a live parent context. *)
Definition deadline_fired (timeout : Z) (a : attempt_view) : Prop :=
  (0 < timeout)%Z /\ at_parentDead a = false /\ at_runErr a = Some DeadlineExceeded.

(** An attempt behind which another one may follow. *)
Definition may_follow (timeout : Z) (a : attempt_view) : Prop :=
  ~ deadline_fired timeout a /\ at_parentDead a = false /\ oc_Status (at_outcome a) ∉ ["timeout"; "succeeded"; "skipped"].

(** What the task reports when attempt [n] was the last one. *)
Definition reported (pt : PipelineTask) (timeout n : Z) (a : attempt_view) (oc : TaskOutcome) : Prop :=
  let last := at_outcome a in
  oc_Results oc = oc_Results last /\ oc_Matrix oc = oc_Matrix last /\ oc_skip oc = oc_skip last /\
  (deadline_fired timeout a -> oc_Status oc = "timeout" /\ oc_Message oc = Fmt "task timeout %s exceeded" [TInt timeout]) /\
  (~ deadline_fired timeout a -> oc_Status oc = oc_Status last /\ oc_Message oc = oc_Message last) /\
  (~ deadline_fired timeout a -> at_parentDead a = false -> oc_Status last ∈ ["timeout"; "succeeded"; "skipped"] -> oc_Attempt oc = n) /\
  (deadline_fired timeout a \/ at_parentDead a = true \/ oc_Status last ∉ ["timeout"; "succeeded"; "skipped"] ->
     oc_Attempt oc = if decide (oc_Attempt last = 0%Z) then attempt_limit pt else oc_Attempt last).

Lemma maxAttempts_limit pt : maxAttempts pt = attempt_limit pt.
Proof. unfold maxAttempts, attempt_limit. destruct (Z.ltb_spec (wrap64 (1 + pt_Retries pt)) 1); lia. Qed.

Lemma timed_out_fired timeout a : timed_out timeout a = true <-> deadline_fired timeout a.
Proof.
  unfold timed_out, deadline_fired. rewrite !andb_true_iff, negb_true_iff, Z.ltb_lt, bool_decide_eq_true. tauto.
Qed.

Lemma ends_status st : existsb (String.eqb st) ["timeout"; "succeeded"; "skipped"] = true <-> st ∈ ["timeout"; "succeeded"; "skipped"].
Proof. cbn. rewrite !orb_true_iff, !String.eqb_eq, !elem_of_cons, elem_of_nil. intuition congruence. Qed.

Lemma retryable_may_follow timeout a : retryable timeout a = true <-> may_follow timeout a.
Proof.
  unfold retryable, may_follow. rewrite !andb_true_iff, !negb_true_iff, <-timed_out_fired, <-ends_status, !not_true_iff_false. tauto.
Qed.

Lemma final_outcome_reported pt timeout n a : reported pt timeout n a (final_outcome pt timeout n a).
Proof.
  unfold reported, final_outcome, policy_end. rewrite maxAttempts_limit, <-!timed_out_fired, <-!ends_status. cbv zeta.
  destruct (timed_out timeout a) eqn:Et; cbn [oc_Attempt oc_set_timeout].
  - assert (at_parentDead a = false) as Hp by by apply timed_out_fired in Et as (_ & ? & _).
    destruct (Z.eqb_spec (oc_Attempt (at_outcome a)) 0); cbn; split_and!; try done; intros; by case_decide.
  - destruct (at_parentDead a) eqn:Ep; cbn [negb andb].
    + destruct (Z.eqb_spec (oc_Attempt (at_outcome a)) 0); cbn; split_and!; try done; intros; by case_decide.
    + destruct (existsb _ _) eqn:Es; [cbn; split_and!; try done; intros [?|[?|[]]]; done|].
      destruct (Z.eqb_spec (oc_Attempt (at_outcome a)) 0); cbn; split_and!; try done; intros; by case_decide.
Qed.

Lemma retry_events_flat pt run n k :
  retry_events pt run n (Z.of_nat k + 1) =
  flat_map (fun i => at_events (run (Z.of_nat i))
    ++ [mkEvent EvtTaskRetry "" "" (pt_Name pt) (oc_Status (at_outcome (run (Z.of_nat i)))) (oc_Message (at_outcome (run (Z.of_nat i))))
          (Z.of_nat i + 1) ∅ (pt_DisplayName pt) "" "" None]) (seq k n)
  ++ at_events (run (Z.of_nat (k + n))).
Proof.
  revert k; induction n as [|n IH]; intros k; cbn [retry_events seq flat_map].
  - rewrite Nat.add_0_r. cbn [app]. f_equal. f_equal. lia.
  - replace (Z.of_nat k + 1 - 1)%Z with (Z.of_nat k) by lia.
    replace (Z.of_nat k + 1 + 1)%Z with (Z.of_nat (S k) + 1)%Z by lia. rewrite IH. replace (S k + n) with (k + S n) by lia.
    by rewrite <-!(assoc_L (++)).
Qed.

(** C21: the retry loop runs attempts 1, 2, ... up to the first one that is not a failure -
    the task's own deadline fires, the parent context ends, or it reports succeeded, skipped
    or timeout - and at most 1 + Retries of them, and at least one.  It emits the attempts'
    events, and between two of them one task-retry event with the failed one's number,
    status and message.  It reports the last attempt's outcome, as a timeout when the task's
    own deadline fired, numbered by that attempt; but an attempt ended by its deadline or by
    the parent context is numbered like the last possible one, which the comment on
    [runOneWithPolicy] does not say. *)
Theorem runOneWithPolicy_attempts (b : Bundle) (pt : PipelineTask) (run : Z -> attempt_view) :
  let timeout := own_timeout b pt in
  exists n : nat,
    (Z.of_nat n < attempt_limit pt)%Z /\
    (forall i : nat, i < n -> may_follow timeout (run (Z.of_nat i))) /\
    ((Z.of_nat n + 1 < attempt_limit pt)%Z -> ~ may_follow timeout (run (Z.of_nat n))) /\
    (runOneWithPolicy b pt run).2 =
      flat_map (fun i => at_events (run (Z.of_nat i))
        ++ [mkEvent EvtTaskRetry "" "" (pt_Name pt) (oc_Status (at_outcome (run (Z.of_nat i)))) (oc_Message (at_outcome (run (Z.of_nat i))))
              (Z.of_nat i + 1) ∅ (pt_DisplayName pt) "" "" None]) (seq 0 n)
      ++ at_events (run (Z.of_nat n)) /\
    reported pt timeout (Z.of_nat n + 1) (run (Z.of_nat n)) (runOneWithPolicy b pt run).1.
Proof.
  cbv zeta. rewrite <-taskTimeout_own. pose proof (maxAttempts_pos pt).
  destruct (policy_loop_spec pt (taskTimeout b pt) run (Z.to_nat (maxAttempts pt - 1)) 1)
    as (n & Hn & Hall & Hstop & Heq); [lia|].
  exists n. rewrite <-maxAttempts_limit. unfold runOneWithPolicy. rewrite Heq. cbn [fst snd]. split_and!; [lia| | | |].
  - intros i Hi. apply retryable_may_follow. by apply Hall.
  - intros Hlt. rewrite <-retryable_may_follow. pose proof (Hstop ltac:(lia)) as Hs. change (1 - 1 + Z.of_nat n)%Z with (Z.of_nat n) in Hs.
    by rewrite Hs.
  - apply (retry_events_flat pt run n 0).
  - rewrite (Z.add_comm 1). apply final_outcome_reported.
Qed.

(** a divergence from the comment on [runOneWithPolicy].  When attempt 1
    times out no other attempt runs, yet the outcome is numbered
    [maxAttempts], not 1. *)
Theorem timeout_attempt_number (b : Bundle) (pt : PipelineTask) (run : Z -> attempt_view)
    (Ht : timed_out (taskTimeout b pt) (run 0%Z) = true)
    (Ha : oc_Attempt (at_outcome (run 0%Z)) = 0%Z) :
  oc_Status (runOneWithPolicy b pt run).1 = "timeout" /\
  oc_Attempt (runOneWithPolicy b pt run).1 = maxAttempts pt /\
  (runOneWithPolicy b pt run).2 = at_events (run 0%Z).
Proof.
  unfold runOneWithPolicy. rewrite policy_loop_step by lia. cbn zeta.
  change (1 - 1)%Z with 0%Z. unfold retryable, final_outcome. rewrite Ht. simpl.
  unfold policy_end. simpl. by rewrite Ha.
Qed.

(** What a phase gets under the pipeline's timeout, its own and the other phase's: its own;
    else what the other one, if it has one, leaves of the pipeline's; else nothing. *)
Definition phase_budget (pipeline own other : Z) : Z :=
  if decide (0 < own)%Z then own else if decide (0 < pipeline)%Z then (pipeline - Z.max 0 other)%Z else 0%Z.

Lemma budgets_phases p k f :
  (p <= max_int)%Z -> (k <= max_int)%Z -> (f <= max_int)%Z ->
  let b := mkpipelineTimeouts p k f in
  tasksBudget b = phase_budget p k f /\ finallyBudget b = phase_budget p f k /\
  ((0 < p)%Z -> (0 < k)%Z <-> ~ (0 < f)%Z -> (tasksBudget b + finallyBudget b = p)%Z).
Proof.
  intros Hp Hk Hf b. unfold b, tasksBudget, finallyBudget, phase_budget. cbn [tm_Pipeline tm_Tasks tm_Finally].
  assert (forall a c, (0 < a <= max_int)%Z -> (0 < c <= max_int)%Z -> wrap64 (a - c) = (a - c)%Z) as Hw.
  { intros a c Ha Hc. apply wrap64_id. unfold min_int, max_int in *. lia. }
  pose proof (Hw p k). pose proof (Hw p f). clear Hw. repeat case_decide;
    destruct (Z.ltb_spec 0 k), (Z.ltb_spec 0 p), (Z.ltb_spec 0 f); cbn [andb]; lia.
Qed.

(** C22: the phases' budgets follow from the three strings of [spec.timeouts].  An empty
    string is no timeout; a string that is no duration is an error that names the first such
    field.  Otherwise each phase has its own timeout, or what the other phase's leaves of the
    pipeline's - exactly, without overflow, so that with one of them given the two add up to
    the pipeline's - or all of it, or nothing without a pipeline timeout. *)
Theorem budgets_correct (t : Timeouts) :
  let dur s := if decide (s = "") then Ok 0%Z else ParseDuration s in
  match dur (to_Pipeline t), dur (to_Tasks t), dur (to_Finally t) with
  | Ok p, Ok k, Ok f =>
    exists b, parsePipelineTimeouts (Some t) = Ok b /\ tm_Pipeline b = p /\
      tasksBudget b = phase_budget p k f /\ finallyBudget b = phase_budget p f k /\
      ((0 < p)%Z -> (0 < k)%Z <-> ~ (0 < f)%Z -> (tasksBudget b + finallyBudget b = p)%Z)
  | Err e, _, _ => parsePipelineTimeouts (Some t) = Err (Fmt "timeouts.%s: %w" [TStr "pipeline"; TErr e])
  | _, Err e, _ => parsePipelineTimeouts (Some t) = Err (Fmt "timeouts.%s: %w" [TStr "tasks"; TErr e])
  | _, _, Err e => parsePipelineTimeouts (Some t) = Err (Fmt "timeouts.%s: %w" [TStr "finally"; TErr e])
  end /\
  parsePipelineTimeouts None = Ok (mkpipelineTimeouts 0 0 0).
Proof.
  intros dur. split; [|done].
  assert (forall field s, parse_timeout field s =
    match dur s with Ok d => Ok d | Err e => Err (Fmt "timeouts.%s: %w" [TStr field; TErr e]) end) as Hparse.
  { intros field s. unfold parse_timeout, dur. destruct (String.eqb_spec s "") as [->|]; [done|]. by rewrite decide_False. }
  assert (forall s d, dur s = Ok d -> (min_int <= d <= max_int)%Z) as Hrange.
  { intros s d. unfold dur. case_decide; [intros [= <-]; unfold min_int, max_int; lia|apply ParseDuration_range]. }
  unfold parsePipelineTimeouts. rewrite !Hparse. destruct (dur (to_Pipeline t)) as [p|e] eqn:Ep; [|done].
  destruct (dur (to_Tasks t)) as [k|e] eqn:Ek; [|done]. destruct (dur (to_Finally t)) as [f|e] eqn:Ef; [|done].
  apply Hrange in Ep, Ek, Ef. eexists. split; [done|]. split; [done|]. apply budgets_phases; lia.
Qed.
End PolicyProperties.

(** ** Witnesses *)
Lemma timeout_attempt_number_witness :
  oc_Attempt (runOneWithPolicy (K := core_unit) ex_bundle ex_retry_task ex_slow).1 = 3%Z.
Proof.
  destruct (timeout_attempt_number (K := core_unit) ex_bundle ex_retry_task ex_slow) as (_ & H & _);
    [vm_compute; reflexivity..|].
  rewrite H. vm_compute. reflexivity.
Defined.

(** Half an hour of an hour is left for the finally tasks. *)
Example budgets_half_hour :
  match parsePipelineTimeouts (Some (mkTimeouts "1h" "30m" "")) with
  | Ok b => (tasksBudget b, finallyBudget b) = (1800000000000, 1800000000000)%Z
  | Err _ => False
  end.
Proof. vm_compute. reflexivity. Qed.
