(* ===== verification/Scope.v ===== *)
(** * What a task's references see, and which tasks they wait on

    internal/engine/when.go, implicit_edges.go, substitution.go,
    pipeline_results.go and workspace_paths.go.  The values the engine threads
    through [context.Context] (the finally view and the retry count) are explicit
    arguments. *)

From S2P Require Import Prelude GoStrings Sha256 Regex TektonTypes Resolver Run Matrix.

(** ** when.go *)
Definition formatWhen (w : WhenExpression) (input : string) : string :=
  "input=" +:+ input +:+ " " +:+ we_Operator w +:+ " " +:+ join "," (we_Values w).

(** One iteration of [evaluateWhen]: the reason when the expression fails. *)
Definition when_step (ctx : Context) (w : WhenExpression) : result (option string) :=
  input ← Substitute (we_Input w) ctx;
  values ← SubstituteArgs (we_Values w) ctx;
  let matched := existsb (String.eqb input) values in
  let op := to_lower (we_Operator w) in
  if String.eqb op "in" then Ok (if matched then None else Some (formatWhen w input))
  else if String.eqb op "notin" then Ok (if matched then Some (formatWhen w input) else None)
  else Ok None.

Fixpoint evaluateWhen (exprs : list WhenExpression) (ctx : Context) : result (bool * string) :=
  match exprs with
  | [] => Ok (true, "")
  | w :: exprs' =>
    match when_step ctx w with
    | Err e => Err e
    | Ok (Some reason) => Ok (false, reason)
    | Ok None => evaluateWhen exprs' ctx
    end
  end.

(** ** implicit_edges.go *)

(** A reference [$(tasks.NAME.results.RESULT)] with an optional [[N]] or star
    suffix; NAME is an alphanumeric followed by word characters and dashes, RESULT
    also allows dots.  Group 1 is NAME. *)
Definition result_name_char (a : ascii) : bool := is_word a || Ascii.eqb a "." || Ascii.eqb a "-".

Definition taskResultRefTail : regex :=
  (RGroup 1 (RCls is_alnum · RStar name_byte) · RLit ".results." · RPlus result_name_char
     · ROpt (RLit "[" · RAlt (RLit "*") (RPlus is_digit) · RLit "]") · RLit ")")%regex.

Definition taskResultRefPat : regex := RSeq (RLit "$(tasks.") taskResultRefTail.

(** The task names [scan] records. *)
Definition scan (s : string) : list string := map (group 1) (find_all taskResultRefPat s).

(** The texts [scanValue] scans; the order of an object's values does not
    matter, since the names end up in a set. *)
Definition value_texts (v : ParamValue) : list string :=
  if String.eqb (pv_Type v) ParamTypeArray then pv_ArrayVal v
  else if String.eqb (pv_Type v) ParamTypeObject then (map_to_list (pv_ObjectVal v)).*2
  else [pv_StringVal v].

Section ImplicitEdges.
Context {K : CoreV1}.

(** Every text of a PipelineTask that may name another task's result. *)
Definition task_texts (pt : PipelineTask) : list string :=
  flat_map (fun p => value_texts (p_Value p)) (pt_Params pt)
  ++ flat_map (fun w => we_Input w :: we_Values w) (pt_When pt)
  ++ match pt_TaskRef pt with
     | None => []
     | Some r => flat_map (fun p => value_texts (rp_Value p)) (tr_ResolverParams r)
     end.

Definition implicitParamEdges (pt : PipelineTask) : list string :=
  sort_strings (elements (list_to_set (flat_map scan (task_texts pt)) : gset string)).

Definition matrixExpansions (pts : list PipelineTask) : gmap string (list string) :=
  foldl (fun (out : gmap string (list string)) pt =>
           match pt_MatrixInfo pt with
           | None => out
           | Some mi => <[inf_Parent mi := default [] (out !! inf_Parent mi) ++ [pt_Name pt]]> out
           end) ∅ pts.

Definition expandRefNames (name : string) (exp : gmap string (list string)) : list string :=
  match exp !! name with Some names => names | None => [name] end.
End ImplicitEdges.

(** ** substitution.go *)

(** The [$(tasks.status)] view: the aggregate and the per-task statuses. *)
Abbreviation finallyStatus := (string * gmap string string)%type.

Definition execSucceeded := "Succeeded".
Definition execFailed := "Failed".
Definition execCompleted := "Completed".
Definition execNone := "None".

(** The counters of one group of runs. *)
Record agg := mkagg { ag_all : nat; ag_ok : nat; ag_failed : nat }.

Record status_acc := mkstatus_acc {
  sa_groups : gmap string agg;
  sa_order : list string;
  sa_allDone : bool;
}.

Definition is_failed_status (s : string) : bool :=
  existsb (String.eqb s) ["failed"; "infrafailed"; "timeout"; "cancelled"].

Section Substitution.
Context {K : CoreV1}.

(** The name a main task's status is reported under. *)
Definition group_name (pt : PipelineTask) : string :=
  match pt_MatrixInfo pt with Some mi => inf_Parent mi | None => pt_Name pt end.

Definition status_step (outcomes : gmap string TaskOutcome) (acc : status_acc) (pt : PipelineTask)
    : status_acc :=
  let name := group_name pt in
  let '(g, order) := match sa_groups acc !! name with
                     | Some g => (g, sa_order acc)
                     | None => (mkagg 0 0 0, sa_order acc ++ [name])
                     end in
  let g := mkagg (S (ag_all g)) (ag_ok g) (ag_failed g) in
  match outcomes !! pt_Name pt with
  | None => mkstatus_acc (<[name := g]> (sa_groups acc)) order false
  | Some oc =>
    let g := if String.eqb (oc_Status oc) "succeeded" then mkagg (ag_all g) (S (ag_ok g)) (ag_failed g)
             else if is_failed_status (oc_Status oc) then mkagg (ag_all g) (ag_ok g) (S (ag_failed g))
             else g in
    mkstatus_acc (<[name := g]> (sa_groups acc)) order (sa_allDone acc)
  end.

Definition group_status (g : agg) : string :=
  if 0 <? ag_failed g then execFailed
  else if ag_ok g =? ag_all g then execSucceeded
  else execNone.

Definition computeFinallyStatus (mainTasks : list PipelineTask) (outcomes : gmap string TaskOutcome)
    : finallyStatus :=
  let acc := foldl (status_step outcomes) (mkstatus_acc ∅ [] true) mainTasks in
  let status name := group_status (default (mkagg 0 0 0) (sa_groups acc !! name)) in
  let per := foldl (fun (m : gmap string string) name => <[name := status name]> m) ∅ (sa_order acc) in
  let anyFailed := existsb (fun name => String.eqb (status name) execFailed) (sa_order acc) in
  let anySkipped := existsb (fun name => String.eqb (status name) execNone) (sa_order acc) in
  ((if negb (sa_allDone acc) then execNone
    else if anyFailed then execFailed
    else if anySkipped then execCompleted
    else execSucceeded), per).

Definition defaultNamespace := "default".

(** Bytes 6 and 8 carry the version and variant markers. *)
Definition mark_byte (keep set : Z) (b : Z) : Z := Z.lor (Z.land b keep) set.

Definition stableUID (seed : string) : string :=
  let h := Sum256 (bytes_of seed) in
  let h := alter (mark_byte 15 80) 6 h in
  let h := alter (mark_byte 63 128) 8 h in
  let part i j := hex (take (j - i) (drop i h)) in
  part 0 4 +:+ "-" +:+ part 4 6 +:+ "-" +:+ part 6 8 +:+ "-" +:+ part 8 10 +:+ "-" +:+ part 10 16.

Definition taskContextVars (retryCount : Z) (pl : Pipeline) (pt : PipelineTask)
    (runID pipelineRunName : string) : gmap string string :=
  let taskRunName := pipelineRunName +:+ "-" +:+ pt_Name pt in
  let taskName := match pt_TaskRef pt with
                  | Some r => if String.eqb (tr_Name r) "" then taskRunName else tr_Name r
                  | None => taskRunName
                  end in
  list_to_map
    [("pipelineRun.name", pipelineRunName);
     ("pipelineRun.namespace", defaultNamespace);
     ("pipelineRun.uid", stableUID ("pipelinerun/" +:+ runID));
     ("pipeline.name", pl_Name pl);
     ("taskRun.name", taskRunName);
     ("taskRun.namespace", defaultNamespace);
     ("taskRun.uid", stableUID ("taskrun/" +:+ runID +:+ "/" +:+ taskRunName));
     ("task.name", taskName);
     ("task.retry-count", itoa retryCount);
     ("pipelineTask.retries", itoa (pt_Retries pt))].

Definition boundWorkspaces (spec : TaskSpec) (pt : PipelineTask) : gmap string bool :=
  foldl (fun (m : gmap string bool) w => <[wb_Name w := true]> m)
    (foldl (fun (m : gmap string bool) w => <[wd_Name w := false]> m) ∅ (ts_Workspaces spec))
    (pt_Workspaces pt).

(** workspace_paths.go *)
Definition workspaceMountPaths (decls : list WorkspaceDecl) : gmap string string :=
  foldl (fun (m : gmap string string) d =>
           if String.eqb (wd_MountPath d) "" then m else <[wd_Name d := wd_MountPath d]> m) ∅ decls.

Context `{MapRange}.

Definition bindTaskParamValue (v : ParamValue) (rctx : Context) : result ParamValue :=
  if String.eqb (pv_Type v) ParamTypeArray then
    ArrayParam <$> SubstituteArgs (pv_ArrayVal v) rctx
  else if String.eqb (pv_Type v) ParamTypeObject then
    kvs ← collect (fun kv => s ← Substitute kv.2 rctx; Ok (kv.1, s)) (map_range (pv_ObjectVal v));
    Ok (ObjectParam (list_to_map kvs))
  else if IsArrayStarRef (pv_StringVal v) then
    ArrayParam <$> SubstituteArgs [pv_StringVal v] rctx
  else
    StringParam <$> Substitute (pv_StringVal v) rctx.
End Substitution.

(** ** pipeline_results.go *)
Definition isSoleArrayStarRef (s : string) : bool :=
  has_prefix s "$(" && has_suffix s "[*])" && (count_byte ")" s =? 1).

(** One array element: spliced or substituted. *)
Definition result_item (ctx : Context) (item : string) : result (list string) :=
  if isSoleArrayStarRef item then SubstituteArgs [item] ctx
  else s ← Substitute item ctx; Ok [s].

(** The value of one [spec.results] entry. *)
Definition result_entry (ctx : Context) (v : ParamValue) : result result_value :=
  if is_string_type (pv_Type v) then
    if isSoleArrayStarRef (pv_StringVal v) then RVArray <$> SubstituteArgs [pv_StringVal v] ctx
    else RVString <$> Substitute (pv_StringVal v) ctx
  else if String.eqb (pv_Type v) ParamTypeArray then
    items ← collect (result_item ctx) (pv_ArrayVal v);
    Ok (RVArray (concat items))
  else if String.eqb (pv_Type v) ParamTypeObject then
    kvs ← collect (fun k => s ← Substitute (default "" (pv_ObjectVal v !! k)) ctx; Ok (k, s))
            (sort_strings (map_to_list (pv_ObjectVal v)).*1);
    Ok (RVObject (list_to_map kvs))
  else Err (Fmt "unknown value type %q" [TStr (pv_Type v)]).

(** The entry's error as the run reports it. *)
Definition dropped (name : string) (e : text) : text :=
  Fmt "pipeline result %q dropped: %w" [TStr name; TErr e].

Section PipelineResults.
Context {K : CoreV1}.

Definition results_step (ctx : Context) (acc : gmap string result_value * list text)
    (spec : PipelineResultSpec) : gmap string result_value * list text :=
  match result_entry ctx (prs_Value spec) with
  | Ok v => (<[prs_Name spec := v]> acc.1, acc.2)
  | Err e => (acc.1, acc.2 ++ [dropped (prs_Name spec) e])
  end.

Definition resolvePipelineResults (pl : Pipeline) (results : gmap string (gmap string string))
    : gmap string result_value * list text :=
  foldl (results_step (results_context results)) (∅, []) (spec_Results (pl_Spec pl)).

Definition droppedClusterResultNames (pl : Pipeline) (produced : gmap string result_value) : list string :=
  sort_strings (filter (fun n => produced !! n = None) (map prs_Name (spec_Results (pl_Spec pl)))).
End PipelineResults.

(** ** Result references are scanned *)

(** A task name the pattern captures. *)
Definition task_name_ok (n : string) : bool :=
  match n with "" => false | String a n' => is_alnum a && str_all name_byte n' end.

Definition result_name_ok (r : string) : bool :=
  match r with "" => false | _ => str_all result_name_char r end.

(** The optional [[N]] / [[*]] after the result's name. *)
Inductive ref_suffix : string -> Prop :=
  | suffix_none : ref_suffix ""
  | suffix_star : ref_suffix "[*]"
  | suffix_index d ds : is_digit d = true -> str_all is_digit ds = true ->
      ref_suffix ("[" +:+ String d ds +:+ "]").

Definition result_ref (task res suffix : string) : string :=
  "$(tasks." +:+ task +:+ ".results." +:+ res +:+ suffix +:+ ")".

Lemma suffix_match {X} (sfx q : string) c (k : string -> caps -> option X) x :
  ref_suffix sfx -> k q c = Some x ->
  rmatch (ROpt (RSeq (RLit "[") (RSeq (RAlt (RLit "*") (RPlus is_digit)) (RLit "]"))))
    (sfx +:+ ")" +:+ q) c (fun s' c' => rmatch (RLit ")") s' c' k) = Some x.
Proof.
  intros Hs Hk. destruct Hs as [| |d ds Hd Hds]; cbn [rmatch].
  - done.
  - rewrite !str_app_cons, !str_app_nil_l. cbn [strip_prefix Ascii.eqb Bool.eqb]. by rewrite Hk.
  - rewrite <- !str_app_assoc, !str_app_cons, !str_app_nil_l.
    cbn [strip_prefix]. rewrite Ascii.eqb_refl.
    assert (Ascii.eqb "*" d = false) as Hstar by (by destruct (Ascii.eqb_spec "*" d) as [<-|]).
    rewrite Hstar, Hd.
    rewrite ?str_app_cons, ?str_app_nil_l.
    erewrite star_match_greedy; [done|done|done|].
    cbn [strip_prefix]. by rewrite !Ascii.eqb_refl.
Qed.

Lemma suffix_head sfx q :
  ref_suffix sfx -> exists c t, sfx +:+ String ")" q = String c t /\ result_name_char c = false.
Proof. intros []; rewrite ?str_app_cons; by eexists _, _. Qed.

(** A reference is matched whatever follows it. *)
Lemma match_here_result_ref n r sfx q :
  task_name_ok n = true -> result_name_ok r = true -> ref_suffix sfx ->
  match_here taskResultRefPat (result_ref n r sfx +:+ q) = Some (q, [(1, n)]).
Proof.
  intros Hn Hr Hs. unfold match_here, taskResultRefPat, taskResultRefTail, result_ref.
  destruct n as [|a n]; [done|]. simpl in Hn. apply andb_true_iff in Hn as [Ha Hn].
  destruct r as [|b r]; [done|]. simpl in Hr. apply andb_true_iff in Hr as [Hb Hr].
  destruct (suffix_head sfx q Hs) as (c & t & Hct & Hc).
  rewrite <- !str_app_assoc. cbn [rmatch]. rewrite strip_prefix_app, !str_app_cons, Ha.
  eapply star_match_greedy; [done|done|]. cbv beta.
  match goal with |- context [consumed (String a (n +:+ ?u)) ?u] =>
    change (consumed (String a (n +:+ u)) u) with (consumed (String a n +:+ u) u); rewrite consumed_app end.
  match goal with |- context [strip_prefix ".results." ?s] =>
    assert (strip_prefix ".results." s = Some (String b (r +:+ (sfx +:+ String ")" q)))) as -> by done end.
  cbv beta iota. rewrite Hb, Hct. eapply star_match_greedy; [done|done|]. rewrite <- Hct.
  by apply (suffix_match sfx q [(1, String a n)] (fun s' c' => Some (s', c'))).
Qed.

Lemma taskResultRefTail_avoids : avoids "$" taskResultRefTail.
Proof. by repeat split. Qed.

Lemma scan_result_ref p n r sfx q :
  task_name_ok n = true -> result_name_ok r = true -> ref_suffix sfx ->
  n ∈ scan (p +:+ result_ref n r sfx +:+ q).
Proof.
  intros Hn Hr Hs. apply list_elem_of_fmap. exists [(1, n)]. split; [done|].
  eapply (find_all_occurrence "$" "(tasks." taskResultRefTail); [done|apply taskResultRefTail_avoids|].
  apply (match_here_result_ref n r sfx q Hn Hr Hs).
Qed.

Section EdgeFacts.
Context {K : CoreV1}.

Lemma elem_of_implicitParamEdges pt n :
  n ∈ implicitParamEdges pt <-> exists s, s ∈ task_texts pt /\ n ∈ scan s.
Proof.
  unfold implicitParamEdges. rewrite elem_of_sort_strings, elem_of_elements, elem_of_list_to_set.
  rewrite list_elem_of_In, in_flat_map. by setoid_rewrite <- list_elem_of_In.
Qed.

Lemma implicitParamEdges_NoDup pt : NoDup (implicitParamEdges pt).
Proof. apply sort_strings_NoDup, NoDup_elements. Qed.
End EdgeFacts.

(** ** The finally view *)
Section FinallyFacts.
Context {K : CoreV1}.
Variable outcomes : gmap string TaskOutcome.
Implicit Types (pt : PipelineTask) (l : list PipelineTask).

Definition run_recorded pt : bool := match outcomes !! pt_Name pt with Some _ => true | None => false end.
Definition run_ok pt : bool :=
  match outcomes !! pt_Name pt with Some oc => String.eqb (oc_Status oc) "succeeded" | None => false end.
Definition run_failed pt : bool :=
  match outcomes !! pt_Name pt with Some oc => is_failed_status (oc_Status oc) | None => false end.

(** The runs of one pipeline task: itself, or every matrix row. *)
Definition members (n : string) l : list PipelineTask :=
  List.filter (fun pt => String.eqb (group_name pt) n) l.

Definition count (p : PipelineTask -> bool) l : nat := length (List.filter p l).

Lemma members_snoc n l pt :
  members n (l ++ [pt]) = members n l ++ (if String.eqb (group_name pt) n then [pt] else []).
Proof. unfold members. rewrite List.filter_app. simpl. by destruct (String.eqb _ n). Qed.

Lemma count_snoc p l pt : count p (l ++ [pt]) = count p l + (if p pt then 1 else 0).
Proof. unfold count. rewrite List.filter_app, length_app. simpl. by destruct (p pt). Qed.

Lemma count_pos p l : 0 < count p l <-> existsb p l = true.
Proof.
  unfold count. induction l as [|pt l IH]; simpl; [split; [lia|done]|].
  destruct (p pt); simpl; [split; [done|lia]|exact IH].
Qed.

Lemma count_all p l : count p l = length l <-> forallb p l = true.
Proof.
  unfold count. induction l as [|pt l IH]; simpl; [done|].
  pose proof (List.filter_length_le p l). destruct (p pt); simpl; [rewrite <- IH; lia|split; [lia|done]].
Qed.

Lemma ok_not_failed pt : run_ok pt = true -> run_failed pt = false.
Proof.
  unfold run_ok, run_failed. destruct (outcomes !! pt_Name pt); [|done].
  intros ->%String.eqb_eq. done.
Qed.

Definition group_agg n l : option agg :=
  match members n l with
  | [] => None
  | ms => Some (mkagg (length ms) (count run_ok ms) (count run_failed ms))
  end.

Definition status_fold l : status_acc := foldl (status_step outcomes) (mkstatus_acc ∅ [] true) l.

Lemma status_step_spec acc pt :
  status_step outcomes acc pt =
    let g := default (mkagg 0 0 0) (sa_groups acc !! group_name pt) in
    mkstatus_acc
      (<[group_name pt := mkagg (S (ag_all g)) (ag_ok g + if run_ok pt then 1 else 0)
                            (ag_failed g + if run_failed pt then 1 else 0)]> (sa_groups acc))
      (match sa_groups acc !! group_name pt with
       | Some _ => sa_order acc
       | None => sa_order acc ++ [group_name pt]
       end)
      (sa_allDone acc && run_recorded pt).
Proof.
  unfold status_step, run_ok, run_failed, run_recorded.
  destruct (sa_groups acc !! group_name pt) as [[g_all g_ok g_failed]|];
    cbn [default from_option id ag_all ag_ok ag_failed];
    (destruct (outcomes !! pt_Name pt) as [oc|]; [|by rewrite ?andb_false_r, ?Nat.add_0_r]);
    rewrite andb_true_r; (destruct (String.eqb_spec (oc_Status oc) "succeeded") as [->|];
      [by cbn; rewrite ?Nat.add_0_r, ?Nat.add_1_r|]);
    destruct (is_failed_status (oc_Status oc)); cbn [ag_all ag_ok ag_failed];
    by rewrite ?Nat.add_0_r, ?Nat.add_1_r.
Qed.

Lemma status_fold_spec l :
  (forall n, sa_groups (status_fold l) !! n = group_agg n l) /\
  NoDup (sa_order (status_fold l)) /\
  (forall n, n ∈ sa_order (status_fold l) <-> members n l <> []) /\
  sa_allDone (status_fold l) = forallb run_recorded l.
Proof.
  induction l as [|pt l (Hg & Hnd & Hord & Hall)] using rev_ind.
  { split_and!; [intros n; apply lookup_empty|constructor| |done].
    intros n. split; [by intros ?%not_elem_of_nil|done]. }
  unfold status_fold in *. rewrite foldl_app. simpl.
  set (acc := foldl (status_step outcomes) _ l) in *.
  assert (forall n, group_agg n (l ++ [pt]) =
    if String.eqb (group_name pt) n
    then let g := default (mkagg 0 0 0) (group_agg n l) in
         Some (mkagg (S (ag_all g)) (ag_ok g + if run_ok pt then 1 else 0)
                 (ag_failed g + if run_failed pt then 1 else 0))
    else group_agg n l) as Hagg.
  { intros n. unfold group_agg. rewrite members_snoc. destruct (String.eqb (group_name pt) n);
      [|by rewrite app_nil_r].
    destruct (members n l) as [|m ms]; [cbn; unfold count; simpl; by destruct (run_ok pt), (run_failed pt)|].
    cbn [app default from_option id]. rewrite !app_comm_cons, !count_snoc, length_app. simpl.
    do 2 f_equal. lia. }
  assert (forall n, members n (l ++ [pt]) <> [] <-> members n l <> [] \/ n = group_name pt) as Hmem.
  { intros n. rewrite members_snoc. destruct (String.eqb_spec (group_name pt) n) as [<-|Hne].
    - split; [by right|]. intros _ H. by apply app_eq_nil in H as [_ ?].
    - rewrite app_nil_r. split; [by left|]. by intros [?|?]. }
  rewrite status_step_spec. cbn [sa_groups sa_order sa_allDone]. split_and!.
  - intros n. rewrite Hagg, <- Hg. destruct (String.eqb_spec (group_name pt) n) as [<-|Hne].
    + by rewrite lookup_insert_eq.
    + by rewrite lookup_insert_ne.
  - destruct (sa_groups acc !! group_name pt) eqn:E; [done|].
    apply NoDup_app. split_and!; [done| |apply NoDup_singleton].
    intros x Hx ->%list_elem_of_singleton. rewrite Hg in E. apply Hord in Hx. unfold group_agg in E.
    by destruct (members (group_name pt) l).
  - intros n. rewrite Hmem, <- Hord. destruct (sa_groups acc !! group_name pt) eqn:E.
    + split; [by left|]. intros [?| ->]; [done|]. apply Hord. rewrite Hg in E. unfold group_agg in E.
      by destruct (members (group_name pt) l).
    + by rewrite elem_of_app, list_elem_of_singleton.
  - rewrite forallb_app, <- Hall. simpl. by rewrite andb_true_r.
Qed.

(** The status of a pipeline task from its runs. *)
Definition task_status n l : string :=
  if existsb run_failed (members n l) then execFailed
  else if forallb run_ok (members n l) then execSucceeded
  else execNone.

Lemma group_status_spec n l :
  members n l <> [] ->
  group_status (default (mkagg 0 0 0) (group_agg n l)) = task_status n l.
Proof.
  intros Hm. unfold group_agg, task_status. destruct (members n l) as [|m ms] eqn:E; [done|].
  rewrite <- E. clear E Hm. cbn [default from_option id]. unfold group_status. cbn [ag_failed ag_ok ag_all].
  pose proof (count_pos run_failed (members n l)) as Hf. pose proof (count_all run_ok (members n l)) as Ho.
  destruct (0 <? count run_failed (members n l)) eqn:E1;
    rewrite ?Nat.ltb_lt, ?Nat.ltb_ge in E1.
  - by apply Hf in E1 as ->.
  - destruct (existsb run_failed (members n l)); [specialize (proj2 Hf eq_refl); lia|].
    destruct (count run_ok (members n l) =? length (members n l)) eqn:E2;
      rewrite ?Nat.eqb_eq, ?Nat.eqb_neq in E2; [by apply Ho in E2 as ->|].
    destruct (forallb run_ok (members n l)); [by destruct E2; apply Ho|done].
Qed.

Lemma elem_of_members n l pt : pt ∈ members n l <-> pt ∈ l /\ group_name pt = n.
Proof. rewrite !list_elem_of_In. unfold members. by rewrite List.filter_In, String.eqb_eq. Qed.

Lemma existsb_ext_in {A} (f g : A -> bool) (xs : list A) :
  (forall x, x ∈ xs -> f x = g x) -> existsb f xs = existsb g xs.
Proof.
  induction xs as [|x xs IH]; intros Hfg; [done|]. simpl.
  rewrite Hfg by (apply elem_of_cons; by left). f_equal. apply IH. intros y Hy.
  apply Hfg, elem_of_cons. by right.
Qed.

(** A pipeline task is Failed iff one of its runs failed. *)
Lemma any_failed_status l (order : list string) :
  (forall n, n ∈ order <-> members n l <> []) ->
  existsb (fun n => String.eqb (task_status n l) execFailed) order = existsb run_failed l.
Proof.
  intros Hord. apply eq_true_iff_eq. rewrite !existsb_exists. split.
  - intros (n & _ & Hs). unfold task_status in Hs.
    destruct (existsb run_failed (members n l)) eqn:E; [|by destruct (forallb run_ok _)].
    apply existsb_exists in E as (pt & [Hpt _]%list_elem_of_In%elem_of_members & Hf).
    exists pt. by rewrite <- list_elem_of_In.
  - intros (pt & Hpt%list_elem_of_In & Hf).
    assert (pt ∈ members (group_name pt) l) as Hm by by apply elem_of_members.
    exists (group_name pt). split.
    + apply list_elem_of_In, Hord. intros E. rewrite E in Hm. by apply not_elem_of_nil in Hm.
    + unfold task_status. assert (existsb run_failed (members (group_name pt) l) = true) as ->; [|done].
      apply existsb_exists. exists pt. by rewrite <- list_elem_of_In.
Qed.

Lemma any_none_status l (order : list string) :
  (forall n, n ∈ order <-> members n l <> []) -> existsb run_failed l = false ->
  existsb (fun n => String.eqb (task_status n l) execNone) order = negb (forallb run_ok l).
Proof.
  intros Hord Hnf.
  assert (forall n, existsb run_failed (members n l) = false) as Hnone.
  { intros n. apply not_true_iff_false. rewrite existsb_exists. intros (pt & Hpt & Hf).
    apply list_elem_of_In, elem_of_members in Hpt as [Hpt _]. apply not_true_iff_false in Hnf.
    apply Hnf, existsb_exists. exists pt. by rewrite <- list_elem_of_In. }
  apply eq_true_iff_eq. rewrite existsb_exists, negb_true_iff, <- not_true_iff_false, forallb_forall. split.
  - intros (n & _ & Hs) Hall. unfold task_status in Hs. rewrite Hnone in Hs.
    assert (forallb run_ok (members n l) = true) as E; [|by rewrite E in Hs].
    apply forallb_forall. intros pt [Hpt _]%list_elem_of_In%elem_of_members. by apply Hall, list_elem_of_In.
  - intros Hn. destruct (forallb run_ok l) eqn:E; [by destruct Hn; apply forallb_forall|].
    assert (exists pt, pt ∈ l /\ run_ok pt = false) as (pt & Hpt & Hok).
    { clear -E. induction l as [|x l IH]; [done|]. simpl in E.
      destruct (run_ok x) eqn:Ex.
      - destruct (IH E) as (pt & ? & ?). exists pt. split; [by apply elem_of_cons; right|done].
      - exists x. split; [by apply elem_of_cons; left|done]. }
    assert (pt ∈ members (group_name pt) l) as Hm by by apply elem_of_members.
    exists (group_name pt). split.
    + apply list_elem_of_In, Hord. intros Em. rewrite Em in Hm. by apply not_elem_of_nil in Hm.
    + unfold task_status. rewrite Hnone. destruct (forallb run_ok (members _ l)) eqn:Ea; [|done].
      rewrite forallb_forall in Ea. specialize (Ea pt). rewrite <- list_elem_of_In in Ea.
      by rewrite Ea in Hok.
Qed.

Lemma fold_insert_lookup (f : string -> string) ns n :
  foldl (fun (m : gmap string string) x => <[x := f x]> m) ∅ ns !! n =
    if decide (n ∈ ns) then Some (f n) else None.
Proof.
  induction ns as [|x ns IH] using rev_ind; [by rewrite decide_False by apply not_elem_of_nil|].
  rewrite foldl_app. simpl. destruct (decide (x = n)) as [->|Hne].
  - rewrite lookup_insert_eq, decide_True; [done|]. apply elem_of_app; right. by apply list_elem_of_singleton.
  - rewrite lookup_insert_ne, IH by done.
    destruct (decide (n ∈ ns)); [rewrite decide_True; [done|]|rewrite decide_False; [done|]].
    + apply elem_of_app; by left.
    + rewrite elem_of_app, list_elem_of_singleton. intros [?| ->]; done.
Qed.
End FinallyFacts.

(** ** Examples *)
Section Examples.
#[local] Existing Instance core_unit.

Definition ex_consumer : PipelineTask :=
  mkPipelineTask "deploy" "" None (Some zero_TaskSpec)
    [mkParam "tag" (StringParam "v-$(tasks.build.results.tag)-$(tasks.lint.results.out[*])")] [] []
    [mkWhenExpression "$(tasks.check.results.ok[0])" "In" ["yes"]] 0 "" None None.

Example ex_edges : implicitParamEdges ex_consumer = ["build"; "check"; "lint"].
Proof. vm_compute. reflexivity. Qed.
Example ex_when : evaluateWhen [mkWhenExpression "$(params.who)" "IN" ["world"]; mkWhenExpression "x" "NotIn" ["$(params.a[*])"]] ex_ctx
  = Ok (false, "input=x NotIn $(params.a[*])").
Proof. vm_compute. reflexivity. Qed.
End Examples.

(** ** Properties *)

(** What one expression asks for: its input and values resolve, and the input is
    among the values for [in], not among them for [notin], in any letter case. *)
Definition when_holds (ctx : Context) (w : WhenExpression) : Prop :=
  exists input values, Substitute (we_Input w) ctx = Ok input /\ SubstituteArgs (we_Values w) ctx = Ok values /\
    (to_lower (we_Operator w) = "in" -> input ∈ values) /\
    (to_lower (we_Operator w) = "notin" -> input ∉ values).

Lemma existsb_eqb_elem (x : string) l : existsb (String.eqb x) l = bool_decide (x ∈ l).
Proof.
  apply eq_true_iff_eq. rewrite bool_decide_eq_true, existsb_exists. split.
  - intros (y & Hy & ->%String.eqb_eq). by apply list_elem_of_In.
  - intros Hx. exists x. split; [by apply list_elem_of_In|apply String.eqb_refl].
Qed.

Lemma when_step_holds ctx w : when_step ctx w = Ok None <-> when_holds ctx w.
Proof.
  unfold when_step, when_holds. destruct (Substitute (we_Input w) ctx) as [input|e]; simpl;
    [|split; [done|]; by intros (? & ? & ? & _)].
  destruct (SubstituteArgs (we_Values w) ctx) as [values|e]; simpl;
    [|split; [done|]; by intros (? & ? & _ & ? & _)].
  rewrite existsb_eqb_elem. split.
  - intros H. exists input, values. split_and!; [done|done|intros Hop|intros Hop]; rewrite Hop in H; simpl in H.
    + by case_bool_decide.
    + by case_bool_decide.
  - intros (? & ? & [= <-] & [= <-] & Hin & Hnot).
    destruct (String.eqb_spec (to_lower (we_Operator w)) "in") as [Hop|].
    + by rewrite bool_decide_true by auto.
    + destruct (String.eqb_spec (to_lower (we_Operator w)) "notin") as [Hop|]; [|done].
      by rewrite bool_decide_false by auto.
Qed.

(** [evaluateWhen] accepts exactly when every expression holds; otherwise it
    stops at the first one that does not, reporting that expression with its
    resolved input, or its resolution error. *)
Theorem evaluateWhen_correct (exprs : list WhenExpression) (ctx : Context) :
  match evaluateWhen exprs ctx with
  | Ok (true, reason) => reason = "" /\ Forall (when_holds ctx) exprs
  | Ok (false, reason) =>
    exists l1 w l2 input, exprs = l1 ++ w :: l2 /\ Forall (when_holds ctx) l1 /\ ~ when_holds ctx w /\
      Substitute (we_Input w) ctx = Ok input /\ reason = formatWhen w input
  | Err e =>
    exists l1 w l2, exprs = l1 ++ w :: l2 /\ Forall (when_holds ctx) l1 /\
      (Substitute (we_Input w) ctx = Err e \/ SubstituteArgs (we_Values w) ctx = Err e)
  end.
Proof.
  induction exprs as [|w exprs IH]; [by split|]. simpl.
  destruct (when_step ctx w) as [[reason|]|e] eqn:Hw.
  - exists [], w, exprs. assert (~ when_holds ctx w) as Hn by (rewrite <- when_step_holds; congruence).
    unfold when_step in Hw. destruct (Substitute (we_Input w) ctx) as [input|]; [|done].
    exists input. split_and!; try done. simpl in Hw. destruct (SubstituteArgs _ _); [|done].
    simpl in Hw. by repeat case_match; simplify_eq.
  - apply when_step_holds in Hw. destruct (evaluateWhen exprs ctx) as [[[] reason]|e].
    + destruct IH. split; [done|by constructor].
    + destruct IH as (l1 & w' & l2 & input & -> & ? & ? & ? & ?).
      exists (w :: l1), w', l2, input. split_and!; try done. by constructor.
    + destruct IH as (l1 & w' & l2 & -> & ? & ?). exists (w :: l1), w', l2.
      split_and!; try done. by constructor.
  - exists [], w, exprs. split_and!; [done|done|]. unfold when_step in Hw.
    destruct (Substitute (we_Input w) ctx) as [input|]; [|left; by injection Hw as ->]. right.
    simpl in Hw. destruct (SubstituteArgs _ _); [|by injection Hw as ->]. simpl in Hw.
    by repeat case_match.
Qed.

(** a task waits on every task whose result one of its texts refers to,
    [$(tasks.N.results.R)], also with an index or star suffix, wherever it stands
    in the text; the list is duplicate-free and sorted. *)
Theorem implicitParamEdges_complete {K : CoreV1} (pt : PipelineTask) :
  (forall p n r sfx q, task_name_ok n = true -> result_name_ok r = true -> ref_suffix sfx ->
     p +:+ result_ref n r sfx +:+ q ∈ task_texts pt -> n ∈ implicitParamEdges pt) /\
  NoDup (implicitParamEdges pt) /\ StronglySorted String.le (implicitParamEdges pt).
Proof.
  split_and!; [|apply implicitParamEdges_NoDup|apply sort_strings_sorted].
  intros p n r sfx q Hn Hr Hs Hin. apply elem_of_implicitParamEdges.
  exists (p +:+ result_ref n r sfx +:+ q). split; [done|by apply scan_result_ref].
Qed.

(** [$(tasks.<t>.status)] is Failed when a run of [t] failed, else Succeeded
    when all its runs (all matrix rows) succeeded, else None, for exactly the
    pipeline tasks of [spec.tasks]; [$(tasks.status)] is None while a run has no
    outcome, else Failed when any run failed, else Succeeded when all succeeded,
    else Completed. *)
Theorem computeFinallyStatus_correct {K : CoreV1} (mainTasks : list PipelineTask)
    (outcomes : gmap string TaskOutcome) :
  (computeFinallyStatus mainTasks outcomes).1 =
    (if negb (forallb (run_recorded outcomes) mainTasks) then execNone
     else if existsb (run_failed outcomes) mainTasks then execFailed
     else if forallb (run_ok outcomes) mainTasks then execSucceeded
     else execCompleted) /\
  (forall n, (computeFinallyStatus mainTasks outcomes).2 !! n =
     match members n mainTasks with [] => None | _ => Some (task_status outcomes n mainTasks) end).
Proof.
  destruct (status_fold_spec outcomes mainTasks) as (Hg & _ & Hord & Hall).
  unfold computeFinallyStatus. fold (status_fold outcomes mainTasks).
  set (acc := status_fold outcomes mainTasks) in *.
  assert (forall n, n ∈ sa_order acc ->
    group_status (default (mkagg 0 0 0) (sa_groups acc !! n)) = task_status outcomes n mainTasks) as Hst.
  { intros n Hn. rewrite Hg. by apply group_status_spec, Hord. }
  split; simpl.
  - rewrite Hall. destruct (forallb (run_recorded outcomes) mainTasks); [|done]. simpl.
    assert (forall s, existsb (fun n => String.eqb (group_status (default (mkagg 0 0 0) (sa_groups acc !! n))) s)
        (sa_order acc) = existsb (fun n => String.eqb (task_status outcomes n mainTasks) s) (sa_order acc)) as Hex.
    { intros s. apply existsb_ext_in. intros n Hn. by rewrite Hst. }
    rewrite !Hex, (any_failed_status outcomes mainTasks _ Hord).
    destruct (existsb (run_failed outcomes) mainTasks) eqn:Ef; [done|].
    rewrite (any_none_status outcomes mainTasks _ Hord Ef). by destruct (forallb _ mainTasks).
  - intros n. rewrite fold_insert_lookup. destruct (decide (n ∈ sa_order acc)) as [Hn|Hn].
    + rewrite Hst by done. apply Hord in Hn. by destruct (members n mainTasks).
    + rewrite Hord in Hn. destruct (members n mainTasks); [done|]. by destruct Hn.
Qed.

(** every declared pipeline result is either in the run's results, with the
    value its expression resolves to, or reported as one dropped-result error,
    in declaration order; nothing undeclared appears. *)
Theorem resolvePipelineResults_correct {K : CoreV1} (pl : Pipeline)
    (results : gmap string (gmap string string))
    (Hnd : NoDup (map prs_Name (spec_Results (pl_Spec pl)))) :
  let entry spec := result_entry (results_context results) (prs_Value spec) in
  (forall spec v, spec ∈ spec_Results (pl_Spec pl) ->
     (resolvePipelineResults pl results).1 !! prs_Name spec = Some v <-> entry spec = Ok v) /\
  (forall n, n ∉ map prs_Name (spec_Results (pl_Spec pl)) -> (resolvePipelineResults pl results).1 !! n = None) /\
  (resolvePipelineResults pl results).2 =
    omap (fun spec => match entry spec with Ok _ => None | Err e => Some (dropped (prs_Name spec) e) end)
      (spec_Results (pl_Spec pl)).
Proof.
  intros entry. unfold resolvePipelineResults. revert Hnd.
  induction (spec_Results (pl_Spec pl)) as [|spec l IH] using rev_ind; intros Hnd.
  { split_and!; [by intros ? ? ?%not_elem_of_nil|intros n _; apply lookup_empty|done]. }
  rewrite map_app in Hnd. apply NoDup_app in Hnd as (Hl & Hdis & _).
  destruct (IH Hl) as (H1 & H2 & H3). clear IH. rewrite foldl_app, omap_app. simpl.
  set (acc := foldl _ _ l) in *. unfold results_step. fold (entry spec).
  assert (forall x, x ∈ l -> prs_Name x <> prs_Name spec) as Hne.
  { intros x Hx Heq. apply (Hdis (prs_Name x)); [by apply list_elem_of_fmap_2|].
    rewrite Heq. by apply list_elem_of_singleton. }
  assert (acc.1 !! prs_Name spec = None) as Hfresh.
  { apply H2. intros (x & Heq & Hx)%list_elem_of_fmap. by apply (Hne x). }
  split_and!.
  - intros x v [Hx| ->%list_elem_of_singleton]%elem_of_app.
    + rewrite <- (H1 x v Hx). destruct (entry spec); simpl; [|done].
      by rewrite lookup_insert_ne by (intros ?; by apply (Hne x)).
    + destruct (entry spec) eqn:E; simpl; [rewrite lookup_insert_eq; naive_solver|].
      rewrite Hfresh. by split.
  - intros n. rewrite map_app, not_elem_of_app. intros [Hn Hs].
    assert (n <> prs_Name spec) by (intros ->; apply Hs; by apply list_elem_of_singleton).
    destruct (entry spec); simpl; [rewrite lookup_insert_ne by done|]; by apply H2.
  - destruct (entry spec); simpl; rewrite H3; [by rewrite app_nil_r|done].
Qed.

(** [stableUID] has the shape of an RFC 4122 UUID: 36 characters, dashes
    after 8, 12, 16 and 20 digits, version 5, variant 8 to b. *)
Theorem stableUID_shape (seed : string) :
  String.length (stableUID seed) = 36 /\
  (forall i, i ∈ [8; 13; 18; 23] -> String.get i (stableUID seed) = Some "-"%char) /\
  String.get 14 (stableUID seed) = Some "5"%char /\
  (exists c, String.get 19 (stableUID seed) = Some c /\ c ∈ ["8"; "9"; "a"; "b"]%char).
Proof.
  unfold stableUID. pose proof (Sum256_length (bytes_of seed)) as Hlen.
  set (h := Sum256 (bytes_of seed)) in *. clearbody h.
  do 32 (destruct h as [|? h]; [done|]). destruct h; [|done]. clear Hlen.
  cbn [alter list_alter take drop Nat.sub]. rewrite !hex_cons. cbn [hex foldr].
  rewrite !str_app_cons, !str_app_nil_l. split_and!.
  - done.
  - intros i. rewrite !elem_of_cons. by intros [->|[->|[->|[->|?%not_elem_of_nil]]]].
  - cbn [String.get]. unfold mark_byte. rewrite Z.shiftr_lor, Z.shiftr_land.
    change (Z.shiftr 15 4) with 0%Z. by rewrite Z.land_0_r.
  - cbn [String.get]. eexists. split; [done|]. unfold mark_byte. rewrite Z.shiftr_lor, Z.shiftr_land.
    match goal with |- context [Z.land ?b (Z.shiftr 63 4)] =>
      change (Z.land b (Z.shiftr 63 4)) with (Z.land b (Z.ones 2)); rewrite Z.land_ones by lia;
      pose proof (Z.mod_pos_bound b (2 ^ 2)); generalize dependent (b mod 2 ^ 2)%Z end.
    intros y Hy. assert (y = 0 \/ y = 1 \/ y = 2 \/ y = 3)%Z as [->|[->|[->| ->]]] by lia;
      apply (bool_decide_eq_true_1 (_ ∈ _)); vm_compute; reflexivity.
Qed.

(** ** Witnesses *)
Lemma implicitParamEdges_complete_witness :
  "build" ∈ implicitParamEdges (K := core_unit) ex_consumer.
Proof.
  apply (proj1 (implicitParamEdges_complete (K := core_unit) ex_consumer) "v-" "build" "tag" ""
    "-$(tasks.lint.results.out[*])"); [reflexivity|reflexivity|constructor|].
  apply (bool_decide_eq_true_1 (_ ∈ _)); vm_compute; reflexivity.
Defined.

Definition ex_results_pl : Pipeline (K := core_unit) :=
  mkPipeline (mkObject "" "" (mkMetadata "p" "" ∅ ∅))
    (mkPipelineSpec "" "" [] [] [] []
      [mkPipelineResultSpec "a" "" (StringParam "$(tasks.t.results.r)"); mkPipelineResultSpec "b" "" (StringParam "$(tasks.u.results.r)")] None).

Lemma resolvePipelineResults_correct_witness :
  (resolvePipelineResults ex_results_pl {["t" := {["r" := "1"]}]}).1 !! "a" = Some (RVString "1").
Proof.
  destruct (resolvePipelineResults_correct ex_results_pl {["t" := {["r" := "1"]}]}) as (H & _ & _).
  { apply (bool_decide_eq_true_1 (NoDup _)); vm_compute; reflexivity. }
  apply (H (mkPipelineResultSpec "a" "" (StringParam "$(tasks.t.results.r)")) (RVString "1")).
  - apply elem_of_cons; by left.
  - vm_compute. reflexivity.
Defined.
