(* ===== verification/Steps.v ===== *)
(** * From a Task's spec to the containers that run

    internal/engine/step_action.go, step_template.go and the substitution of
    engine.go ([substituteSpec], [substituteContainer], [uniqueImages],
    [lookupTaskSpec]); [checkDockerSupport] of internal/backend/docker/security.go
    with the SecurityContext translation as a parameter. *)

From S2P Require Import Prelude GoStrings TektonTypes Resolver Run.

Section Steps.
Context {K : CoreV1}.

(** ** step_action.go *)

Definition nonempty_list {A} (l : list A) : bool := match l with [] => false | _ => true end.
Definition is_set (s : string) : bool := negb (String.eqb s "").
Definition is_some {A} (o : option A) : bool := match o with Some _ => true | None => false end.

Definition assertNoInlineBody (st : Step) : result unit :=
  if is_set (st_Image st) || nonempty_list (st_Command st) || nonempty_list (st_Args st)
     || is_set (st_Script st) || nonempty_list (st_Env st) || is_set (st_WorkingDir st)
     || is_set (st_ImagePullPolicy st) || is_some (st_Resources st) || nonempty_list (st_Results st)
  then Err (Fmt "step %q: ref and inline body are mutually exclusive" [TStr (st_Name st)])
  else Ok tt.

Definition sa_Name (a : StepAction) : string := md_Name (ob_Metadata (sa_Object a)).

(** Declared defaults: only string ones. *)
Definition action_default (st : Step) (action : StepAction) (params : gmap string string) (decl : ParamSpec)
    : result (gmap string string) :=
  match ps_Default decl with
  | None => Ok params
  | Some d =>
    if negb (is_string_type (pv_Type d)) then
      Err (Fmt "step %q (StepAction %q): param %q default type %q is not supported (only string defaults)"
             [TStr (st_Name st); TStr (sa_Name action); TStr (ps_Name decl); TStr (pv_Type d)])
    else Ok (<[ps_Name decl := pv_StringVal d]> params)
  end.

(** The StepAction's own param view: defaults, then the caller's values. *)
Definition action_params (st : Step) (action : StepAction) : result (gmap string string) :=
  params ← foldM (action_default st action) ∅ (sas_Params (sa_Spec action));
  Ok (foldl (fun (m : gmap string string) p => <[p_Name p := pv_StringVal (p_Value p)]> m) params (st_Params st)).

Definition action_err {A} (st : Step) (action : StepAction) (r : result A) : result A :=
  wrap_err "step %q (StepAction %q): %w" [TStr (st_Name st); TStr (sa_Name action)] r.

(** [EnvVar{Name: e.Name, Value: v}]: [ValueFrom] is not copied. *)
Definition subst_env (sub : string -> result string) (e : EnvVar) : result EnvVar :=
  v ← sub (ev_Value e); Ok (mkEnvVar (ev_Name e) v None).

Definition inlineStepAction (st : Step) (action : StepAction) : result Step :=
  params ← action_params st action;
  let rctx := params_context params in
  let sub s := SubstituteAllowStepRefs s rctx in
  let body := sa_Spec action in
  image ← action_err st action (sub (sas_Image body));
  script ← action_err st action (sub (sas_Script body));
  workdir ← action_err st action (sub (sas_WorkingDir body));
  args ← action_err st action (SubstituteArgsAllowStepRefs (sas_Args body) rctx);
  cmd ← action_err st action (SubstituteArgsAllowStepRefs (sas_Command body) rctx);
  env ← action_err st action (collect (subst_env sub) (sas_Env body));
  Ok (mkStep (st_Name st) "" "" None [] image cmd args script env workdir (sas_Resources body)
        (sas_ImagePullPolicy body) None [] "" (st_OnError st) (sas_Results body)
        (sas_VolumeMounts body ++ st_VolumeMounts st)).

Definition resolve_step (b : Bundle) (st : Step) : result Step :=
  match st_Ref st with
  | None => Ok st
  | Some ref =>
    _ ← assertNoInlineBody st;
    match b_StepActions b !! sar_Name ref with
    | None => Err (Fmt "step %q: references unknown StepAction %q" [TStr (st_Name st); TStr (sar_Name ref)])
    | Some action => inlineStepAction st action
    end
  end.

Definition resolveStepActions (spec : TaskSpec) (b : Bundle) : result TaskSpec :=
  if negb (existsb (fun s => is_some (st_Ref s)) (ts_Steps spec)) then Ok spec
  else ts_set_Steps spec <$> collect (resolve_step b) (ts_Steps spec).

Definition task_set_Spec (t : Task) (s : TaskSpec) : Task := mkTask (task_Object t) s.

Definition expandPipelineTaskSpecs (b : Bundle) (pts : list PipelineTask) : result (list PipelineTask) :=
  collect (fun pt =>
    match pt_TaskSpec pt with
    | None => Ok pt
    | Some spec =>
      expanded ← wrap_err "PipelineTask %q: %w" [TStr (pt_Name pt)] (resolveStepActions spec b);
      Ok (pt_set_TaskSpec pt (Some expanded))
    end) pts.

Definition expandBundleStepActions `{MapRange} (b : Bundle) (pl : Pipeline)
    : result (gmap string Task * Pipeline) :=
  tasks ← collect (fun kv =>
    expanded ← wrap_err "task %q: %w" [TStr kv.1] (resolveStepActions (task_Spec kv.2) b);
    Ok (kv.1, task_set_Spec kv.2 expanded)) (map_range (b_Tasks b));
  main ← expandPipelineTaskSpecs b (spec_Tasks (pl_Spec pl));
  fin ← expandPipelineTaskSpecs b (spec_Finally (pl_Spec pl));
  Ok (list_to_map tasks, pl_set_tasks pl main fin).

(** ** step_template.go *)
Definition mergeEnv (tmpl step : list EnvVar) : list EnvVar := merge_named ev_Name tmpl step.

Definition or_string (s t : string) : string := if String.eqb s "" then t else s.
Definition or_list {A} (l m : list A) : list A := match l with [] => m | _ => l end.
Definition or_option {A} (o p : option A) : option A := match o with None => p | Some _ => o end.

Definition template_step (t : StepTemplate) (st : Step) : Step :=
  mkStep (st_Name st) (st_DisplayName st) (st_Description st) (st_Ref st) (st_Params st)
    (or_string (st_Image st) (tm_Image t))
    (or_list (st_Command st) (tm_Command t))
    (or_list (st_Args st) (tm_Args t))
    (st_Script st)
    (mergeEnv (tm_Env t) (st_Env st))
    (or_string (st_WorkingDir st) (tm_WorkingDir t))
    (or_option (st_Resources st) (tm_Resources t))
    (or_string (st_ImagePullPolicy st) (tm_ImagePullPolicy t))
    (or_option (st_SecurityContext st) (tm_SecurityContext t))
    (or_list (st_EnvFrom st) (tm_EnvFrom t))
    (st_Timeout st) (st_OnError st) (st_Results st) (st_VolumeMounts st).

Definition applyStepTemplate (spec : TaskSpec) : TaskSpec :=
  match ts_StepTemplate spec with
  | None => spec
  | Some t => ts_set_Steps spec (map (template_step t) (ts_Steps spec))
  end.

(** ** engine.go: [lookupTaskSpec] *)
Definition lookupTaskSpec (b : Bundle) (pt : PipelineTask) : result TaskSpec :=
  match pt_TaskSpec pt, pt_TaskRef pt with
  | Some spec, _ => Ok spec
  | None, Some r =>
    match b_Tasks b !! tr_Name r with
    | None => Err (Fmt "task %q not loaded" [TStr (tr_Name r)])
    | Some t => Ok (task_Spec t)
    end
  | None, None => Err (Fmt "pipeline task %q has neither taskRef nor taskSpec" [TStr (pt_Name pt)])
  end.

(** ** engine.go: [substituteSpec] *)
Record containerFields := mkcontainerFields {
  cf_image : string;
  cf_script : string;
  cf_workingDir : string;
  cf_command : list string;
  cf_args : list string;
  cf_env : list EnvVar;
}.

Section substituteContainer.
Variables (name kind : string).
Variable ctx : Context.
Variable sub : string -> Context -> result string.
Variable subArgs : list string -> Context -> result (list string).

Definition wrap_field {A} (field : string) (r : result A) : result A :=
  wrap_err "%s %q: %s: %w" [TStr kind; TStr name; TStr field] r.

Definition sub_list (field : string) (l : list string) : result (list string) :=
  match l with [] => Ok [] | _ => wrap_field field (subArgs l ctx) end.

Definition substituteContainer (input : containerFields) : result containerFields :=
  image ← wrap_field "image" (sub (cf_image input) ctx);
  script ← wrap_field "script" (sub (cf_script input) ctx);
  workingDir ← wrap_field "workingDir" (sub (cf_workingDir input) ctx);
  command ← sub_list "command" (cf_command input);
  args ← sub_list "args" (cf_args input);
  env ← collect (fun e => wrap_field ("env " +:+ ev_Name e) (subst_env (fun s => sub s ctx) e)) (cf_env input);
  Ok (mkcontainerFields image script workingDir command args env).
End substituteContainer.

Definition step_fields (st : Step) : containerFields :=
  mkcontainerFields (st_Image st) (st_Script st) (st_WorkingDir st) (st_Command st) (st_Args st) (st_Env st).

Definition sidecar_fields (sc : Sidecar) : containerFields :=
  mkcontainerFields (sc_Image sc) (sc_Script sc) (sc_WorkingDir sc) (sc_Command sc) (sc_Args sc) (sc_Env sc).

Definition step_set_fields (st : Step) (f : containerFields) : Step :=
  mkStep (st_Name st) (st_DisplayName st) (st_Description st) (st_Ref st) (st_Params st)
    (cf_image f) (cf_command f) (cf_args f) (cf_script f) (cf_env f) (cf_workingDir f)
    (st_Resources st) (st_ImagePullPolicy st) (st_SecurityContext st) (st_EnvFrom st)
    (st_Timeout st) (st_OnError st) (st_Results st) (st_VolumeMounts st).

Definition sidecar_set_fields (sc : Sidecar) (f : containerFields) : Sidecar :=
  mkSidecar (sc_Name sc) (cf_image f) (cf_command f) (cf_args f) (cf_script f) (cf_env f)
    (cf_workingDir f) (sc_Resources sc) (sc_VolumeMounts sc) (sc_Workspaces sc) (sc_Ports sc)
    (sc_ImagePullPolicy sc) (sc_SecurityContext sc) (sc_EnvFrom sc).

Definition subst_step (ctx : Context) (st : Step) : result Step :=
  step_set_fields st <$>
    substituteContainer (st_Name st) "step" ctx SubstituteDeferStepRefs SubstituteArgsDeferStepRefs (step_fields st).

Definition subst_sidecar (ctx : Context) (sc : Sidecar) : result Sidecar :=
  sidecar_set_fields sc <$>
    substituteContainer (sc_Name sc) "sidecar" ctx Substitute SubstituteArgs (sidecar_fields sc).

Definition substituteSpec (spec : TaskSpec) (ctx : Context) : result TaskSpec :=
  steps ← collect (subst_step ctx) (ts_Steps spec);
  sidecars ← collect (subst_sidecar ctx) (ts_Sidecars spec);
  Ok (ts_set_Sidecars (ts_set_Steps spec steps) sidecars).

(** ** engine.go: [uniqueImages] *)
Definition pullable (img : string) : bool := is_set img && negb (contains img "$(").

Definition is_resolver_ref (pt : PipelineTask) : bool :=
  match pt_TaskRef pt with Some r => is_set (tr_Resolver r) | None => false end.

(** The images one PipelineTask contributes. *)
Definition task_images (b : Bundle) (pt : PipelineTask) : list string :=
  if is_resolver_ref pt then [] else
  let spec := match pt_TaskRef pt with
              | Some r => match b_Tasks b !! tr_Name r with Some t => task_Spec t | None => zero_TaskSpec end
              | None => default zero_TaskSpec (pt_TaskSpec pt)
              end in
  let spec := match resolveStepActions spec b with Ok expanded => expanded | Err _ => spec end in
  let spec := applyStepTemplate spec in
  List.filter pullable (map st_Image (ts_Steps spec) ++ map sc_Image (ts_Sidecars spec)).

Definition images_of (b : Bundle) (pl : Pipeline) : gmap string unit :=
  foldl (fun (m : gmap string unit) img => <[img := tt]> m) ∅ (flat_map (task_images b) (all_tasks pl)).

Definition uniqueImages `{MapRange} (b : Bundle) (pl : Pipeline) : list string := set_range (images_of b pl).

(** ** internal/backend/docker/security.go: [checkDockerSupport] *)
Section DockerSupport.
(** [applySecurityContext] on a fresh config: the field it rejects. *)
Variable applySecurityContext : option SecurityContext -> option text.
(** [parseStepTimeout]. *)
Variable parseStepTimeout : string -> result Z.

Definition env_from_error (owner : text) (env : list EnvVar) : option text :=
  match List.find (fun e => is_some (ev_ValueFrom e)) env with
  | None => None
  | Some e =>
    Some (Fmt "%s: env %q uses valueFrom, which is not supported on the docker backend (use --cluster, or set env[].value)"
            [TErr owner; TStr (ev_Name e)])
  end.

Definition checkContainerSupport (owner : text) (env : list EnvVar) (envFrom : list EnvFromSource)
    (sc : option SecurityContext) : option text :=
  if nonempty_list envFrom then
    Some (Fmt "%s: envFrom is not supported on the docker backend (use --cluster, or inline the values with env[].value)"
            [TErr owner])
  else match env_from_error owner env with
       | Some e => Some e
       | None => match applySecurityContext sc with
                 | Some e => Some (Fmt "%s: %w" [TErr owner; TErr e])
                 | None => None
                 end
       end.

Definition check_step (st : Step) : option text :=
  match checkContainerSupport (Fmt "step %q" [TStr (st_Name st)]) (st_Env st) (st_EnvFrom st)
          (st_SecurityContext st) with
  | Some e => Some e
  | None =>
    if is_set (st_Timeout st) then
      match parseStepTimeout (st_Timeout st) with
      | Err e => Some (Fmt "step %q: %w" [TStr (st_Name st); TErr e])
      | Ok _ => None
      end
    else None
  end.

Definition check_sidecar (sc : Sidecar) : option text :=
  checkContainerSupport (Fmt "sidecar %q" [TStr (sc_Name sc)]) (sc_Env sc) (sc_EnvFrom sc)
    (sc_SecurityContext sc).

Definition first_error {A} (f : A -> option text) (l : list A) : option text := head (omap f l).

Definition checkDockerSupport (spec : TaskSpec) : option text :=
  match first_error check_step (ts_Steps spec) with
  | Some e => Some e
  | None => first_error check_sidecar (ts_Sidecars spec)
  end.
End DockerSupport.
End Steps.

(** ** Lemmas *)
Section StepFacts.
Context {K : CoreV1}.
Implicit Types (st : Step) (b : Bundle) (spec : TaskSpec).

Lemma inlineStepAction_fields st action st' :
  inlineStepAction st action = Ok st' ->
  st_Name st' = st_Name st /\ st_OnError st' = st_OnError st /\ st_Ref st' = None /\
  st_VolumeMounts st' = sas_VolumeMounts (sa_Spec action) ++ st_VolumeMounts st /\
  st_SecurityContext st' = None /\ st_EnvFrom st' = [] /\ st_Timeout st' = "".
Proof.
  unfold inlineStepAction. do 7 bind_ok. by intros [= <-].
Qed.

Lemma resolve_step_ok b st st' :
  resolve_step b st = Ok st' ->
  st_Ref st' = None /\ st_Name st' = st_Name st /\ st_OnError st' = st_OnError st /\
  (st_Ref st = None -> st' = st) /\
  (forall ref, st_Ref st = Some ref -> exists action,
     b_StepActions b !! sar_Name ref = Some action /\ inlineStepAction st action = Ok st').
Proof.
  unfold resolve_step. destruct (st_Ref st) as [ref|] eqn:Hr; [|intros [= <-]; by rewrite Hr].
  destruct (assertNoInlineBody st); simpl; [|done].
  destruct (b_StepActions b !! sar_Name ref) as [action|] eqn:Ha; [|done]. intros Hi.
  destruct (inlineStepAction_fields _ _ _ Hi) as (? & ? & ? & _).
  split_and!; try done. intros ref' [= <-]. by exists action.
Qed.

(** Both branches of [resolveStepActions] are the step-wise resolution. *)
Lemma resolveStepActions_collect spec b :
  resolveStepActions spec b = ts_set_Steps spec <$> collect (resolve_step b) (ts_Steps spec).
Proof.
  unfold resolveStepActions. destruct (existsb _ (ts_Steps spec)) eqn:E; [done|]. simpl.
  assert (collect (resolve_step b) (ts_Steps spec) = Ok (ts_Steps spec)) as ->.
  { apply collect_ok_Forall2. revert E. generalize (ts_Steps spec) as l. induction l as [|st l IH]; [done|].
    simpl. intros [E1 E2]%orb_false_iff. constructor; [|by apply IH].
    unfold resolve_step. by destruct (st_Ref st). }
  by destruct spec.
Qed.

Lemma subst_env_none sub e e' : subst_env sub e = Ok e' -> ev_ValueFrom e' = None /\ ev_Name e' = ev_Name e.
Proof. unfold subst_env. destruct (sub (ev_Value e)); simpl; [|done]. by intros [= <-]. Qed.

Lemma substituteContainer_env name kind ctx sub subArgs f f' :
  substituteContainer name kind ctx sub subArgs f = Ok f' ->
  Forall (fun e => ev_ValueFrom e = None) (cf_env f') /\ map ev_Name (cf_env f') = map ev_Name (cf_env f).
Proof.
  unfold substituteContainer. do 5 bind_ok.
  destruct (collect _ (cf_env f)) as [env|] eqn:Eenv; [|done]. intros [= <-]. cbn [cf_env].
  apply collect_ok_Forall2 in Eenv. clear -Eenv. induction Eenv as [|x y l1 l2 Hxy _ [IH1 IH2]]; [done|].
  unfold wrap_field, wrap_err in Hxy. destruct (subst_env _ x) eqn:Es; [|done]. injection Hxy as ->.
  apply subst_env_none in Es as [? ?]. simpl. split; [by constructor|by f_equal].
Qed.

Lemma fmap_Ok {A B} (f : A -> B) (r : result A) y : f <$> r = Ok y -> exists x, r = Ok x /\ y = f x.
Proof. destruct r; [|done]. intros [= <-]. eauto. Qed.

Lemma substituteSpec_steps spec ctx spec' :
  substituteSpec spec ctx = Ok spec' ->
  Forall2 (fun st st' => subst_step ctx st = Ok st') (ts_Steps spec) (ts_Steps spec') /\
  Forall2 (fun sc sc' => subst_sidecar ctx sc = Ok sc') (ts_Sidecars spec) (ts_Sidecars spec').
Proof.
  unfold substituteSpec. do 2 bind_ok. intros [= <-].
  by rewrite !collect_ok_Forall2 in *.
Qed.

Lemma subst_step_env ctx st st' :
  subst_step ctx st = Ok st' -> Forall (fun e => ev_ValueFrom e = None) (st_Env st').
Proof. intros (f & Hf & ->)%fmap_Ok. by apply substituteContainer_env in Hf as [? _]. Qed.

Lemma subst_sidecar_env ctx sc sc' :
  subst_sidecar ctx sc = Ok sc' -> Forall (fun e => ev_ValueFrom e = None) (sc_Env sc').
Proof. intros (f & Hf & ->)%fmap_Ok. by apply substituteContainer_env in Hf as [? _]. Qed.

Lemma env_from_error_none owner env :
  Forall (fun e => ev_ValueFrom e = None) env -> env_from_error owner env = None.
Proof.
  unfold env_from_error. intros He. destruct (List.find _ env) as [e|] eqn:E; [|done].
  apply List.find_some in E as [Hin Hs]. eapply Forall_forall in He; [|by apply list_elem_of_In].
  by rewrite He in Hs.
Qed.

Lemma images_of_lookup b pl img :
  is_Some (images_of b pl !! img) <-> exists pt, pt ∈ all_tasks pl /\ img ∈ task_images b pt.
Proof.
  unfold images_of.
  assert (forall l, is_Some (foldl (fun (m : gmap string unit) img => <[img := tt]> m) ∅ l !! img) <-> img ∈ l) as H.
  { induction l as [|x l IH] using rev_ind.
    - simpl. rewrite lookup_empty. split; [by intros [? ?]|by intros ?%not_elem_of_nil].
    - rewrite foldl_app, elem_of_app, list_elem_of_singleton. simpl. destruct (decide (x = img)) as [->|Hne].
      + rewrite lookup_insert_eq. split; [by right|by eexists].
      + rewrite lookup_insert_ne, IH by done. split; [by left|]. intros [?| ->]; done. }
  rewrite H, list_elem_of_In, in_flat_map. by setoid_rewrite <- list_elem_of_In.
Qed.
End StepFacts.

(** ** Examples *)
Section Examples.
#[local] Existing Instance core_unit.

(** A StepAction with one param, called with a Task-level reference. *)
Definition ex_action : StepAction :=
  mkStepAction (mkObject "" "" (mkMetadata "greet" "" ∅ ∅))
    (mkStepActionSpec "" [mkParamSpec "who" "" "" (Some (StringParam "nobody"))] [] "alpine" [] ["$(params.who)"; "$(params.task)"]
       "" [] "" "" None []).

Definition ex_call : Step :=
  mkStep "s" "" "" (Some (mkStepActionRef "greet")) [mkParam "who" (StringParam "$(params.name)")]
    "" [] [] "" [] "" None "" (Some tt) [] "5s" "continue" [] [].

Definition ex_steps_bundle : Bundle := mkBundle ∅ ∅ [] {["greet" := ex_action]}.
Definition ex_steps_spec : TaskSpec := ts_set_Steps zero_TaskSpec [ex_call].

(** An env var read from a Secret. *)
Definition ex_secret_spec : TaskSpec :=
  ts_set_Steps zero_TaskSpec
    [mkStep "s" "" "" None [] "alpine" [] [] "" [mkEnvVar "TOKEN" "" (Some tt)] "" None "" None [] "" "" [] []].
End Examples.

(** ** Properties *)
Section StepProperties.
Context {K : CoreV1}.

(** after [resolveStepActions] no step carries a ref; steps keep their number,
    names, order and [onError]; a step without a ref is untouched, and a step
    with one is the loaded StepAction's body inlined. *)
Theorem resolveStepActions_correct (spec spec' : TaskSpec) (b : Bundle)
    (Hok : resolveStepActions spec b = Ok spec') :
  Forall2 (fun st st' =>
    st_Ref st' = None /\ st_Name st' = st_Name st /\ st_OnError st' = st_OnError st /\
    (st_Ref st = None -> st' = st) /\
    (forall ref, st_Ref st = Some ref -> exists action,
       b_StepActions b !! sar_Name ref = Some action /\ inlineStepAction st action = Ok st'))
    (ts_Steps spec) (ts_Steps spec') /\
  resolveStepActions spec' b = Ok spec'.
Proof.
  rewrite resolveStepActions_collect in Hok. apply fmap_Ok in Hok as (steps & Hs & ->).
  apply collect_ok_Forall2 in Hs. simpl. split.
  - eapply Forall2_impl; [exact Hs|]. intros st st'. apply resolve_step_ok.
  - unfold resolveStepActions. cbn [ts_Steps ts_set_Steps].
    assert (existsb (fun s => is_some (st_Ref s)) steps = false) as ->; [|done].
    induction Hs as [|st st' l l' Hst _ IH]; [done|]. simpl.
    apply resolve_step_ok in Hst as (-> & _). exact IH.
Qed.

(** a code defect.  A step that calls a StepAction may carry a
    securityContext, envFrom and timeout ([assertNoInlineBody] does not look at
    them), but the inlined step has none of them: they are dropped silently. *)
Theorem stepaction_call_drops_security (b : Bundle) (st st' : Step) (ref : StepActionRef)
    (Href : st_Ref st = Some ref) (Hok : resolve_step b st = Ok st') :
  st_SecurityContext st' = None /\ st_EnvFrom st' = [] /\ st_Timeout st' = "".
Proof.
  apply resolve_step_ok in Hok as (_ & _ & _ & _ & Hi).
  destruct (Hi ref Href) as (action & _ & H).
  by apply inlineStepAction_fields in H as (_ & _ & _ & _ & ? & ? & ?).
Qed.

(** a code defect.  Substitution rebuilds every env entry without its
    [valueFrom], so the docker backend's check for unsupported [valueFrom]
    entries, which runs on the substituted spec, never fires: the variable
    is passed on with an empty value instead. *)
Theorem valueFrom_check_never_fires (spec spec' : TaskSpec) (ctx : Context)
    (Hok : substituteSpec spec ctx = Ok spec') :
  (forall st owner, st ∈ ts_Steps spec' -> env_from_error owner (st_Env st) = None) /\
  (forall sc owner, sc ∈ ts_Sidecars spec' -> env_from_error owner (sc_Env sc) = None).
Proof.
  apply substituteSpec_steps in Hok as [Hst Hsc]. split.
  - intros st owner Hin. apply env_from_error_none.
    destruct (list_elem_of_lookup_1 _ _ Hin) as [i Hi].
    destruct (Forall2_lookup_r _ _ _ _ _ Hst Hi) as (? & _ & H). by eapply subst_step_env.
  - intros sc owner Hin. apply env_from_error_none.
    destruct (list_elem_of_lookup_1 _ _ Hin) as [i Hi].
    destruct (Forall2_lookup_r _ _ _ _ _ Hsc Hi) as (? & _ & H). by eapply subst_sidecar_env.
Qed.

(** the effective value of an env var after the merge is the step's last entry
    of that name, else the template's; template entries come first, in template
    order. *)
Theorem mergeEnv_correct (tmpl step : list EnvVar) :
  (forall n, last_named ev_Name n (mergeEnv tmpl step) =
     match last_named ev_Name n step with Some e => Some e | None => last_named ev_Name n tmpl end) /\
  map ev_Name (mergeEnv tmpl step) =
    map ev_Name tmpl ++ filter (fun n => n ∉ map ev_Name tmpl) (map ev_Name step).
Proof. split; [intros n; apply merge_named_last|apply merge_named_names]. Qed.

(** the pre-pull list has no duplicates and holds exactly the images of the
    pipeline's tasks that can be pulled, whatever order the runtime ranges
    over the set in. *)
Theorem uniqueImages_correct (M : MapRange) (b : Bundle) (pl : Pipeline) :
  NoDup (uniqueImages b pl) /\
  (forall img, img ∈ uniqueImages b pl <-> exists pt, pt ∈ all_tasks pl /\ img ∈ task_images b pt) /\
  (forall img, img ∈ uniqueImages b pl -> img <> "" /\ contains img "$(" = false).
Proof.
  assert (forall img, img ∈ uniqueImages b pl <-> exists pt, pt ∈ all_tasks pl /\ img ∈ task_images b pt) as H.
  { intros img. unfold uniqueImages, set_range. rewrite elem_of_map_range_keys. apply images_of_lookup. }
  split_and!; [apply map_range_keys_NoDup|exact H|].
  intros img (pt & _ & Hin)%H. unfold task_images in Hin. destruct (is_resolver_ref pt).
  { by apply not_elem_of_nil in Hin. }
  apply list_elem_of_In, List.filter_In in Hin as [_ [Hs Hc]%andb_true_iff].
  split; [by intros ->|by apply negb_true_iff].
Qed.
End StepProperties.

(** ** Witnesses *)
Lemma resolveStepActions_correct_witness :
  exists spec', resolveStepActions ex_steps_spec ex_steps_bundle = Ok spec' /\
    map st_Args (ts_Steps spec') = [["$(params.name)"; "$(params.task)"]] /\
    resolveStepActions spec' ex_steps_bundle = Ok spec'.
Proof.
  eexists. split; [vm_compute; reflexivity|]. split; [reflexivity|].
  eapply resolveStepActions_correct with (spec := ex_steps_spec). vm_compute. reflexivity.
Defined.

Lemma stepaction_call_drops_security_witness :
  exists st', resolve_step ex_steps_bundle ex_call = Ok st' /\
    st_Timeout ex_call = "5s" /\ st_Timeout st' = "".
Proof.
  eexists. split; [vm_compute; reflexivity|]. split; [reflexivity|].
  eapply (stepaction_call_drops_security ex_steps_bundle ex_call _ (mkStepActionRef "greet"));
    [reflexivity|vm_compute; reflexivity].
Defined.

Lemma valueFrom_check_never_fires_witness :
  env_from_error no_text (flat_map st_Env (ts_Steps ex_secret_spec)) <> None /\
  exists spec', substituteSpec ex_secret_spec empty_context = Ok spec' /\
    forall st, st ∈ ts_Steps spec' -> env_from_error no_text (st_Env st) = None.
Proof.
  split; [discriminate|]. eexists. split; [vm_compute; reflexivity|]. intros st.
  apply (valueFrom_check_never_fires ex_secret_spec _ empty_context). vm_compute. reflexivity.
Defined.
