(* ===== verification/Validator.v ===== *)
(** * internal/validator: validator.go and refs.go

    The semantic checks of a loaded bundle.  Each numbered rule of [validateCore]
    is a function from its inputs to the errors it appends, and [validateCore]
    concatenates them in the code's order.  A Go [map[string]bool] that is only
    filled from a list and then tested is the membership test of that list.
    [raw_ref_keys] stands for the YAML library's untyped view of a Task's steps:
    the keys of the raw [ref:] block of a step, if the step has one. *)

From S2P Require Import Prelude GoStrings GoTime Regex TektonTypes Dag Resolver Run Matrix Policy Scope Steps.

(** ** refs.go *)
Definition allowedVarPrefixes : list string :=
  ["params"; "tasks"; "finally"; "context"; "workspaces"; "results"; "tt.params"].

(** [$(...)] without nested parentheses. *)
Definition not_paren (a : ascii) : bool := negb (Ascii.eqb a "(" || Ascii.eqb a ")").
Definition varExprPat : regex := (RLit "$(" · RGroup 1 (RStar not_paren) · RLit ")")%regex.

Definition extractVarExprs (s : string) : list string := map (group 1) (find_all varExprPat s).

Definition allowed_prefix (expr p : string) : bool :=
  (String.eqb expr p && negb (String.eqb p "tt.params"))
  || (has_prefix expr (p +:+ ".") && (String.length p + 1 <? String.length expr))
  || has_prefix expr (p +:+ "[").

Definition hasAllowedVarPrefix (expr : string) : bool :=
  existsb (allowed_prefix (trim_space expr)) allowedVarPrefixes.

Definition dquote : ascii := "034"%char.
Definition squote : ascii := "039"%char.
Definition param_name_char (a : ascii) : bool := is_alnum a || Ascii.eqb a "_" || Ascii.eqb a "-".

(** [["NAME"]] or [['NAME']], with [q] the quote. *)
Definition quoted_name (n : nat) (q : ascii) : regex :=
  (RLit (String "[" (String q "")) · RGroup n (RPlus (fun a => negb (Ascii.eqb a q)))
     · RLit (String q "]"))%regex.

Definition paramRefPat : regex :=
  (RLit "$(" · RStar is_space · RLit "params"
     · RAlt (RLit "." · RGroup 1 (RPlus param_name_char)) (RAlt (quoted_name 2 dquote) (quoted_name 3 squote)))%regex.

(** The first non-empty group of every match. *)
Definition extractParamRefs (s : string) : list string :=
  omap (fun m => List.find (fun g => negb (String.eqb g "")) [group 1 m; group 2 m; group 3 m])
    (find_all paramRefPat s).

(** ** validator.go: result references *)
Definition validatorRefPat : regex :=
  (RLit "$(tasks." · RGroup 1 (RCls is_alnum · RStar name_byte) · RLit ".results."
     · RPlus result_name_char · RLit ")")%regex.

Definition extractTaskRefs (s : string) : list string := map (group 1) (find_all validatorRefPat s).

Definition mem (n : string) (l : list string) : bool := existsb (String.eqb n) l.

(** ** The [forEach...] walks: the (field, text) pairs [fn] is called with *)
Section Walks.
Context {K : CoreV1} `{MapRange}.

Definition collectStrings (v : ParamValue) : list string :=
  if String.eqb (pv_Type v) ParamTypeArray then pv_ArrayVal v
  else if String.eqb (pv_Type v) ParamTypeObject then (map_range (pv_ObjectVal v)).*2
  else [pv_StringVal v].

Definition when_field (i : nat) : string := "when[" +:+ itoa (Z.of_nat i) +:+ "]".

Definition forEachWhenAndMatrixString (pt : PipelineTask) : list (string * string) :=
  concat (imap (fun i w => map (pair (when_field i)) (we_Input w :: we_Values w)) (pt_When pt))
  ++ match pt_Matrix pt with
     | None => []
     | Some m =>
       flat_map (fun mp => map (pair ("matrix.params." +:+ mp_Name mp)) (mp_Value mp)) (mx_Params m)
       ++ concat (imap (fun i inc =>
            flat_map (fun p =>
              map (pair ("matrix.include[" +:+ itoa (Z.of_nat i) +:+ "].params." +:+ p_Name p))
                (collectStrings (p_Value p))) (mi_Params inc)) (mx_Include m))
     end.

Definition forEachPipelineTaskString (pt : PipelineTask) : list (string * string) :=
  flat_map (fun p => map (pair ("params." +:+ p_Name p)) (collectStrings (p_Value p))) (pt_Params pt)
  ++ forEachWhenAndMatrixString pt.

(** A field of a TaskSpec: the rendered [step %q] / [sidecar %q], or "stepTemplate". *)
Definition forEachTaskSpecString (spec : TaskSpec) : list (text * string) :=
  flat_map (fun st =>
    map (pair (Fmt "step %q" [TStr (st_Name st)]))
      ([st_Image st; st_Script st; st_WorkingDir st] ++ st_Command st ++ st_Args st
       ++ map ev_Value (st_Env st) ++ flat_map (fun p => collectStrings (p_Value p)) (st_Params st)))
    (ts_Steps spec)
  ++ flat_map (fun sc =>
    map (pair (Fmt "sidecar %q" [TStr (sc_Name sc)]))
      ([sc_Image sc; sc_Script sc; sc_WorkingDir sc] ++ sc_Command sc ++ sc_Args sc
       ++ map ev_Value (sc_Env sc)))
    (ts_Sidecars spec)
  ++ match ts_StepTemplate spec with
     | None => []
     | Some t => map (pair (lit "stepTemplate"))
                   ([tm_Image t; tm_WorkingDir t] ++ tm_Command t ++ tm_Args t ++ map ev_Value (tm_Env t))
     end.
End Walks.

(** ** Rules on one TaskSpec *)
Section TaskRules.
Context {K : CoreV1}.

(** Appends one error per name already seen. *)
Fixpoint dup_errors (mk : string -> text) (seen names : list string) : list text :=
  match names with
  | [] => []
  | n :: names' => (if mem n seen then [mk n] else []) ++ dup_errors mk (n :: seen) names'
  end.

Definition duplicateStepNameErrors (subject : text) (spec : TaskSpec) : list text :=
  dup_errors (fun n => Fmt "%s has duplicate step name %q (step names must be unique within a Task)"
                         [TErr subject; TStr n]) []
    (List.filter is_set (map st_Name (ts_Steps spec))).

Definition timeout_errors (subject : string) (name timeout : string) : list text :=
  if String.eqb timeout "" then [] else
  match ParseDuration timeout with
  | Err e => [Fmt (subject +:+ " %q: invalid timeout %q: %v") [TStr name; TStr timeout; TErr e]]
  | Ok d => if (d <? 0)%Z
            then [Fmt (subject +:+ " %q: timeout must not be negative, got %q") [TStr name; TStr timeout]]
            else []
  end.

Definition onError_ok (s : string) : bool := mem s [""; "continue"; "stopAndFail"].

Definition onError_errors (subject name : string) (spec : TaskSpec) : list text :=
  flat_map (fun st =>
    if onError_ok (st_OnError st) then []
    else [Fmt (subject +:+ " %q step %q: unsupported onError %q (allowed: continue | stopAndFail)")
            [TStr name; TStr (st_Name st); TStr (st_OnError st)]]) (ts_Steps spec).

Definition count_some {A} (o : option A) : nat := match o with Some _ => 1 | None => 0 end.

Definition volume_sources (v : Volume) : nat :=
  count_some (vol_EmptyDir v) + count_some (vol_HostPath v) + count_some (vol_ConfigMap v)
  + count_some (vol_Secret v).

Definition volume_error (subject name : string) (v : Volume) : list text :=
  match volume_sources v with
  | 0 => [Fmt (subject +:+ " %q volume %q: unsupported volume kind (only emptyDir, hostPath, configMap, secret)")
            [TStr name; TStr (vol_Name v)]]
  | 1 => []
  | _ => [Fmt (subject +:+ " %q volume %q: multiple sources set on a single volume")
            [TStr name; TStr (vol_Name v)]]
  end
  ++ match vol_HostPath v with
     | Some h => if String.eqb (hp_Path h) ""
                 then [Fmt (subject +:+ " %q volume %q: hostPath.path is required") [TStr name; TStr (vol_Name v)]]
                 else []
     | None => []
     end.

Definition volume_names (spec : TaskSpec) : list string := map vol_Name (ts_Volumes spec).

Definition mount_error (subject name : string) (spec : TaskSpec) (st : Step) (vm : VolumeMount) : list text :=
  (if mem (vm_Name vm) (volume_names spec) then []
   else [Fmt (subject +:+ " %q step %q: volumeMount %q references undeclared volume")
           [TStr name; TStr (st_Name st); TStr (vm_Name vm)]])
  ++ (if String.eqb (vm_MountPath vm) ""
      then [Fmt (subject +:+ " %q step %q: volumeMount %q has empty mountPath")
              [TStr name; TStr (st_Name st); TStr (vm_Name vm)]]
      else []).

(** Rules 10 and 11 of one Task. *)
Definition volume_errors (subject name : string) (spec : TaskSpec) : list text :=
  flat_map (volume_error subject name) (ts_Volumes spec)
  ++ flat_map (fun st => flat_map (mount_error subject name spec st) (st_VolumeMounts st)) (ts_Steps spec).

Definition ValidateTaskSpec (taskName : string) (spec : TaskSpec) : list text :=
  (match ts_Steps spec with
   | [] => [Fmt "task %q: spec.steps: must have at least one step" [TStr taskName]]
   | _ => []
   end)
  ++ timeout_errors "task" taskName (ts_Timeout spec)
  ++ duplicateStepNameErrors (Fmt "task %q" [TStr taskName]) spec
  ++ onError_errors "task" taskName spec
  ++ volume_errors "task" taskName spec.

(** Rule 12, one Task. *)
Fixpoint sidecar_loop (ptName : string) (spec : TaskSpec) (seen : list string) (l : list Sidecar) : list text :=
  match l with
  | [] => []
  | sc :: l' =>
    if String.eqb (sc_Name sc) "" then
      Fmt "pipeline task %q sidecar has empty name" [TStr ptName] :: sidecar_loop ptName spec seen l'
    else
      (if String.eqb (sc_Image sc) "" then
         [Fmt "pipeline task %q sidecar %q: image is required" [TStr ptName; TStr (sc_Name sc)]] else [])
      ++ (if mem (sc_Name sc) seen then
            [Fmt "pipeline task %q has duplicate sidecar name %q" [TStr ptName; TStr (sc_Name sc)]] else [])
      ++ (if mem (sc_Name sc) (map st_Name (ts_Steps spec)) then
            [Fmt "pipeline task %q sidecar %q collides with a step of the same name"
               [TStr ptName; TStr (sc_Name sc)]] else [])
      ++ flat_map (fun vm =>
           if mem (vm_Name vm) (volume_names spec) then []
           else [Fmt "pipeline task %q sidecar %q volumeMount %q references undeclared Task volume"
                   [TStr ptName; TStr (sc_Name sc); TStr (vm_Name vm)]]) (sc_VolumeMounts sc)
      ++ sidecar_loop ptName spec (sc_Name sc :: seen) l'
  end.

Definition mergeStepTemplateForImage (spec : TaskSpec) : TaskSpec :=
  match ts_StepTemplate spec with
  | None => spec
  | Some t =>
    if String.eqb (tm_Image t) "" then spec
    else ts_set_Steps spec
           (map (fun st => if String.eqb (st_Image st) ""
                           then mkStep (st_Name st) (st_DisplayName st) (st_Description st) (st_Ref st) (st_Params st)
                                  (tm_Image t) (st_Command st) (st_Args st) (st_Script st) (st_Env st)
                                  (st_WorkingDir st) (st_Resources st) (st_ImagePullPolicy st)
                                  (st_SecurityContext st) (st_EnvFrom st) (st_Timeout st) (st_OnError st)
                                  (st_Results st) (st_VolumeMounts st)
                           else st) (ts_Steps spec))
  end.

Definition parseTimeout (field s : string) : result Z :=
  match ParseDuration s with
  | Err e => Err (Fmt "%s: invalid duration %q: %w" [TStr field; TStr s; TErr e])
  | Ok d => if (d <=? 0)%Z
            then Err (Fmt "%s: must be positive (use omission to mean no budget), got %q" [TStr field; TStr s])
            else Ok d
  end.
End TaskRules.

(** ** validateCore *)
Section ValidateCore.
Context {K : CoreV1} `{MapRange}.
(** The keys of the raw [ref:] map of step [i] of a loaded Task. *)
Variable raw_ref_keys : string -> nat -> list string.

(** Rule 1: [resolvedTasks], [resolvedOrder], [inlineSpec] and the errors. *)
Record resolved := mkresolved {
  rv_tasks : gmap string TaskSpec;
  rv_order : list string;
  rv_inline : list string;
  rv_errs : list text;
}.

Definition rv_err (s : resolved) (e : text) : resolved :=
  mkresolved (rv_tasks s) (rv_order s) (rv_inline s) (rv_errs s ++ [e]).

Definition rv_add (s : resolved) (name : string) (spec : TaskSpec) (inl : bool) : resolved :=
  mkresolved (<[name := spec]> (rv_tasks s))
    (match rv_tasks s !! name with Some _ => rv_order s | None => rv_order s ++ [name] end)
    (if inl then name :: rv_inline s else rv_inline s) (rv_errs s).

Definition resolve_pt (b : Bundle) (s : resolved) (pt : PipelineTask) : resolved :=
  match pt_TaskRef pt, pt_TaskSpec pt with
  | Some _, Some _ => rv_err s (Fmt "pipeline task %q sets both taskRef and taskSpec" [TStr (pt_Name pt)])
  | Some r, None =>
    if is_set (tr_Resolver r) then s else
    match b_Tasks b !! tr_Name r with
    | None => rv_err s (Fmt "pipeline task %q references unknown Task %q" [TStr (pt_Name pt); TStr (tr_Name r)])
    | Some t => rv_add s (pt_Name pt) (task_Spec t) false
    end
  | None, Some spec => rv_add s (pt_Name pt) spec true
  | None, None => rv_err s (Fmt "pipeline task %q has no taskRef or taskSpec" [TStr (pt_Name pt)])
  end.

Definition resolve_all (b : Bundle) (pts : list PipelineTask) : resolved :=
  foldl (resolve_pt b) (mkresolved ∅ [] [] []) pts.

(** The errors of a rule that only looks at resolved tasks, in [resolvedOrder]. *)
Definition per_task (rv : resolved) (rule : string -> TaskSpec -> list text) : list text :=
  flat_map (fun name => match rv_tasks rv !! name with Some spec => rule name spec | None => [] end) (rv_order rv).

(** The same for rules that walk the PipelineTasks. *)
Definition per_pt (rv : resolved) (pts : list PipelineTask) (rule : PipelineTask -> TaskSpec -> list text)
    : list text :=
  flat_map (fun pt => match rv_tasks rv !! pt_Name pt with Some spec => rule pt spec | None => [] end) pts.

(** 1b. *)
Definition rule_required_params (pipelineName : string) (pl : Pipeline) (provided : option (gmap string bool))
    : list text :=
  match provided with
  | None => []
  | Some given =>
    flat_map (fun d =>
      if negb (is_some (ps_Default d)) && negb (default false (given !! ps_Name d))
      then [Fmt "pipeline %q: missing required param %q (no default; pass --param %s=<value>)"
              [TStr pipelineName; TStr (ps_Name d); TStr (ps_Name d)]]
      else []) (spec_Params (pl_Spec pl))
  end.

(** 2. *)
Definition bound_params (pt : PipelineTask) : list string :=
  map p_Name (pt_Params pt)
  ++ match pt_Matrix pt with
     | None => []
     | Some m => map mp_Name (mx_Params m) ++ flat_map (fun inc => map p_Name (mi_Params inc)) (mx_Include m)
     end.

Definition rule_task_params (pt : PipelineTask) (spec : TaskSpec) : list text :=
  flat_map (fun d =>
    if negb (is_some (ps_Default d)) && negb (mem (ps_Name d) (bound_params pt))
    then [Fmt "pipeline task %q missing required param %q" [TStr (pt_Name pt); TStr (ps_Name d)]]
    else []) (ts_Params spec).

(** 3. *)
Definition bound_workspaces (pt : PipelineTask) : gmap string string :=
  foldl (fun (m : gmap string string) w => <[wb_Name w := wb_Workspace w]> m) ∅ (pt_Workspaces pt).

Definition rule_workspaces (pl : Pipeline) (pt : PipelineTask) (spec : TaskSpec) : list text :=
  flat_map (fun d =>
    if wd_Optional d then [] else
    match bound_workspaces pt !! wd_Name d with
    | None => [Fmt "pipeline task %q missing workspace binding %q" [TStr (pt_Name pt); TStr (wd_Name d)]]
    | Some plws =>
      if mem plws (map pwd_Name (spec_Workspaces (pl_Spec pl))) then []
      else [Fmt "pipeline task %q binds workspace %q to undeclared pipeline workspace %q"
              [TStr (pt_Name pt); TStr (wd_Name d); TStr plws]]
    end) (ts_Workspaces spec).

(** 4. *)
Definition main_names (pl : Pipeline) : list string := map pt_Name (spec_Tasks (pl_Spec pl)).
Definition finally_names (pl : Pipeline) : list string := map pt_Name (spec_Finally (pl_Spec pl)).

Definition runAfter_edges (main : list string) (pts : list PipelineTask) : list (string * string) :=
  flat_map (fun pt => map (fun dep => (dep, pt_Name pt)) (List.filter (fun d => mem d main) (pt_RunAfter pt))) pts.

Definition validator_graph (pl : Pipeline) : Graph :=
  foldl (fun g e => AddEdge g e.1 e.2) (foldl AddNode New (main_names pl))
    (runAfter_edges (main_names pl) (spec_Tasks (pl_Spec pl))).

Definition rule_dag (pl : Pipeline) : list text :=
  dup_errors (fun n => Fmt "duplicate pipeline task %q" [TStr n]) [] (main_names pl)
  ++ flat_map (fun pt =>
       flat_map (fun dep =>
         if mem dep (main_names pl) then []
         else [Fmt "pipeline task %q runAfter references unknown task %q" [TStr (pt_Name pt); TStr dep]])
         (pt_RunAfter pt)) (spec_Tasks (pl_Spec pl))
  ++ match Levels (validator_graph pl) with
     | Ok _ => []
     | Err e => [Fmt "pipeline DAG: %w" [TErr e]]
     end.

(** 5. *)
Fixpoint finally_errors (main seen names : list string) : list text :=
  match names with
  | [] => []
  | n :: names' =>
    (if mem n main then [Fmt "finally task %q collides with main task name" [TStr n]] else [])
    ++ (if mem n seen then [Fmt "duplicate finally task %q" [TStr n]] else [])
    ++ finally_errors main (n :: seen) names'
  end.

(** 6. *)
Definition rule_when (pt : PipelineTask) : list text :=
  flat_map (fun w =>
    let op := to_lower (we_Operator w) in
    (if String.eqb op "in" || String.eqb op "notin" then []
     else [Fmt "pipeline task %q: unsupported when operator %q (only 'in' and 'notin')"
             [TStr (pt_Name pt); TStr (we_Operator w)]])
    ++ (match we_Values w with
        | [] => [Fmt "pipeline task %q: when expression on input %q must have non-empty values"
                   [TStr (pt_Name pt); TStr (we_Input w)]]
        | _ => []
        end)) (pt_When pt).

(** 7. *)
Definition rule_retries (pt : PipelineTask) : list text :=
  if (pt_Retries pt <? 0)%Z
  then [Fmt "pipeline task %q: retries must be non-negative, got %d" [TStr (pt_Name pt); TInt (pt_Retries pt)]]
  else [].

(** 8b. *)
Definition opt_timeout (field s : string) : result Z :=
  if String.eqb s "" then Ok 0%Z else parseTimeout field s.

Definition err_of {A} (r : result A) : list text := match r with Ok _ => [] | Err e => [e] end.

Definition rule_timeouts (t : option Timeouts) : list text :=
  match t with
  | None => []
  | Some t =>
    let p := opt_timeout "timeouts.pipeline" (to_Pipeline t) in
    let k := opt_timeout "timeouts.tasks" (to_Tasks t) in
    let f := opt_timeout "timeouts.finally" (to_Finally t) in
    err_of p ++ err_of k ++ err_of f
    ++ match p, k, f with
       | Ok p, Ok k, Ok f =>
         if (0 <? p)%Z && (0 <? k)%Z && (0 <? f)%Z && (p <? wrap64 (k + f))%Z
         then [Fmt "timeouts.tasks (%s) + timeouts.finally (%s) > timeouts.pipeline (%s)" [TInt k; TInt f; TInt p]]
         else []
       | _, _, _ => []
       end
  end.

(** 8c. *)
Definition known_tasks (pl : Pipeline) : list string := main_names pl ++ finally_names pl.

Definition unknown_refs (pl : Pipeline) (s : string) : list string :=
  List.filter (fun r => negb (mem r (known_tasks pl))) (extractTaskRefs s).

Fixpoint result_errors (pl : Pipeline) (seen : list string) (l : list PipelineResultSpec) : list text :=
  match l with
  | [] => []
  | r :: l' =>
    (if mem (prs_Name r) seen
     then [Fmt "duplicate pipeline result name %q (each Pipeline.spec.results[].name must be unique)"
             [TStr (prs_Name r)]] else [])
    ++ flat_map (fun s => map (fun ref =>
         Fmt "pipeline result %q references unknown task %q (must be in spec.tasks or spec.finally)"
           [TStr (prs_Name r); TStr ref]) (unknown_refs pl s)) (collectStrings (prs_Value r))
    ++ result_errors pl (prs_Name r :: seen) l'
  end.

(** 8d. *)
Definition rule_known_refs (pl : Pipeline) (pt : PipelineTask) : list text :=
  flat_map (fun p => flat_map (fun s => map (fun ref =>
    Fmt "pipeline task %q references unknown task %q in $(tasks...results...) (must be in spec.tasks or spec.finally)"
      [TStr (pt_Name pt); TStr ref]) (unknown_refs pl s)) (collectStrings (p_Value p))) (pt_Params pt)
  ++ flat_map (fun fs => map (fun ref =>
    Fmt "pipeline task %q %s references unknown task %q in $(tasks...results...) (must be in spec.tasks or spec.finally)"
      [TStr (pt_Name pt); TStr fs.1; TStr ref]) (unknown_refs pl fs.2)) (forEachWhenAndMatrixString pt).

(** 8e. *)
Definition rule_finally_refs (pl : Pipeline) (pt : PipelineTask) : list text :=
  flat_map (fun fs => map (fun ref =>
    Fmt "pipeline task %q %s references result of finally task %q; only finally tasks may consume finally-task results"
      [TStr (pt_Name pt); TStr fs.1; TStr ref])
    (List.filter (fun r => mem r (finally_names pl)) (extractTaskRefs fs.2))) (forEachPipelineTaskString pt).

(** 8f. *)
Definition rule_var_prefix (pt : PipelineTask) : list text :=
  flat_map (fun fs => map (fun expr =>
    Fmt "pipeline task %q %s: invalid variable reference $(%s): unknown prefix (allowed: %s); if you meant a shell variable, use ${VAR}"
      [TStr (pt_Name pt); TStr fs.1; TStr expr; TStr (join ", " allowedVarPrefixes)])
    (List.filter (fun e => negb (hasAllowedVarPrefix e)) (extractVarExprs fs.2))) (forEachPipelineTaskString pt).

(** 8g. *)
Definition pipeline_params (pl : Pipeline) : list string := map ps_Name (spec_Params (pl_Spec pl)).

Definition rule_param_refs (pl : Pipeline) (pt : PipelineTask) : list text :=
  flat_map (fun fs => map (fun name =>
    Fmt "pipeline task %q %s references undeclared pipeline param %q" [TStr (pt_Name pt); TStr fs.1; TStr name])
    (List.filter (fun n => negb (mem n (pipeline_params pl))) (extractParamRefs fs.2)))
    (forEachPipelineTaskString pt).

Definition declared_params (rv : resolved) (pl : Pipeline) (name : string) (spec : TaskSpec) : list string :=
  map ps_Name (ts_Params spec) ++ (if mem name (rv_inline rv) then pipeline_params pl else []).

Definition rule_task_param_refs (rv : resolved) (pl : Pipeline) (name : string) (spec : TaskSpec) : list text :=
  flat_map (fun fs => map (fun ref =>
    Fmt "pipeline task %q %s references undeclared param %q" [TStr name; TErr fs.1; TStr ref])
    (List.filter (fun n => negb (mem n (declared_params rv pl name spec))) (extractParamRefs fs.2)))
    (forEachTaskSpecString spec).

(** 13, 14, 15, 17. *)
Definition taskNameForPT (b : Bundle) (pt : PipelineTask) : string :=
  match pt_TaskRef pt with
  | Some r =>
    if negb (is_set (tr_Resolver r)) && is_set (tr_Name r) then
      match b_Tasks b !! tr_Name r with Some _ => tr_Name r | None => "" end
    else ""
  | None => ""
  end.

Definition stepaction_errors (b : Bundle) (pt : PipelineTask) (i : nat) (st : Step) : list text :=
  match st_Ref st with
  | None => []
  | Some ref =>
    if existsb (fun k => mem k (raw_ref_keys (taskNameForPT b pt) i)) ["resolver"; "params"; "bundle"] then
      [Fmt "pipeline task %q step %q: resolver-based StepAction refs (resolver/params/bundle under ref:) are not supported in this release; see Track 1 #9"
         [TStr (pt_Name pt); TStr (st_Name st)]]
    else if negb (is_ok (assertNoInlineBody st)) then
      [Fmt "pipeline task %q step %q: ref and inline body are mutually exclusive" [TStr (pt_Name pt); TStr (st_Name st)]]
    else
      match b_StepActions b !! sar_Name ref with
      | None => [Fmt "pipeline task %q step %q: references unknown StepAction %q"
                   [TStr (pt_Name pt); TStr (st_Name st); TStr (sar_Name ref)]]
      | Some action =>
        flat_map (fun d =>
          if negb (is_some (ps_Default d)) && negb (mem (ps_Name d) (map p_Name (st_Params st)))
          then [Fmt "pipeline task %q step %q: missing required StepAction param %q"
                  [TStr (pt_Name pt); TStr (st_Name st); TStr (ps_Name d)]]
          else []) (sas_Params (sa_Spec action))
      end
  end.

Definition rule_stepactions (b : Bundle) (pt : PipelineTask) (spec : TaskSpec) : list text :=
  concat (imap (stepaction_errors b pt) (ts_Steps spec)).

(** 16. *)
Definition rule_image (name : string) (spec : TaskSpec) : list text :=
  flat_map (fun st =>
    if is_some (st_Ref st) then []
    else if String.eqb (st_Image st) ""
    then [Fmt "pipeline task %q step %q: inline step has no image (set image: or use ref:)" [TStr name; TStr (st_Name st)]]
    else []) (ts_Steps (mergeStepTemplateForImage spec)).

(** 18. *)
Definition rule_action_defaults (b : Bundle) : list text :=
  flat_map (fun saName =>
    match b_StepActions b !! saName with
    | None => []
    | Some sa =>
      flat_map (fun d =>
        match ps_Default d with
        | None => []
        | Some v =>
          if mem (pv_Type v) [ParamTypeArray; ParamTypeObject]
          then [Fmt "StepAction %q param %q: default type %q is not supported (only string defaults)"
                  [TStr saName; TStr (ps_Name d); TStr (pv_Type v)]]
          else []
        end) (sas_Params (sa_Spec sa))
    end) (sort_strings (map_range (b_StepActions b)).*1).

(** 19.  The params with no values are not multiplied in. *)
Definition validatorMatrixMaxRows : Z := 256.

Definition validator_cross (mps : list MatrixParam) : Z :=
  match mps with
  | [] => 0%Z
  | _ => foldl (fun c mp => match mp_Value mp with
                            | [] => c
                            | v => wrap64 (c * Z.of_nat (length v))
                            end) 1%Z mps
  end.

Fixpoint matrix_param_errors (ptName : string) (seen : list string) (mps : list MatrixParam) : list text :=
  match mps with
  | [] => []
  | mp :: mps' =>
    (if mem (mp_Name mp) seen
     then [Fmt "pipeline task %q matrix declares param %q twice" [TStr ptName; TStr (mp_Name mp)]] else [])
    ++ (match mp_Value mp with
        | [] => [Fmt "pipeline task %q matrix param %q must be a non-empty string list" [TStr ptName; TStr (mp_Name mp)]]
        | _ => []
        end)
    ++ matrix_param_errors ptName (mp_Name mp :: seen) mps'
  end.

Definition include_errors (ptName : string) (crossNames : list string) (inc : MatrixInclude) : list text :=
  flat_map (fun p =>
    (if is_string_type (pv_Type (p_Value p)) then []
     else [Fmt "pipeline task %q matrix include %q param %q must be a string"
             [TStr ptName; TStr (mi_Name inc); TStr (p_Name p)]])
    ++ (if mem (p_Name p) crossNames
        then [Fmt "pipeline task %q matrix include %q param %q overlaps a cross-product param; matrix.include params overlapping cross-product params are not supported in v1; see Track 1 #3 follow-up"
                [TStr ptName; TStr (mi_Name inc); TStr (p_Name p)]]
        else [])) (mi_Params inc).

Definition rule_matrix (rv : resolved) (pt : PipelineTask) : list text :=
  match pt_Matrix pt with
  | None => []
  | Some m =>
    let total := wrap64 (validator_cross (mx_Params m) + Z.of_nat (length (mx_Include m))) in
    matrix_param_errors (pt_Name pt) [] (mx_Params m)
    ++ (if (validatorMatrixMaxRows <? total)%Z
        then [Fmt "pipeline task %q matrix would produce %d rows, exceeding the cap of %d"
                [TStr (pt_Name pt); TInt total; TInt validatorMatrixMaxRows]]
        else [])
    ++ flat_map (include_errors (pt_Name pt) (map mp_Name (mx_Params m))) (mx_Include m)
    ++ match rv_tasks rv !! pt_Name pt with
       | None => []
       | Some spec =>
         flat_map (fun r =>
           if mem (rs_Type r) ["array"; "object"]
           then [Fmt "pipeline task %q (matrix-fanned) references task whose result %q is type %q; matrix-fanned tasks may only emit string results"
                   [TStr (pt_Name pt); TStr (rs_Name r); TStr (rs_Type r)]]
           else []) (ts_Results spec)
       end
  end.

Definition validateCore (b : Bundle) (pipelineName : string) (provided : option (gmap string bool))
    : list text :=
  match b_Pipelines b !! pipelineName with
  | None => [Fmt "pipeline %q not found in loaded files" [TStr pipelineName]]
  | Some pl =>
    let all := all_tasks pl in
    let rv := resolve_all b all in
    rv_errs rv
    ++ rule_required_params pipelineName pl provided
    ++ per_pt rv all rule_task_params
    ++ per_pt rv all (rule_workspaces pl)
    ++ rule_dag pl
    ++ finally_errors (main_names pl) [] (finally_names pl)
    ++ flat_map rule_when all
    ++ flat_map rule_retries all
    ++ per_task rv (fun name spec => timeout_errors "pipeline task" name (ts_Timeout spec))
    ++ flat_map (fun pt => timeout_errors "pipeline task" (pt_Name pt) (pt_Timeout pt)) all
    ++ rule_timeouts (spec_Timeouts (pl_Spec pl))
    ++ result_errors pl [] (spec_Results (pl_Spec pl))
    ++ flat_map (rule_known_refs pl) all
    ++ flat_map (rule_finally_refs pl) (spec_Tasks (pl_Spec pl))
    ++ flat_map rule_var_prefix all
    ++ flat_map (rule_param_refs pl) all
    ++ per_task rv (rule_task_param_refs rv pl)
    ++ per_task rv (fun name => duplicateStepNameErrors (Fmt "pipeline task %q" [TStr name]))
    ++ per_task rv (onError_errors "pipeline task")
    ++ per_task rv (volume_errors "pipeline task")
    ++ per_task rv (fun name spec => sidecar_loop name spec [] (ts_Sidecars spec))
    ++ per_pt rv all (rule_stepactions b)
    ++ per_task rv rule_image
    ++ rule_action_defaults b
    ++ flat_map (rule_matrix rv) all
  end.

(** ** ValidateWithOptions *)
Record UnresolvedRef := mkUnresolvedRef {
  ur_Pipeline : string;
  ur_PipelineTask : string;
  ur_Kind : string;
  ur_Resolver : string;
  ur_Params : gmap string string;
}.

Record Options := mkOptions {
  op_Offline : bool;
  op_RegisteredResolvers : list string;
  op_RemoteResolverEnabled : bool;
  op_CacheCheck : option (UnresolvedRef -> bool);
}.

Definition no_options : Options := mkOptions false [] false None.

(** The literal resolver params handed to the cache check. *)
Definition literal_params (l : list ResolverParam) : gmap string string :=
  foldl (fun (m : gmap string string) p =>
           if is_string_type (pv_Type (rp_Value p)) then <[rp_Name p := pv_StringVal (rp_Value p)]> m else m) ∅ l.

Definition check_resolver_ref (pipelineName : string) (pl : Pipeline) (opts : Options) (pt : PipelineTask)
    : list text :=
  match pt_TaskRef pt with
  | None => []
  | Some r =>
    if negb (is_set (tr_Resolver r)) then [] else
    (if negb (op_RemoteResolverEnabled opts) && nonempty_list (op_RegisteredResolvers opts)
        && negb (mem (tr_Resolver r) (op_RegisteredResolvers opts))
     then [Fmt "pipeline task %q: resolver %q is not in the allow-list (use --resolver-allow=%s,%s or --remote-resolver-context)"
             [TStr (pt_Name pt); TStr (tr_Resolver r); TStr (join "," (op_RegisteredResolvers opts)); TStr (tr_Resolver r)]]
     else [])
    ++ flat_map (fun p => flat_map (fun s => map (fun ref =>
         Fmt "pipeline task %q: resolver param %q references unknown task %q (must be in spec.tasks or spec.finally)"
           [TStr (pt_Name pt); TStr (rp_Name p); TStr ref]) (unknown_refs pl s)) (collectStrings (rp_Value p)))
         (tr_ResolverParams r)
    ++ (if op_Offline opts then
          let ref := mkUnresolvedRef pipelineName (pt_Name pt) "Task" (tr_Resolver r)
                       (literal_params (tr_ResolverParams r)) in
          if match op_CacheCheck opts with Some check => check ref | None => false end then []
          else [Fmt "pipeline task %q: resolver %q cache miss while --offline is set"
                  [TStr (pt_Name pt); TStr (tr_Resolver r)]]
        else [])
  end.

Definition ValidateWithOptions (b : Bundle) (pipelineName : string) (provided : option (gmap string bool))
    (opts : Options) : list text :=
  validateCore b pipelineName provided
  ++ match b_Pipelines b !! pipelineName with
     | None => []
     | Some pl => flat_map (check_resolver_ref pipelineName pl opts) (all_tasks pl)
     end.

Definition Validate (b : Bundle) (pipelineName : string) (provided : option (gmap string bool)) : list text :=
  ValidateWithOptions b pipelineName provided no_options.
End ValidateCore.

(** ** Lemmas *)
Lemma mem_spec n l : mem n l = true <-> n ∈ l.
Proof. unfold mem. by rewrite existsb_eqb_elem, bool_decide_eq_true. Qed.

Lemma mem_false n l : mem n l = false <-> n ∉ l.
Proof. unfold mem. by rewrite existsb_eqb_elem, bool_decide_eq_false. Qed.

Lemma flat_map_nil {A B} (f : A -> list B) l : flat_map f l = [] <-> forall x, x ∈ l -> f x = [].
Proof.
  induction l as [|x l IH]; simpl; [split; [by intros _ ? ?%not_elem_of_nil|done]|]. split.
  - intros [H1 H2]%app_eq_nil y [->|Hy]%elem_of_cons; [done|by apply IH].
  - intros Hall. rewrite (Hall x) by (apply elem_of_cons; by left). apply IH. intros y Hy.
    apply Hall, elem_of_cons. by right.
Qed.

Lemma dup_errors_nil mk seen names :
  dup_errors mk seen names = [] <-> NoDup names /\ (forall n, n ∈ names -> n ∉ seen).
Proof.
  revert seen; induction names as [|n names IH]; intros seen; simpl.
  - split; [|done]. intros _. split; [constructor|by intros ? ?%not_elem_of_nil].
  - destruct (mem n seen) eqn:E; simpl.
    + split; [done|]. intros [_ Hn]. apply mem_spec in E. destruct (Hn n); [|done].
      apply elem_of_cons; by left.
    + apply mem_false in E. rewrite IH, NoDup_cons. split.
      * intros [Hnd Hs]. split_and!; [|done|].
        -- intros Hn. apply (Hs n Hn), elem_of_cons. by left.
        -- intros x [->|Hx]%elem_of_cons; [done|]. intros Hxs. apply (Hs x Hx), elem_of_cons. by right.
      * intros [[Hn Hnd] Hs]. split; [done|]. intros x Hx [->|Hxs]%elem_of_cons; [done|].
        apply (Hs x); [|done]. apply elem_of_cons. by right.
Qed.

Lemma timeout_errors_nil subject name s :
  timeout_errors subject name s = [] -> s = "" \/ exists d, ParseDuration s = Ok d /\ (0 <= d)%Z.
Proof.
  unfold timeout_errors. destruct (String.eqb_spec s ""); [by left|]. right.
  destruct (ParseDuration s) as [d|]; [|done]. destruct (d <? 0)%Z eqn:E; [done|].
  exists d. split; [done|by apply Z.ltb_ge].
Qed.

(** Split [H : l1 ++ l2 ++ ... = []]. *)
Ltac split_nil H :=
  lazymatch type of H with
  | _ ++ _ = [] => let H1 := fresh "Hr" in apply app_eq_nil in H as [H1 H]; split_nil H
  | _ => idtac
  end.

Section ValidatorFacts.
Context {K : CoreV1} `{MapRange}.
Implicit Types (b : Bundle) (pt : PipelineTask) (pl : Pipeline).

Lemma resolve_pt_errs b s pt : rv_errs (resolve_pt b s pt) = [] -> rv_errs s = [].
Proof.
  unfold resolve_pt, rv_err, rv_add. intros Hn.
  repeat case_match; simpl in Hn; try done; by apply app_eq_nil in Hn as [? _].
Qed.

(** With distinct names and no error, every task that is not resolver-backed
    is resolved to the spec the engine will look up. *)
Lemma resolve_all_spec b pts :
  rv_errs (resolve_all b pts) = [] -> NoDup (map pt_Name pts) ->
  (forall pt, pt ∈ pts -> is_resolver_ref pt = false -> exists spec,
     lookupTaskSpec b pt = Ok spec /\ rv_tasks (resolve_all b pts) !! pt_Name pt = Some spec) /\
  (forall n, n ∉ map pt_Name pts -> rv_tasks (resolve_all b pts) !! n = None) /\
  (forall n, n ∈ rv_order (resolve_all b pts) <-> is_Some (rv_tasks (resolve_all b pts) !! n)).
Proof.
  unfold resolve_all. induction pts as [|pt pts IH] using rev_ind; intros He Hnd.
  { split_and!; [by intros ? ?%not_elem_of_nil|intros; apply lookup_empty|].
    intros n. simpl. rewrite lookup_empty. split; [by intros ?%not_elem_of_nil|by intros [? ?]]. }
  rewrite foldl_app in *. simpl in *. set (s := foldl (resolve_pt b) _ pts) in *.
  pose proof (resolve_pt_errs _ _ _ He) as Hs. rewrite map_app in Hnd.
  apply NoDup_app in Hnd as (Hnd & Hdis & _). destruct (IH Hs Hnd) as (H1 & H2 & H3). clear IH.
  assert (rv_tasks s !! pt_Name pt = None) as Hfresh.
  { apply H2. intros Hin. apply (Hdis _ Hin). by apply list_elem_of_singleton. }
  assert (forall x, x ∈ pts -> pt_Name x <> pt_Name pt) as Hne.
  { intros x Hx Heq. apply (Hdis (pt_Name x)); [by apply list_elem_of_fmap_2|].
    rewrite Heq. by apply list_elem_of_singleton. }
  assert (resolve_pt b s pt = s /\ is_resolver_ref pt = true \/
          exists spec inl, resolve_pt b s pt = rv_add s (pt_Name pt) spec inl /\ lookupTaskSpec b pt = Ok spec)
    as [[-> Hres]|(spec & inl & -> & Hlook)].
  { unfold resolve_pt, lookupTaskSpec, is_resolver_ref in *. destruct (pt_TaskRef pt) as [r|], (pt_TaskSpec pt) as [sp|].
    - simpl in He. by apply app_eq_nil in He as [_ ?].
    - destruct (is_set (tr_Resolver r)); [by left|]. right.
      destruct (b_Tasks b !! tr_Name r) as [t|]; [by eexists _, _|].
      simpl in He. by apply app_eq_nil in He as [_ ?].
    - right. by eexists _, _.
    - simpl in He. by apply app_eq_nil in He as [_ ?]. }
  - split_and!; [|intros n; rewrite map_app, not_elem_of_app; intros [? _]; by apply H2|done].
    intros x [Hx| ->%list_elem_of_singleton]%elem_of_app Hr; [by apply H1|congruence].
  - unfold rv_add. cbn [rv_tasks rv_order]. rewrite Hfresh. split_and!.
    + intros x [Hx| ->%list_elem_of_singleton]%elem_of_app Hr.
      * rewrite lookup_insert_ne by (intros ?; by apply (Hne x)). by apply H1.
      * exists spec. by rewrite lookup_insert_eq.
    + intros n. rewrite map_app, not_elem_of_app. intros [Hn Hp].
      rewrite lookup_insert_ne; [by apply H2|]. intros <-. apply Hp. by apply list_elem_of_singleton.
    + intros n. rewrite elem_of_app, list_elem_of_singleton, H3. destruct (decide (pt_Name pt = n)) as [<-|Hn].
      * rewrite lookup_insert_eq. split; [by eexists|by right].
      * rewrite lookup_insert_ne by done. split; [intros [?| ->]; done|by left].
Qed.

Lemma per_task_nil rv rule :
  (forall n, n ∈ rv_order rv <-> is_Some (rv_tasks rv !! n)) -> per_task rv rule = [] ->
  forall n spec, rv_tasks rv !! n = Some spec -> rule n spec = [].
Proof.
  intros Hord Hp n spec Hn. unfold per_task in Hp. rewrite flat_map_nil in Hp.
  specialize (Hp n). rewrite Hn in Hp. apply Hp, Hord. by eexists.
Qed.

Lemma per_pt_nil rv pts rule :
  per_pt rv pts rule = [] -> forall pt spec, pt ∈ pts -> rv_tasks rv !! pt_Name pt = Some spec -> rule pt spec = [].
Proof.
  intros Hp pt spec Hin Hn. unfold per_pt in Hp. rewrite flat_map_nil in Hp.
  specialize (Hp pt Hin). by rewrite Hn in Hp.
Qed.

Lemma finally_errors_nil main seen names :
  finally_errors main seen names = [] ->
  NoDup names /\ (forall n, n ∈ names -> n ∉ main /\ n ∉ seen).
Proof.
  revert seen; induction names as [|n names IH]; intros seen; simpl.
  { intros _. split; [constructor|by intros ? ?%not_elem_of_nil]. }
  intros [H1 [H2 H3]%app_eq_nil]%app_eq_nil. apply IH in H3 as [Hnd Hn].
  destruct (mem n main) eqn:E1; [done|]. destruct (mem n seen) eqn:E2; [done|]. rewrite mem_false in *.
  split; [constructor; [|done]|].
  - intros Hin. destruct (Hn n Hin) as [_ []]. apply elem_of_cons; by left.
  - intros x [->|Hx]%elem_of_cons; [done|]. destruct (Hn x Hx) as [? Hs]. split; [done|].
    intros ?. apply Hs, elem_of_cons. by right.
Qed.

(** No rule-19 error: the engine materialises the rows. *)
Lemma matrix_param_errors_nil name seen mps :
  matrix_param_errors name seen mps = [] -> empty_param mps = None /\ validator_cross mps = cross_count mps.
Proof.
  intros Hm.
  assert (Forall (fun mp => mp_Value mp <> []) mps) as Hall.
  { revert seen Hm. induction mps as [|mp mps IH]; intros seen; [constructor|]. simpl.
    intros [_ [H1 H2]%app_eq_nil]%app_eq_nil. constructor; [by destruct (mp_Value mp)|by eapply IH]. }
  split.
  - clear -Hall. unfold empty_param. induction Hall as [|mp mps Hne _ IH]; [done|]. simpl.
    by destruct (mp_Value mp).
  - unfold validator_cross, cross_count. destruct mps as [|mp0 mps0]; [done|].
    revert Hall. generalize (mp0 :: mps0) as l, 1%Z. clear. intros l c Hall. revert c.
    induction Hall as [|mp mps Hne _ IH]; intros c; [done|]. simpl. rewrite <- IH.
    by destruct (mp_Value mp).
Qed.

Lemma rule_matrix_ok rv pt m :
  pt_Matrix pt = Some m -> rule_matrix rv pt = [] -> exists rows, materializeRows pt m = Ok rows.
Proof.
  intros Hm. unfold rule_matrix. rewrite Hm. cbv zeta. intros [H1 [H2 _]%app_eq_nil]%app_eq_nil.
  apply matrix_param_errors_nil in H1 as [He Hc]. rewrite Hc in H2. unfold materializeRows. rewrite He.
  cbv zeta. unfold matrixMaxRows, validatorMatrixMaxRows in *.
  destruct (256 <? _)%Z; [done|]. by eexists.
Qed.

Lemma opt_timeout_parse f f' s d : opt_timeout f s = Ok d -> parse_timeout f' s = Ok d.
Proof.
  unfold opt_timeout, parse_timeout, parseTimeout. destruct (String.eqb s ""); [by intros [= ->]|].
  destruct (ParseDuration s) as [x|]; [|done]. destruct (x <=? 0)%Z; [done|]. by intros [= ->].
Qed.

Lemma rule_timeouts_ok t : rule_timeouts t = [] -> exists p, parsePipelineTimeouts t = Ok p.
Proof.
  destruct t as [t|]; simpl; [|by eexists]. unfold err_of.
  destruct (opt_timeout _ (to_Pipeline t)) as [p|] eqn:E1; [|done].
  destruct (opt_timeout _ (to_Tasks t)) as [k|] eqn:E2; [|done].
  destruct (opt_timeout _ (to_Finally t)) as [f|] eqn:E3; [|done]. intros _.
  rewrite (opt_timeout_parse _ "pipeline" _ _ E1), (opt_timeout_parse _ "tasks" _ _ E2),
    (opt_timeout_parse _ "finally" _ _ E3). by eexists.
Qed.

(** A step of a validated Task resolves unless its StepAction's body or
    defaults do not: the reference itself is sound. *)
Lemma stepaction_errors_ok raw b pt i st ref :
  st_Ref st = Some ref -> stepaction_errors raw b pt i st = [] ->
  assertNoInlineBody st = Ok tt /\ is_Some (b_StepActions b !! sar_Name ref).
Proof.
  unfold stepaction_errors. intros ->. destruct (existsb _ _); [done|].
  destruct (assertNoInlineBody st) as [[]|]; [|done]. simpl.
  destruct (b_StepActions b !! sar_Name ref); [|done]. by split; [|eexists].
Qed.

Lemma rule_when_ok pt :
  rule_when pt = [] -> forall w, w ∈ pt_When pt ->
    (to_lower (we_Operator w) = "in" \/ to_lower (we_Operator w) = "notin") /\ we_Values w <> [].
Proof.
  unfold rule_when. rewrite flat_map_nil. intros Hall w Hw.
  apply Hall in Hw as [H1 H2]%app_eq_nil. cbv zeta in H1. split; [|by destruct (we_Values w)].
  destruct (String.eqb_spec (to_lower (we_Operator w)) "in"); [by left|].
  destruct (String.eqb_spec (to_lower (we_Operator w)) "notin"); [by right|done].
Qed.

Lemma concat_imap_nil {A B} (f : nat -> A -> list B) l :
  concat (imap f l) = [] -> forall i x, l !! i = Some x -> f i x = [].
Proof.
  revert f; induction l as [|y l IH]; intros f; [done|]. rewrite imap_cons. simpl.
  intros [H1 H2]%app_eq_nil [|i] x; simpl; [by intros [= <-]|]. intros Hx. by apply (IH (f ∘ S)).
Qed.

(** The rules the engine relies on, out of an empty error list. *)
Lemma validateCore_nil raw b n provided :
  validateCore raw b n provided = [] ->
  exists pl, b_Pipelines b !! n = Some pl /\
  let all := all_tasks pl in
  let rv := resolve_all b all in
  rv_errs rv = [] /\ per_pt rv all rule_task_params = [] /\ rule_dag pl = [] /\
  finally_errors (main_names pl) [] (finally_names pl) = [] /\
  flat_map rule_when all = [] /\ flat_map rule_retries all = [] /\
  per_task rv (fun name spec => timeout_errors "pipeline task" name (ts_Timeout spec)) = [] /\
  flat_map (fun pt => timeout_errors "pipeline task" (pt_Name pt) (pt_Timeout pt)) all = [] /\
  rule_timeouts (spec_Timeouts (pl_Spec pl)) = [] /\
  per_pt rv all (rule_stepactions raw b) = [] /\ flat_map (rule_matrix rv) all = [].
Proof.
  unfold validateCore. destruct (b_Pipelines b !! n) as [pl|]; [|done]. cbv zeta. intros Hok.
  exists pl. split; [done|]. split_nil Hok. by split_and!.
Qed.

Lemma rule_dag_ok pl : rule_dag pl = [] -> NoDup (main_names pl) /\ exists l, Levels (validator_graph pl) = Ok l.
Proof.
  unfold rule_dag. intros [H1 [_ H2]%app_eq_nil]%app_eq_nil. apply dup_errors_nil in H1 as [H1 _].
  destruct (Levels (validator_graph pl)) as [l|]; [|done]. split; [done|by exists l].
Qed.

Lemma validated_names pl :
  rule_dag pl = [] -> finally_errors (main_names pl) [] (finally_names pl) = [] ->
  NoDup (map pt_Name (all_tasks pl)).
Proof.
  intros [Hm _]%rule_dag_ok [Hf Hdis]%finally_errors_nil. unfold all_tasks. rewrite map_app.
  apply NoDup_app. split_and!; [done| |done]. intros x Hx Hxf. by apply Hdis in Hxf as [? _].
Qed.

(** The timeout of a validated task parses and is not negative. *)
Lemma validated_timeout b pt spec :
  lookupTaskSpec b pt = Ok spec ->
  timeout_errors "pipeline task" (pt_Name pt) (pt_Timeout pt) = [] ->
  timeout_errors "pipeline task" (pt_Name pt) (ts_Timeout spec) = [] ->
  exists d, taskTimeoutFor b pt = Ok d /\ (0 <= d)%Z.
Proof.
  intros Hl [Hp|(d & Hd & Hpos)]%timeout_errors_nil Ht%timeout_errors_nil; unfold taskTimeoutFor.
  - rewrite Hp. simpl. unfold lookupTaskSpec in Hl.
    assert (exists d, (if String.eqb (ts_Timeout spec) "" then Ok 0%Z else ParseDuration (ts_Timeout spec)) = Ok d
              /\ (0 <= d)%Z) as Hspec.
    { destruct Ht as [->|(d & Hd & ?)]; [by exists 0%Z|]. rewrite Hd.
      destruct (String.eqb (ts_Timeout spec) ""); [by exists 0%Z|by exists d]. }
    destruct (pt_TaskSpec pt) as [s|]; [by injection Hl as ->|].
    destruct (pt_TaskRef pt) as [r|]; [|done]. destruct (b_Tasks b !! tr_Name r); [|done].
    by injection Hl as ->.
  - exists d. destruct (String.eqb_spec (pt_Timeout pt) "") as [Hp|]; [|done].
    rewrite Hp in Hd. vm_compute in Hd. discriminate.
Qed.

Lemma rule_task_params_ok pt spec decl :
  rule_task_params pt spec = [] -> decl ∈ ts_Params spec -> ps_Default decl = None ->
  ps_Name decl ∈ bound_params pt.
Proof.
  unfold rule_task_params. rewrite flat_map_nil. intros Hall Hd Hn. specialize (Hall decl Hd).
  rewrite Hn in Hall. simpl in Hall. destruct (mem (ps_Name decl) (bound_params pt)) eqn:E; [|done].
  by apply mem_spec.
Qed.
End ValidatorFacts.

(** ** Examples *)
Section Examples.
#[local] Existing Instance core_unit.
#[local] Existing Instance default_range.

Definition ex_valid_spec : TaskSpec := ts_set_Steps zero_TaskSpec [image_step "s" "alpine"].

Definition ex_valid_pl : Pipeline :=
  mkPipeline (mkObject "" "" (mkMetadata "p" "" ∅ ∅))
    (mkPipelineSpec "" "" [] []
       [mkPipelineTask "build" "" None (Some ex_valid_spec) [] [] [] [] 0 "" (Some ex_matrix) None;
        plain_task "test" ["build"] ex_valid_spec]
       [plain_task "clean" [] ex_valid_spec] [] (Some (mkTimeouts "1h" "" "10m"))).

Definition ex_valid_bundle : Bundle := mkBundle ∅ {["p" := ex_valid_pl]} [] ∅.
Definition no_raw (_ : string) (_ : nat) : list string := [].

(** The example's include row overrides a cross-product param. *)
Example validate_overlap :
  length (Validate no_raw ex_valid_bundle "p" None) = 1.
Proof. vm_compute. reflexivity. Qed.

Definition ex_ok_pl : Pipeline :=
  pl_set_tasks ex_valid_pl
    [mkPipelineTask "build" "" None (Some ex_valid_spec) [] [] []
       [mkWhenExpression "$(tasks.lint.results.ok)" "in" ["yes"]] 1 "5m"
       (Some (mkMatrix (mx_Params ex_matrix) [])) None;
     plain_task "lint" [] ex_valid_spec] [plain_task "clean" [] ex_valid_spec].

Definition ex_ok_bundle : Bundle := mkBundle ∅ {["p" := ex_ok_pl]} [] ∅.
End Examples.

(** ** Properties *)

(** C4: a bundle that passes validation meets the preconditions of the run: task
    names are distinct, the runAfter graph has levels, timeouts parse, retries
    are not negative, when operators are known; every task that is not
    resolver-backed has a spec, a task timeout that parses, params without
    default that are bound, and StepAction references that are loaded and have no
    inline body; and every matrix materialises. *)
Theorem Validate_sound {K : CoreV1} (M : MapRange) (raw : string -> nat -> list string)
    (b : Bundle) (n : string) (provided : option (gmap string bool)) (opts : Options)
    (Hok : ValidateWithOptions raw b n provided opts = []) :
  exists pl, b_Pipelines b !! n = Some pl /\
    NoDup (map pt_Name (all_tasks pl)) /\
    (exists levels, Levels (validator_graph pl) = Ok levels) /\
    (exists t, parsePipelineTimeouts (spec_Timeouts (pl_Spec pl)) = Ok t) /\
    (forall pt, pt ∈ all_tasks pl ->
       (0 <= pt_Retries pt)%Z /\
       (forall w, w ∈ pt_When pt ->
          (to_lower (we_Operator w) = "in" \/ to_lower (we_Operator w) = "notin") /\ we_Values w <> []) /\
       (forall m, pt_Matrix pt = Some m -> exists rows, materializeRows pt m = Ok rows) /\
       (is_resolver_ref pt = false -> exists spec d,
          lookupTaskSpec b pt = Ok spec /\ taskTimeoutFor b pt = Ok d /\ (0 <= d)%Z /\
          (forall decl, decl ∈ ts_Params spec -> ps_Default decl = None -> ps_Name decl ∈ bound_params pt) /\
          (forall st ref, st ∈ ts_Steps spec -> st_Ref st = Some ref ->
             assertNoInlineBody st = Ok tt /\ is_Some (b_StepActions b !! sar_Name ref)))).
Proof.
  unfold ValidateWithOptions in Hok. apply app_eq_nil in Hok as [Hok _].
  apply validateCore_nil in Hok as (pl & Hpl & Herrs & Hparams & Hdag & Hfin & Hwhen & Hretry & Hto & Hpto
    & Htim & Hsa & Hmx). exists pl.
  pose proof (validated_names pl Hdag Hfin) as Hnd.
  destruct (resolve_all_spec b _ Herrs Hnd) as (Hres & _ & Hord).
  rewrite flat_map_nil in Hwhen. rewrite flat_map_nil in Hretry. rewrite flat_map_nil in Hpto.
  rewrite flat_map_nil in Hmx.
  split_and!; [done|done|by apply rule_dag_ok|by apply rule_timeouts_ok|]. intros pt Hpt. split_and!.
  - specialize (Hretry pt Hpt). unfold rule_retries in Hretry.
    destruct (pt_Retries pt <? 0)%Z eqn:E; [done|]. by apply Z.ltb_ge in E.
  - by apply rule_when_ok, Hwhen.
  - intros m Hm. exact (rule_matrix_ok _ pt m Hm (Hmx pt Hpt)).
  - intros Hr. destruct (Hres pt Hpt Hr) as (spec & Hl & Hrv). exists spec.
    destruct (validated_timeout b pt spec Hl (Hpto pt Hpt)) as (d & Hd & Hpos).
    { exact (per_task_nil _ _ Hord Hto _ _ Hrv). }
    exists d. split_and!; [done..| |].
    + intros decl. apply rule_task_params_ok. exact (per_pt_nil _ _ _ Hparams pt spec Hpt Hrv).
    + intros st ref [i Hi]%list_elem_of_lookup Href.
      pose proof (per_pt_nil _ _ _ Hsa pt spec Hpt Hrv) as Hsteps.
      by apply (stepaction_errors_ok raw b pt i st ref Href), (concat_imap_nil _ _ Hsteps i st).
Qed.

(** a divergence: the validator does not see a result reference that has an
    index or star suffix, which the engine's scan (whose comment says the two
    patterns have the same shape) does see. *)
Theorem validator_misses_indexed_refs :
  extractTaskRefs "$(tasks.ghost.results.r)" = ["ghost"] /\
  extractTaskRefs "$(tasks.ghost.results.r[0])" = [] /\
  extractTaskRefs "$(tasks.ghost.results.r[*])" = [] /\
  scan "$(tasks.ghost.results.r[0])" = ["ghost"] /\ scan "$(tasks.ghost.results.r[*])" = ["ghost"].
Proof. vm_compute. auto. Qed.

(** ** Witnesses *)
Lemma Validate_sound_witness :
  exists pl, b_Pipelines ex_ok_bundle !! "p" = Some pl /\ NoDup (map pt_Name (all_tasks pl)).
Proof.
  destruct (Validate_sound (K := core_unit) default_range no_raw ex_ok_bundle "p" None no_options)
    as (pl & H & Hnd & _); [vm_compute; reflexivity|].
  exists pl. by split.
Defined.
