(* ===== verification/Engine.v ===== *)
(** * internal/engine/engine.go: one task, and the tests before its dispatch

    [runOne] with lazy_resolve.go's [lookupTaskSpecLazy], the dependency graph of
    a run, and the two dispatch tests.  [runOne] is a program of calls to the Backend
    and the reporter ([TaskE]); the volume resolver, the results-dir provisioner, the
    resolver registry (remote fetches) and the YAML loader, whose answers it only reads,
    are an interface, [Services].  Debug events are not modelled. *)

From S2P Require Import Prelude GoStrings GoTime Effects TektonTypes Dag Resolver Run Matrix Policy Scope Steps Validator.

(** What an attempt at a task calls: the reporter; the backend, under the lazily applied
    timeout (0 for none); and, behind that, whether this timeout had expired and the parent
    context had not. *)
Inductive TaskE `{K : CoreV1} : Type -> Type :=
  | EmitE (e : Event) : TaskE unit
  | BackendRunTask (timeout : Z) (inv : TaskInvocation) : TaskE (result TaskResult)
  | LazyExpired : TaskE bool.

(** The services whose answers it reads. *)
Record Services `{K : CoreV1} := mkServices {
  sv_VolumeResolver : option (string -> list Volume -> result (gmap string string));
  sv_provisionResultsDir : string -> string -> result string;
  sv_Resolve : option (Request -> result string);
  sv_LoadTasks : string -> result (gmap string Task);
}.
Arguments mkServices {K}.

(** What a call of [runOne] is told: the run, and the values threaded through its
    context. *)
Record RunEnv `{K : CoreV1} := mkRunEnv {
  re_in : PipelineInput;
  re_pl : Pipeline;
  re_params : gmap string ParamValue;
  re_runID : string;
  re_pipelineRunName : string;
}.
Arguments mkRunEnv {K}.

Section RunOne.
Context {K : CoreV1} `{MapRange}.

Definition skip_event (pt : PipelineTask) (msg : text) (m : option MatrixEvent) : Event :=
  mkEvent EvtTaskSkip "" "" (pt_Name pt) "" msg 0 ∅ (pt_DisplayName pt) "" "" m.

(** The resolver context [runOne] builds: pipeline params, a matrix row's params
    on top, results, context variables, the finally view. *)
Definition runOne_context (env : RunEnv) (pt : PipelineTask) (results : gmap string (gmap string string))
    (retryCount : Z) (fs : option finallyStatus) : Context :=
  let base := flattenStringParams (re_params env) in
  let params := match pt_MatrixInfo pt with Some mi => inf_Params mi ∪ base | None => base end in
  mkContext params (arrayParams (re_params env)) (objectParams (re_params env)) results
    (taskContextVars retryCount (re_pl env) pt (re_runID env) (re_pipelineRunName env))
    None "" None
    (match fs with Some f => f.1 | None => "" end)
    (match fs with Some f => Some f.2 | None => None end) ∅.

(** ** lazy_resolve.go *)

(** One resolver param; a value of another type contributes nothing. *)
Definition resolver_param (rctx : Context) (m : gmap string string) (p : ResolverParam)
    : result (gmap string string) :=
  let v := rp_Value p in
  if is_string_type (pv_Type v) then
    s ← wrap_err "resolver: substituting param %q: %w" [TStr (rp_Name p)] (Substitute (pv_StringVal v) rctx);
    Ok (<[rp_Name p := s]> m)
  else if String.eqb (pv_Type v) ParamTypeArray then
    parts ← collect (fun item =>
      wrap_err "resolver: substituting array param %q: %w" [TStr (rp_Name p)] (Substitute item rctx)) (pv_ArrayVal v);
    Ok (<[rp_Name p := join "," parts]> m)
  else if String.eqb (pv_Type v) ParamTypeObject then
    parts ← collect (fun kv =>
      s ← wrap_err "resolver: substituting object param %q[%q]: %w" [TStr (rp_Name p); TStr kv.1] (Substitute kv.2 rctx);
      Ok (kv.1 +:+ "=" +:+ s)) (map_range (pv_ObjectVal v));
    Ok (<[rp_Name p := join "," (sort_strings parts)]> m)
  else Ok m.

Definition resolver_event (k : EventKind) (task resolver status : string) (msg : text) : Event :=
  mkEvent k "" "" task status msg 0 ∅ "" "" resolver None.

Definition lookupTaskSpecLazy (sv : Services) (pt : PipelineTask) (rctx : Context)
    : result TaskSpec * list Event :=
  match pt_TaskRef pt with
  | None => (Err (Fmt "lookupTaskSpecLazy: pt %q has no resolver" [TStr (pt_Name pt)]), [])
  | Some r =>
    if negb (is_set (tr_Resolver r)) then
      (Err (Fmt "lookupTaskSpecLazy: pt %q has no resolver" [TStr (pt_Name pt)]), [])
    else
    match sv_Resolve sv with
    | None => (Err (lit "resolver: no resolver registry configured (--resolver-allow / engine.Options.Refresolver)"), [])
    | Some resolve =>
      match foldM (resolver_param rctx) ∅ (tr_ResolverParams r) with
      | Err e => (Err e, [])
      | Ok params =>
        let start := resolver_event EvtResolverStart (pt_Name pt) (tr_Resolver r) "" no_text in
        let failed e := resolver_event EvtResolverEnd (pt_Name pt) (tr_Resolver r) "failed" e in
        match resolve (mkRequest "task" (tr_Resolver r) params) with
        | Err e => (Err (Fmt "resolver: %w" [TErr e]), [start; failed e])
        | Ok bytes =>
          match sv_LoadTasks sv bytes with
          | Err e => let m := Fmt "resolver: decoding bytes: %w" [TErr e] in (Err m, [start; failed m])
          | Ok tasks =>
            match (map_to_list tasks).*2 with
            | [t] =>
              match ValidateTaskSpec (pt_Name pt) (task_Spec t) with
              | [] => (Ok (task_Spec t),
                       [start; resolver_event EvtResolverEnd (pt_Name pt) (tr_Resolver r) "succeeded" no_text])
              | errs => let m := Fmt "resolver: validate: %s" (map TErr errs) in (Err m, [start; failed m])
              end
            | l => let m := Fmt "resolver: expected exactly one Task in resolved bytes, got %d"
                              [TInt (Z.of_nat (length l))] in
                   (Err m, [start; failed m])
            end
          end
        end
      end
    end
  end.

(** ** [runOne] *)

(** [if err != nil { return TaskOutcome{Status: status, Message: err.Error()} }] *)
Definition or_fail {A} (status : string) (r : result A) (k : A -> prog TaskE TaskOutcome) : prog TaskE TaskOutcome :=
  match r with Err e => Ret (outcome status e) | Ok a => k a end.

Definition emit_all (evs : list Event) : prog TaskE unit := foldP (fun _ e => call (EmitE e)) tt evs.

Definition task_defaults (spec : TaskSpec) : gmap string ParamValue :=
  foldl (fun (m : gmap string ParamValue) d =>
           match ps_Default d with Some v => <[ps_Name d := v]> m | None => m end) ∅ (ts_Params spec).

Definition bind_param (rctx : Context) (m : gmap string ParamValue) (p : Param) : result (gmap string ParamValue) :=
  v ← wrap_err "param %q: %v" [TStr (p_Name p)] (bindTaskParamValue (p_Value p) rctx);
  Ok (<[p_Name p := v]> m).

Definition task_params (spec : TaskSpec) (pt : PipelineTask) (rctx : Context) : result (gmap string ParamValue) :=
  foldM (bind_param rctx) (task_defaults spec) (pt_Params pt).

Definition task_context (spec : TaskSpec) (pt : PipelineTask) (rctx : Context)
    (taskParams : gmap string ParamValue) : Context :=
  mkContext (flattenStringParams taskParams) (arrayParams taskParams) (objectParams taskParams)
    (rc_Results rctx) (rc_ContextVars rctx) None "" (Some (boundWorkspaces spec pt)) "" None
    (workspaceMountPaths (ts_Workspaces spec)).

Definition workspace_mounts (input : PipelineInput) (pt : PipelineTask) : result (gmap string WorkspaceMount) :=
  foldM (fun (m : gmap string WorkspaceMount) w =>
    match in_Workspaces input !! wb_Workspace w with
    | None => Err (Fmt "workspace %q not provisioned" [TStr (wb_Workspace w)])
    | Some host => Ok (<[wb_Name w := mkWorkspaceMount host false (wb_SubPath w)]> m)
    end) ∅ (pt_Workspaces pt).

Definition volume_hosts (sv : Services) (pt : PipelineTask) (vols : list Volume) : result (gmap string string) :=
  match vols with
  | [] => Ok ∅
  | _ => match sv_VolumeResolver sv with
         | None => Err (lit "volumes declared but no VolumeResolver configured")
         | Some f => f (pt_Name pt) vols
         end
  end.

(** The lazily applied Task timeout, 0 when there is none. *)
Definition lazy_timeout (pt : PipelineTask) (spec : TaskSpec) : result Z :=
  if is_resolver_ref pt && String.eqb (pt_Timeout pt) "" && is_set (ts_Timeout spec) then
    wrap_err "task timeout %q: %v" [TStr (ts_Timeout spec)] (ParseDuration (ts_Timeout spec))
  else Ok 0%Z.

(** The outcome of the backend call. *)
Definition backend_outcome (lazyTimeout : Z) (expired : bool) (r : result TaskResult) : TaskOutcome :=
  if (0 <? lazyTimeout)%Z && expired then outcome "timeout" (timeout_message lazyTimeout)
  else
    match r with
    | Err e => outcome "failed" e
    | Ok res => mkTaskOutcome (res_Status res) (default no_text (res_Err res)) (res_Results res) 0 None skipNone
    end.

(** The call of the backend. *)
Definition run_backend (lazyTimeout : Z) (inv : TaskInvocation) : prog TaskE TaskOutcome :=
  r ← call (BackendRunTask lazyTimeout inv);
  expired ← (if (0 <? lazyTimeout)%Z then call LazyExpired else Ret false);
  Ret (backend_outcome lazyTimeout expired r).

(** From the resolved spec to the outcome. *)
Definition runOne_exec (sv : Services) (env : RunEnv) (pt : PipelineTask) (rctx : Context) (spec0 : TaskSpec)
    : prog TaskE TaskOutcome :=
  or_fail "failed" (resolveStepActions spec0 (in_Bundle (re_in env))) (fun spec1 =>
  let spec := applyStepTemplate spec1 in
  or_fail "failed" (task_params spec pt rctx) (fun taskParams =>
  let taskCtx := task_context spec pt rctx taskParams in
  or_fail "failed" (substituteSpec spec taskCtx) (fun resolved =>
  or_fail "failed" (workspace_mounts (re_in env) pt) (fun wsMap =>
  or_fail "failed"
    (sv_provisionResultsDir sv (default "" (in_Workspaces (re_in env) !! "__results")) (pt_Name pt))
    (fun resultsDir =>
  or_fail "infrafailed" (volume_hosts sv pt (ts_Volumes resolved)) (fun volumeHosts =>
  or_fail "failed" (lazy_timeout pt resolved) (fun lazyTimeout =>
    run_backend lazyTimeout
      (mkTaskInvocation (re_runID env) (re_pipelineRunName env) (pt_Name pt)
         (re_pipelineRunName env +:+ "-" +:+ pt_Name pt) resolved taskParams wsMap (rc_ContextVars taskCtx)
         resultsDir volumeHosts)))))))).

(** The task's spec, and the events of its resolution. *)
Definition task_spec (sv : Services) (env : RunEnv) (pt : PipelineTask) (rctx : Context) : result TaskSpec * list Event :=
  if is_resolver_ref pt then lookupTaskSpecLazy sv pt rctx else (lookupTaskSpec (in_Bundle (re_in env)) pt, []).

Definition runOne (sv : Services) (env : RunEnv) (pt : PipelineTask)
    (results : gmap string (gmap string string)) (retryCount : Z) (fs : option finallyStatus)
    : prog TaskE TaskOutcome :=
  let rctx := runOne_context env pt results retryCount fs in
  match evaluateWhen (pt_When pt) rctx with
  | Err e => Ret (outcome "failed" e)
  | Ok (false, reason) =>
    _ ← emit_all (match pt_MatrixInfo pt with None => [skip_event pt (lit reason) None] | Some _ => [] end);
    Ret (outcome "skipped" (lit reason))
  | Ok (true, _) =>
    let '(spec, evs) := task_spec sv env pt rctx in
    _ ← emit_all evs; or_fail "failed" spec (runOne_exec sv env pt rctx)
  end.

(** ** Dispatch tests *)

(** Nodes with a path to [target]. *)
Definition upstream (g : Graph) (target : string) : list string :=
  List.filter (fun n => negb (String.eqb n target) && mem target (Descendants g n)) (Nodes g).

Record group := mkgroup { gr_anyOK : bool; gr_blocking : bool; gr_anyFailed : bool }.

Definition keyFor (main : gmap string PipelineTask) (name : string) : string :=
  match main !! name with
  | Some pt => match pt_MatrixInfo pt with Some mi => "matrix:" +:+ inf_Parent mi | None => name end
  | None => name
  end.

Definition group_step (main : gmap string PipelineTask) (outcomes : gmap string TaskOutcome)
    (groups : gmap string group) (ancestor : string) : gmap string group :=
  let k := keyFor main ancestor in
  let g := default (mkgroup false false false) (groups !! k) in
  let g := match outcomes !! ancestor with
           | None => g
           | Some oc =>
             if String.eqb (oc_Status oc) "succeeded" then mkgroup true (gr_blocking g) (gr_anyFailed g)
             else if bool_decide (oc_skip oc = skipWhen) then g
             else mkgroup (gr_anyOK g) true (gr_anyFailed g || negb (String.eqb (oc_Status oc) "not-run"))
           end in
  <[k := g]> groups.

Definition group_blocks (g : group) : bool := negb (gr_anyOK g) && gr_blocking g.

(** The reason when the task is blocked. *)
Definition upstreamBlocksDispatch (g : Graph) (target : string) (main : gmap string PipelineTask)
    (outcomes : gmap string TaskOutcome) : option text :=
  let groups := (map_to_list (foldl (group_step main outcomes) ∅ (upstream g target))).*2 in
  if existsb group_blocks groups then
    Some (if existsb (fun g => group_blocks g && gr_anyFailed g) groups
          then lit "upstream failure" else lit "parent task skipped")
  else None.

(** A referenced task is terminal and none of its runs succeeded. *)
Definition ref_missing (outcomes : gmap string TaskOutcome) (expansions : gmap string (list string)) (ref : string)
    : bool :=
  let runs := omap (fun n => outcomes !! n) (expandRefNames ref expansions) in
  nonempty_list runs && negb (existsb (fun oc => String.eqb (oc_Status oc) "succeeded") runs).

Definition missingResultRefs (pt : PipelineTask) (outcomes : gmap string TaskOutcome)
    (expansions : gmap string (list string)) : option text :=
  match List.find (ref_missing outcomes expansions) (implicitParamEdges pt) with
  | Some ref => Some (Fmt "Results were missing: task %q did not succeed" [TStr ref])
  | None => None
  end.

Definition sameMatrixParent (a b : PipelineTask) : bool :=
  match pt_MatrixInfo a, pt_MatrixInfo b with
  | Some x, Some y => String.eqb (inf_Parent x) (inf_Parent y)
  | _, _ => false
  end.

(** ** The graph of a run *)
Definition main_tasks (pts : list PipelineTask) : gmap string PipelineTask :=
  foldl (fun (m : gmap string PipelineTask) pt => <[pt_Name pt := pt]> m) ∅ pts.

Definition implicit_edge_ok (main : gmap string PipelineTask) (pt : PipelineTask) (dep : string) : bool :=
  match main !! dep with
  | None => false
  | Some d => negb (String.eqb dep (pt_Name pt) || sameMatrixParent d pt)
  end.

(** The names [pt] waits on: [runAfter], then the result references. *)
Definition dependencies (main : gmap string PipelineTask) (expansions : gmap string (list string))
    (pt : PipelineTask) : list string :=
  pt_RunAfter pt
  ++ List.filter (implicit_edge_ok main pt)
       (flat_map (fun ref => expandRefNames ref expansions) (implicitParamEdges pt)).

Definition add_deps (main : gmap string PipelineTask) (expansions : gmap string (list string))
    (g : Graph) (pt : PipelineTask) : Graph :=
  foldl (fun g dep => AddEdge g dep (pt_Name pt)) g (dependencies main expansions pt).

Definition run_graph (tasks : list PipelineTask) (expansions : gmap string (list string)) : Graph :=
  foldl (add_deps (main_tasks tasks) expansions) (foldl AddNode New (map pt_Name tasks)) tasks.

(** ** Secrets in debug output *)
Definition secretNamePatterns : list string :=
  ["secret"; "token"; "password"; "passwd"; "key"; "credential"; "auth"].

Definition looksLikeSecretName (name : string) : bool :=
  existsb (contains (to_lower name)) secretNamePatterns.
End RunOne.

(** ** Lemmas: the dispatch tests *)
Section DispatchFacts.
Context {K : CoreV1} `{MapRange}.
Variable main : gmap string PipelineTask.
Variable outcomes : gmap string TaskOutcome.

Definition anc_ok (a : string) : bool :=
  match outcomes !! a with Some oc => String.eqb (oc_Status oc) "succeeded" | None => false end.

(** A terminal ancestor that did not succeed and was not skipped by its own
    [when]. *)
Definition anc_blocking (a : string) : bool :=
  match outcomes !! a with
  | Some oc => negb (String.eqb (oc_Status oc) "succeeded") && negb (bool_decide (oc_skip oc = skipWhen))
  | None => false
  end.

Definition anc_failed (a : string) : bool :=
  anc_blocking a &&
  match outcomes !! a with Some oc => negb (String.eqb (oc_Status oc) "not-run") | None => false end.

Definition in_group (k : string) (p : string -> bool) (anc : list string) : bool :=
  existsb (fun a => String.eqb (keyFor main a) k && p a) anc.

Lemma in_group_snoc k p anc a :
  in_group k p (anc ++ [a]) = in_group k p anc || (String.eqb (keyFor main a) k && p a).
Proof. unfold in_group. rewrite existsb_app. simpl. by rewrite orb_false_r. Qed.

Lemma groups_lookup anc k :
  foldl (group_step main outcomes) ∅ anc !! k =
    if in_group k (fun _ => true) anc
    then Some (mkgroup (in_group k anc_ok anc) (in_group k anc_blocking anc) (in_group k anc_failed anc))
    else None.
Proof.
  induction anc as [|a anc IH] using rev_ind; [by simpl; rewrite lookup_empty|].
  rewrite foldl_app, !in_group_snoc. simpl.
  set (m := foldl (group_step main outcomes) ∅ anc) in *. clearbody m. unfold group_step. cbv zeta.
  destruct (String.eqb_spec (keyFor main a) k) as [<-|Hne]; simpl; rewrite ?orb_true_r, ?orb_false_r.
  - rewrite lookup_insert_eq. rewrite IH. f_equal.
    assert (in_group (keyFor main a) (fun _ => true) anc = false ->
      forall p, in_group (keyFor main a) p anc = false) as Hno.
    { unfold in_group. intros Hf p. apply not_true_iff_false. rewrite existsb_exists.
      intros (x & Hx & [Hk _]%andb_true_iff). apply not_true_iff_false in Hf. apply Hf, existsb_exists.
      exists x. by rewrite Hk. }
    assert (default (mkgroup false false false)
      (if in_group (keyFor main a) (fun _ => true) anc
       then Some (mkgroup (in_group (keyFor main a) anc_ok anc) (in_group (keyFor main a) anc_blocking anc)
                    (in_group (keyFor main a) anc_failed anc)) else None)
      = mkgroup (in_group (keyFor main a) anc_ok anc) (in_group (keyFor main a) anc_blocking anc)
          (in_group (keyFor main a) anc_failed anc)) as ->.
    { destruct (in_group (keyFor main a) (fun _ => true) anc) eqn:E; [done|]. simpl. by rewrite !Hno. }
    unfold anc_failed, anc_blocking, anc_ok. cbn [gr_anyOK gr_blocking gr_anyFailed].
    destruct (outcomes !! a) as [oc|]; [|by rewrite !orb_false_r].
    destruct (String.eqb (oc_Status oc) "succeeded"); simpl; [by rewrite ?orb_false_r, ?orb_true_r|].
    destruct (bool_decide (oc_skip oc = skipWhen)); simpl; [by rewrite !orb_false_r|].
    by rewrite orb_false_r, orb_true_r.
  - rewrite lookup_insert_ne by done. apply IH.
Qed.

Lemma existsb_groups (p : group -> bool) anc :
  existsb p (map_to_list (foldl (group_step main outcomes) ∅ anc)).*2 = true <->
  exists a, a ∈ anc /\ p (mkgroup (in_group (keyFor main a) anc_ok anc) (in_group (keyFor main a) anc_blocking anc)
                             (in_group (keyFor main a) anc_failed anc)) = true.
Proof.
  rewrite existsb_exists. split.
  - intros (g & Hg%list_elem_of_In & Hp). apply list_elem_of_fmap in Hg as ([k g'] & -> & Hin%elem_of_map_to_list).
    rewrite groups_lookup in Hin. simpl in Hp. destruct (in_group k (fun _ => true) anc) eqn:E; [|done].
    injection Hin as <-. unfold in_group in E. apply existsb_exists in E as (a & Ha & Hk).
    rewrite andb_true_r, String.eqb_eq in Hk. subst k. exists a. split; [by apply list_elem_of_In|done].
  - intros (a & Ha & Hp). eexists. split; [|exact Hp]. apply list_elem_of_In, list_elem_of_fmap.
    eexists (keyFor main a, _). split; [done|]. apply elem_of_map_to_list. rewrite groups_lookup.
    assert (in_group (keyFor main a) (fun _ => true) anc = true) as ->; [|done].
    apply existsb_exists. exists a. rewrite String.eqb_refl. split; [by apply list_elem_of_In|done].
Qed.

Lemma in_group_true k p anc : in_group k p anc = true <-> exists a, a ∈ anc /\ keyFor main a = k /\ p a = true.
Proof.
  unfold in_group. rewrite existsb_exists. split.
  - intros (a & Ha & [Hk%String.eqb_eq Hp]%andb_true_iff). exists a. by rewrite list_elem_of_In.
  - intros (a & Ha & <- & Hp). exists a. rewrite String.eqb_refl. by rewrite <- list_elem_of_In.
Qed.

Lemma elem_of_upstream g target a :
  a ∈ upstream g target <-> is_Some (nodes g !! a) /\ a <> target /\ reaches g a target.
Proof.
  unfold upstream. rewrite list_elem_of_In, List.filter_In, <- list_elem_of_In, elem_of_Nodes,
    andb_true_iff, negb_true_iff, String.eqb_neq, mem_spec, elem_of_Descendants. tauto.
Qed.

(** A logical upstream node blocks: some run of it is blocking, none succeeded. *)
Definition blocked_by (anc : list string) (p : string -> bool) : Prop :=
  exists a, a ∈ anc /\ p a = true /\ forall a', a' ∈ anc -> keyFor main a' = keyFor main a -> anc_ok a' = false.

Lemma blocked_by_true anc p (q : group -> bool) :
  (forall a, q (mkgroup (in_group (keyFor main a) anc_ok anc) (in_group (keyFor main a) anc_blocking anc)
                 (in_group (keyFor main a) anc_failed anc)) =
             negb (in_group (keyFor main a) anc_ok anc) && in_group (keyFor main a) p anc) ->
  existsb q (map_to_list (foldl (group_step main outcomes) ∅ anc)).*2 = true <-> blocked_by anc p.
Proof.
  intros Hq. rewrite existsb_groups. unfold blocked_by. split.
  - intros (a & Ha & Hp). rewrite Hq in Hp. apply andb_true_iff in Hp as [Hok Hp].
    apply in_group_true in Hp as (x & Hx & Hk & Hpx). exists x. split_and!; [done|done|].
    intros y Hy Hky. apply not_true_iff_false. intros Hoky. apply negb_true_iff, not_true_iff_false in Hok.
    apply Hok, in_group_true. exists y. by rewrite Hky.
  - intros (a & Ha & Hp & Hno). exists a. split; [done|]. rewrite Hq, andb_true_iff, negb_true_iff. split.
    + apply not_true_iff_false. rewrite in_group_true. intros (x & Hx & Hk & Hok).
      rewrite (Hno x Hx Hk) in Hok. done.
    + apply in_group_true. by exists a.
Qed.

Lemma blocking_groups anc :
  existsb group_blocks (map_to_list (foldl (group_step main outcomes) ∅ anc)).*2 = true <-> blocked_by anc anc_blocking.
Proof. apply blocked_by_true. done. Qed.

Lemma failing_groups anc :
  existsb (fun g => group_blocks g && gr_anyFailed g) (map_to_list (foldl (group_step main outcomes) ∅ anc)).*2 = true <->
  blocked_by anc anc_failed.
Proof.
  apply blocked_by_true. intros a. unfold group_blocks. cbn [gr_anyOK gr_blocking gr_anyFailed].
  destruct (in_group _ anc_failed anc) eqn:E; [|by rewrite !andb_false_r].
  assert (in_group (keyFor main a) anc_blocking anc = true) as ->; [|by rewrite !andb_true_r].
  apply in_group_true in E as (x & Hx & Hk & Hf). apply in_group_true. exists x. split_and!; [done|done|].
  unfold anc_failed in Hf. by apply andb_true_iff in Hf as [? _].
Qed.
End DispatchFacts.

(** The tests read nothing but the outcomes of the ancestors. *)
Lemma upstreamBlocksDispatch_ext {K : CoreV1} `{MapRange} main g target (o1 o2 : gmap string TaskOutcome) :
  (forall a, a ∈ upstream g target -> o1 !! a = o2 !! a) ->
  upstreamBlocksDispatch g target main o1 = upstreamBlocksDispatch g target main o2.
Proof.
  intros Ho. unfold upstreamBlocksDispatch.
  assert (foldl (group_step main o1) ∅ (upstream g target) = foldl (group_step main o2) ∅ (upstream g target)) as ->;
    [|done].
  revert Ho. generalize (upstream g target) as l, (∅ : gmap string group).
  induction l as [|a l IH]; intros m Ho; [done|]. simpl.
  assert (group_step main o1 m a = group_step main o2 m a) as ->.
  { unfold group_step. by rewrite Ho by (apply elem_of_cons; by left). }
  apply IH. intros x Hx. apply Ho, elem_of_cons. by right.
Qed.

(** ** Lemmas: the graph *)
Section GraphFacts.
Context {K : CoreV1} `{MapRange}.

Lemma add_edges_edge g (deps : list string) v x y :
  edge (foldl (fun g dep => AddEdge g dep v) g deps) x y <-> edge g x y \/ (x ∈ deps /\ y = v).
Proof.
  revert g; induction deps as [|d deps IH]; intros g; simpl.
  - split; [by left|]. intros [?|[?%not_elem_of_nil _]]; done.
  - rewrite IH, edge_AddEdge, elem_of_cons. tauto.
Qed.

Lemma add_edges_nodes g (deps : list string) v :
  nodes (foldl (fun g dep => AddEdge g dep v) g deps) = nodes g.
Proof. revert g; induction deps as [|d deps IH]; intros g; simpl; [done|]. by rewrite IH. Qed.

Lemma add_edges_wf g (deps : list string) v :
  wf g -> is_Some (nodes g !! v) -> (forall d, d ∈ deps -> is_Some (nodes g !! d)) ->
  wf (foldl (fun g dep => AddEdge g dep v) g deps).
Proof.
  revert g; induction deps as [|d deps IH]; intros g Hwf Hv Hd; simpl; [done|].
  apply IH; [|done|].
  - apply wf_AddEdge; [done| |done]. apply Hd, elem_of_cons. by left.
  - intros x Hx. apply Hd, elem_of_cons. by right.
Qed.

Lemma nodes_only names :
  wf (foldl AddNode New names) /\ (forall x, is_Some (nodes (foldl AddNode New names) !! x) <-> x ∈ names) /\
  (forall u v, ~ edge (foldl AddNode New names) u v).
Proof.
  induction names as [|n names (Hwf & Hn & He)] using rev_ind.
  { split_and!; [apply wf_New| |].
    - intros x. simpl. rewrite lookup_empty. split; [by intros [? ?]|by intros ?%not_elem_of_nil].
    - intros u v. unfold edge, outs. simpl. rewrite lookup_empty. simpl. by rewrite lookup_empty. }
  rewrite foldl_app. simpl. split_and!; [by apply wf_AddNode| |].
  - intros x. rewrite nodes_AddNode, Hn, elem_of_app, list_elem_of_singleton. tauto.
  - intros u v. rewrite edge_AddNode by done. apply He.
Qed.

Lemma add_deps_all main exp g pts :
  (forall x y, edge (foldl (add_deps main exp) g pts) x y <->
     edge g x y \/ exists pt, pt ∈ pts /\ y = pt_Name pt /\ x ∈ dependencies main exp pt) /\
  nodes (foldl (add_deps main exp) g pts) = nodes g.
Proof.
  revert g; induction pts as [|pt pts IH]; intros g; simpl.
  - split; [|done]. intros x y. split; [by left|]. intros [?|(? & ?%not_elem_of_nil & _)]; done.
  - destruct (IH (add_deps main exp g pt)) as [He Hn]. split.
    + intros x y. rewrite He. unfold add_deps. rewrite add_edges_edge. setoid_rewrite elem_of_cons. naive_solver.
    + rewrite Hn. apply add_edges_nodes.
Qed.

Lemma add_deps_wf main exp g pts :
  wf g -> (forall pt, pt ∈ pts -> is_Some (nodes g !! pt_Name pt)) ->
  (forall pt d, pt ∈ pts -> d ∈ dependencies main exp pt -> is_Some (nodes g !! d)) ->
  wf (foldl (add_deps main exp) g pts).
Proof.
  revert g; induction pts as [|pt pts IH]; intros g Hwf Hn Hd; simpl; [done|].
  assert (nodes (add_deps main exp g pt) = nodes g) as Heq by apply add_edges_nodes.
  apply IH.
  - apply add_edges_wf; [done| |].
    + apply Hn, elem_of_cons. by left.
    + intros d. apply Hd, elem_of_cons. by left.
  - intros x Hx. rewrite Heq. apply Hn, elem_of_cons. by right.
  - intros x d Hx. rewrite Heq. apply Hd, elem_of_cons. by right.
Qed.

Lemma elem_of_main_tasks pts n : is_Some (main_tasks pts !! n) <-> n ∈ map pt_Name pts.
Proof.
  unfold main_tasks. induction pts as [|pt pts IH] using rev_ind; simpl.
  - rewrite lookup_empty. split; [by intros [? ?]|by intros ?%not_elem_of_nil].
  - rewrite foldl_app, map_app, elem_of_app. simpl. rewrite list_elem_of_singleton, <- IH.
    destruct (decide (pt_Name pt = n)) as [<-|Hne].
    + rewrite lookup_insert_eq. split; [by right|by eexists].
    + rewrite lookup_insert_ne by done. split; [by left|]. intros [?| ->]; done.
Qed.

Lemma main_tasks_Some pts n pt : main_tasks pts !! n = Some pt -> pt ∈ pts /\ pt_Name pt = n.
Proof.
  unfold main_tasks. induction pts as [|p pts IH] using rev_ind; simpl; [by rewrite lookup_empty|].
  rewrite foldl_app, elem_of_app, list_elem_of_singleton. simpl. rewrite lookup_insert. case_decide.
  - intros [= <-]. tauto.
  - intros Hm%IH. tauto.
Qed.

Lemma main_tasks_lookup pts pt :
  NoDup (map pt_Name pts) -> pt ∈ pts -> main_tasks pts !! pt_Name pt = Some pt.
Proof.
  unfold main_tasks. induction pts as [|p pts IH] using rev_ind; [by intros _ ?%not_elem_of_nil|].
  rewrite map_app, foldl_app. simpl. intros (Hnd & Hdis & _)%NoDup_app [Hin| ->%list_elem_of_singleton]%elem_of_app.
  - rewrite lookup_insert_ne; [by apply IH|]. intros Heq. apply (Hdis (pt_Name pt)).
    + by apply list_elem_of_fmap_2.
    + rewrite <- Heq. by apply list_elem_of_singleton.
  - by rewrite lookup_insert_eq.
Qed.

(** The graph of a run whose [runAfter] entries all name main tasks. *)
Definition runAfter_known (pts : list PipelineTask) : Prop :=
  forall pt d, pt ∈ pts -> d ∈ pt_RunAfter pt -> d ∈ map pt_Name pts.

Lemma dependencies_known pts exp pt d :
  runAfter_known pts -> pt ∈ pts -> d ∈ dependencies (main_tasks pts) exp pt -> d ∈ map pt_Name pts.
Proof.
  intros Hra Hpt [Hd|Hd]%elem_of_app; [by eapply Hra|].
  apply list_elem_of_In, List.filter_In in Hd as [_ Hok]. unfold implicit_edge_ok in Hok.
  apply elem_of_main_tasks. by destruct (main_tasks pts !! d).
Qed.

Lemma run_graph_spec pts exp :
  (forall x y, edge (run_graph pts exp) x y <->
     exists pt, pt ∈ pts /\ y = pt_Name pt /\ x ∈ dependencies (main_tasks pts) exp pt) /\
  (forall n, is_Some (nodes (run_graph pts exp) !! n) <-> n ∈ map pt_Name pts).
Proof.
  unfold run_graph. destruct (nodes_only (map pt_Name pts)) as (_ & Hn & He).
  destruct (add_deps_all (main_tasks pts) exp (foldl AddNode New (map pt_Name pts)) pts) as [Hed Hnd].
  split; [intros x y; rewrite Hed; split; [intros [?%He|?]; done|by right]|]. intros n. by rewrite Hnd.
Qed.

(** The edge maps agree whatever the names in [runAfter]; [Levels] checks them. *)
Lemma run_graph_sym pts exp u v :
  ins (run_graph pts exp) v !! u = outs (run_graph pts exp) u !! v.
Proof.
  assert (forall g deps n, (forall u v, ins g v !! u = outs g u !! v) ->
    forall u v, ins (foldl (fun g dep => AddEdge g dep n) g deps) v !! u =
                outs (foldl (fun g dep => AddEdge g dep n) g deps) u !! v) as Hdeps.
  { intros g deps n. revert g; induction deps as [|d deps IH]; intros g Hg; simpl; [done|]. apply IH.
    intros x y. rewrite ins_AddEdge, outs_AddEdge, Hg. done. }
  unfold run_graph. destruct (nodes_only (map pt_Name pts)) as (Hwf & _ & _).
  pose proof (wf_sym _ Hwf) as Hg. clear Hwf. revert Hg u v. generalize (foldl AddNode New (map pt_Name pts)) as g.
  generalize (main_tasks pts) as m. induction pts as [|pt pts IH]; intros m g Hg u v; simpl; [done|].
  apply IH. by apply Hdeps.
Qed.

Lemma run_graph_wf pts exp : runAfter_known pts -> wf (run_graph pts exp).
Proof.
  intros Hra. unfold run_graph. destruct (nodes_only (map pt_Name pts)) as (Hwf & Hn & _).
  apply add_deps_wf; [done| |].
  - intros pt Hpt. apply Hn. by apply list_elem_of_fmap_2.
  - intros pt d Hpt Hd. apply Hn. by eapply dependencies_known.
Qed.
End GraphFacts.

(** ** Properties *)
Section EngineProperties.
Context {K : CoreV1} `{MapRange}.

(** a task is dispatched past its ancestors exactly when every logical
    ancestor (a matrix parent with all its rows is one) that has a blocking
    run - terminal, not succeeded, not skipped by its own [when] - also has a
    run that succeeded.  Otherwise the reason is "upstream failure" exactly when
    one of the blocking ancestors ran and failed, else "parent task skipped". *)
Theorem upstreamBlocksDispatch_correct (g : Graph) (target : string) (main : gmap string PipelineTask)
    (outcomes : gmap string TaskOutcome) :
  let anc := upstream g target in
  match upstreamBlocksDispatch g target main outcomes with
  | None => forall a, a ∈ anc -> anc_blocking outcomes a = true ->
      exists a', a' ∈ anc /\ keyFor main a' = keyFor main a /\ anc_ok outcomes a' = true
  | Some reason => blocked_by main outcomes anc (anc_blocking outcomes) /\
      (reason = lit "upstream failure" /\ blocked_by main outcomes anc (anc_failed outcomes) \/
       reason = lit "parent task skipped" /\ ~ blocked_by main outcomes anc (anc_failed outcomes))
  end.
Proof.
  intros anc. unfold upstreamBlocksDispatch. fold anc. cbv zeta.
  destruct (existsb group_blocks _) eqn:E1.
  - apply blocking_groups in E1. split; [done|].
    destruct (existsb (fun g0 => group_blocks g0 && gr_anyFailed g0) _) eqn:E2.
    + left. split; [done|]. by apply failing_groups.
    + right. split; [done|]. intros Hb. apply failing_groups in Hb. congruence.
  - intros a Ha Hbl. apply not_true_iff_false in E1. rewrite blocking_groups in E1.
    destruct (existsb (fun a' => String.eqb (keyFor main a') (keyFor main a) && anc_ok outcomes a') anc) eqn:E.
    + apply existsb_exists in E as (a' & Ha' & [Hk%String.eqb_eq Hok]%andb_true_iff).
      exists a'. by rewrite list_elem_of_In.
    + destruct E1. exists a. split_and!; [done|done|]. intros a' Ha' Hk. apply not_true_iff_false. intros Hok.
      apply not_true_iff_false in E. apply E, existsb_exists. exists a'.
      rewrite Hk, String.eqb_refl. split; [by apply list_elem_of_In|done].
Qed.

(** a task is skipped for missing results exactly when it refers to a result
    of a task that is terminal without any successful run; a matrix parent has
    its results when one row succeeded. *)
Theorem missingResultRefs_correct (pt : PipelineTask) (outcomes : gmap string TaskOutcome)
    (expansions : gmap string (list string)) :
  match missingResultRefs pt outcomes expansions with
  | Some reason => exists ref, ref ∈ implicitParamEdges pt /\
      reason = Fmt "Results were missing: task %q did not succeed" [TStr ref] /\
      (exists n, n ∈ expandRefNames ref expansions /\ is_Some (outcomes !! n)) /\
      (forall n, n ∈ expandRefNames ref expansions -> anc_ok outcomes n = false)
  | None => forall ref, ref ∈ implicitParamEdges pt ->
      (exists n, n ∈ expandRefNames ref expansions /\ is_Some (outcomes !! n)) ->
      exists n, n ∈ expandRefNames ref expansions /\ anc_ok outcomes n = true
  end.
Proof.
  assert (forall ref, ref_missing outcomes expansions ref = true <->
    (exists n, n ∈ expandRefNames ref expansions /\ is_Some (outcomes !! n)) /\
    (forall n, n ∈ expandRefNames ref expansions -> anc_ok outcomes n = false)) as Hspec.
  { intros ref. unfold ref_missing. generalize (expandRefNames ref expansions) as l. intros l.
    rewrite andb_true_iff, negb_true_iff.
    assert (nonempty_list (omap (fun n => outcomes !! n) l) = true <-> exists n, n ∈ l /\ is_Some (outcomes !! n)) as ->.
    { split.
      - destruct (omap (fun n => outcomes !! n) l) as [|oc ocs] eqn:E; [done|]. intros _.
        assert (oc ∈ omap (fun n => outcomes !! n) l) as Hoc by (rewrite E; apply elem_of_cons; by left).
        apply list_elem_of_omap in Hoc as (n & Hn & Ho). exists n. split; [done|by eexists].
      - intros (n & Hn & oc & Ho). assert (oc ∈ omap (fun n => outcomes !! n) l) as Hoc.
        { apply list_elem_of_omap. by exists n. }
        destruct (omap _ l); [by apply not_elem_of_nil in Hoc|done]. }
    assert (existsb (fun oc => String.eqb (oc_Status oc) "succeeded") (omap (fun n => outcomes !! n) l) = false <->
      forall n, n ∈ l -> anc_ok outcomes n = false) as ->; [|done].
    induction l as [|n l IH]; simpl; [split; [by intros _ ? ?%not_elem_of_nil|done]|].
    setoid_rewrite elem_of_cons. unfold anc_ok in *. destruct (outcomes !! n) as [oc|] eqn:E; simpl.
    - rewrite orb_false_iff, IH. split.
      + intros [H1 H2] x [->|Hx]; [by rewrite E|by apply H2].
      + intros Hall. split; [|by intros; apply Hall; right]. specialize (Hall n). rewrite E in Hall.
        apply Hall. by left.
    - rewrite IH. split; [intros H1 x [->|Hx]; [by rewrite E|by apply H1]|]. intros Hall x Hx. apply Hall. by right. }
  unfold missingResultRefs. destruct (List.find _ _) as [ref|] eqn:E.
  - apply List.find_some in E as [Hin%list_elem_of_In [Hex Hall]%Hspec]. by exists ref.
  - intros ref Hin Hex. pose proof (List.find_none _ _ E ref) as Hn.
    rewrite <- list_elem_of_In in Hn. specialize (Hn Hin). apply not_true_iff_false in Hn.
    rewrite Hspec in Hn.
    destruct (existsb (anc_ok outcomes) (expandRefNames ref expansions)) eqn:Ex.
    + apply existsb_exists in Ex as (n & ? & ?). exists n. by rewrite list_elem_of_In.
    + destruct Hn. split; [done|]. intros n Hn. apply not_true_iff_false. intros Hok.
      apply not_true_iff_false in Ex. apply Ex, existsb_exists. exists n. by rewrite <- list_elem_of_In.
Qed.

(** in the graph of a run every task waits on its [runAfter] tasks and on
    every main task - every row of a matrix parent - whose result one of its
    texts refers to, itself and its own matrix siblings aside; the nodes are
    the main tasks. *)
Theorem run_graph_waits (pts : list PipelineTask) (exp : gmap string (list string)) (pt : PipelineTask)
    (Hpt : pt ∈ pts) :
  (forall d, d ∈ pt_RunAfter pt -> edge (run_graph pts exp) d (pt_Name pt)) /\
  (forall p task r sfx q n d,
     task_name_ok task = true -> result_name_ok r = true -> ref_suffix sfx ->
     p +:+ result_ref task r sfx +:+ q ∈ task_texts pt ->
     n ∈ expandRefNames task exp -> main_tasks pts !! n = Some d ->
     n <> pt_Name pt -> sameMatrixParent d pt = false ->
     edge (run_graph pts exp) n (pt_Name pt)) /\
  (forall n, is_Some (nodes (run_graph pts exp) !! n) <-> n ∈ map pt_Name pts).
Proof.
  destruct (run_graph_spec pts exp) as [He Hn]. split_and!; [| |done].
  - intros d Hd. apply He. exists pt. split_and!; [done|done|]. apply elem_of_app. by left.
  - intros p task r sfx q n d Ht Hr Hs Htext Hin Hd Hne Hsame. apply He. exists pt. split_and!; [done|done|].
    apply elem_of_app. right. apply list_elem_of_In, List.filter_In. split.
    + apply in_flat_map. exists task. rewrite <- !list_elem_of_In. split; [|done].
      apply elem_of_implicitParamEdges. eexists. split; [exact Htext|by apply scan_result_ref].
    + unfold implicit_edge_ok. rewrite Hd, negb_true_iff, orb_false_iff. by rewrite String.eqb_neq.
Qed.

(** The calls of the backend in a trace, with their answers, and the events emitted. *)
Definition backend_call (e : ev TaskE) : option (Z * TaskInvocation * result TaskResult) :=
  match e with
  | Ev c a => match c in TaskE X return X -> option (Z * TaskInvocation * result TaskResult) with
              | BackendRunTask d inv => fun a => Some (d, inv, a)
              | _ => fun _ => None
              end a
  end.

Definition emitted (t : list (ev TaskE)) : list Event := omap (fun e => match e with Ev c _ => match c with EmitE e => Some e | _ => None end end) t.

(** The lazily applied timeout was found to have expired. *)
Definition expired_answer (e : ev TaskE) : bool :=
  match e with Ev c a => match c in TaskE X return X -> bool with LazyExpired => fun b => b | _ => fun _ => false end a end.

Lemma emitted_app t t' : emitted (t ++ t') = emitted t ++ emitted t'.
Proof. apply omap_app. Qed.

Lemma emit_all_post evs : post (emit_all evs) (fun t _ => omap backend_call t = [] /\ emitted t = evs /\ existsb expired_answer t = false).
Proof.
  unfold emit_all. induction evs as [|e evs IH]; [by apply post_ret|]. cbn [foldP]. apply post_bind, post_call. intros []. apply post_ret.
  post_use IH. intros t [] (H1 & H2 & H3). split_and!; [exact H1| |exact H3].
  by rewrite <- H2.
Qed.

(** What the backend is asked to run: the Task its spec resolves to, with the params bound
    and no reference left that fails, in the directories made for it. *)
Definition prepared (sv : Services) (env : RunEnv) (pt : PipelineTask) (rctx : Context) (d : Z) (inv : TaskInvocation) : Prop :=
  exists spec0 spec1,
    (task_spec sv env pt rctx).1 = Ok spec0 /\ resolveStepActions spec0 (in_Bundle (re_in env)) = Ok spec1 /\
    let spec := applyStepTemplate spec1 in
    task_params spec pt rctx = Ok (inv_Params inv) /\
    substituteSpec spec (task_context spec pt rctx (inv_Params inv)) = Ok (inv_Task inv) /\
    inv_TaskName inv = pt_Name pt /\ inv_TaskRunName inv = re_pipelineRunName env +:+ "-" +:+ pt_Name pt /\
    workspace_mounts (re_in env) pt = Ok (inv_Workspaces inv) /\
    sv_provisionResultsDir sv (default "" (in_Workspaces (re_in env) !! "__results")) (pt_Name pt) = Ok (inv_ResultsHost inv) /\
    volume_hosts sv pt (ts_Volumes (inv_Task inv)) = Ok (inv_VolumeHosts inv) /\
    lazy_timeout pt (inv_Task inv) = Ok d.

(** How the backend's answer becomes the outcome: nothing but an expired lazy timeout
    stands against it. *)
Definition answered (d : Z) (r : result TaskResult) (t : list (ev TaskE)) (oc : TaskOutcome) : Prop :=
  if bool_decide (0 < d)%Z && existsb expired_answer t
  then oc_Status oc = "timeout" /\ oc_Results oc = None
  else match r with
       | Err e => oc_Status oc = "failed" /\ oc_Message oc = e /\ oc_Results oc = None
       | Ok res => oc_Status oc = res_Status res /\ oc_Message oc = default no_text (res_Err res) /\ oc_Results oc = res_Results res
       end.

End EngineProperties.

(** ** A graph *)
Definition wait_tasks : list (PipelineTask (K := core_unit)) :=
  [plain_task "build" [] zero_TaskSpec; plain_task "deploy" ["build"] zero_TaskSpec].

Lemma run_graph_waits_witness :
  Levels (H := default_range) (run_graph wait_tasks ∅) = Ok [["build"]; ["deploy"]] /\
  edge (run_graph wait_tasks ∅) "build" "deploy".
Proof.
  split; [vm_compute; reflexivity|].
  refine (proj1 (run_graph_waits wait_tasks ∅ (plain_task "deploy" ["build"] zero_TaskSpec) _) "build" _).
  - apply elem_of_cons. right. by apply list_elem_of_singleton.
  - by apply list_elem_of_singleton.
Defined.
