(* ===== verification/Scheduler.v ===== *)
(** * [Engine.RunPipeline]: the scheduler

    The run of internal/engine/engine.go after the pipeline is found, as a state
    machine.  The dispatch loop and the task goroutines interleave: an action is
    one step of one of them - the loop examines the next task ([ADispatch]), gets
    a slot of the errgroup and spawns it ([ASpawn]), waits for the level and goes
    on ([ANext]); a goroutine begins ([ABegin]) or returns from
    [runOneWithPolicy] and records its outcome ([AFinish]) - or of the environment:
    a context ends ([AFire]).  A goroutine's record-and-emit is one step, as the
    engine's mutex makes the record atomic.  [AFinish] carries the services'
    answers for every attempt. *)

From S2P Require Import Prelude GoStrings TektonTypes Dag Resolver Run Matrix Policy Scope Steps Validator Effects Engine.

(** ** State *)

(** Which contexts have ended: the root one (cancellation), and the deadlines. *)
Record flags := mkflags {
  fl_canceled : bool;
  fl_pipeline : bool;
  fl_tasks : bool;
  fl_finally : bool;
}.

Inductive ctx_kind := CCanceled | CPipeline | CTasks | CFinally.

(** The services' answers during one attempt, and the contexts as read after it. *)
Record attempt_world `{K : CoreV1} := mkattempt_world {
  aw_services : Services;
  aw_RunTask : TaskInvocation -> result TaskResult;
  aw_lazyExpired : bool;
  aw_runErr : option ctxErr;
  aw_parentDead : bool;
}.
Arguments mkattempt_world {K}.

Section Scheduler.
Context {K : CoreV1} `{MapRange}.

(** A dispatched task with its snapshot of the results; [jb_started] once its
    goroutine has passed the budget test. *)
Record job := mkjob {
  jb_task : PipelineTask;
  jb_results : gmap string (gmap string string);
  jb_started : bool;
}.

(** One errgroup: the tasks still to examine, the one waiting for a slot, the
    goroutines. *)
Record batch := mkbatch {
  bt_pending : list PipelineTask;
  bt_waiting : option (PipelineTask * gmap string (gmap string string));
  bt_jobs : list job;
}.

Inductive phase :=
  | PTasks (rest : list (list string)) (b : batch)
  | PFinally (fs : finallyStatus) (results : gmap string (gmap string string)) (b : batch)
  | PDone (r : RunResult).

Record sstate := mksstate {
  ss_outcomes : gmap string TaskOutcome;
  ss_results : gmap string (gmap string string);
  ss_overall : string;
  ss_events : list Event;
  ss_flags : flags;
  ss_phase : phase;
}.

(** What is fixed during the run; [sc_env]'s pipeline is the expanded one. *)
Record sched := mksched {
  sc_env : RunEnv;
  sc_MaxParallel : nat;
  sc_timeouts : pipelineTimeouts;
  sc_levels : list (list string);
}.

Inductive action :=
  | AFire (k : ctx_kind)
  | ADispatch
  | ASpawn
  | ABegin (i : nat)
  | AFinish (i : nat) (w : Z -> attempt_world)
  | ANext.

Implicit Types (e : sched) (s : sstate).

Definition sc_tasks e : list PipelineTask := spec_Tasks (pl_Spec (re_pl (sc_env e))).
Definition sc_finally e : list PipelineTask := spec_Finally (pl_Spec (re_pl (sc_env e))).
Definition sc_main e : gmap string PipelineTask := main_tasks (sc_tasks e).
Definition sc_expansions e : gmap string (list string) :=
  matrixExpansions (sc_tasks e ++ sc_finally e).
Definition sc_graph e : Graph := run_graph (sc_tasks e) (sc_expansions e).

(** [pipeCtx.Err() != nil] and the phase contexts. *)
Definition pipe_dead (f : flags) : bool := fl_canceled f || fl_pipeline f.
Definition tasks_dead (f : flags) : bool := pipe_dead f || fl_tasks f.
Definition finally_dead (f : flags) : bool := pipe_dead f || fl_finally f.

Definition stopReason e (f : flags) (ph : string) (budget : Z) : text :=
  if fl_canceled f then lit "pipeline run cancelled"
  else if (0 <? tm_Pipeline (sc_timeouts e))%Z && pipe_dead f
  then Fmt "pipeline timeout %s exceeded" [TInt (tm_Pipeline (sc_timeouts e))]
  else Fmt "%s timeout %s exceeded" [TStr ph; TInt budget].

(** What depends on the phase. *)
Definition phase_dead (ph : phase) (f : flags) : bool :=
  match ph with PTasks _ _ => tasks_dead f | _ => finally_dead f end.

Definition phase_reason e (ph : phase) (f : flags) : text :=
  match ph with
  | PTasks _ _ => stopReason e f "tasks" (tasksBudget (sc_timeouts e))
  | _ => stopReason e f "finally" (finallyBudget (sc_timeouts e))
  end.

Definition phase_status (ph : phase) : option finallyStatus :=
  match ph with PFinally fs _ _ => Some fs | _ => None end.

Definition phase_batch (ph : phase) : batch :=
  match ph with PTasks _ b | PFinally _ _ b => b | PDone _ => mkbatch [] None [] end.

Definition phase_set_batch (ph : phase) (b : batch) : phase :=
  match ph with
  | PTasks rest _ => PTasks rest b
  | PFinally fs r _ => PFinally fs r b
  | PDone r => PDone r
  end.

Definition set_phase s (ph : phase) : sstate :=
  mksstate (ss_outcomes s) (ss_results s) (ss_overall s) (ss_events s) (ss_flags s) ph.
Definition set_batch s (b : batch) : sstate := set_phase s (phase_set_batch (ss_phase s) b).
Definition emit s (evs : list Event) : sstate :=
  mksstate (ss_outcomes s) (ss_results s) (ss_overall s) (ss_events s ++ evs) (ss_flags s) (ss_phase s).

(** [outcomes[pt.Name] = oc] and the matrix aggregation. *)
Definition record_outcome e s (pt : PipelineTask) (oc : TaskOutcome)
    (results : gmap string (gmap string string)) (overall : string) (evs : list Event) : sstate :=
  let outcomes := <[pt_Name pt := oc]> (ss_outcomes s) in
  mksstate outcomes (maybeAggregateMatrix pt (re_pl (sc_env e)) outcomes results) overall
    (ss_events s ++ evs) (ss_flags s) (ss_phase s).

Definition markNotRun e s (pt : PipelineTask) (msg : text) (kind : skipKind) : sstate :=
  record_outcome e s pt (mkTaskOutcome "not-run" msg None 0 (pt_MatrixInfo pt) kind) (ss_results s) (ss_overall s)
    [skip_event pt msg (matrixEventFor pt)].

Definition task_start_event e (pt : PipelineTask) : Event :=
  mkEvent EvtTaskStart "" "" (pt_Name pt) "" no_text 0 ∅ (pt_DisplayName pt)
    (match lookupTaskSpec (in_Bundle (re_in (sc_env e))) pt with Ok sp => ts_Description sp | Err _ => "" end)
    "" (matrixEventFor pt).

Definition task_end_event (pt : PipelineTask) (oc : TaskOutcome) : Event :=
  mkEvent EvtTaskEnd "" "" (pt_Name pt) (oc_Status oc) (oc_Message oc) (oc_Attempt oc) ∅
    (pt_DisplayName pt) "" "" (matrixEventFor pt).

(** [overall] after an outcome. *)
Definition overall_step (overall status : string) : string :=
  if String.eqb status "failed" || String.eqb status "infrafailed" then
    (if String.eqb overall "timeout" then overall else "failed")
  else if String.eqb status "timeout" then "timeout"
  else overall.

Definition finishTask e s (pt : PipelineTask) (oc : TaskOutcome) : sstate :=
  let oc := match pt_MatrixInfo pt with Some mi => oc_set_Matrix oc (Some mi) | None => oc end in
  if String.eqb (oc_Status oc) "skipped" then
    record_outcome e s pt (oc_set_skip oc skipWhen) (ss_results s) (ss_overall s)
      (match pt_MatrixInfo pt with
       | Some _ => [skip_event pt (oc_Message oc) (matrixEventFor pt)]
       | None => []
       end)
  else
    record_outcome e s pt oc
      (match oc_Results oc with Some r => <[pt_Name pt := r]> (ss_results s) | None => ss_results s end)
      (overall_step (ss_overall s) (oc_Status oc)) [task_end_event pt oc].

Definition reclassifyBudgetKill e s (oc : TaskOutcome) : TaskOutcome :=
  if negb (phase_dead (ss_phase s) (ss_flags s)) || fl_canceled (ss_flags s) then oc
  else if String.eqb (oc_Status oc) "infrafailed" || String.eqb (oc_Status oc) "failed"
  then oc_set_timeout oc (phase_reason e (ss_phase s) (ss_flags s))
  else oc.

(** An attempt's calls are answered by its world; the reporter keeps the events. *)
Definition task_answer (w : attempt_world) (X : Type) (c : TaskE X) (evs : list Event) : X * list Event :=
  match c in TaskE X return X * list Event with
  | EmitE ev => (tt, evs ++ [ev])
  | BackendRunTask _ inv => (aw_RunTask w inv, evs)
  | LazyExpired => (aw_lazyExpired w, evs)
  end.

(** [runOneWithPolicy] under the services' answers [w]. *)
Definition run_job e s (j : job) (w : Z -> attempt_world) : TaskOutcome * list Event :=
  runOneWithPolicy (in_Bundle (re_in (sc_env e))) (jb_task j) (fun k =>
    let '(oc, evs) := Effects.run (task_answer (w k))
                        (runOne (aw_services (w k)) (sc_env e) (jb_task j) (jb_results j) k
                           (phase_status (ss_phase s))) [] in
    mkattempt oc evs (aw_runErr (w k)) (aw_parentDead (w k))).

(** The tests before a dispatch: the graph's only for main tasks. *)
Definition dispatch_blocked e s (pt : PipelineTask) : option text :=
  match ss_phase s with
  | PTasks _ _ =>
    match upstreamBlocksDispatch (sc_graph e) (pt_Name pt) (sc_main e) (ss_outcomes s) with
    | Some reason => Some reason
    | None => missingResultRefs pt (ss_outcomes s) (sc_expansions e)
    end
  | _ => missingResultRefs pt (ss_outcomes s) (sc_expansions e)
  end.

(** [resultsSnapshot()] for a main task, the phase's view for a finally task. *)
Definition dispatch_results s : gmap string (gmap string string) :=
  match ss_phase s with PFinally _ r _ => r | _ => ss_results s end.

(** ** Steps *)

(** A context can end while it is in use; a deadline only when there is one. *)
Definition can_fire e s (k : ctx_kind) : bool :=
  let f := ss_flags s in
  match k, ss_phase s with
  | _, PDone _ => false
  | CCanceled, _ => negb (fl_canceled f)
  | CPipeline, _ => negb (fl_pipeline f) && (0 <? tm_Pipeline (sc_timeouts e))%Z
  | CTasks, PTasks _ _ => negb (fl_tasks f) && (0 <? tasksBudget (sc_timeouts e))%Z
  | CFinally, PFinally _ _ _ => negb (fl_finally f) && (0 <? finallyBudget (sc_timeouts e))%Z
  | _, _ => false
  end.

Definition fire e s (k : ctx_kind) : option sstate :=
  let f := ss_flags s in
  if can_fire e s k then
    Some (mksstate (ss_outcomes s) (ss_results s) (ss_overall s) (ss_events s)
      (match k with
       | CCanceled => mkflags true (fl_pipeline f) (fl_tasks f) (fl_finally f)
       | CPipeline => mkflags (fl_canceled f) true (fl_tasks f) (fl_finally f)
       | CTasks => mkflags (fl_canceled f) (fl_pipeline f) true (fl_finally f)
       | CFinally => mkflags (fl_canceled f) (fl_pipeline f) (fl_tasks f) true
       end) (ss_phase s))
  else None.

Definition dispatch e s : option sstate :=
  let b := phase_batch (ss_phase s) in
  match bt_pending b, bt_waiting b with
  | pt :: pending, None =>
    match dispatch_blocked e s pt with
    | Some reason => Some (markNotRun e (set_batch s (mkbatch pending None (bt_jobs b))) pt reason skipBlocked)
    | None => Some (set_batch s (mkbatch pending (Some (pt, dispatch_results s)) (bt_jobs b)))
    end
  | _, _ => None
  end.

(** [eg.Go] blocks while [MaxParallel] goroutines are active. *)
Definition spawn e s : option sstate :=
  let b := phase_batch (ss_phase s) in
  match bt_waiting b with
  | Some (pt, results) =>
    if length (bt_jobs b) <? sc_MaxParallel e
    then Some (set_batch s (mkbatch (bt_pending b) None (bt_jobs b ++ [mkjob pt results false])))
    else None
  | None => None
  end.

Definition begin e s (i : nat) : option sstate :=
  let b := phase_batch (ss_phase s) in
  match bt_jobs b !! i with
  | Some j =>
    if jb_started j then None
    else if phase_dead (ss_phase s) (ss_flags s) then
      Some (markNotRun e (set_batch s (mkbatch (bt_pending b) (bt_waiting b) (delete i (bt_jobs b)))) (jb_task j)
              (phase_reason e (ss_phase s) (ss_flags s)) skipStopped)
    else
      Some (emit (set_batch s (mkbatch (bt_pending b) (bt_waiting b)
                    (<[i := mkjob (jb_task j) (jb_results j) true]> (bt_jobs b))))
              [task_start_event e (jb_task j)])
  | None => None
  end.

Definition finish e s (i : nat) (w : Z -> attempt_world) : option sstate :=
  let b := phase_batch (ss_phase s) in
  match bt_jobs b !! i with
  | Some j =>
    if jb_started j then
      let '(oc, evs) := run_job e s j w in
      Some (finishTask e
        (emit (set_batch s (mkbatch (bt_pending b) (bt_waiting b) (delete i (bt_jobs b)))) evs)
        (jb_task j) (reclassifyBudgetKill e s oc))
    else None
  | None => None
  end.

Definition empty_batch (b : batch) : bool :=
  match b with mkbatch [] None [] => true | _ => false end.

Definition level_tasks e (level : list string) : list PipelineTask := omap (fun n => sc_main e !! n) level.

(** A level that starts after the tasks budget fired. *)
Definition skip_level e s (level : list string) : sstate :=
  foldl (fun s pt =>
           match ss_outcomes s !! pt_Name pt with
           | Some _ => s
           | None => markNotRun e s pt (phase_reason e (ss_phase s) (ss_flags s)) skipStopped
           end) s (level_tasks e level).

Definition run_end e s : sstate :=
  let f := ss_flags s in
  let overall := if fl_canceled f then "cancelled"
                 else if pipe_dead f || finally_dead f then "timeout"
                 else ss_overall s in
  let '(results, errs) := resolvePipelineResults (re_pl (sc_env e)) (ss_results s) in
  mksstate (ss_outcomes s) (ss_results s) overall
    (ss_events s
     ++ map (fun err => mkEvent EvtError "" "" "" "" err 0 ∅ "" "" "" None) errs
     ++ [mkEvent EvtRunEnd "" "" "" overall no_text 0 results
           (spec_DisplayName (pl_Spec (re_pl (sc_env e)))) "" "" None])
    f (PDone (mkRunResult overall (ss_outcomes s) results)).

Definition next e s : option sstate :=
  if negb (empty_batch (phase_batch (ss_phase s))) then None else
  match ss_phase s with
  | PTasks (level :: rest) b =>
    if tasks_dead (ss_flags s) then Some (set_phase (skip_level e s level) (PTasks rest (mkbatch [] None [])))
    else Some (set_phase s (PTasks rest (mkbatch (level_tasks e level) None [])))
  | PTasks [] _ =>
    Some (mksstate (ss_outcomes s) (ss_results s)
            (if tasks_dead (ss_flags s) then "timeout" else ss_overall s) (ss_events s) (ss_flags s)
            (PFinally (computeFinallyStatus (sc_tasks e) (ss_outcomes s)) (ss_results s)
               (mkbatch (sc_finally e) None [])))
  | PFinally _ _ _ => Some (run_end e s)
  | PDone _ => None
  end.

Definition step e s (a : action) : option sstate :=
  match a with
  | AFire k => fire e s k
  | ADispatch => dispatch e s
  | ASpawn => spawn e s
  | ABegin i => begin e s i
  | AFinish i w => finish e s i w
  | ANext => next e s
  end.

(** An interleaving. *)
Fixpoint run e s (acts : list action) : option sstate :=
  match acts with
  | [] => Some s
  | a :: acts' => s' ← step e s a; run e s' acts'
  end.

(** ** The start of [RunPipeline] *)
Inductive start_result :=
  | Started (e : sched) (s : sstate)
  | Refused (r : RunResult) (err : text) (evs : list Event).

(** [New]'s default for [Options.MaxParallel]. *)
Definition New_MaxParallel (MaxParallel : Z) : nat :=
  if (MaxParallel <=? 0)%Z then 4 else Z.to_nat MaxParallel.

Definition failed_result (status : string) : RunResult := mkRunResult status ∅ ∅.

Definition run_end_event (status : string) (msg : text) (displayName : string) : Event :=
  mkEvent EvtRunEnd "" "" "" status msg 0 ∅ displayName "" "" None.

Definition start_run {En : Entropy} (prepare : list string -> result unit) (input : PipelineInput) (MaxParallel : Z)
    : start_result :=
  match b_Pipelines (in_Bundle input) !! in_Name input with
  | None => Refused (failed_result "") (Fmt "pipeline %q not found" [TStr (in_Name input)]) []
  | Some pl0 =>
    let runID := run_id input in
    if String.length runID <? 8
    then Refused (failed_result "") (Sentinel "slice bounds out of range") []
    else
    let prName := pl_Name pl0 +:+ "-" +:+ String.substring 0 8 runID in
    let dn := spec_DisplayName (pl_Spec pl0) in
    match applyDefaults (spec_Params (pl_Spec pl0)) (in_Params input) with
    | Err err => Refused (failed_result "") err []
    | Ok params =>
      match expandMatrix pl0 with
      (* the error path reads the display name of the zeroed [pl] *)
      | Err err => Refused (failed_result "failed") err [run_end_event "failed" err ""]
      | Ok pl =>
        let start := mkEvent EvtRunStart runID (pl_Name pl) "" "" no_text 0 ∅ dn
                       (spec_Description (pl_Spec pl)) "" None in
        match prepare (uniqueImages (in_Bundle input) pl) with
        | Err err => Refused (failed_result "failed") err [start; run_end_event "failed" err dn]
        | Ok _ =>
          let env := mkRunEnv input pl params runID prName in
          match Levels (run_graph (spec_Tasks (pl_Spec pl))
                          (matrixExpansions (spec_Tasks (pl_Spec pl) ++ spec_Finally (pl_Spec pl)))) with
          | Err err => Refused (failed_result "failed") err [start; run_end_event "failed" err dn]
          | Ok levels =>
            match parsePipelineTimeouts (spec_Timeouts (pl_Spec pl)) with
            | Err err => Refused (failed_result "failed") err [start; run_end_event "failed" err dn]
            | Ok t =>
              Started (mksched env (New_MaxParallel MaxParallel) t levels)
                (mksstate ∅ ∅ "succeeded" [start] (mkflags false false false false)
                   (PTasks levels (mkbatch [] None [])))
            end
          end
        end
      end
    end
  end.
End Scheduler.
