(* ===== verification/Invariants.v ===== *)
(** * The scheduler: invariants of every interleaving

    The steps of Scheduler.v sorted by what they do to the recorded outcomes
    ([effect]), and the invariants that hold after every sequence of steps: the
    tasks that are neither recorded nor left to run are none ([tasks_inv]), the
    ancestors of everything dispatched are recorded ([order_inv]), the overall
    status is a function of the outcomes ([status_inv]), and the measure that
    every step lowers ([work]). *)

From S2P Require Import Prelude GoStrings TektonTypes Dag Resolver Run Matrix Policy Scope Steps Validator Effects Engine Scheduler.

Section Invariants.
Context {K : CoreV1} `{MapRange}.
Implicit Types (e : sched) (s : sstate) (b : batch) (ph : phase).

(** ** The tasks of a state *)

(** Waiting for a slot, or in a goroutine. *)
Definition in_flight b : list PipelineTask := option_list (fst <$> bt_waiting b) ++ map jb_task (bt_jobs b).

(** Announced and not yet returned. *)
Definition running b : list PipelineTask := map jb_task (List.filter jb_started (bt_jobs b)).

Definition batch_tasks b : list PipelineTask := in_flight b ++ bt_pending b.

Definition all_names e : list string := map pt_Name (sc_tasks e ++ sc_finally e).

(** The tasks of the phase. *)
Definition phase_tasks e ph : list PipelineTask :=
  match ph with PTasks _ _ => sc_tasks e | PFinally _ _ _ => sc_finally e | PDone _ => [] end.

(** The names still to be recorded. *)
Definition to_run e ph : list string :=
  match ph with
  | PTasks rest b => map pt_Name (batch_tasks b) ++ concat rest ++ map pt_Name (sc_finally e)
  | PFinally _ _ b => map pt_Name (batch_tasks b)
  | PDone _ => []
  end.

Definition is_done ph : bool := match ph with PDone _ => true | _ => false end.

Lemma phase_batch_set ph b : is_done ph = false -> phase_batch (phase_set_batch ph b) = b.
Proof. by destruct ph. Qed.

Lemma phase_set_same ph : phase_set_batch ph (phase_batch ph) = ph.
Proof. by destruct ph. Qed.

Lemma to_run_set_batch e ph b' l :
  is_done ph = false -> batch_tasks (phase_batch ph) ≡ₚ l ++ batch_tasks b' ->
  to_run e ph ≡ₚ map pt_Name l ++ to_run e (phase_set_batch ph b').
Proof. intros Hd Hp. destruct ph; simpl in *; [| |done]; by rewrite Hp, map_app, ?app_assoc. Qed.

Lemma running_submseteq b : map pt_Name (running b) ⊆+ map pt_Name (batch_tasks b).
Proof.
  unfold batch_tasks, in_flight, running. rewrite !map_app, <- app_assoc.
  apply submseteq_inserts_l, submseteq_inserts_r. rewrite !map_map.
  induction (bt_jobs b) as [|j js IH]; simpl; [done|].
  destruct (jb_started j); simpl; [by apply submseteq_skip|by apply submseteq_cons].
Qed.

Lemma running_in_flight b pt : pt ∈ running b -> pt ∈ in_flight b.
Proof.
  unfold running, in_flight. rewrite !list_elem_of_fmap. intros (j & -> & [Hj _]%list_elem_of_In%List.filter_In).
  apply elem_of_app. right. by apply list_elem_of_fmap_2, list_elem_of_In.
Qed.

(** ** Work left *)

Definition job_work (j : job) : nat := if jb_started j then 1 else 2.
Definition batch_work b : nat :=
  4 * length (bt_pending b) + 3 * length (option_list (bt_waiting b)) + sum_list_with job_work (bt_jobs b).
Definition level_work (level : list string) : nat := 4 * length level + 1.
Definition phase_work e ph : nat :=
  match ph with
  | PTasks rest b =>
    batch_work b + sum_list_with level_work rest + (4 * length (sc_finally e) + 1) + 1
  | PFinally _ _ b => batch_work b + 1
  | PDone _ => 0
  end.
Definition flags_work (f : flags) : nat :=
  Nat.b2n (negb (fl_canceled f)) + Nat.b2n (negb (fl_pipeline f))
  + Nat.b2n (negb (fl_tasks f)) + Nat.b2n (negb (fl_finally f)).

(** How many more steps the run can take at most. *)
Definition work e s : nat := phase_work e (ss_phase s) + flags_work (ss_flags s).

Lemma phase_work_set e ph b b' :
  is_done ph = false -> phase_batch ph = b -> batch_work b' < batch_work b ->
  phase_work e (phase_set_batch ph b') < phase_work e ph.
Proof. intros Hd <- Hb. destruct ph; simpl in *; [lia|lia|done]. Qed.

(** ** What a step does *)

(** The contexts only end. *)
Definition flags_le ph (f f' : flags) : Prop :=
  (fl_canceled f -> fl_canceled f') /\ (fl_pipeline f -> fl_pipeline f') /\
  (fl_tasks f -> fl_tasks f') /\ (fl_finally f -> fl_finally f') /\
  match ph with PTasks _ _ => True | _ => fl_tasks f' = fl_tasks f end.

Lemma flags_le_refl ph f : flags_le ph f f.
Proof. unfold flags_le. by destruct ph. Qed.

(** The tasks announced with a task-start event. *)
Definition start_name (ev : Event) : option string :=
  if decide (evt_Kind ev = EvtTaskStart) then Some (evt_Task ev) else None.
Definition starts (evs : list Event) : list string := omap start_name evs.

Lemma starts_app evs evs' : starts (evs ++ evs') = starts evs ++ starts evs'.
Proof. apply omap_app. Qed.

(** A step inside a batch records nothing, or it records one task. *)
Inductive effect e s s' : Prop :=
  | eff_move b b' evs :
      is_done (ss_phase s) = false -> b = phase_batch (ss_phase s) ->
      ss_phase s' = phase_set_batch (ss_phase s) b' ->
      ss_outcomes s' = ss_outcomes s -> ss_overall s' = ss_overall s ->
      ss_events s' = ss_events s ++ evs -> flags_le (ss_phase s) (ss_flags s) (ss_flags s') ->
      batch_tasks b ≡ₚ batch_tasks b' ->
      map pt_Name (running b') ≡ₚ starts evs ++ map pt_Name (running b) ->
      (forall pt, pt ∈ in_flight b' -> pt ∈ in_flight b \/ dispatch_blocked e s pt = None) ->
      length (bt_jobs b') <= Nat.max (sc_MaxParallel e) (length (bt_jobs b)) ->
      work e s' < work e s ->
      effect e s s'
  | eff_record b b' pt oc evs :
      is_done (ss_phase s) = false -> b = phase_batch (ss_phase s) ->
      ss_phase s' = phase_set_batch (ss_phase s) b' ->
      ss_outcomes s' = <[pt_Name pt := oc]> (ss_outcomes s) ->
      ss_overall s' = overall_step (ss_overall s) (oc_Status oc) ->
      ss_events s' = ss_events s ++ evs -> ss_flags s' = ss_flags s ->
      batch_tasks b ≡ₚ pt :: batch_tasks b' ->
      starts evs = [] -> running b ⊆ pt :: running b' -> in_flight b' ⊆ in_flight b ->
      length (bt_jobs b') <= length (bt_jobs b) ->
      work e s' < work e s ->
      effect e s s'
  | eff_next : next e s = Some s' -> effect e s s'.

(** *** The events of a task's execution announce nothing *)
Definition quiet (X : Type) (c : TaskE X) : Prop :=
  match c with EmitE ev => start_name ev = None | _ => True end.

Lemma emit_all_quiet evs : starts evs = [] -> calls quiet (emit_all evs).
Proof.
  unfold emit_all. induction evs as [|ev evs IH]; [done|]. unfold starts. simpl.
  destruct (start_name ev) eqn:E; [done|]. intros Hs. split; [done|]. intros []. by apply IH.
Qed.

Lemma or_fail_quiet {A} status (r : result A) k :
  (forall a, calls quiet (k a)) -> calls quiet (or_fail status r k).
Proof. intros Hk. by destruct r; [apply Hk|]. Qed.

Lemma runOne_quiet sv env pt results n fs : calls quiet (runOne sv env pt results n fs).
Proof.
  unfold runOne. cbv zeta. destruct (evaluateWhen _ _) as [[[] r]|]; [| |done].
  - destruct (task_spec _ _ _ _) as [spec evs] eqn:Es. apply calls_bind.
    + apply emit_all_quiet. revert Es. unfold task_spec. destruct (is_resolver_ref pt); [|by intros [= _ <-]].
      unfold lookupTaskSpecLazy. cbv zeta. repeat case_match; intros [= _ <-]; simplify_eq; reflexivity.
    + intros _. apply or_fail_quiet. intros spec0. unfold runOne_exec. do 7 (apply or_fail_quiet; intros ?).
      unfold run_backend. split; [done|]. intros r0. by destruct (0 <? _)%Z.
  - apply calls_bind; [|done]. apply emit_all_quiet. by destruct (pt_MatrixInfo pt).
Qed.

Lemma runOne_starts w sv env pt results n fs :
  starts (Effects.run (task_answer w) (runOne sv env pt results n fs) []).2 = [].
Proof.
  apply (run_calls_invariant _ quiet (fun evs => starts evs = [])); [|apply runOne_quiet|done].
  intros X [ev| |] evs Hq Hs; simpl in *; [|done|done]. rewrite starts_app, Hs. unfold starts. simpl. by rewrite Hq.
Qed.

Lemma policy_loop_starts pt t run n k oc evs :
  (forall k, starts (at_events (run k)) = []) ->
  policy_loop pt t run n k = (oc, evs) -> starts evs = [].
Proof.
  intros Hr. revert k oc evs; induction n as [|n IH]; intros k oc evs; simpl;
    repeat case_match; intros [= _ <-]; rewrite ?starts_app; try apply Hr; eauto.
  rewrite Hr. simpl. eauto.
Qed.

Lemma run_job_starts e s j w oc evs : run_job e s j w = (oc, evs) -> starts evs = [].
Proof.
  unfold run_job, runOneWithPolicy. apply policy_loop_starts. intros k.
  pose proof (runOne_starts (w k) (aw_services (w k)) (sc_env e) (jb_task j) (jb_results j) k (phase_status (ss_phase s))) as Hs.
  by destruct (Effects.run _ _ _) as [oc' evs'].
Qed.

(** *** One lemma per action *)
Lemma sum_work_delete (js : list job) i j :
  js !! i = Some j -> sum_list_with job_work js = job_work j + sum_list_with job_work (delete i js).
Proof.
  revert i; induction js as [|j' js IH]; intros [|i]; simpl; try done; [by intros [= ->]|].
  intros Hi. rewrite (IH i Hi). lia.
Qed.

Lemma jobs_delete_perm (js : list job) i j : js !! i = Some j -> js ≡ₚ j :: delete i js.
Proof. apply delete_Permutation. Qed.

Lemma record_outcome_fields e s pt oc results overall evs :
  let s' := record_outcome e s pt oc results overall evs in
  ss_phase s' = ss_phase s /\ ss_outcomes s' = <[pt_Name pt := oc]> (ss_outcomes s) /\
  ss_overall s' = overall /\ ss_events s' = ss_events s ++ evs /\ ss_flags s' = ss_flags s.
Proof. done. Qed.

(** What recording a task does, whichever way it ended. *)
Record recorded e s (pt : PipelineTask) s' : Prop := {
  rec_outcome : exists oc, ss_outcomes s' = <[pt_Name pt := oc]> (ss_outcomes s) /\
    ss_overall s' = overall_step (ss_overall s) (oc_Status oc);
  rec_phase : ss_phase s' = ss_phase s;
  rec_flags : ss_flags s' = ss_flags s;
  rec_events : exists evs, ss_events s' = ss_events s ++ evs /\ starts evs = [];
}.

Lemma markNotRun_recorded e s pt msg kind : recorded e s pt (markNotRun e s pt msg kind).
Proof. split; [by eexists|done|done|by eexists]. Qed.

Lemma finishTask_recorded e s pt oc : recorded e s pt (finishTask e s pt oc).
Proof.
  unfold finishTask. destruct (pt_MatrixInfo pt); simpl;
    (destruct (String.eqb (oc_Status oc) "skipped") eqn:E;
     [apply String.eqb_eq in E|]; (split; [|done|done|by eexists]); eexists; (split; [done|]); simpl; by rewrite ?E).
Qed.

Lemma recorded_effect e s s1 s' pt b' evs :
  recorded e s1 pt s' ->
  is_done (ss_phase s) = false ->
  ss_outcomes s1 = ss_outcomes s -> ss_overall s1 = ss_overall s -> ss_flags s1 = ss_flags s ->
  ss_events s1 = ss_events s ++ evs -> starts evs = [] ->
  ss_phase s1 = phase_set_batch (ss_phase s) b' ->
  batch_tasks (phase_batch (ss_phase s)) ≡ₚ pt :: batch_tasks b' ->
  running (phase_batch (ss_phase s)) ⊆ pt :: running b' ->
  in_flight b' ⊆ in_flight (phase_batch (ss_phase s)) ->
  length (bt_jobs b') <= length (bt_jobs (phase_batch (ss_phase s))) ->
  batch_work b' < batch_work (phase_batch (ss_phase s)) ->
  effect e s s'.
Proof.
  intros [(oc & Ho & Hov) Hp Hf (evs' & He & Hst)] Hd Ho1 Hov1 Hf1 He1 Hst1 Hp1 Hbt Hr Hi Hl Hw.
  apply (eff_record e s s' (phase_batch (ss_phase s)) b' pt oc (evs ++ evs')); try done.
  - by rewrite Hp.
  - by rewrite Ho, Ho1.
  - by rewrite Hov, Hov1.
  - by rewrite He, He1, app_assoc.
  - by rewrite Hf.
  - by rewrite starts_app, Hst1, Hst.
  - unfold work. rewrite Hf, Hf1, Hp, Hp1.
    pose proof (phase_work_set e (ss_phase s) _ b' Hd eq_refl Hw). lia.
Qed.

Lemma fire_effect e s k s' : fire e s k = Some s' -> effect e s s'.
Proof.
  unfold fire. destruct (can_fire e s k) eqn:E; [|done]. intros [= <-]. unfold can_fire in E.
  assert (is_done (ss_phase s) = false) as Hd by (by destruct k, (ss_phase s)).
  apply (eff_move e s _ (phase_batch (ss_phase s)) (phase_batch (ss_phase s)) []); simpl; try done.
  - by rewrite phase_set_same.
  - by rewrite app_nil_r.
  - destruct k; unfold flags_le; simpl; destruct (ss_phase s); try done; tauto.
  - by left.
  - lia.
  - unfold work, flags_work. simpl.
    destruct k, (ss_phase s); try done; simpl in *; try apply andb_true_iff in E as [E _];
      apply negb_true_iff in E; rewrite E; simpl; lia.
Qed.

Lemma dispatch_effect e s s' : dispatch e s = Some s' -> effect e s s'.
Proof.
  unfold dispatch. destruct (phase_batch (ss_phase s)) as [pending waiting jobs] eqn:Eb. simpl.
  destruct pending as [|pt pending]; [done|]. destruct waiting; [done|].
  assert (is_done (ss_phase s) = false) as Hd by (by destruct (ss_phase s)).
  destruct (dispatch_blocked e s pt) as [reason|] eqn:Ed; intros [= <-].
  - eapply (recorded_effect e s _ _ pt (mkbatch pending None jobs) []); [apply markNotRun_recorded|try done..].
    + simpl. by rewrite app_nil_r.
    + rewrite Eb. unfold batch_tasks, in_flight. simpl. by rewrite <- Permutation_middle.
    + rewrite Eb. unfold running. simpl. set_solver.
    + by rewrite Eb.
    + by rewrite Eb.
    + rewrite Eb. unfold batch_work. simpl. lia.
  - apply (eff_move e s _ (phase_batch (ss_phase s))
             (mkbatch pending (Some (pt, dispatch_results s)) jobs) []); simpl; rewrite ?Eb; try done; try apply flags_le_refl.
    + by rewrite app_nil_r.
    + unfold batch_tasks, in_flight. simpl. by rewrite <- Permutation_middle.
    + unfold in_flight. simpl. intros x [->|Hx]%elem_of_cons; [by right|by left].
    + simpl. lia.
    + unfold work. simpl. apply Nat.add_lt_mono_r, (phase_work_set e (ss_phase s) _ _ Hd Eb).
      unfold batch_work. simpl. lia.
Qed.

Lemma spawn_effect e s s' : spawn e s = Some s' -> effect e s s'.
Proof.
  unfold spawn. destruct (phase_batch (ss_phase s)) as [pending waiting jobs] eqn:Eb. simpl.
  destruct waiting as [[pt r]|]; [|done].
  assert (is_done (ss_phase s) = false) as Hd by (by destruct (ss_phase s)).
  destruct (_ <? _) eqn:El; [|done]. apply Nat.ltb_lt in El. intros [= <-].
  apply (eff_move e s _ (phase_batch (ss_phase s)) (mkbatch pending None (jobs ++ [mkjob pt r false])) []);
    simpl; rewrite ?Eb; try done; try apply flags_le_refl.
  - by rewrite app_nil_r.
  - unfold batch_tasks, in_flight. simpl. rewrite map_app. simpl. by rewrite <- Permutation_cons_append.
  - unfold running. simpl. rewrite List.filter_app. simpl. by rewrite app_nil_r.
  - unfold in_flight. simpl. intros x. rewrite map_app, elem_of_app, elem_of_cons. simpl. rewrite list_elem_of_singleton.
    intros [?|?]; left; tauto.
  - rewrite length_app. simpl. lia.
  - unfold work. simpl. apply Nat.add_lt_mono_r, (phase_work_set e (ss_phase s) _ _ Hd Eb).
    unfold batch_work. simpl. rewrite sum_list_with_app. simpl. unfold job_work. simpl. lia.
Qed.

(** A goroutine that ends, with its job and what is left of the batch. *)
Lemma running_delete (jobs : list job) i j pending waiting :
  jobs !! i = Some j ->
  running (mkbatch pending waiting jobs) ⊆ jb_task j :: running (mkbatch pending waiting (delete i jobs)).
Proof.
  intros Hj pt. unfold running. simpl. rewrite elem_of_cons. rewrite !list_elem_of_fmap.
  intros (j' & -> & [Hin Hs]%list_elem_of_In%List.filter_In).
  apply list_elem_of_In in Hin. rewrite (jobs_delete_perm jobs i j Hj), elem_of_cons in Hin.
  destruct Hin as [->|Hin]; [by left|]. right. exists j'. split; [done|].
  by apply list_elem_of_In, List.filter_In; rewrite <- list_elem_of_In.
Qed.

Lemma ended_effect e s s1 s' i j pending waiting jobs evs :
  phase_batch (ss_phase s) = mkbatch pending waiting jobs -> jobs !! i = Some j ->
  s1 = emit (set_batch s (mkbatch pending waiting (delete i jobs))) evs -> starts evs = [] ->
  recorded e s1 (jb_task j) s' -> effect e s s'.
Proof.
  intros Eb Hj -> Hst Hrec.
  assert (is_done (ss_phase s) = false) as Hd.
  { destruct (ss_phase s); [done..|]. simpl in Eb. by injection Eb as <- <- <-. }
  pose proof (Permutation_length (jobs_delete_perm jobs i j Hj)) as Hl. simpl in Hl.
  eapply (recorded_effect e s _ _ _ (mkbatch pending waiting (delete i jobs)) evs Hrec); try done; rewrite Eb.
  - unfold batch_tasks, in_flight. simpl. rewrite (Permutation_map jb_task (jobs_delete_perm jobs i j Hj)). simpl.
    by rewrite <- Permutation_middle.
  - by apply running_delete.
  - unfold in_flight. simpl. intros x. rewrite !elem_of_app. intros [?|Hx]; [by left|right].
    rewrite (Permutation_map jb_task (jobs_delete_perm jobs i j Hj)). simpl. apply elem_of_cons. by right.
  - simpl. lia.
  - unfold batch_work. simpl. rewrite (sum_work_delete jobs i j Hj). unfold job_work at 2. destruct (jb_started j); lia.
Qed.

Lemma begin_effect e s i s' : begin e s i = Some s' -> effect e s s'.
Proof.
  unfold begin. destruct (phase_batch (ss_phase s)) as [pending waiting jobs] eqn:Eb. simpl.
  destruct (jobs !! i) as [j|] eqn:Hj; [|done]. destruct (jb_started j) eqn:Hs; [done|].
  assert (is_done (ss_phase s) = false) as Hd.
  { destruct (ss_phase s); [done..|]. simpl in Eb. by injection Eb as <- <- <-. }
  destruct (phase_dead _ _); intros [= <-].
  - eapply (ended_effect e s _ _ i j pending waiting jobs [] Eb Hj); [done|done|].
    split; [by eexists|done|done|]. eexists [skip_event _ _ _]. split; [|reflexivity]. simpl. by rewrite app_nil_r.
  - set (j' := mkjob (jb_task j) (jb_results j) true).
    assert (jobs !! i = Some j) as Hsplit by done. apply list_elem_of_split_length in Hsplit as (l1 & l2 & -> & ->).
    assert (<[length l1 := j']> (l1 ++ j :: l2) = l1 ++ j' :: l2) as Hins.
    { rewrite insert_app_r_alt, Nat.sub_diag by lia. done. }
    apply (eff_move e s _ (phase_batch (ss_phase s)) (mkbatch pending waiting (<[length l1 := j']> (l1 ++ j :: l2)))
             [task_start_event e (jb_task j)]); simpl; rewrite ?Eb, ?Hins; try done; try apply flags_le_refl.
    + unfold batch_tasks, in_flight. simpl. by rewrite !map_app.
    + unfold running. simpl. rewrite !List.filter_app. simpl. rewrite Hs. rewrite !map_app. simpl.
      by rewrite <- Permutation_middle.
    + unfold in_flight. simpl. rewrite !map_app. by left.
    + cbn [bt_jobs]. rewrite !length_app. cbn [length]. lia.
    + unfold work. simpl. apply Nat.add_lt_mono_r, (phase_work_set e (ss_phase s) _ _ Hd Eb).
      unfold batch_work. simpl. rewrite !sum_list_with_app. simpl. unfold job_work. rewrite Hs. simpl. lia.
Qed.

Lemma finish_effect e s i w s' : finish e s i w = Some s' -> effect e s s'.
Proof.
  unfold finish. destruct (phase_batch (ss_phase s)) as [pending waiting jobs] eqn:Eb. simpl.
  destruct (jobs !! i) as [j|] eqn:Hj; [|done]. destruct (jb_started j); [|done].
  destruct (run_job e s j w) as [oc evs] eqn:Er. intros [= <-].
  eapply (ended_effect e s _ _ i j pending waiting jobs evs Eb Hj); [done|by eapply run_job_starts|].
  apply finishTask_recorded.
Qed.

Lemma step_effect e s a s' : step e s a = Some s' -> effect e s s'.
Proof.
  destruct a; simpl.
  - apply fire_effect.
  - apply dispatch_effect.
  - apply spawn_effect.
  - apply begin_effect.
  - apply finish_effect.
  - apply eff_next.
Qed.

(** ** The overall status *)
Definition has_status (outcomes : gmap string TaskOutcome) (status : string) : bool :=
  existsb (fun oc => String.eqb (oc_Status oc) status) (map_to_list outcomes).*2.

(** The status of a run as a function of its outcomes. *)
Definition overall_of (outcomes : gmap string TaskOutcome) : string :=
  if has_status outcomes "timeout" then "timeout"
  else if has_status outcomes "failed" || has_status outcomes "infrafailed" then "failed"
  else "succeeded".

Lemma has_status_true outcomes status :
  has_status outcomes status = true <-> exists n oc, outcomes !! n = Some oc /\ oc_Status oc = status.
Proof.
  unfold has_status. rewrite existsb_exists. split.
  - intros (oc & Hin & Hs%String.eqb_eq). apply list_elem_of_In, list_elem_of_fmap in Hin as ([n oc'] & -> & Hin).
    apply elem_of_map_to_list in Hin. by exists n, oc'.
  - intros (n & oc & Hl & <-). exists oc. split; [|apply String.eqb_refl].
    apply list_elem_of_In, list_elem_of_fmap. exists (n, oc). split; [done|]. by apply elem_of_map_to_list.
Qed.

Lemma has_status_insert outcomes n oc status :
  outcomes !! n = None ->
  has_status (<[n := oc]> outcomes) status = String.eqb (oc_Status oc) status || has_status outcomes status.
Proof.
  intros Hn. apply eq_bool_prop_intro. rewrite orb_True, !Is_true_true, !has_status_true, String.eqb_eq. split.
  - intros (m & oc' & Hm & Hs). rewrite lookup_insert in Hm. case_decide; [by simplify_eq; left|right; by exists m, oc'].
  - intros [Hs|(m & oc' & Hm & Hs)]; [exists n, oc; by rewrite lookup_insert_eq|].
    exists m, oc'. split; [|done]. rewrite lookup_insert_ne; [done|]. intros <-. congruence.
Qed.

Lemma overall_of_insert outcomes n oc :
  outcomes !! n = None -> overall_of (<[n := oc]> outcomes) = overall_step (overall_of outcomes) (oc_Status oc).
Proof.
  intros Hn. unfold overall_of, overall_step. rewrite !has_status_insert by done.
  generalize (has_status outcomes "timeout"), (has_status outcomes "failed"), (has_status outcomes "infrafailed").
  intros t f i. destruct (String.eqb_spec (oc_Status oc) "timeout") as [->|_]; [by destruct t, f, i|].
  destruct (String.eqb_spec (oc_Status oc) "failed") as [->|_]; [by destruct t, f, i|].
  destruct (String.eqb (oc_Status oc) "infrafailed"); by destruct t, f, i.
Qed.

Lemma overall_step_timeout status : overall_step "timeout" status = "timeout".
Proof. unfold overall_step. by repeat case_match. Qed.

(** ** The invariant *)
Record valid e : Prop := {
  v_names : NoDup (all_names e);
  v_levels : Levels (sc_graph e) = Ok (sc_levels e);
  v_parallel : 1 <= sc_MaxParallel e;
}.

Definition final_status (f : flags) (outcomes : gmap string TaskOutcome) : string :=
  if fl_canceled f then "cancelled"
  else if fl_pipeline f || fl_tasks f || fl_finally f then "timeout"
  else overall_of outcomes.

Definition status_inv e s : Prop :=
  match ss_phase s with
  | PTasks _ _ => ss_overall s = overall_of (ss_outcomes s)
  | PFinally _ _ _ => exists dead : bool,
      (dead -> tasks_dead (ss_flags s)) /\ (fl_tasks (ss_flags s) -> dead) /\
      ss_overall s = if dead then "timeout" else overall_of (ss_outcomes s)
  | PDone r => r = mkRunResult (final_status (ss_flags s) (ss_outcomes s)) (ss_outcomes s)
                     (resolvePipelineResults (re_pl (sc_env e)) (ss_results s)).1
  end.

(** Dispatched, and so past the upstream test. *)
Definition cleared e s (n : string) : Prop :=
  (forall a, a ∈ upstream (sc_graph e) n -> is_Some (ss_outcomes s !! a)) /\
  upstreamBlocksDispatch (sc_graph e) n (sc_main e) (ss_outcomes s) = None.

Record tasks_inv e s : Prop := {
  ti_nodup : NoDup (to_run e (ss_phase s));
  ti_to_run : forall n, n ∈ to_run e (ss_phase s) <-> n ∈ all_names e /\ ss_outcomes s !! n = None;
  ti_dom : forall n, is_Some (ss_outcomes s !! n) -> n ∈ all_names e;
  ti_batch : forall pt, pt ∈ batch_tasks (phase_batch (ss_phase s)) -> pt ∈ phase_tasks e (ss_phase s);
  ti_jobs : length (bt_jobs (phase_batch (ss_phase s))) <= sc_MaxParallel e;
}.

Record order_inv e s : Prop := {
  oi_levels : match ss_phase s with
              | PTasks rest b => exists pre, sc_levels e = pre ++ rest /\
                  forall pt, pt ∈ batch_tasks b -> exists l, last pre = Some l /\ pt_Name pt ∈ l
              | _ => True
              end;
  oi_nodup : NoDup (starts (ss_events s));
  oi_starts : forall n, n ∈ starts (ss_events s) ->
                is_Some (ss_outcomes s !! n) \/ n ∈ map pt_Name (running (phase_batch (ss_phase s)));
  oi_cleared : forall n, n ∈ map pt_Name (sc_tasks e) ->
                 n ∈ starts (ss_events s) \/ n ∈ map pt_Name (in_flight (phase_batch (ss_phase s))) ->
                 cleared e s n;
}.

Record inv e s : Prop := {
  inv_tasks : tasks_inv e s;
  inv_order : order_inv e s;
  inv_status : status_inv e s;
}.

(** *** The levels of a valid run *)
Section Valid.
Context (e : sched) (V : valid e).

Lemma valid_wf : wf (sc_graph e).
Proof. eapply Levels_ok_wf; [apply run_graph_sym|apply (v_levels _ V)]. Qed.

Lemma valid_peel : peel (sc_graph e) (dom (nodes (sc_graph e))) (sc_levels e).
Proof. apply Levels_ok_peel; [apply valid_wf|apply (v_levels _ V)]. Qed.

Lemma levels_NoDup : NoDup (concat (sc_levels e)).
Proof. eapply peel_NoDup, valid_peel. Qed.

Lemma elem_of_levels n : n ∈ concat (sc_levels e) <-> n ∈ map pt_Name (sc_tasks e).
Proof.
  rewrite (peel_elem _ _ _ n valid_peel), elem_of_dom.
  apply (proj2 (run_graph_spec (sc_tasks e) (sc_expansions e))).
Qed.

Lemma main_finally_disjoint n : n ∈ map pt_Name (sc_tasks e) -> n ∈ map pt_Name (sc_finally e) -> False.
Proof.
  pose proof (v_names _ V) as Hnd. unfold all_names in Hnd. rewrite map_app in Hnd.
  apply NoDup_app in Hnd as (_ & Hd & _). intros Hm. by apply Hd.
Qed.

Lemma level_tasks_names level :
  level ⊆ map pt_Name (sc_tasks e) -> map pt_Name (level_tasks e level) = level.
Proof.
  induction level as [|n level IH]; intros Hl; [done|].
  change (level_tasks e (n :: level)) with
    (match sc_main e !! n with Some pt => pt :: level_tasks e level | None => level_tasks e level end).
  assert (is_Some (sc_main e !! n)) as [pt Hpt] by (apply elem_of_main_tasks, Hl; set_solver).
  rewrite Hpt. simpl. rewrite IH by set_solver. f_equal. by eapply main_tasks_Some.
Qed.

Lemma elem_of_level_tasks level pt : pt ∈ level_tasks e level -> pt ∈ sc_tasks e.
Proof. intros (n & _ & Hn)%list_elem_of_omap. by eapply main_tasks_Some. Qed.

(** An ancestor of a task of the current level is in an earlier level. *)
Lemma ancestor_earlier pre level rest a n :
  sc_levels e = pre ++ level :: rest -> n ∈ level -> a ∈ upstream (sc_graph e) n -> a ∈ concat pre.
Proof.
  intros Hls Hn Ha. apply elem_of_upstream in Ha as (_ & _ & Hr).
  destruct (peel_reaches _ _ _ a n (length pre) valid_peel) as (j & Hj & l & Hl & Ha).
  - by apply wf_edges_in_nodes, valid_wf.
  - done.
  - exists level. rewrite Hls. split; [|done]. by rewrite lookup_app_r, Nat.sub_diag by lia.
  - apply elem_of_concat_level. exists j, l. split; [|done]. by rewrite Hls, lookup_app_l in Hl.
Qed.

(** The ancestors of what is in a batch are recorded. *)
Lemma ancestors_recorded s rest b pt a :
  tasks_inv e s -> order_inv e s -> ss_phase s = PTasks rest b -> pt ∈ batch_tasks b ->
  a ∈ upstream (sc_graph e) (pt_Name pt) -> is_Some (ss_outcomes s !! a).
Proof.
  intros T O Hp Hpt Ha. pose proof (oi_levels _ _ O) as Hl. pose proof (ti_to_run _ _ T a) as Hrun. rewrite Hp in Hl, Hrun.
  destruct Hl as (pre & Hls & Hb). destruct (Hb pt Hpt) as (l & Hlast & Hn).
  apply last_Some in Hlast as [pre' ->]. rewrite <- app_assoc in Hls. simpl in Hls.
  pose proof (ancestor_earlier pre' l rest a _ Hls Hn Ha) as Hpre.
  pose proof levels_NoDup as Hnd. rewrite Hls, concat_app in Hnd. simpl in Hnd.
  apply NoDup_app in Hnd as (_ & Hdis & _).
  assert (a ∈ map pt_Name (sc_tasks e)) as Hmain.
  { apply elem_of_levels. rewrite Hls, concat_app, elem_of_app. by left. }
  destruct (ss_outcomes s !! a) eqn:E; [by eexists|]. exfalso.
  assert (a ∈ to_run e (PTasks rest b)) as Hin.
  { apply Hrun. split; [|done]. unfold all_names. rewrite map_app, elem_of_app. by left. }
  simpl in Hin. rewrite !elem_of_app in Hin. destruct Hin as [Hin|[Hin|Hin]].
  - apply list_elem_of_fmap in Hin as (pt' & -> & Hin). destruct (Hb pt' Hin) as (l' & Hl' & Hn').
    rewrite last_snoc in Hl'. injection Hl' as <-. apply (Hdis _ Hpre). rewrite elem_of_app. by left.
  - apply (Hdis _ Hpre). rewrite elem_of_app. by right.
  - by eapply main_finally_disjoint.
Qed.
End Valid.

(** ** Preservation *)
Lemma batch_in_to_run e ph : map pt_Name (batch_tasks (phase_batch ph)) ⊆+ to_run e ph.
Proof. destruct ph; simpl; [by apply submseteq_inserts_r|done|done]. Qed.

Lemma phase_tasks_set e ph b : phase_tasks e (phase_set_batch ph b) = phase_tasks e ph.
Proof. by destruct ph. Qed.

Lemma unrecorded e s pt :
  tasks_inv e s -> pt ∈ batch_tasks (phase_batch (ss_phase s)) -> ss_outcomes s !! pt_Name pt = None.
Proof.
  intros T Hpt. apply (ti_to_run _ _ T). eapply elem_of_submseteq; [|apply batch_in_to_run].
  by apply list_elem_of_fmap_2.
Qed.

(** *** Recording a task of the batch *)
Section Record.
Context (e : sched) (s s' : sstate) (pt : PipelineTask) (oc : TaskOutcome) (b' : batch) (evs : list Event).
Hypotheses (Hd : is_done (ss_phase s) = false)
  (Hp : ss_phase s' = phase_set_batch (ss_phase s) b')
  (Ho : ss_outcomes s' = <[pt_Name pt := oc]> (ss_outcomes s))
  (Hov : ss_overall s' = overall_step (ss_overall s) (oc_Status oc))
  (He : ss_events s' = ss_events s ++ evs) (Hst : starts evs = [])
  (Hf : ss_flags s' = ss_flags s)
  (Hb : batch_tasks (phase_batch (ss_phase s)) ≡ₚ pt :: batch_tasks b')
  (Hr : running (phase_batch (ss_phase s)) ⊆ pt :: running b')
  (Hi : in_flight b' ⊆ in_flight (phase_batch (ss_phase s)))
  (Hl : length (bt_jobs b') <= length (bt_jobs (phase_batch (ss_phase s))))
  (T : tasks_inv e s).

Lemma record_unrecorded : ss_outcomes s !! pt_Name pt = None.
Proof. apply (unrecorded e s pt T). rewrite Hb. apply elem_of_cons. by left. Qed.

Lemma record_to_run : to_run e (ss_phase s) ≡ₚ pt_Name pt :: to_run e (ss_phase s').
Proof. rewrite Hp. by rewrite (to_run_set_batch e _ b' [pt] Hd Hb). Qed.

Lemma record_tasks : tasks_inv e s'.
Proof.
  pose proof (ti_nodup _ _ T) as Hnd. rewrite record_to_run in Hnd. apply NoDup_cons in Hnd as [Hnin Hnd].
  split; [done|..].
  - intros n. pose proof (ti_to_run _ _ T n) as Hn. rewrite record_to_run, elem_of_cons in Hn.
    rewrite Ho, lookup_insert. case_decide; [subst; naive_solver|naive_solver].
  - intros n. rewrite Ho, lookup_insert_is_Some. intros [<-|[_ Hn]]; [|by apply (ti_dom _ _ T)].
    apply (ti_to_run _ _ T). rewrite record_to_run. apply elem_of_cons. by left.
  - rewrite Hp, phase_batch_set, phase_tasks_set by done. intros pt' Hpt'. apply (ti_batch _ _ T). rewrite Hb.
    apply elem_of_cons. by right.
  - rewrite Hp, phase_batch_set by done. pose proof (ti_jobs _ _ T). lia.
Qed.

Lemma record_cleared n : cleared e s n -> cleared e s' n.
Proof.
  intros [Ha Hc]. split.
  - intros a Hin. rewrite Ho, lookup_insert_is_Some'. right. by apply Ha.
  - rewrite <- Hc. apply upstreamBlocksDispatch_ext. intros a Hin. rewrite Ho, lookup_insert_ne; [done|].
    intros <-. destruct (Ha _ Hin) as [? E]. pose proof record_unrecorded. congruence.
Qed.

Lemma record_order : order_inv e s -> order_inv e s'.
Proof.
  intros O. assert (starts (ss_events s') = starts (ss_events s)) as Hs by (by rewrite He, starts_app, Hst, app_nil_r).
  split; rewrite ?Hs.
  - rewrite Hp. pose proof (oi_levels _ _ O) as Hlv. destruct (ss_phase s) as [rest b0| |]; simpl in *; try done.
    destruct Hlv as (pre & Hls & Hlast). exists pre. split; [done|]. intros pt' Hpt'. apply Hlast. rewrite Hb.
    apply elem_of_cons. by right.
  - apply (oi_nodup _ _ O).
  - intros n Hn. rewrite Ho, lookup_insert_is_Some', Hp, phase_batch_set by done.
    destruct (oi_starts _ _ O n Hn) as [?|(pt' & -> & Hin)%list_elem_of_fmap]; [tauto|].
    apply Hr, elem_of_cons in Hin as [->|Hin]; [tauto|]. right. by apply list_elem_of_fmap_2.
  - intros n Hn Hin. apply record_cleared, (oi_cleared _ _ O); [done|]. destruct Hin as [|Hin]; [by left|right].
    rewrite Hp, phase_batch_set in Hin by done. apply list_elem_of_fmap in Hin as (pt' & -> & Hin).
    by apply list_elem_of_fmap_2, Hi.
Qed.

Lemma record_status : status_inv e s -> status_inv e s'.
Proof.
  unfold status_inv. rewrite Hp, Hf, Hov, Ho, (overall_of_insert _ _ _ record_unrecorded).
  destruct (ss_phase s); simpl; [by intros ->| |done].
  intros (dead & H1 & H2 & ->). exists dead. split_and!; [done..|]. destruct dead; [|done]. apply overall_step_timeout.
Qed.

Lemma record_inv : order_inv e s -> status_inv e s -> inv e s'.
Proof. split; [apply record_tasks|by apply record_order|by apply record_status]. Qed.
End Record.

(** *** Moving a task inside the batch *)
Section Move.
Context (e : sched) (s s' : sstate) (b' : batch) (evs : list Event) (V : valid e).
Hypotheses (Hd : is_done (ss_phase s) = false)
  (Hp : ss_phase s' = phase_set_batch (ss_phase s) b')
  (Ho : ss_outcomes s' = ss_outcomes s)
  (Hov : ss_overall s' = ss_overall s)
  (He : ss_events s' = ss_events s ++ evs)
  (Hf : flags_le (ss_phase s) (ss_flags s) (ss_flags s'))
  (Hb : batch_tasks (phase_batch (ss_phase s)) ≡ₚ batch_tasks b')
  (Hr : map pt_Name (running b') ≡ₚ starts evs ++ map pt_Name (running (phase_batch (ss_phase s))))
  (Hi : forall pt, pt ∈ in_flight b' ->
          pt ∈ in_flight (phase_batch (ss_phase s)) \/ dispatch_blocked e s pt = None)
  (Hl : length (bt_jobs b') <= Nat.max (sc_MaxParallel e) (length (bt_jobs (phase_batch (ss_phase s)))))
  (T : tasks_inv e s) (O : order_inv e s).

Lemma move_to_run : to_run e (ss_phase s) ≡ₚ to_run e (ss_phase s').
Proof. rewrite Hp. by rewrite (to_run_set_batch e _ b' [] Hd Hb). Qed.

Lemma move_tasks : tasks_inv e s'.
Proof.
  split.
  - rewrite <- move_to_run. apply (ti_nodup _ _ T).
  - intros n. rewrite <- move_to_run, Ho. apply (ti_to_run _ _ T).
  - intros n. rewrite Ho. apply (ti_dom _ _ T).
  - rewrite Hp, phase_batch_set, phase_tasks_set by done. intros pt Hpt. apply (ti_batch _ _ T). by rewrite Hb.
  - rewrite Hp, phase_batch_set by done. pose proof (ti_jobs _ _ T). lia.
Qed.

Lemma move_running_NoDup : NoDup (map pt_Name (running b')).
Proof.
  eapply submseteq_NoDup; [|apply running_submseteq]. rewrite <- Hb.
  eapply submseteq_NoDup; [apply (ti_nodup _ _ T)|apply batch_in_to_run].
Qed.

Lemma move_cleared pt : pt ∈ sc_tasks e -> pt ∈ in_flight b' -> cleared e s (pt_Name pt).
Proof.
  intros Hm Hin. destruct (Hi pt Hin) as [Hin'|Hdb].
  - apply (oi_cleared _ _ O); [by apply list_elem_of_fmap_2|]. right. by apply list_elem_of_fmap_2.
  - assert (pt ∈ batch_tasks (phase_batch (ss_phase s))) as Hpt by (rewrite Hb; apply elem_of_app; by left).
    pose proof (ti_batch _ _ T pt Hpt) as Hph. unfold dispatch_blocked in Hdb.
    destruct (ss_phase s) as [rest b0|fs rs b0|] eqn:Ep; [| |done].
    + split; [|by destruct (upstreamBlocksDispatch _ _ _ _)].
      intros a. by eapply ancestors_recorded.
    + destruct (main_finally_disjoint e V (pt_Name pt)); by apply list_elem_of_fmap_2.
Qed.

Lemma move_order : order_inv e s'.
Proof.
  pose proof move_running_NoDup as Hnd. rewrite Hr in Hnd. apply NoDup_app in Hnd as (Hnd & Hdis & _).
  assert (forall n, n ∈ starts evs -> n ∈ map pt_Name (running b')) as Hrun
    by (intros n Hn; rewrite Hr; apply elem_of_app; by left).
  split; rewrite ?He, ?starts_app, ?Ho.
  - rewrite Hp. pose proof (oi_levels _ _ O) as Hlv. destruct (ss_phase s) as [rest b0| |]; simpl in *; try done.
    destruct Hlv as (pre & Hls & Hlast). exists pre. split; [done|]. intros pt' Hpt'. apply Hlast. by rewrite Hb.
  - apply NoDup_app. split_and!; [apply (oi_nodup _ _ O)| |done]. intros n Hn Hn'.
    destruct (oi_starts _ _ O n Hn) as [Hrec|Hin]; [|by apply (Hdis n)].
    apply Hrun, list_elem_of_fmap in Hn' as (pt & -> & Hpt).
    rewrite (unrecorded e s pt T) in Hrec; [by destruct Hrec|]. rewrite Hb. apply elem_of_app. left.
    by apply running_in_flight.
  - intros n [Hn|Hn]%elem_of_app; rewrite Hp, phase_batch_set by done; [|right; by apply Hrun].
    destruct (oi_starts _ _ O n Hn) as [?|Hin]; [by left|right]. rewrite Hr. apply elem_of_app. by right.
  - intros n Hm Hin. rewrite Hp, phase_batch_set in Hin by done.
    assert (cleared e s n) as Hc; [|by unfold cleared; rewrite Ho].
    assert (n ∈ starts (ss_events s) \/ n ∈ map pt_Name (in_flight b')) as [Hn|Hn].
    { destruct Hin as [[Hn|Hn]%elem_of_app|Hn]; [by left| |by right]. right.
      apply Hrun, list_elem_of_fmap in Hn as (pt & -> & Hpt). by apply list_elem_of_fmap_2, running_in_flight. }
    + apply (oi_cleared _ _ O); [done|by left].
    + apply list_elem_of_fmap in Hn as (pt & -> & Hpt). apply move_cleared; [|done].
      assert (pt ∈ phase_tasks e (ss_phase s)) as Hph.
      { apply (ti_batch _ _ T). rewrite Hb. apply elem_of_app. by left. }
      destruct (ss_phase s); simpl in Hph; [done| |by apply not_elem_of_nil in Hph].
      destruct (main_finally_disjoint e V (pt_Name pt)); [done|by apply list_elem_of_fmap_2].
Qed.

Lemma move_status : status_inv e s -> status_inv e s'.
Proof.
  unfold status_inv. rewrite Hp, Hov, Ho. destruct (ss_phase s); simpl; [done| |done].
  destruct Hf as (F1 & F2 & F3 & _ & F4).
  intros (dead & H1 & H2 & ->). exists dead. split_and!; [|by rewrite F4|done].
  intros Hdead%H1. unfold tasks_dead, pipe_dead in *. rewrite !orb_True in *. tauto.
Qed.

Lemma move_inv : status_inv e s -> inv e s'.
Proof. split; [apply move_tasks|apply move_order|by apply move_status]. Qed.
End Move.

(** *** Between batches *)
Lemma empty_batch_eq b : empty_batch b = true -> b = mkbatch [] None [].
Proof. by destruct b as [[] [] []]. Qed.

Lemma mark_inv e s rest pt pts msg kind :
  inv e (set_phase s (PTasks rest (mkbatch (pt :: pts) None []))) ->
  inv e (set_phase (markNotRun e s pt msg kind) (PTasks rest (mkbatch pts None []))).
Proof.
  intros I.
  apply (record_inv e (set_phase s (PTasks rest (mkbatch (pt :: pts) None []))) _ pt
           (mkTaskOutcome "not-run" msg None 0 (pt_MatrixInfo pt) kind) (mkbatch pts None [])
           [skip_event pt msg (matrixEventFor pt)]);
    try done; try apply I; unfold running, in_flight; simpl; set_solver.
Qed.

Lemma skip_level_inv e s rest pts :
  inv e (set_phase s (PTasks rest (mkbatch pts None []))) ->
  inv e (set_phase
    (foldl (fun s pt => match ss_outcomes s !! pt_Name pt with
                        | Some _ => s
                        | None => markNotRun e s pt (phase_reason e (ss_phase s) (ss_flags s)) skipStopped
                        end) s pts) (PTasks rest (mkbatch [] None []))).
Proof.
  revert s; induction pts as [|pt pts IH]; intros s I; simpl; [done|].
  pose proof (unrecorded e _ pt (inv_tasks _ _ I)) as Hn. simpl in Hn. rewrite Hn by (apply elem_of_cons; by left).
  apply IH. by apply mark_inv.
Qed.

Lemma enter_level_inv e s level rest b :
  valid e -> inv e s -> ss_phase s = PTasks (level :: rest) b -> b = mkbatch [] None [] ->
  inv e (set_phase s (PTasks rest (mkbatch (level_tasks e level) None []))).
Proof.
  intros V [T O S] Hp ->.
  pose proof (oi_levels _ _ O) as Hl. rewrite Hp in Hl. destruct Hl as (pre & Hls & _).
  assert (map pt_Name (level_tasks e level) = level) as Hnames.
  { apply level_tasks_names; [done|]. intros n Hn. apply (elem_of_levels e V). rewrite Hls, concat_app. simpl.
    rewrite !elem_of_app. tauto. }
  assert (to_run e (PTasks rest (mkbatch (level_tasks e level) None [])) = to_run e (ss_phase s)) as Htr.
  { rewrite Hp. change (map pt_Name (level_tasks e level) ++ concat rest ++ map pt_Name (sc_finally e) =
      (level ++ concat rest) ++ map pt_Name (sc_finally e)). by rewrite Hnames, app_assoc. }
  split.
  - split; simpl ss_phase; rewrite ?Htr; [apply T|apply T|apply T| |simpl; lia].
    intros pt. by apply elem_of_level_tasks.
  - destruct O as [_ O1 O2 O3]. rewrite Hp in O2, O3. split; simpl in *; [|done..].
    exists (pre ++ [level]). rewrite <- app_assoc. split; [done|]. intros pt Hpt. exists level.
    split; [apply last_snoc|]. rewrite <- Hnames. by apply list_elem_of_fmap_2.
  - unfold status_inv in *. by rewrite Hp in S.
Qed.

Lemma enter_finally_inv e s b s' :
  valid e -> inv e s -> ss_phase s = PTasks [] b -> b = mkbatch [] None [] -> next e s = Some s' -> inv e s'.
Proof.
  intros V [T O S] Hp ->. unfold next. rewrite Hp. simpl. intros [= <-].
  destruct T as [T1 T2 T3 _ _]. destruct O as [_ O1 O2 O3]. rewrite Hp in *. unfold status_inv in S. rewrite Hp in S.
  split.
  - split; simpl in *; [done..| |lia]. done.
  - split; simpl in *; done.
  - exists (tasks_dead (ss_flags s)). simpl. split_and!; [done| |by destruct (tasks_dead _)].
    intros Ht. unfold tasks_dead. rewrite orb_True. by right.
Qed.

Lemma end_inv e s fs rs b s' :
  inv e s -> ss_phase s = PFinally fs rs b -> b = mkbatch [] None [] -> next e s = Some s' -> inv e s'.
Proof.
  intros [T O S] Hp ->. unfold next. rewrite Hp. simpl. intros [= <-].
  destruct T as [T1 T2 T3 _ _]. destruct O as [_ O1 O2 O3]. rewrite Hp in *. unfold status_inv in S. rewrite Hp in S.
  unfold run_end. destruct (resolvePipelineResults _ _) as [results errs] eqn:Er.
  assert (starts (map (fun err => mkEvent EvtError "" "" "" "" err 0 ∅ "" "" "" None) errs) = []) as Herr.
  { clear. induction errs; [done|]. simpl. done. }
  split.
  - split; simpl in *; [done..| |lia]. by intros pt ?%not_elem_of_nil.
  - split; simpl in *; [done|..]; rewrite !starts_app, Herr, !app_nil_r; done.
  - unfold status_inv. simpl. rewrite Er. simpl. f_equal. unfold final_status.
    destruct S as (dead & H1 & H2 & ->). unfold tasks_dead, pipe_dead, finally_dead, pipe_dead in *.
    destruct (ss_flags s) as [[] [] [] []], dead; simpl in *; try done; tauto.
Qed.

Lemma next_inv e s s' : valid e -> inv e s -> next e s = Some s' -> inv e s'.
Proof.
  intros V I Hn. pose proof Hn as Hn'. unfold next in Hn'.
  destruct (empty_batch (phase_batch (ss_phase s))) eqn:Eb; [|done]. apply empty_batch_eq in Eb. simpl in Hn'.
  destruct (ss_phase s) as [[|level rest] b|fs rs b|r] eqn:Hp; simpl in Eb; [| | |done].
  - by eapply enter_finally_inv.
  - destruct (tasks_dead (ss_flags s)); injection Hn' as <-.
    + apply skip_level_inv. by eapply enter_level_inv.
    + by eapply enter_level_inv.
  - by eapply end_inv.
Qed.

Lemma step_inv e s a s' : valid e -> inv e s -> step e s a = Some s' -> inv e s'.
Proof.
  intros V I Hs. apply step_effect in Hs as [b b' evs Hd -> Hp Ho Hov He Hf Hb Hr Hi Hl _
    |b b' pt oc evs Hd -> Hp Ho Hov He Hf Hb Hst Hr Hi Hl _|Hn].
  - eapply move_inv; [done..|apply I|apply I|apply I].
  - eapply record_inv; [done..|apply I|apply I|apply I].
  - by eapply next_inv.
Qed.

Lemma run_inv e s acts s' : valid e -> inv e s -> run e s acts = Some s' -> inv e s'.
Proof.
  intros V. revert s; induction acts as [|a acts IH]; intros s I; simpl; [by intros [= <-]|].
  destruct (step e s a) as [s1|] eqn:E; [|done]. apply IH. by eapply step_inv.
Qed.

(** ** Every step lowers the work left *)
Lemma skip_level_frame e s level :
  ss_flags (skip_level e s level) = ss_flags s.
Proof.
  unfold skip_level. revert s; induction (level_tasks e level) as [|pt pts IH]; intros s; simpl; [done|].
  rewrite IH. by destruct (ss_outcomes s !! pt_Name pt).
Qed.

Lemma level_tasks_length e level : length (level_tasks e level) <= length level.
Proof.
  induction level as [|n level IH]; [done|].
  change (level_tasks e (n :: level)) with
    (match sc_main e !! n with Some pt => pt :: level_tasks e level | None => level_tasks e level end).
  destruct (sc_main e !! n); simpl; lia.
Qed.

Lemma next_work e s s' : next e s = Some s' -> work e s' < work e s.
Proof.
  unfold next. destruct (empty_batch (phase_batch (ss_phase s))) eqn:Eb; [|done]. apply empty_batch_eq in Eb.
  unfold work. destruct (ss_phase s) as [[|level rest] b|fs rs b|r] eqn:Hp; simpl in *; [| | |done]; subst b.
  - intros [= <-]. simpl. unfold batch_work. simpl. lia.
  - pose proof (level_tasks_length e level) as Hl.
    destruct (tasks_dead (ss_flags s)); intros [= <-]; simpl; rewrite ?skip_level_frame; unfold batch_work, level_work; simpl; lia.
  - unfold run_end. destruct (resolvePipelineResults _ _). intros [= <-]. simpl. unfold batch_work. simpl. lia.
Qed.

Lemma step_work e s a s' : step e s a = Some s' -> work e s' < work e s.
Proof. intros Hs. apply step_effect in Hs as [| |Hn]; [done..|]. by apply next_work. Qed.

Lemma run_work e s acts s' : run e s acts = Some s' -> length acts + work e s' <= work e s.
Proof.
  revert s; induction acts as [|a acts IH]; intros s; simpl; [intros [= <-]; lia|].
  destruct (step e s a) as [s1|] eqn:E; simpl; [|done]. intros Hr%IH. apply step_work in E. lia.
Qed.

(** Services that answer nothing, for the existence of a step. *)
Definition no_services : attempt_world :=
  mkattempt_world (mkServices None (fun _ _ => Err no_text) None (fun _ => Err no_text))
    (fun _ => Err no_text) false None false.

(** A state that is not final has a step of the program itself. *)
Lemma progress e s :
  valid e -> is_done (ss_phase s) = false ->
  exists a s', (forall k, a <> AFire k) /\ step e s a = Some s'.
Proof.
  intros V Hd. destruct (phase_batch (ss_phase s)) as [pending waiting jobs] eqn:Eb.
  assert (jobs <> [] -> exists a s', (forall k, a <> AFire k) /\ step e s a = Some s') as Hjobs.
  { intros Hj. destruct jobs as [|j jobs]; [done|]. destruct (jb_started j) eqn:Hs.
    - exists (AFinish 0 (fun _ => no_services)). simpl. unfold finish. rewrite Eb. simpl. rewrite Hs.
      destruct (run_job _ _ _ _). eexists. by split.
    - exists (ABegin 0). simpl. unfold begin. rewrite Eb. simpl. rewrite Hs.
      destruct (phase_dead _ _); eexists; by split. }
  destruct waiting as [[pt r]|].
  { destruct jobs as [|j jobs]; [|by apply Hjobs]. exists ASpawn. simpl. unfold spawn. rewrite Eb. simpl.
    pose proof (v_parallel _ V). destruct (0 <? sc_MaxParallel e) eqn:E; [|apply Nat.ltb_ge in E; lia].
    eexists. by split. }
  destruct pending as [|pt pending].
  - destruct jobs as [|j jobs]; [|by apply Hjobs]. exists ANext. simpl. unfold next. rewrite Eb. simpl.
    destruct (ss_phase s) as [[|level rest] b| |]; [| | |done].
    + eexists. by split.
    + destruct (tasks_dead _); eexists; by split.
    + eexists. by split.
  - exists ADispatch. simpl. unfold dispatch. rewrite Eb. simpl.
    destruct (dispatch_blocked e s pt); eexists; by split.
Qed.

(** ** The start *)
Lemma start_valid {En : Entropy} prepare input mp e s :
  start_run prepare input mp = Started e s -> NoDup (all_names e) ->
  valid e /\ s = mksstate ∅ ∅ "succeeded" (ss_events s) (mkflags false false false false)
                   (PTasks (sc_levels e) (mkbatch [] None [])) /\ starts (ss_events s) = [].
Proof.
  unfold start_run. destruct (b_Pipelines _ !! _) as [pl0|]; [|done]. cbv zeta. destruct (_ <? _); [done|].
  destruct (applyDefaults _ _) as [params|]; [|done]. destruct (expandMatrix pl0) as [pl|]; [|done].
  destruct (prepare _); [|done]. destruct (Levels _) as [levels|] eqn:HL; [|done].
  destruct (parsePipelineTimeouts _) as [t|]; [|done]. intros [= <- <-] Hnd. split; [|done].
  split; [done|exact HL|]. simpl. unfold New_MaxParallel. destruct (mp <=? 0)%Z eqn:E; lia.
Qed.

Lemma start_inv {En : Entropy} prepare input mp e s :
  start_run prepare input mp = Started e s -> NoDup (all_names e) -> valid e /\ inv e s.
Proof.
  intros Hs Hnd. destruct (start_valid _ _ _ _ _ Hs Hnd) as (V & Heq & Hst). split; [done|].
  remember (ss_events s) as evs. rewrite Heq. clear Heqevs Heq Hs. split.
  - assert (forall n, n ∈ to_run e (PTasks (sc_levels e) (mkbatch [] None [])) <-> n ∈ all_names e) as Hin.
    { intros n. simpl. unfold all_names. rewrite map_app, !elem_of_app, elem_of_levels by done. tauto. }
    split; simpl ss_phase; simpl ss_outcomes.
    + simpl. apply NoDup_app. split_and!; [by apply levels_NoDup| |].
      * intros n Hn Hf. rewrite elem_of_levels in Hn by done. by eapply main_finally_disjoint.
      * unfold all_names in Hnd. rewrite map_app in Hnd. by apply NoDup_app in Hnd as (_ & _ & ?).
    + intros n. rewrite Hin, lookup_empty. tauto.
    + intros n. rewrite lookup_empty. by intros [? ?].
    + by intros pt ?%not_elem_of_nil.
    + simpl. lia.
  - split; simpl; rewrite ?Hst.
    + exists []. split; [done|]. by intros pt ?%not_elem_of_nil.
    + constructor.
    + by intros n ?%not_elem_of_nil.
    + by intros n _ [?%not_elem_of_nil|?%not_elem_of_nil].
  - done.
Qed.

(** The work of a whole run. *)
Lemma start_work {En : Entropy} prepare input mp e s :
  start_run prepare input mp = Started e s -> NoDup (all_names e) ->
  work e s <= 5 * length (sc_tasks e) + 4 * length (sc_finally e) + 6.
Proof.
  intros Hs Hnd. destruct (start_valid _ _ _ _ _ Hs Hnd) as (V & -> & _). unfold work. simpl.
  unfold batch_work, flags_work. simpl.
  assert (length (concat (sc_levels e)) = length (sc_tasks e)) as Hlen.
  { rewrite <- (length_map pt_Name (sc_tasks e)). apply Permutation_length, NoDup_Permutation.
    - by apply levels_NoDup.
    - unfold all_names in Hnd. rewrite map_app in Hnd. by apply NoDup_app in Hnd as (? & _ & _).
    - intros n. by apply elem_of_levels. }
  assert (forall l, l ∈ sc_levels e -> l <> []) as Hne.
  { intros l Hl. eapply peel_levels; [by apply valid_peel|done]. }
  revert Hlen Hne. generalize (length (sc_tasks e)), (length (sc_finally e)). intros m f Hlen Hne.
  assert (sum_list_with level_work (sc_levels e) <= 5 * length (concat (sc_levels e))) as Hsum; [|lia].
  clear Hlen. induction (sc_levels e) as [|l ls IH]; [simpl; lia|].
  cbn [sum_list_with concat]. rewrite length_app.
  assert (l <> []) as Hl by (apply Hne, elem_of_cons; by left). assert (1 <= length l) by (destruct l; simpl; [done|lia]).
  assert (sum_list_with level_work ls <= 5 * length (concat ls)); [|unfold level_work at 1; lia].
  apply IH. intros l' Hl'. apply Hne, elem_of_cons. by right.
Qed.

(** ** Finally tasks *)
Lemma computeFinallyStatus_ext (pts : list PipelineTask) (o1 o2 : gmap string TaskOutcome) :
  (forall pt, pt ∈ pts -> o1 !! pt_Name pt = o2 !! pt_Name pt) ->
  computeFinallyStatus pts o1 = computeFinallyStatus pts o2.
Proof.
  intros Ho. unfold computeFinallyStatus.
  assert (foldl (status_step o1) (mkstatus_acc ∅ [] true) pts = foldl (status_step o2) (mkstatus_acc ∅ [] true) pts) as ->;
    [|done].
  revert Ho. generalize (mkstatus_acc ∅ [] true). induction pts as [|pt pts IH]; intros acc Ho; simpl; [done|].
  assert (status_step o1 acc pt = status_step o2 acc pt) as ->.
  { unfold status_step. by rewrite (Ho pt) by (apply elem_of_cons; by left). }
  apply IH. intros x Hx. apply Ho, elem_of_cons. by right.
Qed.

(** In the finally phase the status handed to the tasks is that of the outcomes. *)
Definition finally_inv e s : Prop :=
  match ss_phase s with
  | PFinally fs _ _ => fs = computeFinallyStatus (sc_tasks e) (ss_outcomes s)
  | _ => True
  end.

Lemma main_recorded e s fs rs b pt :
  valid e -> tasks_inv e s -> ss_phase s = PFinally fs rs b -> pt ∈ sc_tasks e -> is_Some (ss_outcomes s !! pt_Name pt).
Proof.
  intros V T Hp Hpt. destruct (ss_outcomes s !! pt_Name pt) eqn:E; [by eexists|]. exfalso.
  assert (pt_Name pt ∈ map pt_Name (sc_tasks e)) as Hm by (by apply list_elem_of_fmap_2).
  pose proof (ti_to_run _ _ T (pt_Name pt)) as [_ Hin]. rewrite Hp in Hin. simpl in Hin.
  apply list_elem_of_fmap in Hin as (pt' & Hn & Hin).
  - pose proof (ti_batch _ _ T pt') as Hb. rewrite Hp in Hb. apply Hb in Hin.
    eapply main_finally_disjoint; [done|exact Hm|]. rewrite Hn. by apply list_elem_of_fmap_2.
  - split; [|done]. unfold all_names. rewrite map_app. apply elem_of_app. by left.
Qed.

Lemma finally_step e s a s' :
  valid e -> tasks_inv e s -> finally_inv e s -> step e s a = Some s' -> finally_inv e s'.
Proof.
  intros V T F Hs. unfold finally_inv in *.
  apply step_effect in Hs as [b b' evs Hd -> Hp Ho Hov He Hf Hb Hr Hi Hl _
    |b b' pt oc evs Hd -> Hp Ho Hov He Hf Hb Hst Hr Hi Hl _|Hn].
  - rewrite Hp, Ho. by destruct (ss_phase s).
  - rewrite Hp, Ho. destruct (ss_phase s) as [|fs rs b|] eqn:E; simpl; [done| |done]. rewrite F.
    apply computeFinallyStatus_ext. intros pt' Hpt'. rewrite lookup_insert_ne; [done|]. intros Heq.
    pose proof (unrecorded e s pt T) as Hu. rewrite E in Hu.
    destruct (main_recorded e s fs rs b pt' V T E Hpt') as [oc' Hoc']. rewrite <- Heq, Hu in Hoc'; [done|].
    rewrite Hb. apply elem_of_cons. by left.
  - unfold next in Hn. destruct (empty_batch _); [|done]. simpl in Hn.
    destruct (ss_phase s) as [[|level rest] b|fs rs b|]; [| | |done].
    + by injection Hn as <-.
    + destruct (tasks_dead _); by injection Hn as <-.
    + unfold run_end in Hn. destruct (resolvePipelineResults _ _). by injection Hn as <-.
Qed.

(** A recorded outcome stays. *)
Lemma step_outcomes e s a s' :
  valid e -> tasks_inv e s -> step e s a = Some s' -> ss_outcomes s ⊆ ss_outcomes s'.
Proof.
  intros V T Hs. apply step_effect in Hs as [b b' evs Hd -> Hp Ho Hov He Hf Hb Hr Hi Hl _
    |b b' pt oc evs Hd -> Hp Ho Hov He Hf Hb Hst Hr Hi Hl _|Hn].
  - by rewrite Ho.
  - rewrite Ho. apply insert_subseteq, (unrecorded e s pt T). rewrite Hb. apply elem_of_cons. by left.
  - unfold next in Hn. destruct (empty_batch _); [|done]. simpl in Hn.
    destruct (ss_phase s) as [[|level rest] b|fs rs b|]; [| | |done].
    + by injection Hn as <-.
    + destruct (tasks_dead _); injection Hn as <-; [|done]. simpl. unfold skip_level. clear.
      revert s. induction (level_tasks e level) as [|pt pts IH]; intros s; simpl; [done|].
      destruct (ss_outcomes s !! pt_Name pt) eqn:E; [apply IH|]. etransitivity; [|apply IH].
      simpl. by apply insert_subseteq.
    + unfold run_end in Hn. destruct (resolvePipelineResults _ _). by injection Hn as <-.
Qed.

(** All that holds along a run. *)
Lemma run_all e s acts s' :
  valid e -> inv e s -> finally_inv e s -> run e s acts = Some s' ->
  inv e s' /\ finally_inv e s' /\ ss_outcomes s ⊆ ss_outcomes s'.
Proof.
  intros V. revert s; induction acts as [|a acts IH]; intros s I F; simpl; [by intros [= <-]|].
  destruct (step e s a) as [s1|] eqn:E; [|done]. simpl. intros Hr.
  destruct (IH s1) as (I' & F' & Hsub); [by eapply step_inv|eapply finally_step; [done|apply I|done..]|done|].
  split_and!; [done..|]. etransitivity; [|done]. eapply step_outcomes; [done|apply I|done].
Qed.
End Invariants.
