(* ===== verification/RunProps.v ===== *)
(** * What every run guarantees

    The properties of [RunPipeline] for every interleaving of the scheduler's
    steps (Scheduler.v), read off the invariants (Invariants.v). *)

From S2P Require Import Prelude GoStrings TektonTypes Dag Resolver Run Matrix Policy Scope Steps Validator Engine Scheduler Invariants.

(** ** A concrete run: [build] fails, [deploy] waits on it, [notify] is a finally task *)
Definition ex_task (name : string) (runAfter : list string) : PipelineTask (K := core_unit) :=
  mkPipelineTask name "" None (Some (mkTaskSpec [] [] [] [] "" "" "" [] None [])) [] [] runAfter [] 0 "" None None.

Definition ex_pipeline : Pipeline (K := core_unit) :=
  mkPipeline (mkObject "" "" (mkMetadata "demo" "" ∅ ∅))
    (mkPipelineSpec "" "" [] [] [ex_task "build" []; ex_task "deploy" ["build"]] [ex_task "notify" []] [] None).

Definition ex_input : PipelineInput (K := core_unit) :=
  mkPipelineInput (mkBundle ∅ {["demo" := ex_pipeline]} [] ∅) "demo" ∅ ∅ "0123456789".

Definition ex_services : Services (K := core_unit) :=
  mkServices None (fun _ _ => Ok "/results") None (fun _ => Err no_text).

Definition ex_RunTask (inv : TaskInvocation (K := core_unit)) : result TaskResult :=
  Ok (mkTaskResult (if String.eqb (inv_TaskName inv) "build" then "failed" else "succeeded") None None).

Definition ex_world (_ : Z) : attempt_world := mkattempt_world ex_services ex_RunTask false None false.

Definition ex_actions : list (action (K := core_unit)) :=
  [ANext; ADispatch; ASpawn; ABegin 0; AFinish 0 ex_world;
   ANext; ADispatch;
   ANext; ADispatch; ASpawn; ABegin 0; AFinish 0 ex_world; ANext].

(** [s] is reached in a run of [RunPipeline] by the steps [acts]. *)
Definition reached {K : CoreV1} `{MapRange} {En : Entropy} (prepare : list string -> result unit) (input : PipelineInput)
    (MaxParallel : Z) (e : sched) (acts : list action) (s : sstate) : Prop :=
  exists s0, start_run prepare input MaxParallel = Started e s0 /\ run e s0 acts = Some s.

Section Reached.
Context {K : CoreV1} `{MapRange} {En : Entropy}.

Lemma reached_inv prepare input mp e acts s :
  reached prepare input mp e acts s -> NoDup (all_names e) ->
  valid e /\ inv e s /\ finally_inv e s /\
  length acts + work e s <= 5 * length (sc_tasks e) + 4 * length (sc_finally e) + 6.
Proof.
  intros (s0 & Hs & Hr) Hnd. destruct (start_inv _ _ _ _ _ Hs Hnd) as [V I].
  assert (finally_inv e s0) as F.
  { destruct (start_valid _ _ _ _ _ Hs Hnd) as (_ & -> & _). done. }
  destruct (run_all e s0 acts s V I F Hr) as (I' & F' & _). split_and!; [done..|].
  pose proof (start_work _ _ _ _ _ Hs Hnd). pose proof (run_work _ _ _ _ Hr). lia.
Qed.

(** C2: a run ends.  Whatever the interleaving, the answers of the services and
    the contexts that end, at most 5 steps per main task, 4 per finally task and
    6 more are taken, and until the run has returned the engine itself (not the
    environment) has a step to take. *)
Theorem run_terminates (prepare : list string -> result unit) (input : PipelineInput) (MaxParallel : Z)
    (e : sched) (acts : list action) (s : sstate)
    (Hrun : reached prepare input MaxParallel e acts s) (Hnames : NoDup (all_names e)) :
  length acts <= 5 * length (sc_tasks e) + 4 * length (sc_finally e) + 6 /\
  (is_done (ss_phase s) = false -> exists a s', (forall k, a <> AFire k) /\ step e s a = Some s').
Proof.
  destruct (reached_inv _ _ _ _ _ _ Hrun Hnames) as (V & I & _ & Hw). split; [lia|]. by apply progress.
Qed.

(** C3: what a run returns.  Every main and finally task - every row of a
    matrix - has exactly one outcome, and the status is "cancelled" when the run
    was cancelled, else "timeout" when a budget fired, else it is determined by
    the outcomes alone: "timeout" if some task timed out, "failed" if some task
    failed, "succeeded" otherwise; it does not depend on the interleaving. *)
Theorem run_result (prepare : list string -> result unit) (input : PipelineInput) (MaxParallel : Z)
    (e : sched) (acts : list action) (s : sstate) (r : RunResult)
    (Hrun : reached prepare input MaxParallel e acts s) (Hnames : NoDup (all_names e))
    (Hdone : ss_phase s = PDone r) :
  (forall n, is_Some (rr_Tasks r !! n) <-> n ∈ map pt_Name (sc_tasks e ++ sc_finally e)) /\
  rr_Status r = final_status (ss_flags s) (rr_Tasks r) /\
  rr_Results r = (resolvePipelineResults (re_pl (sc_env e)) (ss_results s)).1.
Proof.
  destruct (reached_inv _ _ _ _ _ _ Hrun Hnames) as (V & [T O S] & _ & _).
  unfold status_inv in S. rewrite Hdone in S. subst r. simpl. split_and!; [|done|done].
  intros n. split; [apply (ti_dom _ _ T)|]. intros Hn. destruct (ss_outcomes s !! n) eqn:E; [by eexists|].
  pose proof (proj2 (ti_to_run _ _ T n)) as Hin. rewrite Hdone in Hin. simpl in Hin.
  destruct (not_elem_of_nil n). by apply Hin.
Qed.

(** C1: the order of a run.  At every moment: a task is announced with task-start
    at most once; and when a main task is announced or occupies a goroutine, every
    task it depends on, directly or not, has its outcome and none of them blocks
    it. *)
Theorem run_order (prepare : list string -> result unit) (input : PipelineInput) (MaxParallel : Z)
    (e : sched) (acts : list action) (s : sstate)
    (Hrun : reached prepare input MaxParallel e acts s) (Hnames : NoDup (all_names e)) :
  NoDup (starts (ss_events s)) /\
  (forall n, n ∈ map pt_Name (sc_tasks e) ->
     n ∈ starts (ss_events s) \/ n ∈ map pt_Name (in_flight (phase_batch (ss_phase s))) ->
     (forall a, a ∈ upstream (sc_graph e) n -> is_Some (ss_outcomes s !! a)) /\
     upstreamBlocksDispatch (sc_graph e) n (sc_main e) (ss_outcomes s) = None).
Proof.
  destruct (reached_inv _ _ _ _ _ _ Hrun Hnames) as (V & [T O S] & _ & _).
  split; [apply (oi_nodup _ _ O)|]. intros n Hn Hin. by apply (oi_cleared _ _ O).
Qed.

(** concurrency.  At most [MaxParallel] goroutines (4 when the option is not
    positive) are active; while a finally task is dispatched or running, every
    main task has its outcome, and the statuses the finally tasks see are those
    of these outcomes. *)
Theorem run_concurrency (prepare : list string -> result unit) (input : PipelineInput) (MaxParallel : Z)
    (e : sched) (acts : list action) (s : sstate)
    (Hrun : reached prepare input MaxParallel e acts s) (Hnames : NoDup (all_names e)) :
  length (bt_jobs (phase_batch (ss_phase s))) <= New_MaxParallel MaxParallel /\
  (forall fs results b, ss_phase s = PFinally fs results b ->
     (forall pt, pt ∈ sc_tasks e -> is_Some (ss_outcomes s !! pt_Name pt)) /\
     fs = computeFinallyStatus (sc_tasks e) (ss_outcomes s)).
Proof.
  destruct (reached_inv _ _ _ _ _ _ Hrun Hnames) as (V & [T O S] & F & _).
  split.
  - pose proof (ti_jobs _ _ T) as Hj. destruct Hrun as (s0 & Hs & _).
    assert (sc_MaxParallel e = New_MaxParallel MaxParallel) as <-; [|done].
    unfold start_run in Hs. repeat (case_match; [..|done] || case_match); try done; by injection Hs as <- _.
  - intros fs results b Hp. split.
    + intros pt Hpt. by eapply main_recorded.
    + unfold finally_inv in F. by rewrite Hp in F.
Qed.

(** an outcome, once recorded, is final: no later step changes it. *)
Theorem run_outcomes_final (prepare : list string -> result unit) (input : PipelineInput) (MaxParallel : Z)
    (e : sched) (acts acts' : list action) (s s' : sstate)
    (Hrun : reached prepare input MaxParallel e acts s) (Hnames : NoDup (all_names e))
    (Hmore : run e s acts' = Some s') :
  ss_outcomes s ⊆ ss_outcomes s'.
Proof.
  destruct (reached_inv _ _ _ _ _ _ Hrun Hnames) as (V & I & F & _). by apply (run_all e s acts' s').
Qed.
End Reached.

(** ** The concrete run *)
#[local] Instance ex_entropy : Entropy := fun _ => 7%Z.

Definition ex_run : sched * sstate :=
  match start_run (H := default_range) (fun _ => Ok tt) ex_input 2 with
  | Started e s => (e, s)
  | Refused _ _ _ =>
    (mksched (mkRunEnv ex_input ex_pipeline ∅ "" "") 0 (mkpipelineTimeouts 0 0 0) [],
     mksstate ∅ ∅ "" [] (mkflags false false false false) (PTasks [] (mkbatch [] None [])))
  end.

(** The state after the first [n] actions. *)
Definition ex_state (n : nat) : sstate :=
  default ex_run.2 (run (H := default_range) ex_run.1 ex_run.2 (take n ex_actions)).

Definition ex_result : RunResult :=
  match ss_phase (ex_state 13) with PDone r => r | _ => failed_result "" end.

Lemma ex_reached n :
  (if run (H := default_range) ex_run.1 ex_run.2 (take n ex_actions) then true else false) = true ->
  reached (H := default_range) (fun _ => Ok tt) ex_input 2 ex_run.1 (take n ex_actions) (ex_state n).
Proof.
  intros Hs. exists ex_run.2. split; [vm_compute; reflexivity|]. unfold ex_state. by destruct (run _ _ _).
Qed.

Lemma ex_names : NoDup (all_names ex_run.1).
Proof. apply (bool_decide_eq_true_1 (NoDup _)). vm_compute. reflexivity. Qed.

(** Prove [reached] for a prefix of the run. *)
Ltac ex_run := apply ex_reached; vm_compute; reflexivity.

Lemma run_terminates_witness :
  reached (H := default_range) (fun _ => Ok tt) ex_input 2 ex_run.1 (take 4 ex_actions) (ex_state 4) /\
  is_done (ss_phase (ex_state 4)) = false /\
  exists a s', (forall k, a <> AFire k) /\ step (H := default_range) ex_run.1 (ex_state 4) a = Some s'.
Proof.
  assert (is_done (ss_phase (ex_state 4)) = false) as Hd by (vm_compute; reflexivity).
  split; [ex_run|]. split; [exact Hd|].
  refine (proj2 (run_terminates _ _ _ ex_run.1 (take 4 ex_actions) (ex_state 4) _ ex_names) Hd). ex_run.
Defined.

Lemma run_result_witness :
  rr_Status ex_result = "failed" /\
  oc_Status <$> rr_Tasks ex_result = {["build" := "failed"; "deploy" := "not-run"; "notify" := "succeeded"]} /\
  rr_Status ex_result = final_status (ss_flags (ex_state 13)) (rr_Tasks ex_result).
Proof.
  split; [vm_compute; reflexivity|]. split; [vm_compute; reflexivity|].
  refine (proj1 (proj2 (run_result _ _ _ ex_run.1 (take 13 ex_actions) (ex_state 13) ex_result _ ex_names _)));
    [ex_run|vm_compute; reflexivity].
Defined.

Lemma run_order_witness :
  starts (ss_events (ex_state 13)) = ["build"; "notify"] /\
  upstreamBlocksDispatch (H := default_range) (sc_graph ex_run.1) "build" (sc_main ex_run.1) (ss_outcomes (ex_state 13)) = None.
Proof.
  split; [vm_compute; reflexivity|].
  refine (proj2 (proj2 (run_order _ _ _ ex_run.1 (take 13 ex_actions) (ex_state 13) _ ex_names) "build" _ _)).
  - ex_run.
  - apply (bool_decide_eq_true_1 (_ ∈ _)). vm_compute. reflexivity.
  - left. apply (bool_decide_eq_true_1 (_ ∈ _)). vm_compute. reflexivity.
Defined.

Lemma run_concurrency_witness :
  length (bt_jobs (phase_batch (ss_phase (ex_state 4)))) = 1 /\
  length (bt_jobs (phase_batch (ss_phase (ex_state 4)))) <= New_MaxParallel 2.
Proof.
  split; [vm_compute; reflexivity|].
  refine (proj1 (run_concurrency _ _ 2 ex_run.1 (take 4 ex_actions) (ex_state 4) _ ex_names)). ex_run.
Defined.

Lemma run_outcomes_final_witness :
  ss_outcomes (ex_state 5) !! "build" <> None /\ ss_outcomes (ex_state 5) ⊆ ss_outcomes (ex_state 13).
Proof.
  split; [vm_compute; discriminate|].
  refine (run_outcomes_final _ _ 2 ex_run.1 (take 5 ex_actions) (drop 5 ex_actions) (ex_state 5) (ex_state 13) _ ex_names _).
  - ex_run.
  - vm_compute. reflexivity.
Defined.
