(* ===== verification/ClusterStatus.v ===== *)
(** * internal/backend/cluster: reading what the controller reports

    run.go's status mapping, per-task outcomes, matrix row reconstruction and
    pipeline results, and sidecars_status.go.  The objects are the
    [map[string]any] trees of unstructured Kubernetes objects; the accessors of
    the k8s.io/apimachinery package are an interface. *)

From S2P Require Import Prelude GoStrings Json Sha256 TektonTypes Run Matrix.

(** ** Unstructured objects *)

(** A Go [any] of a decoded object.  [VFloat m e] is the [float64] [m * 2^e]. *)
#[warnings="-register-all"]
Inductive value : Type :=
  | VNull
  | VBool (b : bool)
  | VInt (z : Z)
  | VFloat (m e : Z)
  | VString (s : string)
  | VSlice (l : list value)
  | VMap (m : gmap string value).

Abbreviation object := (gmap string value).

(** [s, _ := m[k].(string)] *)
Definition string_field (k : string) (m : object) : string :=
  match m !! k with Some (VString s) => s | _ => "" end.

(** [m, ok := v.(map[string]any)] *)
Definition as_map (v : value) : option object := match v with VMap m => Some m | _ => None end.

(** [unstructured.NestedSlice] and [NestedString] with their error dropped: the
    value found at a path.  [GetName] and [GetResourceVersion] are the metadata
    fields, "" when absent. *)
Class Unstructured := {
  NestedSlice : object -> list string -> option (list value);
  NestedString : object -> list string -> option string;
  GetName : object -> string;
  GetResourceVersion : object -> string;
}.

(** A concrete instance, to evaluate definitions on inputs. *)
Fixpoint nested (m : object) (path : list string) : option value :=
  match path with
  | [] => Some (VMap m)
  | [k] => m !! k
  | k :: path' => match m !! k with Some (VMap m') => nested m' path' | _ => None end
  end.

Definition nested_objects : Unstructured := {|
  NestedSlice m path := match nested m path with Some (VSlice l) => Some l | _ => None end;
  NestedString m path := match nested m path with Some (VString s) => Some s | _ => None end;
  GetName m := match nested m ["metadata"; "name"] with Some (VString s) => s | _ => "" end;
  GetResourceVersion m :=
    match nested m ["metadata"; "resourceVersion"] with Some (VString s) => s | _ => "" end
|}.

(** ** internal/backend/backend.go *)
Record RetryAttempt := mkRetryAttempt {
  ra_Attempt : Z;
  ra_Status : string;
  ra_Message : string;
}.

(** [Results] is [None] for the nil map. *)
Record TaskOutcomeOnCluster := mkTaskOutcomeOnCluster {
  toc_Status : string;
  toc_Message : string;
  toc_Results : option (gmap string string);
  toc_Attempts : Z;
  toc_RetryAttempts : list RetryAttempt;
  toc_Matrix : option MatrixInfo;
}.

(** [PipelineRunResult], without the clock readings; a nil [Results] is empty. *)
Record PipelineRunResult := mkPipelineRunResult {
  prr_Status : string;
  prr_Tasks : gmap string TaskOutcomeOnCluster;
  prr_Reason : string;
  prr_Message : string;
  prr_Results : gmap string result_value;
}.

Definition toc_set_Matrix (oc : TaskOutcomeOnCluster) (mi : option MatrixInfo) : TaskOutcomeOnCluster :=
  mkTaskOutcomeOnCluster (toc_Status oc) (toc_Message oc) (toc_Results oc) (toc_Attempts oc)
    (toc_RetryAttempts oc) mi.

(** ** Conditions *)

Definition mapTaskRunStatus (condStatus reason : string) : string :=
  if String.eqb condStatus "True" then "succeeded"
  else if bool_decide (reason ∈ ["TaskRunTimeout"; "PipelineRunTimeout"]) then "timeout"
  else "failed".

Definition mapPipelineRunStatus (condStatus reason : string) : string :=
  if String.eqb condStatus "True" then "succeeded"
  else if bool_decide (reason ∈ ["PipelineRunTimeout"; "TaskRunTimeout"]) then "timeout"
  else "failed".

(** [cm["type"] == "Succeeded"] *)
Definition is_succeeded (cm : object) : bool := String.eqb (string_field "type" cm) "Succeeded".

Definition succeeded_conditions (conds : list value) : list object :=
  List.filter is_succeeded (omap as_map conds).

Definition taskRunCancelledByPipelineTimeoutMsg : string :=
  "TaskRun cancelled as the PipelineRun it belongs to has timed out.".

Definition pipelineRunSkippedDueToTimeoutReasons : list string :=
  ["PipelineRun timeout has been reached";
   "PipelineRun Tasks timeout has been reached";
   "PipelineRun Finally timeout has been reached"].

Definition anyTaskTimedOut (tasks : gmap string TaskOutcomeOnCluster) : bool :=
  existsb (fun kv => String.eqb (toc_Status kv.2) "timeout") (map_to_list tasks).

(** [canonicalMatrixHash]: the sorted pairs as JSON, hashed. *)
Definition pair_json (kv : string * string) : string :=
  "{" +:+ quote "K" +:+ ":" +:+ quote kv.1 +:+ "," +:+ quote "V" +:+ ":" +:+ quote kv.2 +:+ "}".

Definition sorted_pairs (m : gmap string string) : list (string * string) :=
  map (fun k => (k, default "" (m !! k))) (sort_strings (map_to_list m).*1).

Definition matrix_json (m : gmap string string) : string :=
  "[" +:+ join "," (map pair_json (sorted_pairs m)) +:+ "]".

Definition canonicalMatrixHash (m : gmap string string) : string :=
  hex (Sum256 (bytes_of (matrix_json m))).

Definition filterToNames (m : gmap string string) (names : gset string) : gmap string string :=
  filter (fun kv => kv.1 ∈ names) m.

Definition int32 (z : Z) : Z := ((z + 2 ^ 31) mod 2 ^ 32 - 2 ^ 31)%Z.

(** A [float64] converted to an integer drops its fraction; out of range the
    language leaves the result open. *)
Definition float_to_int (m e : Z) : Z := if (0 <=? e)%Z then (m * 2 ^ e)%Z else Z.quot m (2 ^ (- e)).

Section Status.
Context {K : CoreV1} {U : Unstructured}.

Definition slice_at (m : object) (path : list string) : list value := default [] (NestedSlice m path).
Definition string_at (m : object) (path : list string) : string := default "" (NestedString m path).

Definition anySkippedDueToTimeout (pr : object) : bool :=
  existsb (fun sm => bool_decide (string_field "reason" sm ∈ pipelineRunSkippedDueToTimeoutReasons))
    (omap as_map (slice_at pr ["status"; "skippedTasks"])).

(** ** [taskRunToOutcome] *)

(** The status and message of the first Succeeded condition, else the defaults. *)
Definition condition_status (conds : list value) (status message : string) : string * string :=
  match succeeded_conditions conds with
  | cm :: _ => (mapTaskRunStatus (string_field "status" cm) (string_field "reason" cm), string_field "message" cm)
  | [] => (status, message)
  end.

Definition retry_attempt (i : nat) (r : value) : RetryAttempt :=
  let '(status, message) := condition_status (slice_at (default ∅ (as_map r)) ["conditions"]) "failed" "" in
  mkRetryAttempt (Z.of_nat i + 1) status message.

(** One entry of [status.results]; a non-string value reads as "". *)
Definition add_result (m : gmap string string) (r : value) : gmap string string :=
  let rm := default ∅ (as_map r) in
  let name := string_field "name" rm in
  if String.eqb name "" then m else <[name := string_field "value" rm]> m.

Definition taskRunToOutcome (tr : object) : TaskOutcomeOnCluster :=
  let '(status, message) := condition_status (slice_at tr ["status"; "conditions"]) "" "" in
  let statusMessage := string_at tr ["spec"; "statusMessage"] in
  let '(status, message) :=
    if String.eqb statusMessage taskRunCancelledByPipelineTimeoutMsg
    then ("timeout", if String.eqb message "" then statusMessage else message)
    else (status, message) in
  let status := if String.eqb status "" then "infrafailed" else status in
  let retries := slice_at tr ["status"; "retriesStatus"] in
  mkTaskOutcomeOnCluster status message
    (foldl add_result ∅ <$> NestedSlice tr ["status"; "results"])
    (Z.of_nat (length retries) + 1) (imap retry_attempt retries) None.

(** ** Matrix rows *)
Definition findMatrixParent (pl : Pipeline) (parent : string) : option PipelineTask :=
  List.find (fun pt => String.eqb (pt_Name pt) parent && match pt_Matrix pt with Some _ => true | None => false end)
    (all_tasks pl).

Definition matrixParamNamesFor (pt : PipelineTask) : gset string :=
  match pt_Matrix pt with
  | None => ∅
  | Some m =>
    list_to_set (map mp_Name (mx_Params m))
    ∪ list_to_set (flat_map (fun inc => map p_Name (mi_Params inc)) (mx_Include m))
  end.

Definition add_param (m : gmap string string) (p : value) : gmap string string :=
  match as_map p with
  | None => m
  | Some pm =>
    let name := string_field "name" pm in
    if String.eqb name "" then m
    else match pm !! "value" with Some (VString v) => <[name := v]> m | _ => m end
  end.

Definition extractTaskRunParams (tr : object) : gmap string string :=
  foldl add_param ∅ (slice_at tr ["spec"; "params"]).

(** The first row whose params have the given hash. *)
Fixpoint row_with_hash (target : string) (i : nat) (rows : list MatrixRow) : option (nat * MatrixRow) :=
  match rows with
  | [] => None
  | row :: rows' =>
    if String.eqb (canonicalMatrixHash (row_Params row)) target then Some (i, row)
    else row_with_hash target (S i) rows'
  end.

Definition row_info (parent : string) (rows : list MatrixRow) (ir : nat * MatrixRow) : MatrixInfo :=
  mkMatrixInfo parent (Z.of_nat ir.1) (Z.of_nat (length rows)) (row_Params ir.2) (row_IncludeName ir.2).

Definition fallback_event (tr : object) : Event :=
  mkEvent EvtError "" "" "" ""
    (Fmt "matrix index reconstruction fell back to childReferences ordering for TaskRun %q (param-hash matching produced no hit; please file an issue with your Tekton version)"
       [TStr (GetName tr)]) 0 ∅ "" "" "" None.

(** The row, the new [fallbackSeq] and the events; [sink] is [rep != nil]. *)
Definition matchMatrixRowFromTaskRun (pl : Pipeline) (parent : string) (tr : object)
    (fallbackSeq : gmap string nat) (sink : bool) : option MatrixInfo * gmap string nat * list Event :=
  match findMatrixParent pl parent with
  | None => (None, fallbackSeq, [])
  | Some pt =>
    let rows := MaterializeMatrixRows pt in
    match rows with
    | [] => (None, fallbackSeq, [])
    | _ =>
      let matrixOnly := filterToNames (extractTaskRunParams tr) (matrixParamNamesFor pt) in
      let hit := if bool_decide (matrixOnly = ∅) then None
                 else row_with_hash (canonicalMatrixHash matrixOnly) 0 rows in
      match hit with
      | Some ir => (Some (row_info parent rows ir), fallbackSeq, [])
      | None =>
        let idx := default 0 (fallbackSeq !! parent) in
        let fallbackSeq := <[parent := S idx]> fallbackSeq in
        match rows !! idx with
        | None => (None, fallbackSeq, [])
        | Some row => (Some (row_info parent rows (idx, row)), fallbackSeq,
                       if sink then [fallback_event tr] else [])
        end
      end
    end
  end.

(** ** [collectTaskOutcomesWithSink] *)

(** What the API server answers: the TaskRuns of the run, and the PipelineRun. *)
Record ClusterReads := mkClusterReads {
  rd_ListTaskRuns : option (list object);
  rd_GetPipelineRun : option object;
}.

Definition child_ref (m : gmap string nat) (ir : nat * value) : gmap string nat :=
  match as_map ir.2 with
  | None => m
  | Some rm => let name := string_field "name" rm in if String.eqb name "" then m else <[name := ir.1]> m
  end.

Definition childRefIdx (pr : option object) : gmap string nat :=
  match pr with
  | None => ∅
  | Some pr => foldl child_ref ∅ (imap pair (slice_at pr ["status"; "childReferences"]))
  end.

(** A TaskRun with its pipeline task and its position in [childReferences]. *)
Record scoredRun := mkscoredRun {
  sr_tr : object;
  sr_ptName : string;
  sr_childRef : option nat;
}.

Definition task_label (tr : object) : string := string_at tr ["metadata"; "labels"; "tekton.dev/pipelineTask"].

Definition score (refs : gmap string nat) (tr : object) : option scoredRun :=
  let ptName := task_label tr in
  if String.eqb ptName "" then None else Some (mkscoredRun tr ptName (refs !! GetName tr)).

(** [less(i, j)] of the stable sort. *)
Definition score_less (a b : scoredRun) : bool :=
  match sr_childRef a, sr_childRef b with
  | Some _, None => true
  | Some i, Some j => i <? j
  | None, _ => false
  end.

Definition outcome_key (ptName : string) (mi : MatrixInfo) : string :=
  if negb (String.eqb (inf_IncludeName mi) "") then inf_IncludeName mi
  else ptName +:+ "-" +:+ itoa (inf_Index mi).

Record collected := mkcollected {
  co_out : gmap string TaskOutcomeOnCluster;
  co_seq : gmap string nat;
  co_events : list Event;
}.

Definition collect_one (pl : Pipeline) (sink : bool) (st : collected) (sc : scoredRun) : collected :=
  let oc := taskRunToOutcome (sr_tr sc) in
  let '(mi, seq, evs) := matchMatrixRowFromTaskRun pl (sr_ptName sc) (sr_tr sc) (co_seq st) sink in
  match mi with
  | Some mi => mkcollected (<[outcome_key (sr_ptName sc) mi := toc_set_Matrix oc (Some mi)]> (co_out st)) seq
                 (co_events st ++ evs)
  | None => mkcollected (<[sr_ptName sc := oc]> (co_out st)) seq (co_events st ++ evs)
  end.

Definition collectTaskOutcomesWithSink (pl : Pipeline) (rd : ClusterReads) (sink : bool)
    : gmap string TaskOutcomeOnCluster * list Event :=
  match rd_ListTaskRuns rd with
  | None => (∅, [])
  | Some trs =>
    let scored := stable_sort score_less (omap (score (childRefIdx (rd_GetPipelineRun rd))) trs) in
    let st := foldl (collect_one pl sink) (mkcollected ∅ ∅ []) scored in
    (co_out st, co_events st)
  end.

(** ** [extractPipelineResults] *)
Definition strings_of (l : list value) : list string :=
  omap (fun v => match v with VString s => Some s | _ => None end) l.

Definition add_pipeline_result (m : gmap string result_value) (r : value) : gmap string result_value :=
  match as_map r with
  | None => m
  | Some rm =>
    let name := string_field "name" rm in
    if String.eqb name "" then m
    else match rm !! "value" with
         | Some (VString s) => <[name := RVString s]> m
         | Some (VSlice l) => <[name := RVArray (strings_of l)]> m
         | Some (VMap o) => <[name := RVObject (omap (fun v => match v with VString s => Some s | _ => None end) o)]> m
         | _ => m
         end
  end.

(** A nil map reads as the empty one. *)
Definition extractPipelineResults (pr : object) : gmap string result_value :=
  foldl add_pipeline_result ∅ (slice_at pr ["status"; "results"]).

(** ** [applyPipelineRunStatus] *)
Definition is_terminal (cm : object) : bool :=
  bool_decide (string_field "status" cm ∈ ["True"; "False"]).

(** [None] while the PipelineRun carries no terminal Succeeded condition. *)
Definition applyPipelineRunStatus (pl : Pipeline) (rd : ClusterReads) (sink : bool) (un : object)
    : option (PipelineRunResult * list Event) :=
  match List.find is_terminal (succeeded_conditions (slice_at un ["status"; "conditions"])) with
  | None => None
  | Some cm =>
    let reason := string_field "reason" cm in
    let status := mapPipelineRunStatus (string_field "status" cm) reason in
    let '(tasks, evs) := collectTaskOutcomesWithSink pl rd sink in
    let status := if String.eqb status "failed" && (anyTaskTimedOut tasks || anySkippedDueToTimeout un)
                  then "timeout" else status in
    Some (mkPipelineRunResult status tasks reason (string_field "message" cm) (extractPipelineResults un), evs)
  end.
End Status.
