(* ===== verification/ClusterProps.v ===== *)
(** * Properties of what the cluster backend reads back

    The rows reconstructed from the controller's TaskRuns are the engine's own
    expansion; statuses follow the documented table. *)

From S2P Require Import Prelude GoStrings Json Sha256 TektonTypes Run Matrix ClusterStatus.

(** ** The canonical encoding of a row is injective *)

Lemma str_app_inj_l (p s t : string) : p +:+ s = p +:+ t -> s = t.
Proof. induction p as [|a p IH]; [done|]. rewrite !str_app_cons. intros [= H]. by apply IH. Qed.

Lemma quote_inj s s' t t' :
  valid_utf8 s = true -> valid_utf8 s' = true -> quote s +:+ t = quote s' +:+ t' -> s = s' /\ t = t'.
Proof.
  intros Hs Hs'. unfold quote. rewrite !str_app_cons, <-!str_app_assoc, !str_app_cons, !str_app_nil_l.
  intros [= H]. apply (f_equal (unquote_go 0)) in H. rewrite !unquote_quote_go in H by done.
  by simplify_eq.
Qed.

Definition pair_utf8 (kv : string * string) : bool := valid_utf8 kv.1 && valid_utf8 kv.2.

Lemma pair_json_inj a b t t' :
  pair_utf8 a = true -> pair_utf8 b = true -> pair_json a +:+ t = pair_json b +:+ t' -> a = b /\ t = t'.
Proof.
  unfold pair_utf8, pair_json. rewrite !andb_true_iff. intros [Ha1 Ha2] [Hb1 Hb2].
  rewrite <-!str_app_assoc. intros H. do 3 apply str_app_inj_l in H.
  apply quote_inj in H as [Hk H]; [|done..]. do 3 apply str_app_inj_l in H.
  apply quote_inj in H as [Hv H]; [|done..]. apply str_app_inj_l in H.
  destruct a, b; simpl in *; by subst.
Qed.

Lemma pair_json_head kv t : exists u, pair_json kv +:+ t = String "{" u.
Proof. unfold pair_json. rewrite <-!str_app_assoc, str_app_cons. by eexists. Qed.

Lemma join_map_cons {A} (f : A -> string) x l t :
  join "," (map f (x :: l)) +:+ String "]" t =
  f x +:+ (match l with [] => String "]" t | _ => String "," (join "," (map f l) +:+ String "]" t) end).
Proof.
  destruct l as [|y l]; [done|]. change (map f (x :: y :: l)) with (f x :: map f (y :: l)).
  cbn [join map]. by rewrite <-!str_app_assoc, str_app_cons, str_app_nil_l.
Qed.

Lemma pairs_json_inj l l' :
  forallb pair_utf8 l = true -> forallb pair_utf8 l' = true ->
  join "," (map pair_json l) +:+ "]" = join "," (map pair_json l') +:+ "]" -> l = l'.
Proof.
  revert l'; induction l as [|x l IH]; intros [|y l'] Hl Hl'; [done|..].
  - rewrite join_map_cons. destruct (pair_json_head y (match l' with [] => "]" | _ => String "," (join "," (map pair_json l') +:+ "]") end)) as [u ->]. done.
  - rewrite join_map_cons. destruct (pair_json_head x (match l with [] => "]" | _ => String "," (join "," (map pair_json l) +:+ "]") end)) as [u ->]. done.
  - simpl in Hl, Hl'. apply andb_true_iff in Hl as [Hx Hl]. apply andb_true_iff in Hl' as [Hy Hl'].
    rewrite !join_map_cons. intros [-> H]%pair_json_inj; [|done..]. f_equal.
    destruct l as [|z l], l' as [|z' l']; [done|discriminate H|discriminate H|].
    injection H as H. by apply IH.
Qed.

Lemma elem_of_sorted_pairs m k v : (k, v) ∈ sorted_pairs m <-> m !! k = Some v.
Proof.
  unfold sorted_pairs. rewrite list_elem_of_fmap. split.
  - intros (k' & [= -> ->] & Hk). rewrite elem_of_sort_strings in Hk.
    apply list_elem_of_fmap in Hk as ([k'' v] & -> & Hin%elem_of_map_to_list). simpl. by rewrite Hin.
  - intros Hv. exists k. rewrite Hv. split; [done|]. rewrite elem_of_sort_strings, list_elem_of_fmap.
    exists (k, v). split; [done|]. by apply elem_of_map_to_list.
Qed.

Lemma sorted_pairs_inj m m' : sorted_pairs m = sorted_pairs m' -> m = m'.
Proof.
  intros H. apply map_eq. intros k. apply option_eq. intros v. by rewrite <-!elem_of_sorted_pairs, H.
Qed.

(** Every key and value is valid UTF-8, as decoded YAML and JSON strings are. *)
Definition map_utf8 (m : gmap string string) : bool := forallb pair_utf8 (sorted_pairs m).

Lemma matrix_json_inj m m' :
  map_utf8 m = true -> map_utf8 m' = true -> matrix_json m = matrix_json m' -> m = m'.
Proof.
  intros Hm Hm' H. apply sorted_pairs_inj, pairs_json_inj; [done|done|].
  by apply (str_app_inj_l "[").
Qed.

(** sha256 tells the encodings of [ms] apart. *)
Definition no_collision (ms : list (gmap string string)) : Prop :=
  forall m m', m ∈ ms -> m' ∈ ms ->
    hex (Sum256 (bytes_of (matrix_json m))) = hex (Sum256 (bytes_of (matrix_json m'))) ->
    matrix_json m = matrix_json m'.

Lemma canonicalMatrixHash_inj ms m m' :
  no_collision ms -> m ∈ ms -> m' ∈ ms -> map_utf8 m = true -> map_utf8 m' = true ->
  canonicalMatrixHash m = canonicalMatrixHash m' -> m = m'.
Proof. intros Hc Hm Hm' Hu Hu' H. apply matrix_json_inj; [done|done|]. by apply Hc. Qed.

Lemma canonicalMatrixHash_NoDup (l : list (gmap string string)) :
  no_collision l -> (forall m, m ∈ l -> map_utf8 m = true) ->
  NoDup l -> NoDup (map canonicalMatrixHash l).
Proof.
  intros Hc Hu Hnd. apply NoDup_fmap_2_strong; [|done].
  intros m m' Hm Hm'. apply (canonicalMatrixHash_inj l); auto.
Qed.

(** ** The row found by its hash *)
Lemma row_with_hash_first target i rows n row :
  rows !! n = Some row -> canonicalMatrixHash (row_Params row) = target ->
  (forall k r, k < n -> rows !! k = Some r -> canonicalMatrixHash (row_Params r) <> target) ->
  row_with_hash target i rows = Some (i + n, row).
Proof.
  revert i n; induction rows as [|r rows IH]; intros i n Hn Ht Hf; [done|]. cbn [row_with_hash].
  destruct n as [|n]; simpl in Hn.
  - injection Hn as ->. rewrite Ht, String.eqb_refl. by rewrite Nat.add_0_r.
  - destruct (String.eqb_spec (canonicalMatrixHash (row_Params r)) target) as [He|_].
    + by destruct (Hf 0 r ltac:(lia) eq_refl).
    + rewrite (IH (S i) n); [f_equal; f_equal; lia|done|done|]. intros k r' Hk Hr. apply (Hf (S k) r'); [lia|done].
Qed.

Lemma row_with_hash_Some target i rows j row :
  row_with_hash target i rows = Some (j, row) ->
  exists n, j = i + n /\ rows !! n = Some row /\ canonicalMatrixHash (row_Params row) = target /\
    forall k r, k < n -> rows !! k = Some r -> canonicalMatrixHash (row_Params r) <> target.
Proof.
  revert i; induction rows as [|r rows IH]; intros i; cbn [row_with_hash]; [done|].
  destruct (String.eqb_spec (canonicalMatrixHash (row_Params r)) target) as [He|Hne].
  - intros [= <- <-]. exists 0. split_and!; [lia|done|done|lia].
  - intros (n & -> & ? & ? & Hf)%IH. exists (S n). split_and!; [lia|done|done|].
    intros [|k] r' Hk Hr; [by injection Hr as <-|]. apply (Hf k); [lia|done].
Qed.

(** Assigning under distinct keys leaves exactly the assigned values. *)
Lemma foldl_insert_lookup {A V} (key : A -> string) (val : A -> V) (l : list A) (n : string) (v : V) :
  NoDup (map key l) ->
  foldl (fun (m : gmap string V) x => <[key x := val x]> m) ∅ l !! n = Some v <->
  exists x, x ∈ l /\ key x = n /\ val x = v.
Proof.
  induction l as [|x l IH] using rev_ind; intros Hnd.
  - simpl. rewrite lookup_empty. split; [done|]. by intros (x & ?%not_elem_of_nil & _).
  - rewrite map_app in Hnd. apply NoDup_app in Hnd as (Hnd & Hx & _).
    rewrite foldl_app. simpl. destruct (decide (key x = n)) as [<-|Hne].
    + rewrite lookup_insert_eq. split.
      * intros [= <-]. exists x. split; [set_solver|done].
      * intros (y & [Hy|Hy%list_elem_of_singleton]%elem_of_app & Hk & <-); [|by subst].
        destruct (Hx (key y)); [by apply list_elem_of_fmap_2|]. rewrite Hk. set_solver.
    + rewrite lookup_insert_ne, IH by done. split; intros (y & Hy & ? & ?); exists y; set_solver.
Qed.

Lemma row_with_hash_is_Some target i rows n row :
  rows !! n = Some row -> canonicalMatrixHash (row_Params row) = target ->
  is_Some (row_with_hash target i rows).
Proof.
  revert i n; induction rows as [|r rows IH]; intros i n Hn Ht; [done|]. cbn [row_with_hash].
  destruct (String.eqb_spec (canonicalMatrixHash (row_Params r)) target) as [He|Hne]; [done|].
  destruct n as [|n]; simpl in Hn; [by injection Hn as ->|]. by eapply IH.
Qed.

(** A decidable condition that gives [no_collision]. *)
Lemma no_collision_NoDup ms : NoDup (map canonicalMatrixHash ms) -> no_collision ms.
Proof.
  intros Hnd m m' [i Hi]%list_elem_of_lookup [j Hj]%list_elem_of_lookup Heq.
  assert (i = j) as <-; [|congruence].
  apply (NoDup_lookup _ i j (canonicalMatrixHash m) Hnd); rewrite list_lookup_fmap; [by rewrite Hi|].
  rewrite Hj. simpl. by f_equal.
Qed.

Lemma anyTaskTimedOut_spec tasks :
  anyTaskTimedOut tasks = true <-> exists n oc, tasks !! n = Some oc /\ toc_Status oc = "timeout".
Proof.
  unfold anyTaskTimedOut. rewrite existsb_exists. split.
  - intros ([n oc] & Hin%list_elem_of_In%elem_of_map_to_list & Hs%String.eqb_eq). eauto.
  - intros (n & oc & Hn & Hs). exists (n, oc). split; [by apply list_elem_of_In, elem_of_map_to_list|].
    by apply String.eqb_eq.
Qed.

Section Rows.
Context {K : CoreV1} {U : Unstructured}.

Lemma anySkippedDueToTimeout_spec un :
  anySkippedDueToTimeout un = true <->
  exists sm, VMap sm ∈ slice_at un ["status"; "skippedTasks"] /\
    string_field "reason" sm ∈ pipelineRunSkippedDueToTimeoutReasons.
Proof.
  unfold anySkippedDueToTimeout. rewrite existsb_exists. split.
  - intros (sm & Hin%list_elem_of_In & Hr%bool_decide_eq_true_1).
    apply list_elem_of_omap in Hin as (v & Hv & Hm). exists sm. split; [|done].
    destruct v; simpl in Hm; by simplify_eq.
  - intros (sm & Hin & Hr). exists sm. split; [|by apply bool_decide_eq_true_2].
    apply list_elem_of_In, list_elem_of_omap. by exists (VMap sm).
Qed.

(** ** One TaskRun *)

Lemma matchMatrixRow_hit pl parent pt tr seq sink i row :
  findMatrixParent pl parent = Some pt -> MaterializeMatrixRows pt !! i = Some row ->
  NoDup (map (fun r => canonicalMatrixHash (row_Params r)) (MaterializeMatrixRows pt)) ->
  filterToNames (extractTaskRunParams tr) (matrixParamNamesFor pt) = row_Params row -> row_Params row <> ∅ ->
  matchMatrixRowFromTaskRun pl parent tr seq sink =
    (Some (row_info parent (MaterializeMatrixRows pt) (i, row)), seq, []).
Proof.
  intros Hp Hi Hnd Hf He. unfold matchMatrixRowFromTaskRun. rewrite Hp, Hf.
  rewrite bool_decide_eq_false_2 by done.
  rewrite (row_with_hash_first _ 0 _ i row Hi eq_refl); [by destruct (MaterializeMatrixRows pt)|].
  intros k r Hk Hr Heq. assert (k = i); [|lia].
  apply (NoDup_lookup _ k i (canonicalMatrixHash (row_Params row)) Hnd); rewrite list_lookup_fmap.
  - rewrite Hr. simpl. by rewrite Heq.
  - by rewrite Hi.
Qed.

(** What matchMatrixRowFromTaskRun says when the sequence is not consulted. *)
Definition run_matrix pl (sc : scoredRun) : option MatrixInfo :=
  (matchMatrixRowFromTaskRun pl (sr_ptName sc) (sr_tr sc) ∅ false).1.1.

Definition run_key pl (sc : scoredRun) : string :=
  match run_matrix pl sc with Some mi => outcome_key (sr_ptName sc) mi | None => sr_ptName sc end.

Definition run_value pl (sc : scoredRun) : TaskOutcomeOnCluster :=
  toc_set_Matrix (taskRunToOutcome (sr_tr sc)) (run_matrix pl sc).

(** The TaskRun is recognised by its params alone. *)
Definition recognised pl (sc : scoredRun) : Prop :=
  forall seq sink, matchMatrixRowFromTaskRun pl (sr_ptName sc) (sr_tr sc) seq sink = (run_matrix pl sc, seq, []).

Lemma taskRunToOutcome_Matrix tr : toc_set_Matrix (taskRunToOutcome tr) None = taskRunToOutcome tr.
Proof. unfold taskRunToOutcome. by repeat case_match. Qed.

Lemma collect_recognised pl sink st l :
  (forall sc, sc ∈ l -> recognised pl sc) ->
  foldl (collect_one pl sink) st l =
  mkcollected (foldl (fun (m : gmap string TaskOutcomeOnCluster) sc => <[run_key pl sc := run_value pl sc]> m) (co_out st) l)
    (co_seq st) (co_events st).
Proof.
  revert st; induction l as [|sc l IH]; intros st Hl; [by destruct st|].
  assert (collect_one pl sink st sc =
    mkcollected (<[run_key pl sc := run_value pl sc]> (co_out st)) (co_seq st) (co_events st)) as E.
  { unfold collect_one, run_key, run_value. rewrite (Hl sc ltac:(set_solver) (co_seq st) sink).
    destruct (run_matrix pl sc); simpl; rewrite app_nil_r; [done|]. by rewrite taskRunToOutcome_Matrix. }
  cbn [foldl]. rewrite E, IH by set_solver. done.
Qed.

(** ** The expanded pipeline *)

(** A TaskRun the controller creates for the task [c] of the expanded pipeline:
    labelled with the task as written, carrying the row's params. *)
Definition created_for pl (c : PipelineTask) (tr : object) : Prop :=
  match pt_MatrixInfo c with
  | None => task_label tr = pt_Name c
  | Some mi =>
    task_label tr = inf_Parent mi /\
    forall pt, findMatrixParent pl (inf_Parent mi) = Some pt ->
      filterToNames (extractTaskRunParams tr) (matrixParamNamesFor pt) = inf_Params mi
  end.

(** The rows of a matrix tell TaskRuns apart. *)
Definition rows_distinct (pt : PipelineTask) : Prop :=
  let ps := map row_Params (MaterializeMatrixRows pt) in
  NoDup ps /\ ∅ ∉ ps /\ (forall m, m ∈ ps -> map_utf8 m = true) /\ no_collision ps.

Lemma findMatrixParent_unique pl pt :
  NoDup (map pt_Name (all_tasks pl)) -> pt ∈ all_tasks pl ->
  findMatrixParent pl (pt_Name pt) = match pt_Matrix pt with Some _ => Some pt | None => None end.
Proof.
  unfold findMatrixParent. generalize (all_tasks pl) as l.
  induction l as [|x l IH]; intros Hnd Ht; [by apply not_elem_of_nil in Ht|].
  apply NoDup_cons in Hnd as [Hx Hnd]. simpl. apply elem_of_cons in Ht as [->|Ht].
  - rewrite String.eqb_refl. destruct (pt_Matrix x); [done|]. simpl.
    destruct (List.find _ l) as [y|] eqn:E; [|done]. apply List.find_some in E as [Hy E].
    apply andb_true_iff in E as [E%String.eqb_eq _]. destruct Hx. rewrite <-E.
    apply list_elem_of_fmap_2. by apply list_elem_of_In.
  - destruct (String.eqb_spec (pt_Name x) (pt_Name pt)) as [Heq|]; [|by apply IH].
    destruct Hx. rewrite Heq. by apply list_elem_of_fmap_2.
Qed.

Lemma created_recognised pl pl' c tr r :
  NoDup (map pt_Name (all_tasks pl)) ->
  (forall pt, pt ∈ all_tasks pl -> pt_MatrixInfo pt = None /\ rows_distinct pt) ->
  expandMatrix pl = Ok pl' -> c ∈ all_tasks pl' -> created_for pl c tr ->
  let sc := mkscoredRun tr (task_label tr) r in
  recognised pl sc /\ run_matrix pl sc = pt_MatrixInfo c /\ run_key pl sc = pt_Name c /\
  task_label tr ∈ map pt_Name (all_tasks pl).
Proof.
  intros Hnd Hpl He Hc Hfor sc.
  assert ((pt_Name c, pt_MatrixInfo c) ∈ map (fun c => (pt_Name c, pt_MatrixInfo c)) (all_tasks pl'))
    as Hin by (by apply (list_elem_of_fmap_2 (fun c => (pt_Name c, pt_MatrixInfo c)))).
  rewrite (expandMatrix_tasks pl pl' Hnd He) in Hin.
  apply list_elem_of_fmap in Hin as (c0 & [= Hn Hm] & (pt & Hpt & Hc0)%list_elem_of_In%in_flat_map).
  apply list_elem_of_In in Hpt, Hc0. pose proof (findMatrixParent_unique pl pt Hnd Hpt) as Hfind.
  destruct (Hpl pt Hpt) as [Hnone Hrows]. unfold expanded in Hc0. destruct (pt_Matrix pt) as [m|] eqn:Hmx.
  - destruct (expandMatrix_rows pl pl' pt m He Hpt Hmx) as [rows Hr]. rewrite Hr in Hc0.
    apply list_elem_of_lookup in Hc0 as [i Hi]. unfold expansion_children in Hi.
    rewrite list_lookup_imap in Hi. destruct (rows !! i) as [row|] eqn:Hrow; [|done].
    injection Hi as <-. simpl in Hn, Hm. unfold created_for in Hfor. rewrite Hm in Hfor. simpl in Hfor.
    destruct Hfor as [Hlabel Hps]. specialize (Hps pt Hfind).
    pose proof (MaterializeMatrixRows_rows pt m rows Hmx Hr) as Hmat.
    set (crow := mkMatrixRow (rowParamMap (mr_params row)) (mr_includeName row)).
    assert (MaterializeMatrixRows pt !! i = Some crow) as Hcrow.
    { rewrite Hmat, list_lookup_fmap, Hrow. done. }
    destruct Hrows as (Hd & Hemp & Hu & Hcol).
    assert (forall seq sink, matchMatrixRowFromTaskRun pl (sr_ptName sc) tr seq sink =
      (pt_MatrixInfo c, seq, [])) as Hhit.
    { intros seq sink. subst sc. simpl. rewrite Hlabel.
      rewrite (matchMatrixRow_hit pl (pt_Name pt) pt tr seq sink i crow); [| |done| | |].
      - rewrite Hm. unfold row_info. simpl. rewrite Hmat, length_map. done.
      - done.
      - rewrite <-(map_map row_Params canonicalMatrixHash). by apply canonicalMatrixHash_NoDup.
      - done.
      - intros H0. apply Hemp. rewrite <-H0. apply list_elem_of_fmap_2. by eapply list_elem_of_lookup_2. }
    assert (run_matrix pl sc = pt_MatrixInfo c) as Hrm by (unfold run_matrix; simpl; by rewrite Hhit).
    split_and!; [|done| |rewrite Hlabel; by apply list_elem_of_fmap_2].
    + intros seq sink. by rewrite Hrm, Hhit.
    + unfold run_key. rewrite Hrm, Hm, Hn. subst sc. simpl. by rewrite Hlabel.
  - apply list_elem_of_singleton in Hc0 as ->. rewrite Hnone in Hm. unfold created_for in Hfor. rewrite Hm in Hfor.
    assert (forall seq sink, matchMatrixRowFromTaskRun pl (sr_ptName sc) tr seq sink = (None, seq, [])) as Hhit.
    { intros seq sink. unfold matchMatrixRowFromTaskRun. subst sc. simpl. by rewrite Hfor, Hn, Hfind. }
    assert (run_matrix pl sc = None) as Hrm by (unfold run_matrix; simpl; by rewrite Hhit).
    split_and!; [|by rewrite Hm| |rewrite Hfor, Hn; by apply list_elem_of_fmap_2].
    + intros seq sink. by rewrite Hrm, Hhit.
    + unfold run_key. rewrite Hrm. done.
Qed.

Lemma score_all refs trs :
  (forall tr, tr ∈ trs -> task_label tr <> "") ->
  omap (score refs) trs = map (fun tr => mkscoredRun tr (task_label tr) (refs !! GetName tr)) trs.
Proof.
  induction trs as [|tr l IH]; intros Hl; [done|].
  change (omap (score refs) (tr :: l)) with
    (match score refs tr with Some y => y :: omap (score refs) l | None => omap (score refs) l end).
  rewrite IH by set_solver. unfold score at 1.
  destruct (String.eqb_spec (task_label tr) "") as [Heq|]; [|done]. by destruct (Hl tr ltac:(set_solver)).
Qed.

(** ** Properties *)

(** C16: when the controller has run the pipeline, i.e. its TaskRuns are those of
    the tasks of the expanded pipeline, in any order and with any
    [childReferences], the outcomes read back are keyed by exactly the names the
    docker engine gives its expansions, each with the [MatrixInfo] that the
    engine's expansion carries, and no fallback warning is emitted; provided the
    rows of each matrix differ and sha256 tells their encodings apart. *)
Theorem collect_matches_engine pl pl' cs trs rd sink
    (Hnd : NoDup (map pt_Name (all_tasks pl)))
    (Hpl : forall pt, pt ∈ all_tasks pl -> pt_MatrixInfo pt = None /\ rows_distinct pt)
    (Hne : "" ∉ map pt_Name (all_tasks pl))
    (He : expandMatrix pl = Ok pl') (Hnd' : NoDup (map pt_Name (all_tasks pl')))
    (Hcs : cs ≡ₚ all_tasks pl') (Hfor : Forall2 (created_for pl) cs trs)
    (Hlist : rd_ListTaskRuns rd = Some trs) :
  let '(out, evs) := collectTaskOutcomesWithSink pl rd sink in
  evs = [] /\
  (forall i c tr, cs !! i = Some c -> trs !! i = Some tr ->
    out !! pt_Name c = Some (toc_set_Matrix (taskRunToOutcome tr) (pt_MatrixInfo c))) /\
  (forall n, is_Some (out !! n) <-> n ∈ map pt_Name (all_tasks pl')).
Proof.
  unfold collectTaskOutcomesWithSink. rewrite Hlist.
  set (refs := childRefIdx (rd_GetPipelineRun rd)).
  set (scs := map (fun tr => mkscoredRun tr (task_label tr) (refs !! GetName tr)) trs).
  assert (forall i c tr, cs !! i = Some c -> trs !! i = Some tr ->
    let sc := mkscoredRun tr (task_label tr) (refs !! GetName tr) in
    recognised pl sc /\ run_matrix pl sc = pt_MatrixInfo c /\ run_key pl sc = pt_Name c /\
    task_label tr ∈ map pt_Name (all_tasks pl)) as Hrec.
  { intros i c tr Hc Htr. eapply created_recognised; [done|done|done| |].
    - rewrite <-Hcs. by eapply list_elem_of_lookup_2.
    - by eapply Forall2_lookup_lr. }
  assert (forall tr, tr ∈ trs -> exists i c, cs !! i = Some c /\ trs !! i = Some tr) as Hback.
  { intros tr [i Hi]%list_elem_of_lookup. destruct (Forall2_lookup_r _ _ _ _ _ Hfor Hi) as (c & Hc & _). eauto. }
  assert (omap (score refs) trs = scs) as ->.
  { apply score_all. intros tr (i & c & Hc & Htr)%Hback Heq. apply Hne. rewrite <-Heq. by eapply Hrec. }
  assert (map (run_key pl) scs = map pt_Name cs) as Hkeys.
  { apply list_eq. intros i. subst scs. rewrite !list_lookup_fmap.
    destruct (trs !! i) as [tr|] eqn:Htr.
    - destruct (Forall2_lookup_r _ _ _ _ _ Hfor Htr) as (c & Hc & _). rewrite Hc. simpl. f_equal. by eapply Hrec.
    - apply lookup_ge_None in Htr. rewrite <-(Forall2_length _ _ _ Hfor) in Htr.
      by apply lookup_ge_None in Htr as ->. }
  set (l := stable_sort score_less scs).
  assert (l ≡ₚ scs) as Hperm by apply stable_sort_perm.
  assert (NoDup (map (run_key pl) l)) as Hndk by (rewrite Hperm, Hkeys, Hcs; done).
  rewrite collect_recognised.
  2:{ intros sc. rewrite Hperm. subst scs. intros (tr & -> & Htr)%list_elem_of_fmap.
      apply Hback in Htr as (i & c & Hc & Htr). by eapply Hrec. }
  cbn [co_out co_events]. split; [done|].
  assert (forall n v, foldl (fun (m : gmap string TaskOutcomeOnCluster) sc => <[run_key pl sc := run_value pl sc]> m) ∅ l !! n
     = Some v <-> exists sc, sc ∈ l /\ run_key pl sc = n /\ run_value pl sc = v) as Hlook.
  { intros n v. by apply foldl_insert_lookup. }
  split.
  - intros i c tr Hc Htr. apply Hlook. destruct (Hrec i c tr Hc Htr) as (_ & Hm & Hk & _).
    exists (mkscoredRun tr (task_label tr) (refs !! GetName tr)). split_and!; [|done|].
    + rewrite Hperm. subst scs. apply list_elem_of_fmap. exists tr. split; [done|]. by eapply list_elem_of_lookup_2.
    + unfold run_value. by rewrite Hm.
  - intros n. rewrite <-Hcs, <-Hkeys, <-Hperm. split.
    + intros [v (sc & Hsc & <- & _)%Hlook]. by apply list_elem_of_fmap_2.
    + intros (sc & -> & Hsc)%list_elem_of_fmap. exists (run_value pl sc). apply Hlook. eauto.
Qed.

(** a TaskRun of a row whose params equal an earlier row's is taken for the
    earlier row: its own index is never reported, so one of the two outcomes is
    overwritten. *)
Theorem duplicate_rows_alias pl parent pt tr seq sink i j ri rj
    (Hp : findMatrixParent pl parent = Some pt)
    (Hi : MaterializeMatrixRows pt !! i = Some ri) (Hj : MaterializeMatrixRows pt !! j = Some rj)
    (Hij : i < j) (Hsame : row_Params ri = row_Params rj)
    (Hf : filterToNames (extractTaskRunParams tr) (matrixParamNamesFor pt) = row_Params rj)
    (He : row_Params rj <> ∅) :
  exists k rk, k <= i /\
    matchMatrixRowFromTaskRun pl parent tr seq sink =
      (Some (row_info parent (MaterializeMatrixRows pt) (k, rk)), seq, []).
Proof.
  unfold matchMatrixRowFromTaskRun. rewrite Hp, Hf, bool_decide_eq_false_2 by done.
  destruct (row_with_hash (canonicalMatrixHash (row_Params rj)) 0 (MaterializeMatrixRows pt)) as [[k rk]|] eqn:E.
  - exists k, rk. split; [|by destruct (MaterializeMatrixRows pt)].
    apply row_with_hash_Some in E as (n & -> & _ & _ & Hfirst).
    destruct (decide (i < n)) as [Hlt|]; [|lia]. destruct (Hfirst i ri Hlt Hi). by rewrite Hsame.
  - exfalso. revert E. apply not_eq_None_Some. apply (row_with_hash_is_Some _ _ _ j rj Hj eq_refl).
Qed.

(** the status of a PipelineRun.  Nothing is reported before a Succeeded
    condition is True or False; then the status is "succeeded" exactly when that
    condition is True, "timeout" exactly when it is False and the reason, a task's
    outcome or a skipped task's reason says that a budget ran out, and "failed"
    otherwise. *)
Theorem applyPipelineRunStatus_correct pl rd sink un :
  let conds := succeeded_conditions (slice_at un ["status"; "conditions"]) in
  match applyPipelineRunStatus pl rd sink un with
  | None => forall cm, cm ∈ conds -> string_field "status" cm ∉ ["True"; "False"]
  | Some (r, evs) =>
    exists cm, cm ∈ conds /\ prr_Reason r = string_field "reason" cm /\
      prr_Message r = string_field "message" cm /\
      (prr_Tasks r, evs) = collectTaskOutcomesWithSink pl rd sink /\
      prr_Results r = extractPipelineResults un /\
      ((prr_Status r = "succeeded" /\ string_field "status" cm = "True") \/
       (string_field "status" cm = "False" /\
        let timed_out := string_field "reason" cm ∈ ["PipelineRunTimeout"; "TaskRunTimeout"] \/
          (exists n oc, prr_Tasks r !! n = Some oc /\ toc_Status oc = "timeout") \/
          (exists sm, VMap sm ∈ slice_at un ["status"; "skippedTasks"] /\
             string_field "reason" sm ∈ pipelineRunSkippedDueToTimeoutReasons) in
        (prr_Status r = "timeout" /\ timed_out) \/ (prr_Status r = "failed" /\ ~ timed_out)))
  end.
Proof.
  intros conds. unfold applyPipelineRunStatus. fold conds.
  destruct (List.find is_terminal conds) as [cm|] eqn:E.
  - apply List.find_some in E as [Hcm%list_elem_of_In Ht%bool_decide_eq_true_1].
    destruct (collectTaskOutcomesWithSink pl rd sink) as [tasks evs]. exists cm. simpl. split_and!; [done..|].
    apply elem_of_cons in Ht as [->|Ht%list_elem_of_singleton]; [by left|]. right. split; [done|]. rewrite Ht.
    unfold mapPipelineRunStatus. simpl. rewrite <-anyTaskTimedOut_spec, <-anySkippedDueToTimeout_spec.
    case_bool_decide as Hr; [left; split; [done|by left]|]. simpl.
    destruct (anyTaskTimedOut tasks), (anySkippedDueToTimeout un); simpl; [left; auto..|right].
    split; [done|]. by intros [?|[?|?]].
  - intros cm Hcm Hs. apply list_elem_of_In in Hcm. pose proof (List.find_none _ _ E cm Hcm) as Hn.
    unfold is_terminal in Hn. by apply bool_decide_eq_false_1 in Hn.
Qed.
End Rows.

(** ** Witnesses *)
Section Witnesses.
#[local] Existing Instance core_unit.
#[local] Existing Instance nested_objects.

Definition ex_obj (l : list (string * value)) : value := VMap (list_to_map l).

(** A finished TaskRun of the pipeline task [label] with the given params. *)
Definition ex_task_run (name label : string) (params : list (string * string)) : object :=
  list_to_map
    [("metadata", ex_obj [("name", VString name); ("labels", ex_obj [("tekton.dev/pipelineTask", VString label)])]);
     ("spec", ex_obj [("params", VSlice (map (fun nv => ex_obj [("name", VString nv.1); ("value", VString nv.2)]) params))]);
     ("status", ex_obj [("conditions", VSlice [ex_obj [("type", VString "Succeeded"); ("status", VString "True")]])])].

Definition ex_run_for (c : PipelineTask) : object :=
  match pt_MatrixInfo c with
  | Some mi => ex_task_run (pt_Name c) (inf_Parent mi) (map_to_list (inf_Params mi))
  | None => ex_task_run (pt_Name c) (pt_Name c) [("os", "any")]
  end.

Definition ex_expanded : Pipeline := match expandMatrix ex_pl with Ok pl' => pl' | Err _ => ex_pl end.

(** [created_for], decided. *)
Definition created_forb (pl : Pipeline) (c : PipelineTask) (tr : object) : bool :=
  match pt_MatrixInfo c with
  | None => String.eqb (task_label tr) (pt_Name c)
  | Some mi =>
    String.eqb (task_label tr) (inf_Parent mi) &&
    match findMatrixParent pl (inf_Parent mi) with
    | Some pt => bool_decide (filterToNames (extractTaskRunParams tr) (matrixParamNamesFor pt) = inf_Params mi)
    | None => true
    end
  end.

Lemma created_forb_spec pl c tr : created_forb pl c tr = true -> created_for pl c tr.
Proof.
  unfold created_forb, created_for. destruct (pt_MatrixInfo c); [|apply String.eqb_eq].
  intros [H1%String.eqb_eq H2]%andb_true_iff. split; [done|]. intros pt Hp. rewrite Hp in H2.
  by apply bool_decide_eq_true_1 in H2.
Qed.

Lemma Forall2_map_r {A B} (P : A -> B -> Prop) (p : A -> B -> bool) (f : A -> B) l :
  (forall x y, p x y = true -> P x y) -> forallb (fun x => p x (f x)) l = true -> Forall2 P l (map f l).
Proof.
  intros Hp. induction l as [|x l IH]; simpl; [constructor|]. intros [? ?]%andb_true_iff. constructor; auto.
Qed.

Definition rows_distinctb (pt : PipelineTask) : bool :=
  let ps := map row_Params (MaterializeMatrixRows pt) in
  bool_decide (NoDup ps) && bool_decide (∅ ∉ ps) && forallb map_utf8 ps
  && bool_decide (NoDup (map canonicalMatrixHash ps)).

Lemma rows_distinctb_spec pt : rows_distinctb pt = true -> rows_distinct pt.
Proof.
  unfold rows_distinctb, rows_distinct. rewrite !andb_true_iff, !bool_decide_eq_true.
  intros (((H1 & H2) & H3) & H4). split_and!; [done|done| |by apply no_collision_NoDup].
  intros m Hm%list_elem_of_In. rewrite forallb_forall in H3. by apply H3.
Qed.

(** The reversed list of TaskRuns, no [childReferences]. *)
Definition ex_reads : ClusterReads := mkClusterReads (Some (map ex_run_for (rev (all_tasks ex_expanded)))) None.

Lemma collect_matches_engine_witness :
  let '(out, evs) := collectTaskOutcomesWithSink ex_pl ex_reads true in
  evs = [] /\
  (forall i c tr, rev (all_tasks ex_expanded) !! i = Some c ->
    map ex_run_for (rev (all_tasks ex_expanded)) !! i = Some tr ->
    out !! pt_Name c = Some (toc_set_Matrix (taskRunToOutcome tr) (pt_MatrixInfo c))) /\
  (forall n, is_Some (out !! n) <-> n ∈ map pt_Name (all_tasks ex_expanded)).
Proof.
  apply (collect_matches_engine ex_pl ex_expanded (rev (all_tasks ex_expanded))
           (map ex_run_for (rev (all_tasks ex_expanded))) ex_reads true).
  - apply (bool_decide_eq_true_1 (NoDup _)). vm_compute. reflexivity.
  - assert (forallb (fun pt => bool_decide (pt_MatrixInfo pt = None) && rows_distinctb pt) (all_tasks ex_pl) = true) as H
      by (vm_compute; reflexivity).
    rewrite forallb_forall in H. intros pt Hpt%list_elem_of_In%H. apply andb_true_iff in Hpt as [H1 H2].
    split; [by destruct (pt_MatrixInfo pt)|by apply rows_distinctb_spec].
  - apply (bool_decide_eq_true_1 ("" ∉ _)). vm_compute. reflexivity.
  - vm_compute. reflexivity.
  - apply (bool_decide_eq_true_1 (NoDup _)). vm_compute. reflexivity.
  - symmetry. apply Permutation_rev.
  - apply (Forall2_map_r _ (created_forb ex_pl)); [apply created_forb_spec|]. vm_compute. reflexivity.
  - reflexivity.
Defined.

(** A matrix that lists the same value twice: the second row's TaskRun is read as
    the first row's, and one outcome is left of two. *)
Definition ex_twice : PipelineTask :=
  mkPipelineTask "p" "" None (Some zero_TaskSpec) [] [] [] [] 0 ""
    (Some (mkMatrix [mkMatrixParam "v" ["a"; "a"]] [])) None.

Definition ex_twice_pl : Pipeline :=
  mkPipeline (mkObject "" "" (mkMetadata "p" "" ∅ ∅)) (mkPipelineSpec "" "" [] [] [ex_twice] [] [] None).

Definition ex_twice_run (name : string) : object := ex_task_run name "p" [("v", "a")].

Lemma duplicate_rows_alias_witness :
  (exists k rk, k <= 0 /\
    matchMatrixRowFromTaskRun ex_twice_pl "p" (ex_twice_run "p-2nd") ∅ true =
      (Some (row_info "p" (MaterializeMatrixRows ex_twice) (k, rk)), ∅, [])) /\
  (map_to_list (collectTaskOutcomesWithSink ex_twice_pl
     (mkClusterReads (Some [ex_twice_run "p-1st"; ex_twice_run "p-2nd"]) None) true).1).*1 = ["p-0"].
Proof.
  split; [|vm_compute; reflexivity].
  eapply (duplicate_rows_alias ex_twice_pl "p" ex_twice (ex_twice_run "p-2nd") ∅ true 0 1);
    [reflexivity|reflexivity|reflexivity|lia|reflexivity|vm_compute; reflexivity|].
  intros H. apply (f_equal (fun m : gmap string string => m !! "v")) in H. vm_compute in H. discriminate H.
Defined.
End Witnesses.
