(* ===== verification/ClusterWatch.v ===== *)
(** * internal/backend/cluster: watching a run

    watch.go's [watchLoop] and TaskRun tracker, sidecars_status.go and run.go's
    sidecar transitions, and [RunPipeline] from the namespace to the terminal
    status.  The API server is data: what each call answers, and for a watch the
    events it delivers until it closes. *)

From S2P Require Import Prelude GoStrings TektonTypes Run ClusterStatus.

(** ** sidecars_status.go *)
Record SidecarStatus := mkSidecarStatus {
  scs_Name : string;
  scs_Container : string;
  scs_Running : bool;
  scs_Terminated : bool;
  scs_ExitCode : Z;
}.

Definition exit_code (t : object) : Z :=
  match t !! "exitCode" with
  | Some (VInt z) => int32 z
  | Some (VFloat m e) => int32 (float_to_int m e)
  | _ => 0%Z
  end.

Definition sidecar_status (m : object) : SidecarStatus :=
  mkSidecarStatus (string_field "name" m) (string_field "container" m)
    (match m !! "running" with Some (VMap _) => true | _ => false end)
    (match m !! "terminated" with Some (VMap _) => true | _ => false end)
    (match m !! "terminated" with Some (VMap t) => exit_code t | _ => 0%Z end).

(** ** run.go: [emitSidecarTransitions] *)
Record sidecarSeenState := mksidecarSeenState {
  startedEmitted : bool;
  terminatedEmitted : bool;
}.

Definition sidecar_unseen : sidecarSeenState := mksidecarSeenState false false.

(** A call of the emitter; [sce_TaskRun] is the TaskRun it was made for. *)
Inductive sidecar_call :=
  | EmitSidecarStart (taskName sidecarName : string)
  | EmitSidecarEnd (taskName sidecarName : string) (exitCode : Z) (status message : string).

Record sidecar_emit := mksidecar_emit {
  sce_TaskRun : string;
  sce_call : sidecar_call;
}.

Abbreviation seen_map := (gmap string (gmap string sidecarSeenState)).

Section Sidecars.
Context {U : Unstructured}.

Definition parsePodSidecarStatuses (tr : object) : list SidecarStatus :=
  map sidecar_status (omap as_map (slice_at tr ["status"; "sidecars"])).

Definition seen_state (seen : seen_map) (trName name : string) : sidecarSeenState :=
  default sidecar_unseen (m ← seen !! trName; m !! name).

Definition set_seen (seen : seen_map) (trName name : string) (st : sidecarSeenState) : seen_map :=
  <[trName := <[name := st]> (default ∅ (seen !! trName))]> seen.

Definition sidecar_calls (taskName : string) (s : SidecarStatus) (st : sidecarSeenState) : list sidecar_call :=
  (if scs_Running s && negb (startedEmitted st) then [EmitSidecarStart taskName (scs_Name s)] else [])
  ++ (if scs_Terminated s && negb (terminatedEmitted st)
      then if (scs_ExitCode s =? 0)%Z
           then [EmitSidecarEnd taskName (scs_Name s) (scs_ExitCode s) "succeeded" ""]
           else [EmitSidecarEnd taskName (scs_Name s) (scs_ExitCode s) "failed" "exited non-zero"]
      else []).

Definition sidecar_seen (s : SidecarStatus) (st : sidecarSeenState) : sidecarSeenState :=
  mksidecarSeenState (startedEmitted st || scs_Running s) (terminatedEmitted st || scs_Terminated s).

Definition sidecar_step (taskName trName : string) (acc : seen_map * list sidecar_emit) (s : SidecarStatus)
    : seen_map * list sidecar_emit :=
  let st := seen_state acc.1 trName (scs_Name s) in
  (set_seen acc.1 trName (scs_Name s) (sidecar_seen s st),
   acc.2 ++ map (mksidecar_emit trName) (sidecar_calls taskName s st)).

(** [emitter]: the LogSink implements sidecarEventEmitter. *)
Definition emitSidecarTransitions (emitter : bool) (taskName trName : string) (tr : object) (seen : seen_map)
    : seen_map * list sidecar_emit :=
  if negb emitter then (seen, [])
  else foldl (sidecar_step taskName trName) (seen, []) (parsePodSidecarStatuses tr).

(** ** watch.go: [taskRunLogTracker] *)
Record tracker := mktracker {
  tk_streamed : gset string;
  tk_taskRunsSeen : gset string;
  tk_sidecarSeen : seen_map;
  tk_emitted : list sidecar_emit;
  tk_attached : list (string * string);   (* the pods streamed, with their task *)
}.

Definition newTaskRunLogTracker : tracker := mktracker ∅ ∅ ∅ [] [].

Definition observe (emitter : bool) (t : tracker) (un : object) : tracker :=
  let taskName := task_label un in
  let trName := GetName un in
  let '(seen, calls) := emitSidecarTransitions emitter taskName trName un (tk_sidecarSeen t) in
  let podName := string_at un ["status"; "podName"] in
  let skip := String.eqb podName "" || bool_decide (podName ∈ tk_streamed t) in
  mktracker (if skip then tk_streamed t else {[podName]} ∪ tk_streamed t)
    ({[trName]} ∪ tk_taskRunsSeen t) seen (tk_emitted t ++ calls)
    (if skip then tk_attached t else tk_attached t ++ [(podName, taskName)]).

(** [sweep]: one List; an error leaves the tracker alone. *)
Definition sweep (emitter : bool) (t : tracker) (list : option (list object)) : tracker :=
  match list with None => t | Some l => foldl (observe emitter) t l end.
End Sidecars.

(** ** watch.go: [watchLoop] *)
Inductive event_type := EvAdded | EvModified | EvDeleted | EvBookmark.

#[export] Instance event_type_eq_dec : EqDecision event_type.
Proof. solve_decision. Defined.

(** One item of a watch: an Error, an event whose object is not unstructured, or
    an event. *)
Inductive watch_item (O : Type) :=
  | WError
  | WForeign
  | WEvent (k : event_type) (o : O).
Arguments WError {O}.
Arguments WForeign {O}.
Arguments WEvent {O}.

(** One round of the loop.  [wa_watch] is [open]'s error, or the items the watch
    delivers before it closes or (when [wa_done]) the context ends; the flags are
    [ctx.Err() != nil] at the head of the loop, after the watch and during the
    pause, and [time.Since(opened) < time.Second]. *)
Record watch_attempt (O : Type) := mkwatch_attempt {
  wa_cancelled : bool;
  wa_watch : text + list (watch_item O);
  wa_quick : bool;
  wa_cancelled_after : bool;
  wa_cancelled_pause : bool;
}.
Arguments mkwatch_attempt {O}.
Arguments wa_cancelled {O}.
Arguments wa_watch {O}.
Arguments wa_quick {O}.
Arguments wa_cancelled_after {O}.
Arguments wa_cancelled_pause {O}.

Definition maxQuickWatchFailures : nat := 10.

Inductive watch_end := WStopped | WContext | WFailed (err : text) | WOpen.

Section Watch.
Context {O S : Type} (getRV : O -> string) (handle : S -> event_type -> O -> S * bool).

(** [consumeWatch]: whether the handler stopped it, [gotEvent], [*rv] and the
    handler's state. *)
Fixpoint consumeWatch (s : S) (rv : string) (gotEvent : bool) (items : list (watch_item O))
    : bool * bool * string * S :=
  match items with
  | [] => (false, gotEvent, rv, s)
  | WError :: _ => (false, gotEvent, "", s)
  | WForeign :: items' => consumeWatch s rv gotEvent items'
  | WEvent k o :: items' =>
    let rv := if String.eqb (getRV o) "" then rv else getRV o in
    if bool_decide (k = EvBookmark) then consumeWatch s rv true items'
    else
      let '(s', stop) := handle s k o in
      if stop then (true, true, rv, s') else consumeWatch s' rv true items'
  end.

Definition closed_err : text := lit "watch closed by the API server".

(** The loop over the rounds; [WOpen] when the list of rounds is used up.  Also
    the resourceVersion each watch was opened with. *)
Fixpoint watchLoop (s : S) (rv : string) (failures : nat) (rounds : list (watch_attempt O))
    : watch_end * S * list string :=
  match rounds with
  | [] => (WOpen, s, [])
  | a :: rounds' =>
    if wa_cancelled a then (WContext, s, [])
    else
      let '(stopped, gotEvent, rv', s') :=
        match wa_watch a with inl _ => (false, false, rv, s) | inr items => consumeWatch s rv false items end in
      let lastErr := match wa_watch a with inl e => e | inr _ => closed_err end in
      if stopped then (WStopped, s', [rv])
      else if wa_cancelled_after a then (WContext, s', [rv])
      else
        let failed := match wa_watch a with inl _ => true | inr _ => negb gotEvent && wa_quick a end in
        let failures := if failed then 1 + failures else 0 in
        if maxQuickWatchFailures <=? failures then (WFailed lastErr, s', [rv])
        else if wa_cancelled_pause a then (WContext, s', [rv])
        else
          let '(r, s'', opens) := watchLoop s' rv' failures rounds' in
          (r, s'', rv :: opens)
  end.
End Watch.

(** ** run.go: [watchPipelineRun] *)
Section WatchRun.
Context {K : CoreV1} {U : Unstructured}.

(** The object of an event, with what the API server answers while it is
    handled. *)
Definition pr_event : Type := object * ClusterReads.

Definition pr_handle (pl : Pipeline) (sink : bool) (s : option (PipelineRunResult * list Event))
    (k : event_type) (o : pr_event) : option (PipelineRunResult * list Event) * bool :=
  if bool_decide (k = EvDeleted) then (s, false)
  else match applyPipelineRunStatus pl o.2 sink o.1 with
       | Some r => (Some r, true)
       | None => (s, false)
       end.

(** The result, the error, and whether [cancelPipelineRun] was called. *)
Record watched := mkwatched {
  wd_res : PipelineRunResult;
  wd_err : option text;
  wd_cancel : bool;
  wd_events : list Event;
}.

Definition empty_run_result : PipelineRunResult := mkPipelineRunResult "" ∅ "" "" ∅.

(** [ctxErr] is [ctx.Err()] when the loop has returned; [None] when the rounds are
    used up. *)
Definition watchPipelineRun (pl : Pipeline) (sink : bool) (name : string) (ctxErr : option text)
    (rounds : list (watch_attempt pr_event)) : option watched :=
  let '(r, s, _) := watchLoop (fun o => GetResourceVersion o.1) (pr_handle pl sink) None "" 0 rounds in
  let cancelled e := mkwatched empty_run_result (Some (Fmt "PipelineRun %s: %w" [TStr name; TErr e])) true [] in
  match r, s with
  | WOpen, _ => None
  | WStopped, Some (res, evs) => Some (mkwatched res None false evs)
  | WStopped, None =>
    Some (mkwatched empty_run_result (Some (lit "PipelineRun watch closed before terminal status")) false [])
  | WContext, _ => Some (cancelled (default (Sentinel "context canceled") ctxErr))
  | WFailed e, _ =>
    match ctxErr with
    | Some ce => Some (cancelled ce)
    | None => Some (mkwatched empty_run_result (Some (Fmt "watch PipelineRun: %w" [TErr e])) false [])
    end
  end.
End WatchRun.

(** ** The tracker emits and attaches once *)
Section TrackerFacts.
Context {U : Unstructured}.

Definition is_start (tr n : string) (e : sidecar_emit) : bool :=
  String.eqb (sce_TaskRun e) tr &&
  match sce_call e with EmitSidecarStart _ m => String.eqb m n | _ => false end.

Definition is_end (tr n : string) (e : sidecar_emit) : bool :=
  String.eqb (sce_TaskRun e) tr &&
  match sce_call e with EmitSidecarEnd _ m _ _ _ => String.eqb m n | _ => false end.

Definition count_emits (p : sidecar_emit -> bool) (l : list sidecar_emit) : nat := length (List.filter p l).

Lemma count_emits_app p l l' : count_emits p (l ++ l') = count_emits p l + count_emits p l'.
Proof. unfold count_emits. by rewrite List.filter_app, length_app. Qed.

Definition once (b : bool) : nat := if b then 1 else 0.

(** The flags of every pair are [R] and [T], and so are the counts. *)
Definition seen_inv (seen : seen_map) (emitted : list sidecar_emit) (R T : string -> string -> bool) : Prop :=
  forall tr n,
    seen_state seen tr n = mksidecarSeenState (R tr n) (T tr n) /\
    count_emits (is_start tr n) emitted = once (R tr n) /\
    count_emits (is_end tr n) emitted = once (T tr n).

Lemma seen_state_set seen tr n st tr' n' :
  seen_state (set_seen seen tr n st) tr' n' =
  if String.eqb tr tr' && String.eqb n n' then st else seen_state seen tr' n'.
Proof.
  unfold seen_state, set_seen. destruct (String.eqb_spec tr tr') as [<-|Hne].
  - rewrite lookup_insert_eq. simpl. destruct (String.eqb_spec n n') as [<-|Hne].
    + by rewrite lookup_insert_eq.
    + rewrite lookup_insert_ne by done. destruct (seen !! tr); [done|]. simpl. by rewrite lookup_empty.
  - by rewrite lookup_insert_ne.
Qed.

(** What status [s] of TaskRun [tr0] adds to a flag. *)
Definition adds (tr0 : string) (s : SidecarStatus) (b : bool) (tr n : string) : bool :=
  String.eqb tr0 tr && String.eqb (scs_Name s) n && b.

Lemma sidecar_step_inv task tr0 seen emitted R T s :
  seen_inv seen emitted R T ->
  let acc := sidecar_step task tr0 (seen, emitted) s in
  seen_inv acc.1 acc.2 (fun tr n => R tr n || adds tr0 s (scs_Running s) tr n)
    (fun tr n => T tr n || adds tr0 s (scs_Terminated s) tr n).
Proof.
  intros Hinv acc tr n. subst acc. unfold sidecar_step. cbn [fst snd].
  destruct (Hinv tr0 (scs_Name s)) as (Hst0 & _ & _). destruct (Hinv tr n) as (Hst & Hr & Ht).
  rewrite Hst0, seen_state_set, !count_emits_app, Hr, Ht. unfold sidecar_calls, sidecar_seen, adds. cbn [startedEmitted terminatedEmitted].
  destruct (String.eqb_spec tr0 tr) as [<-|Hne]; cbn [andb].
  - destruct (String.eqb_spec (scs_Name s) n) as [<-|Hne]; cbn [andb].
    + split; [done|]. destruct (scs_Running s), (scs_Terminated s), (R tr0 (scs_Name s)), (T tr0 (scs_Name s)), (scs_ExitCode s =? 0)%Z;
        unfold count_emits, is_start, is_end; cbn; rewrite ?String.eqb_refl; cbn; auto.
    + rewrite !orb_false_r. split; [done|].
      destruct (scs_Running s), (scs_Terminated s), (R tr0 (scs_Name s)), (T tr0 (scs_Name s)), (scs_ExitCode s =? 0)%Z;
        unfold count_emits, is_start, is_end; cbn; rewrite ?String.eqb_refl; cbn;
        rewrite ?(proj2 (String.eqb_neq _ _) Hne); cbn; auto.
  - rewrite !orb_false_r. split; [done|].
    destruct (scs_Running s), (scs_Terminated s), (R tr0 (scs_Name s)), (T tr0 (scs_Name s)), (scs_ExitCode s =? 0)%Z;
      unfold count_emits, is_start, is_end; cbn; rewrite ?(proj2 (String.eqb_neq _ _) Hne); cbn; auto.
Qed.

(** Some status of [un] sets a flag of the pair. *)
Definition shows (p : SidecarStatus -> bool) (tr n : string) (un : object) : bool :=
  existsb (fun s => adds (GetName un) s (p s) tr n) (parsePodSidecarStatuses un).

Definition ever_shown (p : SidecarStatus -> bool) (obs : list object) (tr n : string) : bool :=
  existsb (shows p tr n) obs.

Lemma seen_inv_ext seen emitted R T R' T' :
  (forall tr n, R tr n = R' tr n) -> (forall tr n, T tr n = T' tr n) ->
  seen_inv seen emitted R T -> seen_inv seen emitted R' T'.
Proof. intros HR HT H tr n. rewrite <-HR, <-HT. apply H. Qed.

Lemma sidecar_steps_inv task tr0 l acc R T :
  seen_inv acc.1 acc.2 R T ->
  let acc' := foldl (sidecar_step task tr0) acc l in
  seen_inv acc'.1 acc'.2
    (fun tr n => R tr n || existsb (fun s => adds tr0 s (scs_Running s) tr n) l)
    (fun tr n => T tr n || existsb (fun s => adds tr0 s (scs_Terminated s) tr n) l).
Proof.
  revert acc R T; induction l as [|s l IH]; intros [seen emitted] R T Hinv; cbn [foldl existsb].
  - eapply seen_inv_ext; [..|exact Hinv]; intros; by rewrite orb_false_r.
  - eapply seen_inv_ext; [..|apply IH, sidecar_step_inv, Hinv]; intros; simpl; by rewrite orb_assoc.
Qed.

(** Emissions are only added at the end. *)
Lemma sidecar_steps_app task tr0 l seen pre emitted :
  foldl (sidecar_step task tr0) (seen, pre ++ emitted) l =
  let acc := foldl (sidecar_step task tr0) (seen, emitted) l in (acc.1, pre ++ acc.2).
Proof.
  revert seen emitted; induction l as [|s l IH]; intros seen emitted; [done|].
  cbn [foldl]. unfold sidecar_step at 2 4. cbn [fst snd]. rewrite <-app_assoc. apply IH.
Qed.

Lemma observe_inv t un R T :
  seen_inv (tk_sidecarSeen t) (tk_emitted t) R T ->
  seen_inv (tk_sidecarSeen (observe true t un)) (tk_emitted (observe true t un))
    (fun tr n => R tr n || shows scs_Running tr n un) (fun tr n => T tr n || shows scs_Terminated tr n un).
Proof.
  intros Hinv. pose proof (sidecar_steps_inv (task_label un) (GetName un) (parsePodSidecarStatuses un)
    (tk_sidecarSeen t, tk_emitted t) R T Hinv) as H. cbv zeta in H.
  rewrite <-(app_nil_r (tk_emitted t)), sidecar_steps_app in H. cbv zeta in H. cbn [fst snd] in H.
  unfold observe, emitSidecarTransitions. cbn [negb].
  destruct (foldl _ _ _) as [seen calls]. exact H.
Qed.

(** The pods attached so far. *)
Definition pods_inv (t : tracker) (obs : list object) : Prop :=
  NoDup (map fst (tk_attached t)) /\
  (forall pod, pod ∈ tk_streamed t <-> pod ∈ map fst (tk_attached t)) /\
  (forall pod, pod ∈ map fst (tk_attached t) <->
    pod <> "" /\ exists un, un ∈ obs /\ string_at un ["status"; "podName"] = pod).

Lemma observe_attached t un :
  let pod := string_at un ["status"; "podName"] in
  let t' := observe true t un in
  (pod = "" \/ pod ∈ tk_streamed t) /\ tk_streamed t' = tk_streamed t /\ tk_attached t' = tk_attached t \/
  pod <> "" /\ pod ∉ tk_streamed t /\ tk_streamed t' = {[pod]} ∪ tk_streamed t /\
    tk_attached t' = tk_attached t ++ [(pod, task_label un)].
Proof.
  intros pod t'. subst t'. unfold observe. destruct (emitSidecarTransitions _ _ _ _ _) as [seen calls].
  fold pod. destruct (String.eqb_spec pod "") as [He|Hne]; cbn [orb]; [left; split_and!; [by left|done..]|].
  case_bool_decide as Hin; [left; split_and!; [by right|done..]|by right].
Qed.

Lemma observe_pods t obs un : pods_inv t obs -> pods_inv (observe true t un) (obs ++ [un]).
Proof.
  intros (Hnd & Hs & Ha). pose proof (observe_attached t un) as Ho. cbv zeta in Ho. unfold pods_inv.
  set (pod := string_at un ["status"; "podName"]) in *.
  assert (forall p, (exists u, u ∈ obs ++ [un] /\ string_at u ["status"; "podName"] = p) <->
    (exists u, u ∈ obs /\ string_at u ["status"; "podName"] = p) \/ p = pod) as Hex.
  { intros p. setoid_rewrite elem_of_app. setoid_rewrite list_elem_of_singleton. naive_solver. }
  destruct Ho as [(Hp & -> & ->)|(Hp & Hnew & -> & ->)].
  - split_and!; [done|done|]. intros p. rewrite Ha, Hex. split; [tauto|].
    intros [Hne [H|Hpod]]; [done|]. subst p.
    destruct Hp as [He|Hin]; [done|]. apply Hs, Ha in Hin. tauto.
  - rewrite map_app. cbn [map fst]. split_and!.
    + apply NoDup_app. split_and!; [done| |apply NoDup_singleton].
      intros p Hin ->%list_elem_of_singleton. by apply Hnew, Hs.
    + intros p. rewrite elem_of_union, elem_of_singleton, elem_of_app, list_elem_of_singleton, Hs. tauto.
    + intros p. rewrite elem_of_app, list_elem_of_singleton, Ha, Hex. naive_solver.
Qed.

(** whatever TaskRuns are observed, and however often the watch repeats them:
    a sidecar's start is emitted once if it was ever seen running and never
    otherwise, its end once if it was ever seen terminated and never otherwise, and
    log streams are attached once to each pod that was named. *)
Theorem tracker_emits_once (obs : list object) :
  let t := foldl (observe true) newTaskRunLogTracker obs in
  (forall tr n, count_emits (is_start tr n) (tk_emitted t) = once (ever_shown scs_Running obs tr n) /\
                count_emits (is_end tr n) (tk_emitted t) = once (ever_shown scs_Terminated obs tr n)) /\
  NoDup (map fst (tk_attached t)) /\
  (forall pod, pod ∈ map fst (tk_attached t) <->
    pod <> "" /\ exists un, un ∈ obs /\ string_at un ["status"; "podName"] = pod).
Proof.
  set (t := foldl (observe true) newTaskRunLogTracker obs). intros t'. subst t'.
  assert (seen_inv (tk_sidecarSeen t) (tk_emitted t) (ever_shown scs_Running obs) (ever_shown scs_Terminated obs)
    /\ pods_inv t obs) as [Hseen Hpods].
  { subst t. induction obs as [|un obs [IH1 IH2]] using rev_ind.
    - split; [intros tr n; done|]. split_and!; [constructor|set_solver|]. intros pod. simpl. set_solver.
    - rewrite foldl_app. cbn [foldl]. split; [|by apply observe_pods].
      eapply seen_inv_ext; [..|apply observe_inv, IH1]; intros tr n; unfold ever_shown;
        rewrite existsb_app; simpl; by rewrite orb_false_r. }
  destruct Hpods as (Hnd & _ & Ha). split_and!; [|done|done].
  intros tr n. by destruct (Hseen tr n) as (_ & ? & ?).
Qed.
End TrackerFacts.

(** ** The loop, against its specification *)
Section WatchFacts.
Context {O S : Type} (getRV : O -> string) (handle : S -> event_type -> O -> S * bool).

(** The events a watch hands over: bookmarks are swallowed, an Error ends it. *)
Fixpoint delivered (items : list (watch_item O)) : list (event_type * O) :=
  match items with
  | [] | WError :: _ => []
  | WForeign :: items' => delivered items'
  | WEvent k o :: items' => if bool_decide (k = EvBookmark) then delivered items' else (k, o) :: delivered items'
  end.

(** The resourceVersion to resume from: the last one seen, none after an Error. *)
Fixpoint rv_after (rv : string) (items : list (watch_item O)) : string :=
  match items with
  | [] => rv
  | WError :: _ => ""
  | WForeign :: items' => rv_after rv items'
  | WEvent _ o :: items' => rv_after (if String.eqb (getRV o) "" then rv else getRV o) items'
  end.

Fixpoint got_event (items : list (watch_item O)) : bool :=
  match items with
  | [] | WError :: _ => false
  | WForeign :: items' => got_event items'
  | WEvent _ _ :: _ => true
  end.

(** Events in order until the handler asks to stop. *)
Fixpoint handle_all (s : S) (evs : list (event_type * O)) : S * bool :=
  match evs with
  | [] => (s, false)
  | (k, o) :: evs' => let '(s', stop) := handle s k o in if stop then (s', true) else handle_all s' evs'
  end.

Definition round_items (a : watch_attempt O) : list (watch_item O) :=
  match wa_watch a with inl _ => [] | inr items => items end.

Definition round_err (a : watch_attempt O) : text := match wa_watch a with inl e => e | inr _ => closed_err end.

(** The open failed, or the watch closed at once without an event. *)
Definition failed_round (a : watch_attempt O) : bool :=
  match wa_watch a with inl _ => true | inr items => negb (got_event items) && wa_quick a end.

Fixpoint resume_versions (rv : string) (rounds : list (watch_attempt O)) : list string :=
  match rounds with
  | [] => []
  | a :: rounds' => rv :: resume_versions (rv_after rv (round_items a)) rounds'
  end.

Lemma handle_all_app s l l' :
  handle_all s (l ++ l') = let '(s', stop) := handle_all s l in if stop then (s', true) else handle_all s' l'.
Proof.
  revert s; induction l as [|[k o] l IH]; intros s; [done|]. simpl.
  destruct (handle s k o) as [s' []]; [done|]. apply IH.
Qed.

Lemma consumeWatch_spec s rv g items :
  let '(stopped, g', rv', s') := consumeWatch getRV handle s rv g items in
  handle_all s (delivered items) = (s', stopped) /\
  (stopped = false -> g' = g || got_event items /\ rv' = rv_after rv items).
Proof.
  revert s rv g; induction items as [|[| |k o] items IH]; intros s rv g; simpl.
  - by rewrite orb_false_r.
  - by rewrite orb_false_r.
  - apply IH.
  - case_bool_decide as Hk; [|simpl].
    + specialize (IH s (if String.eqb (getRV o) "" then rv else getRV o) true).
      destruct (consumeWatch _ _ _ _ _ _) as [[[stopped g'] rv'] s']. destruct IH as [? IH].
      split; [done|]. intros Hs. destruct (IH Hs) as [-> ?]. by rewrite orb_true_r.
    + destruct (handle s k o) as [s1 []]; [done|].
      specialize (IH s1 (if String.eqb (getRV o) "" then rv else getRV o) true).
      destruct (consumeWatch _ _ _ _ _ _) as [[[stopped g'] rv'] s']. destruct IH as [? IH].
      split; [done|]. intros Hs. destruct (IH Hs) as [-> ?]. by rewrite orb_true_r.
Qed.

(** One round: what the handler did; when it did not stop, where to resume and
    whether the round counts as a failure. *)
Lemma round_spec s rv a :
  let '(stopped, g, rv', s') :=
    match wa_watch a with inl _ => (false, false, rv, s) | inr items => consumeWatch getRV handle s rv false items end in
  handle_all s (delivered (round_items a)) = (s', stopped) /\
  (stopped = false -> rv' = rv_after rv (round_items a) /\
    match wa_watch a with inl _ => true | inr _ => negb g && wa_quick a end = failed_round a).
Proof.
  unfold round_items, failed_round. destruct (wa_watch a) as [e|items]; [done|].
  pose proof (consumeWatch_spec s rv false items) as H.
  destruct (consumeWatch _ _ _ _ _ _) as [[[stopped g'] rv'] s']. destruct H as [? H].
  split; [done|]. intros Hs. by destruct (H Hs) as [-> ->].
Qed.

Lemma watchLoop_spec s rv f rounds :
  let '(r, s', opens) := watchLoop getRV handle s rv f rounds in
  let n := length opens in
  n <= length rounds /\ opens = take n (resume_versions rv rounds) /\
  handle_all s (flat_map (fun a => delivered (round_items a)) (take n rounds)) =
    (s', match r with WStopped => true | _ => false end).
Proof.
  revert s rv f; induction rounds as [|a rounds IH]; intros s rv f; cbn [watchLoop]; [by simpl|].
  destruct (wa_cancelled a); [simpl; split_and!; [lia|done|done]|].
  pose proof (round_spec s rv a) as H. destruct (match wa_watch a with inl _ => _ | inr _ => _ end) as [[[stopped g] rv'] s1].
  destruct H as [Hh H]. destruct stopped.
  { simpl. rewrite app_nil_r, Hh. split_and!; [lia|by rewrite take_0|done]. }
  destruct (H eq_refl) as [-> ->]. clear H.
  assert (forall b : bool, handle_all s (delivered (round_items a) ++ []) = (s1, false)) as H1
    by (intros _; by rewrite app_nil_r, Hh).
  destruct (wa_cancelled_after a); [simpl; split_and!; [lia|by rewrite take_0|by apply H1]|].
  destruct (maxQuickWatchFailures <=? _); [simpl; split_and!; [lia|by rewrite take_0|by apply H1]|].
  destruct (wa_cancelled_pause a); [simpl; split_and!; [lia|by rewrite take_0|by apply H1]|].
  specialize (IH s1 (rv_after rv (round_items a)) (if failed_round a then 1 + f else 0)).
  destruct (watchLoop _ _ _ _ _ _) as [[r s'] opens]. destruct IH as (Hn & Ho & Hall).
  simpl. split_and!; [lia|by f_equal|]. by rewrite handle_all_app, Hh.
Qed.

(** The ways out of round [a] before its failure is counted, closed by [tac]. *)
Ltac round_cases s rv a tac :=
  let H := fresh in
  destruct (wa_cancelled a); [tac|];
  pose proof (round_spec s rv a) as H;
  destruct (match wa_watch a with inl _ => _ | inr _ => _ end) as [[[[] gotEvent] rv_next] s_next];
  destruct H as [? H]; [tac|]; destruct (H eq_refl) as [-> ->]; clear H;
  destruct (wa_cancelled_after a); [tac|].

Lemma watchLoop_failed s rv f rounds e s' opens :
  f < maxQuickWatchFailures ->
  watchLoop getRV handle s rv f rounds = (WFailed e, s', opens) ->
  exists pre post a, take (length opens) rounds = pre ++ post ++ [a] /\
    Forall (fun b => failed_round b = true) (post ++ [a]) /\ e = round_err a /\
    (length (post ++ [a]) = maxQuickWatchFailures \/
     pre = [] /\ f + length (post ++ [a]) = maxQuickWatchFailures).
Proof.
  revert s rv f opens; induction rounds as [|a rounds IH]; intros s rv f opens Hf; cbn [watchLoop]; [done|].
  round_cases s rv a ltac:(done).
  destruct (maxQuickWatchFailures <=? _) eqn:Hmax.
  - intros [= <- <- <-]. apply Nat.leb_le in Hmax. destruct (failed_round a) eqn:Ha; [|unfold maxQuickWatchFailures in *; lia].
    exists [], [], a. cbn [app]. rewrite Forall_singleton. split_and!; [done|done|done|right]. split; [done|]. simpl. lia.
  - apply Nat.leb_gt in Hmax. destruct (wa_cancelled_pause a); [done|].
    destruct (watchLoop _ _ _ _ _ _) as [[r s''] opens'] eqn:E. intros [= -> <- <-].
    destruct (IH _ _ _ _ Hmax E) as (pre & post & b & Ht & Hfail & -> & Hlen). cbn [length take]. rewrite Ht.
    destruct Hlen as [Hlen|[-> Hlen]]; [exists (a :: pre), post, b; split_and!; [done|done|done|by left]|].
    destruct (failed_round a) eqn:Ha.
    + exists [], (a :: post), b. split_and!; [done|by constructor|done|right]. split; [done|]. simpl in *. lia.
    + exists [a], post, b. split_and!; [done|done|done|by left].
Qed.

Lemma watchLoop_failing_block s rv f blk post :
  Forall (fun a => failed_round a = true) blk -> f < maxQuickWatchFailures ->
  maxQuickWatchFailures <= f + length blk ->
  let '(r, _, opens) := watchLoop getRV handle s rv f (blk ++ post) in
  r <> WOpen /\ length opens <= length blk.
Proof.
  intros Hblk. revert s rv f; induction Hblk as [|a blk Ha Hblk IH]; intros s rv f Hf Hlen; [simpl in Hlen; lia|].
  cbn [app watchLoop]. round_cases s rv a ltac:(simpl; split; [done|lia]). rewrite Ha.
  destruct (maxQuickWatchFailures <=? _) eqn:Hmax; [simpl; split; [done|lia]|]. apply Nat.leb_gt in Hmax.
  destruct (wa_cancelled_pause a); [simpl; split; [done|lia]|].
  specialize (IH s_next (rv_after rv (round_items a)) (1 + f) Hmax ltac:(simpl in Hlen; lia)).
  destruct (watchLoop _ _ _ _ _ _) as [[r s''] opens]. simpl. split; [apply IH|]. apply le_n_S, IH.
Qed.

Lemma watchLoop_prefix_block s rv f pre blk post :
  Forall (fun a => failed_round a = true) blk -> f < maxQuickWatchFailures ->
  length blk = maxQuickWatchFailures ->
  let '(r, _, opens) := watchLoop getRV handle s rv f (pre ++ blk ++ post) in
  r <> WOpen /\ length opens <= length pre + maxQuickWatchFailures.
Proof.
  intros Hblk. revert s rv f; induction pre as [|a pre IH]; intros s rv f Hf Hlen.
  { pose proof (watchLoop_failing_block s rv f blk post Hblk Hf ltac:(lia)) as H. simpl.
    destruct (watchLoop _ _ _ _ _ _) as [[r s''] opens]. by rewrite <-Hlen. }
  cbn [app watchLoop]. round_cases s rv a ltac:(simpl; split; [done|lia]).
  destruct (maxQuickWatchFailures <=? _) eqn:Hmax; [simpl; split; [done|lia]|]. apply Nat.leb_gt in Hmax.
  destruct (wa_cancelled_pause a); [simpl; split; [done|lia]|].
  specialize (IH s_next (rv_after rv (round_items a)) _ Hmax Hlen).
  destruct (watchLoop _ _ _ _ _ _) as [[r s''] opens]. simpl. split; [apply IH|]. apply le_n_S, IH.
Qed.

(** The last ten rounds of [h] failed; no ten rounds in a row of it did. *)
Definition ten_failed (h : list (watch_attempt O)) : Prop :=
  exists h1 blk, h = h1 ++ blk /\ length blk = 10 /\ Forall (fun a => failed_round a = true) blk.

Definition never_ten (h : list (watch_attempt O)) : Prop := forall h1 h2, h = h1 ++ h2 -> ~ ten_failed h1.

(** The failures in a row that [h] ends with. *)
Definition trailing (h : list (watch_attempt O)) : nat := foldl (fun f a => if failed_round a then 1 + f else 0) 0 h.

Lemma trailing_le h k :
  k <= trailing h <-> exists h1 blk, h = h1 ++ blk /\ length blk = k /\ Forall (fun a => failed_round a = true) blk.
Proof.
  revert k; induction h as [|a h IH] using rev_ind; intros k.
  - cbn. split; [intros Hk; assert (k = 0) as -> by lia; by exists [], []|]. intros (h1 & blk & Hh & <- & _).
    symmetry in Hh. by apply app_eq_nil in Hh as [_ ->].
  - unfold trailing. rewrite foldl_app. cbn [foldl]. fold (trailing h). split.
    + intros Hk. destruct k as [|k]; [by exists (h ++ [a]), []; rewrite app_nil_r|]. destruct (failed_round a) eqn:Ha; [|lia].
      destruct (proj1 (IH k)) as (h1 & blk & -> & Hlen & Hf); [lia|]. exists h1, (blk ++ [a]).
      split_and!; [by rewrite (assoc_L (++))|rewrite length_app, Hlen; simpl; lia|]. apply Forall_app. split; [done|by constructor].
    + intros (h1 & l & Hh & <- & Hf). destruct l as [|b0 l0]; [simpl; lia|].
      destruct (exists_last (l := b0 :: l0) ltac:(done)) as (blk & b & Heq). rewrite Heq in *. clear Heq.
      rewrite (assoc_L (++)) in Hh. apply app_inj_2 in Hh as [-> [= <-]]; [|done]. apply Forall_app in Hf as [Hf Ha].
      assert (failed_round a = true) as Ha' by by inversion Ha. rewrite Ha', length_app. simpl. pose proof (proj2 (IH (length blk))) as Hl.
      enough (length blk <= trailing (h1 ++ blk)) by lia. apply Hl. by exists h1, blk.
Qed.

Lemma ten_failed_trailing h : ten_failed h <-> 10 <= trailing h.
Proof. rewrite trailing_le. done. Qed.

Lemma never_ten_snoc h a : never_ten h -> ~ ten_failed (h ++ [a]) -> never_ten (h ++ [a]).
Proof.
  intros Hh Ha h1 h2 Heq. induction h2 as [|b h2 _] using rev_ind; [by rewrite app_nil_r in Heq; subst|].
  rewrite (assoc_L (++)) in Heq. apply app_inj_2 in Heq as [-> _]; [|done]. by apply (Hh h1 h2).
Qed.

Definition clear_round (a : watch_attempt O) : Prop :=
  wa_cancelled a = false /\ wa_cancelled_after a = false /\ wa_cancelled_pause a = false.

(** Where the loop ends, and why, behind the rounds [h]. *)
Lemma watchLoop_where s rv h rounds :
  never_ten h ->
  let '(r, s', _) := watchLoop getRV handle s rv (trailing h) rounds in
  if match r with WOpen => true | _ => false end
  then Forall clear_round rounds /\ handle_all s (flat_map (fun a => delivered (round_items a)) rounds) = (s', false) /\
       never_ten (h ++ rounds)
  else exists pre a post s1, rounds = pre ++ a :: post /\ Forall clear_round pre /\ never_ten (h ++ pre) /\
    handle_all s (flat_map (fun a => delivered (round_items a)) pre) = (s1, false) /\
    if wa_cancelled a then r = WContext /\ s' = s1
    else exists stop, handle_all s1 (delivered (round_items a)) = (s', stop) /\
      if stop then r = WStopped
      else if wa_cancelled_after a then r = WContext
      else ten_failed (h ++ pre ++ [a]) /\ r = WFailed (round_err a) \/
           ~ ten_failed (h ++ pre ++ [a]) /\ wa_cancelled_pause a = true /\ r = WContext.
Proof.
  revert s rv h; induction rounds as [|a rounds IH]; intros s rv h Hh; cbn [watchLoop].
  { rewrite app_nil_r. by split_and!; [constructor| |]. }
  destruct (wa_cancelled a) eqn:Hc.
  { exists [], a, rounds, s. rewrite app_nil_r, Hc. by split_and!. }
  pose proof (round_spec s rv a) as H. destruct (match wa_watch a with inl _ => _ | inr _ => _ end) as [[[stopped g] rv'] s1].
  destruct H as [Hd H]. destruct stopped.
  { exists [], a, rounds, s. rewrite app_nil_r, Hc. split_and!; [done|constructor|done|done|]. by exists true. }
  destruct (H eq_refl) as [-> ->]. clear H. destruct (wa_cancelled_after a) eqn:Hca.
  { exists [], a, rounds, s. rewrite app_nil_r, Hc. split_and!; [done|constructor|done|done|]. exists false. by rewrite Hca. }
  assert ((if failed_round a then 1 + trailing h else 0) = trailing (h ++ [a])) as -> by (unfold trailing; by rewrite foldl_app).
  destruct (maxQuickWatchFailures <=? trailing (h ++ [a])) eqn:Hmax.
  { apply Nat.leb_le, ten_failed_trailing in Hmax. exists [], a, rounds, s. rewrite app_nil_r, Hc.
    split_and!; [done|constructor|done|done|]. exists false. rewrite Hca. split; [done|by left]. }
  assert (~ ten_failed (h ++ [a])) as Hnot.
  { apply Nat.leb_gt in Hmax. rewrite ten_failed_trailing. unfold maxQuickWatchFailures in Hmax. lia. }
  destruct (wa_cancelled_pause a) eqn:Hcp.
  { exists [], a, rounds, s. rewrite app_nil_r, Hc. split_and!; [done|constructor|done|done|]. exists false. rewrite Hca. split; [done|by right]. }
  specialize (IH s1 (rv_after rv (round_items a)) (h ++ [a]) (never_ten_snoc h a Hh Hnot)).
  assert (forall l, handle_all s (flat_map (fun a => delivered (round_items a)) (a :: l)) =
    handle_all s1 (flat_map (fun a => delivered (round_items a)) l)) as Hcons by (intros l; cbn [flat_map]; by rewrite handle_all_app, Hd).
  assert (forall l, (h ++ [a]) ++ l = h ++ a :: l) as Happ by (intros l; by rewrite <-(assoc_L (++))).
  assert (clear_round a) as Hclear by done.
  destruct (watchLoop _ _ _ _ _ _) as [[r s'] opens]. destruct (match r with WOpen => true | _ => false end).
  - destruct IH as (H1 & H2 & H3). rewrite Happ in H3. rewrite Hcons. by split_and!; [constructor| |].
  - destruct IH as (pre & b & post & s2 & -> & H1 & H2 & H3 & H4). exists (a :: pre), b, post, s2.
    rewrite Hcons. rewrite !Happ in *. split_and!; [done|by constructor|done|done|]. exact H4.
Qed.

(** C19: the watch loop gives up exactly when it should: an error is returned only
    after ten rounds in a row that could not be opened or closed at once without
    an event, and is that of the last one; and after ten such rounds it has
    returned, whatever came before.  Every watch resumes from the last
    resourceVersion delivered since the last Error item. *)
Theorem watchLoop_gives_up (s : S) (rounds : list (watch_attempt O)) :
  let '(r, s', opens) := watchLoop getRV handle s "" 0 rounds in
  opens = take (length opens) (resume_versions "" rounds) /\
  (forall e, r = WFailed e ->
    exists pre post a, take (length opens) rounds = pre ++ post ++ [a] /\
      length (post ++ [a]) = maxQuickWatchFailures /\
      Forall (fun b => failed_round b = true) (post ++ [a]) /\ e = round_err a) /\
  (forall pre blk post, rounds = pre ++ blk ++ post -> length blk = maxQuickWatchFailures ->
    Forall (fun b => failed_round b = true) blk ->
    r <> WOpen /\ length opens <= length pre + maxQuickWatchFailures).
Proof.
  pose proof (watchLoop_spec s "" 0 rounds) as Hs.
  destruct (watchLoop getRV handle s "" 0 rounds) as [[r s'] opens] eqn:E. split_and!; [apply Hs| |].
  - intros e ->. apply watchLoop_failed in E as (pre & post & a & Ht & Hf & He & Hlen); [|unfold maxQuickWatchFailures; lia].
    exists pre, post, a. split_and!; [done| |done|done]. by destruct Hlen as [?|[_ ?]].
  - intros pre blk post -> Hlen Hf.
    pose proof (watchLoop_prefix_block s "" 0 pre blk post Hf ltac:(unfold maxQuickWatchFailures; lia) Hlen) as H.
    by rewrite E in H.
Qed.
End WatchFacts.

Section WatchRunFacts.
Context {K : CoreV1} {U : Unstructured}.

(** The verdict of one delivered event. *)
Definition verdict (pl : Pipeline) (sink : bool) (ko : event_type * pr_event)
    : option (PipelineRunResult * list Event) :=
  if bool_decide (ko.1 = EvDeleted) then None else applyPipelineRunStatus pl ko.2.2 sink ko.2.1.

Lemma handle_all_verdict pl sink s evs :
  let '(s', stop) := handle_all (pr_handle pl sink) s evs in
  if stop then exists pre ko post, evs = pre ++ ko :: post /\ Forall (fun x => verdict pl sink x = None) pre /\
                 is_Some s' /\ verdict pl sink ko = s'
  else s' = s /\ Forall (fun x => verdict pl sink x = None) evs.
Proof.
  revert s; induction evs as [|[k o] evs IH]; intros s; [by split|]. cbn [handle_all].
  assert (pr_handle pl sink s k o = match verdict pl sink (k, o) with Some r => (Some r, true) | None => (s, false) end) as ->.
  { unfold pr_handle, verdict. cbn [fst snd]. by case_bool_decide. }
  destruct (verdict pl sink (k, o)) as [r|] eqn:E.
  - exists [], (k, o), evs. split_and!; [done|constructor|done|done].
  - specialize (IH s). destruct (handle_all _ s evs) as [s' []].
    + destruct IH as (pre & ko & post & -> & ? & ? & ?). exists ((k, o) :: pre), ko, post.
      split_and!; [done|by constructor|done|done].
    + destruct IH. split; [done|by constructor].
Qed.

(** The object of an event ends the run: it is not deleted, and one of its conditions of type
    Succeeded is True or False. *)
Definition terminal (ko : event_type * pr_event) : Prop :=
  ko.1 <> EvDeleted /\ exists cm, VMap cm ∈ slice_at ko.2.1 ["status"; "conditions"] /\
    cm !! "type" = Some (VString "Succeeded") /\ (cm !! "status" = Some (VString "True") \/ cm !! "status" = Some (VString "False")).

Lemma string_field_is k m v : v <> "" -> string_field k m = v <-> m !! k = Some (VString v).
Proof. intros Hv. unfold string_field. split; [|by intros ->]. destruct (m !! k) as [[]|]; try done; by intros ->. Qed.

Lemma verdict_terminal pl sink ko : is_Some (verdict pl sink ko) <-> terminal ko.
Proof.
  destruct ko as [k [o rd]]. unfold verdict, terminal. cbn [fst snd]. case_bool_decide as Hk; [by split; [intros [? ?]|intros [? _]]|].
  unfold applyPipelineRunStatus. destruct (List.find _ _) as [cm|] eqn:E.
  - apply List.find_some in E as [Hcm Ht]. split; [intros _; split; [done|]|intros _; by destruct (collectTaskOutcomesWithSink pl rd sink)].
    unfold succeeded_conditions in Hcm. apply List.filter_In in Hcm as [Hcm Hs]. apply list_elem_of_In, list_elem_of_omap in Hcm as (v & Hv & Hm).
    destruct v; try done. injection Hm as ->. exists cm. split; [done|].
    unfold is_succeeded in Hs. apply String.eqb_eq in Hs. apply string_field_is in Hs; [|done]. split; [done|].
    unfold is_terminal in Ht. apply bool_decide_eq_true in Ht. rewrite <-(string_field_is "status" cm "True"), <-(string_field_is "status" cm "False") by done. set_solver.
  - split; [by intros [? ?]|]. intros (_ & cm & Hcm & Ht & Hs). exfalso.
    pose proof (List.find_none _ _ E cm) as Hn. rewrite <-(string_field_is "status" cm "True"), <-(string_field_is "status" cm "False") in Hs by done. apply string_field_is in Ht; [|done].
    unfold is_terminal in Hn. rewrite bool_decide_true in Hn; [|destruct Hs as [-> | ->]; set_solver]. discriminate Hn.
    unfold succeeded_conditions. apply List.filter_In. split; [|by apply String.eqb_eq].
    apply list_elem_of_In, list_elem_of_omap. by exists (VMap cm).
Qed.

(** A round the watch goes past, and one that delivers nothing that ends the run. *)
Definition silent_round (a : watch_attempt pr_event) : Prop := Forall (fun ko => ~ terminal ko) (delivered (round_items a)).

Lemma Forall_delivered (P : event_type * pr_event -> Prop) (l : list (watch_attempt pr_event)) :
  Forall P (flat_map (fun a => delivered (round_items a)) l) <-> Forall (fun a => Forall P (delivered (round_items a))) l.
Proof. induction l as [|a l IH]; cbn [flat_map]; [by rewrite !Forall_nil|]. by rewrite Forall_app, Forall_cons, IH. Qed.

Lemma silent_rounds pl sink s l :
  handle_all (pr_handle pl sink) s (flat_map (fun a => delivered (round_items a)) l) = (s, false) <-> Forall silent_round l.
Proof.
  pose proof (handle_all_verdict pl sink s (flat_map (fun a => delivered (round_items a)) l)) as Hv.
  assert (Forall (fun x => verdict pl sink x = None) (flat_map (fun a => delivered (round_items a)) l) <-> Forall silent_round l) as <-.
  { rewrite Forall_delivered. unfold silent_round. apply Forall_iff. intros a. apply Forall_iff. intros ko.
    rewrite <-(verdict_terminal pl sink). by rewrite <-eq_None_not_Some. }
  destruct (handle_all _ _ _) as [s' []].
  - destruct Hv as (pre & ko & post & Hevs & _ & [x ->] & Hko). split; [done|]. rewrite Hevs, Forall_app, Forall_cons. rewrite Hko. naive_solver.
  - destruct Hv as [-> Hn]. by split.
Qed.

(** How the run ends in round [a], behind the rounds [pre]. *)
Definition ends_in pl sink name ctxErr (pre : list (watch_attempt pr_event)) (a : watch_attempt pr_event) (w : watched) : Prop :=
  let cancelled := w = mkwatched empty_run_result
    (Some (Fmt "PipelineRun %s: %w" [TStr name; TErr (default (Sentinel "context canceled") ctxErr)])) true [] in
  if wa_cancelled a then cancelled
  else
    (exists before ko after, delivered (round_items a) = before ++ ko :: after /\ Forall (fun ko => ~ terminal ko) before /\
       terminal ko /\ applyPipelineRunStatus pl ko.2.2 sink ko.2.1 = Some (wd_res w, wd_events w) /\
       wd_err w = None /\ wd_cancel w = false) \/
    silent_round a /\
    if wa_cancelled_after a then cancelled
    else
      ten_failed (pre ++ [a]) /\
        match ctxErr with
        | Some _ => cancelled
        | None => w = mkwatched empty_run_result (Some (Fmt "watch PipelineRun: %w" [TErr (round_err a)])) false []
        end \/
      ~ ten_failed (pre ++ [a]) /\ wa_cancelled_pause a = true /\ cancelled.

(** C18: a watched run ends in the first round that ends it, across re-opened watches, and
    not before: a round in which the context ends; one that delivers an object with a
    Succeeded condition that is True or False (deletions are passed over); or the tenth in a
    row that failed.  In the second case the result is that object's verdict, without an
    error.  In the others there is no result, and the error says whether the context ended -
    then, and only then, the PipelineRun is cancelled - or the watch failed.  Every earlier
    round was clear of these.  The last return of the function is never reached. *)
Theorem watchPipelineRun_correct pl sink name ctxErr rounds :
  match watchPipelineRun pl sink name ctxErr rounds with
  | None => Forall (fun a => clear_round a /\ silent_round a) rounds /\ never_ten rounds
  | Some w => exists pre a post, rounds = pre ++ a :: post /\
      Forall (fun a => clear_round a /\ silent_round a) pre /\ never_ten pre /\ ends_in pl sink name ctxErr pre a w
  end.
Proof.
  unfold watchPipelineRun.
  assert (never_ten (@nil (watch_attempt pr_event))) as Hnil.
  { intros h1 h2 Hh. symmetry in Hh. apply app_eq_nil in Hh as [-> _]. rewrite ten_failed_trailing. cbn. lia. }
  pose proof (watchLoop_where (fun o : pr_event => GetResourceVersion o.1) (pr_handle pl sink) None "" [] rounds Hnil) as H.
  change (trailing []) with 0 in H. destruct (watchLoop _ _ _ _ _ _) as [[r s] opens].
  destruct (match r with WOpen => true | _ => false end) eqn:Hr.
  - destruct r; try done. destruct H as (H1 & H2 & H3). split; [|done]. apply Forall_and. split; [done|].
    pose proof (handle_all_verdict pl sink None (flat_map (fun a => delivered (round_items a)) rounds)) as Hv. rewrite H2 in Hv.
    destruct Hv as [-> _]. by apply (silent_rounds pl sink None).
  - destruct H as (pre & a & post & s1 & -> & H1 & H2 & H3 & H4).
    pose proof (handle_all_verdict pl sink None (flat_map (fun a => delivered (round_items a)) pre)) as Hv. rewrite H3 in Hv.
    destruct Hv as [-> _]. apply silent_rounds in H3. cbn [app] in *.
    assert (Forall (fun a => clear_round a /\ silent_round a) pre) as Hpre by by apply Forall_and.
    enough (exists w, match r, s with
      | WOpen, _ => None
      | WStopped, Some (res, evs) => Some (mkwatched res None false evs)
      | WStopped, None => Some (mkwatched empty_run_result (Some (lit "PipelineRun watch closed before terminal status")) false [])
      | WContext, _ => Some (mkwatched empty_run_result (Some (Fmt "PipelineRun %s: %w" [TStr name; TErr (default (Sentinel "context canceled") ctxErr)])) true [])
      | WFailed e, _ => match ctxErr with
        | Some ce => Some (mkwatched empty_run_result (Some (Fmt "PipelineRun %s: %w" [TStr name; TErr ce])) true [])
        | None => Some (mkwatched empty_run_result (Some (Fmt "watch PipelineRun: %w" [TErr e])) false []) end
      end = Some w /\ ends_in pl sink name ctxErr pre a w) as (w & -> & Hw) by (exists pre, a, post; done).
    unfold ends_in. destruct (wa_cancelled a); [destruct H4 as [-> ->]; by eexists|]. destruct H4 as (stop & Hd & H4).
    pose proof (handle_all_verdict pl sink None (delivered (round_items a))) as Hv. rewrite Hd in Hv. destruct stop.
    + subst r. destruct Hv as (before & ko & after & Hevs & Hb & [[res evs] ->] & Hko). eexists. split; [done|]. left.
      exists before, ko, after. split_and!; try done.
      * eapply Forall_impl; [exact Hb|]. intros x Hx. rewrite <-(verdict_terminal pl sink), Hx. by intros [? ?].
      * rewrite <-(verdict_terminal pl sink), Hko. done.
      * unfold verdict in Hko. by case_bool_decide.
    + destruct Hv as [-> Hn]. assert (silent_round a) as Hs.
      { eapply Forall_impl; [exact Hn|]. intros x Hx. rewrite <-(verdict_terminal pl sink), Hx. by intros [? ?]. }
      destruct (wa_cancelled_after a); [subst r; eexists; split; [done|]; right; by split|].
      destruct H4 as [[H4 ->]|(H4 & H5 & ->)].
      * destruct ctxErr; (eexists; split; [done|]; right; split; [done|left; by split]).
      * eexists. split; [done|]. right. split; [done|]. right. by split_and!.
Qed.
End WatchRunFacts.

(** ** Witnesses *)
Section WatchWitnesses.
#[local] Existing Instance core_unit.
#[local] Existing Instance nested_objects.

Definition ex_status (status reason : string) : object :=
  {["status" := VMap {["conditions" := VSlice
     [VMap {["type" := VString "Succeeded"; "status" := VString status; "reason" := VString reason]}]]}]}.

Definition ex_no_reads : ClusterReads := mkClusterReads None None.

Definition ex_empty_pl : Pipeline :=
  mkPipeline (mkObject "" "" (mkMetadata "p" "" ∅ ∅)) (mkPipelineSpec "" "" [] [] [] [] [] None).

(** The watch closes after an event, is re-opened, and the run times out. *)
Definition ex_rounds : list (watch_attempt pr_event) :=
  [mkwatch_attempt false (inr [WEvent EvAdded (ex_status "Unknown" "Running", ex_no_reads)]) false false false;
   mkwatch_attempt false (inr [WEvent EvBookmark (∅, ex_no_reads); WEvent EvModified (ex_status "False" "PipelineRunTimeout", ex_no_reads)]) false false false].

Example watchPipelineRun_timeout :
  match watchPipelineRun ex_empty_pl true "p" None ex_rounds with
  | Some w => prr_Status (wd_res w) = "timeout" /\ wd_err w = None /\ wd_cancel w = false
  | None => False
  end.
Proof. vm_compute. done. Qed.

(** Ten rounds that cannot be opened, then one that is never tried. *)
Definition ex_refused : list (watch_attempt pr_event) :=
  repeat (mkwatch_attempt false (inl (lit "refused")) true false false) 10.

Lemma watchLoop_gives_up_witness :
  let '(r, s', opens) :=
    watchLoop (fun o : pr_event => GetResourceVersion o.1) (pr_handle ex_empty_pl true) None "" 0 (ex_refused ++ ex_rounds) in
  r = WFailed (lit "refused") /\ length opens = 10 /\ r <> WOpen.
Proof.
  pose proof (watchLoop_gives_up (fun o : pr_event => GetResourceVersion o.1) (pr_handle ex_empty_pl true) None
                (ex_refused ++ ex_rounds)) as H.
  assert (let '(r, s', opens) :=
    watchLoop (fun o : pr_event => GetResourceVersion o.1) (pr_handle ex_empty_pl true) None "" 0 (ex_refused ++ ex_rounds) in
    r = WFailed (lit "refused") /\ length opens = 10) as E by (vm_compute; done).
  destruct (watchLoop _ _ _ _ _ _) as [[r s'] opens]. destruct E as [E1 E2], H as (_ & _ & H).
  split_and!; [done|done|]. apply (H [] ex_refused ex_rounds); [done|done|].
  apply (Forall_forall _ _). intros a Ha. by apply list_elem_of_In, repeat_spec in Ha as ->.
Defined.
End WatchWitnesses.
