(* ===== verification/ClusterSubmit.v ===== *)
(** * internal/backend/cluster: submitting a run

    run.go's [buildPipelineRun] with the JSON trees of the tektontypes it
    submits, volumes.go, and [RunPipeline].  A struct is encoded by its json tags
    (encoding/json: omitempty drops the zero value of a string, number, bool,
    slice, map or pointer, never a struct); strings are valid UTF-8, as the
    decoder left them; an empty slice without omitempty is written as [[]], nil or
    not. *)

From S2P Require Import Prelude GoStrings Json TektonTypes Run ClusterStatus ClusterWatch.

(** ** Encoding *)

(** [json.Marshal] of the Kubernetes types, decoded into [any]. *)
Class CoreJson {K : CoreV1} := {
  SecurityContext_value : SecurityContext -> value;
  EnvFromSource_value : EnvFromSource -> value;
  EnvVarSource_value : EnvVarSource -> value;
}.

(** The fields one struct field contributes; [None] when its encoding fails. *)
Abbreviation fields := (option (list (string * value))).

Definition f_val (k : string) (v : value) : fields := Some [(k, v)].
Definition f_str (k s : string) : fields := f_val k (VString s).
Definition o_str (k s : string) : fields := if String.eqb s "" then Some [] else f_str k s.
Definition o_bool (k : string) (b : bool) : fields := if b then f_val k (VBool b) else Some [].
Definition f_int (k : string) (z : Z) : fields := f_val k (VFloat z 0).
Definition o_int (k : string) (z : Z) : fields := if (z =? 0)%Z then Some [] else f_int k z.
Definition f_enc (k : string) (v : option value) : fields := v ← v; f_val k v.
Definition f_list {A} (k : string) (f : A -> option value) (l : list A) : fields :=
  f_enc k (VSlice <$> mapM f l).
Definition o_list {A} (k : string) (f : A -> option value) (l : list A) : fields :=
  match l with [] => Some [] | _ => f_list k f l end.
Definition o_opt {A} (k : string) (f : A -> option value) (o : option A) : fields :=
  match o with None => Some [] | Some a => f_enc k (f a) end.

Definition obj (fs : list fields) : option value :=
  (fun l : list (list (string * value)) => VMap (list_to_map (concat l))) <$> mapM id fs.

Definition str_value (s : string) : option value := Some (VString s).
Definition bool_value (b : bool) : option value := Some (VBool b).
Definition map_value (m : gmap string string) : value := VMap (VString <$> m).

(** [ParamValue.MarshalJSON] *)
Definition ParamValue_value (v : ParamValue) : option value :=
  if String.eqb (pv_Type v) ParamTypeArray then Some (VSlice (map VString (pv_ArrayVal v)))
  else if String.eqb (pv_Type v) ParamTypeObject then Some (map_value (pv_ObjectVal v))
  else if is_string_type (pv_Type v) then Some (VString (pv_StringVal v))
  else None.

(** [ResourceList.MarshalJSON] *)
Definition ResourceList_value (r : ResourceList) : option value :=
  let m := rl_Other r in
  let m := if String.eqb (rl_CPU r) "" then m else <["cpu" := rl_CPU r]> m in
  let m := if String.eqb (rl_Memory r) "" then m else <["memory" := rl_Memory r]> m in
  Some (map_value m).

Definition StepResources_value (r : StepResources) : option value :=
  obj [f_enc "limits" (ResourceList_value (res_Limits r)); f_enc "requests" (ResourceList_value (res_Requests r))].

Definition Param_value (p : Param) : option value :=
  obj [f_str "name" (p_Name p); f_enc "value" (ParamValue_value (p_Value p))].

Definition ParamSpec_value (p : ParamSpec) : option value :=
  obj [f_str "name" (ps_Name p); o_str "type" (ps_Type p); o_str "description" (ps_Description p);
       o_opt "default" ParamValue_value (ps_Default p)].

Definition ResultSpec_value (r : ResultSpec) : option value :=
  obj [f_str "name" (rs_Name r); o_str "description" (rs_Description r); o_str "type" (rs_Type r)].

Definition KeyToPath_value (k : KeyToPath) : option value :=
  obj [f_str "key" (kp_Key k); f_str "path" (kp_Path k)].

Definition EmptyDirSource_value (s : EmptyDirSource) : option value := obj [o_str "medium" (ed_Medium s)].

Definition HostPathSource_value (s : HostPathSource) : option value :=
  obj [f_str "path" (hp_Path s); o_str "type" (hp_Type s)].

Definition ConfigMapSource_value (s : ConfigMapSource) : option value :=
  obj [f_str "name" (cm_Name s); o_list "items" KeyToPath_value (cm_Items s);
       o_opt "optional" bool_value (cm_Optional s)].

Definition SecretSource_value (s : SecretSource) : option value :=
  obj [f_str "secretName" (sec_SecretName s); o_list "items" KeyToPath_value (sec_Items s);
       o_opt "optional" bool_value (sec_Optional s)].

Definition Volume_value (v : Volume) : option value :=
  obj [f_str "name" (vol_Name v); o_opt "emptyDir" EmptyDirSource_value (vol_EmptyDir v);
       o_opt "hostPath" HostPathSource_value (vol_HostPath v);
       o_opt "configMap" ConfigMapSource_value (vol_ConfigMap v);
       o_opt "secret" SecretSource_value (vol_Secret v)].

Definition VolumeMount_value (m : VolumeMount) : option value :=
  obj [f_str "name" (vm_Name m); f_str "mountPath" (vm_MountPath m); o_bool "readOnly" (vm_ReadOnly m);
       o_str "subPath" (vm_SubPath m)].

Definition WorkspaceDecl_value (d : WorkspaceDecl) : option value :=
  obj [f_str "name" (wd_Name d); o_str "description" (wd_Description d); o_str "mountPath" (wd_MountPath d);
       o_bool "readOnly" (wd_ReadOnly d); o_bool "optional" (wd_Optional d)].

Definition WorkspaceUsage_value (u : WorkspaceUsage) : option value :=
  obj [f_str "name" (wu_Name u); o_str "mountPath" (wu_MountPath u); o_str "subPath" (wu_SubPath u)].

Definition ContainerPort_value (p : ContainerPort) : option value :=
  obj [o_str "name" (cp_Name p); f_int "containerPort" (cp_ContainerPort p); o_str "protocol" (cp_Protocol p)].

Definition WorkspaceBinding_value (b : WorkspaceBinding) : option value :=
  obj [f_str "name" (wb_Name b); f_str "workspace" (wb_Workspace b); o_str "subPath" (wb_SubPath b)].

Definition WhenExpression_value (w : WhenExpression) : option value :=
  obj [f_str "input" (we_Input w); f_str "operator" (we_Operator w); f_list "values" str_value (we_Values w)].

Definition StepActionRef_value (r : StepActionRef) : option value := obj [f_str "name" (sar_Name r)].

Section Encode.
Context {K : CoreV1} {J : CoreJson}.

Definition EnvVar_value (e : EnvVar) : option value :=
  obj [f_str "name" (ev_Name e); o_str "value" (ev_Value e);
       o_opt "valueFrom" (fun v => Some (EnvVarSource_value v)) (ev_ValueFrom e)].

Definition Step_value (s : Step) : option value :=
  obj [f_str "name" (st_Name s); o_str "displayName" (st_DisplayName s); o_str "description" (st_Description s);
       o_opt "ref" StepActionRef_value (st_Ref s); o_list "params" Param_value (st_Params s);
       o_str "image" (st_Image s); o_list "command" str_value (st_Command s); o_list "args" str_value (st_Args s);
       o_str "script" (st_Script s); o_list "env" EnvVar_value (st_Env s); o_str "workingDir" (st_WorkingDir s);
       o_opt "computeResources" StepResources_value (st_Resources s);
       o_str "imagePullPolicy" (st_ImagePullPolicy s);
       o_opt "securityContext" (fun c => Some (SecurityContext_value c)) (st_SecurityContext s);
       o_list "envFrom" (fun c => Some (EnvFromSource_value c)) (st_EnvFrom s);
       o_str "timeout" (st_Timeout s); o_str "onError" (st_OnError s);
       o_list "results" ResultSpec_value (st_Results s); o_list "volumeMounts" VolumeMount_value (st_VolumeMounts s)].

Definition StepTemplate_value (t : StepTemplate) : option value :=
  obj [o_str "image" (tm_Image t); o_list "command" str_value (tm_Command t); o_list "args" str_value (tm_Args t);
       o_list "env" EnvVar_value (tm_Env t); o_str "workingDir" (tm_WorkingDir t);
       o_opt "computeResources" StepResources_value (tm_Resources t);
       o_str "imagePullPolicy" (tm_ImagePullPolicy t);
       o_opt "securityContext" (fun c => Some (SecurityContext_value c)) (tm_SecurityContext t);
       o_list "envFrom" (fun c => Some (EnvFromSource_value c)) (tm_EnvFrom t)].

Definition Sidecar_value (s : Sidecar) : option value :=
  obj [f_str "name" (sc_Name s); f_str "image" (sc_Image s); o_list "command" str_value (sc_Command s);
       o_list "args" str_value (sc_Args s); o_str "script" (sc_Script s); o_list "env" EnvVar_value (sc_Env s);
       o_str "workingDir" (sc_WorkingDir s); o_opt "computeResources" StepResources_value (sc_Resources s);
       o_list "volumeMounts" VolumeMount_value (sc_VolumeMounts s);
       o_list "workspaces" WorkspaceUsage_value (sc_Workspaces s); o_list "ports" ContainerPort_value (sc_Ports s);
       o_str "imagePullPolicy" (sc_ImagePullPolicy s);
       o_opt "securityContext" (fun c => Some (SecurityContext_value c)) (sc_SecurityContext s);
       o_list "envFrom" (fun c => Some (EnvFromSource_value c)) (sc_EnvFrom s)].

Definition TaskSpec_value (t : TaskSpec) : option value :=
  obj [o_list "params" ParamSpec_value (ts_Params t); o_list "results" ResultSpec_value (ts_Results t);
       o_list "workspaces" WorkspaceDecl_value (ts_Workspaces t); f_list "steps" Step_value (ts_Steps t);
       o_str "displayName" (ts_DisplayName t); o_str "description" (ts_Description t);
       o_str "timeout" (ts_Timeout t); o_list "volumes" Volume_value (ts_Volumes t);
       o_opt "stepTemplate" StepTemplate_value (ts_StepTemplate t); o_list "sidecars" Sidecar_value (ts_Sidecars t)].

Definition ResolverParam_value (p : ResolverParam) : option value :=
  obj [f_str "name" (rp_Name p); f_enc "value" (ParamValue_value (rp_Value p))].

Definition TaskRef_value (r : TaskRef) : option value :=
  obj [o_str "name" (tr_Name r); o_str "kind" (tr_Kind r); o_str "resolver" (tr_Resolver r);
       o_list "params" ResolverParam_value (tr_ResolverParams r)].

Definition MatrixParam_value (p : MatrixParam) : option value :=
  obj [f_str "name" (mp_Name p); f_list "value" str_value (mp_Value p)].

Definition MatrixInclude_value (i : MatrixInclude) : option value :=
  obj [o_str "name" (mi_Name i); o_list "params" Param_value (mi_Params i)].

Definition Matrix_value (m : Matrix) : option value :=
  obj [o_list "params" MatrixParam_value (mx_Params m); o_list "include" MatrixInclude_value (mx_Include m)].

Definition PipelineTask_value (p : PipelineTask) : option value :=
  obj [f_str "name" (pt_Name p); o_str "displayName" (pt_DisplayName p); o_opt "taskRef" TaskRef_value (pt_TaskRef p);
       o_opt "taskSpec" TaskSpec_value (pt_TaskSpec p); o_list "params" Param_value (pt_Params p);
       o_list "workspaces" WorkspaceBinding_value (pt_Workspaces p); o_list "runAfter" str_value (pt_RunAfter p);
       o_list "when" WhenExpression_value (pt_When p); o_int "retries" (pt_Retries p);
       o_str "timeout" (pt_Timeout p); o_opt "matrix" Matrix_value (pt_Matrix p)].

Definition Timeouts_value (t : Timeouts) : option value :=
  obj [o_str "pipeline" (to_Pipeline t); o_str "tasks" (to_Tasks t); o_str "finally" (to_Finally t)].

Definition PipelineWorkspaceDecl_value (d : PipelineWorkspaceDecl) : option value :=
  obj [f_str "name" (pwd_Name d); o_str "description" (pwd_Description d); o_bool "optional" (pwd_Optional d)].

Definition PipelineResultSpec_value (r : PipelineResultSpec) : option value :=
  obj [f_str "name" (prs_Name r); o_str "description" (prs_Description r); f_enc "value" (ParamValue_value (prs_Value r))].

Definition PipelineSpec_value (s : PipelineSpec) : option value :=
  obj [o_str "displayName" (spec_DisplayName s); o_str "description" (spec_Description s);
       o_list "params" ParamSpec_value (spec_Params s);
       o_list "workspaces" PipelineWorkspaceDecl_value (spec_Workspaces s);
       f_list "tasks" PipelineTask_value (spec_Tasks s); o_list "finally" PipelineTask_value (spec_Finally s);
       o_list "results" PipelineResultSpec_value (spec_Results s); o_opt "timeouts" Timeouts_value (spec_Timeouts s)].
End Encode.

(** ** run.go: [buildPipelineRun] *)
Section Build.
Context {K : CoreV1} {J : CoreJson}.

(** [backend.PipelineRunInvocation]; the log sink is whether it exposes a reporter
    and sidecar emission. *)
Record PipelineRunInvocation := mkPipelineRunInvocation {
  pri_RunID : string;
  pri_PipelineRunName : string;
  pri_Pipeline : Pipeline;
  pri_Tasks : gmap string Task;
  pri_Params : list Param;
  pri_Workspaces : gmap string WorkspaceMount;
}.

(** A failed encoding leaves the empty map. *)
Definition spec_map (v : option value) : object := default ∅ (v ← v; as_map v).

Definition pipelineSpecToMap (pl : Pipeline) : object := spec_map (PipelineSpec_value (pl_Spec pl)).

Definition strip_step (s : value) : value :=
  match s with VMap sm => VMap (delete "description" (delete "displayName" sm)) | _ => s end.

Definition map_slice (k : string) (f : value -> value) (m : object) : object :=
  match m !! k with Some (VSlice l) => <[k := VSlice (map f l)]> m | _ => m end.

Definition taskSpecToMap (ts : TaskSpec) : object := map_slice "steps" strip_step (spec_map (TaskSpec_value ts)).

Definition inlineTaskSpec (tasks : gmap string Task) (pt : object) : object :=
  match pt !! "taskRef" with
  | Some (VMap ref) =>
    match tasks !! string_field "name" ref with
    | None => pt
    | Some tk =>
      let tsm := taskSpecToMap (task_Spec tk) in
      let '(pt, tsm) :=
        match tsm !! "timeout" with
        | Some to => (match pt !! "timeout" with Some _ => pt | None => <["timeout" := to]> pt end, delete "timeout" tsm)
        | None => (pt, tsm)
        end in
      delete "taskRef" (<["taskSpec" := VMap tsm]> pt)
    end
  | _ => pt
  end.

Definition inline_value (tasks : gmap string Task) (t : value) : value :=
  match t with VMap m => VMap (inlineTaskSpec tasks m) | _ => t end.

Definition paramToMap (p : Param) : value :=
  let v := p_Value p in
  VMap (<["value" := if String.eqb (pv_Type v) ParamTypeArray then VSlice (map VString (pv_ArrayVal v))
                     else if String.eqb (pv_Type v) ParamTypeObject then map_value (pv_ObjectVal v)
                     else VString (pv_StringVal v)]>
        {["name" := VString (p_Name p)]}).

(** Every declared workspace is backed by a fresh volume claim. *)
Definition workspace_binding (w : object) : value :=
  VMap (list_to_map
    [("name", VString (string_field "name" w));
     ("volumeClaimTemplate", VMap {["spec" := VMap (list_to_map
        [("accessModes", VSlice [VString "ReadWriteOnce"]);
         ("resources", VMap {["requests" := VMap {["storage" := VString "1Gi"]}]})])]})]).

Definition timeouts_map (t : Timeouts) : object :=
  let set k v (m : object) := if String.eqb v "" then m else <[k := VString v]> m in
  set "finally" (to_Finally t) (set "tasks" (to_Tasks t) (set "pipeline" (to_Pipeline t) ∅)).

(** The [pipelineSpec] that is submitted. *)
Definition submitted_spec (input : PipelineRunInvocation) : object :=
  let m := delete "timeouts" (pipelineSpecToMap (pri_Pipeline input)) in
  map_slice "finally" (inline_value (pri_Tasks input)) (map_slice "tasks" (inline_value (pri_Tasks input)) m).

Definition buildPipelineRun (input : PipelineRunInvocation) (namespace : string) : object :=
  let pipelineSpec := submitted_spec input in
  let spec : object := {["pipelineSpec" := VMap pipelineSpec]} in
  let spec := match spec_Timeouts (pl_Spec (pri_Pipeline input)) with
              | Some t => let out := timeouts_map t in if bool_decide (out = ∅) then spec else <["timeouts" := VMap out]> spec
              | None => spec
              end in
  let spec := match pri_Params input with [] => spec | ps => <["params" := VSlice (map paramToMap ps)]> spec end in
  let spec := match pipelineSpec !! "workspaces" with
              | Some (VSlice (w :: ws)) =>
                <["workspaces" := VSlice (map workspace_binding (omap as_map (w :: ws)))]> spec
              | _ => spec
              end in
  list_to_map
    [("apiVersion", VString "tekton.dev/v1"); ("kind", VString "PipelineRun");
     ("metadata", VMap (list_to_map [("name", VString (pri_PipelineRunName input)); ("namespace", VString namespace)]));
     ("spec", VMap spec)].

Definition shortRunID (rid : string) : string :=
  if 8 <=? String.length rid then String.substring 0 8 rid else rid.

(** run.go: [stepDisplayNameLookup] *)
Definition task_named (pl : Pipeline) (taskName : string) : option PipelineTask :=
  List.find (fun pt => String.eqb (pt_Name pt) taskName) (all_tasks pl).

Definition invocation_spec (input : PipelineRunInvocation) (pt : PipelineTask) : option TaskSpec :=
  match pt_TaskSpec pt, pt_TaskRef pt with
  | Some s, _ => Some s
  | None, Some r => task_Spec <$> (pri_Tasks input !! tr_Name r)
  | None, None => None
  end.

Definition stepDisplayNameLookup (input : PipelineRunInvocation) (taskName : string) : gmap string string :=
  match pt ← task_named (pri_Pipeline input) taskName; invocation_spec input pt with
  | None => ∅
  | Some spec =>
    foldl (fun (m : gmap string string) s =>
             if String.eqb (st_DisplayName s) "" then m else <[st_Name s := st_DisplayName s]> m) ∅ (ts_Steps spec)
  end.

(** ** volumes.go *)
Definition resolveTaskSpec (input : PipelineRunInvocation) (pt : PipelineTask) : TaskSpec :=
  default zero_TaskSpec (invocation_spec input pt).

(** [note]: every reference so far is optional. *)
Definition note (m : gmap string bool) (name : string) (o : option bool) : gmap string bool :=
  let o := match o with Some b => b | None => false end in
  <[name := match m !! name with Some prev => prev && o | None => o end]> m.

(** The configMap or secret a volume names. *)
Definition volume_configMap (v : Volume) : option ConfigMapSource :=
  c ← vol_ConfigMap v; if String.eqb (cm_Name c) "" then None else Some c.

Definition volume_secret (v : Volume) : option SecretSource :=
  match volume_configMap v with
  | Some _ => None
  | None => s ← vol_Secret v; if String.eqb (sec_SecretName s) "" then None else Some s
  end.

Definition note_volume (acc : gmap string bool * gmap string bool) (v : Volume) : gmap string bool * gmap string bool :=
  (match volume_configMap v with Some c => note acc.1 (cm_Name c) (cm_Optional c) | None => acc.1 end,
   match volume_secret v with Some s => note acc.2 (sec_SecretName s) (sec_Optional s) | None => acc.2 end).

Definition invocation_volumes (input : PipelineRunInvocation) : list Volume :=
  flat_map (fun pt => ts_Volumes (resolveTaskSpec input pt)) (all_tasks (pri_Pipeline input)).

Definition volumeSourceNames (input : PipelineRunInvocation) : gmap string bool * gmap string bool :=
  foldl note_volume (∅, ∅) (invocation_volumes input).

(** A ConfigMap or Secret written to the namespace: string and binary data. *)
Record applied := mkapplied {
  ap_secret : bool;
  ap_name : string;
  ap_data : gmap string string;
  ap_binary : gmap string string;
}.

(** [utf8.Valid] values go to [Data], the others to [BinaryData]. *)
Definition configmap_object (name : string) (data : gmap string string) : applied :=
  mkapplied false name (filter (fun kv => valid_utf8 kv.2 = true) data) (filter (fun kv => valid_utf8 kv.2 = false) data).

Definition secret_object (name : string) (data : gmap string string) : applied := mkapplied true name data ∅.

(** The stores (nil when not configured) and the API server's answers: the error of
    Create with whether it says "already exists", and of Update. *)
Record VolumeServices := mkVolumeServices {
  vs_ConfigMaps : option (string -> result (gmap string string));
  vs_Secrets : option (string -> result (gmap string string));
  vs_create : applied -> option (text * bool);
  vs_update : applied -> option text;
}.

Definition resolveConfigMap (sv : VolumeServices) (name : string) : result (gmap string string) :=
  match vs_ConfigMaps sv with
  | None => Err (Fmt "volume references configMap %q but no ConfigMap store is configured (pass --configmap or --configmap-dir)"
                   [TStr name])
  | Some resolve => resolve name
  end.

Definition resolveSecret (sv : VolumeServices) (name : string) : result (gmap string string) :=
  match vs_Secrets sv with
  | None => Err (Fmt "volume references secret %q but no Secret store is configured (pass --secret or --secret-dir)"
                   [TStr name])
  | Some resolve => resolve name
  end.

(** [upsertConfigMap] and [upsertSecret]; [None] is success. *)
Definition upsert (sv : VolumeServices) (ns : string) (o : applied) : option text :=
  let failed verb e := Fmt (verb +:+ (if ap_secret o then " Secret" else " ConfigMap") +:+ " %s/%s: %w")
                         [TStr ns; TStr (ap_name o); TErr e] in
  match vs_create sv o with
  | None => None
  | Some (e, false) => Some (failed "create" e)
  | Some (_, true) => failed "update" <$> vs_update sv o
  end.

(** One source of the loop: what was written so far, or the error that ends it. *)
Definition apply_source (sv : VolumeServices) (ns : string) (resolve : string -> result (gmap string string))
    (object_of : string -> gmap string string -> applied) (done : list applied) (source : string * bool)
    : list applied * option text :=
  match resolve source.1 with
  | Err e => (done, if source.2 then None else Some e)
  | Ok data => (done ++ [object_of source.1 data], upsert sv ns (object_of source.1 data))
  end.

Fixpoint apply_sources (sv : VolumeServices) (ns : string) (resolve : string -> result (gmap string string))
    (object_of : string -> gmap string string -> applied) (done : list applied) (sources : list (string * bool))
    : list applied * option text :=
  match sources with
  | [] => (done, None)
  | s :: sources' =>
    match apply_source sv ns resolve object_of done s with
    | (done', Some e) => (done', Some e)
    | (done', None) => apply_sources sv ns resolve object_of done' sources'
    end
  end.

Definition applyVolumeSources `{MapRange} (sv : VolumeServices) (ns : string) (input : PipelineRunInvocation)
    : list applied * option text :=
  let '(cm, sec) := volumeSourceNames input in
  match apply_sources sv ns (resolveConfigMap sv) configmap_object [] (map_range cm) with
  | (done, Some e) => (done, Some e)
  | (done, None) => apply_sources sv ns (resolveSecret sv) secret_object done (map_range sec)
  end.

(** ** run.go: [RunPipeline] *)

(** One poll for the default ServiceAccount: the Get's error, whether the deadline
    has passed, and the context's error while waiting for the next one. *)
Record sa_poll := mksa_poll {
  sp_get : option text;
  sp_late : bool;
  sp_ctx : option text;
}.

Fixpoint waitForDefaultServiceAccount (ns : string) (polls : list sa_poll) : option (result unit) :=
  match polls with
  | [] => None
  | p :: polls' =>
    match sp_get p with
    | None => Some (Ok tt)
    | Some e =>
      if sp_late p then
        Some (Err (Fmt "default ServiceAccount not provisioned in namespace %q within %v: %w" [TStr ns; TStr "30s"; TErr e]))
      else match sp_ctx p with
           | Some ce => Some (Err ce)
           | None => waitForDefaultServiceAccount ns polls'
           end
    end
  end.

(** The API server during one run.  [ca_createNamespace] is the error of the
    Create, and whether it says "already exists". *)
Record ClusterApi := mkClusterApi {
  ca_prepared : bool;
  ca_createNamespace : string -> option (text * bool);
  ca_polls : list sa_poll;
  ca_volumes : VolumeServices;
  ca_create : object -> result string;
  ca_rounds : list (watch_attempt pr_event);
  ca_ctxErr : option text;
}.

Definition ensureNamespace (api : ClusterApi) (name : string) : option (result unit) :=
  match ca_createNamespace api name with
  | Some (e, false) => Some (Err (Fmt "create namespace %q: %w" [TStr name; TErr e]))
  | _ => waitForDefaultServiceAccount name (ca_polls api)
  end.

Definition cluster_error (e : text) : watched := mkwatched empty_run_result (Some e) false [].

(** [None] when the server's answers are used up before the run has ended.  [sink]
    is whether the LogSink exposes a reporter. *)
Definition RunPipeline `{MapRange} {U : Unstructured} (api : ClusterApi) (sink : bool) (input : PipelineRunInvocation)
    : option watched :=
  if negb (ca_prepared api) then Some (cluster_error (lit "cluster backend not Prepared"))
  else
    let ns := "tkn-act-" +:+ shortRunID (pri_RunID input) in
    r ← ensureNamespace api ns;
    match r with
    | Err e => Some (cluster_error e)
    | Ok _ =>
      match applyVolumeSources (ca_volumes api) ns input with
      | (_, Some e) => Some (cluster_error e)
      | (_, None) =>
        match ca_create api (buildPipelineRun input ns) with
        | Err e => Some (cluster_error (Fmt "create PipelineRun: %w" [TErr e]))
        | Ok name => watchPipelineRun (pri_Pipeline input) sink name (ca_ctxErr api) (ca_rounds api)
        end
      end
    end.
End Build.
Arguments mkPipelineRunInvocation {K}.

(** ** Looking a field up in an encoded struct *)

Definition only_key (k : string) (f : fields) : Prop :=
  match f with Some l => Forall (fun kv => kv.1 = k) l | None => True end.

Lemma only_key_val k v : only_key k (f_val k v).
Proof. by repeat constructor. Qed.
Lemma only_key_str k s : only_key k (f_str k s).
Proof. apply only_key_val. Qed.
Lemma only_key_o_str k s : only_key k (o_str k s).
Proof. unfold o_str. destruct (String.eqb s ""); [constructor|apply only_key_val]. Qed.
Lemma only_key_o_bool k b : only_key k (o_bool k b).
Proof. destruct b; [apply only_key_val|constructor]. Qed.
Lemma only_key_o_int k z : only_key k (o_int k z).
Proof. unfold o_int. destruct (z =? 0)%Z; [constructor|apply only_key_val]. Qed.
Lemma only_key_enc k v : only_key k (f_enc k v).
Proof. destruct v; [apply only_key_val|done]. Qed.
Lemma only_key_list {A} k (f : A -> option value) l : only_key k (f_list k f l).
Proof. apply only_key_enc. Qed.
Lemma only_key_o_list {A} k (f : A -> option value) l : only_key k (o_list k f l).
Proof. destruct l; [constructor|apply only_key_list]. Qed.
Lemma only_key_o_opt {A} k (f : A -> option value) o : only_key k (o_opt k f o).
Proof. destruct o; [apply only_key_enc|constructor]. Qed.

Create HintDb json_fields.
#[export] Hint Resolve only_key_val only_key_str only_key_o_str only_key_o_bool only_key_o_int only_key_enc
  only_key_list only_key_o_list only_key_o_opt : json_fields.

Lemma obj_Some fs m : obj fs = Some (VMap m) -> exists ls, fs = map Some ls /\ m = list_to_map (concat ls).
Proof.
  unfold obj. destruct (mapM id fs) as [ls|] eqn:E; [|done]. simpl. intros [= <-]. exists ls. split; [|done].
  apply mapM_Some in E. induction E as [|f l fs ls Hf _ IH]; [done|]. simpl. by rewrite <-IH, <-Hf.
Qed.

Lemma lookup_other_key k k' (l : list (string * value)) :
  k <> k' -> Forall (fun kv => kv.1 = k) l -> (list_to_map l : object) !! k' = None.
Proof.
  intros Hne Hl. apply not_elem_of_list_to_map. intros (kv & -> & Hkv)%list_elem_of_fmap.
  rewrite Forall_forall in Hl. by apply Hne, symmetry, Hl.
Qed.

(** A key no field has. *)
Lemma concat_other_key ks (ls : list (list (string * value))) k :
  Forall2 only_key ks (map Some ls) -> k ∉ ks -> (list_to_map (concat ls) : object) !! k = None.
Proof.
  revert ks; induction ls as [|l ls IH]; intros ks Hks Hk; [done|].
  inversion Hks as [|k0 ? ks' ? Hl Hks']; subst. apply not_elem_of_cons in Hk as [Hne Hk].
  simpl. rewrite list_to_map_app, lookup_union_r by (by apply (lookup_other_key k0)). by eapply IH.
Qed.

Lemma obj_lookup_other ks fs m k :
  Forall2 only_key ks fs -> obj fs = Some (VMap m) -> k ∉ ks -> m !! k = None.
Proof. intros Hks (ls & -> & ->)%obj_Some. by apply concat_other_key. Qed.

(** The field [k] of an encoded struct is what its own field contributed. *)
Lemma obj_lookup ks fs m i k f :
  Forall2 only_key ks fs -> NoDup ks -> obj fs = Some (VMap m) -> ks !! i = Some k -> fs !! i = Some f ->
  m !! k = match f with Some l => (list_to_map l : object) !! k | None => None end.
Proof.
  intros Hks Hnd (ls & -> & ->)%obj_Some. revert ks i Hks Hnd.
  induction ls as [|l ls IH]; intros ks i Hks Hnd Hi Hf; [done|].
  inversion Hks as [|k0 ? ks' ? Hl Hks']; subst. apply NoDup_cons in Hnd as [Hk0 Hnd].
  simpl. rewrite list_to_map_app. destruct i as [|i]; simpl in Hi, Hf.
  - injection Hi as ->. injection Hf as <-. rewrite lookup_union, (concat_other_key ks') by done.
    by destruct ((list_to_map l : object) !! k).
  - rewrite lookup_union_r; [by eapply IH|]. apply (lookup_other_key k0); [|done].
    intros ->. apply Hk0. by eapply list_elem_of_lookup_2.
Qed.

Lemma obj_map fs v : obj fs = Some v -> exists m, v = VMap m.
Proof. unfold obj. destruct (mapM id fs); [|done]. intros [= <-]. by eexists. Qed.

Lemma obj_field fs v i f : obj fs = Some v -> fs !! i = Some f -> is_Some f.
Proof.
  intros H Hi. destruct (obj_map _ _ H) as [m ->]. apply obj_Some in H as (ls & -> & _).
  rewrite list_lookup_fmap in Hi. destruct (ls !! i) as [l|]; [|done]. simpl in Hi. injection Hi as <-. by exists l.
Qed.

(** The keys of the encoded struct of [H], and its field number [i]. *)
Ltac encoded_keys H ks :=
  match type of H with
  | obj ?fs = _ =>
    assert (Forall2 only_key ks fs) by (repeat constructor; auto with json_fields);
    assert (NoDup ks) by (by apply (bool_decide_eq_true_1 (NoDup _)))
  end.

Ltac field_of H i :=
  match goal with
  | Hk : Forall2 only_key ?ks _, Hn : NoDup ?ks |- _ => apply (obj_lookup ks _ _ i _ _ Hk Hn H eq_refl eq_refl)
  end.

Section SubmitFacts.
Context {K : CoreV1} {J : CoreJson}.

(** [if s != "" then the string else absent] *)
Definition if_set (s : string) : option value := if String.eqb s "" then None else Some (VString s).

Lemma o_str_lookup k s :
  match o_str k s with Some l => (list_to_map l : object) !! k | None => None end = if_set s.
Proof. unfold o_str, if_set. destruct (String.eqb s ""); [done|]. cbn. by rewrite lookup_insert_eq. Qed.

Lemma o_opt_lookup {A} k (f : A -> option value) o :
  match o_opt k f o with Some l => (list_to_map l : object) !! k | None => None end = (a ← o; f a).
Proof. destruct o as [a|]; [|done]. simpl. destruct (f a); [|done]. cbn. by rewrite lookup_insert_eq. Qed.

Lemma f_list_lookup {A} k (f : A -> option value) l :
  match f_list k f l with Some l => (list_to_map l : object) !! k | None => None end = VSlice <$> mapM f l.
Proof. unfold f_list, f_enc. destruct (mapM f l); [|done]. cbn. by rewrite lookup_insert_eq. Qed.

Lemma TaskSpec_fields t m :
  TaskSpec_value t = Some (VMap m) ->
  m !! "timeout" = if_set (ts_Timeout t) /\ m !! "steps" = VSlice <$> mapM Step_value (ts_Steps t).
Proof.
  unfold TaskSpec_value. intros H. rewrite <-(o_str_lookup "timeout"), <-(f_list_lookup "steps").
  encoded_keys H ["params"; "results"; "workspaces"; "steps"; "displayName"; "description"; "timeout";
                  "volumes"; "stepTemplate"; "sidecars"].
  split; [by field_of H 6|by field_of H 3].
Qed.

Lemma PipelineTask_fields p m :
  PipelineTask_value p = Some (VMap m) ->
  m !! "taskRef" = (r ← pt_TaskRef p; TaskRef_value r) /\
  m !! "taskSpec" = (s ← pt_TaskSpec p; TaskSpec_value s) /\ m !! "timeout" = if_set (pt_Timeout p).
Proof.
  unfold PipelineTask_value. intros H.
  rewrite <-(o_opt_lookup "taskRef"), <-(o_opt_lookup "taskSpec"), <-(o_str_lookup "timeout").
  encoded_keys H ["name"; "displayName"; "taskRef"; "taskSpec"; "params"; "workspaces"; "runAfter"; "when"; "retries";
                  "timeout"; "matrix"].
  split_and!; [by field_of H 2|by field_of H 3|by field_of H 9].
Qed.

Lemma TaskRef_name r m : TaskRef_value r = Some (VMap m) -> string_field "name" m = tr_Name r.
Proof.
  unfold TaskRef_value. intros H. assert (m !! "name" = if_set (tr_Name r)) as Hn.
  { rewrite <-(o_str_lookup "name"). encoded_keys H ["name"; "kind"; "resolver"; "params"]. by field_of H 0. }
  unfold string_field, if_set in *. rewrite Hn. by destruct (String.eqb_spec (tr_Name r) "") as [->|].
Qed.

Lemma f_list_is_Some {A} k (f : A -> option value) l : is_Some (f_list k f l) -> exists vs, mapM f l = Some vs.
Proof. unfold f_list, f_enc. destruct (mapM f l) as [vs|]; [by exists vs|]. by intros [? ?]. Qed.

Lemma PipelineSpec_fields s m :
  PipelineSpec_value s = Some (VMap m) ->
  (exists vs, mapM PipelineTask_value (spec_Tasks s) = Some vs /\ m !! "tasks" = Some (VSlice vs)) /\
  (spec_Finally s <> [] -> exists vs, mapM PipelineTask_value (spec_Finally s) = Some vs /\ m !! "finally" = Some (VSlice vs)).
Proof.
  unfold PipelineSpec_value. intros H.
  pose proof (obj_field _ _ 4 _ H eq_refl) as H4. pose proof (obj_field _ _ 5 _ H eq_refl) as H5.
  encoded_keys H ["displayName"; "description"; "params"; "workspaces"; "tasks"; "finally"; "results"; "timeouts"].
  assert (m !! "tasks" = VSlice <$> mapM PipelineTask_value (spec_Tasks s)) as Ht
    by (rewrite <-(f_list_lookup "tasks"); by field_of H 4).
  assert (m !! "finally" = match o_list "finally" PipelineTask_value (spec_Finally s) with
                           | Some l => (list_to_map l : object) !! "finally" | None => None end) as Hf
    by (by field_of H 5).
  split.
  - apply f_list_is_Some in H4 as [vs Hvs]. exists vs. by rewrite Ht, Hvs.
  - intros Hne. unfold o_list in *. destruct (spec_Finally s) as [|p l]; [done|].
    apply f_list_is_Some in H5 as [vs Hvs]. exists vs. split; [done|]. by rewrite Hf, f_list_lookup, Hvs.
Qed.

Lemma map_slice_other k f m k' : k <> k' -> map_slice k f m !! k' = m !! k'.
Proof. intros Hne. unfold map_slice. repeat case_match; try done. by rewrite lookup_insert_ne. Qed.

Lemma map_slice_slice k f m l : m !! k = Some (VSlice l) -> map_slice k f m !! k = Some (VSlice (map f l)).
Proof. intros H. unfold map_slice. rewrite H. by rewrite lookup_insert_eq. Qed.

Lemma map_slice_None k f m : m !! k = None -> map_slice k f m !! k = None.
Proof. intros H. unfold map_slice. by rewrite H. Qed.

(** A step is submitted as it is encoded, but for its display name and its description. *)
Definition submitted_step (st : Step) (v : value) : Prop :=
  exists sm out, Step_value st = Some (VMap sm) /\ v = VMap out /\
    out !! "displayName" = None /\ out !! "description" = None /\
    forall k, k ∉ ["displayName"; "description"] -> out !! k = sm !! k.

(** What becomes of a task that names a known Task. *)
Definition inlined (tk : Task) (pt : PipelineTask) (v : value) : Prop :=
  exists ptm tsm0 out tsm,
    PipelineTask_value pt = Some (VMap ptm) /\ TaskSpec_value (task_Spec tk) = Some (VMap tsm0) /\ v = VMap out /\
    out !! "taskRef" = None /\ out !! "taskSpec" = Some (VMap tsm) /\
    tsm !! "timeout" = None /\
    (exists steps, tsm !! "steps" = Some (VSlice steps) /\ Forall2 submitted_step (ts_Steps (task_Spec tk)) steps) /\
    out !! "timeout" = (if String.eqb (pt_Timeout pt) "" then if_set (ts_Timeout (task_Spec tk)) else Some (VString (pt_Timeout pt))) /\
    (forall k, k ∉ ["taskRef"; "taskSpec"; "timeout"] -> out !! k = ptm !! k) /\
    (forall k, k ∉ ["timeout"; "steps"] -> tsm !! k = tsm0 !! k).

Lemma strip_step_submitted st v : Step_value st = Some v -> submitted_step st (strip_step v).
Proof.
  intros Hv. destruct (obj_map _ _ Hv) as [sm ->]. exists sm, (delete "description" (delete "displayName" sm)).
  split_and!; [done|done|by rewrite lookup_delete_ne, lookup_delete_eq|by rewrite lookup_delete_eq|].
  intros k Hk. rewrite !not_elem_of_cons in Hk. destruct Hk as (? & ? & _). by rewrite !lookup_delete_ne.
Qed.

Lemma TaskSpec_steps ts m : TaskSpec_value ts = Some (VMap m) -> exists l, mapM Step_value (ts_Steps ts) = Some l.
Proof.
  unfold TaskSpec_value. intros H. pose proof (obj_field _ _ 3 _ H eq_refl) as H3. by apply f_list_is_Some in H3.
Qed.

Lemma taskSpecToMap_fields ts m :
  TaskSpec_value ts = Some (VMap m) ->
  taskSpecToMap ts !! "timeout" = if_set (ts_Timeout ts) /\
  (exists steps, taskSpecToMap ts !! "steps" = Some (VSlice steps) /\ Forall2 submitted_step (ts_Steps ts) steps) /\
  forall k, k <> "steps" -> taskSpecToMap ts !! k = m !! k.
Proof.
  intros H. destruct (TaskSpec_fields ts m H) as [Ht Hs]. destruct (TaskSpec_steps ts m H) as [l Hl].
  unfold taskSpecToMap, spec_map. rewrite H. simpl. unfold map_slice. rewrite Hs, Hl. simpl.
  split_and!; [by rewrite lookup_insert_ne| |intros k Hk; by rewrite lookup_insert_ne].
  exists (map strip_step l). split; [by rewrite lookup_insert_eq|]. apply mapM_Some in Hl. clear -Hl.
  induction Hl as [|st v sts vs Hv _ IH]; constructor; [by apply strip_step_submitted|done].
Qed.

Lemma inlineTaskSpec_lookup tasks (ptm refm : object) tk :
  ptm !! "taskRef" = Some (VMap refm) -> tasks !! string_field "name" refm = Some tk ->
  let out := inlineTaskSpec tasks ptm in
  let tsm := taskSpecToMap (task_Spec tk) in
  out !! "taskRef" = None /\ out !! "taskSpec" = Some (VMap (delete "timeout" tsm)) /\
  out !! "timeout" = (match ptm !! "timeout" with Some v => Some v | None => tsm !! "timeout" end) /\
  forall k, k ∉ ["taskRef"; "taskSpec"; "timeout"] -> out !! k = ptm !! k.
Proof.
  intros Hr Htk. unfold inlineTaskSpec. rewrite Hr, Htk. cbv zeta.
  set (tsm := taskSpecToMap (task_Spec tk)). destruct (tsm !! "timeout") as [to|] eqn:Hto.
  - rewrite lookup_delete_eq, (lookup_delete_ne _ "taskRef" "taskSpec"), (lookup_delete_ne _ "taskRef" "timeout"),
      lookup_insert_eq, lookup_insert_ne by done.
    split_and!; [done|done| |].
    + destruct (ptm !! "timeout") eqn:E; [done|by rewrite lookup_insert_eq].
    + intros k Hk. rewrite !not_elem_of_cons in Hk. destruct Hk as (? & ? & ? & _).
      rewrite lookup_delete_ne, lookup_insert_ne by done. destruct (ptm !! "timeout"); [done|by rewrite lookup_insert_ne].
  - rewrite lookup_delete_eq, (lookup_delete_ne _ "taskRef" "taskSpec"), (lookup_delete_ne _ "taskRef" "timeout"),
      lookup_insert_eq, lookup_insert_ne by done.
    rewrite (delete_id tsm) by done. split_and!; [done|done|by destruct (ptm !! "timeout")|].
    intros k Hk. rewrite !not_elem_of_cons in Hk. destruct Hk as (? & ? & ? & _).
    by rewrite lookup_delete_ne, lookup_insert_ne by done.
Qed.

Lemma PipelineTask_ref pt ptm r :
  PipelineTask_value pt = Some (VMap ptm) -> pt_TaskRef pt = Some r ->
  exists refm, ptm !! "taskRef" = Some (VMap refm) /\ string_field "name" refm = tr_Name r.
Proof.
  intros Hpt Hr. destruct (PipelineTask_fields pt ptm Hpt) as (Href & _). rewrite Hr in Href. simpl in Href.
  destruct (TaskRef_value r) as [rv|] eqn:E.
  - destruct (obj_map _ _ E) as [refm ->]. exists refm. split; [done|]. by apply TaskRef_name.
  - exfalso. unfold PipelineTask_value in Hpt. apply obj_Some in Hpt as (ls & Hls & _).
    rewrite Hr in Hls. unfold o_opt at 1 in Hls. rewrite E in Hls.
    destruct ls as [|? [|? [|? ls]]]; discriminate Hls.
Qed.

Lemma inline_value_inlined tasks pt r tk v tsv :
  PipelineTask_value pt = Some v -> pt_TaskRef pt = Some r -> tasks !! tr_Name r = Some tk ->
  TaskSpec_value (task_Spec tk) = Some tsv -> inlined tk pt (inline_value tasks v).
Proof.
  intros Hpt Hr Htk Hts. destruct (obj_map _ _ Hpt) as [ptm ->]. destruct (obj_map _ _ Hts) as [tsm0 ->].
  destruct (PipelineTask_ref pt ptm r Hpt Hr) as (refm & Hrefm & Hname). rewrite <-Hname in Htk.
  destruct (inlineTaskSpec_lookup tasks ptm refm tk Hrefm Htk) as (H1 & H2 & H3 & H4).
  destruct (taskSpecToMap_fields (task_Spec tk) tsm0 Hts) as (Htt & Htsteps & Hrest).
  destruct (PipelineTask_fields pt ptm Hpt) as (_ & _ & Hto).
  exists ptm, tsm0, (inlineTaskSpec tasks ptm), (delete "timeout" (taskSpecToMap (task_Spec tk))).
  split_and!; [done|done|done|done|done|by rewrite lookup_delete_eq| | |done|].
  - by rewrite lookup_delete_ne by done.
  - rewrite H3, Hto, Htt. unfold if_set at 1. by destruct (String.eqb (pt_Timeout pt) "").
  - intros k Hk. rewrite !not_elem_of_cons in Hk. destruct Hk as (? & ? & _). rewrite lookup_delete_ne by done. by apply Hrest.
Qed.

(** The other tasks are submitted as encoded. *)
Lemma inline_value_other tasks pt v :
  PipelineTask_value pt = Some v -> (forall r, pt_TaskRef pt = Some r -> tasks !! tr_Name r = None) ->
  inline_value tasks v = v.
Proof.
  intros Hpt Hnone. destruct (obj_map _ _ Hpt) as [ptm ->]. unfold inline_value, inlineTaskSpec.
  destruct (PipelineTask_fields pt ptm Hpt) as (Href & _). destruct (pt_TaskRef pt) as [r|] eqn:Hr.
  - destruct (PipelineTask_ref pt ptm r Hpt Hr) as (refm & Hrefm & Hname). rewrite Hrefm, Hname.
    by rewrite (Hnone r eq_refl).
  - by rewrite Href.
Qed.

(** One entry of [pipelineSpec.tasks] or [finally]. *)
Definition submitted_task (tasks : gmap string Task) (pt : PipelineTask) (v : value) : Prop :=
  match tk ← (r ← pt_TaskRef pt; tasks !! tr_Name r); Some tk with
  | Some tk => inlined tk pt v
  | None => PipelineTask_value pt = Some v
  end.

Lemma submitted_all tasks pts vs :
  (forall n tk, tasks !! n = Some tk -> is_Some (TaskSpec_value (task_Spec tk))) ->
  mapM PipelineTask_value pts = Some vs -> Forall2 (submitted_task tasks) pts (map (inline_value tasks) vs).
Proof.
  intros Henc Hm%mapM_Some. induction Hm as [|pt v pts vs Hv _ IH]; simpl; [constructor|]. constructor; [|exact IH].
  unfold submitted_task. destruct (pt_TaskRef pt) as [r|] eqn:Hr; simpl.
  - destruct (tasks !! tr_Name r) as [tk|] eqn:Htk; simpl.
    + destruct (Henc _ _ Htk) as [tsv Hts]. by eapply inline_value_inlined.
    + rewrite (inline_value_other tasks pt v Hv); [done|]. intros r' Hr'. congruence.
  - rewrite (inline_value_other tasks pt v Hv); [done|]. intros r' Hr'. congruence.
Qed.

(** C20: the schema of what is submitted.  The pipelineSpec has no [timeouts];
    each task and finally task that names a known Task carries that Task's spec
    inlined, without [timeout] and without step display names and descriptions,
    no [taskRef], and the Task's timeout moved up unless it has its own; every
    other field and every other task is as written. *)
Theorem buildPipelineRun_schema (input : PipelineRunInvocation) (m : object)
    (Henc : PipelineSpec_value (pl_Spec (pri_Pipeline input)) = Some (VMap m))
    (Htasks : forall n tk, pri_Tasks input !! n = Some tk -> is_Some (TaskSpec_value (task_Spec tk))) :
  let ps := submitted_spec input in
  ps !! "timeouts" = None /\
  (forall k, k ∉ ["timeouts"; "tasks"; "finally"] -> ps !! k = m !! k) /\
  (exists l, ps !! "tasks" = Some (VSlice l) /\
     Forall2 (submitted_task (pri_Tasks input)) (spec_Tasks (pl_Spec (pri_Pipeline input))) l) /\
  (spec_Finally (pl_Spec (pri_Pipeline input)) <> [] ->
   exists l, ps !! "finally" = Some (VSlice l) /\
     Forall2 (submitted_task (pri_Tasks input)) (spec_Finally (pl_Spec (pri_Pipeline input))) l).
Proof.
  intros ps. subst ps. unfold submitted_spec, pipelineSpecToMap, spec_map. rewrite Henc. cbn [default option_bind as_map mbind].
  destruct (PipelineSpec_fields _ _ Henc) as [Ht Hf].
  destruct Ht as (ts & Hts & Ht). split_and!.
  - by rewrite !map_slice_other, lookup_delete_eq by done.
  - intros k Hk. rewrite !not_elem_of_cons in Hk. destruct Hk as (? & ? & ? & _).
    by rewrite !map_slice_other, lookup_delete_ne by done.
  - exists (map (inline_value (pri_Tasks input)) ts). rewrite map_slice_other by done.
    split; [apply map_slice_slice; by rewrite lookup_delete_ne|by apply submitted_all].
  - intros (fs & Hfs & Hfm)%Hf. exists (map (inline_value (pri_Tasks input)) fs).
    split; [|by apply submitted_all]. apply map_slice_slice. by rewrite map_slice_other, lookup_delete_ne.
Qed.

(** a Task embedded under [taskSpec] is submitted with its [timeout], the field
    that inlineTaskSpec moves away because the cluster rejects it there; only
    tasks with a [taskRef] are treated. *)
Theorem inline_taskspec_keeps_timeout tasks pt ts ptm tsm
    (Href : pt_TaskRef pt = None) (Hspec : pt_TaskSpec pt = Some ts) (Hto : ts_Timeout ts <> "")
    (Hpt : PipelineTask_value pt = Some (VMap ptm)) (Hts : TaskSpec_value ts = Some (VMap tsm)) :
  inlineTaskSpec tasks ptm = ptm /\ ptm !! "taskSpec" = Some (VMap tsm) /\
  tsm !! "timeout" = Some (VString (ts_Timeout ts)).
Proof.
  destruct (PipelineTask_fields pt ptm Hpt) as (Hr & Hs & _). rewrite Href in Hr. rewrite Hspec in Hs.
  destruct (TaskSpec_fields ts tsm Hts) as (Ht & _). split_and!.
  - unfold inlineTaskSpec. by rewrite Hr.
  - by rewrite Hs.
  - rewrite Ht. unfold if_set. by destruct (String.eqb_spec (ts_Timeout ts) "").
Qed.
End SubmitFacts.

(** ** Volume sources *)
Section VolumeFacts.
Context {K : CoreV1} {J : CoreJson} `{MapRange}.

(** The references to configMaps and to secrets, with their [optional] flag. *)
Definition configMap_refs (vols : list Volume) : list (string * bool) :=
  omap (fun v => (fun c => (cm_Name c, default false (cm_Optional c))) <$> volume_configMap v) vols.

Definition secret_refs (vols : list Volume) : list (string * bool) :=
  omap (fun v => (fun s => (sec_SecretName s, default false (sec_Optional s))) <$> volume_secret v) vols.

Definition flags_of (n : string) (refs : list (string * bool)) : list bool :=
  map snd (List.filter (fun r => String.eqb r.1 n) refs).

(** What is recorded for a source: whether every reference is optional. *)
Definition all_optional (refs : list (string * bool)) (n : string) : option bool :=
  match flags_of n refs with [] => None | l => Some (forallb id l) end.

Lemma all_optional_snoc refs r n :
  all_optional (refs ++ [r]) n =
  if String.eqb r.1 n then Some (match all_optional refs n with Some b => b && r.2 | None => r.2 end)
  else all_optional refs n.
Proof.
  unfold all_optional, flags_of. rewrite List.filter_app, map_app. simpl.
  destruct (String.eqb r.1 n); simpl; [|by rewrite app_nil_r].
  destruct (map snd (List.filter _ refs)) as [|b l]; simpl; [by rewrite andb_true_r|].
  rewrite forallb_app. simpl. by rewrite andb_true_r, andb_assoc.
Qed.

Lemma note_lookup m n' o n :
  note m n' o !! n =
  if String.eqb n' n then Some (match m !! n with Some b => b && default false o | None => default false o end) else m !! n.
Proof.
  unfold note. destruct (String.eqb_spec n' n) as [<-|Hne]; [|by rewrite lookup_insert_ne].
  rewrite lookup_insert_eq. by destruct o.
Qed.

Lemma omap_snoc {A B} (f : A -> option B) l x :
  omap f (l ++ [x]) = omap f l ++ match f x with Some y => [y] | None => [] end.
Proof. by rewrite omap_app. Qed.

Lemma volumeSourceNames_lookup input n :
  (volumeSourceNames input).1 !! n = all_optional (configMap_refs (invocation_volumes input)) n /\
  (volumeSourceNames input).2 !! n = all_optional (secret_refs (invocation_volumes input)) n.
Proof.
  unfold volumeSourceNames. induction (invocation_volumes input) as [|v l [IH1 IH2]] using rev_ind; [done|].
  rewrite foldl_app. unfold configMap_refs, secret_refs in *. rewrite !omap_snoc. cbn [foldl].
  set (acc := foldl note_volume (∅, ∅) l) in *. unfold note_volume. cbn [fst snd].
  split.
  - destruct (volume_configMap v) as [c|]; simpl; [|by rewrite app_nil_r].
    rewrite all_optional_snoc, note_lookup. simpl. by rewrite IH1.
  - destruct (volume_secret v) as [c|]; simpl; [|by rewrite app_nil_r].
    rewrite all_optional_snoc, note_lookup. simpl. by rewrite IH2.
Qed.

(** One of the two loops. *)
Lemma apply_sources_spec sv ns resolve object_of done sources :
  let '(done', err) := apply_sources sv ns resolve object_of done sources in
  (exists new, done' = done ++ new /\
     forall o, o ∈ new -> exists n opt d, (n, opt) ∈ sources /\ resolve n = Ok d /\ o = object_of n d) /\
  match err with
  | None => forall n opt, (n, opt) ∈ sources ->
      (exists d, resolve n = Ok d /\ object_of n d ∈ done' /\ upsert sv ns (object_of n d) = None) \/
      (opt = true /\ exists e, resolve n = Err e)
  | Some e => (exists n, (n, false) ∈ sources /\ resolve n = Err e) \/
      (exists o, o ∈ done' /\ upsert sv ns o = Some e)
  end.
Proof.
  revert done; induction sources as [|[n opt] sources IH]; intros done; cbn [apply_sources].
  { split; [exists []; rewrite app_nil_r; set_solver|set_solver]. }
  unfold apply_source. cbn [fst snd]. destruct (resolve n) as [d|e] eqn:Hr.
  - destruct (upsert sv ns (object_of n d)) as [e|] eqn:Hu.
    + split; [|right; exists (object_of n d); set_solver]. exists [object_of n d]. split; [done|].
      intros o ->%list_elem_of_singleton. exists n, opt, d. set_solver.
    + specialize (IH (done ++ [object_of n d])). destruct (apply_sources _ _ _ _ _ _) as [done' err].
      destruct IH as ((new & -> & Hnew) & Herr). split.
      * exists ([object_of n d] ++ new). rewrite app_assoc. split; [done|].
        intros o [Ho%list_elem_of_singleton|Ho]%elem_of_app; [subst o; exists n, opt, d; set_solver|].
        destruct (Hnew o Ho) as (n' & opt' & d' & ? & ? & ?). exists n', opt', d'. set_solver.
      * destruct err as [e|].
        -- destruct Herr as [(n' & ? & ?)|?]; [left; exists n'; set_solver|by right].
        -- intros n' opt' [[= -> ->]|Hin]%elem_of_cons; [left; exists d; set_solver|by apply Herr].
  - destruct opt.
    + specialize (IH done). destruct (apply_sources _ _ _ _ _ _) as [done' err].
      destruct IH as ((new & -> & Hnew) & Herr). split.
      * exists new. split; [done|]. intros o Ho. destruct (Hnew o Ho) as (n' & opt' & d' & ? & ? & ?).
        exists n', opt', d'. set_solver.
      * destruct err as [e'|].
        -- destruct Herr as [(n' & ? & ?)|?]; [left; exists n'; set_solver|by right].
        -- intros n' opt' [[= -> ->]|Hin]%elem_of_cons; [right; eauto|by apply Herr].
    + split; [exists []; rewrite app_nil_r; set_solver|]. left. exists n. set_solver.
Qed.

(** applying the volume sources, for every order of the two maps.  A source is
    recorded as optional exactly when every reference to it is.  When the call
    succeeds, each source was resolved and written, or is optional and could not
    be resolved; when it fails, a required source could not be resolved, or a
    write failed.  Only referenced sources are written, with the bytes resolved. *)
Theorem applyVolumeSources_correct sv ns input :
  let cm := all_optional (configMap_refs (invocation_volumes input)) in
  let sec := all_optional (secret_refs (invocation_volumes input)) in
  let applied_ok done resolve (object_of : string -> gmap string string -> applied) n opt :=
    (exists d, resolve n = Ok d /\ object_of n d ∈ done /\ upsert sv ns (object_of n d) = None) \/
    (opt = true /\ exists e, resolve n = Err e) in
  let '(done, err) := applyVolumeSources sv ns input in
  (forall o, o ∈ done ->
    (exists n d, is_Some (cm n) /\ resolveConfigMap sv n = Ok d /\ o = configmap_object n d) \/
    (exists n d, is_Some (sec n) /\ resolveSecret sv n = Ok d /\ o = secret_object n d)) /\
  match err with
  | None =>
    (forall n opt, cm n = Some opt -> applied_ok done (resolveConfigMap sv) configmap_object n opt) /\
    (forall n opt, sec n = Some opt -> applied_ok done (resolveSecret sv) secret_object n opt)
  | Some e =>
    (exists n, cm n = Some false /\ resolveConfigMap sv n = Err e) \/
    (exists n, sec n = Some false /\ resolveSecret sv n = Err e) \/
    (exists o, o ∈ done /\ upsert sv ns o = Some e)
  end.
Proof.
  intros cm sec applied_ok. unfold applyVolumeSources. destruct (volumeSourceNames input) as [mcm msec] eqn:E.
  assert (forall n, mcm !! n = cm n /\ msec !! n = sec n) as Hn
    by (intros n; pose proof (volumeSourceNames_lookup input n) as Hl; by rewrite E in Hl).
  assert (forall n b, (n, b) ∈ map_range mcm <-> cm n = Some b) as Hcm
    by (intros n b; rewrite elem_of_map_range; by rewrite (proj1 (Hn n))).
  assert (forall n b, (n, b) ∈ map_range msec <-> sec n = Some b) as Hsec
    by (intros n b; rewrite elem_of_map_range; by rewrite (proj2 (Hn n))).
  pose proof (apply_sources_spec sv ns (resolveConfigMap sv) configmap_object [] (map_range mcm)) as H1.
  destruct (apply_sources _ _ (resolveConfigMap sv) _ _ _) as [done1 err1].
  destruct H1 as ((new1 & -> & Hnew1) & Herr1). cbn [app] in *.
  assert (forall o, o ∈ new1 -> exists n d, is_Some (cm n) /\ resolveConfigMap sv n = Ok d /\ o = configmap_object n d) as Ho1.
  { intros o Ho. destruct (Hnew1 o Ho) as (n & opt & d & Hin%Hcm & ? & ?). exists n, d. split_and!; [by exists opt|done|done]. }
  destruct err1 as [e1|].
  { split; [intros o Ho; left; by apply Ho1|]. destruct Herr1 as [(n & Hin%Hcm & ?)|?]; [left; eauto|by right; right]. }
  pose proof (apply_sources_spec sv ns (resolveSecret sv) secret_object new1 (map_range msec)) as H2.
  destruct (apply_sources _ _ (resolveSecret sv) _ _ _) as [done2 err2].
  destruct H2 as ((new2 & -> & Hnew2) & Herr2). split.
  - intros o [Ho|Ho]%elem_of_app; [left; by apply Ho1|right].
    destruct (Hnew2 o Ho) as (n & opt & d & Hin%Hsec & ? & ?). exists n, d. split_and!; [by exists opt|done|done].
  - destruct err2 as [e2|].
    + destruct Herr2 as [(n & Hin%Hsec & ?)|?]; [right; left; eauto|by right; right].
    + split; intros n opt; [intros Hin%Hcm%Herr1|intros Hin%Hsec%Herr2]; [|exact Hin].
      destruct Hin as [(d & ? & ? & ?)|?]; [left; exists d; set_solver|by right].
Qed.
End VolumeFacts.

(** ** Witnesses *)
Section SubmitWitnesses.
#[local] Existing Instance core_unit.

Definition json_unit : CoreJson (K := core_unit) :=
  {| SecurityContext_value _ := VNull; EnvFromSource_value _ := VNull; EnvVarSource_value _ := VNull |}.
#[local] Existing Instance json_unit.

(** A Task of one step with a timeout. *)
Definition ex_timed_spec : TaskSpec :=
  mkTaskSpec [] [] [] [image_step "s" "alpine"] "" "" "5m" [] None [].

Definition ex_by_ref : PipelineTask :=
  mkPipelineTask "a" "" (Some (mkTaskRef "t" "" "" [])) None [mkParam "p" (StringParam "v")] [] [] [] 0 "" None None.

Definition ex_submit : PipelineRunInvocation :=
  mkPipelineRunInvocation "run-12345678" "p-run-1234"
    (mkPipeline (mkObject "" "" (mkMetadata "p" "" ∅ ∅))
       (mkPipelineSpec "" "" [] [] [ex_by_ref] [] [] (Some (mkTimeouts "1h" "" ""))))
    {["t" := mkTask (mkObject "" "" (mkMetadata "t" "" ∅ ∅)) ex_timed_spec]} [] ∅.

Definition as_object (v : option value) : object := match v with Some (VMap m) => m | _ => ∅ end.

Lemma buildPipelineRun_schema_witness :
  let ps := submitted_spec ex_submit in
  let m := as_object (PipelineSpec_value (pl_Spec (pri_Pipeline ex_submit))) in
  is_Some (m !! "timeouts") /\
  ps !! "timeouts" = None /\
  (forall k, k ∉ ["timeouts"; "tasks"; "finally"] -> ps !! k = m !! k) /\
  (exists l, ps !! "tasks" = Some (VSlice l) /\
     Forall2 (submitted_task (pri_Tasks ex_submit)) (spec_Tasks (pl_Spec (pri_Pipeline ex_submit))) l) /\
  (spec_Finally (pl_Spec (pri_Pipeline ex_submit)) <> [] ->
   exists l, ps !! "finally" = Some (VSlice l) /\
     Forall2 (submitted_task (pri_Tasks ex_submit)) (spec_Finally (pl_Spec (pri_Pipeline ex_submit))) l).
Proof.
  split; [vm_compute; by eexists|]. apply (buildPipelineRun_schema ex_submit).
  - vm_compute. reflexivity.
  - intros n tk Htk. unfold ex_submit in Htk. cbn [pri_Tasks] in Htk.
    apply lookup_singleton_Some in Htk as [<- <-]. vm_compute. by eexists.
Defined.

Lemma inline_taskspec_keeps_timeout_witness :
  let pt := plain_task "a" [] ex_timed_spec in
  let ptm := as_object (PipelineTask_value pt) in
  let tsm := as_object (TaskSpec_value ex_timed_spec) in
  inlineTaskSpec ∅ ptm = ptm /\ ptm !! "taskSpec" = Some (VMap tsm) /\ tsm !! "timeout" = Some (VString "5m").
Proof.
  apply (inline_taskspec_keeps_timeout ∅ (plain_task "a" [] ex_timed_spec) ex_timed_spec);
    [reflexivity|reflexivity|discriminate|vm_compute; reflexivity|vm_compute; reflexivity].
Defined.
End SubmitWitnesses.
