(* ===== verification/EngineCluster.v ===== *)
(** * internal/engine: a run whose backend executes the whole pipeline

    eager_pipelineref.go (a PipelineRun whose pipelineRef names a resolver),
    cluster_inline_resolver.go, and engine.go's [runViaPipelineBackend] with the
    events it synthesises from the backend's report.  The backend, the resolver
    registry and the YAML loader are interfaces.  Inlining a resolved TaskSpec also
    writes to the bundle's own copy of the pipeline, which nothing reads again in
    the run; that alias is not kept. *)

From S2P Require Import Prelude GoStrings TektonTypes Resolver Run Matrix Scope Steps Engine Scheduler ClusterStatus ClusterSubmit.

(** ** eager_pipelineref.go *)
Section TopLevel.
Context {K : CoreV1} `{MapRange}.

(** The registry (nil when not configured) and [loader.LoadBytes]. *)
Record TopLevelServices := mkTopLevelServices {
  tl_Resolve : option (Request -> result string);
  tl_LoadBytes : string -> result Bundle;
}.

Definition resolver_backed_ref (pr : PipelineRun) : option PipelineRef :=
  r ← prun_PipelineRef (prun_Spec pr); if is_set (plr_Resolver r) then Some r else None.

Definition hasTopLevelPipelineRefResolver (b : Bundle) : bool :=
  existsb (fun pr => is_some (resolver_backed_ref pr)) (b_PipelineRuns b).

(** Params are passed as literals; a value of another type contributes nothing. *)
Definition top_level_param (m : gmap string string) (p : ResolverParam) : gmap string string :=
  let v := rp_Value p in
  if is_string_type (pv_Type v) then <[rp_Name p := pv_StringVal v]> m
  else if String.eqb (pv_Type v) ParamTypeArray then <[rp_Name p := join "," (pv_ArrayVal v)]> m
  else if String.eqb (pv_Type v) ParamTypeObject then
    <[rp_Name p := join "," (sort_strings (map (fun kv => kv.1 +:+ "=" +:+ kv.2) (map_range (pv_ObjectVal v))))]> m
  else m.

Definition b_set_Tasks (b : Bundle) (ts : gmap string Task) : Bundle :=
  mkBundle ts (b_Pipelines b) (b_PipelineRuns b) (b_StepActions b).
Definition b_set_Pipelines (b : Bundle) (ps : gmap string Pipeline) : Bundle :=
  mkBundle (b_Tasks b) ps (b_PipelineRuns b) (b_StepActions b).

(** [emitTopLevelResolverFailure] *)
Definition top_level_failure (name : string) (msg : text) : list Event :=
  [resolver_event EvtResolverEnd "" name "failed" msg; run_end_event "failed" msg ""].

(** The resolved Pipeline, the bundle (its Tasks may have been added to) and the
    events. *)
Definition maybeResolveTopLevelPipelineRef (tl : TopLevelServices) (b : Bundle)
    : option Pipeline * Bundle * list Event :=
  match head (omap resolver_backed_ref (b_PipelineRuns b)) with
  | None => (None, b, [])
  | Some r =>
    let name := plr_Resolver r in
    let start := resolver_event EvtResolverStart "" name "" no_text in
    let failed msg := (None, b, start :: top_level_failure name msg) in
    match tl_Resolve tl with
    | None => failed (lit "resolver: no resolver registry configured (--resolver-allow / engine.Options.Refresolver)")
    | Some resolve =>
      match resolve (mkRequest "pipeline" name (foldl top_level_param ∅ (plr_ResolverParams r))) with
      | Err e => failed (Fmt "resolver: %v" [TErr e])
      | Ok bytes =>
        match tl_LoadBytes tl bytes with
        | Err e => failed (Fmt "resolver: decoding bytes: %v" [TErr e])
        | Ok lb =>
          match (map_to_list (b_Pipelines lb)).*2 with
          | [pl] =>
            (Some pl, b_set_Tasks b (b_Tasks b ∪ b_Tasks lb),
             [start; resolver_event EvtResolverEnd "" name "succeeded" no_text])
          | l => failed (Fmt "resolver: expected exactly one Pipeline in resolved bytes, got %d" [TInt (Z.of_nat (length l))])
          end
        end
      end
    end
  end.

Definition pl_set_Name (pl : Pipeline) (n : string) : Pipeline :=
  let o := pl_Object pl in
  let m := ob_Metadata o in
  mkPipeline (mkObject (ob_APIVersion o) (ob_Kind o) (mkMetadata n (md_Namespace m) (md_Labels m) (md_Annotations m)))
    (pl_Spec pl).

Definition in_set_Bundle (i : PipelineInput) (b : Bundle) (name : string) : PipelineInput :=
  mkPipelineInput b name (in_Params i) (in_Workspaces i) (in_RunID i).

(** The first lines of [RunPipeline]: the run ends at once, or goes on with the
    input and the pipeline found; also the events. *)
Inductive engine_begin :=
  | Ends (r : RunResult) (err : option text)
  | Runs (i : PipelineInput) (pl : Pipeline).

Definition RunPipeline_begin (tl : TopLevelServices) (i : PipelineInput) : engine_begin * list Event :=
  let '(resolved, b, evs) := maybeResolveTopLevelPipelineRef tl (in_Bundle i) in
  let i := match resolved with
           | None => in_set_Bundle i b (in_Name i)
           | Some pl =>
             let pl := if String.eqb (pl_Name pl) "" then pl_set_Name pl "resolved" else pl in
             in_set_Bundle i (b_set_Pipelines b (<[pl_Name pl := pl]> (b_Pipelines b))) (pl_Name pl)
           end in
  (match b_Pipelines (in_Bundle i) !! in_Name i with
   | Some pl => Runs i pl
   | None =>
     if hasTopLevelPipelineRefResolver (in_Bundle i) then Ends (failed_result "failed") None
     else Ends (failed_result "") (Some (Fmt "pipeline %q not found" [TStr (in_Name i)]))
   end, evs).
End TopLevel.

(** ** cluster_inline_resolver.go *)
Section ViaBackend.
Context {K : CoreV1} `{MapRange}.

Definition pt_set_inlined (p : PipelineTask) (s : TaskSpec) : PipelineTask :=
  mkPipelineTask (pt_Name p) (pt_DisplayName p) None (Some s) (pt_Params p) (pt_Workspaces p) (pt_RunAfter p)
    (pt_When p) (pt_Retries p) (pt_Timeout p) (pt_Matrix p) (pt_MatrixInfo p).

Definition inlineOnePipelineTask (sv : Services) (rctx : Context) (pt : PipelineTask) : result PipelineTask * list Event :=
  if negb (is_resolver_ref pt) then (Ok pt, [])
  else let '(r, evs) := lookupTaskSpecLazy sv pt rctx in
       (match r with Ok spec => Ok (pt_set_inlined pt spec) | Err e => Err e end, evs).

Fixpoint inline_tasks (sv : Services) (rctx : Context) (pts : list PipelineTask) : result (list PipelineTask) * list Event :=
  match pts with
  | [] => (Ok [], [])
  | pt :: pts' =>
    match inlineOnePipelineTask sv rctx pt with
    | (Err e, evs) => (Err e, evs)
    | (Ok pt', evs) =>
      let '(r, evs') := inline_tasks sv rctx pts' in
      (match r with Ok l => Ok (pt' :: l) | Err e => Err e end, evs ++ evs')
    end
  end.

Definition inlineResolverBackedTasks (sv : Services) (rctx : Context) (pl : Pipeline) : result Pipeline * list Event :=
  match inline_tasks sv rctx (spec_Tasks (pl_Spec pl)) with
  | (Err e, evs) => (Err e, evs)
  | (Ok tasks, evs) =>
    let '(r, evs') := inline_tasks sv rctx (spec_Finally (pl_Spec pl)) in
    (match r with Ok fin => Ok (pl_set_tasks pl tasks fin) | Err e => Err e end, evs ++ evs')
  end.

(** ** engine.go: [emitClusterTaskEvents] *)
Definition task_retry_event (pt : PipelineTask) (taskKey : string) (m : option MatrixEvent) (r : RetryAttempt) : Event :=
  mkEvent EvtTaskRetry "" "" taskKey (ra_Status r) (lit (ra_Message r)) (ra_Attempt r) ∅ (pt_DisplayName pt) "" "" m.

(** [emitOne] *)
Definition emit_one (b : Bundle) (pt : PipelineTask) (taskKey : string) (oc : TaskOutcomeOnCluster) : list Event :=
  let description := match lookupTaskSpec b pt with Ok spec => ts_Description spec | Err _ => "" end in
  let m := matrixEventFromInfo (toc_Matrix oc) in
  let attempt := if (toc_Attempts oc =? 0)%Z then 1%Z else toc_Attempts oc in
  mkEvent EvtTaskStart "" "" taskKey "" no_text 0 ∅ (pt_DisplayName pt) description "" m
  :: map (task_retry_event pt taskKey m) (toc_RetryAttempts oc)
  ++ [mkEvent EvtTaskEnd "" "" taskKey (toc_Status oc) (lit (toc_Message oc)) attempt ∅ (pt_DisplayName pt) "" "" m].

Definition row_index_of (kv : string * TaskOutcomeOnCluster) : Z :=
  match toc_Matrix kv.2 with Some mi => inf_Index mi | None => 0 end.

Definition is_row_of (parent : string) (kv : string * TaskOutcomeOnCluster) : bool :=
  match toc_Matrix kv.2 with Some mi => String.eqb (inf_Parent mi) parent | None => false end.

(** [emit]: the outcomes of one pipeline task.  Rows of one index, which an expansion does
    not have ([cluster_rows_in_expansion_order]), keep the order the map is ranged over in,
    any one ([MapRange]): sort.Slice leaves their order open. *)
Definition task_rows (tasks : gmap string TaskOutcomeOnCluster) (pt : PipelineTask)
    : list (string * TaskOutcomeOnCluster) :=
  match pt_Matrix pt with
  | None => match tasks !! pt_Name pt with Some oc => [(pt_Name pt, oc)] | None => [] end
  | Some _ => stable_sort (fun a b => (row_index_of a <? row_index_of b)%Z)
                (List.filter (is_row_of (pt_Name pt)) (map_range tasks))
  end.

Definition emitClusterTaskEvents (pl : Pipeline) (b : Bundle) (tasks : gmap string TaskOutcomeOnCluster) : list Event :=
  flat_map (fun pt => flat_map (fun kv => emit_one b pt kv.1 kv.2) (task_rows tasks pt)) (all_tasks pl).

(** ** engine.go: [runViaPipelineBackend] *)

(** The backend: [Prepare], and [RunPipeline] with the events its log sink
    forwards; [pb_cancelled] is whether the context is cancelled when it has
    returned. *)
Record PipelineBackend := mkPipelineBackend {
  pb_Prepare : list string -> result unit;
  pb_RunPipeline : PipelineRunInvocation -> result PipelineRunResult * list Event;
  pb_cancelled : bool;
}.

(** [RunResult] with its error. *)
Record ClusterRunResult := mkClusterRunResult {
  cr_Status : string;
  cr_Reason : string;
  cr_Message : string;
  cr_Tasks : gmap string TaskOutcome;
  cr_Results : gmap string result_value;
  cr_err : option text;
}.

Definition cluster_failed (status : string) (err : text) : ClusterRunResult :=
  mkClusterRunResult status "" "" ∅ ∅ (Some err).

Definition cluster_outcome (oc : TaskOutcomeOnCluster) : TaskOutcome :=
  mkTaskOutcome (toc_Status oc) (lit (toc_Message oc)) (toc_Results oc) 0 None skipNone.

Definition end_message (res : PipelineRunResult) : string :=
  if String.eqb (prr_Reason res) "" then prr_Message res
  else if String.eqb (prr_Message res) "" then prr_Reason res
  else prr_Reason res +:+ ": " +:+ prr_Message res.

Definition dropped_event (name : string) : Event :=
  mkEvent EvtError "" "" "" ""
    (Fmt "pipeline result %q dropped: not produced by Tekton (referenced task may have failed or skipped the result)"
       [TStr name]) 0 ∅ "" "" "" None.

Definition backend_context (pl : Pipeline) (pipelineRunName : string) (params : gmap string ParamValue) : Context :=
  mkContext (flattenStringParams params) (arrayParams params) (objectParams params) ∅
    {["pipelineRun.name" := pipelineRunName; "pipeline.name" := pl_Name pl]} None "" None "" None ∅.

(** The events of a run whose backend has answered, and its result. *)
Definition backend_verdict (pb : PipelineBackend) (pl : Pipeline) (b : Bundle) (res : PipelineRunResult)
    : ClusterRunResult * list Event :=
  let status := if pb_cancelled pb then "cancelled" else prr_Status res in
  (mkClusterRunResult status (prr_Reason res) (prr_Message res) (cluster_outcome <$> prr_Tasks res) (prr_Results res) None,
   emitClusterTaskEvents pl b (prr_Tasks res)
   ++ map dropped_event (droppedClusterResultNames pl (prr_Results res))
   ++ [mkEvent EvtRunEnd "" "" "" status (lit (end_message res)) 0 (prr_Results res)
         (spec_DisplayName (pl_Spec pl)) "" "" None]).

Definition runViaPipelineBackend {En : Entropy} (sv : Services) (pb : PipelineBackend) (i : PipelineInput) (pl0 : Pipeline)
    : ClusterRunResult * list Event :=
  let runID := run_id i in
  if String.length runID <? 8 then (cluster_failed "" (Sentinel "slice bounds out of range"), [])
  else
  let pipelineRunName := pl_Name pl0 +:+ "-" +:+ String.substring 0 8 runID in
  let dn := spec_DisplayName (pl_Spec pl0) in
  match applyDefaults (spec_Params (pl_Spec pl0)) (in_Params i) with
  | Err e => (cluster_failed "" e, [])
  | Ok params =>
    match inlineResolverBackedTasks sv (backend_context pl0 pipelineRunName params) pl0 with
    | (Err e, evs) => (cluster_failed "failed" e, evs ++ [run_end_event "failed" e ""])
    | (Ok pl, evs) =>
      match pb_Prepare pb (uniqueImages (in_Bundle i) pl) with
      | Err e => (cluster_failed "failed" e, evs ++ [run_end_event "failed" e dn])
      | Ok _ =>
        let evs := evs ++ [mkEvent EvtRunStart runID (pl_Name pl) "" "" no_text 0 ∅ dn
                             (spec_Description (pl_Spec pl)) "" None] in
        match expandBundleStepActions (in_Bundle i) pl with
        | Err e => (cluster_failed "failed" e, evs ++ [run_end_event "failed" e dn])
        | Ok (expandedTasks, plExpanded) =>
          let '(r, logs) := pb_RunPipeline pb
            (mkPipelineRunInvocation runID pipelineRunName plExpanded expandedTasks
               (map (fun kv => mkParam kv.1 kv.2) (map_range params))
               ((fun host => mkWorkspaceMount host false "") <$> in_Workspaces i)) in
          match r with
          | Err e =>
            let status := if pb_cancelled pb then "cancelled" else "failed" in
            (cluster_failed status e, evs ++ logs ++ [run_end_event status e dn])
          | Ok res =>
            let '(out, verdict) := backend_verdict pb pl (in_Bundle i) res in (out, evs ++ logs ++ verdict)
          end
        end
      end
    end
  end.
End ViaBackend.

(** ** Which events a run through a pipeline backend emits *)
Section BackendFacts.
Context {K : CoreV1} `{MapRange} {En : Entropy}.

Definition inner_event (e : Event) : Prop := evt_Kind e <> EvtRunStart /\ evt_Kind e <> EvtRunEnd.

Lemma lookupTaskSpecLazy_inner sv pt rctx : Forall inner_event (lookupTaskSpecLazy sv pt rctx).2.
Proof. unfold lookupTaskSpecLazy. repeat case_match; repeat constructor; done. Qed.

Lemma inlineOne_inner sv rctx pt : Forall inner_event (inlineOnePipelineTask sv rctx pt).2.
Proof.
  unfold inlineOnePipelineTask. destruct (negb _); [constructor|].
  pose proof (lookupTaskSpecLazy_inner sv pt rctx) as H1. by destruct (lookupTaskSpecLazy sv pt rctx).
Qed.

Lemma inline_tasks_inner sv rctx pts : Forall inner_event (inline_tasks sv rctx pts).2.
Proof.
  induction pts as [|pt pts IH]; [constructor|]. cbn [inline_tasks].
  pose proof (inlineOne_inner sv rctx pt) as H1. destruct (inlineOnePipelineTask sv rctx pt) as [[pt'|e] evs]; [|done].
  destruct (inline_tasks sv rctx pts) as [r evs']. by apply Forall_app.
Qed.

Lemma inlineResolverBackedTasks_inner sv rctx pl : Forall inner_event (inlineResolverBackedTasks sv rctx pl).2.
Proof.
  unfold inlineResolverBackedTasks. pose proof (inline_tasks_inner sv rctx (spec_Tasks (pl_Spec pl))) as H1.
  destruct (inline_tasks sv rctx (spec_Tasks (pl_Spec pl))) as [[tasks|e] evs]; [|done].
  pose proof (inline_tasks_inner sv rctx (spec_Finally (pl_Spec pl))) as H2.
  destruct (inline_tasks sv rctx (spec_Finally (pl_Spec pl))) as [r evs']. by apply Forall_app.
Qed.

(** Inlining keeps everything but the resolver-backed refs. *)
Lemma inline_tasks_ok sv rctx pts pts' :
  (inline_tasks sv rctx pts).1 = Ok pts' ->
  Forall2 (fun pt pt' => if is_resolver_ref pt
                         then exists spec, (lookupTaskSpecLazy sv pt rctx).1 = Ok spec /\ pt' = pt_set_inlined pt spec
                         else pt' = pt) pts pts'.
Proof.
  revert pts'; induction pts as [|pt pts IH]; intros pts'; cbn [inline_tasks]; [intros [= <-]; constructor|].
  unfold inlineOnePipelineTask. destruct (is_resolver_ref pt) eqn:E; cbn [negb].
  - destruct (lookupTaskSpecLazy sv pt rctx) as [[spec|e] evs] eqn:El; [|done].
    destruct (inline_tasks sv rctx pts) as [[l|e] evs']; [|done]. intros [= <-]. constructor; [|by apply IH].
    rewrite E, El. by exists spec.
  - destruct (inline_tasks sv rctx pts) as [[l|e] evs']; [|done]. intros [= <-]. constructor; [|by apply IH]. by rewrite E.
Qed.

Lemma emit_one_inner b pt k oc : Forall inner_event (emit_one b pt k oc).
Proof.
  unfold emit_one. constructor; [done|]. apply Forall_app. split; [|by repeat constructor].
  apply Forall_forall. by intros e (r & -> & _)%list_elem_of_fmap.
Qed.

Lemma Forall_flat_map {A B} (P : B -> Prop) (f : A -> list B) l :
  (forall x, Forall P (f x)) -> Forall P (flat_map f l).
Proof. intros Hf. induction l as [|x l IH]; simpl; [constructor|]. by apply Forall_app. Qed.

Lemma emitClusterTaskEvents_inner pl b tasks : Forall inner_event (emitClusterTaskEvents pl b tasks).
Proof. apply Forall_flat_map. intros pt. apply Forall_flat_map. intros kv. apply emit_one_inner. Qed.

(** A log that ends with the run-end event, the only one in it. *)
Definition closed_log (status : string) (evs : list Event) : Prop :=
  exists body e, evs = body ++ [e] /\ evt_Kind e = EvtRunEnd /\ evt_Status e = status /\
    Forall (fun e => evt_Kind e <> EvtRunEnd) body.

Lemma closed_snoc status body e :
  evt_Kind e = EvtRunEnd -> evt_Status e = status -> Forall (fun e => evt_Kind e <> EvtRunEnd) body ->
  closed_log status (body ++ [e]).
Proof. intros. by exists body, e. Qed.

Lemma inner_not_end evs : Forall inner_event evs -> Forall (fun e => evt_Kind e <> EvtRunEnd) evs.
Proof. intros Hev. eapply Forall_impl; [exact Hev|]. by intros e []. Qed.

(** The one call of the backend's [RunPipeline]: the params bind, the resolver-backed tasks
    of [pl] inlined give [pl'], the backend is prepared, and the StepActions expand. *)
Definition asked (sv : Services) (pb : PipelineBackend) (i : PipelineInput) (pl : Pipeline)
    (inv : PipelineRunInvocation) (pl' : Pipeline) : Prop :=
  let name := pl_Name pl +:+ "-" +:+ String.substring 0 8 (run_id i) in
  exists params evs tasks plx,
    applyDefaults (spec_Params (pl_Spec pl)) (in_Params i) = Ok params /\
    inlineResolverBackedTasks sv (backend_context pl name params) pl = (Ok pl', evs) /\
    pb_Prepare pb (uniqueImages (in_Bundle i) pl') = Ok tt /\
    expandBundleStepActions (in_Bundle i) pl' = Ok (tasks, plx) /\
    inv = mkPipelineRunInvocation (run_id i) name plx tasks (map (fun kv => mkParam kv.1 kv.2) (map_range params))
            ((fun host => mkWorkspaceMount host false "") <$> in_Workspaces i).

(** The backend's answer, and the events it logged meanwhile, as the run reports them. *)
Definition reports (pb : PipelineBackend) (b : Bundle) (pl' : Pipeline) (r : result PipelineRunResult) (logs : list Event)
    (out : ClusterRunResult) (evs : list Event) : Prop :=
  exists pre start last, Forall inner_event pre /\ evt_Kind start = EvtRunStart /\
  match r with
  | Err e =>
    evs = pre ++ [start] ++ logs ++ [last] /\ evt_Message last = e /\ cr_err out = Some e /\
    cr_Status out = (if pb_cancelled pb then "cancelled" else "failed")
  | Ok res =>
    evs = pre ++ [start] ++ logs ++ emitClusterTaskEvents pl' b (prr_Tasks res)
          ++ map dropped_event (droppedClusterResultNames pl' (prr_Results res)) ++ [last] /\
    evt_Message last = lit (join ": " (List.filter is_set [prr_Reason res; prr_Message res])) /\ evt_Results last = prr_Results res /\
    cr_err out = None /\ cr_Status out = (if pb_cancelled pb then "cancelled" else prr_Status res) /\
    cr_Reason out = prr_Reason res /\ cr_Message out = prr_Message res /\ cr_Results out = prr_Results res /\
    forall n, cr_Tasks out !! n =
      (oc ← prr_Tasks res !! n; Some (mkTaskOutcome (toc_Status oc) (lit (toc_Message oc)) (toc_Results oc) 0 None skipNone))
  end.

Lemma end_message_join res :
  end_message res = join ": " (List.filter is_set [prr_Reason res; prr_Message res]).
Proof.
  unfold end_message, is_set. cbn [List.filter].
  destruct (String.eqb_spec (prr_Reason res) "") as [Hr|Hr], (String.eqb_spec (prr_Message res) "") as [Hm|Hm]; cbn; congruence.
Qed.

Lemma runViaPipelineBackend_asked (sv : Services) (pb : PipelineBackend) (i : PipelineInput) (pl : Pipeline) inv pl' :
  asked sv pb i pl inv pl' -> 8 <= String.length (run_id i) ->
  reports pb (in_Bundle i) pl' (pb_RunPipeline pb inv).1 (pb_RunPipeline pb inv).2
    (runViaPipelineBackend sv pb i pl).1 (runViaPipelineBackend sv pb i pl).2.
Proof.
  intros (params & evs & tasks & plx & E1 & E2 & E3 & E4 & ->) Hid. unfold runViaPipelineBackend.
  rewrite (proj2 (Nat.ltb_ge _ _)) by done. cbv zeta. rewrite E1, E2, E3, E4.
  match type of E2 with inlineResolverBackedTasks ?s ?c ?p = _ => pose proof (inlineResolverBackedTasks_inner s c p) as Hin end.
  rewrite E2 in Hin. cbn [snd] in Hin.
  destruct (pb_RunPipeline pb _) as [[res|e] logs]; unfold backend_verdict; cbn [fst snd]; eexists evs, _, _; (split; [done|]); (split; [|split; [by rewrite <-!(assoc_L (++))|]]); try done.
  cbn. rewrite end_message_join. split_and!; try done. intros n. rewrite lookup_fmap. by destruct (prr_Tasks res !! n).
Qed.

Lemma runViaPipelineBackend_closed (sv : Services) (pb : PipelineBackend) (i : PipelineInput) (pl : Pipeline) :
  8 <= String.length (run_id i) -> (forall inv, Forall inner_event (pb_RunPipeline pb inv).2) ->
  let '(out, evs) := runViaPipelineBackend sv pb i pl in
  (evs = [] <-> exists e, applyDefaults (spec_Params (pl_Spec pl)) (in_Params i) = Err e /\ cr_err out = Some e /\ cr_Status out = "") /\
  (evs <> [] -> closed_log (cr_Status out) evs).
Proof.
  intros Hid Hlogs. unfold runViaPipelineBackend. rewrite (proj2 (Nat.ltb_ge _ _)) by done. cbv zeta.
  destruct (applyDefaults _ _) as [params|e]; [|split; [split; [by eexists|done]|done]].
  set (prn := (pl_Name pl +:+ "-" +:+ String.substring 0 8 (run_id i))).
  pose proof (inlineResolverBackedTasks_inner sv (backend_context pl prn params) pl) as Hin.
  assert (forall out evs, closed_log (cr_Status out) evs ->
    (evs = [] <-> exists e : text, Ok params = Err e /\ cr_err out = Some e /\ cr_Status out = "") /\ (evs <> [] -> closed_log (cr_Status out) evs)) as Hwrap.
  { intros out evs Hc. split; [|done]. split; [|by intros (e & ? & _)]. intros ->. destruct Hc as (body & e & Hc & _). by destruct body. }
  destruct (inlineResolverBackedTasks sv (backend_context pl prn params) pl) as [[pl'|e] evs];
    [|apply Hwrap, closed_snoc; [done|done|by apply inner_not_end]].
  cbn [snd] in Hin. apply inner_not_end in Hin as Hne.
  destruct (pb_Prepare pb _) as [[]|e]; [|by apply Hwrap, closed_snoc].
  set (start := mkEvent EvtRunStart _ _ _ _ _ _ _ _ _ _ _).
  assert (Forall (fun e => evt_Kind e <> EvtRunEnd) (evs ++ [start])) as Hstart by (apply Forall_app; split; [done|by repeat constructor]).
  destruct (expandBundleStepActions _ _) as [[ts plx]|e]; [|by apply Hwrap, closed_snoc].
  match goal with |- context [pb_RunPipeline pb ?inv] => specialize (Hlogs inv); destruct (pb_RunPipeline pb inv) as [[res|e] logs] end;
    cbn [snd] in Hlogs; apply inner_not_end in Hlogs as Hle.
  - unfold backend_verdict. apply Hwrap. rewrite !app_assoc. apply closed_snoc; [done|done|]. rewrite !Forall_app. split_and!; [| |done| |].
    + by apply Forall_app in Hstart as [? _].
    + by repeat constructor.
    + by apply inner_not_end, emitClusterTaskEvents_inner.
    + apply Forall_forall. by intros e (n & -> & _)%list_elem_of_fmap.
  - apply Hwrap. rewrite app_assoc. apply closed_snoc; [done|done|]. by apply Forall_app.
Qed.

Lemma runViaPipelineBackend_not_asked (sv : Services) (pb : PipelineBackend) (i : PipelineInput) (pl : Pipeline) :
  (forall inv pl', ~ asked sv pb i pl inv pl') ->
  is_Some (cr_err (runViaPipelineBackend sv pb i pl).1) /\ cr_Status (runViaPipelineBackend sv pb i pl).1 ∈ [""; "failed"].
Proof.
  intros Hno. unfold runViaPipelineBackend. cbv zeta. assert ("" ∈ [""; "failed"] /\ "failed" ∈ [""; "failed"]) as [Hs1 Hs2] by set_solver.
  destruct (_ <? _); [by split|]. destruct (applyDefaults _ _) as [params|e] eqn:E1; [|by split].
  destruct (inlineResolverBackedTasks _ _ _) as [[pl'|e] evs] eqn:E2; [|by split].
  destruct (pb_Prepare pb _) as [[]|e] eqn:E3; [|by split].
  destruct (expandBundleStepActions _ _) as [[ts plx]|e] eqn:E4; [|by split].
  exfalso. eapply Hno. by eexists params, evs, ts, plx.
Qed.

End BackendFacts.

(** ** Rows in the order of the expansion *)

Lemma StronglySorted_weaken {A} (P Q : A -> A -> Prop) l :
  (forall a b, P a b -> Q a b) -> StronglySorted P l -> StronglySorted Q l.
Proof.
  intros HPQ. induction 1 as [|x l Hl IH Hx]; constructor; [done|]. eapply Forall_impl; [exact Hx|]. auto.
Qed.

(** A list whose element [i] has key [i] is sorted and without duplicates. *)
Lemma StronglySorted_by_index {A} (f : A -> Z) k l :
  (forall i x, l !! i = Some x -> f x = Z.of_nat (k + i)) -> StronglySorted (fun a b => (f a <= f b)%Z) l.
Proof.
  revert k; induction l as [|x l IH]; intros k Hf; constructor.
  - apply (IH (S k)). intros i y Hy. rewrite (Hf (S i) y Hy). f_equal. lia.
  - apply Forall_forall. intros y [i Hi]%list_elem_of_lookup. rewrite (Hf 0 x eq_refl), (Hf (S i) y Hi). lia.
Qed.

Lemma NoDup_by_index {A} (f : A -> Z) l :
  (forall i x, l !! i = Some x -> f x = Z.of_nat i) -> NoDup l.
Proof.
  intros Hf. apply NoDup_alt. intros i j x Hi Hj. apply Hf in Hi, Hj. lia.
Qed.
Section RowFacts.
Context {K : CoreV1} `{MapRange}.

Definition row_le (a b : string * TaskOutcomeOnCluster) : Prop := (row_index_of a <= row_index_of b)%Z.

Lemma task_rows_sorted tasks pt : StronglySorted row_le (task_rows tasks pt).
Proof.
  unfold task_rows. destruct (pt_Matrix pt).
  - eapply StronglySorted_weaken; [|apply stable_sort_sorted].
    + intros a b Hle%Z.ltb_ge. exact Hle.
    + intros x y z. rewrite !Z.ltb_ge. lia.
    + intros x y. rewrite Z.ltb_lt, Z.ltb_ge. lia.
  - destruct (tasks !! pt_Name pt); repeat constructor.
Qed.

Lemma elem_of_task_rows tasks pt n oc :
  (n, oc) ∈ task_rows tasks pt <->
  tasks !! n = Some oc /\
  match pt_Matrix pt with
  | None => n = pt_Name pt
  | Some _ => exists mi, toc_Matrix oc = Some mi /\ inf_Parent mi = pt_Name pt
  end.
Proof.
  unfold task_rows. destruct (pt_Matrix pt).
  - rewrite stable_sort_perm, list_elem_of_In, filter_In, <-list_elem_of_In, elem_of_map_range. unfold is_row_of. simpl.
    destruct (toc_Matrix oc) as [mi|]; [rewrite String.eqb_eq|]; naive_solver.
  - destruct (tasks !! pt_Name pt) as [oc'|] eqn:E.
    + rewrite list_elem_of_singleton. split; [by intros [= -> ->]|intros [Ht ->]; congruence].
    + split; [by intros ?%not_elem_of_nil|intros [Ht ->]; congruence].
Qed.

Lemma task_rows_NoDup tasks pt : NoDup (task_rows tasks pt).
Proof.
  unfold task_rows. destruct (pt_Matrix pt).
  - rewrite stable_sort_perm. apply NoDup_ListNoDup, List.NoDup_filter, NoDup_ListNoDup.
    eapply NoDup_fmap_1, map_range_keys_NoDup.
  - destruct (tasks !! pt_Name pt); [apply NoDup_singleton|constructor].
Qed.
End RowFacts.

(** Sorted lists of the same rows are equal when rows of a parent differ in their
    index. *)
Lemma rows_unique (l1 l2 : list (string * TaskOutcomeOnCluster)) :
  (forall a b, a ∈ l1 -> b ∈ l1 -> row_index_of a = row_index_of b -> a = b) ->
  StronglySorted row_le l1 -> StronglySorted row_le l2 -> NoDup l1 -> NoDup l2 ->
  (forall x, x ∈ l1 <-> x ∈ l2) -> l1 = l2.
Proof.
  intros Hinj H1 H2 Hn1 Hn2 Hmem. apply (StronglySorted_unique_strong row_le); [|done|done|by apply NoDup_Permutation].
  intros a b Ha Hb%Hmem Hab Hba. apply Hinj; [done|done|]. unfold row_le in *. lia.
Qed.

(** Two rows of the same parent are at different indices. *)
Definition distinct_indices (tasks : gmap string TaskOutcomeOnCluster) : Prop :=
  forall n1 n2 oc1 oc2 mi1 mi2,
    tasks !! n1 = Some oc1 -> tasks !! n2 = Some oc2 ->
    toc_Matrix oc1 = Some mi1 -> toc_Matrix oc2 = Some mi2 ->
    inf_Parent mi1 = inf_Parent mi2 -> inf_Index mi1 = inf_Index mi2 -> n1 = n2.

Lemma task_rows_inj {K : CoreV1} (R : MapRange) tasks pt a b :
  distinct_indices tasks -> a ∈ task_rows tasks pt -> b ∈ task_rows tasks pt ->
  row_index_of a = row_index_of b -> a = b.
Proof.
  intros Hd. destruct a as [n1 oc1], b as [n2 oc2]. rewrite !elem_of_task_rows.
  intros [H1 Ha] [H2 Hb] Hi. destruct (pt_Matrix pt).
  - destruct Ha as (mi1 & Hm1 & Hp1), Hb as (mi2 & Hm2 & Hp2). unfold row_index_of in Hi. simpl in Hi.
    rewrite Hm1, Hm2 in Hi. assert (n1 = n2) as <- by (eapply Hd; try done; congruence). congruence.
  - subst. congruence.
Qed.

Lemma task_rows_order_free {K : CoreV1} (R1 R2 : MapRange) tasks pt :
  distinct_indices tasks ->
  @task_rows K R1 tasks pt = @task_rows K R2 tasks pt.
Proof.
  intros Hd. apply rows_unique; [|apply task_rows_sorted|apply task_rows_sorted|apply task_rows_NoDup|apply task_rows_NoDup|].
  - intros a b. by apply task_rows_inj.
  - intros [n oc]. by rewrite !elem_of_task_rows.
Qed.

(** the synthesised events do not depend on the order in which the map of
    outcomes is ranged over, as long as no two rows of a parent have the same
    index. *)
Theorem emitClusterTaskEvents_order_free {K : CoreV1} (R1 R2 : MapRange) pl b tasks
    (Hd : distinct_indices tasks) :
  @emitClusterTaskEvents K R1 pl b tasks = @emitClusterTaskEvents K R2 pl b tasks.
Proof.
  unfold emitClusterTaskEvents. apply flat_map_ext. intros pt. by rewrite (task_rows_order_free R1 R2 tasks pt Hd).
Qed.

Section Expansion.
Context {K : CoreV1} `{MapRange}.

(** The tasks of the expanded pipeline whose matrix parent is [pt]. *)
Lemma expanded_of_parent pl pl' pt m rows c :
  NoDup (map pt_Name (all_tasks pl)) -> (forall t, t ∈ all_tasks pl -> pt_MatrixInfo t = None) ->
  expandMatrix pl = Ok pl' -> pt ∈ all_tasks pl -> pt_Matrix pt = Some m -> materializeRows pt m = Ok rows ->
  (exists c', c' ∈ all_tasks pl' /\ pt_Name c' = pt_Name c /\ pt_MatrixInfo c' = pt_MatrixInfo c) ->
  (exists mi, pt_MatrixInfo c = Some mi /\ inf_Parent mi = pt_Name pt) ->
  exists c', c' ∈ expansion_children pt rows /\ pt_Name c' = pt_Name c /\ pt_MatrixInfo c' = pt_MatrixInfo c.
Proof.
  intros Hnd Hnone He Hpt Hm Hr (c0 & Hc0 & Hn0 & Hi0) (mi & Hmi & Hpar).
  assert ((pt_Name c, pt_MatrixInfo c) ∈ map (fun c => (pt_Name c, pt_MatrixInfo c)) (all_tasks pl')) as Hin.
  { apply list_elem_of_fmap. exists c0. by rewrite Hn0, Hi0. }
  rewrite (expandMatrix_tasks pl pl' Hnd He) in Hin.
  apply list_elem_of_fmap in Hin as (c1 & [= Hn1 Hi1] & (t & Ht & Hc1)%list_elem_of_In%in_flat_map).
  apply list_elem_of_In in Ht, Hc1. unfold expanded in Hc1. destruct (pt_Matrix t) as [m'|] eqn:Hmt.
  - destruct (expandMatrix_rows pl pl' t m' He Ht Hmt) as [rows' Hr']. rewrite Hr' in Hc1.
    assert (t = pt) as ->.
    { assert (inf_Parent mi = pt_Name t) as Hpt'.
      { apply list_elem_of_lookup in Hc1 as [i Hi]. unfold expansion_children in Hi. rewrite list_lookup_imap in Hi.
        destruct (rows' !! i); [|done]. injection Hi as <-. simpl in Hi1. rewrite Hi1 in Hmi. by injection Hmi as <-. }
      pose proof (find_unique pl t Hnd Ht) as F1. pose proof (find_unique pl pt Hnd Hpt) as F2.
      rewrite <-Hpt', Hpar in F1. congruence. }
    rewrite Hm in Hmt. injection Hmt as <-. rewrite Hr in Hr'. injection Hr' as <-. by exists c1.
  - apply list_elem_of_singleton in Hc1 as ->. rewrite (Hnone t Ht) in Hi1. congruence.
Qed.

Lemma child_in_expansion pl pl' pt m rows c :
  NoDup (map pt_Name (all_tasks pl)) -> expandMatrix pl = Ok pl' ->
  pt ∈ all_tasks pl -> pt_Matrix pt = Some m -> materializeRows pt m = Ok rows -> c ∈ expansion_children pt rows ->
  exists c', c' ∈ all_tasks pl' /\ pt_Name c' = pt_Name c /\ pt_MatrixInfo c' = pt_MatrixInfo c.
Proof.
  intros Hnd He Hpt Hm Hr Hc.
  assert ((pt_Name c, pt_MatrixInfo c) ∈ map (fun c => (pt_Name c, pt_MatrixInfo c)) (all_tasks pl')) as Hin.
  { rewrite (expandMatrix_tasks pl pl' Hnd He). apply (list_elem_of_fmap_2 (fun c => (pt_Name c, pt_MatrixInfo c))).
    apply list_elem_of_In, in_flat_map. exists pt. split; [by apply list_elem_of_In|]. apply list_elem_of_In.
    unfold expanded. by rewrite Hm, Hr. }
  apply list_elem_of_fmap in Hin as (c' & [= Hn Hi] & Hc'). by exists c'.
Qed.

(** when the outcomes are keyed and labelled as the expansion is (which
    [collect_matches_engine] establishes), the rows of a matrix task are reported
    as the engine expands them: one per expansion child, in row order. *)
Theorem cluster_rows_in_expansion_order pl pl' pt m rows tasks
    (Hnd : NoDup (map pt_Name (all_tasks pl)))
    (Hnone : forall t, t ∈ all_tasks pl -> pt_MatrixInfo t = None)
    (He : expandMatrix pl = Ok pl') (Hnd' : NoDup (map pt_Name (all_tasks pl')))
    (Hpt : pt ∈ all_tasks pl) (Hm : pt_Matrix pt = Some m) (Hr : materializeRows pt m = Ok rows)
    (Hkeys : forall n, is_Some (tasks !! n) <-> n ∈ map pt_Name (all_tasks pl'))
    (Hinfo : forall c oc, c ∈ all_tasks pl' -> tasks !! pt_Name c = Some oc -> toc_Matrix oc = pt_MatrixInfo c) :
  map fst (task_rows tasks pt) = map pt_Name (expansion_children pt rows).
Proof.
  set (oc_of := fun c : PipelineTask => default (mkTaskOutcomeOnCluster "" "" None 0 [] None) (tasks !! pt_Name c)).
  set (L := map (fun c => (pt_Name c, oc_of c)) (expansion_children pt rows)).
  assert (forall i x, L !! i = Some x -> exists row, rows !! i = Some row /\
    let c := expansion_child pt (length rows) i row in
    x = (pt_Name c, oc_of c) /\ tasks !! pt_Name c = Some (oc_of c) /\ toc_Matrix (oc_of c) = pt_MatrixInfo c) as HL.
  { intros i x Hx. subst L. rewrite list_lookup_fmap in Hx. unfold expansion_children in Hx.
    rewrite list_lookup_imap in Hx. destruct (rows !! i) as [row|] eqn:Hrow; [|done]. simpl in Hx.
    injection Hx as <-. exists row. split; [done|]. intros c. split; [done|].
    destruct (child_in_expansion pl pl' pt m rows c Hnd He Hpt Hm Hr) as (c' & Hc' & Hn & Hi).
    { unfold expansion_children. apply list_elem_of_lookup. exists i. by rewrite list_lookup_imap, Hrow. }
    assert (is_Some (tasks !! pt_Name c)) as [oc Hoc].
    { apply Hkeys. rewrite <-Hn. by apply list_elem_of_fmap_2. }
    assert (oc_of c = oc) as -> by (unfold oc_of; by rewrite Hoc). split; [done|].
    rewrite <-Hi. apply Hinfo; [done|]. by rewrite Hn. }
  assert (forall i x, L !! i = Some x -> row_index_of x = Z.of_nat i) as Hidx.
  { intros i x Hx. destruct (HL i x Hx) as (row & _ & -> & _ & Hmi). unfold row_index_of. cbn [snd]. by rewrite Hmi. }
  assert (task_rows tasks pt = L) as ->; [|subst L; by rewrite map_map].
  symmetry. apply rows_unique.
  - intros a b [i Hi]%list_elem_of_lookup [j Hj]%list_elem_of_lookup Heq.
    rewrite (Hidx i a Hi), (Hidx j b Hj) in Heq. apply Nat2Z.inj in Heq as ->. congruence.
  - apply (StronglySorted_by_index row_index_of 0). exact Hidx.
  - apply task_rows_sorted.
  - by apply (NoDup_by_index row_index_of).
  - apply task_rows_NoDup.
  - intros [n oc]. rewrite elem_of_task_rows, Hm. split.
    + intros [i Hi]%list_elem_of_lookup. destruct (HL i _ Hi) as (row & _ & [= -> ->] & Ht & Hmi).
      split; [done|]. rewrite Hmi. by eexists.
    + intros (Ht & mi & Hmi & Hpar). assert (is_Some (tasks !! n)) as Hs by eauto.
      apply Hkeys, list_elem_of_fmap in Hs as (c & -> & Hc). assert (Hci := Hinfo c oc Hc Ht). rewrite Hmi in Hci.
      destruct (expanded_of_parent pl pl' pt m rows c) as (c' & Hc' & Hn & _); [done..|by exists c|by exists mi|].
      subst L. apply list_elem_of_fmap. exists c'. split; [|done]. unfold oc_of. by rewrite Hn, Ht.
Qed.
End Expansion.

(** ** The start of a run *)
Section BeginFacts.
Context {K : CoreV1} `{MapRange}.

Lemma hasTopLevel_head b :
  hasTopLevelPipelineRefResolver b = is_some (head (omap resolver_backed_ref (b_PipelineRuns b))).
Proof.
  unfold hasTopLevelPipelineRefResolver. induction (b_PipelineRuns b) as [|pr l IH]; [done|].
  change (omap resolver_backed_ref (pr :: l)) with
    (match resolver_backed_ref pr with Some r => r :: omap resolver_backed_ref l | None => omap resolver_backed_ref l end).
  simpl. by destruct (resolver_backed_ref pr).
Qed.

Definition resolver_started (r : PipelineRef) : Event := resolver_event EvtResolverStart "" (plr_Resolver r) "" no_text.

(** Everything before the lookup of the pipeline. *)
Lemma maybeResolve_cases tl b r :
  head (omap resolver_backed_ref (b_PipelineRuns b)) = Some r ->
  (exists bytes lb n pl resolve,
     tl_Resolve tl = Some resolve /\
     resolve (mkRequest "pipeline" (plr_Resolver r) (foldl top_level_param ∅ (plr_ResolverParams r))) = Ok bytes /\
     tl_LoadBytes tl bytes = Ok lb /\ map_to_list (b_Pipelines lb) = [(n, pl)] /\
     maybeResolveTopLevelPipelineRef tl b =
       (Some pl, b_set_Tasks b (b_Tasks b ∪ b_Tasks lb),
        [resolver_started r; resolver_event EvtResolverEnd "" (plr_Resolver r) "succeeded" no_text])) \/
  exists msg, maybeResolveTopLevelPipelineRef tl b =
    (None, b, resolver_started r :: top_level_failure (plr_Resolver r) msg).
Proof.
  intros Hr. unfold maybeResolveTopLevelPipelineRef. rewrite Hr. cbv zeta.
  destruct (tl_Resolve tl) as [resolve|]; [|right; by eexists].
  destruct (resolve _) as [bytes|e] eqn:E1; [|right; by eexists].
  destruct (tl_LoadBytes tl bytes) as [lb|e] eqn:E2; [|right; by eexists].
  destruct (map_to_list (b_Pipelines lb)) as [|[n pl] [|? ?]] eqn:E3; simpl; [right; by eexists| |right; by eexists].
  left. by exists bytes, lb, n, pl, resolve.
Qed.

(** a PipelineRun whose pipelineRef names a resolver.  When the resolution
    succeeds, the run goes on with exactly the pipeline that was fetched, under
    its own name (never empty), and the tasks that came with it never replace
    those of the bundle.  When it fails, a failed run-end is emitted; the run ends
    there only if the bundle has no pipeline of the input's name, and otherwise
    that pipeline is run although the run has been reported as ended. *)
Theorem top_level_resolution (tl : TopLevelServices) (i : PipelineInput) :
  let found := b_Pipelines (in_Bundle i) !! in_Name i in
  match head (omap resolver_backed_ref (b_PipelineRuns (in_Bundle i))) with
  | None =>
    RunPipeline_begin tl i =
      (match found with
       | Some pl => Runs i pl
       | None => Ends (failed_result "") (Some (Fmt "pipeline %q not found" [TStr (in_Name i)]))
       end, [])
  | Some r =>
    let '(res, evs) := RunPipeline_begin tl i in
    (exists resolve bytes lb n pl0 i' pl,
       tl_Resolve tl = Some resolve /\
       resolve (mkRequest "pipeline" (plr_Resolver r) (foldl top_level_param ∅ (plr_ResolverParams r))) = Ok bytes /\
       tl_LoadBytes tl bytes = Ok lb /\ map_to_list (b_Pipelines lb) = [(n, pl0)] /\
       res = Runs i' pl /\ pl_Spec pl = pl_Spec pl0 /\ in_Name i' = pl_Name pl /\
       pl_Name pl = (if String.eqb (pl_Name pl0) "" then "resolved" else pl_Name pl0) /\
       b_Pipelines (in_Bundle i') !! in_Name i' = Some pl /\
       (forall k t, b_Tasks (in_Bundle i) !! k = Some t -> b_Tasks (in_Bundle i') !! k = Some t) /\
       evs = [resolver_started r; resolver_event EvtResolverEnd "" (plr_Resolver r) "succeeded" no_text]) \/
    (exists msg,
       evs = resolver_started r :: top_level_failure (plr_Resolver r) msg /\
       res = match found with Some pl => Runs i pl | None => Ends (failed_result "failed") None end)
  end.
Proof.
  intros found. assert (in_set_Bundle i (in_Bundle i) (in_Name i) = i) as Hsame by (by destruct i).
  destruct (head (omap resolver_backed_ref (b_PipelineRuns (in_Bundle i)))) as [r|] eqn:Hr.
  - unfold RunPipeline_begin.
    destruct (maybeResolve_cases tl (in_Bundle i) r Hr) as [(bytes & lb & n & pl & resolve & H1 & H2 & H3 & H4 & ->)|(msg & ->)].
    + left. set (pl' := if String.eqb (pl_Name pl) "" then pl_set_Name pl "resolved" else pl).
      eexists resolve, bytes, lb, n, pl, _, pl'. do 4 (split; [done|]). cbn [in_Bundle in_Name in_set_Bundle b_Pipelines b_set_Pipelines].
      rewrite lookup_insert_eq. split; [done|]. split_and!.
      * subst pl'. by destruct (String.eqb (pl_Name pl) "").
      * done.
      * subst pl'. destruct (String.eqb_spec (pl_Name pl) ""); done.
      * cbn. by rewrite lookup_insert_eq.
      * intros k t Hk. cbn. by apply lookup_union_Some_l.
      * done.
    + right. exists msg. split; [done|]. rewrite Hsame. fold found. destruct found; [done|].
      by rewrite hasTopLevel_head, Hr.
  - unfold RunPipeline_begin, maybeResolveTopLevelPipelineRef. rewrite Hr, Hsame. fold found.
    destruct found; [done|]. by rewrite hasTopLevel_head, Hr.
Qed.
End BeginFacts.

(** ** Witnesses *)
Section EngineClusterWitnesses.
#[local] Existing Instance core_unit.
#[local] Existing Instance default_range.
#[local] Instance ex_entropy : Entropy := fun _ => 7%Z.

(** A PipelineRun that names a resolver nobody configured, next to a local
    pipeline: a failed run-end, and the local pipeline runs. *)
Definition ex_resolver_run : PipelineRun :=
  mkPipelineRun (mkObject "" "" (mkMetadata "r" "" ∅ ∅))
    (mkPipelineRunSpec (Some (mkPipelineRef "" "git" [])) None [] []).

Definition ex_local_pl : Pipeline :=
  mkPipeline (mkObject "" "" (mkMetadata "p" "" ∅ ∅))
    (mkPipelineSpec "" "" [] [] [plain_task "a" [] zero_TaskSpec] [] [] None).

Definition ex_local_input : PipelineInput :=
  mkPipelineInput (mkBundle ∅ {["p" := ex_local_pl]} [ex_resolver_run] ∅) "p" ∅ ∅ "run-12345678".

Example failed_resolution_still_runs :
  exists msg, RunPipeline_begin (mkTopLevelServices None (fun _ => Err no_text)) ex_local_input =
    (Runs ex_local_input ex_local_pl,
     [resolver_event EvtResolverStart "" "git" "" no_text;
      resolver_event EvtResolverEnd "" "git" "failed" msg; run_end_event "failed" msg ""]).
Proof. eexists. reflexivity. Qed.

(** A backend that reports the expansion of [ex_pl], and one that fails. *)
Definition ex_services : Services :=
  mkServices None (fun _ _ => Ok "") None (fun _ => Err no_text).

Definition ex_backend : PipelineBackend :=
  mkPipelineBackend (fun _ => Ok tt)
    (fun _ => (Ok (mkPipelineRunResult "succeeded" {["a" := mkTaskOutcomeOnCluster "succeeded" "" None 1 [] None]} "Succeeded" "" ∅), []))
    false.


(** The outcomes of [ex_pl]'s expansion. *)
Definition ex_outcomes : gmap string TaskOutcomeOnCluster :=
  list_to_map (map (fun c => (pt_Name c, mkTaskOutcomeOnCluster "succeeded" "" None 1 [] (pt_MatrixInfo c)))
    (all_tasks (match expandMatrix ex_pl with Ok pl' => pl' | Err _ => ex_pl end))).

Lemma emitClusterTaskEvents_order_free_witness :
  @emitClusterTaskEvents _ default_range ex_pl (mkBundle ∅ ∅ [] ∅) {["a" := mkTaskOutcomeOnCluster "failed" "" None 1 [] None]} =
  @emitClusterTaskEvents _ reverse_range ex_pl (mkBundle ∅ ∅ [] ∅) {["a" := mkTaskOutcomeOnCluster "failed" "" None 1 [] None]}.
Proof.
  apply (emitClusterTaskEvents_order_free default_range reverse_range).
  intros n1 n2 oc1 oc2 mi1 mi2 H1 H2. apply lookup_singleton_Some in H1 as [<- <-], H2 as [<- <-]. done.
Defined.

Lemma list_to_map_tasks (f : PipelineTask -> TaskOutcomeOnCluster) cs :
  NoDup (map pt_Name cs) ->
  let m : gmap string TaskOutcomeOnCluster := list_to_map (map (fun c => (pt_Name c, f c)) cs) in
  (forall n, is_Some (m !! n) <-> n ∈ map pt_Name cs) /\
  (forall c oc, c ∈ cs -> m !! pt_Name c = Some oc -> oc = f c).
Proof.
  intros Hnd m. assert (map fst (map (fun c => (pt_Name c, f c)) cs) = map pt_Name cs) as Hk by (by rewrite map_map).
  split.
  - intros n. rewrite <-elem_of_dom. subst m. rewrite dom_list_to_map, elem_of_list_to_set.
    change (_.*1) with (map fst (map (fun c => (pt_Name c, f c)) cs)). by rewrite Hk.
  - intros c oc Hc Hm. apply elem_of_list_to_map_2 in Hm. apply list_elem_of_fmap in Hm as (c' & [= Hn ->] & Hc').
    f_equal. apply list_elem_of_lookup in Hc as [i Hi], Hc' as [j Hj].
    assert (i = j) as <-; [|congruence].
    apply (NoDup_lookup _ i j (pt_Name c) Hnd); rewrite list_lookup_fmap; [by rewrite Hi|rewrite Hj; by rewrite Hn].
Qed.

Lemma cluster_rows_in_expansion_order_witness :
  map fst (task_rows ex_outcomes ex_build) = ["build-0"; "build-1"; "build-2"; "build-3"; "arm"].
Proof.
  pose proof (cluster_rows_in_expansion_order ex_pl (match expandMatrix ex_pl with Ok pl' => pl' | Err _ => ex_pl end)
    ex_build ex_matrix (match materializeRows ex_build ex_matrix with Ok r => r | Err _ => [] end) ex_outcomes) as H.
  rewrite H.
  - vm_compute. reflexivity.
  - apply (bool_decide_eq_true_1 (NoDup _)). vm_compute. reflexivity.
  - intros t Ht. assert (forallb (fun t => bool_decide (pt_MatrixInfo t = None)) (all_tasks ex_pl) = true) as Hall
      by (vm_compute; reflexivity).
    rewrite forallb_forall in Hall. apply list_elem_of_In, Hall in Ht. by apply bool_decide_eq_true_1 in Ht.
  - vm_compute. reflexivity.
  - apply (bool_decide_eq_true_1 (NoDup _)). vm_compute. reflexivity.
  - apply list_elem_of_In. left. reflexivity.
  - reflexivity.
  - vm_compute. reflexivity.
  - apply list_to_map_tasks. apply (bool_decide_eq_true_1 (NoDup _)). vm_compute. reflexivity.
  - intros c oc Hc Hoc. apply list_to_map_tasks in Hoc; [by subst|..|exact Hc].
    apply (bool_decide_eq_true_1 (NoDup _)). vm_compute. reflexivity.
Defined.
End EngineClusterWitnesses.
