(* ===== verification/Loader.v ===== *)
(** * internal/loader/loader.go

    YAML files to a bundle of typed resources.  Decoding one document is
    sigs.k8s.io/yaml's, an interface; splitting a stream, the dispatch on
    apiVersion and kind, the checks, the merge of files and the scan for
    unresolved references are the program's. *)

From S2P Require Import Prelude GoStrings TektonTypes Run.

(** ** [splitYAMLDocs]: [(?m)^---\s*$], split *)

(** [\s] of regexp. *)
Definition re_space (a : ascii) : bool :=
  Ascii.eqb a "009" || Ascii.eqb a "010" || Ascii.eqb a "012" || Ascii.eqb a "013" || Ascii.eqb a " ".

Definition newline : ascii := "010"%char.

(** [\s*$], the longest match first: what is left behind it. *)
Fixpoint sep_rest (s : string) : option string :=
  match s with
  | "" => Some ""
  | String a s' =>
    if re_space a then
      match sep_rest s' with
      | Some r => Some r
      | None => if Ascii.eqb a newline then Some s else None
      end
    else None
  end.

Definition cons_piece (a : ascii) (l : list string) : list string :=
  match l with p :: l' => String a p :: l' | [] => [String a ""] end.

(** The pieces between the separators; [bol] is whether [s] starts a line.  A step
    consumes at least one byte. *)
Fixpoint split_seps (fuel : nat) (bol : bool) (s : string) : list string :=
  match fuel with
  | O => [s]
  | S f =>
    match (if bol then r ← strip_prefix "---" s; sep_rest r else None) with
    | Some rest => "" :: split_seps f false rest
    | None =>
      match s with
      | "" => [""]
      | String a s' => cons_piece a (split_seps f (Ascii.eqb a newline) s')
      end
    end
  end.

Definition splitYAMLDocs (data : string) : list string :=
  filter (fun p => trim_space p <> "") (split_seps (S (String.length data)) true data).

Example split_two : splitYAMLDocs ("a: 1" +:+ String newline ("---  " +:+ String newline ("b: 2" +:+ String newline "--- x"))) =
  ["a: 1" +:+ String newline ""; String newline ("b: 2" +:+ String newline "--- x")].
Proof. reflexivity. Qed.

(** ** base64.StdEncoding *)
Definition b64_digit (a : ascii) : option Z :=
  let n := Z.of_nat (nat_of_ascii a) in
  if (65 <=? n)%Z && (n <=? 90)%Z then Some (n - 65)%Z
  else if (97 <=? n)%Z && (n <=? 122)%Z then Some (n - 71)%Z
  else if (48 <=? n)%Z && (n <=? 57)%Z then Some (n + 4)%Z
  else if (n =? 43)%Z then Some 62%Z
  else if (n =? 47)%Z then Some 63%Z
  else None.

Definition byte_char (z : Z) : ascii := ascii_of_nat (Z.to_nat (Z.land z 255)).

(** Quanta of four; the last may be padded.  The unused low bits of a padded
    quantum are ignored. *)
Fixpoint b64_quanta (l : list ascii) : option string :=
  match l with
  | [] => Some ""
  | [a; b; "="; "="]%char =>
    x ← b64_digit a; y ← b64_digit b;
    Some (String (byte_char (Z.lor (Z.shiftl x 2) (Z.shiftr y 4))) "")
  | [a; b; c; "="]%char =>
    x ← b64_digit a; y ← b64_digit b; z ← b64_digit c;
    Some (String (byte_char (Z.lor (Z.shiftl x 2) (Z.shiftr y 4)))
           (String (byte_char (Z.lor (Z.shiftl y 4) (Z.shiftr z 2))) ""))
  | a :: b :: c :: d :: l' =>
    x ← b64_digit a; y ← b64_digit b; z ← b64_digit c; w ← b64_digit d;
    r ← b64_quanta l';
    Some (String (byte_char (Z.lor (Z.shiftl x 2) (Z.shiftr y 4)))
           (String (byte_char (Z.lor (Z.shiftl y 4) (Z.shiftr z 2)))
             (String (byte_char (Z.lor (Z.shiftl z 6) w)) r)))
  | _ => None
  end.

Definition base64_error : text := Sentinel "base64: CorruptInputError".

(** Line breaks are skipped. *)
Definition base64_decode (s : string) : result string :=
  match b64_quanta (List.filter (fun a => negb (Ascii.eqb a "010" || Ascii.eqb a "013")) (list_ascii_of_string s)) with
  | Some r => Ok r
  | None => Err base64_error
  end.

Example base64_ex : base64_decode "aGVsbG8=" = Ok "hello".
Proof. reflexivity. Qed.

(** ** Documents *)
Record configMapDoc := mkconfigMapDoc {
  cmd_Metadata : Metadata;
  cmd_Data : gmap string string;
  cmd_BinaryData : gmap string string;
  cmd_Immutable : option bool;
}.

Record secretDoc := mksecretDoc {
  sd_Metadata : Metadata;
  sd_Type : string;
  sd_Data : gmap string string;
  sd_StringData : gmap string string;
  sd_Immutable : option bool;
}.

Section Loader.
Context {K : CoreV1}.

Record TaskRunSpec := mkTaskRunSpec {
  trun_TaskRef : option TaskRef;
  trun_TaskSpec : option TaskSpec;
  trun_Params : list Param;
  trun_Workspaces : list WorkspaceBinding;
}.

Record TaskRun := mkTaskRun {
  trun_Object : Object;
  trun_Spec : TaskRunSpec;
}.

(** [yaml.Unmarshal] into each of the types. *)
Class Yaml := {
  yaml_Object : string -> result Object;
  yaml_Task : string -> result Task;
  yaml_Pipeline : string -> result Pipeline;
  yaml_PipelineRun : string -> result PipelineRun;
  yaml_TaskRun : string -> result TaskRun;
  yaml_StepAction : string -> result StepAction;
  yaml_configMapDoc : string -> result configMapDoc;
  yaml_secretDoc : string -> result secretDoc;
}.

(** [Bundle]: the part the engine uses, and the rest. *)
Record FullBundle := mkFullBundle {
  fb_Bundle : Bundle;
  fb_TaskRuns : list TaskRun;
  fb_RawTasks : gmap string string;
  fb_ConfigMaps : gmap string (gmap string string);
  fb_Secrets : gmap string (gmap string string);
}.

Definition empty_bundle : FullBundle := mkFullBundle (mkBundle ∅ ∅ [] ∅) [] ∅ ∅ ∅.

Definition fb_set_ConfigMaps (b : FullBundle) (m : gmap string (gmap string string)) : FullBundle :=
  mkFullBundle (fb_Bundle b) (fb_TaskRuns b) (fb_RawTasks b) m (fb_Secrets b).
Definition fb_set_Secrets (b : FullBundle) (m : gmap string (gmap string string)) : FullBundle :=
  mkFullBundle (fb_Bundle b) (fb_TaskRuns b) (fb_RawTasks b) (fb_ConfigMaps b) m.
Definition fb_set_Bundle (b : FullBundle) (c : Bundle) : FullBundle :=
  mkFullBundle c (fb_TaskRuns b) (fb_RawTasks b) (fb_ConfigMaps b) (fb_Secrets b).

Definition is_abs (p : string) : bool := has_prefix p "/".

Definition validateVolumeDataKey (kind name key : string) : result unit :=
  if is_abs key || contains key ".." then
    Err (Fmt ("%s %q: key %q must be a relative path without " +:+ String "034" ".." +:+ String "034" " (path traversal)")
           [TStr kind; TStr name; TStr key])
  else Ok tt.

Context {Y : Yaml} `{MapRange}.

Definition obj_name (o : Object) : string := md_Name (ob_Metadata o).

Definition loadStepAction (out : FullBundle) (data : string) : result FullBundle :=
  sa ← wrap_err "StepAction: %w" [] (yaml_StepAction data);
  let name := obj_name (sa_Object sa) in
  if String.eqb name "" then Err (lit "StepAction: metadata.name is required")
  else match b_StepActions (fb_Bundle out) !! name with
       | Some _ => Err (Fmt "duplicate StepAction %q" [TStr name])
       | None =>
         let b := fb_Bundle out in
         Ok (fb_set_Bundle out (mkBundle (b_Tasks b) (b_Pipelines b) (b_PipelineRuns b) (<[name := sa]> (b_StepActions b))))
       end.

(** One key of a ConfigMap, or of a Secret's stringData. *)
Definition add_string_key (kind name : string) (m : gmap string string) (kv : string * string) : result (gmap string string) :=
  _ ← validateVolumeDataKey kind name kv.1; Ok (<[kv.1 := kv.2]> m).

Definition add_encoded_key (name : string) (m : gmap string string) (kv : string * string) : result (gmap string string) :=
  _ ← validateVolumeDataKey "Secret" name kv.1;
  dec ← wrap_err "secret %q: data[%q] is not valid base64: %w" [TStr name; TStr kv.1] (base64_decode kv.2);
  Ok (<[kv.1 := dec]> m).

Definition loadConfigMap (out : FullBundle) (data : string) : result FullBundle :=
  cm ← wrap_err "ConfigMap: %w" [] (yaml_configMapDoc data);
  let name := md_Name (cmd_Metadata cm) in
  if String.eqb name "" then Err (lit "ConfigMap: metadata.name is required")
  else if negb (bool_decide (cmd_BinaryData cm = ∅)) then
    Err (Fmt "ConfigMap %q: binaryData is not supported (out of scope for tkn-act; use data)" [TStr name])
  else match fb_ConfigMaps out !! name with
       | Some _ => Err (Fmt "duplicate ConfigMap %q" [TStr name])
       | None =>
         bytes ← foldM (add_string_key "ConfigMap" name) ∅ (map_range (cmd_Data cm));
         Ok (fb_set_ConfigMaps out (<[name := bytes]> (fb_ConfigMaps out)))
       end.

Definition loadSecret (out : FullBundle) (data : string) : result FullBundle :=
  s ← wrap_err "secret: %w" [] (yaml_secretDoc data);
  let name := md_Name (sd_Metadata s) in
  if String.eqb name "" then Err (lit "secret: metadata.name is required")
  else match fb_Secrets out !! name with
       | Some _ => Err (Fmt "duplicate Secret %q" [TStr name])
       | None =>
         bytes ← foldM (add_encoded_key name) ∅ (map_range (sd_Data s));
         bytes ← foldM (add_string_key "Secret" name) bytes (map_range (sd_StringData s));
         Ok (fb_set_Secrets out (<[name := bytes]> (fb_Secrets out)))
       end.

Definition load_v1_kind (out : FullBundle) (kind data : string) : result FullBundle :=
  let b := fb_Bundle out in
  if String.eqb kind "Task" then
    t ← wrap_err "task: %w" [] (yaml_Task data);
    let name := obj_name (task_Object t) in
    match b_Tasks b !! name with
    | Some _ => Err (Fmt "duplicate Task %q" [TStr name])
    | None =>
      Ok (mkFullBundle (mkBundle (<[name := t]> (b_Tasks b)) (b_Pipelines b) (b_PipelineRuns b) (b_StepActions b))
            (fb_TaskRuns out) (<[name := data]> (fb_RawTasks out)) (fb_ConfigMaps out) (fb_Secrets out))
    end
  else if String.eqb kind "Pipeline" then
    p ← wrap_err "pipeline: %w" [] (yaml_Pipeline data);
    let name := obj_name (pl_Object p) in
    match b_Pipelines b !! name with
    | Some _ => Err (Fmt "duplicate Pipeline %q" [TStr name])
    | None => Ok (fb_set_Bundle out (mkBundle (b_Tasks b) (<[name := p]> (b_Pipelines b)) (b_PipelineRuns b) (b_StepActions b)))
    end
  else if String.eqb kind "PipelineRun" then
    pr ← wrap_err "PipelineRun: %w" [] (yaml_PipelineRun data);
    Ok (fb_set_Bundle out (mkBundle (b_Tasks b) (b_Pipelines b) (b_PipelineRuns b ++ [pr]) (b_StepActions b)))
  else if String.eqb kind "TaskRun" then
    tr ← wrap_err "TaskRun: %w" [] (yaml_TaskRun data);
    Ok (mkFullBundle b (fb_TaskRuns out ++ [tr]) (fb_RawTasks out) (fb_ConfigMaps out) (fb_Secrets out))
  else Err (Fmt "unsupported kind %q" [TStr kind]).

Definition loadOne (out : FullBundle) (data : string) : result FullBundle :=
  head ← wrap_err "parse head: %w" [] (yaml_Object data);
  let kind := ob_Kind head in
  if String.eqb (ob_APIVersion head) "tekton.dev/v1" then load_v1_kind out kind data
  else if String.eqb (ob_APIVersion head) "tekton.dev/v1beta1" then
    if String.eqb kind "StepAction" then loadStepAction out data
    else Err (Fmt "unsupported tekton.dev/v1beta1 kind %q (only StepAction)" [TStr kind])
  else if String.eqb (ob_APIVersion head) "v1" then
    if String.eqb kind "ConfigMap" then loadConfigMap out data
    else if String.eqb kind "Secret" then loadSecret out data
    else Err (Fmt "unsupported v1 kind %q (only ConfigMap and Secret accepted at apiVersion v1)" [TStr kind])
  else Err (Fmt "unsupported apiVersion %q (only tekton.dev/v1, tekton.dev/v1beta1 for StepAction, or v1 for ConfigMap/Secret)"
              [TStr (ob_APIVersion head)]).

(** The documents with their position, in order. *)
Definition load_doc (out : FullBundle) (id : nat * string) : result FullBundle :=
  if String.eqb (trim_space id.2) "" then Ok out
  else wrap_err "doc %d: %w" [TInt (Z.of_nat id.1 + 1)] (loadOne out id.2).

Definition LoadBytes (data : string) : result FullBundle :=
  foldM load_doc empty_bundle (imap pair (splitYAMLDocs data)).

(** One map of [merge]. *)
Definition merge_entry {V} (kind : string) (m : gmap string V) (kv : string * V) : result (gmap string V) :=
  match m !! kv.1 with
  | Some _ => Err (Fmt ("duplicate " +:+ kind +:+ " %q across files") [TStr kv.1])
  | None => Ok (<[kv.1 := kv.2]> m)
  end.

Definition merge_map {V} (kind : string) (into from : gmap string V) : result (gmap string V) :=
  foldM (merge_entry kind) into (map_range from).

Definition merge (into from : FullBundle) : result FullBundle :=
  let b := fb_Bundle into in
  let c := fb_Bundle from in
  tasks ← merge_map "Task" (b_Tasks b) (b_Tasks c);
  pipelines ← merge_map "Pipeline" (b_Pipelines b) (b_Pipelines c);
  actions ← merge_map "StepAction" (b_StepActions b) (b_StepActions c);
  cms ← merge_map "ConfigMap" (fb_ConfigMaps into) (fb_ConfigMaps from);
  secs ← merge_map "Secret" (fb_Secrets into) (fb_Secrets from);
  Ok (mkFullBundle (mkBundle tasks pipelines (b_PipelineRuns b ++ b_PipelineRuns c) actions)
        (fb_TaskRuns into ++ fb_TaskRuns from) (fb_RawTasks from ∪ fb_RawTasks into) cms secs).

(** [os.ReadFile] is an argument. *)
Definition load_file (readFile : string -> result string) (out : FullBundle) (p : string) : result FullBundle :=
  data ← wrap_err "read %s: %w" [TStr p] (readFile p);
  b ← wrap_err "%s: %w" [TStr p] (LoadBytes data);
  merge out b.

Definition LoadFiles (readFile : string -> result string) (paths : list string) : result FullBundle :=
  foldM (load_file readFile) empty_bundle paths.

(** ** [HasUnresolvedRefs] *)
Record UnresolvedRef := mkUnresolvedRef {
  ur_Pipeline : string;
  ur_PipelineTask : string;
  ur_Kind : string;
  ur_Resolver : string;
}.

Definition set_resolver (r : option TaskRef) : option string :=
  r ← r; if String.eqb (tr_Resolver r) "" then None else Some (tr_Resolver r).

Definition task_unresolved (plName : string) (pt : PipelineTask) : option UnresolvedRef :=
  res ← set_resolver (pt_TaskRef pt); Some (mkUnresolvedRef plName (pt_Name pt) "Task" res).

Definition run_unresolved (pr : PipelineRun) : option UnresolvedRef :=
  r ← prun_PipelineRef (prun_Spec pr);
  if String.eqb (plr_Resolver r) "" then None else Some (mkUnresolvedRef "" "" "Pipeline" (plr_Resolver r)).

Definition taskrun_unresolved (tr : TaskRun) : option UnresolvedRef :=
  res ← set_resolver (trun_TaskRef (trun_Spec tr)); Some (mkUnresolvedRef "" "" "Task" res).

Definition HasUnresolvedRefs (b : FullBundle) : list UnresolvedRef :=
  flat_map (fun kv => omap (task_unresolved kv.1) (all_tasks kv.2)) (map_range (b_Pipelines (fb_Bundle b)))
  ++ omap run_unresolved (b_PipelineRuns (fb_Bundle b))
  ++ omap taskrun_unresolved (fb_TaskRuns b).
End Loader.
