(* ===== verification/LoaderProps.v ===== *)
(** * Properties of the loader

    Bundles form a partial monoid: loading a document is merging the bundle of
    that document, and loading files is loading their documents in order. *)

From S2P Require Import Prelude GoStrings TektonTypes Run Steps Loader.

(** Wrapping an error keeps the result. *)
Lemma wrap_err_ok {A} f args (r : result A) x : wrap_err f args r = Ok x <-> r = Ok x.
Proof. by destruct r. Qed.

Section Bundles.
Context {K : CoreV1} {Y : Yaml} `{MapRange}.

(** ** The union of bundles *)
Definition fb_disjoint (a b : FullBundle) : Prop :=
  b_Tasks (fb_Bundle a) ##ₘ b_Tasks (fb_Bundle b) /\ b_Pipelines (fb_Bundle a) ##ₘ b_Pipelines (fb_Bundle b) /\
  b_StepActions (fb_Bundle a) ##ₘ b_StepActions (fb_Bundle b) /\
  fb_ConfigMaps a ##ₘ fb_ConfigMaps b /\ fb_Secrets a ##ₘ fb_Secrets b.

Definition fb_union (a b : FullBundle) : FullBundle :=
  mkFullBundle
    (mkBundle (b_Tasks (fb_Bundle a) ∪ b_Tasks (fb_Bundle b)) (b_Pipelines (fb_Bundle a) ∪ b_Pipelines (fb_Bundle b))
       (b_PipelineRuns (fb_Bundle a) ++ b_PipelineRuns (fb_Bundle b))
       (b_StepActions (fb_Bundle a) ∪ b_StepActions (fb_Bundle b)))
    (fb_TaskRuns a ++ fb_TaskRuns b) (fb_RawTasks b ∪ fb_RawTasks a)
    (fb_ConfigMaps a ∪ fb_ConfigMaps b) (fb_Secrets a ∪ fb_Secrets b).

Lemma fb_union_assoc a b c : fb_union a (fb_union b c) = fb_union (fb_union a b) c.
Proof. unfold fb_union. simpl. by rewrite !(assoc_L (∪)), !(assoc_L (++)). Qed.

Lemma fb_union_empty a : fb_union a empty_bundle = a.
Proof.
  unfold fb_union, empty_bundle. simpl. rewrite !(right_id_L ∅ (∪)), (left_id_L ∅ (∪)), !app_nil_r.
  by destruct a as [[] ? ? ? ?].
Qed.

Lemma fb_empty_union a : fb_union empty_bundle a = a.
Proof.
  unfold fb_union, empty_bundle. simpl. rewrite !(left_id_L ∅ (∪)), (right_id_L ∅ (∪)). by destruct a as [[] ? ? ? ?].
Qed.

Lemma fb_disjoint_empty_r a : fb_disjoint a empty_bundle.
Proof. split_and!; apply map_disjoint_empty_r. Qed.

Lemma fb_disjoint_empty_l a : fb_disjoint empty_bundle a.
Proof. split_and!; apply map_disjoint_empty_l. Qed.

Lemma fb_disjoint_union_r a b c : fb_disjoint a (fb_union b c) <-> fb_disjoint a b /\ fb_disjoint a c.
Proof. unfold fb_disjoint, fb_union. simpl. rewrite !map_disjoint_union_r. tauto. Qed.

Lemma fb_disjoint_union_l a b c : fb_disjoint (fb_union a b) c <-> fb_disjoint a c /\ fb_disjoint b c.
Proof. unfold fb_disjoint, fb_union. simpl. rewrite !map_disjoint_union_l. tauto. Qed.

(** ** [merge] is the disjoint union *)
Lemma merge_entries_spec {V} kind (m : gmap string V) l m' :
  NoDup l.*1 ->
  foldM (merge_entry kind) m l = Ok m' <-> m ##ₘ list_to_map l /\ m' = m ∪ list_to_map l.
Proof.
  revert m; induction l as [|[k v] l IH]; intros m Hnd; simpl.
  - rewrite (right_id_L ∅ (∪)). split; [intros [= <-]; split; [apply map_disjoint_empty_r|done]|by intros [_ ->]].
  - apply NoDup_cons in Hnd as [Hk Hnd]. unfold merge_entry at 1. cbn [fst snd].
    assert ((list_to_map l : gmap string V) !! k = None) as Hl by (by apply not_elem_of_list_to_map).
    rewrite map_disjoint_insert_r. destruct (m !! k) as [w|] eqn:E.
    + split; [done|]. by intros [[? _] _].
    + rewrite IH by done. rewrite map_disjoint_insert_l, <-insert_union_l, insert_union_r by done. tauto.
Qed.

Lemma merge_map_spec {V} kind (into from m : gmap string V) :
  merge_map kind into from = Ok m <-> into ##ₘ from /\ m = into ∪ from.
Proof.
  unfold merge_map. rewrite merge_entries_spec by apply map_range_keys_NoDup.
  assert (list_to_map (map_range from) = from) as ->; [|done].
  rewrite <-(list_to_map_to_list from) at 2. apply list_to_map_proper; [apply map_range_keys_NoDup|apply map_range_perm].
Qed.

Lemma merge_map_ok {V} kind (into from : gmap string V) :
  into ##ₘ from -> merge_map kind into from = Ok (into ∪ from).
Proof. intros Hd. by apply merge_map_spec. Qed.

Lemma merge_spec a b c : merge a b = Ok c <-> fb_disjoint a b /\ c = fb_union a b.
Proof.
  unfold merge, fb_disjoint, fb_union. split.
  - repeat match goal with
    | |- context [merge_map ?k ?x ?y] =>
      let E := fresh "E" in destruct (merge_map k x y) eqn:E; simpl; [apply merge_map_spec in E as [? ->]|done]
    end.
    intros [= <-]. done.
  - intros [(H1 & H2 & H3 & H4 & H5) ->].
    rewrite !merge_map_ok by done. done.
Qed.

(** ** One document *)

(** What loading [d] adds to a bundle: its own bundle. *)
Definition adds (f : FullBundle -> result FullBundle) : Prop :=
  forall out out', f out = Ok out' <-> exists b, f empty_bundle = Ok b /\ fb_disjoint out b /\ out' = fb_union out b.

Lemma adds_err e : adds (fun _ => Err e).
Proof. intros out out'. split; [done|]. by intros (b & ? & _). Qed.

Lemma adds_const b f :
  (forall out out', f out = Ok out' <-> fb_disjoint out b /\ out' = fb_union out b) -> adds f.
Proof.
  intros Hf out out'. rewrite Hf. split.
  - intros [Hd ->]. exists b. split_and!; [|done|done]. apply Hf. split; [apply fb_disjoint_empty_l|].
    by rewrite fb_empty_union.
  - intros (b' & Hb & Hd & ->). apply Hf in Hb as [_ ->]. by rewrite fb_empty_union in *.
Qed.

Lemma adds_id : adds Ok.
Proof.
  apply (adds_const empty_bundle). intros out out'. rewrite fb_union_empty.
  split; [intros [= <-]; split; [apply fb_disjoint_empty_r|done] | by intros [_ ->]].
Qed.

Lemma adds_ext f g : (forall out out', f out = Ok out' <-> g out = Ok out') -> adds f -> adds g.
Proof. intros Hfg Hf out out'. rewrite <-Hfg, (Hf out out'). by setoid_rewrite Hfg. Qed.

Lemma adds_bind {A} (r : result A) (k : A -> FullBundle -> result FullBundle) :
  (forall x, r = Ok x -> adds (k x)) -> adds (fun out => x ← r; k x out).
Proof. intros Hk. destruct r as [x|e]; [by apply Hk|apply adds_err]. Qed.

Lemma union_singleton_r {V} (m : gmap string V) k v : m !! k = None -> <[k := v]> m = m ∪ {[k := v]}.
Proof. intros Hk. by rewrite <-insert_union_singleton_r. Qed.


(** A loader of one resource: an insertion behind a duplicate check, or an append. *)
Ltac one_resource :=
  intros [[] ? ? ? ?] out'; unfold fb_disjoint, fb_union; simpl;
  rewrite ?map_disjoint_singleton_r; try (case_match; [naive_solver|]);
  rewrite ?(right_id_L ∅ (∪)), ?(left_id_L ∅ (∪)), ?app_nil_r, <-?insert_union_singleton_l;
  unfold fb_set_Bundle, fb_set_ConfigMaps, fb_set_Secrets; simpl; rewrite ?union_singleton_r by done;
  split; [intros [= <-]; split_and!; solve [apply map_disjoint_empty_r | done] | by intros [_ ->]].

Lemma loadStepAction_adds d : adds (fun out => loadStepAction out d).
Proof.
  unfold loadStepAction. apply adds_bind. intros sa _. cbv zeta. case_match; [apply adds_err|].
  apply (adds_const (mkFullBundle (mkBundle ∅ ∅ [] {[obj_name (sa_Object sa) := sa]}) [] ∅ ∅ ∅)).
  one_resource.
Qed.

(** The duplicate check comes before the check of the keys. *)
Lemma adds_dup {A} (look : FullBundle -> option A) e (r : result (gmap string string)) k :
  look empty_bundle = None ->
  (forall m, r = Ok m -> adds (fun out => match look out with Some _ => Err (e out) | None => Ok (k m out) end)) ->
  adds (fun out => match look out with Some _ => Err (e out) | None => m ← r; Ok (k m out) end).
Proof.
  intros He Hk. destruct r as [m|err]; [by apply Hk|].
  intros out out'. simpl. rewrite He. split; [by case_match|]. by intros (b & ? & _).
Qed.

Lemma loadConfigMap_adds d : adds (fun out => loadConfigMap out d).
Proof.
  unfold loadConfigMap. apply adds_bind. intros cm _. cbv zeta. do 2 (case_match; [apply adds_err|]).
  set (name := md_Name _).
  apply (adds_dup (fun out => fb_ConfigMaps out !! name)); [done|]. intros m _.
  apply (adds_const (mkFullBundle (mkBundle ∅ ∅ [] ∅) [] ∅ {[name := m]} ∅)).
  one_resource.
Qed.

Lemma loadSecret_adds d : adds (fun out => loadSecret out d).
Proof.
  unfold loadSecret. apply adds_bind. intros s _. cbv zeta. case_match; [apply adds_err|].
  set (name := md_Name _).
  assert (adds (fun out => match fb_Secrets out !! name with
    | Some _ => Err (Fmt "duplicate Secret %q" [TStr name])
    | None => bytes ← (bytes ← foldM (add_encoded_key name) ∅ (map_range (sd_Data s));
                foldM (add_string_key "Secret" name) bytes (map_range (sd_StringData s)));
              Ok (fb_set_Secrets out (<[name := bytes]> (fb_Secrets out)))
    end)) as Ha.
  { apply (adds_dup (fun out => fb_Secrets out !! name)); [done|]. intros m _.
    apply (adds_const (mkFullBundle (mkBundle ∅ ∅ [] ∅) [] ∅ ∅ {[name := m]})). one_resource. }
  intros out out'. destruct (Ha out out') as [H1 H2].
  simpl in *. destruct (foldM _ ∅ _); simpl in *; split; auto.
Qed.

Lemma load_v1_kind_adds kind d : adds (fun out => load_v1_kind out kind d).
Proof.
  unfold load_v1_kind. repeat case_match; try apply adds_err; apply adds_bind; intros x _; cbv zeta.
  - apply (adds_const (mkFullBundle (mkBundle {[obj_name (task_Object x) := x]} ∅ [] ∅) []
             {[obj_name (task_Object x) := d]} ∅ ∅)).
    one_resource.
  - apply (adds_const (mkFullBundle (mkBundle ∅ {[obj_name (pl_Object x) := x]} [] ∅) [] ∅ ∅ ∅)). one_resource.
  - apply (adds_const (mkFullBundle (mkBundle ∅ ∅ [x] ∅) [] ∅ ∅ ∅)). one_resource.
  - apply (adds_const (mkFullBundle (mkBundle ∅ ∅ [] ∅) [x] ∅ ∅ ∅)). one_resource.
Qed.

Lemma loadOne_adds d : adds (fun out => loadOne out d).
Proof.
  unfold loadOne. apply adds_bind. intros head _. cbv zeta.
  repeat case_match; auto using adds_err, load_v1_kind_adds, loadStepAction_adds, loadConfigMap_adds, loadSecret_adds.
Qed.

Lemma load_doc_adds id : adds (fun out => load_doc out id).
Proof.
  unfold load_doc. case_match.
  - apply adds_id.
  - apply (adds_ext (fun out => loadOne out id.2)); [|apply loadOne_adds]. intros. by rewrite wrap_err_ok.
Qed.

(** ** A sequence of documents *)
Lemma adds_seq f g : adds f -> adds g -> adds (fun out => x ← f out; g x).
Proof.
  intros Hf Hg out out'.
  assert (forall o o', (x ← f o; g x) = Ok o' <-> exists b c, f empty_bundle = Ok b /\ g empty_bundle = Ok c /\
    fb_disjoint b c /\ fb_disjoint o (fb_union b c) /\ o' = fb_union o (fb_union b c)) as Hseq.
  { intros o o'. split.
    - destruct (f o) as [x|] eqn:E; [|done]. simpl. intros Hx.
      apply Hf in E as (b & Hb & Hd & ->). apply Hg in Hx as (c & Hc & Hdc & ->).
      apply fb_disjoint_union_l in Hdc as [Hac Hbc]. exists b, c. rewrite fb_union_assoc.
      by split_and!; [| | |apply fb_disjoint_union_r|].
    - intros (b & c & Hb & Hc & Hbc & Hd & ->). apply fb_disjoint_union_r in Hd as [Hob Hoc].
      rewrite (proj2 (Hf o (fb_union o b))) by eauto. simpl. apply Hg. exists c.
      rewrite fb_union_assoc. by split_and!; [|apply fb_disjoint_union_l|]. }
  rewrite Hseq. split.
  - intros (b & c & Hb & Hc & Hbc & Hd & ->). exists (fb_union b c). split_and!; [|done|done].
    apply Hseq. exists b, c. rewrite fb_empty_union. by split_and!; [| | |apply fb_disjoint_empty_l|].
  - intros (d & (b & c & Hb & Hc & Hbc & _ & ->)%Hseq & Hd & ->). rewrite fb_empty_union in *. by exists b, c.
Qed.

Lemma foldM_adds {A} (f : FullBundle -> A -> result FullBundle) l :
  (forall a, adds (fun b => f b a)) -> adds (fun b => foldM f b l).
Proof.
  intros Hf. induction l as [|a l IH]; simpl; [apply adds_id|]. exact (adds_seq _ _ (Hf a) IH).
Qed.

(** The documents of one file, with their positions. *)
Definition documents (data : string) : list (nat * string) := imap pair (splitYAMLDocs data).

Lemma load_file_spec readFile out p out' :
  load_file readFile out p = Ok out' <->
  exists data, readFile p = Ok data /\ foldM load_doc out (documents data) = Ok out'.
Proof.
  unfold load_file. destruct (readFile p) as [data|] eqn:E; simpl; [|naive_solver].
  trans (foldM load_doc out (documents data) = Ok out'); [|naive_solver].
  rewrite (foldM_adds load_doc (documents data) load_doc_adds out out').
  change (foldM load_doc empty_bundle (documents data)) with (LoadBytes data).
  destruct (LoadBytes data) as [b|]; simpl; [rewrite merge_spec|]; naive_solver.
Qed.

Lemma LoadFiles_spec readFile paths out :
  LoadFiles readFile paths = Ok out <->
  exists datas, Forall2 (fun p data => readFile p = Ok data) paths datas /\
    foldM load_doc empty_bundle (flat_map documents datas) = Ok out.
Proof.
  unfold LoadFiles. generalize empty_bundle as acc. induction paths as [|p paths IH]; intros acc; simpl.
  - split; [intros Ho; by exists []|]. intros (ds & Hds & Ho). by inversion Hds; subst.
  - split.
    + destruct (load_file readFile acc p) as [acc'|] eqn:E; [|done]. intros Ho.
      apply load_file_spec in E as (d & Hd & Hl). apply IH in Ho as (ds & Hds & Ho).
      exists (d :: ds). split; [by constructor|]. simpl. rewrite foldM_app, Hl. done.
    + intros (ds & Hds & Ho). inversion Hds as [|? d ? ds' Hd Hds']; subst. simpl in Ho.
      rewrite foldM_app in Ho. destruct (foldM load_doc acc (documents d)) as [acc'|] eqn:E; [|done].
      rewrite (proj2 (load_file_spec readFile acc p acc')) by eauto. apply IH. eauto.
Qed.

(** C14: loading files is loading all their documents, in the order of the files,
    into one bundle: [LoadFiles] succeeds exactly when every file can be read and
    the documents load one after the other into one bundle, with the same
    result.  The check for duplicates across files in [merge] and the check inside
    a file in [loadOne] are therefore one check, and where a stream is cut into
    files does not matter. *)
Theorem LoadFiles_is_one_load readFile paths out :
  LoadFiles readFile paths = Ok out <->
  exists datas, Forall2 (fun p data => readFile p = Ok data) paths datas /\
    foldM load_doc empty_bundle (flat_map documents datas) = Ok out.
Proof. apply LoadFiles_spec. Qed.

(** ** What a bundle holds *)

(** Every part of the bundle of a sequence of documents comes from one of them. *)
Lemma foldM_lookup {V} (part : FullBundle -> gmap string V) docs acc out n v :
  (forall a b, part (fb_union a b) = part a ∪ part b) ->
  (forall a b, fb_disjoint a b -> part a ##ₘ part b) ->
  foldM load_doc acc docs = Ok out ->
  part out !! n = Some v <->
  part acc !! n = Some v \/ exists d b, d ∈ docs /\ load_doc empty_bundle d = Ok b /\ part b !! n = Some v.
Proof.
  intros Hu Hd. revert acc; induction docs as [|d docs IH]; intros acc; simpl.
  - intros [= <-]. split; [by left|]. intros [?|(d & b & Hin & _)]; [done|]. by apply not_elem_of_nil in Hin.
  - destruct (load_doc acc d) as [acc'|] eqn:E; [|done]. intros Ho.
    apply (load_doc_adds d) in E as (b & Hb & Hdj & ->). rewrite (IH _ Ho), Hu.
    rewrite lookup_union_Some by auto. setoid_rewrite elem_of_cons.
    split; [intros [[?|?]|(d' & b' & ? & ?)]; eauto 8|].
    intros [?|(d' & b' & [->|?] & Hb' & ?)]; [eauto| |eauto 8]. rewrite Hb in Hb'. simplify_eq. eauto.
Qed.

(** [d] is a document of the given apiVersion and kind. *)
Definition is_doc (version kind d : string) : Prop :=
  trim_space d <> "" /\ exists head, yaml_Object d = Ok head /\ ob_APIVersion head = version /\ ob_Kind head = kind.

(** The keys of a mounted volume stay below its directory. *)
Definition safe_key (k : string) : Prop := is_abs k = false /\ contains k ".." = false.

Lemma validateVolumeDataKey_ok kind name k u : validateVolumeDataKey kind name k = Ok u -> safe_key k.
Proof. unfold validateVolumeDataKey. destruct (is_abs k) eqn:?, (contains k "..") eqn:?; simpl; done. Qed.

Lemma add_string_keys kind name l m m' :
  NoDup l.*1 -> foldM (add_string_key kind name) m l = Ok m' ->
  Forall safe_key l.*1 /\ m' = list_to_map l ∪ m.
Proof.
  revert m; induction l as [|[k v] l IH]; intros m Hnd; simpl.
  - intros [= <-]. split; [constructor|by rewrite (left_id_L ∅ (∪))].
  - apply NoDup_cons in Hnd as [Hk Hnd]. unfold add_string_key at 1. simpl.
    destruct (validateVolumeDataKey kind name k) eqn:E; simpl; [|done]. intros (Hs & ->)%IH; [|done].
    split; [constructor; [by eapply validateVolumeDataKey_ok|done]|].
    rewrite <-insert_union_l, <-insert_union_r; [done|]. by apply not_elem_of_list_to_map.
Qed.

Lemma add_encoded_keys name l m m' :
  NoDup l.*1 -> foldM (add_encoded_key name) m l = Ok m' ->
  Forall safe_key l.*1 /\
  forall k, m' !! k = match (list_to_map l : gmap string string) !! k with
                      | Some v => match base64_decode v with Ok w => Some w | Err _ => None end
                      | None => m !! k
                      end.
Proof.
  revert m; induction l as [|[k v] l IH]; intros m Hnd; simpl.
  - intros [= <-]. split; [constructor|done].
  - apply NoDup_cons in Hnd as [Hk Hnd]. unfold add_encoded_key at 1. simpl.
    destruct (validateVolumeDataKey "Secret" name k) eqn:E; simpl; [|done].
    destruct (base64_decode v) as [w|] eqn:Ew; simpl; [|done]. intros (Hs & Hm)%IH; [|done].
    split; [constructor; [by eapply validateVolumeDataKey_ok|done]|]. intros k'. rewrite Hm.
    destruct (decide (k' = k)) as [->|].
    + rewrite not_elem_of_list_to_map_1 by done. by rewrite !lookup_insert_eq, Ew.
    + by rewrite !lookup_insert_ne.
Qed.

Lemma map_range_list_to_map {V} (m : gmap string V) : list_to_map (map_range m) = m.
Proof.
  rewrite <-(list_to_map_to_list m) at 2. apply list_to_map_proper; [apply map_range_keys_NoDup|apply map_range_perm].
Qed.

Lemma map_range_keys {V} (m : gmap string V) (P : string -> Prop) :
  Forall P (map_range m).*1 <-> forall k v, m !! k = Some v -> P k.
Proof.
  rewrite Forall_forall. split.
  - intros HP k v Hk. apply HP. apply list_elem_of_fmap. exists (k, v). split; [done|]. by apply elem_of_map_range.
  - intros HP k ([k' v] & -> & Hk%elem_of_map_range)%list_elem_of_fmap. by eapply HP.
Qed.

Lemma loadConfigMap_part d b n m :
  loadConfigMap empty_bundle d = Ok b -> fb_ConfigMaps b !! n = Some m ->
  exists cm, yaml_configMapDoc d = Ok cm /\ md_Name (cmd_Metadata cm) = n /\ n <> "" /\
    m = cmd_Data cm /\ cmd_BinaryData cm = ∅ /\ forall k v, m !! k = Some v -> safe_key k.
Proof.
  unfold loadConfigMap.
  destruct (yaml_configMapDoc d) as [cm|]; simpl; [|done].
  destruct (String.eqb_spec (md_Name (cmd_Metadata cm)) ""); [done|]. case_bool_decide; simpl; [|done].
  rewrite lookup_empty.
  destruct (foldM _ _ _) as [bytes|] eqn:E; simpl; [|done]. intros [= <-]. simpl.
  apply add_string_keys in E as [Hs ->]; [|apply map_range_keys_NoDup].
  rewrite map_range_list_to_map, (right_id_L ∅ (∪)). intros [[<- <-]|[_ ?]]%lookup_insert_Some; [|done].
  exists cm. split_and!; try done. by apply map_range_keys.
Qed.

Lemma loadSecret_part d b n m :
  loadSecret empty_bundle d = Ok b -> fb_Secrets b !! n = Some m ->
  exists s, yaml_secretDoc d = Ok s /\ md_Name (sd_Metadata s) = n /\ n <> "" /\
    (forall k v, m !! k = Some v -> safe_key k) /\
    forall k, m !! k = match sd_StringData s !! k with
                       | Some v => Some v
                       | None => v ← sd_Data s !! k; match base64_decode v with Ok w => Some w | Err _ => None end
                       end.
Proof.
  unfold loadSecret. destruct (yaml_secretDoc d) as [s|]; simpl; [|done].
  destruct (String.eqb_spec (md_Name (sd_Metadata s)) ""); [done|]. rewrite lookup_empty.
  destruct (foldM _ ∅ _) as [bytes|] eqn:E; simpl; [|done].
  destruct (foldM _ bytes _) as [bytes'|] eqn:E'; simpl; [|done]. intros [= <-]. simpl.
  apply add_encoded_keys in E as [Hs Hm]; [|apply map_range_keys_NoDup].
  apply add_string_keys in E' as [Hs' ->]; [|apply map_range_keys_NoDup].
  rewrite map_range_list_to_map in *. rewrite map_range_keys in Hs, Hs'.
  intros [[<- <-]|[_ ?]]%lookup_insert_Some; [|done].
  assert (forall k, (sd_StringData s ∪ bytes) !! k = match sd_StringData s !! k with
    | Some v => Some v
    | None => v ← sd_Data s !! k; match base64_decode v with Ok w => Some w | Err _ => None end
    end) as Hlook.
  { intros k. destruct (sd_StringData s !! k) as [v|] eqn:Ek.
    - by apply lookup_union_Some_l.
    - rewrite lookup_union_r, Hm by done. by destruct (sd_Data s !! k). }
  exists s. split_and!; try done. intros k v. rewrite Hlook.
  destruct (sd_StringData s !! k) eqn:?; [by eauto|]. destruct (sd_Data s !! k) eqn:?; [by eauto|done].
Qed.

(** Only the loader of a kind adds resources of the kind. *)
Lemma other_parts d b :
  (exists kind, load_v1_kind empty_bundle kind d = Ok b) \/ loadStepAction empty_bundle d = Ok b ->
  fb_ConfigMaps b = ∅ /\ fb_Secrets b = ∅.
Proof.
  intros [[kind Hb]|Hb]; revert Hb; unfold load_v1_kind, loadStepAction.
  - destruct (yaml_Task d), (yaml_Pipeline d), (yaml_PipelineRun d), (yaml_TaskRun d); simpl;
      rewrite ?lookup_empty; repeat case_match; intros [= <-]; done.
  - destruct (yaml_StepAction d); simpl; [|done]. rewrite lookup_empty. case_match; [done|]. by intros [= <-].
Qed.

Lemma loadConfigMap_secrets d b : loadConfigMap empty_bundle d = Ok b -> fb_Secrets b = ∅.
Proof.
  unfold loadConfigMap. destruct (yaml_configMapDoc d); simpl; [|done]. rewrite lookup_empty.
  do 2 (case_match; [done|]). destruct (foldM _ _ _); simpl; [|done]. by intros [= <-].
Qed.

Lemma loadSecret_configmaps d b : loadSecret empty_bundle d = Ok b -> fb_ConfigMaps b = ∅.
Proof.
  unfold loadSecret. destruct (yaml_secretDoc d); simpl; [|done]. rewrite lookup_empty.
  case_match; [done|]. destruct (foldM _ ∅ _); simpl; [|done]. destruct (foldM _ _ _); simpl; [|done]. by intros [= <-].
Qed.

Lemma loadOne_volumes d b n m :
  trim_space d <> "" -> loadOne empty_bundle d = Ok b ->
  (fb_ConfigMaps b !! n = Some m -> is_doc "v1" "ConfigMap" d /\ loadConfigMap empty_bundle d = Ok b) /\
  (fb_Secrets b !! n = Some m -> is_doc "v1" "Secret" d /\ loadSecret empty_bundle d = Ok b).
Proof.
  intros Ht. unfold loadOne, is_doc. destruct (yaml_Object d) as [head|]; simpl; [|done].
  destruct (String.eqb_spec (ob_APIVersion head) "tekton.dev/v1").
  { intros Hb. edestruct (other_parts d b) as [-> ->]; [eauto|]. by rewrite !lookup_empty. }
  destruct (String.eqb_spec (ob_APIVersion head) "tekton.dev/v1beta1").
  { case_match; [|done]. intros Hb. edestruct (other_parts d b) as [-> ->]; [eauto|]. by rewrite !lookup_empty. }
  destruct (String.eqb_spec (ob_APIVersion head) "v1"); [|done].
  destruct (String.eqb_spec (ob_Kind head) "ConfigMap").
  { intros Hb. split; [eauto 6|]. by rewrite (loadConfigMap_secrets _ _ Hb), lookup_empty. }
  destruct (String.eqb_spec (ob_Kind head) "Secret"); [|done].
  intros Hb. split; [|eauto 6]. by rewrite (loadSecret_configmaps _ _ Hb), lookup_empty.
Qed.

(** The resources of one document. *)
Lemma load_doc_ok id b :
  load_doc empty_bundle id = Ok b -> b = empty_bundle \/ trim_space id.2 <> "" /\ loadOne empty_bundle id.2 = Ok b.
Proof.
  unfold load_doc. destruct (String.eqb_spec (trim_space id.2) ""); [intros [= <-]; by left|].
  rewrite wrap_err_ok. by right.
Qed.

(** the volume data a user's YAML brings in.  When the files load, every
    ConfigMap and Secret of the bundle is that of one document of the files;
    a ConfigMap has the document's data and no binaryData, a Secret's keys are
    those of stringData, which win, and the base64-decoded ones of data; and no
    key is an absolute path or holds [..], so that a key joined to the volume's
    directory stays below it. *)
Theorem loaded_volume_data readFile paths out :
  LoadFiles readFile paths = Ok out ->
  (forall n m, fb_ConfigMaps out !! n = Some m ->
    exists p data id cm, p ∈ paths /\ readFile p = Ok data /\ id ∈ documents data /\ is_doc "v1" "ConfigMap" id.2 /\
      yaml_configMapDoc id.2 = Ok cm /\ md_Name (cmd_Metadata cm) = n /\ n <> "" /\
      m = cmd_Data cm /\ cmd_BinaryData cm = ∅ /\ forall k v, m !! k = Some v -> safe_key k) /\
  (forall n m, fb_Secrets out !! n = Some m ->
    exists p data id s, p ∈ paths /\ readFile p = Ok data /\ id ∈ documents data /\ is_doc "v1" "Secret" id.2 /\
      yaml_secretDoc id.2 = Ok s /\ md_Name (sd_Metadata s) = n /\ n <> "" /\
      (forall k v, m !! k = Some v -> safe_key k) /\
      forall k, m !! k = match sd_StringData s !! k with
                         | Some v => Some v
                         | None => v ← sd_Data s !! k; match base64_decode v with Ok w => Some w | Err _ => None end
                         end).
Proof.
  intros (datas & Hds & Ho)%LoadFiles_spec.
  assert (forall id, id ∈ flat_map documents datas -> exists p data, p ∈ paths /\ readFile p = Ok data /\ id ∈ documents data)
    as Hin.
  { intros id (data & Hd & Hid)%list_elem_of_In%in_flat_map. apply list_elem_of_In in Hd, Hid.
    apply list_elem_of_lookup in Hd as [i Hi]. eapply Forall2_lookup_r in Hi as (p & Hp & Hr); [|exact Hds].
    exists p, data. split_and!; [by eapply list_elem_of_lookup_2|done|done]. }
  split; intros n m Hm.
  - apply (foldM_lookup fb_ConfigMaps _ _ _ _ _ (fun _ _ => eq_refl) (fun a b Hab => proj1 (proj2 (proj2 (proj2 Hab)))) Ho)
      in Hm as [Hm|(id & b & Hid & [->|[Ht Hb]]%load_doc_ok & Hm)]; [exfalso; exact (lookup_empty_Some _ _ Hm)..|].
    apply Hin in Hid as (p & data & ? & ? & ?).
    destruct (loadOne_volumes id.2 b n m Ht Hb) as [Hcm _]. destruct (Hcm Hm) as [Hdoc Hl].
    destruct (loadConfigMap_part _ _ _ _ Hl Hm) as (cm & ? & ? & ? & ? & ? & ?). by exists p, data, id, cm.
  - apply (foldM_lookup fb_Secrets _ _ _ _ _ (fun _ _ => eq_refl) (fun a b Hab => proj2 (proj2 (proj2 (proj2 Hab)))) Ho)
      in Hm as [Hm|(id & b & Hid & [->|[Ht Hb]]%load_doc_ok & Hm)]; [exfalso; exact (lookup_empty_Some _ _ Hm)..|].
    apply Hin in Hid as (p & data & ? & ? & ?).
    destruct (loadOne_volumes id.2 b n m Ht Hb) as [_ Hcm]. destruct (Hcm Hm) as [Hdoc Hl].
    destruct (loadSecret_part _ _ _ _ Hl Hm) as (s & ? & ? & ? & ? & ?). by exists p, data, id, s.
Qed.

(** ** Unresolved references *)
Lemma elem_of_HasUnresolvedRefs b r :
  r ∈ HasUnresolvedRefs b <->
  (exists name pl pt res, b_Pipelines (fb_Bundle b) !! name = Some pl /\ pt ∈ all_tasks pl /\
     set_resolver (pt_TaskRef pt) = Some res /\ r = mkUnresolvedRef name (pt_Name pt) "Task" res) \/
  (exists pr, pr ∈ b_PipelineRuns (fb_Bundle b) /\ run_unresolved pr = Some r) \/
  (exists tr, tr ∈ fb_TaskRuns b /\ taskrun_unresolved tr = Some r).
Proof.
  unfold HasUnresolvedRefs. rewrite !elem_of_app, !list_elem_of_omap. apply or_iff_compat_r.
  rewrite list_elem_of_In, in_flat_map. split.
  - intros ([name pl] & Hin & Hr). apply list_elem_of_In in Hin, Hr. apply elem_of_map_range in Hin.
    apply list_elem_of_omap in Hr as (pt & Hpt & Hr). unfold task_unresolved in Hr.
    destruct (set_resolver (pt_TaskRef pt)) as [res|] eqn:E; [|done]. simplify_eq/=. eauto 10.
  - intros (name & pl & pt & res & Hpl & Hpt & Hres & ->). exists (name, pl).
    rewrite <-!list_elem_of_In. split; [by apply elem_of_map_range|]. apply list_elem_of_omap.
    exists pt. split; [done|]. unfold task_unresolved. by rewrite Hres.
Qed.

(** an offline check on [HasUnresolvedRefs] is complete: when the list is empty,
    no PipelineTask of the bundle, in the DAG or in [finally], and no PipelineRun
    goes through the resolver registry. *)
Theorem HasUnresolvedRefs_complete b :
  HasUnresolvedRefs b = [] <->
  (forall name pl pt, b_Pipelines (fb_Bundle b) !! name = Some pl -> pt ∈ all_tasks pl -> is_resolver_ref pt = false) /\
  (forall pr r, pr ∈ b_PipelineRuns (fb_Bundle b) -> prun_PipelineRef (prun_Spec pr) = Some r -> plr_Resolver r = "") /\
  (forall tr r, tr ∈ fb_TaskRuns b -> trun_TaskRef (trun_Spec tr) = Some r -> tr_Resolver r = "").
Proof.
  assert (HasUnresolvedRefs b = [] <-> forall r, r ∉ HasUnresolvedRefs b) as ->.
  { split; [intros ->; intros r; apply not_elem_of_nil|]. intros Hr.
    destruct (HasUnresolvedRefs b) as [|r l]; [done|]. by destruct (Hr r); constructor. }
  setoid_rewrite elem_of_HasUnresolvedRefs. split.
  - intros Hno. split_and!.
    + intros name pl pt Hpl Hpt. destruct (is_resolver_ref pt) eqn:E; [|done]. exfalso.
      unfold is_resolver_ref in E. destruct (pt_TaskRef pt) as [tr|] eqn:Et; [|done].
      eapply (Hno (mkUnresolvedRef name (pt_Name pt) "Task" (tr_Resolver tr))). left.
      exists name, pl, pt, (tr_Resolver tr). split_and!; try done. rewrite Et. simpl.
      unfold is_set in E. by destruct (String.eqb (tr_Resolver tr) "").
    + intros pr r Hpr Hr. destruct (String.eqb_spec (plr_Resolver r) ""); [done|]. exfalso.
      eapply Hno. right; left. exists pr. split; [done|]. unfold run_unresolved. rewrite Hr. simpl.
      by rewrite (proj2 (String.eqb_neq _ _)).
    + intros tr r Htr Hr. destruct (String.eqb_spec (tr_Resolver r) ""); [done|]. exfalso.
      eapply Hno. right; right. exists tr. split; [done|]. unfold taskrun_unresolved. rewrite Hr. simpl.
      by rewrite (proj2 (String.eqb_neq _ _)).
  - intros (H1 & H2 & H3) r [(name & pl & pt & res & Hpl & Hpt & Hres & ->)|[(pr & Hpr & Hr)|(tr & Htr & Hr)]].
    + specialize (H1 _ _ _ Hpl Hpt). unfold is_resolver_ref, is_set in H1.
      destruct (pt_TaskRef pt); simpl in Hres; [|done]. by destruct (String.eqb _ _).
    + unfold run_unresolved in Hr. destruct (prun_PipelineRef _) as [pref|] eqn:E; simpl in Hr; [|done].
      by rewrite (H2 _ _ Hpr E) in Hr.
    + unfold taskrun_unresolved in Hr. destruct (trun_TaskRef _) as [tref|] eqn:E; simpl in Hr; [|done].
      by rewrite (H3 _ _ Htr E) in Hr.
Qed.
End Bundles.

(** ** Example *)
Section Examples.
#[local] Existing Instance core_unit.
#[local] Existing Instance default_range.

(** One document per kind. *)
Definition ex_meta : Metadata := mkMetadata "creds" "" ∅ ∅.
Definition ex_kind (d : string) : string := if contains d "secret" then "Secret" else "ConfigMap".

#[local] Instance ex_yaml : Yaml := {|
  yaml_Object d := Ok (mkObject "v1" (ex_kind d) ex_meta);
  yaml_Task _ := Err (lit "unused"); yaml_Pipeline _ := Err (lit "unused");
  yaml_PipelineRun _ := Err (lit "unused"); yaml_TaskRun _ := Err (lit "unused");
  yaml_StepAction _ := Err (lit "unused");
  yaml_configMapDoc d := Ok (mkconfigMapDoc ex_meta {["app.conf" := "debug=1"]} ∅ None);
  yaml_secretDoc d := Ok (mksecretDoc ex_meta "" {["token" := "aGVsbG8="; "user" := "Ym9i"]} {["user" := "alice"]} None);
|}.

Definition ex_nl : string := String newline "".
Definition ex_read (p : string) : result string :=
  if String.eqb p "a.yaml" then Ok ("configmap" +:+ ex_nl +:+ "---" +:+ ex_nl +:+ "secret")
  else if String.eqb p "b.yaml" then Ok "secret" else Err (lit "no such file").

Definition ex_loaded : FullBundle :=
  mkFullBundle (mkBundle ∅ ∅ [] ∅) [] ∅ {["creds" := {["app.conf" := "debug=1"]}]}
    {["creds" := {["token" := "hello"; "user" := "alice"]}]}.

(** The duplicate Secret is in two files. *)
Example duplicate_across_files :
  LoadFiles ex_read ["a.yaml"; "b.yaml"] = Err (Fmt "duplicate Secret %q across files" [TStr "creds"]).
Proof. vm_compute. reflexivity. Qed.

(** A separator with a comment is none: the second document is part of the first. *)
Example separator_comment :
  length (documents ("configmap" +:+ ex_nl +:+ "--- # next" +:+ ex_nl +:+ "secret")) = 1.
Proof. vm_compute. reflexivity. Qed.

Definition ex_secret : gmap string string := {["token" := "hello"; "user" := "alice"]}.

Lemma loaded_volume_data_witness :
  LoadFiles ex_read ["a.yaml"] = Ok ex_loaded /\ fb_Secrets ex_loaded !! "creds" = Some ex_secret /\
  forall k v, ex_secret !! k = Some v -> safe_key k.
Proof.
  assert (LoadFiles ex_read ["a.yaml"] = Ok ex_loaded) as Hl by (vm_compute; reflexivity).
  assert (fb_Secrets ex_loaded !! "creds" = Some ex_secret) as Hs by (vm_compute; reflexivity).
  split; [exact Hl|]. split; [exact Hs|].
  destruct (proj2 (loaded_volume_data ex_read ["a.yaml"] ex_loaded Hl) "creds" ex_secret Hs)
    as (p & data & id & s & _ & _ & _ & _ & _ & _ & _ & Hk & _).
  exact Hk.
Defined.
End Examples.
