(* ===== verification/Docker.v ===== *)
(** * internal/backend/docker: security.go, the helpers of docker.go, workspaces.go

    The calls the docker backend makes, its configuration, and what it builds for a
    container: quantities, the security context, the substituted Step and the
    mounts. *)

From Stdlib Require Import SpecFloat.
From S2P Require Import Prelude GoStrings GoTime Paths TektonTypes Run Resolver Scope Steps Effects.

(** ** fmt.Sscanf("%d") *)

(** Spaces but no newline are skipped. *)
Fixpoint skip_space (fuel : nat) (s : string) : result string :=
  match fuel with
  | O => Ok s
  | S f =>
    if has_prefix s (String "010" "") then Err (lit "unexpected newline")
    else match head (omap (fun r => strip_prefix r s) space_runes) with
         | Some s' => skip_space f s'
         | None => Ok s
         end
  end.

Fixpoint take_digits (s : string) : string :=
  match s with
  | String a s' => if is_digit a then String a (take_digits s') else ""
  | "" => ""
  end.

(** What follows the number is left unread. *)
Definition scan_int (s : string) : result Z :=
  s ← skip_space (S (String.length s)) s;
  let '(sign, rest) :=
    match s with
    | String a s' => if Ascii.eqb a "+" || Ascii.eqb a "-" then (String a "", s') else ("", s)
    | "" => ("", "")
    end in
  let ds := take_digits rest in
  if String.eqb ds "" then Err (lit "expected integer")
  else match atoi (sign +:+ ds) with
       | Some n => Ok n
       | None => Err (Fmt "strconv.ParseInt: parsing %q: value out of range" [TStr (sign +:+ ds)])
       end.

(** [fmt.Sscanf(s, "%f", &f)]. *)
Class FloatScan := { scan_float : string -> result spec_float }.

(** The conversion to [int64], as on amd64: what does not fit is the least integer. *)
Definition int64_of_f64 (f : spec_float) : Z :=
  match f with
  | S754_zero _ => 0%Z
  | S754_finite neg m e =>
    let v := if (e <? 0)%Z then Z.quot (Z.pos m) (2 ^ (- e)) else Z.shiftl (Z.pos m) e in
    let v := if neg : bool then (- v)%Z else v in
    if (min_int <=? v)%Z && (v <=? max_int)%Z then v else min_int
  | _ => min_int
  end.

(** ** Quantities *)
Definition memory_suffixes : list (string * Z) :=
  [("Gi", 2 ^ 30); ("Mi", 2 ^ 20); ("Ki", 2 ^ 10); ("G", 1000000000); ("M", 1000000); ("K", 1000)]%Z.

Definition parseMemory (s : string) : result Z :=
  match List.find (fun sf => has_suffix s sf.1) memory_suffixes with
  | Some (suf, mul) => n ← scan_int (trim_suffix s suf); Ok (wrap64 (n * mul))
  | None => scan_int s
  end.

Definition parseCPU `{FloatScan} (s : string) : result Z :=
  if has_suffix s "m" then n ← scan_int (trim_suffix s "m"); Ok (wrap64 (n * 1000000))
  else f ← scan_float s; Ok (int64_of_f64 (f64_mul f (f64_of_Z 1000000000))).

(** ** Containers *)
Record Mount := mkMount {
  mt_Type : string;
  mt_Source : string;
  mt_Target : string;
  mt_ReadOnly : bool;
  mt_Subpath : option string;   (* VolumeOptions.Subpath *)
}.

Record Config := mkConfig {
  cc_Image : string;
  cc_Cmd : list string;
  cc_Env : list string;
  cc_WorkingDir : string;
  cc_User : string;
}.

Record HostConfig := mkHostConfig {
  hc_Mounts : list Mount;
  hc_NetworkMode : string;
  hc_Memory : Z;
  hc_NanoCPUs : Z;
  hc_Privileged : bool;
  hc_ReadonlyRootfs : bool;
  hc_SecurityOpt : list string;
  hc_CapAdd : list string;
  hc_CapDrop : list string;
}.

Definition cc_set_User (c : Config) (u : string) : Config :=
  mkConfig (cc_Image c) (cc_Cmd c) (cc_Env c) (cc_WorkingDir c) u.

Definition hc_set_limits (h : HostConfig) (mem cpu : Z) : HostConfig :=
  mkHostConfig (hc_Mounts h) (hc_NetworkMode h) mem cpu (hc_Privileged h) (hc_ReadonlyRootfs h)
    (hc_SecurityOpt h) (hc_CapAdd h) (hc_CapDrop h).

Definition hc_set_security (h : HostConfig) (priv rofs : bool) (opts add drop : list string) : HostConfig :=
  mkHostConfig (hc_Mounts h) (hc_NetworkMode h) (hc_Memory h) (hc_NanoCPUs h) priv rofs opts add drop.

Definition zero_Config : Config := mkConfig "" [] [] "" "".
Definition zero_HostConfig : HostConfig := mkHostConfig [] "" 0 0 false false [] [] [].

(** ** security.go *)

(** The fields of corev1's SecurityContext that are read.  The first two are whether
    the field is set; profiles are their type. *)
Record SecurityFields := mkSecurityFields {
  sf_SELinuxOptions : bool;
  sf_WindowsOptions : bool;
  sf_ProcMount : option string;
  sf_AppArmorProfile : option string;
  sf_SeccompProfile : option string;
  sf_RunAsUser : option Z;
  sf_RunAsGroup : option Z;
  sf_RunAsNonRoot : option bool;
  sf_Privileged : option bool;
  sf_ReadOnlyRootFilesystem : option bool;
  sf_AllowPrivilegeEscalation : option bool;
  sf_Capabilities : option (list string * list string);   (* add, drop *)
}.

Class SecurityView `{K : CoreV1} := { security_fields : SecurityContext -> SecurityFields }.

Definition is_true (o : option bool) : bool := match o with Some b => b | None => false end.

(** What docker has no equivalent of, and the seccomp option. *)
Definition unsupported_fields (f : SecurityFields) : list string :=
  (if sf_SELinuxOptions f then ["seLinuxOptions"] else [])
  ++ (if sf_WindowsOptions f then ["windowsOptions"] else [])
  ++ (match sf_ProcMount f with Some p => if String.eqb p "Default" then [] else ["procMount"] | None => [] end)
  ++ (match sf_AppArmorProfile f with Some t => if String.eqb t "RuntimeDefault" then [] else ["appArmorProfile"] | None => [] end)
  ++ (match sf_SeccompProfile f with
      | Some t => if String.eqb t "RuntimeDefault" || String.eqb t "Unconfined" then [] else ["seccompProfile.type=" +:+ t]
      | None => []
      end).

Definition user_of (f : SecurityFields) (cfg : Config) : result string :=
  match sf_RunAsUser f with
  | Some u => Ok (itoa u +:+ match sf_RunAsGroup f with Some g => ":" +:+ itoa g | None => "" end)
  | None =>
    match sf_RunAsGroup f with
    | Some _ => Err (lit "securityContext.runAsGroup without runAsUser is not supported on the docker backend")
    | None => Ok (cc_User cfg)
    end
  end.

Section Security.
Context {K : CoreV1} {SV : SecurityView}.

Definition applySecurityContext (sc : option SecurityContext) (cfg : Config) (hc : HostConfig) : result (Config * HostConfig) :=
  match sc with
  | None => Ok (cfg, hc)
  | Some sc =>
    let f := security_fields sc in
    let seccomp := match sf_SeccompProfile f with
                   | Some t => if String.eqb t "Unconfined" then ["seccomp=unconfined"] else []
                   | None => []
                   end in
    match unsupported_fields f with
    | [] =>
      user ← user_of f cfg;
      if is_true (sf_RunAsNonRoot f) && bool_decide (sf_RunAsUser f = Some 0%Z) then
        Err (lit "securityContext: runAsNonRoot is true but runAsUser is 0")
      else
        let opts := hc_SecurityOpt hc ++ seccomp
          ++ (if bool_decide (sf_AllowPrivilegeEscalation f = Some false) then ["no-new-privileges"] else []) in
        let '(add, drop) := default ([], []) (sf_Capabilities f) in
        Ok (cc_set_User cfg user,
            hc_set_security hc (hc_Privileged hc || is_true (sf_Privileged f))
              (hc_ReadonlyRootfs hc || is_true (sf_ReadOnlyRootFilesystem f)) opts
              (hc_CapAdd hc ++ add) (hc_CapDrop hc ++ drop))
    | l => Err (Fmt "securityContext %s not supported on the docker backend (use --cluster)" [TStr (join ", " l)])
    end
  end.

Definition needsImageUserCheck (sc : option SecurityContext) : bool :=
  match sc with
  | Some sc => is_true (sf_RunAsNonRoot (security_fields sc)) && bool_decide (sf_RunAsUser (security_fields sc) = None)
  | None => false
  end.

Definition checkRunAsNonRoot (image imageUser : string) : result unit :=
  let u := match cut ":" imageUser with Some (a, _) => a | None => imageUser end in
  let root := Err (Fmt "securityContext.runAsNonRoot: image %q will run as root" [TStr image]) in
  if String.eqb u "" || String.eqb u "root" then root
  else match atoi u with
       | None => Err (Fmt "securityContext.runAsNonRoot: image %q has non-numeric user %q, cannot verify it is non-root (set runAsUser)"
                        [TStr image; TStr imageUser])
       | Some uid => if (uid =? 0)%Z then root else Ok tt
       end.

Definition parseStepTimeout (s : string) : result Z :=
  d ← wrap_err "invalid timeout %q: %w" [TStr s] (ParseDuration s);
  if (d <? 0)%Z then Err (Fmt "invalid timeout %q: must not be negative" [TStr s]) else Ok d.

Definition stepTimeoutExitCode : Z := 1.

(** [checkDockerSupport] with the two functions it calls. *)
Definition security_error (sc : option SecurityContext) : option text :=
  match applySecurityContext sc zero_Config zero_HostConfig with Ok _ => None | Err e => Some e end.

Definition docker_support (spec : TaskSpec) : option text :=
  checkDockerSupport security_error parseStepTimeout spec.
End Security.

(** ** The calls *)

(** An entry of a tar stream. *)
Inductive tar_kind := TypeDir | TypeReg | TypeSymlink | TypeOther.

Record TarEntry := mkTarEntry {
  te_Name : string;
  te_Mode : Z;
  te_Kind : tar_kind;
  te_Linkname : string;
  te_Body : string;
}.

(** A file [filepath.Walk] visits below its root, by its relative path. *)
Record WalkFile := mkWalkFile {
  wf_Rel : string;
  wf_Mode : Z;
  wf_Kind : tar_kind;
  wf_Link : string;
  wf_Body : string;
}.

Inductive stat_result := StatDir | StatFile | StatNotExist | StatErr (e : text).

(** State of an inspected container: running, exit code. *)
Record ContainerState := mkContainerState { cs_Running : bool; cs_ExitCode : Z }.

(** What the [select] at the end of a Step sees first. *)
Inductive wait_result :=
  | WaitErr (e : option text)
  | WaitStatus (code : Z)
  | WaitTimeout
  | WaitCancelled (e : text).

(** The daemon (first block), the file system, the log sink and the clock, each
    call with the type of its answer. *)
Inductive DockerE : Type -> Type :=
  | ImageInspect (img : string) : DockerE (result (option string))
  | RegistryAuth (img : string) : DockerE (result string)
  | ImagePull (img auth : string) : DockerE (result unit)
  | ContainerCreate (cfg : Config) (hc : HostConfig) (name : string) : DockerE (result string)
  | ContainerStart (id : string) : DockerE (result unit)
  | ContainerInspect (id : string) : DockerE (result (option ContainerState))
  | ContainerLogs (id : string) : DockerE (result unit)
  | ContainerWait (id : string) (timeout : option Z) : DockerE wait_result
  | ContainerStop (id : string) (grace : option Z) : DockerE (result unit)
  | ContainerRemove (id : string) : DockerE (result unit)
  | VolumeCreate (name runID : string) : DockerE (result unit)
  | VolumeRemove (name : string) : DockerE (result unit)
  | CopyToContainer (id dst : string) (content : list TarEntry) : DockerE (result unit)
  | CopyFromContainer (id src : string) : DockerE (result (list TarEntry * option text))
  | MkdirTemp (prefix : string) : DockerE (result string)
  | MkdirAll (dir : string) (mode : Z) : DockerE (result unit)
  | Chmod (dir : string) (mode : Z) : DockerE (result unit)
  | WriteFile (path body : string) : DockerE (result unit)
  | ReadFile (path : string) : DockerE (result string)
  | ReadDir (dir : string) : DockerE (result (list (string * bool)))
  | Stat (path : string) : DockerE stat_result
  | Walk (dir : string) : DockerE (result (list WalkFile))
  | RemoveAll (dir : string) : DockerE (result unit)
  | OpenRoot (dir : string) : DockerE (result unit)
  | RootMkdirAll (root rel : string) (mode : Z) : DockerE (result unit)
  | RootOpen (root rel : string) (mode : Z) : DockerE (result unit)
  | RootWrite (root rel body : string) : DockerE (result unit)
  | RootRemove (root rel : string) : DockerE unit
  | RootSymlink (root target rel : string) : DockerE (result unit)
  | WaitLogs (id : string) : DockerE bool
  | EmitSidecarStart (task name : string) : DockerE unit
  | EmitSidecarEnd (task name : string) (exit : Z) (status : string) (msg : text) : DockerE unit
  | StepLog (task step display stream : string) (line : text) : DockerE unit
  | GraceOver (d : Z) : DockerE (option text).

Abbreviation docker := (prog DockerE).

(** [Backend]: its options and the staging state of the run. *)
Record Backend := mkBackend {
  be_PullPolicyOverride : string;
  be_SidecarStartGrace : Z;
  be_SidecarStopGrace : Z;
  be_scriptDir : string;
  be_remote : bool;
  be_pauseImg : string;
  be_runID : string;
  be_volName : string;
  be_volumeCreated : bool;
  be_stagerID : string;
  be_userWorkspaces : gmap string string;
  be_workspaceByHostPath : gmap string string;
}.

(** ** docker.go: [New] *)
Definition defaultPauseImage : string := "registry.k8s.io/pause:3.9".

Definition resolvePauseImage (opt : string) : string := if String.eqb opt "" then defaultPauseImage else opt.

Definition shortID (id : string) : string := if String.length id <=? 12 then id else substring 0 12 id.

Definition resolveDockerHost (env opt : string) : string := if is_set opt then opt else env.

(** [info] is the daemon's answer ([None]: no client to ask), [hostname] the local
    host's name. *)
Definition decideRemote (mode dockerHost : string) (info : option (result string)) (hostname : result string) : result bool :=
  if String.eqb mode "on" then Ok true
  else if String.eqb mode "off" then Ok false
  else if negb (String.eqb mode "" || String.eqb mode "auto") then
    Err (Fmt "docker backend: invalid Remote=%q (want auto|on|off)" [TStr mode])
  else if String.eqb dockerHost "" || has_prefix dockerHost "unix://" then Ok false
  else match info with
       | None => Ok true
       | Some (Err e) => Err (Fmt "docker backend: auto-detect remote daemon: %w (set --remote-docker=on|off to skip detection)" [TErr e])
       | Some (Ok name) =>
         match hostname with
         | Err _ => Ok true
         | Ok local => if String.eqb local "" || String.eqb name "" then Ok true else Ok (negb (String.eqb name local))
         end
       end.

(** ** docker.go: [ensureImage] *)
Definition ensureImage (img policy : string) : docker (result unit) :=
  let policy := if String.eqb policy "" then "IfNotPresent" else policy in
  if String.eqb policy "Never" then Ret (Ok tt)
  else
    let pull :=
      do! auth ← call (RegistryAuth img);
      wrapP "pull %s: %w" [TStr img] (call (ImagePull img auth)) in
    if String.eqb policy "IfNotPresent" then
      r ← call (ImageInspect img);
      match r with Ok _ => Ret (Ok tt) | Err _ => pull end
    else pull.

Section Container.
Context {K : CoreV1} {SV : SecurityView} `{MapRange} `{FloatScan}.

Definition checkImageNonRoot (image : string) : docker (result unit) :=
  do! user ← wrapP "inspect %s for runAsNonRoot: %w" [TStr image] (call (ImageInspect image));
  Ret (checkRunAsNonRoot image (default "" user)).

(** ** docker.go: [substituteStepRefs] *)
Definition step_context (name : string) (stepResults : gmap string (gmap string string)) : Context :=
  mkContext ∅ ∅ ∅ ∅ ∅ (Some stepResults) name None "" None ∅.

Definition subst_args_if (args : list string) (ctx : Context) : result (list string) :=
  match args with [] => Ok [] | _ => SubstituteArgs args ctx end.

Definition substituteStepRefs (st : Step) (stepResults : gmap string (gmap string string)) : result Step :=
  let ctx := step_context (st_Name st) stepResults in
  image ← Substitute (st_Image st) ctx;
  script ← Substitute (st_Script st) ctx;
  dir ← Substitute (st_WorkingDir st) ctx;
  command ← subst_args_if (st_Command st) ctx;
  args ← subst_args_if (st_Args st) ctx;
  env ← collect (fun e => v ← Substitute (ev_Value e) ctx; Ok (mkEnvVar (ev_Name e) v (ev_ValueFrom e))) (st_Env st);
  Ok (mkStep (st_Name st) (st_DisplayName st) (st_Description st) (st_Ref st) (st_Params st) image command args
        script env dir (st_Resources st) (st_ImagePullPolicy st) (st_SecurityContext st) (st_EnvFrom st)
        (st_Timeout st) (st_OnError st) (st_Results st) (st_VolumeMounts st)).

(** ** staging.go: names and the volume layout *)
Definition stageScripts : string := "scripts".
Definition stageWorkspaces : string := "workspaces".
Definition stageResults : string := "results".
Definition stageVolumes : string := "volumes".
Definition stagerMountPoint : string := "/staged".
Definition ambiguousMarker : string := "__ambiguous__".

Definition stepScriptBase (taskRun stepName : string) : string := taskRun +:+ "-" +:+ stepName.
Definition sidecarScriptBase (taskRun sidecarName : string) : string := taskRun +:+ "-sidecar-" +:+ sidecarName.

Definition remoteVolumeMount (b : Backend) (target subpath : string) (readOnly : bool) : Mount :=
  mkMount "volume" (be_volName b) target readOnly (Some subpath).

Definition bindMount (src target : string) (readOnly : bool) : Mount := mkMount "bind" src target readOnly None.

Definition pipelineWorkspaceName (b : Backend) (hostPath : string) : option string :=
  name ← be_workspaceByHostPath b !! hostPath;
  if has_prefix name ambiguousMarker then None else Some name.

Fixpoint prefixes {A} (l : list A) : list (list A) :=
  match l with [] => [] | x :: l' => [x] :: map (cons x) (prefixes l') end.

(** One directory entry per ancestor, outermost first. *)
Definition dirChainTar (rel : string) : list TarEntry :=
  map (fun segs => mkTarEntry (join "/" segs +:+ "/") 511 TypeDir "" "") (prefixes (split_slash rel)).

Fixpoint trim_left_slashes (s : string) : string :=
  match s with String a s' => if Ascii.eqb a slash then trim_left_slashes s' else s | "" => "" end.

(** [strings.Trim(s, "/")]. *)
Definition trim_both_slashes (s : string) : string :=
  let l := trim_left_slashes s in trim_slashes (String.length l) l.

Definition ensureStagerDir (b : Backend) (dirPath : string) : docker (result unit) :=
  let rel := trim_both_slashes (trim_prefix (trim_prefix dirPath stagerMountPoint) "/") in
  if String.eqb rel "" then Ret (Ok tt)
  else call (CopyToContainer (be_stagerID b) stagerMountPoint (dirChainTar rel)).

Definition staged (sub : string) : string := stagerMountPoint +:+ "/" +:+ trim_prefix sub "/".

Definition mkdirInVolume (b : Backend) (subpath : string) : docker (result unit) := ensureStagerDir b (staged subpath).

Definition mkdirWorldWritable (dir : string) : docker (result unit) :=
  do! _ ← call (MkdirAll dir 493); call (Chmod dir 511).

(** [pushFile] with mode 0755. *)
Definition pushScript (b : Backend) (base body : string) : docker (result unit) :=
  let dest := staged stageScripts in
  do! _ ← ensureStagerDir b dest;
  call (CopyToContainer (be_stagerID b) dest [mkTarEntry (base +:+ ".sh") 493 TypeReg "" body]).

(** ** workspaces.go: [workspaceMounts] *)
Definition declared_workspaces (spec : TaskSpec) : gmap string WorkspaceDecl :=
  foldl (fun (m : gmap string WorkspaceDecl) d => <[wd_Name d := d]> m) ∅ (ts_Workspaces spec).

Definition subPath_of (owner : text) (tName sub : string) : result string :=
  if is_set sub then
    let c := Clean sub in
    if IsLocal c then Ok c
    else Err (Fmt "%s workspace %q: subPath %q must be a relative path inside the workspace" [TErr owner; TStr tName; TStr sub])
  else Ok "".

Definition workspace_mount (b : Backend) (inv : TaskInvocation) (owner : text) (tName : string) (wm : WorkspaceMount)
    : docker (result Mount) :=
  let decl := default (mkWorkspaceDecl tName "" "" false false) (declared_workspaces (inv_Task inv) !! tName) in
  let target := EffectiveMountPath decl in
  let readOnly := wm_ReadOnly wm || wd_ReadOnly decl in
  do! sub ← Ret (subPath_of owner tName (wm_SubPath wm));
  let create := wrapP "%s workspace %q: create subPath %q: %w" [TErr owner; TStr tName; TStr (wm_SubPath wm)] in
  if be_remote b then
    match pipelineWorkspaceName b (wm_HostPath wm) with
    | None => Ret (Err (Fmt "%s workspace %q: cannot map host path %q to a Pipeline workspace name"
                          [TErr owner; TStr tName; TStr (wm_HostPath wm)]))
    | Some pipelineName =>
      let volSub := Join [stageWorkspaces; pipelineName; sub] in
      do! _ ← (if is_set sub then create (mkdirInVolume b volSub) else Ret (Ok tt));
      Ret (Ok (remoteVolumeMount b target volSub readOnly))
    end
  else if is_set sub then
    let src := Join [wm_HostPath wm; sub] in
    st ← call (Stat src);
    do! _ ← match st with StatNotExist => create (mkdirWorldWritable src) | _ => Ret (Ok tt) end;
    Ret (Ok (bindMount src target readOnly))
  else Ret (Ok (bindMount (wm_HostPath wm) target readOnly)).

Definition workspaceMounts (b : Backend) (inv : TaskInvocation) (owner : text) : docker (result (list Mount)) :=
  foldT (fun out tName =>
    match inv_Workspaces inv !! tName with
    | Some wm => do! m ← workspace_mount b inv owner tName wm; Ret (Ok (out ++ [m]))
    | None => Ret (Ok out)
    end) [] (sort_strings (map_range (inv_Workspaces inv)).*1).

(** ** The parts [runStep] and [startOneSidecar] share *)

(** The script's body; the mount that shows it in the container. *)
Definition script_body (script : string) : string :=
  if has_prefix script "#!" then script
  else "#!/bin/sh" +:+ String "010" ("set -e" +:+ String "010" script).

Definition scriptPath : string := "/tekton/scripts/script.sh".

Definition script_mounts (b : Backend) (base script : string) : docker (result (list Mount)) :=
  if is_set script then
    if be_remote b then
      do! _ ← pushScript b base (script_body script);
      Ret (Ok [remoteVolumeMount b scriptPath (Join [stageScripts; base +:+ ".sh"]) true])
    else
      let host := Join [be_scriptDir b; base +:+ ".sh"] in
      do! _ ← call (WriteFile host (script_body script));
      Ret (Ok [bindMount host scriptPath true])
  else Ret (Ok []).

Definition volume_mount (b : Backend) (inv : TaskInvocation) (err : string -> text) (vm : VolumeMount) : result Mount :=
  match inv_VolumeHosts inv !! vm_Name vm with
  | None => Err (err (vm_Name vm))
  | Some hostPath =>
    let below p := if is_set (vm_SubPath vm) then Join [p; vm_SubPath vm] else p in
    if be_remote b then
      Ok (remoteVolumeMount b (vm_MountPath vm) (below (Join [stageVolumes; inv_TaskRunName inv; vm_Name vm])) (vm_ReadOnly vm))
    else Ok (bindMount (below hostPath) (vm_MountPath vm) (vm_ReadOnly vm))
  end.

(** A limit that does not parse is left out. *)
Definition limit_of (parse : string -> result Z) (s : string) : Z :=
  if is_set s then match parse s with Ok v => v | Err _ => 0%Z end else 0%Z.

Definition set_limits (r : option StepResources) (hc : HostConfig) : HostConfig :=
  match r with
  | None => hc
  | Some r => hc_set_limits hc (limit_of parseMemory (rl_Memory (res_Limits r))) (limit_of parseCPU (rl_CPU (res_Limits r)))
  end.

Definition env_list (l : list EnvVar) : list string := map (fun e => ev_Name e +:+ "=" +:+ ev_Value e) l.

Definition mounts_config (ms : list Mount) (network : string) : HostConfig :=
  mkHostConfig ms network 0 0 false false [] [] [].
End Container.

(** Quantities the Kubernetes API accepts and the scan cuts short: a fraction, a suffix
    it does not know. *)
Example parseMemory_cut :
  parseMemory "1.5Gi" = Ok (2 ^ 30)%Z /\ parseMemory "1Ti" = Ok 1%Z /\ parseMemory "128k" = Ok 128%Z.
Proof. vm_compute. done. Qed.

(** The engine's pass turns [$$] into [$]; the pass of the backend then reads the
    reference the escape was for, and fails. *)
Example escape_read_twice :
  let ctx := mkContext {["x" := "v"]} ∅ ∅ ∅ ∅ None "" None "" None ∅ in
  SubstituteDeferStepRefs "echo $$(params.x)" ctx = Ok "echo $(params.x)" /\
  is_ok (Substitute "echo $(params.x)" (step_context "s" ∅)) = false.
Proof. vm_compute. done. Qed.
