(* ===== verification/DockerTask.v ===== *)
(** * internal/backend/docker: [runStep], sidecars.go, [RunTask]

    One Task on the docker backend, as a program of calls: the pause container and
    the sidecars around it, the Steps one container each, and the results. *)

From S2P Require Import Prelude GoStrings GoTime Paths TektonTypes Run Resolver Steps Effects Docker.

Definition step_failed : string := "failed".
Definition step_succeeded : string := "succeeded".

Record StepResult := mkStepResult {
  sr_Name : string;
  sr_Status : string;
  sr_ExitCode : Z;
}.

(** [backend.TaskResult] with its steps; its clock readings are left out. *)
Record DockerResult := mkDockerResult {
  dr_Status : string;
  dr_Steps : list StepResult;
  dr_Results : gmap string string;
  dr_Err : option text;
}.

Definition to_TaskResult (r : DockerResult) : TaskResult :=
  mkTaskResult (dr_Status r) (Some (dr_Results r)) (dr_Err r).

Record runningSidecar := mkrunningSidecar {
  rs_name : string;
  rs_containerID : string;
  rs_terminated : bool;
  rs_logs : bool;        (* logsDone is not nil *)
}.

Definition terminate (rs : runningSidecar) : runningSidecar :=
  mkrunningSidecar (rs_name rs) (rs_containerID rs) true (rs_logs rs).

(** A duration in the whole seconds the API takes, rounded up. *)
Definition graceSeconds (d : Z) : Z := if (d <=? 0)%Z then 0%Z else Z.quot (wrap64 (d + Second - 1)) Second.

Definition pauseStopGrace : Z := Second.

Section Task.
Context {K : CoreV1} {SV : SecurityView} `{MapRange} `{FloatScan}.
Variable b : Backend.
Variable inv : TaskInvocation.

Definition sidecarContainerName (name : string) : string :=
  "tkn-act-" +:+ inv_RunID inv +:+ "-" +:+ inv_TaskRunName inv +:+ "-sidecar-" +:+ name.
Definition pauseContainerName : string := "tkn-act-" +:+ inv_RunID inv +:+ "-" +:+ inv_TaskRunName inv +:+ "-pause".
Definition stepContainerName (name : string) : string :=
  "tkn-act-" +:+ inv_RunID inv +:+ "-" +:+ inv_TaskRunName inv +:+ "-" +:+ name.

(** ** docker.go: [runStep] *)
Definition results_mount : Mount :=
  if be_remote b then remoteVolumeMount b "/tekton/results" (Join [stageResults; inv_TaskRunName inv]) false
  else bindMount (inv_ResultsHost inv) "/tekton/results" false.

(** This Step's results directory, and those of the earlier ones read-only. *)
Definition step_results_mount (stepName ent : string) : Mount :=
  let target := "/tekton/steps/" +:+ ent +:+ "/results" in
  let ro := negb (String.eqb ent stepName) in
  if be_remote b then remoteVolumeMount b target (Join [stageResults; inv_TaskRunName inv; "steps"; ent]) ro
  else bindMount (Join [Join [inv_ResultsHost inv; "steps"]; ent]) target ro.

Definition step_results_mounts (stepName : string) (entries : result (list (string * bool))) : list Mount :=
  match entries with
  | Ok l => map (step_results_mount stepName) (List.filter snd l).*1
  | Err _ => []
  end.

Definition step_timeout (st : Step) : result (option Z) :=
  if is_set (st_Timeout st) then
    d ← wrap_err "step %q: %w" [TStr (st_Name st)] (parseStepTimeout (st_Timeout st));
    Ok (if (0 <? d)%Z then Some d else None)
  else Ok None.

(** The container's command: a script replaces the command and its args. *)
Definition command_of (script : string) (command args : list string) : list string :=
  if is_set script then [scriptPath] else command ++ args.

(** From the [ContainerWait] on. *)
Definition await_step (st : Step) (id : string) (timeout : option Z) : docker (result Z) :=
  w ← call (ContainerWait id timeout);
  match w with
  | WaitErr (Some e) => Ret (Err e)
  | WaitErr None => Ret (Ok 0%Z)
  | WaitStatus code => Ret (Ok code)
  | WaitTimeout =>
    _ ← call (ContainerStop id (Some 1%Z));
    _ ← call (StepLog (inv_TaskName inv) (st_Name st) (st_DisplayName st) "stderr"
                (Fmt "tkn-act: step %q exceeded its timeout of %s" [TStr (st_Name st); TStr (st_Timeout st)]));
    Ret (Ok stepTimeoutExitCode)
  | WaitCancelled e => _ ← call (ContainerStop id None); Ret (Err e)
  end.

(** The container's life: removed however the Step ends, after its log stream. *)
Definition run_container (st : Step) (cfg : Config) (hc : HostConfig) (timeout : option Z) : docker (result Z) :=
  let name := stepContainerName (st_Name st) in
  do! id ← wrapP "create %s: %w" [TStr name] (call (ContainerCreate cfg hc name));
  defer_ (_ ← call (ContainerRemove id); Ret tt)
    (do! _ ← wrapP "start %s: %w" [TStr name] (call (ContainerStart id));
     do! _ ← wrapP "logs %s: %w" [TStr name] (call (ContainerLogs id));
     defer_ (_ ← call (WaitLogs id); Ret tt) (await_step st id timeout)).

Definition step_mounts (st : Step) : docker (result (list Mount)) :=
  do! script ← script_mounts b (stepScriptBase (inv_TaskRunName inv) (st_Name st)) (st_Script st);
  do! ws ← workspaceMounts b inv (Fmt "step %q" [TStr (st_Name st)]);
  entries ← call (ReadDir (Join [inv_ResultsHost inv; "steps"]));
  Ret (vols ← collect (volume_mount b inv (fun v => Fmt "step %q volumeMount %q: no host path for volume" [TStr (st_Name st); TStr v]))
                (st_VolumeMounts st);
       Ok (script ++ ws ++ [results_mount] ++ step_results_mounts (st_Name st) entries ++ vols)).

Definition runStep (st : Step) (pauseID : string) : docker (result Z) :=
  do! ms ← step_mounts st;
  let hc := set_limits (st_Resources st)
              (mounts_config ms (if is_set pauseID then "container:" +:+ pauseID else "")) in
  let cfg := mkConfig (st_Image st) (command_of (st_Script st) (st_Command st) (st_Args st))
               (env_list (st_Env st)) (st_WorkingDir st) "" in
  do! ch ← wrapP "step %q: %w" [TStr (st_Name st)] (Ret (applySecurityContext (st_SecurityContext st) cfg hc));
  do! _ ← (if needsImageUserCheck (st_SecurityContext st) then
             wrapP "step %q: %w" [TStr (st_Name st)] (checkImageNonRoot (st_Image st))
           else Ret (Ok tt));
  do! timeout ← Ret (step_timeout st);
  run_container st ch.1 ch.2 timeout.

(** ** sidecars.go *)
Definition emit_end (name : string) (exit : Z) (status : string) (msg : text) : docker unit :=
  call (EmitSidecarEnd (inv_TaskName inv) name exit status msg).

(** A container that does not start is removed. *)
Definition create_started (what : string) (cfg : Config) (hc : HostConfig) (name : string) : docker (result string) :=
  do! id ← wrapP ("create " +:+ what +:+ "%s: %w") [TStr name] (call (ContainerCreate cfg hc name));
  r ← wrapP ("start " +:+ what +:+ "%s: %w") [TStr name] (call (ContainerStart id));
  match r with
  | Ok _ => Ret (Ok id)
  | Err e => _ ← call (ContainerRemove id); Ret (Err e)
  end.

Definition startPause : docker (result string) :=
  do! _ ← wrapP "pull pause image: %w" [] (ensureImage (be_pauseImg b) "IfNotPresent");
  create_started "pause " (mkConfig (be_pauseImg b) [] [] "" "") zero_HostConfig pauseContainerName.

Definition stopPause (pauseID : string) : docker unit :=
  if is_set pauseID then
    _ ← call (ContainerStop pauseID (Some (graceSeconds pauseStopGrace)));
    _ ← call (ContainerRemove pauseID);
    Ret tt
  else Ret tt.

Definition pull_policy (policy : string) : string :=
  if is_set (be_PullPolicyOverride b) then be_PullPolicyOverride b else policy.

Definition startOneSidecar (sc : Sidecar) (pauseID : string) : docker (result (string * bool)) :=
  do! _ ← wrapP "pull %s: %w" [TStr (sc_Image sc)] (ensureImage (sc_Image sc) (pull_policy (sc_ImagePullPolicy sc)));
  do! script ← script_mounts b (sidecarScriptBase (inv_TaskRunName inv) (sc_Name sc)) (sc_Script sc);
  do! ws ← workspaceMounts b inv (Fmt "sidecar %q" [TStr (sc_Name sc)]);
  do! vols ← Ret (collect (volume_mount b inv (fun v => Fmt "volumeMount %q: no host path for volume" [TStr v]))
                    (sc_VolumeMounts sc));
  let hc := set_limits (sc_Resources sc) (mounts_config (script ++ ws ++ vols) ("container:" +:+ pauseID)) in
  let cfg := mkConfig (sc_Image sc) (command_of (sc_Script sc) (sc_Command sc) (sc_Args sc))
               (env_list (sc_Env sc)) (sc_WorkingDir sc) "" in
  do! ch ← Ret (applySecurityContext (sc_SecurityContext sc) cfg hc);
  do! _ ← (if needsImageUserCheck (sc_SecurityContext sc) then checkImageNonRoot (sc_Image sc) else Ret (Ok tt));
  do! id ← create_started "" ch.1 ch.2 (sidecarContainerName (sc_Name sc));
  logs ← call (ContainerLogs id);
  Ret (Ok (id, is_ok logs)).

(** The sidecars started so far, and the error that stopped the loop. *)
Fixpoint start_each (pauseID : string) (out : list runningSidecar) (l : list Sidecar)
    : docker (list runningSidecar * option text) :=
  match l with
  | [] => Ret (out, None)
  | sc :: l' =>
    r ← startOneSidecar sc pauseID;
    match r with
    | Err e =>
      _ ← emit_end (sc_Name sc) 0 "infrafailed" (Fmt "failed to start: %v" [TErr e]);
      Ret (out, Some (Fmt "sidecar %q: %w" [TStr (sc_Name sc); TErr e]))
    | Ok (id, logs) =>
      _ ← call (EmitSidecarStart (inv_TaskName inv) (sc_Name sc));
      start_each pauseID (out ++ [mkrunningSidecar (sc_Name sc) id false logs]) l'
    end
  end.

(** Every sidecar must still run after the start grace. *)
Fixpoint verify_each (l : list runningSidecar) : docker (list runningSidecar * option text) :=
  match l with
  | [] => Ret ([], None)
  | rs :: l' =>
    insp ← call (ContainerInspect (rs_containerID rs));
    match insp with
    | Err e =>
      _ ← emit_end (rs_name rs) 0 "infrafailed" (lit "failed to inspect");
      Ret (terminate rs :: l', Some (Fmt "inspect sidecar %q: %w" [TStr (rs_name rs); TErr e]))
    | Ok state =>
      if default false (cs_Running <$> state) then
        r ← verify_each l'; Ret (rs :: r.1, r.2)
      else
        let exit := default 0%Z (cs_ExitCode <$> state) in
        _ ← emit_end (rs_name rs) exit "infrafailed" (Fmt "exited before start grace (exit %d)" [TInt exit]);
        Ret (terminate rs :: l', Some (Fmt "sidecar %q failed to start (exit %d)" [TStr (rs_name rs); TInt exit]))
    end
  end.

Definition startSidecars (pauseID : string) : docker (list runningSidecar * option text) :=
  r ← start_each pauseID [] (ts_Sidecars (inv_Task inv));
  match r.2 with
  | Some e => Ret r
  | None =>
    cancelled ← (if (0 <? be_SidecarStartGrace b)%Z then call (GraceOver (be_SidecarStartGrace b)) else Ret None);
    match cancelled with
    | Some e => Ret (r.1, Some e)
    | None => verify_each r.1
    end
  end.

(** One sidecar of [checkSidecarLiveness]. *)
Definition check_one (rs : runningSidecar) : docker runningSidecar :=
  if rs_terminated rs then Ret rs
  else
    insp ← call (ContainerInspect (rs_containerID rs));
    match insp with
    | Err _ => _ ← emit_end (rs_name rs) (-1) "failed" (lit "container disappeared"); Ret (terminate rs)
    | Ok None => Ret rs
    | Ok (Some state) =>
      if cs_Running state then Ret rs
      else
        let exit := cs_ExitCode state in
        _ ← (if (exit =? 0)%Z then emit_end (rs_name rs) exit "succeeded" no_text
             else emit_end (rs_name rs) exit "failed" (lit "crashed mid-task"));
        Ret (terminate rs)
    end.

Fixpoint mapP {A B} (f : A -> docker B) (l : list A) : docker (list B) :=
  match l with
  | [] => Ret []
  | x :: l' => y ← f x; ys ← mapP f l'; Ret (y :: ys)
  end.

Definition checkSidecarLiveness (sidecars : list runningSidecar) (pauseID : string)
    : docker (bool * list runningSidecar) :=
  alive ← (if is_set pauseID then
             insp ← call (ContainerInspect pauseID);
             Ret match insp with Ok (Some s) => cs_Running s | _ => false end
           else Ret true);
  sidecars ← mapP check_one sidecars;
  Ret (alive, sidecars).

(** One sidecar of [stopSidecars]. *)
Definition stop_exit (rs : runningSidecar) (stopGrace : Z) : docker Z :=
  insp ← call (ContainerInspect (rs_containerID rs));
  match insp with
  | Ok (Some (mkContainerState false exit)) => Ret exit
  | _ =>
    _ ← call (ContainerStop (rs_containerID rs) (Some (graceSeconds stopGrace)));
    insp2 ← call (ContainerInspect (rs_containerID rs));
    Ret match insp2 with Ok (Some s) => cs_ExitCode s | _ => 0%Z end
  end.

Definition stop_one (stopGrace : Z) (rs : runningSidecar) : docker runningSidecar :=
  if is_set (rs_containerID rs) then
    exit ← stop_exit rs stopGrace;
    _ ← (if rs_logs rs then call (WaitLogs (rs_containerID rs)) else Ret true);
    _ ← call (ContainerRemove (rs_containerID rs));
    if rs_terminated rs then Ret rs
    else
      _ ← (if (exit =? 0)%Z then emit_end (rs_name rs) exit "succeeded" no_text
           else emit_end (rs_name rs) exit "failed" (lit "exited non-zero at teardown"));
      Ret (terminate rs)
  else Ret rs.

Definition stopSidecars (sidecars : list runningSidecar) : docker unit :=
  let stopGrace := if (be_SidecarStopGrace b <=? 0)%Z then (30 * Second)%Z else be_SidecarStopGrace b in
  _ ← mapP (stop_one stopGrace) sidecars; Ret tt.
End Task.
