(* ===== verification/DockerStaging.v ===== *)
(** * internal/backend/docker/staging.go, [Prepare] and [Cleanup]

    A remote daemon does not see the client's files: one volume per run, written and
    read through a stager container with tar streams. *)

From S2P Require Import Prelude GoStrings GoTime Paths TektonTypes Run Steps Effects Docker.

(** ** [pathContainedIn], [untarToDir] *)
Definition pathContainedIn (candidate cleanRoot : string) : bool :=
  let c := Clean candidate in String.eqb c cleanRoot || has_prefix c (cleanRoot +:+ sep).

(** An entry's name without the wrapper directory. *)
Definition strip_wrapper (stripPrefix name : string) : string :=
  let n :=
    if String.eqb name stripPrefix || String.eqb name (stripPrefix +:+ "/") then ""
    else match strip_prefix (stripPrefix +:+ "/") name with Some rest => rest | None => name end in
  trim_prefix n "/".

(** Where an entry goes, relative to the root; [None]: it is skipped. *)
Definition entry_rel (dstDir stripPrefix : string) (h : TarEntry) : option string :=
  let cleanRoot := Clean dstDir in
  let name := strip_wrapper stripPrefix (te_Name h) in
  if String.eqb name "" then None
  else
    let target := Join [dstDir; name] in
    if pathContainedIn target cleanRoot then
      match Rel cleanRoot (Clean target) with
      | Ok rel => if String.eqb rel "." then None else Some rel
      | Err _ => None
      end
    else None.

(** A symlink's target as the kernel resolves it, lexically. *)
Definition link_resolved (target linkname : string) : string :=
  if IsAbs linkname then linkname else Join [Dir target; linkname].

Definition link_ok (dstDir stripPrefix : string) (h : TarEntry) : bool :=
  pathContainedIn (link_resolved (Join [dstDir; strip_wrapper stripPrefix (te_Name h)]) (te_Linkname h)) (Clean dstDir).

Definition untar_entry (dstDir stripPrefix : string) (h : TarEntry) : docker (result unit) :=
  let cleanRoot := Clean dstDir in
  match entry_rel dstDir stripPrefix h with
  | None => Ret (Ok tt)
  | Some rel =>
    let extract := wrapP "extract %q: %w" [TStr (strip_wrapper stripPrefix (te_Name h))] in
    match te_Kind h with
    | TypeDir => extract (call (RootMkdirAll cleanRoot rel (Z.land (te_Mode h) 511)))
    | TypeReg =>
      do! _ ← extract (call (RootMkdirAll cleanRoot (Dir rel) 493));
      do! _ ← extract (call (RootOpen cleanRoot rel (Z.land (te_Mode h) 511)));
      call (RootWrite cleanRoot rel (te_Body h))
    | TypeSymlink =>
      if link_ok dstDir stripPrefix h then
        _ ← call (RootRemove cleanRoot rel);
        do! _ ← extract (call (RootMkdirAll cleanRoot (Dir rel) 493));
        extract (call (RootSymlink cleanRoot (te_Linkname h) rel))
      else Ret (Ok tt)
    | TypeOther => Ret (Ok tt)
    end
  end.

(** The stream's entries, then its end or a read error. *)
Definition untarToDir (stream : list TarEntry * option text) (dstDir stripPrefix : string) : docker (result unit) :=
  do! _ ← call (OpenRoot (Clean dstDir));
  do! _ ← foldT (fun _ h => untar_entry dstDir stripPrefix h) tt stream.1;
  Ret match stream.2 with Some e => Err e | None => Ok tt end.

(** ** [tarHostDir] *)
Definition walk_entry (f : WalkFile) : TarEntry :=
  match wf_Kind f with
  | TypeDir => mkTarEntry (wf_Rel f +:+ "/") (wf_Mode f) TypeDir "" ""
  | TypeReg => mkTarEntry (wf_Rel f) (wf_Mode f) TypeReg "" (wf_Body f)
  | k => mkTarEntry (wf_Rel f) (wf_Mode f) k (wf_Link f) ""
  end.

Definition tarHostDir (hostDir : string) : docker (result (list TarEntry)) :=
  st ← call (Stat hostDir);
  match st with
  | StatNotExist => Ret (Ok [mkTarEntry "./" 511 TypeDir "" ""])
  | StatErr e => Ret (Err e)
  | StatFile => Ret (Err (Fmt "tarHostDir: %q is not a directory" [TStr hostDir]))
  | StatDir => do! files ← call (Walk hostDir); Ret (Ok (map walk_entry files))
  end.

Definition runVolumeName (runID : string) : string := "tkn-act-" +:+ runID.
Definition stagerContainerName (runID : string) : string := "tkn-act-" +:+ runID +:+ "-stager".

Section Staging.
Context `{MapRange}.

(** ** Pushing and pulling *)
Definition pushHostDir (b : Backend) (hostDir destSubpath : string) : docker (result unit) :=
  do! content ← tarHostDir hostDir;
  do! _ ← ensureStagerDir b (staged destSubpath);
  call (CopyToContainer (be_stagerID b) (staged destSubpath) content).

Definition pullHostDir (b : Backend) (srcSubpath hostDir : string) : docker (result unit) :=
  let src := staged srcSubpath in
  do! stream ← wrapP "copy from stager %q: %w" [TStr src] (call (CopyFromContainer (be_stagerID b) src));
  do! _ ← call (MkdirAll hostDir 493);
  untarToDir stream hostDir (Base src).

Definition pushTaskVolumeHosts (b : Backend) (taskRun : string) (volumeHosts : gmap string string) : docker (result unit) :=
  foldT (fun _ nh =>
    wrapP "seed task volume %q from %q: %w" [TStr nh.1; TStr nh.2]
      (pushHostDir b nh.2 (Join [stageVolumes; taskRun; nh.1]))) tt (map_range volumeHosts).

Definition pullStepResults (b : Backend) (taskRun stepName hostStepDir : string) : docker (result unit) :=
  pullHostDir b (Join [stageResults; taskRun; "steps"; stepName]) hostStepDir.

Definition pullTaskResults (b : Backend) (taskRun hostResultsDir : string) : docker (result unit) :=
  pullHostDir b (Join [stageResults; taskRun]) hostResultsDir.

(** ** [buildHostPathIndex] *)
Definition index_step (acc : gmap string string * gmap string (list string)) (nh : string * string)
    : gmap string string * gmap string (list string) :=
  let '(out, collisions) := acc in
  let '(name, hostPath) := nh in
  match out !! hostPath with
  | Some existing => (out, <[hostPath := default [] (collisions !! hostPath) ++ [existing; name]]> collisions)
  | None => (<[hostPath := name]> out, collisions)
  end.

Definition buildHostPathIndex (workspaces : gmap string string) : gmap string string :=
  let '(out, collisions) := foldl index_step (∅, ∅) (map_range workspaces) in
  foldl (fun (m : gmap string string) hn => <[hn.1 := ambiguousMarker +:+ ":" +:+ join "," hn.2]> m)
    out (map_range collisions).

(** ** The backend's staging fields *)
Definition be_begin (b : Backend) (runID : string) (ws : gmap string string) : Backend :=
  mkBackend (be_PullPolicyOverride b) (be_SidecarStartGrace b) (be_SidecarStopGrace b) (be_scriptDir b) (be_remote b)
    (be_pauseImg b) runID (runVolumeName runID) (be_volumeCreated b) (be_stagerID b) ws (buildHostPathIndex ws).

Definition be_set_staging (b : Backend) (vol : string) (created : bool) (stager : string) : Backend :=
  mkBackend (be_PullPolicyOverride b) (be_SidecarStartGrace b) (be_SidecarStopGrace b) (be_scriptDir b) (be_remote b)
    (be_pauseImg b) (be_runID b) vol created stager (be_userWorkspaces b) (be_workspaceByHostPath b).

Definition be_clear_workspaces (b : Backend) : Backend :=
  mkBackend (be_PullPolicyOverride b) (be_SidecarStartGrace b) (be_SidecarStopGrace b) (be_scriptDir b) (be_remote b)
    (be_pauseImg b) (be_runID b) (be_volName b) (be_volumeCreated b) (be_stagerID b) ∅ ∅.

Definition be_set_scriptDir (b : Backend) (d : string) : Backend :=
  mkBackend (be_PullPolicyOverride b) (be_SidecarStartGrace b) (be_SidecarStopGrace b) d (be_remote b)
    (be_pauseImg b) (be_runID b) (be_volName b) (be_volumeCreated b) (be_stagerID b) (be_userWorkspaces b)
    (be_workspaceByHostPath b).

(** ** [stopRemoteStaging] *)

(** [captureErr]. *)
Definition capture {A} (first : option text) (r : result A) : option text :=
  match first, r with None, Err e => Some e | _, _ => first end.

Definition stop_stager (b : Backend) : docker (option text) :=
  first ← foldP (fun first nh => r ← pullHostDir b (Join [stageWorkspaces; nh.1]) nh.2; Ret (capture first r))
            None (map_range (be_userWorkspaces b));
  r ← wrapP "stop stager: %w" [] (call (ContainerStop (be_stagerID b) (Some 1%Z)));
  r' ← wrapP "remove stager: %w" [] (call (ContainerRemove (be_stagerID b)));
  Ret (capture (capture first r) r').

Definition stopRemoteStaging (b : Backend) : docker (option text * Backend) :=
  first ← (if is_set (be_stagerID b) then stop_stager b else Ret None);
  let b := be_set_staging b (be_volName b) (be_volumeCreated b) "" in
  fb ← (if be_volumeCreated b && is_set (be_volName b) then
          r ← wrapP "remove stage volume %q: %w" [TStr (be_volName b)] (call (VolumeRemove (be_volName b)));
          Ret (capture first r, be_set_staging b "" false (be_stagerID b))
        else Ret (first, b));
  Ret (fb.1, be_clear_workspaces fb.2).

(** ** [startRemoteStaging] *)

(** The body; the error leaves the fields set so far. *)
Definition stage_body (b : Backend) (ws : gmap string string) : docker (option text * Backend) :=
  let vol := be_volName b in
  r ← wrapP "create stage volume %q: %w" [TStr vol] (call (VolumeCreate vol (be_runID b)));
  match r with
  | Err e => Ret (Some e, b)
  | Ok _ =>
    let b := be_set_staging b vol true (be_stagerID b) in
    r ← wrapP "pull stager image %q: %w" [TStr (be_pauseImg b)] (ensureImage (be_pauseImg b) "IfNotPresent");
    match r with
    | Err e => Ret (Some e, b)
    | Ok _ =>
      let name := stagerContainerName (be_runID b) in
      r ← wrapP "create stager %q: %w" [TStr name]
            (call (ContainerCreate (mkConfig (be_pauseImg b) [] [] "" "")
                     (mounts_config [mkMount "volume" vol stagerMountPoint false None] "") name));
      match r with
      | Err e => Ret (Some e, b)
      | Ok id =>
        let b := be_set_staging b vol true id in
        r ← wrapP "start stager %q: %w" [TStr name] (call (ContainerStart id));
        match r with
        | Err e => Ret (Some e, b)
        | Ok _ =>
          r ← foldT (fun _ nh => wrapP "seed workspace %q from %q: %w" [TStr nh.1; TStr nh.2]
                                   (pushHostDir b nh.2 (Join [stageWorkspaces; nh.1]))) tt (map_range ws);
          Ret (match r with Err e => Some e | Ok _ => None end, b)
        end
      end
    end
  end.

Definition startRemoteStaging (b : Backend) (runID : string) (ws : gmap string string) : docker (option text * Backend) :=
  r ← stage_body (be_begin b runID ws) ws;
  match r.1 with
  | Some e => s ← stopRemoteStaging r.2; Ret (Some e, s.2)
  | None => Ret (None, r.2)
  end.

(** ** docker.go: [Prepare], [Cleanup] *)
Definition Prepare (b : Backend) (runID : string) (images : list string) (ws : gmap string string)
    : docker (option text * Backend) :=
  d ← call (MkdirTemp ("tkn-act-scripts-" +:+ runID +:+ "-"));
  match d with
  | Err e => Ret (Some e, b)
  | Ok d =>
    let b := be_set_scriptDir b d in
    _ ← foldP (fun _ img => _ ← ensureImage img "IfNotPresent"; Ret tt) tt images;
    if be_remote b then startRemoteStaging b runID ws else Ret (None, b)
  end.

Definition Cleanup (b : Backend) : docker Backend :=
  b ← (if be_remote b then s ← stopRemoteStaging b; Ret s.2 else Ret b);
  _ ← (if is_set (be_scriptDir b) then _ ← call (RemoveAll (be_scriptDir b)); Ret tt else Ret tt);
  Ret b.
End Staging.
