(* ===== verification/DockerRun.v ===== *)
(** * internal/backend/docker/docker.go: [RunTask] *)

From S2P Require Import Prelude GoStrings Paths TektonTypes Run Resolver Steps Effects Docker DockerTask DockerStaging.

(** [strings.TrimRight(s, "\n")]. *)
Fixpoint trim_newlines (s : string) : string :=
  match s with
  | "" => ""
  | String a s' =>
    let t := trim_newlines s' in
    if Ascii.eqb a "010" && String.eqb t "" then "" else String a t
  end.

(** The locals of [RunTask] that the loop over the Steps changes. *)
Record task_state := mktask_state {
  tk_Steps : list StepResult;
  tk_stepResults : gmap string (gmap string string);
  tk_sidecars : list runningSidecar;
}.

(** Whether the loop goes on or [RunTask] returns. *)
Inductive flow :=
  | Next (s : task_state)
  | Return (r : DockerResult) (sidecars : list runningSidecar).

Section RunTask.
Context {K : CoreV1} {SV : SecurityView} `{MapRange} `{FloatScan}.
Variable b : Backend.
Variable inv : TaskInvocation.

Definition infra (s : task_state) (steps : list StepResult) (e : text) : flow :=
  Return (mkDockerResult "infrafailed" steps ∅ (Some e)) (tk_sidecars s).

(** [if err := p; err != nil { res.Status = TaskInfraFailed; res.Err = err; return res, nil }],
    with the steps reported by then. *)
Definition check_ {A} (s : task_state) (steps : list StepResult) (p : docker (result A)) (k : A -> docker flow) : docker flow :=
  r ← p; match r with Ok a => k a | Err e => Ret (infra s steps e) end.

Definition when_remote (p : docker (result unit)) : docker (result unit) :=
  if be_remote b then p else Ret (Ok tt).

(** The declared result files that can be read. *)
Definition read_results (dir : string) (decls : list ResultSpec) : docker (gmap string string) :=
  foldP (fun (m : gmap string string) d =>
    r ← call (ReadFile (Join [dir; rs_Name d]));
    Ret match r with Ok data => <[rs_Name d := trim_newlines data]> m | Err _ => m end) ∅ decls.

Definition step_results_host (name : string) : string := Join [inv_ResultsHost inv; "steps"; name].

Definition read_step_results (s : task_state) (st : Step) : docker (gmap string (gmap string string)) :=
  match st_Results st with
  | [] => Ret (tk_stepResults s)
  | decls => rs ← read_results (step_results_host (st_Name st)) decls;
             Ret (<[st_Name st := rs]> (tk_stepResults s))
  end.

(** The Step that ran: its results, its exit code, the sidecars' liveness. *)
Definition after_step (pauseID : string) (s : task_state) (st : Step) (exitCode : Z) : docker flow :=
  stepResults ← read_step_results s st;
  if (exitCode =? 0)%Z then
    let s' := mktask_state (tk_Steps s ++ [mkStepResult (st_Name st) step_succeeded exitCode]) stepResults (tk_sidecars s) in
    if nonempty_list (tk_sidecars s) || is_set pauseID then
      '(alive, sidecars) ← checkSidecarLiveness inv (tk_sidecars s) pauseID;
      let s'' := mktask_state (tk_Steps s') stepResults sidecars in
      if alive : bool then Ret (Next s'')
      else Ret (infra s'' (tk_Steps s'') (lit "netns owner (pause container) exited unexpectedly"))
    else Ret (Next s')
  else
    let s' := mktask_state (tk_Steps s ++ [mkStepResult (st_Name st) step_failed exitCode]) stepResults (tk_sidecars s) in
    if String.eqb (st_OnError st) "continue" then Ret (Next s')
    else Ret (Return (mkDockerResult "failed" (tk_Steps s') ∅ None) (tk_sidecars s')).

Definition run_one_step (pauseID : string) (s : task_state) (rawStep : Step) : docker flow :=
  check_ s (tk_Steps s) (Ret (wrap_err "step %q: %w" [TStr (st_Name rawStep)] (substituteStepRefs rawStep (tk_stepResults s)))) (fun st =>
  let name := st_Name st in
  let failed := tk_Steps s ++ [mkStepResult name step_failed 0%Z] in
  check_ s (tk_Steps s ++ [mkStepResult name "" 0%Z])
    (wrapP "step %q: %w" [TStr name] (ensureImage (st_Image st) (pull_policy b (st_ImagePullPolicy st)))) (fun _ =>
  check_ s (tk_Steps s)
    (wrapP "step %q: mkdir step results: %w" [TStr name] (mkdirWorldWritable (step_results_host name))) (fun _ =>
  check_ s (tk_Steps s)
    (wrapP "step %q: mkdir step results on stage volume: %w" [TStr name]
      (when_remote (mkdirInVolume b (Join [stageResults; inv_TaskRunName inv; "steps"; name])))) (fun _ =>
  check_ s failed (runStep b inv st pauseID) (fun exitCode =>
  check_ s (tk_Steps s ++ [mkStepResult name step_failed exitCode])
    (wrapP "step %q: pull results: %w" [TStr name]
      (when_remote (pullStepResults b (inv_TaskRunName inv) name (step_results_host name)))) (fun _ =>
  after_step pauseID s st exitCode)))))).

Fixpoint run_steps (pauseID : string) (s : task_state) (l : list Step) : docker flow :=
  match l with
  | [] => Ret (Next s)
  | st :: l' =>
    f ← run_one_step pauseID s st;
    match f with Next s' => run_steps pauseID s' l' | Return r sc => Ret (Return r sc) end
  end.

(** From the staging of the Task's directories to its results. *)
Definition run_body (pauseID : string) (s : task_state) : docker flow :=
  check_ s [] (wrapP "mkdir results dir on stage volume: %w" []
                 (when_remote (mkdirInVolume b (Join [stageResults; inv_TaskRunName inv])))) (fun _ =>
  check_ s [] (when_remote (pushTaskVolumeHosts b (inv_TaskRunName inv) (inv_VolumeHosts inv))) (fun _ =>
  f ← run_steps pauseID s (ts_Steps (inv_Task inv));
  match f with
  | Return r sc => Ret (Return r sc)
  | Next s' =>
    check_ s' (tk_Steps s') (wrapP "pull task results: %w" []
                              (when_remote (pullTaskResults b (inv_TaskRunName inv) (inv_ResultsHost inv)))) (fun _ =>
    rs ← read_results (inv_ResultsHost inv) (ts_Results (inv_Task inv));
    Ret (Return (mkDockerResult "succeeded" (tk_Steps s') rs None) (tk_sidecars s')))
  end)).

(** [run_body] always returns from [RunTask]. *)
Definition returned (f : flow) : DockerResult * list runningSidecar :=
  match f with
  | Return r sc => (r, sc)
  | Next s => (mkDockerResult "succeeded" (tk_Steps s) ∅ None, tk_sidecars s)
  end.

Definition infra_result (e : text) : DockerResult := mkDockerResult "infrafailed" [] ∅ (Some e).

(** The sidecars' part of [RunTask]; its [defer]s run in reverse order. *)
Definition run_with_sidecars : docker DockerResult :=
  p ← wrapP "pause container: %w" [] (startPause b inv);
  match p with
  | Err e => Ret (infra_result e)
  | Ok pauseID =>
    defer_ (stopPause pauseID) (
      started ← startSidecars b inv pauseID;
      rs ← (match started.2 with
            | Some e => Ret (infra_result e, started.1)
            | None => f ← run_body pauseID (mktask_state [] ∅ started.1); Ret (returned f)
            end);
      _ ← stopSidecars b inv rs.2;
      Ret rs.1)
  end.

Definition RunTask : docker DockerResult :=
  match docker_support (inv_Task inv) with
  | Some e => Ret (infra_result e)
  | None =>
    match ts_Sidecars (inv_Task inv) with
    | [] => f ← run_body "" (mktask_state [] ∅ []); Ret (returned f).1
    | _ => run_with_sidecars
    end
  end.
End RunTask.
