(* ===== verification/DockerProps.v ===== *)
(** * Properties of the docker backend

    For every behaviour of the daemon and of the file system: containers do not
    outlive their Task, every sidecar ends once, a Task's status follows from its
    Steps, and what is written or mounted stays below its directory. *)

From S2P Require Import Prelude GoStrings GoTime Paths TektonTypes Run Resolver Steps Effects Docker DockerTask DockerStaging DockerRun.

(** ** Traces *)

(** The container a call created; an empty ID is none. *)
Definition created (e : ev DockerE) : option string :=
  match ev_call e in DockerE X return X -> option string with
  | ContainerCreate _ _ _ => fun r => match r with Ok id => if is_set id then Some id else None | Err _ => None end
  | _ => fun _ => None
  end (ev_answer e).

Definition removed (e : ev DockerE) : option string :=
  match ev_call e with ContainerRemove id => Some id | _ => None end.

Definition sidecar_start (e : ev DockerE) : option string :=
  match ev_call e with EmitSidecarStart _ name => Some name | _ => None end.

Definition sidecar_end (e : ev DockerE) : option string :=
  match ev_call e with EmitSidecarEnd _ name _ _ _ => Some name | _ => None end.

(** The containers left behind by the calls [t], from those in [o]. *)
Definition leak_step (o : list string) (e : ev DockerE) : list string :=
  let o := match removed e with Some id => List.filter (fun x => negb (String.eqb x id)) o | None => o end in
  match created e with Some id => o ++ [id] | None => o end.

Definition left_behind (o : list string) (t : list (ev DockerE)) : list string := foldl leak_step o t.

(** The removals the daemon granted, and the containers that exist behind the calls [t]. *)
Definition granted (e : ev DockerE) : option string :=
  match ev_call e in DockerE X return X -> option string with
  | ContainerRemove id => fun r => match r with Ok _ => Some id | Err _ => None end
  | _ => fun _ => None
  end (ev_answer e).

Definition exist_step (o : list string) (e : ev DockerE) : list string :=
  let o := match granted e with Some id => List.filter (fun x => negb (String.eqb x id)) o | None => o end in
  match created e with Some id => o ++ [id] | None => o end.

Definition existing (t : list (ev DockerE)) : list string := foldl exist_step [] t.

(** The exit code a wait for a container gives: a timeout counts as 1, a stream that is
    closed without a status as 0. *)
Definition exit_of (w : wait_result) : option Z :=
  match w with
  | WaitStatus code => Some code
  | WaitTimeout => Some 1%Z
  | WaitErr None => Some 0%Z
  | WaitErr (Some _) | WaitCancelled _ => None
  end.

Definition exit_code (e : ev DockerE) : option Z :=
  match ev_call e in DockerE X return X -> option Z with
  | ContainerWait _ _ => exit_of
  | _ => fun _ => None
  end (ev_answer e).

(** A call that neither makes nor removes a container or a volume and reports no
    sidecar. *)
Definition calm_call {X} (e : DockerE X) : Prop :=
  match e with
  | ContainerCreate _ _ _ | ContainerRemove _ | EmitSidecarStart _ _ | EmitSidecarEnd _ _ _ _ _
  | VolumeCreate _ _ | VolumeRemove _ => False
  | _ => True
  end.

(** One that does not wait for a container, either. *)
Definition no_wait {X} (e : DockerE X) : Prop :=
  match e with ContainerWait _ _ => False | _ => True end.

Definition plain_call {X} (e : DockerE X) : Prop :=
  match e with ContainerWait _ _ => False | _ => calm_call e end.

Abbreviation plain_prog := (calls (fun X e => plain_call e)).

Create HintDb docker.

Lemma plain_if {A} (c : bool) (p q : docker A) : plain_prog p -> plain_prog q -> plain_prog (if c then p else q).
Proof. by destruct c. Qed.

#[export] Hint Resolve calls_call calls_bind calls_try calls_wrap calls_foldT calls_foldP plain_if : docker.
#[export] Hint Extern 1 (plain_call _) => exact I : docker.
#[export] Hint Extern 1 (plain_prog (Ret _)) => exact I : docker.
#[export] Hint Extern 2 (plain_prog (match ?x with _ => _ end)) => destruct x : docker.

Ltac plain := intros; auto 20 with docker.

Section Plain.
Context {K : CoreV1} {SV : SecurityView} `{MapRange} `{FloatScan}.
Implicit Types (b : Backend) (inv : TaskInvocation).

Lemma ensureImage_plain img policy : plain_prog (ensureImage img policy).
Proof. unfold ensureImage. plain. Qed.

Lemma ensureStagerDir_plain b d : plain_prog (ensureStagerDir b d).
Proof. unfold ensureStagerDir. plain. Qed.
Hint Resolve ensureImage_plain ensureStagerDir_plain : docker.

Lemma mkdirInVolume_plain b d : plain_prog (mkdirInVolume b d).
Proof. unfold mkdirInVolume. plain. Qed.

Lemma mkdirWorldWritable_plain d : plain_prog (mkdirWorldWritable d).
Proof. unfold mkdirWorldWritable. plain. Qed.
Hint Resolve mkdirInVolume_plain mkdirWorldWritable_plain : docker.

Lemma script_mounts_plain b base script : plain_prog (script_mounts b base script).
Proof. unfold script_mounts, pushScript. plain. Qed.

Lemma workspaceMounts_plain b inv owner : plain_prog (workspaceMounts b inv owner).
Proof. unfold workspaceMounts, workspace_mount. plain. Qed.

Lemma checkImageNonRoot_plain img : plain_prog (checkImageNonRoot img).
Proof. unfold checkImageNonRoot. plain. Qed.
Hint Resolve script_mounts_plain workspaceMounts_plain checkImageNonRoot_plain : docker.

Lemma step_mounts_plain b inv st : plain_prog (step_mounts b inv st).
Proof. unfold step_mounts. plain. Qed.

Lemma tarHostDir_plain d : plain_prog (tarHostDir d).
Proof. unfold tarHostDir. plain. Qed.
Hint Resolve step_mounts_plain tarHostDir_plain : docker.

Lemma pushHostDir_plain b h d : plain_prog (pushHostDir b h d).
Proof. unfold pushHostDir. plain. Qed.

Lemma untar_entry_plain d sp h : plain_prog (untar_entry d sp h).
Proof. unfold untar_entry. plain. Qed.
Hint Resolve pushHostDir_plain untar_entry_plain : docker.

Lemma pullHostDir_plain b s h : plain_prog (pullHostDir b s h).
Proof. unfold pullHostDir, untarToDir. plain. Qed.
Hint Resolve pullHostDir_plain : docker.

Lemma pushTaskVolumeHosts_plain b tr vs : plain_prog (pushTaskVolumeHosts b tr vs).
Proof. unfold pushTaskVolumeHosts. plain. Qed.

Lemma pull_plain b tr n d : plain_prog (pullStepResults b tr n d) /\ plain_prog (pullTaskResults b tr d).
Proof. unfold pullStepResults, pullTaskResults. plain. Qed.

Lemma read_results_plain d l : plain_prog (read_results d l).
Proof. unfold read_results. plain. Qed.
Hint Resolve read_results_plain : docker.

Lemma read_step_results_plain inv s st : plain_prog (read_step_results inv s st).
Proof. unfold read_step_results. plain. Qed.
End Plain.

#[export] Hint Resolve ensureImage_plain mkdirInVolume_plain mkdirWorldWritable_plain checkImageNonRoot_plain
  script_mounts_plain workspaceMounts_plain step_mounts_plain pullHostDir_plain pushHostDir_plain
  pushTaskVolumeHosts_plain read_results_plain read_step_results_plain : docker.

(** What such a program does to the things that are counted: nothing. *)
Lemma calm_events t :
  Forall (fun e => calm_call (ev_call e)) t ->
  (forall o, left_behind o t = o) /\ omap sidecar_start t = [] /\ omap sidecar_end t = [] /\ omap created t = [].
Proof.
  induction 1 as [|[X e x] t He _ (IH1 & IH2 & IH3 & IH4)]; [done|].
  split; [intros o; unfold left_behind; cbn [foldl]; rewrite <-(IH1 o) at 2; f_equal|];
    destruct e; simpl in *; done.
Qed.

Lemma plain_calm t :
  Forall (fun e => plain_call (ev_call e)) t -> Forall (fun e => calm_call (ev_call e)) t.
Proof. intros Ht. eapply Forall_impl; [exact Ht|]. by intros [X []]. Qed.

Lemma plain_events t :
  Forall (fun e => plain_call (ev_call e)) t ->
  (forall o, left_behind o t = o) /\ omap sidecar_start t = [] /\ omap sidecar_end t = [] /\ omap created t = [].
Proof. intros Ht. by apply calm_events, plain_calm. Qed.

Lemma no_wait_codes t : Forall (fun e => no_wait (ev_call e)) t -> omap exit_code t = [].
Proof. induction 1 as [|[X e x] t He _ IH]; [done|]. by destruct e. Qed.

Lemma plain_no_wait {A} (p : docker A) : plain_prog p -> calls (fun X e => no_wait e) p.
Proof. apply calls_mono. by intros X []. Qed.

Lemma plain_codes t : Forall (fun e => plain_call (ev_call e)) t -> omap exit_code t = [].
Proof. intros Ht. apply no_wait_codes. eapply Forall_impl; [exact Ht|]. by intros [X []]. Qed.

(** ** Containers *)

(** [t] leaves at most the containers [l] behind. *)
Definition leaves (l : list string) (t : list (ev DockerE)) : Prop := forall o, left_behind o t ⊆ o ++ l.

Lemma left_behind_app o t t' : left_behind o (t ++ t') = left_behind (left_behind o t) t'.
Proof. apply foldl_app. Qed.

Lemma leaves_nil : leaves [] [].
Proof. intros o. by rewrite app_nil_r. Qed.

Lemma leaves_app l l' t t' : leaves l t -> leaves l' t' -> leaves (l ++ l') (t ++ t').
Proof.
  intros H H' o. rewrite left_behind_app. etransitivity; [apply H'|]. specialize (H o).
  intros x [Hx|Hx]%elem_of_app; [apply H in Hx|]; rewrite !elem_of_app in *; tauto.
Qed.

Lemma leaves_mono l l' t : leaves l t -> l ⊆ l' -> leaves l' t.
Proof. intros H Hl o. etransitivity; [apply H|]. intros x. rewrite !elem_of_app. intros [?|?]; auto. Qed.

Lemma leaves_quiet t t' : leaves [] t -> leaves [] t' -> leaves [] (t ++ t').
Proof. apply (leaves_app [] []). Qed.

Lemma leaves_calm t : Forall (fun e => calm_call (ev_call e)) t -> leaves [] t.
Proof. intros Ht o. rewrite (proj1 (calm_events t Ht)). by rewrite app_nil_r. Qed.

Lemma leaves_plain t : Forall (fun e => plain_call (ev_call e)) t -> leaves [] t.
Proof. intros Ht. by apply leaves_calm, plain_calm. Qed.

Lemma elem_of_filter_ne x id l : x ∈ List.filter (fun y => negb (String.eqb y id)) l <-> x ∈ l /\ x <> id.
Proof.
  rewrite !list_elem_of_In, List.filter_In, negb_true_iff, String.eqb_neq. done.
Qed.

(** Removing is all that can be done for a container. *)
Lemma leaves_removed id t r : leaves [id] t -> leaves [] (t ++ [Ev (ContainerRemove id) r]).
Proof.
  intros H o x Hx. rewrite left_behind_app in Hx. cbn in Hx. apply elem_of_filter_ne in Hx as [Hx Hne].
  apply H in Hx. rewrite elem_of_app, list_elem_of_singleton in *. tauto.
Qed.

Lemma leaves_create cfg hc name r :
  leaves (match r with Ok id => [id] | Err _ => [] end) [Ev (ContainerCreate cfg hc name) r].
Proof.
  intros o. destruct r as [id|e]; unfold left_behind, leak_step; simpl; [|by rewrite app_nil_r].
  unfold created; simpl. destruct (is_set id); intros x; rewrite ?elem_of_app; tauto.
Qed.

Lemma post_plain {A} (p : docker A) (Q : list (ev DockerE) -> A -> Prop) :
  plain_prog p -> (forall t a, Forall (fun e => plain_call (ev_call e)) t -> Q t a) -> post p Q.
Proof. intros Hp HQ. eapply post_mono; [by apply calls_post|]. intros t a Ht. by apply HQ. Qed.

(** A container that still exists was left behind, or the daemon refused to remove it once
    it was there. *)
Definition refused (id : string) (t : list (ev DockerE)) : Prop :=
  exists t1 t2 e, t = t1 ++ Ev (ContainerRemove id) (Err e) :: t2 /\ id ∈ omap created t1.

Lemma existing_created t x : x ∈ existing t -> x ∈ omap created t.
Proof.
  induction t as [|e t IH] using rev_ind; [done|]. unfold existing. rewrite foldl_app, omap_app. cbn [foldl omap list_omap].
  fold (existing t). unfold exist_step. rewrite elem_of_app.
  assert (x ∈ match granted e with Some id => List.filter (fun y => negb (String.eqb y id)) (existing t) | None => existing t end ->
    x ∈ omap created t) as Ho by (destruct (granted e); rewrite ?elem_of_filter_ne; naive_solver).
  destruct (created e) as [id|]; [|by left; apply Ho]. rewrite elem_of_app. intros [?|?]; [by left; apply Ho|by right].
Qed.

Lemma existing_left t x : x ∈ existing t -> x ∈ left_behind [] t \/ refused x t.
Proof.
  induction t as [|e t IH] using rev_ind; [by left|]. intros Hx. pose proof (existing_created t x) as Hc.
  rewrite left_behind_app. unfold existing in Hx. rewrite foldl_app in Hx. cbn [foldl] in Hx. fold (existing t) in Hx.
  assert (refused x t -> refused x (t ++ [e])) as Hmono.
  { intros (t1 & t2 & err & -> & H1). exists t1, (t2 ++ [e]), err. by rewrite <-(assoc_L (++)). }
  cbn [left_behind foldl]. destruct e as [X c r]. unfold exist_step, leak_step in *.
  destruct c; unfold granted, removed, created in *; cbn [ev_call ev_answer] in *; try by destruct (IH Hx); eauto.
  - destruct r as [i|]; [destruct (is_set i)|]; rewrite ?elem_of_app in *; naive_solver.
  - destruct r as [u|err].
    + rewrite elem_of_filter_ne in *. destruct Hx as [Hx Hne]. destruct (IH Hx); auto.
    + destruct (IH Hx) as [Hl|Hr]; [|auto]. destruct (decide (x = id)) as [->|Hne]; [|left; by rewrite elem_of_filter_ne].
      right. exists t, [], err. auto.
Qed.

(** Programs that leave nothing behind compose. *)
Definition tidy {A} (p : docker A) : Prop := post p (fun t _ => leaves [] t).

Lemma tidy_plain {A} (p : docker A) : plain_prog p -> tidy p.
Proof. intros Hp. apply post_plain; [done|]. intros t _. apply leaves_plain. Qed.

Lemma tidy_bind {A B} (p : docker A) (f : A -> docker B) : tidy p -> (forall a, tidy (f a)) -> tidy (p ≫= f).
Proof.
  intros Hp Hf. apply post_bind. post_use Hp. intros t a Ht. post_use Hf. intros t' b Ht'. by apply leaves_quiet.
Qed.

Lemma tidy_try {A B} (p : docker (result A)) (k : A -> docker (result B)) : tidy p -> (forall a, tidy (k a)) -> tidy (try_ p k).
Proof. intros Hp Hk. apply tidy_bind; [done|]. intros [a|e]; [done|]. by apply tidy_plain. Qed.

Lemma tidy_wrap {A} f args (p : docker (result A)) : tidy p -> tidy (wrapP f args p).
Proof. intros Hp. apply tidy_bind; [done|]. intros r. by apply tidy_plain. Qed.

(** ** Sidecars *)

(** The sidecars whose end is still to be reported. *)
Definition alive (l : list runningSidecar) : list string :=
  map rs_name (List.filter (fun rs => negb (rs_terminated rs)) l).

(** [t] leaves no container behind, starts no sidecar, and reports the end of those
    that are alive in [l] and no longer in [l']. *)
Definition accounts (l : list runningSidecar) (t : list (ev DockerE)) (l' : list runningSidecar) : Prop :=
  leaves [] t /\ map rs_containerID l' = map rs_containerID l /\ omap sidecar_start t = [] /\
  omap sidecar_end t ++ alive l' ≡ₚ alive l.

Lemma accounts_plain l t : Forall (fun e => plain_call (ev_call e)) t -> accounts l t l.
Proof.
  intros Ht. destruct (plain_events t Ht) as (_ & H1 & H2 & _). split_and!; [by apply leaves_plain|done|done|].
  by rewrite H2.
Qed.

Lemma accounts_nil l : accounts l [] l.
Proof. by apply accounts_plain. Qed.

Lemma accounts_app l l' l'' t t' : accounts l t l' -> accounts l' t' l'' -> accounts l (t ++ t') l''.
Proof.
  intros (H1 & H2 & H3 & H4) (H1' & H2' & H3' & H4'). split_and!; [by apply leaves_quiet|congruence| |].
  - by rewrite omap_app, H3, H3'.
  - by rewrite omap_app, <-(assoc_L (++)), H4', H4.
Qed.

Lemma alive_app l l' : alive (l ++ l') = alive l ++ alive l'.
Proof. unfold alive. by rewrite List.filter_app, map_app. Qed.

Lemma accounts_cons rs rs' l l' t t' :
  accounts [rs] t [rs'] -> accounts l t' l' -> accounts (rs :: l) (t ++ t') (rs' :: l').
Proof.
  intros (H1 & H2 & H3 & H4) (H1' & H2' & H3' & H4'). split_and!; [by apply leaves_quiet| | |].
  - simpl in *. injection H2 as ->. by rewrite H2'.
  - by rewrite omap_app, H3, H3'.
  - change (rs' :: l') with ([rs'] ++ l'). change (rs :: l) with ([rs] ++ l).
    rewrite !alive_app, omap_app, <-H4, <-H4'. solve_Permutation.
Qed.

(** A sidecar's end, and its flag. *)
Lemma accounts_end rs task exit status msg u :
  rs_terminated rs = false ->
  accounts [rs] [Ev (EmitSidecarEnd task (rs_name rs) exit status msg) u] [terminate rs].
Proof.
  intros Hrs. split_and!; [intros o; by rewrite app_nil_r|done|done|]. unfold alive. simpl. by rewrite Hrs.
Qed.

Section Tasks.
Context {K : CoreV1} {SV : SecurityView} `{MapRange} `{FloatScan}.
Implicit Types (b : Backend) (inv : TaskInvocation).

Lemma check_one_accounts inv rs : post (check_one inv rs) (fun t rs' => accounts [rs] t [rs']).
Proof.
  unfold check_one. destruct (rs_terminated rs) eqn:Hrs; [apply post_ret, accounts_nil|].
  repeat post_step. destruct x as [[state|]|e].
  - destruct (cs_Running state); [by apply post_ret, accounts_plain; repeat constructor|].
    destruct (cs_ExitCode state =? 0)%Z; unfold emit_end; repeat post_step;
      by apply (accounts_app _ [rs] _ [_]); [apply accounts_plain; repeat constructor|apply accounts_end].
  - by apply post_ret, accounts_plain; repeat constructor.
  - unfold emit_end; repeat post_step.
    by apply (accounts_app _ [rs] _ [_]); [apply accounts_plain; repeat constructor|apply accounts_end].
Qed.

Lemma mapP_accounts (f : runningSidecar -> docker runningSidecar) l :
  (forall rs, post (f rs) (fun t rs' => accounts [rs] t [rs'])) -> post (mapP f l) (fun t l' => accounts l t l').
Proof.
  intros Hf. induction l as [|rs l IH]; simpl; [apply post_ret, accounts_nil|].
  apply post_bind. post_use Hf. intros t rs' Ht. apply post_bind. post_use IH. intros t' l' Ht'.
  apply post_ret. rewrite app_nil_r. by apply accounts_cons.
Qed.

Lemma checkSidecarLiveness_accounts inv l pauseID :
  post (checkSidecarLiveness inv l pauseID) (fun t r => accounts l t r.2).
Proof.
  unfold checkSidecarLiveness. apply post_bind. apply post_plain; [plain|]. intros t alive Ht.
  apply post_bind. post_use (mapP_accounts (check_one inv) l (check_one_accounts inv)). intros t' l' Ht'.
  apply post_ret. rewrite app_nil_r. by apply (accounts_app _ l); [apply accounts_plain|].
Qed.

Lemma verify_each_accounts inv l :
  Forall (fun rs => rs_terminated rs = false) l -> post (verify_each inv l) (fun t r => accounts l t r.1).
Proof.
  induction 1 as [|rs l Hrs _ IH]; simpl; [apply post_ret, accounts_nil|].
  assert (forall exit status msg insp u, accounts (rs :: l)
    [Ev (ContainerInspect (rs_containerID rs)) insp; Ev (EmitSidecarEnd (inv_TaskName inv) (rs_name rs) exit status msg) u]
    (terminate rs :: l)) as Hend.
  { intros. rewrite <-(app_nil_r [_; _]). apply accounts_cons; [|apply accounts_nil].
    by apply (accounts_app _ [rs] _ [_]); [apply accounts_plain; repeat constructor|apply accounts_end]. }
  repeat post_step. destruct x as [state|e].
  - destruct (default false (cs_Running <$> state)).
    + apply post_bind. post_use IH. intros t r Ht. apply post_ret. rewrite app_nil_r. simpl.
      by apply (accounts_cons rs rs l r.1 [_] t); [apply accounts_plain; repeat constructor|].
    + unfold emit_end. repeat post_step. apply Hend.
  - unfold emit_end. repeat post_step. apply Hend.
Qed.

(** A container is removed after whatever is done with it. *)
Lemma create_remove l cfg hc name id t r :
  Forall (fun e => calm_call (ev_call e)) t ->
  accounts l (Ev (ContainerCreate cfg hc name) (Ok id) :: t ++ [Ev (ContainerRemove id) r]) l.
Proof.
  intros Ht. destruct (calm_events t Ht) as (_ & H1 & H2 & _). split_and!.
  - rewrite app_comm_cons. apply leaves_removed. apply (leaves_app [id] [] [_] t); [apply (leaves_create _ _ _ (Ok id))|].
    by apply leaves_calm.
  - done.
  - simpl. by rewrite omap_app, H1.
  - simpl. by rewrite omap_app, H2.
Qed.

Lemma create_failed l cfg hc name e : accounts l [Ev (ContainerCreate cfg hc name) (Err e)] l.
Proof. by split_and!; [apply (leaves_create _ _ _ (Err e))|..]. Qed.

Lemma run_container_accounts inv l st cfg hc timeout :
  post (run_container inv st cfg hc timeout) (fun t _ => accounts l t l).
Proof.
  unfold run_container. repeat post_step. destruct x as [id|e]; cbn [wrap_err]; [|apply create_failed].
  apply post_defer. eapply post_mono; [apply (calls_post (fun X e => calm_call e))|].
  - apply calls_try; [by repeat constructor|]. intros _. apply calls_try; [by repeat constructor|]. intros _.
    unfold defer_, await_step. split; [done|]. by intros [[]| | |]; repeat constructor.
  - intros t a Ht. repeat post_step. by apply create_remove.
Qed.

Lemma post_accounts_plain {A} (p : docker A) l : plain_prog p -> post p (fun t _ => accounts l t l).
Proof. intros Hp. apply post_plain; [done|]. intros t a. apply accounts_plain. Qed.

(** Errors on the way keep the account. *)
Lemma post_accounts_try {A B} (p : docker (result A)) (k : A -> docker (result B)) l :
  post p (fun t _ => accounts l t l) -> (forall a, post (k a) (fun t _ => accounts l t l)) ->
  post (try_ p k) (fun t _ => accounts l t l).
Proof.
  intros Hp Hk. apply post_try. post_use Hp. intros t [a|e] Ht; [|done].
  post_use Hk. intros t' r Ht'. by apply (accounts_app _ l).
Qed.

Lemma runStep_accounts b inv l st pauseID : post (runStep b inv st pauseID) (fun t _ => accounts l t l).
Proof.
  unfold runStep. do 4 (apply post_accounts_try; [apply post_accounts_plain; plain|intro]).
  apply run_container_accounts.
Qed.

(** The sidecars a step of the loop leaves. *)
Definition flow_sidecars (f : flow) : list runningSidecar :=
  match f with Next s => tk_sidecars s | Return _ sc => sc end.

Lemma post_check {A} s steps (p : docker (result A)) k :
  post p (fun t _ => accounts (tk_sidecars s) t (tk_sidecars s)) ->
  (forall a, post (k a) (fun t f => accounts (tk_sidecars s) t (flow_sidecars f))) ->
  post (check_ s steps p k) (fun t f => accounts (tk_sidecars s) t (flow_sidecars f)).
Proof.
  intros Hp Hk. apply post_bind. post_use Hp. intros t [a|e] Ht.
  - post_use Hk. intros t' f Ht'. by eapply accounts_app.
  - apply post_ret. by rewrite app_nil_r.
Qed.

Lemma when_remote_plain b p : plain_prog p -> plain_prog (when_remote b p).
Proof. intros Hp. unfold when_remote. plain. Qed.

Lemma after_step_accounts inv pauseID s st exitCode :
  post (after_step inv pauseID s st exitCode) (fun t f => accounts (tk_sidecars s) t (flow_sidecars f)).
Proof.
  unfold after_step. apply post_bind, post_plain; [plain|]. intros t rs Ht.
  assert (accounts (tk_sidecars s) t (tk_sidecars s)) as Ha by by apply accounts_plain.
  destruct (exitCode =? 0)%Z; [|destruct (String.eqb _ _); apply post_ret; by rewrite app_nil_r].
  destruct (nonempty_list _ || _); [|apply post_ret; by rewrite app_nil_r].
  apply post_bind. post_use checkSidecarLiveness_accounts. intros t' [al sc] Ht'.
  destruct al; apply post_ret; rewrite app_nil_r; by eapply accounts_app.
Qed.

Lemma run_one_step_accounts b inv pauseID s st :
  post (run_one_step b inv pauseID s st) (fun t f => accounts (tk_sidecars s) t (flow_sidecars f)).
Proof.
  unfold run_one_step. apply post_check; [by apply post_accounts_plain|]. intros st'.
  do 3 (apply post_check; [apply post_accounts_plain; auto using when_remote_plain, calls_wrap with docker|intros _]).
  apply post_check; [apply runStep_accounts|]. intros exitCode.
  apply post_check; [apply post_accounts_plain, calls_wrap, when_remote_plain, pull_plain; done|]. intros _.
  apply after_step_accounts.
Qed.

Lemma run_steps_accounts b inv pauseID s l :
  post (run_steps b inv pauseID s l) (fun t f => accounts (tk_sidecars s) t (flow_sidecars f)).
Proof.
  revert s; induction l as [|st l IH]; intros s; simpl; [apply post_ret, accounts_nil|].
  apply post_bind. post_use run_one_step_accounts. intros t [s'|r sc] Ht; simpl in Ht.
  - post_use IH. intros t' f Ht'. by eapply accounts_app.
  - apply post_ret. by rewrite app_nil_r.
Qed.

Lemma run_body_accounts b inv pauseID s :
  post (run_body b inv pauseID s) (fun t f => accounts (tk_sidecars s) t (flow_sidecars f)).
Proof.
  unfold run_body. do 2 (apply post_check; [apply post_accounts_plain; auto using when_remote_plain, calls_wrap with docker|intros _]).
  apply post_bind. post_use run_steps_accounts. intros t [s'|r sc] Ht; [|apply post_ret; by rewrite app_nil_r].
  eapply post_mono; [apply post_check|].
  - by apply post_accounts_plain, calls_wrap, when_remote_plain, pull_plain.
  - intros _. apply post_bind, post_plain; [plain|]. intros t' rs Ht'. apply post_ret. rewrite app_nil_r.
    by apply accounts_plain.
  - intros t' f Ht'. by eapply accounts_app.
Qed.

(** ** Starting and stopping the sidecars *)

(** No call of [t] created a container with an empty ID. *)
Definition empty_id (e : ev DockerE) : bool :=
  match ev_call e in DockerE X return X -> bool with
  | ContainerCreate _ _ _ => fun r => match r with Ok id => negb (is_set id) | Err _ => false end
  | _ => fun _ => false
  end (ev_answer e).
Definition real_ids (t : list (ev DockerE)) : Prop := Forall (fun e => empty_id e = false) t.

Lemma create_started_spec what cfg hc name :
  post (create_started what cfg hc name) (fun t r =>
    leaves (match r with Ok id => [id] | Err _ => [] end) t /\ omap sidecar_start t = [] /\ omap sidecar_end t = [] /\
    (real_ids t -> match r with Ok id => is_set id = true | Err _ => True end)).
Proof.
  unfold create_started. repeat post_step. destruct x as [id|e]; cbn [wrap_err].
  - repeat post_step. destruct x as [u|e]; cbn [wrap_err]; repeat post_step.
    + split_and!; [|done|done|].
      * apply (leaves_app [id] [] [_] [_]); [apply (leaves_create _ _ _ (Ok id))|]. apply leaves_plain. by repeat constructor.
      * intros [Hid _]%Forall_cons. simpl in Hid. by apply negb_false_iff in Hid.
    + split_and!; [|done..]. apply (leaves_removed id [_; _]).
      apply (leaves_app [id] [] [_] [_]); [apply (leaves_create _ _ _ (Ok id))|]. apply leaves_plain. by repeat constructor.
  - split_and!; [apply (leaves_create _ _ _ (Err e))|done..].
Qed.

(** Calls before and after that do not count. *)
Definition quiet_trace (t : list (ev DockerE)) : Prop := Forall (fun e => plain_call (ev_call e)) t.

Lemma startOneSidecar_spec b inv sc pauseID :
  post (startOneSidecar b inv sc pauseID) (fun t r =>
    leaves (match r with Ok (id, _) => [id] | Err _ => [] end) t /\ omap sidecar_start t = [] /\ omap sidecar_end t = [] /\
    (real_ids t -> match r with Ok (id, _) => is_set id = true | Err _ => True end)).
Proof.
  set (Q := fun t (r : result (string * bool)) => leaves (match r with Ok (id, _) => [id] | Err _ => [] end) t /\
    omap sidecar_start t = [] /\ omap sidecar_end t = [] /\
    (real_ids t -> match r with Ok (id, _) => is_set id = true | Err _ => True end)).
  assert (forall t t' r, quiet_trace t -> Q t' r -> Q (t ++ t') r) as Hpre.
  { intros t t' r Ht (H1 & H2 & H3 & H4). destruct (plain_events t Ht) as (_ & Hs & He & _).
    split_and!; [by apply (leaves_app []); [apply leaves_plain|]|by rewrite omap_app, Hs|by rewrite omap_app, He|].
    intros [_ Hr]%Forall_app. by apply H4. }
  assert (forall t e, quiet_trace t -> Q t (Err e)) as Herr.
  { intros t e Ht. destruct (plain_events t Ht) as (_ & Hs & He & _). split_and!; [by apply leaves_plain|done..]. }
  assert (forall A (p : docker (result A)) k, plain_prog p -> (forall a, post (k a) Q) -> post (try_ p k) Q) as Htry.
  { intros A p k Hp Hk. apply post_try, post_plain; [done|]. intros t [a|e] Ht; [|by apply Herr].
    post_use Hk. intros t' r. by apply Hpre. }
  unfold startOneSidecar. do 6 (apply Htry; [plain|intro]).
  apply post_try. post_use create_started_spec. intros t [id|e] (H1 & H2 & H3 & H4); [|done].
  repeat post_step. unfold Q. split_and!.
  - apply (leaves_app [id] []); [done|]. apply leaves_plain. by repeat constructor.
  - by rewrite omap_app, H2.
  - by rewrite omap_app, H3.
  - intros [Hr _]%Forall_app. by apply H4.
Qed.

(** How far the loop over the sidecars came. *)
Definition started_until (l : list Sidecar) (new : list runningSidecar) (ended : list string) (err : option text) : Prop :=
  match err with
  | None => map rs_name new = map sc_Name l /\ ended = []
  | Some _ => exists sc rest, map sc_Name l = map rs_name new ++ sc :: rest /\ ended = [sc]
  end.

(** All the starts of [t] come before all the ends. *)
Definition starts_first (t : list (ev DockerE)) : Prop :=
  exists ta tb, t = ta ++ tb /\ omap sidecar_end ta = [] /\ omap sidecar_start tb = [].

Lemma starts_first_app_l t t' : omap sidecar_end t = [] -> starts_first t' -> starts_first (t ++ t').
Proof.
  intros Ht (ta & tb & -> & H1 & H2). exists (t ++ ta), tb. by rewrite (assoc_L (++)), omap_app, Ht, H1.
Qed.

Lemma starts_first_app_r t t' : starts_first t -> omap sidecar_start t' = [] -> starts_first (t ++ t').
Proof.
  intros (ta & tb & -> & H1 & H2) Ht. exists ta, (tb ++ t'). by rewrite <-(assoc_L (++)), omap_app, H2, Ht.
Qed.

Lemma starts_first_none t : omap sidecar_start t = [] -> starts_first t.
Proof. intros Ht. by exists [], t. Qed.

Lemma start_each_spec b inv pauseID out l :
  post (start_each b inv pauseID out l) (fun t r => exists new,
    r.1 = out ++ new /\ leaves (map rs_containerID new) t /\ Forall (fun rs => rs_terminated rs = false) new /\
    omap sidecar_start t = map rs_name new /\ started_until l new (omap sidecar_end t) r.2 /\ starts_first t /\
    (real_ids t -> Forall (fun rs => is_set (rs_containerID rs) = true) new)).
Proof.
  revert out; induction l as [|sc l IH]; intros out; simpl.
  - apply post_ret. exists []. rewrite app_nil_r. split_and!; [done|apply leaves_nil|constructor|done|done|by apply starts_first_none|constructor].
  - apply post_bind. post_use startOneSidecar_spec. intros t [[id logs]|e] (H1 & H2 & H3 & H4).
    + repeat post_step. post_use IH. intros t' [out' err] (new & Hout & Hl & Hf & Hs & He & Hfirst & Hr). cbn [fst snd] in *. subst out'.
      exists (mkrunningSidecar (sc_Name sc) id false logs :: new). split_and!.
      * by rewrite <-(assoc_L (++)).
      * apply (leaves_app [id]); [done|]. apply (leaves_app [] _ [_]); [|done]. intros o. by rewrite app_nil_r.
      * by constructor.
      * rewrite omap_app, H2. cbn [map rs_name]. by rewrite <-Hs.
      * rewrite omap_app, H3. change ([] ++ omap sidecar_end (Ev (EmitSidecarStart (inv_TaskName inv) (sc_Name sc)) x :: t'))
          with (omap sidecar_end t'). destruct err as [e|]; cbn [started_until map rs_name] in *.
        -- destruct He as (s' & rest & -> & ->). by exists s', rest.
        -- by destruct He as [-> ->].
      * apply starts_first_app_l; [done|]. by apply (starts_first_app_l [_]).
      * intros [Hr1 [_ Hr2]%Forall_cons]%Forall_app. constructor; [by apply H4|by apply Hr].
    + unfold emit_end. repeat post_step. exists []. rewrite app_nil_r. split_and!.
      * done.
      * rewrite <-(app_nil_r (map _ _)). apply (leaves_app [] []); [done|]. intros o. by rewrite app_nil_r.
      * constructor.
      * by rewrite omap_app, H2.
      * simpl. exists (sc_Name sc), (map sc_Name l). by rewrite omap_app, H3.
      * apply starts_first_none. by rewrite omap_app, H2.
      * constructor.
Qed.

(** The sidecars that were reported: the first [m] were started, and these, with the one
    behind them where there is one, have ended or are alive. *)
Definition reported (names : list string) (t : list (ev DockerE)) (living : list string) (m : nat) : Prop :=
  omap sidecar_start t = take m names /\ omap sidecar_end t ++ living ≡ₚ take (S m) names /\ m <= length names /\ starts_first t.

Lemma reported_accounts names t t' l l' m :
  reported names t (alive l) m -> accounts l t' l' -> reported names (t ++ t') (alive l') m.
Proof.
  intros (H1 & H2 & H3 & H4) (_ & _ & Hs & He). split_and!; [|by rewrite omap_app, <-(assoc_L (++)), He|done|].
  - by rewrite omap_app, H1, Hs, app_nil_r.
  - by apply starts_first_app_r.
Qed.

Lemma alive_unterminated l : Forall (fun rs => rs_terminated rs = false) l -> alive l = map rs_name l.
Proof. unfold alive. induction 1 as [|rs l Hrs _ IH]; simpl; [done|]. rewrite Hrs. simpl. by rewrite IH. Qed.

Lemma startSidecars_spec b inv pauseID :
  post (startSidecars b inv pauseID) (fun t r => leaves (map rs_containerID r.1) t /\
    (exists m, reported (map sc_Name (ts_Sidecars (inv_Task inv))) t (alive r.1) m) /\
    (real_ids t -> Forall (fun id => is_set id = true) (map rs_containerID r.1))).
Proof.
  unfold startSidecars. apply post_bind. post_use start_each_spec. intros t [out err] (new & Hout & Hl & Hf & Hs & He & Hfirst & Hr).
  simpl in Hout. subst out. cbn [fst snd].
  assert (forall t', real_ids (t ++ t') -> Forall (fun id => is_set id = true) (map rs_containerID new)) as Hids.
  { intros t' [Ht _]%Forall_app. apply Forall_fmap. eapply Forall_impl; [by apply Hr|done]. }
  assert (exists m, reported (map sc_Name (ts_Sidecars (inv_Task inv))) t (alive new) m) as (m & Hrep).
  { rewrite (alive_unterminated _ Hf). destruct err as [e|]; simpl in He.
    - destruct He as (sc & rest & Hn & He). exists (length new). rewrite Hn.
      assert (forall k, take (k + length new) (map rs_name new ++ sc :: rest) = map rs_name new ++ take k (sc :: rest)) as Htake.
      { intros k. rewrite take_app_ge by (rewrite length_map; lia). rewrite length_map. do 2 f_equal. lia. }
      split_and!; [|rewrite He| |done].
      + pose proof (Htake 0) as H0'. simpl in H0'. by rewrite Hs, H0', app_nil_r.
      + pose proof (Htake 1) as H1'. simpl in H1'. rewrite H1'. simpl. by rewrite Permutation_cons_append.
      + rewrite length_app, length_map. lia.
    - destruct He as [Hn He]. exists (length new). unfold reported. rewrite <-Hn, !take_ge by (rewrite length_map; lia).
      split_and!; [done|by rewrite He|by rewrite length_map|done]. }
  destruct err as [e|].
  { apply post_ret. rewrite app_nil_r. split_and!; [done|by exists m|]. intros Ht. apply (Hids []). by rewrite app_nil_r. }
  assert (forall t' l', accounts new t' l' -> leaves (map rs_containerID l') (t ++ t') /\
    (exists m, reported (map sc_Name (ts_Sidecars (inv_Task inv))) (t ++ t') (alive l') m) /\
    (real_ids (t ++ t') -> Forall (fun id => is_set id = true) (map rs_containerID l'))) as Hacc.
  { intros t' l' Ha. pose proof Ha as (Hq & Hid & _). rewrite Hid. split_and!; [|exists m; by eapply reported_accounts|apply Hids].
    rewrite <-(app_nil_r (map _ new)). by apply leaves_app. }
  apply post_bind, post_plain; [plain|]. intros t' [e|] Ht'.
  - apply post_ret. rewrite app_nil_r. by apply Hacc, accounts_plain.
  - post_use (verify_each_accounts inv new Hf). intros t'' r Ht''. apply Hacc. by eapply accounts_app; [apply accounts_plain|].
Qed.

Lemma stop_one_spec inv g rs :
  post (stop_one inv g rs) (fun t _ =>
    (forall o x, x ∈ left_behind o t -> x ∈ o /\ (x = rs_containerID rs -> x = "")) /\ omap sidecar_start t = [] /\
    (is_set (rs_containerID rs) = true -> omap sidecar_end t = alive [rs])).
Proof.
  unfold stop_one. destruct (is_set (rs_containerID rs)) eqn:Hset.
  - apply post_bind, post_plain; [unfold stop_exit; plain|]. intros t1 exit Ht1.
    apply post_bind, post_plain; [plain|]. intros t2 drained Ht2. repeat post_step.
    destruct (plain_events _ (proj2 (Forall_app _ _ _) (conj Ht1 Ht2))) as (Hl & Hs & He & _).
    assert (forall t3, quiet_trace t3 \/ (exists task name ex st msg u, t3 = [Ev (EmitSidecarEnd task name ex st msg) u]) ->
      (forall o y, y ∈ left_behind o (t1 ++ t2 ++ Ev (ContainerRemove (rs_containerID rs)) x :: t3) ->
        y ∈ o /\ (y = rs_containerID rs -> y = "")) /\
      omap sidecar_start (t1 ++ t2 ++ Ev (ContainerRemove (rs_containerID rs)) x :: t3) = [] /\
      omap sidecar_end (t1 ++ t2 ++ Ev (ContainerRemove (rs_containerID rs)) x :: t3) = omap sidecar_end t3) as Hgen.
    { intros t3 Ht3. rewrite (assoc_L (++)). assert ((forall o, left_behind o t3 = o) /\ omap sidecar_start t3 = []) as [H3 H3'].
      { destruct Ht3 as [Ht3|(?&?&?&?&?&?& ->)]; [|done]. destruct (plain_events t3 Ht3) as (? & ? & _). done. }
      split_and!.
      - intros o y. rewrite left_behind_app, Hl. change (left_behind o (?e :: t3)) with (left_behind (leak_step o e) t3).
        rewrite H3. unfold leak_step, created; simpl. rewrite elem_of_filter_ne. tauto.
      - rewrite omap_app, Hs. exact H3'.
      - by rewrite omap_app, He. }
    unfold alive. simpl. destruct (rs_terminated rs); simpl.
    + apply post_ret. destruct (Hgen []) as (G1 & G2 & G3); [left; constructor|]. split_and!; [done..|]. by rewrite G3.
    + destruct (exit =? 0)%Z; unfold emit_end; repeat post_step;
        match goal with |- context [Ev (EmitSidecarEnd ?t ?n ?e ?s ?m) ?u] =>
          destruct (Hgen [Ev (EmitSidecarEnd t n e s m) u]) as (G1 & G2 & G3); [by right; repeat eexists|]
        end; (split_and!; [exact G1|exact G2|]; intros _; exact G3).
  - apply post_ret. unfold left_behind. simpl. split_and!; [|done|done]. intros o x Hx. split; [done|]. intros ->.
    unfold is_set in Hset. by apply negb_false_iff, String.eqb_eq in Hset.
Qed.

Lemma stopSidecars_spec b inv l :
  post (stopSidecars b inv l) (fun t _ =>
    (forall o x, x ∈ left_behind o t -> x ∈ o /\ (x ∈ map rs_containerID l -> x = "")) /\ omap sidecar_start t = [] /\
    (Forall (fun id => is_set id = true) (map rs_containerID l) -> omap sidecar_end t = alive l)).
Proof.
  unfold stopSidecars. cbv zeta. generalize (if (be_SidecarStopGrace b <=? 0)%Z then (30 * Second)%Z else be_SidecarStopGrace b) as g.
  intros g. apply post_bind. eapply post_mono; [|intros t a Ht; apply post_ret; rewrite app_nil_r; exact Ht].
  induction l as [|rs l IH]; cbn [mapP].
  { apply post_ret. split_and!; [|done|done]. intros o x Hx. split; [done|]. by intros ?%not_elem_of_nil. }
  apply post_bind. post_use stop_one_spec. intros t rs' (H1 & H2 & H3). apply post_bind. post_use IH. intros t' l' (H1' & H2' & H3').
  apply post_ret. rewrite app_nil_r. split_and!.
  - intros o x. rewrite left_behind_app. intros [Hx Hx']%H1'. apply H1 in Hx as [Hx Hx'']. split; [done|].
    cbn [map]. rewrite elem_of_cons. tauto.
  - by rewrite omap_app, H2, H2'.
  - cbn [map]. intros [Hid Hids]%Forall_cons. rewrite omap_app, H3, H3' by done. by rewrite <-(alive_app [rs] l).
Qed.

Lemma startPause_spec b inv :
  post (startPause b inv) (fun t r => leaves (match r with Ok id => [id] | Err _ => [] end) t /\
    omap sidecar_start t = [] /\ omap sidecar_end t = []).
Proof.
  unfold startPause. apply post_try, post_wrap, post_plain; [plain|]. intros t [u|e] Ht; cbn [wrap_err].
  - destruct (plain_events t Ht) as (_ & Hs & He & _). post_use create_started_spec. intros t' r (H1 & H2 & H3 & _).
    rewrite !omap_app, Hs, He. split_and!; [|done|done]. apply (leaves_app []); [by apply leaves_plain|done].
  - destruct (plain_events t Ht) as (_ & Hs & He & _). by split_and!; [apply leaves_plain|..].
Qed.

(** The pause container was made, and runs. *)
Definition pause_up inv (t : list (ev DockerE)) : Prop :=
  exists cfg hc id, Ev (ContainerCreate cfg hc (pauseContainerName inv)) (Ok id) ∈ t /\ Ev (ContainerStart id) (Ok tt) ∈ t.

Definition image_call {X} (e : DockerE X) : Prop :=
  match e with ImageInspect _ | RegistryAuth _ | ImagePull _ _ => True | _ => False end.

Lemma ensureImage_image img policy : calls (fun X (e : DockerE X) => image_call e) (ensureImage img policy).
Proof.
  unfold ensureImage. cbv zeta. generalize (if String.eqb policy "" then "IfNotPresent" else policy) as pol. intros pol.
  destruct (String.eqb pol "Never"), (String.eqb pol "IfNotPresent"); repeat (constructor || intros []).
Qed.

Lemma pause_up_image inv t t' : Forall (fun e => image_call (ev_call e)) t -> pause_up inv (t ++ t') -> pause_up inv t'.
Proof.
  intros Ht (cfg & hc & id & [H1|H1]%elem_of_app & [H2|H2]%elem_of_app);
    try by (rewrite List.Forall_forall in Ht; rewrite list_elem_of_In in *; destruct (Ht _ H1) || destruct (Ht _ H2)).
  by exists cfg, hc, id.
Qed.

Definition start_ok (e : ev DockerE) : bool :=
  match ev_call e in DockerE X return X -> bool with ContainerStart _ => is_ok | _ => fun _ => false end (ev_answer e).

Lemma start_ok_in t id : Ev (ContainerStart id) (Ok tt) ∈ t -> existsb start_ok t = true.
Proof. intros Hin. apply existsb_exists. eexists. split; [by apply list_elem_of_In|done]. Qed.

Lemma startPause_up b inv :
  post (startPause b inv) (fun t r => match r with Ok _ => pause_up inv t | Err _ => ~ pause_up inv t end).
Proof.
  unfold startPause. apply post_try, post_wrap. post_use (calls_post _ _ (ensureImage_image (be_pauseImg b) "IfNotPresent")).
  assert (forall t, Forall (fun e => image_call (ev_call e)) t -> ~ pause_up inv t) as Hno.
  { intros t Ht Hp. rewrite <-(app_nil_r t) in Hp. apply pause_up_image in Hp as (cfg & hc & id & Hin & _); [|done]. by apply not_elem_of_nil in Hin. }
  intros t [u|e] Ht; cbn [wrap_err]; [|by apply Hno]. unfold create_started. repeat post_step.
  destruct x as [id|e]; cbn [wrap_err]; repeat post_step.
  - destruct x as [[]|e]; cbn [wrap_err]; repeat post_step.
    + eexists _, _, id. split; apply elem_of_app; right; [by constructor|by do 2 constructor].
    + intros (cfg & hc & id' & _ & Hs)%pause_up_image; [|done]. by apply start_ok_in in Hs.
  - intros (cfg & hc & id' & _ & Hs)%pause_up_image; [|done]. by apply start_ok_in in Hs.
Qed.

Lemma stopPause_spec id :
  post (stopPause id) (fun t _ => (forall o x, x ∈ left_behind o t -> x ∈ o /\ (x = id -> x = "")) /\
    omap sidecar_start t = [] /\ omap sidecar_end t = []).
Proof.
  unfold stopPause. destruct (is_set id) eqn:Hid; repeat post_step.
  - split_and!; [|done|done]. intros o y. unfold left_behind. simpl. unfold leak_step, created; simpl.
    rewrite elem_of_filter_ne. tauto.
  - split_and!; [|done|done]. intros o y Hy. split; [done|]. intros ->.
    unfold is_set in Hid. by apply negb_false_iff, String.eqb_eq in Hid.
Qed.

Lemma left_behind_set o t : "" ∉ o -> "" ∉ left_behind o t.
Proof.
  revert o; induction t as [|e t IH]; intros o Ho; [done|]. cbn [left_behind foldl]. apply IH.
  unfold leak_step. assert ("" ∉ match removed e with Some id => List.filter (fun x => negb (String.eqb x id)) o | None => o end) as Ho'.
  { destruct (removed e); [|done]. rewrite elem_of_filter_ne. tauto. }
  destruct (created e) as [id|] eqn:Hc; [|done]. rewrite elem_of_app, list_elem_of_singleton. intros [?|<-]; [done|].
  destruct e as [X c x]. unfold created in Hc. simpl in Hc. destruct c; try done. destruct x as [i|]; [|done].
  destruct (is_set i) eqn:Hi; by simplify_eq.
Qed.

(** What every run of a Task does with its containers and its sidecars. *)
Definition task_trace inv (t : list (ev DockerE)) : Prop :=
  let names := map sc_Name (ts_Sidecars (inv_Task inv)) in
  (forall x, x ∈ left_behind [] t -> x = "") /\
  (real_ids t -> exists m, m <= length names /\ omap sidecar_start t = take m names /\ starts_first t /\
     (pause_up inv t -> omap sidecar_end t ≡ₚ take (S m) names) /\
     (~ pause_up inv t -> m = 0 /\ omap sidecar_end t = [])).

Lemma quiet_task_trace inv t l :
  leaves [] t -> omap sidecar_start t = [] -> omap sidecar_end t ++ alive l ≡ₚ alive [] ->
  ts_Sidecars (inv_Task inv) = [] \/ ~ pause_up inv t -> task_trace inv t.
Proof.
  intros Ht Hs He Hno. split; [intros x Hx; apply Ht in Hx; by apply not_elem_of_nil in Hx|]. intros _.
  exists 0. change (alive []) with (@nil string) in He. apply Permutation_nil_r in He. apply app_eq_nil in He as [He _].
  split_and!; [lia|done|by apply starts_first_none| |done]. intros Hp. rewrite He. by destruct Hno as [->|[]].
Qed.

Lemma run_with_sidecars_trace b inv :
  post (run_with_sidecars b inv) (fun t _ => task_trace inv t).
Proof.
  unfold run_with_sidecars. apply post_bind, post_wrap. post_use (post_and _ _ _ (startPause_spec b inv) (startPause_up b inv)).
  intros t0 [id|e] [(Hl0 & Hs0 & He0) Hup]; cbn [wrap_err].
  2: { apply post_ret. rewrite app_nil_r. apply (quiet_task_trace _ _ []); [done|done|by rewrite He0|by right]. }
  apply post_defer, post_bind. post_use startSidecars_spec. intros t1 [sc err] (Hl1 & (m & Hrep) & Hids). cbn [fst snd] in *.
  apply post_bind. set (k := match err with Some _ => _ | None => _ end).
  assert (post k (fun t r => accounts sc t r.2)) as Hk.
  { subst k. destruct err as [e|]; [apply post_ret, accounts_nil|]. apply post_bind. post_use run_body_accounts.
    intros t [s|r sc'] Ht; apply post_ret; by rewrite app_nil_r. }
  post_use Hk. clear k Hk. intros t2 [res sc'] Ha. cbn [fst snd] in *. apply post_bind. post_use stopSidecars_spec.
  intros t3 [] (Hl3 & Hs3 & He3). apply post_ret. rewrite app_nil_r. post_use stopPause_spec. intros t4 [] (Hl4 & Hs4 & He4).
  pose proof Ha as (Hl2 & Hid & _). rewrite Hid in Hl3, He3. split.
  - intros x Hx. rewrite !left_behind_app in Hx. apply Hl4 in Hx as [Hx Hp]. apply Hl3 in Hx as [Hx Hsc].
    apply Hl2 in Hx. rewrite app_nil_r in Hx. apply Hl1 in Hx. apply elem_of_app in Hx as [Hx|?]; [|by apply Hsc].
    apply Hl0 in Hx. apply list_elem_of_singleton in Hx. auto.
  - intros [_ [[Hr _]%Forall_app _]%Forall_app]%Forall_app. exists m.
    pose proof (reported_accounts _ _ _ _ _ _ Hrep Ha) as (H1 & H2 & H3 & H4). specialize (He3 (Hids Hr)).
    split_and!; [done| | | |].
    + rewrite omap_app in H1. rewrite !omap_app, Hs0, Hs3, Hs4, !app_nil_r. exact H1.
    + apply starts_first_app_l; [done|]. rewrite (assoc_L (++) t1). by do 2 (apply starts_first_app_r; [|done]).
    + intros _. rewrite omap_app, <-(assoc_L (++)) in H2. rewrite !omap_app, He0, He3, He4, !app_nil_r. exact H2.
    + intros []. destruct Hup as (cfg & hc & i & Hc & Hst). exists cfg, hc, i. rewrite !elem_of_app. auto.
Qed.

Lemma RunTask_trace b inv :
  post (RunTask b inv) (fun t _ => task_trace inv t).
Proof.
  unfold RunTask. destruct (docker_support (inv_Task inv)).
  { apply post_ret. apply (quiet_task_trace _ _ []); [apply leaves_nil|done..|]. right.
    intros (cfg & hc & id & Hin & _). by apply not_elem_of_nil in Hin. }
  destruct (ts_Sidecars (inv_Task inv)) as [|sc scs] eqn:Hsc; [|apply run_with_sidecars_trace].
  apply post_bind. post_use run_body_accounts. intros t f (H1 & H2 & H3 & H4). apply post_ret. rewrite app_nil_r.
  eapply quiet_task_trace; [done..|]. by left.
Qed.
End Tasks.

(** ** Steps *)
Section StepResults.
Context {K : CoreV1} {SV : SecurityView} `{MapRange} `{FloatScan}.
Implicit Types (b : Backend) (inv : TaskInvocation).

(** The Step's container was made under its name, and the wait for it gave [code]. *)
Definition exited inv (t : list (ev DockerE)) (st : Step) (code : Z) : Prop :=
  exists cfg hc id timeout w,
    Ev (ContainerCreate cfg hc (stepContainerName inv (st_Name st))) (Ok id) ∈ t /\
    Ev (ContainerWait id timeout) w ∈ t /\ exit_of w = Some code.

(** The loop over the Steps goes past a Step: it exited with 0, or may fail. *)
Definition passed inv t (st : Step) (sr : StepResult) : Prop :=
  sr_Name sr = st_Name st /\ exited inv t st (sr_ExitCode sr) /\
  (sr_Status sr = "succeeded" /\ sr_ExitCode sr = 0%Z \/
   sr_Status sr = "failed" /\ sr_ExitCode sr <> 0%Z /\ st_OnError st = "continue").

(** The Step that ends the Task. *)
Definition broke inv t (st : Step) (sr : StepResult) : Prop :=
  sr_Name sr = st_Name st /\ exited inv t st (sr_ExitCode sr) /\
  sr_Status sr = "failed" /\ sr_ExitCode sr <> 0%Z /\ st_OnError st <> "continue".

(** [r] reports the run of [l], with the calls [t], behind the results [before]. *)
Definition stopped inv t (l : list Step) (before : list StepResult) (r : DockerResult) : Prop :=
  exists done st rest rs last,
    l = done ++ st :: rest /\ Forall2 (passed inv t) done rs /\ dr_Steps r = before ++ rs ++ last /\ dr_Results r = ∅ /\
    (dr_Status r = "failed" /\ dr_Err r = None /\ (exists sr, last = [sr] /\ broke inv t st sr) /\
     omap exit_code t = map sr_ExitCode (rs ++ last) \/
     dr_Status r = "infrafailed" /\ is_Some (dr_Err r) /\ length last <= 1).

Lemma substituteStepRefs_name st m st' :
  substituteStepRefs st m = Ok st' -> st_Name st' = st_Name st /\ st_OnError st' = st_OnError st.
Proof. unfold substituteStepRefs. do 5 bind_ok. destruct (collect _ _); [|done]. by intros [= <-]. Qed.

(** [t'] is [t] with other calls around it. *)
Definition within (t t' : list (ev DockerE)) : Prop := t ⊆ t' /\ omap exit_code t' = omap exit_code t.

Lemma within_pre t t' : omap exit_code t = [] -> within t' (t ++ t').
Proof. intros Ht. split; [by apply list_subseteq_app_r|]. by rewrite omap_app, Ht. Qed.

Lemma within_post t t' : omap exit_code t' = [] -> within t (t ++ t').
Proof. intros Ht. split; [by apply list_subseteq_app_l|]. by rewrite omap_app, Ht, app_nil_r. Qed.

Lemma exited_mono inv t t' st code : t ⊆ t' -> exited inv t st code -> exited inv t' st code.
Proof. intros Ht (cfg & hc & id & tm & w & H1 & H2 & H3). exists cfg, hc, id, tm, w. auto. Qed.

Lemma passed_mono inv t t' st sr : t ⊆ t' -> passed inv t st sr -> passed inv t' st sr.
Proof. intros Ht (H1 & H2 & H3). split_and!; [done|by apply (exited_mono _ _ _ _ _ Ht)|done]. Qed.

Lemma all_passed_mono inv t t' l rs : t ⊆ t' -> Forall2 (passed inv t) l rs -> Forall2 (passed inv t') l rs.
Proof. intros Ht Hl. eapply Forall2_impl; [exact Hl|]. intros st sr. by apply passed_mono. Qed.

Lemma broke_mono inv t t' st sr : t ⊆ t' -> broke inv t st sr -> broke inv t' st sr.
Proof. intros Ht (H1 & H2 & H3). split_and!; [done|by apply (exited_mono _ _ _ _ _ Ht)|tauto..]. Qed.

Lemma stopped_within inv t t' l before r : within t t' -> stopped inv t l before r -> stopped inv t' l before r.
Proof.
  intros [Ht Hc] (dn & st & rest & rs & last & Hl & Hp & Hs & Hr & Hcase). exists dn, st, rest, rs, last.
  split_and!; [done|by apply (all_passed_mono _ _ _ _ _ Ht)|done|done|]. destruct Hcase as [(H1 & H2 & (sr & -> & Hb) & H4)|?]; [left|by right].
  split_and!; [done|done| |by rewrite Hc]. exists sr. split; [done|by apply (broke_mono _ _ _ _ _ Ht)].
Qed.

(** One Step: the loop goes on past it, or ends there. *)
Definition step_flow inv (st : Step) (s : task_state) (t : list (ev DockerE)) (f : flow) : Prop :=
  match f with
  | Next s' => exists sr, tk_Steps s' = tk_Steps s ++ [sr] /\ passed inv t st sr /\ omap exit_code t = [sr_ExitCode sr]
  | Return r _ => stopped inv t [st] (tk_Steps s) r
  end.

Lemma step_flow_within inv st s t t' f : within t t' -> step_flow inv st s t f -> step_flow inv st s t' f.
Proof.
  intros Ht. destruct f as [s'|r sc]; [|by apply stopped_within]. intros (sr & H1 & H2 & H3). exists sr.
  destruct Ht as [Ht ->]. split_and!; [done|by apply (passed_mono _ _ _ _ _ Ht)|done].
Qed.

Lemma stopped_here inv t st before last e :
  length last <= 1 -> stopped inv t [st] before (mkDockerResult "infrafailed" (before ++ last) ∅ (Some e)).
Proof.
  intros Hl. exists [], st, [], [], last. split_and!; try done. right. split_and!; [done|by exists e|done].
Qed.

Lemma post_any {A} (p : docker A) (Q : list (ev DockerE) -> A -> Prop) : (forall t a, Q t a) -> post p Q.
Proof. intros HQ t a _. apply HQ. Qed.

(** An error before a Step ends the Task there. *)
Lemma check_flow {A} inv st s last (p : docker (result A)) k :
  length last <= 1 -> plain_prog p -> (forall a, post (k a) (step_flow inv st s)) ->
  post (check_ s (tk_Steps s ++ last) p k) (step_flow inv st s).
Proof.
  intros Hl Hp Hk. apply post_bind, post_plain; [done|]. intros t [a|e] Ht; [|by apply post_ret, stopped_here].
  post_use Hk. intros t' f. apply step_flow_within, within_pre, plain_codes, Ht.
Qed.

Lemma check_flow_nil {A} inv st s (p : docker (result A)) k :
  plain_prog p -> (forall a, post (k a) (step_flow inv st s)) -> post (check_ s (tk_Steps s) p k) (step_flow inv st s).
Proof. intros Hp Hk. rewrite <-(app_nil_r (tk_Steps s)). apply check_flow; [simpl; lia|done|done]. Qed.

(** A Step's container gives its exit code, or the Step fails without one. *)
Definition step_code inv (st : Step) (t : list (ev DockerE)) (r : result Z) : Prop :=
  match r with Ok code => omap exit_code t = [code] /\ exited inv t st code | Err _ => omap exit_code t = [] end.

Lemma run_container_code inv st cfg hc timeout : post (run_container inv st cfg hc timeout) (step_code inv st).
Proof.
  unfold run_container, await_step. repeat post_step. destruct x as [id|e]; cbn [wrap_err]; [|done].
  repeat post_step. destruct x as [[]|e]; cbn [wrap_err]; repeat post_step; [|done].
  destruct x as [[]|e]; cbn [wrap_err]; repeat post_step; [|done].
  assert (forall code w t, exit_of w = Some code -> Ev (ContainerCreate cfg hc (stepContainerName inv (st_Name st))) (Ok id) ∈ t ->
    Ev (ContainerWait id timeout) w ∈ t -> exited inv t st code) as Hex by (intros code w t ? ? ?; by exists cfg, hc, id, timeout, w).
  destruct x as [[e|]|code| |e]; repeat post_step; cbn [step_code app]; try done; (split; [done|]).
  - apply (Hex _ (WaitErr None)); [done|repeat constructor..].
  - apply (Hex _ (WaitStatus code)); [done|repeat constructor..].
  - apply (Hex _ WaitTimeout); [done|repeat constructor..].
Qed.

Lemma step_code_pre inv st t t' r : Forall (fun e => plain_call (ev_call e)) t -> step_code inv st t' r -> step_code inv st (t ++ t') r.
Proof.
  intros Ht. unfold step_code. rewrite omap_app, (plain_codes _ Ht). destruct r as [code|]; [|done]. intros [H1 H2].
  split; [done|]. eapply exited_mono; [|done]. by apply list_subseteq_app_r.
Qed.

Lemma try_code {A} inv st (p : docker (result A)) k :
  plain_prog p -> (forall a, post (k a) (step_code inv st)) -> post (try_ p k) (step_code inv st).
Proof.
  intros Hp Hk. apply post_try, post_plain; [done|]. intros t [a|e] Ht; [|by apply plain_codes].
  post_use Hk. intros t' r. by apply step_code_pre.
Qed.

Lemma runStep_code b inv st pauseID : post (runStep b inv st pauseID) (step_code inv st).
Proof. unfold runStep. do 4 (apply try_code; [plain|intro]). apply run_container_code. Qed.

(** Behind the Step's container. *)
Lemma checkSidecarLiveness_no_wait inv l pauseID : calls (fun X (e : DockerE X) => no_wait e) (checkSidecarLiveness inv l pauseID).
Proof.
  unfold checkSidecarLiveness. apply calls_bind.
  - destruct (is_set pauseID); [|done]. split; [done|]. by intros [].
  - intros alive. apply calls_bind; [|done]. induction l as [|rs l IH]; [done|]. simpl. apply calls_bind.
    + unfold check_one, emit_end. destruct (rs_terminated rs); [done|]. split; [done|]. intros [[st|]|]; [|done|by repeat constructor].
      simpl. destruct (cs_Running st), (cs_ExitCode st =? 0)%Z; simpl; auto.
    + intros rs'. by apply calls_bind.
Qed.

Lemma after_step_flow inv pauseID s st raw exitCode t0 :
  st_Name st = st_Name raw -> st_OnError st = st_OnError raw -> omap exit_code t0 = [exitCode] -> exited inv t0 raw exitCode ->
  post (after_step inv pauseID s st exitCode) (fun t f => step_flow inv raw s (t0 ++ t) f).
Proof.
  intros Hn Ho H1 H2. unfold after_step. apply post_bind, post_plain; [plain|]. intros t rs Ht.
  assert (within t0 (t0 ++ t)) as Hin by by apply within_post, plain_codes.
  destruct (Z.eqb_spec exitCode 0) as [->|Hne].
  - assert (passed inv t0 raw (mkStepResult (st_Name st) step_succeeded 0)) as Hp by (split_and!; [done|done|by left]).
    destruct (nonempty_list _ || _).
    + apply post_bind. post_use (calls_post _ _ (checkSidecarLiveness_no_wait inv (tk_sidecars s) pauseID)). intros t' [al sc] Ht'.
      destruct al; apply post_ret; [|by apply stopped_here; simpl; lia]. rewrite app_nil_r, (assoc_L (++)).
      eapply step_flow_within; [apply within_post; by apply no_wait_codes|]. eapply step_flow_within; [done|]. by eexists.
    + apply post_ret. rewrite app_nil_r. eapply step_flow_within; [done|]. by eexists.
  - destruct (String.eqb_spec (st_OnError st) "continue"); apply post_ret; rewrite app_nil_r; (eapply step_flow_within; [done|]).
    + eexists. split; [done|]. split; [|done]. split_and!; [done|done|]. right. split_and!; [done|done|congruence].
    + exists [], raw, [], [], [mkStepResult (st_Name st) step_failed exitCode]. split_and!; try done. left.
      split_and!; [done..| |done]. eexists. split; [done|]. split_and!; [done..|congruence].
Qed.

Lemma run_one_step_flow b inv pauseID s st : post (run_one_step b inv pauseID s st) (step_flow inv st s).
Proof.
  unfold run_one_step, check_ at 1. apply post_bind, post_ret.
  destruct (substituteStepRefs st (tk_stepResults s)) as [st'|e] eqn:Hst; cbn [wrap_err].
  2: { apply post_ret. rewrite <-(app_nil_r (tk_Steps s)). apply (stopped_here inv [] st (tk_Steps s) []). simpl; lia. }
  apply substituteStepRefs_name in Hst as [Hn Ho].
  eapply post_mono; [|intros t f Hf; exact Hf]. apply check_flow; [simpl; lia|plain|]. intros _.
  do 2 (apply check_flow_nil; [auto using when_remote_plain, calls_wrap with docker|intros _]).
  apply post_bind. post_use runStep_code. intros t [code|e] Hc; [|by apply post_ret, stopped_here; simpl; lia].
  destruct Hc as [H1 H2]. assert (exited inv t st code) as H2' by (unfold exited in *; by rewrite <-Hn).
  apply post_bind, post_plain; [by apply calls_wrap, when_remote_plain, pull_plain|]. intros t' [u|e] Ht'.
  - eapply post_mono; [apply (after_step_flow inv pauseID s st' st code (t ++ t') Hn Ho)|].
    + by rewrite omap_app, H1, (plain_codes _ Ht').
    + eapply exited_mono; [|done]. by apply list_subseteq_app_l.
    + intros t'' f Hf. cbn beta in Hf. by rewrite <-(assoc_L (++)) in Hf.
  - apply post_ret, stopped_here. simpl; lia.
Qed.

Lemma stopped_cons inv t0 t l before sr st r :
  omap exit_code t0 = [sr_ExitCode sr] -> passed inv t0 st sr -> stopped inv t l (before ++ [sr]) r ->
  stopped inv (t0 ++ t) (st :: l) before r.
Proof.
  intros Hc Hp (dn & st' & rest & rs & last & -> & Hf & Hs & Hr & Hcase). exists (st :: dn), st', rest, (sr :: rs), last.
  assert (t ⊆ t0 ++ t) as Hsub by by apply list_subseteq_app_r.
  split_and!; [done| | |done|].
  - constructor; [|by apply (all_passed_mono _ _ _ _ _ Hsub)]. eapply passed_mono; [|done]. by apply list_subseteq_app_l.
  - rewrite Hs, <-!(assoc_L (++)). done.
  - destruct Hcase as [(H1 & H2 & (sr' & -> & Hb) & H4)|?]; [left|by right]. split_and!; [done|done| |].
    + exists sr'. split; [done|by apply (broke_mono _ _ _ _ _ Hsub)].
    + by rewrite omap_app, Hc, H4.
Qed.

Lemma run_steps_flow b inv pauseID s l :
  post (run_steps b inv pauseID s l) (fun t f =>
    match f with
    | Next s' => exists rs, tk_Steps s' = tk_Steps s ++ rs /\ Forall2 (passed inv t) l rs /\ omap exit_code t = map sr_ExitCode rs
    | Return r _ => stopped inv t l (tk_Steps s) r
    end).
Proof.
  revert s; induction l as [|st l IH]; intros s; simpl; [apply post_ret; exists []; by rewrite app_nil_r|].
  apply post_bind. post_use run_one_step_flow. intros t [s'|r sc] Hf; simpl in Hf.
  - destruct Hf as (sr & Hs & Hp & Hc). post_use IH. intros t' [s''|r sc].
    + intros (rs & Hs' & Hrs & Hc'). exists (sr :: rs). split_and!; [by rewrite Hs', Hs, <-(assoc_L (++))| |].
      * constructor; [eapply passed_mono; [|done]; by apply list_subseteq_app_l|].
        eapply all_passed_mono; [|done]. by apply list_subseteq_app_r.
      * by rewrite omap_app, Hc, Hc'.
    + rewrite Hs. by apply stopped_cons.
  - apply post_ret. rewrite app_nil_r. destruct Hf as (dn & st' & rest & rs & last & Hl & Hf). destruct dn as [|? [|]]; try done.
    injection Hl as -> <-. exists [], st', l, rs, last. split; [done|exact Hf].
Qed.

(** The files that were read. *)
Definition result_read (dir name v : string) (t : list (ev DockerE)) : Prop :=
  exists data, Ev (ReadFile (Join [dir; name])) (Ok data) ∈ t /\ v = trim_newlines data.

Lemma read_results_spec dir decls :
  post (read_results dir decls) (fun t m => forall n v, m !! n = Some v ->
    n ∈ map rs_Name decls /\ result_read dir n v t).
Proof.
  unfold read_results.
  enough (forall (m : gmap string string), post (foldP (fun (m : gmap string string) d =>
    r ← call (ReadFile (Join [dir; rs_Name d]));
    Ret match r with Ok data => <[rs_Name d := trim_newlines data]> m | Err _ => m end) m decls)
    (fun t m' => forall n v, m' !! n = Some v -> m !! n = Some v \/ n ∈ map rs_Name decls /\ result_read dir n v t)) as Hgen.
  { post_use Hgen. intros t m' Hm n v Hn. apply Hm in Hn as [Hn|?]; [by rewrite lookup_empty in Hn|done]. }
  induction decls as [|d decls IH]; intros m; simpl; [apply post_ret; eauto|].
  repeat post_step. post_use IH. intros t m' Hm n v Hn. apply Hm in Hn as [Hn|[Hin (data & Hd & ->)]].
  - destruct x as [data|e]; [|by left]. apply lookup_insert_Some in Hn as [[<- <-]|[_ Hn]]; [right|by left].
    split; [constructor|]. exists data. split; [constructor|done].
  - right. split; [by constructor|]. exists data. split; [by constructor|done].
Qed.

(** The statuses of a Task, with what they say of its Steps. *)
Definition verdict inv (t : list (ev DockerE)) (res : DockerResult) : Prop :=
  (dr_Status res = "succeeded" /\ dr_Err res = None /\ Forall2 (passed inv t) (ts_Steps (inv_Task inv)) (dr_Steps res) /\
   omap exit_code t = map sr_ExitCode (dr_Steps res) /\
   forall n v, dr_Results res !! n = Some v ->
     n ∈ map rs_Name (ts_Results (inv_Task inv)) /\ result_read (inv_ResultsHost inv) n v t) \/
  stopped inv t (ts_Steps (inv_Task inv)) [] res \/
  (dr_Status res = "infrafailed" /\ is_Some (dr_Err res) /\ dr_Results res = ∅ /\
   (dr_Steps res = [] \/ Forall2 (passed inv t) (ts_Steps (inv_Task inv)) (dr_Steps res))).

Lemma verdict_within inv t t' res : within t t' -> verdict inv t res -> verdict inv t' res.
Proof.
  intros [Ht Hc] [(H1 & H2 & H3 & H4 & H5)|[Hs|(H1 & H2 & H3 & H4)]]; [left|right; left; by eapply stopped_within|right; right].
  - split_and!; [done|done|by apply (all_passed_mono _ _ _ _ _ Ht)|by rewrite Hc|]. intros n v Hn.
    apply H5 in Hn as [? (data & Hd & ->)]. split; [done|]. exists data. auto.
  - split_and!; [done..|]. destruct H4 as [?|?]; [by left|right]. by apply (all_passed_mono _ _ _ _ _ Ht).
Qed.

Lemma verdict_infra inv t steps e :
  steps = [] \/ Forall2 (passed inv t) (ts_Steps (inv_Task inv)) steps ->
  verdict inv t (mkDockerResult "infrafailed" steps ∅ (Some e)).
Proof. intros Hs. right; right. split_and!; [done|by exists e|done|done]. Qed.

(** [check_] where the error is an infrastructure failure of the whole Task. *)
Lemma check_verdict {A} inv s (p : docker (result A)) k :
  plain_prog p -> (forall a, post (k a) (fun t f => verdict inv t (returned f).1)) ->
  post (check_ s [] p k) (fun t f => verdict inv t (returned f).1).
Proof.
  intros Hp Hk. apply post_bind, post_plain; [done|]. intros t [a|e] Ht; [|by apply post_ret, verdict_infra; left].
  post_use Hk. intros t' f. by apply verdict_within, within_pre, plain_codes.
Qed.

Lemma run_body_verdict b inv pauseID sc :
  post (run_body b inv pauseID (mktask_state [] ∅ sc)) (fun t f => verdict inv t (returned f).1).
Proof.
  unfold run_body. do 2 (apply check_verdict; [auto using when_remote_plain, calls_wrap with docker|intros _]).
  apply post_bind. post_use run_steps_flow. intros t [s|r sc'] Hf; [|by apply post_ret; rewrite app_nil_r; right; left].
  destruct Hf as (rs & Hs & Hrs & Hc). simpl in Hs. rewrite Hs. unfold check_.
  apply post_bind, post_plain; [by apply calls_wrap, when_remote_plain, pull_plain|]. intros t1 [u|e] Ht1.
  - apply post_bind. eapply post_mono; [apply post_and; [apply read_results_spec|apply calls_post, read_results_plain]|].
    intros t2 m [Hm Ht2]. apply post_ret. rewrite app_nil_r.
    assert (within t (t ++ t1 ++ t2)) as [Hsub Hcode].
    { apply within_post. by rewrite omap_app, (plain_codes _ Ht1), (plain_codes _ Ht2). }
    left. split_and!; [done|done|by apply (all_passed_mono _ _ _ _ _ Hsub)|by rewrite Hcode|]. intros n v Hn.
    apply Hm in Hn as [? (data & Hd & ->)]. split; [done|]. exists data. rewrite !elem_of_app. auto.
  - apply post_ret, verdict_infra. right. eapply all_passed_mono; [|exact Hrs]. by apply list_subseteq_app_l.
Qed.

(** Nothing around the Steps waits for a container. *)
Lemma no_wait_codes_post {A} (p : docker A) : calls (fun X e => no_wait e) p -> post p (fun t _ => omap exit_code t = []).
Proof. intros Hp. eapply post_mono; [by apply calls_post|]. intros t a. apply no_wait_codes. Qed.

Lemma create_started_no_wait what cfg hc name : calls (fun X (e : DockerE X) => no_wait e) (create_started what cfg hc name).
Proof.
  unfold create_started. apply calls_try; [by repeat constructor|]. intros id. apply calls_bind; [by repeat constructor|].
  intros []; by repeat constructor.
Qed.

Lemma startPause_no_wait b inv : calls (fun X (e : DockerE X) => no_wait e) (startPause b inv).
Proof. unfold startPause. apply calls_try; [apply plain_no_wait; plain|]. intros _. apply create_started_no_wait. Qed.

Lemma startSidecars_no_wait b inv pauseID : calls (fun X (e : DockerE X) => no_wait e) (startSidecars b inv pauseID).
Proof.
  unfold startSidecars. apply calls_bind.
  - generalize (@nil runningSidecar) as out. induction (ts_Sidecars (inv_Task inv)) as [|sc l IH]; intros out; [done|]. simpl.
    apply calls_bind; [|intros [[id logs]|e]; [by split|by repeat constructor]].
    unfold startOneSidecar. do 6 (apply calls_try; [apply plain_no_wait; plain|intro]).
    apply calls_try; [apply create_started_no_wait|]. intros id. by repeat constructor.
  - intros [out [e|]]; cbn [fst snd]; [done|]. apply calls_bind; [apply plain_no_wait; plain|]. intros [e|]; [done|].
    induction out as [|rs l IH]; [done|]. simpl. split; [done|]. intros [st|e]; simpl; [|by repeat constructor].
    destruct (default false _); [by apply calls_bind|by repeat constructor].
Qed.

Lemma stopSidecars_no_wait b inv l : calls (fun X (e : DockerE X) => no_wait e) (stopSidecars b inv l).
Proof.
  unfold stopSidecars. cbv zeta. apply calls_bind; [|done].
  generalize (if (be_SidecarStopGrace b <=? 0)%Z then (30 * Second)%Z else be_SidecarStopGrace b) as g. intros g.
  induction l as [|rs l IH]; [done|]. simpl. apply calls_bind; [|intros rs'; by apply calls_bind].
  unfold stop_one. destruct (is_set _); [|done]. apply calls_bind; [apply plain_no_wait; unfold stop_exit; plain|]. intros exit.
  apply calls_bind; [apply plain_no_wait; plain|]. intros _. split; [done|]. intros ?. simpl.
  destruct (rs_terminated rs), (exit =? 0)%Z; by repeat constructor.
Qed.

Lemma stopPause_no_wait id : calls (fun X (e : DockerE X) => no_wait e) (stopPause id).
Proof. unfold stopPause. destruct (is_set id); by repeat constructor. Qed.

Lemma RunTask_verdict b inv t res : exec (RunTask b inv) t res -> verdict inv t res.
Proof.
  enough (post (RunTask b inv) (verdict inv)) as Hp by apply Hp.
  assert (forall t e, verdict inv t (infra_result e)) as Hinfra by (intros; apply verdict_infra; by left).
  unfold RunTask. destruct (docker_support (inv_Task inv)); [by apply post_ret|].
  destruct (ts_Sidecars (inv_Task inv)); [|clear t res].
  - apply post_bind. post_use run_body_verdict. intros t' f Hf. apply post_ret. by rewrite app_nil_r.
  - unfold run_with_sidecars. apply post_bind, post_wrap. post_use (no_wait_codes_post _ (startPause_no_wait b inv)).
    intros t0 [id|e] H0'; cbn [wrap_err]; [|by apply post_ret].
    apply post_defer, post_bind. post_use (no_wait_codes_post _ (startSidecars_no_wait b inv id)). intros t1 [sc' [e|]] H1; cbn [fst snd].
    + apply post_bind, post_ret, post_bind, post_any. intros t3 []. apply post_ret, post_any. intros t4 []. apply Hinfra.
    + apply post_bind, post_bind. post_use run_body_verdict. intros t2 f Hf. apply post_ret. rewrite app_nil_r.
      apply post_bind. post_use (no_wait_codes_post _ (stopSidecars_no_wait b inv (returned f).2)). intros t3 [] H3. apply post_ret.
      post_use (no_wait_codes_post _ (stopPause_no_wait id)). intros t4 [] H4.
      eapply verdict_within; [|exact Hf]. split; [intros x Hx; rewrite !elem_of_app; tauto|].
      by rewrite !omap_app, H0', H1, H3, H4, !app_nil_r.
Qed.
End StepResults.

(** ** Properties *)
Section TaskProperties.
Context {K : CoreV1} {SV : SecurityView} `{MapRange} `{FloatScan}.

(** C10: no container outlives its Task: whatever the daemon answers, errors and
    cancellation included, the removal of every container [RunTask] created (pause
    container, sidecars, Steps) has been asked for, behind its creation, when it returns;
    so a container still exists then only if the daemon refused to remove it. *)
Theorem RunTask_no_leak b inv t res :
  exec (RunTask b inv) t res ->
  left_behind [] t = [] /\ forall id, id ∈ existing t -> refused id t.
Proof.
  intros Ht. apply RunTask_trace in Ht as [Hl _].
  assert (left_behind [] t = []) as Hleft.
  { destruct (left_behind [] t) as [|x l] eqn:E; [done|]. assert (x = "") as -> by (apply Hl; constructor).
    assert ("" ∉ left_behind [] t) as Hn by (apply left_behind_set, not_elem_of_nil). rewrite E in Hn. destruct Hn. constructor. }
  split; [done|]. intros id Hid. apply existing_left in Hid as [Hid|?]; [|done]. rewrite Hleft in Hid. by apply not_elem_of_nil in Hid.
Qed.

(** C12: the sidecar events of a Task, under a daemon that gives every container an ID: the
    first [m] sidecars are started, in order.  Where the pause container came up, each of
    these, and the next one where there is one - the one whose start failed - has exactly
    one terminal event, however it came to its end (a failed start, the start grace, a
    crash between Steps, the teardown), and no other sidecar has any; where it did not,
    there are no events.  No end is reported before the last start. *)
Theorem RunTask_sidecar_events b inv t res :
  exec (RunTask b inv) t res -> real_ids t ->
  let names := map sc_Name (ts_Sidecars (inv_Task inv)) in
  exists m, m <= length names /\ omap sidecar_start t = take m names /\ starts_first t /\
    (pause_up inv t -> omap sidecar_end t ≡ₚ take (S m) names) /\
    (~ pause_up inv t -> m = 0 /\ omap sidecar_end t = []).
Proof. intros Ht Hr. apply RunTask_trace in Ht as [_ Hm]. exact (Hm Hr). Qed.

(** C11: the status of a Task follows from its Steps' containers.  It succeeds when every
    Step ran, in order, each in a container of its name whose wait gave the exit code that
    is reported (1 for a timeout), 0 unless the Step may fail (onError: continue); it fails
    when a Step that may not fail exited with another code.  In both cases these are all
    the containers that were waited for, so that no Step ran behind the one that failed.
    Everything else is an infrastructure failure with an error, reported with the Steps
    that passed before.  The results of a Task that succeeded are declared ones, each the
    content of its file without trailing newlines; otherwise there are none. *)
Theorem RunTask_status b inv t res :
  exec (RunTask b inv) t res ->
  (dr_Status res = "succeeded" /\ dr_Err res = None /\ Forall2 (passed inv t) (ts_Steps (inv_Task inv)) (dr_Steps res) /\
   omap exit_code t = map sr_ExitCode (dr_Steps res) /\
   forall n v, dr_Results res !! n = Some v ->
     n ∈ map rs_Name (ts_Results (inv_Task inv)) /\ result_read (inv_ResultsHost inv) n v t) \/
  stopped inv t (ts_Steps (inv_Task inv)) [] res \/
  (dr_Status res = "infrafailed" /\ is_Some (dr_Err res) /\ dr_Results res = ∅ /\
   (dr_Steps res = [] \/ Forall2 (passed inv t) (ts_Steps (inv_Task inv)) (dr_Steps res))).
Proof.
  apply RunTask_verdict.
Qed.
End TaskProperties.

(** ** Example: a Task with a sidecar and two Steps *)
Section Examples.
#[local] Existing Instance core_unit.
#[local] Existing Instance default_range.

#[local] Instance ex_view : SecurityView :=
  {| security_fields := fun _ => mkSecurityFields false false None None None None None None None None None None |}.
#[local] Instance ex_scan : FloatScan := {| scan_float := fun _ => Err (lit "unused") |}.

(** A daemon that numbers its containers; the Step container [c2] exits with 3. *)
Definition ex_answer (X : Type) (e : DockerE X) (w : nat) : X * nat :=
  match e in DockerE X return X * nat with
  | ImageInspect _ => (Ok None, w)
  | RegistryAuth _ => (Ok "", w)
  | ImagePull _ _ => (Ok tt, w)
  | ContainerCreate _ _ _ => (Ok ("c" +:+ itoa (Z.of_nat w)), S w)
  | ContainerStart _ => (Ok tt, w)
  | ContainerInspect _ => (Ok (Some (mkContainerState true 0)), w)
  | ContainerLogs _ => (Ok tt, w)
  | ContainerWait id _ => (WaitStatus (if String.eqb id "c2" then 3 else 0)%Z, w)
  | ContainerStop _ _ => (Ok tt, w)
  | ContainerRemove _ => (Ok tt, w)
  | VolumeCreate _ _ => (Ok tt, w)
  | VolumeRemove _ => (Ok tt, w)
  | CopyToContainer _ _ _ => (Ok tt, w)
  | CopyFromContainer _ _ => (Ok ([], None), w)
  | MkdirTemp p => (Ok ("/tmp/" +:+ p), w)
  | MkdirAll _ _ => (Ok tt, w)
  | Chmod _ _ => (Ok tt, w)
  | WriteFile _ _ => (Ok tt, w)
  | ReadFile p => (if String.eqb p "/r/digest" then Ok ("sha" +:+ String "010" "") else Err (lit "no file"), w)
  | ReadDir _ => (Ok [("a", true); ("log", false)], w)
  | Stat _ => (StatDir, w)
  | Walk _ => (Ok [], w)
  | RemoveAll _ => (Ok tt, w)
  | OpenRoot _ => (Ok tt, w)
  | RootMkdirAll _ _ _ => (Ok tt, w)
  | RootOpen _ _ _ => (Ok tt, w)
  | RootWrite _ _ _ => (Ok tt, w)
  | RootRemove _ _ => (tt, w)
  | RootSymlink _ _ _ => (Ok tt, w)
  | WaitLogs _ => (true, w)
  | EmitSidecarStart _ _ => (tt, w)
  | EmitSidecarEnd _ _ _ _ _ => (tt, w)
  | StepLog _ _ _ _ _ => (tt, w)
  | GraceOver _ => (None, w)
  end.

(** Container [c0] is the pause container, [c1] the sidecar; Step [a] runs in [c2] and
    may fail. *)
Definition ex_step (name onError : string) : Step :=
  mkStep name "" "" None [] "alpine" ["true"] [] "" [] "" None "" None [] "" onError [] [].

Definition ex_spec (onError : string) : TaskSpec :=
  mkTaskSpec [] [mkResultSpec "digest" "" ""] [] [ex_step "a" onError; ex_step "b" ""] "" "" "" [] None
    [mkSidecar "db" "postgres" [] [] "" [] "" None [] [] [] "" None []].

Definition ex_inv (onError : string) : TaskInvocation :=
  mkTaskInvocation "r1" "pr" "t" "pr-t" (ex_spec onError) ∅ ∅ ∅ "/r" ∅.

Definition ex_backend : Backend :=
  mkBackend "" (2 * Second) (30 * Second) "/tmp/s" false "pause" "r1" "" false "" ∅ ∅.

Definition ex_run (onError : string) : list (ev DockerE) * DockerResult * nat :=
  interp ex_answer (RunTask ex_backend (ex_inv onError)) 0.

Example ex_continue : (ex_run "continue").1.2 =
  mkDockerResult "succeeded" [mkStepResult "a" "failed" 3; mkStepResult "b" "succeeded" 0] {["digest" := "sha"]} None.
Proof. vm_compute. reflexivity. Qed.

Example ex_stop : (ex_run "").1.2 = mkDockerResult "failed" [mkStepResult "a" "failed" 3] ∅ None.
Proof. vm_compute. reflexivity. Qed.

Lemma ex_exec onError : exec (RunTask ex_backend (ex_inv onError)) (ex_run onError).1.1 (ex_run onError).1.2.
Proof.
  apply (interp_exec ex_answer _ 0 _ _ (ex_run onError).2). unfold ex_run. by destruct (interp _ _ 0) as [[t r] w].
Qed.

Lemma RunTask_no_leak_witness :
  omap created (ex_run "").1.1 = ["c0"; "c1"; "c2"] /\ left_behind [] (ex_run "").1.1 = [] /\ existing (ex_run "").1.1 = [].
Proof.
  destruct (RunTask_no_leak _ _ _ _ (ex_exec "")) as [H1 _].
  split; [vm_compute; reflexivity|]. split; [exact H1|]. vm_compute. reflexivity.
Defined.

Lemma ex_real_ids : real_ids (ex_run "continue").1.1.
Proof.
  assert (forallb (fun e => negb (empty_id e)) (ex_run "continue").1.1 = true) as Hb by (vm_compute; reflexivity).
  rewrite forallb_forall in Hb. apply List.Forall_forall. intros e He. apply negb_true_iff. by apply Hb.
Qed.

Lemma RunTask_sidecar_events_witness :
  omap sidecar_end (ex_run "continue").1.1 = ["db"] /\
  exists m, m <= 1 /\ omap sidecar_start (ex_run "continue").1.1 = take m ["db"] /\ starts_first (ex_run "continue").1.1 /\
    (pause_up (ex_inv "continue") (ex_run "continue").1.1 -> omap sidecar_end (ex_run "continue").1.1 ≡ₚ take (S m) ["db"]) /\
    (~ pause_up (ex_inv "continue") (ex_run "continue").1.1 -> m = 0 /\ omap sidecar_end (ex_run "continue").1.1 = []).
Proof.
  split; [vm_compute; reflexivity|].
  exact (RunTask_sidecar_events ex_backend (ex_inv "continue") _ _ (ex_exec "continue") ex_real_ids).
Defined.

Lemma RunTask_status_witness :
  dr_Status (ex_run "").1.2 = "failed" /\ verdict (ex_inv "") (ex_run "").1.1 (ex_run "").1.2.
Proof. split; [vm_compute; reflexivity|]. exact (RunTask_status ex_backend (ex_inv "") _ _ (ex_exec "")). Defined.
End Examples.
