(* ===== verification/DockerSafety.v ===== *)
(** * What the docker backend mounts and writes stays below its directories

    [untarToDir] and [workspaceMounts] against the elements of cleaned paths, and the
    staging of a remote daemon: what is created is given back, and the index of host
    paths. *)

From S2P Require Import Prelude GoStrings GoTime Paths TektonTypes Run Resolver Steps Effects Docker DockerTask DockerStaging DockerRun DockerProps.

(** ** Containment *)

(** [p] is [root] or lies below it, lexically. *)
Definition below (root p : string) : Prop := IsAbs p = true /\ exists rest, elems p = elems root ++ rest.

Lemma pathContainedIn_spec root p :
  IsAbs root = true -> elems root <> [] -> pathContainedIn p (Clean root) = true <-> below root p.
Proof.
  intros Ha Hne. unfold pathContainedIn, below. rewrite orb_true_iff, String.eqb_eq, Clean_eq, Ha.
  destruct (IsAbs p) eqn:Hp.
  - unfold Clean. rewrite Hp, Ha. rewrite render_prefix; [|pose proof (elems_cleaned root) as H; by rewrite Ha in H
      |pose proof (elems_cleaned p) as H; by rewrite Hp in H|done].
    split; [|intros [_ [rest Hr]]].
    + intros [[_ ->]|(rest & _ & ->)]; (split; [done|]); [exists []; by rewrite app_nil_r|by exists rest].
    + destruct rest as [|e rest]; [left; by rewrite Hr, app_nil_r|right; by exists (e :: rest)].
  - split; [|by intros [? _]]. intros [[? _]|Hpre]; [done|]. exfalso.
    apply has_prefix_true in Hpre as [t Ht]. pose proof (IsAbs_Clean p) as Hc. rewrite Hp in Hc.
    rewrite Ht in Hc. unfold Clean, render in Hc. rewrite Ha, <-!str_app_assoc in Hc.
    unfold IsAbs in Hc. by rewrite has_prefix_app in Hc.
Qed.

Lemma cleaned_true_normal l : cleaned true l -> Forall normal l.
Proof. intros (k & m & -> & Hm & Hk). by rewrite (Hk eq_refl). Qed.

Lemma normal_cleaned r l : Forall normal l -> cleaned r l.
Proof. intros Hl. by exists 0, l. Qed.

Lemma strip_common_app l rest : strip_common l (l ++ rest) = ([], rest).
Proof. induction l as [|x l IH]; simpl; [by destruct rest|]. by rewrite String.eqb_refl. Qed.

(** A local, cleaned path. *)
Definition local_path (p : string) : Prop := IsAbs p = false /\ Forall normal (elems p) /\ Clean p = p.

Lemma local_join rest : rest <> [] -> Forall normal rest -> local_path (join sep rest) /\ elems (join sep rest) = rest.
Proof.
  intros Hne Hn. assert (join sep rest = render false rest) as -> by by destruct rest.
  pose proof (normal_cleaned false _ Hn) as Hc. unfold local_path, Clean. rewrite IsAbs_render, elems_render by done. done.
Qed.

Lemma local_IsLocal p : local_path p -> IsLocal p = true.
Proof. intros (Ha & Hn & Hc). rewrite <-Hc. by apply IsLocal_Clean. Qed.

Lemma Dir_local p : local_path p -> IsLocal (Dir p) = true.
Proof.
  intros (Ha & Hn & Hc). unfold Dir. destruct (cut_last slash p) as [[d e]|] eqn:E; [|done].
  apply cut_last_Some in E. apply IsLocal_Clean.
  destruct (elems p) as [|x l] eqn:El.
  { unfold Clean in Hc. rewrite Ha, El in Hc. simpl in Hc. rewrite <-Hc in E. exfalso. clear -E. destruct d as [|c d]; [done|].
    rewrite str_app_cons in E. injection E as _ E. by destruct d. }
  assert (split_slash p = x :: l) as Hsp.
  { rewrite <-Hc. unfold Clean. rewrite Ha, El. apply (split_slash_join (x :: l)); [done|]. by apply normal_plain. }
  rewrite E in Hsp. change (String slash e) with (sep +:+ e) in Hsp. rewrite split_slash_app in Hsp.
  assert (IsAbs (d +:+ sep) = IsAbs d) as Habs.
  { destruct d as [|c d]; [|unfold IsAbs, has_prefix; rewrite str_app_cons; cbn [strip_prefix sep]; by destruct (Ascii.eqb _ _)].
    simpl in Hsp. injection Hsp as <- _. apply Forall_cons in Hn as [(_ & ? & _) _]. done. }
  assert (IsAbs d = false) as Hd.
  { rewrite E in Ha. destruct d as [|c d]; [done|]. revert Ha. unfold IsAbs, has_prefix. rewrite str_app_cons.
    cbn [strip_prefix sep]. by destruct (Ascii.eqb _ _). }
  split; [by rewrite Habs|]. unfold elems. rewrite Habs, Hd, <-(str_app_nil_r (d +:+ sep)), <-str_app_assoc, split_slash_app.
  unfold clean_elems. rewrite foldl_app. simpl. rewrite <-Hsp in Hn. apply Forall_app in Hn as [Hn _].
  rewrite foldl_normal by done. unfold clean_step. simpl. by rewrite app_nil_r, reverse_involutive.
Qed.

(** ** [untarToDir] *)
Section Untar.
Variables (dstDir stripPrefix : string).
Hypothesis Habs : IsAbs dstDir = true.
Hypothesis Hroot : elems dstDir <> [].

Lemma entry_rel_spec h rel :
  entry_rel dstDir stripPrefix h = Some rel ->
  local_path rel /\ elems rel <> [] /\
  below dstDir (Join [dstDir; strip_wrapper stripPrefix (te_Name h)]) /\
  elems (Join [dstDir; strip_wrapper stripPrefix (te_Name h)]) = elems dstDir ++ elems rel.
Proof.
  unfold entry_rel. cbv zeta. destruct (String.eqb _ ""); [done|]. set (target := Join _).
  destruct (pathContainedIn target (Clean dstDir)) eqn:Hc; [|done].
  apply pathContainedIn_spec in Hc; [|done|done]. pose proof Hc as (Ht & rest & Hrest).
  unfold Rel. rewrite !Clean_idemp, !IsAbs_Clean, !elems_Clean, Habs, Ht.
  assert (String.eqb (Clean target) "." = false) as Hdot.
  { apply String.eqb_neq. unfold Clean. by rewrite Ht. }
  rewrite Hdot. destruct (String.eqb_spec (Clean target) (Clean dstDir)) as [|Hne]; [done|].
  rewrite Hrest, strip_common_app. simpl. destruct (String.eqb (join sep rest) "."); [done|]. intros [= <-].
  assert (rest <> []) as Hre by (intros ->; apply Hne, Clean_eq; by rewrite Ht, Habs, Hrest, app_nil_r).
  assert (Forall normal rest) as Hn.
  { pose proof (elems_cleaned target) as Hcl. rewrite Ht, Hrest in Hcl. apply cleaned_true_normal in Hcl.
    by apply Forall_app in Hcl as [_ ?]. }
  destruct (local_join rest Hre Hn) as [Hl ->]. split_and!; try done.
Qed.

(** A call that touches files does so at a local path below the root; a symlink's
    target resolves to below it. *)
Definition inside_call {X} (e : DockerE X) : Prop :=
  match e with
  | OpenRoot root => root = Clean dstDir
  | RootMkdirAll root rel _ | RootOpen root rel _ | RootWrite root rel _ | RootRemove root rel => root = Clean dstDir /\ IsLocal rel = true
  | RootSymlink root target rel =>
    root = Clean dstDir /\ IsLocal rel = true /\
    exists p, elems p = elems dstDir ++ elems rel /\ below dstDir (link_resolved p target)
  | _ => False
  end.

Lemma untar_entry_inside h : calls (fun X e => inside_call e) (untar_entry dstDir stripPrefix h).
Proof.
  unfold untar_entry. destruct (entry_rel dstDir stripPrefix h) as [rel|] eqn:E; [|done].
  apply entry_rel_spec in E as (Hl & Hne & Hb & He). pose proof (local_IsLocal _ Hl) as H1. pose proof (Dir_local _ Hl) as H2.
  destruct (te_Kind h).
  - by apply calls_wrap, calls_call.
  - do 2 (apply calls_try; [by apply calls_wrap, calls_call|]; intros _). by apply calls_call.
  - destruct (link_ok dstDir stripPrefix h) eqn:Hlink; [|done]. apply pathContainedIn_spec in Hlink; [|done|done].
    apply calls_bind; [by apply calls_call|]. intros _. apply calls_try; [by apply calls_wrap, calls_call|]. intros _.
    apply calls_wrap, calls_call. split_and!; [done|done|]. eexists. split; [exact He|exact Hlink].
  - done.
Qed.

Lemma wrapped_name base n : base <> "" -> n <> "" -> has_prefix n "/" = false -> strip_wrapper base (base +:+ "/" +:+ n) = n.
Proof.
  intros Hb Hn Hp. unfold strip_wrapper.
  assert (base +:+ "/" +:+ n <> base) as H1.
  { intros He. apply (f_equal String.length) in He. rewrite !str_length_app in He. simpl in He. lia. }
  assert (base +:+ "/" +:+ n <> base +:+ "/") as H2.
  { intros He. apply (f_equal String.length) in He. rewrite !str_length_app in He. destruct n; [done|]. simpl in He. lia. }
  rewrite !(proj2 (String.eqb_neq _ _)) by done. simpl. rewrite (str_app_assoc base "/" n), strip_prefix_app.
  unfold trim_prefix. unfold has_prefix in Hp. by destruct (strip_prefix "/" n).
Qed.

Lemma Clean_slash x : x <> "" -> Clean (x +:+ sep) = Clean x.
Proof.
  intros Hx. assert (IsAbs (x +:+ sep) = IsAbs x) as Ha.
  { destruct x as [|c x]; [done|]. unfold IsAbs, has_prefix. rewrite str_app_cons. cbn [strip_prefix sep]. by destruct (Ascii.eqb _ _). }
  apply Clean_eq. split; [done|]. unfold elems. rewrite Ha. rewrite <-(str_app_nil_r (x +:+ sep)), <-str_app_assoc, split_slash_app.
  unfold clean_elems. rewrite foldl_app. simpl. by unfold clean_step.
Qed.

(** A wrapped entry goes back to the path it was packed from. *)
Lemma entry_rel_wrapped base rel h :
  base <> "" -> local_path rel -> elems rel <> [] ->
  te_Name h = base +:+ "/" +:+ rel \/ te_Name h = base +:+ "/" +:+ rel +:+ "/" ->
  entry_rel dstDir base h = Some rel.
Proof.
  intros Hb Hl Hne Hname. pose proof Hl as (Ha & Hn & Hc).
  assert (rel <> "") as Hrel by (intros ->; done).
  assert (dstDir <> "") as Hd by (intros ->; done).
  assert (Join [dstDir; rel] = Join [dstDir; strip_wrapper base (te_Name h)] /\ strip_wrapper base (te_Name h) <> "") as [Hj Hsw].
  { destruct Hname as [->| ->].
    - rewrite wrapped_name by done. done.
    - rewrite wrapped_name; [|done|by destruct rel|].
      + split; [|by destruct rel]. cbn [Join]. rewrite (proj2 (String.eqb_neq _ _)) by done.
        change (join sep [dstDir; rel]) with (dstDir +:+ sep +:+ rel).
        change (join sep [dstDir; rel +:+ "/"]) with (dstDir +:+ sep +:+ (rel +:+ sep)).
        rewrite !str_app_assoc, Clean_slash; [done|]. by destruct dstDir.
      + destruct rel as [|c rel]; [done|]. revert Ha. unfold IsAbs, has_prefix. rewrite str_app_cons.
        cbn [strip_prefix sep]. by destruct (Ascii.eqb _ _). }
  unfold entry_rel. cbv zeta. rewrite (proj2 (String.eqb_neq _ _)), <-Hj by done.
  assert (IsLocal (Clean rel) = true) as Hloc by by apply IsLocal_Clean.
  pose proof (Join_local dstDir rel Hd Hloc) as [Hja Hje]. rewrite Hc in Hja, Hje. rewrite Habs in Hja.
  rewrite (proj2 (pathContainedIn_spec _ _ Habs Hroot)) by by split; [|exists (elems rel)].
  unfold Rel. rewrite !Clean_idemp, !IsAbs_Clean, !elems_Clean, Habs, Hja.
  assert (Clean (Join [dstDir; rel]) <> ".") as Hdot by (unfold Clean; by rewrite Hja).
  rewrite (proj2 (String.eqb_neq _ _)) by (rewrite Clean_eq, Hje; intros [_ Heq]; apply Hne;
    apply (f_equal length) in Heq; rewrite length_app in Heq; destruct (elems rel); [done|simpl in Heq; lia]).
  rewrite (proj2 (String.eqb_neq _ _)), Hje, strip_common_app by done. simpl.
  assert (join sep (elems rel) = rel) as ->.
  { rewrite <-Hc at 2. unfold Clean. rewrite Ha. by destruct (elems rel). }
  rewrite (proj2 (String.eqb_neq _ _)); [done|]. intros ->. done.
Qed.
End Untar.

(** ** [workspaceMounts] *)
Section Workspaces.
Context {K : CoreV1} {SV : SecurityView} `{MapRange} `{FloatScan}.

(** The mount of a workspace: at the declared path, read-only when either side says
    so, and below the directory it is taken from. *)
Definition workspace_mounted (b : Backend) (inv : TaskInvocation) (n : string) (m : Mount) : Prop :=
  exists wm, inv_Workspaces inv !! n = Some wm /\
    let decl := default (mkWorkspaceDecl n "" "" false false) (declared_workspaces (inv_Task inv) !! n) in
    mt_Target m = EffectiveMountPath decl /\ mt_ReadOnly m = wm_ReadOnly wm || wd_ReadOnly decl /\
    if be_remote b then
      exists pipelineName sub, pipelineWorkspaceName b (wm_HostPath wm) = Some pipelineName /\
        mt_Type m = "volume" /\ mt_Source m = be_volName b /\ mt_Subpath m = Some sub /\
        (normal pipelineName -> IsAbs sub = false /\ exists rest, elems sub = ["workspaces"; pipelineName] ++ rest)
    else
      mt_Type m = "bind" /\ (IsAbs (wm_HostPath wm) = true -> below (wm_HostPath wm) (mt_Source m)).

Lemma subPath_of_ok owner n sub c :
  subPath_of owner n sub = Ok c -> c = "" \/ (c = Clean sub /\ IsLocal (Clean sub) = true /\ is_set c = true).
Proof.
  unfold subPath_of. destruct (is_set sub); [|intros [= <-]; by left]. cbv zeta.
  destruct (IsLocal (Clean sub)) eqn:Hl; [|done]. intros [= <-]. right. split_and!; [done|done|].
  unfold is_set. destruct (String.eqb_spec (Clean sub) "") as [He|]; [|done]. by rewrite He in Hl.
Qed.

Lemma volume_subpath pn sub :
  normal pn -> sub = "" \/ (exists s, sub = Clean s /\ IsLocal (Clean s) = true) ->
  IsAbs (Join [stageWorkspaces; pn; sub]) = false /\ exists rest, elems (Join [stageWorkspaces; pn; sub]) = ["workspaces"; pn] ++ rest.
Proof.
  intros Hpn Hsub. set (h := stageWorkspaces +:+ sep +:+ pn).
  assert (h = render false ["workspaces"; pn]) as Hh by done.
  assert (Forall normal ["workspaces"; pn]) as Hn by (repeat constructor; try done; apply Hpn).
  pose proof (normal_cleaned false _ Hn) as Hc.
  assert (IsAbs h = false /\ elems h = ["workspaces"; pn]) as [Ha He] by by rewrite Hh, IsAbs_render, elems_render.
  assert (h <> "") as Hne by done.
  assert (forall x, Join [stageWorkspaces; pn; x] = Join [h; x]) as Hj.
  { intros x. cbn [Join]. by rewrite (proj2 (String.eqb_neq h "")). }
  rewrite Hj. destruct Hsub as [->|(s & -> & Hl)].
  - cbn [Join]. rewrite (proj2 (String.eqb_neq h "")) by done. change (join sep [h; ""]) with (h +:+ sep).
    rewrite Clean_slash, IsAbs_Clean, elems_Clean, He by done. split; [done|]. by exists [].
  - pose proof (Join_local h s Hne Hl) as [-> ->]. rewrite He. split; [done|]. by exists (elems s).
Qed.

Lemma workspace_mount_spec b inv owner n wm :
  inv_Workspaces inv !! n = Some wm ->
  post (workspace_mount b inv owner n wm) (fun _ r => match r with Ok m => workspace_mounted b inv n m | Err _ => True end).
Proof.
  intros Hwm. unfold workspace_mount. apply post_try, post_ret.
  destruct (subPath_of owner n (wm_SubPath wm)) as [sub|e] eqn:Hsub; [|done]. apply subPath_of_ok in Hsub.
  unfold workspace_mounted. destruct (be_remote b) eqn:Hr.
  - destruct (pipelineWorkspaceName b (wm_HostPath wm)) as [pn|] eqn:Hpn; [|by apply post_ret].
    apply post_try, post_any. intros t [u|e]; [|done]. apply post_ret. exists wm. split_and!; [done..|].
    exists pn, (Join [stageWorkspaces; pn; sub]). split_and!; [done..|]. intros Hn. apply volume_subpath; [done|].
    destruct Hsub as [->|(-> & Hl & _)]; [by left|right; by exists (wm_SubPath wm)].
  - destruct Hsub as [->|(-> & Hl & ->)].
    + apply post_ret. exists wm. split_and!; [done..|]. intros Ha. split; [done|]. exists []. by rewrite app_nil_r.
    + apply post_bind, post_any. intros t st. apply post_try, post_any. intros t' [u|e]; [|done]. apply post_ret.
      exists wm. split_and!; [done..|]. intros Ha. assert (wm_HostPath wm <> "") as Hne by (intros Hw; by rewrite Hw in Ha).
      pose proof (Join_local _ _ Hne Hl) as [Hja Hje]. split; [cbn [mt_Source bindMount]; congruence|].
      exists (elems (wm_SubPath wm)). exact Hje.
Qed.

Lemma workspaceMounts_spec b inv owner :
  post (workspaceMounts b inv owner) (fun _ r =>
    match r with
    | Ok ms => Forall2 (workspace_mounted b inv) (sort_strings (map_range (inv_Workspaces inv)).*1) ms
    | Err _ => True
    end).
Proof.
  unfold workspaceMounts.
  assert (forall n, n ∈ sort_strings (map_range (inv_Workspaces inv)).*1 -> is_Some (inv_Workspaces inv !! n)) as Hin.
  { intros n. rewrite elem_of_sort_strings, list_elem_of_fmap. intros ([k wm] & -> & Hkw%elem_of_map_range). eauto. }
  revert Hin. generalize (sort_strings (map_range (inv_Workspaces inv)).*1) as l. intros l Hin.
  enough (forall pre out, Forall2 (workspace_mounted b inv) pre out ->
    post (foldT (fun out tName =>
      match inv_Workspaces inv !! tName with
      | Some wm => do! m ← workspace_mount b inv owner tName wm; Ret (Ok (out ++ [m]))
      | None => Ret (Ok out)
      end) out l) (fun _ r => match r with Ok ms => Forall2 (workspace_mounted b inv) (pre ++ l) ms | Err _ => True end)) as Hgen
    by by apply (Hgen [] []).
  induction l as [|n l IH]; intros pre out Hpre; simpl; [apply post_ret; by rewrite app_nil_r|].
  destruct (Hin n) as [wm Hwm]; [constructor|]. rewrite Hwm. apply post_try, post_try. post_use workspace_mount_spec; [exact Hwm|].
  intros t [m|e] Hm; [|done]. apply post_ret. post_use (IH ltac:(intros; apply Hin; by constructor) (pre ++ [n]) (out ++ [m])).
  - apply Forall2_app; [done|]. by repeat constructor.
  - intros t' r Hr. by rewrite <-(assoc_L (++)) in Hr.
Qed.
End Workspaces.

(** ** Staging: what is created is given back *)

Definition vol_step (o : list string) (e : ev DockerE) : list string :=
  match ev_call e in DockerE X return X -> list string with
  | VolumeCreate name _ => fun r => if is_ok r then o ++ [name] else o
  | VolumeRemove name => fun _ => List.filter (fun x => negb (String.eqb x name)) o
  | _ => fun _ => o
  end (ev_answer e).

(** The volumes the calls [t] leave, from those in [o]. *)
Definition volumes_left (o : list string) (t : list (ev DockerE)) : list string := foldl vol_step o t.

Lemma volumes_left_app o t t' : volumes_left o (t ++ t') = volumes_left (volumes_left o t) t'.
Proof. apply foldl_app. Qed.

Lemma volumes_left_plain o t : Forall (fun e => plain_call (ev_call e)) t -> volumes_left o t = o.
Proof.
  intros Ht. revert o. induction Ht as [|[X e x] t He _ IH]; intros o; [done|]. unfold volumes_left. cbn [foldl].
  assert (vol_step o (Ev e x) = o) as -> by by destruct e. apply IH.
Qed.

(** The containers and volumes a backend knows of. *)
Definition held_containers (b : Backend) : list string := if is_set (be_stagerID b) then [be_stagerID b] else [].
Definition held_volumes (b : Backend) : list string := if be_volumeCreated b then [be_volName b] else [].

(** [t] leaves what the backend knows of, and no more. *)
Definition holds (b : Backend) (t : list (ev DockerE)) : Prop :=
  left_behind [] t ⊆ held_containers b /\ volumes_left [] t ⊆ held_volumes b /\ be_volName b <> "".

Lemma holds_plain b t t' : holds b t -> Forall (fun e => plain_call (ev_call e)) t' -> holds b (t ++ t').
Proof.
  intros (H1 & H2 & H3) Ht'. unfold holds. rewrite left_behind_app, volumes_left_app.
  rewrite (proj1 (plain_events t' Ht')), volumes_left_plain by done. done.
Qed.

Lemma subseteq_nil {A} (l : list A) : l ⊆ [] -> l = [].
Proof. destruct l as [|x l]; [done|]. intros H. exfalso. apply (not_elem_of_nil x), H. constructor. Qed.

Section StagingFacts.
Context `{MapRange}.

Lemma stage_body_holds b ws :
  be_stagerID b = "" -> be_volumeCreated b = false -> be_volName b <> "" ->
  post (stage_body b ws) (fun t r => holds r.2 t).
Proof.
  intros Hs Hv Hn. unfold stage_body. apply post_bind, post_wrap. post_step. destruct x as [u|e]; cbn [wrap_err].
  2: { apply post_ret. unfold holds, held_containers, held_volumes. simpl. by rewrite Hs, Hv. }
  set (b1 := be_set_staging b (be_volName b) true (be_stagerID b)). set (e1 := Ev (VolumeCreate _ _) _).
  assert (holds b1 [e1]) as H1.
  { unfold holds, held_containers, held_volumes. simpl. by rewrite Hs. }
  apply post_bind, post_wrap, post_plain; [plain|]. intros t2 [u'|e] Ht2; cbn [wrap_err];
    [|apply post_ret; rewrite app_nil_r; by apply (holds_plain b1 [e1])].
  apply post_bind, post_wrap. post_step. destruct x as [id|e]; cbn [wrap_err].
  2: { apply post_ret. destruct (holds_plain b1 [e1] t2 H1 Ht2) as (G1 & G2 & G3). rewrite app_nil_r.
       change ([e1] ++ t2 ++ [?x]) with (([e1] ++ t2) ++ [x]). unfold holds.
       rewrite left_behind_app, volumes_left_app. done. }
  set (b2 := be_set_staging b1 (be_volName b) true id). set (e3 := Ev (ContainerCreate _ _ _) _).
  assert (holds b2 ([e1] ++ t2 ++ [e3])) as H3.
  { destruct (holds_plain b1 [e1] t2 H1 Ht2) as (G1 & G2 & _). rewrite (assoc_L (++)). unfold holds.
    rewrite left_behind_app, volumes_left_app. split_and!; [|exact G2|done].
    assert (held_containers b1 = []) as Hh by (unfold held_containers; simpl; by rewrite Hs).
    rewrite Hh in G1. apply subseteq_nil in G1. rewrite G1. unfold held_containers. cbn [be_stagerID b2 be_set_staging].
    unfold left_behind, leak_step, e3, created. simpl. by destruct (is_set id). }
  apply post_bind, post_wrap. post_step. set (e4 := Ev (ContainerStart _) _).
  assert (holds b2 (([e1] ++ t2 ++ [e3]) ++ [e4])) as H4 by (apply holds_plain; [done|]; by repeat constructor).
  rewrite <-!(assoc_L (++)) in H4.
  destruct x as [u''|e]; cbn [wrap_err]; [|by apply post_ret; rewrite app_nil_r].
  apply post_bind, post_plain; [plain|]. intros t5 r Ht5. apply post_ret. rewrite app_nil_r.
  rewrite !(assoc_L (++)) in *. cbn [snd]. by apply holds_plain.
Qed.

(** [stopRemoteStaging] gives back what the backend knows of. *)
Lemma stopRemoteStaging_spec b :
  be_volName b <> "" ->
  post (stopRemoteStaging b) (fun t _ =>
    (forall o x, x ∈ left_behind o t -> x ∈ o /\ x ∉ held_containers b) /\
    (forall o x, x ∈ volumes_left o t -> x ∈ o /\ x ∉ held_volumes b)).
Proof.
  intros Hn. unfold stopRemoteStaging. apply post_bind.
  set (k := if is_set (be_stagerID b) then _ else _).
  assert (post k (fun t _ => (forall o x, x ∈ left_behind o t -> x ∈ o /\ x ∉ held_containers b) /\ forall o, volumes_left o t = o)) as Hk.
  { subst k. unfold held_containers. destruct (is_set (be_stagerID b)).
    - unfold stop_stager. apply post_bind, post_plain; [plain|]. intros t first Ht. destruct (plain_events t Ht) as (Hl & _).
      apply post_bind, post_wrap. post_step. apply post_bind, post_wrap. post_step. apply post_ret. split.
      + intros o y. rewrite left_behind_app, Hl. unfold left_behind, leak_step, created. simpl.
        rewrite elem_of_filter_ne, list_elem_of_singleton. done.
      + intros o. rewrite volumes_left_app, (volumes_left_plain o t) by done. done.
    - apply post_ret. split; [|done]. intros o y Hy. split; [done|]. apply not_elem_of_nil. }
  post_use Hk. clear k Hk. intros t first [H1 H2]. apply post_bind. cbn [be_volumeCreated be_volName be_set_staging].
  unfold held_volumes. destruct (be_volumeCreated b); cbn [andb].
  - assert (is_set (be_volName b) = true) as -> by (unfold is_set; by rewrite (proj2 (String.eqb_neq _ _))).
    apply post_bind, post_wrap. post_step. apply post_ret, post_ret. rewrite !app_nil_r. split.
    + intros o y. rewrite left_behind_app. apply H1.
    + intros o y. rewrite volumes_left_app, H2. unfold volumes_left, vol_step. simpl.
      rewrite elem_of_filter_ne, list_elem_of_singleton. done.
  - apply post_ret, post_ret. rewrite !app_nil_r. split; [done|]. intros o y. rewrite H2. intros ?. split; [done|apply not_elem_of_nil].
Qed.

Lemma holds_stopped b t t' :
  holds b t ->
  (forall o x, x ∈ left_behind o t' -> x ∈ o /\ x ∉ held_containers b) ->
  (forall o x, x ∈ volumes_left o t' -> x ∈ o /\ x ∉ held_volumes b) ->
  left_behind [] (t ++ t') = [] /\ volumes_left [] (t ++ t') = [].
Proof.
  intros (H1 & H2 & _) Hc Hv. rewrite left_behind_app, volumes_left_app.
  split; apply subseteq_nil; intros x Hx; exfalso.
  - apply Hc in Hx as [Hx Hn]. apply Hn. by apply H1.
  - apply Hv in Hx as [Hx Hn]. apply Hn. by apply H2.
Qed.
End StagingFacts.

(** ** The index of host paths *)
Section Index.
Context `{MapRange}.

(** The workspaces of a host path, in the order of the loop. *)
Definition names_of (hp : string) (l : list (string * string)) : list string :=
  (List.filter (fun nh => String.eqb nh.2 hp) l).*1.

Lemma names_of_app hp l l' : names_of hp (l ++ l') = names_of hp l ++ names_of hp l'.
Proof. unfold names_of. by rewrite List.filter_app, fmap_app. Qed.

Lemma index_fold l hp :
  let acc := foldl index_step (∅, ∅) l in
  acc.1 !! hp = head (names_of hp l) /\ (is_Some (acc.2 !! hp) <-> 2 <= length (names_of hp l)).
Proof.
  induction l as [|[n h] l IH] using rev_ind; [simpl; rewrite !lookup_empty; split; [done|]; split; [by intros []|lia]|].
  cbv zeta in *. rewrite foldl_app, names_of_app. simpl. destruct (foldl index_step (∅, ∅) l) as [out col].
  unfold index_step. cbn [fst snd] in *. destruct IH as [IH1 IH2].
  assert (names_of hp [(n, h)] = if String.eqb h hp then [n] else []) as -> by (unfold names_of; simpl; by destruct (String.eqb h hp)).
  destruct (String.eqb_spec h hp) as [->|Hne].
  - rewrite length_app. simpl. destruct (names_of hp l) as [|m ms] eqn:Em; simpl in *.
    + rewrite IH1. cbn [fst snd]. rewrite lookup_insert_eq. split; [done|]. rewrite IH2. lia.
    + rewrite IH1. cbn [fst snd]. rewrite lookup_insert_eq. split; [done|]. split; [lia|by eexists].
  - rewrite app_nil_r. destruct (out !! h); cbn [fst snd]; rewrite lookup_insert_ne by done; done.
Qed.

Lemma overlay_fold (l : list (string * list string)) (m : gmap string string) hp :
  NoDup l.*1 ->
  foldl (fun (m : gmap string string) hn => <[hn.1 := ambiguousMarker +:+ ":" +:+ join "," hn.2]> m) m l !! hp =
  match (list_to_map l : gmap string (list string)) !! hp with
  | Some ns => Some (ambiguousMarker +:+ ":" +:+ join "," ns)
  | None => m !! hp
  end.
Proof.
  revert m; induction l as [|[k ns] l IH]; intros m Hnd; simpl; [done|]. apply NoDup_cons in Hnd as [Hk Hnd].
  rewrite IH by done. destruct (decide (k = hp)) as [->|].
  - rewrite (not_elem_of_list_to_map_1 l hp) by done. by rewrite !lookup_insert_eq.
  - by rewrite !lookup_insert_ne.
Qed.

Lemma list_to_map_range {V} (m : gmap string V) : list_to_map (map_range m) = m.
Proof.
  rewrite <-(list_to_map_to_list m) at 2. apply list_to_map_proper; [apply map_range_keys_NoDup|apply map_range_perm].
Qed.

Lemma elem_of_names_of hp (ws : gmap string string) n : n ∈ names_of hp (map_range ws) <-> ws !! n = Some hp.
Proof.
  unfold names_of. rewrite list_elem_of_fmap. split.
  - intros ([k h] & -> & Hin). apply list_elem_of_In, List.filter_In in Hin as [Hin Hh]. apply String.eqb_eq in Hh.
    simpl in *. subst h. apply elem_of_map_range. by apply list_elem_of_In.
  - intros Hn. exists (n, hp). split; [done|]. apply list_elem_of_In, List.filter_In. split; [|apply String.eqb_refl].
    apply list_elem_of_In. by apply elem_of_map_range.
Qed.

Lemma names_of_NoDup hp (ws : gmap string string) : NoDup (names_of hp (map_range ws)).
Proof.
  assert (forall l : list (string * string), NoDup l.*1 -> NoDup (names_of hp l)) as Hl; [|apply Hl, map_range_keys_NoDup].
  induction l as [|[k h] l IH]; [constructor|]. intros [Hk Hnd]%NoDup_cons. unfold names_of in *. simpl.
  destruct (String.eqb h hp); [|by apply IH]. constructor; [|by apply IH]. intros Hin. apply Hk.
  apply list_elem_of_fmap in Hin as (y & Hy & Hin). apply list_elem_of_In, List.filter_In in Hin as [Hin _].
  apply list_elem_of_fmap. exists y. split; [done|]. by apply list_elem_of_In.
Qed.

Lemma buildHostPathIndex_lookup (ws : gmap string string) hp :
  buildHostPathIndex ws !! hp =
  match names_of hp (map_range ws) with
  | [] => None
  | [n] => Some n
  | _ => option_map (fun ns => ambiguousMarker +:+ ":" +:+ join "," ns) ((foldl index_step (∅, ∅) (map_range ws)).2 !! hp)
  end.
Proof.
  unfold buildHostPathIndex. pose proof (index_fold (map_range ws) hp) as Hi. cbv zeta in Hi.
  destruct (foldl index_step (∅, ∅) (map_range ws)) as [out col]. cbn [fst snd] in *. destruct Hi as [H1 H2].
  rewrite overlay_fold, list_to_map_range by apply map_range_keys_NoDup.
  destruct (names_of hp (map_range ws)) as [|n [|n' ns]]; simpl in *.
  - destruct (col !! hp); [|done]. assert (2 <= 0); [apply H2; by eexists|lia].
  - destruct (col !! hp); [|done]. assert (2 <= 1); [apply H2; by eexists|lia].
  - destruct (col !! hp) as [x|]; [done|]. destruct (proj2 H2) as [? ?]; [lia|done].
Qed.
End Index.

(** ** Fields the backend does not support *)
Section Support.
Context {K : CoreV1} {SV : SecurityView} `{MapRange} `{FloatScan}.

(** Whether a security context is accepted does not depend on the container. *)
Lemma applySecurityContext_ok sc cfg hc :
  is_ok (applySecurityContext sc cfg hc) = is_ok (applySecurityContext sc zero_Config zero_HostConfig).
Proof.
  unfold applySecurityContext. destruct sc as [sc|]; [|done]. cbv zeta. destruct (unsupported_fields _); [|done].
  unfold user_of. destruct (sf_RunAsUser _), (sf_RunAsGroup _); simpl; try done; destruct (_ && _); try done;
    by destruct (default _ _).
Qed.

Lemma security_error_ok sc cfg hc : security_error sc = None -> is_ok (applySecurityContext sc cfg hc) = true.
Proof. unfold security_error. rewrite applySecurityContext_ok. by destruct (applySecurityContext sc zero_Config zero_HostConfig). Qed.

Lemma first_error_none {A} (f : A -> option text) l : first_error f l = None <-> forall x, x ∈ l -> f x = None.
Proof.
  unfold first_error. induction l as [|x l IH]; simpl.
  - split; [|done]. intros _ x Hx. by apply not_elem_of_nil in Hx.
  - destruct (f x) eqn:E; simpl.
    + split; [done|]. intros Hl. specialize (Hl x (list_elem_of_here _ _)). congruence.
    + rewrite IH. setoid_rewrite elem_of_cons. naive_solver.
Qed.

Lemma container_support_none owner env envFrom sc :
  checkContainerSupport security_error owner env envFrom sc = None ->
  envFrom = [] /\ (forall e, e ∈ env -> ev_ValueFrom e = None) /\ security_error sc = None.
Proof.
  unfold checkContainerSupport. destruct envFrom; [|done]. simpl. unfold env_from_error.
  destruct (List.find _ env) as [e|] eqn:Ef; [done|]. destruct (security_error sc); [done|]. intros _.
  split_and!; [done| |done]. intros e He. apply list_elem_of_In in He.
  pose proof (List.find_none _ _ Ef e He) as Hn. unfold is_some in Hn. by destruct (ev_ValueFrom e).
Qed.

Lemma substituteStepRefs_keeps st m st' :
  substituteStepRefs st m = Ok st' ->
  st_SecurityContext st' = st_SecurityContext st /\ st_Timeout st' = st_Timeout st /\ st_EnvFrom st' = st_EnvFrom st.
Proof. unfold substituteStepRefs. do 5 bind_ok. destruct (collect _ _); [|done]. by intros [= <-]. Qed.
End Support.

(** ** Properties *)
Section SafetyProperties.
Context {K : CoreV1} {SV : SecurityView} `{MapRange} `{FloatScan}.

(** C13: a tar stream from the daemon cannot make [untarToDir] write outside its
    directory: for an absolute directory other than the root, every file operation
    is relative to the cleaned directory, at a path that is local ([IsLocal]: no
    [..] leads out of it), and a symlink is only made when its target resolves,
    lexically, to the directory or below. *)
Theorem untarToDir_contained dstDir stripPrefix stream t r :
  IsAbs dstDir = true -> elems dstDir <> [] ->
  exec (untarToDir stream dstDir stripPrefix) t r ->
  Forall (fun e => inside_call dstDir (ev_call e)) t.
Proof.
  intros Ha Hr. apply (calls_exec (fun X e => inside_call dstDir e)). unfold untarToDir.
  apply calls_try; [by apply calls_call|]. intros _. apply calls_try; [|done]. apply calls_foldT. intros _ h.
  by apply untar_entry_inside.
Qed.

(** what [tarHostDir] packs, [untarToDir] puts back at the same relative path: an
    entry that the daemon's copy has put under the directory's base name is a
    directory, file or link at the path it was packed from, whatever its name (also
    one that starts with the base name). *)
Theorem tar_roundtrip dstDir base f :
  IsAbs dstDir = true -> elems dstDir <> [] -> base <> "" -> local_path (wf_Rel f) -> elems (wf_Rel f) <> [] ->
  let h := walk_entry f in
  entry_rel dstDir base (mkTarEntry (base +:+ "/" +:+ te_Name h) (te_Mode h) (te_Kind h) (te_Linkname h) (te_Body h))
  = Some (wf_Rel f).
Proof.
  intros Ha Hr Hb Hl Hne. cbv zeta. apply entry_rel_wrapped; try done. unfold walk_entry. cbn [te_Name].
  destruct (wf_Kind f); cbn [te_Name]; solve [by left|by right].
Qed.

(** the workspaces of a Task are mounted in the order of their names, at the path
    the Task declares, read-only when the binding or the declaration says so, and
    the host directory (local daemon) or the volume's subpath (remote one) is the
    workspace's or below it, so that no subPath leads out of the workspace. *)
Theorem workspaceMounts_inside b inv owner t ms :
  exec (workspaceMounts b inv owner) t (Ok ms) ->
  Forall2 (workspace_mounted b inv) (sort_strings (map_range (inv_Workspaces inv)).*1) ms.
Proof. intros Ht. exact (workspaceMounts_spec b inv owner t (Ok ms) Ht). Qed.

(** remote staging gives back what it creates.  When [startRemoteStaging] fails, at
    any call, the stager container and the run's volume have been removed; when it
    succeeds, [stopRemoteStaging] on the backend it leaves removes them, whatever
    the daemon answers. *)
Theorem staging_unwinds b runID ws t err b' :
  be_stagerID b = "" -> be_volumeCreated b = false ->
  exec (startRemoteStaging b runID ws) t (err, b') ->
  match err with
  | Some _ => left_behind [] t = [] /\ volumes_left [] t = []
  | None => forall t' r b'', exec (stopRemoteStaging b') t' (r, b'') ->
              left_behind [] (t ++ t') = [] /\ volumes_left [] (t ++ t') = []
  end.
Proof.
  intros Hs Hv Ht. unfold startRemoteStaging in Ht. apply exec_bind in Ht as (t1 & t2 & [err1 b1] & -> & H1 & H2).
  apply stage_body_holds in H1; [|done..]. cbn [fst snd] in *. destruct err1 as [e|].
  - apply exec_bind in H2 as (t3 & t4 & s & -> & H3 & [-> [= -> ->]]). rewrite app_nil_r.
    pose proof H1 as (_ & _ & Hn). apply stopRemoteStaging_spec in H3 as [Hc Hvol]; [|done]. by eapply holds_stopped.
  - destruct H2 as [-> [= -> ->]]. rewrite app_nil_r. intros t' r b'' H3. pose proof H1 as (_ & _ & Hn).
    apply stopRemoteStaging_spec in H3 as [Hc Hvol]; [|done]. by eapply holds_stopped.
Qed.

(** in remote mode a host path stands for a pipeline workspace exactly when that
    workspace is the only one with the path (and its name does not begin with the
    marker of a collision), whatever order the map of workspaces is walked in. *)
Theorem pipelineWorkspaceName_correct b runID ws hp n :
  pipelineWorkspaceName (be_begin b runID ws) hp = Some n <->
  ws !! n = Some hp /\ (forall n', ws !! n' = Some hp -> n' = n) /\ has_prefix n ambiguousMarker = false.
Proof.
  unfold pipelineWorkspaceName. cbn [be_begin be_workspaceByHostPath]. rewrite buildHostPathIndex_lookup.
  setoid_rewrite <-elem_of_names_of. pose proof (names_of_NoDup hp ws) as Hnd.
  destruct (names_of hp (map_range ws)) as [|m [|m' ms]]; cbn [mbind option_bind].
  - split; [done|]. intros [Hn _]. by apply not_elem_of_nil in Hn.
  - destruct (has_prefix m ambiguousMarker) eqn:E.
    + split; [done|]. intros (Hn & _ & Hp). apply list_elem_of_singleton in Hn as ->. congruence.
    + setoid_rewrite list_elem_of_singleton. split; [intros [= ->]; by split_and!; [|intros ? ->|]|]. by intros (-> & _).
  - assert ((forall n', n' ∈ m :: m' :: ms -> n' = n) -> False) as Hno.
    { intros Hu. apply NoDup_cons in Hnd as [Hm _]. apply Hm. rewrite (Hu m) by constructor.
      rewrite <-(Hu m') by (apply elem_of_cons; right; constructor). constructor. }
    destruct (_ !! hp) as [x|]; cbn [mbind option_bind option_map]; [rewrite has_prefix_app|]; (split; [done|]); by intros (_ & Hu & _).
Qed.

(** what the docker backend cannot honour is refused before anything starts: a
    Task with such a field makes no call at all and fails with the error; in a Task
    that is accepted no Step has envFrom or valueFrom, and for no Step, however its
    references resolve, does the security context or the timeout fail later. *)
Theorem support_checked_first b inv :
  match docker_support (inv_Task inv) with
  | Some e => RunTask b inv = Ret (mkDockerResult "infrafailed" [] ∅ (Some e))
  | None => forall st m st', st ∈ ts_Steps (inv_Task inv) -> substituteStepRefs st m = Ok st' ->
      st_EnvFrom st' = [] /\ (forall e, e ∈ st_Env st -> ev_ValueFrom e = None) /\
      (forall cfg hc, is_ok (applySecurityContext (st_SecurityContext st') cfg hc) = true) /\ is_ok (step_timeout st') = true
  end.
Proof.
  unfold RunTask. destruct (docker_support (inv_Task inv)) as [e|] eqn:Hd; [done|].
  intros st m st' Hin (H1 & H2 & H3)%substituteStepRefs_keeps. unfold docker_support, checkDockerSupport in Hd.
  destruct (first_error _ (ts_Steps _)) eqn:Hf; [done|].
  assert (check_step security_error parseStepTimeout st = None) as Hc by (by apply first_error_none with (ts_Steps (inv_Task inv))).
  unfold check_step in Hc. destruct (checkContainerSupport _ _ _ _ _) eqn:Hcc; [done|].
  apply container_support_none in Hcc as (He & Henv & Hs). rewrite H1, H3. split_and!; [done|done| |].
  - intros cfg hc. by apply security_error_ok.
  - unfold step_timeout. rewrite H2. destruct (is_set (st_Timeout st)); [|done].
    by destruct (parseStepTimeout (st_Timeout st)).
Qed.
End SafetyProperties.

(** ** Examples *)
Section Examples.
#[local] Existing Instance core_unit.
#[local] Existing Instance default_range.

(** Of a hostile stream, only what stays inside is written. *)
Definition ex_stream : list TarEntry * option text :=
  ([mkTarEntry "greet/" 493 TypeDir "" ""; mkTarEntry "greet/greeting" 420 TypeReg "" "hi";
    mkTarEntry "greet/../../etc/passwd" 420 TypeReg "" "root";
    mkTarEntry "greet/l" 420 TypeSymlink "../../etc" "";
    mkTarEntry "greet/m" 420 TypeSymlink "greeting" ""], None).

Definition ex_untar : list (ev DockerE) * result unit * nat := interp ex_answer (untarToDir ex_stream "/r/steps" "greet") 0.

Definition written (e : ev DockerE) : option string :=
  match ev_call e with RootWrite _ rel _ | RootSymlink _ _ rel => Some rel | _ => None end.

Lemma ex_untar_exec : exec (untarToDir ex_stream "/r/steps" "greet") ex_untar.1.1 ex_untar.1.2.
Proof. apply (interp_exec ex_answer _ 0 _ _ ex_untar.2). unfold ex_untar. by destruct (interp _ _ 0) as [[t r] w]. Qed.

Lemma untarToDir_contained_witness :
  omap written ex_untar.1.1 = ["greeting"; "m"] /\ Forall (fun e => inside_call "/r/steps" (ev_call e)) ex_untar.1.1.
Proof.
  split; [vm_compute; reflexivity|].
  refine (untarToDir_contained "/r/steps" "greet" ex_stream _ _ eq_refl _ ex_untar_exec). vm_compute. discriminate.
Defined.

Lemma tar_roundtrip_witness :
  entry_rel "/r" "greet" (mkTarEntry "greet/greet/a.txt" 420 TypeReg "" "x") = Some "greet/a.txt".
Proof.
  refine (tar_roundtrip "/r" "greet" (mkWalkFile "greet/a.txt" 420 TypeReg "" "x") eq_refl _ _ _ _); try (vm_compute; discriminate).
  unfold local_path. split_and!; [reflexivity| |reflexivity].
  change (elems "greet/a.txt") with ["greet"; "a.txt"]. unfold normal, plain. repeat constructor; done.
Defined.

Definition ex_ws_inv : TaskInvocation :=
  mkTaskInvocation "r1" "pr" "t" "pr-t"
    (mkTaskSpec [] [] [mkWorkspaceDecl "src" "" "/src" true false] [] "" "" "" [] None []) ∅
    {["src" := mkWorkspaceMount "/ws/shared" false "a/../b"; "out" := mkWorkspaceMount "/ws/out" false ""]} ∅ "/r" ∅.

Definition ex_mounts : list Mount := [bindMount "/ws/out" "/workspace/out" false; bindMount "/ws/shared/b" "/src" true].

Definition ex_ws_trace : list (ev DockerE) := (interp ex_answer (workspaceMounts ex_backend ex_ws_inv (lit "step")) 0).1.1.

Lemma workspaceMounts_inside_witness :
  Forall2 (workspace_mounted ex_backend ex_ws_inv) ["out"; "src"] ex_mounts.
Proof.
  assert (exec (workspaceMounts ex_backend ex_ws_inv (lit "step")) ex_ws_trace (Ok ex_mounts)) as Ht.
  { apply (interp_exec ex_answer _ 0 _ _ 0). vm_compute. reflexivity. }
  exact (workspaceMounts_inside ex_backend ex_ws_inv (lit "step") ex_ws_trace ex_mounts Ht).
Defined.

(** A subPath that leads out is refused. *)
Example subpath_escape : (interp ex_answer (workspace_mount ex_backend ex_ws_inv (lit "step") "src"
    (mkWorkspaceMount "/ws/shared" false "a/../../etc")) 0).1.2
  = Err (Fmt "%s workspace %q: subPath %q must be a relative path inside the workspace" [TErr (lit "step"); TStr "src"; TStr "a/../../etc"]).
Proof. vm_compute. reflexivity. Qed.

Definition ex_stage : list (ev DockerE) * (option text * Backend) * nat :=
  interp ex_answer (startRemoteStaging ex_backend "r1" {["shared" := "/ws/shared"]}) 0.

Lemma staging_unwinds_witness :
  ex_stage.1.2.1 = None /\ volumes_left [] ex_stage.1.1 = ["tkn-act-r1"] /\
  forall t' r b'', exec (stopRemoteStaging ex_stage.1.2.2) t' (r, b'') ->
    left_behind [] (ex_stage.1.1 ++ t') = [] /\ volumes_left [] (ex_stage.1.1 ++ t') = [].
Proof.
  split; [vm_compute; reflexivity|]. split; [vm_compute; reflexivity|].
  assert (exec (startRemoteStaging ex_backend "r1" {["shared" := "/ws/shared"]}) ex_stage.1.1 (None, ex_stage.1.2.2)) as Ht.
  { apply (interp_exec ex_answer _ 0 _ _ ex_stage.2). vm_compute. reflexivity. }
  exact (staging_unwinds ex_backend "r1" {["shared" := "/ws/shared"]} _ None _ eq_refl eq_refl Ht).
Defined.
End Examples.
