(* ===== verification/Workspace.v ===== *)
(** * internal/workspace: the directories of a run

    [Manager] hands out the host directories of workspaces, results and volumes and
    removes them at the end.  Its methods are programs over the calls of [Fs]; a
    method that changes the receiver returns the new one. *)

From S2P Require Import Prelude GoStrings Paths Effects Fs.

Record Manager := mkManager {
  mg_root : string;
  mg_runID : string;
  mg_allocated : list string;
  mg_resultsDirs : list string;
}.

Definition NewManager (root runID : string) : Manager := mkManager root runID [] [].

Abbreviation fs := (prog FsE).

(** Octal modes. *)
Definition mode_755 : Z := 493.
Definition mode_777 : Z := 511.

Definition mkdirWorldWritable (dir : string) : fs (result unit) :=
  do! _ ← fails (call (MkdirAll dir mode_755));
  fails (call (Chmod dir mode_777)).

Definition Provision (m : Manager) (name userPath : string) : fs (result string * Manager) :=
  if negb (String.eqb userPath "") then
    r ← wrapP "workspace %q path %q: %w" [TStr name; TStr userPath] (fails (call (Stat userPath)));
    Ret (match r with
         | Err e => (Err e, m)
         | Ok st => if fi_IsDir st then (Ok userPath, m)
                    else (Err (Fmt "workspace %q path %q is not a directory" [TStr name; TStr userPath]), m)
         end)
  else
    let dir := Join [mg_root m; mg_runID m; "workspaces"; name] in
    r ← wrapP "mkdir workspace %q: %w" [TStr name] (mkdirWorldWritable dir);
    Ret (match r with
         | Err e => (Err e, m)
         | Ok _ => (Ok dir, mkManager (mg_root m) (mg_runID m) (mg_allocated m ++ [dir]) (mg_resultsDirs m))
         end).

Definition trackResultsDir (m : Manager) (dir : string) : Manager :=
  if existsb (fun d => String.eqb d dir) (mg_resultsDirs m) then m
  else mkManager (mg_root m) (mg_runID m) (mg_allocated m) (mg_resultsDirs m ++ [dir]).

Definition ProvisionResultsDir (m : Manager) (taskName : string) : fs (result string * Manager) :=
  let dir := Join [mg_root m; mg_runID m; "results"; taskName] in
  r ← (do! _ ← wrapP "reset results %q: %w" [TStr taskName] (fails (call (RemoveAll dir)));
       wrapP "mkdir results %q: %w" [TStr taskName] (mkdirWorldWritable dir));
  Ret (match r with Err e => (Err e, m) | Ok _ => (Ok dir, trackResultsDir m dir) end).

Definition ProvisionVolumesDir (m : Manager) (taskName : string) : fs (result string * Manager) :=
  let dir := Join [mg_root m; mg_runID m; "volumes"; taskName] in
  r ← wrapP "mkdir volumes %q: %w" [TStr taskName] (fails (call (MkdirAll dir mode_755)));
  Ret (match r with Err e => (Err e, m) | Ok _ => (Ok dir, trackResultsDir m dir) end).

Definition AllocatedPaths (m : Manager) : list string := mg_allocated m ++ mg_resultsDirs m.

(** The first error, every directory tried. *)
Definition cleanup_step (firstErr : option text) (d : string) : fs (option text) :=
  r ← call (RemoveAll d);
  Ret (match r, firstErr with inr e, None => Some (errno_text e) | _, _ => firstErr end).

Definition Cleanup (m : Manager) : fs (option text) :=
  firstErr ← foldP cleanup_step None (AllocatedPaths m);
  _ ← call (Remove (Join [mg_root m; mg_runID m]));
  Ret firstErr.

(** ** A session: what run.go asks of its manager *)
Inductive request : Type :=
  | ReqWorkspace (name userPath : string)
  | ReqResults (task : string)
  | ReqVolumes (task : string).

Definition provide (m : Manager) (q : request) : fs (result string * Manager) :=
  match q with
  | ReqWorkspace n u => Provision m n u
  | ReqResults t => ProvisionResultsDir m t
  | ReqVolumes t => ProvisionVolumesDir m t
  end.

(** The requests in order, whatever their answers, then the cleanup. *)
Definition session (m : Manager) (qs : list request) : fs (option text) :=
  m' ← foldP (fun m q => rm ← provide m q; Ret rm.2) m qs;
  Cleanup m'.

(** ** The manager's directories *)
Definition subdirs : list string := ["workspaces"; "results"; "volumes"].

(** [d] is a directory of the manager's own. *)
Definition own (m : Manager) (d : string) : Prop :=
  exists sub name, sub ∈ subdirs /\ normal name /\ d = Join [mg_root m; mg_runID m; sub; name].

Definition names_ok (q : request) : Prop :=
  match q with ReqWorkspace n _ => normal n | ReqResults t | ReqVolumes t => normal t end.

(** The calls of a session: its own directories, a look at the user's, and the
    empty run directory. *)
Definition allowed (m : Manager) (qs : list request) (X : Type) (e : FsE X) : Prop :=
  match e with
  | MkdirAll d _ | Chmod d _ | RemoveAll d => own m d
  | Stat u => exists n, ReqWorkspace n u ∈ qs
  | Remove d => d = Join [mg_root m; mg_runID m]
  | _ => False
  end.

Lemma own_key m d :
  normal (mg_runID m) -> own m d ->
  exists sub name, sub ∈ subdirs /\ normal name /\ key d = ((key (mg_root m)).1, (key (mg_root m)).2 ++ [mg_runID m; sub; name]).
Proof.
  intros Hr (sub & name & Hsub & Hn & ->). exists sub, name. split_and!; [done..|]. apply key_Join; [|done].
  repeat constructor; try done; try apply Hn; try apply Hr; unfold subdirs in Hsub; set_solver.
Qed.

Section Facts.
Variables (root runID : string).

(** The manager is the one it was, and tracks only its own directories. *)
Definition tracks (m : Manager) : Prop :=
  mg_root m = root /\ mg_runID m = runID /\ Forall (own (NewManager root runID)) (AllocatedPaths m).

Lemma own_dir m sub name :
  mg_root m = root -> mg_runID m = runID -> sub ∈ subdirs -> normal name ->
  own (NewManager root runID) (Join [mg_root m; mg_runID m; sub; name]).
Proof. intros -> -> ? ?. by exists sub, name. Qed.

Lemma tracks_workspace m d :
  tracks m -> own (NewManager root runID) d ->
  tracks (mkManager (mg_root m) (mg_runID m) (mg_allocated m ++ [d]) (mg_resultsDirs m)).
Proof.
  intros (Hr & Hi & Ha) Hd. split_and!; [done..|]. unfold AllocatedPaths in *. simpl. apply Forall_app in Ha as [Ha Hb].
  rewrite !Forall_app. split_and!; [done|by constructor|done].
Qed.

Lemma tracks_results m d : tracks m -> own (NewManager root runID) d -> tracks (trackResultsDir m d).
Proof.
  intros Ht Hd. unfold trackResultsDir. destruct (existsb _ _); [done|]. destruct Ht as (Hr & Hi & Ha). split_and!; [done..|].
  unfold AllocatedPaths in *. simpl. rewrite app_assoc, Forall_app. split; [done|by constructor].
Qed.

Lemma tracked_dir m d : d ∈ mg_resultsDirs (trackResultsDir m d).
Proof.
  unfold trackResultsDir. destruct (existsb _ _) eqn:E; [|set_solver].
  apply existsb_exists in E as (x & Hx & ->%String.eqb_eq). by apply list_elem_of_In.
Qed.

(** A request keeps the manager's form and makes allowed calls; a directory it
    hands out is either the user's or tracked. *)
Lemma provide_post qs m q :
  q ∈ qs -> names_ok q -> tracks m ->
  calls (allowed (NewManager root runID) qs) (provide m q) /\
  post (provide m q) (fun _ rm => tracks rm.2 /\ AllocatedPaths m ⊆ AllocatedPaths rm.2 /\
    forall d, rm.1 = Ok d -> d ∈ AllocatedPaths rm.2 \/ exists n, q = ReqWorkspace n d).
Proof.
  intros Hq Hn Ht. pose proof Ht as (Hr & Hi & Ha). destruct q as [n u|t|t]; simpl in *.
  - unfold Provision. destruct (String.eqb_spec u "") as [->|Hu]; simpl.
    + pose proof (own_dir m "workspaces" n Hr Hi ltac:(set_solver) Hn) as Ho. split.
      { repeat (split; [done|]; intros []; simpl); done. }
      repeat (apply post_call; intros x; destruct x; simpl); apply post_ret; simpl; try (split_and!; [done..|by intros ? [=]]).
      split_and!; [by apply tracks_workspace|unfold AllocatedPaths; set_solver|].
      intros d [= <-]. left. unfold AllocatedPaths. set_solver.
    + split; [split; [by exists n|by intros []]|]. apply post_call; intros [st|e]; simpl; apply post_ret; simpl; [|by split_and!].
      destruct (fi_IsDir st); split_and!; try done; intros d [= <-]; right; by exists n.
  - pose proof (own_dir m "results" t Hr Hi ltac:(set_solver) Hn) as Ho. split.
    { repeat (split; [done|]; intros []; simpl); done. }
    repeat (apply post_call; intros x; destruct x; simpl); apply post_ret; simpl; try (split_and!; [done..|by intros ? [=]]).
    split_and!; [by apply tracks_results|unfold AllocatedPaths, trackResultsDir; destruct (existsb _ _); simpl; set_solver|].
    intros d [= <-]. left. unfold AllocatedPaths. apply elem_of_app. right. apply tracked_dir.
  - pose proof (own_dir m "volumes" t Hr Hi ltac:(set_solver) Hn) as Ho. split.
    { repeat (split; [done|]; intros []; simpl); done. }
    repeat (apply post_call; intros x; destruct x; simpl); apply post_ret; simpl; try (split_and!; [done..|by intros ? [=]]).
    split_and!; [by apply tracks_results|unfold AllocatedPaths, trackResultsDir; destruct (existsb _ _); simpl; set_solver|].
    intros d [= <-]. left. unfold AllocatedPaths. apply elem_of_app. right. apply tracked_dir.
Qed.
End Facts.

(** ** Theorems *)
Section Session.
Variables (root runID : string) (qs : list request).

Lemma session_calls :
  Forall names_ok qs ->
  post (session (NewManager root runID) qs) (fun t _ => Forall (fun e => allowed (NewManager root runID) qs _ (ev_call e)) t).
Proof.
  intros Hq. unfold session. apply post_bind. eapply post_mono.
  - apply (post_foldP _ (tracks root runID) (fun e => allowed (NewManager root runID) qs _ (ev_call e))).
    + intros m q Hm Hin. apply post_bind. rewrite Forall_forall in Hq.
      destruct (provide_post root runID qs m q Hin (Hq q Hin) Hm) as [Hc Hp]. apply calls_post in Hc.
      eapply post_mono; [exact (post_and _ _ _ Hc Hp)|]. intros t [r m'] (H1 & H2 & _). apply post_ret. by rewrite app_nil_r.
    + by split_and!.
  - intros t m (Ht & Hr & Hi & Ha). unfold Cleanup. apply post_bind. eapply post_mono.
    + apply (post_foldP _ (fun _ => True) (fun e => allowed (NewManager root runID) qs _ (ev_call e))); [|done].
      intros o d _ Hd. rewrite Forall_forall in Ha. apply post_call. intros r. apply post_ret. simpl. split; [|done].
      repeat constructor. simpl. by apply Ha.
    + intros t' o [Ht' _]. apply post_call. intros r. apply post_ret. rewrite !Forall_app. split_and!; [done..|].
      repeat constructor. simpl. by rewrite Hr, Hi.
Qed.
End Session.

(** C30: what a run's manager touches, for every answer of the file system: when the
    names are ordinary file names, it creates, changes and removes only directories
    that lie two levels below root/runID, under "workspaces", "results" or "volumes";
    beyond those it only looks at the paths the user gave and tries to remove the empty
    run directory itself.  So no path of the user's is ever removed. *)
Theorem session_contained root runID qs :
  normal runID -> Forall names_ok qs ->
  post (session (NewManager root runID) qs) (fun t _ => Forall (fun e =>
    match ev_call e with
    | MkdirAll d _ | Chmod d _ | RemoveAll d =>
        exists sub name, sub ∈ subdirs /\ normal name /\ key d = ((key root).1, (key root).2 ++ [runID; sub; name])
    | Stat u => exists n, ReqWorkspace n u ∈ qs
    | Remove d => key d = child (key root) runID
    | _ => False
    end) t).
Proof.
  intros Hr Hq. eapply post_mono; [by apply session_calls|]. intros t o Ht. eapply Forall_impl; [exact Ht|]. intros [X e x]. simpl.
  destruct e; simpl; try done; try (intros Ho; exact (own_key (NewManager root runID) _ Hr Ho)).
  intros ->. by apply key_child.
Qed.

Lemma cleanup_fold l o :
  post (foldP cleanup_step o l) (fun t r => exists answers, length answers = length l /\
    t = zip_with (fun d a => Ev (RemoveAll d) a) l answers /\
    r = match o with Some e => Some e | None => head (omap (fun a : unit + errno => match a with inr e => Some (errno_text e) | inl _ => None end) answers) end).
Proof.
  revert o; induction l as [|d l IH]; intros o; simpl.
  - apply post_ret. exists []. by destruct o.
  - apply post_call. intros a. simpl. eapply post_mono; [apply IH|]. intros t r (ans & Hl & -> & ->). exists (a :: ans).
    split_and!; [simpl; by f_equal|done|]. by destruct a, o.
Qed.

(** the cleanup is complete: every directory the manager tracks is removed, in
    order, whether or not removing an earlier one failed; then the run directory is
    removed if it is empty, and the first failure is reported. *)
Theorem Cleanup_complete m :
  post (Cleanup m) (fun t r => exists answers last, length answers = length (AllocatedPaths m) /\
    t = zip_with (fun d a => Ev (RemoveAll d) a) (AllocatedPaths m) answers ++
        [Ev (Remove (Join [mg_root m; mg_runID m])) last] /\
    r = head (omap (fun a : unit + errno => match a with inr e => Some (errno_text e) | inl _ => None end) answers)).
Proof.
  unfold Cleanup. apply post_bind. eapply post_mono; [apply cleanup_fold|]. intros t r (ans & Hl & -> & ->).
  apply post_call. intros a. apply post_ret. by exists ans, a.
Qed.

(** *** On a file system *)
Lemma run_mkdirWorldWritable d w w' :
  run_fs (mkdirWorldWritable d) w = (Ok tt, w') ->
  exists f, mkdir_path (w_now w) mode_755 (IsAbs d) [] (elems d) (w_tree w) = Some f /\
    (forall j, contents (w_tree w') j = contents f j) /\ (forall j, folder_at (w_tree w') j = folder_at f j).
Proof.
  unfold mkdirWorldWritable. rewrite run_try, run_fails. simpl.
  destruct (mkdir_path _ _ _ _ _ _) as [f|] eqn:E; [|done]. rewrite run_fails. simpl. unfold on_node. simpl.
  destruct (find f (key d)) as [n|] eqn:Hf; [|done]. intros [= <-]. exists f. split; [done|]. by apply put_mode.
Qed.

Lemma renewed_ext k f f1 f2 :
  renewed k f f1 -> (forall j, contents f2 j = contents f1 j) -> (forall j, folder_at f2 j = folder_at f1 j) -> renewed k f f2.
Proof.
  intros (H1 & H2 & H3 & H4) Hc Hf. split_and!; [by rewrite Hf| |intros j; rewrite Hc; apply H3|intros j; rewrite Hc; apply H4].
  rewrite names_in_nil in H2 |- *. intros e. specialize (H2 e). rewrite lookup_None_iff in H2 |- * by apply child_nonempty.
  by rewrite Hc, Hf.
Qed.

(** every attempt of a task starts with an empty results directory: on any file
    system, when [ProvisionResultsDir] succeeds the directory it returns is an empty
    folder that the manager tracks, everything that was in it is gone, and no file
    outside it has changed. *)
Theorem ProvisionResultsDir_fresh m task w d m' w' :
  run_fs (ProvisionResultsDir m task) w = ((Ok d, m'), w') ->
  d = Join [mg_root m; mg_runID m; "results"; task] /\ d ∈ mg_resultsDirs m' /\
  renewed (key d) (w_tree w) (w_tree w').
Proof.
  unfold ProvisionResultsDir. set (dir := Join _). rewrite run_bind, run_try, run_wrap, run_fails. simpl.
  destruct (blocked _ _); [done|]. case_bool_decide as Hne; [done|]. simpl. rewrite run_wrap.
  destruct (run_fs (mkdirWorldWritable dir) _) as [[[]|] w1] eqn:E; simpl; [|done]. intros [= <- <- <-].
  split; [done|]. split; [apply tracked_dir|]. apply run_mkdirWorldWritable in E as (f & Hm & Hc & Hf). simpl in Hm.
  eapply renewed_ext; [|done..]. by eapply renew_folder.
Qed.

Lemma ProvisionResultsDir_fresh_witness :
  let w := mkWorld 0 (<[(true, ["c"; "run"; "results"; "t"; "out"]) := File 420 0 "old"]>
             (<[(true, ["c"; "run"; "results"; "t"]) := Folder 493 0]> (<[(true, ["c"; "run"; "results"]) := Folder 493 0]>
             (<[(true, ["c"; "run"]) := Folder 493 0]> {[(true, ["c"]) := Folder 493 0]})))) in
  exists w', names_in (w_tree w') (true, ["c"; "run"; "results"; "t"]) = [] /\
    renewed (key "/c/run/results/t") (w_tree w) (w_tree w').
Proof.
  intros w. pose proof (ProvisionResultsDir_fresh (NewManager "/c" "run") "t" w "/c/run/results/t" _ _ eq_refl) as (_ & _ & H).
  eexists. split; [exact (proj1 (proj2 H))|exact H].
Defined.

Lemma session_contained_witness :
  normal "run" /\
  post (session (NewManager "/c" "run") [ReqWorkspace "src" ""; ReqResults "build"; ReqVolumes "build"]) (fun t _ => Forall (fun e =>
    match ev_call e with
    | MkdirAll d _ | Chmod d _ | RemoveAll d =>
        exists sub name, sub ∈ subdirs /\ normal name /\ key d = ((key "/c").1, (key "/c").2 ++ ["run"; sub; name])
    | Stat u => exists n, ReqWorkspace n u ∈ [ReqWorkspace "src" ""; ReqResults "build"; ReqVolumes "build"]
    | Remove d => key d = child (key "/c") "run"
    | _ => False
    end) t).
Proof.
  split; [by repeat split|]. apply (session_contained "/c" "run" [ReqWorkspace "src" ""; ReqResults "build"; ReqVolumes "build"]); [by repeat split|].
  by repeat (apply Forall_cons; split; [by repeat split|]).
Defined.

(** ** What ordinary names are needed for *)

Definition home_world : world :=
  mkWorld 0 (<[(true, ["home"; "me"; "thesis"]) := File 420 0 "text"]>
    (<[(true, ["home"; "me"]) := Folder 493 0]> (<[(true, ["home"]) := Folder 493 0]> {[(true, ["c"]) := Folder 493 0]}))).

(** Nothing upstream restricts the names of workspaces and tasks, and [Join] resolves
    their "..": the directory of a task so named is emptied before it runs, and the one
    of a workspace so named is removed at the end. *)
Theorem names_escape :
  contents (w_tree home_world) (true, ["home"; "me"; "thesis"]) = Some "text" /\
  contents (w_tree (run_fs (ProvisionResultsDir (NewManager "/c" "run") "../../../home/me") home_world).2)
    (true, ["home"; "me"; "thesis"]) = None /\
  contents (w_tree (run_fs (session (NewManager "/c" "run") [ReqWorkspace "../../../home/me" ""]) home_world).2)
    (true, ["home"; "me"; "thesis"]) = None.
Proof. vm_compute. done. Qed.

(** [Provision] says it creates a fresh directory; it keeps what is there. *)
Theorem Provision_not_fresh m name w d m' w' :
  run_fs (Provision m name "") w = ((Ok d, m'), w') -> forall j, contents (w_tree w') j = contents (w_tree w) j.
Proof.
  unfold Provision. change (negb (String.eqb "" "")) with false. cbv iota zeta. set (dir := Join _). rewrite run_bind, run_wrap.
  destruct (run_fs (mkdirWorldWritable dir) w) as [[[]|] w1] eqn:E; simpl; [|done]. intros [= <- <- <-] j.
  apply run_mkdirWorldWritable in E as (f & Hm & Hc & _). rewrite Hc. exact (proj1 (mkdir_path_Some _ _ _ [] _ _ _ Hm) j).
Qed.
