(* ===== verification/Volumes.v ===== *)
(** * internal/volumes: configMaps, secrets and the volumes of a Task on disk

    [Store] layers three sources of bytes; [MaterializeForTask] turns the volumes of a
    Task into host directories. *)

From S2P Require Import Prelude GoStrings Paths Effects Fs TektonTypes Workspace.

Record Store := mkStore {
  str_Dir : string;
  str_Inline : gmap string (gmap string string);   (* name -> key -> value *)
  str_Bundle : gmap string (gmap string string);
}.

Definition NewStore (dir : string) : Store := mkStore dir ∅ ∅.

Definition Add (s : Store) (name key value : string) : Store :=
  mkStore (str_Dir s) (<[name := <[key := value]> (default ∅ (str_Inline s !! name))]> (str_Inline s)) (str_Bundle s).

Definition Reset (s : Store) : Store := mkStore (str_Dir s) ∅ ∅.

(** [for k, v := range kvs { out[k] = v }]. *)
Definition put_all (kvs : list (string * string)) (out : gmap string string) : gmap string string :=
  foldl (fun o kv => <[kv.1 := kv.2]> o) out kvs.

Section Order.
Context `{MapRange}.

Definition LoadBytes (s : Store) (name : string) (bytesByKey : gmap string string) : Store :=
  if decide (bytesByKey = ∅) then s
  else mkStore (str_Dir s) (str_Inline s)
         (<[name := put_all (map_range bytesByKey) (default ∅ (str_Bundle s !! name))]> (str_Bundle s)).

(** One entry of the on-disk directory. *)
Definition read_entry (name base : string) (out : gmap string string) (e : DirEntry) : fs (result (gmap string string)) :=
  if de_IsDir e then Ret (Ok out)
  else do! data ← wrapP "read %s/%s: %w" [TStr name; TStr (de_Name e)] (fails (call (ReadFile (Join [base; de_Name e]))));
       Ret (Ok (<[de_Name e := data]> out)).

Definition read_dir_layer (s : Store) (name : string) (out : gmap string string) : fs (result (gmap string string)) :=
  if String.eqb (str_Dir s) "" then Ret (Ok out)
  else
    let base := Join [str_Dir s; name] in
    r ← call (ReadDir base);
    match r with
    | inl entries => foldT (read_entry name base) out entries
    | inr (NotExist _) => Ret (Ok out)
    | inr (OtherErr e) => Ret (Err (Fmt "read source %s: %w" [TStr name; TErr e]))
    end.

Definition no_keys (s : Store) (name : string) : text :=
  Fmt "source %q has no keys (looked in %s, inline overrides, and -f-loaded resources; pass --configmap/--secret, populate the dir, or include kind: ConfigMap/Secret in -f)"
    [TStr name; TStr (str_Dir s)].

Definition Resolve (s : Store) (name : string) : fs (result (gmap string string)) :=
  let out := put_all (map_range (default ∅ (str_Bundle s !! name))) ∅ in
  do! out ← read_dir_layer s name out;
  let out := put_all (map_range (default ∅ (str_Inline s !! name))) out in
  Ret (if decide (out = ∅) then Err (no_keys s name) else Ok out).

Definition isTrue (b : option bool) : bool := match b with Some b => b | None => false end.

Definition validateProjectedPath (p : string) : option text :=
  if IsAbs p || contains p ".." then
    Some (lit ("must be a relative path without " +:+ String "034" ".." +:+ String "034" " (path traversal)"))
  else None.

(** Without [items]: one file per key, named like the key. *)
Definition write_key (dst : string) (_ : unit) (kv : string * string) : fs (result unit) :=
  match validateProjectedPath kv.1 with
  | Some e => Ret (Err e)
  | None => fails (call (WriteFile (Join [dst; kv.1]) kv.2 420))
  end.

Definition item_path (it : KeyToPath) : string := if String.eqb (kp_Path it) "" then kp_Key it else kp_Path it.

(** With [items]: the listed keys, at their paths. *)
Definition write_item (dst name : string) (optional : bool) (bytesByKey : gmap string string) (_ : unit) (it : KeyToPath) : fs (result unit) :=
  match bytesByKey !! kp_Key it with
  | None =>
    if optional then Ret (Ok tt)
    else Ret (Err (Fmt "source %q has no key %q (declared in items)" [TStr name; TStr (kp_Key it)]))
  | Some v =>
    match validateProjectedPath (item_path it) with
    | Some e => Ret (Err (Fmt "items.path %q must be a relative path inside the volume: %w" [TStr (item_path it); TErr e]))
    | None =>
      let full := Join [dst; item_path it] in
      do! _ ← fails (call (MkdirAll (Dir full) mode_755));
      fails (call (WriteFile full v 420))
    end
  end.

Definition source_bytes (store : option Store) (name : string) (optional : bool) : fs (result (gmap string string)) :=
  match store with
  | Some s =>
    r ← Resolve s name;
    Ret (match r with Err e => if optional then Ok ∅ else Err e | Ok m => Ok m end)
  | None => Ret (if optional then Ok ∅ else Err (Fmt "source %q: no store configured" [TStr name]))
  end.

Definition materializeKeyValueDir (dst : string) (store : option Store) (name : string) (items : list KeyToPath) (optional : bool)
  : fs (result string) :=
  do! bytesByKey ← source_bytes store name optional;
  do! _ ← fails (call (RemoveAll dst));
  do! _ ← fails (call (MkdirAll dst mode_755));
  do! _ ← match items with
          | [] => foldT (write_key dst) tt (map_range bytesByKey)
          | _ => foldT (write_item dst name optional bytesByKey) tt items
          end;
  Ret (Ok dst).

(** One volume: its host directory. *)
Definition materialize_volume (taskName baseDir : string) (cm sec : option Store) (v : Volume) : fs (result string) :=
  match vol_EmptyDir v, vol_HostPath v, vol_ConfigMap v, vol_Secret v with
  | Some _, _, _, _ =>
    let d := Join [baseDir; "emptyDir-" +:+ vol_Name v] in
    wrapP "volume %q: %w" [TStr (vol_Name v)]
      (do! _ ← fails (call (RemoveAll d));
       do! _ ← fails (call (MkdirAll d mode_755));
       Ret (Ok d))
  | None, Some h, _, _ => Ret (Ok (hp_Path h))
  | None, None, Some c, _ =>
    wrapP "volume %q (configMap %q): %w" [TStr (vol_Name v); TStr (cm_Name c)]
      (materializeKeyValueDir (Join [baseDir; "cm-" +:+ vol_Name v]) cm (cm_Name c) (cm_Items c) (isTrue (cm_Optional c)))
  | None, None, None, Some s =>
    wrapP "volume %q (secret %q): %w" [TStr (vol_Name v); TStr (sec_SecretName s)]
      (materializeKeyValueDir (Join [baseDir; "sec-" +:+ vol_Name v]) sec (sec_SecretName s) (sec_Items s) (isTrue (sec_Optional s)))
  | None, None, None, None =>
    Ret (Err (Fmt "task %q volume %q: unsupported source" [TStr taskName; TStr (vol_Name v)]))
  end.

Definition materialize_into (taskName baseDir : string) (cm sec : option Store) (out : gmap string string) (v : Volume)
  : fs (result (gmap string string)) :=
  do! d ← materialize_volume taskName baseDir cm sec v; Ret (Ok (<[vol_Name v := d]> out)).

(** The nil map of a Task without volumes is the empty one. *)
Definition MaterializeForTask (taskName : string) (vs : list Volume) (baseDir : string) (cm sec : option Store)
  : fs (result (gmap string string)) :=
  match vs with
  | [] => Ret (Ok ∅)
  | _ =>
    do! _ ← wrapP "mkdir %s: %w" [TStr baseDir] (fails (call (MkdirAll baseDir mode_755)));
    foldT (materialize_into taskName baseDir cm sec) ∅ vs
  end.
End Order.

(** ** Where volumes are written *)
Definition volume_prefixes : list string := ["emptyDir-"; "cm-"; "sec-"].

Lemma volume_dir_normal pre name : pre ∈ volume_prefixes -> plain name -> normal (pre +:+ name).
Proof.
  intros Hpre Hn. split.
  - unfold plain in *. rewrite no_byte_app, Hn. unfold volume_prefixes in Hpre.
    repeat (apply elem_of_cons in Hpre as [->|Hpre]; [done|]). by apply not_elem_of_nil in Hpre.
  - unfold volume_prefixes in Hpre. repeat (apply elem_of_cons in Hpre as [->|Hpre]; [done|]). by apply not_elem_of_nil in Hpre.
Qed.

Lemma validateProjectedPath_None p : validateProjectedPath p = None -> IsAbs p = false /\ contains p ".." = false.
Proof. unfold validateProjectedPath. by destruct (IsAbs p), (contains p ".."). Qed.

Section Contained.
Context `{MapRange}.
Variables (baseDir : string) (vs : list Volume).

(** [k] is in the directory of one of the volumes. *)
Definition in_volume (k : path) : Prop :=
  exists v pre, v ∈ vs /\ pre ∈ volume_prefixes /\ under (child (key baseDir) (pre +:+ vol_Name v)) k.

Definition volume_call (X : Type) (e : FsE X) : Prop :=
  match e with
  | RemoveAll p | WriteFile p _ _ => in_volume (key p)
  | MkdirAll p _ => under (key baseDir) (key p)
  | ReadDir _ | ReadFile _ => True
  | _ => False
  end.

Lemma Resolve_calls s name : calls volume_call (Resolve s name).
Proof.
  unfold Resolve. apply calls_try; [|done]. unfold read_dir_layer. destruct (String.eqb _ _); [done|].
  split; [done|]. intros [entries|[e|e]]; simpl; [|done..]. apply calls_foldT. intros out e. unfold read_entry.
  destruct (de_IsDir e); [done|]. apply calls_try; [by apply calls_wrap, calls_fails|done].
Qed.

Lemma materializeKeyValueDir_calls dst store name items optional v pre :
  v ∈ vs -> pre ∈ volume_prefixes -> key dst = child (key baseDir) (pre +:+ vol_Name v) ->
  calls volume_call (materializeKeyValueDir dst store name items optional).
Proof.
  intros Hv Hpre Hd. assert (forall k, under (key dst) k -> in_volume k) as Hin by (intros k Hk; exists v, pre; by rewrite <-Hd).
  assert (under (key baseDir) (key dst)) as Hb by (rewrite Hd; apply under_child).
  unfold materializeKeyValueDir. apply calls_try.
  { unfold source_bytes. destruct store; [|done]. by apply calls_bind; [apply Resolve_calls|]. }
  intros m. apply calls_try; [by apply calls_fails, Hin, under_refl|]. intros _.
  apply calls_try; [by apply calls_fails|]. intros _. apply calls_try; [|done]. destruct items as [|it items].
  - apply calls_foldT. intros [] [k d]. unfold write_key. destruct (validateProjectedPath _) eqn:E; [done|].
    apply validateProjectedPath_None in E as [Ha Hc]. apply calls_fails. cbn [fst snd] in *. apply Hin.
    rewrite key_no_dots by done. apply under_app.
  - apply calls_foldT. intros [] it'. unfold write_item. destruct (m !! _) as [d|]; [|by destruct optional].
    destruct (validateProjectedPath _) eqn:E; [done|]. apply validateProjectedPath_None in E as [Ha Hc].
    apply calls_try; [apply calls_fails|intros _; apply calls_fails]; unfold volume_call.
    + rewrite key_Dir_Join, key_no_dots by done. destruct (decide (elems (item_path it') = [])) as [He|He].
      * rewrite He, app_nil_r, Hd. unfold child, parent. simpl. rewrite List.removelast_last. by apply under_refl.
      * eapply under_trans; [exact Hb|]. destruct (exists_last He) as (l & e & ->). unfold parent. simpl.
        rewrite app_assoc, List.removelast_last. apply under_app.
    + apply Hin. rewrite key_no_dots by done. apply under_app.
Qed.

Lemma MaterializeForTask_calls taskName cm sec :
  Forall (fun v => plain (vol_Name v)) vs -> calls volume_call (MaterializeForTask taskName vs baseDir cm sec).
Proof.
  intros Hn. unfold MaterializeForTask. destruct vs as [|v0 vs0] eqn:Hvs; [done|]. rewrite <-Hvs in *.
  apply calls_try; [by apply calls_wrap, calls_fails, under_refl|]. intros _.
  assert (forall l, l ⊆ vs -> forall out, calls volume_call (foldT (materialize_into taskName baseDir cm sec) out l)) as Hl.
  { intros l. induction l as [|v l IH]; intros Hl out; simpl; [done|]. assert (v ∈ vs) as Hv by set_solver.
    apply calls_try; [|intros o; apply IH; set_solver]. apply calls_try; [|done].
    rewrite Forall_forall in Hn. specialize (Hn v Hv).
    assert (forall pre, pre ∈ volume_prefixes -> key (Join [baseDir; pre +:+ vol_Name v]) = child (key baseDir) (pre +:+ vol_Name v)) as Hk
      by (intros pre Hp; by apply key_child, volume_dir_normal).
    unfold materialize_volume. destruct (vol_EmptyDir v).
    - apply calls_wrap, calls_try; [|intros _; apply calls_try; [|done]]; apply calls_fails; unfold volume_call; rewrite (Hk "emptyDir-") by (unfold volume_prefixes; set_solver).
      + exists v, "emptyDir-". split_and!; [done|unfold volume_prefixes; set_solver|apply under_refl].
      + apply under_child.
    - destruct (vol_HostPath v); [done|]. destruct (vol_ConfigMap v); [|destruct (vol_Secret v); [|done]]; apply calls_wrap;
        (eapply materializeKeyValueDir_calls; [done| |apply Hk]; unfold volume_prefixes; set_solver). }
  by apply Hl.
Qed.
End Contained.

(** ** What the store resolves to *)
Section Layers.
Context `{MapRange}.

Lemma put_all_lookup l out k :
  NoDup l.*1 -> put_all l out !! k = match list_to_map (M:=gmap string string) l !! k with Some v => Some v | None => out !! k end.
Proof.
  revert out; induction l as [|[x v] l IH]; intros out Hnd; simpl; [by rewrite lookup_empty|].
  apply NoDup_cons in Hnd as [Hx Hnd]. unfold put_all in *. rewrite IH by done. destruct (decide (x = k)) as [->|Hne].
  - rewrite !lookup_insert_eq. simpl. by rewrite not_elem_of_list_to_map_1.
  - by rewrite !lookup_insert_ne.
Qed.

Lemma put_all_range (m out : gmap string string) : put_all (map_range m) out = m ∪ out.
Proof.
  apply map_eq. intros k. rewrite put_all_lookup by apply map_range_keys_NoDup.
  rewrite (list_to_map_proper (map_range m) (map_to_list m)), list_to_map_to_list; [|apply map_range_keys_NoDup|apply map_range_perm].
  rewrite lookup_union. destruct (m !! k), (out !! k); done.
Qed.

(** The three layers of a name; a key of a higher one hides it below. *)
Definition dir_layer (s : Store) (name : string) (f : tree) : gmap string string :=
  if String.eqb (str_Dir s) "" then ∅ else dir_files f (key (Join [str_Dir s; name])).

Definition layered (s : Store) (name : string) (f : tree) : gmap string string :=
  default ∅ (str_Inline s !! name) ∪ (dir_layer s name f ∪ default ∅ (str_Bundle s !! name)).

(** What is found where the on-disk directory should be is not a directory. *)
Definition dir_broken (s : Store) (name : string) (f : tree) : Prop :=
  let k := key (Join [str_Dir s; name]) in
  str_Dir s <> "" /\ (is_file (find f k) = true \/ find f k = None /\ blocked f k = true).

Lemma names_in_normal f k : wf f -> Forall normal (names_in f k).
Proof.
  intros Hwf. apply Forall_forall. intros e [n Hn]%elem_of_names_in. destruct (Hwf _ _ Hn) as (_ & Hnm & _).
  unfold child in Hnm. cbn [snd] in Hnm. rewrite Forall_app, Forall_singleton in Hnm. by destruct Hnm.
Qed.

(** What is not a folder has no files. *)
Lemma no_folder_no_files f k e : wf f -> folder_at f k = false -> contents f (child k e) = None.
Proof.
  intros Hwf Hk. unfold contents. destruct (f !! child k e) as [n|] eqn:E; [|done]. destruct (Hwf _ _ E) as (_ & _ & Hp).
  by rewrite parent_child, Hk in Hp.
Qed.

Lemma run_read_entries name base w l out :
  Forall normal l -> (forall e, e ∈ l -> is_Some (w_tree w !! child (key base) e)) ->
  exists out', run_fs (foldT (read_entry name base) out
                 (map (fun e => mkDirEntry e (is_folder (w_tree w !! child (key base) e))) l)) w = (Ok out', w) /\
    forall k, out' !! k = if decide (k ∈ l) then match contents (w_tree w) (child (key base) k) with Some d => Some d | None => out !! k end
                          else out !! k.
Proof.
  revert out; induction l as [|e l IH]; intros out Hn Hs; [by exists out|].
  apply Forall_cons in Hn as [He Hn]. cbn [map foldT]. rewrite run_try.
  assert (exists out1, run_fs (read_entry name base out (mkDirEntry e (is_folder (w_tree w !! child (key base) e)))) w = (Ok out1, w) /\
            forall k, out1 !! k = if decide (k = e) then match contents (w_tree w) (child (key base) k) with Some d => Some d | None => out !! k end else out !! k) as (out1 & -> & H1).
  { unfold read_entry. cbn [de_IsDir de_Name]. destruct (Hs e) as [n Hnode]; [by left|]. rewrite Hnode.
    assert (find (w_tree w) (key (Join [base; e])) = Some n) as Hf.
    { rewrite key_child by done. unfold find. destruct (child (key base) e).2 eqn:El; [by destruct (child_nonempty (key base) e)|done]. }
    destruct n as [m t d|m t]; cbn [is_folder].
    - exists (<[e:=d]> out). rewrite run_try, run_wrap, run_fails. cbn [fs_answer]. rewrite Hf. destruct w as [now f]. cbn. split; [done|].
      intros k. case_decide as Hk; [subst k; rewrite lookup_insert_eq|by rewrite lookup_insert_ne].
      unfold contents. cbn in Hnode. by rewrite Hnode.
    - exists out. split; [done|]. intros k. case_decide as Hk; [subst k|done]. unfold contents. by rewrite Hnode. }
  destruct (IH out1) as (out' & -> & H'); [done|intros x Hx; apply Hs; by right|]. exists out'. split; [done|].
  intros k. rewrite H', H1. destruct (decide (k ∈ l)) as [Hk|Hk].
  - rewrite (decide_True (P:=k ∈ e :: l)) by by right. destruct (contents _ _); [done|]. by case_decide.
  - destruct (decide (k = e)) as [->|Hke]; [by rewrite (decide_True (P:=e ∈ e :: l)) by by left|].
    by rewrite (decide_False (P:=k ∈ e :: l)) by by apply not_elem_of_cons.
Qed.
Lemma run_read_dir_layer s name out w :
  wf (w_tree w) ->
  match run_fs (read_dir_layer s name out) w with
  | (Ok out', w') => w' = w /\ ~ dir_broken s name (w_tree w) /\ out' = dir_layer s name (w_tree w) ∪ out
  | (Err _, w') => w' = w /\ dir_broken s name (w_tree w)
  end.
Proof.
  intros Hwf. unfold read_dir_layer, dir_layer, dir_broken. destruct (String.eqb_spec (str_Dir s) "") as [Hd|Hd].
  { simpl. split_and!; [done|by intros [? _]|by rewrite (left_id_L ∅ (∪))]. }
  set (base := Join [str_Dir s; name]) in *. unfold call. rewrite run_bind, run_call. cbn [fs_answer].
  destruct (find (w_tree w) (key base)) as [[m t d|m t]|] eqn:E; cbn [run].
  - simpl. split; [done|]. split; [done|]. by left.
  - rewrite run_ret. destruct (run_read_entries name base w (names_in (w_tree w) (key base)) out) as (out' & Hr & Hl).
    { by apply names_in_normal. }
    { intros e. apply elem_of_names_in. }
    replace (mkWorld (w_now w) (w_tree w)) with w by by destruct w. rewrite Hr. split; [done|]. split.
    { by intros [_ [?|[? _]]]. }
    apply map_eq. intros k. rewrite Hl, lookup_union, lookup_dir_files. case_decide as Hk.
    + by destruct (contents _ _), (out !! k).
    + assert (contents (w_tree w) (child (key base) k) = None) as ->.
      { unfold contents. destruct (w_tree w !! child (key base) k) eqn:Ek; [|done]. destruct Hk. apply elem_of_names_in. by rewrite Ek. }
      by destruct (out !! k).
  - rewrite run_ret. unfold missing. destruct (blocked _ _) eqn:Eb; simpl.
    + split; [done|]. split; [done|]. by right.
    + split; [done|]. split; [by intros [_ [?|[_ ?]]]|]. symmetry. apply map_eq. intros k. rewrite lookup_union, lookup_dir_files.
      rewrite no_folder_no_files; [by destruct (out !! k)|done|]. unfold folder_at. by rewrite E.
Qed.

(** a configMap or secret resolves, on any well-formed file system, to the union of
    its three layers, in which an inline override hides the on-disk file of the same
    key and that hides what the -f stream declared; nothing is written.  It fails
    exactly when the on-disk directory cannot be read or when no layer has a key. *)
Theorem Resolve_layers s name w :
  wf (w_tree w) ->
  match run_fs (Resolve s name) w with
  | (Ok m, w') => w' = w /\ m = layered s name (w_tree w) /\ m <> ∅ /\ ~ dir_broken s name (w_tree w)
  | (Err e, w') => w' = w /\ (dir_broken s name (w_tree w) \/ layered s name (w_tree w) = ∅ /\ e = no_keys s name)
  end.
Proof.
  intros Hwf. unfold Resolve. cbv zeta. rewrite put_all_range, (right_id_L ∅ (∪)), run_try.
  pose proof (run_read_dir_layer s name (default ∅ (str_Bundle s !! name)) w Hwf) as Hl.
  destruct (run_fs (read_dir_layer s name _) w) as [[out'|e] w1].
  - destruct Hl as (-> & Hb & ->). rewrite put_all_range, run_ret. fold (layered s name (w_tree w)).
    destruct (decide (layered s name (w_tree w) = ∅)) as [He|He]; [|done]. split; [done|]. by right.
  - destruct Hl as (-> & Hb). split; [done|]. by left.
Qed.
End Layers.

(** ** What is on disk afterwards *)
Section Materialized.
Context `{MapRange}.

(** The bytes at [j] after writing [l] below [dst], given those before. *)
Definition last_write (dst : string) (l : list (string * string)) (j : path) (o : option string) : option string :=
  foldl (fun o pv => if decide (j = key (Join [dst; pv.1])) then Some pv.2 else o) o l.

(** The files a projection writes. *)
Definition item_writes (m : gmap string string) (items : list KeyToPath) : list (string * string) :=
  omap (fun it => pair (item_path it) <$> m !! kp_Key it) items.

Definition projection (m : gmap string string) (items : list KeyToPath) (l : list (string * string)) : Prop :=
  match items with [] => l ≡ₚ map_to_list m | _ => l = item_writes m items end.

Lemma last_write_outside dst l j o :
  Forall (fun pv => validateProjectedPath pv.1 = None) l -> ~ under (key dst) j -> last_write dst l j o = o.
Proof.
  intros Hl Hj. revert o; induction Hl as [|[p v] l Hp Hl IH]; intros o; [done|]. unfold last_write in *. cbn [foldl].
  rewrite IH. case_decide as E; [|done]. destruct Hj. rewrite E. apply validateProjectedPath_None in Hp as [Ha Hc].
  cbn [fst] in *. rewrite key_no_dots by done. apply under_app.
Qed.

Lemma run_write_keys dst l w w' :
  run_fs (foldT (write_key dst) tt l) w = (Ok tt, w') ->
  Forall (fun pv => validateProjectedPath pv.1 = None) l /\
  forall j, contents (w_tree w') j = last_write dst l j (contents (w_tree w) j).
Proof.
  revert w; induction l as [|[p v] l IH]; intros w; [by intros [= <-]|]. cbn [foldT]. rewrite run_try.
  unfold write_key at 1. cbn [fst snd]. destruct (validateProjectedPath p) eqn:Hp; [done|].
  destruct (run_fs (fails _) w) as [[[]|] w1] eqn:E; [|done]. intros [Hl Hc]%IH. split; [by constructor|]. intros j.
  rewrite Hc. unfold last_write. cbn [foldl fst snd]. by rewrite (run_WriteFile _ _ _ _ _ E).
Qed.

Lemma run_write_items dst name optional m items w w' :
  run_fs (foldT (write_item dst name optional m) tt items) w = (Ok tt, w') ->
  Forall (fun pv => validateProjectedPath pv.1 = None) (item_writes m items) /\
  (optional = false -> forall it, it ∈ items -> is_Some (m !! kp_Key it)) /\
  forall j, contents (w_tree w') j = last_write dst (item_writes m items) j (contents (w_tree w) j).
Proof.
  revert w; induction items as [|it items IH]; intros w.
  { intros [= <-]. split_and!; [done|by intros _ ? ?%not_elem_of_nil|done]. }
  cbn [foldT]. rewrite run_try. unfold write_item at 1, item_writes. cbn [omap list_omap]. fold (item_writes m items).
  destruct (m !! kp_Key it) as [v|] eqn:Hm; cbn [fmap option_fmap option_map].
  - destruct (validateProjectedPath (item_path it)) eqn:Hp; [done|]. rewrite run_try.
    destruct (run_fs (fails (call (MkdirAll _ _))) w) as [[[]|] w1] eqn:E1; [|done].
    destruct (run_fs (fails (call (WriteFile _ _ _))) w1) as [[[]|] w2] eqn:E2; [|done]. intros (H1 & H2 & H3)%IH.
    split_and!; [by constructor| |].
    + intros Ho x [->|Hx]%elem_of_cons; [by rewrite Hm|by apply H2].
    + intros j. apply run_MkdirAll in E1 as [_ E1]. rewrite H3, (run_WriteFile _ _ _ _ _ E2), E1. done.
  - destruct optional; [|done]. intros (H1 & H2 & H3)%IH. by split_and!.
Qed.

Lemma run_source store name optional w m w' :
  wf (w_tree w) -> run_fs (source_bytes store name optional) w = (Ok m, w') ->
  w' = w /\
  ((exists s, store = Some s /\ m = layered s name (w_tree w) /\ m <> ∅) \/ optional = true /\ m = ∅).
Proof.
  intros Hwf. unfold source_bytes. destruct store as [s|].
  - rewrite run_bind. pose proof (Resolve_layers s name w Hwf) as Hr. destruct (run_fs (Resolve s name) w) as [[x|e] w1].
    + destruct Hr as (-> & -> & Hne & _). rewrite run_ret. intros [= <- <-]. split; [done|]. left. by exists s.
    + destruct Hr as [-> _]. rewrite run_ret. destruct optional; [|done]. intros [= <- <-]. split; [done|]. by right.
  - rewrite run_ret. destruct optional; [|done]. intros [= <- <-]. split; [done|]. by right.
Qed.

(** The outcome of a materialised source. *)
Definition projected (dst : string) (store : option Store) (name : string) (items : list KeyToPath) (optional : bool) (f f' : tree) : Prop :=
  exists m l,
    ((exists s, store = Some s /\ m = layered s name f /\ m <> ∅) \/ optional = true /\ m = ∅) /\
    projection m items l /\
    (optional = false -> forall it, it ∈ items -> is_Some (m !! kp_Key it)) /\
    forall j, contents f' j = if decide (under (key dst) j) then last_write dst l j None else contents f j.

Lemma run_materializeKeyValueDir dst store name items optional w d w' :
  wf (w_tree w) -> run_fs (materializeKeyValueDir dst store name items optional) w = (Ok d, w') ->
  d = dst /\ projected dst store name items optional (w_tree w) (w_tree w').
Proof.
  intros Hwf. unfold materializeKeyValueDir. rewrite run_try.
  destruct (run_fs (source_bytes store name optional) w) as [[m|] w0] eqn:E0; [|done].
  apply run_source in E0 as [-> Hm]; [|done].
  rewrite run_try. destruct (run_fs (fails (call (RemoveAll dst))) w) as [[[]|] w1] eqn:E1; [|done].
  rewrite run_try. destruct (run_fs (fails (call (MkdirAll dst mode_755))) w1) as [[[]|] w2] eqn:E2; [|done].
  assert (renewed (key dst) (w_tree w) (w_tree w2)) as (_ & _ & Hout & Hin).
  { eapply run_renew. by rewrite run_try, E1, E2. }
  rewrite run_try. set (loop := match items with [] => _ | _ => _ end).
  destruct (run_fs loop w2) as [[[]|] w3] eqn:E3; [|done]. rewrite run_ret. intros [= <- <-]. split; [done|]. exists m.
  assert (exists l, projection m items l /\ (optional = false -> forall it, it ∈ items -> is_Some (m !! kp_Key it)) /\
            Forall (fun pv => validateProjectedPath pv.1 = None) l /\
            forall j, contents (w_tree w3) j = last_write dst l j (contents (w_tree w2) j)) as (l & Hl & Ho & Hv & Hc).
  { unfold loop in E3. destruct items as [|it items].
    - apply run_write_keys in E3 as [Hv Hc]. exists (map_range m). split_and!; [apply map_range_perm|by intros _ ? ?%not_elem_of_nil|done..].
    - apply run_write_items in E3 as (Hv & Ho & Hc). by exists (item_writes m (it :: items)). }
  exists l. split_and!; [done..|]. intros j. rewrite Hc. case_decide as Hj; [by rewrite Hin|]. by rewrite last_write_outside, Hout.
Qed.

(** what a volume's directory holds once it is materialised, on any well-formed
    file system: an emptyDir is a new empty folder; a configMap or secret is exactly the
    projection of its resolved keys (every key, or the listed items at their paths, the
    last write to a path winning), an optional missing source being empty and a
    non-optional one having every listed key; nothing of an earlier attempt remains in
    it and no file outside it changes.  A hostPath is the path itself. *)
Theorem materialize_volume_correct task baseDir cm sec v w d w' :
  wf (w_tree w) -> run_fs (materialize_volume task baseDir cm sec v) w = (Ok d, w') ->
  match vol_EmptyDir v, vol_HostPath v, vol_ConfigMap v, vol_Secret v with
  | Some _, _, _, _ => d = Join [baseDir; "emptyDir-" +:+ vol_Name v] /\ renewed (key d) (w_tree w) (w_tree w')
  | None, Some h, _, _ => d = hp_Path h /\ w' = w
  | None, None, Some c, _ =>
    d = Join [baseDir; "cm-" +:+ vol_Name v] /\
    projected d cm (cm_Name c) (cm_Items c) (isTrue (cm_Optional c)) (w_tree w) (w_tree w')
  | None, None, None, Some s =>
    d = Join [baseDir; "sec-" +:+ vol_Name v] /\
    projected d sec (sec_SecretName s) (sec_Items s) (isTrue (sec_Optional s)) (w_tree w) (w_tree w')
  | None, None, None, None => False
  end.
Proof.
  intros Hwf. unfold materialize_volume.
  destruct (vol_EmptyDir v), (vol_HostPath v), (vol_ConfigMap v) as [c|], (vol_Secret v) as [s|]; try done;
    try (by intros [= <- <-]); rewrite run_wrap.
  1-8: set (dir := Join _); rewrite run_try;
    destruct (run_fs (fails (call (RemoveAll dir))) w) as [[[]|] w1] eqn:E1; [|done];
    rewrite run_try; destruct (run_fs (fails (call (MkdirAll dir mode_755))) w1) as [[[]|] w2] eqn:E2; [|done];
    rewrite run_ret; intros [= <- <-]; split; [done|]; eapply run_renew; by rewrite run_try, E1, E2.
  all: destruct (run_fs (materializeKeyValueDir _ _ _ _ _) w) as [[d'|] w1] eqn:E; [|done]; intros [= <- <-];
    apply run_materializeKeyValueDir in E as [-> E]; [|done]; done.
Qed.
End Materialized.

(** for every answer of the file system, a Task whose volumes have names without
    slashes removes and writes only inside the directories of its volumes, one per
    volume below the base directory, and creates directories only below that; the
    sources are only read.  Keys and item paths cannot lead outside. *)
Theorem volumes_contained `{MapRange} taskName vs baseDir cm sec :
  Forall (fun v => plain (vol_Name v)) vs ->
  post (MaterializeForTask taskName vs baseDir cm sec) (fun t _ => Forall (fun e =>
    match ev_call e with
    | RemoveAll p | WriteFile p _ _ =>
        exists v pre, v ∈ vs /\ pre ∈ volume_prefixes /\ under (child (key baseDir) (pre +:+ vol_Name v)) (key p)
    | MkdirAll p _ => under (key baseDir) (key p)
    | ReadDir _ | ReadFile _ => True
    | _ => False
    end) t).
Proof.
  intros Hn. eapply post_mono; [apply calls_post, (MaterializeForTask_calls baseDir vs taskName cm sec Hn)|].
  intros t r Ht. eapply Forall_impl; [exact Ht|]. by intros [X e x]; destruct e.
Qed.

(** ** Examples *)
Section Examples.
#[local] Existing Instance default_range.

Definition ex_store : Store :=
  Add (LoadBytes (NewStore "/cm") "app" {["mode" := "bundle"; "port" := "80"; "host" := "h"]}) "app" "mode" "inline".

Definition ex_tree : tree :=
  <[(true, ["run"; "cm-conf"; "stale"]) := File 420 0 "old"]> (<[(true, ["run"; "cm-conf"]) := Folder 493 0]>
  (<[(true, ["run"]) := Folder 493 0]> (<[(true, ["cm"; "app"; "port"]) := File 420 0 "8080"]>
  (<[(true, ["cm"; "app"]) := Folder 493 0]> {[(true, ["cm"]) := Folder 493 0]})))).

Definition ex_world : world := mkWorld 0 ex_tree.

Definition ex_volume : Volume :=
  mkVolume "conf" None None (Some (mkConfigMapSource "app" [mkKeyToPath "port" "net/port"; mkKeyToPath "mode" ""] None)) None.

Lemma ex_tree_wf : wf ex_tree.
Proof.
  intros k n Hk. unfold ex_tree in Hk.
  repeat (apply lookup_insert_Some in Hk as [[<- <-]|[_ Hk]]; [split_and!; [done|repeat constructor; done|vm_compute; done]|]).
  apply lookup_singleton_Some in Hk as [<- <-]. split_and!; [done|repeat constructor; done|done].
Qed.

Example volume_ex :
  let '(r, w) := run_fs (MaterializeForTask "t" [ex_volume] "/run" (Some ex_store) None) ex_world in
  r = Ok {["conf" := "/run/cm-conf"]} /\
  map (contents (w_tree w)) [(true, ["run"; "cm-conf"; "net"; "port"]); (true, ["run"; "cm-conf"; "mode"]);
                             (true, ["run"; "cm-conf"; "stale"])] = [Some "8080"; Some "inline"; None].
Proof. vm_compute. done. Qed.

Lemma Resolve_layers_witness :
  wf ex_tree /\ layered ex_store "app" ex_tree <> ∅.
Proof.
  split; [exact ex_tree_wf|]. pose proof (Resolve_layers ex_store "app" ex_world ex_tree_wf) as H.
  destruct (run_fs (Resolve ex_store "app") ex_world) as [[m|e] w] eqn:E; [|exfalso; vm_compute in E; discriminate].
  destruct H as (_ & -> & H & _). exact H.
Defined.

Lemma materialize_volume_correct_witness :
  projected "/run/cm-conf" (Some ex_store) "app" (cm_Items (mkConfigMapSource "app" [mkKeyToPath "port" "net/port"; mkKeyToPath "mode" ""] None))
    false ex_tree (w_tree (run_fs (materialize_volume "t" "/run" (Some ex_store) None ex_volume) ex_world).2).
Proof.
  pose proof (materialize_volume_correct "t" "/run" (Some ex_store) None ex_volume ex_world "/run/cm-conf"
    (run_fs (materialize_volume "t" "/run" (Some ex_store) None ex_volume) ex_world).2 ex_tree_wf) as H.
  simpl vol_EmptyDir in H. cbv iota in H. destruct H as [_ H].
  - assert ((run_fs (materialize_volume "t" "/run" (Some ex_store) None ex_volume) ex_world).1 = Ok "/run/cm-conf") as Hr by (vm_compute; reflexivity).
    destruct (run_fs _ ex_world) as [r w] eqn:E. simpl in *. by rewrite Hr.
  - exact H.
Defined.

Lemma volumes_contained_witness :
  Forall (fun v => plain (vol_Name v)) [ex_volume] /\
  post (MaterializeForTask "t" [ex_volume] "/run" (Some ex_store) None) (fun t _ => Forall (fun e =>
    match ev_call e with
    | RemoveAll p | WriteFile p _ _ =>
        exists v pre, v ∈ [ex_volume] /\ pre ∈ volume_prefixes /\ under (child (key "/run") (pre +:+ vol_Name v)) (key p)
    | MkdirAll p _ => under (key "/run") (key p)
    | ReadDir _ | ReadFile _ => True
    | _ => False
    end) t).
Proof.
  assert (Forall (fun v => plain (vol_Name v)) [ex_volume]) as H by (repeat constructor).
  split; [exact H|]. exact (volumes_contained "t" [ex_volume] "/run" (Some ex_store) None H).
Defined.

(** The name of a volume is not checked: one with ".." leads out of the base directory. *)
Theorem volume_name_escapes :
  let v := mkVolume "x/../../home" (Some (mkEmptyDirSource "")) None None None in
  (run_fs (MaterializeForTask "t" [v] "/run" None None) ex_world).1 = Ok {["x/../../home" := "/home"]}.
Proof. vm_compute. done. Qed.
End Examples.
