(* ===== verification/GoDate.v ===== *)
(** * Dates: package time's calendar and its JSON form

    A [time.Time] is kept as its nanoseconds since 1970-01-01T00:00:00Z, in UTC.  The
    calendar is the one of [time.Date], the text the one of [MarshalJSON] and
    [UnmarshalJSON] (RFC 3339 with nanoseconds). *)

From S2P Require Import Prelude GoStrings.
#[local] Open Scope Z_scope.

(** ** The calendar *)
Definition is_leap (y : Z) : bool := (y mod 4 =? 0) && (negb (y mod 100 =? 0) || (y mod 400 =? 0)).

(** Days before the first of [y], counted from 0001-01-01. *)
Definition days_before_year (y : Z) : Z :=
  let p := y - 1 in 365 * p + p / 4 - p / 100 + p / 400.

(** The days of a non-leap year before each month. *)
Definition daysBefore (m : Z) : Z :=
  nth (Z.to_nat m) [0; 31; 59; 90; 120; 151; 181; 212; 243; 273; 304; 334; 365] 0.

(** The day of the year, from 0, of month [m] (from 1) and day [d]. *)
Definition yday_of (leap : bool) (m d : Z) : Z :=
  daysBefore (m - 1) + (if leap && (3 <=? m) then 1 else 0) + (d - 1).

Definition days_of_civil (y m d : Z) : Z := days_before_year y + yday_of (is_leap y) m d.

(** The year of a day and its day in the year. *)
Definition year_of_days (n : Z) : Z * Z :=
  let n400 := n / 146097 in
  let n := n mod 146097 in
  let n100 := n / 36524 - n / 36524 / 4 in
  let n := n - 36524 * n100 in
  let n4 := n / 1461 in
  let n := n mod 1461 in
  let n1 := n / 365 - n / 365 / 4 in
  (400 * n400 + 100 * n100 + 4 * n4 + n1 + 1, n - 365 * n1).

Definition month_of_yday (leap : bool) (yday : Z) : Z * Z :=
  if leap && (yday =? 59) then (2, 29)
  else
    let day := if leap && (59 <? yday) then yday - 1 else yday in
    let m := day / 31 in
    if daysBefore (m + 1) <=? day then (m + 2, day - daysBefore (m + 1) + 1)
    else (m + 1, day - daysBefore m + 1).

Definition civil_of_days (n : Z) : Z * Z * Z :=
  let '(y, yday) := year_of_days n in
  let '(m, d) := month_of_yday (is_leap y) yday in (y, m, d).

Definition daysIn (y m : Z) : Z :=
  daysBefore m - daysBefore (m - 1) + (if is_leap y && (m =? 2) then 1 else 0).

(** From 0001-01-01 to 1970-01-01. *)
Definition unix_days : Z := 719162.

Definition ns_per_day : Z := 86400000000000.

(** The zero [time.Time]: 0001-01-01T00:00:00Z. *)
Definition zero_time : Z := - unix_days * ns_per_day.

Definition IsZero (t : Z) : bool := t =? zero_time.

(** *** The calendar is a bijection *)
(** The quotient that stops short of a whole cycle. *)
Lemma cut_div k r : 0 < k -> 0 <= r <= 4 * k ->
  let q := r / k - r / k / 4 in 0 <= q <= 3 /\ 0 <= r - k * q <= k /\ (q < 3 -> r - k * q < k).
Proof.
  intros Hk Hr. cbv zeta. pose proof (Z.div_mod r k ltac:(lia)). pose proof (Z.mod_pos_bound r k Hk).
  assert (0 <= r / k <= 4) by nia. assert (r / k / 4 = if r / k =? 4 then 1 else 0) as ->.
  { destruct (Z.eqb_spec (r / k) 4) as [->|]; [done|]. apply Z.div_small. lia. }
  destruct (Z.eqb_spec (r / k) 4) as [E|E]; rewrite ?E; nia.
Qed.

Lemma year_parts a b c e :
  0 <= b <= 3 -> 0 <= c <= 24 -> 0 <= e <= 3 ->
  let p := 400 * a + 100 * b + 4 * c + e in p / 4 = 100 * a + 25 * b + c /\ p / 100 = 4 * a + b /\ p / 400 = a.
Proof.
  intros Hb Hc He p. unfold p. repeat split; symmetry.
  - apply Z.div_unique with e; lia.
  - apply Z.div_unique with (4 * c + e); lia.
  - apply Z.div_unique with (100 * b + 4 * c + e); lia.
Qed.

(** The last year of four is leap, but for the last of a hundred that is not the last of
    four hundred. *)
Lemma leap_parts a b c e :
  0 <= b <= 3 -> 0 <= c <= 24 -> 0 <= e <= 3 -> e = 3 -> (c < 24 \/ b = 3) ->
  is_leap (400 * a + 100 * b + 4 * c + e + 1) = true.
Proof.
  intros Hb Hc He -> Hcb. unfold is_leap.
  assert ((400 * a + 100 * b + 4 * c + 3 + 1) mod 4 = 0) as -> by (Z.to_euclidean_division_equations; lia). simpl.
  destruct Hcb as [Hc'| ->].
  - apply orb_true_iff. left. apply negb_true_iff, Z.eqb_neq.
    rewrite <-(Z.mod_unique _ 100 (4 * a + b) (4 * c + 4)); lia.
  - destruct (Z.eqb_spec ((400 * a + 100 * 3 + 4 * c + 3 + 1) mod 100) 0) as [E|]; [|done]. simpl. apply Z.eqb_eq.
    destruct (decide (c = 24)) as [->|]; [symmetry; apply Z.mod_unique with (a + 1); lia|].
    rewrite <-(Z.mod_unique _ 100 (4 * a + 3) (4 * c + 4)) in E; lia.
Qed.

Lemma year_of_days_spec n y yd :
  year_of_days n = (y, yd) ->
  days_before_year y + yd = n /\ 0 <= yd < 365 + (if is_leap y then 1 else 0).
Proof.
  unfold year_of_days. pose proof (Z.div_mod n 146097 ltac:(lia)) as Hn. pose proof (Z.mod_pos_bound n 146097 ltac:(lia)) as Hr.
  revert Hn Hr. generalize (n / 146097) as a, (n mod 146097) as r. intros a r -> Hr.
  destruct (cut_div 36524 r) as (Hb & Hr1 & Hr2); [lia..|]. revert Hb Hr1 Hr2. generalize (r / 36524 - r / 36524 / 4) as b.
  intros b Hb Hr1 Hr2. assert (exists r1, r = 36524 * b + r1) as [r1 ->] by (exists (r - 36524 * b); lia).
  replace (36524 * b + r1 - 36524 * b) with r1 in * by lia.
  pose proof (Z.div_mod r1 1461 ltac:(lia)) as Hn1. pose proof (Z.mod_pos_bound r1 1461 ltac:(lia)) as Hr3.
  revert Hn1 Hr3. generalize (r1 / 1461) as c, (r1 mod 1461) as r2. intros c r2 -> Hr3. assert (0 <= c <= 24) as Hc by lia.
  destruct (cut_div 365 r2) as (He & Hr4 & Hr5); [lia..|]. revert He Hr4 Hr5. generalize (r2 / 365 - r2 / 365 / 4) as e.
  intros e He Hr4 Hr5 [= <- <-]. destruct (year_parts a b c e Hb Hc He) as (H4 & H100 & H400).
  unfold days_before_year. replace (400 * a + 100 * b + 4 * c + e + 1 - 1) with (400 * a + 100 * b + 4 * c + e) by lia.
  rewrite H4, H100, H400. split; [lia|]. split; [lia|].
  destruct (is_leap _) eqn:Hl; [lia|]. destruct (decide (e = 3)); [|lia].
  destruct (decide (c < 24 \/ b = 3)) as [Hcb|Hcb]; [by rewrite (leap_parts a b c e) in Hl|]. lia.
Qed.

Lemma month_of_yday_spec leap yd m d :
  0 <= yd < 365 + (if leap : bool then 1 else 0) -> month_of_yday leap yd = (m, d) ->
  yday_of leap m d = yd /\ 1 <= m <= 12 /\
  1 <= d <= daysBefore m - daysBefore (m - 1) + (if leap && (m =? 2) then 1 else 0).
Proof.
  intros Hyd Hm.
  set (ok n := let '(m, d) := month_of_yday leap (Z.of_nat n) in
    (yday_of leap m d =? Z.of_nat n) && (1 <=? m) && (m <=? 12) && (1 <=? d) &&
    (d <=? daysBefore m - daysBefore (m - 1) + (if leap && (m =? 2) then 1 else 0))).
  assert (forallb ok (seq 0 (if leap then 366%nat else 365%nat)) = true) as Hall by (subst ok; destruct leap; vm_compute; reflexivity).
  rewrite List.forallb_forall in Hall. specialize (Hall (Z.to_nat yd)). rewrite List.in_seq in Hall. subst ok. cbv beta in Hall.
  rewrite Z2Nat.id in Hall by lia. rewrite Hm in Hall. specialize (Hall ltac:(destruct leap; lia)).
  rewrite !andb_true_iff, !Z.leb_le, Z.eqb_eq in Hall. lia.
Qed.

Lemma civil_of_days_spec n y m d :
  civil_of_days n = (y, m, d) -> days_of_civil y m d = n /\ 1 <= m <= 12 /\ 1 <= d <= daysIn y m.
Proof.
  unfold civil_of_days. destruct (year_of_days n) as [y' yd] eqn:Hy. destruct (month_of_yday (is_leap y') yd) as [m' d'] eqn:Hm.
  intros [= <- <- <-]. apply year_of_days_spec in Hy as [H1 H2]. apply month_of_yday_spec in Hm as (H3 & H4 & H5); [|done].
  unfold days_of_civil, daysIn. lia.
Qed.

(** ** Text *)
Definition digit_char (z : Z) : ascii := ascii_of_nat (48 + Z.to_nat z).

(** [k] digits. *)
Fixpoint digits (k : nat) (z : Z) : string :=
  match k with
  | O => ""
  | S k' => String (digit_char (z / 10 ^ Z.of_nat k')) (digits k' (z mod 10 ^ Z.of_nat k'))
  end.

(** A fraction of [k] digits without its trailing zeros. *)
Fixpoint frac_digits (k : nat) (z : Z) : string :=
  match k with
  | O => ""
  | S k' => if z =? 0 then "" else String (digit_char (z / 10 ^ Z.of_nat k')) (frac_digits k' (z mod 10 ^ Z.of_nat k'))
  end.

(** [t.Format(time.RFC3339Nano)] of a year of four digits. *)
Definition format_time (t : Z) : string :=
  let '(y, m, d) := civil_of_days (t / ns_per_day + unix_days) in
  let r := t mod ns_per_day in
  let sec := r / 1000000000 in
  let ns := r mod 1000000000 in
  digits 4 y +:+ "-" +:+ digits 2 m +:+ "-" +:+ digits 2 d +:+ "T" +:+
  digits 2 (sec / 3600) +:+ ":" +:+ digits 2 (sec / 60 mod 60) +:+ ":" +:+ digits 2 (sec mod 60) +:+
  (if ns =? 0 then "" else "." +:+ frac_digits 9 ns) +:+ "Z".

Definition year_of (t : Z) : Z := (civil_of_days (t / ns_per_day + unix_days)).1.1.

(** [MarshalJSON] fails outside the years 0 to 9999. *)
Definition has_json_year (t : Z) : bool := (0 <=? year_of t) && (year_of t <=? 9999).

Definition parse_uint (lo hi : Z) (s : string) : option Z :=
  z ← digits_val 0 s; if (lo <=? z) && (z <=? hi) then Some z else None.

Fixpoint span_digits (s : string) : string * string :=
  match s with
  | String a s' => if is_digit a then let '(d, t) := span_digits s' in (String a d, t) else ("", s)
  | "" => ("", "")
  end.

(** The fraction of a second in nanoseconds, and the rest; nine digits count. *)
Definition parse_frac (s : string) : Z * string :=
  match s with
  | String "." t =>
    let '(d, u) := span_digits t in
    if String.eqb d "" then (0, s)
    else
      let d9 := substring 0 9 d in
      (default 0 (digits_val 0 d9) * 10 ^ (9 - Z.of_nat (String.length d9)), u)
  | _ => (0, s)
  end%char.

(** "Z" or a numeric offset, in seconds. *)
Definition parse_zone (s : string) : option Z :=
  match s with
  | "Z"%string => Some 0
  | String sg (String a (String b (String ":" (String c (String d "")))))  =>
    h ← parse_uint 0 23 (String a (String b ""));
    m ← parse_uint 0 59 (String c (String d ""));
    if Ascii.eqb sg "+" then Some ((h * 60 + m) * 60)
    else if Ascii.eqb sg "-" then Some (- ((h * 60 + m) * 60)) else None
  | _ => None
  end%char.

(** The instant of a text in the form of RFC 3339. *)
Definition parse_time (s : string) : option Z :=
  match s with
  | String y1 (String y2 (String y3 (String y4 (String "-" (String m1 (String m2 (String "-" (String d1 (String d2
      (String "T" (String h1 (String h2 (String ":" (String i1 (String i2 (String ":" (String s1 (String s2 rest)))))))))))))))))) =>
    y ← parse_uint 0 9999 (String y1 (String y2 (String y3 (String y4 ""))));
    m ← parse_uint 1 12 (String m1 (String m2 ""));
    d ← parse_uint 1 (daysIn y m) (String d1 (String d2 ""));
    h ← parse_uint 0 23 (String h1 (String h2 ""));
    mi ← parse_uint 0 59 (String i1 (String i2 ""));
    sec ← parse_uint 0 59 (String s1 (String s2 ""));
    let '(ns, zone) := parse_frac rest in
    off ← parse_zone zone;
    Some ((days_of_civil y m d - unix_days) * ns_per_day + (((h * 60 + mi) * 60 + sec) - off) * 1000000000 + ns)
  | _ => None
  end%char.

Example date_ex :
  format_time 1709210096000000000 = "2024-02-29T12:34:56Z" /\ format_time zero_time = "0001-01-01T00:00:00Z" /\
  format_time (-1) = "1969-12-31T23:59:59.999999999Z" /\
  parse_time "2024-02-29T14:34:56.5+02:00" = Some 1709210096500000000 /\ parse_time "2023-02-29T00:00:00Z" = None.
Proof. vm_compute. done. Qed.

(** ** Round trip *)
Lemma digit_char_val z : 0 <= z < 10 -> is_digit (digit_char z) = true /\ Z.of_nat (nat_of_ascii (digit_char z) - 48) = z.
Proof.
  intros Hz. assert (exists n, z = Z.of_nat n /\ (n < 10)%nat) as (n & -> & Hn) by (exists (Z.to_nat z); lia).
  do 10 (destruct n as [|n]; [done|]). lia.
Qed.

Lemma digits_val_digits k acc z : 0 <= z < 10 ^ Z.of_nat k -> digits_val acc (digits k z) = Some (acc * 10 ^ Z.of_nat k + z).
Proof.
  revert acc z; induction k as [|k IH]; intros acc z Hz.
  - simpl. f_equal. simpl in Hz. lia.
  - cbn [digits digits_val]. assert (0 < 10 ^ Z.of_nat k) as Hp by (apply Z.pow_pos_nonneg; lia).
    rewrite Nat2Z.inj_succ, Z.pow_succ_r in * by lia.
    destruct (digit_char_val (z / 10 ^ Z.of_nat k)) as [-> ->].
    { split; [apply Z.div_pos; lia|]. apply Z.div_lt_upper_bound; lia. }
    rewrite IH by (apply Z.mod_pos_bound; lia). f_equal. pose proof (Z.div_mod z (10 ^ Z.of_nat k) ltac:(lia)). nia.
Qed.

Lemma parse_uint_digits k lo hi z : 0 <= z < 10 ^ Z.of_nat k -> lo <= z <= hi -> parse_uint lo hi (digits k z) = Some z.
Proof.
  intros Hz Hr. unfold parse_uint. rewrite digits_val_digits by done. simpl.
  by rewrite !(proj2 (Z.leb_le _ _)) by lia.
Qed.

Lemma frac_digits_spec k acc z t :
  0 <= z < 10 ^ Z.of_nat k ->
  span_digits (frac_digits k z +:+ String "Z" t) = (frac_digits k z, String "Z" t) /\
  (String.length (frac_digits k z) <= k)%nat /\
  exists v, digits_val acc (frac_digits k z) = Some v /\
    v * 10 ^ (Z.of_nat k - Z.of_nat (String.length (frac_digits k z))) = acc * 10 ^ Z.of_nat k + z.
Proof.
  revert acc z; induction k as [|k IH]; intros acc z Hz.
  - cbn [frac_digits]. split; [done|]. split; [done|]. exists acc. split; [done|]. simpl in *. lia.
  - cbn [frac_digits]. destruct (Z.eqb_spec z 0) as [->|Hz0].
    + split; [done|]. split; [simpl; lia|]. exists acc. split; [done|]. simpl String.length. rewrite Z.sub_0_r. lia.
    + assert (0 < 10 ^ Z.of_nat k) as Hp by (apply Z.pow_pos_nonneg; lia).
      rewrite Nat2Z.inj_succ, Z.pow_succ_r in Hz by lia.
      destruct (digit_char_val (z / 10 ^ Z.of_nat k)) as [Hd Hv].
      { split; [apply Z.div_pos; lia|]. apply Z.div_lt_upper_bound; lia. }
      destruct (IH (acc * 10 + z / 10 ^ Z.of_nat k) (z mod 10 ^ Z.of_nat k)) as (H1 & H2 & v & H3 & H4); [apply Z.mod_pos_bound; lia|].
      rewrite str_app_cons. cbn [span_digits digits_val String.length]. rewrite Hd, H1, Hv. split; [done|]. split; [lia|].
      exists v. split; [done|]. rewrite !Nat2Z.inj_succ.
      replace (Z.succ (Z.of_nat k) - Z.succ (Z.of_nat (String.length (frac_digits k (z mod 10 ^ Z.of_nat k)))))
        with (Z.of_nat k - Z.of_nat (String.length (frac_digits k (z mod 10 ^ Z.of_nat k)))) by lia.
      rewrite H4, Z.pow_succ_r by lia. pose proof (Z.div_mod z (10 ^ Z.of_nat k) ltac:(lia)). nia.
Qed.

Lemma substring_all s n : (String.length s <= n)%nat -> substring 0 n s = s.
Proof. revert n; induction s as [|a s IH]; intros [|n] Hn; simpl in *; try done; [lia|]. by rewrite IH by lia. Qed.

Lemma parse_frac_format ns :
  0 <= ns < 1000000000 ->
  parse_frac ((if ns =? 0 then "" else "." +:+ frac_digits 9 ns) +:+ "Z") = (ns, "Z").
Proof.
  intros Hns. destruct (Z.eqb_spec ns 0) as [->|H0]; [done|]. rewrite !str_app_cons, str_app_nil_l. cbn [parse_frac].
  destruct (frac_digits_spec 9 0 ns "") as (H1 & H2 & v & H3 & H4); [done|]. rewrite H1.
  destruct (String.eqb_spec (frac_digits 9 ns) "") as [E|_].
  { exfalso. revert E. cbn [frac_digits]. by rewrite (proj2 (Z.eqb_neq ns 0)). }
  rewrite substring_all by done. rewrite H3. simpl. f_equal. simpl in H4. lia.
Qed.

(** The numbers of a text, and the instant they stand for. *)
Lemma format_time_parts t : has_json_year t = true ->
  exists y m d h mi s ns,
    (0 <= y <= 9999) /\ (1 <= m <= 12) /\ (1 <= d <= daysIn y m) /\ daysIn y m <= 31 /\ (0 <= h <= 23) /\ (0 <= mi <= 59) /\ (0 <= s <= 59) /\
    (0 <= ns < 1000000000) /\
    format_time t = digits 4 y +:+ "-" +:+ digits 2 m +:+ "-" +:+ digits 2 d +:+ "T" +:+ digits 2 h +:+ ":" +:+ digits 2 mi +:+ ":" +:+
      digits 2 s +:+ (if ns =? 0 then "" else "." +:+ frac_digits 9 ns) +:+ "Z" /\
    t = (days_of_civil y m d - unix_days) * ns_per_day + ((h * 60 + mi) * 60 + s) * 1000000000 + ns.
Proof.
  unfold has_json_year, year_of, format_time. destruct (civil_of_days _) as [[y m] d] eqn:Hc. cbn [fst snd].
  intros [Hy1%Z.leb_le Hy2%Z.leb_le]%andb_true_iff. apply civil_of_days_spec in Hc as (Hdays & Hm & Hd).
  pose proof (Z.div_mod t ns_per_day ltac:(done)) as Ht. pose proof (Z.mod_pos_bound t ns_per_day ltac:(done)) as Hr.
  revert Hdays Ht Hr. generalize (t / ns_per_day) as q, (t mod ns_per_day) as r. intros q r Hdays -> Hr. unfold ns_per_day in Hr.
  assert (daysIn y m <= 31) as H31.
  { unfold daysIn. assert (m = 1 \/ m = 2 \/ m = 3 \/ m = 4 \/ m = 5 \/ m = 6 \/ m = 7 \/ m = 8 \/ m = 9 \/ m = 10 \/ m = 11 \/ m = 12) as Hm' by lia.
    destruct Hm' as [->|[->|[->|[->|[->|[->|[->|[->|[->|[->|[->| ->]]]]]]]]]]]; destruct (is_leap y); done. }
  pose proof (Z.div_mod r 1000000000 ltac:(lia)) as Hrs. pose proof (Z.mod_pos_bound r 1000000000 ltac:(lia)) as Hns.
  assert (0 <= r / 1000000000 < 86400) as Hsec by (split; [apply Z.div_pos; lia|apply Z.div_lt_upper_bound; lia]).
  revert Hrs Hns Hsec. generalize (r / 1000000000) as sec, (r mod 1000000000) as ns. intros sec ns -> Hns Hsec.
  assert (0 <= sec / 3600 <= 23 /\ 0 <= sec / 60 mod 60 <= 59 /\ 0 <= sec mod 60 <= 59 /\
          (sec / 3600 * 60 + sec / 60 mod 60) * 60 + sec mod 60 = sec) as (Hh & Hmi & Hs & Hsum).
  { replace (sec / 3600) with (sec / 60 / 60) by (by rewrite Z.div_div by lia).
    pose proof (Z.div_mod sec 60 ltac:(lia)) as D1. pose proof (Z.mod_pos_bound sec 60 ltac:(lia)) as M1.
    pose proof (Z.div_mod (sec / 60) 60 ltac:(lia)) as D2. pose proof (Z.mod_pos_bound (sec / 60) 60 ltac:(lia)) as M2. lia. }
  exists y, m, d, (sec / 3600), (sec / 60 mod 60), (sec mod 60), ns.
  split_and!; first [lia|done].
Qed.

(** Every instant of the years 0 to 9999 is read back from its text. *)
Lemma parse_format_time t : has_json_year t = true -> parse_time (format_time t) = Some t.
Proof.
  intros (y & m & d & h & mi & s & ns & Hy & Hm & Hd & H31 & Hh & Hmi & Hs & Hns & -> & Ht)%format_time_parts.
  pose proof (parse_uint_digits 4 0 9999 y ltac:(simpl; lia) ltac:(lia)) as P1.
  pose proof (parse_uint_digits 2 1 12 m ltac:(simpl; lia) ltac:(lia)) as P2.
  pose proof (parse_uint_digits 2 1 (daysIn y m) d ltac:(simpl; lia) ltac:(lia)) as P3.
  pose proof (parse_uint_digits 2 0 23 h ltac:(simpl; lia) ltac:(lia)) as P4.
  pose proof (parse_uint_digits 2 0 59 mi ltac:(simpl; lia) ltac:(lia)) as P5.
  pose proof (parse_uint_digits 2 0 59 s ltac:(simpl; lia) ltac:(lia)) as P6.
  cbn [digits] in *. rewrite !str_app_cons, !str_app_nil_l. cbn [parse_time].
  rewrite P1. cbn [mbind option_bind]. rewrite P2. cbn [mbind option_bind]. rewrite P3. cbn [mbind option_bind].
  rewrite P4. cbn [mbind option_bind]. rewrite P5. cbn [mbind option_bind]. rewrite P6. cbn [mbind option_bind].
  rewrite parse_frac_format by done. cbn [parse_zone mbind option_bind]. f_equal. lia.
Qed.

(** It is a text of digits and marks. *)
Definition time_byte (a : ascii) : bool := is_digit a || existsb (Ascii.eqb a) ["-"; ":"; "."; "T"; "Z"]%char.

Lemma digits_all k z : 0 <= z < 10 ^ Z.of_nat k -> str_all time_byte (digits k z) = true.
Proof.
  revert z; induction k as [|k IH]; intros z Hz; [done|]. cbn [digits str_all].
  assert (0 < 10 ^ Z.of_nat k) as Hp by (apply Z.pow_pos_nonneg; lia).
  rewrite Nat2Z.inj_succ, Z.pow_succ_r in Hz by lia. rewrite IH by (apply Z.mod_pos_bound; lia).
  unfold time_byte. by rewrite (proj1 (digit_char_val (z / 10 ^ Z.of_nat k) ltac:(split; [apply Z.div_pos; lia|apply Z.div_lt_upper_bound; lia]))).
Qed.

Lemma frac_digits_all k z : 0 <= z < 10 ^ Z.of_nat k -> str_all time_byte (frac_digits k z) = true.
Proof.
  revert z; induction k as [|k IH]; intros z Hz; [done|]. cbn [frac_digits]. destruct (z =? 0); [done|]. cbn [str_all].
  assert (0 < 10 ^ Z.of_nat k) as Hp by (apply Z.pow_pos_nonneg; lia).
  rewrite Nat2Z.inj_succ, Z.pow_succ_r in Hz by lia. rewrite IH by (apply Z.mod_pos_bound; lia).
  unfold time_byte. by rewrite (proj1 (digit_char_val (z / 10 ^ Z.of_nat k) ltac:(split; [apply Z.div_pos; lia|apply Z.div_lt_upper_bound; lia]))).
Qed.

Lemma format_time_bytes t : has_json_year t = true -> str_all time_byte (format_time t) = true.
Proof.
  intros (y & m & d & h & mi & s & ns & Hy & Hm & Hd & H31 & Hh & Hmi & Hs & Hns & -> & _)%format_time_parts.
  rewrite !str_all_app, !digits_all by (simpl; lia). destruct (ns =? 0); [done|].
  rewrite str_all_app, frac_digits_all by (simpl; lia). done.
Qed.
