(* ===== verification/JsonText.v ===== *)
(** * encoding/json: documents as indented text

    What [MarshalIndent] and an [Encoder] with [SetIndent] write, and that reading it
    back gives the document; and how the fields of a struct are read from an object. *)

From stdpp Require Import pretty.
From S2P Require Import Prelude GoStrings Json GoDate.

(** ** Decimal numbers *)

(** What may follow a number. *)
Definition num_end (t : string) : Prop :=
  match t with "" => True | String a _ => is_digit a = false /\ a <> "."%char /\ a <> "e"%char /\ a <> "E"%char end.

Lemma pretty_char_digit x : (x < 10)%N -> is_digit (pretty_N_char x) = true /\ Z.of_nat (nat_of_ascii (pretty_N_char x) - 48) = Z.of_N x.
Proof.
  intros Hx. assert (exists n, x = N.of_nat n /\ n < 10) as (n & -> & Hn) by (exists (N.to_nat x); lia).
  do 10 (destruct n as [|n]; [done|]). lia.
Qed.

(** The digits of [x > 0] before [s]. *)
Lemma pretty_N_go_spec x s :
  (0 < x)%N ->
  exists a d, pretty_N_go x s = String a (d +:+ s) /\ is_digit a = true /\ a <> "0"%char /\ str_all is_digit d = true /\
    forall acc, digits_val acc (String a d) = Some (acc * 10 ^ Z.of_nat (S (String.length d)) + Z.of_N x)%Z.
Proof.
  revert s. induction (N.lt_wf_0 x) as [x _ IH]; intros s Hx. rewrite pretty_N_go_step by done.
  destruct (pretty_char_digit (x mod 10)) as [Hd Hv]; [by apply N.mod_lt|].
  destruct (decide (x < 10)%N) as [Hs|Hs].
  - rewrite N.div_small, pretty_N_go_0 by done. exists (pretty_N_char (x mod 10)), "". split_and!; [done|done| |done|].
    + rewrite N.mod_small in * by done. intros E. rewrite E in Hv. simpl in Hv. lia.
    + intros acc. cbn [digits_val]. rewrite Hd, Hv. f_equal. simpl. rewrite N.mod_small by done. lia.
  - destruct (IH (x / 10)%N ltac:(apply N.div_lt; lia) (String (pretty_N_char (x mod 10)) s)) as (a & d & E & Ha & Ha0 & Hdd & Hval).
    { apply N.div_str_pos. lia. }
    exists a, (d +:+ String (pretty_N_char (x mod 10)) ""). split_and!; [|done|done| |].
    + rewrite E. by rewrite <-str_app_assoc.
    + rewrite str_all_app, Hdd. simpl. by rewrite Hd.
    + intros acc. rewrite str_length_app. cbn [String.length]. rewrite Nat.add_1_r.
      assert (forall acc d', digits_val acc (d' +:+ String (pretty_N_char (x mod 10)) "") =
                v ← digits_val acc d'; Some (v * 10 + Z.of_N (x mod 10))%Z) as Happ.
      { intros acc' d'. revert acc'. induction d' as [|c d' IHd]; intros acc'.
        - rewrite str_app_nil_l. cbn [digits_val]. by rewrite Hd, Hv.
        - rewrite str_app_cons. cbn [digits_val]. destruct (is_digit c); [apply IHd|done]. }
      change (String a (d +:+ ?u)) with (String a d +:+ u). rewrite Happ, Hval. simpl. f_equal.
      rewrite (Nat2Z.inj_succ (S (String.length d))), Z.pow_succ_r by lia. pose proof (N.div_mod x 10 ltac:(lia)). lia.
Qed.

Lemma take_digits_all d t : str_all is_digit d = true -> (match t with String a _ => is_digit a = false | "" => True end) ->
  take_digits (d +:+ t) = (d, t).
Proof.
  intros Hd Ht. induction d as [|a d IH]; simpl in *; [destruct t; [done|]; simpl; by rewrite Ht|].
  apply andb_true_iff in Hd as [-> Hd]. by rewrite IH.
Qed.

(** An integer, as it is written. *)
Lemma itoa_cases z :
  z = 0%Z /\ itoa z = "0" \/
  exists sg a d, itoa z = sg +:+ String a d /\ (sg = "" /\ (0 < z)%Z \/ sg = "-" /\ (z < 0)%Z) /\
    is_digit a = true /\ a <> "0"%char /\ str_all is_digit d = true /\ digits_val 0 (String a d) = Some (Z.abs z).
Proof.
  unfold itoa, pretty, pretty_Z. destruct z as [|p|p]; [by left|right|right].
  - destruct (pretty_N_go_spec (Npos p) "") as (a & d & E & Ha & Ha0 & Hd & Hv); [done|]. exists "", a, d.
    rewrite str_app_nil_r in E. split_and!; [|by left|done..|by rewrite Hv]. unfold pretty, pretty_N. simpl. exact E.
  - destruct (pretty_N_go_spec (Npos p) "") as (a & d & E & Ha & Ha0 & Hd & Hv); [done|]. exists "-", a, d.
    rewrite str_app_nil_r in E. split_and!; [|right; split; [done|lia]|done..|by rewrite Hv]. unfold pretty, pretty_N. simpl. f_equal. exact E.
Qed.

Lemma take_number_digit b u :
  is_digit b = true ->
  take_number (String b u) =
    '(i, t1) ← take_int (String b u); '(f, t2) ← take_frac t1; '(e, t3) ← take_exp t2; Some (i +:+ f +:+ e, t3).
Proof. intros Hb. destruct b as [[] [] [] [] [] [] [] []]; done. Qed.

Lemma take_number_itoa z t : num_end t -> take_number (itoa z +:+ t) = Some (itoa z, t).
Proof.
  intros Ht. assert (take_frac t = Some ("", t) /\ take_exp t = Some ("", t)) as [Hf He].
  { destruct t as [|c t]; [done|]. destruct Ht as (Hd & H1 & H2 & H3). split.
    - unfold take_frac. destruct c as [[] [] [] [] [] [] [] []]; try done.
    - simpl. by rewrite (proj2 (Ascii.eqb_neq c "e")), (proj2 (Ascii.eqb_neq c "E")) by done. }
  destruct (itoa_cases z) as [[_ ->]|(sg & a & d & -> & Hsg & Ha & Ha0 & Hd & _)].
  - unfold take_number. change ("0" +:+ t) with (String "0" t). cbn [take_int mbind option_bind].
    rewrite Hf. cbn [mbind option_bind]. by rewrite He.
  - assert (take_int (String a d +:+ t) = Some (String a d, t)) as Hi.
    { rewrite str_app_cons. unfold take_int.
      assert ((if is_digit a then Some (take_digits (String a (d +:+ t))) else None) = Some (String a d, t)) as Hr.
      { rewrite Ha. f_equal. rewrite <-str_app_cons. apply take_digits_all; [simpl; by rewrite Ha|]. destruct t; [done|]. by destruct Ht. }
      destruct a as [[] [] [] [] [] [] [] []]; try exact Hr; done. }
    destruct Hsg as [[-> _]|[-> _]].
    + rewrite str_app_nil_l. rewrite str_app_cons in Hi |- *. rewrite take_number_digit, Hi by done.
      cbn [mbind option_bind]. rewrite Hf. cbn [mbind option_bind]. rewrite He. cbn [mbind option_bind]. by rewrite !str_app_nil_r.
    + change (("-" +:+ String a d) +:+ t) with (String "-" (String a d +:+ t)).
      unfold take_number. revert Hi. generalize (String a d +:+ t) as u. intros u Hi. cbv beta iota. rewrite Hi.
      cbn [mbind option_bind]. rewrite Hf. cbn [mbind option_bind]. rewrite He. cbn [mbind option_bind]. by rewrite !str_app_nil_r.
Qed.

Lemma atoi_digit b u :
  is_digit b = true ->
  atoi (String b u) = v ← digits_val 0 (String b u); if (min_int <=? v)%Z && (v <=? max_int)%Z then Some v else None.
Proof. intros Hb. destruct b as [[] [] [] [] [] [] [] []]; done. Qed.

Lemma atoi_itoa z : (min_int <= z <= max_int)%Z -> atoi (itoa z) = Some z.
Proof.
  intros Hz. destruct (itoa_cases z) as [[-> ->]|(sg & a & d & -> & Hsg & Ha & Ha0 & Hd & Hv)]; [done|].
  destruct Hsg as [[-> Hp]|[-> Hp]].
  - rewrite str_app_nil_l, atoi_digit, Hv by done. cbn [mbind option_bind]. rewrite Z.abs_eq by lia.
    by rewrite !(proj2 (Z.leb_le _ _)) by lia.
  - unfold atoi. change ("-" +:+ String a d) with (String "-" (String a d)). cbv beta iota.
    rewrite (proj2 (String.eqb_neq (String a d) "")) by done. rewrite Hv. cbn [mbind option_bind].
    rewrite Z.abs_neq, Z.opp_involutive by lia. by rewrite !(proj2 (Z.leb_le _ _)) by lia.
Qed.

(** ** Writing a document *)
Definition newline (d : nat) : string := String "010" (foldr (fun _ s => "  " +:+ s) "" (seq 0 d)).

Section Print.
Variables (nl : nat -> string) (colon : string).

(** A value at depth [d], with [nl d] where a line is broken and [colon] after a key. *)
Fixpoint print_in (d : nat) (j : json) : string :=
  match j with
  | JNull => "null"
  | JBool true => "true"
  | JBool false => "false"
  | JNum s => s
  | JStr s => quote s
  | JArr [] => "[]"
  | JArr l => "[" +:+ join "," (map (fun x => nl (S d) +:+ print_in (S d) x) l) +:+ nl d +:+ "]"
  | JObj [] => "{}"
  | JObj l => "{" +:+ join "," (map (fun kv => nl (S d) +:+ quote kv.1 +:+ colon +:+ print_in (S d) kv.2) l) +:+ nl d +:+ "}"
  end.
End Print.

(** [json.MarshalIndent(v, "", "  ")]; [Encode] adds a newline; [json.Marshal]. *)
Definition MarshalIndent (j : json) : string := print_in newline ": " 0 j.
Definition Encode (j : json) : string := MarshalIndent j +:+ String "010" "".
Definition no_break (d : nat) : string := "".
Definition Marshal (j : json) : string := print_in no_break ":" 0 j.

(** What Go values become: integers and valid UTF-8. *)
Fixpoint wf_json (j : json) : Prop :=
  match j with
  | JNum s => exists z, s = itoa z
  | JStr s => valid_utf8 s = true
  | JArr l => foldr (fun x P => wf_json x /\ P) True l
  | JObj l => foldr (fun kv P => (valid_utf8 kv.1 = true /\ wf_json kv.2) /\ P) True l
  | JNull | JBool _ => True
  end.

Fixpoint height (j : json) : nat :=
  match j with
  | JArr l => S (foldr (fun x h => height x `max` h) 0 l)
  | JObj l => S (foldr (fun kv h => height kv.2 `max` h) 0 l)
  | _ => 0
  end.

Fixpoint sep_tokens (l : list (list token)) : list token :=
  match l with
  | [] => []
  | [x] => x
  | x :: l' => x ++ TkComma :: sep_tokens l'
  end.

Fixpoint tokens (j : json) : list token :=
  match j with
  | JArr l => TkLB :: sep_tokens (map tokens l) ++ [TkRB]
  | JObj l => TkLC :: sep_tokens (map (fun kv => TkVal (JStr kv.1) :: TkColon :: tokens kv.2) l) ++ [TkRC]
  | _ => [TkVal j]
  end.

(** Induction on documents. *)
Section Induction.
Variable P : json -> Prop.
Hypotheses (Hnull : P JNull) (Hbool : forall b, P (JBool b)) (Hnum : forall s, P (JNum s)) (Hstr : forall s, P (JStr s))
  (Harr : forall l, Forall P l -> P (JArr l)) (Hobj : forall l, Forall (fun kv => P kv.2) l -> P (JObj l)).

Fixpoint json_rect' (j : json) : P j :=
  match j with
  | JNull => Hnull
  | JBool b => Hbool b
  | JNum s => Hnum s
  | JStr s => Hstr s
  | JArr l => Harr l ((fix go l : Forall P l := match l with [] => Forall_nil_2 P | x :: l' => Forall_cons_2 P x l' (json_rect' x) (go l') end) l)
  | JObj l => Hobj l ((fix go l : Forall (fun kv => P kv.2) l :=
      match l with [] => Forall_nil_2 _ | kv :: l' => Forall_cons_2 _ kv l' (json_rect' kv.2) (go l') end) l)
  end.
End Induction.

Lemma wf_arr l : wf_json (JArr l) <-> Forall wf_json l.
Proof. simpl. induction l as [|x l IH]; simpl; [by split|]. by rewrite Forall_cons, IH. Qed.

Lemma wf_obj l : wf_json (JObj l) <-> Forall (fun kv => valid_utf8 kv.1 = true /\ wf_json kv.2) l.
Proof. simpl. induction l as [|x l IH]; simpl; [by split|]. by rewrite Forall_cons, IH. Qed.

(** ** Reading it back: the lexer *)
Definition lexs (s : string) : option (list token) := lex (S (String.length s)) s.

Lemma lexs_more f s : String.length s < f -> lex f s = lexs s.
Proof. intros Hf. apply lex_fuel_irrel; [done|lia]. Qed.

Lemma lexs_quote s t : valid_utf8 s = true -> lexs (quote s +:+ t) = cons_tok (TkVal (JStr s)) (lexs t).
Proof.
  intros Hs. unfold lexs at 1. rewrite str_length_app. pose proof (quote_length s).
  rewrite lex_quote by done. by rewrite lexs_more by lia.
Qed.

Lemma lex_digit f a t : is_digit a = true \/ a = "-"%char ->
  lex (S f) (String a t) = match take_number (String a t) with Some (n, u) => cons_tok (TkVal (JNum n)) (lex f u) | None => None end.
Proof. intros [Ha| ->]; [|done]. destruct a as [[] [] [] [] [] [] [] []]; done. Qed.

Lemma lexs_itoa z t : num_end t -> lexs (itoa z +:+ t) = cons_tok (TkVal (JNum (itoa z))) (lexs t).
Proof.
  intros Ht. pose proof (take_number_itoa z t Ht) as Hn.
  assert (exists a u, itoa z = String a u /\ (is_digit a = true \/ a = "-"%char)) as (a & u & E & Ha).
  { destruct (itoa_cases z) as [[_ ->]|(sg & a & d & -> & Hsg & Ha & _)]; [exists "0"%char, ""; split; [done|by left]|].
    destruct Hsg as [[-> _]|[-> _]]; [exists a, d; split; [done|by left]|exists "-"%char, (String a d); split; [done|by right]]. }
  unfold lexs at 1. rewrite str_length_app, E in *. rewrite str_app_cons in Hn |- *. rewrite lex_digit, Hn by done.
  simpl String.length. by rewrite lexs_more by lia.
Qed.

Lemma lexs_lb t : lexs (String "[" t) = cons_tok TkLB (lexs t). Proof. reflexivity. Qed.
Lemma lexs_rb t : lexs (String "]" t) = cons_tok TkRB (lexs t). Proof. reflexivity. Qed.
Lemma lexs_lc t : lexs (String "{" t) = cons_tok TkLC (lexs t). Proof. reflexivity. Qed.
Lemma lexs_rc t : lexs (String "}" t) = cons_tok TkRC (lexs t). Proof. reflexivity. Qed.
Lemma lexs_comma t : lexs (String "," t) = cons_tok TkComma (lexs t). Proof. reflexivity. Qed.
Lemma lexs_colon t : lexs (String ":" (String " " t)) = cons_tok TkColon (lexs t). Proof. reflexivity. Qed.

Lemma lex_null f t : lex (S f) (String "n" t) = match strip_prefix "null" (String "n" t) with Some u => cons_tok (TkVal JNull) (lex f u) | None => None end.
Proof. reflexivity. Qed.

Lemma lexs_null t : lexs ("null" +:+ t) = cons_tok (TkVal JNull) (lexs t).
Proof.
  unfold lexs at 1. rewrite (str_app_cons "n" "ull" t) at 2. rewrite lex_null. rewrite <-(str_app_cons "n" "ull" t).
  rewrite (strip_prefix_app "null"), str_length_app. simpl String.length. by rewrite lexs_more by lia.
Qed.

Lemma lex_true f t : lex (S f) (String "t" t) = match strip_prefix "true" (String "t" t) with Some u => cons_tok (TkVal (JBool true)) (lex f u) | None => None end.
Proof. reflexivity. Qed.

Lemma lexs_true t : lexs ("true" +:+ t) = cons_tok (TkVal (JBool true)) (lexs t).
Proof.
  unfold lexs at 1. rewrite (str_app_cons "t" "rue" t) at 2. rewrite lex_true. rewrite <-(str_app_cons "t" "rue" t).
  rewrite (strip_prefix_app "true"), str_length_app. simpl String.length. by rewrite lexs_more by lia.
Qed.

Lemma lex_false f t : lex (S f) (String "f" t) = match strip_prefix "false" (String "f" t) with Some u => cons_tok (TkVal (JBool false)) (lex f u) | None => None end.
Proof. reflexivity. Qed.

Lemma lexs_false t : lexs ("false" +:+ t) = cons_tok (TkVal (JBool false)) (lexs t).
Proof.
  unfold lexs at 1. rewrite (str_app_cons "f" "alse" t) at 2. rewrite lex_false. rewrite <-(str_app_cons "f" "alse" t).
  rewrite (strip_prefix_app "false"), str_length_app. simpl String.length. by rewrite lexs_more by lia.
Qed.

Lemma lexs_newline d t : lexs (newline d +:+ t) = lexs t.
Proof.
  unfold newline. rewrite str_app_cons. change (lexs (String "010" ?u)) with (lexs u).
  induction (seq 0 d) as [|x l IH]; simpl; [done|]. rewrite <-IH. done.
Qed.

(** A text that is read as [tk] wherever a number may end. *)
Definition reads (s : string) (tk : list token) : Prop :=
  forall t ts, num_end t -> lexs t = Some ts -> lexs (s +:+ t) = Some (tk ++ ts).


Lemma reads_join l : Forall (fun x => reads x.1 x.2) l -> l <> [] ->
  reads (join "," (map fst l)) (sep_tokens (map snd l)).
Proof.
  induction l as [|x l IH]; [done|]. intros [Hx Hl]%Forall_cons _. destruct l as [|y l]; [done|].
  intros t ts Ht Hts. change (join "," (map fst (x :: y :: l))) with (x.1 +:+ "," +:+ join "," (map fst (y :: l))).
  change (sep_tokens (map snd (x :: y :: l))) with (x.2 ++ TkComma :: sep_tokens (map snd (y :: l))).
  rewrite <-!str_app_assoc, <-app_assoc. apply Hx; [done|]. rewrite str_app_cons, str_app_nil_l.
  rewrite lexs_comma. by rewrite (IH Hl ltac:(done) t ts Ht Hts).
Qed.

(** Line breaks the lexer skips, and a colon it reads as one. *)
Section Reads.
Context (nl : nat -> string) (colon : string).
Hypotheses (Hnl : forall d t, lexs (nl d +:+ t) = lexs t)
  (Hend : forall d a t, a = "]"%char \/ a = "}"%char -> num_end (nl d +:+ String a t))
  (Hcolon : forall t, lexs (colon +:+ t) = cons_tok TkColon (lexs t)).

Lemma reads_newline d s tk : reads s tk -> reads (nl d +:+ s) tk.
Proof. intros Hs t ts Ht Hts. rewrite <-str_app_assoc, Hnl. by apply Hs. Qed.

Lemma print_reads j : wf_json j -> forall d, reads (print_in nl colon d j) (tokens j).
Proof.
  induction j as [|b|s|s|l IH|l IH] using json_rect'; intros Hw d t ts Ht Hts.
  - cbn [print_in tokens]. by rewrite lexs_null, Hts.
  - cbn [print_in tokens]. destruct b; by rewrite ?lexs_true, ?lexs_false, Hts.
  - destruct Hw as [z ->]. cbn [print_in tokens]. by rewrite lexs_itoa, Hts.
  - cbn [print_in tokens]. by rewrite lexs_quote, Hts.
  - rewrite wf_arr in Hw. destruct l as [|x l]; [cbn [print_in]; rewrite !str_app_cons, str_app_nil_l, lexs_lb, lexs_rb; by rewrite Hts|].
    cbn [print_in]. assert (x :: l <> []) as Hne by done. revert IH Hw Hne. generalize (x :: l) as l'. intros l' IH Hw Hne. cbn [tokens].
    assert (reads (join "," (map (fun x => nl (S d) +:+ print_in nl colon (S d) x) l')) (sep_tokens (map tokens l'))) as Hj.
    { pose proof (reads_join (map (fun x => (nl (S d) +:+ print_in nl colon (S d) x, tokens x)) l')) as Hj. rewrite !map_map in Hj.
      apply Hj; [|by destruct l']. apply Forall_map. rewrite Forall_forall in IH, Hw |- *. intros y Hy. apply reads_newline.
      by apply IH; [|apply Hw]. }
    rewrite !str_app_cons, str_app_nil_l, <-!str_app_assoc. rewrite lexs_lb. change ("]" +:+ t) with (String "]" t).
    rewrite (Hj _ (TkRB :: ts) (Hend _ _ _ (or_introl eq_refl))); [by rewrite <-app_comm_cons, <-app_assoc|].
    rewrite Hnl, lexs_rb. by rewrite Hts.
  - rewrite wf_obj in Hw. destruct l as [|x l]; [cbn [print_in]; rewrite !str_app_cons, str_app_nil_l, lexs_lc, lexs_rc; by rewrite Hts|].
    cbn [print_in]. assert (x :: l <> []) as Hne by done. revert IH Hw Hne. generalize (x :: l) as l'. intros l' IH Hw Hne. cbn [tokens].
    assert (reads (join "," (map (fun kv => nl (S d) +:+ quote kv.1 +:+ colon +:+ print_in nl colon (S d) kv.2) l'))
              (sep_tokens (map (fun kv => TkVal (JStr kv.1) :: TkColon :: tokens kv.2) l'))) as Hj.
    { pose proof (reads_join (map (fun kv => (nl (S d) +:+ quote kv.1 +:+ colon +:+ print_in nl colon (S d) kv.2, TkVal (JStr kv.1) :: TkColon :: tokens kv.2)) l')) as Hj.
      rewrite !map_map in Hj. apply Hj; [|by destruct l']. apply Forall_map. rewrite Forall_forall in IH, Hw |- *. intros y Hy.
      apply reads_newline. intros t' ts' Ht' Hts'. cbn [fst snd]. rewrite <-str_app_assoc, lexs_quote by by apply Hw. rewrite <-str_app_assoc.
      rewrite Hcolon. by rewrite (IH y Hy (proj2 (Hw y Hy)) (S d) t' ts' Ht' Hts'). }
    rewrite !str_app_cons, str_app_nil_l, <-!str_app_assoc. rewrite lexs_lc. change ("}" +:+ t) with (String "}" t).
    rewrite (Hj _ (TkRC :: ts) (Hend _ _ _ (or_intror eq_refl))); [by rewrite <-app_comm_cons, <-app_assoc|].
    rewrite Hnl, lexs_rc. by rewrite Hts.
Qed.
End Reads.

(** ** Reading it back: the parser *)
Definition starts (p : position) : Prop := p = PValue \/ p = PValueOrEnd.

Lemma height_arr x l : x ∈ l -> height x < height (JArr l).
Proof. simpl. induction l as [|y l IH]; [by intros ?%not_elem_of_nil|]. intros [->|Hx]%elem_of_cons; simpl; [lia|]. specialize (IH Hx). lia. Qed.

Lemma height_obj kv l : kv ∈ l -> height kv.2 < height (JObj l).
Proof. simpl. induction l as [|y l IH]; [by intros ?%not_elem_of_nil|]. intros [->|Hx]%elem_of_cons; simpl; [lia|]. specialize (IH Hx). lia. Qed.

(** [complete] after the tokens of one value. *)
Definition parses (j : json) : Prop :=
  forall p st ts, starts p -> (N.of_nat (length st + height j) <= max_depth)%N ->
  parse_tokens (p, st) (tokens j ++ ts) = parse_tokens (complete j st) ts.

Lemma parse_elements l : Forall parses l -> l <> [] ->
  forall p acc st ts, starts p -> (forall x, x ∈ l -> N.of_nat (S (length st) + height x) <= max_depth)%N ->
  parse_tokens (p, FArr acc :: st) (sep_tokens (map tokens l) ++ TkRB :: ts) = parse_tokens (complete (JArr (acc ++ l)) st) ts.
Proof.
  induction l as [|x l IH]; [done|]. intros [Hx Hl]%Forall_cons _ p acc st ts Hp Hd. destruct l as [|y l].
  - cbn [map sep_tokens]. rewrite Hx; [done|done|]. apply Hd. by left.
  - cbn [map]. change (sep_tokens (tokens x :: tokens y :: map tokens l)) with (tokens x ++ TkComma :: sep_tokens (map tokens (y :: l))).
    rewrite <-app_assoc. rewrite Hx; [|done|apply Hd; by left]. cbn [complete]. rewrite <-app_comm_cons.
    cbn [parse_tokens parse_step]. rewrite (IH Hl ltac:(done)); [by rewrite <-app_assoc|by left|]. intros z Hz. apply Hd. by right.
Qed.

Lemma parse_members l : Forall (fun kv => parses kv.2) l -> l <> [] ->
  forall p acc k st ts, (p = PKey \/ p = PKeyOrEnd) -> (forall kv, kv ∈ l -> N.of_nat (S (length st) + height kv.2) <= max_depth)%N ->
  parse_tokens (p, FObj acc k :: st) (sep_tokens (map (fun kv => TkVal (JStr kv.1) :: TkColon :: tokens kv.2) l) ++ TkRC :: ts) =
  parse_tokens (complete (JObj (acc ++ l)) st) ts.
Proof.
  induction l as [|[k v] l IH]; [done|]. intros [Hx Hl]%Forall_cons _ p acc k0 st ts Hp Hd. cbn [fst snd] in *.
  assert (forall rest, parse_tokens (p, FObj acc k0 :: st) (TkVal (JStr k) :: TkColon :: tokens v ++ rest) =
            parse_tokens (PAfter, FObj (acc ++ [(k, v)]) "" :: st) rest) as Hone.
  { intros rest. destruct Hp as [-> | ->]; cbn [parse_tokens parse_step]; rewrite Hx; try done; try (by left); apply (Hd (k, v)); by left. }
  destruct l as [|y l].
  - transitivity (parse_tokens (PAfter, FObj (acc ++ [(k, v)]) "" :: st) (TkRC :: ts)); [exact (Hone _)|done].
  - set (m := fun kv : string * json => TkVal (JStr kv.1) :: TkColon :: tokens kv.2) in *.
    assert (sep_tokens (map m ((k, v) :: y :: l)) ++ TkRC :: ts =
            TkVal (JStr k) :: TkColon :: tokens v ++ TkComma :: sep_tokens (map m (y :: l)) ++ TkRC :: ts) as ->.
    { change (sep_tokens (map m ((k, v) :: y :: l))) with ((TkVal (JStr k) :: TkColon :: tokens v) ++ TkComma :: sep_tokens (map m (y :: l))).
      by rewrite <-app_assoc. }
    rewrite Hone. cbn [parse_tokens parse_step].
    rewrite (IH Hl ltac:(done)); [by rewrite <-app_assoc|by left|]. intros z Hz. apply Hd. by right.
Qed.

Lemma tokens_parse j : parses j.
Proof.
  induction j as [|b|s|s|l IH|l IH] using json_rect'; intros p st ts Hp Hd; try (by destruct Hp as [-> | ->]).
  - cbn [tokens]. rewrite <-app_comm_cons, <-app_assoc.
    assert (parse_tokens (p, st) (TkLB :: sep_tokens (map tokens l) ++ [TkRB] ++ ts) =
            parse_tokens (PValueOrEnd, FArr [] :: st) (sep_tokens (map tokens l) ++ TkRB :: ts)) as ->.
    { assert (pushed (FArr []) PValueOrEnd st = Some (PValueOrEnd, FArr [] :: st)) as Hpush.
      { unfold pushed. assert (1 <= height (JArr l)) by (simpl; lia). by rewrite (proj2 (N.ltb_lt _ _)) by lia. }
      destruct Hp as [-> | ->]; cbn [parse_tokens parse_step]; by rewrite Hpush. }
    destruct l as [|x l]; [done|]. rewrite (parse_elements (x :: l) IH ltac:(done)); [done|by right|].
    intros y Hy. pose proof (height_arr y _ Hy). lia.
  - cbn [tokens]. rewrite <-app_comm_cons, <-app_assoc. set (m := fun kv : string * json => _).
    assert (parse_tokens (p, st) (TkLC :: sep_tokens (map m l) ++ [TkRC] ++ ts) =
            parse_tokens (PKeyOrEnd, FObj [] "" :: st) (sep_tokens (map m l) ++ TkRC :: ts)) as ->.
    { assert (pushed (FObj [] "") PKeyOrEnd st = Some (PKeyOrEnd, FObj [] "" :: st)) as Hpush.
      { unfold pushed. assert (1 <= height (JObj l)) by (simpl; lia). by rewrite (proj2 (N.ltb_lt _ _)) by lia. }
      destruct Hp as [-> | ->]; cbn [parse_tokens parse_step]; by rewrite Hpush. }
    destruct l as [|x l]; [done|]. rewrite (parse_members (x :: l) IH ltac:(done)); [done|by right|].
    intros y Hy. pose proof (height_obj y _ Hy). lia.
Qed.

(** A document read back from its text, with or without what the lexer skips. *)
Lemma parse_printed nl colon j t :
  (forall d t, lexs (nl d +:+ t) = lexs t) -> (forall d a t, a = "]"%char \/ a = "}"%char -> num_end (nl d +:+ String a t)) ->
  (forall t, lexs (colon +:+ t) = cons_tok TkColon (lexs t)) ->
  wf_json j -> (N.of_nat (height j) <= max_depth)%N -> lexs t = Some [] -> num_end t -> parse_json (print_in nl colon 0 j +:+ t) = Some j.
Proof.
  intros H1 H2 H3 Hw Hh Ht Hn. unfold parse_json. change (lex (S ?n) ?s) with (lexs s).
  rewrite (print_reads nl colon H1 H2 H3 j Hw 0 t [] Hn Ht). cbn [mbind option_bind].
  by rewrite (tokens_parse j PValue [] []) by first [by left|exact Hh].
Qed.

Lemma parse_print j : wf_json j -> (N.of_nat (height j) <= max_depth)%N -> parse_json (MarshalIndent j) = Some j /\ parse_json (Encode j) = Some j.
Proof.
  intros Hw Hh.
  assert (forall t, lexs t = Some [] -> num_end t -> parse_json (MarshalIndent j +:+ t) = Some j) as H.
  { intros t Ht Hn. apply parse_printed; [apply lexs_newline|done|apply lexs_colon|done..]. }
  split; [|by apply H]. rewrite <-(str_app_nil_r (MarshalIndent j)). by apply H.
Qed.

Lemma parse_compact j : wf_json j -> (N.of_nat (height j) <= max_depth)%N -> parse_json (Marshal j) = Some j.
Proof.
  intros Hw Hh. rewrite <-(str_app_nil_r (Marshal j)). apply parse_printed; [|by intros d a t [-> | ->]| |done..]; done.
Qed.

(** ** Fields of a struct *)

(** Field names are matched without regard to case. *)
Fixpoint fold_name (s : string) : string :=
  match s with
  | "" => ""
  | String a s' =>
    match a, s' with
    | "197"%char, String "191"%char t => String "S" (fold_name t)
    | "226"%char, String "132"%char (String "170"%char t) => String "K" (fold_name t)
    | _, _ =>
      let n := nat_of_ascii a in
      String (if (97 <=? n) && (n <=? 122) then ascii_of_nat (n - 32) else a) (fold_name s')
    end
  end.

(** A decoder changes the struct by the value of one field; [None] is a type error. *)
Abbreviation field T := (string * (json -> T -> option T))%type.

Definition decode_field {T} (fields : list (field T)) (x : T) (kv : string * json) : option T :=
  match List.find (fun f => String.eqb (fold_name f.1) (fold_name kv.1)) fields with
  | Some f => match kv.2 with JNull => Some x | v => f.2 v x end
  | None => Some x
  end.

(** An object into a struct: unknown fields are skipped, [null] changes nothing, the
    last of two equal keys wins. *)
Definition decode_struct {T} (fields : list (field T)) (zero : T) (j : json) : option T :=
  match j with
  | JObj l => foldl (fun o kv => x ← o; decode_field fields x kv) (Some zero) l
  | JNull => Some zero
  | _ => None
  end.

Definition str_field {T} (set : string -> T -> T) (j : json) (x : T) : option T :=
  match j with JStr s => Some (set s x) | _ => None end.

Definition int_field {T} (set : Z -> T -> T) (j : json) (x : T) : option T :=
  match j with JNum s => z ← atoi s; Some (set z x) | _ => None end.

(** [Time.UnmarshalJSON]. *)
Definition time_field {T} (set : Z -> T -> T) (j : json) (x : T) : option T :=
  match j with JStr s => t ← parse_time s; Some (set t x) | _ => None end.

Definition strings_of (l : list json) : option (list string) := mapM as_string l.

(** The encoder's side: a field left out when empty. *)
Definition omit_empty (name s : string) : list (string * json) := if String.eqb s "" then [] else [(name, JStr s)].
Definition omit_zero (name : string) (t : Z) : list (string * json) := if IsZero t then [] else [(name, JStr (format_time t))].

(** *** Texts without bytes beyond ASCII *)
Lemma valid_utf8_ascii s : str_all is_ascii s = true -> valid_utf8 s = true.
Proof. unfold valid_utf8. induction s as [|a s IH]; [done|]. simpl. intros [-> H]%andb_true_iff. by apply IH. Qed.

Lemma format_time_utf8 t : has_json_year t = true -> valid_utf8 (format_time t) = true.
Proof.
  intros Ht. apply valid_utf8_ascii. eapply str_all_impl; [|by apply format_time_bytes].
  intros [[] [] [] [] [] [] [] []]; done.
Qed.

(** *** Reading the fields the encoder wrote *)
Section Decode.
Context {T : Type} (fields : list (field T)).

(** The fields of an object one after the other. *)
Definition decode_fields (o : option T) (l : list (string * json)) : option T :=
  foldl (fun o kv => x ← o; decode_field fields x kv) o l.

Definition field_named (n : string) : option (field T) :=
  List.find (fun f => String.eqb (fold_name f.1) (fold_name n)) fields.

Lemma decode_fields_cons n d v x y l :
  field_named n = Some (n, d) -> v <> JNull -> d v x = Some y ->
  decode_fields (Some x) ((n, v) :: l) = decode_fields (Some y) l.
Proof.
  intros Hn Hv Hd. unfold decode_fields. cbn [foldl mbind option_bind]. unfold decode_field. cbn [fst snd].
  unfold field_named in Hn. rewrite Hn. cbn [fst snd]. by destruct v; [|rewrite Hd..].
Qed.

Lemma decode_fields_omit_empty n set s x l :
  field_named n = Some (n, str_field set) -> (s = "" -> set s x = x) ->
  decode_fields (Some x) (omit_empty n s ++ l) = decode_fields (Some (set s x)) l.
Proof.
  intros Hn Hs. unfold omit_empty. destruct (String.eqb_spec s "") as [E|E]; [by rewrite Hs|]. by apply (decode_fields_cons n (str_field set)).
Qed.

Lemma decode_fields_time n set t x l :
  field_named n = Some (n, time_field set) -> has_json_year t = true ->
  decode_fields (Some x) ((n, JStr (format_time t)) :: l) = decode_fields (Some (set t x)) l.
Proof. intros Hn Ht. apply (decode_fields_cons n (time_field set)); [done|done|]. simpl. by rewrite parse_format_time. Qed.

Lemma decode_fields_omit_zero n set t x l :
  field_named n = Some (n, time_field set) -> has_json_year t = true -> (IsZero t = true -> set t x = x) ->
  decode_fields (Some x) (omit_zero n t ++ l) = decode_fields (Some (set t x)) l.
Proof.
  intros Hn Ht Hz. unfold omit_zero. destruct (IsZero t) eqn:E; [by rewrite Hz|]. by apply decode_fields_time.
Qed.

Lemma decode_fields_int n set z x l :
  field_named n = Some (n, int_field set) -> (min_int <= z <= max_int)%Z ->
  decode_fields (Some x) ((n, JNum (itoa z)) :: l) = decode_fields (Some (set z x)) l.
Proof. intros Hn Hz. apply (decode_fields_cons n (int_field set)); [done|done|]. simpl. by rewrite atoi_itoa. Qed.
End Decode.

(** *** Heights *)
Lemma height_obj_le n (l : list (string * json)) : Forall (fun kv => height kv.2 <= n) l -> height (JObj l) <= S n.
Proof. intros Hl. cbn [height]. apply le_n_S. induction Hl as [|kv l Hkv Hl IH]; simpl in *; lia. Qed.

Lemma height_arr_le n l : Forall (fun x => height x <= n) l -> height (JArr l) <= S n.
Proof. intros Hl. cbn [height]. apply le_n_S. induction Hl as [|x l Hx Hl IH]; simpl in *; lia. Qed.
