(* ===== verification/JsonPrefix.v ===== *)
(** * encoding/json: texts that are cut

    When a text of tokens is continued its tokens stay, up to a last number that may grow;
    so a cut document does not parse, unless what is missing is blank. *)

From S2P Require Import Prelude GoStrings Json GoDate JsonText.

(** ** Strings *)
Lemma cons_str_Some p r v u : cons_str p r = Some (v, u) -> exists w, r = Some (w, u) /\ v = p +:+ w.
Proof. destruct r as [[w u']|]; [|done]. cbn. intros [= <- <-]. by exists w. Qed.

Lemma rune_extra_ext a s q v u : unquote_go 0 s = Some (v, u) -> rune_extra (String a s) = None -> rune_extra (String a (s +:+ q)) = None.
Proof.
  assert (forall b, (byte b <? 128)%N = true -> cont b = false) as Hc.
  { intros b Hb%N.ltb_lt. unfold cont, in_range. by rewrite (proj2 (N.leb_gt _ _)) by done. }
  assert (forall lo hi b, (128 <= lo)%N -> (byte b <? 128)%N = true -> in_range lo hi b = false) as Hr.
  { intros lo hi b Hlo Hb%N.ltb_lt. unfold in_range. by rewrite (proj2 (N.leb_gt _ _)) by lia. }
  assert (forall b w, unquote_go 0 (String b "") = Some w -> (byte b <? 128)%N = true) as H1.
  { intros b w. cbn [unquote_go]. destruct (Ascii.eqb_spec b dquote) as [->|_]; [done|]. destruct (Ascii.eqb b backslash); [done|].
    destruct (byte b <? 32)%N; [done|]. destruct (is_ascii b); done. }
  destruct s as [|b [|c [|d s]]]; [done| | |done].
  - intros Hb%H1 _. rewrite str_app_cons. cbn [rune_extra]. rewrite (Hc b Hb). destruct (in_range 194 223 a); [done|].
    destruct (in_range 224 239 a).
    { destruct ("" +:+ q); [done|]. rewrite Hr; [done|by destruct (_ =? _)%N|done]. }
    destruct (in_range 240 244 a); [|done]. destruct ("" +:+ q) as [|x [|y q']]; [done..|]. rewrite Hr; [done|by destruct (_ =? _)%N|done].
  - intros Hu. assert ((byte b <? 128)%N = true \/ (byte c <? 128)%N = true) as Hbc.
    { destruct (byte b <? 128)%N eqn:Hb; [by left|]. right. revert Hu. cbn [unquote_go]. destruct (Ascii.eqb_spec b dquote) as [->|_]; [done|].
      destruct (Ascii.eqb_spec b backslash) as [->|_]; [done|]. destruct (byte b <? 32)%N; [done|]. unfold is_ascii. rewrite Hb.
      destruct (rune_extra _) as [[|n]|]; intros (w & Hw & _)%cons_str_Some; [by apply H1 in Hw|by destruct n|by apply H1 in Hw]. }
    intros Hn. rewrite !str_app_cons. cbn [rune_extra] in *. destruct (in_range 194 223 a); [done|]. destruct (in_range 224 239 a); [done|].
    destruct (in_range 240 244 a); [|done]. destruct ("" +:+ q) as [|x q']; [done|].
    destruct Hbc as [Hb|Hc']; [rewrite Hr; [done|by destruct (_ =? _)%N|done]|]. rewrite (Hc c Hc'), andb_false_r. done.
Qed.

Lemma rune_extra_some_ext a s q n : rune_extra (String a s) = Some n -> rune_extra (String a (s +:+ q)) = Some n.
Proof. destruct s as [|b [|c [|d s]]]; [done| | |done]; rewrite ?str_app_cons; cbn [rune_extra]; repeat case_match; try done. Qed.

Lemma unquote_plain_escape e t : e <> "u"%char -> unquote_go 0 (String backslash (String e t)) =
  match simple_escape e with Some x => cons_str x (unquote_go 0 t) | None => None end.
Proof. intros He. destruct e as [[] [] [] [] [] [] [] []]; try reflexivity. by exfalso. Qed.

(** What follows a high surrogate. *)
Definition low_half (r : N) (t : string) : option (string * string) :=
  match t with
  | String b (String "u" (String b1 (String b2 (String b3 (String b4 t'))))) =>
    match hex4 b1 b2 b3 b4 with
    | Some r2 =>
      if Ascii.eqb b backslash && low_surrogate r2
      then cons_str (encode_rune (65536 + (r - 55296) * 1024 + (r2 - 56320))) (unquote_go 0 t')
      else cons_str replacement (unquote_go 0 t)
    | None => cons_str replacement (unquote_go 0 t)
    end
  | _ => cons_str replacement (unquote_go 0 t)
  end.

Definition after_u (r : N) (t : string) : option (string * string) :=
  if high_surrogate r then low_half r t
  else if low_surrogate r then cons_str replacement (unquote_go 0 t)
  else cons_str (encode_rune r) (unquote_go 0 t).

Lemma low_half_other r b c t : b <> backslash \/ c <> "u"%char -> low_half r (String b (String c t)) = cons_str replacement (unquote_go 0 (String b (String c t))).
Proof.
  intros H. unfold low_half. destruct (ascii_dec c "u") as [->|Hc].
  - destruct H as [Hb|]; [|done]. destruct t as [|b1 [|b2 [|b3 [|b4 t]]]]; try done. destruct (hex4 b1 b2 b3 b4); [|done].
    by rewrite (proj2 (Ascii.eqb_neq b backslash) Hb).
  - destruct c as [[] [] [] [] [] [] [] []]; try reflexivity. by exfalso.
Qed.

Lemma unquote_ext k s q v u : unquote_go k s = Some (v, u) -> unquote_go k (s +:+ q) = Some (v, u +:+ q).
Proof.
  remember (String.length s) as n eqn:Hn. revert k s v Hn. induction n as [n IH] using lt_wf_ind. intros k s v ->.
  assert (forall k s' p v, String.length s' < String.length s -> cons_str p (unquote_go k s') = Some (v, u) ->
    cons_str p (unquote_go k (s' +:+ q)) = Some (v, u +:+ q)) as Hrec.
  { intros k' s' p v' Hs' (w & Hw & ->)%cons_str_Some. by rewrite (IH _ Hs' k' s' w eq_refl Hw). }
  destruct s as [|a s]; [done|]. rewrite str_app_cons. destruct k as [|k]; [|by apply Hrec; simpl; lia].
  destruct (Ascii.eqb_spec a dquote) as [->|Ha1]; [by intros [= <- <-]|].
  destruct (Ascii.eqb_spec a backslash) as [->|Ha2].
  - destruct s as [|e t]; [done|]. rewrite str_app_cons. destruct (ascii_dec e "u") as [->|He].
    2:{ rewrite !(unquote_plain_escape e) by done. destruct (simple_escape e); [|done]. apply Hrec. simpl; lia. }
    destruct t as [|a1 [|a2 [|a3 [|a4 t]]]]; [done..|]. rewrite !str_app_cons. intros H.
    change (match hex4 a1 a2 a3 a4 with None => None | Some r => after_u r t end = Some (v, u)) in H.
    change (match hex4 a1 a2 a3 a4 with None => None | Some r => after_u r (t +:+ q) end = Some (v, u +:+ q)).
    destruct (hex4 a1 a2 a3 a4) as [r|]; [|done]. revert H. unfold after_u. destruct (high_surrogate r).
    2:{ destruct (low_surrogate r); apply Hrec; simpl; lia. }
    assert (cons_str replacement (unquote_go 0 t) = Some (v, u) -> cons_str replacement (unquote_go 0 (t +:+ q)) = Some (v, u +:+ q)) as Hf by (apply Hrec; simpl; lia).
    destruct t as [|b [|c t]]; [done| |].
    + intros H. change (low_half r (String b "")) with (cons_str replacement (unquote_go 0 (String b ""))) in H. specialize (Hf H).
      rewrite str_app_cons, str_app_nil_l in *. destruct q as [|c q]; [exact Hf|]. rewrite low_half_other; [exact Hf|]. left. intros ->. done.
    + destruct (decide (b <> backslash \/ c <> "u"%char)) as [Hbc|Hbc].
      * rewrite !str_app_cons in *. by rewrite !low_half_other.
      * assert (b = backslash /\ c = "u"%char) as [-> ->].
        { split; [destruct (ascii_dec b backslash)|destruct (ascii_dec c "u")]; try done; exfalso; tauto. }
        destruct t as [|b1 [|b2 [|b3 [|b4 t]]]]; [done..|]. rewrite !str_app_cons in *. unfold low_half at 1 2.
        destruct (hex4 b1 b2 b3 b4) as [r2|]; [|done]. destruct (_ && _); [|done]. apply Hrec. simpl; lia.
  - cbn [unquote_go]. rewrite (proj2 (Ascii.eqb_neq a dquote) Ha1), (proj2 (Ascii.eqb_neq a backslash) Ha2).
    destruct (byte a <? 32)%N; [done|]. destruct (is_ascii a); [apply Hrec; simpl; lia|].
    destruct (rune_extra (String a s)) as [m|] eqn:Hr.
    + rewrite (rune_extra_some_ext a s q m Hr). apply Hrec. simpl; lia.
    + intros H. destruct (cons_str_Some _ _ _ _ H) as (w & Hw & _). rewrite (rune_extra_ext a s q w u Hw Hr). revert H. apply Hrec. simpl; lia.
Qed.

(** ** Numbers *)
Lemma take_digits_ext s d t q : take_digits s = (d, t) -> t <> "" -> take_digits (s +:+ q) = (d, t +:+ q).
Proof.
  revert d t. induction s as [|a s IH]; intros d t; cbn [take_digits]; [by intros [= <- <-]|]. rewrite str_app_cons. cbn [take_digits].
  destruct (is_digit a); [|by intros [= <- <-]]. destruct (take_digits s) as [d' t']. intros [= <- <-] Ht. by rewrite (IH _ _ eq_refl Ht).
Qed.

Lemma take_exp_ext s d t q : take_exp s = Some (d, t) -> t <> "" -> take_exp (s +:+ q) = Some (d, t +:+ q).
Proof.
  unfold take_exp. destruct s as [|a s]; [by intros [= <- <-]|]. rewrite str_app_cons. destruct (_ || _); [|by intros [= <- <-]].
  assert (exists sg s' , (match s with String "+" u => ("+"%string, u) | String "-" u => ("-"%string, u) | _ => (""%string, s) end%char = (sg, s') /\
    (s <> "" -> match s +:+ q with String "+" u => ("+"%string, u) | String "-" u => ("-"%string, u) | _ => (""%string, s +:+ q) end%char = (sg, s' +:+ q)))) as (sg & s' & E1 & E2).
  { destruct s as [|b s]; [by eexists _, _|]. rewrite str_app_cons. destruct b as [[] [] [] [] [] [] [] []]; by eexists _, _. }
  rewrite E1. destruct (take_digits s') as [d' u] eqn:Ed. destruct (String.eqb d' "") eqn:En; [done|]. intros [= <- <-] Ht.
  rewrite E2; [|intros ->; injection E1 as <- <-; by injection Ed as <- <-]. rewrite (take_digits_ext _ _ _ q Ed Ht), En. done.
Qed.

Lemma take_frac_ext s d t q : take_frac s = Some (d, t) -> t <> "" -> take_frac (s +:+ q) = Some (d, t +:+ q).
Proof.
  unfold take_frac. destruct s as [|a s]; [by intros [= <- <-]|]. rewrite str_app_cons. destruct (ascii_dec a ".") as [->|Ha].
  - destruct (take_digits s) as [d' u] eqn:Ed. destruct (String.eqb d' "") eqn:En; [done|]. intros [= <- <-] Ht.
    rewrite (take_digits_ext _ _ _ q Ed Ht), En. done.
  - destruct a as [[] [] [] [] [] [] [] []]; try (by intros [= <- <-]); by exfalso.
Qed.

Lemma take_int_ext s d t q : take_int s = Some (d, t) -> t <> "" -> take_int (s +:+ q) = Some (d, t +:+ q).
Proof.
  destruct s as [|a s]; [done|]. rewrite str_app_cons. destruct (ascii_dec a "0") as [->|Ha]; [by intros [= <- <-]|].
  assert (forall u, take_int (String a u) = if is_digit a then Some (take_digits (String a u)) else None) as E.
  { intros u. destruct a as [[] [] [] [] [] [] [] []]; try reflexivity; by exfalso. }
  rewrite !E. destruct (is_digit a); [|done]. intros H Ht. injection H as H. f_equal. by apply (take_digits_ext (String a s)).
Qed.

Lemma take_number_ext s d t q : take_number s = Some (d, t) -> t <> "" -> take_number (s +:+ q) = Some (d, t +:+ q).
Proof.
  unfold take_number.
  assert (s <> "" -> exists sg s', (match s with String "-" t => ("-"%string, t) | _ => (""%string, s) end%char = (sg, s')) /\
    match s +:+ q with String "-" t => ("-"%string, t) | _ => (""%string, s +:+ q) end%char = (sg, s' +:+ q)) as Hs.
  { destruct s as [|b s]; [done|]. intros _. rewrite str_app_cons. destruct b as [[] [] [] [] [] [] [] []]; by eexists _, _. }
  destruct s as [|a s]; [done|]. destruct Hs as (sg & s' & E1 & E2); [done|]. rewrite E1, E2.
  destruct (take_int s') as [[i t1]|] eqn:E3; [|done]. cbn [mbind option_bind].
  destruct (take_frac t1) as [[f t2]|] eqn:E4; [|done]. cbn [mbind option_bind].
  destruct (take_exp t2) as [[e t3]|] eqn:E5; [|done]. cbn [mbind option_bind]. intros [= <- <-] Ht.
  assert (t2 <> "") as Ht2 by (intros ->; by injection E5 as _ <-). assert (t1 <> "") as Ht1 by (intros ->; by injection E4 as _ <-).
  rewrite (take_int_ext _ _ _ q E3 Ht1). cbn [mbind option_bind]. rewrite (take_frac_ext _ _ _ q E4 Ht2). cbn [mbind option_bind].
  by rewrite (take_exp_ext _ _ _ q E5 Ht).
Qed.

(** ** Tokens *)
Definition is_number (t : token) : Prop := match t with TkVal (JNum _) => True | _ => False end.

Lemma lexs_cons a s : lexs (String a s) = lex (S (String.length (String a s))) (String a s).
Proof. done. Qed.

Lemma lex_lexs f s : String.length s < f -> lex f s = lexs s.
Proof. intros H. apply lex_fuel_irrel; [done|]. lia. Qed.

Lemma cons_tok_Some x r l : cons_tok x r = Some l -> exists l', r = Some l' /\ l = x :: l'.
Proof. destruct r as [l'|]; [|done]. intros [= <-]. by exists l'. Qed.

(** A token that begins with [a] is there, or the bytes are no text of tokens. *)
Lemma lexs_nonempty a s : is_ws a = false -> lexs (String a s) <> Some [].
Proof. intros Ha. unfold lexs. cbn [lex]. rewrite Ha. unfold cons_tok. repeat case_match; done. Qed.

(** How the tokens of a text go on when the text does: a number may be longer. *)
Definition goes_on (q : string) (l l' : list token) : Prop :=
  exists c, (l = c /\ exists l2, l' = c ++ l2 /\ lexs q = Some l2) \/ (exists x l2, l = c ++ [x] /\ is_number x /\ l' = c ++ l2 /\ l2 <> []).

Lemma goes_on_cons q x l l' : goes_on q l l' -> goes_on q (x :: l) (x :: l').
Proof.
  intros (c & [(-> & l2 & -> & Hq)|(y & l2 & -> & Hy & -> & Hl)]); exists (x :: c); [left|right].
  - split; [done|]. by exists l2.
  - by exists y, l2.
Qed.

Lemma lexs_ext p q l l' : lexs p = Some l -> lexs (p +:+ q) = Some l' -> goes_on q l l'.
Proof.
  remember (String.length p) as n eqn:Hn. revert p l l' Hn. induction n as [n IH] using lt_wf_ind. intros p l l' ->.
  destruct p as [|a p].
  { intros [= <-]. rewrite str_app_nil_l. intros Hq. exists []. left. split; [done|]. by exists l'. }
  assert (forall x u, String.length u <= String.length p -> cons_tok x (lex (S (String.length p)) u) = Some l ->
    cons_tok x (lex (S (String.length (p +:+ q))) (u +:+ q)) = Some l' -> goes_on q l l') as Hrec0.
  { intros x u Hu (l1 & H1 & ->)%cons_tok_Some (l1' & H1' & ->)%cons_tok_Some. apply goes_on_cons.
    rewrite lex_lexs in H1, H1' by (rewrite ?str_length_app; lia). apply (IH (String.length u) ltac:(simpl; lia) u); done. }
  rewrite str_app_cons. intros H1 H2. assert (is_ws a = false -> l' <> []) as Hne by (intros Hws ->; by apply (lexs_nonempty a (p +:+ q))).
  revert H1 H2. unfold lexs. cbn [String.length]. remember (S (String.length p)) as f eqn:Hf. remember (S (String.length (p +:+ q))) as g eqn:Hg. cbn [lex].
  destruct (is_ws a) eqn:Hws.
  { subst f g. rewrite !lex_lexs by lia. intros H1 H2. apply (IH (String.length p) ltac:(simpl; lia) p); done. }
  subst f g. pose proof (fun x => Hrec0 x p (le_n _)) as Hrec.
  do 6 (destruct (Ascii.eqb a _); [apply Hrec|]).
  destruct (Ascii.eqb a dquote).
  { destruct (unquote_go 0 p) as [[v u]|] eqn:Eu; [|done]. rewrite (unquote_ext _ _ q _ _ Eu). apply Hrec0. apply unquote_go_length in Eu. lia. }
  do 3 (destruct (Ascii.eqb a _); [lazymatch goal with |- context [strip_prefix ?w (String a p)] => destruct (strip_prefix w (String a p)) as [u|] eqn:Eu; [|done];
    apply strip_prefix_Some in Eu; rewrite <-(str_app_cons a p q), Eu, <-str_app_assoc, strip_prefix_app; apply Hrec0;
    apply (f_equal String.length) in Eu; rewrite str_length_app in Eu; simpl in Eu; lia end|]).
  destruct (take_number (String a p)) as [[n u]|] eqn:Eu; [|done]. destruct (String.eqb_spec u "") as [->|Hu].
  { intros [= <-] H. exists []. right. exists (TkVal (JNum n)), l'. split_and!; try done. by apply Hne. }
  rewrite <-(str_app_cons a p q), (take_number_ext _ _ _ q Eu Hu). apply Hrec0. apply take_number_length in Eu. simpl in Eu. lia.
Qed.

(** ** The parser *)

(** The state after some tokens. *)
Fixpoint steps (ps : position * list frame) (l : list token) : option (position * list frame) :=
  match l with
  | [] => Some ps
  | t :: l' => ps' ← parse_step ps t; steps ps' l'
  end.

Lemma parse_tokens_app ps l1 l2 : parse_tokens ps (l1 ++ l2) = ps' ← steps ps l1; parse_tokens ps' l2.
Proof.
  revert ps. induction l1 as [|t l1 IH]; intros ps; [done|]. cbn [app parse_tokens steps]. destruct (parse_step ps t); [apply IH|done].
Qed.

(** A document is over: nothing may follow. *)
Lemma parse_done j l j' : parse_tokens (PDone j, []) l = Some j' -> l = [].
Proof. by destruct l as [|[] l]. Qed.

Lemma parse_finished ps j : parse_tokens ps [] = Some j -> ps = (PDone j, []).
Proof. destruct ps as [[] [|? ?]]; try done. by intros [= ->]. Qed.

Lemma parse_number ps x j : is_number x -> parse_tokens ps [x] = Some j -> exists s, j = JNum s.
Proof.
  destruct x as [| | | | | |[]]; try done. intros _. destruct ps as [p st]. destruct p; try done; destruct st as [|[] st]; try done; cbn; intros [= <-]; by eexists.
Qed.

(** A text that parses and goes on, and still parses: what goes on is blank, unless the
    first is a number. *)
Lemma parse_prefix p q j1 j2 : parse_json p = Some j1 -> parse_json (p +:+ q) = Some j2 -> lexs q = Some [] \/ exists s, j1 = JNum s.
Proof.
  unfold parse_json. fold (lexs p) (lexs (p +:+ q)). destruct (lexs p) as [l|] eqn:E1; [|done]. destruct (lexs (p +:+ q)) as [l'|] eqn:E2; [|done].
  cbn [mbind option_bind]. destruct (lexs_ext p q l l' E1 E2) as (c & [(-> & l2 & -> & Hq)|(x & l2 & -> & Hx & -> & Hl2)]).
  - intros H1 H2. left. rewrite <-(app_nil_r c), parse_tokens_app in H1. rewrite parse_tokens_app in H2.
    destruct (steps _ c) as [ps|]; [|done]. cbn in H1, H2. apply parse_finished in H1 as ->. apply parse_done in H2 as ->. done.
  - intros H1 _. right. rewrite parse_tokens_app in H1. destruct (steps _ c) as [ps|]; [|done]. by apply (parse_number ps x).
Qed.

Lemma lexs_blank s : lexs s = Some [] -> str_all is_ws s = true.
Proof.
  induction s as [|a s IH]; [done|]. intros H. destruct (is_ws a) eqn:Ha; [|by apply lexs_nonempty in H].
  simpl str_all. rewrite Ha. apply IH. unfold lexs in H. cbn [lex] in H. rewrite Ha in H. rewrite <-H. symmetry. apply lex_lexs. simpl. lia.
Qed.
