(* ===== verification/RefCache.v ===== *)
(** * internal/refresolver: cache keys, redaction and the cache on disk

    [CacheKey] and the [DiskCache] of refresolver.go and cache.go, as programs over the
    calls of [Fs]; the metadata beside each blob is real JSON text.  net/url's parser is
    a parameter. *)

From S2P Require Import Prelude GoStrings GoTime Paths Effects Fs Sha256 Json GoDate JsonText TektonTypes Run.

Definition NUL : string := String "000" "".

Section Keys.
Context `{MapRange}.

(** ** [CacheKey] *)
Definition pair_text (params : gmap string string) (k : string) : string := k +:+ "=" +:+ default "" (params !! k).

(** What is hashed. *)
Definition cache_input (resolverName : string) (params : gmap string string) : string :=
  resolverName +:+ NUL +:+ join NUL (map (pair_text params) (sort_strings (map_range params).*1)).

Definition CacheKey (resolverName : string) (params : gmap string string) : string :=
  hex (Sum256 (bytes_of (cache_input resolverName params))).

Definition sha256Bytes (b : string) : string := hex (Sum256 (bytes_of b)).

(** ** Redaction *)

(** net/url: a parsed URL, with what is not looked at left to [u_Rest]. *)
Record URL := mkURL {
  u_Scheme : string;
  u_User : option string;
  u_Host : string;
  u_RawQuery : string;
  u_ForceQuery : bool;
  u_Rest : string;
}.

(** net/url and net: an error of [url_Parse] is the one a url.Error wraps; the host of
    [SplitHostPort], if it has no error; whether [ParseIP] gives a loopback address. *)
Class NetUrl := {
  url_Parse : string -> result URL;
  url_String : URL -> string;
  SplitHostPort : string -> option string;
  ParseIP_IsLoopback : string -> bool;
}.

Context `{NetUrl}.

Definition redactURLText (raw : string) : string :=
  match cut "://" raw with
  | None => raw
  | Some (scheme, rest) =>
    let before := before_any (fun a => Ascii.eqb a "?" || Ascii.eqb a "#") rest in
    let rest := if String.eqb before rest then rest else before +:+ "?REDACTED" in
    let '(authority, path) := match cut "/" rest with Some (a, p) => (a, "/" +:+ p) | None => (rest, "") end in
    scheme +:+ "://" +:+ (match cut_last "@" authority with Some (_, host) => "***@" +:+ host +:+ path | None => rest end)
  end.

Definition redactURL (raw : string) : string :=
  match url_Parse raw with
  | Err _ => redactURLText raw
  | Ok u =>
    let asks := negb (String.eqb (u_RawQuery u) "") || u_ForceQuery u in
    match u_User u with
    | None => if asks then url_String (mkURL (u_Scheme u) None (u_Host u) "REDACTED" false (u_Rest u)) else raw
    | Some _ =>
      let s := url_String (mkURL (u_Scheme u) None (u_Host u)
                 (if asks then "REDACTED" else u_RawQuery u) (if asks then false else u_ForceQuery u) (u_Rest u)) in
      match cut "://" s with Some (a, b) => a +:+ "://***@" +:+ b | None => s end
    end
  end.

Definition redactParams (params : gmap string string) : gmap string string :=
  (fun v => if contains v "://" then redactURL v else v) <$> params.

(** ** The cache *)

(** [CacheEntry]: one row of [List]. *)
Record CacheEntry := mkCacheEntry {
  ce_Resolver : string;
  ce_Key : string;
  ce_Path : string;
  ce_Size : Z;
  ce_ModTime : Z;
}.

(** [cacheMeta]: the sidecar. *)
Record cacheMeta := mkCacheMeta {
  cme_Resolver : string;
  cme_Params : gmap string string;
  cme_Source : string;
  cme_SHA256 : string;
  cme_FetchedAt : Z;
}.

Definition zero_cacheMeta : cacheMeta := mkCacheMeta "" ∅ "" "" zero_time.

(** Its fields in order; a map by sorted keys. *)
Definition cacheMeta_json (m : cacheMeta) : json :=
  JObj ([("resolver", JStr (cme_Resolver m));
         ("params", JObj (map (fun k => (k, JStr (default "" (cme_Params m !! k)))) (sort_strings (map_range (cme_Params m)).*1)))]
        ++ omit_empty "source" (cme_Source m) ++ omit_empty "sha256" (cme_SHA256 m)
        ++ [("fetched_at", JStr (format_time (cme_FetchedAt m)))]).

(** A time out of range makes the encoder fail. *)
Definition marshal_meta (m : cacheMeta) : result string :=
  if has_json_year (cme_FetchedAt m) then Ok (MarshalIndent (cacheMeta_json m))
  else Err (lit "Time.MarshalJSON: year outside of range [0,9999]").

(** Map entries are added to those already there. *)
Definition params_field (j : json) (m : cacheMeta) : option cacheMeta :=
  match j with
  | JObj l =>
    kvs ← mapM (fun kv => v ← as_string kv.2; Some (kv.1, v)) l;
    Some (mkCacheMeta (cme_Resolver m) (foldl (fun o kv => <[kv.1 := kv.2]> o) (cme_Params m) kvs) (cme_Source m) (cme_SHA256 m) (cme_FetchedAt m))
  | _ => None
  end.

Definition cacheMeta_fields : list (field cacheMeta) :=
  [("resolver", str_field (fun s m => mkCacheMeta s (cme_Params m) (cme_Source m) (cme_SHA256 m) (cme_FetchedAt m)));
   ("params", params_field);
   ("source", str_field (fun s m => mkCacheMeta (cme_Resolver m) (cme_Params m) s (cme_SHA256 m) (cme_FetchedAt m)));
   ("sha256", str_field (fun s m => mkCacheMeta (cme_Resolver m) (cme_Params m) (cme_Source m) s (cme_FetchedAt m)));
   ("fetched_at", time_field (fun t m => mkCacheMeta (cme_Resolver m) (cme_Params m) (cme_Source m) (cme_SHA256 m) t))].

Definition unmarshal_meta (s : string) : option cacheMeta := j ← parse_json s; decode_struct cacheMeta_fields zero_cacheMeta j.

(** A file name for a resolver. *)
Definition safe_byte (a : ascii) : bool :=
  let n := nat_of_ascii a in
  ((97 <=? n) && (n <=? 122)) || ((65 <=? n) && (n <=? 90)) || ((48 <=? n) && (n <=? 57)) || Ascii.eqb a "-" || Ascii.eqb a "_".

Fixpoint sanitize_bytes (s : string) : string :=
  match s with
  | "" => ""
  | String a s' => String (if safe_byte a then a else "_"%char) (sanitize_bytes s')
  end.

Definition sanitize (name : string) : string := if String.eqb name "" then "_unnamed" else sanitize_bytes name.

(** The same, [Cached] set. *)
Definition as_cached (r : Resolved) : Resolved := mkResolved (rv_Bytes r) (rv_Source r) (rv_SHA256 r) true.

(** [DiskCache] is its root; a nil cache is [None] where one may be missing. *)
Record DiskCache := mkDiskCache { dc_root : string }.

Definition cache_path (c : DiskCache) (req : Request) : string :=
  Join [dc_root c; sanitize (rq_Resolver req); CacheKey (rq_Resolver req) (rq_Params req) +:+ ".yaml"].

Definition metaPath (c : DiskCache) (req : Request) : string :=
  Join [dc_root c; sanitize (rq_Resolver req); CacheKey (rq_Resolver req) (rq_Params req) +:+ ".json"].

Abbreviation fs := (prog FsE).

Definition Has (c : DiskCache) (req : Request) : fs bool :=
  if String.eqb (dc_root c) "" then Ret false
  else r ← call (Stat (cache_path c req)); Ret (match r with inl _ => true | inr _ => false end).

(** [Ok None] is a miss. *)
Definition Get (c : DiskCache) (req : Request) : fs (result (option Resolved)) :=
  if String.eqb (dc_root c) "" then Ret (Ok None)
  else
    let p := cache_path c req in
    r ← call (ReadFile p);
    match r with
    | inr (NotExist _) => Ret (Ok None)
    | inr (OtherErr e) => Ret (Err (Fmt "cache read %s: %w" [TStr p; TErr e]))
    | inl bytes =>
      mb ← call (ReadFile (metaPath c req));
      Ret (Ok (Some (match mb with
                     | inl text =>
                       match unmarshal_meta text with
                       | Some m => mkResolved bytes (cme_Source m) (cme_SHA256 m) true
                       | None => mkResolved bytes "" "" true
                       end
                     | inr _ => mkResolved bytes "" "" true
                     end)))
    end.

Definition writePrivateFile (p b : string) : fs (result unit) :=
  do! _ ← fails (call (WriteFile p b 384));
  fails (call (Chmod p 384)).

Definition Put (c : DiskCache) (req : Request) (resolved : Resolved) : fs (result unit) :=
  if String.eqb (dc_root c) "" then Ret (Err (lit "cache: nil or unrooted DiskCache"))
  else
    let dir := Join [dc_root c; sanitize (rq_Resolver req)] in
    do! _ ← wrapP "cache mkdir %s: %w" [TStr dir] (fails (call (MkdirAll dir 448)));
    _ ← ignore (call (Chmod dir 448));
    let p := cache_path c req in
    do! _ ← wrapP "cache write %s: %w" [TStr p] (writePrivateFile p (rv_Bytes resolved));
    now ← call Now;
    do! mb ← wrapP "cache marshal meta: %w" []
               (Ret (marshal_meta (mkCacheMeta (rq_Resolver req) (redactParams (rq_Params req)) (rv_Source resolved) (rv_SHA256 resolved) now)));
    wrapP "cache write meta %s: %w" [TStr (metaPath c req)] (writePrivateFile (metaPath c req) mb).

(** *** Listing and pruning *)
Definition is_hex (a : ascii) : bool :=
  let n := nat_of_ascii a in ((48 <=? n) && (n <=? 57)) || ((97 <=? n) && (n <=? 102)).

Definition isHexKey (s : string) : bool := (String.length s =? 64) && str_all is_hex s.

Definition gitFetchedMarker : string := ".tkn-act-fetched".

Definition gitCloneEntry (resolverDir sub name : string) : fs (option CacheEntry) :=
  if negb (String.eqb resolverDir "git") || negb (isHexKey name) then Ret None
  else
    let dir := Join [sub; name] in
    st ← call (Stat dir);
    match st with
    | inr _ => Ret None
    | inl st =>
      mst ← call (Stat (Join [dir; gitFetchedMarker]));
      files ← call (WalkRegular dir);
      Ret (Some (mkCacheEntry resolverDir name dir
                   (foldl (fun n f => match f with inl fi => wrap64 (n + fi_Size fi) | inr _ => n end) 0%Z files)
                   (match mst with inl m => fi_ModTime m | inr _ => fi_ModTime st end)))
    end.

(** One file or directory of a resolver's directory. *)
Definition list_file (resolverDir sub : string) (out : list CacheEntry) (f : DirEntry) : fs (list CacheEntry) :=
  if de_IsDir f then
    e ← gitCloneEntry resolverDir sub (de_Name f);
    Ret (match e with Some e => out ++ [e] | None => out end)
  else
    match strip_suffix ".yaml" (de_Name f) with
    | None => Ret out
    | Some key =>
      info ← call (Lstat (Join [sub; de_Name f]));
      Ret (match info with
           | inl i => out ++ [mkCacheEntry resolverDir key (Join [sub; de_Name f]) (fi_Size i) (fi_ModTime i)]
           | inr _ => out
           end)
    end.

(** The loop over the resolvers' directories stops at one that cannot be read. *)
Fixpoint list_dirs (root : string) (dirs : list DirEntry) (out : list CacheEntry) : fs (list CacheEntry * option text) :=
  match dirs with
  | [] => Ret (out, None)
  | rd :: dirs' =>
    if negb (de_IsDir rd) then list_dirs root dirs' out
    else
      let sub := Join [root; de_Name rd] in
      files ← call (ReadDir sub);
      match files with
      | inr e => Ret (out, Some (errno_text e))
      | inl files => out' ← foldP (list_file (de_Name rd) sub) out files; list_dirs root dirs' out'
      end
  end.

Definition entry_less (a b : CacheEntry) : bool :=
  if negb (String.eqb (ce_Resolver a) (ce_Resolver b)) then String.ltb (ce_Resolver a) (ce_Resolver b)
  else String.ltb (ce_Key a) (ce_Key b).

Definition List_ (c : DiskCache) : fs (list CacheEntry * option text) :=
  if String.eqb (dc_root c) "" then Ret ([], None)
  else
    st ← call (Stat (dc_root c));
    match st with
    | inr (NotExist _) => Ret ([], None)
    | inr (OtherErr e) => Ret ([], Some e)
    | inl st =>
      if negb (fi_IsDir st) then Ret ([], Some (Fmt "cache root %q is not a directory" [TStr (dc_root c)]))
      else
        dirs ← call (ReadDir (dc_root c));
        match dirs with
        | inr e => Ret ([], Some (errno_text e))
        | inl dirs =>
          '(out, err) ← list_dirs (dc_root c) dirs [];
          Ret (match err with Some e => (out, Some e) | None => (stable_sort entry_less out, None) end)
        end
    end.

Definition removeEntry (e : CacheEntry) : fs (result unit) :=
  st ← call (Lstat (ce_Path e));
  if match st with inl st => fi_IsDir st | inr _ => false end then fails (call (RemoveAll (ce_Path e)))
  else
    r ← call (Remove (ce_Path e));
    match r with
    | inr (OtherErr x) => Ret (Err x)
    | _ => _ ← ignore (call (Remove (trim_suffix (ce_Path e) ".yaml" +:+ ".json"))); Ret (Ok tt)
    end.

(** The loop of [PruneOlderThan]: the number removed before the first failure. *)
Fixpoint prune_entries (cutoff : Z) (entries : list CacheEntry) (n : nat) : fs (nat * option text) :=
  match entries with
  | [] => Ret (n, None)
  | e :: entries' =>
    if negb (ce_ModTime e <? cutoff)%Z then prune_entries cutoff entries' n
    else
      r ← removeEntry e;
      match r with Err x => Ret (n, Some x) | Ok _ => prune_entries cutoff entries' (S n) end
  end.

Definition PruneOlderThan (c : DiskCache) (older : Z) : fs (nat * option text) :=
  '(entries, err) ← List_ c;
  match err with
  | Some e => Ret (0, Some e)
  | None => now ← call Now; prune_entries (now + wrap64 (- older))%Z entries 0
  end.

Definition Clear (c : DiskCache) : fs (nat * option text) :=
  '(entries, err) ← List_ c;
  match err with
  | Some e => Ret (0, Some e)
  | None =>
    r ← foldT (fun _ e => removeEntry e) tt entries;
    Ret (match r with Err x => (0, Some x) | Ok _ => (length entries, None) end)
  end.
End Keys.
