(* ===== verification/RefCacheProps.v ===== *)
(** * The resolver cache: keys, redaction, and what is read back *)

From S2P Require Import Prelude GoStrings GoTime Paths Effects Fs Sha256 Json GoDate JsonText TektonTypes Run RefCache.

(** ** Cache keys *)
Section Keys.
Context `{MapRange}.

(** The text of a key does not depend on the order of the map. *)
Lemma sorted_keys (params : gmap string string) : sort_strings (map_range params).*1 = sort_strings (map_to_list params).*1.
Proof. apply sort_strings_perm_eq. by rewrite map_range_perm. Qed.

Definition no_nul (s : string) : Prop := no_byte "000" s = true.

(** Requests whose parts cannot be confused. *)
Definition clean_request (r : string) (params : gmap string string) : Prop :=
  no_nul r /\ forall k v, params !! k = Some v -> no_nul k /\ no_byte "=" k = true /\ no_nul v.

Lemma join_nul_inj l l' :
  Forall (fun s => no_nul s /\ s <> "") l -> Forall (fun s => no_nul s /\ s <> "") l' -> join NUL l = join NUL l' -> l = l'.
Proof.
  assert (forall x l, Forall (fun s => no_nul s /\ s <> "") (x :: l) -> join NUL (x :: l) <> "") as Hne.
  { intros x l1 [[_ Hx] _]%Forall_cons. destruct x; [done|]. by destruct l1. }
  assert (forall x l, Forall (fun s => no_nul s /\ s <> "") (x :: l) ->
            cut NUL (join NUL (x :: l)) = match l with [] => None | _ => Some (x, join NUL l) end) as Hcut.
  { intros x l1 [[Hx _] _]%Forall_cons. destruct l1 as [|y l1].
    - by apply cut_byte_none.
    - change (join NUL (x :: y :: l1)) with (x +:+ String "000" (join NUL (y :: l1))). by apply cut_byte_first. }
  revert l'; induction l as [|x l IH]; intros [|x' l'] Hl Hl' E; [done|symmetry in E; by apply Hne in E|by apply Hne in E|].
  pose proof (f_equal (cut NUL) E) as Ec. rewrite !Hcut in Ec by done.
  apply Forall_cons in Hl as [Hx Hl], Hl' as [Hx' Hl'].
  destruct l as [|y l], l' as [|y' l']; [|done|done|].
  - simpl in E. by subst.
  - injection Ec as -> E'. f_equal. by apply IH.
Qed.

Lemma pair_text_clean r params k : clean_request r params -> is_Some (params !! k) ->
  no_nul (pair_text params k) /\ pair_text params k <> "" /\ cut "=" (pair_text params k) = Some (k, default "" (params !! k)).
Proof.
  intros [_ Hp] [v Hv]. destruct (Hp k v Hv) as (H1 & H2 & H3). unfold pair_text. rewrite Hv. simpl. split_and!.
  - unfold no_nul in *. rewrite !no_byte_app, H1, H3. done.
  - by destruct k.
  - change (k +:+ "=" +:+ v) with (k +:+ String "=" v). by apply cut_byte_first.
Qed.

Lemma cache_input_inj r r' params params' :
  clean_request r params -> clean_request r' params' ->
  cache_input r params = cache_input r' params' -> r = r' /\ params = params'.
Proof.
  intros Hc Hc' E. unfold cache_input in E. rewrite !sorted_keys in E.
  assert (r = r' /\ join NUL (map (pair_text params) (sort_strings (map_to_list params).*1)) =
                    join NUL (map (pair_text params') (sort_strings (map_to_list params').*1))) as [-> Ej].
  { assert (forall s rest, no_nul s -> cut NUL (s +:+ NUL +:+ rest) = Some (s, rest)) as Hcut.
    { intros s rest Hs. change (s +:+ NUL +:+ rest) with (s +:+ String "000" rest). by apply cut_byte_first. }
    pose proof (f_equal (cut NUL) E) as Ec. rewrite !Hcut in Ec; [|apply Hc'|apply Hc]. by injection Ec. }
  split; [done|].
  assert (forall (m : gmap string string) k, k ∈ sort_strings (map_to_list m).*1 <-> is_Some (m !! k)) as Hk.
  { intros m k. rewrite elem_of_sort_strings, list_elem_of_fmap. split.
    - intros ([k' v] & -> & Hin%elem_of_map_to_list). by exists v.
    - intros [v Hv]. exists (k, v). split; [done|]. by apply elem_of_map_to_list. }
  assert (forall m, clean_request r' m -> Forall (fun s => no_nul s /\ s <> "") (map (pair_text m) (sort_strings (map_to_list m).*1))) as Hf.
  { intros m Hm. apply Forall_map, Forall_forall. intros k Hin%Hk. by destruct (pair_text_clean r' m k Hm Hin) as (? & ? & _). }
  apply join_nul_inj in Ej; [|by apply Hf..].
  assert (forall m m', clean_request r' m -> clean_request r' m' ->
            map (pair_text m) (sort_strings (map_to_list m).*1) = map (pair_text m') (sort_strings (map_to_list m').*1) ->
            forall k v, m !! k = Some v -> m' !! k = Some v) as Hsub.
  { intros m m' Hm Hm' Em k v Hv. assert (pair_text m k ∈ map (pair_text m') (sort_strings (map_to_list m').*1)) as Hin.
    { rewrite <-Em. apply list_elem_of_fmap. exists k. split; [done|]. apply Hk. by rewrite Hv. }
    apply list_elem_of_fmap in Hin as (k' & Ek & Hk'%Hk). destruct (pair_text_clean r' m k Hm ltac:(by rewrite Hv)) as (_ & _ & C1).
    destruct (pair_text_clean r' m' k' Hm' Hk') as (_ & _ & C2). rewrite Ek, C2 in C1. injection C1 as <- E1.
    destruct Hk' as [v' Hv']. rewrite Hv, Hv' in E1. simpl in E1. congruence. }
  apply map_eq. intros k. destruct (params !! k) as [v|] eqn:E1; [by rewrite (Hsub params params' Hc Hc' Ej k v E1)|].
  destruct (params' !! k) as [v'|] eqn:E2; [|done]. by rewrite (Hsub params' params Hc' Hc (eq_sym Ej) k v' E2) in E1.
Qed.
End Keys.

(** the cache key tells requests apart: two requests without NUL bytes, and
    without "=" in the names of their params, have the same key only when they ask the
    same resolver with the same params, or else two different texts have one SHA-256
    digest; and the key does not depend on the order in which the map is ranged over. *)
Theorem CacheKey_distinguishes (o o' : MapRange) r r' params params' :
  clean_request r params -> clean_request r' params' ->
  @CacheKey o r params = @CacheKey o' r' params' ->
  (r = r' /\ params = params') \/ exists a b, a <> b /\ sha256Bytes a = sha256Bytes b.
Proof.
  intros Hc Hc' E. destruct (decide (@cache_input o r params = @cache_input o r' params')) as [Ei|Hne].
  - left. exact (@cache_input_inj o r r' params params' Hc Hc' Ei).
  - right. exists (@cache_input o r params), (@cache_input o r' params'). split; [done|].
    unfold sha256Bytes. unfold CacheKey in E. rewrite E. do 3 f_equal. unfold cache_input. by rewrite !sorted_keys.
Qed.

#[local] Existing Instance default_range.

Lemma CacheKey_distinguishes_witness :
  let p := {["url" := "u"; "revision" := "main"]} in
  clean_request "git" p /\ (("git" = "git" /\ p = p) \/ exists a b, a <> b /\ sha256Bytes a = sha256Bytes b).
Proof.
  set (p := {["url" := "u"; "revision" := "main"]} : gmap string string). cbv zeta.
  assert (clean_request "git" p) as Hc.
  { split; [done|]. intros k v Hk. unfold p in Hk. apply lookup_insert_Some in Hk as [[<- <-]|[_ Hk]]; [done|].
    by apply lookup_singleton_Some in Hk as [<- <-]. }
  split; [exact Hc|]. exact (CacheKey_distinguishes default_range reverse_range "git" "git" p p Hc Hc eq_refl).
Defined.

(** Requests with such bytes are confused, although the comment of [CacheKey] says
    that different params give different keys. *)
Theorem CacheKey_confuses :
  let nul := {["a" := "1" +:+ NUL +:+ "b=2"]} : gmap string string in
  CacheKey "git" nul = CacheKey "git" {["a" := "1"; "b" := "2"]} /\
  CacheKey "http" {["url=x" := "y"]} = CacheKey "http" {["url" := "x=y"]}.
Proof. cbv zeta. split; unfold CacheKey; do 3 f_equal; vm_compute; reflexivity. Qed.

(** ** The files of an entry *)
Lemma sanitize_bytes_safe s : str_all (fun a => safe_byte a) (sanitize_bytes s) = true.
Proof. induction s as [|a s IH]; simpl; [done|]. destruct (safe_byte a) eqn:E; by rewrite ?E, IH. Qed.

Lemma sanitize_normal name : normal (sanitize name).
Proof.
  assert (str_all (fun a => safe_byte a) (sanitize name) = true /\ sanitize name <> "") as [Hs Hne].
  { unfold sanitize. destruct (String.eqb_spec name "") as [|Hn]; [done|]. split; [apply sanitize_bytes_safe|]. by destruct name. }
  split_and!; [by apply (str_all_no_byte _ slash) in Hs|done|by intros E; rewrite E in Hs|by intros E; rewrite E in Hs].
Qed.

Lemma hex_plain bs : plain (hex bs).
Proof.
  assert (forall z, Ascii.eqb (hex_char z) slash = false) as Hc.
  { intros z. unfold hex_char. generalize (Z.to_nat z). intros n. do 17 (destruct n as [|n]; [done|]). done. }
  unfold plain. induction bs as [|b bs IH]; [done|]. rewrite hex_cons. simpl. by rewrite !Hc, IH.
Qed.

Lemma plain_suffix_normal s e : plain s -> plain e -> 2 < String.length e -> normal (s +:+ e).
Proof.
  intros Hs He Hl. assert (2 < String.length (s +:+ e)) as H by (rewrite str_length_app; lia).
  split; [unfold plain in *; by rewrite no_byte_app, Hs, He|]. split_and!; intros E; rewrite E in H; simpl in H; lia.
Qed.

Section Entries.
Context `{MapRange} `{NetUrl}.

(** Where an entry lies. *)
Definition entry_dir (c : DiskCache) (req : Request) : path := child (key (dc_root c)) (sanitize (rq_Resolver req)).
Definition entry_key (req : Request) : string := CacheKey (rq_Resolver req) (rq_Params req).

Lemma key_entry c req :
  key (Join [dc_root c; sanitize (rq_Resolver req)]) = entry_dir c req /\
  key (cache_path c req) = child (entry_dir c req) (entry_key req +:+ ".yaml") /\
  key (metaPath c req) = child (entry_dir c req) (entry_key req +:+ ".json").
Proof.
  pose proof (sanitize_normal (rq_Resolver req)) as Hs.
  assert (forall e, plain e -> 2 < String.length e ->
    key (Join [dc_root c; sanitize (rq_Resolver req); entry_key req +:+ e]) = child (entry_dir c req) (entry_key req +:+ e)) as Hj.
  { intros e He Hl. assert (Forall normal [sanitize (rq_Resolver req); entry_key req +:+ e]) as Hn.
    { apply Forall_cons; split; [done|]. apply Forall_singleton. apply plain_suffix_normal; [apply hex_plain|done..]. }
    unfold entry_key in Hn. unfold entry_key. rewrite key_Join by done.
    unfold child, entry_dir, child. simpl. by rewrite <-app_assoc. }
  split_and!; [by apply key_child|by apply Hj; [|simpl; lia]..].
Qed.

Lemma ext_distinct s : s +:+ ".yaml" <> s +:+ ".json".
Proof. induction s as [|a s IH]; [done|]. rewrite !str_app_cons. by intros [= E]. Qed.

(** [Put] changes no file but the two of its entry. *)
Lemma Put_calls c req rv (K : path -> Prop) :
  ~ K (key (cache_path c req)) -> ~ K (key (metaPath c req)) -> calls (@leaves_be K) (Put c req rv).
Proof.
  intros H1 H2. unfold Put. destruct (String.eqb _ ""); [done|].
  assert (forall p b, ~ K (key p) -> calls (@leaves_be K) (writePrivateFile p b)) as Hw.
  { intros p b Hp. apply calls_try; [by apply calls_fails|]. intros _. by apply calls_fails. }
  apply calls_try; [apply calls_wrap; by apply calls_fails|]. intros _.
  apply calls_bind; [by split|]. intros _. apply calls_try; [apply calls_wrap; by apply Hw|]. intros _.
  apply calls_bind; [by split|]. intros now. apply calls_try; [by apply calls_wrap|]. intros mb. apply calls_wrap. by apply Hw.
Qed.
End Entries.

(** ** The metadata, written and read back *)
Definition utf8_meta (m : cacheMeta) : Prop :=
  valid_utf8 (cme_Resolver m) = true /\ valid_utf8 (cme_Source m) = true /\ valid_utf8 (cme_SHA256 m) = true /\
  forall k v, cme_Params m !! k = Some v -> valid_utf8 k = true /\ valid_utf8 v = true.

Lemma insert_all_lookup (g : string -> string) ks (o : gmap string string) j :
  foldl (fun o kv => <[kv.1 := kv.2]> o) o (map (fun k => (k, g k)) ks) !! j = if decide (j ∈ ks) then Some (g j) else o !! j.
Proof.
  revert o; induction ks as [|k ks IH]; intros o; cbn [map foldl fst snd]; [by rewrite decide_False by apply not_elem_of_nil|].
  rewrite IH. destruct (decide (j ∈ ks)) as [Hj|Hj].
  { by rewrite decide_True by (apply elem_of_cons; by right). }
  destruct (decide (j = k)) as [->|Hne].
  { rewrite decide_True by (apply elem_of_cons; by left). by rewrite lookup_insert_eq. }
  rewrite lookup_insert_ne by done. rewrite decide_False; [done|]. by intros [?|?]%elem_of_cons.
Qed.

Section Meta.
Context `{MapRange}.

Lemma params_keys (m : gmap string string) k : k ∈ sort_strings (map_range m).*1 <-> is_Some (m !! k).
Proof.
  rewrite sorted_keys, elem_of_sort_strings, list_elem_of_fmap. split.
  - intros ([k' v] & -> & Hin%elem_of_map_to_list). by exists v.
  - intros [v Hv]. exists (k, v). split; [done|]. by apply elem_of_map_to_list.
Qed.

Lemma params_field_json m0 (m : gmap string string) :
  cme_Params m0 = ∅ ->
  params_field (JObj (map (fun k => (k, JStr (default "" (m !! k)))) (sort_strings (map_range m).*1))) m0 =
  Some (mkCacheMeta (cme_Resolver m0) m (cme_Source m0) (cme_SHA256 m0) (cme_FetchedAt m0)).
Proof.
  intros E. unfold params_field. set (ks := sort_strings (map_range m).*1).
  assert (mapM (fun kv : string * json => v ← as_string kv.2; Some (kv.1, v)) (map (fun k => (k, JStr (default "" (m !! k)))) ks) =
          Some (map (fun k => (k, default "" (m !! k))) ks)) as ->.
  { induction ks as [|k ks IH]; [done|]. cbn [map mapM]. simpl. rewrite IH. done. }
  cbn [mbind option_bind]. do 2 f_equal. rewrite E. apply map_eq. intros j. rewrite insert_all_lookup.
  case_decide as Hj; unfold ks in Hj; rewrite params_keys in Hj.
  - destruct Hj as [v Hv]. by rewrite Hv.
  - rewrite lookup_empty. by apply eq_None_not_Some in Hj.
Qed.

Lemma cacheMeta_json_wf m : utf8_meta m -> has_json_year (cme_FetchedAt m) = true -> wf_json (cacheMeta_json m).
Proof.
  intros (H1 & H2 & H3 & H4) Ht. apply wf_obj. unfold cacheMeta_json, omit_empty.
  apply Forall_app; split; [|apply Forall_app; split; [|apply Forall_app; split]].
  - repeat constructor; [done|]. apply wf_obj, Forall_map, Forall_forall. intros k [v Hk]%params_keys. simpl. rewrite Hk. simpl.
    by apply H4 in Hk.
  - destruct (String.eqb _ _); by repeat constructor.
  - destruct (String.eqb _ _); by repeat constructor.
  - repeat constructor. by apply format_time_utf8.
Qed.

Lemma cacheMeta_height m : (N.of_nat (height (cacheMeta_json m)) <= max_depth)%N.
Proof.
  assert (height (cacheMeta_json m) <= 2) as Hh; [|unfold max_depth; lia]. unfold cacheMeta_json. apply height_obj_le.
  unfold omit_empty. destruct (String.eqb (cme_Source m) ""), (String.eqb (cme_SHA256 m) "");
    cbn [app]; repeat (apply Forall_cons; split); try apply Forall_nil;
    first [apply height_obj_le, Forall_map, Forall_forall; intros k Hk; cbn; lia|cbn; lia].
Qed.

(** Nothing of the metadata is lost. *)
Lemma unmarshal_marshal m text : marshal_meta m = Ok text -> utf8_meta m -> unmarshal_meta text = Some m.
Proof.
  unfold marshal_meta. destruct (has_json_year _) eqn:Ht; [|done]. intros [= <-] Hm. unfold unmarshal_meta.
  rewrite (proj1 (parse_print _ (cacheMeta_json_wf m Hm Ht) (cacheMeta_height m))). cbn [mbind option_bind].
  unfold cacheMeta_json. change (decode_struct cacheMeta_fields zero_cacheMeta (JObj ?l)) with (decode_fields cacheMeta_fields (Some zero_cacheMeta) l).
  cbn [app]. erewrite decode_fields_cons; [|reflexivity|done|reflexivity].
  erewrite decode_fields_cons; [|reflexivity|done|by apply params_field_json].
  erewrite decode_fields_omit_empty; [|reflexivity|by intros ->].
  erewrite decode_fields_omit_empty; [|reflexivity|by intros ->].
  erewrite decode_fields_time; [|reflexivity|done]. simpl. f_equal. by destruct m.
Qed.
End Meta.

(** ** What is put is got *)
Lemma run_writePrivateFile p b w w' :
  run_fs (writePrivateFile p b) w = (Ok tt, w') ->
  forall j, contents (w_tree w') j = if decide (j = key p) then Some b else contents (w_tree w) j.
Proof.
  unfold writePrivateFile. rewrite run_try. destruct (run_fs (fails _) w) as [[[]|e] w1] eqn:E; [|done].
  intros H2 j. rewrite <-(run_WriteFile _ _ _ _ _ E j).
  change w' with (Ok tt, w').2. rewrite <-H2. apply (run_frame (fun _ => True)); [by apply calls_fails|done].
Qed.

Lemma str_app_inj_len a b c d : String.length a = String.length b -> a +:+ c = b +:+ d -> a = b.
Proof.
  revert b; induction a as [|x a IH]; intros [|y b]; simpl; try done. rewrite !str_app_cons. intros [= Hl] [= -> E].
  f_equal. by apply IH.
Qed.

Section PutGet.
Context `{MapRange} `{NetUrl}.

(** The metadata of an entry put at the time [now]. *)
Definition meta_of (req : Request) (rv : Resolved) (now : Z) : cacheMeta :=
  mkCacheMeta (rq_Resolver req) (redactParams (rq_Params req)) (rv_Source rv) (rv_SHA256 rv) now.

Lemma run_Put c req rv w w' :
  run_fs (Put c req rv) w = (Ok tt, w') ->
  dc_root c <> "" /\
  exists text, marshal_meta (meta_of req rv (w_now w)) = Ok text /\
    forall j, contents (w_tree w') j =
      if decide (j = key (metaPath c req)) then Some text
      else if decide (j = key (cache_path c req)) then Some (rv_Bytes rv) else contents (w_tree w) j.
Proof.
  unfold Put. destruct (String.eqb_spec (dc_root c) "") as [|Hroot]; [done|]. intros Hrun. split; [done|]. revert Hrun.
  rewrite run_try, run_wrap. destruct (run_fs (fails (call (MkdirAll _ _))) w) as [[[]|] w1] eqn:E1; [|done].
  pose proof (run_now (fails (call (MkdirAll (Join [dc_root c; sanitize (rq_Resolver req)]) 448))) w) as N1. rewrite E1 in N1.
  apply run_MkdirAll in E1 as [_ C1]. cbn [wrap_err]. rewrite run_bind.
  set (ch := ignore (call (Chmod (Join [dc_root c; sanitize (rq_Resolver req)]) 448))).
  pose proof (run_now ch w1) as N2. pose proof (fun j => run_frame (fun _ => True) ch w1 j ltac:(by split) I) as C2.
  destruct (run_fs ch w1) as [[] w2]. cbn [snd] in *.
  rewrite run_try, run_wrap. destruct (run_fs (writePrivateFile (cache_path c req) _) w2) as [[[]|] w3] eqn:E3; [|done].
  pose proof (run_now (writePrivateFile (cache_path c req) (rv_Bytes rv)) w2) as N3. rewrite E3 in N3. cbn [snd] in N3.
  cbn [wrap_err]. rewrite run_bind. unfold call at 1. rewrite run_call. cbn [fs_answer]. rewrite run_ret, run_try, run_wrap, run_ret.
  assert (w_now w3 = w_now w) as -> by congruence. fold (meta_of req rv (w_now w)).
  destruct (marshal_meta _) as [text|]; [|done]. cbn [wrap_err]. rewrite run_wrap. 
  destruct (run_fs (writePrivateFile (metaPath c req) text) w3) as [[[]|] w4] eqn:E4; [|done]. intros [= <-].
  exists text. split; [done|]. intros j. rewrite (run_writePrivateFile _ _ _ _ E4 j). case_decide; [done|].
  rewrite (run_writePrivateFile _ _ _ _ E3 j). case_decide; [done|]. by rewrite C2, C1.
Qed.

Lemma run_Get c req w b mb :
  dc_root c <> "" -> contents (w_tree w) (key (cache_path c req)) = Some b -> contents (w_tree w) (key (metaPath c req)) = Some mb ->
  run_fs (Get c req) w = (Ok (Some (match unmarshal_meta mb with
    | Some m => mkResolved b (cme_Source m) (cme_SHA256 m) true | None => mkResolved b "" "" true end)), w).
Proof.
  intros Hroot Hb Hm. destruct (key_entry c req) as (_ & K1 & K2). unfold Get.
  destruct (String.eqb_spec (dc_root c) ""); [done|]. rewrite run_bind. unfold call at 1. rewrite run_call.
  rewrite (ReadFile_contents _ _ b) by (try done; rewrite K1; apply child_nonempty). rewrite run_ret, run_bind. unfold call at 1. rewrite run_call.
  rewrite (ReadFile_contents _ _ mb) by (try done; rewrite K2; apply child_nonempty). by rewrite run_ret, run_ret.
Qed.
(** Entries with different directories or keys share no file. *)
Lemma entries_apart c req req' e e' :
  entry_dir c req' <> entry_dir c req \/ entry_key req' <> entry_key req ->
  child (entry_dir c req') (entry_key req' +:+ e) <> child (entry_dir c req) (entry_key req +:+ e').
Proof.
  intros Hne [E1 E2]%child_inj. destruct Hne as [Hne|Hne]; [done|]. apply Hne, (str_app_inj_len _ _ e e'); [|done].
  unfold entry_key, CacheKey. by rewrite !hex_length, !Sum256_length.
Qed.
End PutGet.

(** The entry that was put is got, and is there. *)
Lemma Put_Get_hit `{MapRange} `{NetUrl} c req rv w w' :
  utf8_meta (meta_of req rv (w_now w)) -> run_fs (Put c req rv) w = (Ok tt, w') ->
  run_fs (Get c req) w' = (Ok (Some (as_cached rv)), w') /\ run_fs (Has c req) w' = (true, w').
Proof.
  intros Hu (Hroot & text & Htext & Hc)%run_Put. destruct (key_entry c req) as (_ & K1 & K2).
  assert (contents (w_tree w') (key (cache_path c req)) = Some (rv_Bytes rv)) as Hb.
  { rewrite Hc, decide_False, decide_True; [done|done|]. rewrite K1, K2. intros E. apply child_inj in E as [_ E]. by apply ext_distinct in E. }
  assert (contents (w_tree w') (key (metaPath c req)) = Some text) as Hm by by rewrite Hc, decide_True.
  split.
  - rewrite (run_Get _ _ _ _ _ Hroot Hb Hm). by rewrite (unmarshal_marshal _ _ Htext Hu).
  - unfold Has. destruct (String.eqb_spec (dc_root c) ""); [done|]. rewrite run_bind. unfold call. rewrite run_call.
    cbn [fs_answer]. unfold on_node. rewrite find_nonempty by (rewrite K1; apply child_nonempty).
    unfold contents in Hb. destruct (w_tree w' !! _); [|done]. rewrite run_ret, run_ret. by destruct w'.
Qed.

(** A hit is marked as cached. *)
Lemma Get_cached `{MapRange} c req t r : exec (Get c req) t (Ok (Some r)) -> rv_Cached r = true.
Proof.
  unfold Get. destruct (String.eqb _ ""); [by intros [_ ?]|]. intros (x & t' & -> & He). destruct x as [b|[e|e]]; simpl in He.
  - destruct He as ([mb|e] & t2 & -> & [_ He]); [destruct (unmarshal_meta mb)|]; by simplify_eq.
  - by destruct He.
  - by destruct He.
Qed.

(** what [Put] stores [Get] gives back: after a [Put] that succeeds, a [Get] of the
    same request, from a cache with the same root, is a hit with the bytes, the source
    and the digest that were put, marked as cached, and [Has] says yes; and an entry of
    another request (another directory or another key) is got as before. *)
Theorem Put_Get `{MapRange} `{NetUrl} c req rv w w' :
  utf8_meta (meta_of req rv (w_now w)) ->
  run_fs (Put c req rv) w = (Ok tt, w') ->
  run_fs (Get c req) w' = (Ok (Some (as_cached rv)), w') /\
  run_fs (Has c req) w' = (true, w') /\
  forall req' b mb, entry_dir c req' <> entry_dir c req \/ entry_key req' <> entry_key req ->
    contents (w_tree w) (key (cache_path c req')) = Some b -> contents (w_tree w) (key (metaPath c req')) = Some mb ->
    run_fs (Get c req') w' = ((run_fs (Get c req') w).1, w').
Proof.
  intros Hu Hput. destruct (Put_Get_hit c req rv w w' Hu Hput) as [Hget Hhas]. split; [exact Hget|]. split; [exact Hhas|].
  apply run_Put in Hput as (Hroot & text & Htext & Hc). destruct (key_entry c req) as (_ & K1 & K2).
  intros req' b mb Hne Hb' Hm'. destruct (key_entry c req') as (_ & K1' & K2').
    rewrite (run_Get _ _ w b mb Hroot Hb' Hm'). cbn [fst]. apply run_Get; [done| |].
    + rewrite Hc, K1', K2, K1, !decide_False by (by apply entries_apart). by rewrite <-K1'.
    + rewrite Hc, K2', K2, K1, !decide_False by (by apply entries_apart). by rewrite <-K2'.
Qed.

(** ** Redaction *)
Definition is_query (a : ascii) : bool := Ascii.eqb a "?" || Ascii.eqb a "#".
Definition url_plain (s : string) : Prop := str_all (fun a => negb (is_query a)) s = true.

(** What may follow the path: nothing, or a query or fragment. *)
Definition url_tail (q : string) : Prop := match q with "" => True | String a _ => is_query a = true end.

Lemma before_any_tail s q : url_plain s -> url_tail q -> before_any is_query (s +:+ q) = s.
Proof.
  unfold url_plain. induction s as [|a s IH]; [by destruct q as [|a q]; simpl; [|intros _ ->]|].
  rewrite str_app_cons. cbn [str_all before_any]. intros [Ha%negb_true_iff Hs]%andb_true_iff Hq. by rewrite Ha, IH.
Qed.

(** The text of a URL, and what [redactURLText] makes of it. *)
Definition url_text (scheme user host path q : string) : string := scheme +:+ "://" +:+ (user +:+ "@" +:+ host) +:+ path +:+ q.

Definition tail_mark (q : string) : string := if String.eqb q "" then "" else "?REDACTED".

Lemma redactURLText_text scheme user host path q :
  no_byte ":" scheme = true ->
  no_byte slash user = true -> url_plain user ->
  no_byte slash host = true -> no_byte "@" host = true -> url_plain host ->
  (path = "" \/ exists p, path = String slash p) -> url_plain path -> url_tail q ->
  redactURLText (url_text scheme user host path q) = scheme +:+ "://***@" +:+ host +:+ path +:+ tail_mark q.
Proof.
  intros Hs Hu1 Hu2 Hh1 Hh2 Hh3 Hp Hp2 Hq. unfold redactURLText, url_text.
  change (scheme +:+ "://" +:+ ?x) with (scheme +:+ String ":" "//" +:+ x). change "://" with (String ":" "//") at 1.
  rewrite cut_first by done. set (auth := user +:+ "@" +:+ host).
  change (fun a : ascii => Ascii.eqb a "?" || Ascii.eqb a "#") with is_query.
  assert (url_plain (auth +:+ path)) as Hap.
  { unfold url_plain, auth in *. rewrite !str_all_app, Hu2, Hh3, Hp2. done. }
  rewrite (str_app_assoc auth path q), (before_any_tail (auth +:+ path) q) by done.
  assert ((if String.eqb (auth +:+ path) ((auth +:+ path) +:+ q) then (auth +:+ path) +:+ q else (auth +:+ path) +:+ "?REDACTED")
          = auth +:+ (path +:+ tail_mark q)) as ->.
  { unfold tail_mark. destruct (String.eqb_spec (auth +:+ path) ((auth +:+ path) +:+ q)) as [E|E].
    - assert (q = "") as -> by (apply (f_equal String.length) in E; rewrite !str_length_app in E; destruct q; [done|simpl in E; lia]).
      by rewrite !str_app_nil_r.
    - destruct (String.eqb_spec q "") as [->|_]; [by rewrite str_app_nil_r in E|]. by rewrite str_app_assoc. }
  assert (no_byte slash auth = true) as Ha by (unfold auth; by rewrite !no_byte_app, Hu1, Hh1).
  assert (no_byte slash (tail_mark q) = true /\ no_byte "@" (tail_mark q) = true) as [Ht1 Ht2].
  { unfold tail_mark. by destruct (String.eqb q ""). }
  destruct Hp as [->|[p ->]].
  - rewrite str_app_nil_l. change "/" with (String slash ""). rewrite cut_byte_none by by rewrite no_byte_app, Ha, Ht1.
    unfold auth. rewrite <-!str_app_assoc. change ("@" +:+ host +:+ tail_mark q) with (String "@" (host +:+ tail_mark q)).
    rewrite cut_last_last by by rewrite no_byte_app, Hh2, Ht2. by rewrite str_app_nil_r.
  - rewrite str_app_cons. change "/" with (String slash ""). rewrite cut_byte_first by done. unfold auth.
    change ("@" +:+ host) with (String "@" host). rewrite cut_last_last by done. done.
Qed.

(** redaction hides credentials.  When the text of a URL does not parse, the
    redacted text is its scheme, "***@", host and path, with "?REDACTED" for a query or
    fragment: it has nothing of the user's name and password and nothing of the query.
    When it parses, two URLs that differ only in their user information and in their
    queries, both having some, are redacted to the same text. *)
Theorem redactURL_hides `{NetUrl} :
  (forall scheme user host path q,
    no_byte ":" scheme = true ->
    no_byte slash user = true -> url_plain user ->
    no_byte slash host = true -> no_byte "@" host = true -> url_plain host ->
    (path = "" \/ exists p, path = String slash p) -> url_plain path -> url_tail q ->
    (exists e, url_Parse (url_text scheme user host path q) = Err e) ->
    redactURL (url_text scheme user host path q) = scheme +:+ "://***@" +:+ host +:+ path +:+ tail_mark q) /\
  (forall raw raw' u u',
    url_Parse raw = Ok u -> url_Parse raw' = Ok u' ->
    (u_Scheme u, u_Host u, u_Rest u) = (u_Scheme u', u_Host u', u_Rest u') ->
    is_Some (u_User u) -> is_Some (u_User u') ->
    u_RawQuery u <> "" -> u_RawQuery u' <> "" ->
    redactURL raw = redactURL raw').
Proof.
  split.
  - intros scheme user host path q Hs Hu1 Hu2 Hh1 Hh2 Hh3 Hp Hp2 Hq [e He]. unfold redactURL. rewrite He.
    by apply redactURLText_text.
  - intros raw raw' u u' E1 E2 [= S1 S2 S3] [x Hx] [x' Hx'] Hq Hq'. unfold redactURL. rewrite E1, E2, Hx, Hx'.
    assert (String.eqb (u_RawQuery u) "" = false /\ String.eqb (u_RawQuery u') "" = false) as [-> ->].
    { by split; apply String.eqb_neq. }
    simpl. by rewrite S1, S2, S3.
Qed.

(** ** On a file system *)
Section Examples.

(** A parser that rejects every text. *)
#[local] Instance no_url : NetUrl := {
  url_Parse := fun _ => Err (lit "net/url: invalid"); url_String := fun _ => "";
  SplitHostPort := fun _ => None; ParseIP_IsLoopback := fun _ => false }.

Definition ex_request : Request := mkRequest "task" "git" {["url" := "https://u:p@h/r"]}.
Definition ex_resolved : Resolved := mkResolved "kind: Task" "git+https://***@h/r" (sha256Bytes "kind: Task") false.
Definition ex_cache : DiskCache := mkDiskCache "/cache".
Definition ex_empty : world := mkWorld 1709210096000000000 ∅.

Example redact_ex : redactURLText "https://u:p@h:1/r?token=t" = "https://***@h:1/r?REDACTED" /\ redactURLText "git@h:r" = "git@h:r".
Proof. vm_compute. done. Qed.

Lemma Put_Get_witness :
  let w' := (run_fs (Put ex_cache ex_request ex_resolved) ex_empty).2 in
  (run_fs (Put ex_cache ex_request ex_resolved) ex_empty).1 = Ok tt /\
  (run_fs (Get ex_cache ex_request) w').1 = Ok (Some (mkResolved "kind: Task" "git+https://***@h/r" (sha256Bytes "kind: Task") true)).
Proof.
  cbv zeta. assert ((run_fs (Put ex_cache ex_request ex_resolved) ex_empty).1 = Ok tt) as Hrun by (vm_compute; reflexivity).
  split; [exact Hrun|].
  assert (utf8_meta (meta_of ex_request ex_resolved (w_now ex_empty))) as Hu.
  { split_and!; [vm_compute; reflexivity..|]. intros k v Hk. simpl in Hk. unfold redactParams in Hk.
    rewrite map_fmap_singleton in Hk. apply lookup_singleton_Some in Hk as [<- <-]. split; vm_compute; reflexivity. }
  destruct (run_fs (Put ex_cache ex_request ex_resolved) ex_empty) as [r w'] eqn:E. cbn [fst] in Hrun. subst r.
  pose proof (Put_Get ex_cache ex_request ex_resolved ex_empty w' Hu E) as (Hg & _). cbn [snd]. by rewrite Hg.
Defined.
End Examples.
