(* ===== verification/Resolvers.v ===== *)
(** * internal/refresolver: the resolvers

    http.go, hub.go, git.go, bundles.go, cluster.go and remote.go as programs over one
    signature of calls: the network, the Kubernetes API, go-git, the container registry
    and the file system answer them.  What a client reads from a stream is the stream's
    bytes and the error it ends with. *)

From S2P Require Import Prelude GoStrings GoTime Paths Effects Fs Sha256 TektonTypes Run ClusterStatus Loader RefCache.

(** ** Calls *)
Abbreviation stream := (string * option text)%type.

Record HttpRequest := mkHttpRequest {
  hr_URL : string;
  hr_Authorization : option string;
  hr_Accept : string;
}.

Record HttpResponse := mkHttpResponse {
  hs_StatusCode : Z;
  hs_Body : stream;
}.

(** go-git's [CloneOptions]: a shallow clone of one reference, or everything. *)
Record CloneOptions := mkCloneOptions {
  co_URL : string;
  co_Depth : Z;
  co_SingleBranch : bool;
  co_ReferenceName : string;
}.

(** A pulled image: the manifest's layer annotations, and the layers; the entries of a
    layer's tar end with the error, if any, of reading on. *)
Record LayerFile := mkLayerFile {
  lf_Name : string;
  lf_Typeflag : ascii;
  lf_Body : stream;
}.

Record Image := mkImage {
  im_Manifest : result (list (gmap string string));
  im_Layers : result (list (result (list LayerFile * option text)));
}.

Record GVR := mkGVR { gvr_Group : string; gvr_Version : string; gvr_Resource : string }.

Inductive kube_err : Type :=
  | NoMatch (e : text)       (* apimeta.IsNoMatchError *)
  | OtherKube (e : text).

(** How [pollCtx] ended. *)
Inductive ctx_err : Type :=
  | DeadlineExceeded
  | Canceled (e : text).

Inductive RefE : Type -> Type :=
  | RFs {X} (e : FsE X) : RefE X
  | MkdirTemp (dir pattern : string) : RefE (string + errno)
  | EvalSymlinks (p : string) : RefE (string + errno)
  | OpenFile (p : string) : RefE (stream + errno)
  | LockKey (key : string) : RefE unit
  | UnlockKey (key : string) : RefE unit
  | PlainClone (dir : string) (o : CloneOptions) : RefE (result unit)
  | ResolveRevision (dir revision : string) : RefE (result string)
  | Worktree (dir : string) : RefE (result unit)
  | Checkout (dir hash : string) : RefE (result unit)
  | Head (dir : string) : RefE (result string)                      (* PlainOpen, then Head *)
  | HttpDo (resolverName : string) (allowInsecure : bool) (r : HttpRequest) : RefE (result HttpResponse)
  | Sleep (d : Z) : RefE (option text)                              (* Some: the context ended first *)
  | Getenv (k : string) : RefE string
  | ParseReference (insecure : bool) (ref : string) : RefE (result unit)
  | PullImage (insecure : bool) (ref : string) : RefE (result Image)
  | MarshalYAML (o : object) : RefE (result string)
  | ClusterGet (gvr : GVR) (ns name : string) : RefE (result object)
  | RemoteCreate (gvr : GVR) (ns : string) (body : object) : RefE (string + kube_err)
  | RemoteGet (gvr : GVR) (ns name : string) (deadline : Z) : RefE (result object)
  | RemoteDelete (gvr : GVR) (ns name : string) : RefE (result unit)
  | UseV1Alpha1 : RefE bool
  | SetUseV1Alpha1 : RefE unit
  | WaitPoll (d deadline : Z) : RefE (option ctx_err)
  | CustomResolve (name : string) (req : Request) : RefE (result Resolved).

Abbreviation ref := (prog RefE).

Definition fs {A} (p : prog FsE A) : ref A := hoist (fun X => @RFs X) p.

(** A param of the request; a missing one is "". *)
Definition param (req : Request) (k : string) : string := default "" (rq_Params req !! k).
Definition or_else (s d : string) : string := if String.eqb s "" then d else s.

(** ** httpsafe.go *)
Definition MaxResolvedBytes : Z := 10485760.

Definition readLimited (r : stream) (what : string) : result string :=
  if (MaxResolvedBytes <? Z.of_nat (String.length r.1))%Z
  then Err (Fmt "%s exceeds the %d MiB size limit" [TStr what; TInt 10])
  else match r.2 with Some e => Err e | None => Ok r.1 end.

Section Resolvers.
Context `{MapRange} `{NetUrl} `{Unstructured}.

(** EqualFold against a text of ASCII letters. *)
Definition isLoopbackHost (host : string) : bool :=
  if String.eqb host "" then false
  else
    let h := default host (SplitHostPort host) in
    let h := trim_suffix (trim_prefix h "[") "]" in
    String.eqb (JsonText.fold_name h) (JsonText.fold_name "localhost") || ParseIP_IsLoopback h.

(** ** http.go and hub.go: one GET, and one more *)

(** What one attempt gives: the body, or whether to try again and the error. *)
Abbreviation attempt := (string + bool * text)%type.

(** The loop of [fetchWithRetry], with [n] attempts left; the last error is returned. *)
Fixpoint fetch_attempts (fetchOnce : ref attempt) (n : nat) : ref (result string) :=
  r ← fetchOnce;
  match r, n with
  | inl body, _ => Ret (Ok body)
  | inr (true, e), S n' =>
    w ← call (Sleep 250000000);
    match w with
    | Some e' => Ret (Err e')
    | None => fetch_attempts fetchOnce n'
    end
  | inr (_, e), _ => Ret (Err e)
  end.

Definition fetchWithRetry (fetchOnce : ref attempt) : ref (result string) := fetch_attempts fetchOnce 1.

Definition accept : string := "text/yaml, application/yaml, application/octet-stream, */*".

(** The statuses of both; [notFound] is the error of a 404. *)
Definition status_result (resolverName shown : string) (notFound : text) (resp : HttpResponse) : attempt :=
  let code := hs_StatusCode resp in
  if (200 <=? code)%Z && (code <? 300)%Z then
    match readLimited (hs_Body resp) "response body" with
    | Ok body => inl body
    | Err e => inr (false, Fmt "%s: GET %s: %w" [TStr resolverName; TStr shown; TErr e])
    end
  else if (code =? 404)%Z then inr (false, notFound)
  else if (500 <=? code)%Z then inr (true, Fmt "%s: GET %s: server error %d" [TStr resolverName; TStr shown; TInt code])
  else inr (false, Fmt "%s: GET %s: unexpected status %d" [TStr resolverName; TStr shown; TInt code]).

(** [NewRequestWithContext] fails as [url.Parse] does. *)
Definition get_once (resolverName : string) (insecure : bool) (rawURL : string) (token : ref string) (notFound : string -> text) : ref attempt :=
  match url_Parse rawURL with
  | Err e => Ret (inr (false, Fmt "%s: building request: %w" [TStr resolverName; TErr e]))
  | Ok _ =>
    tok ← token;
    let auth := if String.eqb tok "" then None else Some ("Bearer " +:+ tok) in
    let shown := redactURL rawURL in
    r ← call (HttpDo resolverName insecure (mkHttpRequest rawURL auth accept));
    Ret (match r with
         | Err e => inr (true, Fmt "%s: GET %s: %w" [TStr resolverName; TStr shown; TErr e])
         | Ok resp => status_result resolverName shown (notFound shown) resp
         end)
  end.

Record HTTPOptions := mkHTTPOptions { ho_AllowInsecureHTTP : bool; ho_Token : string }.

Definition bearerToken (h : HTTPOptions) : ref string :=
  if negb (String.eqb (ho_Token h) "") then Ret (ho_Token h)
  else
    tok ← call (Getenv "TKN_ACT_HTTP_RESOLVER_TOKEN");
    if negb (String.eqb tok "") then Ret tok else call (Getenv "TKNACT_HTTP_RESOLVER_TOKEN").

Definition http_fetchOnce (h : HTTPOptions) (rawURL : string) : ref attempt :=
  get_once "http" (ho_AllowInsecureHTTP h) rawURL (bearerToken h)
    (fun shown => Fmt "http: GET %s: not found (status 404)" [TStr shown]).

Definition http_Resolve (h : HTTPOptions) (req : Request) : ref (result Resolved) :=
  let rawURL := trim_space (param req "url") in
  if String.eqb rawURL "" then Ret (Err (Fmt "http: param %q is required" [TStr "url"]))
  else
    match url_Parse rawURL with
    | Err e => Ret (Err (Fmt "http: invalid url %q: %w" [TStr (redactURL rawURL); TErr e]))
    | Ok parsed =>
      let refused :=
        if String.eqb (u_Scheme parsed) "https" then None
        else if String.eqb (u_Scheme parsed) "http" then
          if negb (ho_AllowInsecureHTTP h) && negb (isLoopbackHost (u_Host parsed)) then
            Some (Fmt "http: refusing plain-http URL %q; HTTPS is required (use --resolver-allow-insecure-http for non-loopback http:// URLs)"
                    [TStr (redactURL rawURL)])
          else None
        else Some (Fmt "http: unsupported scheme %q in %q" [TStr (u_Scheme parsed); TStr (redactURL rawURL)]) in
      match refused with
      | Some e => Ret (Err e)
      | None =>
        do! body ← fetchWithRetry (http_fetchOnce h rawURL);
        Ret (Ok (mkResolved body ("http: " +:+ redactURL rawURL) "" false))
      end
    end.

Record HubOptions := mkHubOptions { hb_BaseURL : string; hb_Token : string }.

Definition NewHubResolver (o : HubOptions) : HubOptions :=
  mkHubOptions (or_else (hb_BaseURL o) "https://api.hub.tekton.dev") (hb_Token o).

(** [url.PathEscape]. *)
Definition unreserved (a : ascii) : bool :=
  let n := nat_of_ascii a in
  ((97 <=? n) && (n <=? 122)) || ((65 <=? n) && (n <=? 90)) || ((48 <=? n) && (n <=? 57)) ||
  existsb (Ascii.eqb a) ["-"; "_"; "."; "~"; "$"; "&"; "+"; "="; ":"; "@"]%char.

Definition upper_hex (n : nat) : ascii := ascii_of_nat (if n <? 10 then 48 + n else 55 + n).

Fixpoint PathEscape (s : string) : string :=
  match s with
  | "" => ""
  | String a s' =>
    if unreserved a then String a (PathEscape s')
    else let n := nat_of_ascii a in String "%" (String (upper_hex (n / 16)) (String (upper_hex (n mod 16)) (PathEscape s')))
  end.

Fixpoint trim_right_slashes (s : string) : string :=
  match s with
  | "" => ""
  | String a s' => let t := trim_right_slashes s' in if String.eqb t "" && Ascii.eqb a slash then "" else String a t
  end.

Definition hub_fetchOnce (h : HubOptions) (endpoint name version kind catalog : string) : ref attempt :=
  get_once "hub" false endpoint (Ret (hb_Token h))
    (fun shown => Fmt "hub: %s/%s/%s@%s not found at %s (status 404)" [TStr catalog; TStr kind; TStr name; TStr version; TStr shown]).

Definition hub_Resolve (h : HubOptions) (req : Request) : ref (result Resolved) :=
  let name := trim_space (param req "name") in
  if String.eqb name "" then Ret (Err (Fmt "hub: param %q is required" [TStr "name"]))
  else
    let hubType := to_lower (trim_space (param req "type")) in
    if String.eqb hubType "artifact" then
      Ret (Err (lit "hub: artifact hub not supported yet, set type: tekton (the Tekton Hub API)"))
    else if negb (String.eqb hubType "" || String.eqb hubType "tekton") then
      Ret (Err (Fmt "hub: invalid type %q (want %q or %q)" [TStr (param req "type"); TStr "tekton"; TStr "artifact"]))
    else
      let version := or_else (trim_space (param req "version")) "latest" in
      let kind := or_else (trim_space (param req "kind")) "task" in
      let catalog := or_else (trim_space (param req "catalog")) "tekton" in
      match url_Parse (hb_BaseURL h) with
      | Err e => Ret (Err (Fmt "hub: invalid baseURL %q: %w" [TStr (redactURL (hb_BaseURL h)); TErr e]))
      | Ok parsedBase =>
        if String.eqb (u_Scheme parsedBase) "http" && negb (isLoopbackHost (u_Host parsedBase)) then
          Ret (Err (Fmt "hub: refusing plain-http base URL %q; HTTPS is required" [TStr (redactURL (hb_BaseURL h))]))
        else
          let endpoint := trim_right_slashes (hb_BaseURL h) +:+ "/v1/resource/" +:+ PathEscape catalog +:+ "/" +:+ PathEscape kind +:+ "/" +:+
                          PathEscape name +:+ "/" +:+ PathEscape version +:+ "/yaml" in
          do! body ← fetchWithRetry (hub_fetchOnce h endpoint name version kind catalog);
          Ret (Ok (mkResolved body ("hub: " +:+ catalog +:+ "/" +:+ kind +:+ "/" +:+ name +:+ "@" +:+ version) "" false))
      end.

(** ** git.go *)
Record GitResolver := mkGitResolver { g_cacheDir : string; g_allowInsecureHTTP : bool }.

Definition gitCacheKey (url revision : string) : string := hex (Sum256 (bytes_of (url +:+ NUL +:+ revision))).

Definition sanitizePathInRepo (p : string) : result string :=
  let cleaned := Clean p in
  if has_prefix cleaned ".." || IsAbs cleaned then Err (Fmt "git: pathInRepo %q escapes the repository root" [TStr p])
  else Ok cleaned.

Definition refusing_http : text := lit "git: refusing insecure http:// URL (set --resolver-allow-insecure-http to override)".

Definition checkURLScheme (g : GitResolver) (raw : string) : option text :=
  if g_allowInsecureHTTP g then None
  else if has_prefix (to_lower raw) "http://" then Some refusing_http
  else match url_Parse raw with Ok u => if String.eqb (u_Scheme u) "http" then Some refusing_http else None | Err _ => None end.

(** A failed attempt's leftovers are removed. *)
Definition removing {A} (dir : string) (r : result A) : ref (result A) :=
  match r with Ok _ => Ret r | Err _ => _ ← fs (ignore (call (RemoveAll dir))); Ret r end.

Definition cloneShallow (repoURL revision dir : string) : ref (result unit) :=
  let shallow r := call (PlainClone dir (mkCloneOptions repoURL 1 true r)) in
  b ← shallow ("refs/heads/" +:+ revision);
  match b with
  | Ok _ => Ret (Ok tt)
  | Err _ =>
    _ ← fs (ignore (call (RemoveAll dir)));
    t ← shallow ("refs/tags/" +:+ revision);
    match t with
    | Ok _ => Ret (Ok tt)
    | Err _ =>
      _ ← fs (ignore (call (RemoveAll dir)));
      c ← call (PlainClone dir (mkCloneOptions repoURL 0 false ""));
      do! _ ← removing dir (wrap_err "git: clone %s: %w" [TStr (redactURL repoURL)] c);
      h ← call (ResolveRevision dir revision);
      do! hash ← removing dir (wrap_err "git: revision %q not found in %s: %w" [TStr revision; TStr (redactURL repoURL)] h);
      w ← call (Worktree dir);
      do! _ ← removing dir (wrap_err "git: worktree: %w" [] w);
      k ← call (Checkout dir hash);
      removing dir (wrap_err "git: checkout %s: %w" [TStr revision] k)
    end
  end.

Definition dirExists (p : string) : ref bool :=
  st ← fs (call (Stat p)); Ret (match st with inl st => fi_IsDir st | inr _ => false end).

Definition repoUsable (dir : string) : ref bool := h ← call (Head dir); Ret (is_ok h).

Definition shortSHA (sha fallback : string) : string :=
  if 7 <=? String.length sha then substring 0 7 sha else fallback.

(** The clone, and the cleanup that runs when the resolve returns. *)
Definition clone_into (root repoDir repoURL revision : string) : ref (result string) :=
  do! _ ← wrapP "git: mkdir %s: %w" [TStr root] (fs (fails (call (MkdirAll root 448))));
  do! tmp ← wrapP "git: tempdir: %w" [] (fails (call (MkdirTemp root "repo.tmp-")));
  c ← cloneShallow repoURL revision tmp;
  do! _ ← removing tmp c;
  r ← fs (call (Rename tmp repoDir));
  match r with
  | inl _ => Ret (Ok repoDir)
  | inr e =>
    _ ← fs (ignore (call (RemoveAll tmp)));
    usable ← repoUsable repoDir;
    Ret (if usable : bool then Ok repoDir else Err (Fmt "git: moving clone into cache: %w" [TErr (errno_text e)]))
  end.

Definition acquire_cached (cacheDir repoURL revision keyHex : string) : ref (result string) :=
  let root := Join [cacheDir; "git"; keyHex] in
  let repoDir := Join [root; "repo"] in
  exists_ ← dirExists repoDir;
  if exists_ : bool then
    usable ← repoUsable repoDir;
    if usable : bool then Ret (Ok repoDir)
    else
      do! _ ← wrapP "git: removing broken cached clone %s: %w" [TStr repoDir] (fs (fails (call (RemoveAll repoDir))));
      clone_into root repoDir repoURL revision
  else clone_into root repoDir repoURL revision.

Definition acquireRepo (g : GitResolver) (repoURL revision keyHex : string) : ref (result (string * ref unit)) :=
  if String.eqb (g_cacheDir g) "" then
    do! tmp ← wrapP "git: tempdir: %w" [] (fails (call (MkdirTemp "" "tkn-act-git-")));
    c ← cloneShallow repoURL revision tmp;
    do! _ ← removing tmp c;
    Ret (Ok (tmp, fs (ignore (call (RemoveAll tmp)))))
  else
    _ ← call (LockKey keyHex);
    do! dir ← defer_ (call (UnlockKey keyHex)) (acquire_cached (g_cacheDir g) repoURL revision keyHex);
    Ret (Ok (dir, Ret tt)).

Definition escapes_root (rel : result string) : bool :=
  match rel with
  | Err _ => true
  | Ok rel => String.eqb rel ".." || has_prefix rel "../" || IsAbs rel
  end.

Definition resolveInRepo (repoDir cleanPath pathInRepo revision : string) : ref (result string) :=
  do! root ← wrapP "git: resolving clone dir: %w" [] (fails (call (EvalSymlinks repoDir)));
  t ← call (EvalSymlinks (Join [root; cleanPath]));
  Ret (match t with
       | inr (NotExist _) => Err (Fmt "git: pathInRepo %q not found at revision %q" [TStr pathInRepo; TStr revision])
       | inr (OtherErr e) => Err (Fmt "git: resolving pathInRepo %q: %w" [TStr pathInRepo; TErr e])
       | inl target =>
         if escapes_root (Rel root target) then
           Err (Fmt "git: pathInRepo %q escapes the repository root (symlink target outside the clone)" [TStr pathInRepo])
         else Ok target
       end).

Definition marker_of (g : GitResolver) (key : string) : string := Join [g_cacheDir g; "git"; key; gitFetchedMarker].

Definition cachedHit (g : GitResolver) (key : string) : ref bool :=
  if String.eqb (g_cacheDir g) "" then Ret false
  else st ← fs (call (Stat (marker_of g key))); Ret (match st with inl _ => true | inr _ => false end).

Definition markCached (g : GitResolver) (key : string) : ref unit :=
  if String.eqb (g_cacheDir g) "" then Ret tt
  else
    _ ← fs (ignore (call (WriteFile (marker_of g key) ("ok" +:+ String "010" "") 384)));
    now ← fs (call Now);
    fs (ignore (call (Chtimes (marker_of g key) now))).

(** The file of a clone. *)
Definition read_in_repo (g : GitResolver) (repoDir repoURL revision pathInRepo cleanPath keyHex : string) : ref (result Resolved) :=
  do! full ← resolveInRepo repoDir cleanPath pathInRepo revision;
  f ← call (OpenFile full);
  match f with
  | inr (NotExist _) => Ret (Err (Fmt "git: pathInRepo %q not found at revision %q" [TStr pathInRepo; TStr revision]))
  | inr (OtherErr e) => Ret (Err (Fmt "git: reading pathInRepo %q: %w" [TStr pathInRepo; TErr e]))
  | inl st =>
    do! bytes ← Ret (wrap_err "git: reading pathInRepo %q: %w" [TStr pathInRepo] (readLimited st "file"));
    h ← call (Head repoDir);
    let headSHA := match h with Ok s => s | Err _ => "" end in
    cached ← cachedHit g keyHex;
    _ ← markCached g keyHex;
    Ret (Ok (mkResolved bytes ("git: " +:+ redactURL repoURL +:+ "@" +:+ shortSHA headSHA revision +:+ " -> " +:+ pathInRepo)
               (sha256Bytes bytes) cached))
  end.

Definition git_Resolve (g : GitResolver) (req : Request) : ref (result Resolved) :=
  let repoURL := param req "url" in
  let revision := or_else (param req "revision") "main" in
  let pathInRepo := param req "pathInRepo" in
  if String.eqb repoURL "" then Ret (Err (lit "git: url param is required"))
  else if String.eqb pathInRepo "" then Ret (Err (lit "git: pathInRepo param is required"))
  else
    match checkURLScheme g repoURL with
    | Some e => Ret (Err e)
    | None =>
      do! cleanPath ← Ret (sanitizePathInRepo pathInRepo);
      let keyHex := gitCacheKey repoURL revision in
      do! rc ← acquireRepo g repoURL revision keyHex;
      defer_ rc.2 (read_in_repo g rc.1 repoURL revision pathInRepo cleanPath keyHex)
    end.

(** ** bundles.go *)
Definition annotationName : string := "dev.tekton.image.name".
Definition annotationKind : string := "dev.tekton.image.kind".

(** The first regular file of a layer. *)
Fixpoint readFirstTarFile (files : list LayerFile) (err : option text) : result string :=
  match files with
  | [] => match err with Some e => Err e | None => Err (lit "empty layer tar (no files)") end
  | f :: files' =>
    if negb (Ascii.eqb (lf_Typeflag f) "0") && negb (Ascii.eqb (lf_Typeflag f) "000") then readFirstTarFile files' err
    else readLimited (lf_Body f) ("layer file " +:+ lf_Name f)
  end.

(** The layers from the [i]-th on, and the names found so far. *)
Fixpoint find_layer (wantKind wantName : string) (i : nat) (anns : list (gmap string string))
    (layers : list (result (list LayerFile * option text))) (foundNames : list string) : result string :=
  match anns, layers with
  | ann :: anns', layer :: layers' =>
    let gotName := default "" (ann !! annotationName) in
    let gotKind := to_lower (default "" (ann !! annotationKind)) in
    let foundNames := if String.eqb gotName "" then foundNames else foundNames ++ [gotKind +:+ "/" +:+ gotName] in
    if negb (String.eqb gotName wantName) || String.eqb gotKind "" || negb (String.eqb gotKind wantKind)
    then find_layer wantKind wantName (S i) anns' layers' foundNames
    else
      files ← wrap_err "layer %d uncompressed: %w" [TInt (Z.of_nat i)] layer;
      wrap_err "layer %d tar: %w" [TInt (Z.of_nat i)] (readFirstTarFile files.1 files.2)
  | _, _ =>
    match foundNames with
    | [] => Err (Fmt "resource %q (kind %q) not found in bundle (no Tekton-bundle annotations)" [TStr wantName; TStr wantKind])
    | _ => Err (Fmt "resource %q (kind %q) not found; layers found: %s" [TStr wantName; TStr wantKind; TStr (join ", " foundNames)])
    end
  end.

Definition extractTektonResource (img : Image) (wantKind wantName : string) : result string :=
  anns ← wrap_err "manifest: %w" [] (im_Manifest img);
  layers ← wrap_err "layers: %w" [] (im_Layers img);
  if length layers =? length anns then find_layer wantKind wantName 0 anns layers []
  else Err (Fmt "manifest/layer count mismatch: %d vs %d" [TInt (Z.of_nat (length anns)); TInt (Z.of_nat (length layers))]).

Definition allowInsecureFor (allowInsecureHTTP : bool) (ref : string) : bool :=
  allowInsecureHTTP || isLoopbackHost (match cut "/" ref with Some (host, _) => host | None => ref end).

Definition bundles_Resolve (allowInsecureHTTP : bool) (req : Request) : ref (result Resolved) :=
  let bundleRef := trim_space (param req "bundle") in
  if String.eqb bundleRef "" then Ret (Err (lit "bundles: bundle param is required (OCI image reference)"))
  else
    let resourceName := trim_space (param req "name") in
    if String.eqb resourceName "" then Ret (Err (lit "bundles: name param is required (the resource metadata.name to extract)"))
    else
      let kind := to_lower (or_else (trim_space (param req "kind")) "task") in
      let insecure := allowInsecureFor allowInsecureHTTP bundleRef in
      do! _ ← wrapP "bundles: parsing bundle ref %q: %w" [TStr bundleRef] (call (ParseReference insecure bundleRef));
      do! img ← wrapP "bundles: fetching %s: %w" [TStr bundleRef] (call (PullImage insecure bundleRef));
      do! body ← Ret (wrap_err "bundles: in %s: %w" [TStr bundleRef] (extractTektonResource img kind resourceName));
      Ret (Ok (mkResolved body ("bundles: " +:+ bundleRef +:+ " -> " +:+ kind +:+ "/" +:+ resourceName) "" false)).

(** ** cluster.go *)

(** [cl_dyn]: there is a client. *)
Record ClusterResolver := mkClusterResolver { cl_Context : string; cl_dyn : bool }.

Definition ErrClusterContextRequired : text := Sentinel "refresolver.ErrClusterContextRequired".

Definition gvrForKind (kind : string) : result GVR :=
  if String.eqb kind "task" then Ok (mkGVR "tekton.dev" "v1" "tasks")
  else if String.eqb kind "pipeline" then Ok (mkGVR "tekton.dev" "v1" "pipelines")
  else Err (Fmt "cluster: unsupported kind %q (want task/pipeline)" [TStr kind]).

Definition server_fields : list string := ["uid"; "resourceVersion"; "generation"; "creationTimestamp"; "managedFields"; "selfLink"].

Definition stripServerSideFields (obj : object) : object :=
  let obj := delete "status" obj in
  match obj !! "metadata" with
  | Some (VMap md) => <["metadata" := VMap (foldl (fun md k => delete k md) md server_fields)]> obj
  | _ => obj
  end.

Definition cluster_Resolve (c : ClusterResolver) (req : Request) : ref (result Resolved) :=
  let resourceName := trim_space (param req "name") in
  if String.eqb resourceName "" then Ret (Err (lit "cluster: name param is required"))
  else
    let kind := to_lower (or_else (trim_space (param req "kind")) "task") in
    let namespace := or_else (trim_space (param req "namespace")) "default" in
    do! gvr ← Ret (gvrForKind kind);
    if negb (cl_dyn c) then Ret (Err ErrClusterContextRequired)
    else
      do! got ← wrapP "cluster: %s %q in ns %q: %w" [TStr kind; TStr resourceName; TStr namespace] (call (ClusterGet gvr namespace resourceName));
      do! out ← wrapP "cluster: marshal %s/%s: %w" [TStr kind; TStr resourceName] (call (MarshalYAML (stripServerSideFields got)));
      let source := kind +:+ " " +:+ namespace +:+ "/" +:+ resourceName in
      Ret (Ok (mkResolved out ((if String.eqb (cl_Context c) "" then "cluster: " else "cluster[" +:+ cl_Context c +:+ "]: ") +:+ source) "" false)).

(** ** remote.go *)
Record RemoteResolver := mkRemoteResolver {
  rr_dyn : bool;
  rr_namespace : string;
  rr_timeout : Z;
  rr_poll : Z;
}.

Definition NewRemoteResolverFromOptions (dyn : bool) (namespace : string) (timeout poll : Z) : RemoteResolver :=
  mkRemoteResolver dyn (or_else namespace "default") (if (timeout <=? 0)%Z then 60000000000%Z else timeout)
    (if (poll <=? 0)%Z then 500000000%Z else poll).

Definition gvrResolutionRequestV1Beta1 : GVR := mkGVR "resolution.tekton.dev" "v1beta1" "resolutionrequests".
Definition gvrResolutionRequestV1Alpha1 : GVR := mkGVR "resolution.tekton.dev" "v1alpha1" "resolutionrequests".

Definition buildResolutionRequest (apiVersion : string) (req : Request) (namespace : string) : object :=
  {["apiVersion" := VString apiVersion;
    "kind" := VString "ResolutionRequest";
    "metadata" := VMap {["generateName" := VString "tkn-act-"; "namespace" := VString namespace;
                         "labels" := VMap {["resolution.tekton.dev/type" := VString (rq_Resolver req)]}]};
    "spec" := VMap {["params" := VSlice (map (fun k => VMap {["name" := VString k; "value" := VString (param req k)]})
                                           (sort_strings (map_range (rq_Params req)).*1))]}]}.

(** The first condition of type Succeeded that is True or False decides: [Ok (Some _)]
    is the data, [Ok None] is to wait on. *)
Fixpoint succeeded (obj : object) (conditions : list value) : result (option string) :=
  match conditions with
  | [] => Ok None
  | VMap m :: conditions' =>
    if negb (String.eqb (string_field "type" m) "Succeeded") then succeeded obj conditions'
    else if String.eqb (string_field "status" m) "True" then Ok (Some (default "" (NestedString obj ["status"; "data"])))
    else if String.eqb (string_field "status" m) "False" then
      let reason := string_field "reason" m in
      let message := string_field "message" m in
      let detail := join " " ((if String.eqb reason "" then [] else ["reason=" +:+ reason]) ++
                              (if String.eqb message "" then [] else ["message=" +:+ message])) in
      Err (Fmt "remote: ResolutionRequest failed: %s" [TStr (or_else detail "no reason/message")])
    else succeeded obj conditions'
  | _ :: conditions' => succeeded obj conditions'
  end.

Definition readSucceededStatus (obj : object) : result (option string) :=
  match NestedSlice obj ["status"; "conditions"] with None => Ok None | Some l => succeeded obj l end.

(** The request that was created: where, and its name. *)
Definition create (r : RemoteResolver) (req : Request) : ref (result (GVR * string)) :=
  let ns := rr_namespace r in
  alpha ← call UseV1Alpha1;
  let gvr := if alpha : bool then gvrResolutionRequestV1Alpha1 else gvrResolutionRequestV1Beta1 in
  c ← call (RemoteCreate gvr ns (buildResolutionRequest (gvr_Group gvr +:+ "/" +:+ gvr_Version gvr) req ns));
  match c with
  | inl name => Ret (Ok (gvr, name))
  | inr (OtherKube e) => Ret (Err (Fmt "remote: create ResolutionRequest: %w" [TErr e]))
  | inr (NoMatch e) =>
    if alpha then Ret (Err (Fmt "remote: create ResolutionRequest: %w" [TErr e]))
    else
      c ← call (RemoteCreate gvrResolutionRequestV1Alpha1 ns (buildResolutionRequest "resolution.tekton.dev/v1alpha1" req ns));
      match c with
      | inr (NoMatch e) | inr (OtherKube e) => Ret (Err (Fmt "remote: create ResolutionRequest (v1alpha1 fallback): %w" [TErr e]))
      | inl name => _ ← call SetUseV1Alpha1; Ret (Ok (gvrResolutionRequestV1Alpha1, name))
      end
  end.

(** The polling loop.  It has no bound but the deadline, which [poll_rounds] rounds
    reach; [still_polling] is no answer of the program. *)
Definition still_polling : text := Sentinel "remote: still polling".

Definition poll_rounds (r : RemoteResolver) : nat := Z.to_nat (rr_timeout r / rr_poll r) + 2.

Fixpoint poll (r : RemoteResolver) (gvr : GVR) (name : string) (deadline : Z) (fuel : nat) : ref (result Resolved) :=
  match fuel with
  | O => Ret (Err still_polling)
  | S fuel' =>
    got ← call (RemoteGet gvr (rr_namespace r) name deadline);
    match (match got with Ok obj => readSucceededStatus obj | Err _ => Ok None end) with
    | Err e => Ret (Err e)
    | Ok (Some payload) =>
      Ret (bytes ← wrap_err "remote: status.data base64 decode: %w" [] (base64_decode payload);
           Ok (mkResolved bytes ("remote: " +:+ rr_namespace r +:+ "/" +:+ name +:+ " (" +:+ gvr_Version gvr +:+ ")") "" false))
    | Ok None =>
      w ← call (WaitPoll (rr_poll r) deadline);
      match w with
      | None => poll r gvr name deadline fuel'
      | Some DeadlineExceeded =>
        Ret (Err (Fmt "remote: timeout after %s waiting for ResolutionRequest %s/%s" [TInt (rr_timeout r); TStr (rr_namespace r); TStr name]))
      | Some (Canceled e) => Ret (Err (Fmt "remote: %w" [TErr e]))
      end
    end
  end.

Definition remote_Resolve (r : RemoteResolver) (req : Request) : ref (result Resolved) :=
  if negb (rr_dyn r) then Ret (Err (lit "remote: dynamic client is nil (build via NewRemoteResolver with a kubeconfig)"))
  else
    do! c ← create r req;
    now ← fs (call Now);
    defer_ (_ ← call (RemoteDelete c.1 (rr_namespace r) c.2); Ret tt)
      (poll r c.1 c.2 (now + rr_timeout r)%Z (poll_rounds r)).
End Resolvers.
