(* ===== verification/RefRegistry.v ===== *)
(** * internal/refresolver/refresolver.go: the registry

    [Registry.Resolve] over a signature of its own: a locked section is one step on the
    registry's state, taken whenever other goroutines let it; the disk cache, the
    resolvers and the remote driver are programs it calls.  The registry is written
    against the interface [Resolver]; the resolvers of [Resolvers] implement it. *)

From S2P Require Import Prelude GoStrings Paths Effects Fs Json JsonText TektonTypes Run ClusterStatus RefCache Resolvers.

(** ** The interface *)

(** What the registry needs of a resolver and of the remote driver. *)
Class ResolverI (E : Type -> Type) (R RR : Type) := {
  Name : R -> string;
  Resolve_ : R -> Request -> prog E (result Resolved);
  Remote_ : RR -> Request -> prog E (result Resolved);
}.

Section Registry.
Context `{MapRange} `{NetUrl} {E : Type -> Type} {R RR : Type} `{ResolverI E R RR}.

(** ** State *)
Record Registry := mkRegistry {
  direct : gmap string R;
  remote : option RR;
  allow : option (gset string);
  perRun : gmap string Resolved;
  disk : option DiskCache;
  offline : bool;
}.

Inductive RegE : Type -> Type :=
  | Locked {X} (f : Registry -> X * Registry) : RegE X       (* r.mu.Lock() ... r.mu.Unlock() *)
  | Disk {X} (e : FsE X) : RegE X
  | Ext {X} (e : E X) : RegE X
  | DbgEmit (msg : string) (fields : list (string * json)) : RegE unit.

Abbreviation reg := (prog RegE).

Definition locked {X} (f : Registry -> X * Registry) : reg X := call (Locked f).
Definition reading {X} (f : Registry -> X) : reg X := locked (fun s => (f s, s)).
Definition on_disk {A} (p : prog FsE A) : reg A := hoist (fun X => @Disk X) p.
Definition external {A} (p : prog E A) : reg A := hoist (fun X => @Ext X) p.

(** ** Operations *)
Definition NewRegistry : Registry := mkRegistry ∅ None None ∅ None false.

Definition set_direct d s := mkRegistry d (remote s) (allow s) (perRun s) (disk s) (offline s).
Definition set_perRun p s := mkRegistry (direct s) (remote s) (allow s) p (disk s) (offline s).

Definition Register (res : R) (s : Registry) : Registry := set_direct (<[Name res := res]> (direct s)) s.

Definition SetAllow (names : list string) (s : Registry) : Registry :=
  mkRegistry (direct s) (remote s) (match names with [] => None | _ => Some (list_to_set names) end) (perRun s) (disk s) (offline s).

Definition SetRemote (rr : option RR) (s : Registry) : Registry :=
  mkRegistry (direct s) rr (allow s) (perRun s) (disk s) (offline s).

Definition SetCache (c : option DiskCache) (s : Registry) : Registry :=
  mkRegistry (direct s) (remote s) (allow s) (perRun s) c (offline s).

Definition SetOffline (b : bool) (s : Registry) : Registry :=
  mkRegistry (direct s) (remote s) (allow s) (perRun s) (disk s) b.

Definition ErrResolverNotRegistered : text := Sentinel "refresolver.ErrResolverNotRegistered".
Definition ErrResolverNotAllowed : text := Sentinel "refresolver.ErrResolverNotAllowed".

(** ** [Resolve] *)
Definition dbgEmit (msg resolverName key : string) (extra : list (string * json)) : reg unit :=
  call (DbgEmit msg (("resolver", JStr resolverName) :: (if 8 <=? String.length key then [("key", JStr (substring 0 8 key))] else []) ++ extra)).

(** The first locked section: refused, served from the run's own cache, or the disk
    cache and offline flag as they are now. *)
Inductive first_look : Type :=
  | Refused
  | PerRunHit (r : Resolved)
  | Look (disk : option DiskCache) (offline : bool).

Definition is_allowed (name : string) (s : Registry) : bool :=
  match remote s, allow s with
  | None, Some a => bool_decide (name ∈ a)
  | _, _ => true
  end.

Definition look (name key : string) (s : Registry) : first_look :=
  if negb (is_allowed name s) then Refused
  else match perRun s !! key with
       | Some r => PerRunHit (as_cached r)
       | None => Look (disk s) (offline s)
       end.

Definition remember (key : string) (r : Resolved) : reg unit :=
  locked (fun s => (tt, set_perRun (<[key := r]> (perRun s)) s)).

Definition disk_lookup (disk : option DiskCache) (req : Request) : reg (option Resolved) :=
  match disk with
  | None => Ret None
  | Some c => r ← on_disk (Get c req); Ret (match r with Ok hit => hit | Err _ => None end)
  end.

Definition with_sha (r : Resolved) : Resolved :=
  if String.eqb (rv_SHA256 r) "" then mkResolved (rv_Bytes r) (rv_Source r) (sha256Bytes (rv_Bytes r)) (rv_Cached r) else r.

Definition sizes (r : Resolved) : list (string * json) := [("bytes", JNum (itoa (Z.of_nat (String.length (rv_Bytes r)))))].

(** After a dispatch that succeeded: fill in the digest, persist, remember. *)
Definition settle (disk : option DiskCache) (key : string) (req : Request) (out : Resolved) : reg Resolved :=
  let out := with_sha out in
  _ ← (match disk with Some c => _ ← on_disk (Put c req out); Ret tt | None => Ret tt end);
  _ ← remember key out;
  _ ← dbgEmit "resolve ok" (rq_Resolver req) key (sizes out ++ [("sha256", JStr (rv_SHA256 out))]);
  Ret out.

(** The second locked section: the driver, else the resolver of the name. *)
Definition target (name : string) (s : Registry) : option (RR + R) :=
  match remote s with Some rr => Some (inl rr) | None => inr <$> direct s !! name end.

Definition dispatch (disk : option DiskCache) (key : string) (req : Request) : reg (result Resolved) :=
  t ← reading (target (rq_Resolver req));
  match t with
  | Some (inl rr) =>
    _ ← dbgEmit "remote dispatch" (rq_Resolver req) key [];
    do! out ← external (Remote_ rr req);
    r ← settle disk key req out; Ret (Ok r)
  | None =>
    _ ← dbgEmit "not registered" (rq_Resolver req) key [];
    Ret (Err (Fmt "%w: %q (not yet implemented in this release)" [TErr ErrResolverNotRegistered; TStr (rq_Resolver req)]))
  | Some (inr res) =>
    _ ← dbgEmit "direct dispatch" (rq_Resolver req) key [];
    do! out ← external (Resolve_ res req);
    r ← settle disk key req out; Ret (Ok r)
  end.

(** From the disk cache on. *)
Definition resolve_miss (disk : option DiskCache) (offline : bool) (key : string) (req : Request) : reg (result Resolved) :=
  hit ← disk_lookup disk req;
  match hit with
  | Some hit =>
    _ ← remember key hit;
    _ ← dbgEmit "cache hit (disk)" (rq_Resolver req) key (sizes hit);
    Ret (Ok hit)
  | None =>
    if offline : bool then
      _ ← dbgEmit "offline gate refused" (rq_Resolver req) key [];
      Ret (Err (Fmt "refresolver: cache miss for resolver %q while --offline is set" [TStr (rq_Resolver req)]))
    else dispatch disk key req
  end.

Definition Resolve (req : Request) : reg (result Resolved) :=
  if String.eqb (rq_Resolver req) "" then Ret (Err (lit "refresolver: empty Resolver name in Request"))
  else
    let key := CacheKey (rq_Resolver req) (rq_Params req) in
    _ ← dbgEmit "dispatch" (rq_Resolver req) key [];
    l ← reading (look (rq_Resolver req) key);
    match l with
    | Refused =>
      _ ← dbgEmit "allow-list rejected" (rq_Resolver req) key [];
      Ret (Err (Fmt "%w: %q not in --resolver-allow" [TErr ErrResolverNotAllowed; TStr (rq_Resolver req)]))
    | PerRunHit c =>
      _ ← dbgEmit "cache hit (per-run)" (rq_Resolver req) key (sizes c);
      Ret (Ok c)
    | Look disk offline => resolve_miss disk offline key req
    end.
End Registry.
Arguments Registry : clear implicits.
Arguments RegE : clear implicits.

(** ** The resolvers of this package *)
Inductive Resolver : Type :=
  | Inline (entries : gmap string string)
  | Git (g : GitResolver)
  | Hub (o : HubOptions)
  | HTTP (o : HTTPOptions)
  | Bundles (allowInsecureHTTP : bool)
  | Cluster (c : ClusterResolver)
  | ClusterStub (e : text)
  | Custom (name : string).

Definition ErrInlineNoData : text := Sentinel "refresolver.ErrInlineNoData".

Definition inline_Resolve (entries : gmap string string) (req : Request) : result Resolved :=
  let name := param req "name" in
  match entries !! name with
  | None => Err (Fmt "%w: name=%q" [TErr ErrInlineNoData; TStr name])
  | Some b => Ok (mkResolved b ("inline:" +:+ name) (sha256Bytes b) false)
  end.

Section Default.
Context `{MapRange} `{NetUrl} `{Unstructured}.

#[export] Instance resolvers : ResolverI RefE Resolver RemoteResolver := {
  Name r :=
    match r with
    | Inline _ => "inline" | Git _ => "git" | Hub _ => "hub" | HTTP _ => "http" | Bundles _ => "bundles"
    | Cluster _ | ClusterStub _ => "cluster" | Custom n => n
    end;
  Resolve_ r req :=
    match r with
    | Inline entries => Ret (inline_Resolve entries req)
    | Git g => git_Resolve g req
    | Hub o => hub_Resolve o req
    | HTTP o => http_Resolve o req
    | Bundles b => bundles_Resolve b req
    | Cluster c => cluster_Resolve c req
    | ClusterStub e => Ret (Err e)
    | Custom n => call (CustomResolve n req)
    end;
  Remote_ := remote_Resolve;
}.

(** [InlineResolver.Add]. *)
Definition Add (key b : string) (entries : gmap string string) : gmap string string := <[key := b]> entries.

Record Options := mkOptions {
  op_Allow : list string;
  op_CacheDir : string;
  op_Offline : bool;
  op_AllowInsecureHTTP : bool;
  op_AllowCluster : bool;
  op_ClusterResolverContext : string;
  op_ClusterResolverKubeconfig : string;
}.

Definition allowListIncludes (l : list string) (name : string) : bool := existsb (fun a => String.eqb a name) l.

(** [client] is [NewClusterResolver]'s answer. *)
Definition NewDefaultRegistry (o : Options) (client : result unit) : Registry Resolver RemoteResolver :=
  let s := SetOffline (op_Offline o) NewRegistry in
  let s := if String.eqb (op_CacheDir o) "" then s else SetCache (Some (mkDiskCache (op_CacheDir o))) s in
  let s := SetAllow (op_Allow o) s in
  let s := Register (Inline ∅) s in
  let s := Register (Git (mkGitResolver (op_CacheDir o) (op_AllowInsecureHTTP o))) s in
  let s := Register (Hub (NewHubResolver (mkHubOptions "" ""))) s in
  let s := Register (HTTP (mkHTTPOptions (op_AllowInsecureHTTP o) "")) s in
  let s := Register (Bundles (op_AllowInsecureHTTP o)) s in
  if op_AllowCluster o || allowListIncludes (op_Allow o) "cluster" || negb (String.eqb (op_ClusterResolverContext o) "") then
    match client with
    | Ok _ => Register (Cluster (mkClusterResolver (op_ClusterResolverContext o) true)) s
    | Err e => Register (ClusterStub e) s
    end
  else s.
End Default.
