(* ===== verification/RefRegistryProps.v ===== *)
(** * The registry among other goroutines

    A run of [Resolve] in which, before each of its calls, the other goroutines may have
    changed the registry as they are allowed to; and what every such run guarantees. *)

From S2P Require Import Prelude GoStrings Paths Effects Fs Json JsonText GoDate TektonTypes Run ClusterStatus RefCache RefCacheProps Resolvers RefRegistry.

Section Runs.
Context `{MapRange} `{NetUrl} {E : Type -> Type} {R RR : Type} `{ResolverI E R RR}.

Abbreviation state := (Registry R RR).
Abbreviation regE := (RegE E R RR).

(** ** Runs *)

(** The call [e] on the registry [s]. *)
Definition step {X} (e : regE X) (s : state) (x : X) (s' : state) : Prop :=
  match e in RegE _ _ _ X return X -> Prop with
  | Locked f => fun x => (x, s') = f s
  | _ => fun _ => s' = s
  end x.

Section Rely.
Variable rely : state -> state -> Prop.

Fixpoint rexec {A} (p : prog regE A) (s : state) (t : list (ev regE)) (a : A) (s' : state) : Prop :=
  match p with
  | Ret b => t = [] /\ a = b /\ s' = s
  | Call e k => exists s1 x s2 t', rely s s1 /\ step e s1 x s2 /\ t = Ev e x :: t' /\ rexec (k x) s2 t' a s'
  end.

Lemma rexec_bind {A B} (p : prog regE A) (f : A -> prog regE B) s t b s' :
  rexec (p ≫= f) s t b s' <-> exists t1 a s1 t2, t = t1 ++ t2 /\ rexec p s t1 a s1 /\ rexec (f a) s1 t2 b s'.
Proof.
  revert s t; induction p as [a|X e k IH]; intros s t; simpl.
  - split; [intros He; by exists [], a, s, t|]. by intros (t1 & a' & s1 & t2 & -> & (-> & -> & ->) & He).
  - split.
    + intros (s1 & x & s2 & t' & Hr & Hs & -> & He). apply IH in He as (t1 & a & s3 & t2 & -> & H1' & H2').
      exists (Ev e x :: t1), a, s3, t2. split_and!; [done| |done]. by exists s1, x, s2, t1.
    + intros (t1 & a & s3 & t2 & -> & (s1 & x & s2 & t' & Hr & Hs & -> & H1') & H2').
      exists s1, x, s2, (t' ++ t2). split_and!; [done|done|done|]. apply IH. by exists t', a, s3, t2.
Qed.

Definition rpost {A} (p : prog regE A) (s : state) (Q : list (ev regE) -> A -> state -> Prop) : Prop :=
  forall t a s', rexec p s t a s' -> Q t a s'.

Lemma rpost_ret {A} (a : A) s (Q : list (ev regE) -> A -> state -> Prop) : Q [] a s -> rpost (Ret a) s Q.
Proof. by intros HQ t b s' (-> & -> & ->). Qed.

Lemma rpost_mono {A} (p : prog regE A) s (Q Q' : list (ev regE) -> A -> state -> Prop) :
  rpost p s Q -> (forall t a s', Q t a s' -> Q' t a s') -> rpost p s Q'.
Proof. intros Hp HQ t a s' He. by apply HQ, Hp. Qed.

Lemma rpost_bind {A B} (p : prog regE A) (f : A -> prog regE B) s (Q : list (ev regE) -> B -> state -> Prop) :
  rpost p s (fun t a s1 => rpost (f a) s1 (fun t' => Q (t ++ t'))) -> rpost (p ≫= f) s Q.
Proof. intros Hp t b s' He. apply rexec_bind in He as (t1 & a & s1 & t2 & -> & H1' & H2'). by apply (Hp t1 a s1 H1' t2 b). Qed.

Lemma rpost_locked {X} (f : state -> X * state) s (Q : list (ev regE) -> X -> state -> Prop) :
  (forall s1, rely s s1 -> Q [Ev (Locked f) (f s1).1] (f s1).1 (f s1).2) -> rpost (locked f) s Q.
Proof.
  intros Hf t a s' (s1 & x & s2 & t' & Hr & Hs & -> & (-> & -> & ->)). simpl in Hs. specialize (Hf s1 Hr). by rewrite <-Hs in Hf.
Qed.

Lemma rpost_emit msg fields s (Q : list (ev regE) -> unit -> state -> Prop) :
  (forall s1, rely s s1 -> Q [Ev (DbgEmit msg fields) tt] tt s1) -> rpost (call (DbgEmit msg fields)) s Q.
Proof. intros Hf t a s' (s1 & [] & s2 & t' & Hr & Hs & -> & (-> & -> & ->)). simpl in Hs. subst s2. by apply Hf. Qed.
End Rely.

(** ** Two projections of a trace: the file system and the resolvers *)
Definition ext_of (e : ev regE) : list (ev E) :=
  match ev_call e in RegE _ _ _ X return X -> list (ev E) with Ext c => fun x => [Ev c x] | _ => fun _ => [] end (ev_answer e).

Definition disk_of (e : ev regE) : list (ev FsE) :=
  match ev_call e in RegE _ _ _ X return X -> list (ev FsE) with Disk c => fun x => [Ev c x] | _ => fun _ => [] end (ev_answer e).

Definition ext_trace (t : list (ev regE)) : list (ev E) := t ≫= ext_of.
Definition disk_trace (t : list (ev regE)) : list (ev FsE) := t ≫= disk_of.

Lemma ext_trace_app t t' : ext_trace (t ++ t') = ext_trace t ++ ext_trace t'.
Proof. apply bind_app. Qed.
Lemma disk_trace_app t t' : disk_trace (t ++ t') = disk_trace t ++ disk_trace t'.
Proof. apply bind_app. Qed.

(** The other goroutines: they change no setting, and the run's cache only grows. *)
Definition grows (s s' : state) : Prop :=
  direct s' = direct s /\ remote s' = remote s /\ allow s' = allow s /\ disk s' = disk s /\ offline s' = offline s /\
  forall k, is_Some (perRun s !! k) -> is_Some (perRun s' !! k).

#[export] Instance grows_preorder : PreOrder grows.
Proof.
  split; [by intros s|]. intros s1 s2 s3 (A1 & A2 & A3 & A4 & A5 & A6) (B1 & B2 & B3 & B4 & B5 & B6).
  split_and!; try congruence. naive_solver.
Qed.

Lemma grows_remember key (r : Resolved) (s : state) : grows s (set_perRun (<[key := r]> (perRun s)) s).
Proof. split_and!; try done. intros k Hk. simpl. destruct (decide (k = key)) as [->|Hne]; [by rewrite lookup_insert_eq|by rewrite lookup_insert_ne]. Qed.

Section Hoisted.
Variable rely : state -> state -> Prop.
Context `{!PreOrder rely}.

Lemma rexec_on_disk {A} (p : prog FsE A) s t a s' :
  rexec rely (on_disk p) s t a s' -> exec p (disk_trace t) a /\ ext_trace t = [] /\ rely s s'.
Proof.
  unfold on_disk. revert s t; induction p as [b|X e k IH]; intros s t; simpl.
  - intros (-> & -> & ->). done.
  - intros (s1 & x & s2 & t' & Hr & Hs & -> & He). simpl in Hs. subst s2. apply IH in He as (H1' & H2' & H3').
    split_and!; [by exists x, (disk_trace t')|done|by trans s1].
Qed.

Lemma rexec_external {A} (p : prog E A) s t a s' :
  rexec rely (external p) s t a s' -> exec p (ext_trace t) a /\ disk_trace t = [] /\ rely s s'.
Proof.
  unfold external. revert s t; induction p as [b|X e k IH]; intros s t; simpl.
  - intros (-> & -> & ->). done.
  - intros (s1 & x & s2 & t' & Hr & Hs & -> & He). simpl in Hs. subst s2. apply IH in He as (H1' & H2' & H3').
    split_and!; [by exists x, (ext_trace t')|done|by trans s1].
Qed.
Lemma rpost_on_disk {A} (p : prog FsE A) s (Q : list (ev regE) -> A -> state -> Prop) :
  (forall t a s', exec p (disk_trace t) a -> ext_trace t = [] -> rely s s' -> Q t a s') -> rpost rely (on_disk p) s Q.
Proof. intros HQ t a s' (H1' & H2' & H3')%rexec_on_disk. by apply HQ. Qed.

Lemma rpost_external {A} (p : prog E A) s (Q : list (ev regE) -> A -> state -> Prop) :
  (forall t a s', exec p (ext_trace t) a -> disk_trace t = [] -> rely s s' -> Q t a s') -> rpost rely (external p) s Q.
Proof. intros HQ t a s' (H1' & H2' & H3')%rexec_external. by apply HQ. Qed.
End Hoisted.

(** ** What [Resolve] does, by what it finds *)
Section Cases.
Variable rely : state -> state -> Prop.
Context `{!PreOrder rely}.
Hypothesis rely_grows : forall s s', rely s s' -> grows s s'.

(** From [s] on, the others' steps and one entry remembered. *)
Definition remembered (key : string) (out : Resolved) (s s' : state) : Prop :=
  exists s1, rely s s1 /\ rely (set_perRun (<[key := out]> (perRun s1)) s1) s'.

(** The program a target stands for. *)
Definition ask (t : RR + R) (req : Request) : prog E (result Resolved) :=
  match t with inl rr => Remote_ rr req | inr res => Resolve_ res req end.

(** What a dispatch does, given the answer of the target. *)
Definition dispatched (key : string) (req : Request) (s : state) (te : list (ev E)) (a : result Resolved) (s' : state) : Prop :=
  match target (rq_Resolver req) s with
  | None => te = [] /\ rely s s' /\
      a = Err (Fmt "%w: %q (not yet implemented in this release)" [TErr ErrResolverNotRegistered; TStr (rq_Resolver req)])
  | Some tg => exists r, exec (ask tg req) te r /\
      match r with
      | Err e => a = Err e /\ rely s s'
      | Ok out => a = Ok (with_sha out) /\ remembered key (with_sha out) s s'
      end
  end.

Lemma rpost_dbgEmit msg name key extra s (Q : list (ev regE) -> unit -> state -> Prop) :
  (forall t s', ext_trace t = [] -> disk_trace t = [] -> rely s s' -> Q t tt s') -> rpost rely (dbgEmit msg name key extra) s Q.
Proof. intros HQ. apply rpost_emit. intros s1 Hs. by apply HQ. Qed.

Lemma settle_cases disk key req out s :
  rpost rely (settle disk key req out) s (fun t r s' =>
    r = with_sha out /\ ext_trace t = [] /\ remembered key (with_sha out) s s').
Proof.
  unfold settle. apply rpost_bind. apply (rpost_mono _ _ _ (fun t _ s1 => ext_trace t = [] /\ rely s s1)).
  { destruct disk as [c|]; [|by apply rpost_ret]. apply rpost_bind, rpost_on_disk; [done|]. intros t a s1 _ Ht Hs.
    apply rpost_ret. rewrite app_nil_r. done. }
  intros t1 [] s1 [Ht1 Hs1]. apply rpost_bind. unfold remember. apply rpost_locked. intros s2 Hs2. cbn [fst snd].
  apply rpost_bind, rpost_dbgEmit. intros t3 s3 Ht3 _ Hs3. apply rpost_ret.
  rewrite !ext_trace_app, Ht1, Ht3. split_and!; [done|done|]. exists s2. split; [by trans s1|done].
Qed.

Lemma target_grows name s s' : rely s s' -> target name s' = target name s.
Proof. intros (Hd & Hr & _)%rely_grows. unfold target. by rewrite Hr, Hd. Qed.

Lemma dispatch_cases disk key req s :
  rpost rely (dispatch disk key req) s (fun t a s' => dispatched key req s (ext_trace t) a s').
Proof.
  unfold dispatch. apply rpost_bind. unfold reading. apply rpost_locked. intros s1 Hs1. cbn [fst snd].
  rewrite (target_grows _ _ _ Hs1). unfold dispatched.
  assert (forall msg tg, rpost rely (_ ← dbgEmit msg (rq_Resolver req) key []; do! out ← external (ask tg req); r ← settle disk key req out; Ret (Ok r)) s1
    (fun t a s' => exists r, exec (ask tg req) (ext_trace ([Ev (Locked (fun s => (target (rq_Resolver req) s, s))) (target (rq_Resolver req) s1)] ++ t)) r /\
      match r with Err e => a = Err e /\ rely s s' | Ok out => a = Ok (with_sha out) /\ remembered key (with_sha out) s s' end)) as Hask.
  { intros msg tg. apply rpost_bind, rpost_dbgEmit. intros t2 s2 Ht2 _ Hs2. apply rpost_bind, rpost_external; [done|].
    intros t3 r s3 He _ Hs3. assert (rely s s3) as Hs by (trans s1; [done|by trans s2]).
    destruct r as [out|e]; [|apply rpost_ret; exists (Err e); rewrite !ext_trace_app, Ht2; cbn; by rewrite app_nil_r].
    apply rpost_bind. eapply rpost_mono; [apply settle_cases|]. intros t4 r s4 (-> & Ht4 & s5 & Hs4 & Hs5). apply rpost_ret.
    exists (Ok out). rewrite !ext_trace_app, Ht2, Ht4. cbn. rewrite !app_nil_r. split_and!; [done|done|]. exists s5. split; [by trans s3|done]. }
  rewrite (target_grows _ _ _ Hs1) in Hask.
  destruct (target (rq_Resolver req) s) as [[rr|res]|]; [exact (Hask _ (inl rr))|exact (Hask _ (inr res))|].
  apply rpost_bind, rpost_dbgEmit. intros t2 s2 Ht2 _ Hs2. apply rpost_ret. rewrite !ext_trace_app, Ht2. split_and!; [done|by trans s1|done].
Qed.
(** From the disk cache on. *)
Definition missed (d : option DiskCache) (off : bool) (key : string) (req : Request) (s : state)
    (td : list (ev FsE)) (te : list (ev E)) (a : result Resolved) (s' : state) : Prop :=
  (exists c hit, d = Some c /\ exec (Get c req) td (Ok (Some hit)) /\ te = [] /\ a = Ok hit /\ remembered key hit s s') \/
  ((d = None \/ exists c r tg, d = Some c /\ exec (Get c req) tg r /\ tg `prefix_of` td /\ forall hit, r <> Ok (Some hit)) /\
   if off then te = [] /\ rely s s' /\ a = Err (Fmt "refresolver: cache miss for resolver %q while --offline is set" [TStr (rq_Resolver req)])
   else exists s1, rely s s1 /\ dispatched key req s1 te a s').

Lemma miss_cases d off key req s :
  rpost rely (resolve_miss d off key req) s (fun t a s' => missed d off key req s (disk_trace t) (ext_trace t) a s').
Proof.
  unfold resolve_miss, missed. apply rpost_bind.
  apply (rpost_mono _ _ _ (fun t hit s1 => ext_trace t = [] /\ rely s s1 /\
    match hit with
    | Some h => exists c, d = Some c /\ exec (Get c req) (disk_trace t) (Ok (Some h))
    | None => d = None \/ exists c r, d = Some c /\ exec (Get c req) (disk_trace t) r /\ forall hit, r <> Ok (Some hit)
    end)).
  { unfold disk_lookup. destruct d as [c|]; [|apply rpost_ret; split_and!; [done|done|by left]]. apply rpost_bind, rpost_on_disk; [done|].
    intros t r s1 He Ht Hs. apply rpost_ret. rewrite app_nil_r. split_and!; [done|done|].
    destruct r as [[hit|]|e]; [by exists c|right; by exists c, (Ok None)|right; by exists c, (Err e)]. }
  intros t1 [hit|] s1 (Ht1 & Hs1 & Hd).
  - destruct Hd as (c & -> & He). apply rpost_bind. unfold remember. apply rpost_locked. intros s2 Hs2. cbn [fst snd].
    apply rpost_bind, rpost_dbgEmit. intros t3 s3 Ht3 Hd3 Hs3. apply rpost_ret. left. exists c, hit.
    rewrite !disk_trace_app, !ext_trace_app, Ht1, Ht3, Hd3. cbn. rewrite app_nil_r. split_and!; [done..|]. exists s2. split; [by trans s1|done].
  - assert (forall t td, td = disk_trace (t1 ++ t) ->
      d = None \/ exists c r tg, d = Some c /\ exec (Get c req) tg r /\ tg `prefix_of` td /\ forall hit, r <> Ok (Some hit)) as Hmiss.
    { intros t td ->. destruct Hd as [->|(c & r & -> & He & Hr)]; [by left|right]. exists c, r, (disk_trace t1). split_and!; [done|done| |done].
      rewrite disk_trace_app. by apply prefix_app_r. }
    destruct off.
    + apply rpost_bind, rpost_dbgEmit. intros t2 s2 Ht2 Hd2 Hs2. apply rpost_ret. right.
      split; [by eapply (Hmiss t2); rewrite app_nil_r|]. rewrite !ext_trace_app, Ht1, Ht2. split_and!; [done|by trans s1|done].
    + eapply rpost_mono; [apply dispatch_cases|]. intros t a s' Hdis. right. split; [by eapply Hmiss|].
      exists s1. split; [done|]. by rewrite ext_trace_app, Ht1.
Qed.

(** The whole of [Resolve]: the state [s1] is the one its first locked section sees. *)
Lemma Resolve_cases req s :
  rq_Resolver req <> "" ->
  let key := CacheKey (rq_Resolver req) (rq_Params req) in
  rpost rely (Resolve req) s (fun t a s' => exists s1, rely s s1 /\
    match look (rq_Resolver req) key s1 with
    | Refused => disk_trace t = [] /\ ext_trace t = [] /\ rely s1 s' /\
        a = Err (Fmt "%w: %q not in --resolver-allow" [TErr ErrResolverNotAllowed; TStr (rq_Resolver req)])
    | PerRunHit r => disk_trace t = [] /\ ext_trace t = [] /\ rely s1 s' /\ a = Ok r
    | Look d off => missed d off key req s1 (disk_trace t) (ext_trace t) a s'
    end).
Proof.
  intros Hn key. unfold Resolve. destruct (String.eqb_spec (rq_Resolver req) "") as [|_]; [done|]. fold key.
  apply rpost_bind, rpost_dbgEmit. intros t0 s0 Ht0 Hd0 Hs0. apply rpost_bind. unfold reading. apply rpost_locked. intros s1 Hs1. cbn [fst snd].
  destruct (look (rq_Resolver req) key s1) as [|r|d off] eqn:Hl.
  - apply rpost_bind, rpost_dbgEmit. intros t2 s2 Ht2 Hd2 Hs2. apply rpost_ret. exists s1. rewrite Hl.
    rewrite !ext_trace_app, !disk_trace_app, Ht0, Ht2, Hd0, Hd2. split_and!; [by trans s0|done..].
  - apply rpost_bind, rpost_dbgEmit. intros t2 s2 Ht2 Hd2 Hs2. apply rpost_ret. exists s1. rewrite Hl.
    rewrite !ext_trace_app, !disk_trace_app, Ht0, Ht2, Hd0, Hd2. split_and!; [by trans s0|done..].
  - eapply rpost_mono; [apply miss_cases|]. intros t a s' Hm. exists s1. rewrite Hl.
    rewrite !ext_trace_app, !disk_trace_app, Ht0, Hd0. split; [by trans s0|exact Hm].
Qed.
End Cases.

(** ** On a file system *)
Section World.
Context {U : Type} (ansE : forall X, E X -> U -> X * U).

(** The registry, the file system and what answers the resolvers; no one else runs. *)
Definition reg_answer (X : Type) (e : regE X) (w : state * world * U) : X * (state * world * U) :=
  let '(s, f, u) := w in
  match e in RegE _ _ _ X return X * (state * world * U) with
  | Locked g => let '(x, s') := g s in (x, (s', f, u))
  | Disk c => let '(x, f') := fs_answer _ c f in (x, (s, f', u))
  | Ext c => let '(x, u') := ansE _ c u in (x, (s, f, u'))
  | DbgEmit _ _ => (tt, w)
  end.

Abbreviation run_reg := (run reg_answer).

Lemma run_on_disk {A} (p : prog FsE A) s f u :
  run_reg (on_disk p) (s, f, u) = let '(a, f') := run_fs p f in (a, (s, f', u)).
Proof.
  unfold on_disk. revert f; induction p as [a|X e k IH]; intros f; [done|]. simpl hoist. rewrite !run_call. cbn [reg_answer].
  destruct (fs_answer X e f) as [x f']. apply IH.
Qed.

Lemma run_external {A} (p : prog E A) s f u :
  run_reg (external p) (s, f, u) = let '(a, u') := run ansE p u in (a, (s, f, u')).
Proof.
  unfold external. revert u; induction p as [a|X e k IH]; intros u; [done|]. simpl hoist. rewrite !run_call. cbn [reg_answer].
  destruct (ansE X e u) as [x u']. apply IH.
Qed.

Lemma run_dbgEmit msg name key extra w : run_reg (dbgEmit msg name key extra) w = (tt, w).
Proof. unfold dbgEmit, call. rewrite run_call. by destruct w as [[s f] u]. Qed.

Lemma run_locked {X} (g : state -> X * state) s f u : run_reg (locked g) (s, f, u) = let '(x, s') := g s in (x, (s', f, u)).
Proof. unfold locked, call. rewrite run_call. cbn [reg_answer]. by destruct (g s). Qed.

(** A request that nothing short of the disk cache answers. *)
Definition fresh_in (req : Request) (s : state) : Prop :=
  rq_Resolver req <> "" /\ is_allowed (rq_Resolver req) s = true /\ perRun s !! CacheKey (rq_Resolver req) (rq_Params req) = None.

Lemma run_Resolve_fresh req s f u :
  fresh_in req s ->
  run_reg (Resolve req) (s, f, u) =
  run_reg (resolve_miss (disk s) (offline s) (CacheKey (rq_Resolver req) (rq_Params req)) req) (s, f, u).
Proof.
  intros (Hn & Ha & Hp). unfold Resolve. destruct (String.eqb_spec (rq_Resolver req) "") as [|_]; [done|].
  rewrite run_bind, run_dbgEmit, run_bind. unfold reading. rewrite run_locked. cbn [fst snd].
  unfold look. rewrite Ha, Hp. done.
Qed.

(** A hit on disk: the entry is remembered, whether offline or not. *)
Lemma run_disk_hit c req s f u hit f' :
  fresh_in req s -> disk s = Some c -> run_fs (Get c req) f = (Ok (Some hit), f') ->
  (run_reg (Resolve req) (s, f, u)).1 = Ok hit /\ (run_reg (Resolve req) (s, f, u)).2.2 = u.
Proof.
  intros Hf Hd Hg. rewrite run_Resolve_fresh by done. unfold resolve_miss, disk_lookup. rewrite Hd, run_bind, run_bind, run_on_disk, Hg.
  rewrite run_ret. unfold remember. by rewrite run_bind, run_locked, run_bind, run_dbgEmit.
Qed.

(** A miss, a dispatch that succeeds and a cache that stores. *)
Lemma run_disk_miss c req s f u tg out u' :
  fresh_in req s -> disk s = Some c -> offline s = false -> run_fs (Get c req) f = (Ok None, f) ->
  target (rq_Resolver req) s = Some tg -> run ansE (ask tg req) u = (Ok out, u') ->
  exists s', run_reg (Resolve req) (s, f, u) = (Ok (with_sha out), (s', (run_fs (Put c req (with_sha out)) f).2, u')).
Proof.
  intros Hf Hd Ho Hg Ht Ha. rewrite run_Resolve_fresh by done. unfold resolve_miss, disk_lookup. rewrite Hd, Ho, run_bind, run_bind, run_on_disk, Hg.
  rewrite run_ret. unfold dispatch. rewrite run_bind. unfold reading. rewrite run_locked, Ht.
  assert (forall msg, exists s', run_reg (_ ← dbgEmit msg (rq_Resolver req) (CacheKey (rq_Resolver req) (rq_Params req)) [];
            do! out ← external (ask tg req); r ← settle (Some c) (CacheKey (rq_Resolver req) (rq_Params req)) req out; Ret (Ok r)) (s, f, u) =
            (Ok (with_sha out), (s', (run_fs (Put c req (with_sha out)) f).2, u'))) as Hask.
  { intros msg. rewrite run_bind, run_dbgEmit, run_try, run_external, Ha, run_bind. unfold settle. rewrite run_bind, run_bind, run_on_disk.
    destruct (run_fs (Put c req (with_sha out)) f) as [r f1]. rewrite run_ret. unfold remember. rewrite run_bind, run_locked, run_bind, run_dbgEmit.
    eexists. reflexivity. }
  destruct tg as [rr|res]; apply Hask.
Qed.
End World.
End Runs.

(** ** Theorems *)

(** the allow-list comes before every cache.  A resolver that the list excludes, when
    there is no remote driver, is refused: whatever the run's own cache and the disk
    cache hold and whatever other goroutines do, no file is read and no resolver is
    called. *)
Theorem excluded_is_refused `{MapRange} `{NetUrl} {E R RR} `{!ResolverI E R RR} (rely : relation (Registry R RR)) `{!PreOrder rely} req s a :
  (forall s s', rely s s' -> grows s s') ->
  rq_Resolver req <> "" -> remote s = None -> allow s = Some a -> rq_Resolver req ∉ a ->
  rpost rely (Resolve req) s (fun t r _ => disk_trace t = [] /\ ext_trace t = [] /\
    r = Err (Fmt "%w: %q not in --resolver-allow" [TErr ErrResolverNotAllowed; TStr (rq_Resolver req)])).
Proof.
  intros Hg Hn Hr Ha Hin. eapply rpost_mono; [by apply (Resolve_cases rely Hg)|]. intros t r s' (s1 & Hs1 & Hc).
  destruct (Hg _ _ Hs1) as (_ & Er & Ea & _). unfold look, is_allowed in Hc. rewrite Er, Hr, Ea, Ha, bool_decide_eq_false_2 in Hc by done.
  simpl in Hc. naive_solver.
Qed.

Section Again.
Context `{MapRange} `{NetUrl} {E : Type -> Type} {R RR : Type} `{!ResolverI E R RR}.

Lemma is_allowed_grows name (s s' : Registry R RR) : grows s s' -> is_allowed name s' = is_allowed name s.
Proof. intros (_ & Er & Ea & _). unfold is_allowed. by rewrite Er, Ea. Qed.

Lemma remembered_grows (rely : relation (Registry R RR)) key o s s' :
  (forall s s', rely s s' -> grows s s') -> remembered rely key o s s' ->
  grows s s' /\ exists o', perRun s' !! key = Some o' /\ ((forall s s', rely s s' -> s = s') -> o' = o).
Proof.
  intros Hg (s1 & H1 & H2). split.
  - trans s1; [by apply Hg|]. trans (set_perRun (<[key:=o]> (perRun s1)) s1); [apply grows_remember|by apply Hg].
  - destruct (Hg _ _ H2) as (_ & _ & _ & _ & _ & Hk). destruct (Hk key) as [o' Ho']; [simpl; by rewrite lookup_insert_eq|].
    exists o'. split; [done|]. intros Heq. apply Heq in H2. subst s'. simpl in Ho'. rewrite lookup_insert_eq in Ho'. congruence.
Qed.

(** A request that was resolved is in the run's cache. *)
Lemma resolved_remembered (rely : relation (Registry R RR)) `{!PreOrder rely} req s t out s' :
  (forall s s', rely s s' -> grows s s') -> rexec rely (Resolve req) s t (Ok out) s' ->
  rq_Resolver req <> "" /\ is_allowed (rq_Resolver req) s' = true /\
  exists o, perRun s' !! CacheKey (rq_Resolver req) (rq_Params req) = Some o /\
    ((forall s s', rely s s' -> s = s') -> as_cached o = as_cached out).
Proof.
  intros Hg He.
  assert (rq_Resolver req <> "") as Hn.
  { intros E0. unfold Resolve in He. rewrite E0 in He. simpl in He. naive_solver. }
  split; [done|]. destruct (Resolve_cases rely Hg req s Hn t (Ok out) s' He) as (s1 & Hs1 & Hc).
  unfold look in Hc. destruct (is_allowed (rq_Resolver req) s1) eqn:Ha; simpl in Hc; [|naive_solver].
  assert (forall o s3, rely s1 s3 -> remembered rely (CacheKey (rq_Resolver req) (rq_Params req)) o s3 s' ->
    is_allowed (rq_Resolver req) s' = true /\ exists o', perRun s' !! CacheKey (rq_Resolver req) (rq_Params req) = Some o' /\
      ((forall s s', rely s s' -> s = s') -> as_cached o' = as_cached o)) as Hrem.
  { intros o s3 H3 (G3 & o' & Ho' & Heq)%remembered_grows; [|done]. split.
    - rewrite (is_allowed_grows _ s3) by done. rewrite (is_allowed_grows _ s1) by (by apply Hg). done.
    - exists o'. split; [done|]. intros HE. by rewrite (Heq HE). }
  destruct (perRun s1 !! _) as [o|] eqn:Ho.
  - destruct Hc as (_ & _ & H3 & [= ->]). split; [rewrite (is_allowed_grows _ s1); [done|by apply Hg]|].
    destruct (Hg _ _ H3) as (_ & _ & _ & _ & _ & Hk). destruct (Hk (CacheKey (rq_Resolver req) (rq_Params req))) as [o' Ho']; [by rewrite Ho|].
    exists o'. split; [done|]. intros HE. apply HE in H3. subst s'. rewrite Ho in Ho'. by simplify_eq.
  - destruct Hc as [(c & hit & _ & _ & _ & [= ->] & Hm)|[_ Hm]]; [by apply (Hrem hit s1)|].
    destruct (offline s1); [naive_solver|]. destruct Hm as (s2 & H2 & Hd). unfold dispatched in Hd.
    destruct (target _ s2) as [tg|]; [|naive_solver]. destruct Hd as ([r|e] & _ & Hd); [|naive_solver].
    destruct Hd as [[= ->] Hm]. by apply (Hrem _ s2).
Qed.
End Again.

(** one fetch a run.  Once a request was resolved, every later request with the same
    resolver and params, while other goroutines run too, is answered from the run's own
    cache: it succeeds, is marked as cached, and reads no file and calls no resolver.  If
    no one else ran, the answer has the same bytes, source and digest. *)
Theorem resolved_once `{MapRange} `{NetUrl} {E R RR} `{!ResolverI E R RR} (rely : relation (Registry R RR)) `{!PreOrder rely} req s t out s' :
  (forall s s', rely s s' -> grows s s') ->
  rexec rely (Resolve req) s t (Ok out) s' ->
  forall req2 s2, (rq_Resolver req2, rq_Params req2) = (rq_Resolver req, rq_Params req) -> rely s' s2 ->
  rpost rely (Resolve req2) s2 (fun t2 r2 _ => disk_trace t2 = [] /\ ext_trace t2 = [] /\
    exists again, r2 = Ok again /\ rv_Cached again = true /\ ((forall s s', rely s s' -> s = s') -> again = as_cached out)).
Proof.
  intros Hg He req2 s2 [= En Ep] Hs2. destruct (resolved_remembered rely req s t out s' Hg He) as (Hn & Hal & o & Ho & Heq).
  eapply rpost_mono; [apply (Resolve_cases rely Hg); by rewrite En|]. intros t2 r2 s3 (s1 & Hs1 & Hc). rewrite En, Ep in Hc.
  assert (rely s' s1) as Hs by by trans s2. destruct (Hg _ _ Hs) as (_ & _ & _ & _ & _ & Hk).
  destruct (Hk (CacheKey (rq_Resolver req) (rq_Params req))) as [o1 Ho1]; [by rewrite Ho|].
  unfold look in Hc. rewrite (is_allowed_grows _ s' s1), Hal, Ho1 in Hc by by apply Hg. simpl in Hc.
  destruct Hc as (Hd & Ht & _ & ->). split_and!; [done..|]. exists (as_cached o1). split_and!; [done|done|].
  intros HE. rewrite <-(Heq HE). apply HE in Hs. subst s1. rewrite Ho in Ho1. by simplify_eq.
Qed.

(** offline means no network.  With the offline flag set no run of [Resolve] calls a
    resolver or the remote driver, whatever other goroutines do: it answers from the
    run's cache or the disk cache, marked as cached, or it fails. *)
Theorem offline_calls_nothing `{MapRange} `{NetUrl} {E R RR} `{!ResolverI E R RR} (rely : relation (Registry R RR)) `{!PreOrder rely} req s :
  (forall s s', rely s s' -> grows s s') -> offline s = true ->
  rpost rely (Resolve req) s (fun t r _ => ext_trace t = [] /\ forall out, r = Ok out -> rv_Cached out = true).
Proof.
  intros Hg Ho. destruct (decide (rq_Resolver req = "")) as [E0|Hn].
  { unfold Resolve. rewrite E0. simpl. by apply rpost_ret. }
  eapply rpost_mono; [by apply (Resolve_cases rely Hg)|]. intros t r s' (s1 & Hs1 & Hc).
  destruct (Hg _ _ Hs1) as (_ & _ & _ & _ & Eo & _). unfold look in Hc.
  destruct (is_allowed _ s1); simpl in Hc; [|naive_solver]. destruct (perRun s1 !! _) as [o|].
  - destruct Hc as (_ & Ht & _ & ->). split; [done|]. by intros out [= <-].
  - destruct Hc as [(c & hit & _ & Hget & Ht & -> & _)|[_ Hm]].
    + split; [done|]. intros out [= <-]. by apply Get_cached in Hget.
    + rewrite Eo, Ho in Hm. destruct Hm as (Ht & _ & ->). done.
Qed.

(** C26: which resolver is asked.  Whatever other goroutines do, the calls that a run of
    [Resolve] makes to the outside are either none, or the calls of one run of exactly
    one program: the remote driver when one is set, whatever the resolver's name, else
    the resolver registered under that name.  Its error is returned as it is and nothing
    is remembered; its answer is returned with the digest of its bytes filled in. *)
Theorem Resolve_routes `{MapRange} `{NetUrl} {E R RR} `{!ResolverI E R RR} (rely : relation (Registry R RR)) `{!PreOrder rely} req s :
  (forall s s', rely s s' -> grows s s') ->
  rpost rely (Resolve req) s (fun t a s' =>
    (ext_trace t = [] /\ forall out, a = Ok out -> rv_Cached out = true) \/
    exists p r, (match remote s with Some rr => p = Remote_ rr req | None => exists res, direct s !! rq_Resolver req = Some res /\ p = Resolve_ res req end) /\
      exec p (ext_trace t) r /\
      match r with
      | Ok out => a = Ok (with_sha out) /\ is_Some (perRun s' !! CacheKey (rq_Resolver req) (rq_Params req))
      | Err e => a = Err e /\ ((forall s s', rely s s' -> s = s') -> s' = s)
      end).
Proof.
  intros Hg. destruct (decide (rq_Resolver req = "")) as [E0|Hn].
  { unfold Resolve. rewrite E0. simpl. apply rpost_ret. by left. }
  eapply rpost_mono; [by apply (Resolve_cases rely Hg)|]. intros t a s' (s1 & Hs1 & Hc). unfold look in Hc.
  destruct (is_allowed _ s1); simpl in Hc; [|left; naive_solver]. destruct (perRun s1 !! _) as [o|].
  { left. destruct Hc as (_ & Ht & _ & ->). split; [done|]. by intros out [= <-]. }
  destruct Hc as [(c & hit & _ & Hget & Ht & -> & _)|[_ Hm]].
  { left. split; [done|]. intros out [= <-]. by apply Get_cached in Hget. }
  destruct (offline s1); [left; destruct Hm as (Ht & _ & ->); done|].
  destruct Hm as (s2 & H2 & Hd). assert (rely s s2) as Hs by by trans s1. unfold dispatched in Hd. rewrite (target_grows rely Hg _ s s2 Hs) in Hd.
  destruct (target _ s) as [tg|] eqn:Htg; [|left; destruct Hd as (Ht & _ & ->); done].
  right. destruct Hd as (r & He & Hr). exists (ask tg req), r. split; [|split; [done|]].
  - unfold target in Htg. destruct (remote s) as [rr|]; [by simplify_eq|]. destruct (direct s !! rq_Resolver req) as [res|]; [|done].
    simpl in Htg. simplify_eq. by exists res.
  - destruct r as [out|e].
    + destruct Hr as [-> Hm]. split; [done|]. apply remembered_grows in Hm as (_ & o' & Ho' & _); [|done]. by rewrite Ho'.
    + destruct Hr as [-> Hs']. split; [done|]. intros HE. symmetry. apply HE. by trans s2.
Qed.

(** C27: an offline run replays an online one.  If a request that the run had not seen
    misses the disk cache, is fetched and stored, then a later run with the same cache,
    offline or not, that allows the resolver answers it from disk: the bytes, the source
    and the digest that the first run returned, and no resolver is called. *)
Theorem offline_replays `{MapRange} `{NetUrl} {E R RR U} `{!ResolverI E R RR} (ansE : forall X, E X -> U -> X * U) c req s f u tg out u' s2 u2 :
  fresh_in req s -> disk s = Some c -> offline s = false -> run_fs (Get c req) f = (Ok None, f) ->
  target (rq_Resolver req) s = Some tg -> run ansE (ask tg req) u = (Ok out, u') ->
  (run_fs (Put c req (with_sha out)) f).1 = Ok tt -> utf8_meta (meta_of req (with_sha out) (w_now f)) ->
  fresh_in req s2 -> disk s2 = Some c ->
  exists s' f',
    run (reg_answer ansE) (Resolve req) (s, f, u) = (Ok (with_sha out), (s', f', u')) /\
    (run (reg_answer ansE) (Resolve req) (s2, f', u2)).1 = Ok (as_cached (with_sha out)) /\
    (run (reg_answer ansE) (Resolve req) (s2, f', u2)).2.2 = u2.
Proof.
  intros Hf Hd Ho Hg Ht Ha Hput Hu Hf2 Hd2.
  destruct (run_disk_miss ansE c req s f u tg out u' Hf Hd Ho Hg Ht Ha) as [s' Hrun].
  exists s', (run_fs (Put c req (with_sha out)) f).2. split; [done|].
  destruct (run_fs (Put c req (with_sha out)) f) as [r f1] eqn:E1. simpl in Hput |- *. subst r.
  destruct (Put_Get_hit c req (with_sha out) f f1 Hu E1) as [Hget _].
  exact (run_disk_hit ansE c req s2 f1 u2 _ f1 Hf2 Hd2 Hget).
Qed.

(** ** Examples *)
Section Examples.
#[local] Existing Instance default_range.
#[local] Existing Instance no_url.
#[local] Existing Instance nested_objects.

Definition no_answer (X : Type) (e : RefE X) (u : option (result Resolved)) : X * option (result Resolved) :=
  match e in RefE X return X * option (result Resolved) with
  | RFs e => ((fs_answer _ e (mkWorld 0 ∅)).1, u)
  | MkdirTemp _ _ | EvalSymlinks _ | OpenFile _ => (inr (OtherErr (lit "none")), u)
  | LockKey _ | UnlockKey _ | SetUseV1Alpha1 => (tt, u)
  | PlainClone _ _ | Worktree _ | Checkout _ _ | ParseReference _ _ | RemoteDelete _ _ _ => (Err (lit "none"), u)
  | ResolveRevision _ _ | Head _ | MarshalYAML _ => (Err (lit "none"), u)
  | HttpDo _ _ _ => (Err (lit "none"), u)
  | Sleep _ => (None, u)
  | Getenv _ => ("", u)
  | PullImage _ _ => (Err (lit "none"), u)
  | ClusterGet _ _ _ | RemoteGet _ _ _ _ => (Err (lit "none"), u)
  | RemoteCreate _ _ _ => (inr (OtherKube (lit "none")), u)
  | UseV1Alpha1 => (false, u)
  | WaitPoll _ _ => (Some DeadlineExceeded, u)
  | CustomResolve _ _ => (default (Err (lit "none")) u, u)
  end.

(** A registry with an inline resolver and the cache of [ex_cache]. *)
Definition ex_registry (names : list string) (offline : bool) : Registry Resolver RemoteResolver :=
  Register (Inline {["t" := "kind: Task"]}) (NewDefaultRegistry (mkOptions names "/cache" offline false false "" "") (Ok tt)).

Definition ex_inline : Request := mkRequest "task" "inline" {["name" := "t"]}.
Definition ex_out : Resolved := mkResolved "kind: Task" "inline:t" (sha256Bytes "kind: Task") false.

Definition ex_trace := (interp (reg_answer no_answer) (Resolve ex_inline) (ex_registry [] false, ex_empty, None)).

Lemma eq_grows (s s' : Registry Resolver RemoteResolver) : s = s' -> grows s s'.
Proof. by intros ->. Qed.

(** A run in which no one else takes part is a run. *)
Lemma interp_rexec {E R RR} `{!ResolverI E R RR} {U A} (ansE : forall X, E X -> U -> X * U) (p : prog (RegE E R RR) A) s f u t a s' f' u' :
  interp (reg_answer ansE) p (s, f, u) = (t, a, (s', f', u')) -> rexec eq p s t a s'.
Proof.
  revert s f u t; induction p as [b|X e k IH]; intros s f u t; cbn [interp]; [by intros [= <- <- <- _ _]|].
  destruct (reg_answer ansE X e (s, f, u)) as [x [[s1 f1] u1]] eqn:Ea. destruct (interp (reg_answer ansE) (k x) (s1, f1, u1)) as [[t1 a1] w1] eqn:Ei.
  intros Hi. injection Hi as Ht -> ->. exists s, x, s1, t1. rewrite <-Ht. split_and!; [done| |done|by eapply IH].
  destruct e; simpl in Ea |- *; repeat case_match; by simplify_eq.
Qed.

Lemma excluded_is_refused_witness :
  rpost eq (Resolve ex_inline) (ex_registry ["git"] false) (fun t r _ => disk_trace t = [] /\ ext_trace t = [] /\
    r = Err (Fmt "%w: %q not in --resolver-allow" [TErr ErrResolverNotAllowed; TStr "inline"])).
Proof.
  apply (excluded_is_refused eq ex_inline (ex_registry ["git"] false) {["git"]} eq_grows); [done|done|done|].
  apply not_elem_of_singleton. done.
Defined.

Lemma resolved_once_witness :
  ex_trace.1.2 = Ok ex_out /\
  rpost eq (Resolve ex_inline) ex_trace.2.1.1 (fun t2 r2 _ => disk_trace t2 = [] /\ ext_trace t2 = [] /\
    exists again, r2 = Ok again /\ rv_Cached again = true /\
      ((forall s s' : Registry Resolver RemoteResolver, s = s' -> s = s') -> again = as_cached ex_out)).
Proof.
  assert (ex_trace.1.2 = Ok ex_out) as Hr by (vm_compute; reflexivity). split; [exact Hr|].
  destruct ex_trace as [[t r] [[s f] u]] eqn:Et. cbn [fst snd] in Hr |- *. subst r.
  exact (resolved_once eq ex_inline (ex_registry [] false) t ex_out s eq_grows (interp_rexec no_answer _ _ _ _ _ _ _ _ _ Et) ex_inline s eq_refl eq_refl).
Defined.

Lemma offline_calls_nothing_witness :
  rpost eq (Resolve ex_inline) (ex_registry [] true) (fun t r _ => ext_trace t = [] /\ forall out, r = Ok out -> rv_Cached out = true).
Proof. exact (offline_calls_nothing eq ex_inline (ex_registry [] true) eq_grows eq_refl). Defined.

Lemma Resolve_routes_witness :
  rpost eq (Resolve ex_inline) (ex_registry [] false) (fun t a s' =>
    (ext_trace t = [] /\ forall out, a = Ok out -> rv_Cached out = true) \/
    exists p r, (exists res, direct (ex_registry [] false) !! "inline" = Some res /\ p = Resolve_ res ex_inline) /\
      exec p (ext_trace t) r /\
      match r with
      | Ok out => a = Ok (with_sha out) /\ is_Some (perRun s' !! CacheKey "inline" {["name" := "t"]})
      | Err e => a = Err e /\ ((forall s s' : Registry Resolver RemoteResolver, s = s' -> s = s') -> s' = ex_registry [] false)
      end).
Proof. exact (Resolve_routes eq ex_inline (ex_registry [] false) eq_grows). Defined.

Lemma offline_replays_witness :
  exists s' f',
    run (reg_answer no_answer) (Resolve ex_inline) (ex_registry [] false, ex_empty, None) = (Ok ex_out, (s', f', None)) /\
    (run (reg_answer no_answer) (Resolve ex_inline) (ex_registry [] true, f', None)).1 = Ok (as_cached ex_out) /\
    (run (reg_answer no_answer) (Resolve ex_inline) (ex_registry [] true, f', None)).2.2 = None.
Proof.
  apply (offline_replays no_answer ex_cache ex_inline (ex_registry [] false) ex_empty None (inr (Inline {["t" := "kind: Task"]})) ex_out None (ex_registry [] true) None).
  - split_and!; [done|vm_compute; reflexivity..].
  - reflexivity.
  - reflexivity.
  - vm_compute. reflexivity.
  - reflexivity.
  - vm_compute. reflexivity.
  - vm_compute. reflexivity.
  - split_and!; [vm_compute; reflexivity..|]. intros k v Hk. simpl in Hk. unfold redactParams in Hk.
    rewrite map_fmap_singleton in Hk. apply lookup_singleton_Some in Hk as [<- <-]. split; vm_compute; reflexivity.
  - split_and!; [done|vm_compute; reflexivity..].
  - reflexivity.
Defined.
End Examples.
