(* ===== verification/ResolverProps.v ===== *)
(** * The resolvers: what they ask for and what they give *)

From S2P Require Import Prelude GoStrings GoTime Paths Effects Fs Sha256 TektonTypes Run ClusterStatus Loader RefCache RefCacheProps Resolvers RefRegistry RefRegistryProps.

(** ** http and hub: the requests of a trace *)
Definition get_of (e : ev RefE) : list (HttpRequest * result HttpResponse) :=
  match ev_call e in RefE X return X -> list (HttpRequest * result HttpResponse) with
  | HttpDo _ _ q => fun x => [(q, x)]
  | _ => fun _ => []
  end (ev_answer e).

Definition gets (t : list (ev RefE)) : list (HttpRequest * result HttpResponse) := t ≫= get_of.

Lemma gets_app t t' : gets (t ++ t') = gets t ++ gets t'.
Proof. apply bind_app. Qed.

(** A transport error or a server error. *)
Definition retryable (r : result HttpResponse) : bool :=
  match r with Err _ => true | Ok resp => (500 <=? hs_StatusCode resp)%Z end.

(** A status of success and the whole of a body that is not too long. *)
Definition delivers (r : result HttpResponse) (body : string) : Prop :=
  exists resp, r = Ok resp /\ (200 <= hs_StatusCode resp < 300)%Z /\ hs_Body resp = (body, None) /\
    (Z.of_nat (String.length body) <= MaxResolvedBytes)%Z.

Lemma status_result_cases name shown nf resp :
  match status_result name shown nf resp with
  | inl body => delivers (Ok resp) body
  | inr (retry, e) => retry = retryable (Ok resp) /\ forall body, ~ delivers (Ok resp) body
  end.
Proof.
  unfold status_result, delivers, retryable. destruct (Z.leb_spec 200 (hs_StatusCode resp)); simpl.
  - destruct (Z.ltb_spec (hs_StatusCode resp) 300); simpl.
    + unfold readLimited. destruct (hs_Body resp) as [b [e|]] eqn:Hb; simpl; destruct (Z.ltb_spec MaxResolvedBytes (Z.of_nat (String.length b))).
      * split; [symmetry; apply Z.leb_gt; lia|]. intros body (r & [= <-] & _ & Hr & _). congruence.
      * split; [symmetry; apply Z.leb_gt; lia|]. intros body (r & [= <-] & _ & Hr & _). congruence.
      * split; [symmetry; apply Z.leb_gt; lia|]. intros body (r & [= <-] & _ & Hr & Hl). rewrite Hb in Hr. injection Hr as <-. lia.
      * by exists resp.
    + destruct (Z.eqb_spec (hs_StatusCode resp) 404); [split; [symmetry; apply Z.leb_gt; lia|]|];
        [|destruct (Z.leb_spec 500 (hs_StatusCode resp)); (split; [done|])]; intros body (r & [= <-] & Hr & _); lia.
  - destruct (Z.eqb_spec (hs_StatusCode resp) 404); [lia|]. destruct (Z.leb_spec 500 (hs_StatusCode resp)); [lia|].
    split; [done|]. intros body (r & [= <-] & Hr & _). lia.
Qed.

(** What [fetchWithRetry] does with the requests it makes. *)
Definition fetched (url : string) (t : list (ev RefE)) (r : result string) : Prop :=
  Forall (fun g => hr_URL g.1 = url) (gets t) /\ length (gets t) <= 2 /\
  (forall g1 g2, gets t = [g1; g2] -> retryable g1.2 = true) /\
  match r with
  | Ok body => exists g, last (gets t) = Some g /\ delivers g.2 body
  | Err _ => forall g body, last (gets t) = Some g -> ~ delivers g.2 body
  end.

Section Fetch.
Context `{MapRange} `{NetUrl} `{Unstructured}.

Lemma get_once_post name insecure url token nf :
  post token (fun t _ => gets t = []) ->
  post (get_once name insecure url token nf) (fun t r =>
    match r with
    | inl body => exists q x, gets t = [(q, x)] /\ hr_URL q = url /\ delivers x body
    | inr (retry, _) =>
        (gets t = [] /\ retry = false) \/
        exists q x, gets t = [(q, x)] /\ hr_URL q = url /\ retry = retryable x /\ forall body, ~ delivers x body
    end).
Proof.
  intros Htok. unfold get_once. destruct (url_Parse url) as [u|e]; [|apply post_ret; by left].
  apply post_bind. eapply post_mono; [exact Htok|]. intros t tok Ht. apply post_bind, post_call. intros x. apply post_ret.
  apply post_ret. rewrite app_nil_r, gets_app, Ht. simpl.
  destruct x as [resp|e]; [pose proof (status_result_cases name (redactURL url) (nf (redactURL url)) resp) as Hc; destruct (status_result _ _ _ resp) as [body|[retry e]]|].
  - eexists _, (Ok resp). done.
  - right. eexists _, (Ok resp). by destruct Hc.
  - right. eexists _, (Err e). split_and!; [done..|]. by intros body (? & ? & _).
Qed.

Lemma fetchWithRetry_post name insecure url token nf :
  post token (fun t _ => gets t = []) ->
  post (fetchWithRetry (get_once name insecure url token nf)) (fetched url).
Proof.
  intros Htok. unfold fetchWithRetry. cbn [fetch_attempts]. apply post_bind. eapply post_mono; [by apply get_once_post|].
  intros t1 [body|[retry e]] H1'.
  - destruct H1' as (q & x & Hg & Hu & Hd). apply post_ret. rewrite app_nil_r. unfold fetched. rewrite Hg.
    split_and!; [by apply Forall_singleton|simpl; lia|done|by exists (q, x)].
  - assert (retry = false -> fetched url t1 (Err e)) as Hend.
    { intros ->. unfold fetched. destruct H1' as [[-> _]|(q & x & -> & Hu & Hr & Hd)].
      - split_and!; [done|simpl; lia|done|done].
      - split_and!; [by apply Forall_singleton|simpl; lia|done|]. intros g body [= <-]. apply Hd. }
    destruct retry; [|apply post_ret; rewrite app_nil_r; by apply Hend].
    destruct H1' as [[_ ?]|(q & x & Hg & Hu & Hr & Hd)]; [done|]. apply post_bind, post_call. intros w. apply post_ret.
    destruct w as [e'|].
    + apply post_ret. rewrite app_nil_r. unfold fetched. rewrite gets_app, Hg. simpl.
      split_and!; [by apply Forall_singleton|lia|done|]. intros g body [= <-]. apply Hd.
    + apply post_bind. eapply post_mono; [by apply get_once_post|]. intros t2 [body|[retry e']] H2'.
      * destruct H2' as (q2 & x2 & Hg2 & Hu2 & Hd2). apply post_ret. rewrite app_nil_r. unfold fetched. rewrite !gets_app, Hg, Hg2. simpl.
        split_and!; [by repeat constructor|lia|by intros g1 g2 [= <- _]|by exists (q2, x2)].
      * assert (fetched url (t1 ++ [Ev (Sleep 250000000) None] ++ t2) (Err e')) as Hf.
        { unfold fetched. rewrite !gets_app, Hg. simpl. destruct H2' as [[-> _]|(q2 & x2 & -> & Hu2 & Hr2 & Hd2)]; simpl.
          - split_and!; [by apply Forall_singleton|lia|done|]. intros g body [= <-]. apply Hd.
          - split_and!; [by repeat constructor|lia|by intros g1 g2 [= <- _]|]. intros g body [= <-]. apply Hd2. }
        destruct retry; apply post_ret; by rewrite app_nil_r.
Qed.

Lemma bearerToken_quiet h : post (bearerToken h) (fun t _ => gets t = []).
Proof.
  unfold bearerToken. destruct (negb _); [by apply post_ret|]. apply post_bind, post_call. intros tok. apply post_ret.
  destruct (negb _); [by apply post_ret|]. apply post_call. intros x. by apply post_ret.
Qed.

(** The tail of both resolvers: the body becomes the answer, an error stays. *)
Lemma fetch_then (p : ref (result string)) url source (Q : list (ev RefE) -> result Resolved -> Prop) :
  post p (fetched url) ->
  (forall t body, fetched url t (Ok body) -> Q t (Ok (mkResolved body source "" false))) ->
  (forall t e, fetched url t (Err e) -> Q t (Err e)) ->
  post (do! body ← p; Ret (Ok (mkResolved body source "" false))) Q.
Proof.
  intros Hp Hok Herr. apply post_try. eapply post_mono; [exact Hp|]. intros t [body|e] Hf; [apply post_ret; rewrite app_nil_r|]; auto.
Qed.
End Fetch.

(** what the http resolver fetches.  Every request it makes is for the given URL, and
    it makes none unless that URL parses and its scheme is https, or http with a loopback
    host or with plain http allowed.  It makes at most two requests, the second only
    after a transport error or a server error.  It succeeds only with the whole body of
    its last answer, when that has a 2xx status and at most 10 MiB; and it fails only
    when its last answer is not like that. *)
Theorem http_fetch `{MapRange} `{NetUrl} h req :
  post (http_Resolve h req) (fun t r =>
    let url := trim_space (param req "url") in
    Forall (fun g => hr_URL g.1 = url) (gets t) /\ length (gets t) <= 2 /\
    (gets t <> [] -> exists u, url_Parse url = Ok u /\
       (u_Scheme u = "https" \/ u_Scheme u = "http" /\ (ho_AllowInsecureHTTP h = true \/ isLoopbackHost (u_Host u) = true))) /\
    (forall g1 g2, gets t = [g1; g2] -> retryable g1.2 = true) /\
    match r with
    | Ok rv => exists g, last (gets t) = Some g /\ delivers g.2 (rv_Bytes rv)
    | Err _ => forall g body, last (gets t) = Some g -> ~ delivers g.2 body
    end).
Proof.
  match goal with |- post _ ?Q => set (Q0 := Q) end.
  assert (forall e, post (Ret (Err e)) Q0) as Herr.
  { intros e. apply post_ret. unfold Q0. simpl. split_and!; [done|lia|done|done|done]. }
  unfold http_Resolve. destruct (String.eqb _ ""); [apply Herr|]. destruct (url_Parse _) as [u|e] eqn:Hu; [|apply Herr].
  set (url := trim_space (param req "url")) in *.
  destruct (if String.eqb (u_Scheme u) "https" then None else _) as [e|] eqn:Hr; [apply Herr|].
  assert (u_Scheme u = "https" \/ u_Scheme u = "http" /\ (ho_AllowInsecureHTTP h = true \/ isLoopbackHost (u_Host u) = true)) as Hs.
  { destruct (String.eqb_spec (u_Scheme u) "https"); [by left|]. destruct (String.eqb_spec (u_Scheme u) "http"); [|done].
    destruct (ho_AllowInsecureHTTP h); [by right; split; [|left]|]. destruct (isLoopbackHost (u_Host u)); [by right; split; [|right]|done]. }
  assert (post (fetchWithRetry (http_fetchOnce h url)) (fetched url)) as Hf by (apply fetchWithRetry_post, bearerToken_quiet).
  apply (fetch_then _ url); [exact Hf| |].
  - intros t body (H1' & H2' & H3' & H4'). split_and!; try done. intros _. by exists u.
  - intros t e (H1' & H2' & H3' & H4'). split_and!; try done. intros _. by exists u.
Qed.

(** what the hub resolver fetches: at most two requests, for the one address made
    from the base URL and the escaped params, the second only after a transport error or
    a server error; none when the name is missing, the type is not the Tekton Hub's or
    the base URL is plain http of another host; and the answer is the whole body of the
    last answer. *)
Theorem hub_fetch `{MapRange} `{NetUrl} h req :
  post (hub_Resolve h req) (fun t r =>
    let p k d := or_else (trim_space (param req k)) d in
    let url := trim_right_slashes (hb_BaseURL h) +:+ "/v1/resource/" +:+ PathEscape (p "catalog" "tekton") +:+ "/" +:+
               PathEscape (p "kind" "task") +:+ "/" +:+ PathEscape (trim_space (param req "name")) +:+ "/" +:+
               PathEscape (p "version" "latest") +:+ "/yaml" in
    Forall (fun g => hr_URL g.1 = url) (gets t) /\ length (gets t) <= 2 /\
    (gets t <> [] -> trim_space (param req "name") <> "" /\ to_lower (trim_space (param req "type")) ∈ [""; "tekton"] /\
       exists u, url_Parse (hb_BaseURL h) = Ok u /\ (u_Scheme u = "http" -> isLoopbackHost (u_Host u) = true)) /\
    (forall g1 g2, gets t = [g1; g2] -> retryable g1.2 = true) /\
    match r with
    | Ok rv => exists g, last (gets t) = Some g /\ delivers g.2 (rv_Bytes rv)
    | Err _ => forall g body, last (gets t) = Some g -> ~ delivers g.2 body
    end).
Proof.
  unfold hub_Resolve. cbv zeta.
  destruct (String.eqb_spec (trim_space (param req "name")) "") as [|Hn]; [apply post_ret; simpl; split_and!; [done|lia|done..]|].
  destruct (String.eqb_spec (to_lower (trim_space (param req "type"))) "artifact"); [apply post_ret; simpl; split_and!; [done|lia|done..]|].
  destruct (negb _) eqn:Ht; [apply post_ret; simpl; split_and!; [done|lia|done..]|].
  destruct (url_Parse (hb_BaseURL h)) as [u|e] eqn:Hu; [|apply post_ret; simpl; split_and!; [done|lia|done..]].
  destruct (_ && _) eqn:Hl; [apply post_ret; simpl; split_and!; [done|lia|done..]|].
  assert (to_lower (trim_space (param req "type")) ∈ [""; "tekton"]) as Htype.
  { apply negb_false_iff, orb_true_iff in Ht as [Ht|Ht]; apply String.eqb_eq in Ht; rewrite Ht; set_solver. }
  assert (u_Scheme u = "http" -> isLoopbackHost (u_Host u) = true) as Hloop.
  { intros E. rewrite E in Hl. simpl in Hl. by apply negb_false_iff in Hl. }
  eapply fetch_then; [by apply fetchWithRetry_post, post_ret| |].
  - intros t body (H1' & H2' & H3' & H4'). split_and!; try done. intros _. split_and!; [done..|]. by exists u.
  - intros t e (H1' & H2' & H3' & H4'). split_and!; try done. intros _. split_and!; [done..|]. by exists u.
Qed.

(** ** git: inside the clone *)

(** [p] is [root] or lies below it. *)
Definition inside (root p : string) : Prop :=
  IsAbs p = IsAbs root /\ exists rest, elems p = elems root ++ rest /\ Forall normal rest.

Lemma join_dots (A : Type) (f : A -> string) x b t : (forall y, f y = "..") ->
  String.eqb (join sep (map f (x :: b) ++ t)) ".." || has_prefix (join sep (map f (x :: b) ++ t)) "../" = true.
Proof.
  intros Hf. simpl. rewrite Hf. destruct (map f b ++ t) as [|e l]; [done|].
  change (join sep (".." :: e :: l)) with (".." +:+ sep +:+ join sep (e :: l)). apply orb_true_iff. right.
  change (".." +:+ sep +:+ join sep (e :: l)) with ("../" +:+ join sep (e :: l)). unfold has_prefix. by rewrite (strip_prefix_app "../").
Qed.

Lemma strip_common_prefix b t t' : strip_common b t = ([], t') -> t = b ++ t'.
Proof.
  revert t; induction b as [|x b IH]; intros t; simpl; [by intros [= ->]|]. destruct t as [|y t]; [done|].
  destruct (String.eqb_spec x y) as [->|]; [|done]. intros H. by rewrite (IH _ H).
Qed.

(** After the leading [..]s of a cleaned list, all is normal. *)
Lemma cleaned_tail r l l1 rest : cleaned r l -> l = l1 ++ rest -> head rest <> Some ".." -> Forall normal rest.
Proof.
  intros (k & m & -> & Hm & _) E Hh. apply app_eq_app in E as (l2 & [[E1 E2]|[E1 E2]]).
  - destruct l2 as [|x l2]; [by simpl in E2; subst|]. exfalso. subst rest. simpl in Hh.
    assert (x ∈ replicate k "..") as Hx by (rewrite E1; set_solver). apply elem_of_replicate in Hx as [-> _]. done.
  - subst m. by apply Forall_app in Hm as [_ ?].
Qed.

Lemma not_escaping_inside root target : escapes_root (Rel root target) = false -> inside root target.
Proof.
  unfold Rel. destruct (String.eqb_spec (Clean target) (Clean root)) as [E|Hne].
  { intros _. apply Clean_eq in E as [Ea Ee]. split; [done|]. exists []. by rewrite app_nil_r. }
  destruct (Bool.eqb (IsAbs root) (IsAbs target)) eqn:Hab; [|done]. simpl negb. cbn iota. apply Bool.eqb_prop in Hab.
  destruct (strip_common _ _) as [b t] eqn:Hs. destruct b as [|e b].
  2:{ intros Hf. exfalso. destruct t as [|x t].
      - pose proof (join_dots string (fun _ => "..") e b [] (fun _ => eq_refl)) as Hj. rewrite app_nil_r in Hj.
        unfold escapes_root in Hf. rewrite Hj in Hf. done.
      - destruct (String.eqb e ".."); [done|]. unfold escapes_root in Hf.
        rewrite (join_dots string (fun _ => "..") e b (x :: t) (fun _ => eq_refl)) in Hf. done. }
  intros Hf. apply strip_common_prefix in Hs. split; [done|].
  destruct (String.eqb_spec (Clean target) ".") as [Ed|Hd].
  - exists []. assert (elems target = []) as Et by (by rewrite <-elems_Clean, Ed).
    assert (elems root = []) as Er.
    { destruct (elems root) as [|x l] eqn:El; [done|]. simpl in Hs. injection Hs as <- _.
      pose proof (elems_not_dot root) as Hx. rewrite El in Hx. apply Forall_cons in Hx as [(_ & _ & ?) _]. done. }
    by rewrite Et, Er.
  - exists t. split; [done|]. eapply cleaned_tail; [apply elems_cleaned|exact Hs|]. intros Hh. destruct t as [|x t]; [done|].
    injection Hh as ->. pose proof (join_dots unit (fun _ => "..") tt [] t (fun _ => eq_refl)) as Hj.
    unfold escapes_root in Hf. change (map (fun _ : unit => "..") [tt] ++ t) with (".." :: t) in Hj. by rewrite Hj in Hf.
Qed.

(** What a trace did: temporary directories made, clones started and into which
    directory, links resolved, files opened, renames, removals, usable clones. *)
Section Projections.

Definition temp_of (e : ev RefE) : list string :=
  match ev_call e in RefE X return X -> list string with
  | MkdirTemp _ _ => fun x => match x with inl d => [d] | inr _ => [] end | _ => fun _ => [] end (ev_answer e).
Definition clone_of (e : ev RefE) : list string :=
  match ev_call e with PlainClone d _ => [d] | _ => [] end.
Definition link_of (e : ev RefE) : list (string * string) :=
  match ev_call e in RefE X return X -> list (string * string) with
  | EvalSymlinks p => fun x => match x with inl r => [(p, r)] | inr _ => [] end | _ => fun _ => [] end (ev_answer e).
Definition open_of (e : ev RefE) : list string := match ev_call e with OpenFile p => [p] | _ => [] end.
Definition usable_of (e : ev RefE) : list string :=
  match ev_call e in RefE X return X -> list string with
  | Head d => fun x => if is_ok x then [d] else [] | _ => fun _ => [] end (ev_answer e).
Definition rename_of (e : ev RefE) : list (string * string * bool) :=
  match ev_call e in RefE X return X -> list (string * string * bool) with
  | @RFs Y c => match c in FsE Z return Z -> list (string * string * bool) with
                | Rename a b => fun x => [(a, b, match x with inl _ => true | inr _ => false end)] | _ => fun _ => [] end
  | _ => fun _ => [] end (ev_answer e).
Definition removal_of (e : ev RefE) : list string :=
  match ev_call e with @RFs Y c => match c with RemoveAll d => [d] | _ => [] end | _ => [] end.

(** What [p] does of one kind satisfies [P]. *)
Definition only {B} (proj : ev RefE -> list B) (P : B -> Prop) {A} (p : ref A) : Prop :=
  calls (fun X (e : RefE X) => forall x, Forall P (proj (Ev e x))) p.

Lemma only_post {B} (proj : ev RefE -> list B) P {A} (p : ref A) : only proj P p -> post p (fun t _ => Forall P (t ≫= proj)).
Proof.
  intros Hp t a He. pose proof (calls_exec _ p t a Hp He) as Hf. clear He. induction Hf as [|[X e x] t Ht Hf IH]; [done|].
  simpl in Ht |- *. by apply Forall_app.
Qed.

Lemma never_nil {B} (proj : ev RefE -> list B) {A} (p : ref A) t a : only proj (fun _ => False) p -> exec p t a -> t ≫= proj = [].
Proof. intros Hp He. pose proof (only_post proj _ p Hp t a He) as Hf. simpl in Hf. destruct (t ≫= proj); [done|]. by apply Forall_cons in Hf as [? _]. Qed.
End Projections.

Section Git.
Context `{MapRange} `{NetUrl} `{Unstructured}.

Lemma only_fs {B} (proj : ev RefE -> list B) P {A} (p : prog FsE A) :
  (forall X (e : FsE X) x, Forall P (proj (Ev (RFs e) x))) -> only proj P (fs p).
Proof. intros Hof. apply (hoist_calls _ (fun _ _ => True)); [intros X e _ x; apply Hof|]. induction p; simpl; [done|]. by split. Qed.

(** A cleanup goes on removing. *)
Lemma only_removing {B} (proj : ev RefE -> list B) P {A} dir (r : result A) :
  (forall x, Forall P (proj (Ev (RFs (RemoveAll dir)) x))) -> only proj P (removing dir r).
Proof. intros Hof. destruct r; [done|]. simpl. split; [apply Hof|done]. Qed.

(** What [cloneShallow] calls. *)
Lemma only_cloneShallow {B} (proj : ev RefE -> list B) P url rev dir :
  (forall o x, Forall P (proj (Ev (PlainClone dir o) x))) -> (forall x, Forall P (proj (Ev (RFs (RemoveAll dir)) x))) ->
  (forall r x, Forall P (proj (Ev (ResolveRevision dir r) x))) -> (forall x, Forall P (proj (Ev (Worktree dir) x))) ->
  (forall h x, Forall P (proj (Ev (Checkout dir h) x))) -> only proj P (cloneShallow url rev dir).
Proof.
  intros Hc Hr Hv Hw Hk. unfold cloneShallow. simpl. split; [apply Hc|]. intros [[]|e]; [done|]. simpl. split; [apply Hr|]. intros _.
  split; [apply Hc|]. intros [[]|e2]; [done|]. simpl. split; [apply Hr|]. intros _. split; [apply Hc|]. intros c.
  apply calls_try; [by apply only_removing|]. intros _. simpl. split; [apply Hv|]. intros h.
  apply calls_try; [by apply only_removing|]. intros hash. simpl. split; [apply Hw|]. intros w.
  apply calls_try; [by apply only_removing|]. intros _. simpl. split; [apply Hk|]. intros k. by apply only_removing.
Qed.

Definition root_of (cacheDir key : string) : string := Join [cacheDir; "git"; key].
Definition repo_of (cacheDir key : string) : string := Join [root_of cacheDir key; "repo"].

(** A clone that is moved into place was complete. *)
Definition moved_complete (repoURL revision repoDir : string) (t : list (ev RefE)) : Prop :=
  forall a b ok, (a, b, ok) ∈ t ≫= rename_of ->
    b = repoDir /\ exists t0 t1 t2, t = t0 ++ t1 ++ t2 /\ exec (cloneShallow repoURL revision a) t1 (Ok tt).

Lemma moved_complete_app url rev d t t' :
  moved_complete url rev d t -> moved_complete url rev d t' -> moved_complete url rev d (t ++ t').
Proof.
  intros H1' H2' a b ok. rewrite bind_app. intros [Hin|Hin]%elem_of_app.
  - destruct (H1' a b ok Hin) as (-> & t0 & t1 & t2 & -> & He). split; [done|]. exists t0, t1, (t2 ++ t'). by rewrite <-!app_assoc.
  - destruct (H2' a b ok Hin) as (-> & t0 & t1 & t2 & -> & He). split; [done|]. exists (t ++ t0), t1, t2. by rewrite <-!app_assoc.
Qed.

Lemma moved_complete_none url rev d t : t ≫= rename_of = [] -> moved_complete url rev d t.
Proof. intros E a b ok Hin. rewrite E in Hin. by apply not_elem_of_nil in Hin. Qed.

(** What is promised of a clone into a fresh directory. *)
Definition cloned_well (repoURL revision repoDir : string) (t : list (ev RefE)) (r : result string) : Prop :=
  moved_complete repoURL revision repoDir t /\
  (forall d, d ∈ t ≫= clone_of -> d ∈ t ≫= temp_of) /\
  (forall d, d ∈ t ≫= temp_of -> (d, repoDir, true) ∈ t ≫= rename_of \/ d ∈ t ≫= removal_of) /\
  (forall d, r = Ok d -> d = repoDir /\ (repoDir ∈ t ≫= usable_of \/ exists a, (a, repoDir, true) ∈ t ≫= rename_of) /\
     (t ≫= rename_of = [] -> t ≫= clone_of = [])).

Lemma post_fs {A} (e : FsE A) (Q : list (ev RefE) -> A -> Prop) : (forall x, Q [Ev (RFs e) x] x) -> post (fs (call e)) Q.
Proof. intros HQ. apply post_call. intros x. by apply post_ret. Qed.

Lemma post_fs_fails {A} (e : FsE (A + errno)) (Q : list (ev RefE) -> result A -> Prop) :
  (forall x, Q [Ev (RFs e) x] (match x with inl a => Ok a | inr e => Err (errno_text e) end)) -> post (fs (fails (call e))) Q.
Proof. intros HQ. apply post_call. intros x. by apply post_ret. Qed.

Lemma post_fs_ignore {A} (e : FsE (A + errno)) (Q : list (ev RefE) -> unit -> Prop) :
  (forall x, Q [Ev (RFs e) x] tt) -> post (fs (ignore (call e))) Q.
Proof. intros HQ. apply post_call. intros x. by apply post_ret. Qed.

Lemma post_fails {A} (e : RefE (A + errno)) (Q : list (ev RefE) -> result A -> Prop) :
  (forall x, Q [Ev e x] (match x with inl a => Ok a | inr e => Err (errno_text e) end)) -> post (fails (call e)) Q.
Proof. intros HQ. apply post_call. intros x. by apply post_ret. Qed.

(** A trace that makes one directory, clones into it and goes on with [t2]. *)
Lemma cloned_parts url rev repoDir tmp pre t1 c t2 r :
  pre ≫= temp_of = [tmp] -> pre ≫= rename_of = [] -> pre ≫= clone_of = [] ->
  exec (cloneShallow url rev tmp) t1 c ->
  t2 ≫= temp_of = [] -> t2 ≫= clone_of = [] ->
  (t2 ≫= rename_of = [] \/ c = Ok tt /\ exists b, t2 ≫= rename_of = [(tmp, repoDir, b)]) ->
  (t2 ≫= rename_of = [(tmp, repoDir, true)] \/ tmp ∈ t2 ≫= removal_of) ->
  (forall d, r = Ok d -> d = repoDir /\ (repoDir ∈ t2 ≫= usable_of \/ t2 ≫= rename_of = [(tmp, repoDir, true)]) /\ t2 ≫= rename_of <> []) ->
  cloned_well url rev repoDir (pre ++ t1 ++ t2) r.
Proof.
  intros P1 P2 P3 He T1 T2 T3 T4 Hr.
  assert (Forall (eq tmp) (t1 ≫= clone_of)) as Hcl.
  { apply (only_post clone_of (eq tmp) (cloneShallow url rev tmp) ltac:(apply only_cloneShallow; intros; by repeat constructor) t1 c He). }
  assert (t1 ≫= temp_of = [] /\ t1 ≫= rename_of = []) as [Ht1 Hr1].
  { split; (eapply never_nil; [|exact He]); apply only_cloneShallow; by intros. }
  rewrite Forall_forall in Hcl. unfold cloned_well, moved_complete. rewrite !bind_app, P1, P2, P3, Ht1, Hr1, T1, T2. cbn [app].
  split_and!.
  - intros a b ok Hin. destruct T3 as [T3|[-> [b' T3]]]; rewrite T3 in Hin; [by apply not_elem_of_nil in Hin|].
    apply list_elem_of_singleton in Hin as [= -> -> ->]. split; [done|]. by exists pre, t1, t2.
  - intros d. rewrite app_nil_r. intros <-%Hcl. by left.
  - intros d. rewrite list_elem_of_singleton. intros ->. destruct T4 as [T4|T4]; [left; rewrite T4; by left|right; set_solver].
  - intros d Hd. destruct (Hr d Hd) as (-> & Hu & Hn). split; [done|]. split; [|done].
    destruct Hu as [Hu|Hu]; [left; set_solver|right]. exists tmp. rewrite Hu. by left.
Qed.

(** The clone and the move. *)
Lemma clone_into_post cacheDir key url rev :
  let root := root_of cacheDir key in let repoDir := repo_of cacheDir key in
  post (clone_into root repoDir url rev) (cloned_well url rev repoDir).
Proof.
  intros root repoDir. unfold clone_into. apply post_try, post_wrap, post_fs_fails. intros [[]|e0]; cbn [wrap_err].
  2:{ split_and!; [by apply moved_complete_none|set_solver|set_solver|done]. }
  apply post_try, post_wrap, post_fails. intros [tmp|e1]; cbn [wrap_err].
  2:{ split_and!; [by apply moved_complete_none|set_solver|set_solver|done]. }
  assert (forall t1 c t2 r, exec (cloneShallow url rev tmp) t1 c ->
    t2 ≫= temp_of = [] -> t2 ≫= clone_of = [] ->
    (t2 ≫= rename_of = [] \/ c = Ok tt /\ exists b, t2 ≫= rename_of = [(tmp, repoDir, b)]) ->
    (t2 ≫= rename_of = [(tmp, repoDir, true)] \/ tmp ∈ t2 ≫= removal_of) ->
    (forall d, r = Ok d -> d = repoDir /\ (repoDir ∈ t2 ≫= usable_of \/ t2 ≫= rename_of = [(tmp, repoDir, true)]) /\ t2 ≫= rename_of <> []) ->
    cloned_well url rev repoDir ([Ev (RFs (MkdirAll root 448)) (inl tt)] ++ [Ev (MkdirTemp root "repo.tmp-") (inl tmp)] ++ t1 ++ t2) r) as Hparts.
  { intros t1 c t2 r. rewrite (assoc_L (++) [_]). by apply cloned_parts. }
  apply post_bind. intros t1 c He. destruct c as [[]|ec].
  - unfold removing. apply post_try, post_ret. apply post_bind, post_fs. intros [[]|e2].
    + apply post_ret. apply (Hparts t1 (Ok tt)); [exact He|done|done|right; split; [done|by exists true]|by left|]. intros d [= <-]. split_and!; [done|by right|done].
    + apply post_bind, post_fs_ignore. intros x. apply post_bind, post_bind, post_call. intros h. apply post_ret, post_ret, post_ret.
      apply (Hparts t1 (Ok tt)); [exact He|done|done|right; split; [done|by exists false]|right; cbn; by left|].
      intros d. destruct (is_ok h) eqn:Eh; [|done]. intros [= <-]. split_and!; [done|left; cbn; rewrite Eh; by left|done].
  - unfold removing. apply post_try, post_bind, post_fs_ignore. intros x. apply post_ret.
    apply (Hparts t1 (Err ec)); [exact He|done|done|by left|right; cbn; by left|done].
Qed.
Lemma acquire_cached_post cacheDir url rev key :
  post (acquire_cached cacheDir url rev key) (cloned_well url rev (repo_of cacheDir key)).
Proof.
  unfold acquire_cached. fold (root_of cacheDir key) (repo_of cacheDir key).
  assert (forall t0 t r, t0 ≫= temp_of = [] -> t0 ≫= rename_of = [] -> t0 ≫= clone_of = [] ->
    cloned_well url rev (repo_of cacheDir key) t r -> cloned_well url rev (repo_of cacheDir key) (t0 ++ t) r) as Hpre.
  { intros t0 t r E1 E2 E3 (W1 & W2 & W3 & W4). unfold cloned_well. rewrite !bind_app, E1, E2, E3. cbn [app]. split_and!.
    - apply moved_complete_app; [by apply moved_complete_none|done].
    - done.
    - intros d Hd. destruct (W3 d Hd); [by left|right; set_solver].
    - intros d Hd. destruct (W4 d Hd) as (-> & Hu & Hn). split_and!; [done| |done]. destruct Hu as [Hu|Hu]; [left; set_solver|by right]. }
  apply post_bind, post_bind, post_fs. intros st. apply post_ret.
  destruct (match st with inl st => fi_IsDir st | inr _ => false end).
  - apply post_bind, post_bind, post_call. intros h. apply post_ret, post_ret. destruct (is_ok h) eqn:Eh.
    + apply post_ret. apply Hpre; [done..|]. split_and!; [by apply moved_complete_none|set_solver|set_solver|].
      intros d [= <-]. split_and!; [done|left; cbn; rewrite Eh; by left|done].
    + apply post_try, post_wrap, post_fs_fails. intros [[]|e]; cbn [wrap_err].
      * eapply post_mono; [apply clone_into_post|]. intros t r Hw. apply Hpre; [done..|]. apply Hpre; [by cbn; rewrite ?Eh..|]. by apply Hpre.
      * apply Hpre; [done..|]. apply Hpre; [done..|]. split_and!; [by apply moved_complete_none|set_solver|set_solver|done].
  - eapply post_mono; [apply clone_into_post|]. intros t r Hw. by apply Hpre.
Qed.

(** *** Reading *)
Lemma acquire_cached_opens cacheDir url rev key : only open_of (fun _ => False) (acquire_cached cacheDir url rev key).
Proof.
  assert (forall root repoDir, only open_of (fun _ => False) (clone_into root repoDir url rev)) as Hc.
  { intros root repoDir. unfold clone_into. apply calls_try; [by apply calls_wrap, only_fs|]. intros _.
    apply calls_try; [by apply calls_wrap|]. intros tmp. apply calls_bind; [by apply only_cloneShallow|]. intros c.
    apply calls_try; [by apply only_removing|]. intros _. apply calls_bind; [by apply only_fs|]. intros [[]|e]; [done|].
    apply calls_bind; [by apply only_fs|]. intros _. by apply calls_bind. }
  unfold acquire_cached. apply calls_bind; [by apply calls_bind; [apply only_fs|]|]. intros [|]; [|apply Hc].
  apply calls_bind; [by apply calls_bind|]. intros [|]; [done|]. apply calls_try; [by apply calls_wrap, only_fs|]. intros _. apply Hc.
Qed.

(** The clone a request is read from. *)
Definition clone_dir (g : GitResolver) (key : string) (t : list (ev RefE)) (d : string) : Prop :=
  if String.eqb (g_cacheDir g) "" then d ∈ t ≫= temp_of else d = repo_of (g_cacheDir g) key.

Lemma clone_dir_app g key t t' d : clone_dir g key t d -> clone_dir g key (t ++ t') d.
Proof. unfold clone_dir. destruct (String.eqb _ ""); [|done]. rewrite bind_app. set_solver. Qed.

Lemma acquireRepo_post g url rev key :
  post (acquireRepo g url rev key) (fun t r => t ≫= open_of = [] /\
    match r with Ok (d, cleanup) => clone_dir g key t d /\ only open_of (fun _ => False) cleanup | Err _ => True end).
Proof.
  unfold acquireRepo, clone_dir. destruct (String.eqb (g_cacheDir g) "") eqn:Eg.
  - apply post_try, post_wrap, post_fails. intros [tmp|e]; cbn [wrap_err]; [|done]. apply post_bind. intros t1 c He.
    assert (t1 ≫= open_of = []) as H1' by (eapply never_nil; [|exact He]; by apply only_cloneShallow).
    apply post_try. intros t2 r He2.
    assert (t2 ≫= open_of = []) as H2' by (eapply never_nil; [|exact He2]; by apply only_removing).
    destruct r as [[]|e]; [apply post_ret|]; rewrite !bind_app, H1', H2'; (split; [done|]); [|done]. split; [cbn; by left|by apply only_fs].
  - apply post_bind, post_call. intros x. apply post_ret, post_try, post_defer. intros t1 r He. apply post_call. intros y. apply post_ret.
    assert (t1 ≫= open_of = []) as H1' by (eapply never_nil; [apply acquire_cached_opens|exact He]).
    destruct (acquire_cached_post _ _ _ _ t1 r He) as (_ & _ & _ & Hr).
    destruct r as [d|e]; [apply post_ret|]; rewrite !bind_app, H1'; (split; [done|]); [|done]. split; [by apply Hr|done].
Qed.

(** [p] is the real path of the file: the clone's symbolic links were resolved, then those of
    the file below it, and what came out lies at or below the clone. *)
Definition real_path (repoDir cleanPath : string) (t : list (ev RefE)) (p : string) : Prop :=
  exists root, (repoDir, root) ∈ t ≫= link_of /\ (Join [root; cleanPath], p) ∈ t ≫= link_of /\ inside root p.

Lemma real_path_app repoDir cleanPath t1 t t2 p : real_path repoDir cleanPath t p -> real_path repoDir cleanPath (t1 ++ t ++ t2) p.
Proof. intros (root & Hr & Hp & Hi). exists root. rewrite !bind_app. split_and!; [set_solver|set_solver|done]. Qed.

(** What is returned: the content of a file that was opened, whole, with its digest. *)
Definition read_whole (t : list (ev RefE)) (rv : Resolved) : Prop :=
  (exists p, Ev (OpenFile p) (inl (rv_Bytes rv, None)) ∈ t) /\
  rv_SHA256 rv = sha256Bytes (rv_Bytes rv) /\ (Z.of_nat (String.length (rv_Bytes rv)) <= 10485760)%Z.

Lemma read_whole_app t1 t t2 rv : read_whole t rv -> read_whole (t1 ++ t ++ t2) rv.
Proof. intros [[p Hp] Hd]. split; [|done]. exists p. rewrite !elem_of_app. auto. Qed.

Lemma resolveInRepo_post repoDir cleanPath pathInRepo rev :
  post (resolveInRepo repoDir cleanPath pathInRepo rev) (fun t r => t ≫= open_of = [] /\
    forall p, r = Ok p -> real_path repoDir cleanPath t p).
Proof.
  unfold resolveInRepo. apply post_try, post_wrap, post_fails. intros [root|e]; cbn [wrap_err]; [|done].
  apply post_bind, post_call. intros x. apply post_ret, post_ret. split; [done|]. intros p.
  destruct x as [target|[e|e]]; [|done..]. destruct (escapes_root _) eqn:Es; [done|]. intros [= <-].
  exists root. split_and!; [cbn; by left|cbn; by do 2 constructor|]. by apply not_escaping_inside.
Qed.

Lemma read_in_repo_post g repoDir url rev path clean key :
  post (read_in_repo g repoDir url rev path clean key) (fun t r =>
    (forall p, p ∈ t ≫= open_of -> real_path repoDir clean t p) /\ forall rv, r = Ok rv -> read_whole t rv).
Proof.
  unfold read_in_repo. apply post_try. eapply post_mono; [apply resolveInRepo_post|]. intros t1 [full|e] [H1' H2'].
  2:{ rewrite H1'. split; [|done]. intros p. by rewrite elem_of_nil. }
  pose proof (H2' full eq_refl) as Hin.
  assert (forall t2 (r : result Resolved) x, t2 ≫= open_of = [] -> (forall rv, r = Ok rv -> read_whole (t1 ++ [Ev (OpenFile full) x] ++ t2) rv) ->
    (forall p, p ∈ (t1 ++ [Ev (OpenFile full) x] ++ t2) ≫= open_of -> real_path repoDir clean (t1 ++ [Ev (OpenFile full) x] ++ t2) p) /\
    forall rv, r = Ok rv -> read_whole (t1 ++ [Ev (OpenFile full) x] ++ t2) rv) as Hend.
  { intros t2 r x E2 Hr. split; [|done]. intros p. rewrite !bind_app, H1', E2. cbn. rewrite list_elem_of_singleton. intros ->.
    by apply (real_path_app _ _ []). }
  apply post_bind, post_call. intros x. apply post_ret. destruct x as [st|[e|e]]; [|by apply post_ret, (Hend [])..].
  apply post_try, post_ret. unfold readLimited.
  destruct (Z.ltb_spec MaxResolvedBytes (Z.of_nat (String.length st.1))); [by apply (Hend [])|]. destruct st as [body [e|]]; [by apply (Hend [])|]. cbn [wrap_err fst snd].
  apply post_bind, post_call. intros h. apply post_ret. apply post_bind. intros t3 cached He3. apply post_bind. intros t4 [] He4. apply post_ret.
  assert (t3 ≫= open_of = []) as E3.
  { eapply never_nil; [|exact He3]. unfold cachedHit. destruct (String.eqb _ ""); [done|]. by apply calls_bind; [apply only_fs|]. }
  assert (t4 ≫= open_of = []) as E4.
  { eapply never_nil; [|exact He4]. unfold markCached. destruct (String.eqb _ ""); [done|]. apply calls_bind; [by apply only_fs|]. intros _.
    apply calls_bind; [by apply only_fs|]. intros now. by apply only_fs. }
  apply (Hend ([] ++ [Ev (Head repoDir) h] ++ t3 ++ t4 ++ [])); [rewrite !bind_app, E3, E4; done|]. intros rv [= <-].
  split_and!; [|done|done]. exists full. rewrite !elem_of_app. right. left. by constructor.
Qed.
End Git.

(** a cached clone is a complete one.  While a repository is acquired for the cache:
    a directory is renamed to the clone's place only after a run of [cloneShallow] into
    it that succeeded; every clone goes into a temporary directory made for it, which
    ends up in place or is removed; and when the answer is a clone, it is at its place,
    and was found usable or has just been moved there, without any network use unless a
    move was tried. *)
Theorem git_clone_complete `{MapRange} `{NetUrl} cacheDir url rev key :
  post (acquire_cached cacheDir url rev key) (cloned_well url rev (repo_of cacheDir key)).
Proof. apply acquire_cached_post. Qed.

(** C28: the git resolver reads only inside the clone: every file it opens is the real path,
    as the file system resolved its symbolic links, of the requested path below the real path
    of the clone of its request (the cached one of the URL and the revision, or the temporary
    one made for it), and lies at or below the latter; a plain http URL is refused without any
    call unless it was allowed; and what it returns is the whole of a file it opened, at most
    10 MiB, with its own digest. *)
Theorem git_reads_inside `{MapRange} `{NetUrl} g req :
  post (git_Resolve g req) (fun t r =>
    let key := gitCacheKey (param req "url") (or_else (param req "revision") "main") in
    (forall p, p ∈ t ≫= open_of -> exists d, clone_dir g key t d /\ real_path d (Clean (param req "pathInRepo")) t p) /\
    (g_allowInsecureHTTP g = false -> has_prefix (to_lower (param req "url")) "http://" = true -> t = []) /\
    forall rv, r = Ok rv -> read_whole t rv).
Proof.
  match goal with |- post _ ?Q => set (Q0 := Q) end.
  assert (forall e, Q0 [] (Err e)) as Herr by (intros e; split_and!; [set_solver|done|done]).
  unfold git_Resolve. destruct (String.eqb _ ""); [by apply post_ret|]. destruct (String.eqb _ ""); [by apply post_ret|].
  destruct (checkURLScheme g (param req "url")) as [e|] eqn:Hs; [by apply post_ret|]. apply post_try, post_ret.
  destruct (sanitizePathInRepo _) as [clean|e] eqn:Hclean; [|by apply Herr].
  assert (clean = Clean (param req "pathInRepo")) as -> by (unfold sanitizePathInRepo in Hclean; destruct (_ || _); by inversion Hclean).
  assert (g_allowInsecureHTTP g = false -> has_prefix (to_lower (param req "url")) "http://" = true -> False) as Hno.
  { intros E1 E2. unfold checkURLScheme in Hs. by rewrite E1, E2 in Hs. }
  apply post_try. eapply post_mono; [apply acquireRepo_post|]. intros t1 [[d cleanup]|e] [H1' H2'].
  2:{ split_and!; [cbn; intros p; rewrite H1'; set_solver|intros A B; destruct (Hno A B)|done]. }
  destruct H2' as [Hd Hcl]. apply post_defer. eapply post_mono; [apply read_in_repo_post|]. intros t2 r [Hp Hr]. intros t3 [] He3.
  assert (t3 ≫= open_of = []) as E3 by (eapply never_nil; [exact Hcl|exact He3]).
  split_and!; [|intros A B; destruct (Hno A B)|intros rv Hrv; cbn [app]; by apply read_whole_app, Hr].
  cbn [app]. intros p. rewrite !bind_app, H1', E3, app_nil_r. cbn [app]. intros Hin.
  exists d. split; [by apply clone_dir_app|]. apply real_path_app. by apply Hp.
Qed.

(** ** remote: one request, removed *)

(** What was asked of the API server: requests created (with the answer), and deleted. *)
Definition create_of (e : ev RefE) : list (GVR * (string + kube_err)) :=
  match ev_call e in RefE X return X -> list (GVR * (string + kube_err)) with
  | RemoteCreate g _ _ => fun x => [(g, x)] | _ => fun _ => [] end (ev_answer e).
Definition delete_of (e : ev RefE) : list (GVR * string) :=
  match ev_call e with RemoteDelete g _ n => [(g, n)] | _ => [] end.

Definition created (l : list (GVR * (string + kube_err))) : list (GVR * string) :=
  l ≫= (fun c => match c.2 with inl n => [(c.1, n)] | inr _ => [] end).

(** The attempts of [create]: the preferred version, and the older one when the server
    does not know the first. *)
Definition attempts_ok (l : list (GVR * (string + kube_err))) : Prop :=
  length l <= 2 /\ forall a b, l = [a; b] ->
    a.1 = gvrResolutionRequestV1Beta1 /\ (exists e, a.2 = inr (NoMatch e)) /\ b.1 = gvrResolutionRequestV1Alpha1.

(** ** Time *)

(** A trace that can take place in time: the clock does not go back, a wait that did not
    end the context began before the deadline and lasted. *)
Definition elapses (e : ev RefE) (clk clk' : Z) : Prop :=
  match ev_call e in RefE X return X -> Prop with
  | WaitPoll d dl => fun x => match x with None => (clk < dl)%Z /\ (clk + d <= clk')%Z | Some _ => True end
  | @RFs Y c => match c in FsE Z return Z -> Prop with Now => fun x => (clk <= x <= clk')%Z | _ => fun _ => True end
  | _ => fun _ => True
  end (ev_answer e).

Fixpoint timed (clk : Z) (t : list (ev RefE)) : Prop :=
  match t with
  | [] => True
  | e :: t' => exists clk', (clk <= clk')%Z /\ elapses e clk clk' /\ timed clk' t'
  end.

Lemma timed_app clk t t' : timed clk (t ++ t') -> timed clk t /\ exists clk', (clk <= clk')%Z /\ timed clk' t'.
Proof.
  revert clk; induction t as [|e t IH]; intros clk; [intros Ht; split; [done|by exists clk]|].
  intros (c1 & H1' & H2' & (H3' & c2 & H4' & H5')%IH). split; [by exists c1|]. exists c2. split; [lia|done].
Qed.

Section Remote.
Context `{MapRange} `{NetUrl} `{Unstructured}.

Lemma create_post r req :
  post (create r req) (fun t c => t ≫= delete_of = [] /\ attempts_ok (t ≫= create_of) /\
    match c with Ok gn => created (t ≫= create_of) = [gn] | Err e => created (t ≫= create_of) = [] /\ e <> still_polling end).
Proof.
  unfold create. apply post_bind, post_call. intros alpha. apply post_ret. apply post_bind, post_call. intros c. apply post_ret.
  assert (forall x : GVR * (string + kube_err), attempts_ok [x]) as H1' by (intros x; split; [simpl; lia|done]).
  destruct c as [name|[e|e]]; [apply post_ret; split_and!; [done|apply H1'|done]| |apply post_ret; split_and!; [done|apply H1'|done..]].
  destruct alpha; [apply post_ret; split_and!; [done|apply H1'|done..]|].
  apply post_bind, post_call. intros c2. apply post_ret.
  assert (forall x, attempts_ok [(gvrResolutionRequestV1Beta1, inr (NoMatch e)); (gvrResolutionRequestV1Alpha1, x)]) as H2'.
  { intros x. split; [simpl; lia|]. intros a b [= <- <-]. split_and!; [done|by exists e|done]. }
  destruct c2 as [name|[e2|e2]]; [|apply post_ret; split_and!; [done|apply H2'|done..]..].
  apply post_bind, post_call. intros []. apply post_ret, post_ret. split_and!; [done|apply H2'|done].
Qed.

(** A round of polling only reads and waits. *)
Lemma poll_quiet r gvr name dl n :
  calls (fun X (e : RefE X) => match e with RemoteGet _ _ _ _ | WaitPoll _ _ => True | _ => False end) (poll r gvr name dl n).
Proof.
  induction n as [|n IH]; [done|]. cbn [poll]. apply calls_bind; [done|]. intros got.
  destruct (match got with Ok obj => readSucceededStatus obj | Err _ => Ok None end) as [[payload|]|e]; [done| |done].
  apply calls_bind; [done|]. by intros [[|e]|].
Qed.

Lemma poll_silent {B} (proj : ev RefE -> list B) r gvr name dl n t a :
  (forall X (e : RefE X) x, match e with RemoteGet _ _ _ _ | WaitPoll _ _ => True | _ => False end -> proj (Ev e x) = []) ->
  exec (poll r gvr name dl n) t a -> t ≫= proj = [].
Proof.
  intros Hp He. pose proof (calls_exec _ _ _ _ (poll_quiet r gvr name dl n) He) as Hf. clear He.
  induction Hf as [|[X e x] t Ht Hf IH]; [done|]. cbn. rewrite IH, app_nil_r. apply Hp, Ht.
Qed.

(** One round. *)
Lemma poll_round r gvr name dl n t a clk :
  exec (poll r gvr name dl (S n)) t a -> timed clk t ->
  a <> Err still_polling \/
  exists t' c1 c2, (clk <= c1 < dl)%Z /\ (c1 + rr_poll r <= c2)%Z /\ exec (poll r gvr name dl n) t' a /\ timed c2 t'.
Proof.
  intros He Ht. cbn [poll] in He. apply exec_bind in He as (t1 & t2 & got & -> & (x & t1' & -> & -> & <-) & He).
  destruct Ht as (c1 & Hc1 & _ & Ht). cbn [app] in Ht.
  destruct (match got with Ok obj => readSucceededStatus obj | Err _ => Ok None end) as [[payload|]|e] eqn:Es.
  - left. destruct He as [_ ->]. by destruct (base64_decode payload).
  - apply exec_bind in He as (t3 & t4 & w & -> & (y & t3' & -> & -> & <-) & He). destruct Ht as (c2 & Hc2 & Hel & Ht). cbn in Hel.
    destruct w as [[|e]|]; [left; by destruct He as [_ ->]..|]. right. exists t4, c1, c2. split_and!; [lia|lia|lia|done|done].
  - left. destruct He as [_ ->]. destruct got as [obj|e']; [|done].
    intros [= ->]. unfold readSucceededStatus in Es. destruct (NestedSlice obj _) as [l|]; [|done].
    clear -Es. induction l as [|v l IH]; [done|]. cbn [succeeded] in Es. destruct v; try (by apply IH).
    destruct (negb _); [by apply IH|]. destruct (String.eqb (string_field "status" m) "True"); [done|].
    destruct (String.eqb (string_field "status" m) "False"); [done|by apply IH].
Qed.

(** Enough rounds reach the deadline. *)
Lemma poll_returns r gvr name dl n t a clk :
  (dl <= clk + Z.of_nat n * rr_poll r)%Z -> (0 < rr_poll r)%Z ->
  exec (poll r gvr name dl (S n)) t a -> timed clk t -> a <> Err still_polling.
Proof.
  intros Hdl Hp. revert clk t Hdl; induction n as [|n IH]; intros clk t Hdl He Ht.
  - destruct (poll_round _ _ _ _ _ _ _ _ He Ht) as [?|(t' & c1 & c2 & H1' & H2' & _)]; [done|lia].
  - destruct (poll_round _ _ _ _ _ _ _ _ He Ht) as [?|(t' & c1 & c2 & H1' & H2' & He' & Ht')]; [done|].
    apply (IH c2 t'); [|done|done]. rewrite Nat2Z.inj_succ in Hdl. nia.
Qed.

(** The whole of a resolve: what is created is deleted, and a timed run ends. *)
Lemma remote_post r req :
  post (remote_Resolve r req) (fun t a =>
    attempts_ok (t ≫= create_of) /\ t ≫= delete_of = created (t ≫= create_of) /\
    ((0 < rr_poll r)%Z -> (0 <= rr_timeout r)%Z -> forall clk, timed clk t -> a <> Err still_polling)).
Proof.
  unfold remote_Resolve. destruct (negb (rr_dyn r)); [by apply post_ret; split_and!; [split; [simpl; lia|done]|..]|].
  apply post_try. intros t1 c He. pose proof (create_post r req t1 c He) as (Hd & Ha & Hc). destruct c as [[gvr name]|e].
  2:{ destruct Hc as [Hc He']. rewrite Hd, Hc. split_and!; [done..|]. intros _ _ clk _. congruence. }
  apply post_bind, post_fs. intros now. apply post_defer. intros t2 a He2. apply post_bind, post_call. intros x. apply post_ret, post_ret.
  assert (t2 ≫= create_of = [] /\ t2 ≫= delete_of = []) as [E1 E2].
  { split; (eapply poll_silent; [|exact He2]); intros X e y; by destruct e. }
  rewrite !bind_app, E1, E2, Hd. cbn. rewrite !app_nil_r, Hc. split_and!; [done..|].
  intros Hp Hto clk (_ & c1 & _ & (c2 & Hc2 & Hel & Ht))%timed_app. cbn in Hel. cbn [app] in Ht. apply timed_app in Ht as [Ht _].
  eapply (poll_returns r gvr name _ (Z.to_nat (rr_timeout r / rr_poll r) + 1)); [|done| |exact Ht].
  2:{ replace (S (Z.to_nat (rr_timeout r / rr_poll r) + 1)) with (poll_rounds r) by (unfold poll_rounds; lia). exact He2. }
  pose proof (Z.div_mod (rr_timeout r) (rr_poll r) ltac:(lia)). pose proof (Z.mod_pos_bound (rr_timeout r) (rr_poll r) Hp).
  pose proof (Z.div_pos (rr_timeout r) (rr_poll r) Hto Hp). rewrite Nat2Z.inj_add, Z2Nat.id by done. nia.
Qed.
End Remote.

(** a remote resolve leaves nothing behind.  Every ResolutionRequest it creates, and
    no other, is deleted on the way out, on success, failure, timeout and cancellation
    alike; at most one is created, in a second attempt only when the server does not know
    the preferred version. *)
Theorem remote_deletes `{MapRange} `{NetUrl} `{Unstructured} r req :
  post (remote_Resolve r req) (fun t _ =>
    t ≫= delete_of = created (t ≫= create_of) /\ length (created (t ≫= create_of)) <= 1 /\ attempts_ok (t ≫= create_of)).
Proof.
  eapply post_mono; [apply remote_post|]. intros t a (Ha & Hd & _). split_and!; [done| |done]. destruct Ha as [Hl Hab].
  destruct (t ≫= create_of) as [|c1 [|c2 [|]]]; simpl in *; [lia| | |lia].
  - unfold created. simpl. rewrite app_nil_r. destruct c1 as [g [n|e]]; simpl; lia.
  - destruct (Hab _ _ eq_refl) as (_ & [e He] & _). destruct c1 as [g1 x]. simpl in He. subst x. unfold created. simpl. rewrite app_nil_r.
    destruct c2 as [g2 [n|e2]]; simpl; lia.
Qed.

(** C29: polling ends.  With the options the constructor makes, a remote resolve that
    takes place in time (waits last as long as they should and none begins after the
    deadline) does not run out of the rounds the model gives it: it returns the bytes,
    the controller's failure, a timeout or the cancellation. *)
Theorem remote_returns `{MapRange} `{NetUrl} `{Unstructured} dyn ns timeout poll req t a clk :
  exec (remote_Resolve (NewRemoteResolverFromOptions dyn ns timeout poll) req) t a -> timed clk t -> a <> Err still_polling.
Proof.
  intros He Ht. destruct (remote_post _ _ _ _ He) as (_ & _ & Hret). apply (Hret) with clk; [| |done]; unfold NewRemoteResolverFromOptions; simpl;
    match goal with |- context [(?x <=? 0)%Z] => destruct (Z.leb_spec x 0); lia end.
Qed.

(** ** bundles: the first layer that matches *)
Definition matching (kind name : string) (ann : gmap string string) : Prop :=
  default "" (ann !! annotationName) = name /\ to_lower (default "" (ann !! annotationKind)) = kind /\ kind <> "".

#[export] Instance matching_dec kind name ann : Decision (matching kind name ann).
Proof. unfold matching. apply _. Defined.

Definition is_regular (f : LayerFile) : Prop := lf_Typeflag f ∈ ["0"; "000"]%char.

#[export] Instance is_regular_dec f : Decision (is_regular f).
Proof. unfold is_regular. apply _. Defined.

Lemma readFirstTarFile_spec files err :
  readFirstTarFile files err =
  match list_find is_regular files with
  | Some (_, f) => readLimited (lf_Body f) ("layer file " +:+ lf_Name f)
  | None => Err (default (lit "empty layer tar (no files)") err)
  end.
Proof.
  induction files as [|f files IH]; [by destruct err|]. cbn [readFirstTarFile list_find]. unfold decide.
  destruct (is_regular_dec f) as [Hr|Hr]; unfold is_regular in Hr.
  - destruct (Ascii.eqb_spec (lf_Typeflag f) "0"); [done|]. destruct (Ascii.eqb_spec (lf_Typeflag f) "000"); [done|]. exfalso. set_solver.
  - destruct (Ascii.eqb_spec (lf_Typeflag f) "0"); [exfalso; set_solver|]. destruct (Ascii.eqb_spec (lf_Typeflag f) "000"); [exfalso; set_solver|].
    simpl. rewrite IH. by destruct (list_find _ files) as [[]|].
Qed.

Lemma find_layer_spec kind name i anns layers found :
  length anns = length layers ->
  match list_find (matching kind name) anns with
  | Some (j, _) => exists layer, layers !! j = Some layer /\
      find_layer kind name i anns layers found =
        (files ← wrap_err "layer %d uncompressed: %w" [TInt (Z.of_nat (i + j))] layer;
         wrap_err "layer %d tar: %w" [TInt (Z.of_nat (i + j))] (readFirstTarFile files.1 files.2))
  | None => is_ok (find_layer kind name i anns layers found) = false
  end.
Proof.
  revert i layers found; induction anns as [|ann anns IH]; intros i [|layer layers] found; simpl; try done; [by destruct found|].
  intros [= Hl]. destruct (decide (matching kind name ann)) as [(M1 & M2 & M3)|Hn].
  - exists layer. split; [done|]. rewrite M1, M2, !String.eqb_refl, (proj2 (String.eqb_neq kind "")) by done. simpl. by rewrite Nat.add_0_r.
  - assert (negb (String.eqb (default "" (ann !! annotationName)) name) || String.eqb (to_lower (default "" (ann !! annotationKind))) "" ||
            negb (String.eqb (to_lower (default "" (ann !! annotationKind))) kind) = true) as ->.
    { apply not_false_iff_true. intros [[E1 E2]%orb_false_iff E3]%orb_false_iff. apply Hn.
      apply negb_false_iff, String.eqb_eq in E1, E3. apply String.eqb_neq in E2. split_and!; congruence. }
    specialize (IH (S i) layers (if String.eqb (default "" (ann !! annotationName)) "" then found
      else found ++ [to_lower (default "" (ann !! annotationKind)) +:+ "/" +:+ default "" (ann !! annotationName)]) Hl).
    destruct (list_find (matching kind name) anns) as [[j a]|]; simpl; [|exact IH].
    destruct IH as (l & Hlj & Hf). exists l. split; [done|]. by rewrite Nat.add_succ_r.
Qed.

(** a bundle's resource is that of the first layer whose annotations have the name
    and, without regard to case, the kind asked for: the first regular file of that
    layer, within the size limit.  When no layer is like that the extraction fails. *)
Theorem extract_first_match img kind name anns layers :
  im_Manifest img = Ok anns -> im_Layers img = Ok layers -> length layers = length anns ->
  match list_find (matching kind name) anns with
  | None => exists e, extractTektonResource img kind name = Err e
  | Some (i, _) => exists layer, layers !! i = Some layer /\
      match layer with
      | Err _ => exists e, extractTektonResource img kind name = Err e
      | Ok (files, err) =>
        match list_find is_regular files with
        | None => exists e, extractTektonResource img kind name = Err e
        | Some (_, f) =>
            if decide ((Z.of_nat (String.length (lf_Body f).1) <= MaxResolvedBytes)%Z /\ (lf_Body f).2 = None)
            then extractTektonResource img kind name = Ok (lf_Body f).1
            else exists e, extractTektonResource img kind name = Err e
        end
      end
  end.
Proof.
  intros Hm Hl Hlen. unfold extractTektonResource. rewrite Hm, Hl. cbn [wrap_err mbind result_bind]. rewrite Hlen, Nat.eqb_refl.
  pose proof (find_layer_spec kind name 0 anns layers [] (eq_sym Hlen)) as Hs. destruct (list_find (matching kind name) anns) as [[i a]|].
  2:{ destruct (find_layer _ _ _ _ _ _) as [|e]; [done|by exists e]. }
  destruct Hs as (layer & Hi & ->). exists layer. split; [done|]. destruct layer as [[files err]|e]; [|by eexists]. cbn [wrap_err mbind result_bind fst snd].
  rewrite readFirstTarFile_spec. destruct (list_find is_regular files) as [[j f]|]; [|by eexists]. unfold readLimited.
  destruct (Z.ltb_spec MaxResolvedBytes (Z.of_nat (String.length (lf_Body f).1))); [rewrite decide_False by (intros [? _]; lia); by eexists|].
  destruct (lf_Body f).2 as [e|]; [rewrite decide_False by (by intros [_ ?]); by eexists|]. rewrite decide_True by (split; [lia|done]). done.
Qed.

(** ** Examples *)
Section Examples.
#[local] Existing Instance default_range.
#[local] Existing Instance no_url.
#[local] Existing Instance nested_objects.

Definition ex_done : object :=
  {["status" := VMap {["conditions" := VSlice [VMap {["type" := VString "Succeeded"; "status" := VString "True"]}];
                       "data" := VString "aGVsbG8="]}]}.

(** One failed read, one wait, and the answer. *)
Definition ex_remote_trace : list (ev RefE) :=
  let g := gvrResolutionRequestV1Beta1 in
  [Ev UseV1Alpha1 false;
   Ev (RemoteCreate g "default" (buildResolutionRequest "resolution.tekton.dev/v1beta1" ex_inline "default")) (inl "tkn-act-1");
   Ev (RFs Now) 7%Z;
   Ev (RemoteGet g "default" "tkn-act-1" 60000000007%Z) (Err (lit "unavailable"));
   Ev (WaitPoll 500000000%Z 60000000007%Z) None;
   Ev (RemoteGet g "default" "tkn-act-1" 60000000007%Z) (Ok ex_done);
   Ev (RemoteDelete g "default" "tkn-act-1") (Ok tt)].

Definition ex_remote_out : result Resolved := Ok (mkResolved "hello" "remote: default/tkn-act-1 (v1beta1)" "" false).

Lemma remote_returns_witness :
  exec (remote_Resolve (NewRemoteResolverFromOptions true "" 0 0) ex_inline) ex_remote_trace ex_remote_out /\
  timed 5 ex_remote_trace /\ ex_remote_out <> Err still_polling.
Proof.
  assert (exec (remote_Resolve (NewRemoteResolverFromOptions true "" 0 0) ex_inline) ex_remote_trace ex_remote_out) as He.
  { do 7 (hnf; eexists _, _; split; [reflexivity|]). split; reflexivity. }
  assert (timed 5 ex_remote_trace) as Ht.
  { do 2 (exists 5%Z; split; [lia|split; [done|]]). exists 9%Z. split; [lia|split; [cbn; lia|]]. exists 9%Z. split; [lia|split; [done|]].
    exists 600000000%Z. split; [lia|split; [cbn; lia|]]. do 2 (exists 600000000%Z; split; [lia|split; [done|]]). done. }
  split; [exact He|]. split; [exact Ht|]. exact (remote_returns true "" 0 0 ex_inline _ _ _ He Ht).
Defined.

Definition ex_anns : list (gmap string string) :=
  [{[annotationName := "t"; annotationKind := "Pipeline"]}; {[annotationName := "t"; annotationKind := "Task"]}].

Definition ex_layers : list (result (list LayerFile * option text)) :=
  [Err (lit "gone"); Ok ([mkLayerFile "d" "5" ("", None); mkLayerFile "t.yaml" "0" ("kind: Task", None)], None)].

Lemma extract_first_match_witness :
  extractTektonResource (mkImage (Ok ex_anns) (Ok ex_layers)) "task" "t" = Ok "kind: Task" /\
  exists layer, ex_layers !! 1 = Some layer /\
      match layer with
      | Err _ => exists e, extractTektonResource (mkImage (Ok ex_anns) (Ok ex_layers)) "task" "t" = Err e
      | Ok (files, err) =>
        match list_find is_regular files with
        | None => exists e, extractTektonResource (mkImage (Ok ex_anns) (Ok ex_layers)) "task" "t" = Err e
        | Some (_, f) =>
            if decide ((Z.of_nat (String.length (lf_Body f).1) <= MaxResolvedBytes)%Z /\ (lf_Body f).2 = None)
            then extractTektonResource (mkImage (Ok ex_anns) (Ok ex_layers)) "task" "t" = Ok (lf_Body f).1
            else exists e, extractTektonResource (mkImage (Ok ex_anns) (Ok ex_layers)) "task" "t" = Err e
        end
      end.
Proof.
  split; [vm_compute; reflexivity|].
  exact (extract_first_match (mkImage (Ok ex_anns) (Ok ex_layers)) "task" "t" ex_anns ex_layers eq_refl eq_refl eq_refl).
Defined.
End Examples.
