(* ===== verification/RunIndex.v ===== *)
(** * internal/runstore: the index of runs and the metadata of one

    index.go's data and lookups, liveness.go, meta.go's data and runid.go, with their
    JSON.  The ULID library is a parameter, as are this host's name and which of its
    processes are alive. *)

From S2P Require Import Prelude GoStrings GoTime Paths Json GoDate JsonText.

(** ** Parameters *)

(** github.com/oklog/ulid/v2's [ParseStrict]. *)
Class Ulid := { ParseStrict : string -> result unit }.

(** The names and processes of this host, which liveness.go asks for. *)
Class Host := { hostname : string; kill0 : Z -> bool }.

(** ** Entries *)
Record IndexEntry := mkIndexEntry {
  ie_Seq : Z;
  ie_ULID : string;
  ie_PipelineRef : string;
  ie_StartedAt : Z;
  ie_EndedAt : Z;
  ie_ExitCode : Z;
  ie_Status : string;
  ie_PID : Z;
  ie_Host : string;
}.

Definition zero_entry : IndexEntry := mkIndexEntry 0 "" "" zero_time zero_time 0 "" 0 "".

Definition set_seq (n : Z) (e : IndexEntry) : IndexEntry :=
  mkIndexEntry n (ie_ULID e) (ie_PipelineRef e) (ie_StartedAt e) (ie_EndedAt e) (ie_ExitCode e) (ie_Status e) (ie_PID e) (ie_Host e).

(** What [Finalize] writes. *)
Definition set_end (t code : Z) (status : string) (e : IndexEntry) : IndexEntry :=
  mkIndexEntry (ie_Seq e) (ie_ULID e) (ie_PipelineRef e) (ie_StartedAt e) t code status (ie_PID e) (ie_Host e).

Record indexFile := mkindexFile { if_NextSeq : Z; if_Entries : list IndexEntry }.

(** *** JSON *)
Definition int_json (z : Z) : json := JNum (itoa z).
Definition omit_0 (name : string) (z : Z) : list (string * json) := if (z =? 0)%Z then [] else [(name, int_json z)].

Definition entry_json (e : IndexEntry) : json :=
  JObj ([("seq", int_json (ie_Seq e)); ("ulid", JStr (ie_ULID e))]
        ++ omit_empty "pipeline_ref" (ie_PipelineRef e)
        ++ omit_zero "started_at" (ie_StartedAt e) ++ omit_zero "ended_at" (ie_EndedAt e)
        ++ [("exit_code", int_json (ie_ExitCode e))]
        ++ omit_empty "status" (ie_Status e) ++ omit_0 "pid" (ie_PID e) ++ omit_empty "host" (ie_Host e)).

Definition entry_fields : list (field IndexEntry) :=
  [("seq", int_field set_seq);
   ("ulid", str_field (fun s e => mkIndexEntry (ie_Seq e) s (ie_PipelineRef e) (ie_StartedAt e) (ie_EndedAt e) (ie_ExitCode e) (ie_Status e) (ie_PID e) (ie_Host e)));
   ("pipeline_ref", str_field (fun s e => mkIndexEntry (ie_Seq e) (ie_ULID e) s (ie_StartedAt e) (ie_EndedAt e) (ie_ExitCode e) (ie_Status e) (ie_PID e) (ie_Host e)));
   ("started_at", time_field (fun t e => mkIndexEntry (ie_Seq e) (ie_ULID e) (ie_PipelineRef e) t (ie_EndedAt e) (ie_ExitCode e) (ie_Status e) (ie_PID e) (ie_Host e)));
   ("ended_at", time_field (fun t e => mkIndexEntry (ie_Seq e) (ie_ULID e) (ie_PipelineRef e) (ie_StartedAt e) t (ie_ExitCode e) (ie_Status e) (ie_PID e) (ie_Host e)));
   ("exit_code", int_field (fun z e => mkIndexEntry (ie_Seq e) (ie_ULID e) (ie_PipelineRef e) (ie_StartedAt e) (ie_EndedAt e) z (ie_Status e) (ie_PID e) (ie_Host e)));
   ("status", str_field (fun s e => mkIndexEntry (ie_Seq e) (ie_ULID e) (ie_PipelineRef e) (ie_StartedAt e) (ie_EndedAt e) (ie_ExitCode e) s (ie_PID e) (ie_Host e)));
   ("pid", int_field (fun z e => mkIndexEntry (ie_Seq e) (ie_ULID e) (ie_PipelineRef e) (ie_StartedAt e) (ie_EndedAt e) (ie_ExitCode e) (ie_Status e) z (ie_Host e)));
   ("host", str_field (fun s e => mkIndexEntry (ie_Seq e) (ie_ULID e) (ie_PipelineRef e) (ie_StartedAt e) (ie_EndedAt e) (ie_ExitCode e) (ie_Status e) (ie_PID e) s))].

Definition index_json (f : indexFile) : json :=
  JObj [("next_seq", int_json (if_NextSeq f)); ("entries", JArr (map entry_json (if_Entries f)))].

(** An element is read into the one that is there, if any. *)
Fixpoint decode_entries (old : list IndexEntry) (l : list json) : option (list IndexEntry) :=
  match l with
  | [] => Some []
  | j :: l' => e ← decode_struct entry_fields (default zero_entry (head old)) j; es ← decode_entries (tail old) l'; Some (e :: es)
  end.

Definition index_fields : list (field indexFile) :=
  [("next_seq", int_field (fun z f => mkindexFile z (if_Entries f)));
   ("entries", fun j f => match j with JArr l => es ← decode_entries (if_Entries f) l; Some (mkindexFile (if_NextSeq f) es) | _ => None end)].

(** A time out of range makes the encoder fail. *)
Definition json_time (t : Z) : bool := IsZero t || has_json_year t.

Definition encode_index (f : indexFile) : result string :=
  if forallb (fun e => json_time (ie_StartedAt e) && json_time (ie_EndedAt e)) (if_Entries f) then Ok (Encode (index_json f))
  else Err (lit "Time.MarshalJSON: year outside of range [0,9999]").

Definition decode_error : text := lit "json: cannot decode".

Definition decode_index (s : string) : result indexFile :=
  match (j ← parse_json s; decode_struct index_fields (mkindexFile 0 []) j) with Some f => Ok f | None => Err decode_error end.

(** *** What [OpenIndex] makes of the file: [None] for a missing one. *)
Definition load_index (data : option string) : result indexFile :=
  match data with
  | None => Ok (mkindexFile 1 [])
  | Some "" => Ok (mkindexFile 1 [])
  | Some s =>
    f ← decode_index s;
    Ok (if (if_NextSeq f =? 0)%Z then mkindexFile (Z.of_nat (length (if_Entries f)) + 1) (if_Entries f) else f)
  end.

(** ** index.go: changes and lookups *)
Definition append_entry (e : IndexEntry) (f : indexFile) : Z * indexFile :=
  let seq := if_NextSeq f in
  (seq, mkindexFile (wrap64 (seq + 1)) (if_Entries f ++ [set_seq seq e])).

(** [None]: there is no such entry, and nothing is written. *)
Fixpoint update_entry (seq : Z) (mutator : IndexEntry -> IndexEntry) (l : list IndexEntry) : option (list IndexEntry) :=
  match l with
  | [] => None
  | e :: l' => if (ie_Seq e =? seq)%Z then Some (mutator e :: l') else cons e <$> update_entry seq mutator l'
  end.

Definition ErrNoRuns : text := Sentinel "runstore.ErrNoRuns".
Definition ErrNotFound : text := Sentinel "runstore.ErrNotFound".
Definition ErrAmbiguous : text := Sentinel "runstore.ErrAmbiguous".

Definition BySeq (seq : Z) (l : list IndexEntry) : result IndexEntry :=
  match List.find (fun e => (ie_Seq e =? seq)%Z) l with
  | Some e => Ok e
  | None => Err (Fmt "no run with seq %d: %w" [TInt seq; TErr ErrNotFound])
  end.

(** [strings.ToUpper]: of ASCII letters, and of the two other letters whose upper case
    is one; what it makes of further letters is not ASCII, as they are. *)
Definition upper_byte (a : ascii) : ascii :=
  let n := nat_of_ascii a in if (97 <=? n) && (n <=? 122) then ascii_of_nat (n - 32) else a.

Fixpoint to_upper (s : string) : string :=
  match s with
  | "" => ""
  | String a s' =>
    match a, s' with
    | "197"%char, String "191"%char t => String "S" (to_upper t)
    | "196"%char, String "177"%char t => String "I" (to_upper t)
    | _, _ => String (upper_byte a) (to_upper s')
    end
  end.

Definition candidate (e : IndexEntry) : string := "  #" +:+ itoa (ie_Seq e) +:+ " " +:+ ie_ULID e +:+ " " +:+ ie_PipelineRef e.

Definition ByULIDPrefix (prefix : string) (l : list IndexEntry) : result IndexEntry :=
  if String.eqb prefix "" then Err (lit "ulid prefix must not be empty")
  else
    match List.filter (fun e => has_prefix (ie_ULID e) (to_upper prefix)) l with
    | [] => Err (Fmt "no run matching ulid prefix %q: %w" [TStr prefix; TErr ErrNotFound])
    | [e] => Ok e
    | found => Err (Fmt "ulid prefix %q matches %d runs: %w; candidates:\n%s"
                      [TStr prefix; TInt (Z.of_nat (length found)); TErr ErrAmbiguous; TStr (join (String "010" "") (map candidate found))])
    end.

Definition Latest (l : list IndexEntry) : result IndexEntry :=
  match last l with Some e => Ok e | None => Err ErrNoRuns end.

(** ** liveness.go *)
Definition AbandonAfter : Z := 86400000000000.

(** [t.Sub(u)] stays within the int64 range. *)
Definition time_Sub (t u : Z) : Z := Z.max min_int (Z.min max_int (t - u)).

Definition Finalized (e : IndexEntry) : bool := negb (IsZero (ie_EndedAt e)).

Section Liveness.
Context `{Host}.

Definition processAlive (pid : Z) : bool := if (pid <=? 0)%Z then false else kill0 pid.

Definition Abandoned (now : Z) (e : IndexEntry) : bool :=
  if Finalized e then false
  else if (0 <? ie_PID e)%Z && negb (String.eqb (ie_Host e) "") && String.eqb (ie_Host e) hostname then negb (processAlive (ie_PID e))
  else IsZero (ie_StartedAt e) || (AbandonAfter <? time_Sub now (ie_StartedAt e))%Z.

Definition InFlight (now : Z) (e : IndexEntry) : bool := negb (Finalized e) && negb (Abandoned now e).

Definition EffectiveStatus (now : Z) (e : IndexEntry) : string :=
  if Finalized e then ie_Status e else if Abandoned now e then "unknown" else "running".
End Liveness.

(** ** meta.go *)
Record Meta := mkMeta {
  me_RunID : string;
  me_ULID : string;
  me_Seq : Z;
  me_WriterVersion : string;
  me_PipelineRef : string;
  me_StartedAt : Z;
  me_EndedAt : Z;
  me_ExitCode : Z;
  me_Status : string;
  me_Args : list string;
}.

Definition zero_meta : Meta := mkMeta "" "" 0 "" "" zero_time zero_time 0 "" [].

Definition meta_json (m : Meta) : json :=
  JObj ([("run_id", JStr (me_RunID m)); ("ulid", JStr (me_ULID m)); ("seq", int_json (me_Seq m)); ("writer_version", JStr (me_WriterVersion m))]
        ++ omit_empty "pipeline_ref" (me_PipelineRef m)
        ++ omit_zero "started_at" (me_StartedAt m) ++ omit_zero "ended_at" (me_EndedAt m)
        ++ [("exit_code", int_json (me_ExitCode m))]
        ++ omit_empty "status" (me_Status m)
        ++ (match me_Args m with [] => [] | l => [("args", JArr (map JStr l))] end)).

Definition meta_fields : list (field Meta) :=
  [("run_id", str_field (fun s m => mkMeta s (me_ULID m) (me_Seq m) (me_WriterVersion m) (me_PipelineRef m) (me_StartedAt m) (me_EndedAt m) (me_ExitCode m) (me_Status m) (me_Args m)));
   ("ulid", str_field (fun s m => mkMeta (me_RunID m) s (me_Seq m) (me_WriterVersion m) (me_PipelineRef m) (me_StartedAt m) (me_EndedAt m) (me_ExitCode m) (me_Status m) (me_Args m)));
   ("seq", int_field (fun z m => mkMeta (me_RunID m) (me_ULID m) z (me_WriterVersion m) (me_PipelineRef m) (me_StartedAt m) (me_EndedAt m) (me_ExitCode m) (me_Status m) (me_Args m)));
   ("writer_version", str_field (fun s m => mkMeta (me_RunID m) (me_ULID m) (me_Seq m) s (me_PipelineRef m) (me_StartedAt m) (me_EndedAt m) (me_ExitCode m) (me_Status m) (me_Args m)));
   ("pipeline_ref", str_field (fun s m => mkMeta (me_RunID m) (me_ULID m) (me_Seq m) (me_WriterVersion m) s (me_StartedAt m) (me_EndedAt m) (me_ExitCode m) (me_Status m) (me_Args m)));
   ("started_at", time_field (fun t m => mkMeta (me_RunID m) (me_ULID m) (me_Seq m) (me_WriterVersion m) (me_PipelineRef m) t (me_EndedAt m) (me_ExitCode m) (me_Status m) (me_Args m)));
   ("ended_at", time_field (fun t m => mkMeta (me_RunID m) (me_ULID m) (me_Seq m) (me_WriterVersion m) (me_PipelineRef m) (me_StartedAt m) t (me_ExitCode m) (me_Status m) (me_Args m)));
   ("exit_code", int_field (fun z m => mkMeta (me_RunID m) (me_ULID m) (me_Seq m) (me_WriterVersion m) (me_PipelineRef m) (me_StartedAt m) (me_EndedAt m) z (me_Status m) (me_Args m)));
   ("status", str_field (fun s m => mkMeta (me_RunID m) (me_ULID m) (me_Seq m) (me_WriterVersion m) (me_PipelineRef m) (me_StartedAt m) (me_EndedAt m) (me_ExitCode m) s (me_Args m)));
   ("args", fun j m => match j with JArr l => ss ← strings_of l; Some (mkMeta (me_RunID m) (me_ULID m) (me_Seq m) (me_WriterVersion m) (me_PipelineRef m) (me_StartedAt m) (me_EndedAt m) (me_ExitCode m) (me_Status m) ss) | _ => None end)].

Definition encode_meta (m : Meta) : result string :=
  if json_time (me_StartedAt m) && json_time (me_EndedAt m) then Ok (Encode (meta_json m))
  else Err (lit "Time.MarshalJSON: year outside of range [0,9999]").

Definition decode_meta (s : string) : result Meta :=
  match (j ← parse_json s; decode_struct meta_fields zero_meta j) with Some m => Ok m | None => Err decode_error end.

(** ** runid.go *)
Definition ParseRunID `{Ulid} (s : string) : result string :=
  match ParseStrict s with Err e => Err (Fmt "invalid run id %q: %w" [TStr s; TErr e]) | Ok _ => Ok s end.

(** ** Reading back what was written *)
Lemma json_time_year t : json_time t = true -> has_json_year t = true.
Proof. unfold json_time, IsZero. intros [->%Z.eqb_eq|?]%orb_true_iff; [by vm_compute|done]. Qed.

Definition in_int (z : Z) : Prop := (min_int <= z <= max_int)%Z.

Definition wf_entry (e : IndexEntry) : Prop :=
  in_int (ie_Seq e) /\ in_int (ie_ExitCode e) /\ in_int (ie_PID e) /\
  Forall (fun s => valid_utf8 s = true) [ie_ULID e; ie_PipelineRef e; ie_Status e; ie_Host e] /\
  json_time (ie_StartedAt e) = true /\ json_time (ie_EndedAt e) = true.

Lemma decode_fields_omit_0 {T} (fields : list (field T)) n set z x l :
  field_named fields n = Some (n, int_field set) -> in_int z -> (z = 0%Z -> set z x = x) ->
  decode_fields fields (Some x) (omit_0 n z ++ l) = decode_fields fields (Some (set z x)) l.
Proof.
  intros Hn Hz H0. unfold omit_0. destruct (Z.eqb_spec z 0) as [E|E]; [by rewrite H0|]. by apply decode_fields_int.
Qed.

(** The setters applied so far, reduced. *)
Ltac entry_red :=
  cbn beta iota delta [set_seq zero_entry ie_Seq ie_ULID ie_PipelineRef ie_StartedAt ie_EndedAt ie_ExitCode ie_Status ie_PID ie_Host].

Lemma IsZero_eq t : IsZero t = true -> t = zero_time.
Proof. unfold IsZero. by intros ->%Z.eqb_eq. Qed.

Lemma decode_entry e : wf_entry e -> decode_struct entry_fields zero_entry (entry_json e) = Some e.
Proof.
  intros (H1 & H2 & H3 & _ & H4 & H5). unfold entry_json, int_json.
  change (decode_struct entry_fields zero_entry (JObj ?l)) with (decode_fields entry_fields (Some zero_entry) l). cbn [app].
  erewrite decode_fields_int; [|reflexivity|done]. entry_red.
  erewrite decode_fields_cons; [|reflexivity|done|reflexivity]. entry_red.
  erewrite decode_fields_omit_empty; [|reflexivity|by intros ->]. entry_red.
  erewrite decode_fields_omit_zero; [|reflexivity|by apply json_time_year|by intros ->%IsZero_eq]. entry_red.
  erewrite decode_fields_omit_zero; [|reflexivity|by apply json_time_year|by intros ->%IsZero_eq]. entry_red. cbn [app].
  erewrite decode_fields_int; [|reflexivity|done]. entry_red.
  erewrite decode_fields_omit_empty; [|reflexivity|by intros ->]. entry_red.
  erewrite decode_fields_omit_0; [|reflexivity|done|by intros ->]. entry_red.
  rewrite <-(app_nil_r (omit_empty _ _)). erewrite decode_fields_omit_empty; [|reflexivity|by intros ->]. entry_red.
  unfold decode_fields. cbn [foldl]. by destruct e.
Qed.

(** Documents of small height. *)
Lemma Forall_omit (P : string * json -> Prop) n s : P (n, JStr s) -> Forall P (omit_empty n s).
Proof. intros HP. unfold omit_empty. destruct (String.eqb s ""); by repeat constructor. Qed.
Lemma Forall_omit_zero (P : string * json -> Prop) n t : P (n, JStr (format_time t)) -> Forall P (omit_zero n t).
Proof. intros HP. unfold omit_zero. destruct (IsZero t); by repeat constructor. Qed.
Lemma Forall_omit_0 (P : string * json -> Prop) n z : P (n, int_json z) -> Forall P (omit_0 n z).
Proof. intros HP. unfold omit_0. destruct (z =? 0)%Z; by repeat constructor. Qed.

Lemma entry_json_wf e : wf_entry e -> wf_json (entry_json e) /\ height (entry_json e) <= 1.
Proof.
  intros (H1 & H2 & H3 & Hs & H4 & H5). assert (forall z, wf_json (int_json z)) as Hi by (intros z; cbn; by exists z).
  do 4 (apply Forall_cons in Hs as [? Hs]).
  assert (Forall (fun kv => valid_utf8 kv.1 = true /\ wf_json kv.2 /\ height kv.2 <= 0) 
    ([("seq", int_json (ie_Seq e)); ("ulid", JStr (ie_ULID e))]
        ++ omit_empty "pipeline_ref" (ie_PipelineRef e)
        ++ omit_zero "started_at" (ie_StartedAt e) ++ omit_zero "ended_at" (ie_EndedAt e)
        ++ [("exit_code", int_json (ie_ExitCode e))]
        ++ omit_empty "status" (ie_Status e) ++ omit_0 "pid" (ie_PID e) ++ omit_empty "host" (ie_Host e))) as Hf.
  { repeat (apply Forall_app; split); try apply Forall_omit; try apply Forall_omit_zero; try apply Forall_omit_0;
      repeat (apply Forall_cons; split); try apply Forall_nil; cbn beta; try exact I; split_and!; try done; try apply Hi; by apply format_time_utf8, json_time_year. }
  split.
  - apply wf_obj. eapply Forall_impl; [exact Hf|]. naive_solver.
  - apply height_obj_le. eapply Forall_impl; [exact Hf|]. naive_solver.
Qed.

Definition wf_index (f : indexFile) : Prop := in_int (if_NextSeq f) /\ Forall wf_entry (if_Entries f).

Ltac meta_red :=
  cbn beta iota delta [zero_meta me_RunID me_ULID me_Seq me_WriterVersion me_PipelineRef me_StartedAt me_EndedAt me_ExitCode me_Status me_Args].

(** The index is read back as it was. *)
Lemma decode_encode_index f s : wf_index f -> encode_index f = Ok s -> decode_index s = Ok f.
Proof.
  intros [Hn He]. unfold encode_index. destruct (forallb _ _); [|done]. intros [= <-]. unfold decode_index.
  assert (wf_json (index_json f) /\ height (index_json f) <= 3) as [Hw Hh].
  { rewrite Forall_forall in He. split.
    - apply wf_obj, Forall_cons. split; [split; [done|by exists (if_NextSeq f)]|]. apply Forall_singleton. split; [done|].
      apply wf_arr, Forall_map, Forall_forall. intros e Hin. by apply entry_json_wf, He.
    - apply height_obj_le, Forall_cons. split; [cbn; lia|]. apply Forall_singleton.
      apply height_arr_le, Forall_map, Forall_forall. intros e Hin. by apply entry_json_wf, He. }
  rewrite (proj2 (parse_print _ Hw ltac:(unfold max_depth; lia))). cbn [mbind option_bind]. unfold index_json.
  change (decode_struct index_fields (mkindexFile 0 []) (JObj ?l)) with (decode_fields index_fields (Some (mkindexFile 0 [])) l).
  unfold int_json. erewrite decode_fields_int; [|reflexivity|done].
  assert (decode_entries [] (map entry_json (if_Entries f)) = Some (if_Entries f)) as Hd.
  { clear Hw Hh. induction (if_Entries f) as [|e l IH]; [done|]. apply Forall_cons in He as [He Hl]. cbn [map decode_entries head tail default].
    rewrite decode_entry by done. cbn [mbind option_bind]. by rewrite (IH Hl). }
  erewrite decode_fields_cons; [|reflexivity|done|cbn; by rewrite Hd]. cbn. by destruct f.
Qed.

Definition wf_meta (m : Meta) : Prop :=
  in_int (me_Seq m) /\ in_int (me_ExitCode m) /\
  Forall (fun s => valid_utf8 s = true) (me_RunID m :: me_ULID m :: me_WriterVersion m :: me_PipelineRef m :: me_Status m :: me_Args m) /\
  json_time (me_StartedAt m) = true /\ json_time (me_EndedAt m) = true.

(** So is the metadata. *)
Lemma decode_encode_meta m s : wf_meta m -> encode_meta m = Ok s -> decode_meta s = Ok m.
Proof.
  intros (H1 & H2 & Hs & H4 & H5). unfold encode_meta. rewrite H4, H5. intros [= <-]. unfold decode_meta.
  assert (forall z, wf_json (int_json z)) as Hi by (intros z; cbn; by exists z). do 5 (apply Forall_cons in Hs as [? Hs]).
  set (l := [("run_id", JStr (me_RunID m)); ("ulid", JStr (me_ULID m)); ("seq", int_json (me_Seq m)); ("writer_version", JStr (me_WriterVersion m))]
        ++ omit_empty "pipeline_ref" (me_PipelineRef m)
        ++ omit_zero "started_at" (me_StartedAt m) ++ omit_zero "ended_at" (me_EndedAt m)
        ++ [("exit_code", int_json (me_ExitCode m))]
        ++ omit_empty "status" (me_Status m)
        ++ (match me_Args m with [] => [] | l => [("args", JArr (map JStr l))] end)).
  assert (Forall (fun kv => valid_utf8 kv.1 = true /\ wf_json kv.2 /\ height kv.2 <= 1) l) as Hf.
  { assert (wf_json (JArr (map JStr (me_Args m))) /\ height (JArr (map JStr (me_Args m))) <= 1) as [Ha1 Ha2].
    { split; [apply wf_arr, Forall_map; exact Hs|apply height_arr_le, Forall_map, Forall_forall; intros x Hx; cbn; lia]. }
    unfold l. repeat (apply Forall_app; split); try apply Forall_omit; try apply Forall_omit_zero;
      [| | | | | |destruct (me_Args m) eqn:Ea]; repeat (apply Forall_cons; split); try apply Forall_nil; cbn beta; try exact I; split_and!; try done; try apply Hi;
      try (cbn; lia); by apply format_time_utf8, json_time_year. }
  assert (wf_json (JObj l) /\ height (JObj l) <= 2) as [Hw Hh].
  { split; [apply wf_obj|apply height_obj_le]; (eapply Forall_impl; [exact Hf|]); naive_solver. }
  unfold meta_json. fold l. rewrite (proj2 (parse_print _ Hw ltac:(unfold max_depth; lia))). cbn [mbind option_bind].
  change (decode_struct meta_fields zero_meta (JObj l)) with (decode_fields meta_fields (Some zero_meta) l). unfold l, int_json. cbn [app].
  do 2 (erewrite decode_fields_cons; [|reflexivity|done|reflexivity]; meta_red).
  erewrite decode_fields_int; [|reflexivity|done]. meta_red.
  erewrite decode_fields_cons; [|reflexivity|done|reflexivity]. meta_red.
  erewrite decode_fields_omit_empty; [|reflexivity|by intros ->]. meta_red.
  erewrite decode_fields_omit_zero; [|reflexivity|by apply json_time_year|by intros ->%IsZero_eq]. meta_red.
  erewrite decode_fields_omit_zero; [|reflexivity|by apply json_time_year|by intros ->%IsZero_eq]. meta_red. cbn [app].
  erewrite decode_fields_int; [|reflexivity|done]. meta_red.
  erewrite decode_fields_omit_empty; [|reflexivity|by intros ->]. meta_red.
  destruct (me_Args m) as [|a args] eqn:Ea; [unfold decode_fields; cbn [foldl]; by destruct m; simpl in *; subst|].
  erewrite decode_fields_cons; [|reflexivity|done|cbn beta iota; unfold strings_of; rewrite mapM_as_string; reflexivity].
  unfold decode_fields; cbn [foldl]. by destruct m; simpl in *; subst.
Qed.
