(* ===== verification/RunStore.v ===== *)
(** * internal/runstore: the store of runs

    index.go's file handling, store.go and gc.go as programs over the calls of [Fs], the
    lock file, temporary files and the sources of new run ids. *)

From S2P Require Import Prelude GoStrings GoTime Paths Effects Fs Json GoDate JsonText RunIndex.

(** ** Calls *)
Inductive StoreE : Type -> Type :=
  | SFs {X} (e : FsE X) : StoreE X
  | OpenLock (p : string) : StoreE (unit + errno)           (* os.OpenFile(p, O_RDWR|O_CREATE) *)
  | Flock : StoreE (unit + errno)                           (* waits for the exclusive lock *)
  | Unlock : StoreE unit                                    (* LOCK_UN and Close; the error is not looked at *)
  | CloseLock : StoreE unit
  | CreateTemp (dir pattern : string) : StoreE (string + errno)
  | WriteTemp (name data : string) : StoreE (unit + errno)
  | SyncTemp (name : string) : StoreE (unit + errno)
  | CloseTemp (name : string) : StoreE (unit + errno)
  | NewULID (now : Z) : StoreE string
  | Getpid : StoreE Z
  | Warn (msg : text) : StoreE unit.

Abbreviation store := (prog StoreE).

Definition sfs {A} (p : prog FsE A) : store A := hoist (fun X => @SFs X) p.

(** [if err := ...; err != nil { tmp.Close(); os.Remove(tmp); return err }]. *)
Definition or_discard (close : bool) (tmp : string) (r : unit + errno) (k : store (result unit)) : store (result unit) :=
  match r with
  | inl _ => k
  | inr e =>
    _ ← (if close then _ ← call (CloseTemp tmp); Ret tt else Ret tt);
    _ ← sfs (ignore (call (Remove tmp)));
    Ret (Err (errno_text e))
  end.

(** ** index.go: the file *)

(** [Index]: the directory and the data; the lock is held while there is one. *)
Record Index := mkIndex { ix_dir : string; ix_data : indexFile }.

Definition index_path (dir : string) : string := Join [dir; "index.json"].

(** [flush]. *)
Definition flush (i : Index) : store (result unit) :=
  do! tmp ← fails (call (CreateTemp (ix_dir i) ".index-*.tmp"));
  match encode_index (ix_data i) with
  | Err e => _ ← call (CloseTemp tmp); _ ← sfs (ignore (call (Remove tmp))); Ret (Err e)
  | Ok s =>
    w ← call (WriteTemp tmp s);
    or_discard true tmp w (
      y ← call (SyncTemp tmp);
      or_discard true tmp y (
        c ← call (CloseTemp tmp);
        or_discard false tmp c (sfs (fails (call (Rename tmp (index_path (ix_dir i))))))))
  end.

Definition OpenIndex (stateDir : string) : store (result Index) :=
  do! _ ← wrapP "mkdir state-dir: %w" [] (sfs (fails (call (MkdirAll (Join [stateDir; "runs"]) 493))));
  do! _ ← wrapP "open lock file: %w" [] (fails (call (OpenLock (Join [stateDir; "index.lock"]))));
  l ← call Flock;
  match l with
  | inr e => _ ← call CloseLock; Ret (Err (Fmt "lock index: %w" [TErr (errno_text e)]))
  | inl _ =>
    d ← sfs (call (ReadFile (index_path stateDir)));
    let f :=
      match d with
      | inr (OtherErr e) => Err (Fmt "read index: %w" [TErr e])
      | inr (NotExist _) => load_index None
      | inl data => wrap_err "decode index: %w" [] (load_index (Some data))
      end in
    match f with
    | Err e => _ ← call Unlock; Ret (Err e)
    | Ok f => Ret (Ok (mkIndex stateDir f))
    end
  end.

Definition Close : store unit := call Unlock.

Definition Append (i : Index) (e : IndexEntry) : store (result Z * Index) :=
  let '(seq, f) := append_entry e (ix_data i) in
  let i := mkIndex (ix_dir i) f in
  r ← flush i;
  Ret (match r with Ok _ => Ok seq | Err x => Err x end, i).

Definition Update (i : Index) (seq : Z) (mutator : IndexEntry -> IndexEntry) : store (result unit * Index) :=
  match update_entry seq mutator (if_Entries (ix_data i)) with
  | None => Ret (Ok tt, i)
  | Some l => let i := mkIndex (ix_dir i) (mkindexFile (if_NextSeq (ix_data i)) l) in r ← flush i; Ret (r, i)
  end.

Definition replaceEntries (i : Index) (l : list IndexEntry) : store (result unit) :=
  flush (mkIndex (ix_dir i) (mkindexFile (if_NextSeq (ix_data i)) l)).

Definition ReadIndexEntries (stateDir : string) : store (result (list IndexEntry)) :=
  d ← sfs (call (ReadFile (index_path stateDir)));
  Ret (match d with
       | inr (NotExist _) => Ok []
       | inr (OtherErr e) => Err (Fmt "read index: %w" [TErr e])
       | inl "" => Ok []
       | inl data => f ← wrap_err "decode index: %w" [] (decode_index data); Ok (if_Entries f)
       end).

(** ** meta.go *)
Definition WriteMeta (path : string) (m : Meta) : store (result unit) :=
  let dir := Dir path in
  do! _ ← wrapP "mkdir %s: %w" [TStr dir] (sfs (fails (call (MkdirAll dir 493))));
  do! tmp ← fails (call (CreateTemp dir ".meta-*.tmp"));
  match encode_meta m with
  | Err e => _ ← call (CloseTemp tmp); _ ← sfs (ignore (call (Remove tmp))); Ret (Err e)
  | Ok s =>
    w ← call (WriteTemp tmp s);
    or_discard true tmp w (
      c ← call (CloseTemp tmp);
      or_discard false tmp c (sfs (fails (call (Rename tmp path)))))
  end.

(** The file holds one value. *)
Definition ReadMeta (path : string) : store (result Meta) :=
  do! d ← sfs (fails (call (ReadFile path)));
  Ret (wrap_err "decode meta %s: %w" [TStr path] (decode_meta d)).

(** ** statedir.go: from the environment; unset variables read as [""] *)
Section StateDir.
Variable Getenv : string -> string.

(** os.UserHomeDir and os.TempDir on Unix. *)
Definition UserHomeDir : option string := if String.eqb (Getenv "HOME") "" then None else Some (Getenv "HOME").
Definition TempDir : string := if String.eqb (Getenv "TMPDIR") "" then "/tmp" else Getenv "TMPDIR".

Definition ResolveStateDir (flag : string) : string :=
  if negb (String.eqb flag "") then flag
  else if negb (String.eqb (Getenv "TKN_ACT_STATE_DIR") "") then Getenv "TKN_ACT_STATE_DIR"
  else if negb (String.eqb (Getenv "XDG_DATA_HOME") "") then Join [Getenv "XDG_DATA_HOME"; "tkn-act"]
  else match UserHomeDir with
       | Some home => Join [home; ".local"; "share"; "tkn-act"]
       | None => Join [TempDir; "tkn-act"]
       end.
End StateDir.

(** ** store.go *)
Record Store := mkStore { st_dir : string; st_writerVersion : string; st_readOnly : bool }.

Definition Open (dir writerVersion : string) : store (result Store) :=
  do! _ ← wrapP "mkdir state-dir: %w" [] (sfs (fails (call (MkdirAll (Join [dir; "runs"]) 493))));
  Ret (Ok (mkStore dir writerVersion false)).

Definition OpenReadOnly (dir : string) : store (Store + errno) :=
  r ← sfs (call (Stat (Join [dir; "runs"])));
  Ret (match r with inl _ => inl (mkStore dir "" true) | inr e => inr e end).

Record Run := mkRun {
  rn_ID : string;
  rn_Seq : Z;
  rn_Dir : string;
  rn_meta : Meta;
  rn_store : Store;
}.

(** The work under the index lock, and [defer idx.Close()]. *)
Definition with_index {A} (dir : string) (body : Index -> store (result A)) : store (result A) :=
  do! idx ← OpenIndex dir;
  defer_ Close (body idx).

Section Store.
Context `{Host} `{Ulid}.

Definition NewRun (s : Store) (now : Z) (pipelineRef : string) (args : list string) : store (result Run) :=
  with_index (st_dir s) (fun idx =>
    id ← call (NewULID now);
    let runDir := Join [st_dir s; "runs"; id] in
    do! _ ← wrapP "mkdir run-dir: %w" [] (sfs (fails (call (MkdirAll runDir 493))));
    pid ← call Getpid;
    '(r, _) ← Append idx (mkIndexEntry 0 id pipelineRef now zero_time 0 "" pid hostname);
    match r with
    | Err e => Ret (Err e)
    | Ok seq =>
      let m := mkMeta id id seq (st_writerVersion s) pipelineRef now zero_time 0 "" args in
      do! _ ← WriteMeta (Join [runDir; "meta.json"]) m;
      Ret (Ok (mkRun id seq runDir m s))
    end).

Definition EventsPath (r : Run) : string := Join [rn_Dir r; "events.jsonl"].

Definition Finalize (r : Run) (endt exitCode : Z) (status : string) : store (result unit) :=
  let m := rn_meta r in
  let m := mkMeta (me_RunID m) (me_ULID m) (me_Seq m) (me_WriterVersion m) (me_PipelineRef m) (me_StartedAt m) endt exitCode status (me_Args m) in
  do! _ ← WriteMeta (Join [rn_Dir r; "meta.json"]) m;
  with_index (st_dir (rn_store r)) (fun idx => '(x, _) ← Update idx (rn_Seq r) (set_end endt exitCode status); Ret x).

Definition looksLikeSeq (s : string) : bool :=
  let digits t := match t with
    | "" => false
    | String "0"%char (String _ _) => false
    | _ => str_all is_digit t
    end in
  match s with
  | String "-"%char s' => digits s'
  | _ => digits s
  end.

(** What [Atoi] gives when its error is dropped: the nearest int on overflow. *)
Definition Atoi_value (s : string) : Z :=
  match atoi s with
  | Some z => z
  | None => match s with String "-"%char _ => min_int | _ => max_int end
  end.

(** The lookup in the entries read. *)
Definition lookup_run (id : string) (l : list IndexEntry) : result IndexEntry :=
  if String.eqb id "" || String.eqb id "latest" then Latest l
  else if looksLikeSeq id then
    let n := Atoi_value id in
    if (n <=? 0)%Z then Err (Fmt "run sequence number must be positive (got %d): %w" [TInt n; TErr ErrNotFound])
    else BySeq n l
  else ByULIDPrefix id l.

Definition checked (r : result IndexEntry) : result IndexEntry :=
  e ← r;
  match ParseRunID (ie_ULID e) with
  | Err x => Err (Fmt "index entry seq %d: %w" [TInt (ie_Seq e); TErr x])
  | Ok _ => Ok e
  end.

Definition Resolve (s : Store) (id : string) : store (result IndexEntry) :=
  r ← (if st_readOnly s then do! l ← ReadIndexEntries (st_dir s); Ret (lookup_run id l)
       else with_index (st_dir s) (fun idx => Ret (lookup_run id (if_Entries (ix_data idx)))));
  Ret (checked r).

Definition RunDir (s : Store) (e : IndexEntry) : result string :=
  id ← ParseRunID (ie_ULID e);
  Ok (Join [st_dir s; "runs"; id]).

(** ** gc.go *)
Record PruneOptions := mkPruneOptions {
  po_KeepRuns : Z;
  po_KeepDays : Z;
  po_All : bool;
  po_Now : Z;
  po_Reserve : Z;
}.

Definition seq_less (a b : IndexEntry) : bool := (ie_Seq a <? ie_Seq b)%Z.

Definition valid_id (e : IndexEntry) : bool := is_ok (ParseRunID (ie_ULID e)).

(** [-time.Duration(days) * 24 * time.Hour], in int64 arithmetic. *)
Definition days_back (days : Z) : Z := wrap64 (wrap64 (wrap64 (- days) * 24) * 3600000000000).

(** The moment an entry's age is measured from. *)
Definition age_ref (e : IndexEntry) : Z := if IsZero (ie_EndedAt e) then ie_StartedAt e else ie_EndedAt e.

(** The entries, of those that may go, that the options give up. *)
Definition given_up (o : PruneOptions) (now : Z) (prunable : list IndexEntry) : list IndexEntry :=
  if po_All o then prunable
  else
    (if (0 <? po_KeepRuns o)%Z then
       let n := Z.max 0 (wrap64 (po_KeepRuns o - po_Reserve o)) in
       take (Z.to_nat (Z.of_nat (length prunable) - n)) prunable
     else []) ++
    (if (0 <? po_KeepDays o)%Z then
       List.filter (fun e => (age_ref e <? now + days_back (po_KeepDays o))%Z) prunable
     else []).

(** [keep], a map by sequence number: the last word of the loops. *)
Definition kept (gone : list IndexEntry) (e : IndexEntry) : bool :=
  negb (existsb (fun g => (ie_Seq g =? ie_Seq e)%Z) gone).

Definition invalid_warning (e : IndexEntry) : text :=
  match ParseRunID (ie_ULID e) with
  | Err x => Fmt "skipping index entry seq %d: %v" [TInt (ie_Seq e); TErr x]
  | Ok _ => no_text
  end.

(** One entry of the last loop. *)
Definition prune_step (s : Store) (gone : list IndexEntry) (acc : nat * list IndexEntry * list text) (e : IndexEntry) : store (nat * list IndexEntry * list text) :=
  let '(deleted, survivors, rmErrs) := acc in
  if kept gone e then Ret (deleted, survivors ++ [e], rmErrs)
  else
    match RunDir s e with
    | Err _ => Ret (deleted, survivors ++ [e], rmErrs)
    | Ok path =>
      r ← sfs (fails (call (RemoveAll path)));
      Ret (match r with
           | Err x => (deleted, survivors ++ [e], rmErrs ++ [Fmt "remove %s: %w" [TStr (ie_ULID e); TErr x]])
           | Ok _ => (S deleted, survivors, rmErrs)
           end)
    end.

(** errors.Join of the failures; [hasWarn]: opts.Warn is set. *)
Definition join_errors (n : nat) (errs : list text) : nat * option text :=
  match errs with [] => (n, None) | _ => (n, Some (Fmt "%s" (map TErr errs))) end.

Definition prune_index (s : Store) (o : PruneOptions) (hasWarn : bool) (now : Z) (idx : Index) : store (result (nat * option text)) :=
  let entries := stable_sort seq_less (if_Entries (ix_data idx)) in
  _ ← (if hasWarn then foldP (fun _ e => if valid_id e then Ret tt else call (Warn (invalid_warning e))) tt entries else Ret tt);
  let prunable := List.filter (fun e => valid_id e && negb (InFlight now e)) entries in
  let gone := given_up o now prunable in
  '(deleted, survivors, rmErrs) ← foldP (prune_step s gone) (0, [], []) entries;
  rmErrs ← (if (0 <? deleted)%nat then
              r ← replaceEntries idx survivors;
              Ret (match r with Ok _ => rmErrs | Err x => rmErrs ++ [Fmt "rewrite index: %w" [TErr x]] end)
            else Ret rmErrs);
  Ret (Ok (join_errors deleted rmErrs)).

Definition Prune (s : Store) (o : PruneOptions) (hasWarn : bool) : store (result (nat * option text)) :=
  now ← (if IsZero (po_Now o) then sfs (call Now) else Ret (po_Now o));
  with_index (st_dir s) (prune_index s o hasWarn now).
End Store.
