(* ===== verification/RunStoreProps.v ===== *)
(** * The store on a file system

    The calls of the store answered by the tree of [Fs]: temporary files get fresh names,
    the lock is free.  What each operation makes of index.json, at the end and after any
    number of its calls. *)

From S2P Require Import Prelude GoStrings GoTime Paths Effects Fs Json GoDate JsonText RunIndex RunStore.

(** os.CreateTemp: a new name after the pattern. *)
Class TempFiles := {
  temp_name : tree -> path -> string -> string;
  temp_normal f k pat : normal (temp_name f k pat);
  temp_tmp f k pat : has_suffix (temp_name f k pat) ".tmp" = true;
  temp_fresh f k pat : f !! child k (temp_name f k pat) = None;
}.

Section World.
Context `{TempFiles}.

(** The file system, the run ids to come and the process id. *)
Record store_world := mkstore_world { sw_fs : world; sw_ulids : nat -> string; sw_pid : Z }.

Definition with_fs {A} (w : store_world) (r : A * world) : A * store_world := (r.1, mkstore_world r.2 (sw_ulids w) (sw_pid w)).

Definition store_answer (X : Type) (e : StoreE X) (w : store_world) : X * store_world :=
  match e in StoreE X return X * store_world with
  | SFs c => with_fs w (fs_answer _ c (sw_fs w))
  | OpenLock p =>
    match find (w_tree (sw_fs w)) (key p) with
    | Some (File _ _ _) => (inl tt, w)
    | _ => with_fs w (fs_answer _ (WriteFile p "" 420) (sw_fs w))
    end
  | Flock => (inl tt, w)
  | Unlock | CloseLock => (tt, w)
  | CreateTemp dir pat =>
    let p := Join [dir; temp_name (w_tree (sw_fs w)) (key dir) pat] in
    let '(r, w') := with_fs w (fs_answer _ (WriteFile p "" 384) (sw_fs w)) in
    (match r with inl _ => inl p | inr e => inr e end, w')
  | WriteTemp name data => with_fs w (fs_answer _ (WriteFile name data 384) (sw_fs w))
  | SyncTemp _ | CloseTemp _ => (inl tt, w)
  | NewULID _ => (sw_ulids w 0, mkstore_world (sw_fs w) (fun n => sw_ulids w (S n)) (sw_pid w))
  | Getpid => (sw_pid w, w)
  | Warn _ => (tt, w)
  end.

Abbreviation run_store := (run store_answer).
Abbreviation files w := (w_tree (sw_fs w)).

Lemma run_sfs {A} (p : prog FsE A) w : run_store (sfs p) w = with_fs w (run_fs p (sw_fs w)).
Proof.
  unfold sfs. revert w; induction p as [a|X e k IH]; intros w; [by destruct w|]. simpl hoist. rewrite !run_call. cbn [store_answer].
  unfold with_fs at 1. destruct (fs_answer X e (sw_fs w)) as [x f']. cbn [fst snd]. rewrite IH. by destruct w.
Qed.

(** The bytes of a file of the world. *)
Definition bytes_at (w : store_world) (p : string) : option string := contents (files w) (key p).

(** The index on disk. *)
Definition disk_index (dir : string) (w : store_world) : result indexFile := load_index (bytes_at w (index_path dir)).

(** The state of the world after [n] calls. *)
Fixpoint after {A} (n : nat) (p : store A) (w : store_world) : store_world :=
  match n, p with
  | S n', Call e k => let '(x, w') := store_answer _ e w in after n' (k x) w'
  | _, _ => w
  end.

Lemma key_index dir : key (index_path dir) = child (key dir) "index.json".
Proof. apply key_child. by repeat split. Qed.

(** A call that changes no file of [K]. *)
Definition store_leaves (K : path -> Prop) {X} (e : StoreE X) : Prop :=
  match e with
  | SFs c => leaves_be K c
  | OpenLock p => ~ K (key p)
  | CreateTemp dir _ => forall n, normal n -> has_suffix n ".tmp" = true -> ~ K (child (key dir) n)
  | WriteTemp name _ => ~ K (key name)
  | _ => True
  end.

Lemma store_answer_frame (K : path -> Prop) X (e : StoreE X) w j :
  store_leaves K e -> K j -> contents (files (store_answer X e w).2) j = contents (files w) j.
Proof.
  intros He Hj. destruct e; cbn [store_leaves] in He; try done.
  - cbn [store_answer]. unfold with_fs. cbn [snd sw_fs]. by apply (answer_frame K).
  - cbn [store_answer]. assert (contents (files (with_fs w (fs_answer _ (WriteFile p "" 420) (sw_fs w))).2) j = contents (files w) j) as Hw
      by by apply (answer_frame K). by destruct (find _ _) as [[]|].
  - cbn [store_answer]. unfold with_fs. destruct (fs_answer _ _ _) as [r f'] eqn:E. cbn [fst snd sw_fs]. change f' with (r, f').2. rewrite <-E.
    apply (answer_frame K); [|done]. cbn [leaves_be]. rewrite key_child by apply temp_normal. apply He; [apply temp_normal|apply temp_tmp].
  - cbn [store_answer]. unfold with_fs. cbn [snd sw_fs]. by apply (answer_frame K).
Qed.

(** Neither the whole program nor a part of it changes them. *)
Lemma after_frame (K : path -> Prop) {A} n (p : store A) w j :
  calls (@store_leaves K) p -> K j -> contents (files (after n p w)) j = contents (files w) j.
Proof.
  intros Hp Hj. revert n w; induction p as [a|X e k IH]; intros [|n] w; try done. destruct Hp as [He Hk]. cbn [after].
  rewrite <-(store_answer_frame K X e w j He Hj). destruct (store_answer X e w) as [x w']. by apply IH.
Qed.

Lemma run_store_frame (K : path -> Prop) {A} (p : store A) w j :
  calls (@store_leaves K) p -> K j -> contents (files (run_store p w).2) j = contents (files w) j.
Proof.
  intros Hp Hj. revert w; induction p as [a|X e k IH]; intros w; [done|]. destruct Hp as [He Hk].
  rewrite run_call. rewrite <-(store_answer_frame K X e w j He Hj). destruct (store_answer X e w) as [x w']. by apply IH.
Qed.

Lemma sfs_leaves (K : path -> Prop) {A} (p : prog FsE A) : calls (@leaves_be K) p -> calls (@store_leaves K) (sfs p).
Proof. by apply (hoist_calls (fun X => @SFs X) (@leaves_be K) (@store_leaves K)). Qed.

(** What is known of every prefix holds of the composition. *)
Lemma after_bind {A B} (P : store_world -> Prop) (p : store A) (f : A -> store B) w :
  (forall n, P (after n p w)) -> (forall n, P (after n (f (run_store p w).1) (run_store p w).2)) ->
  forall n, P (after n (p ≫= f) w).
Proof.
  revert w; induction p as [a|X e k IH]; intros w Hp Hf n; [apply Hf|]. destruct n as [|n]; [apply (Hp 0)|].
  change (Call e k ≫= f) with (Call e (fun x => k x ≫= f)). cbn [after]. rewrite run_call in Hf.
  destruct (store_answer X e w) as [x w'] eqn:E. apply IH; [|exact Hf]. intros m. specialize (Hp (S m)). cbn [after] in Hp. by rewrite E in Hp.
Qed.

(** *** Renaming *)
Lemma answer_Rename a b f r f' :
  fs_answer _ (Rename a b) f = (r, f') ->
  match r with
  | inl _ => exists d, contents (w_tree f) (key a) = Some d /\
      forall j, contents (w_tree f') j = if decide (j = key b) then Some d else if decide (j = key a) then None else contents (w_tree f) j
  | inr _ => f' = f
  end.
Proof.
  cbn [fs_answer]. destruct (find (w_tree f) (key a)) as [[m t d|]|] eqn:Ea; [|by intros [= <- <-]..].
  assert (contents (w_tree f) (key a) = Some d) as Hd by (unfold contents; by rewrite (file_lookup _ _ _ _ _ Ea)).
  destruct (find (w_tree f) (key b)) as [[]|]; [|by intros [= <- <-]|];
    (destruct (_ && _); [|by intros [= <- <-]]; intros [= <- <-]; exists d; split; [done|]; intros j; cbn [w_tree];
     rewrite contents_set_node, contents_del_node; done).
Qed.

(** A program of one call. *)
Lemma after_one {A} (e : FsE (A + errno)) w n :
  after n (sfs (fails (call e))) w = w \/ after n (sfs (fails (call e))) w = (run_store (sfs (fails (call e))) w).2.
Proof.
  unfold fails, call, sfs. simpl hoist. destruct n as [|n]; [by left|right]. rewrite run_call. cbn [after].
  destruct (store_answer _ _ w) as [x w']. by destruct n.
Qed.

(** *** A file written by way of a temporary one *)
Section Flush.
Variables dir target : string.
Variable enc : result string.
Variable sync : bool.

(** The part after the temporary file is made. *)
Definition flush_tmp (tmp : string) : store (result unit) :=
  match enc with
  | Err e => _ ← call (CloseTemp tmp); _ ← sfs (ignore (call (Remove tmp))); Ret (Err e)
  | Ok s =>
    let finish := c ← call (CloseTemp tmp); or_discard false tmp c (sfs (fails (call (Rename tmp target)))) in
    w ← call (WriteTemp tmp s);
    or_discard true tmp w (if sync then y ← call (SyncTemp tmp); or_discard true tmp y finish else finish)
  end.

(** [flush], and the end of [WriteMeta]. *)
Definition atomic_write (pat : string) : store (result unit) := do! tmp ← fails (call (CreateTemp dir pat)); flush_tmp tmp.

(** What a flush makes of the files: nothing but the index, the new one or the old. *)
Definition flushed (s : option string) (w w' : store_world) : Prop :=
  forall j, ~ (exists nm, normal nm /\ has_suffix nm ".tmp" = true /\ j = child (key dir) nm) ->
    contents (files w') j = if decide (j = key target) then match s with Some d => Some d | None => contents (files w) j end else contents (files w) j.

(** During and after [p]. *)
Definition flushing (p : store (result unit)) (w0 w : store_world) : Prop :=
  (forall n, flushed None w0 (after n p w) \/ exists s, enc = Ok s /\ flushed (Some s) w0 (after n p w)) /\
  match (run_store p w).1 with
  | Ok _ => exists s, enc = Ok s /\ flushed (Some s) w0 (run_store p w).2
  | Err _ => flushed None w0 (run_store p w).2
  end.

Definition not_temp (j : path) : Prop := ~ (exists nm, normal nm /\ has_suffix nm ".tmp" = true /\ j = child (key dir) nm).

Lemma flushed_same w0 w : (forall j, not_temp j -> contents (files w) j = contents (files w0) j) -> flushed None w0 w.
Proof. intros Hw j Hj. rewrite (Hw j Hj). by case_decide. Qed.

(** Calls that leave all but temporary files alone, and an error at the end. *)
Lemma flushing_error p w0 w :
  (forall j, not_temp j -> contents (files w) j = contents (files w0) j) ->
  calls (@store_leaves not_temp) p -> post p (fun _ r => is_ok r = false) -> flushing p w0 w.
Proof.
  intros Hw Hp Hr. split.
  - intros n. left. apply flushed_same. intros j Hj. rewrite (after_frame not_temp) by done. by apply Hw.
  - pose proof (run_post store_answer p _ w Hr) as He. simpl in He. destruct (run_store p w) as [[a|e] w'] eqn:E; [done|]. cbn [fst snd].
    apply flushed_same. intros j Hj. change w' with (Err (A:=unit) e, w').2. rewrite <-E, (run_store_frame not_temp) by done. by apply Hw.
Qed.

(** One more quiet call before. *)
Lemma flushing_call {X} (e : StoreE X) (k : X -> store (result unit)) w0 w :
  (forall j, not_temp j -> contents (files w) j = contents (files w0) j) ->
  store_leaves not_temp e ->
  ((forall j, not_temp j -> contents (files (store_answer X e w).2) j = contents (files w0) j) ->
   flushing (k (store_answer X e w).1) w0 (store_answer X e w).2) ->
  flushing (x ← call e; k x) w0 w.
Proof.
  intros Hw He Hk. assert (forall j, not_temp j -> contents (files (store_answer X e w).2) j = contents (files w0) j) as Hw'.
  { intros j Hj. rewrite (store_answer_frame not_temp) by done. by apply Hw. }
  specialize (Hk Hw'). destruct Hk as [Hn Hr]. split.
  - intros [|n]; [left; by apply flushed_same|]. cbn. specialize (Hn n). destruct (store_answer X e w) as [x w']. exact Hn.
  - change (x ← call e; k x) with (Call e k). rewrite run_call. by destruct (store_answer X e w) as [x w'].
Qed.

Lemma discard_quiet close tmp e k : ~ not_temp (key tmp) -> calls (@store_leaves not_temp) (or_discard close tmp (inr e) k).
Proof.
  intros HK. unfold or_discard. apply calls_bind; [by destruct close|]. intros _. apply calls_bind; [by apply sfs_leaves; split|done].
Qed.

Lemma discard_fails close tmp e k : post (or_discard close tmp (inr e) k) (fun _ r => is_ok r = false).
Proof.
  unfold or_discard. apply post_bind. intros t1 [] _. apply post_bind. intros t2 [] _. by apply post_ret.
Qed.

(** The last step. *)
Lemma flushing_rename tmp s w0 w :
  enc = Ok s -> ~ not_temp (key tmp) -> contents (files w) (key tmp) = Some s ->
  (forall j, not_temp j -> contents (files w) j = contents (files w0) j) ->
  flushing (sfs (fails (call (Rename tmp target)))) w0 w.
Proof.
  intros Es HK Ht Hw.
  assert (match (run_store (sfs (fails (call (Rename tmp target)))) w).1 with
          | Ok _ => flushed (Some s) w0 (run_store (sfs (fails (call (Rename tmp target)))) w).2
          | Err _ => flushed None w0 (run_store (sfs (fails (call (Rename tmp target)))) w).2 end) as Hr.
  { rewrite run_sfs. unfold with_fs. cbn [fst snd]. rewrite run_fails. destruct (fs_answer _ _ (sw_fs w)) as [r f'] eqn:E.
    apply answer_Rename in E. destruct r as [[]|e]; cbn [fst snd].
    - destruct E as (d & Hd & Hj). rewrite Hd in Ht. injection Ht as ->. intros j Hn. cbn [sw_fs]. rewrite Hj. case_decide; [done|].
      rewrite decide_False by (intros ->; by apply HK). by apply Hw.
    - apply flushed_same. intros j Hj. cbn [sw_fs]. subst f'. by apply Hw. }
  split.
  - intros n. destruct (after_one (Rename tmp target) w n) as [->| ->]; [left; by apply flushed_same|].
    destruct (run_store _ w) as [[[]|e] w']; [right; by exists s|by left].
  - destruct (run_store _ w) as [[[]|e] w']; [by exists s|done].
Qed.

(** From the temporary file on. *)
Lemma flush_tmp_spec tmp w0 w :
  ~ not_temp (key tmp) -> is_Some (contents (files w) (key tmp)) ->
  (forall j, not_temp j -> contents (files w) j = contents (files w0) j) -> flushing (flush_tmp tmp) w0 w.
Proof.
  intros HK Hex Hw. unfold flush_tmp. destruct (enc) as [s|e] eqn:Es.
  2:{ apply flushing_error; [done| |].
      - apply calls_bind; [done|]. intros _. apply calls_bind; [by apply sfs_leaves; split|done].
      - apply post_bind. intros t1 x _. apply post_bind. intros t2 [] _. by apply post_ret. }
  apply flushing_call; [done|done|]. intros Hw1.
  destruct (store_answer _ (WriteTemp tmp s) w) as [x w1] eqn:E1. cbn [fst snd] in Hw1 |- *.
  destruct x as [[]|e]; [|apply flushing_error; [done|by apply discard_quiet|apply discard_fails]].
  assert (contents (files w1) (key tmp) = Some s) as Ht.
  { cbn [store_answer] in E1. destruct (fs_answer _ (WriteFile tmp s 384) (sw_fs w)) as [r f'] eqn:Ef. unfold with_fs in E1.
    cbn [fst snd] in E1. injection E1 as -> <-. cbn [sw_fs].
    assert (run_fs (fails (call (WriteFile tmp s 384))) (sw_fs w) = (Ok tt, f')) as Hr by by rewrite run_fails, Ef.
    rewrite (run_WriteFile _ _ _ _ _ Hr). by rewrite decide_True. }
  cbn [or_discard]. destruct sync.
  - apply flushing_call; [done|done|]. intros Hw2. cbn [store_answer fst snd or_discard].
    apply flushing_call; [done|done|]. intros Hw3. cbn [store_answer fst snd or_discard]. by apply (flushing_rename tmp s).
  - apply flushing_call; [done|done|]. intros Hw2. cbn [store_answer fst snd or_discard]. by apply (flushing_rename tmp s).
Qed.

Lemma atomic_write_spec pat w : flushing (atomic_write pat) w w.
Proof.
  set (nm := temp_name (files w) (key dir) pat). set (tmp := Join [dir; nm]).
  assert (key tmp = child (key dir) nm) as Hk by apply key_child, temp_normal.
  assert (~ not_temp (key tmp)) as HK.
  { intros HK. apply HK. exists nm. split_and!; [apply temp_normal|apply temp_tmp|done]. }
  change (atomic_write pat) with (x ← call (CreateTemp dir pat);
    do! tmp ← Ret (match x with inl a => Ok a | inr e => Err (errno_text e) end); flush_tmp tmp).
  apply flushing_call; [done| |].
  { cbn [store_leaves]. intros n Hn Hs Hnt. apply Hnt. by exists n. }
  cbn [store_answer]. fold nm tmp. unfold with_fs. cbn [fst snd]. destruct (fs_answer _ (WriteFile tmp "" 384) (sw_fs w)) as [r f'] eqn:E. cbn [fst snd].
  intros Hw. destruct r as [[]|e]; cbn.
  - change (prog_bind' _ (Ret (Ok tmp))) with (flush_tmp tmp).
    apply flush_tmp_spec; [done| |done].
    assert (run_fs (fails (call (WriteFile tmp "" 384))) (sw_fs w) = (Ok tt, f')) as Hr by by rewrite run_fails, E.
    cbn [sw_fs]. rewrite (run_WriteFile _ _ _ _ _ Hr), decide_True by done. by eexists.
  - apply flushing_error; [done|done|]. by apply post_ret.
Qed.
End Flush.

(** *** The index and the metadata are written so *)
Lemma flush_atomic_write i : flush i = atomic_write (ix_dir i) (index_path (ix_dir i)) (encode_index (ix_data i)) true ".index-*.tmp".
Proof. reflexivity. Qed.

Lemma WriteMeta_atomic_write p m :
  WriteMeta p m =
  do! _ ← wrapP "mkdir %s: %w" [TStr (Dir p)] (sfs (fails (call (MkdirAll (Dir p) 493))));
  atomic_write (Dir p) p (encode_meta m) false ".meta-*.tmp".
Proof. reflexivity. Qed.
End World.
