(* ===== verification/RunTrail.v ===== *)
(** * The store's programs and the index file, call by call

    What a program makes of the bytes of index.json, whatever call the process dies after;
    files written by way of temporary ones; work under the index lock. *)

From S2P Require Import Prelude GoStrings GoTime Paths Effects Fs Json GoDate JsonText RunIndex RunStore RunStoreProps.

Abbreviation run_store := (run store_answer).
Abbreviation files w := (w_tree (sw_fs w)).

Lemma store_leaves_mono (K K' : path -> Prop) X (e : StoreE X) : (forall j, K' j -> K j) -> store_leaves K e -> store_leaves K' e.
Proof.
  intros HK. destruct e as [X c| | | | | | | | | | | ]; simpl; try naive_solver. destruct c; simpl; naive_solver.
Qed.

(** The run ids still to come are of those that were. *)
Definition ids_kept (w w' : store_world) : Prop := sw_pid w' = sw_pid w /\ forall n, exists m, sw_ulids w' n = sw_ulids w m.

Lemma ids_kept_refl w : ids_kept w w.
Proof. split; [done|]. intros n. by exists n. Qed.

Lemma ids_kept_trans w w1 w2 : ids_kept w w1 -> ids_kept w1 w2 -> ids_kept w w2.
Proof. intros [H1 H2] [H3 H4]. split; [congruence|]. intros n. destruct (H4 n) as [m ->]. apply H2. Qed.

Lemma ids_answer `{TempFiles} X (e : StoreE X) w : ids_kept w (store_answer X e w).2.
Proof.
  assert (forall n, exists m, sw_ulids w n = sw_ulids w m) as Hr by (intros n; by exists n).
  destruct e; cbn [store_answer]; unfold with_fs; try (by split).
  - destruct (find _ _) as [[]|]; by split.
  - split; [done|]. intros n. by exists (S n).
Qed.

Lemma ids_run `{TempFiles} {A} (p : store A) w : ids_kept w (run_store p w).2.
Proof.
  apply (run_invariant store_answer (ids_kept w)); [|apply ids_kept_refl]. intros X e w' Hw. eapply ids_kept_trans; [done|apply ids_answer].
Qed.

Lemma ids_after `{TempFiles} {A} n (p : store A) w : ids_kept w (after n p w).
Proof.
  revert n w; induction p as [a|X e k IH]; intros [|n] w; try apply ids_kept_refl. cbn [after].
  pose proof (ids_answer X e w) as Ha. destruct (store_answer X e w) as [x w']. eapply ids_kept_trans; [exact Ha|apply IH].
Qed.

Section Trail.
Context `{TempFiles}.
Variable dir : string.
Abbreviation idx := (key (index_path dir)).
Abbreviation index_bytes w := (bytes_at w (index_path dir)).

(** Whatever call the process dies after, the bytes of the index satisfy [Q]. *)
Definition trail {A} (Q : option string -> Prop) (p : store A) (w : store_world) : Prop := forall n, Q (index_bytes (after n p w)).

(** The call leaves the index alone. *)
Definition quiet {X} (e : StoreE X) : Prop := store_leaves (eq idx) e.

Lemma sfs_quiet {A} (p : prog FsE A) : calls (@leaves_be (eq idx)) p -> calls (@quiet) (sfs p).
Proof. apply sfs_leaves. Qed.

Lemma run_after {A} (p : store A) w : exists n, after n p w = (run_store p w).2.
Proof.
  revert w; induction p as [a|X e k IH]; intros w; [by exists 0|]. rewrite run_call. destruct (store_answer X e w) as [x w'] eqn:E.
  destruct (IH x w') as [n Hn]. exists (S n). cbn [after]. by rewrite E.
Qed.

Lemma trail_end {A} Q (p : store A) w : trail Q p w -> Q (index_bytes (run_store p w).2).
Proof. intros Hp. destruct (run_after p w) as [n <-]. apply Hp. Qed.

Lemma trail_bind {A B} Q (p : store A) (f : A -> store B) w :
  trail Q p w -> trail Q (f (run_store p w).1) (run_store p w).2 -> trail Q (p ≫= f) w.
Proof. intros Hp Hf n. by apply (after_bind (fun w' => Q (index_bytes w'))). Qed.

Lemma trail_ret {A} (Q : option string -> Prop) (a : A) w : Q (index_bytes w) -> trail Q (Ret a) w.
Proof. by intros HQ [|n]. Qed.

(** Only the result is worked on. *)
Lemma trail_map {A B} Q (p : store A) (f : A -> store B) w : trail Q p w -> (forall a, exists b, f a = Ret b) -> trail Q (p ≫= f) w.
Proof. intros Hp Hf. apply trail_bind; [done|]. destruct (Hf (run_store p w).1) as [b ->]. by apply trail_ret, trail_end. Qed.

Lemma trail_quiet {A} Q (p : store A) w : calls (@quiet) p -> Q (index_bytes w) -> trail Q p w.
Proof. intros Hp HQ n. unfold bytes_at. rewrite (after_frame (eq idx)); done. Qed.

Lemma run_quiet {A} (p : store A) w : calls (@quiet) p -> index_bytes (run_store p w).2 = index_bytes w.
Proof. intros Hp. by apply (run_store_frame (eq idx)). Qed.

Lemma trail_try {A B} Q (p : store (result A)) (k : A -> store (result B)) w :
  trail Q p w -> (forall a, (run_store p w).1 = Ok a -> trail Q (k a) (run_store p w).2) -> trail Q (try_ p k) w.
Proof.
  intros Hp Hk. unfold try_. apply trail_bind; [done|]. destruct (run_store p w) as [[a|e] w'] eqn:E; cbn [fst snd] in *; [by apply Hk|].
  apply trail_ret. apply trail_end in Hp. by rewrite E in Hp.
Qed.

(** Past calls that leave the index alone. *)
Lemma trail_skip {A B} Q (p : store A) (k : A -> store B) w :
  calls (@quiet) p -> Q (index_bytes w) ->
  (forall a w', run_store p w = (a, w') -> index_bytes w' = index_bytes w -> ids_kept w w' -> trail Q (k a) w') -> trail Q (p ≫= k) w.
Proof.
  intros Hp HQ Hk. apply trail_bind; [by apply trail_quiet|]. pose proof (run_quiet p w Hp) as Hi. pose proof (ids_run p w) as Hd.
  destruct (run_store p w) as [a w']. by apply Hk.
Qed.

Lemma trail_try_skip {A B} Q (p : store (result A)) (k : A -> store (result B)) w :
  calls (@quiet) p -> Q (index_bytes w) ->
  (forall a w', run_store p w = (Ok a, w') -> index_bytes w' = index_bytes w -> ids_kept w w' -> trail Q (k a) w') -> trail Q (try_ p k) w.
Proof.
  intros Hp HQ Hk. apply trail_skip; [done|done|]. intros [a|e] w' Hr Hi Hd; [by apply Hk|]. apply trail_ret. by rewrite Hi.
Qed.

Lemma trail_mono {A} (Q Q' : option string -> Prop) (p : store A) w : (forall b, Q b -> Q' b) -> trail Q p w -> trail Q' p w.
Proof. intros HQ Hp n. apply HQ, Hp. Qed.

Lemma not_temp_named d k nm : has_suffix nm ".tmp" = false -> not_temp d (child k nm).
Proof. intros Hs (nm' & _ & Ht & [_ ->]%child_inj). by rewrite Hs in Ht. Qed.

Lemma idx_not_temp d : not_temp d idx.
Proof. rewrite key_index. by apply not_temp_named. Qed.

(** *** Files written by way of temporary ones *)
Lemma trail_atomic (Q : option string -> Prop) d target enc sync pat w :
  Q (index_bytes w) -> (idx = key target -> forall s, enc = Ok s -> Q (Some s)) -> trail Q (atomic_write d target enc sync pat) w.
Proof.
  intros HQ Hs n. destruct (atomic_write_spec d target enc sync pat w) as [Hf _]. unfold bytes_at.
  destruct (Hf n) as [Hn|(s & Es & Hn)]; rewrite (Hn _ (idx_not_temp d)); case_decide as E; try done. by apply Hs.
Qed.

Lemma atomic_frame d target enc sync pat w j :
  not_temp d j -> j <> key target -> contents (files (run_store (atomic_write d target enc sync pat) w).2) j = contents (files w) j.
Proof.
  intros Hj Hi. destruct (atomic_write_spec d target enc sync pat w) as [_ Hf]. destruct (run_store _ w) as [[a|e] w']; cbn [fst snd] in Hf |- *.
  - destruct Hf as (s & _ & Hf). by rewrite Hf, decide_False.
  - by rewrite Hf, decide_False.
Qed.

Lemma atomic_ok d target enc sync pat w w' :
  not_temp d (key target) -> run_store (atomic_write d target enc sync pat) w = (Ok tt, w') ->
  exists s, enc = Ok s /\ bytes_at w' target = Some s.
Proof.
  intros Hj Hr. destruct (atomic_write_spec d target enc sync pat w) as [_ Hf]. rewrite Hr in Hf. destruct Hf as (s & Es & Hf). exists s. split; [done|].
  unfold bytes_at. cbn [snd] in Hf. by rewrite Hf, decide_True.
Qed.

Lemma trail_flush (Q : option string -> Prop) i w :
  ix_dir i = dir -> Q (index_bytes w) -> (forall s, encode_index (ix_data i) = Ok s -> Q (Some s)) -> trail Q (flush i) w.
Proof. intros Hd HQ Hs. rewrite flush_atomic_write, Hd. apply trail_atomic; [done|]. intros _. apply Hs. Qed.

Lemma flush_ok i w w' :
  ix_dir i = dir -> run_store (flush i) w = (Ok tt, w') -> exists s, encode_index (ix_data i) = Ok s /\ index_bytes w' = Some s.
Proof. rewrite flush_atomic_write. intros ->. apply atomic_ok, idx_not_temp. Qed.

(** *** The index under its lock *)
Definition lock_key : path := key (Join [dir; "index.lock"]).

Lemma idx_not_lock : idx <> lock_key.
Proof. unfold lock_key. rewrite key_index, key_child by (by repeat split). by intros [_ [=]]%child_inj. Qed.

Lemma ReadFile_answer p w r w' :
  fs_answer _ (ReadFile p) w = (r, w') -> (key p).2 <> [] ->
  w' = w /\ contents (w_tree w) (key p) = match r with inl d => Some d | inr _ => None end.
Proof.
  intros E Hne. destruct w as [now f]. cbn in E. rewrite find_nonempty in E by done. unfold contents. cbn [w_tree].
  destruct (f !! key p) as [[]|]; by simplify_eq.
Qed.

Lemma OpenIndex_frame : calls (@store_leaves (fun j => j <> lock_key)) (OpenIndex dir).
Proof.
  unfold OpenIndex. apply calls_try; [apply calls_wrap, sfs_leaves; by split|]. intros _.
  apply calls_try; [apply calls_wrap; split; [by intros Hn; apply Hn|done]|]. intros _.
  apply calls_bind; [done|]. intros [[]|e]; [|by split]. apply calls_bind; [apply sfs_leaves; by split|]. intros d.
  by destruct (match d with inl _ => _ | inr _ => _ end) as [f|e]; [|split].
Qed.

Lemma OpenIndex_quiet : calls (@quiet) (OpenIndex dir).
Proof.
  eapply calls_mono; [|apply OpenIndex_frame]. intros X e. apply store_leaves_mono. intros j <-. apply idx_not_lock.
Qed.

(** What the lock's holder sees is what is on disk. *)
Lemma run_OpenIndex w i w' : run_store (OpenIndex dir) w = (Ok i, w') -> disk_index dir w = Ok (ix_data i) /\ ix_dir i = dir.
Proof.
  unfold OpenIndex. set (p1 := wrapP _ _ (sfs _)). set (p2 := wrapP _ _ (fails (call (OpenLock _)))). rewrite run_try.
  pose proof (run_quiet p1 w ltac:(apply calls_wrap, sfs_leaves; by split)) as H1. destruct (run_store p1 w) as [[[]|e] w1]; [|done]. cbn [snd] in H1.
  rewrite run_try.
  pose proof (run_quiet p2 w1 ltac:(apply calls_wrap; split; [intros E; by apply idx_not_lock|done])) as H2.
  destruct (run_store p2 w1) as [[[]|e] w2]; [|done]. cbn [snd] in H2.
  rewrite run_bind. unfold call. rewrite run_call. cbn [store_answer]. rewrite run_ret, run_bind, run_sfs. unfold with_fs. rewrite run_call.
  destruct (fs_answer _ (ReadFile (index_path dir)) (sw_fs w2)) as [r f'] eqn:E. rewrite run_ret. cbn [fst snd].
  apply ReadFile_answer in E as [-> Hc]; [|rewrite key_index; apply child_nonempty].
  unfold disk_index. rewrite <-H1, <-H2. unfold bytes_at. rewrite Hc. clear.
  destruct r as [d|[e|e]]; [|intros [= <- _]; done|done].
  destruct (load_index (Some d)) as [f|e]; cbn; [by intros [= <- _]|done].
Qed.

Definition same_but_lock (w w' : store_world) : Prop :=
  (forall j, j <> lock_key -> contents (files w') j = contents (files w) j) /\ ids_kept w w'.

Lemma OpenIndex_same w : same_but_lock w (run_store (OpenIndex dir) w).2.
Proof. split; [|apply ids_run]. intros j Hj. by apply (run_store_frame (fun j => j <> lock_key)); [apply OpenIndex_frame|]. Qed.

Lemma same_index w w' : same_but_lock w w' -> index_bytes w' = index_bytes w.
Proof. intros [Hw _]. apply Hw, idx_not_lock. Qed.

Lemma run_with_index {A} (body : Index -> store (result A)) w r w' :
  run_store (with_index dir body) w = (r, w') ->
  (is_ok r = false /\ same_but_lock w w') \/
  exists f w1, disk_index dir w = Ok f /\ same_but_lock w w1 /\ run_store (body (mkIndex dir f)) w1 = (r, w').
Proof.
  unfold with_index. rewrite run_try. pose proof (OpenIndex_same w) as Hs. destruct (run_store (OpenIndex dir) w) as [[i|e] w1] eqn:E; cbn [snd] in Hs.
  - intros Hr. right. exists (ix_data i), w1. apply run_OpenIndex in E as [Hd Hi]. split_and!; [done|done|].
    destruct i as [d f]. cbn in Hi |- *. subst d. unfold defer_ in Hr. rewrite run_bind in Hr. destruct (run_store (body _) w1) as [a w2] eqn:Eb.
    unfold Close, call in Hr. rewrite run_bind, run_call in Hr. cbn in Hr. by injection Hr as -> ->.
  - intros [= <- <-]. by left.
Qed.

Lemma trail_with_index {A} Q (body : Index -> store (result A)) w :
  Q (index_bytes w) ->
  (forall f w1, disk_index dir w = Ok f -> same_but_lock w w1 -> trail Q (body (mkIndex dir f)) w1) ->
  trail Q (with_index dir body) w.
Proof.
  intros HQ Hb. unfold with_index. apply trail_try; [by apply trail_quiet, HQ; apply OpenIndex_quiet|].
  intros i Hi. pose proof (OpenIndex_same w) as Hs. destruct (run_store (OpenIndex dir) w) as [r w1] eqn:E. cbn [fst snd] in *. subst r.
  apply run_OpenIndex in E as [Hd Hi].
  assert (trail Q (body i) w1) as Ht by (destruct i as [d f]; cbn in Hi, Hd; subst d; by apply Hb).
  unfold defer_. apply trail_bind; [done|]. apply trail_bind; [by apply trail_quiet; [|apply trail_end]|].
  apply trail_ret. unfold Close, call. rewrite run_call. cbn. by apply trail_end.
Qed.

(** *** The metadata *)
Lemma mkdir_meta_quiet p : calls (@quiet) (wrapP "mkdir %s: %w" [TStr (Dir p)] (sfs (fails (call (MkdirAll (Dir p) 493))))).
Proof. apply calls_wrap, sfs_leaves. by split. Qed.

Lemma trail_WriteMeta Q p m w : key p <> idx -> Q (index_bytes w) -> trail Q (WriteMeta p m) w.
Proof.
  intros Hp HQ. rewrite WriteMeta_atomic_write. apply trail_try; [apply trail_quiet; [apply mkdir_meta_quiet|done]|].
  intros [] _. apply trail_atomic; [|done]. by rewrite run_quiet by apply mkdir_meta_quiet.
Qed.

Lemma run_WriteMeta p m w w' :
  not_temp (Dir p) (key p) -> run_store (WriteMeta p m) w = (Ok tt, w') ->
  (exists s, encode_meta m = Ok s /\ bytes_at w' p = Some s) /\
  forall j, not_temp (Dir p) j -> j <> key p -> contents (files w') j = contents (files w) j.
Proof.
  intros Hp. rewrite WriteMeta_atomic_write, run_try.
  pose proof (run_store_frame (fun _ => True) (wrapP "mkdir %s: %w" [TStr (Dir p)] (sfs (fails (call (MkdirAll (Dir p) 493))))) w) as Hf.
  destruct (run_store (wrapP _ _ _) w) as [[[]|e] w1]; [|done]. intros Hr. split; [by eapply atomic_ok|].
  intros j Hj Hne. rewrite <-(Hf j); [|by apply calls_wrap, sfs_leaves; split|done]. cbn [snd].
  change w' with (Ok tt, w').2. rewrite <-Hr. by apply atomic_frame.
Qed.
End Trail.
