(* ===== verification/RunHistory.v ===== *)
(** * What the store's operations make of the index

    The index on disk, at the end of an operation and at every point a process may die at,
    is one step of an abstract index away from what it was; over any history of
    operations the run numbers are never used twice. *)

From S2P Require Import Prelude GoStrings GoTime Paths Effects Fs Json GoDate JsonText RunIndex RunStore RunStoreProps RunTrail.

(** ** The index, abstractly *)

(** One operation: a run is appended, a run is ended, runs are dropped. *)
Inductive index_step (f : indexFile) : indexFile -> Prop :=
  | step_none : index_step f f
  | step_append e : index_step f (append_entry e f).2
  | step_end seq t code status l :
      update_entry seq (set_end t code status) (if_Entries f) = Some l -> index_step f (mkindexFile (if_NextSeq f) l)
  | step_drop l : l ⊆+ if_Entries f -> index_step f (mkindexFile (if_NextSeq f) l).

(** Numbers are positive, below the next one and pairwise different. *)
Definition numbered (f : indexFile) : Prop :=
  (1 <= if_NextSeq f)%Z /\ Forall (fun e => (1 <= ie_Seq e < if_NextSeq f)%Z) (if_Entries f) /\ NoDup (map ie_Seq (if_Entries f)).

(** What the JSON of an entry can carry, its times apart. *)
Definition plain_entry (e : IndexEntry) : Prop :=
  in_int (ie_Seq e) /\ in_int (ie_ExitCode e) /\ in_int (ie_PID e) /\
  Forall (fun s => valid_utf8 s = true) [ie_ULID e; ie_PipelineRef e; ie_Status e; ie_Host e].

Definition plain_index (f : indexFile) : Prop := in_int (if_NextSeq f) /\ Forall plain_entry (if_Entries f).

Lemma wf_plain f : wf_index f -> plain_index f.
Proof. intros [H1 H2]. split; [done|]. eapply Forall_impl; [exact H2|]. by intros e (?&?&?&?&_). Qed.

(** What is written loads as it was. *)
Lemma load_encoded f s :
  plain_index f -> if_NextSeq f <> 0%Z -> encode_index f = Ok s -> load_index (Some s) = Ok f /\ wf_index f.
Proof.
  intros [Hn He] H0 Hs. assert (wf_index f) as Hw.
  { split; [done|]. unfold encode_index in Hs. destruct (forallb _ _) eqn:Hb; [|done]. rewrite forallb_forall in Hb.
    rewrite Forall_forall in He |- *. intros e Hin. destruct (He e Hin) as (?&?&?&?). specialize (Hb e (proj1 (list_elem_of_In _ _) Hin)).
    apply andb_true_iff in Hb as [? ?]. by split_and!. }
  split; [|done]. pose proof (decode_encode_index _ _ Hw Hs) as Hd. destruct s as [|a s]; [done|].
  unfold load_index. rewrite Hd. cbn. by rewrite (proj2 (Z.eqb_neq _ _) H0).
Qed.

(** *** The steps keep the numbering *)
Lemma update_entry_seq seq m l l' :
  (forall e, ie_Seq (m e) = ie_Seq e) -> update_entry seq m l = Some l' -> map ie_Seq l' = map ie_Seq l.
Proof.
  intros Hm. revert l'; induction l as [|e l IH]; intros l'; [done|]. cbn. destruct (ie_Seq e =? seq)%Z.
  - intros [= <-]. cbn. by rewrite Hm.
  - destruct (update_entry seq m l) as [l1|]; [|done]. intros [= <-]. cbn. by rewrite (IH _ eq_refl).
Qed.

Lemma update_entry_Forall (P : IndexEntry -> Prop) seq m l l' :
  (forall e, P e -> P (m e)) -> Forall P l -> update_entry seq m l = Some l' -> Forall P l'.
Proof.
  intros Hm. revert l'; induction l as [|e l IH]; intros l' Hl; [done|]. apply Forall_cons in Hl as [He Hl]. cbn. destruct (ie_Seq e =? seq)%Z.
  - intros [= <-]. constructor; [by apply Hm|done].
  - destruct (update_entry seq m l) as [l1|]; [|done]. intros [= <-]. constructor; [done|]. by apply IH.
Qed.

Lemma Forall_seq (P : Z -> Prop) l : Forall (fun e => P (ie_Seq e)) l <-> Forall P (map ie_Seq l).
Proof. by rewrite Forall_map. Qed.

Lemma step_numbered f f' : (if_NextSeq f < max_int)%Z -> numbered f -> index_step f f' -> numbered f' /\ (if_NextSeq f <= if_NextSeq f' <= if_NextSeq f + 1)%Z.
Proof.
  intros Hmax (H1 & H2 & H3) Hs. destruct Hs as [|e|seq t code status l Hl|l Hl].
  - split; [by split|lia].
  - assert (wrap64 (if_NextSeq f + 1) = if_NextSeq f + 1)%Z as Hw by (apply wrap64_id; unfold min_int, max_int in *; lia).
    unfold append_entry, numbered. cbn [snd if_NextSeq if_Entries]. rewrite Hw. split; [|lia]. split_and!; [lia| |].
    + apply Forall_app. split; [eapply Forall_impl; [exact H2|]; cbn; lia|]. apply Forall_singleton. cbn. lia.
    + rewrite map_app. apply NoDup_app. split_and!; [done| |apply NoDup_singleton]. intros x Hx. cbn. intros ->%list_elem_of_singleton.
      apply (Forall_seq (fun n => (1 <= n < if_NextSeq f)%Z)) in H2. rewrite Forall_forall in H2. apply H2 in Hx. lia.
  - split; [|cbn; lia]. apply update_entry_seq in Hl; [|done]. split; [done|]. cbn [if_Entries if_NextSeq].
    rewrite (Forall_seq (fun n => (1 <= n < if_NextSeq f)%Z)), Hl. by rewrite <-(Forall_seq (fun n => (1 <= n < if_NextSeq f)%Z)).
  - split; [|cbn; lia]. split; [done|]. split.
    + cbn. rewrite Forall_forall in H2 |- *. intros e He. apply H2. by eapply elem_of_submseteq.
    + cbn. apply submseteq_Permutation in Hl as [k Hk]. rewrite Hk, map_app in H3. by apply NoDup_app in H3 as [? _].
Qed.

(** ** The operations *)
Section Operations.
Context {TF : TempFiles} {HO : Host} {UL : Ulid}.
Variable dir : string.

(** What is known of the host and of run ids. *)
Definition sane_host : Prop := valid_utf8 hostname = true.
Definition sane_ulid : Prop := forall s, ParseStrict s = Ok tt -> normal s.
Definition sane_world (w : store_world) : Prop := in_int (sw_pid w) /\ forall n, valid_utf8 (sw_ulids w n) = true.

Lemma sane_kept w w' : ids_kept w w' -> sane_world w -> sane_world w'.
Proof. intros [H1 H2] [H3 H4]. split; [by rewrite H1|]. intros n. destruct (H2 n) as [m ->]. apply H4. Qed.

Inductive op : Type :=
  | ONew (s : Store) (now : Z) (pipelineRef : string) (args : list string)
  | OFinalize (r : Run) (endt exitCode : Z) (status : string)
  | OPrune (s : Store) (o : PruneOptions) (hasWarn : bool).

(** Of the store in [dir], with text that is text. *)
Definition op_ok (o : op) : Prop :=
  match o with
  | ONew s _ ref _ => st_dir s = dir /\ valid_utf8 ref = true
  | OFinalize r _ code status => st_dir (rn_store r) = dir /\ in_int code /\ valid_utf8 status = true
  | OPrune s _ _ => st_dir s = dir
  end.

(** The number a finished operation gives out. *)
Definition op_prog (o : op) : store (option Z) :=
  match o with
  | ONew s now ref args => r ← NewRun s now ref args; Ret (match r with Ok x => Some (rn_Seq x) | Err _ => None end)
  | OFinalize r t code status => _ ← Finalize r t code status; Ret None
  | OPrune s o hasWarn => _ ← Prune s o hasWarn; Ret None
  end.

(** The index on disk is one step away from [f]. *)
Definition stepped (f : indexFile) (b : option string) : Prop := exists f', load_index b = Ok f' /\ index_step f f' /\ wf_index f'.

Lemma stepped_same f w : disk_index dir w = Ok f -> wf_index f -> stepped f (bytes_at w (index_path dir)).
Proof. intros Hd Hw. exists f. split_and!; [exact Hd|constructor|done]. Qed.

(** A flush of a next state. *)
Lemma trail_step f i w :
  ix_dir i = dir -> stepped f (bytes_at w (index_path dir)) -> index_step f (ix_data i) -> plain_index (ix_data i) -> if_NextSeq (ix_data i) <> 0%Z ->
  trail dir (stepped f) (flush i) w.
Proof.
  intros Hd Hs Hst Hp Hn. apply trail_flush; [done|done|]. intros s Es. destruct (load_encoded _ _ Hp Hn Es) as [Hl Hw]. by exists (ix_data i).
Qed.

Lemma meta_not_index d : key (Join [d; "meta.json"]) <> key (index_path dir).
Proof. rewrite key_index, key_child by by repeat split. by intros [_ [=]]%child_inj. Qed.

Lemma numbered_append_plain f e :
  numbered f -> plain_index f -> (if_NextSeq f < max_int)%Z -> plain_entry e -> plain_index (append_entry e f).2 /\ if_NextSeq (append_entry e f).2 <> 0%Z.
Proof.
  intros (H1 & _) [H2 H3] Hm (He1 & He2 & He3 & He4). cbn [append_entry snd if_NextSeq if_Entries].
  rewrite wrap64_id by (unfold min_int, max_int in *; lia). split; [|lia]. split; cbn [if_NextSeq if_Entries].
  - unfold in_int, min_int, max_int in *. lia.
  - apply Forall_app. split; [done|]. apply Forall_singleton. by split_and!.
Qed.

(** *** The last loop of [Prune] *)

(** [sv] is [l] without some entries of which [P] holds. *)
Inductive swept (P : IndexEntry -> Prop) : list IndexEntry -> list IndexEntry -> Prop :=
  | swept_nil : swept P [] []
  | swept_keep e l sv : swept P l sv -> swept P (e :: l) (e :: sv)
  | swept_drop e l sv : P e -> swept P l sv -> swept P (e :: l) sv.

Lemma swept_mono (P Q : IndexEntry -> Prop) l sv : (forall e, P e -> Q e) -> swept P l sv -> swept Q l sv.
Proof. intros HPQ. induction 1; constructor; auto. Qed.

Lemma swept_submseteq P l sv : swept P l sv -> sv ⊆+ l.
Proof. induction 1; [done|by apply submseteq_skip|by apply submseteq_cons]. Qed.

Lemma swept_in P l sv e : swept P l sv -> e ∈ l -> e ∈ sv \/ P e.
Proof.
  induction 1 as [|e' l sv _ IH|e' l sv HP _ IH]; intros Hin; [by apply not_elem_of_nil in Hin| |]; apply elem_of_cons in Hin as [->|Hin].
  - left. constructor.
  - destruct (IH Hin); [left; by constructor|by right].
  - by right.
  - by apply IH.
Qed.

(** The run's directory, and that no file is left in it. *)
Definition run_key (e : IndexEntry) : path := child (child (key dir) "runs") (ie_ULID e).
Definition gone_from (w : store_world) (e : IndexEntry) : Prop := forall j, under (run_key e) j -> contents (files w) j = None.

Definition dropped (gone : list IndexEntry) (w : store_world) (e : IndexEntry) : Prop :=
  kept gone e = false /\ valid_id e = true /\ gone_from w e.

Lemma ParseRunID_ok s id : ParseRunID s = Ok id -> id = s /\ ParseStrict s = Ok tt.
Proof. unfold ParseRunID. destruct (ParseStrict s) as [[]|e]; [by intros [= ->]|done]. Qed.

Lemma valid_id_parse e : valid_id e = true -> ParseRunID (ie_ULID e) = Ok (ie_ULID e).
Proof. unfold valid_id, is_ok, ParseRunID. by destruct (ParseStrict (ie_ULID e)). Qed.

Section PruneLoop.
Hypothesis Hulid : sane_ulid.
Variable s : Store.
Hypothesis Hs : st_dir s = dir.

Lemma RunDir_key e p : RunDir s e = Ok p -> key p = run_key e /\ valid_id e = true.
Proof.
  unfold RunDir, valid_id. destruct (ParseRunID (ie_ULID e)) as [id|x] eqn:E; [|done]. intros Hp. assert (p = Join [st_dir s; "runs"; id]) as -> by (by injection Hp). split; [|done].
  apply ParseRunID_ok in E as [-> E]. apply Hulid in E. rewrite Hs, key_Join; [|by repeat (apply Forall_cons; split)|done].
  unfold run_key, child. cbn. by rewrite <-app_assoc.
Qed.

Lemma run_key_not_index e : ~ under (run_key e) (key (index_path dir)).
Proof.
  rewrite key_index. unfold under, run_key, child. cbn. intros [_ [l Hl]]. rewrite <-!app_assoc in Hl. by apply app_inv_head in Hl.
Qed.

Lemma prune_step_quiet gone acc e : calls (@quiet dir) (prune_step s gone acc e).
Proof.
  unfold prune_step. destruct acc as [[d sv] errs]. destruct (kept gone e); [done|]. destruct (RunDir s e) as [p|x] eqn:Ep; [|done].
  apply RunDir_key in Ep as [Hk _]. apply calls_bind; [|done]. apply sfs_quiet. split; [|done]. cbn. intros j Hj <-. rewrite Hk in Hj. by apply run_key_not_index in Hj.
Qed.

Lemma run_RemoveAll p w r w' :
  run_store (sfs (fails (call (RemoveAll p)))) w = (r, w') ->
  (forall j, contents (files w') j = if is_ok r then if decide (under (key p) j) then None else contents (files w) j else contents (files w) j).
Proof.
  rewrite run_sfs. unfold with_fs. rewrite run_fails. cbn [fs_answer]. destruct (blocked _ _); [by intros [= <- <-]|].
  destruct (bool_decide _); [by intros [= <- <-]|]. intros [= <- <-] j. cbn. apply contents_remove_tree.
Qed.

Lemma run_prune_loop gone l d sv errs w :
  let '((d', sv', errs'), w') := run_store (foldP (prune_step s gone) (d, sv, errs) l) w in
  (exists t, sv' = sv ++ t /\ swept (dropped gone w') l t /\ d' = d + (length l - length t) /\
    (forall e, e ∈ l -> kept gone e = true -> e ∈ t) /\
    (errs' = [] -> errs = [] /\ Forall (fun e => kept gone e = true \/ valid_id e = false) t)) /\
  forall j, contents (files w') j = contents (files w) j \/ contents (files w') j = None /\ exists e, e ∈ l /\ kept gone e = false /\ valid_id e = true /\ under (run_key e) j.
Proof.
  revert d sv errs w; induction l as [|e l IH]; intros d sv errs w.
  { cbn. split; [|by intros j; left]. exists []. rewrite app_nil_r. split_and!; try done. constructor. }
  cbn [foldP]. rewrite run_bind.
  destruct (run_store (prune_step s gone (d, sv, errs) e) w) as [[[d1 sv1] errs1] w1] eqn:E1.
  specialize (IH d1 sv1 errs1 w1). destruct (run_store (foldP _ _ _) w1) as [[[d' sv'] errs'] w'].
  destruct IH as [(t & -> & Ht & -> & Hk & He) Hj]. pose proof (submseteq_length _ _ (swept_submseteq _ _ _ Ht)) as Hlen.
  assert (forall j, contents (files w1) j = None -> contents (files w') j = None) as Hnone.
  { intros j Hn. destruct (Hj j) as [->|[? _]]; done. }
  revert E1. unfold prune_step. destruct (kept gone e) eqn:Ek; [|destruct (RunDir s e) as [p|x] eqn:Ep].
  - (* kept *)
    intros [= <- <- <- <-]. split.
    + exists (e :: t). rewrite <-app_assoc. split_and!; [done|by constructor|cbn; lia| |].
      * intros e' [->|Hin]%elem_of_cons; [by left|]. right. by apply Hk.
      * intros Hn. destruct (He Hn) as [? ?]. split; [done|]. constructor; [by left|done].
    + intros j. destruct (Hj j) as [?|(? & e' & ? & ?)]; [by left|right]. split; [done|]. exists e'. split; [by right|done].
  - apply RunDir_key in Ep as [Hkey Hv]. rewrite run_bind. destruct (run_store (sfs _) w) as [r w2] eqn:Er. pose proof (run_RemoveAll _ _ _ _ Er) as Hr.
    destruct r as [[]|x]; intros [= <- <- <- <-].
    + (* removed *)
      rewrite Hkey in Hr. split.
      * exists t. split_and!; [done| |cbn; lia| |].
        -- constructor; [|done]. split_and!; [done|done|]. intros j Hu. apply Hnone. rewrite Hr. cbn. by rewrite decide_True.
        -- intros e' [->|Hin]%elem_of_cons Hke; [by rewrite Ek in Hke|by apply Hk].
        -- done.
      * intros j. destruct (Hj j) as [->|(? & e' & ? & ?)].
        -- rewrite Hr. cbn. case_decide; [|by left]. right. split; [done|]. exists e. split_and!; [by left|done..].
        -- right. split; [done|]. exists e'. split; [by right|done].
    + (* it lingers *)
      assert (forall j, contents (files w2) j = contents (files w) j) as Hr' by (intros j; by rewrite Hr). split.
      * exists (e :: t). rewrite <-app_assoc. split_and!; [done|by constructor|cbn; lia| |].
        -- intros e' [->|Hin]%elem_of_cons; [by left|]. right. by apply Hk.
        -- intros Hn. destruct (He Hn) as [Hn' _]. by apply app_nil in Hn' as [_ ?].
      * intros j. rewrite <-Hr'. destruct (Hj j) as [?|(? & e' & ? & ?)]; [by left|right]. split; [done|]. exists e'. split; [by right|done].
  - (* an invalid id is kept *)
    intros [= <- <- <- <-]. split.
    + exists (e :: t). rewrite <-app_assoc. split_and!; [done|by constructor|cbn; lia| |].
      * intros e' [->|Hin]%elem_of_cons; [by left|]. right. by apply Hk.
      * intros Hn. destruct (He Hn) as [? ?]. split; [done|]. constructor; [right|done].
        unfold RunDir in Ep. unfold valid_id. by destruct (ParseRunID (ie_ULID e)).
    + intros j. destruct (Hj j) as [?|(? & e' & ? & ?)]; [by left|right]. split; [done|]. exists e'. split; [by right|done].
Qed.
End PruneLoop.

Lemma plain_update f seq t code status l :
  wf_index f -> in_int code -> valid_utf8 status = true -> update_entry seq (set_end t code status) (if_Entries f) = Some l ->
  plain_index (mkindexFile (if_NextSeq f) l).
Proof.
  intros Hwf Hc Hst El. destruct (wf_plain _ Hwf) as [Hn Hp]. split; [done|]. cbn [if_Entries]. eapply update_entry_Forall; [|exact Hp|exact El].
  intros e (He1 & He2 & He3 & He4). do 4 (apply Forall_cons in He4 as [? He4]). split_and!; try done. by repeat (apply Forall_cons; split).
Qed.

Section FromIndex.
Variable f : indexFile.
Hypothesis Hwf : wf_index f.
Hypothesis Hnum : numbered f.
Hypothesis Hmax : (if_NextSeq f < max_int)%Z.
Hypothesis Hhost : sane_host.
Hypothesis Hulid : sane_ulid.

Lemma trail_NewRun s now ref args w :
  st_dir s = dir -> valid_utf8 ref = true -> sane_world w -> disk_index dir w = Ok f -> trail dir (stepped f) (NewRun s now ref args) w.
Proof.
  intros Hs Href Hw Hd. unfold NewRun. rewrite Hs. apply trail_with_index; [by apply stepped_same|].
  intros f0 w1 Hf0 Hs1. rewrite Hd in Hf0. injection Hf0 as <-. pose proof (same_index dir _ _ Hs1) as Hi1.
  assert (stepped f (bytes_at w1 (index_path dir))) as Hq1 by (rewrite Hi1; by apply stepped_same).
  pose proof (sane_kept _ _ (proj2 Hs1) Hw) as [Hpid1 Hul1].
  apply trail_skip; [done|done|]. intros id w2 Hr2 Hi2 Hd2. rewrite <-Hi2 in Hq1.
  assert (valid_utf8 id = true) as Hid by (unfold call in Hr2; rewrite run_call in Hr2; cbn in Hr2; injection Hr2 as <- <-; apply Hul1).
  apply trail_try_skip; [apply calls_wrap, sfs_quiet; by split|done|]. intros [] w3 _ Hi3 Hd3. rewrite <-Hi3 in Hq1.
  apply trail_skip; [done|done|]. intros pid w4 Hr4 Hi4 _. rewrite <-Hi4 in Hq1.
  assert (in_int pid) as Hpid.
  { unfold call in Hr4. rewrite run_call in Hr4. cbn in Hr4. injection Hr4 as <- <-. rewrite (proj1 Hd3), (proj1 Hd2). apply Hpid1. }
  set (e := mkIndexEntry 0 id ref now zero_time 0 "" pid hostname).
  assert (plain_entry e) as He.
  { split_and!; [| |done|]; [by split; vm_compute|by split; vm_compute|]. by repeat (apply Forall_cons; split). }
  destruct (numbered_append_plain f e Hnum (wf_plain _ Hwf) Hmax He) as [Hp Hn].
  assert (trail dir (stepped f) (Append (mkIndex dir f) e) w4) as Ha.
  { unfold Append. cbn [ix_dir ix_data append_entry]. apply trail_bind; [|by apply trail_ret, trail_end; apply trail_step; [..|constructor|exact Hp|exact Hn]].
    apply trail_step; [done|done|apply (step_append f e)|exact Hp|exact Hn]. }
  apply trail_bind; [exact Ha|]. apply trail_end in Ha. destruct (run_store (Append _ _) w4) as [[[q|x] i'] w5]; [|by apply trail_ret].
  cbn [fst snd] in *. apply trail_try; [by apply trail_WriteMeta; [apply meta_not_index|]|]. intros [] _. apply trail_ret, trail_end.
  by apply trail_WriteMeta; [apply meta_not_index|].
Qed.
Lemma trail_Finalize r t code status w :
  st_dir (rn_store r) = dir -> in_int code -> valid_utf8 status = true -> disk_index dir w = Ok f -> trail dir (stepped f) (Finalize r t code status) w.
Proof.
  intros Hs Hc Hst Hd. unfold Finalize. rewrite Hs. assert (stepped f (bytes_at w (index_path dir))) as Hq by by apply stepped_same.
  apply trail_try; [by apply trail_WriteMeta; [apply meta_not_index|]|]. intros [] Hr.
  set (p := WriteMeta _ _) in *.
  assert (bytes_at (run_store p w).2 (index_path dir) = bytes_at w (index_path dir)) as Hi.
  { apply (trail_end dir (fun b => b = _)). apply trail_WriteMeta; [apply meta_not_index|done]. }
  apply trail_with_index; [by rewrite Hi|]. intros f0 w1 Hf0 Hs1. unfold disk_index in Hf0. rewrite Hi in Hf0.
  unfold disk_index in Hd. rewrite Hd in Hf0. injection Hf0 as <-. pose proof (same_index dir _ _ Hs1) as Hi1. rewrite <-Hi, <-Hi1 in Hq.
  apply trail_map; [|intros [x i]; by exists x]. unfold Update. cbn [ix_data ix_dir].
  destruct (update_entry _ _ _) as [l|] eqn:El; [|by apply trail_ret].
  apply trail_map; [|intros x; by eexists]. apply trail_step; [done|done|by eapply step_end|by eapply plain_update|destruct Hnum; cbn; lia].
Qed.

Lemma trail_Prune s o hasWarn w : st_dir s = dir -> disk_index dir w = Ok f -> trail dir (stepped f) (Prune s o hasWarn) w.
Proof.
  intros Hs Hd. unfold Prune. rewrite Hs. assert (stepped f (bytes_at w (index_path dir))) as Hq by by apply stepped_same.
  apply trail_skip; [destruct (IsZero _); [by apply sfs_quiet; split|done]|done|]. intros now w0 _ Hi0 _. rewrite <-Hi0 in Hq.
  apply trail_with_index; [done|]. intros f0 w1 Hf0 Hs1. unfold disk_index in Hf0. rewrite Hi0 in Hf0. unfold disk_index in Hd. rewrite Hd in Hf0. injection Hf0 as <-.
  pose proof (same_index dir _ _ Hs1) as Hi1. rewrite <-Hi1 in Hq. clear dependent w0. clear w Hd.
  unfold prune_index. cbn [ix_data].
  apply trail_skip; [|done|].
  { destruct hasWarn; [|done]. apply calls_foldP. intros u e. by destruct (valid_id e). }
  intros u w2 _ Hi2 _. rewrite <-Hi2 in Hq. clear dependent w1.
  set (gone := given_up _ _ _). set (entries := stable_sort _ _).
  apply trail_skip; [apply calls_foldP; intros acc e; by apply prune_step_quiet|done|].
  intros [[d sv] errs] w3 Hr Hi3 _. rewrite <-Hi3 in Hq. pose proof (run_prune_loop Hulid s Hs gone entries 0 [] [] w2) as Hl. rewrite Hr in Hl.
  destruct Hl as [(t & -> & Ht & _) _]. clear dependent w2. apply swept_submseteq in Ht.
  assert (t ⊆+ if_Entries f) as Hsub by (rewrite <-(stable_sort_perm seq_less (if_Entries f)); exact Ht).
  apply trail_map; [|intros x; by eexists]. destruct (0 <? d)%nat; [|by apply trail_ret]. apply trail_map; [|intros x; by eexists].
  unfold replaceEntries. cbn [ix_dir ix_data app]. apply trail_step; [done|done|by apply step_drop| |destruct Hnum; cbn; lia].
  destruct (wf_plain _ Hwf) as [Hn Hp]. split; [done|]. cbn [if_Entries]. rewrite Forall_forall in Hp |- *. intros e He. apply Hp. by eapply elem_of_submseteq.
Qed.
Lemma NewRun_ok s now ref args w r w' :
  st_dir s = dir -> valid_utf8 ref = true -> sane_world w -> disk_index dir w = Ok f -> run_store (NewRun s now ref args) w = (Ok r, w') ->
  exists id pid, let e := mkIndexEntry 0 id ref now zero_time 0 "" pid hostname in
    r = mkRun id (if_NextSeq f) (Join [dir; "runs"; id]) (mkMeta id id (if_NextSeq f) (st_writerVersion s) ref now zero_time 0 "" args) s /\
    (exists k, id = sw_ulids w k) /\ plain_entry e /\
    disk_index dir w' = Ok (append_entry e f).2 /\
    exists text, encode_meta (rn_meta r) = Ok text /\ bytes_at w' (Join [rn_Dir r; "meta.json"]) = Some text.
Proof.
  intros Hs Href Hw Hd Hr. unfold NewRun in Hr. rewrite Hs in Hr. apply run_with_index in Hr as [[? _]|(f0 & w1 & Hf0 & Hs1 & Hr)]; [done|].
  rewrite Hd in Hf0. injection Hf0 as <-. pose proof (sane_kept _ _ (proj2 Hs1) Hw) as [Hpid Hul]. clear Hw.
  rewrite run_bind in Hr. unfold call in Hr at 1. rewrite run_call in Hr. cbn [store_answer] in Hr. rewrite run_ret in Hr.
  set (id := sw_ulids w1 0) in *. set (w2 := mkstore_world _ _ _) in Hr. rewrite run_try in Hr.
  set (p := wrapP _ _ _) in Hr. pose proof (ids_run p w2) as [Hpid3 _]. destruct (run_store p w2) as [[[]|x] w3]; [|done]. cbn [snd] in Hpid3. clear p.
  rewrite run_bind in Hr. unfold call in Hr at 1. rewrite run_call in Hr. cbn [store_answer] in Hr. rewrite run_ret in Hr.
  set (pid := sw_pid w3) in *. set (e := mkIndexEntry 0 id ref now zero_time 0 "" pid hostname) in *. exists id, pid. cbv zeta. fold e.
  assert (plain_entry e) as He.
  { split_and!; [| |by change (in_int pid); rewrite Hpid3|]; [by split; vm_compute|by split; vm_compute|]. repeat (apply Forall_cons; split); try done. apply Hul. }
  destruct (numbered_append_plain f e Hnum (wf_plain _ Hwf) Hmax He) as [Hp Hn].
  rewrite run_bind in Hr. unfold Append in Hr. cbn [ix_dir ix_data append_entry] in Hr. rewrite run_bind in Hr.
  destruct (run_store (flush _) w3) as [[[]|x] w4] eqn:Ef; rewrite run_ret in Hr; [|done].
  apply (flush_ok dir) in Ef as (text & Et & Hb); [|done]. cbn [ix_data] in Et. destruct (load_encoded _ _ Hp Hn Et) as [Hload _].
  set (m := mkMeta _ _ _ _ _ _ _ _ _ _) in Hr. rewrite run_try in Hr. destruct (run_store (WriteMeta _ m) w4) as [[[]|x] w5] eqn:Em; [|done].
  injection Hr as <- <-. split_and!; [done|apply Hs1|done| |].
  - unfold disk_index. rewrite <-Hload, <-Hb. f_equal. change w5 with (Ok tt, w5).2. rewrite <-Em.
    apply (trail_end dir (fun b => b = _)). apply trail_WriteMeta; [apply meta_not_index|done].
  - apply run_WriteMeta in Em as [Hm _]; [exact Hm|]. rewrite key_child by by repeat split. by apply not_temp_named.
Qed.
End FromIndex.

(** *** Histories *)

(** Operations that finish, and operations whose process dies after so many calls. *)
Fixpoint history (l : list (op * option nat)) (w : store_world) : list Z * store_world :=
  match l with
  | [] => ([], w)
  | (o, Some n) :: l' => history l' (after n (op_prog o) w)
  | (o, None) :: l' => let '(q, w1) := run_store (op_prog o) w in let '(qs, w2) := history l' w1 in (option_list q ++ qs, w2)
  end.

Lemma trail_op f o w :
  wf_index f -> numbered f -> (if_NextSeq f < max_int)%Z -> sane_host -> sane_ulid -> sane_world w -> op_ok o -> disk_index dir w = Ok f ->
  trail dir (stepped f) (op_prog o) w.
Proof.
  intros Hwf Hnum Hmax Hh Hu Hw Ho Hd. destruct o; cbn [op_ok op_prog] in *; (apply trail_map; [|intros x; by eexists]).
  - destruct Ho. by apply trail_NewRun.
  - destruct Ho as (? & ? & ?). by apply trail_Finalize.
  - by apply trail_Prune.
Qed.

Lemma op_number f o w q w' :
  wf_index f -> numbered f -> (if_NextSeq f < max_int)%Z -> sane_host -> sane_world w -> op_ok o -> disk_index dir w = Ok f ->
  run_store (op_prog o) w = (Some q, w') -> q = if_NextSeq f /\ exists f', disk_index dir w' = Ok f' /\ if_NextSeq f' = (if_NextSeq f + 1)%Z.
Proof.
  intros Hwf Hnum Hmax Hh Hw Ho Hd. destruct o as [s now ref args| |]; cbn [op_ok op_prog] in *; rewrite run_bind.
  - destruct (run_store (NewRun s now ref args) w) as [[r|x] w1] eqn:E; [|done]. intros [= <- <-].
    eapply NewRun_ok in E as (id & pid & -> & _ & _ & Hd' & _); try done; try apply Ho. split; [done|]. eexists. split; [exact Hd'|].
    cbn. apply wrap64_id. destruct Hnum. unfold min_int, max_int in *. lia.
  - by destruct (run_store _ w).
  - by destruct (run_store _ w).
Qed.

(** C23: whatever operations finish on a store, and wherever the processes of others die, the
    index on disk stays readable and well-formed, and the run numbers handed out only go
    up: none is ever used twice, [Prune]d or not. *)
Theorem numbers_never_reused l f w :
  sane_host -> sane_ulid -> sane_world w -> Forall (fun oc => op_ok oc.1) l ->
  disk_index dir w = Ok f -> wf_index f -> numbered f -> (if_NextSeq f + Z.of_nat (length l) <= max_int)%Z ->
  exists f', disk_index dir (history l w).2 = Ok f' /\ wf_index f' /\ numbered f' /\ (if_NextSeq f <= if_NextSeq f')%Z /\
    StronglySorted Z.lt (history l w).1 /\ Forall (fun q => if_NextSeq f <= q < if_NextSeq f')%Z (history l w).1.
Proof.
  intros Hh Hu. revert f w; induction l as [|[o c] l IH]; intros f w Hw Hl Hd Hwf Hnum Hmax.
  { exists f. split_and!; [done|done|done|cbn; lia|constructor|constructor]. }
  apply Forall_cons in Hl as [Ho Hl]. cbn [fst length] in Ho, Hmax. assert (if_NextSeq f < max_int)%Z as Hm by lia.
  pose proof (trail_op f o w Hwf Hnum Hm Hh Hu Hw Ho Hd) as Ht. destruct c as [n|]; cbn [history].
  - destruct (Ht n) as (f1 & Hd1 & Hs1 & Hwf1). destruct (step_numbered _ _ Hm Hnum Hs1) as [Hn1 Hle].
    destruct (IH f1 (after n (op_prog o) w)) as (f' & ? & ? & ? & ? & ? & Hq); try done; [eapply sane_kept, Hw; apply ids_after|lia|].
    exists f'. split_and!; try done; [lia|]. eapply Forall_impl; [exact Hq|]. cbn. lia.
  - apply trail_end in Ht as (f1 & Hd1 & Hs1 & Hwf1). destruct (step_numbered _ _ Hm Hnum Hs1) as [Hn1 Hle].
    pose proof (ids_run (op_prog o) w) as Hk. pose proof (op_number f o w) as Hop. destruct (run_store (op_prog o) w) as [q w1]. cbn [snd] in *.
    destruct (IH f1 w1) as (f' & Hd' & Hwf' & Hn' & Hle' & Hss & Hq); try done; [by eapply sane_kept|lia|].
    destruct (history l w1) as [qs w2]. cbn [fst snd] in *. exists f'. destruct q as [q|]; cbn [option_list app].
    + destruct (Hop q w1) as (-> & f2 & Hd2 & Hf2); try done. assert (f2 = f1) as -> by (unfold disk_index in Hd2; congruence).
      split_and!; [done|done|done|lia|constructor; [done|]; eapply Forall_impl; [exact Hq|]; cbn; lia|]. constructor; [lia|]. eapply Forall_impl; [exact Hq|]. cbn. lia.
    + split_and!; try done; [lia|]. eapply Forall_impl; [exact Hq|]. cbn. lia.
Qed.
End Operations.

(** ** A concrete store *)

(** Temporary names longer than any name there is. *)
Definition name_bound (f : tree) : nat := foldr Nat.max 0 (map (fun kn => list_sum (map String.length kn.1.2)) (map_to_list f)).

Fixpoint xs (n : nat) : string := match n with 0 => "" | S n' => String "x" (xs n') end.

Definition long_name (f : tree) : string := String "x" (xs (name_bound f) +:+ ".tmp").

Lemma name_bound_le f k n : f !! k = Some n -> list_sum (map String.length k.2) <= name_bound f.
Proof.
  intros Hk. apply elem_of_map_to_list in Hk. unfold name_bound. induction (map_to_list f) as [|x l IH]; [by apply not_elem_of_nil in Hk|].
  cbn -[list_sum]. apply elem_of_cons in Hk as [<-|Hk]; [cbn -[list_sum]; lia|]. specialize (IH Hk). lia.
Qed.

Lemma xs_length n : String.length (xs n) = n.
Proof. induction n; cbn; lia. Qed.

Lemma xs_plain n : plain (xs n +:+ ".tmp").
Proof. induction n; [done|exact IHn]. Qed.

Lemma xs_tmp n : has_suffix (xs n +:+ ".tmp") ".tmp" = true.
Proof. apply has_suffix_true. by exists (xs n). Qed.

#[export] Program Instance long_names : TempFiles := {| temp_name f k pat := long_name f |}.
Next Obligation. intros f k pat. split_and!; [apply xs_plain|done|by destruct (name_bound f)|by destruct (name_bound f)]. Qed.
Next Obligation. intros f k pat. apply (xs_tmp (S (name_bound f))). Qed.
Next Obligation.
  intros f k pat. destruct (f !! child k (long_name f)) as [n|] eqn:E; [|done]. apply name_bound_le in E. exfalso. revert E.
  unfold child. cbn [snd]. rewrite map_app, list_sum_app. cbn -[String.length list_sum]. cbn [list_sum foldr]. unfold long_name. cbn [String.length].
  rewrite str_length_app, xs_length. cbn. lia.
Qed.

(** A host without processes, ids of twenty-six letters and digits, and an empty directory. *)
Definition ex_host : Host := {| hostname := "box"; kill0 _ := false |}.
Definition ulid_char (c : ascii) : bool := is_digit c || ((65 <=? nat_of_ascii c) && (nat_of_ascii c <=? 90)).
Definition ex_ulid : Ulid :=
  {| ParseStrict s := if Nat.eqb (String.length s) 26 && str_all ulid_char s then Ok tt else Err (lit "ulid: bad data") |}.
#[local] Existing Instance ex_host.
#[local] Existing Instance ex_ulid.

Definition ex_start : Z := 1700000000000000000.
Definition ex_id (n : nat) : string :=
  nth n ["01HF0000000000000000000001"; "01HF0000000000000000000002"; "01HF0000000000000000000003"] "01HF0000000000000000000004".
Definition ex_world : store_world := mkstore_world (mkWorld ex_start ∅) ex_id 4711.
Definition ex_store : Store := mkStore "state" "v1" false.
Definition ex_new (t : Z) : op := ONew ex_store (ex_start + t) "pipeline.yaml" [].
Definition ex_prune : op := OPrune ex_store (mkPruneOptions 0 0 true ex_start 0) false.

(** Two runs, of which the first is pruned away; a third dies while it is recorded; a
    fourth gets number 3. *)
Example history_numbers :
  (history [(ex_new 1, None); (ex_new 2, None); (ex_prune, None); (ex_new 3, Some 6%nat); (ex_new 4, None)] ex_world).1 = [1; 2; 3]%Z.
Proof. vm_compute. reflexivity. Qed.

Lemma ex_sane_ulid : sane_ulid.
Proof.
  intros s. cbn. destruct (Nat.eqb _ _ && _) eqn:E; [|done]. intros _. apply andb_true_iff in E as [Hl Hs]. apply Nat.eqb_eq in Hl.
  split_and!; [|by intros ->..]. clear Hl. unfold plain. induction s as [|c s IH]; [done|]. cbn in Hs |- *. apply andb_true_iff in Hs as [Hc Hs].
  rewrite IH by done. destruct (Ascii.eqb_spec c slash) as [->|]; [by vm_compute in Hc|]. done.
Qed.

Lemma ex_sane_world : sane_world ex_world.
Proof.
  split; [by split; vm_compute|]. intros n. by destruct n as [|[|[|[]]]].
Qed.

Lemma ex_first : disk_index "state" ex_world = Ok (mkindexFile 1 []) /\ wf_index (mkindexFile 1 []) /\ numbered (mkindexFile 1 []).
Proof. split; [reflexivity|]. split; split; [by split; vm_compute|constructor|done|split; constructor]. Qed.

Lemma numbers_never_reused_witness :
  exists f', disk_index "state" (history [(ex_new 1, None); (ex_prune, Some 9%nat); (ex_new 3, None)] ex_world).2 = Ok f' /\ wf_index f' /\ numbered f' /\
    (1 <= if_NextSeq f')%Z /\
    StronglySorted Z.lt (history [(ex_new 1, None); (ex_prune, Some 9%nat); (ex_new 3, None)] ex_world).1 /\
    Forall (fun q => 1 <= q < if_NextSeq f')%Z (history [(ex_new 1, None); (ex_prune, Some 9%nat); (ex_new 3, None)] ex_world).1.
Proof.
  apply (numbers_never_reused "state" [(ex_new 1, None); (ex_prune, Some 9%nat); (ex_new 3, None)] (mkindexFile 1 []) ex_world);
    [reflexivity|apply ex_sane_ulid|apply ex_sane_world|repeat (apply Forall_cons; split; [by repeat split|]); constructor|apply ex_first..|by vm_compute].
Defined.
