(* ===== verification/RunOpsProps.v ===== *)
(** * Recording, ending and pruning runs

    What [NewRun], [Finalize] and [Prune] leave on disk when they finish, as the readers of
    the store see it. *)

From S2P Require Import Prelude GoStrings GoTime Paths Effects Fs Json GoDate JsonText RunIndex RunStore RunStoreProps RunTrail RunHistory.

(** ** Sequence numbers as arguments *)
Lemma looksLikeSeq_itoa z : (0 < z)%Z -> looksLikeSeq (itoa z) = true.
Proof.
  intros Hz. destruct (itoa_cases z) as [[-> _]|(sg & a & d & -> & [[-> _]|[-> ?]] & Ha & Ha0 & Hd & _)]; [lia| |lia].
  rewrite str_app_nil_l. assert (str_all is_digit (String a d) = true) as Hall by (cbn; by rewrite Ha). revert Hall. unfold looksLikeSeq.
  destruct a as [[] [] [] [] [] [] [] []]; done.
Qed.

Lemma Atoi_value_itoa z : in_int z -> Atoi_value (itoa z) = z.
Proof. intros Hz. unfold Atoi_value. by rewrite atoi_itoa. Qed.

Lemma lookup_run_seq z l : (0 < z <= max_int)%Z -> lookup_run (itoa z) l = BySeq z l.
Proof.
  intros [Hz Hm]. unfold lookup_run. destruct (String.eqb_spec (itoa z) "") as [E|_]; [apply looksLikeSeq_itoa in Hz; by rewrite E in Hz|].
  destruct (String.eqb_spec (itoa z) "latest") as [E|_]; [apply looksLikeSeq_itoa in Hz; by rewrite E in Hz|]. cbn [orb].
  rewrite looksLikeSeq_itoa, Atoi_value_itoa by (unfold in_int, min_int in *; lia). by rewrite (proj2 (Z.leb_gt _ _)) by lia.
Qed.

(** Of the numbers there are, one leads to its entry. *)
Lemma BySeq_in l e : NoDup (map ie_Seq l) -> e ∈ l -> BySeq (ie_Seq e) l = Ok e.
Proof.
  unfold BySeq. induction l as [|x l IH]; [by intros _ ?%not_elem_of_nil|]. cbn [map List.find]. intros [Hx Hl]%NoDup_cons [->|Hin]%elem_of_cons.
  - by rewrite Z.eqb_refl.
  - destruct (Z.eqb_spec (ie_Seq x) (ie_Seq e)) as [E|_]; [|by apply IH]. exfalso. apply Hx. rewrite E. by apply (list_elem_of_fmap_2 ie_Seq).
Qed.

(** ** Reading an index that was written *)
Lemma load_entries b f : load_index b = Ok f -> if_Entries f <> [] -> exists s f0, b = Some s /\ s <> "" /\ decode_index s = Ok f0 /\ if_Entries f0 = if_Entries f.
Proof.
  destruct b as [s|]; [|by intros [= <-]]. destruct s as [|a s]; [by intros [= <-]|]. unfold load_index.
  destruct (decode_index (String a s)) as [f0|x] eqn:E; [|done]. cbn. intros Hf Hne. exists (String a s), f0. split_and!; [done|done|done|].
  destruct (_ =? 0)%Z; by injection Hf as <-.
Qed.

Section Reading.
Context {TF : TempFiles} {HO : Host} {UL : Ulid}.
Variable dir : string.

(** What [OpenReadOnly] gives. *)
Definition reader : Store := mkStore dir "" true.

Lemma run_ReadFile p w d : bytes_at w p = Some d -> (key p).2 <> [] -> run_store (sfs (call (ReadFile p))) w = (inl d, w).
Proof.
  intros Hb Hp. rewrite run_sfs. unfold call. rewrite run_call, (ReadFile_contents _ _ _ Hb Hp), run_ret. unfold with_fs. by destruct w.
Qed.

Lemma run_reader_Resolve f w id :
  disk_index dir w = Ok f -> if_Entries f <> [] -> run_store (Resolve reader id) w = (checked (lookup_run id (if_Entries f)), w).
Proof.
  intros Hd Hne. destruct (load_entries _ _ Hd Hne) as (s & f0 & Hb & Hs & Hdec & He). unfold Resolve. cbn [reader st_readOnly st_dir].
  rewrite run_bind, run_try. unfold ReadIndexEntries. rewrite run_bind, (run_ReadFile _ _ s); [|done|rewrite key_index; apply child_nonempty].
  rewrite run_ret. destruct s as [|a s]; [done|]. rewrite Hdec. cbn [wrap_err mbind]. rewrite <-He. reflexivity.
Qed.

Lemma run_ReadMeta p m w text :
  encode_meta m = Ok text -> wf_meta m -> bytes_at w p = Some text -> (key p).2 <> [] -> run_store (ReadMeta p) w = (Ok m, w).
Proof.
  intros Ht Hm Hb Hp. unfold ReadMeta. rewrite run_try, run_sfs, run_fails, (ReadFile_contents _ _ _ Hb Hp). cbn.
  rewrite (decode_encode_meta _ _ Hm Ht). by destruct w.
Qed.

Section Recorded.
Variable f : indexFile.
Hypothesis Hwf : wf_index f.
Hypothesis Hnum : numbered f.
Hypothesis Hmax : (if_NextSeq f < max_int)%Z.
Hypothesis Hhost : sane_host.

(** C25: a run that [NewRun] returned is on record: readers find it as the latest and by its
    number, with its directory, and its metadata reads back as it is.  The latest run is the
    one recorded last, whatever [now] is; docs/agent-guide/logs.md says the newest by start
    time, which is another one when the clock was set back in between ([latest_is_recorded]). *)
Theorem NewRun_recorded s now ref args w r w' :
  (forall n, ParseStrict (sw_ulids w n) = Ok tt) -> sane_world w ->
  st_dir s = dir -> Forall (fun x => valid_utf8 x = true) (ref :: st_writerVersion s :: args) ->
  disk_index dir w = Ok f -> run_store (NewRun s now ref args) w = (Ok r, w') ->
  exists e, ie_Seq e = rn_Seq r /\ ie_ULID e = rn_ID r /\ ie_PipelineRef e = ref /\ ie_StartedAt e = now /\ Finalized e = false /\
    run_store (Resolve reader "latest") w' = (Ok e, w') /\
    run_store (Resolve reader (itoa (rn_Seq r))) w' = (Ok e, w') /\
    RunDir reader e = Ok (rn_Dir r) /\
    run_store (ReadMeta (Join [rn_Dir r; "meta.json"])) w' = (Ok (rn_meta r), w').
Proof.
  intros Hids Hw Hs Htext Hd Hr. apply Forall_cons in Htext as [Href Htext]. apply Forall_cons in Htext as [Hver Hargs].
  destruct (NewRun_ok dir f Hwf Hnum Hmax Hhost _ _ _ _ _ _ _ Hs Href Hw Hd Hr) as (id & pid & -> & [k Hid] & He & Hd' & text & Ht & Hb).
  cbn [rn_Seq rn_ID rn_Dir rn_meta] in *. set (e0 := mkIndexEntry 0 id ref now zero_time 0 "" pid hostname) in *.
  exists (set_seq (if_NextSeq f) e0). assert (if_Entries (append_entry e0 f).2 <> []) as Hne by (cbn; by destruct (if_Entries f)).
  assert (ParseRunID id = Ok id) as Hparse by (unfold ParseRunID; by rewrite Hid, Hids).
  destruct Hnum as (H1 & H2 & H3).
  assert (numbered (append_entry e0 f).2) as (_ & _ & Hnd) by (eapply step_numbered; [exact Hmax|by split|constructor]).
  split_and!; try done.
  - rewrite (run_reader_Resolve _ _ _ Hd' Hne). cbn [append_entry snd if_Entries]. unfold lookup_run. cbn [String.eqb Ascii.eqb Bool.eqb orb].
    unfold Latest. rewrite last_snoc. unfold checked. cbn [mbind result_bind ie_ULID set_seq e0]. by rewrite Hparse.
  - rewrite (run_reader_Resolve _ _ _ Hd' Hne), lookup_run_seq by lia.
    assert (BySeq (if_NextSeq f) (if_Entries (append_entry e0 f).2) = Ok (set_seq (if_NextSeq f) e0)) as ->.
    { apply (BySeq_in _ (set_seq (if_NextSeq f) e0) Hnd). apply elem_of_app. right. by apply list_elem_of_singleton. }
    unfold checked. cbn. by rewrite Hparse.
  - unfold RunDir. cbn. by rewrite Hparse.
  - eapply run_ReadMeta; [exact Ht| |exact Hb|rewrite key_child by (by repeat split); apply child_nonempty].
    destruct He as (_ & _ & _ & Hu). apply Forall_cons in Hu as [Hu _]. cbn [ie_ULID e0] in Hu.
    assert (json_time now = true) as Hjt.
    { revert Ht. unfold encode_meta. cbn. by destruct (json_time now). }
    split_and!; [unfold in_int, min_int, max_int in *; cbn; lia|by split; vm_compute| |done|done]. by repeat (apply Forall_cons; split).
Qed.

(** The latest run is not the newest by start time, when the clock was set back. *)
Example latest_is_recorded :
  let run n started := mkIndexEntry n "" "p" started zero_time 0 "" 1 "h" in
  Latest [run 1 20; run 2 10]%Z = Ok (run 2 10)%Z.
Proof. reflexivity. Qed.

(** Ending a run, as a map over the entries. *)
Definition ended (n t code : Z) (status : string) (e : IndexEntry) : IndexEntry := if (ie_Seq e =? n)%Z then set_end t code status e else e.

Lemma update_ended n t code status l :
  NoDup (map ie_Seq l) ->
  match update_entry n (set_end t code status) l with
  | Some l' => l' = map (ended n t code status) l
  | None => map (ended n t code status) l = l
  end.
Proof.
  unfold ended. induction l as [|e l IH]; [done|]. cbn. intros [He Hl]%NoDup_cons. specialize (IH Hl). destruct (Z.eqb_spec (ie_Seq e) n) as [<-|Hne].
  - f_equal. clear IH. induction l as [|x l IH]; [done|]. cbn in *. apply not_elem_of_cons in He as [Hx He]. apply NoDup_cons in Hl as [_ Hl].
    rewrite (proj2 (Z.eqb_neq (ie_Seq x) (ie_Seq e))) by done. f_equal. by apply IH.
  - destruct (update_entry n _ l) as [l'|]; cbn; by rewrite IH.
Qed.

Lemma run_Update n t code status w x w' :
  in_int code -> valid_utf8 status = true -> disk_index dir w = Ok f ->
  run_store ('(x, _) ← Update (mkIndex dir f) n (set_end t code status); Ret x) w = (Ok x, w') ->
  disk_index dir w' = Ok (mkindexFile (if_NextSeq f) (map (ended n t code status) (if_Entries f))) /\
  forall j, not_temp dir j -> j <> key (index_path dir) -> contents (files w') j = contents (files w) j.
Proof.
  clear Hmax. intros Hc Hst Hd. pose proof (update_ended n t code status (if_Entries f) (proj2 (proj2 Hnum))) as Hu. unfold Update. cbn [ix_data ix_dir].
  destruct (update_entry n _ _) as [l|] eqn:El.
  - rewrite !run_bind. destruct (run_store (flush _) w) as [[[]|e] w1] eqn:Ef; rewrite !run_ret; [|done]. intros [= <- <-]. split.
    + apply (flush_ok dir) in Ef as (text & Et & Hb); [|done]. unfold disk_index. rewrite Hb. subst l. cbn [ix_data] in Et.
      refine (proj1 (load_encoded _ _ _ _ Et)); [by eapply plain_update|destruct Hnum; cbn; lia].
    + intros j Hj Hi. change w1 with (Ok tt, w1).2. rewrite <-Ef, flush_atomic_write. by apply atomic_frame.
  - rewrite run_bind, !run_ret. intros [= <- <-]. rewrite Hu. split; [|done]. by destruct f.
Qed.

(** once [Finalize] returned without an error, the entry of its run, and no other, has
    the end, the exit code and the status given; the run counts as finished with that status,
    whatever the time, and its metadata says the same. *)
Theorem Finalize_recorded r t code status w w' :
  st_dir (rn_store r) = dir -> in_int code -> valid_utf8 status = true -> IsZero t = false ->
  disk_index dir w = Ok f -> run_store (Finalize r t code status) w = (Ok tt, w') ->
  disk_index dir w' = Ok (mkindexFile (if_NextSeq f) (map (ended (rn_Seq r) t code status) (if_Entries f))) /\
  (forall e now, ie_Seq e = rn_Seq r -> EffectiveStatus now (ended (rn_Seq r) t code status e) = status /\ InFlight now (ended (rn_Seq r) t code status e) = false) /\
  (wf_meta (rn_meta r) -> exists m, run_store (ReadMeta (Join [rn_Dir r; "meta.json"])) w' = (Ok m, w') /\
     me_EndedAt m = t /\ me_ExitCode m = code /\ me_Status m = status /\ me_StartedAt m = me_StartedAt (rn_meta r) /\ me_Args m = me_Args (rn_meta r)).
Proof.
  clear Hmax. intros Hs Hc Hst Ht Hd Hr. unfold Finalize in Hr. rewrite Hs, run_try in Hr. set (m := mkMeta _ _ _ _ _ _ _ _ _ _) in Hr.
  destruct (run_store (WriteMeta _ m) w) as [[[]|x] w1] eqn:Em; [|done].
  assert (disk_index dir w1 = Ok f) as Hd1.
  { unfold disk_index. rewrite <-Hd. unfold disk_index. f_equal. change w1 with (Ok tt, w1).2. rewrite <-Em.
    apply (trail_end dir (fun b => b = _)). apply trail_WriteMeta; [apply meta_not_index|done]. }
  apply run_WriteMeta in Em as [(text & Et & Hb) _]; [|rewrite key_child by (by repeat split); by apply not_temp_named].
  pose proof (key_child (rn_Dir r) "meta.json" ltac:(by repeat split)) as Hkey. set (mp := Join [rn_Dir r; "meta.json"]) in *.
  apply run_with_index in Hr as [[? _]|(f0 & w2 & Hf0 & Hs2 & Hr)]; [done|]. rewrite Hd1 in Hf0. injection Hf0 as <-.
  apply run_Update in Hr as [Hd' Hframe]; [|done|done|unfold disk_index; rewrite (same_index dir _ _ Hs2); exact Hd1].
  split_and!; [done| |].
  - intros e now Hn. unfold ended, EffectiveStatus, InFlight, Finalized. rewrite Hn, Z.eqb_refl. cbn. by rewrite Ht.
  - intros Hm. exists m. split; [|done]. destruct Hm as (Hm1 & _ & Hm3 & _). do 5 (apply Forall_cons in Hm3 as [? Hm3]).
    eapply run_ReadMeta; [exact Et| | |rewrite Hkey; apply child_nonempty].
    + assert (json_time (me_StartedAt (rn_meta r)) && json_time t = true) as Hjt%andb_true_iff.
      { revert Et. unfold encode_meta. cbn. by destruct (json_time _ && _). }
      split_and!; [done|done| |apply Hjt..]. by repeat (apply Forall_cons; split).
    + unfold bytes_at in *. rewrite Hframe, (proj1 Hs2).
      * exact Hb.
      * rewrite Hkey. unfold lock_key. rewrite key_child by by repeat split. by intros [_ [=]]%child_inj.
      * rewrite Hkey. by apply not_temp_named.
      * rewrite Hkey, key_index. by intros [_ [=]]%child_inj.
Qed.
End Recorded.
End Reading.

(** ** A run from its start to its end *)
#[local] Existing Instance ex_host.
#[local] Existing Instance ex_ulid.

Lemma ex_sane_host : sane_host.
Proof. reflexivity. Qed.

Definition ex_started := run store_answer (NewRun ex_store ex_start "pipeline.yaml" ["run"; "-f"; "pipeline.yaml"]) ex_world.

Lemma ex_started_ok : is_ok ex_started.1 = true.
Proof. vm_compute. reflexivity. Qed.

Lemma ex_text : Forall (fun x => valid_utf8 x = true) ("pipeline.yaml" :: st_writerVersion ex_store :: ["run"; "-f"; "pipeline.yaml"]).
Proof. by repeat (apply Forall_cons; split). Qed.

Lemma NewRun_recorded_witness :
  match ex_started with
  | (Ok r, w') =>
    exists e, ie_Seq e = rn_Seq r /\ ie_ULID e = rn_ID r /\ ie_PipelineRef e = "pipeline.yaml" /\ ie_StartedAt e = ex_start /\ Finalized e = false /\
      run store_answer (Resolve (reader "state") "latest") w' = (Ok e, w') /\
      run store_answer (Resolve (reader "state") (itoa (rn_Seq r))) w' = (Ok e, w') /\
      RunDir (reader "state") e = Ok (rn_Dir r) /\
      run store_answer (ReadMeta (Join [rn_Dir r; "meta.json"])) w' = (Ok (rn_meta r), w')
  | _ => False
  end.
Proof.
  pose proof ex_started_ok as Hok. destruct ex_started as [[r|x] w'] eqn:E; [|done]. clear Hok.
  apply (NewRun_recorded "state" (mkindexFile 1 []) (proj1 (proj2 ex_first)) (proj2 (proj2 ex_first)) eq_refl ex_sane_host
    ex_store ex_start "pipeline.yaml" ["run"; "-f"; "pipeline.yaml"] ex_world);
    [by intros [|[|[|[]]]]|apply ex_sane_world|reflexivity|apply ex_text|apply ex_first|exact E].
Defined.

(** The index it leaves. *)
Lemma ex_started_index r w : ex_started = (Ok r, w) -> exists f, disk_index "state" w = Ok f /\ wf_index f /\ numbered f /\ st_dir (rn_store r) = "state".
Proof.
  intros E. destruct ex_first as (Hd & Hwf & Hnum).
  pose proof (trail_NewRun "state" _ Hwf Hnum eq_refl ex_sane_host ex_store ex_start "pipeline.yaml" ["run"; "-f"; "pipeline.yaml"] ex_world eq_refl eq_refl ex_sane_world Hd) as Ht.
  apply trail_end in Ht. fold ex_started in Ht. rewrite E in Ht. destruct Ht as (f' & Hd' & Hs & Hwf'). exists f'. split_and!; [done|done| |].
  - refine (proj1 (step_numbered _ _ _ Hnum Hs)). by vm_compute.
  - by destruct (NewRun_ok "state" _ Hwf Hnum eq_refl ex_sane_host ex_store ex_start "pipeline.yaml" ["run"; "-f"; "pipeline.yaml"] ex_world r w eq_refl eq_refl ex_sane_world Hd E) as (id & pid & -> & _).
Qed.

Lemma ex_finalized :
  match ex_started with (Ok r, w) => is_ok (run store_answer (Finalize r (ex_start + 1000000000) 0 "succeeded") w).1 | _ => false end = true.
Proof. vm_compute. reflexivity. Qed.

Lemma Finalize_recorded_witness :
  match ex_started with
  | (Ok r, w) =>
    match run store_answer (Finalize r (ex_start + 1000000000) 0 "succeeded") w with
    | (Ok _, w') => exists f, disk_index "state" w' = Ok (mkindexFile (if_NextSeq f) (map (ended (rn_Seq r) (ex_start + 1000000000) 0 "succeeded") (if_Entries f)))
    | _ => False
    end
  | _ => False
  end.
Proof.
  pose proof ex_started_ok as Hok. destruct ex_started as [[r|x] w] eqn:E; [|done]. clear Hok. pose proof (ex_started_index _ _ E) as (f & Hd & Hwf & Hnum & Hdir).
  destruct (run store_answer (Finalize _ _ _ _) w) as [[[]|x] w'] eqn:E'.
  - exists f. refine (proj1 (Finalize_recorded "state" f Hwf Hnum r (ex_start + 1000000000) 0 "succeeded" w w' Hdir _ eq_refl eq_refl Hd E')). by split; vm_compute.
  - pose proof ex_finalized as Hf. rewrite E, E' in Hf. done.
Defined.
