(* ===== verification/RunPrune.v ===== *)
(** * Retention

    The rule by which [Prune] gives up runs, told without sorting and slicing, and what a
    prune leaves on disk. *)

From S2P Require Import Prelude GoStrings GoTime Paths Effects Fs Json GoDate JsonText RunIndex RunStore RunStoreProps RunTrail RunHistory RunOpsProps.

(** ** The rule *)
Section Rule.
Context {HO : Host} {UL : Ulid}.

(** Runs that may go: with a valid id, and not in flight. *)
Definition prunable (now : Z) (e : IndexEntry) : bool := valid_id e && negb (InFlight now e).

(** How many of them are newer. *)
Definition newer (now : Z) (l : list IndexEntry) (e : IndexEntry) : nat :=
  length (List.filter (fun x => prunable now x && (ie_Seq e <? ie_Seq x)%Z) l).

(** The rule of the documentation: all of them; or those beyond the newest KeepRuns less
    the reserve; or those that ended more than KeepDays days ago. *)
Definition expired (o : PruneOptions) (now : Z) (l : list IndexEntry) (e : IndexEntry) : Prop :=
  prunable now e = true /\
  (po_All o = true \/
   (0 < po_KeepRuns o)%Z /\ (po_KeepRuns o - po_Reserve o <= Z.of_nat (newer now l e))%Z \/
   (0 < po_KeepDays o)%Z /\ (age_ref e < now - po_KeepDays o * 86400000000000)%Z).

(** Numbers small enough for the arithmetic: 106751 days are the 292 years of a Duration. *)
Definition options_in_range (o : PruneOptions) : Prop :=
  in_int (po_KeepRuns o - po_Reserve o) /\ (po_KeepDays o <= 106751)%Z.

Lemma days_back_exact d : (0 < d <= 106751)%Z -> days_back d = (- (d * 86400000000000))%Z.
Proof.
  intros Hd. unfold days_back. rewrite (wrap64_id (- d)), (wrap64_id (- d * 24)), wrap64_id by (unfold min_int, max_int; lia). lia.
Qed.

(** Of a list in strict order, all but the last [n]: those with [n] above them. *)
Lemma take_below l n e :
  StronglySorted (fun a b => (ie_Seq a < ie_Seq b)%Z) l ->
  e ∈ take (length l - n) l <-> e ∈ l /\ n <= length (List.filter (fun x => (ie_Seq e <? ie_Seq x)%Z) l).
Proof.
  induction l as [|x l IH]; intros Hs; [cbn; split; [by intros ?%not_elem_of_nil|by intros [?%not_elem_of_nil _]]|].
  apply StronglySorted_inv in Hs as [Hs Hx]. specialize (IH Hs). rewrite Forall_forall in Hx.
  assert (forall l', (forall y, y ∈ l' -> (ie_Seq x < ie_Seq y)%Z) -> length (List.filter (fun y => (ie_Seq x <? ie_Seq y)%Z) l') = length l') as Hall.
  { induction l' as [|y l' IHl]; intros Hl; [done|]. cbn. rewrite (proj2 (Z.ltb_lt _ _)) by (apply Hl; left). cbn. f_equal. apply IHl. intros z Hz. apply Hl. by right. }
  assert (length (List.filter (fun y => (ie_Seq e <? ie_Seq y)%Z) l) <= length l) as Hle by apply List.filter_length_le.
  cbn [length List.filter]. destruct (decide (n <= length l)) as [Hn|Hn].
  - replace (S (length l) - n) with (S (length l - n)) by lia. cbn [take]. rewrite elem_of_cons, IH, elem_of_cons. split.
    + intros [->|[Hin Hc]]; [|split; [by right|]].
      * split; [by left|]. rewrite Z.ltb_irrefl. by rewrite Hall.
      * destruct (ie_Seq e <? ie_Seq x)%Z; cbn; lia.
    + intros [[->|Hin] Hc]; [by left|right]. split; [done|]. specialize (Hx e Hin). rewrite (proj2 (Z.ltb_ge _ _)) in Hc by lia. done.
  - replace (S (length l) - n) with 0 by lia. cbn [take]. split; [by intros ?%not_elem_of_nil|]. intros [Hin Hc]. exfalso.
    apply elem_of_cons in Hin as [->|Hin]; [rewrite Z.ltb_irrefl in Hc; lia|]. specialize (Hx e Hin). rewrite (proj2 (Z.ltb_ge _ _)) in Hc by lia. lia.
Qed.

Definition seq_lt (a b : IndexEntry) : Prop := (ie_Seq a < ie_Seq b)%Z.

Lemma sorted_strict l : NoDup (map ie_Seq l) -> StronglySorted seq_lt (stable_sort seq_less l).
Proof.
  intros Hnd. assert (NoDup (map ie_Seq (stable_sort seq_less l))) as Hnd' by (by rewrite (stable_sort_perm seq_less l)).
  assert (StronglySorted (fun a b => seq_less b a = false) (stable_sort seq_less l)) as Hs.
  { apply stable_sort_sorted; unfold seq_less; [intros x y z; rewrite !Z.ltb_ge; lia|intros x y; rewrite Z.ltb_lt, Z.ltb_ge; lia]. }
  revert Hs Hnd'. generalize (stable_sort seq_less l) as k. clear. induction k as [|x k IH]; intros Hs Hnd; [constructor|].
  apply StronglySorted_inv in Hs as [Hs Hx]. cbn in Hnd. apply NoDup_cons in Hnd as [Hn Hnd]. constructor; [by apply IH|].
  rewrite Forall_forall in Hx |- *. intros y Hy. specialize (Hx y Hy). apply Z.ltb_ge in Hx. unfold seq_lt.
  assert (ie_Seq x <> ie_Seq y); [|lia]. intros E. apply Hn. rewrite E. by apply (list_elem_of_fmap_2 ie_Seq).
Qed.

Lemma filter_sorted {A} (R : A -> A -> Prop) p l : StronglySorted R l -> StronglySorted R (List.filter p l).
Proof.
  induction 1 as [|x l _ IH Hx]; [constructor|]. cbn. destruct (p x); [|done]. constructor; [done|].
  rewrite Forall_forall in Hx |- *. intros y Hy. apply Hx. apply list_elem_of_In, filter_In in Hy as [Hy _]. by apply list_elem_of_In.
Qed.

Lemma elem_of_bfilter {A} p (x : A) l : x ∈ List.filter p l <-> x ∈ l /\ p x = true.
Proof. by rewrite list_elem_of_In, filter_In, <-list_elem_of_In. Qed.

Lemma filter_perm_length {A} p (l k : list A) : l ≡ₚ k -> length (List.filter p l) = length (List.filter p k).
Proof. induction 1 as [|x l k _ IH|x y l|l k m _ IH1 _ IH2]; cbn; [done| |by destruct (p x), (p y)|congruence]. by destruct (p x); cbn; rewrite IH. Qed.

Lemma filter_and {A} (p q : A -> bool) l : List.filter q (List.filter p l) = List.filter (fun x => p x && q x) l.
Proof. induction l as [|x l IH]; [done|]. cbn. destruct (p x); cbn; [by destruct (q x); rewrite IH|done]. Qed.

(** The slices and comparisons of the code follow the rule. *)
Lemma given_up_expired o now l e :
  NoDup (map ie_Seq l) -> options_in_range o ->
  e ∈ given_up o now (List.filter (prunable now) (stable_sort seq_less l)) <-> e ∈ l /\ expired o now l e.
Proof.
  intros Hnd [Hr Hd]. set (P := List.filter (prunable now) (stable_sort seq_less l)).
  assert (forall x, x ∈ P <-> x ∈ l /\ prunable now x = true) as HP.
  { intros x. unfold P. by rewrite elem_of_bfilter, (stable_sort_perm seq_less l). }
  assert (StronglySorted (fun a b => (ie_Seq a < ie_Seq b)%Z) P) as Hs by by apply filter_sorted, sorted_strict.
  assert (length (List.filter (fun x => (ie_Seq e <? ie_Seq x)%Z) P) = newer now l e) as Hnew.
  { unfold P, newer. rewrite filter_and. apply filter_perm_length, stable_sort_perm. }
  unfold given_up, expired. destruct (po_All o); [rewrite HP; naive_solver|]. rewrite elem_of_app.
  assert (e ∈ (if (0 <? po_KeepRuns o)%Z then take (Z.to_nat (Z.of_nat (length P) - Z.max 0 (wrap64 (po_KeepRuns o - po_Reserve o)))) P else []) <->
          e ∈ P /\ (0 < po_KeepRuns o)%Z /\ (po_KeepRuns o - po_Reserve o <= Z.of_nat (newer now l e))%Z) as ->.
  { destruct (Z.ltb_spec 0 (po_KeepRuns o)); [|split; [by intros ?%not_elem_of_nil|lia]]. rewrite wrap64_id by exact Hr.
    replace (Z.to_nat (Z.of_nat (length P) - Z.max 0 (po_KeepRuns o - po_Reserve o))) with (length P - Z.to_nat (Z.max 0 (po_KeepRuns o - po_Reserve o))) by lia.
    rewrite take_below by done. rewrite Hnew. split; [intros [? ?]; split; [done|lia]|intros (? & _ & ?); split; [done|lia]]. }
  assert (e ∈ (if (0 <? po_KeepDays o)%Z then List.filter (fun x => (age_ref x <? now + days_back (po_KeepDays o))%Z) P else []) <->
          e ∈ P /\ (0 < po_KeepDays o)%Z /\ (age_ref e < now - po_KeepDays o * 86400000000000)%Z) as ->.
  { destruct (Z.ltb_spec 0 (po_KeepDays o)); [|split; [by intros ?%not_elem_of_nil|lia]]. rewrite elem_of_bfilter, days_back_exact, Z.ltb_lt by lia.
    split; [intros [? ?]; split; [done|lia]|intros (? & _ & ?); split; [done|lia]]. }
  rewrite HP. naive_solver.
Qed.
End Rule.

(** ** On disk *)
Section Disk.
Context {TF : TempFiles} {HO : Host} {UL : Ulid}.
Variable dir : string.

Lemma swept_full P l t : swept P l t -> length l <= length t -> t = l.
Proof.
  induction 1 as [|e l t _ IH|e l t _ Ht _]; intros Hl; [done| |].
  - f_equal. apply IH. cbn in Hl. lia.
  - apply swept_submseteq, submseteq_length in Ht. cbn in Hl. lia.
Qed.

Lemma seq_inj l a b : NoDup (map ie_Seq l) -> a ∈ l -> b ∈ l -> ie_Seq a = ie_Seq b -> a = b.
Proof. intros Hnd Ha Hb E. pose proof (BySeq_in l a Hnd Ha) as H1. pose proof (BySeq_in l b Hnd Hb) as H2. rewrite E in H1. congruence. Qed.

Lemma kept_false l gone e :
  NoDup (map ie_Seq l) -> (forall x, x ∈ gone -> x ∈ l) -> e ∈ l -> kept gone e = false <-> e ∈ gone.
Proof.
  intros Hnd Hsub He. unfold kept. rewrite negb_false_iff, existsb_exists. split.
  - intros (g & Hg & E%Z.eqb_eq). apply list_elem_of_In in Hg. by rewrite <-(seq_inj l g e Hnd (Hsub g Hg) He E).
  - intros Hg. exists e. split; [by apply list_elem_of_In|apply Z.eqb_refl].
Qed.

Variable f : indexFile.
Hypothesis Hwf : wf_index f.
Hypothesis Hnum : numbered f.
Hypothesis Hulid : sane_ulid.

Definition prune_now (o : PruneOptions) (w : store_world) : Z := if IsZero (po_Now o) then w_now (sw_fs w) else po_Now o.

Lemma run_join_errors k errs : (join_errors k errs).1 = k /\ ((join_errors k errs).2 = None -> errs = []).
Proof. by destruct errs. Qed.

(** The index is written when something was deleted; the flush that fails leaves it. *)
Lemma run_rewrite d t errs w errs' w' :
  t ⊆+ if_Entries f -> disk_index dir w = Ok f ->
  run_store (if (0 <? d)%nat then r ← replaceEntries (mkIndex dir f) t; Ret (match r with Ok _ => errs | Err x => errs ++ [Fmt "rewrite index: %w" [TErr x]] end)
             else Ret errs) w = (errs', w') ->
  (errs' = errs /\ 0 < d /\ disk_index dir w' = Ok (mkindexFile (if_NextSeq f) t) \/
   (errs' <> [] \/ errs' = errs /\ d = 0) /\ disk_index dir w' = Ok f) /\
  forall j, not_temp dir j -> j <> key (index_path dir) -> contents (files w') j = contents (files w) j.
Proof.
  intros Hsub Hd. destruct (Nat.ltb_spec 0 d) as [Hlt|Hge]; [|intros [= <- <-]; split; [|done]; right; split; [right; split; [done|lia]|done]].
  rewrite run_bind. unfold replaceEntries. cbn [ix_dir ix_data]. set (i := mkIndex dir _).
  assert (plain_index (ix_data i)) as Hp.
  { destruct (wf_plain _ Hwf) as [Hn Hp]. split; [done|]. cbn. rewrite Forall_forall in Hp |- *. intros e He. apply Hp. by eapply elem_of_submseteq. }
  pose proof (atomic_write_spec dir (index_path dir) (encode_index (ix_data i)) true ".index-*.tmp" w) as [_ Hf].
  change (atomic_write _ _ _ _ _) with (flush i) in Hf.
  destruct (run_store (flush i) w) as [[[]|x] w1]; rewrite run_ret; intros [= <- <-]; cbn [fst snd] in Hf.
  - destruct Hf as (text & Et & Hf). split; [left; split_and!; [done|done|]|].
    + unfold disk_index, bytes_at. rewrite Hf, decide_True by (done || apply idx_not_temp).
      refine (proj1 (load_encoded _ _ Hp _ Et)). destruct Hnum. cbn. lia.
    + intros j Hj Hi. by rewrite Hf, decide_False.
  - split; [right; split; [left; by destruct errs|]|].
    + rewrite <-Hd. unfold disk_index, bytes_at. by rewrite Hf, decide_True by (done || apply idx_not_temp).
    + intros j Hj Hi. by rewrite Hf, decide_False.
Qed.

Lemma run_key_frame e j : under (run_key dir e) j -> not_temp dir j /\ j <> key (index_path dir) /\ j <> lock_key dir.
Proof.
  intros [_ [l Hl]]. unfold run_key, child in Hl. cbn in Hl. rewrite <-!app_assoc in Hl. split_and!.
  - intros (nm & _ & _ & ->). unfold child in Hl. cbn in Hl. by apply app_inv_head in Hl.
  - intros ->. rewrite key_index in Hl. unfold child in Hl. cbn in Hl. by apply app_inv_head in Hl.
  - intros ->. unfold lock_key in Hl. rewrite key_child in Hl by by repeat split. unfold child in Hl. cbn in Hl. by apply app_inv_head in Hl.
Qed.

(** Directories of runs are apart. *)
Lemma run_key_inj e e' j : under (run_key dir e) j -> under (run_key dir e') j -> ie_ULID e = ie_ULID e'.
Proof.
  intros [_ [l Hl]] [_ [l' Hl']]. unfold run_key, child in Hl, Hl'. cbn in Hl, Hl'. rewrite <-!app_assoc in Hl, Hl'. rewrite Hl in Hl'.
  apply app_inv_head in Hl'. by injection Hl'.
Qed.

Lemma ulid_inj l a b : NoDup (map ie_ULID l) -> a ∈ l -> b ∈ l -> ie_ULID a = ie_ULID b -> a = b.
Proof.
  induction l as [|x l IH]; [by intros _ ?%not_elem_of_nil|]. cbn. intros [Hx Hl]%NoDup_cons Ha Hb E.
  assert (forall y, y ∈ l -> ie_ULID y <> ie_ULID x) as Hno by (intros y Hy Ey; apply Hx; rewrite <-Ey; by apply (list_elem_of_fmap_2 ie_ULID)).
  apply elem_of_cons in Ha as [->|Ha], Hb as [->|Hb]; [done|by destruct (Hno b)|by destruct (Hno a)|by apply IH].
Qed.

Lemma run_prune_index s o hasWarn now w n err w' :
  st_dir s = dir -> disk_index dir w = Ok f -> run_store (prune_index s o hasWarn now (mkIndex dir f)) w = (Ok (n, err), w') ->
  let sorted := stable_sort seq_less (if_Entries f) in
  let gone := given_up o now (List.filter (prunable now) sorted) in
  exists t, swept (dropped dir gone w') sorted t /\ n = length sorted - length t /\
    (forall e, e ∈ sorted -> kept gone e = true -> e ∈ t) /\
    (err = None -> Forall (fun e => kept gone e = true \/ valid_id e = false) t) /\
    (disk_index dir w' = Ok (mkindexFile (if_NextSeq f) t) \/ (is_Some err \/ t = sorted) /\ disk_index dir w' = Ok f) /\
    (forall j, not_temp dir j -> j <> key (index_path dir) ->
      (forall e, e ∈ sorted -> kept gone e = false -> valid_id e = true -> ~ under (run_key dir e) j) -> contents (files w') j = contents (files w) j).
Proof.
  intros Hs Hd Hr sorted gone. unfold prune_index in Hr. cbn [ix_data] in Hr. fold sorted in Hr. rewrite run_bind in Hr.
  assert (run_store (if hasWarn then foldP (fun _ e => if valid_id e then Ret tt else call (Warn (invalid_warning e))) tt sorted else Ret tt) w = (tt, w)) as Hwarn.
  { destruct hasWarn; [|done]. generalize sorted as l. induction l as [|e l IH]; [done|]. cbn [foldP]. rewrite run_bind. by destruct (valid_id e). }
  rewrite Hwarn, run_bind in Hr. fold (prunable now) in Hr. change (given_up _ _ _) with gone in Hr.
  pose proof (run_prune_loop dir Hulid s Hs gone sorted 0 [] [] w) as Hl. destruct (run_store (foldP _ _ _) w) as [[[d sv] errs] w1].
  destruct Hl as [(t & -> & Ht & -> & Hk & He) Hj]. rewrite run_bind in Hr. cbn [app] in Hr.
  assert (disk_index dir w1 = Ok f) as Hd1.
  { rewrite <-Hd. unfold disk_index, bytes_at. f_equal. destruct (Hj (key (index_path dir))) as [->|(_ & e & _ & _ & _ & Hu)]; [done|].
    by apply run_key_frame in Hu as (_ & ? & _). }
  match type of Hr with context [run_store ?p w1] => destruct (run_store p w1) as [errs' w2] eqn:E end.
  apply run_rewrite in E as [Hcase Hf]; [|by rewrite <-(stable_sort_perm seq_less (if_Entries f)); apply swept_submseteq in Ht|done].
  rewrite run_ret in Hr. injection Hr as Hn <-. pose proof (run_join_errors (length sorted - length t) errs') as [Hn1 He1]. rewrite Hn in Hn1, He1. cbn [fst snd] in Hn1, He1.
  exists t. split_and!.
  - eapply swept_mono, Ht. intros e (? & ? & Hg). split_and!; [done|done|]. intros j Hu. destruct (run_key_frame _ _ Hu) as (? & ? & _). rewrite Hf by done. by apply Hg.
  - done.
  - done.
  - intros Hn'. apply He1 in Hn' as ->. apply He. destruct Hcase as [[? _]|[[?|[? _]] _]]; done.
  - destruct Hcase as [(_ & _ & ?)|[[Hne|[_ Hz]] ?]]; [by left|right..]; (split; [|done]).
    + left. destruct err; [done|]. by destruct Hne, He1.
    + right. apply (swept_full _ _ _ Ht). lia.
  - intros j Hj1 Hj2 Hno. rewrite Hf by done. destruct (Hj j) as [?|(_ & e & ? & ? & ? & Hu)]; [done|]. by destruct (Hno e).
Qed.

(** C24: a prune that finishes leaves every run the rule does not expire, in the index and on
    disk; what left the index has no file left; and without an error exactly the expired
    runs are gone, and counted. *)
Theorem Prune_follows_rule s o hasWarn w n err w' :
  st_dir s = dir -> disk_index dir w = Ok f -> options_in_range o ->
  run_store (Prune s o hasWarn) w = (Ok (n, err), w') ->
  exists f', disk_index dir w' = Ok f' /\ if_NextSeq f' = if_NextSeq f /\
    (forall e, e ∈ if_Entries f' -> e ∈ if_Entries f) /\
    (forall e, e ∈ if_Entries f -> ~ expired o (prune_now o w) (if_Entries f) e -> e ∈ if_Entries f') /\
    (forall e, e ∈ if_Entries f -> e ∈ if_Entries f' \/ gone_from dir w' e) /\
    (err = None -> n = length (if_Entries f) - length (if_Entries f') /\
      forall e, e ∈ if_Entries f -> e ∈ if_Entries f' <-> ~ expired o (prune_now o w) (if_Entries f) e) /\
    (NoDup (map ie_ULID (if_Entries f)) -> forall e j, e ∈ if_Entries f -> ~ expired o (prune_now o w) (if_Entries f) e ->
      under (run_key dir e) j -> contents (files w') j = contents (files w) j).
Proof.
  intros Hs Hd Hrange Hr. unfold Prune in Hr. rewrite Hs, run_bind in Hr.
  assert (run_store (if IsZero (po_Now o) then sfs (call Now) else Ret (po_Now o)) w = (prune_now o w, w)) as Hnow.
  { unfold prune_now. destruct (IsZero (po_Now o)); [|done]. rewrite run_sfs. by destruct w as [[t k] u p]. }
  rewrite Hnow in Hr. apply run_with_index in Hr as [[? _]|(f0 & w1 & Hf0 & Hs1 & Hr)]; [done|]. rewrite Hd in Hf0. injection Hf0 as <-.
  set (now := prune_now o w) in *. clearbody now. clear Hnow.
  assert (disk_index dir w1 = Ok f) as Hd1 by (unfold disk_index; rewrite (same_index dir _ _ Hs1); exact Hd).
  apply run_prune_index in Hr as (t & Ht & -> & Hk & He & Hcase & Hframe); [|done|done]. destruct Hnum as (_ & _ & Hnd).
  set (sorted := stable_sort seq_less (if_Entries f)) in *. set (gone := given_up _ _ _) in *.
  assert (sorted ≡ₚ if_Entries f) as Hperm by apply stable_sort_perm.
  assert (forall e, e ∈ sorted -> kept gone e = false <-> expired o now (if_Entries f) e) as Hgone.
  { intros e Hin. rewrite (kept_false (if_Entries f)); [|done| |by rewrite <-Hperm].
    - unfold gone, sorted. rewrite given_up_expired by done. rewrite Hperm in Hin. naive_solver.
    - intros x. unfold gone, sorted. rewrite given_up_expired by done. by intros [? _]. }
  assert (forall e, e ∈ sorted -> ~ expired o now (if_Entries f) e -> e ∈ t) as Hstay.
  { intros e Hin Hne. apply Hk; [done|]. destruct (kept gone e) eqn:E; [done|]. by apply Hgone in E. }
  assert (forall f', if_Entries f' = t \/ (is_Some err \/ t = sorted) /\ f' = f -> 
    (forall e, e ∈ if_Entries f' -> e ∈ if_Entries f) /\
    (forall e, e ∈ if_Entries f -> ~ expired o now (if_Entries f) e -> e ∈ if_Entries f') /\
    (forall e, e ∈ if_Entries f -> e ∈ if_Entries f' \/ gone_from dir w' e) /\
    (err = None -> length sorted - length t = length (if_Entries f) - length (if_Entries f') /\
      forall e, e ∈ if_Entries f -> e ∈ if_Entries f' <-> ~ expired o now (if_Entries f) e)) as Hall.
  { assert (err = None -> forall e, e ∈ t -> ~ expired o now (if_Entries f) e) as Hnot.
    { intros Hn e Hin Hex. specialize (He Hn). rewrite Forall_forall in He. assert (e ∈ sorted) as Hso by (by eapply elem_of_submseteq, swept_submseteq).
      apply Hgone in Hex as Hkf; [|done]. destruct Hex as [Hv _]. unfold prunable in Hv. destruct (He e Hin) as [E|E]; rewrite E in *; done. }
    assert (forall e, e ∈ if_Entries f <-> e ∈ sorted) as Hin by (intros e; by rewrite Hperm).
    intros f' [Et|[Hwhy ->]].
    - rewrite Et. split_and!.
      + intros e Hi. apply Hin. by eapply elem_of_submseteq, swept_submseteq.
      + intros e Hi%Hin. by apply Hstay.
      + intros e Hi%Hin. destruct (swept_in _ _ _ _ Ht Hi) as [?|(? & ? & ?)]; [by left|by right].
      + intros Hn. split; [by rewrite Hperm|]. intros e Hi%Hin. split; [by apply Hnot|by apply Hstay].
    - split_and!; [done|done|by left|]. intros Hn. destruct Hwhy as [[x Hx]| ->]; [by rewrite Hn in Hx|]. split; [lia|].
      intros e Hi. split; [|done]. intros _. by apply Hnot, Hin. }
  assert (NoDup (map ie_ULID (if_Entries f)) -> forall e j, e ∈ if_Entries f -> ~ expired o now (if_Entries f) e ->
      under (run_key dir e) j -> contents (files w') j = contents (files w) j) as Hfr.
  { intros Hu e j Hin Hne Hj. destruct (run_key_frame _ _ Hj) as (? & ? & ?). rewrite Hframe; [by apply Hs1|done|done|].
    intros e' Hin' Hkept _ Hj'. apply Hne. assert (e' = e) as <- by (apply (ulid_inj (if_Entries f)); [done|by rewrite <-Hperm|done|by eapply run_key_inj]). by apply Hgone. }
  destruct Hcase as [Hdisk|[Hwhy Hdisk]].
  - exists (mkindexFile (if_NextSeq f) t). destruct (Hall (mkindexFile (if_NextSeq f) t)) as (? & ? & ? & ?); [by left|]. by split_and!.
  - exists f. destruct (Hall f) as (? & ? & ? & ?); [by right|]. by split_and!.
Qed.
End Disk.

(** ** A store pruned *)
#[local] Existing Instance ex_host.
#[local] Existing Instance ex_ulid.

Definition ex_keep : PruneOptions := mkPruneOptions 1 0 false (ex_start + 1000000000) 1.

Lemma ex_pruned :
  match ex_started with (Ok r, w) => match (run store_answer (Prune ex_store ex_keep false) w).1 with Ok (1, None) => true | _ => false end | _ => false end = true.
Proof. vm_compute. reflexivity. Qed.

(** The run of [ex_started], abandoned, gives way to the one to come. *)
Lemma Prune_follows_rule_witness :
  match ex_started with
  | (Ok r, w) =>
    match run store_answer (Prune ex_store ex_keep false) w with
    | (Ok (n, err), w') =>
      exists f f', disk_index "state" w = Ok f /\ disk_index "state" w' = Ok f' /\ if_NextSeq f' = if_NextSeq f /\
        (forall e, e ∈ if_Entries f -> e ∈ if_Entries f' \/ gone_from "state" w' e) /\ (err = None -> n = length (if_Entries f) - length (if_Entries f'))
    | _ => False
    end
  | _ => False
  end.
Proof.
  pose proof ex_pruned as Hok. destruct ex_started as [[r|x] w] eqn:E; [|done]. destruct (ex_started_index _ _ E) as (f & Hd & Hwf & Hnum & _).
  destruct (run store_answer (Prune _ _ _) w) as [[[n err]|x] w'] eqn:E'; [|done].
  destruct (Prune_follows_rule "state" f Hwf Hnum ex_sane_ulid ex_store ex_keep false w n err w' eq_refl Hd) as (f' & Hd' & Hn & _ & _ & Hg & Hc & _).
  - by repeat split; vm_compute.
  - exact E'.
  - exists f, f'. split_and!; [done..|]. intros He. apply (Hc He).
Defined.

(** ** What the rule does not cover *)

(** 292 years and 171 days overflow: the threshold lies in the future. *)
Lemma long_retention_expires_all :
  let e := mkIndexEntry 1 "01HF0000000000000000000001" "" ex_start (ex_start + 1) 0 "succeeded" 0 "" in
  given_up (mkPruneOptions 0 106752 false ex_start 0) ex_start [e] = [e].
Proof. vm_compute. reflexivity. Qed.

(** Retention is decided by number: a run in flight goes with one of the same number. *)
Lemma shared_number_not_kept :
  let done_ := mkIndexEntry 1 "01HF0000000000000000000001" "" ex_start (ex_start + 1) 0 "succeeded" 0 "" in
  let live := mkIndexEntry 1 "01HF0000000000000000000002" "" ex_start zero_time 0 "" 0 "" in
  InFlight ex_start live = true /\ kept (given_up (mkPruneOptions 0 0 true ex_start 0) ex_start (List.filter (prunable ex_start) [done_; live])) live = false.
Proof. vm_compute. done. Qed.

(** What looks like a number need not be an int. *)
Lemma looksLikeSeq_overflows : looksLikeSeq "99999999999999999999" = true /\ atoi "99999999999999999999" = None.
Proof. by vm_compute. Qed.
