(* ===== verification/LogLines.v ===== *)
(** * internal/backend/loglines.go: log lines from a stream

    bufio's reader, as far as [ReadSlice] goes, over the reads of a stream; the loop that
    cuts the stream into lines, drops what exceeds the cap, and drains after an error. *)

From S2P Require Import Prelude GoStrings.

(** ** Reads and bufio *)
Inductive read_err : Type := EOF | ErrNoProgress | ReadErr (e : text).

(** What the stream's reads give, each a piece of its bytes, and how it ends. *)
Record source := mksource { src_reads : list string; src_end : read_err }.

Definition newline : ascii := "010"%char.
Definition buffer_size : Z := 65536.
Definition size (s : string) : Z := Z.of_nat (String.length s).

(** The first [n] bytes, and the others. *)
Fixpoint split_at (n : nat) (s : string) : string * string :=
  match n, s with
  | S n', String a s' => let '(x, y) := split_at n' s' in (String a x, y)
  | _, _ => ("", s)
  end.

(** Up to the first newline and without it, and what follows it. *)
Fixpoint cut_line (s : string) : option (string * string) :=
  match s with
  | "" => None
  | String a s' => if Ascii.eqb a newline then Some ("", s') else '(x, y) ← cut_line s'; Some (String a x, y)
  end.

(** How [ReadSlice] ends: the delimiter was found, the buffer is full, or the stream ended. *)
Inductive slice_end : Type := Found | Full | Ended (e : read_err).

(** [ReadSlice('\n')] with [buf] unread in the buffer and [tries] empty reads allowed in a
    row: the bytes (without the newline), how it ended, the buffer and the reads left. *)
Fixpoint read_slice (fin : read_err) (tries : nat) (reads : list string) (buf : string) : string * slice_end * (string * list string) :=
  match cut_line buf with
  | Some (line, rest) => (line, Found, (rest, reads))
  | None =>
    if (buffer_size <=? size buf)%Z then (buf, Full, ("", reads))
    else
      match reads, tries with
      | [], _ => (buf, Ended fin, ("", []))
      | "" :: reads', 0 => (buf, Ended ErrNoProgress, ("", reads'))
      | "" :: reads', S tries' => read_slice fin tries' reads' buf
      | c :: reads', _ =>
        let room := (buffer_size - size buf)%Z in
        if (size c <=? room)%Z then read_slice fin 99 reads' (buf +:+ c)
        else
          let '(x, y) := split_at (Z.to_nat room) c in
          match cut_line (buf +:+ x) with
          | Some (line, rest) => (line, Found, (rest, y :: reads'))
          | None => (buf +:+ x, Full, ("", y :: reads'))
          end
      end
  end.

(** ** ScanLogLines *)
Definition MaxLogLineBytes : Z := 1048576.

Record scan_state := mkscan { sc_line : string; sc_dropped : Z }.

Definition keep_chunk (st : scan_state) (chunk : string) : scan_state :=
  let keep := Z.min (Z.max (MaxLogLineBytes - size (sc_line st)) 0) (size chunk) in
  mkscan (sc_line st +:+ (split_at (Z.to_nat keep) chunk).1) (sc_dropped st + (size chunk - keep)).

Fixpoint strip_cr (s : string) : string :=
  match s with
  | "" => ""
  | String a "" => if Ascii.eqb a "013"%char then "" else String a ""
  | String a s' => String a (strip_cr s')
  end.

Definition truncated (n : Z) : string := " [tkn-act: line truncated, " +:+ itoa n +:+ " bytes dropped]".

(** The line [flush] emits. *)
Definition flushed (st : scan_state) : string :=
  if (0 <? sc_dropped st)%Z then sc_line st +:+ truncated (sc_dropped st) else strip_cr (sc_line st).

(** The loop: the lines emitted, and whether the rest of the stream was drained. *)
Fixpoint scan (fuel : nat) (fin : read_err) (reads : list string) (buf : string) (st : scan_state) : option (list string * bool) :=
  match fuel with
  | 0 => None
  | S fuel' =>
    let '(chunk, how, (buf', reads')) := read_slice fin 100 reads buf in
    let st := keep_chunk st chunk in
    match how with
    | Found => '(ls, d) ← scan fuel' fin reads' buf' (mkscan "" 0); Some (flushed st :: ls, d)
    | Full => scan fuel' fin reads' buf' st
    | Ended e =>
      Some (if negb (String.eqb (sc_line st) "") || (0 <? sc_dropped st)%Z then [flushed st] else [],
            match e with EOF => false | _ => true end)
    end
  end.

Definition bytes_of_reads (l : list string) : string := join "" l.

(** Every round but the last takes a byte from the stream. *)
Definition ScanLogLines (s : source) : option (list string * bool) :=
  scan (S (String.length (bytes_of_reads (src_reads s)))) (src_end s) (src_reads s) "" (mkscan "" 0).

Example scan_ex :
  ScanLogLines (mksource ["one" +:+ String "013" (String "010" "tw"); "o"; String "010" "last"] EOF) = Some (["one"; "two"; "last"], false).
Proof. vm_compute. reflexivity. Qed.

(** ** The lines of a text *)

(** Cut at newlines, with a last unterminated line unless it is empty. *)
Fixpoint raw_lines (s : string) : list string :=
  match s with
  | "" => []
  | String a s' =>
    if Ascii.eqb a newline then "" :: raw_lines s'
    else match raw_lines s' with [] => [String a ""] | l :: ls => String a l :: ls end
  end.

(** A line as it is shown: without its final carriage return, or capped. *)
Definition shown (l : string) : string :=
  if (size l <=? MaxLogLineBytes)%Z then strip_cr l
  else (split_at (Z.to_nat MaxLogLineBytes) l).1 +:+ truncated (size l - MaxLogLineBytes).

Definition no_newline (s : string) : Prop := str_all (fun a => negb (Ascii.eqb a newline)) s = true.

Lemma size_app s t : size (s +:+ t) = (size s + size t)%Z.
Proof. unfold size. rewrite str_length_app. lia. Qed.

Lemma split_at_spec n s : (split_at n s).1 +:+ (split_at n s).2 = s /\ String.length (split_at n s).1 = n `min` String.length s.
Proof.
  revert s. induction n as [|n IH]; intros [|a s]; [done..|]. cbn [split_at]. specialize (IH s).
  destruct (split_at n s) as [x y]. cbn [fst snd] in *. destruct IH as [E L]. rewrite str_app_cons, E. split; [done|].
  cbn [String.length]. rewrite L. lia.
Qed.

Lemma split_at_all n s : String.length s <= n -> (split_at n s).1 = s.
Proof.
  revert s. induction n as [|n IH]; intros [|a s] H; [done|simpl in H; lia|done|]. cbn [split_at]. specialize (IH s).
  destruct (split_at n s) as [x y]. cbn [fst] in *. rewrite IH by (simpl in H; lia). done.
Qed.

Lemma split_at_more n p c : (split_at n p).1 +:+ (split_at (n - String.length p) c).1 = (split_at n (p +:+ c)).1.
Proof.
  revert n. induction p as [|a p IH]; intros n.
  - rewrite Nat.sub_0_r. by destruct n.
  - destruct n as [|n]; [done|]. rewrite str_app_cons. cbn [split_at String.length Nat.sub]. specialize (IH n).
    destruct (split_at n p) as [x y], (split_at n (p +:+ c)) as [x' y']. cbn [fst] in *. by rewrite str_app_cons, IH.
Qed.

Lemma cut_line_spec s :
  match cut_line s with
  | Some (l, r) => s = l +:+ String newline r /\ no_newline l
  | None => no_newline s
  end.
Proof.
  unfold no_newline. induction s as [|a s IH]; [done|]. cbn [cut_line]. destruct (Ascii.eqb_spec a newline) as [->|Ha]; [done|].
  assert (negb (Ascii.eqb a newline) = true) as Hn by by rewrite (proj2 (Ascii.eqb_neq _ _)).
  destruct (cut_line s) as [[l r]|]; cbn [mbind option_bind]; simpl str_all; rewrite Hn; [|done]. destruct IH as [-> Hl]. done.
Qed.

Lemma raw_lines_cut l r : no_newline l -> raw_lines (l +:+ String newline r) = l :: raw_lines r.
Proof.
  unfold no_newline. induction l as [|a l IH]; [done|]. simpl str_all. intros [Ha Hl]%andb_true_iff. rewrite str_app_cons. cbn [raw_lines].
  destruct (Ascii.eqb a newline); [done|]. by rewrite (IH Hl).
Qed.

Lemma raw_lines_last l : no_newline l -> raw_lines l = if String.eqb l "" then [] else [l].
Proof.
  unfold no_newline. induction l as [|a l IH]; [done|]. simpl str_all. intros [Ha Hl]%andb_true_iff. cbn [raw_lines].
  destruct (Ascii.eqb a newline); [done|]. rewrite (IH Hl). by destruct l.
Qed.

Lemma no_newline_app s t : no_newline s -> no_newline t -> no_newline (s +:+ t).
Proof. unfold no_newline. intros Hs Ht. by rewrite str_all_app, Hs, Ht. Qed.

Lemma bytes_cons x l : bytes_of_reads (x :: l) = x +:+ bytes_of_reads l.
Proof. unfold bytes_of_reads. destruct l; [cbn; by rewrite str_app_nil_r|done]. Qed.

(** ** ReadSlice takes a prefix of the unread bytes *)
Definition nonempty_reads (l : list string) : Prop := Forall (fun c => c <> "") l.

Definition slice_ok (fin : read_err) (total : string) (r : string * slice_end * (string * list string)) : Prop :=
  let '(chunk, how, (buf, reads)) := r in
  no_newline chunk /\ nonempty_reads reads /\
  match how with
  | Found => total = chunk +:+ String newline (buf +:+ bytes_of_reads reads)
  | Full => total = chunk +:+ buf +:+ bytes_of_reads reads /\ chunk <> ""
  | Ended e => total = chunk /\ e = fin
  end.

Lemma read_slice_ok fin reads : forall tries buf, nonempty_reads reads -> slice_ok fin (buf +:+ bytes_of_reads reads) (read_slice fin tries reads buf).
Proof.
  induction reads as [|c reads IH]; intros tries buf Hne; pose proof (cut_line_spec buf) as Hc; unfold read_slice; fold read_slice;
    destruct (cut_line buf) as [[l r]|].
  1, 3: destruct Hc as [-> Hl]; split_and!; [done|done|]; by rewrite <-str_app_assoc.
  1, 2: destruct (Z.leb_spec buffer_size (size buf)) as [Hb|Hb];
    [split_and!; [done|done| by rewrite str_app_nil_l|intros ->; unfold size, buffer_size in Hb; simpl in Hb; lia]|].
  - split_and!; [done|done| |done]. unfold bytes_of_reads. simpl. by rewrite str_app_nil_r.
  - apply Forall_cons in Hne as [Hce Hne]. destruct c as [|a c]; [done|]. set (d := String a c) in *.
    rewrite bytes_cons. destruct (Z.leb_spec (size d) (buffer_size - size buf)) as [Hs|Hs].
    + destruct tries; rewrite str_app_assoc; by apply IH.
    + assert (slice_ok fin (buf +:+ d +:+ bytes_of_reads reads)
        (let '(x, y) := split_at (Z.to_nat (buffer_size - size buf)) d in
          match cut_line (buf +:+ x) with
          | Some (line, rest) => (line, Found, (rest, y :: reads))
          | None => (buf +:+ x, Full, ("", y :: reads))
          end)) as H; [|by destruct tries].
      pose proof (split_at_spec (Z.to_nat (buffer_size - size buf)) d) as [Hxy Hx].
      destruct (split_at _ d) as [x y]. cbn [fst snd] in *.
      assert (nonempty_reads (y :: reads)) as Hny.
      { apply Forall_cons. split; [|done]. intros ->. rewrite str_app_nil_r in Hxy. subst x. unfold size in *. lia. }
      assert (buf +:+ d +:+ bytes_of_reads reads = (buf +:+ x) +:+ bytes_of_reads (y :: reads)) as E.
      { by rewrite bytes_cons, <-Hxy, !str_app_assoc. }
      rewrite E. pose proof (cut_line_spec (buf +:+ x)) as Hc'. destruct (cut_line (buf +:+ x)) as [[l r]|].
      * destruct Hc' as [-> Hl]. split_and!; [done|done|]. by rewrite <-str_app_assoc.
      * split_and!; [done|done|by rewrite str_app_nil_l|]. intros E'. apply (f_equal String.length) in E'.
        rewrite str_length_app, Hx in E'. unfold size in *. simpl in E'. lia.
Qed.

(** ** The loop *)

(** The state after the bytes [p] of a line. *)
Definition state_of (p : string) : scan_state :=
  mkscan (split_at (Z.to_nat MaxLogLineBytes) p).1 (Z.max 0 (size p - MaxLogLineBytes)).

Lemma keep_chunk_state p c : keep_chunk (state_of p) c = state_of (p +:+ c).
Proof.
  unfold keep_chunk, state_of. cbn [sc_line sc_dropped]. rewrite size_app. assert (0 <= MaxLogLineBytes)%Z as HM by done.
  generalize dependent MaxLogLineBytes. intros M HM.
  pose proof (split_at_spec (Z.to_nat M) p) as [_ HL].
  assert (size (split_at (Z.to_nat M) p).1 = Z.min M (size p)) as HS by (unfold size; lia).
  rewrite HS. assert (0 <= size p /\ 0 <= size c)%Z by (unfold size; lia). f_equal; [|lia].
  rewrite <-split_at_more. f_equal.
  destruct (decide (size c <= M - size p)%Z) as [Hc|Hc].
  - rewrite !split_at_all; [done|unfold size in *; lia..].
  - do 2 f_equal. unfold size in *. lia.
Qed.

Lemma flushed_state p : flushed (state_of p) = shown p.
Proof.
  unfold flushed, shown, state_of. cbn [sc_line sc_dropped]. assert (0 <= MaxLogLineBytes)%Z as HM by done.
  generalize dependent MaxLogLineBytes. intros M HM. destruct (Z.leb_spec (size p) M) as [H|H].
  - rewrite (proj2 (Z.ltb_ge _ _)) by lia. rewrite split_at_all; [done|]. unfold size in H. lia.
  - rewrite (proj2 (Z.ltb_lt _ _)) by lia. by rewrite Z.max_r by lia.
Qed.

Lemma pending_state p : negb (String.eqb (sc_line (state_of p)) "") || (0 <? sc_dropped (state_of p))%Z = negb (String.eqb p "").
Proof.
  destruct p as [|a p]; [done|]. unfold state_of. cbn [sc_line sc_dropped].
  assert (exists m, Z.to_nat MaxLogLineBytes = S m) as [m ->] by (exists (pred (Z.to_nat MaxLogLineBytes)); unfold MaxLogLineBytes; lia).
  cbn [split_at]. by destruct (split_at m p).
Qed.

Definition drained (e : read_err) : bool := match e with EOF => false | _ => true end.

Lemma scan_spec fin : forall fuel reads buf p,
  nonempty_reads reads -> no_newline p -> String.length (buf +:+ bytes_of_reads reads) < fuel ->
  scan fuel fin reads buf (state_of p) = Some (map shown (raw_lines (p +:+ buf +:+ bytes_of_reads reads)), drained fin).
Proof.
  induction fuel as [|fuel IH]; intros reads buf p Hne Hp Hf; [lia|]. cbn [scan].
  pose proof (read_slice_ok fin reads 100 buf Hne) as H. destruct (read_slice fin 100 reads buf) as [[chunk how] [buf' reads']].
  destruct H as (Hc & Hne' & H). rewrite keep_chunk_state. set (t := buf +:+ bytes_of_reads reads) in *. clearbody t. destruct how as [| |e].
  - subst t. rewrite str_length_app in Hf. simpl in Hf. change (mkscan "" 0) with (state_of "") at 1.
    rewrite (IH reads' buf' ""); [|done|done|lia]. cbn [mbind option_bind]. rewrite flushed_state, str_app_nil_l.
    rewrite str_app_assoc, raw_lines_cut by by apply no_newline_app. done.
  - destruct H as [-> Hc0]. rewrite (IH reads' buf' (p +:+ chunk)); [by rewrite <-str_app_assoc|done|by apply no_newline_app|].
    rewrite str_length_app in Hf. destruct chunk; [done|simpl in Hf; lia].
  - destruct H as [-> ->]. rewrite pending_state, flushed_state, raw_lines_last by by apply no_newline_app.
    by destruct (String.eqb (p +:+ chunk) "").
Qed.

(** C39: whatever pieces the reads of a log stream come in (none of them empty), the scanner
    returns, and emits the lines of the stream's bytes in order: the text between newlines
    without its final carriage return, the last line also when it is unterminated, a line
    above one mebibyte cut there with the count of the bytes dropped; the rest of the stream
    is drained exactly when reading failed. *)
Theorem ScanLogLines_lines (s : source) :
  Forall (fun c => c <> "") (src_reads s) ->
  ScanLogLines s = Some (map shown (raw_lines (bytes_of_reads (src_reads s))), drained (src_end s)).
Proof.
  intros Hne. unfold ScanLogLines. change (mkscan "" 0) with (state_of ""). rewrite scan_spec; [done|done|done|].
  rewrite str_app_nil_l. lia.
Qed.

Lemma ScanLogLines_lines_witness :
  ScanLogLines (mksource ["one" +:+ String "013" (String "010" "tw"); "o"; String "010" "last"] ErrNoProgress) = Some (["one"; "two"; "last"], true).
Proof.
  rewrite (ScanLogLines_lines (mksource _ _)); [vm_compute; reflexivity|]. cbn [src_reads].
  repeat (apply Forall_cons_2; [discriminate|]). apply Forall_nil_2.
Defined.

(** two streams with the same bytes and the same end give the same lines, however
    their reads cut them. *)
Theorem ScanLogLines_chunking (s1 s2 : source) :
  Forall (fun c => c <> "") (src_reads s1) -> Forall (fun c => c <> "") (src_reads s2) ->
  bytes_of_reads (src_reads s1) = bytes_of_reads (src_reads s2) -> src_end s1 = src_end s2 ->
  ScanLogLines s1 = ScanLogLines s2.
Proof.
  intros H1 H2 Hb He. unfold ScanLogLines. change (mkscan "" 0) with (state_of "").
  rewrite !scan_spec; [by rewrite !str_app_nil_l, Hb, He|try done; rewrite ?str_app_nil_l; lia..].
Qed.
