(* ===== verification/Events.v ===== *)
(** * internal/reporter: events and their JSON

    The event record, the JSON object an event is written as and read from, the sinks that
    write it, the filter and the tee, and the log sink of the backends.  The process's
    local time zone is UTC; a number inside [Results] or [Fields] is its text. *)

From S2P Require Import Prelude GoStrings Json GoDate JsonText Run RunIndex.

(** ** Values of [any] *)

(** The members of an object as a Go map, in the order the encoder writes them. *)
Section Entries.
Context {A : Type}.

Definition entries (m : gmap string A) : list (string * A) :=
  omap (fun k => v ← m !! k; Some (k, v)) (sort_strings (map_to_list m).*1).

(** A later member of the same name replaces an earlier one. *)
Definition insert_all (m : gmap string A) (l : list (string * A)) : gmap string A :=
  foldl (fun m kv => <[kv.1 := kv.2]> m) m l.
End Entries.

(** What decoding into [any] keeps of a document: an object becomes a map. *)
Fixpoint any_of (j : json) : json :=
  match j with
  | JArr l => JArr (map any_of l)
  | JObj l => JObj (entries (insert_all ∅ (map (fun kv => (kv.1, any_of kv.2)) l)))
  | _ => j
  end.

(** A value of [any]: what the engine puts there, or what decoding gives. *)
Inductive any : Type :=
  | AStr (s : string)
  | AInt (z : Z)
  | AStrs (l : list string)
  | AStrMap (m : gmap string string)
  | AJson (j : json).

Definition any_json (v : any) : json :=
  match v with
  | AStr s => JStr s
  | AInt z => int_json z
  | AStrs l => JArr (map JStr l)
  | AStrMap m => JObj (entries (JStr <$> m))
  | AJson j => j
  end.

(** Only a string is read as what it was: lists, maps and numbers become [[]any],
    [map[string]any] and [float64]. *)
Definition from_json (j : json) : any := match j with JStr s => AStr s | _ => AJson (any_of j) end.

Definition reread_any (v : any) : any := from_json (any_json v).

(** ** internal/reporter/event.go *)
Definition kind_string (k : EventKind) : string :=
  match k with
  | EvtRunStart => "run-start" | EvtRunEnd => "run-end"
  | EvtTaskStart => "task-start" | EvtTaskEnd => "task-end" | EvtTaskSkip => "task-skip" | EvtTaskRetry => "task-retry"
  | EvtStepStart => "step-start" | EvtStepEnd => "step-end" | EvtStepLog => "step-log"
  | EvtSidecarStart => "sidecar-start" | EvtSidecarEnd => "sidecar-end" | EvtSidecarLog => "sidecar-log"
  | EvtError => "error" | EvtResolverStart => "resolver-start" | EvtResolverEnd => "resolver-end"
  | EvtDebug => "debug"
  end.

Record Event := mkEvent {
  ev_Kind : string;       (* a string type: any string can be read *)
  ev_Time : Z;            (* an instant, in nanoseconds of Unix time *)
  ev_RunID : string;
  ev_Pipeline : string;
  ev_Task : string;
  ev_Step : string;
  ev_Stream : string;
  ev_Line : string;
  ev_Status : string;
  ev_ExitCode : Z;
  ev_Duration : Z;   (* nanoseconds *)
  ev_Message : string;
  ev_Attempt : Z;
  ev_Results : gmap string any;
  ev_DisplayName : string;
  ev_Description : string;
  ev_Resolver : string;
  ev_Cached : bool;
  ev_SHA256 : string;
  ev_Source : string;
  ev_Matrix : option MatrixEvent;
  ev_Component : string;
  ev_Fields : gmap string any;
}.

Definition zero_event : Event :=
  mkEvent "" zero_time "" "" "" "" "" "" "" 0 0 "" 0 ∅ "" "" "" false "" "" None "" ∅.

Definition set_Kind (v : string) (e : Event) : Event :=
  mkEvent v (ev_Time e) (ev_RunID e) (ev_Pipeline e) (ev_Task e) (ev_Step e) (ev_Stream e) (ev_Line e) (ev_Status e) (ev_ExitCode e) (ev_Duration e) (ev_Message e) (ev_Attempt e) (ev_Results e) (ev_DisplayName e) (ev_Description e) (ev_Resolver e) (ev_Cached e) (ev_SHA256 e) (ev_Source e) (ev_Matrix e) (ev_Component e) (ev_Fields e).
Definition set_Time (v : Z) (e : Event) : Event :=
  mkEvent (ev_Kind e) v (ev_RunID e) (ev_Pipeline e) (ev_Task e) (ev_Step e) (ev_Stream e) (ev_Line e) (ev_Status e) (ev_ExitCode e) (ev_Duration e) (ev_Message e) (ev_Attempt e) (ev_Results e) (ev_DisplayName e) (ev_Description e) (ev_Resolver e) (ev_Cached e) (ev_SHA256 e) (ev_Source e) (ev_Matrix e) (ev_Component e) (ev_Fields e).
Definition set_RunID (v : string) (e : Event) : Event :=
  mkEvent (ev_Kind e) (ev_Time e) v (ev_Pipeline e) (ev_Task e) (ev_Step e) (ev_Stream e) (ev_Line e) (ev_Status e) (ev_ExitCode e) (ev_Duration e) (ev_Message e) (ev_Attempt e) (ev_Results e) (ev_DisplayName e) (ev_Description e) (ev_Resolver e) (ev_Cached e) (ev_SHA256 e) (ev_Source e) (ev_Matrix e) (ev_Component e) (ev_Fields e).
Definition set_Pipeline (v : string) (e : Event) : Event :=
  mkEvent (ev_Kind e) (ev_Time e) (ev_RunID e) v (ev_Task e) (ev_Step e) (ev_Stream e) (ev_Line e) (ev_Status e) (ev_ExitCode e) (ev_Duration e) (ev_Message e) (ev_Attempt e) (ev_Results e) (ev_DisplayName e) (ev_Description e) (ev_Resolver e) (ev_Cached e) (ev_SHA256 e) (ev_Source e) (ev_Matrix e) (ev_Component e) (ev_Fields e).
Definition set_Task (v : string) (e : Event) : Event :=
  mkEvent (ev_Kind e) (ev_Time e) (ev_RunID e) (ev_Pipeline e) v (ev_Step e) (ev_Stream e) (ev_Line e) (ev_Status e) (ev_ExitCode e) (ev_Duration e) (ev_Message e) (ev_Attempt e) (ev_Results e) (ev_DisplayName e) (ev_Description e) (ev_Resolver e) (ev_Cached e) (ev_SHA256 e) (ev_Source e) (ev_Matrix e) (ev_Component e) (ev_Fields e).
Definition set_Step (v : string) (e : Event) : Event :=
  mkEvent (ev_Kind e) (ev_Time e) (ev_RunID e) (ev_Pipeline e) (ev_Task e) v (ev_Stream e) (ev_Line e) (ev_Status e) (ev_ExitCode e) (ev_Duration e) (ev_Message e) (ev_Attempt e) (ev_Results e) (ev_DisplayName e) (ev_Description e) (ev_Resolver e) (ev_Cached e) (ev_SHA256 e) (ev_Source e) (ev_Matrix e) (ev_Component e) (ev_Fields e).
Definition set_Stream (v : string) (e : Event) : Event :=
  mkEvent (ev_Kind e) (ev_Time e) (ev_RunID e) (ev_Pipeline e) (ev_Task e) (ev_Step e) v (ev_Line e) (ev_Status e) (ev_ExitCode e) (ev_Duration e) (ev_Message e) (ev_Attempt e) (ev_Results e) (ev_DisplayName e) (ev_Description e) (ev_Resolver e) (ev_Cached e) (ev_SHA256 e) (ev_Source e) (ev_Matrix e) (ev_Component e) (ev_Fields e).
Definition set_Line (v : string) (e : Event) : Event :=
  mkEvent (ev_Kind e) (ev_Time e) (ev_RunID e) (ev_Pipeline e) (ev_Task e) (ev_Step e) (ev_Stream e) v (ev_Status e) (ev_ExitCode e) (ev_Duration e) (ev_Message e) (ev_Attempt e) (ev_Results e) (ev_DisplayName e) (ev_Description e) (ev_Resolver e) (ev_Cached e) (ev_SHA256 e) (ev_Source e) (ev_Matrix e) (ev_Component e) (ev_Fields e).
Definition set_Status (v : string) (e : Event) : Event :=
  mkEvent (ev_Kind e) (ev_Time e) (ev_RunID e) (ev_Pipeline e) (ev_Task e) (ev_Step e) (ev_Stream e) (ev_Line e) v (ev_ExitCode e) (ev_Duration e) (ev_Message e) (ev_Attempt e) (ev_Results e) (ev_DisplayName e) (ev_Description e) (ev_Resolver e) (ev_Cached e) (ev_SHA256 e) (ev_Source e) (ev_Matrix e) (ev_Component e) (ev_Fields e).
Definition set_ExitCode (v : Z) (e : Event) : Event :=
  mkEvent (ev_Kind e) (ev_Time e) (ev_RunID e) (ev_Pipeline e) (ev_Task e) (ev_Step e) (ev_Stream e) (ev_Line e) (ev_Status e) v (ev_Duration e) (ev_Message e) (ev_Attempt e) (ev_Results e) (ev_DisplayName e) (ev_Description e) (ev_Resolver e) (ev_Cached e) (ev_SHA256 e) (ev_Source e) (ev_Matrix e) (ev_Component e) (ev_Fields e).
Definition set_Duration (v : Z) (e : Event) : Event :=
  mkEvent (ev_Kind e) (ev_Time e) (ev_RunID e) (ev_Pipeline e) (ev_Task e) (ev_Step e) (ev_Stream e) (ev_Line e) (ev_Status e) (ev_ExitCode e) v (ev_Message e) (ev_Attempt e) (ev_Results e) (ev_DisplayName e) (ev_Description e) (ev_Resolver e) (ev_Cached e) (ev_SHA256 e) (ev_Source e) (ev_Matrix e) (ev_Component e) (ev_Fields e).
Definition set_Message (v : string) (e : Event) : Event :=
  mkEvent (ev_Kind e) (ev_Time e) (ev_RunID e) (ev_Pipeline e) (ev_Task e) (ev_Step e) (ev_Stream e) (ev_Line e) (ev_Status e) (ev_ExitCode e) (ev_Duration e) v (ev_Attempt e) (ev_Results e) (ev_DisplayName e) (ev_Description e) (ev_Resolver e) (ev_Cached e) (ev_SHA256 e) (ev_Source e) (ev_Matrix e) (ev_Component e) (ev_Fields e).
Definition set_Attempt (v : Z) (e : Event) : Event :=
  mkEvent (ev_Kind e) (ev_Time e) (ev_RunID e) (ev_Pipeline e) (ev_Task e) (ev_Step e) (ev_Stream e) (ev_Line e) (ev_Status e) (ev_ExitCode e) (ev_Duration e) (ev_Message e) v (ev_Results e) (ev_DisplayName e) (ev_Description e) (ev_Resolver e) (ev_Cached e) (ev_SHA256 e) (ev_Source e) (ev_Matrix e) (ev_Component e) (ev_Fields e).
Definition set_Results (v : gmap string any) (e : Event) : Event :=
  mkEvent (ev_Kind e) (ev_Time e) (ev_RunID e) (ev_Pipeline e) (ev_Task e) (ev_Step e) (ev_Stream e) (ev_Line e) (ev_Status e) (ev_ExitCode e) (ev_Duration e) (ev_Message e) (ev_Attempt e) v (ev_DisplayName e) (ev_Description e) (ev_Resolver e) (ev_Cached e) (ev_SHA256 e) (ev_Source e) (ev_Matrix e) (ev_Component e) (ev_Fields e).
Definition set_DisplayName (v : string) (e : Event) : Event :=
  mkEvent (ev_Kind e) (ev_Time e) (ev_RunID e) (ev_Pipeline e) (ev_Task e) (ev_Step e) (ev_Stream e) (ev_Line e) (ev_Status e) (ev_ExitCode e) (ev_Duration e) (ev_Message e) (ev_Attempt e) (ev_Results e) v (ev_Description e) (ev_Resolver e) (ev_Cached e) (ev_SHA256 e) (ev_Source e) (ev_Matrix e) (ev_Component e) (ev_Fields e).
Definition set_Description (v : string) (e : Event) : Event :=
  mkEvent (ev_Kind e) (ev_Time e) (ev_RunID e) (ev_Pipeline e) (ev_Task e) (ev_Step e) (ev_Stream e) (ev_Line e) (ev_Status e) (ev_ExitCode e) (ev_Duration e) (ev_Message e) (ev_Attempt e) (ev_Results e) (ev_DisplayName e) v (ev_Resolver e) (ev_Cached e) (ev_SHA256 e) (ev_Source e) (ev_Matrix e) (ev_Component e) (ev_Fields e).
Definition set_Resolver (v : string) (e : Event) : Event :=
  mkEvent (ev_Kind e) (ev_Time e) (ev_RunID e) (ev_Pipeline e) (ev_Task e) (ev_Step e) (ev_Stream e) (ev_Line e) (ev_Status e) (ev_ExitCode e) (ev_Duration e) (ev_Message e) (ev_Attempt e) (ev_Results e) (ev_DisplayName e) (ev_Description e) v (ev_Cached e) (ev_SHA256 e) (ev_Source e) (ev_Matrix e) (ev_Component e) (ev_Fields e).
Definition set_Cached (v : bool) (e : Event) : Event :=
  mkEvent (ev_Kind e) (ev_Time e) (ev_RunID e) (ev_Pipeline e) (ev_Task e) (ev_Step e) (ev_Stream e) (ev_Line e) (ev_Status e) (ev_ExitCode e) (ev_Duration e) (ev_Message e) (ev_Attempt e) (ev_Results e) (ev_DisplayName e) (ev_Description e) (ev_Resolver e) v (ev_SHA256 e) (ev_Source e) (ev_Matrix e) (ev_Component e) (ev_Fields e).
Definition set_SHA256 (v : string) (e : Event) : Event :=
  mkEvent (ev_Kind e) (ev_Time e) (ev_RunID e) (ev_Pipeline e) (ev_Task e) (ev_Step e) (ev_Stream e) (ev_Line e) (ev_Status e) (ev_ExitCode e) (ev_Duration e) (ev_Message e) (ev_Attempt e) (ev_Results e) (ev_DisplayName e) (ev_Description e) (ev_Resolver e) (ev_Cached e) v (ev_Source e) (ev_Matrix e) (ev_Component e) (ev_Fields e).
Definition set_Source (v : string) (e : Event) : Event :=
  mkEvent (ev_Kind e) (ev_Time e) (ev_RunID e) (ev_Pipeline e) (ev_Task e) (ev_Step e) (ev_Stream e) (ev_Line e) (ev_Status e) (ev_ExitCode e) (ev_Duration e) (ev_Message e) (ev_Attempt e) (ev_Results e) (ev_DisplayName e) (ev_Description e) (ev_Resolver e) (ev_Cached e) (ev_SHA256 e) v (ev_Matrix e) (ev_Component e) (ev_Fields e).
Definition set_Matrix (v : option MatrixEvent) (e : Event) : Event :=
  mkEvent (ev_Kind e) (ev_Time e) (ev_RunID e) (ev_Pipeline e) (ev_Task e) (ev_Step e) (ev_Stream e) (ev_Line e) (ev_Status e) (ev_ExitCode e) (ev_Duration e) (ev_Message e) (ev_Attempt e) (ev_Results e) (ev_DisplayName e) (ev_Description e) (ev_Resolver e) (ev_Cached e) (ev_SHA256 e) (ev_Source e) v (ev_Component e) (ev_Fields e).
Definition set_Component (v : string) (e : Event) : Event :=
  mkEvent (ev_Kind e) (ev_Time e) (ev_RunID e) (ev_Pipeline e) (ev_Task e) (ev_Step e) (ev_Stream e) (ev_Line e) (ev_Status e) (ev_ExitCode e) (ev_Duration e) (ev_Message e) (ev_Attempt e) (ev_Results e) (ev_DisplayName e) (ev_Description e) (ev_Resolver e) (ev_Cached e) (ev_SHA256 e) (ev_Source e) (ev_Matrix e) v (ev_Fields e).
Definition set_Fields (v : gmap string any) (e : Event) : Event :=
  mkEvent (ev_Kind e) (ev_Time e) (ev_RunID e) (ev_Pipeline e) (ev_Task e) (ev_Step e) (ev_Stream e) (ev_Line e) (ev_Status e) (ev_ExitCode e) (ev_Duration e) (ev_Message e) (ev_Attempt e) (ev_Results e) (ev_DisplayName e) (ev_Description e) (ev_Resolver e) (ev_Cached e) (ev_SHA256 e) (ev_Source e) (ev_Matrix e) (ev_Component e) v.
Definition set_me_Parent (v : string) (m : MatrixEvent) : MatrixEvent := mkMatrixEvent v (me_Index m) (me_Of m) (me_Params m).
Definition set_me_Index (v : Z) (m : MatrixEvent) : MatrixEvent := mkMatrixEvent (me_Parent m) v (me_Of m) (me_Params m).
Definition set_me_Of (v : Z) (m : MatrixEvent) : MatrixEvent := mkMatrixEvent (me_Parent m) (me_Index m) v (me_Params m).
Definition set_me_Params (v : gmap string string) (m : MatrixEvent) : MatrixEvent := mkMatrixEvent (me_Parent m) (me_Index m) (me_Of m) v.

(** ** The object of an event *)
Definition omit_false (name : string) (b : bool) : list (string * json) := if b then [(name, JBool true)] else [].
Definition omit_map (name : string) (m : gmap string any) : list (string * json) :=
  if decide (m = ∅) then [] else [(name, JObj (entries (any_json <$> m)))].

Definition matrix_json (m : MatrixEvent) : json :=
  JObj ([("parent", JStr (me_Parent m)); ("index", int_json (me_Index m)); ("of", int_json (me_Of m))] ++
        omit_map "params" (AStr <$> me_Params m)).

Definition omit_nil (name : string) (m : option MatrixEvent) : list (string * json) :=
  match m with Some m => [(name, matrix_json m)] | None => [] end.

(** [eventJSON] has the fields of [Event], its [Duration] in milliseconds. *)
Definition eventJSON_members (e : Event) : list (string * json) :=
  [("kind", JStr (ev_Kind e))] ++
  [("time", JStr (format_time (ev_Time e)))] ++
  omit_empty "runId" (ev_RunID e) ++
  omit_empty "pipeline" (ev_Pipeline e) ++
  omit_empty "task" (ev_Task e) ++
  omit_empty "step" (ev_Step e) ++
  omit_empty "stream" (ev_Stream e) ++
  omit_empty "line" (ev_Line e) ++
  omit_empty "status" (ev_Status e) ++
  omit_0 "exitCode" (ev_ExitCode e) ++
  omit_0 "durationMs" (ev_Duration e) ++
  omit_empty "message" (ev_Message e) ++
  omit_0 "attempt" (ev_Attempt e) ++
  omit_map "results" (ev_Results e) ++
  omit_empty "display_name" (ev_DisplayName e) ++
  omit_empty "description" (ev_Description e) ++
  omit_empty "resolver" (ev_Resolver e) ++
  omit_false "cached" (ev_Cached e) ++
  omit_empty "sha256" (ev_SHA256 e) ++
  omit_empty "source" (ev_Source e) ++
  omit_nil "matrix" (ev_Matrix e) ++
  omit_empty "component" (ev_Component e) ++
  omit_map "fields" (ev_Fields e).

Definition Millisecond : Z := 1000000.
Definition Milliseconds (d : Z) : Z := Z.quot d Millisecond.

(** [None]: the encoder fails, on a year it cannot write. *)
Definition MarshalJSON (e : Event) : option string :=
  if has_json_year (ev_Time e) then Some (Marshal (JObj (eventJSON_members (set_Duration (Milliseconds (ev_Duration e)) e)))) else None.

(** ** Reading it *)

(** [null] resets a map or a pointer, and changes nothing else. *)
Definition decode_member {T} (nils : list (string * (T -> T))) (fields : list (field T)) (x : T) (kv : string * json) : option T :=
  match kv.2 with
  | JNull => match List.find (fun f => String.eqb (fold_name f.1) (fold_name kv.1)) nils with Some f => Some (f.2 x) | None => Some x end
  | _ => decode_field fields x kv
  end.

Definition decode_object {T} (nils : list (string * (T -> T))) (fields : list (field T)) (zero : T) (j : json) : option T :=
  match j with
  | JObj l => foldl (fun o kv => x ← o; decode_member nils fields x kv) (Some zero) l
  | JNull => Some zero
  | _ => None
  end.

Definition bool_field {T} (set : bool -> T -> T) (j : json) (x : T) : option T :=
  match j with JBool b => Some (set b x) | _ => None end.

(** [map[string]any]: the members join those that are there. *)
Definition map_field {T} (get : T -> gmap string any) (set : gmap string any -> T -> T) (j : json) (x : T) : option T :=
  match j with JObj l => Some (set (insert_all (get x) (map (fun kv => (kv.1, from_json kv.2)) l)) x) | _ => None end.

(** A string, or [null] for the empty one. *)
Definition string_value (j : json) : option string := match j with JNull => Some "" | _ => as_string j end.

Definition params_field (j : json) (m : MatrixEvent) : option MatrixEvent :=
  match j with
  | JObj l => kvs ← mapM (fun kv => v ← string_value kv.2; Some (kv.1, v)) l; Some (set_me_Params (insert_all (me_Params m) kvs) m)
  | _ => None
  end.

Definition zero_matrix : MatrixEvent := mkMatrixEvent "" 0 0 ∅.

Definition matrix_fields : list (field MatrixEvent) :=
  [("parent", str_field set_me_Parent); ("index", int_field set_me_Index); ("of", int_field set_me_Of); ("params", params_field)].

Definition matrix_nils : list (string * (MatrixEvent -> MatrixEvent)) := [("params", set_me_Params ∅)].

Definition matrix_field (j : json) (e : Event) : option Event :=
  m ← decode_object matrix_nils matrix_fields (default zero_matrix (ev_Matrix e)) j; Some (set_Matrix (Some m) e).

Definition event_fields : list (field Event) :=
  [("kind", str_field set_Kind);
   ("time", time_field set_Time);
   ("runId", str_field set_RunID);
   ("pipeline", str_field set_Pipeline);
   ("task", str_field set_Task);
   ("step", str_field set_Step);
   ("stream", str_field set_Stream);
   ("line", str_field set_Line);
   ("status", str_field set_Status);
   ("exitCode", int_field set_ExitCode);
   ("durationMs", int_field set_Duration);
   ("message", str_field set_Message);
   ("attempt", int_field set_Attempt);
   ("results", map_field ev_Results set_Results);
   ("display_name", str_field set_DisplayName);
   ("description", str_field set_Description);
   ("resolver", str_field set_Resolver);
   ("cached", bool_field set_Cached);
   ("sha256", str_field set_SHA256);
   ("source", str_field set_Source);
   ("matrix", matrix_field);
   ("component", str_field set_Component);
   ("fields", map_field ev_Fields set_Fields)].

Definition event_nils : list (string * (Event -> Event)) :=
  [("results", set_Results ∅); ("matrix", set_Matrix None); ("fields", set_Fields ∅)].

(** [None]: the text is no JSON, or a value has the wrong type. *)
Definition UnmarshalJSON (s : string) : option Event :=
  j ← parse_json s;
  dec ← decode_object event_nils event_fields zero_event j;
  Some (set_Duration (wrap64 (ev_Duration dec * Millisecond)) dec).

(** ** LogSink and the debug emitter: the events they build at the time [now] *)
Definition step_log (now : Z) (taskName stepName stepDisplayName stream line : string) : Event :=
  set_Kind (kind_string EvtStepLog) (set_Time now (set_Task taskName (set_Step stepName (set_DisplayName stepDisplayName
    (set_Stream stream (set_Line line zero_event)))))).

Definition sidecar_log (now : Z) (taskName sidecarName stream line : string) : Event :=
  set_Kind (kind_string EvtSidecarLog) (set_Time now (set_Task taskName (set_Step sidecarName (set_Stream stream (set_Line line zero_event))))).

Definition sidecar_start (now : Z) (taskName sidecarName : string) : Event :=
  set_Kind (kind_string EvtSidecarStart) (set_Time now (set_Task taskName (set_Step sidecarName (set_Stream "sidecar" zero_event)))).

Definition sidecar_end (now : Z) (taskName sidecarName : string) (exitCode : Z) (status message : string) : Event :=
  set_Kind (kind_string EvtSidecarEnd) (set_Time now (set_Task taskName (set_Step sidecarName (set_Stream "sidecar"
    (set_Status status (set_ExitCode exitCode (set_Message message zero_event))))))).

(** [build] is only called when the emitter is enabled. *)
Definition debug_event (enabled : bool) (now : Z) (component : string) (build : unit -> string * gmap string any) : option Event :=
  if enabled then
    let '(msg, fields) := build tt in
    Some (set_Kind (kind_string EvtDebug) (set_Time now (set_Component component (set_Message msg (set_Fields fields zero_event)))))
  else None.

Definition ex_event : Event :=
  set_Duration 1500999 (set_Results {[ "b" := AStr "2"; "a" := AStrs ["x"] ]} (set_Matrix (Some (mkMatrixEvent "t" 1 2 {[ "k" := "v" ]}))
    (step_log 1700000000000000000 "t" "s" "" "stdout" "hello"))).

Example marshal_ex : option_map String.length (MarshalJSON ex_event) = Some 209.
Proof. vm_compute. reflexivity. Qed.

Example reread_event_ex : (s ← MarshalJSON ex_event; UnmarshalJSON s) = Some (set_Results {[ "b" := AStr "2"; "a" := AJson (JArr [JStr "x"]) ]} (set_Duration 1000000 ex_event)).
Proof. vm_compute. reflexivity. Qed.

(** ** Maps and their entries *)
Section EntriesLemmas.
Context {A : Type}.

Lemma entries_perm (m : gmap string A) : entries m ≡ₚ map_to_list m.
Proof.
  unfold entries. rewrite sort_strings_perm.
  assert (forall l : list (string * A), (forall kv, kv ∈ l -> m !! kv.1 = Some kv.2) -> omap (fun k => v ← m !! k; Some (k, v)) l.*1 = l) as H.
  { intros l. induction l as [|[k v] l IH]; intros Hl; [done|]. cbn [fmap list_fmap omap list_omap fst].
    pose proof (Hl (k, v) ltac:(by left)) as E. cbn [fst snd] in E. rewrite E. cbn [mbind option_bind]. f_equal. apply IH. intros kv Hkv. apply Hl. by right. }
  rewrite H; [done|]. by intros [k v] Hkv%elem_of_map_to_list.
Qed.

Lemma elem_of_entries (m : gmap string A) k v : (k, v) ∈ entries m <-> m !! k = Some v.
Proof. rewrite entries_perm. apply elem_of_map_to_list. Qed.

Lemma insert_all_map (m : gmap string A) l : NoDup l.*1 -> insert_all m l = list_to_map l ∪ m.
Proof.
  unfold insert_all. revert m. induction l as [|[k v] l IH]; intros m Hl; [cbn; by rewrite (left_id_L ∅ (∪))|].
  cbn [fmap list_fmap fst] in Hl. apply NoDup_cons in Hl as [Hk Hl]. cbn [foldl fst snd]. rewrite (IH _ Hl), list_to_map_cons.
  rewrite <-insert_union_l. symmetry. apply insert_union_r. by apply not_elem_of_list_to_map_1.
Qed.

Lemma insert_all_entries (m : gmap string A) : insert_all ∅ (entries m) = m.
Proof.
  assert (NoDup (entries m).*1) as Hd by (rewrite entries_perm; apply NoDup_fst_map_to_list).
  rewrite insert_all_map by done. rewrite (right_id_L ∅ (∪)).
  rewrite (list_to_map_proper (entries m) (map_to_list m)); [apply list_to_map_to_list|done|apply entries_perm].
Qed.
End EntriesLemmas.

(** ** Values that survive a round trip *)

(** A number is an integer that a float64 holds exactly. *)
Fixpoint exact (j : json) : bool :=
  match j with
  | JNum s => match atoi s with Some z => (Z.abs z <=? 2 ^ 53)%Z | None => false end
  | JArr l => forallb exact l
  | JObj l => forallb (fun kv => exact kv.2) l
  | _ => true
  end.

(** Strings are valid UTF-8, numbers are exact, the nesting is bounded. *)
Definition wf_any (v : any) : Prop := wf_json (any_json v) /\ exact (any_json v) = true /\ height (any_json v) <= 1000.

Definition wf_members (m : gmap string any) : Prop := map_Forall (fun k v => valid_utf8 k = true /\ wf_any v) m.

Definition wf_matrix (m : MatrixEvent) : Prop :=
  valid_utf8 (me_Parent m) = true /\ in_int (me_Index m) /\ in_int (me_Of m) /\
  map_Forall (fun k v => valid_utf8 k = true /\ valid_utf8 v = true) (me_Params m).

Definition event_strings (e : Event) : list string :=
  [ev_Kind e; ev_RunID e; ev_Pipeline e; ev_Task e; ev_Step e; ev_Stream e; ev_Line e; ev_Status e; ev_Message e; ev_DisplayName e;
   ev_Description e; ev_Resolver e; ev_SHA256 e; ev_Source e; ev_Component e].

Definition wf_event (e : Event) : Prop :=
  Forall (fun s => valid_utf8 s = true) (event_strings e) /\ has_json_year (ev_Time e) = true /\
  in_int (ev_ExitCode e) /\ in_int (ev_Duration e) /\ in_int (ev_Attempt e) /\
  wf_members (ev_Results e) /\ wf_members (ev_Fields e) /\ from_option wf_matrix True (ev_Matrix e).

(** The duration cut to whole milliseconds. *)
Definition to_millis (e : Event) : Event := set_Duration (Milliseconds (ev_Duration e) * Millisecond) e.

(** The values of the results and the fields as decoding gives them. *)
Definition reread_values (e : Event) : Event :=
  set_Results (reread_any <$> ev_Results e) (set_Fields (reread_any <$> ev_Fields e) e).

(** An event as it is read back. *)
Definition reread (e : Event) : Event := to_millis (reread_values e).

(** *** Reading members one after the other *)
Section Members.
Context {T : Type} (nils : list (string * (T -> T))) (fields : list (field T)).

Definition decode_members (o : option T) (l : list (string * json)) : option T :=
  foldl (fun o kv => x ← o; decode_member nils fields x kv) o l.

Lemma decode_members_fields o l : Forall (fun kv => kv.2 <> JNull) l -> decode_members o l = decode_fields fields o l.
Proof.
  revert o. induction l as [|[k v] l IH]; intros o Hl; [done|]. apply Forall_cons in Hl as [Hv Hl].
  unfold decode_members, decode_fields in *. cbn [foldl]. rewrite IH by done. f_equal. destruct o as [x|]; [|done].
  cbn [mbind option_bind]. unfold decode_member. cbn [snd] in *. by destruct v.
Qed.
End Members.

Lemma decode_fields_omit_false {T} (fields : list (field T)) n set b x l :
  field_named fields n = Some (n, bool_field set) -> (b = false -> set b x = x) ->
  decode_fields fields (Some x) (omit_false n b ++ l) = decode_fields fields (Some (set b x)) l.
Proof. intros Hn H0. destruct b; [|by rewrite H0]. by apply (decode_fields_cons fields n (bool_field set)). Qed.

Lemma entries_fmap {A B} (f : A -> B) (m : gmap string A) : entries (f <$> m) = map (fun kv => (kv.1, f kv.2)) (entries m).
Proof.
  unfold entries. rewrite map_to_list_fmap, <-list_fmap_compose.
  assert ((fst ∘ prod_map id f) <$> map_to_list m = (map_to_list m).*1) as -> by (apply list_fmap_ext; intros i [k v] ?; done).
  induction (sort_strings (map_to_list m).*1) as [|k l IH]; [done|]. cbn [omap list_omap]. rewrite lookup_fmap. rewrite IH.
  by destruct (m !! k).
Qed.

Lemma decode_fields_omit_map {T} (fields : list (field T)) n get set m x l :
  field_named fields n = Some (n, map_field get set) -> get x = ∅ -> (reread_any <$> m = ∅ -> set (reread_any <$> m) x = x) ->
  decode_fields fields (Some x) (omit_map n m ++ l) = decode_fields fields (Some (set (reread_any <$> m) x)) l.
Proof.
  intros Hn Hg H0. unfold omit_map. destruct (decide (m = ∅)) as [->|E]; [rewrite H0; [done|apply fmap_empty]|].
  apply (decode_fields_cons fields n (map_field get set)); [done|done|]. unfold map_field.
  rewrite entries_fmap, map_map. cbn [fst snd]. change (fun x => (x.1, from_json (any_json x.2))) with (fun x : string * any => (x.1, reread_any x.2)).
  by rewrite <-entries_fmap, Hg, insert_all_entries.
Qed.

Lemma mapM_string_values (l : list (string * string)) :
  mapM (fun kv => v ← string_value kv.2; Some (kv.1, v)) (map (fun kv => (kv.1, JStr kv.2)) l) = Some l.
Proof. induction l as [|[k v] l IH]; [done|]. cbn. by rewrite IH. Qed.

Ltac matrix_red :=
  cbn beta iota delta [set_me_Parent set_me_Index set_me_Of set_me_Params zero_matrix me_Parent me_Index me_Of me_Params].

Lemma decode_matrix m : wf_matrix m -> decode_object matrix_nils matrix_fields zero_matrix (matrix_json m) = Some m.
Proof.
  intros (H1 & H2 & H3 & H4). unfold matrix_json, int_json.
  change (decode_object matrix_nils matrix_fields zero_matrix (JObj ?l)) with (decode_members matrix_nils matrix_fields (Some zero_matrix) l).
  rewrite decode_members_fields.
  2:{ unfold omit_map. destruct (decide _); cbn [app]; by repeat constructor. }
  cbn [app]. erewrite decode_fields_cons; [|reflexivity|done|reflexivity]. matrix_red.
  do 2 (erewrite decode_fields_int; [|reflexivity|done]; matrix_red).
  unfold omit_map. destruct (decide (AStr <$> me_Params m = ∅)) as [E|E].
  - apply fmap_empty_inv in E. destruct m as [p i o ps]. cbn in *. by subst.
  - erewrite decode_fields_cons; [|reflexivity|done|].
    2:{ cbn [params_field]. rewrite <-map_fmap_compose. change (any_json ∘ AStr) with JStr. rewrite entries_fmap, mapM_string_values. cbn [mbind option_bind]. reflexivity. }
    matrix_red. unfold decode_fields. cbn [foldl]. rewrite insert_all_entries. by destruct m.
Qed.

Lemma decode_fields_omit_nil m x l :
  from_option wf_matrix True m -> ev_Matrix x = None ->
  decode_fields event_fields (Some x) (omit_nil "matrix" m ++ l) = decode_fields event_fields (Some (set_Matrix m x)) l.
Proof.
  intros Hm Hx. destruct m as [m|]; cbn [omit_nil app].
  - apply (decode_fields_cons event_fields "matrix" matrix_field); [reflexivity|done|]. unfold matrix_field. rewrite Hx. cbn [default].
    change (from_option id zero_matrix None) with zero_matrix. by rewrite (decode_matrix m Hm).
  - f_equal. f_equal. destruct x. cbn in *. by subst.
Qed.

Lemma members_not_null e : Forall (fun kv => kv.2 <> JNull) (eventJSON_members e).
Proof.
  unfold eventJSON_members.
  assert (forall n m, Forall (fun kv => kv.2 <> JNull) (omit_map n m)) as Hm by (intros n m; unfold omit_map; destruct (decide _); by repeat constructor).
  assert (forall n m, Forall (fun kv => kv.2 <> JNull) (omit_nil n m)) as Hn by (intros n [m|]; by repeat constructor).
  assert (forall n b, Forall (fun kv => kv.2 <> JNull) (omit_false n b)) as Hb by (intros n []; by repeat constructor).
  repeat (apply Forall_app; split); try apply Forall_omit; try apply Forall_omit_0; try apply Hm; try apply Hn; try apply Hb; try done;
    apply Forall_singleton; done.
Qed.

(** The fields of an event that is being built. *)
Ltac event_red :=
  cbv beta iota delta [zero_event set_Attempt set_Cached set_Component set_Description set_DisplayName set_Duration set_ExitCode set_Fields set_Kind set_Line set_Matrix set_Message set_Pipeline set_Resolver set_Results set_RunID set_SHA256 set_Source set_Status set_Step set_Stream set_Task set_Time
    ev_Attempt ev_Cached ev_Component ev_Description ev_DisplayName ev_Duration ev_ExitCode ev_Fields ev_Kind ev_Line ev_Matrix ev_Message ev_Pipeline ev_Resolver ev_Results ev_RunID ev_SHA256 ev_Source ev_Status ev_Step ev_Stream ev_Task ev_Time].
Ltac set_same := intros ->; reflexivity.

(** The members of an event are read into that event. *)
Lemma decode_eventJSON e : wf_event e ->
  decode_object event_nils event_fields zero_event (JObj (eventJSON_members e)) = Some (reread_values e).
Proof.
  intros (_ & Ht & H1 & H2 & H3 & _ & _ & H6).
  change (decode_object event_nils event_fields zero_event (JObj ?l)) with (decode_members event_nils event_fields (Some zero_event) l).
  rewrite decode_members_fields by apply members_not_null. unfold eventJSON_members. cbn [app].
  erewrite decode_fields_cons; [|reflexivity|done|reflexivity]. event_red.
  erewrite decode_fields_time; [|reflexivity|done]. event_red.
  do 7 (erewrite decode_fields_omit_empty; [|reflexivity|set_same]; event_red).
  do 2 (erewrite decode_fields_omit_0; [|reflexivity|done|set_same]; event_red).
  erewrite decode_fields_omit_empty; [|reflexivity|set_same]; event_red.
  erewrite decode_fields_omit_0; [|reflexivity|done|set_same]; event_red.
  erewrite decode_fields_omit_map; [|reflexivity|reflexivity|set_same]; event_red.
  do 3 (erewrite decode_fields_omit_empty; [|reflexivity|set_same]; event_red).
  erewrite decode_fields_omit_false; [|reflexivity|set_same]; event_red.
  do 2 (erewrite decode_fields_omit_empty; [|reflexivity|set_same]; event_red).
  rewrite decode_fields_omit_nil; [|done|reflexivity]; event_red.
  erewrite decode_fields_omit_empty; [|reflexivity|set_same]; event_red.
  rewrite <-(app_nil_r (omit_map _ _)). erewrite decode_fields_omit_map; [|reflexivity|reflexivity|set_same]; event_red.
  by destruct e.
Qed.

(** *** The document of an event *)
Lemma wf_int z : wf_json (int_json z).
Proof. by exists z. Qed.

Lemma Forall_omit_false (P : string * json -> Prop) n b : P (n, JBool true) -> Forall P (omit_false n b).
Proof. intros HP. destruct b; by repeat constructor. Qed.

Lemma Forall_omit_map (P : string * json -> Prop) n m : P (n, JObj (entries (any_json <$> m))) -> Forall P (omit_map n m).
Proof. intros HP. unfold omit_map. destruct (decide _); [by apply Forall_nil|by apply Forall_singleton]. Qed.

Lemma members_json_wf (m : gmap string json) h :
  map_Forall (fun k v => valid_utf8 k = true /\ wf_json v /\ height v <= h) m -> wf_json (JObj (entries m)) /\ height (JObj (entries m)) <= S h.
Proof.
  intros Hm. assert (forall kv, kv ∈ entries m -> valid_utf8 kv.1 = true /\ wf_json kv.2 /\ height kv.2 <= h) as H.
  { intros [k v] Hkv%elem_of_entries. by apply (Hm k v). }
  split; [apply wf_obj|apply height_obj_le]; apply Forall_forall; intros kv Hkv; by apply H in Hkv as (? & ? & ?).
Qed.

Lemma wf_members_json (m : gmap string any) : wf_members m ->
  wf_json (JObj (entries (any_json <$> m))) /\ height (JObj (entries (any_json <$> m))) <= 1001.
Proof.
  intros Hm. apply members_json_wf. intros k j. rewrite lookup_fmap_Some. intros (v & <- & Hkv). by destruct (Hm k v Hkv) as (? & ? & _ & ?).
Qed.

Lemma matrix_json_wf m : wf_matrix m -> wf_json (matrix_json m) /\ height (matrix_json m) <= 1001.
Proof.
  intros (H1 & _ & _ & H4).
  assert (wf_json (JObj (entries (any_json <$> (AStr <$> me_Params m)))) /\ height (JObj (entries (any_json <$> (AStr <$> me_Params m)))) <= 1000) as [Hw Hh].
  { apply members_json_wf. intros k v. rewrite <-map_fmap_compose. rewrite lookup_fmap_Some. intros (s & <- & Hs). destruct (H4 k s Hs). split_and!; [done|done|cbn; lia]. }
  assert (Forall (fun kv => valid_utf8 kv.1 = true /\ wf_json kv.2 /\ height kv.2 <= 1000)
    ([("parent", JStr (me_Parent m)); ("index", int_json (me_Index m)); ("of", int_json (me_Of m))] ++ omit_map "params" (AStr <$> me_Params m))) as Hf.
  { apply Forall_app. split; [|by apply Forall_omit_map].
    repeat (apply Forall_cons; split); try apply Forall_nil_2; cbn beta; split_and!; try done; try apply wf_int; cbn; lia. }
  split; [apply wf_obj|apply height_obj_le]; (eapply Forall_impl; [exact Hf|]); naive_solver.
Qed.

Lemma eventJSON_wf e : wf_event e -> wf_json (JObj (eventJSON_members e)) /\ height (JObj (eventJSON_members e)) <= 1002.
Proof.
  intros (Hs & Ht & _ & _ & _ & H1 & H2 & H3). destruct (wf_members_json _ H1), (wf_members_json _ H2).
  assert (forall n, valid_utf8 n = true ->
    Forall (fun kv => valid_utf8 kv.1 = true /\ wf_json kv.2 /\ height kv.2 <= 1001) (omit_nil n (ev_Matrix e))) as Hm.
  { intros n Hn. destruct (ev_Matrix e) as [m|]; [|done]. apply Forall_singleton. split; [done|]. by apply matrix_json_wf. }
  unfold event_strings in Hs. do 15 (apply Forall_cons in Hs as [? Hs]).
  assert (Forall (fun kv => valid_utf8 kv.1 = true /\ wf_json kv.2 /\ height kv.2 <= 1001) (eventJSON_members e)) as Hf.
  { unfold eventJSON_members. repeat (apply Forall_app; split); first [by apply Hm|apply Forall_omit_map|apply Forall_omit_false|apply Forall_omit_0|apply Forall_omit|apply Forall_singleton];
      cbn [fst snd]; split_and!; try done; try apply wf_int; try (cbn; lia). by apply format_time_utf8. }
  split; [apply wf_obj|apply height_obj_le]; (eapply Forall_impl; [exact Hf|]); naive_solver.
Qed.

Lemma Milliseconds_range d : in_int d -> in_int (Milliseconds d) /\ wrap64 (Milliseconds d * Millisecond) = (Milliseconds d * Millisecond)%Z.
Proof.
  unfold Milliseconds, Millisecond. intros H. assert (Z.abs (Z.quot d 1000000 * 1000000) <= Z.abs d)%Z as Hq.
  { pose proof (Z.quot_rem d 1000000 ltac:(lia)). pose proof (Z.rem_bound_abs d 1000000 ltac:(lia)). pose proof (Z.rem_sign_mul d 1000000 ltac:(lia)). nia. }
  assert (Z.abs (Z.quot d 1000000) <= Z.abs (Z.quot d 1000000 * 1000000))%Z by lia.
  unfold in_int in *. split; [|apply wrap64_id]; unfold min_int, max_int in *; lia.
Qed.

Lemma wf_event_duration d e : wf_event e -> in_int d -> wf_event (set_Duration d e).
Proof. intros (H1 & H2 & H3 & H4 & H5 & H6) Hd. exact (conj H1 (conj H2 (conj H3 (conj Hd (conj H5 H6))))). Qed.

Lemma Unmarshal_Marshal e s : wf_event e -> MarshalJSON e = Some s -> UnmarshalJSON s = Some (reread e).
Proof.
  intros He. pose proof He as (_ & Ht & _ & Hd & _). destruct (Milliseconds_range _ Hd) as [Hm Hw]. unfold MarshalJSON. rewrite Ht.
  pose proof (wf_event_duration _ e He Hm) as He'. set (e' := set_Duration (Milliseconds (ev_Duration e)) e) in *.
  destruct (eventJSON_wf e' He') as [Hj Hh]. intros [= <-]. unfold UnmarshalJSON.
  rewrite parse_compact by (first [done|unfold max_depth; lia]). cbn [mbind option_bind]. rewrite (decode_eventJSON e' He'). cbn [mbind option_bind].
  change (ev_Duration (reread_values e')) with (Milliseconds (ev_Duration e)). by rewrite Hw.
Qed.
