(* ===== verification/Pretty.v ===== *)
(** * internal/reporter: what the pretty reporter prints

    color.go and pretty.go: the text an event adds to the terminal. *)

From S2P Require Import Prelude GoStrings GoTime Json GoDate Run RunIndex Events.

(** ** color.go *)
Inductive ColorMode := ColorAuto | ColorAlways | ColorNever.

Definition ParseColorMode (s : string) : result ColorMode :=
  let t := to_lower (trim_space s) in
  if existsb (String.eqb t) [""; "auto"] then Ok ColorAuto
  else if existsb (String.eqb t) ["always"; "on"; "true"] then Ok ColorAlways
  else if existsb (String.eqb t) ["never"; "off"; "false"] then Ok ColorNever
  else Err (Fmt "invalid color mode %q (want auto|always|never)" [TStr s]).

(** [env]: the value of a variable, when it is set. *)
Definition set_nonempty (env : string -> option string) (k : string) : bool :=
  match env k with Some v => negb (String.eqb v "") | None => false end.

Definition ResolveColor (mode : ColorMode) (isTerminal : bool) (env : string -> option string) : bool :=
  match mode with
  | ColorAlways => true
  | ColorNever => false
  | ColorAuto =>
    if set_nonempty env "NO_COLOR" then false
    else if set_nonempty env "FORCE_COLOR" then true
    else if set_nonempty env "CLICOLOR_FORCE" then true
    else isTerminal
  end.

Record palette := mkpalette {
  pal_reset : string; pal_dim : string; pal_bold : string; pal_green : string; pal_red : string;
  pal_yellow : string; pal_cyan : string; pal_gray : string; pal_magenta : string;
}.

Definition ansi (code : string) : string := String "027" ("[" +:+ code +:+ "m").

Definition newPalette (on : bool) : palette :=
  if on then mkpalette (ansi "0") (ansi "2") (ansi "1") (ansi "32") (ansi "31") (ansi "33") (ansi "36") (ansi "90") (ansi "35")
  else mkpalette "" "" "" "" "" "" "" "" "".

Definition wrap (p : palette) (code s : string) : string := if String.eqb code "" then s else code +:+ s +:+ pal_reset p.

(** ** Durations and times *)
Definition frac (u : Z) (k : nat) : string :=
  let m := (10 ^ Z.of_nat k)%Z in
  itoa (u / m) +:+ (if (u mod m =? 0)%Z then "" else "." +:+ frac_digits k (u mod m)).

(** [Duration.String]. *)
Definition duration_string (d : Z) : string :=
  let u := Z.abs d in
  let text :=
    if (u =? 0)%Z then "0s"
    else if (u <? Microsecond)%Z then itoa u +:+ "ns"
    else if (u <? GoTime.Millisecond)%Z then frac u 3 +:+ "µs"
    else if (u <? Second)%Z then frac u 6 +:+ "ms"
    else
      let s := (u / Second)%Z in
      let m := (s / 60)%Z in
      (if (0 <? m / 60)%Z then itoa (m / 60) +:+ "h" else "") +:+
      (if (0 <? m)%Z then itoa (m mod 60) +:+ "m" else "") +:+
      frac (s mod 60 * Second + u mod Second) 9 +:+ "s" in
  (if (d <? 0)%Z then "-" else "") +:+ text.

(** [Duration.Round], half away from zero. *)
Definition Round (d m : Z) : Z :=
  if (m <=? 0)%Z then d
  else
    let r := Z.rem d m in
    if (d <? 0)%Z then
      if (- r * 2 <? m)%Z then (d - r)%Z else Z.max min_int (d - m - r)
    else
      if (r * 2 <? m)%Z then (d - r)%Z else Z.min max_int (d + m - r).

(** [t.UTC().Format("15:04:05.000")] *)
Definition clock_text (t : Z) : string :=
  let r := (t mod ns_per_day)%Z in
  let sec := (r / 1000000000)%Z in
  digits 2 (sec / 3600) +:+ ":" +:+ digits 2 (sec / 60 mod 60) +:+ ":" +:+ digits 2 (sec mod 60) +:+ "." +:+ digits 3 (r mod 1000000000 / 1000000).

(** ** Values *)

(** The digits of an integer without its trailing zeros. *)
Fixpoint trim_zeros (s : string) : string :=
  match s with
  | "" => ""
  | String a s' => match trim_zeros s' with "" => if Ascii.eqb a "0" then "" else String a "" | t => String a t end
  end.

(** %v of a float64 that is an integer: from a million on, with an exponent. *)
Definition float_text (z : Z) : string :=
  let s := itoa (Z.abs z) in
  let e := (Z.of_nat (String.length s) - 1)%Z in
  (if (z <? 0)%Z then "-" else "") +:+
  (if (e <? 6)%Z then s
   else match s with
        | String a t =>
          String a (match trim_zeros t with "" => "" | u => "." +:+ u end) +:+ "e+" +:+ (if (e <? 10)%Z then "0" else "") +:+ itoa e
        | "" => ""
        end).

(** %v of a decoded value; a number that is no integer keeps its text. *)
Fixpoint json_text (j : json) : string :=
  match j with
  | JNull => "<nil>"
  | JBool b => if b then "true" else "false"
  | JNum s => match atoi s with Some z => float_text z | None => s end
  | JStr s => s
  | JArr l => "[" +:+ join " " (map json_text l) +:+ "]"
  | JObj l => "map[" +:+ join " " (map (fun kv => kv.1 +:+ ":" +:+ json_text kv.2) l) +:+ "]"
  end.

(** %v. *)
Definition any_text (v : any) : string :=
  match v with
  | AStr s => s
  | AInt z => itoa z
  | AStrs l => "[" +:+ join " " l +:+ "]"
  | AStrMap m => "map[" +:+ join " " (map (fun kv => kv.1 +:+ ":" +:+ kv.2) (entries m)) +:+ "]"
  | AJson j => json_text j
  end.

(** [[]rune(s)]: the encodings of the runes; a byte outside of one is U+FFFD. [k] bytes of
    a rune that has begun remain. *)
Fixpoint runes_go (k : nat) (cur s : string) : list string :=
  match s with
  | "" => match cur with "" => [] | _ => [cur] end
  | String a s' =>
    match k with
    | S k' => let cur := cur +:+ String a "" in match k' with 0 => cur :: runes_go 0 "" s' | _ => runes_go k' cur s' end
    | 0 =>
      if is_ascii a then String a "" :: runes_go 0 "" s'
      else match rune_extra s with Some n => runes_go n (String a "") s' | None => replacement :: runes_go 0 "" s' end
    end
  end.

Definition runes (s : string) : list string := runes_go 0 "" s.

Definition truncate (s : string) : string :=
  let rs := runes s in
  if length rs <=? 80 then s else join "" (take 79 rs) +:+ "…".

Definition formatResultValue (v : any) : string :=
  match v with
  | AStr s => truncate s
  | AStrs l => truncate ("[" +:+ join ", " l +:+ "]")
  | AStrMap m => truncate ("{" +:+ join ", " (map (fun kv => kv.1 +:+ ": " +:+ kv.2) (entries m)) +:+ "}")
  | _ => truncate (any_text v)
  end.

(** ** Lines *)
Definition glyph (status : string) (p : palette) : string :=
  if String.eqb status "succeeded" then wrap p (pal_green p) "✓"
  else if existsb (String.eqb status) ["failed"; "infrafailed"] then wrap p (pal_red p) "✗"
  else if String.eqb status "skipped" then wrap p (pal_yellow p) "⊘"
  else if String.eqb status "not-run" then wrap p (pal_gray p) "·"
  else "•".

Definition or (a b : string) : string := if String.eqb a "" then b else a.
Definition statusWord (s : string) : string := or s "completed".
Definition labelOf (name displayName : string) : string := or displayName name.

Definition prefixOf (task step : string) : string :=
  if String.eqb step "" then or task "?"
  else if String.eqb task "" then step
  else task +:+ "/" +:+ step.

Inductive Verbosity := Quiet | Normal | Verbose.

Record pretty := mkpretty { pr_pal : palette; pr_verb : Verbosity; pr_timestamps : bool }.

Definition NewPretty (color : bool) (verb : Verbosity) (timestamps : bool) : pretty := mkpretty (newPalette color) verb timestamps.

Definition at_least_normal (v : Verbosity) : bool := match v with Quiet => false | _ => true end.
Definition is_verbose (v : Verbosity) : bool := match v with Verbose => true | _ => false end.

Definition nl : string := String "010" "".

Definition timestamp_prefix (p : pretty) (e : Event) : string :=
  if negb (pr_timestamps p) || IsZero (ev_Time e) then "" else "[" +:+ clock_text (ev_Time e) +:+ "] ".

Definition rounded (e : Event) : string := duration_string (Round (ev_Duration e) GoTime.Millisecond).

(** The mark of a line from a standard error stream. *)
Definition stream_mark (p : pretty) (stderr : string) (e : Event) : string :=
  if String.eqb (ev_Stream e) stderr then wrap (pr_pal p) (pal_yellow (pr_pal p)) "!" else " ".

Definition sidecar_detail (status : string) : string :=
  if String.eqb status "infrafailed" then "failed to start" else if String.eqb status "failed" then "crashed" else status.

Definition resolver_trail (p : pretty) (e : Event) : string :=
  let pal := pr_pal p in
  if String.eqb (ev_Status e) "failed" then wrap pal (pal_red pal) (ev_Message e)
  else if ev_Cached e then wrap pal (pal_dim pal) "(cached)"
  else wrap pal (pal_dim pal) ("(" +:+ rounded e +:+ ")").

Definition message_part (p : pretty) (e : Event) : string :=
  if String.eqb (ev_Message e) "" then "" else "  " +:+ wrap (pr_pal p) (pal_red (pr_pal p)) (ev_Message e).

Definition result_lines (p : pretty) (e : Event) : string :=
  join "" (map (fun kv => "  " +:+ wrap (pr_pal p) (pal_bold (pr_pal p)) (kv.1 +:+ ":") +:+ " " +:+ formatResultValue kv.2 +:+ nl) (entries (ev_Results e))).

(** *** One text per kind of event *)
Section EventText.
Variables (p : pretty) (e : Event).

Let pal : palette := pr_pal p.
Let dim : string -> string := wrap pal (pal_dim pal).
Let cyan : string -> string := wrap pal (pal_cyan pal).
Let step : string := labelOf (ev_Step e) (ev_DisplayName e).

Definition if_normal (s : string) : string := if at_least_normal (pr_verb p) then s else "".
Definition if_verbose (s : string) : string := if is_verbose (pr_verb p) then s else "".

Definition run_start_text : string :=
  if_normal (cyan "▶" +:+ " " +:+ wrap pal (pal_bold pal) (labelOf (or (ev_Pipeline e) "pipeline") (ev_DisplayName e)) +:+ nl).

Definition task_start_text : string := if_verbose (cyan "▸" +:+ " " +:+ labelOf (ev_Task e) (ev_DisplayName e) +:+ nl).

Definition step_start_text : string :=
  if_verbose ("  " +:+ dim "·" +:+ " " +:+ dim (prefixOf (ev_Task e) step) +:+ " started" +:+ nl).

Definition step_end_text : string :=
  if_verbose ("  " +:+ dim "·" +:+ " " +:+ dim (prefixOf (ev_Task e) step) +:+ " finished (exit " +:+ itoa (ev_ExitCode e) +:+ ")" +:+ nl).

Definition step_log_text : string :=
  if_normal (timestamp_prefix p e +:+ "  " +:+ cyan (prefixOf (ev_Task e) step) +:+ " " +:+ dim "│" +:+ " " +:+
             stream_mark p "stderr" e +:+ " " +:+ ev_Line e +:+ nl).

Definition sidecar_log_text : string :=
  if_normal (timestamp_prefix p e +:+ "  " +:+ cyan "◊" +:+ " " +:+ cyan (ev_Task e +:+ ":" +:+ step) +:+ " " +:+ dim "│" +:+ " " +:+
             stream_mark p "sidecar-stderr" e +:+ " " +:+ ev_Line e +:+ nl).

Definition sidecar_start_text : string :=
  if_verbose ("  " +:+ dim "·" +:+ " " +:+ dim (ev_Task e +:+ ":" +:+ ev_Step e) +:+ " sidecar started" +:+ nl).

Definition sidecar_end_text : string :=
  if negb (String.eqb (ev_Status e) "succeeded") || negb (ev_ExitCode e =? 0)%Z then
    "  " +:+ wrap pal (pal_yellow pal) "·" +:+ " " +:+ dim (ev_Task e +:+ ":" +:+ ev_Step e) +:+
    " sidecar exited " +:+ itoa (ev_ExitCode e) +:+ " (" +:+ sidecar_detail (ev_Status e) +:+ ")" +:+ nl
  else if_verbose ("  " +:+ dim "·" +:+ " " +:+ dim (ev_Task e +:+ ":" +:+ ev_Step e) +:+ " sidecar exited 0" +:+ nl).

Definition resolver_start_text : string :=
  if_verbose ("  " +:+ dim "↳" +:+ " " +:+ dim (or (ev_Task e) "(pipeline)") +:+ " resolver " +:+ cyan (ev_Resolver e) +:+ " starting" +:+ nl).

Definition resolver_end_text : string :=
  if_normal ("  " +:+ dim "↳" +:+ " " +:+ (if String.eqb (ev_Task e) "" then "" else dim (ev_Task e) +:+ " ") +:+
             "resolver " +:+ cyan (ev_Resolver e) +:+ " " +:+ or (ev_Source e) "(no source reported)" +:+ " " +:+ resolver_trail p e +:+ nl).

Definition task_skip_text : string :=
  glyph "skipped" pal +:+ " " +:+ labelOf (ev_Task e) (ev_DisplayName e) +:+ "  skipped (" +:+ ev_Message e +:+ ")" +:+ nl.

Definition task_end_text : string :=
  glyph (ev_Status e) pal +:+ " " +:+ labelOf (ev_Task e) (ev_DisplayName e) +:+ "  " +:+ dim ("(" +:+ rounded e +:+ ")") +:+
  message_part p e +:+ nl.

Definition run_end_text : string :=
  if_normal (dim (join "" (replicate 40 "─")) +:+ nl) +:+
  glyph (ev_Status e) pal +:+ " PipelineRun " +:+ wrap pal (pal_bold pal) (statusWord (ev_Status e)) +:+ " in " +:+ rounded e +:+
  message_part p e +:+ nl +:+ result_lines p e.

Definition error_text : string := wrap pal (pal_red pal) "error:" +:+ " " +:+ ev_Message e +:+ nl.

Definition debug_text : string :=
  if_normal (timestamp_prefix p e +:+ "  " +:+ wrap pal (pal_gray pal) "[debug]" +:+ " component=" +:+ ev_Component e +:+
             join "" (map (fun kv => " " +:+ kv.1 +:+ "=" +:+ any_text kv.2) (entries (ev_Fields e))) +:+
             (if String.eqb (ev_Message e) "" then "" else " — " +:+ ev_Message e) +:+ nl).

(** What [Emit] writes; nothing for a kind it does not know. *)
Definition kind_texts : list (EventKind * string) :=
  [(EvtRunStart, run_start_text); (EvtTaskStart, task_start_text); (EvtStepStart, step_start_text); (EvtStepEnd, step_end_text);
   (EvtStepLog, step_log_text); (EvtSidecarLog, sidecar_log_text); (EvtSidecarStart, sidecar_start_text); (EvtSidecarEnd, sidecar_end_text);
   (EvtResolverStart, resolver_start_text); (EvtResolverEnd, resolver_end_text); (EvtTaskSkip, task_skip_text); (EvtTaskEnd, task_end_text);
   (EvtRunEnd, run_end_text); (EvtError, error_text); (EvtDebug, debug_text)].

Definition pretty_text : string :=
  match List.find (fun kt => String.eqb (ev_Kind e) (kind_string kt.1)) kind_texts with Some kt => kt.2 | None => "" end.
End EventText.

Example duration_ex : map duration_string [0; 999; 1500; 2000000; 1500000000; 61000000000; 3600000000000; -90500000000]%Z =
  ["0s"; "999ns"; "1.5µs"; "2ms"; "1.5s"; "1m1s"; "1h0m0s"; "-1m30.5s"].
Proof. vm_compute. reflexivity. Qed.

Example float_ex : map float_text [0; 42; -100000; 1000000; 1234567; 123456789012]%Z =
  ["0"; "42"; "-100000"; "1e+06"; "1.234567e+06"; "1.23456789012e+11"].
Proof. vm_compute. reflexivity. Qed.

Example pretty_ex : pretty_text (NewPretty false Normal true) (step_log 3661001000000 "t" "s" "" "stderr" "boom") =
  "[01:01:01.001]   t/s │ ! boom" +:+ nl.
Proof. vm_compute. reflexivity. Qed.
