(* ===== verification/Reporters.v ===== *)
(** * internal/reporter and internal/runstore/replay.go: sinks, filter, tee, replay

    What reporters do with the events they are given: the JSON sink and the persisting
    sink with its buffered file, the filter of --task and --step, the tee; the replay of a
    persisted event log into a reporter. *)

From S2P Require Import Prelude GoStrings Json GoDate JsonText Run RunIndex LogLines Events Pretty.

(** ** bufio.Writer over a file whose writes succeed *)
Record buffered := mkbuffered { bw_file : string; bw_buf : string }.

Definition writer_size : Z := 4096.

(** [Write]: what does not fit fills the buffer, which is flushed; what is left goes to
    the file directly when it exceeds the empty buffer. *)
Definition Write (b : buffered) (p : string) : buffered :=
  let avail := (writer_size - size (bw_buf b))%Z in
  if (size p <=? avail)%Z then mkbuffered (bw_file b) (bw_buf b +:+ p)
  else if String.eqb (bw_buf b) "" then mkbuffered (bw_file b +:+ p) ""
  else
    let '(x, y) := split_at (Z.to_nat avail) p in
    if (size y <=? writer_size)%Z then mkbuffered (bw_file b +:+ bw_buf b +:+ x) y
    else mkbuffered (bw_file b +:+ bw_buf b +:+ x +:+ y) "".

Definition Flush (b : buffered) : buffered := mkbuffered (bw_file b +:+ bw_buf b) "".

(** ** Reporters *)

(** [RSink]: any other consumer, with what it was given and what its [Close] answers. *)
Inductive reporter : Type :=
  | RSink (given : list Event) (answer : option text)
  | RJSON (w : string)
  | RPretty (p : pretty) (w : string)
  | RPersist (b : buffered) (file : bool) (answer : option text)
  | RFilter (inner : reporter) (tasks steps : option (gset string))
  | RTee (rs : list reporter).

Definition setOf (l : list string) : option (gset string) := match l with [] => None | _ => Some (list_to_set l) end.

Definition NewFilter (inner : reporter) (tasks steps : list string) : reporter := RFilter inner (setOf tasks) (setOf steps).

(** [f.tasks != nil && !f.tasks[x]] *)
Definition refuses (s : option (gset string)) (x : string) : bool := match s with Some s => bool_decide (x ∉ s) | None => false end.

(** Whether the filter forwards the event. *)
Definition passes (tasks steps : option (gset string)) (e : Event) : bool :=
  if existsb (String.eqb (ev_Kind e)) [kind_string EvtRunStart; kind_string EvtRunEnd; kind_string EvtError] then true
  else if String.eqb (ev_Task e) "" then true
  else if refuses tasks (ev_Task e) then false
  else if refuses steps (ev_Step e) && negb (String.eqb (ev_Step e) "") then false
  else true.

Definition eol : string := String newline "".

(** The line of an event, when it can be encoded. *)
Definition event_line (e : Event) : string := match MarshalJSON e with Some b => b +:+ eol | None => "" end.

Section Emit.
(** The [n]-th reading of the clock. *)
Variable now : nat -> Z.

Definition fill_time (e : Event) (n : nat) : Event * nat := if IsZero (ev_Time e) then (set_Time (now n) e, S n) else (e, n).

(** [Emit], with the number of the next clock reading. *)
Fixpoint emit (r : reporter) (e : Event) (n : nat) : reporter * nat :=
  match r with
  | RSink given answer => (RSink (given ++ [e]) answer, n)
  | RJSON w =>
    let '(e, n) := fill_time e n in
    (match MarshalJSON e with Some b => RJSON ((w +:+ b) +:+ eol) | None => RJSON w end, n)
  | RPretty p w => (RPretty p (w +:+ pretty_text p e), n)
  | RPersist b file answer =>
    let '(e, n) := fill_time e n in
    (match MarshalJSON e with Some j => RPersist (Write (Write b j) eol) file answer | None => RPersist b file answer end, n)
  | RFilter inner tasks steps =>
    if passes tasks steps e then let '(inner, n) := emit inner e n in (RFilter inner tasks steps, n) else (r, n)
  | RTee rs =>
    let '(rs, n) := (fix go rs n := match rs with
      | [] => ([], n)
      | r :: rs => let '(r, n) := emit r e n in let '(rs, n) := go rs n in (r :: rs, n)
      end) rs n in
    (RTee rs, n)
  end.

Definition emit_all (r : reporter) (es : list Event) (n : nat) : reporter * nat :=
  foldl (fun '(r, n) e => emit r e n) (r, n) es.
End Emit.

(** [Close]; a tee closes all and answers the first error. *)
Fixpoint close (r : reporter) : reporter * option text :=
  match r with
  | RSink given answer => (r, answer)
  | RJSON w => (r, None)
  | RPretty p w => (r, None)
  | RPersist b file answer => (RPersist (Flush b) file answer, if file then answer else None)
  | RFilter inner tasks steps => let '(inner, err) := close inner in (RFilter inner tasks steps, err)
  | RTee rs =>
    let '(rs, err) := (fix go rs := match rs with
      | [] => ([], None)
      | r :: rs => let '(r, err) := close r in let '(rs, err') := go rs in (r :: rs, match err with Some _ => err | None => err' end)
      end) rs in
    (RTee rs, err)
  end.

(** ** runstore.Replay *)
Definition max_token : Z := 4194304.

Definition too_long : text := Fmt "scan events: %w" [TErr (lit "bufio.Scanner: token too long")].

(** The lines of the file from line [k] on, each read by the scanner, into [r]. *)
Fixpoint replay_lines (now : nat -> Z) (k : Z) (ls : list string) (r : reporter) (n : nat) : reporter * nat * option text :=
  match ls with
  | [] => (r, n, None)
  | l :: ls =>
    if (max_token <=? size l)%Z then (r, n, Some too_long)
    else
      let b := strip_cr l in
      if String.eqb b "" then replay_lines now (k + 1) ls r n
      else
        match UnmarshalJSON b with
        | None => (r, n, Some (Fmt "events line %d: %w" [TInt k; TErr decode_error]))
        | Some ev => let '(r, n) := emit now r ev n in replay_lines now (k + 1) ls r n
        end
  end.

(** [None]: there is no such file. *)
Definition Replay (now : nat -> Z) (file : option string) (r : reporter) (n : nat) : reporter * nat * option text :=
  match file with
  | None => (r, n, Some (Fmt "open events: %w" [TErr (lit "no such file")]))
  | Some data => replay_lines now 1 (raw_lines data) r n
  end.

Definition ex_tee : reporter := RTee [NewFilter (RJSON "") ["a"] []; RPersist (mkbuffered "" "") true None].

Example tee_ex :
  let '(r, n) := emit_all (fun _ => 1%Z) ex_tee [step_log zero_time "a" "s" "" "stdout" "x"; step_log 5 "b" "s" "" "stdout" "y"] 0 in
  match (close r).1 with
  | RTee [RFilter (RJSON w) _ _; RPersist b _ _] => (length (raw_lines w), length (raw_lines (bw_file b)), n)
  | _ => (0, 0, 0)
  end = (1, 2, 2).
Proof. vm_compute. reflexivity. Qed.

(** ** The text of a document has no control byte *)
Definition printable (a : ascii) : bool := negb (byte a <? 32)%N.

Lemma rune_extra_bytes a s n : rune_extra (String a s) = Some n ->
  exists u v, s = u +:+ v /\ n = String.length u /\ str_all printable u = true.
Proof.
  assert (forall lo hi b, (128 <= lo)%N -> in_range lo hi b = true -> printable b = true) as Hp.
  { intros lo hi b Hlo [H%N.leb_le _]%andb_true_iff. unfold printable. by rewrite (proj2 (N.ltb_ge _ _)) by lia. }
  assert (forall b, cont b = true -> printable b = true) as Hc by (intros b; by apply Hp).
  destruct s as [|b s]; [done|]. cbn [rune_extra]. destruct (in_range 194 223 a).
  { destruct (cont b) eqn:E; [|done]. intros [= <-]. exists (String b ""), s. split_and!; [done|done|]. simpl. by rewrite (Hc b). }
  destruct (in_range 224 239 a).
  { destruct s as [|c s]; [done|]. destruct (_ && cont c) eqn:E; [|done]. apply andb_true_iff in E as [E1 E2]. intros [= <-].
    exists (String b (String c "")), s. split_and!; [done|done|]. simpl. rewrite (Hc c) by done.
    erewrite (Hp _ _ b); [done| |exact E1]. by destruct (_ =? _)%N. }
  destruct (in_range 240 244 a); [|done].
  destruct s as [|c [|d s]]; [done..|]. destruct (_ && cont d) eqn:E; [|done]. apply andb_true_iff in E as [[E1 E2]%andb_true_iff E3]. intros [= <-].
  exists (String b (String c (String d ""))), s. split_and!; [done|done|]. simpl. rewrite (Hc c), (Hc d) by done.
  erewrite (Hp _ _ b); [done| |exact E1]. by destruct (_ =? _)%N.
Qed.

Lemma quote_ascii_printable a : str_all printable (quote_ascii a) = true.
Proof. destruct a as [[] [] [] [] [] [] [] []]; reflexivity. Qed.

Lemma quote_go_printable s : str_all printable (quote_go 0 0 s) = true.
Proof.
  remember (String.length s) as n eqn:Hn. revert s Hn. induction n as [n IH] using lt_wf_ind; intros [|a s] ->; [done|].
  cbn [quote_go]. destruct (is_ascii a) eqn:Ha.
  { rewrite str_all_app, quote_ascii_printable. apply (IH (String.length s)); [simpl; lia|done]. }
  assert (printable a = true) as Hp.
  { unfold is_ascii in Ha. apply N.ltb_ge in Ha. unfold printable. by rewrite (proj2 (N.ltb_ge _ _)) by lia. }
  destruct (line_sep (String a s)) as [e|] eqn:Hl.
  - assert (str_all printable e = true) as He.
    { unfold line_sep in Hl. destruct (has_prefix _ _); [by injection Hl as <-|]. destruct (has_prefix _ _); [by injection Hl as <-|done]. }
    apply line_sep_inv in Hl as (p & t & Heq & Hp3 & _). destruct p as [|b [|c [|d [|]]]]; try done. rewrite !str_app_cons, str_app_nil_l in Heq.
    injection Heq as <- ->. cbn [quote_go]. rewrite str_all_app, He. apply (IH (String.length t)); [simpl; lia|done].
  - destruct (rune_extra (String a s)) as [m|] eqn:Hr.
    + apply rune_extra_bytes in Hr as (u & v & -> & -> & Hu). rewrite quote_go_copy by done. simpl str_all. rewrite str_all_app, Hp, Hu.
      apply (IH (String.length v)); [simpl; rewrite str_length_app; lia|done].
    + rewrite str_all_app. apply (IH (String.length s)); [simpl; lia|done].
Qed.

Lemma quote_printable s : str_all printable (quote s) = true.
Proof. unfold quote. rewrite str_app_cons. simpl str_all. rewrite str_all_app, quote_go_printable. done. Qed.

Lemma itoa_printable z : str_all printable (itoa z) = true.
Proof.
  assert (forall b, is_digit b = true -> printable b = true) as Hd by (intros [[] [] [] [] [] [] [] []]; done).
  assert (forall s, str_all is_digit s = true -> str_all printable s = true) as Hs by (intros s; by apply str_all_impl).
  destruct (itoa_cases z) as [[_ ->]|(sg & a & d & -> & [[-> _]|[-> _]] & Ha & _ & Hdd & _)]; [done| |]; simpl; by rewrite (Hd a), (Hs d).
Qed.

Lemma join_printable sep l : str_all printable sep = true -> Forall (fun s => str_all printable s = true) l -> str_all printable (join sep l) = true.
Proof.
  intros Hsep. induction 1 as [|x l Hx Hl IH]; [done|]. destruct l as [|y l]; [done|].
  change (join sep (x :: y :: l)) with (x +:+ sep +:+ join sep (y :: l)). by rewrite !str_all_app, Hx, Hsep, IH.
Qed.

Lemma print_printable j : wf_json j -> forall d, str_all printable (print_in no_break ":" d j) = true.
Proof.
  induction j as [|b|s|s|l IH|l IH] using json_rect'; intros Hw d; [done|by destruct b|destruct Hw as [z ->]; apply itoa_printable|apply quote_printable| |].
  - rewrite wf_arr in Hw. destruct l as [|x l]; [done|]. cbn [print_in]. revert IH Hw. generalize (x :: l). intros l' IH Hw.
    rewrite !str_all_app. rewrite join_printable; [done|done|]. apply Forall_map. rewrite Forall_forall in *. intros y Hy. rewrite str_all_app.
    by rewrite (IH y Hy (Hw y Hy)).
  - rewrite wf_obj in Hw. destruct l as [|x l]; [done|]. cbn [print_in]. revert IH Hw. generalize (x :: l). intros l' IH Hw.
    rewrite !str_all_app. rewrite join_printable; [done|done|]. apply Forall_map. rewrite Forall_forall in *. intros y Hy. rewrite !str_all_app.
    destruct (Hw y Hy) as [_ Hy2]. by rewrite (IH y Hy Hy2), quote_printable.
Qed.

Lemma printable_no_newline s : str_all printable s = true -> no_newline s.
Proof. apply str_all_impl. intros [[] [] [] [] [] [] [] []]; done. Qed.

Lemma printable_strip_cr s : str_all printable s = true -> strip_cr s = s.
Proof.
  induction s as [|a s IH]; [done|]. simpl str_all. intros [Ha Hs]%andb_true_iff. destruct s as [|b s].
  - cbn. destruct (Ascii.eqb_spec a "013"); [by subst|done].
  - change (strip_cr (String a (String b s))) with (String a (strip_cr (String b s))). by rewrite IH.
Qed.

Lemma MarshalJSON_line e s : wf_event e -> MarshalJSON e = Some s -> str_all printable s = true /\ s <> "".
Proof.
  intros He. unfold MarshalJSON. destruct (has_json_year _); [|done]. intros [= <-]. split.
  - apply print_printable. apply eventJSON_wf, wf_event_duration; [done|]. apply Milliseconds_range. by destruct He as (_ & _ & _ & ? & _).
  - unfold eventJSON_members. done.
Qed.

(** ** The buffered file *)
Definition text_of (b : buffered) : string := bw_file b +:+ bw_buf b.
Definition buffer_ok (b : buffered) : Prop := (size (bw_buf b) <= writer_size)%Z.

Lemma Write_spec b p : buffer_ok b -> text_of (Write b p) = text_of b +:+ p /\ buffer_ok (Write b p).
Proof.
  unfold buffer_ok, text_of, Write. intros Hb. destruct b as [f u]. cbn [bw_file bw_buf] in *.
  destruct (Z.leb_spec (size p) (writer_size - size u)) as [Hp|Hp].
  - cbn [bw_file bw_buf]. rewrite size_app. split; [by rewrite str_app_assoc|lia].
  - destruct (String.eqb_spec u "") as [->|Hu]; cbn [bw_file bw_buf].
    + split; [by rewrite !str_app_nil_r|done].
    + pose proof (split_at_spec (Z.to_nat (writer_size - size u)) p) as [E _]. destruct (split_at _ p) as [x y]. cbn [fst snd] in E. subst p.
      destruct (Z.leb_spec (size y) writer_size); cbn [bw_file bw_buf]; split; try done; by rewrite ?str_app_nil_r, !str_app_assoc.
Qed.

Definition lines_of (es : list Event) : string := join "" (map event_line es).

Lemma lines_of_cons e es : lines_of (e :: es) = event_line e +:+ lines_of es.
Proof. unfold lines_of. destruct es; [cbn; by rewrite str_app_nil_r|done]. Qed.

Section Sinks.
Context (now : nat -> Z).

(** Events whose time the sinks do not fill in. *)
Definition timed (e : Event) : Prop := IsZero (ev_Time e) = false.

Lemma emit_all_cons r e es n : emit_all now r (e :: es) n = let '(r, n) := emit now r e n in emit_all now r es n.
Proof. unfold emit_all. cbn [foldl]. by destruct (emit now r e n). Qed.

Lemma emit_all_app r es es' n : emit_all now r (es ++ es') n = let '(r, n) := emit_all now r es n in emit_all now r es' n.
Proof. unfold emit_all. rewrite foldl_app. by destruct (foldl _ _ es). Qed.

Lemma emit_all_sink given a es n : emit_all now (RSink given a) es n = (RSink (given ++ es) a, n).
Proof. revert given. induction es as [|e es IH]; intros given; [by rewrite app_nil_r|]. rewrite emit_all_cons. cbn [emit]. by rewrite IH, <-app_assoc. Qed.

Lemma emit_json w e n : timed e -> emit now (RJSON w) e n = (RJSON (w +:+ event_line e), n).
Proof.
  intros Ht. cbn [emit]. unfold fill_time. rewrite Ht. unfold event_line. destruct (MarshalJSON e); [by rewrite str_app_assoc|by rewrite str_app_nil_r].
Qed.

Lemma emit_all_json w es n : Forall timed es -> emit_all now (RJSON w) es n = (RJSON (w +:+ lines_of es), n).
Proof.
  intros H. revert w. induction H as [|e es He Hes IH]; intros w; [cbn; by rewrite str_app_nil_r|].
  rewrite emit_all_cons, emit_json by done. by rewrite IH, lines_of_cons, str_app_assoc.
Qed.

Lemma emit_persist b f a e n : timed e -> buffer_ok b ->
  exists b', emit now (RPersist b f a) e n = (RPersist b' f a, n) /\ text_of b' = text_of b +:+ event_line e /\ buffer_ok b'.
Proof.
  intros Ht Hb. cbn [emit]. unfold fill_time. rewrite Ht. unfold event_line. destruct (MarshalJSON e) as [j|].
  - exists (Write (Write b j) eol). destruct (Write_spec b j Hb) as [E1 H1]. destruct (Write_spec _ eol H1) as [E2 H2].
    split_and!; [done| |done]. by rewrite E2, E1, str_app_assoc.
  - exists b. split_and!; [done|by rewrite str_app_nil_r|done].
Qed.

Lemma emit_all_persist b f a es n : Forall timed es -> buffer_ok b ->
  exists b', emit_all now (RPersist b f a) es n = (RPersist b' f a, n) /\ text_of b' = text_of b +:+ lines_of es /\ buffer_ok b'.
Proof.
  intros H. revert b. induction H as [|e es He Hes IH]; intros b Hb; [exists b; split_and!; [done|cbn; by rewrite str_app_nil_r|done]|].
  destruct (emit_persist b f a e n He Hb) as (b1 & E1 & T1 & H1). destruct (IH b1 H1) as (b2 & E2 & T2 & H2).
  exists b2. rewrite emit_all_cons, E1. split_and!; [done| |done]. by rewrite T2, T1, lines_of_cons, str_app_assoc.
Qed.

Lemma emit_all_pretty p w es n : emit_all now (RPretty p w) es n = (RPretty p (w +:+ join "" (map (pretty_text p) es)), n).
Proof.
  revert w. induction es as [|e es IH]; intros w; [cbn; by rewrite str_app_nil_r|]. rewrite emit_all_cons. cbn [emit]. rewrite IH.
  do 2 f_equal. rewrite <-str_app_assoc. f_equal. destruct es; [cbn; by rewrite str_app_nil_r|done].
Qed.

(** A filter forwards the events that pass, and nothing else reaches the inner reporter. *)
Lemma emit_all_filter r ts ss es n :
  emit_all now (RFilter r ts ss) es n = let '(r, n) := emit_all now r (List.filter (passes ts ss) es) n in (RFilter r ts ss, n).
Proof.
  revert r n. induction es as [|e es IH]; intros r n; [done|]. rewrite emit_all_cons. cbn [List.filter emit]. destruct (passes ts ss e).
  - rewrite emit_all_cons. destruct (emit now r e n) as [r' n']. apply IH.
  - apply IH.
Qed.

(** Each reporter of a tee is given all events; the clock goes on from one to the next. *)
Lemma emit_tee_two r1 r2 e n : emit now (RTee [r1; r2]) e n =
  let '(r1, n) := emit now r1 e n in let '(r2, n) := emit now r2 e n in (RTee [r1; r2], n).
Proof. cbn [emit]. destruct (emit now r1 e n) as [r1' n1]. by destruct (emit now r2 e n1). Qed.

(** No reporter reads the clock for a timed event. *)
Fixpoint emit_timed (r : reporter) : forall e n, timed e -> (emit now r e n).2 = n.
Proof.
  intros e n He. destruct r as [g a|w|p w|b f a|r ts ss|rs]; cbn [emit]; [done|by unfold fill_time; rewrite He|done|by unfold fill_time; rewrite He| |].
  - destruct (passes ts ss e); [|done]. pose proof (emit_timed r e n He) as E. by destruct (emit now r e n).
  - match goal with |- context [(?go rs n)] => assert (forall n, (go rs n).2 = n) as H end.
    { clear n. revert rs. fix go' 1. intros [|r rs] n; [done|]. pose proof (emit_timed r e n He) as E. destruct (emit now r e n) as [r1 n1].
      cbn [snd] in E. subst n1. pose proof (go' rs n) as E. match goal with |- context [?f rs n] => by destruct (f rs n) end. }
    specialize (H n). match goal with |- context [?f rs n] => by destruct (f rs n) end.
Qed.

Lemma emit_all_tee r1 r2 es n : Forall timed es ->
  emit_all now (RTee [r1; r2]) es n = (RTee [(emit_all now r1 es n).1; (emit_all now r2 es n).1], n).
Proof.
  intros H. revert r1 r2. induction H as [|e es He Hes IH]; intros r1 r2; [done|]. rewrite emit_all_cons, emit_tee_two.
  pose proof (emit_timed r1 e n He) as E1. pose proof (emit_timed r2 e n He) as E2. rewrite !(emit_all_cons _ e).
  destruct (emit now r1 e n) as [r1' n1]. cbn [snd] in E1. subst n1. destruct (emit now r2 e n) as [r2' n2]. cbn [snd] in E2. subst n2. apply IH.
Qed.
End Sinks.

(** ** Replaying the lines of events *)
Definition fits (e : Event) : Prop := (size (event_line e) <= max_token)%Z.

(** Events that a persisted log keeps: valid, with their own time, and not too long. *)
Definition loggable (e : Event) : Prop := wf_event e /\ timed e /\ fits e.

Lemma wf_event_line e : wf_event e -> exists s, MarshalJSON e = Some s /\ event_line e = s +:+ eol.
Proof. intros (_ & Ht & _). unfold event_line, MarshalJSON. rewrite Ht. by eexists. Qed.

Lemma raw_lines_event e s rest : wf_event e -> MarshalJSON e = Some s -> raw_lines (event_line e +:+ rest) = s :: raw_lines rest.
Proof.
  intros He Hs. destruct (MarshalJSON_line e s He Hs) as [Hp _]. unfold event_line. rewrite Hs, <-str_app_assoc.
  by apply raw_lines_cut, printable_no_newline.
Qed.

Lemma timed_reread e : timed e -> timed (reread e).
Proof. done. Qed.

Lemma replay_events now k es rest r n : Forall loggable es ->
  replay_lines now k (raw_lines (lines_of es +:+ rest)) r n =
    let '(r, n) := emit_all now r (map reread es) n in replay_lines now (k + Z.of_nat (length es)) (raw_lines rest) r n.
Proof.
  intros H. revert k r n. induction H as [|e es (He & Ht & Hf) Hes IH]; intros k r n; [cbn; by rewrite Z.add_0_r|].
  destruct (wf_event_line e He) as (s & Hs & Hl). rewrite lines_of_cons, <-str_app_assoc, (raw_lines_event e s _ He Hs). cbn [replay_lines map].
  destruct (MarshalJSON_line e s He Hs) as [Hp Hne].
  assert (size s < max_token)%Z as Hsz by (unfold fits in Hf; rewrite Hl, size_app in Hf; change (size eol) with 1%Z in Hf; lia).
  rewrite (proj2 (Z.leb_gt _ _)) by done. cbv zeta. rewrite printable_strip_cr by done. rewrite (proj2 (String.eqb_neq s "")) by done.
  rewrite (Unmarshal_Marshal e s He Hs), emit_all_cons. destruct (emit now r (reread e) n) as [r' n'].
  replace (k + Z.of_nat (length (e :: es)))%Z with (k + 1 + Z.of_nat (length es))%Z by (cbn [length]; lia). apply IH.
Qed.

(** What is in the file when the persisting sink is closed. *)
Definition persisted (now : nat -> Z) (es : list Event) (n : nat) : option string :=
  match (close (emit_all now (RPersist (mkbuffered "" "") true None) es n).1).1 with RPersist b _ _ => Some (bw_file b) | _ => None end.

Lemma persisted_lines now es n : Forall timed es -> persisted now es n = Some (lines_of es).
Proof.
  intros H. unfold persisted. destruct (emit_all_persist now (mkbuffered "" "") true None es n H) as (b & -> & T & _); [unfold buffer_ok; done|].
  cbn. cbn in T. unfold text_of in T. by rewrite T.
Qed.

Lemma loggable_timed es : Forall loggable es -> Forall timed es.
Proof. intros H. eapply Forall_impl; [exact H|]. by intros e (_ & ? & _). Qed.

(** C34: a log of events, persisted event by event through the buffered writer, closed, and
    replayed into any reporter, gives that reporter exactly the events of the log in order,
    with durations cut to whole milliseconds and result values as JSON decodes them, and no error; provided the events carry their
    own time, hold valid UTF-8 and values JSON keeps, and no line exceeds the scanner's
    limit of four mebibytes. *)
Theorem Replay_persisted now es r n m :
  Forall loggable es ->
  Replay now (persisted now es n) r m = let '(r, m) := emit_all now r (map reread es) m in (r, m, None).
Proof.
  intros H. rewrite (persisted_lines now es n (loggable_timed es H)). cbn [Replay].
  rewrite <-(str_app_nil_r (lines_of es)), (replay_events now 1 es "" r m H). by destruct (emit_all _ _ _ _).
Qed.

Definition ex_done : Event := step_log 5 "b" "s" "" "stdout" "done".
Definition ex_log : list Event := [ex_event; ex_done].

(** A field of a concrete event, by evaluation. *)
Ltac example_field :=
  lazymatch goal with
  | |- Forall _ _ => repeat (apply Forall_cons_2; [vm_compute; reflexivity|]); apply Forall_nil_2
  | |- in_int _ => split; vm_compute; discriminate
  | |- fits _ => vm_compute; discriminate
  | |- has_json_year _ = true => vm_compute; reflexivity
  | |- timed _ => vm_compute; reflexivity
  | |- _ => idtac
  end.

Lemma empty_members (m : gmap string any) : map_to_list m = [] -> wf_members m.
Proof. intros ->%map_to_list_empty_iff. apply map_Forall_empty. Qed.

Lemma ex_done_loggable : loggable ex_done.
Proof.
  split; [unfold wf_event; split_and!|split]; example_field; [by apply empty_members|by apply empty_members|exact I].
Qed.

Lemma ex_log_loggable : Forall loggable ex_log.
Proof.
  apply Forall_cons_2; [|apply Forall_cons_2; [apply ex_done_loggable|apply Forall_nil_2]].
  split; [unfold wf_event; split_and!|split]; example_field.
  - apply map_Forall_insert_2; [|apply map_Forall_singleton]; (split; [reflexivity|]); (split_and!; [by repeat split|reflexivity|cbn; lia]).
  - by apply empty_members.
  - cbn. split_and!; [reflexivity|example_field..|]. by apply map_Forall_singleton.
Qed.

Lemma Replay_persisted_witness :
  Replay (fun _ => 0%Z) (persisted (fun _ => 0%Z) ex_log 0) (RSink [] None) 0 = (RSink (map reread ex_log) None, 0, None).
Proof. rewrite Replay_persisted; [|apply ex_log_loggable]. by rewrite emit_all_sink. Defined.

(** C36: the JSON sink and the persisting sink, fed by one tee, hold the same bytes when the
    run closes them; before, the file lacks at most what the buffer of 4096 bytes holds. *)
Theorem tee_same_bytes now es n :
  Forall timed es ->
  (exists b, emit_all now (RTee [RJSON ""; RPersist (mkbuffered "" "") true None]) es n = (RTee [RJSON (lines_of es); RPersist b true None], n) /\
     bw_file b +:+ bw_buf b = lines_of es /\ (size (bw_buf b) <= writer_size)%Z) /\
  (close (emit_all now (RTee [RJSON ""; RPersist (mkbuffered "" "") true None]) es n).1).1 =
    RTee [RJSON (lines_of es); RPersist (mkbuffered (lines_of es) "") true None].
Proof.
  intros H. rewrite emit_all_tee by done. rewrite emit_all_json by done.
  destruct (emit_all_persist now (mkbuffered "" "") true None es n H) as (b & -> & T & Hb); [unfold buffer_ok; done|]. cbn in T. unfold text_of in T.
  split; [exists b; by split_and!|]. cbn. unfold Flush. by rewrite T.
Qed.

Lemma tee_same_bytes_witness :
  (close (emit_all (fun _ => 0%Z) (RTee [RJSON ""; RPersist (mkbuffered "" "") true None]) ex_log 0).1).1 =
    RTee [RJSON (lines_of ex_log); RPersist (mkbuffered (lines_of ex_log) "") true None].
Proof. apply (tee_same_bytes (fun _ => 0%Z) ex_log 0), loggable_timed, ex_log_loggable. Defined.

(** For an event without a time each sink reads the clock for itself. *)
Example tee_zero_time :
  match (emit_all (fun n => Z.of_nat n * 1000000000)%Z (RTee [RJSON ""; RPersist (mkbuffered "" "") true None]) [step_log zero_time "t" "s" "" "stdout" "x"] 0).1 with
  | RTee [RJSON w; RPersist b _ _] => String.eqb w (bw_buf b)
  | _ => true
  end = false.
Proof. vm_compute. reflexivity. Qed.

(** filtering while the run goes on and filtering its replayed log show the same events:
    the events of the log that pass the --task and --step filter, in their order. *)
Theorem filtered_live_and_replayed now es tasks steps n m :
  Forall loggable es ->
  let live := List.filter (passes (setOf tasks) (setOf steps)) es in
  emit_all now (NewFilter (RSink [] None) tasks steps) es n = (NewFilter (RSink live None) tasks steps, n) /\
  Replay now (persisted now es n) (NewFilter (RSink [] None) tasks steps) m =
    (NewFilter (RSink (map reread live) None) tasks steps, m, None).
Proof.
  intros H live. unfold NewFilter. rewrite emit_all_filter, emit_all_sink. split; [done|].
  rewrite (persisted_lines now es n (loggable_timed es H)). cbn [Replay].
  rewrite <-(str_app_nil_r (lines_of es)), (replay_events now 1 es "" _ m H), emit_all_filter, emit_all_sink. cbn.
  do 4 f_equal. unfold live. clear H. induction es as [|e es IH]; [done|]. cbn [map List.filter].
  change (passes _ _ (reread e)) with (passes (setOf tasks) (setOf steps) e). destruct (passes _ _ e); cbn [map]; by rewrite IH.
Qed.

Lemma filtered_live_and_replayed_witness :
  Replay (fun _ => 0%Z) (persisted (fun _ => 0%Z) ex_log 0) (NewFilter (RSink [] None) ["b"] []) 0 =
    (NewFilter (RSink [step_log 5 "b" "s" "" "stdout" "done"] None) ["b"] [], 0, None).
Proof. rewrite (proj2 (filtered_live_and_replayed (fun _ => 0%Z) ex_log ["b"] [] 0 0 ex_log_loggable)). vm_compute. reflexivity. Defined.

(** ** What a replay prints *)

(** Events the log keeps to the last detail: whole milliseconds, and text values. *)
Definition textual (m : gmap string any) : Prop := map_Forall (fun _ v => exists s, v = AStr s) m.
Definition faithful (e : Event) : Prop :=
  (Z.rem (ev_Duration e) Millisecond = 0)%Z /\ textual (ev_Results e) /\ textual (ev_Fields e).

Lemma reread_textual m : textual m -> reread_any <$> m = m.
Proof.
  intros Hm. apply map_eq. intros k. rewrite lookup_fmap. destruct (m !! k) as [v|] eqn:E; [|done]. destruct (Hm k v E) as [s ->]. done.
Qed.

Lemma reread_faithful e : faithful e -> reread e = e.
Proof.
  intros (Hd & Hr & Hf). unfold reread, to_millis, reread_values. rewrite !reread_textual by done.
  assert (Milliseconds (ev_Duration e) * Millisecond = ev_Duration e)%Z as E.
  { unfold Milliseconds. pose proof (Z.quot_rem (ev_Duration e) Millisecond ltac:(done)). lia. }
  destruct e. cbn in *. by rewrite E.
Qed.

(** [tkn-act logs] prints the terminal output of the run again, byte by byte, whatever
    the verbosity, the colors and the filters, when the events' durations are whole
    milliseconds and their result and debug values are strings. *)
Theorem replay_prints_live now p es tasks steps n m :
  Forall (fun e => loggable e /\ faithful e) es ->
  (Replay now (persisted now es n) (NewFilter (RPretty p "") tasks steps) m).1.1 =
  (emit_all now (NewFilter (RPretty p "") tasks steps) es n).1.
Proof.
  intros H. apply Forall_and in H as [Hl Hf]. rewrite (persisted_lines now es n (loggable_timed es Hl)). cbn [Replay].
  rewrite <-(str_app_nil_r (lines_of es)), (replay_events now 1 es "" _ m Hl).
  assert (map reread es = es) as ->.
  { clear Hl. induction Hf as [|e es He Hes IH]; [done|]. cbn. by rewrite reread_faithful, IH. }
  unfold NewFilter. rewrite !emit_all_filter, !emit_all_pretty. done.
Qed.

Lemma replay_prints_live_witness :
  let r := NewFilter (RPretty (NewPretty false Normal false) "") ["b"] [] in
  (Replay (fun _ => 0%Z) (persisted (fun _ => 0%Z) [ex_done] 0) r 0).1.1 =
    NewFilter (RPretty (NewPretty false Normal false) ("  b/s │   done" +:+ eol)) ["b"] [].
Proof.
  cbv zeta. rewrite (replay_prints_live (fun _ => 0%Z) (NewPretty false Normal false) [ex_done] ["b"] [] 0 0).
  - vm_compute. reflexivity.
  - apply Forall_cons_2; [|apply Forall_nil_2]. split; [apply ex_done_loggable|]. split; [done|split; apply map_Forall_empty].
Defined.

(** The result line of a run-end event that names a list: live, and from the log. *)
Definition ex_results : Event := set_Results {[ "report" := AStrs ["a"; "b"] ]} (set_Time 5 (set_Kind (kind_string EvtRunEnd) zero_event)).

(** with a list among the results the replay prints another line than the run did:
    [[a, b]] live, [[a b]] from the log. *)
Theorem replayed_list_differs :
  let p := NewPretty false Normal false in
  result_lines p ex_results = "  report: [a, b]" +:+ nl /\
  option_map (result_lines p) (s ← MarshalJSON ex_results; UnmarshalJSON s) = Some ("  report: [a b]" +:+ nl).
Proof. vm_compute. split; reflexivity. Qed.

(** ** A line the scanner does not take *)

(** The event of a step whose line is [n] bytes of value 1. *)
Fixpoint ones (n : nat) : string := match n with 0 => "" | S n => String "001" (ones n) end.

Lemma ones_facts n : size (ones n) = Z.of_nat n /\ str_all is_ascii (ones n) = true /\ strip_cr (ones n) = ones n /\
  size (quote_go 0 0 (ones n)) = (6 * Z.of_nat n)%Z.
Proof.
  induction n as [|n (IH1 & IH2 & IH3 & IH4)]; [done|]. cbn [ones]. split_and!.
  - unfold size in *. cbn [String.length]. lia.
  - simpl str_all. by rewrite IH2.
  - destruct n; [done|]. change (strip_cr (String "001" (ones (S n)))) with (String "001" (strip_cr (ones (S n)))). by rewrite IH3.
  - cbn [quote_go]. change (is_ascii "001") with true. cbv iota. rewrite size_app, IH4. change (size (quote_ascii "001")) with 6%Z. lia.
Qed.

Lemma size_nonneg s : (0 <= size s)%Z.
Proof. unfold size. lia. Qed.

Lemma join_size sep l x : x ∈ l -> (size x <= size (join sep l))%Z.
Proof.
  induction l as [|y l IH]; [by intros ?%not_elem_of_nil|]. pose proof (size_nonneg sep). pose proof (size_nonneg y). intros [->|Hx]%elem_of_cons.
  - destruct l; [cbn; lia|]. change (join sep (y :: s :: l)) with (y +:+ sep +:+ join sep (s :: l)). rewrite !size_app.
    pose proof (size_nonneg (join sep (s :: l))). lia.
  - destruct l as [|z l]; [by apply not_elem_of_nil in Hx|]. change (join sep (y :: z :: l)) with (y +:+ sep +:+ join sep (z :: l)).
    rewrite !size_app. specialize (IH Hx). lia.
Qed.

Lemma member_size k s l : (k, JStr s) ∈ l -> (size (quote_go 0 0 s) <= size (Marshal (JObj l)))%Z.
Proof.
  intros Hin. unfold Marshal. destruct l as [|x l]; [by apply not_elem_of_nil in Hin|]. cbn [print_in]. revert Hin. generalize (x :: l). intros l' Hin.
  set (f := fun kv : string * json => no_break 1 +:+ quote kv.1 +:+ ":" +:+ print_in no_break ":" 1 kv.2).
  assert (f (k, JStr s) ∈ map f l') as Hf by by apply list_elem_of_fmap_2.
  pose proof (join_size "," _ _ Hf) as Hj. rewrite !size_app. unfold f at 1 in Hj. cbn [fst snd print_in] in Hj. rewrite !size_app in Hj.
  assert (size (quote_go 0 0 s) <= size (quote s))%Z as Hq.
  { unfold quote. rewrite str_app_cons. change (String dquote ?u) with (String dquote "" +:+ u). rewrite !size_app. pose proof (size_nonneg (String dquote "")). lia. }
  repeat match goal with |- context [size ?u] => lazymatch goal with _ : (0 <= size u)%Z |- _ => fail | _ => pose proof (size_nonneg u) end end.
  pose proof (size_nonneg (no_break 1)). pose proof (size_nonneg (quote k)). pose proof (size_nonneg ":"). lia.
Qed.

Lemma replay_too_long now k s rest r n : str_all printable s = true -> (max_token <= size s)%Z ->
  replay_lines now k (raw_lines ((s +:+ eol) +:+ rest)) r n = (r, n, Some too_long).
Proof.
  intros Hp Hs. rewrite <-str_app_assoc. change (eol +:+ rest) with (String newline rest).
  rewrite raw_lines_cut by by apply printable_no_newline. cbn [replay_lines]. by rewrite (proj2 (Z.leb_le _ _)).
Qed.

(** a log line within the cap of one mebibyte can be too long for the replay: a line of
    [n] control bytes is emitted whole for every [n] up to the cap, yet from 699051 on its
    event, six bytes for each, passes the four mebibytes the replay takes, and the replay of
    the run's log stops before it with an error. *)
Theorem long_line_stops_Replay now es n (t : Z) task step stream rest r m :
  Forall loggable es ->
  valid_utf8 task = true -> valid_utf8 step = true -> valid_utf8 stream = true -> has_json_year t = true ->
  (699051 <= Z.of_nat n <= MaxLogLineBytes)%Z ->
  shown (ones n) = ones n /\
  Replay now (Some (lines_of es +:+ event_line (step_log t task step "" stream (ones n)) +:+ rest)) r m =
    let '(r, m) := emit_all now r (map reread es) m in (r, m, Some too_long).
Proof.
  intros Hes H1 H2 H3 Ht Hn. destruct (ones_facts n) as (Hs & Ha & Hcr & Hq). set (e := step_log t task step "" stream (ones n)). split.
  { unfold shown. rewrite Hs, (proj2 (Z.leb_le _ _)) by lia. done. }
  assert (wf_event e) as He.
  { unfold wf_event, wf_members. split_and!; try exact Ht; try apply map_Forall_empty; try (split; vm_compute; discriminate).
    unfold event_strings, e, step_log. cbn -[valid_utf8 ones]. repeat (apply Forall_cons_2; [first [done|by apply valid_utf8_ascii]|]). apply Forall_nil_2. }
  destruct (wf_event_line e He) as (s & Hms & Hl). destruct (MarshalJSON_line e s He Hms) as [Hp _].
  cbn [Replay]. rewrite (replay_events now 1 es _ r m Hes). destruct (emit_all now r (map reread es) m) as [r' m'].
  rewrite Hl. apply replay_too_long; [done|]. unfold MarshalJSON in Hms. destruct (has_json_year (ev_Time e)); [|done]. injection Hms as <-.
  etrans; [|apply (member_size "line" (ones n))]; [rewrite Hq; unfold max_token; lia|].
  unfold eventJSON_members. rewrite !elem_of_app. do 7 right. left. change (ev_Line _) with (ones n).
  unfold omit_empty. destruct n; [lia|]. cbn. by left.
Qed.

Lemma long_line_stops_Replay_witness :
  Replay (fun _ => 0%Z) (Some (lines_of ex_log +:+ event_line (step_log 5 "t" "s" "" "stdout" (ones (Z.to_nat 699051))) +:+ "")) (RSink [] None) 0 =
    (RSink (map reread ex_log) None, 0, Some too_long).
Proof.
  rewrite (proj2 (long_line_stops_Replay (fun _ => 0%Z) ex_log (Z.to_nat 699051) 5 "t" "s" "stdout" "" (RSink [] None) 0
    ex_log_loggable eq_refl eq_refl eq_refl eq_refl ltac:(rewrite Z2Nat.id; unfold MaxLogLineBytes; lia))).
  by rewrite emit_all_sink.
Defined.
