(* ===== verification/ReplayProps.v ===== *)
(** * internal/runstore/replay.go: what is left of a log after a crash

    The event log of a run whose process died: the events whose lines are complete are
    replayed, and a line that was cut is reported. *)

From S2P Require Import Prelude GoStrings Json GoDate JsonText JsonPrefix Run RunIndex LogLines Events Reporters.

(** ** A cut line *)
Lemma app_inj (a b c d : string) : a +:+ b = c +:+ d -> (exists m, c = a +:+ m /\ b = m +:+ d) \/ (exists m, a = c +:+ m /\ d = m +:+ b).
Proof.
  revert c. induction a as [|x a IH]; intros c H; [left; by exists c|]. destruct c as [|y c]; [right; by exists (String x a)|].
  rewrite !str_app_cons in H. injection H as -> H. destruct (IH c H) as [(m & -> & ->)|(m & -> & ->)]; [left|right]; by exists m.
Qed.

(** The text of an object ends in a brace. *)
Lemma Marshal_obj l : exists t, Marshal (JObj l) = t +:+ "}".
Proof. unfold Marshal. destruct l as [|x l]; [by exists "{"|]. cbn [print_in]. eexists. by rewrite !str_app_assoc. Qed.

Lemma cut_event e s p q : wf_event e -> MarshalJSON e = Some s -> s = p +:+ q -> q <> "" -> UnmarshalJSON p = None.
Proof.
  intros He Hs -> Hq. destruct (UnmarshalJSON p) as [x|] eqn:Ep; [|done]. exfalso.
  pose proof (Unmarshal_Marshal e _ He Hs) as Hf. unfold UnmarshalJSON in Ep, Hf.
  destruct (parse_json p) as [j1|] eqn:E1; [|done]. destruct (parse_json (p +:+ q)) as [j2|] eqn:E2; [|done].
  destruct (parse_prefix p q j1 j2 E1 E2) as [Hb%lexs_blank|[n ->]]; [|done].
  unfold MarshalJSON in Hs. destruct (has_json_year _); [|done]. injection Hs as Hs. destruct (Marshal_obj (eventJSON_members (set_Duration (Milliseconds (ev_Duration e)) e))) as [t Ht].
  rewrite Ht in Hs. destruct (app_inj _ _ _ _ Hs) as [(m & -> & Hm)|(m & -> & ->)].
  - destruct m as [|c m]; [rewrite str_app_nil_l in Hm; by subst q|]. destruct m as [|]; [|done]. rewrite str_app_cons, str_app_nil_l in Hm. injection Hm as <- Hm. by destruct q.
  - rewrite str_all_app in Hb. by apply andb_true_iff in Hb as [_ ?].
Qed.

(** A cut of a log: whole lines, and a part of the next. *)
Lemma cut_log es data rest : lines_of es = data +:+ rest ->
  data = lines_of es \/ exists k e x q, es !! k = Some e /\ data = lines_of (take k es) +:+ x /\ event_line e = x +:+ q /\ q <> "".
Proof.
  revert data rest. induction es as [|e es IH]; intros data rest H.
  - left. by destruct data.
  - rewrite lines_of_cons in H. destruct (app_inj _ _ _ _ H) as [(m & -> & Hr)|(m & Hl & ->)].
    + destruct (IH m rest Hr) as [->|(k & e' & x & q & Hk & -> & Hx & Hq)]; [left; by rewrite lines_of_cons|]. right.
      exists (S k), e', x, q. split_and!; try done. cbn [take]. by rewrite lines_of_cons, str_app_assoc.
    + destruct (String.eqb_spec m "") as [->|Hm].
      * rewrite str_app_nil_r in Hl. subst data. destruct (IH "" (lines_of es) eq_refl) as [He|(k & e' & x & q & Hk & He & Hx & Hq)].
        { left. rewrite lines_of_cons, <-He. by rewrite str_app_nil_r. }
        right. exists (S k), e', x, q. split_and!; try done. cbn [take]. rewrite lines_of_cons, <-str_app_assoc, <-He. by rewrite str_app_nil_r.
      * right. exists 0, e, data, m. split_and!; done.
Qed.

(** ** The replay of a cut log *)

(** The answers for [data], a beginning of the log of [es]: the first [k] events are whole;
    the next one may have been cut. *)
Definition replays_prefix (now : nat -> Z) (es : list Event) (data : string) (r : reporter) (m : nat) (k : nat) : Prop :=
  let whole := lines_of (take k es) in
  let '(r', m') := emit_all now r (map reread (take k es)) m in
  (Replay now (Some data) r m = (r', m', None) /\ (data = whole \/ data +:+ eol = whole)) \/
  (Replay now (Some data) r m = (r', m', Some (Fmt "events line %d: %w" [TInt (Z.of_nat k + 1); TErr decode_error])) /\
   exists e s x q, es !! k = Some e /\ MarshalJSON e = Some s /\ s = x +:+ q /\ x <> "" /\ q <> "" /\ data = whole +:+ x).

Lemma replay_rest now es k x r m : Forall loggable es ->
  Replay now (Some (lines_of (take k es) +:+ x)) r m =
    let '(r', m') := emit_all now r (map reread (take k es)) m in
    replay_lines now (1 + Z.of_nat (length (take k es))) (raw_lines x) r' m'.
Proof. intros H. cbn [Replay]. apply replay_events. by apply Forall_take. Qed.

(** One line that is not too long. *)
Lemma replay_one now k x r m : str_all printable x = true -> x <> "" -> (size x < max_token)%Z ->
  replay_lines now k (raw_lines x) r m =
    match UnmarshalJSON x with
    | None => (r, m, Some (Fmt "events line %d: %w" [TInt k; TErr decode_error]))
    | Some ev => let '(r, m) := emit now r ev m in (r, m, None)
    end.
Proof.
  intros Hp Hx Hs. rewrite raw_lines_last by by apply printable_no_newline. rewrite (proj2 (String.eqb_neq x "") Hx). cbn [replay_lines].
  rewrite (proj2 (Z.leb_gt _ _)) by done. cbv zeta. rewrite printable_strip_cr by done. rewrite (proj2 (String.eqb_neq x "") Hx).
  destruct (UnmarshalJSON x); [|done]. by destruct (emit now r e m).
Qed.

Lemma lines_of_take es k e : es !! k = Some e -> lines_of (take (S k) es) = lines_of (take k es) +:+ event_line e.
Proof.
  revert k. induction es as [|y es IH]; intros [|k]; [done..| |]; cbn [lookup list_lookup take].
  - intros [= ->]. rewrite lines_of_cons. by rewrite str_app_nil_r.
  - intros Hk. by rewrite !lines_of_cons, (IH k Hk), str_app_assoc.
Qed.

Lemma cut_log_replay now es data rest r m : Forall loggable es -> lines_of es = data +:+ rest ->
  exists k, k <= length es /\ replays_prefix now es data r m k.
Proof.
  intros Hes H. destruct (cut_log es data rest H) as [->|(k & e & x & q & Hk & -> & Hx & Hq)].
  { exists (length es). split; [done|]. unfold replays_prefix. rewrite take_ge by done.
    pose proof (replay_rest now es (length es) "" r m Hes) as E. rewrite take_ge, str_app_nil_r in E by done.
    destruct (emit_all now r (map reread es) m) as [r' m']. left. split; [exact E|by left]. }
  pose proof (lookup_lt_Some _ _ _ Hk) as Hlt.
  assert (loggable e) as (He & Ht & Hf) by (rewrite Forall_lookup in Hes; by apply (Hes k)).
  destruct (wf_event_line e He) as (s & Hs & Hl). destruct (MarshalJSON_line e s He Hs) as [Hp Hne].
  assert (size s < max_token)%Z as Hsz by (unfold fits in Hf; rewrite Hl, size_app in Hf; change (size eol) with 1%Z in Hf; lia).
  rewrite Hl in Hx. destruct (String.eqb_spec x "") as [->|Hx0].
  { exists k. split; [lia|]. unfold replays_prefix. rewrite (replay_rest now es k "" r m Hes). destruct (emit_all _ _ _ _) as [r' m'].
    left. split; [done|]. left. by rewrite str_app_nil_r. }
  destruct (String.eqb_spec x s) as [->|Hxs].
  - exists (S k). split; [lia|]. unfold replays_prefix. rewrite (replay_rest now es k s r m Hes), (lines_of_take es k e Hk), Hl.
    rewrite (take_S_r es k e Hk), map_app, emit_all_app. destruct (emit_all now r (map reread (take k es)) m) as [r' m'].
    rewrite (replay_one now _ s r' m' Hp Hx0 Hsz), (Unmarshal_Marshal e s He Hs). cbn [map]. rewrite emit_all_cons. destruct (emit now r' (reread e) m') as [r2 m2].
    left. split; [done|]. right. by rewrite str_app_assoc.
  - destruct (app_inj _ _ _ _ Hx) as [(w & -> & Hw)|(w & -> & ->)].
    + exfalso. destruct w as [|c w]; [by rewrite str_app_nil_r in Hxs|]. rewrite str_app_cons in Hw. injection Hw as _ Hw. symmetry in Hw. by destruct w.
    + assert (w <> "") as Hw by (intros ->; by rewrite str_app_nil_r in Hxs). exists k. split; [lia|]. unfold replays_prefix.
      rewrite str_all_app in Hp. apply andb_true_iff in Hp as [Hpx _]. rewrite size_app in Hsz. pose proof (size_nonneg w).
      rewrite (replay_rest now es k x r m Hes), (length_take_le es k) by lia. destruct (emit_all _ _ _ _) as [r' m'].
      rewrite replay_one, (cut_event e (x +:+ w) x w He Hs eq_refl Hw) by (done || lia). right. split; [by rewrite Z.add_comm|]. by exists e, (x +:+ w), x, w.
Qed.

(** C33: when the process dies during a run, whatever of the buffered log has reached the
    file replays: the events whose lines are whole come back, in order, and nothing else; if
    the last line was cut inside its object the replay ends with an error that names the line;
    a log cut at the end of a line, with or without its newline, replays without an error. *)
Theorem crashed_log_replays now es n :
  Forall loggable es ->
  exists b, emit_all now (RPersist (mkbuffered "" "") true None) es n = (RPersist b true None, n) /\
    forall data rest r m, bw_file b = data +:+ rest -> exists k, k <= length es /\ replays_prefix now es data r m k.
Proof.
  intros H. destruct (emit_all_persist now (mkbuffered "" "") true None es n (loggable_timed es H)) as (b & E & T & _); [unfold buffer_ok; done|].
  exists b. split; [exact E|]. intros data rest r m Hb. cbn in T. unfold text_of in T. rewrite Hb, <-str_app_assoc in T.
  by apply (cut_log_replay now es data (rest +:+ bw_buf b)).
Qed.

(** The first line of the example's log, cut before its last byte. *)
Definition cut_ex : string := (split_at (pred (String.length (event_line ex_event) - 1)) (event_line ex_event)).1.

Lemma crashed_log_replays_witness :
  Forall loggable ex_log /\
  Replay (fun _ => 0%Z) (Some cut_ex) (RSink [] None) 0 = (RSink [] None, 0, Some (Fmt "events line %d: %w" [TInt 1; TErr decode_error])) /\
  exists b, emit_all (fun _ => 0%Z) (RPersist (mkbuffered "" "") true None) ex_log 0 = (RPersist b true None, 0) /\
    forall data rest r m, bw_file b = data +:+ rest -> exists k, k <= length ex_log /\ replays_prefix (fun _ => 0%Z) ex_log data r m k.
Proof.
  split; [exact ex_log_loggable|]. split; [vm_compute; reflexivity|]. apply (crashed_log_replays (fun _ => 0%Z) ex_log 0), ex_log_loggable.
Defined.

(** Cut at the end of a line the log looks complete. *)
Example cut_at_line_end :
  (Replay (fun _ => 0%Z) (Some (event_line ex_event)) (RSink [] None) 0).2 = None.
Proof. vm_compute. reflexivity. Qed.
