(* ===== verification/ExitCode.v ===== *)
(** * internal/exitcode: errors and the process's exit code

    Go errors as far as the command line looks into them, the codes of the contract, and
    [From]. *)

From S2P Require Import Prelude GoStrings.

(** ** Codes *)
Definition OK : Z := 0.
Definition Generic : Z := 1.
Definition Usage : Z := 2.
Definition Env : Z := 3.
Definition Validate : Z := 4.
Definition Pipeline : Z := 5.
Definition Timeout : Z := 6.
Definition Cancelled : Z := 130.

(** ** Errors *)

(** The error types of pflag. *)
Inductive flag_error := NotExistError | ValueRequiredError | InvalidValueError | InvalidSyntaxError.

Inductive goerror : Type :=
  | Plain (t : text)
  | Flag (k : flag_error) (t : text)
  | Coded (code : Z) (e : goerror)                                  (* exitcode.Error *)
  | Wrapping (format : string) (args : list targ) (e : goerror).    (* fmt.Errorf, its last verb %w *)

(** The text of an error. *)
Fixpoint message (e : goerror) : text :=
  match e with
  | Plain t | Flag _ t => t
  | Coded _ e => message e
  | Wrapping f args e => Fmt f (args ++ [TErr (message e)])
  end.

Definition Wrap (code : Z) (err : option goerror) : option goerror := Coded code <$> err.

(** [errors.As] for [*exitcode.Error]: the first on the way down. *)
Fixpoint as_coded (e : goerror) : option Z :=
  match e with
  | Coded code _ => Some code
  | Wrapping _ _ e => as_coded e
  | Plain _ | Flag _ _ => None
  end.

(** [errors.As] for the error types of pflag. *)
Fixpoint as_flag (e : goerror) : option flag_error :=
  match e with
  | Flag k _ => Some k
  | Coded _ e | Wrapping _ _ e => as_flag e
  | Plain _ => None
  end.

(** Whether the text begins with [p], a text without verbs; a format that begins with a
    verb begins with its argument. *)
Fixpoint begins_with (p : string) (t : text) : bool :=
  match t with
  | Sentinel _ => false
  | Fmt f args =>
    match f, args with
    | String "%"%char _, TErr t :: _ => begins_with p t
    | String "%"%char _, TStr s :: _ => has_prefix s p
    | _, _ => has_prefix f p
    end
  end.

Definition isUsageError (e : goerror) : bool :=
  match as_flag e with Some _ => true | None => begins_with "unknown command " (message e) end.

Definition From (err : option goerror) : Z :=
  match err with
  | None => OK
  | Some e => match as_coded e with Some code => code | None => if isUsageError e then Usage else Generic end
  end.

(** ** Facts *)
Lemma From_Wrap code e : From (Wrap code (Some e)) = code.
Proof. done. Qed.

Lemma From_Wrap_nil code : From (Wrap code None) = OK.
Proof. done. Qed.

(** Adding context keeps the code an error carries. *)
Lemma From_Wrapping f args e c : as_coded e = Some c -> From (Some (Wrapping f args e)) = c.
Proof. intros He. cbn. by rewrite He. Qed.

Definition contract : list Z := [OK; Generic; Usage; Env; Validate; Pipeline; Timeout; Cancelled].

(** The codes an error carries are codes of the contract other than success. *)
Fixpoint codes_ok (e : goerror) : Prop :=
  match e with
  | Coded code e => code ∈ contract /\ code <> OK /\ codes_ok e
  | Wrapping _ _ e => codes_ok e
  | Plain _ | Flag _ _ => True
  end.

Lemma as_coded_ok e c : codes_ok e -> as_coded e = Some c -> c ∈ contract /\ c <> OK.
Proof. induction e as [t|k t|code e IH|f args e IH]; cbn; [done|done| |done]. intros (H1 & H2 & _) [= <-]. done. Qed.

(** An error ends the process with a code of the contract, and never with success. *)
Lemma From_error e : codes_ok e -> From (Some e) ∈ contract /\ From (Some e) <> OK.
Proof.
  intros He. cbn. destruct (as_coded e) as [c|] eqn:E; [by apply (as_coded_ok e)|]. destruct (isUsageError e); split; try done; unfold contract; set_solver.
Qed.

Example from_ex : map From [None; Some (Plain (lit "x")); Some (Plain (Fmt "unknown command %q for %q%s" [TStr "rn"; TStr "tkn-act"; TStr ""]));
    Some (Flag NotExistError (lit "unknown flag: --x")); Some (Wrapping "run: %w" [] (Coded 6 (Plain (lit "x"))))] = [0; 1; 2; 2; 6]%Z.
Proof. vm_compute. reflexivity. Qed.
