(* ===== verification/Discovery.v ===== *)
(** * internal/discovery: the YAML files of a project directory

    [Find] as a program over the file system, and what it finds in a tree. *)

From S2P Require Import Prelude GoStrings Paths Effects Fs.

Abbreviation fs := (prog FsE).

Definition ErrNoneFound : text := Sentinel "discovery.ErrNoneFound".

(** [st, err := os.Stat(p); err == nil && st.IsDir() == dir] *)
Definition stat_is (dir : bool) (p : string) : fs bool :=
  st ← call (Stat p); Ret (match st with inl i => Bool.eqb (fi_IsDir i) dir | inr _ => false end).

Definition find_top (dir : string) (out : list string) (name : string) : fs (list string) :=
  let p := Join [dir; name] in
  b ← stat_is false p; Ret (if (b : bool) then out ++ [p] else out).

Definition is_yaml (n : string) : bool := has_suffix n ".yaml" || has_suffix n ".yml".

Definition yaml_entries (subdir : string) (ents : list DirEntry) : list string :=
  sort_strings (map (fun e => Join [subdir; de_Name e]) (List.filter (fun e => negb (de_IsDir e) && is_yaml (de_Name e)) ents)).

Definition find_sub (dir : string) (out : list string) (sub : string) : fs (result (list string)) :=
  let subdir := Join [dir; sub] in
  b ← stat_is true subdir;
  if negb b then Ret (Ok out)
  else
    ents ← call (ReadDir subdir);
    Ret (match ents with
         | inr e => Err (errno_text e)
         | inl l => Ok (out ++ yaml_entries subdir l)
         end).

Definition Find (dir : string) : fs (result (list string)) :=
  st ← call (Stat dir);
  match st with
  | inr e => Ret (Err (Fmt "directory %s: %w" [TStr dir; TErr (errno_text e)]))
  | inl i =>
    if negb (fi_IsDir i) then Ret (Err (Fmt "%s is not a directory" [TStr dir]))
    else
      out ← foldP (find_top dir) [] ["pipelinerun.yaml"; "pipeline.yaml"];
      r ← foldT (find_sub dir) out [".tekton"; "tekton"];
      Ret (match r with
           | Ok [] => Err (Fmt "%w in %s (looked for pipeline.yaml, pipelinerun.yaml, .tekton/, tekton/)" [TErr ErrNoneFound; TStr dir])
           | _ => r
           end)
  end.

(** ** What it finds in a tree *)
Section InTree.
Context (f : tree) (dir : string).

Definition top_files : list string :=
  List.filter (fun p => is_file (find f (key p))) (map (fun n => Join [dir; n]) ["pipelinerun.yaml"; "pipeline.yaml"]).

Definition sub_files (sub : string) : list string :=
  let subdir := Join [dir; sub] in
  if folder_at f (key subdir) then
    sort_strings (map (fun n => Join [subdir; n])
      (List.filter (fun n => negb (is_folder (f !! child (key subdir) n)) && is_yaml n) (names_in f (key subdir))))
  else [].

Definition tekton_files : list string := top_files ++ sub_files ".tekton" ++ sub_files "tekton".
End InTree.

Lemma run_stat p w : run_fs (call (Stat p)) w = (match find (w_tree w) (key p) with
  | Some n => inl (info n) | None => inr (missing "stat" p (w_tree w) (key p)) end, w).
Proof. unfold call. rewrite run_call. cbn [fs_answer]. unfold on_node. destruct w as [t f]. cbn [w_tree]. by destruct (find f (key p)). Qed.

Lemma info_IsDir n : fi_IsDir (info n) = is_folder (Some n).
Proof. by destruct n. Qed.

Lemma run_stat_is d p w : run_fs (stat_is d p) w =
  (match find (w_tree w) (key p) with Some n => Bool.eqb (is_folder (Some n)) d | None => false end, w).
Proof. unfold stat_is. rewrite run_bind, run_stat. destruct (find _ _) as [n|]; rewrite run_ret, ?info_IsDir; done. Qed.

Lemma is_file_eqb o : is_file o = match o with Some n => Bool.eqb (is_folder (Some n)) false | None => false end.
Proof. by destruct o as [[]|]. Qed.

Lemma run_find_top dir out n w : run_fs (find_top dir out n) w =
  (if is_file (find (w_tree w) (key (Join [dir; n]))) then out ++ [Join [dir; n]] else out, w).
Proof. unfold find_top. rewrite run_bind, run_stat_is. cbn. by rewrite is_file_eqb. Qed.

Lemma yaml_entries_names sub (d : string -> bool) l :
  yaml_entries sub (map (fun e => mkDirEntry e (d e)) l) =
  sort_strings (map (fun n => Join [sub; n]) (List.filter (fun n => negb (d n) && is_yaml n) l)).
Proof.
  unfold yaml_entries. f_equal. induction l as [|n l IH]; [done|]. cbn [map List.filter de_IsDir de_Name].
  destruct (negb (d n) && is_yaml n); cbn [map de_Name]; by rewrite IH.
Qed.

Lemma run_find_sub dir out sub w : run_fs (find_sub dir out sub) w = (Ok (out ++ sub_files (w_tree w) dir sub), w).
Proof.
  unfold find_sub, sub_files, folder_at. cbv zeta. set (p := Join [dir; sub]). rewrite run_bind, run_stat_is. destruct w as [t f]. cbn [w_tree].
  clearbody p. destruct (find f (key p)) as [[m mt d|m mt]|] eqn:E; cbn [is_folder Bool.eqb negb].
  1, 3: rewrite run_ret; by rewrite app_nil_r.
  rewrite run_bind. unfold call. rewrite run_call. cbn [fs_answer w_tree]. rewrite E, !run_ret. by rewrite yaml_entries_names.
Qed.

(** discovery answers exactly the files of the rule, in its order, and writes nothing: in a
    folder, pipelinerun.yaml and pipeline.yaml where they are files, then the sorted .yaml
    and .yml files of .tekton, then those of tekton; when there are none, or no such folder,
    an error. *)
Theorem Find_finds dir w :
  run_fs (Find dir) w =
    (match find (w_tree w) (key dir) with
     | None => Err (Fmt "directory %s: %w" [TStr dir; TErr (errno_text (missing "stat" dir (w_tree w) (key dir)))])
     | Some (File _ _ _) => Err (Fmt "%s is not a directory" [TStr dir])
     | Some (Folder _ _) =>
       match tekton_files (w_tree w) dir with
       | [] => Err (Fmt "%w in %s (looked for pipeline.yaml, pipelinerun.yaml, .tekton/, tekton/)" [TErr ErrNoneFound; TStr dir])
       | l => Ok l
       end
     end, w).
Proof.
  unfold Find. rewrite run_bind, run_stat. destruct (find (w_tree w) (key dir)) as [[m t d|m t]|]; [done| |done].
  cbn [info fi_IsDir negb]. rewrite run_bind. cbn [foldP]. rewrite run_bind, run_find_top. rewrite run_bind, run_find_top.
  cbn [foldT]. rewrite run_ret. unfold tekton_files, top_files. cbn [map List.filter].
  set (o1 := Join [dir; "pipelinerun.yaml"]). set (o2 := Join [dir; "pipeline.yaml"]).
  rewrite run_bind, run_try, run_find_sub, run_try, run_find_sub, run_ret. cbn beta iota. rewrite run_ret, <-app_assoc.
  assert ((if is_file (find (w_tree w) (key o2))
     then (if is_file (find (w_tree w) (key o1)) then [] ++ [o1] else []) ++ [o2]
     else if is_file (find (w_tree w) (key o1)) then [] ++ [o1] else []) =
    (if is_file (find (w_tree w) (key o1)) then o1 :: (if is_file (find (w_tree w) (key o2)) then [o2] else [])
     else if is_file (find (w_tree w) (key o2)) then [o2] else [])) as ->.
  { by destruct (is_file (find (w_tree w) (key o1))), (is_file (find (w_tree w) (key o2))). }
  by destruct (_ ++ sub_files _ _ _ ++ sub_files _ _ _).
Qed.

Example find_ex :
  let f : tree := {[ (false, ["pipeline.yaml"]) := File 420 0 ""; (false, [".tekton"]) := Folder 493 0;
                     (false, [".tekton"; "b.yml"]) := File 420 0 ""; (false, [".tekton"; "a.yaml"]) := File 420 0 "";
                     (false, [".tekton"; "README.md"]) := File 420 0 "" ]} in
  (run_fs (Find ".") (mkWorld 0 f)).1 = Ok ["pipeline.yaml"; ".tekton/a.yaml"; ".tekton/b.yml"].
Proof. vm_compute. reflexivity. Qed.
