(* ===== verification/Cli.v ===== *)
(** * cmd/tkn-act: the commands

    The global flags and the helpers of run.go, inputs.go, persistence.go, and the commands
    run, validate, list, logs, runs and cache, as programs over one signature of calls: the
    file system, the run store, the container daemon, the engine and the terminal answer
    them.  The environment does not change while a command runs. *)

From S2P Require Import ExitCode Prelude GoStrings GoTime Paths Effects Fs Json GoDate JsonText TektonTypes Run Loader Validator Volumes Workspace RefCache Discovery RunIndex RunStore LogLines Events Pretty Reporters.

(** ** Calls *)

(** The operations of the run store, carried out by the programs of RunStore. *)
Inductive store_op : Type -> Type :=
  | OpOpen (dir writerVersion : string) : store_op (result RunStore.Store)
  | OpPrune (s : RunStore.Store) (o : PruneOptions) (hasWarn : bool) : store_op (result (nat * option text))
  | OpNewRun (s : RunStore.Store) (now : Z) (pipelineRef : string) (args : list string) : store_op (result Run)
  | OpFinalize (r : Run) (endt exitCode : Z) (status : string) : store_op (result unit)
  | OpOpenReadOnly (dir : string) : store_op (RunStore.Store + errno)
  | OpResolve (s : RunStore.Store) (id : string) : store_op (result IndexEntry)
  | OpReadMeta (path : string) : store_op (result Meta)
  | OpReadIndexEntries (dir : string) : store_op (result (list IndexEntry)).

Definition store_impl `{Host} `{Ulid} {X} (o : store_op X) : store X :=
  match o in store_op X return store X with
  | OpOpen dir v => Open dir v
  | OpPrune s o w => Prune s o w
  | OpNewRun s now p args => NewRun s now p args
  | OpFinalize r t c st => Finalize r t c st
  | OpOpenReadOnly dir => OpenReadOnly dir
  | OpResolve s id => RunStore.Resolve s id
  | OpReadMeta p => ReadMeta p
  | OpReadIndexEntries dir => ReadIndexEntries dir
  end.

(** [docker.Options], as far as flags set them. *)
Record docker_options := mkdocker_options {
  do_SidecarStartGrace : Z;
  do_SidecarStopGrace : Z;
  do_Remote : string;
  do_PauseImage : string;
  do_Host : string;
}.

(** [cluster.Options], with the options of its k3d driver. *)
Record cluster_options := mkcluster_options {
  cl_CacheDir : string;
  cl_ClusterName : string;
  cl_KubeconfigPath : string;
  cl_TektonVersion : string;
  cl_ConfigMaps : Volumes.Store;
  cl_Secrets : Volumes.Store;
}.

Inductive backend_choice := BDocker (o : docker_options) | BCluster (o : cluster_options).

Record resolverConfig := mkresolverConfig { rc_HubToken : string; rc_HTTPToken : string }.

(** The resolvers registered again, with a token. *)
Inductive registered := RegHub (token : string) | RegHTTP (allowInsecureHTTP : bool) (token : string).

(** [refresolver.Options], with what is registered or set afterwards. *)
Record registry_options := mkregistry_options {
  ro_Allow : list string;
  ro_CacheDir : string;
  ro_Offline : bool;
  ro_AllowInsecureHTTP : bool;
  ro_AllowCluster : bool;
  ro_ClusterContext : string;
  ro_ClusterKubeconfig : string;
  ro_Registered : list registered;
  ro_Remote : bool;
}.

Section Signature.
Context {K : CoreV1}.

(** What [engine.New(be, rep, opts).RunPipeline(ctx, input)] is given. *)
Record engine_run := mkengine_run {
  er_Backend : backend_choice;
  er_Reporter : reporter;
  er_MaxParallel : Z;
  er_Registry : registry_options;
  er_ConfigMaps : Volumes.Store;
  er_Secrets : Volumes.Store;
  er_Debug : bool;
  er_Bundle : FullBundle;
  er_Name : string;
  er_Params : gmap string ParamValue;
  er_Workspaces : gmap string string;
}.

Inductive CliE : Type -> Type :=
  | CFs {X} (e : FsE X) : CliE X
  | CStore {X} (o : store_op X) : CliE X
  | Stdout (t : text) : CliE unit
  | Stderr (t : text) : CliE unit
  | EmitError (now : Z) (pipeline : string) (message : text) : CliE unit    (* an error event on stdout, as JSON *)
  | EmitValidation (ok : bool) (pipeline : string) (errors : list text) : CliE unit   (* the JSON result of validate on stdout *)
  | Table (rows : list (list string)) : CliE unit                 (* text/tabwriter, on stdout *)
  | IsTerminal : CliE bool
  | CacheState (root : string) : CliE (Request -> bool)           (* what [Has] answers, for each request *)
  | NewDocker (o : docker_options) : CliE (result unit)
  | NewRemote (context namespace : string) (timeout : Z) : CliE (result unit)
  | OpenEvents (path : string) : CliE (unit + errno)
  | CloseReporter : CliE unit
  | RunEngine (r : engine_run) (m : Manager) : CliE (result string * bool * Manager).
    (* the status or the error, whether the context was cancelled, the directories *)
End Signature.

Abbreviation cli := (prog CliE).

Definition cfs {K : CoreV1} {A} (p : prog FsE A) : cli A := hoist (fun X => @CFs K X) p.

(** ** Errors of commands *)
Section Errors.
Context {E : Type -> Type}.

Definition tryE {A B} (p : prog E (A + goerror)) (k : A -> prog E (B + goerror)) : prog E (B + goerror) :=
  r ← p; match r with inl a => k a | inr e => Ret (inr e) end.

(** [exitcode.Wrap(code, err)] on an error without a code. *)
Definition coded {A} (code : Z) (r : result A) : A + goerror :=
  match r with Ok a => inl a | Err e => inr (Coded code (Plain e)) end.

Fixpoint foldE {A S} (f : S -> A -> prog E (S + goerror)) (s : S) (l : list A) : prog E (S + goerror) :=
  match l with
  | [] => Ret (inl s)
  | x :: l' => tryE (f s x) (fun s' => foldE f s' l')
  end.

Lemma post_tryE {A B} (p : prog E (A + goerror)) (k : A -> prog E (B + goerror)) (Q : list (ev E) -> B + goerror -> Prop) :
  post p (fun t r => match r with inl a => post (k a) (fun t' => Q (t ++ t')) | inr e => Q t (inr e) end) ->
  post (tryE p k) Q.
Proof.
  intros Hp. apply post_bind. eapply post_mono; [exact Hp|]. intros t [a|e] H; [done|]. apply post_ret. by rewrite app_nil_r.
Qed.
End Errors.

Notation "'do?' x ← p ; k" := (tryE p (fun x => k)) (at level 200, x name, p at level 100, k at level 200, right associativity).

(** The code the process ends with. *)
Definition exit_code {A} (r : A + goerror) : Z := From (match r with inl _ => None | inr e => Some e end).

(** ** root.go *)
Record globalFlags := mkglobalFlags {
  gf_output : string; gf_debug : bool; gf_cleanup : bool; gf_maxParallel : Z; gf_cluster : bool;
  gf_noColor : bool; gf_color : string; gf_quiet : bool; gf_verbose : bool;
  gf_configMapDir : string; gf_secretDir : string; gf_configMaps : list string; gf_secrets : list string;
  gf_resolverCacheDir : string; gf_resolverAllow : list string; gf_resolverConfig : string; gf_offline : bool;
  gf_remoteResolverContext : string; gf_remoteResolverNamespace : string; gf_remoteResolverTimeout : Z;
  gf_resolverAllowInsecureHTTP : bool;
  gf_clusterResolverContext : string; gf_clusterResolverKubeconfig : string;
  gf_sidecarStartGrace : Z; gf_sidecarStopGrace : Z;
  gf_remoteDocker : string; gf_pauseImage : string; gf_dockerHost : string; gf_stateDir : string;
  gf_timestamps : bool; gf_taskFilter : list string; gf_stepFilter : list string;
}.

Definition validateGlobalFlags (gf : globalFlags) : unit + goerror :=
  if existsb (String.eqb (gf_output gf)) ["pretty"; "json"] then inl tt
  else inr (Coded Usage (Plain (Fmt "unknown output format %q; valid: pretty, json" [TStr (gf_output gf)]))).

(** ** inputs.go *)
Section Inputs.
Context {K : CoreV1} `{MapRange}.

Definition check_positional (_ : unit) (p : string) : cli (unit + goerror) :=
  st ← call (CFs (Stat p));
  Ret (match st with
       | inr e => inr (Coded ExitCode.Validate (Wrapping "read %s (positional arguments are treated as -f files): %w" [TStr p] (Plain (errno_text e))))
       | inl i => if fi_IsDir i then inr (Coded Usage (Plain (Fmt "%q is a directory; use -C %s to discover Tekton YAML in it" [TStr p; TStr p]))) else inl tt
       end).

Definition resolveInputFiles (flagFiles positional : list string) (dir : string) : cli (list string + goerror) :=
  do? _ ← foldE check_positional tt positional;
  match flagFiles ++ positional with
  | [] =>
    r ← cfs (Find (if String.eqb dir "" then "." else dir));
    Ret (coded Usage r)
  | files => Ret (inl files)
  end.

Definition selectPipeline (b : Bundle) (name : string) : string + goerror :=
  if negb (String.eqb name "") then inl name
  else
    match (map_range (b_Pipelines b)).*1 with
    | [] => inr (Coded Usage (Plain (lit "no Pipeline found in loaded files")))
    | [n] => inl n
    | names => inr (Coded Usage (Plain (Fmt "multiple pipelines loaded (%v); specify -p" [TStrs (sort_strings names)])))
    end.

Definition parse_param (acc : gmap string ParamValue * gmap string bool) (kv : string) : gmap string ParamValue * gmap string bool + goerror :=
  match cut "=" kv with
  | None => inr (Coded Usage (Plain (Fmt "--param expects key=value, got %q" [TStr kv])))
  | Some (k, v) => inl (<[k := StringParam v]> acc.1, <[k := true]> acc.2)
  end.

Fixpoint parse_params (acc : gmap string ParamValue * gmap string bool) (kvs : list string) : gmap string ParamValue * gmap string bool + goerror :=
  match kvs with
  | [] => inl acc
  | kv :: kvs' => match parse_param acc kv with inl acc => parse_params acc kvs' | inr e => inr e end
  end.

Definition parseParams (kvs : list string) : gmap string ParamValue * gmap string bool + goerror := parse_params (∅, ∅) kvs.

Definition clusterResolverOptedIn (gf : globalFlags) : bool :=
  negb (String.eqb (gf_clusterResolverContext gf) "") || negb (String.eqb (gf_clusterResolverKubeconfig gf) "").

Definition effectiveResolverAllow (gf : globalFlags) : list string :=
  if clusterResolverOptedIn gf && negb (existsb (String.eqb "cluster") (gf_resolverAllow gf)) then gf_resolverAllow gf ++ ["cluster"]
  else gf_resolverAllow gf.

(** [has]: the cache's answers. *)
Definition buildValidatorOptions (gf : globalFlags) (has : Request -> bool) : Validator.Options :=
  Validator.mkOptions (gf_offline gf) (effectiveResolverAllow gf) (negb (String.eqb (gf_remoteResolverContext gf) ""))
    (Some (fun ref => has (mkRequest "" (Validator.ur_Resolver ref) (Validator.ur_Params ref)))).

(** Each failure on stderr; with -o json also as an event on stdout. *)
Definition reportRunValidationErrors (gf : globalFlags) (pipe : string) (errs : list text) : cli unit :=
  foldP (fun _ e =>
    _ ← call (Stderr (Fmt "error: %s" [TErr e]));
    if String.eqb (gf_output gf) "json" then now ← call (CFs Now); call (EmitError now pipe (Fmt "validation: %s" [TErr e])) else Ret tt) tt errs.
End Inputs.

(** ** run.go, remote_docker.go, pause_image.go, cluster.go: settings *)
Section Settings.
Context {K : CoreV1} `{MapRange}.
Variable lookup_env : string -> option string.

(** os.Getenv: an unset variable reads as the empty string. *)
Definition getenv (k : string) : string := default "" (lookup_env k).

Definition cacheDir : string :=
  if negb (String.eqb (getenv "XDG_CACHE_HOME") "") then Join [getenv "XDG_CACHE_HOME"; "tkn-act"]
  else match UserHomeDir getenv with
       | Some h => Join [h; ".cache"; "tkn-act"]
       | None => TempDir getenv
       end.

Definition resolveResolverCacheDir (explicit : string) : string := if negb (String.eqb explicit "") then explicit else Join [cacheDir; "resolved"].

Definition decisiveRemoteDockerValue (v : string) : string := if existsb (String.eqb v) ["on"; "off"] then v else "".

Definition resolveRemoteDocker (flagValue : string) : result string :=
  if existsb (String.eqb flagValue) ["on"; "off"] then Ok flagValue
  else if existsb (String.eqb flagValue) [""; "auto"] then
    let v := decisiveRemoteDockerValue (getenv "TKN_ACT_REMOTE_DOCKER") in
    Ok (if negb (String.eqb v "") then v else "auto")
  else Err (Fmt "invalid --remote-docker=%q (want auto|on|off)" [TStr flagValue]).

Definition resolvePauseImage (flagValue : string) : string := if negb (String.eqb flagValue "") then flagValue else getenv "TKN_ACT_PAUSE_IMAGE".

Variable DefaultTektonVersion : string.

Definition resolveTektonVersion (flagValue : string) : string :=
  if negb (String.eqb flagValue "") then flagValue
  else if negb (String.eqb (getenv "TKN_ACT_TEKTON_VERSION") "") then getenv "TKN_ACT_TEKTON_VERSION"
  else DefaultTektonVersion.

(** [buildReporter], on a fresh writer. *)
Definition verbosity (gf : globalFlags) : Verbosity := if gf_quiet gf then Quiet else if gf_verbose gf then Verbose else Normal.

Definition reporter_for (gf : globalFlags) (isTerminal : bool) : result reporter :=
  if String.eqb (gf_output gf) "json" then Ok (RJSON "")
  else if gf_quiet gf && gf_verbose gf then Err (lit "--quiet and --verbose are mutually exclusive")
  else
    mode ← ParseColorMode (gf_color gf);
    let mode := if gf_noColor gf then ColorNever else mode in
    Ok (RPretty (NewPretty (ResolveColor mode isTerminal lookup_env) (verbosity gf) (gf_timestamps gf)) "").

(** The terminal is only looked at for its color. *)
Definition buildReporter (gf : globalFlags) : cli (result reporter) :=
  match reporter_for gf false with
  | Ok (RPretty _ _) => tty ← call IsTerminal; Ret (reporter_for gf tty)
  | r => Ret r
  end.

(** One key=value of an inline flag. *)
Definition add_pair (kind name : string) (s : Volumes.Store) (kv : string) : result Volumes.Store :=
  match cut "=" kv with
  | None => Err (Fmt ("--" +:+ kind +:+ " %q: each entry must be key=value, got %q") [TStr name; TStr kv])
  | Some (k, v) => Ok (Add s name (trim_space k) v)
  end.

(** strings.Split *)
Definition split_all (s sep : string) : list string := split_n s sep (S (String.length s)).

Definition add_inline (kind : string) (s : Volumes.Store) (entry : string) : result Volumes.Store :=
  match cut "=" entry with
  | None => Err (Fmt ("--" +:+ kind +:+ " expects <name>=<k>=<v>[,...], got %q") [TStr entry])
  | Some (name, kvs) =>
    if String.eqb name "" then Err (Fmt ("--" +:+ kind +:+ " expects <name>=<k>=<v>[,...], got %q") [TStr entry])
    else foldM (add_pair kind name) s (split_all kvs ",")
  end.

Definition parseInlineFlags (s : Volumes.Store) (entries : list string) (kind : string) : result Volumes.Store := foldM (add_inline kind) s entries.

Definition load_all (s : Volumes.Store) (m : gmap string (gmap string string)) : Volumes.Store :=
  foldl (fun s kv => Volumes.LoadBytes s kv.1 kv.2) s (map_range m).

Definition buildVolumeStores (gf : globalFlags) (cacheRoot : string) (b : FullBundle) : result (Volumes.Store * Volumes.Store) :=
  let cmDir := if String.eqb (gf_configMapDir gf) "" then Join [cacheRoot; "configmaps"] else gf_configMapDir gf in
  let secDir := if String.eqb (gf_secretDir gf) "" then Join [cacheRoot; "secrets"] else gf_secretDir gf in
  cm ← parseInlineFlags (load_all (NewStore cmDir) (fb_ConfigMaps b)) (gf_configMaps gf) "configmap";
  sec ← parseInlineFlags (load_all (NewStore secDir) (fb_Secrets b)) (gf_secrets gf) "secret";
  Ok (cm, sec).

(** ** persistence.go *)
Definition envInt (name : string) (def : Z) : Z :=
  if String.eqb (getenv name) "" then def else default def (atoi (getenv name)).

(** The zero time: [Prune] reads the clock. *)
Definition retentionOpts : PruneOptions :=
  mkPruneOptions (envInt "TKN_ACT_KEEP_RUNS" 50) (envInt "TKN_ACT_KEEP_DAYS" 30) false zero_time 0.

Variable version : string.

Definition warn (f : string) (args : list targ) : cli unit := call (Stderr (Fmt f args)).

Definition openRunRecord (stateDir pipelineName : string) (args : list string) : cli (option Run) :=
  store ← call (CStore (OpOpen stateDir version));
  match store with
  | Err e => _ ← warn "warning: state-dir %s: %v (run will not be persisted)" [TStr stateDir; TErr e]; Ret None
  | Ok s =>
    let o := retentionOpts in
    p ← call (CStore (OpPrune s (mkPruneOptions (po_KeepRuns o) (po_KeepDays o) false zero_time 1) true));
    _ ← match p with
        | Err e | Ok (_, Some e) => warn "warning: retention prune: %v" [TErr e]
        | Ok (_, None) => Ret tt
        end;
    now ← call (CFs Now);
    r ← call (CStore (OpNewRun s now pipelineName args));
    match r with
    | Err e => _ ← warn "warning: could not record run: %v (run will not be persisted)" [TErr e]; Ret None
    | Ok run => Ret (Some run)
    end
  end.

(** The status recorded for an exit code. *)
Definition recorded_status (code : Z) : string :=
  if (code =? OK)%Z then "succeeded"
  else if (code =? Cancelled)%Z then "cancelled"
  else if (code =? Timeout)%Z then "timeout"
  else "failed".

Definition finalizeRun {A} (run : Run) (ret : A + goerror) : cli unit :=
  let '(code, status) :=
    match ret with
    | inl _ => (0%Z, "succeeded")
    | inr e =>
      let code := From (Some e) in
      (code, if (code =? Cancelled)%Z then "cancelled" else if (code =? Timeout)%Z then "timeout" else "failed")
    end in
  now ← call (CFs Now);
  r ← call (CStore (OpFinalize run now code status));
  match r with Err e => warn "warning: finalize run record: %v" [TErr e] | Ok _ => Ret tt end.

(** The reporter, and whether there is something to close. *)
Definition wrapReporterWithPersist (liveRep : reporter) (run : option Run) : cli (reporter * bool) :=
  match run with
  | None => Ret (liveRep, false)
  | Some r =>
    f ← call (OpenEvents (EventsPath r));
    match f with
    | inr e => _ ← warn "warning: open events file: %v (run will not be persisted)" [TErr (Fmt "open events file: %w" [TErr (errno_text e)])]; Ret (liveRep, false)
    | inl _ => Ret (RTee [liveRep; RPersist (mkbuffered "" "") true None], true)
    end
  end.

(** The reporter, and the cleanup that is deferred with the run's error. *)
Definition cleanup_record {A} (run : option Run) (close : bool) (ret : A + goerror) : cli unit :=
  _ ← (if close then call CloseReporter else Ret tt);
  match run with Some r => finalizeRun r ret | None => Ret tt end.

Definition setupRunPersistence (stateDir pipelineName : string) (args : list string) (liveRep : reporter) : cli (reporter * option Run * bool) :=
  run ← openRunRecord stateDir pipelineName args;
  '(rep, close) ← wrapReporterWithPersist liveRep run;
  Ret (rep, run, close).
End Settings.

(** ** run.go: the run *)
Record runFlags := mkrunFlags {
  rf_files : list string;
  rf_args : list string;
  rf_dir : string;
  rf_pipeline : string;
  rf_params : list string;
  rf_workspaces : list string;
}.

Section Run.
Context {K : CoreV1} {Y : Yaml} `{MapRange}.
Variables (lookup_env : string -> option string) (DefaultTektonVersion version : string) (osArgs : list string).
(** sigs.k8s.io/yaml's strict reading of the resolver configuration. *)
Variable parse_config : string -> result resolverConfig.
(** The keys of the raw [ref:] maps of the loaded Tasks. *)
Variable raw_ref_keys : FullBundle -> string -> nat -> list string.
Variable gf : globalFlags.

Definition runStatusError (pipe status : string) : unit + goerror :=
  let e := Plain (Fmt "pipeline %q %s" [TStr pipe; TStr status]) in
  if String.eqb status "succeeded" then inl tt
  else if String.eqb status "timeout" then inr (Coded Timeout e)
  else if String.eqb status "cancelled" then inr (Coded Cancelled e)
  else inr (Coded ExitCode.Pipeline e).

(** The files are read one by one and merged. *)
Definition read_and_load (out : FullBundle) (p : string) : cli (result FullBundle) :=
  d ← cfs (fails (call (ReadFile p))); Ret (load_file (fun _ => d) out p).

Definition LoadFiles (paths : list string) : cli (result FullBundle) := foldT read_and_load empty_bundle paths.

Definition loadResolverConfig (path : string) : cli (result resolverConfig) :=
  if String.eqb path "" then Ret (Ok (mkresolverConfig "" ""))
  else
    do! data ← wrapP "--resolver-config: %w" [] (cfs (fails (call (ReadFile path))));
    Ret (match parse_config data with
         | Ok c => Ok c
         | Err e => Err (Fmt "--resolver-config %s: %w (supported keys: hub.token, http.token)" [TStr path; TErr e])
         end).

Definition user_path (m : gmap string string) (kv : string) : gmap string string + goerror :=
  match cut "=" kv with
  | None => inr (Coded Usage (Plain (Fmt "--workspace expects name=hostpath, got %q" [TStr kv])))
  | Some (k, v) => inl (<[k := v]> m)
  end.

(** One workspace of the pipeline; the manager is kept also when it fails. *)
Definition provision_ws (userPaths : gmap string string) (acc : (gmap string string + goerror) * Manager) (name : string)
    : cli ((gmap string string + goerror) * Manager) :=
  match acc with
  | (inr e, m) => Ret (inr e, m)
  | (inl wsHost, m) =>
    '(r, m) ← cfs (Provision m name (default "" (userPaths !! name)));
    Ret (match r with Ok host => inl (<[name := host]> wsHost) | Err e => inr (Coded Env (Plain e)) end, m)
  end.

Definition applyResolverConfig (cfg : resolverConfig) : list registered :=
  (if negb (String.eqb (rc_HubToken cfg) "") then [RegHub (rc_HubToken cfg)] else []) ++
  (if negb (String.eqb (rc_HTTPToken cfg) "") then [RegHTTP (gf_resolverAllowInsecureHTTP gf) (rc_HTTPToken cfg)] else []).

(** Whether there is a remote resolver. *)
Definition buildRemoteResolver : cli (result bool) :=
  if String.eqb (gf_remoteResolverContext gf) "" then Ret (Ok false)
  else
    r ← call (NewRemote (gf_remoteResolverContext gf) (gf_remoteResolverNamespace gf) (gf_remoteResolverTimeout gf));
    Ret (match r with Ok _ => Ok true | Err e => Err e end).

Definition registry_for (rcfg : resolverConfig) (remote : bool) : registry_options :=
  mkregistry_options (effectiveResolverAllow gf) (resolveResolverCacheDir lookup_env (gf_resolverCacheDir gf)) (gf_offline gf)
    (gf_resolverAllowInsecureHTTP gf) (clusterResolverOptedIn gf) (gf_clusterResolverContext gf) (gf_clusterResolverKubeconfig gf) (applyResolverConfig rcfg) remote.

Definition clusterBackendOptions (cacheRoot : string) (cm sec : Volumes.Store) : cluster_options :=
  mkcluster_options cacheRoot "tkn-act" (Join [cacheRoot; "cluster"; "kubeconfig"]) (resolveTektonVersion lookup_env DefaultTektonVersion "") cm sec.

Definition newBackend (cacheRoot : string) (cm sec : Volumes.Store) : cli (backend_choice + goerror) :=
  if gf_cluster gf then Ret (inl (BCluster (clusterBackendOptions cacheRoot cm sec)))
  else
    match resolveRemoteDocker lookup_env (gf_remoteDocker gf) with
    | Err e => Ret (inr (Coded Usage (Plain e)))
    | Ok mode =>
      let o := mkdocker_options (gf_sidecarStartGrace gf) (gf_sidecarStopGrace gf) mode (resolvePauseImage lookup_env (gf_pauseImage gf)) (gf_dockerHost gf) in
      r ← call (NewDocker o);
      Ret (match r with Ok _ => inl (BDocker o) | Err e => inr (Coded Env (Plain (Fmt "docker backend: %w" [TErr e]))) end)
    end.

(** What is prepared before anything is recorded. *)
Record prepared := mkprepared {
  pp_Bundle : FullBundle;
  pp_Pipe : string;
  pp_Params : gmap string ParamValue;
  pp_Config : resolverConfig;
}.

(** From the files to the resolver configuration: nothing is created yet. *)
Definition check_input (rf : runFlags) : cli (prepared + goerror) :=
  do? files ← resolveInputFiles (rf_files rf) (rf_args rf) (rf_dir rf);
  do? b ← (r ← LoadFiles files; Ret (coded ExitCode.Validate r));
  do? pipe ← Ret (selectPipeline (fb_Bundle b) (rf_pipeline rf));
  do? params ← Ret (parseParams (rf_params rf));
  has ← call (CacheState (resolveResolverCacheDir lookup_env (gf_resolverCacheDir gf)));
  match Validator.ValidateWithOptions (raw_ref_keys b) (fb_Bundle b) pipe (Some params.2) (buildValidatorOptions gf has) with
  | [] =>
    do? rcfg ← (r ← loadResolverConfig (gf_resolverConfig gf); Ret (coded Usage r));
    Ret (inl (mkprepared b pipe params.1 rcfg))
  | errs =>
    _ ← reportRunValidationErrors gf pipe errs;
    Ret (inr (Coded ExitCode.Validate (Plain (Fmt "%d validation error(s)" [TInt (Z.of_nat (length errs))]))))
  end.

(** The engine's run and the deferred end of its record. *)
Definition run_recorded (p : prepared) (be : backend_choice) (cm sec : Volumes.Store) (liveRep : reporter) (wsHost : gmap string string) (m : Manager)
    : cli ((unit + goerror) * Manager) :=
  '(rep, run, close) ← setupRunPersistence lookup_env version (ResolveStateDir (getenv lookup_env) (gf_stateDir gf)) (pp_Pipe p) osArgs liveRep;
  remote ← buildRemoteResolver;
  '(ret, m) ← match remote with
    | Err e => Ret (inr (Coded Env (Plain (Fmt "remote resolver: %w" [TErr e]))), m)
    | Ok remote =>
      '(res, cancelled, m) ← call (RunEngine (mkengine_run be rep (gf_maxParallel gf) (registry_for (pp_Config p) remote) cm sec (gf_debug gf)
                                              (pp_Bundle p) (pp_Pipe p) (pp_Params p) wsHost) m);
      match res with
      | Err e => Ret (inr (Coded (if (cancelled : bool) then Cancelled else ExitCode.Pipeline) (Plain e)), m)
      | Ok status =>
        _ ← (if gf_cleanup gf then Ret tt else warn "workspace tmpdirs preserved at: %s" [TStr (Join [cacheDir lookup_env; "run"])]);
        Ret (runStatusError (pp_Pipe p) status, m)
      end
    end;
  _ ← cleanup_record run close ret;
  Ret (ret, m).

(** Workspaces, stores, reporter, backend, and the run. *)
Definition run_prepared (rf : runFlags) (p : prepared) (m : Manager) : cli ((unit + goerror) * Manager) :=
  let cacheRoot := cacheDir lookup_env in
  match foldl (fun a kv => match a with inl m => user_path m kv | inr e => inr e end) (inl ∅) (rf_workspaces rf) with
  | inr e => Ret (inr e, m)
  | inl userPaths =>
    '(ws, m) ← foldP (provision_ws userPaths) (inl ∅, m)
      (match b_Pipelines (fb_Bundle (pp_Bundle p)) !! pp_Pipe p with Some pl => map pwd_Name (spec_Workspaces (pl_Spec pl)) | None => [] end);
    match ws with
    | inr e => Ret (inr e, m)
    | inl wsHost =>
      match buildVolumeStores gf cacheRoot (pp_Bundle p) with
      | Err e => Ret (inr (Coded Usage (Plain e)), m)
      | Ok (cm, sec) =>
        rep ← buildReporter lookup_env gf;
        match rep with
        | Err e => Ret (inr (Coded Usage (Plain e)), m)
        | Ok rep =>
          be ← newBackend cacheRoot cm sec;
          match be with
          | inr e => Ret (inr e, m)
          | inl be => run_recorded p be cm sec (NewFilter rep (gf_taskFilter gf) (gf_stepFilter gf)) wsHost m
          end
        end
      end
    end
  end.

Definition runWith (rf : runFlags) : cli (unit + goerror) :=
  do? p ← check_input rf;
  '(ret, m) ← run_prepared rf p (NewManager (cacheDir lookup_env) "run");
  _ ← (if gf_cleanup gf then _ ← cfs (Cleanup m); Ret tt else Ret tt);
  Ret ret.
End Run.
