(* ===== verification/CliProps.v ===== *)
(** * cmd/tkn-act: what the commands guarantee

    The life of a run's record and the exit code it ends with, for all answers of the
    outside. *)

From S2P Require Import ExitCode Prelude GoStrings GoTime Paths Effects Fs Json GoDate JsonText TektonTypes Run Loader Validator Volumes Workspace RefCache Discovery RunIndex RunStore LogLines Events Pretty Reporters Cli.

(** ** What a command did, as far as the record is concerned *)
Inductive mark : Type :=
  | MStore (e : ev store_op)
  | MOpen (opened : bool)
  | MEngine (res : result string) (cancelled : bool)
  | MClose.

Section Marks.
Context {K : CoreV1}.

Definition mark_of (e : ev CliE) : option mark :=
  match e with
  | Ev c a =>
    (match c in CliE X return X -> option mark with
     | CStore o => fun a => Some (MStore (Ev o a))
     | OpenEvents _ => fun a => Some (MOpen (match a with inl _ => true | inr _ => false end))
     | RunEngine _ _ => fun a => Some (MEngine a.1.1 a.1.2)
     | CloseReporter => fun _ => Some MClose
     | _ => fun _ => None
     end) a
  end.

Definition marks (t : list (ev CliE)) : list mark := omap mark_of t.

Lemma marks_app t t' : marks (t ++ t') = marks t ++ marks t'.
Proof. apply omap_app. Qed.

(** A part that leaves no mark. *)
Definition unmarked {A} (p : cli A) : Prop := post p (fun t _ => marks t = []).

Lemma unmarked_ret {A} (a : A) : unmarked (Ret a).
Proof. by apply post_ret. Qed.

Lemma unmarked_bind {A B} (p : cli A) (f : A -> cli B) : unmarked p -> (forall a, unmarked (f a)) -> unmarked (p ≫= f).
Proof.
  intros Hp Hf. apply post_bind. eapply post_mono; [exact Hp|]. intros t a Ht. eapply post_mono; [apply Hf|].
  intros t' b Ht'. cbn beta. by rewrite marks_app, Ht, Ht'.
Qed.

Lemma unmarked_tryE {A B} (p : cli (A + goerror)) (k : A -> cli (B + goerror)) : unmarked p -> (forall a, unmarked (k a)) -> unmarked (tryE p k).
Proof. intros Hp Hk. apply unmarked_bind; [done|]. intros [a|e]; [apply Hk|apply unmarked_ret]. Qed.

Lemma unmarked_try {A B} (p : cli (result A)) (k : A -> cli (result B)) : unmarked p -> (forall a, unmarked (k a)) -> unmarked (try_ p k).
Proof. intros Hp Hk. apply unmarked_bind; [done|]. intros [a|e]; [apply Hk|apply unmarked_ret]. Qed.

Lemma unmarked_wrapP {A} f args (p : cli (result A)) : unmarked p -> unmarked (wrapP f args p).
Proof. intros Hp. apply unmarked_bind; [done|]. intros r. apply unmarked_ret. Qed.

Lemma unmarked_foldP {A S} (f : S -> A -> cli S) s l : (forall s a, unmarked (f s a)) -> unmarked (foldP f s l).
Proof. intros Hf. revert s. induction l as [|a l IH]; intros s; [apply unmarked_ret|]. apply unmarked_bind; [apply Hf|done]. Qed.

Lemma unmarked_foldT {A S} (f : S -> A -> cli (result S)) s l : (forall s a, unmarked (f s a)) -> unmarked (foldT f s l).
Proof. intros Hf. revert s. induction l as [|a l IH]; intros s; [apply unmarked_ret|]. apply unmarked_try; [apply Hf|done]. Qed.

Lemma unmarked_foldE {A S} (f : S -> A -> cli (S + goerror)) s l : (forall s a, unmarked (f s a)) -> unmarked (foldE f s l).
Proof. intros Hf. revert s. induction l as [|a l IH]; intros s; [apply unmarked_ret|]. apply unmarked_tryE; [apply Hf|done]. Qed.

(** The file system is not the store. *)
Lemma unmarked_cfs {A} (p : prog FsE A) : unmarked (cfs p).
Proof.
  intros t a He. apply hoist_exec in He as (t' & _ & ->). unfold marks. induction t' as [|e t' IH]; [done|]. cbn. by destruct e.
Qed.

Lemma unmarked_call {X} (e : CliE X) : (forall x, mark_of (Ev e x) = None) -> unmarked (call e).
Proof. intros He. apply post_call. intros x. apply post_ret. unfold marks. cbn [omap list_omap]. by rewrite He. Qed.

(** A prefix without marks. *)
Lemma post_unmarked {A B} (p : cli A) (f : A -> cli B) (Q : list mark -> B -> Prop) :
  unmarked p -> (forall a, post (f a) (fun t b => Q (marks t) b)) -> post (p ≫= f) (fun t b => Q (marks t) b).
Proof.
  intros Hp Hf. apply post_bind. eapply post_mono; [exact Hp|]. intros t a Ht. eapply post_mono; [apply Hf|].
  intros t' b Hb. cbn beta. by rewrite marks_app, Ht.
Qed.
End Marks.

(** One step of a proof that a program leaves no mark. *)
Ltac unmarked_step :=
  lazymatch goal with
  | |- unmarked (Ret _) => apply unmarked_ret
  | |- unmarked (cfs _) => apply unmarked_cfs
  | |- unmarked (call _) => apply unmarked_call; done
  | |- unmarked (tryE _ _) => apply unmarked_tryE; [|intros ?]
  | |- unmarked (try_ _ _) => apply unmarked_try; [|intros ?]
  | |- unmarked (wrapP _ _ _) => apply unmarked_wrapP
  | |- unmarked (foldP _ _ _) => apply unmarked_foldP; intros ? ?
  | |- unmarked (foldT _ _ _) => apply unmarked_foldT; intros ? ?
  | |- unmarked (foldE _ _ _) => apply unmarked_foldE; intros ? ?
  | |- unmarked (mbind _ _) => apply unmarked_bind; [|intros ?]
  | |- unmarked (match ?x with _ => _ end) => destruct x
  | |- unmarked (let '_ := ?x in _) => destruct x
  end.

(** ** The life of a record *)

(** The setup, and what it gives: the record and whether its event log is open. *)
Inductive setup : list mark -> option (Run * bool) -> Prop :=
  | setup_no_store dir v e : setup [MStore (Ev (OpOpen dir v) (Err e))] None
  | setup_no_run dir v s o w p now pipe args e :
    setup [MStore (Ev (OpOpen dir v) (Ok s)); MStore (Ev (OpPrune s o w) p); MStore (Ev (OpNewRun s now pipe args) (Err e))] None
  | setup_run dir v s o w p now pipe args run opened :
    setup [MStore (Ev (OpOpen dir v) (Ok s)); MStore (Ev (OpPrune s o w) p); MStore (Ev (OpNewRun s now pipe args) (Ok run)); MOpen opened]
      (Some (run, opened)).

(** The code of the engine's verdict. *)
Definition engine_code (res : result string) (cancelled : bool) : Z :=
  match res with
  | Err _ => if cancelled then Cancelled else ExitCode.Pipeline
  | Ok s =>
    if String.eqb s "succeeded" then OK
    else if String.eqb s "timeout" then Timeout
    else if String.eqb s "cancelled" then Cancelled
    else ExitCode.Pipeline
  end.

(** The engine runs once, unless the remote resolver cannot be had. *)
Inductive engine_marks : list mark -> Z -> Prop :=
  | em_no_remote : engine_marks [] Env
  | em_ran res cancelled : engine_marks [MEngine res cancelled] (engine_code res cancelled).

(** The log is closed, then the record gets the exit code and the status it implies. *)
Inductive end_marks (code : Z) : option (Run * bool) -> list mark -> Prop :=
  | end_none : end_marks code None []
  | end_run run opened now f :
    end_marks code (Some (run, opened))
      ((if opened : bool then [MClose] else []) ++ [MStore (Ev (OpFinalize run now code (recorded_status code)) f)]).

Inductive life : list mark -> Z -> Prop :=
  | life_rejected code : code ∈ [Usage; Env; ExitCode.Validate] -> life [] code
  | life_run s rec e code f : setup s rec -> engine_marks e code -> end_marks code rec f -> life (s ++ e ++ f) code.

(** ** Before the backend is there *)
Section Rejects.
Context {K : CoreV1}.

Definition rejected : list Z := [Usage; Env; ExitCode.Validate].

(** No mark, and an error only with a code of a rejection. *)
Definition rejects {A} (p : cli (A + goerror)) : Prop :=
  post p (fun t r => marks t = [] /\ match r with inr e => From (Some e) ∈ rejected | inl _ => True end).

Lemma rejects_ret {A} (r : A + goerror) : (match r with inr e => From (Some e) ∈ rejected | inl _ => True end) -> rejects (Ret r).
Proof. intros Hr. by apply post_ret. Qed.

Lemma rejects_tryE {A B} (p : cli (A + goerror)) (k : A -> cli (B + goerror)) : rejects p -> (forall a, rejects (k a)) -> rejects (tryE p k).
Proof.
  intros Hp Hk. apply post_tryE. eapply post_mono; [exact Hp|]. intros t [a|e] [Ht Hr]; [|done].
  eapply post_mono; [apply Hk|]. intros t' b [Ht' Hb]. cbn beta. by rewrite marks_app, Ht, Ht'.
Qed.

Lemma rejects_bind {A B} (p : cli A) (f : A -> cli (B + goerror)) : unmarked p -> (forall a, rejects (f a)) -> rejects (p ≫= f).
Proof.
  intros Hp Hf. apply post_bind. eapply post_mono; [exact Hp|]. intros t a Ht. eapply post_mono; [apply Hf|].
  intros t' b [Ht' Hb]. cbn beta. by rewrite marks_app, Ht, Ht'.
Qed.

Lemma rejects_foldE {A S} (f : S -> A -> cli (S + goerror)) s l : (forall s a, rejects (f s a)) -> rejects (foldE f s l).
Proof. intros Hf. revert s. induction l as [|a l IH]; intros s; [by apply rejects_ret|]. apply rejects_tryE; [apply Hf|done]. Qed.

Lemma coded_rejected {A} c (r : result A) : c ∈ rejected -> match coded c r with inr e => From (Some e) ∈ rejected | inl _ => True end.
Proof. by destruct r. Qed.

Lemma in_rejected c : c = Usage \/ c = Env \/ c = ExitCode.Validate -> c ∈ rejected.
Proof. unfold rejected. set_solver. Qed.

Lemma resolveInputFiles_rejects fs args dir : rejects (resolveInputFiles fs args dir).
Proof.
  apply rejects_tryE; [apply rejects_foldE; intros ? p; apply rejects_bind; [by repeat unmarked_step|]|].
  - intros [i|e]; apply rejects_ret; [destruct (fi_IsDir i); [|done]|]; apply in_rejected; cbn; tauto.
  - intros _. destruct (fs ++ args); [|by apply rejects_ret]. apply rejects_bind; [apply unmarked_cfs|]. intros r. apply rejects_ret, coded_rejected, in_rejected. tauto.
Qed.

Lemma selectPipeline_rejects `{MapRange} b name : match selectPipeline b name with inr e => From (Some e) ∈ rejected | inl _ => True end.
Proof.
  unfold selectPipeline. destruct (negb _); [done|]. destruct (_.*1) as [|n [|n' l]]; try done; apply in_rejected; cbn; tauto.
Qed.

Lemma parseParams_rejects kvs : match parseParams kvs with inr e => From (Some e) ∈ rejected | inl _ => True end.
Proof.
  unfold parseParams. generalize (∅ : gmap string ParamValue, ∅ : gmap string bool). induction kvs as [|kv kvs IH]; intros acc; [done|].
  cbn [parse_params]. unfold parse_param. destruct (cut "=" kv) as [[k v]|]; [apply IH|apply in_rejected; cbn; tauto].
Qed.
End Rejects.

Section RunLife.
Context {K : CoreV1} {Y : Yaml} `{MapRange}.
Variables (lookup_env : string -> option string) (DefaultTektonVersion version : string) (osArgs : list string)
  (parse_config : string -> result resolverConfig) (raw_ref_keys : FullBundle -> string -> nat -> list string) (gf : globalFlags).

Lemma LoadFiles_unmarked paths : unmarked (LoadFiles paths).
Proof. unfold LoadFiles, read_and_load. by repeat unmarked_step. Qed.

Lemma loadResolverConfig_unmarked p : unmarked (loadResolverConfig parse_config p).
Proof. unfold loadResolverConfig. by repeat unmarked_step. Qed.

Lemma report_unmarked pipe errs : unmarked (reportRunValidationErrors gf pipe errs).
Proof. unfold reportRunValidationErrors. by repeat unmarked_step. Qed.

Lemma check_input_rejects rf : rejects (check_input lookup_env parse_config raw_ref_keys gf rf).
Proof.
  apply rejects_tryE; [apply resolveInputFiles_rejects|intros files].
  apply rejects_tryE; [apply rejects_bind; [apply LoadFiles_unmarked|intros r; apply rejects_ret, coded_rejected, in_rejected; tauto]|intros b].
  apply rejects_tryE; [apply rejects_ret, selectPipeline_rejects|intros pipe].
  apply rejects_tryE; [apply rejects_ret, parseParams_rejects|intros params].
  apply rejects_bind; [by unmarked_step|intros has]. destruct (Validator.ValidateWithOptions _ _ _ _ _) as [|e errs].
  - apply rejects_tryE; [|intros c; by apply rejects_ret]. apply rejects_bind; [apply loadResolverConfig_unmarked|].
    intros r. apply rejects_ret, coded_rejected, in_rejected. tauto.
  - apply rejects_bind; [apply report_unmarked|]. intros _. apply rejects_ret, in_rejected. cbn. tauto.
Qed.

Lemma newBackend_rejects root cm sec : rejects (newBackend lookup_env DefaultTektonVersion gf root cm sec).
Proof.
  unfold newBackend. destruct (gf_cluster gf); [by apply rejects_ret|].
  destruct (resolveRemoteDocker _ _) as [mode|e]; [|apply rejects_ret, in_rejected; cbn; tauto].
  apply rejects_bind; [by unmarked_step|]. intros [?|e]; apply rejects_ret; [done|]. apply in_rejected. cbn. tauto.
Qed.

Lemma provision_unmarked userPaths acc name : unmarked (provision_ws userPaths acc name).
Proof. unfold provision_ws. by repeat unmarked_step. Qed.

(** What provisioning ends with is a success or an environment error. *)
Definition env_result {A} (r : A + goerror) : Prop := match r with inr e => From (Some e) = Env | inl _ => True end.

Lemma provision_env userPaths names acc : env_result acc.1 -> post (foldP (provision_ws userPaths) acc names) (fun _ a => env_result a.1).
Proof.
  revert acc. induction names as [|n names IH]; intros acc Ha; [by apply post_ret|]. cbn [foldP]. apply post_bind. unfold provision_ws at 1.
  destruct acc as [[ws|e] m].
  - apply post_bind. apply (post_mono _ (fun _ _ => True)); [done|]. intros t [r m'] _. apply post_ret, IH. by destruct r.
  - apply post_ret. by apply IH.
Qed.

(** ** The setup of the record, and its end *)
Lemma openRunRecord_setup dir pipe args :
  post (openRunRecord lookup_env version dir pipe args) (fun t r =>
    match r with
    | None => setup (marks t) None
    | Some run => forall opened, setup (marks t ++ [MOpen opened]) (Some (run, opened))
    end).
Proof.
  unfold openRunRecord. apply post_bind, post_call. intros [s|e]; apply post_ret.
  2:{ apply post_bind. unfold warn. apply post_call. intros ?. do 2 apply post_ret. cbn. constructor. }
  cbv zeta. apply post_bind, post_call. intros p. apply post_ret.
  apply post_bind. apply (post_mono _ (fun t _ => marks t = [])).
  { change (unmarked (match p with Err e | Ok (_, Some e) => warn "warning: retention prune: %v" [TErr e] | Ok (_, None) => Ret tt end)).
    destruct p as [[n [e|]]|e]; unfold warn; by unmarked_step. }
  intros t _ Ht. apply post_bind, post_call. intros now. apply post_ret. apply post_bind, post_call. intros [run|e]; apply post_ret.
  - apply post_ret. intros opened. rewrite !marks_app, Ht. cbn. constructor.
  - apply post_bind. unfold warn. apply post_call. intros ?. do 2 apply post_ret. rewrite !marks_app, Ht. cbn. constructor.
Qed.

Lemma setupRunPersistence_setup dir pipe args rep :
  post (setupRunPersistence lookup_env version dir pipe args rep) (fun t r =>
    setup (marks t) (match r.1.2 with Some run => Some (run, r.2) | None => None end) /\ (r.1.2 = None -> r.2 = false)).
Proof.
  unfold setupRunPersistence. apply post_bind. eapply post_mono; [apply openRunRecord_setup|]. intros t [run|] Hs.
  - apply post_bind. unfold wrapReporterWithPersist. apply post_bind, post_call. intros [u|e]; apply post_ret.
    + apply post_ret. apply post_ret. split; [|done]. rewrite !marks_app. cbn. apply (Hs true).
    + apply post_bind. unfold warn. apply post_call. intros ?. apply post_ret. apply post_ret. apply post_ret. split; [|done].
      rewrite !marks_app. cbn. apply (Hs false).
  - apply post_bind. cbn [wrapReporterWithPersist]. apply post_ret. apply post_ret. split; [|done]. by rewrite !app_nil_r.
Qed.

(** An error never carries the code of success. *)
Definition honest {A} (ret : A + goerror) : Prop := match ret with inr e => From (Some e) <> OK | inl _ => True end.

Lemma finalize_end {A} run (ret : A + goerror) : honest ret ->
  post (finalizeRun run ret) (fun t _ => exists now f, marks t = [MStore (Ev (OpFinalize run now (exit_code ret) (recorded_status (exit_code ret))) f)]).
Proof.
  intros Hh. unfold finalizeRun.
  assert ((match ret with
    | inl _ => (0%Z, "succeeded")
    | inr e => (From (Some e), if (From (Some e) =? Cancelled)%Z then "cancelled" else if (From (Some e) =? Timeout)%Z then "timeout" else "failed")
    end) = (exit_code ret, recorded_status (exit_code ret))) as ->.
  { destruct ret as [a|e]; [done|]. unfold recorded_status, exit_code. cbn in Hh |- *. by rewrite (proj2 (Z.eqb_neq _ _) Hh). }
  apply post_bind, post_call. intros now. apply post_ret. apply post_bind, post_call. intros r. apply post_ret.
  destruct r as [u|x]; [apply post_ret|unfold warn; apply post_call; intros ?; apply post_ret]; exists now; by eexists.
Qed.

Lemma cleanup_end {A} run close (ret : A + goerror) : honest ret -> (run = None -> close = false) ->
  post (cleanup_record run close ret) (fun t _ => end_marks (exit_code ret) (match run with Some r => Some (r, close) | None => None end) (marks t)).
Proof.
  intros Hh Hc. unfold cleanup_record. apply post_bind. destruct run as [r|].
  - destruct close; [apply post_call; intros ?|]; apply post_ret; (eapply post_mono; [by apply finalize_end|]); intros t _ (now & f & Ht);
      rewrite marks_app, Ht; by econstructor.
  - rewrite Hc by done. apply post_ret. apply post_ret. constructor.
Qed.

Lemma runStatusError_code pipe s c : exit_code (runStatusError pipe s) = engine_code (Ok s) c /\ honest (runStatusError pipe s).
Proof.
  unfold runStatusError, engine_code. destruct (String.eqb s "succeeded"); [done|]. destruct (String.eqb s "timeout"); [done|].
  by destruct (String.eqb s "cancelled").
Qed.

(** The engine's part: one run, and its verdict. *)
Lemma engine_verdict p be rep cm sec wsHost m remote :
  post (match remote with
    | Err e => Ret (inr (Coded Env (Plain (Fmt "remote resolver: %w" [TErr e]))), m)
    | Ok remote =>
      '(res, cancelled, m) ← call (RunEngine (mkengine_run be rep (gf_maxParallel gf) (registry_for lookup_env gf (pp_Config p) remote) cm sec (gf_debug gf)
                                              (pp_Bundle p) (pp_Pipe p) (pp_Params p) wsHost) m);
      match res with
      | Err e => Ret (inr (Coded (if (cancelled : bool) then Cancelled else ExitCode.Pipeline) (Plain e)), m)
      | Ok status =>
        _ ← (if gf_cleanup gf then Ret tt else warn "workspace tmpdirs preserved at: %s" [TStr (Join [cacheDir lookup_env; "run"])]);
        Ret (runStatusError (pp_Pipe p) status, m)
      end
    end) (fun t r => engine_marks (marks t) (exit_code r.1) /\ honest r.1).
Proof.
  destruct remote as [remote|e]; [|apply post_ret; split; [constructor|done]].
  apply post_bind, post_call. intros [[[status|e] c] m']; apply post_ret.
  - apply post_bind. apply (post_mono _ (fun t _ => marks t = [])).
    { change (unmarked (if gf_cleanup gf then Ret tt else warn "workspace tmpdirs preserved at: %s" [TStr (Join [cacheDir lookup_env; "run"])])).
      unfold warn. by repeat unmarked_step. }
    intros t _ Ht. apply post_ret. destruct (runStatusError_code (pp_Pipe p) status c) as [Hc Hh]. cbn [fst]. rewrite Hc. split; [|done].
    rewrite app_nil_r, marks_app, Ht. cbn. apply (em_ran (Ok status) c).
  - apply post_ret. split; [|by destruct c]. cbn. destruct c; [apply (em_ran (Err e) true)|apply (em_ran (Err e) false)].
Qed.

Lemma run_recorded_life p be cm sec rep wsHost m :
  post (run_recorded lookup_env version osArgs gf p be cm sec rep wsHost m) (fun t r => life (marks t) (exit_code r.1)).
Proof.
  unfold run_recorded. apply post_bind. eapply post_mono; [apply setupRunPersistence_setup|]. intros t1 [[rep' run] close] [Hs Hc]. cbn [fst snd] in *.
  apply post_bind. apply (post_mono _ (fun t _ => marks t = [])).
  { change (unmarked (buildRemoteResolver gf)). unfold buildRemoteResolver. by repeat unmarked_step. }
  intros t2 remote Ht2. apply post_bind. eapply post_mono; [apply engine_verdict|]. intros t3 [ret m'] [He Hh]. cbn [fst] in *.
  apply post_bind. eapply post_mono; [by apply cleanup_end|]. intros t4 u Hend. cbn beta in Hend. apply post_ret. cbn [fst]. rewrite app_nil_r.
  rewrite !marks_app, Ht2, app_nil_l. by apply (life_run _ _ _ _ _ Hs He).
Qed.

Lemma life_rejects {A} (r : A + goerror) : match r with inr e => From (Some e) ∈ rejected | inl _ => False end -> life [] (exit_code r).
Proof. destruct r as [a|e]; [done|]. apply life_rejected. Qed.

Lemma run_prepared_life rf p m :
  post (run_prepared lookup_env DefaultTektonVersion version osArgs gf rf p m) (fun t r => life (marks t) (exit_code r.1)).
Proof.
  unfold run_prepared. cbv zeta.
  assert (match foldl (fun a kv => match a with inl m => user_path m kv | inr e => inr e end) (inl ∅) (rf_workspaces rf) with
    inr e => From (Some e) ∈ rejected | inl _ => True end) as Hu.
  { assert (forall (a : gmap string string + goerror) l, match a with inr e => From (Some e) ∈ rejected | inl _ => True end ->
      match foldl (fun a kv => match a with inl m => user_path m kv | inr e => inr e end) a l with inr e => From (Some e) ∈ rejected | inl _ => True end) as H'.
    { intros a l. revert a. induction l as [|kv l IH]; intros a Ha; [done|]. apply IH. destruct a as [mm|e]; [|done]. unfold user_path.
      destruct (cut "=" kv) as [[k v]|]; [done|]. apply in_rejected. cbn. tauto. }
    by apply H'. }
  destruct (foldl _ _ _) as [userPaths|e]; [|apply post_ret; by apply life_rejected].
  apply post_bind. eapply post_mono.
  { apply post_and; [|by apply (provision_env userPaths _ (inl ∅, m))]. apply unmarked_foldP. intros s a. apply provision_unmarked. }
  intros t [[wsHost|e] m'] [Ht Hws]; cbn [fst] in Hws.
  2:{ apply post_ret. rewrite app_nil_r, Ht. cbn [fst]. unfold exit_code. rewrite Hws. apply life_rejected, in_rejected. tauto. }
  destruct (buildVolumeStores gf _ _) as [[cm sec]|e]; [|apply post_ret; rewrite app_nil_r, Ht; apply life_rejected, in_rejected; cbn; tauto].
  apply post_bind. apply (post_mono _ (fun t _ => marks t = [])).
  { change (unmarked (buildReporter lookup_env gf)). unfold buildReporter. destruct (reporter_for _ _ _) as [[]|]; by repeat unmarked_step. }
  intros t2 [rep|e] Ht2; [|apply post_ret; rewrite app_nil_r, marks_app, Ht, Ht2; apply life_rejected, in_rejected; cbn; tauto].
  apply post_bind. eapply post_mono; [apply newBackend_rejects|]. intros t3 [be|e] [Ht3 Hbe].
  - eapply post_mono; [apply run_recorded_life|]. intros t4 r Hr. by rewrite !marks_app, Ht, Ht2, Ht3.
  - apply post_ret. rewrite app_nil_r, !marks_app, Ht, Ht2, Ht3. by apply life_rejected.
Qed.

Lemma runWith_life rf :
  post (runWith lookup_env DefaultTektonVersion version osArgs parse_config raw_ref_keys gf rf) (fun t r => life (marks t) (exit_code r)).
Proof.
  unfold runWith. apply post_tryE. eapply post_mono; [apply check_input_rejects|]. intros t [p|e] [Ht He].
  - apply post_bind. eapply post_mono; [apply run_prepared_life|]. intros t2 [ret m] Hl. cbn [fst] in Hl.
    apply post_bind. apply (post_mono _ (fun t _ => marks t = [])).
    { change (unmarked (if gf_cleanup gf then _ ← cfs (Cleanup m); Ret tt else Ret tt)). by repeat unmarked_step. }
    intros t3 _ Ht3. apply post_ret. by rewrite !marks_app, Ht, Ht3, !app_nil_r.
  - rewrite Ht. by apply life_rejected.
Qed.
End RunLife.

(** ** What the life says of the code *)
Lemma setup_no_engine s rec : setup s rec -> forall res c, MEngine res c ∉ s.
Proof. intros []; set_solver. Qed.

Lemma end_no_engine code rec f : end_marks code rec f -> forall res c, MEngine res c ∉ f.
Proof. intros [|run [] now x]; set_solver. Qed.

Lemma engine_ok res c : engine_code res c = OK -> res = Ok "succeeded".
Proof.
  destruct res as [s|e]; unfold engine_code; [|by destruct c]. destruct (String.eqb_spec s "succeeded") as [->|_]; [done|].
  destruct (String.eqb s "timeout"); [done|]. by destruct (String.eqb s "cancelled").
Qed.

Lemma life_ok m code : life m code -> code = OK <-> exists c, MEngine (Ok "succeeded") c ∈ m.
Proof.
  intros [code' Hc|s rec e code' f Hs He Hf]; split.
  - intros ->. by apply list_elem_of_In in Hc as [|[|[|]]].
  - intros [c Hin]. by apply not_elem_of_nil in Hin.
  - intros Hok. destruct He as [|res c]; [done|]. apply engine_ok in Hok as ->. exists c. set_solver.
  - intros [c Hin]. rewrite !elem_of_app in Hin. destruct Hin as [Hin|[Hin|Hin]].
    + by apply (setup_no_engine _ _ Hs) in Hin.
    + destruct He as [|res c']; [by apply not_elem_of_nil in Hin|]. by apply list_elem_of_singleton in Hin as [= <- <-].
    + by apply (end_no_engine _ _ _ Hf) in Hin.
Qed.

Lemma life_code m code : life m code -> code ∈ [OK; Usage; Env; ExitCode.Validate; ExitCode.Pipeline; Timeout; Cancelled].
Proof.
  intros [code' Hc|s rec e code' f _ [|res c] _].
  - revert Hc. unfold rejected. set_solver.
  - set_solver.
  - unfold engine_code. destruct res as [st|x]; [|destruct c; set_solver].
    destruct (String.eqb st "succeeded"); [set_solver|]. destruct (String.eqb st "timeout"); [set_solver|]. destruct (String.eqb st "cancelled"); set_solver.
Qed.

(** C31: however the outside answers, [tkn-act run] either rejects its input and leaves no
    record, or sets its record up, runs the engine at most once, closes the event log and
    then finalizes the record once, with the code the process exits with and the status of
    that code; the code is one of the documented seven, and it is 0 exactly when the engine
    said "succeeded". *)
Theorem runWith_recorded {K : CoreV1} {Y : Yaml} `{MapRange} lookup_env DefaultTektonVersion version osArgs parse_config raw_ref_keys gf rf :
  post (runWith lookup_env DefaultTektonVersion version osArgs parse_config raw_ref_keys gf rf) (fun t r =>
    life (marks t) (exit_code r) /\
    exit_code r ∈ [OK; Usage; Env; ExitCode.Validate; ExitCode.Pipeline; Timeout; Cancelled] /\
    (exit_code r = OK <-> exists c, MEngine (Ok "succeeded") c ∈ marks t)).
Proof.
  eapply post_mono; [apply runWith_life|]. intros t r Hl. split_and!; [done|by apply life_code in Hl|by apply life_ok].
Qed.
