(* ===== verification/Commands.v ===== *)
(** * cmd/tkn-act: the other commands

    logs.go, runs.go, validate.go, list.go and cache.go as programs over the calls of Cli.
    The local time zone is UTC. *)

From Stdlib Require Import SpecFloat.
From S2P Require Import ExitCode Prelude GoStrings GoTime Paths Effects Fs Json GoDate JsonText TektonTypes Run Loader Validator RefCache Discovery RunIndex RunStore LogLines Events Pretty Reporters Cli.

(** ** errors.Is for a package's sentinel, along the errors wrapped with %w *)
Fixpoint text_is (s t : text) : bool :=
  match t with
  | Sentinel n => match s with Sentinel m => String.eqb m n | _ => false end
  | Fmt f args =>
    contains f "%w" &&
    (fix any (l : list targ) : bool := match l with [] => false | TErr t :: l => text_is s t || any l | _ :: l => any l end) args
  end.

(** A JSON document on stdout; the encoder adds a newline. *)
Definition print_json {K : CoreV1} (j : json) : cli unit := call (Stdout (Fmt "%s" [TStr (Encode j)])).

Definition println {K : CoreV1} (f : string) (args : list targ) : cli unit := call (Stdout (Fmt (f +:+ String "010" "") args)).

(** [2006-01-02 15:04:05], in UTC. *)
Definition clock_seconds (t : Z) : string :=
  let r := (t mod ns_per_day)%Z in
  let sec := (r / 1000000000)%Z in
  digits 2 (sec / 3600) +:+ ":" +:+ digits 2 (sec / 60 mod 60) +:+ ":" +:+ digits 2 (sec mod 60).

Definition date_text (t : Z) : string :=
  let '(y, m, d) := civil_of_days (t / ns_per_day + unix_days)%Z in
  digits 4 y +:+ "-" +:+ digits 2 m +:+ "-" +:+ digits 2 d +:+ " " +:+ clock_seconds t.

(** [Time.String]. *)
Definition time_string (t : Z) : string :=
  let ns := (t mod 1000000000)%Z in
  date_text t +:+ (if (ns =? 0)%Z then "" else "." +:+ frac_digits 9 ns) +:+ " +0000 UTC".

Section Stored.
Context {K : CoreV1} {HO : Host} {UL : Ulid}.
Variables (lookup_env : string -> option string) (gf : globalFlags).
(** The clock a sink reads for an event without a time. *)
Variable now : nat -> Z.

Definition stateDir : string := ResolveStateDir (getenv lookup_env) (gf_stateDir gf).

(** How a failed lookup of a run is answered. *)
Definition resolve_error (e : text) : goerror :=
  Coded (if text_is ErrNoRuns e || text_is ErrNotFound e || text_is ErrAmbiguous e then Usage else Env) (Plain e).

(** The store, the entry of the run named, and its directory. *)
Definition find_run (id : string) (missing opened : goerror -> goerror) (msg : text) : cli ((RunStore.Store * IndexEntry * string) + goerror) :=
  st ← call (CStore (OpOpenReadOnly stateDir));
  match st with
  | inr (NotExist _) => Ret (inr (missing (Plain msg)))
  | inr (OtherErr e) => Ret (inr (opened (Plain e)))
  | inl store =>
    r ← call (CStore (OpResolve store id));
    match r with
    | Err e => Ret (inr (resolve_error e))
    | Ok entry => Ret (match RunDir store entry with Ok dir => inl (store, entry, dir) | Err e => inr (Coded Env (Plain e)) end)
    end
  end.

(** ** logs.go *)

(** The reporter after the replay is what was printed. *)
Definition runLogs (id : string) : cli ((unit + goerror) * option reporter) :=
  r ← find_run id (Coded Usage) (fun e => Coded Env (Wrapping "open state-dir: %w" [] e))
        (Fmt "no runs recorded in %s (run `tkn-act run` first)" [TStr stateDir]);
  match r with
  | inr e => Ret (inr e, None)
  | inl (_, _, runDir) =>
    rep ← buildReporter lookup_env gf;
    match rep with
    | Err e => Ret (inr (Coded Usage (Plain e)), None)
    | Ok rep =>
      d ← cfs (call (ReadFile (Join [runDir; "events.jsonl"])));
      let rep := NewFilter rep (gf_taskFilter gf) (gf_stepFilter gf) in
      Ret (match d with
           | inr e => (inr (Coded Env (Plain (Fmt "open events: %w" [TErr (errno_text e)]))), Some rep)
           | inl data =>
             let '(rep, _, err) := Replay now (Some data) rep 0 in
             (match err with Some e => inr (Coded Env (Plain e)) | None => inl tt end, Some (close rep).1)
           end)
    end
  end.

Definition empty_id : string := "run id must not be empty; pass 'latest' ".

Definition logs_cmd (args : list string) : cli ((unit + goerror) * option reporter) :=
  match args with
  | [""] => Ret (inr (Coded Usage (Plain (lit (empty_id +:+ "or omit the argument to select the most recent run")))), None)
  | id :: _ => runLogs id
  | [] => runLogs ""
  end.

(** ** runs.go: list *)
Definition defaultListLimit : nat := 20.

Definition set_status (s : string) (e : IndexEntry) : IndexEntry :=
  mkIndexEntry (ie_Seq e) (ie_ULID e) (ie_PipelineRef e) (ie_StartedAt e) (ie_EndedAt e) (ie_ExitCode e) s (ie_PID e) (ie_Host e).

(** The entries to show: the last ones, newest first, with their effective status. *)
Definition shown_entries (all : bool) (t : Z) (l : list IndexEntry) : list IndexEntry :=
  let l := if negb all && (defaultListLimit <? length l)%nat then drop (length l - defaultListLimit) l else l in
  reverse (map (fun e => set_status (EffectiveStatus t e) e) l).

Definition list_row (e : IndexEntry) : list string :=
  [itoa (ie_Seq e); ie_ULID e; ie_PipelineRef e;
   (if IsZero (ie_StartedAt e) then "-" else date_text (ie_StartedAt e));
   (if negb (IsZero (ie_EndedAt e)) && negb (IsZero (ie_StartedAt e)) then duration_string (Round (time_Sub (ie_EndedAt e) (ie_StartedAt e)) GoTime.Millisecond) else "-");
   itoa (ie_ExitCode e); ie_Status e].

Definition encode_entries (l : list IndexEntry) : option json :=
  if forallb (fun e => json_time (ie_StartedAt e) && json_time (ie_EndedAt e)) l then Some (JArr (map entry_json l)) else None.

Definition json_year_error : goerror := Plain (lit "Time.MarshalJSON: year outside of range [0,9999]").

Definition emitRunsList (l : list IndexEntry) : cli (unit + goerror) :=
  if String.eqb (gf_output gf) "json" then
    match encode_entries l with
    | Some j => _ ← print_json j; Ret (inl tt)
    | None => Ret (inr json_year_error)
    end
  else
    match l with
    | [] => _ ← println "No runs recorded yet. Try `tkn-act run -f <pipeline.yaml>`." []; Ret (inl tt)
    | _ => _ ← call (Table (["#"; "ULID"; "pipeline"; "started"; "duration"; "exit"; "status"] :: map list_row l)); Ret (inl tt)
    end.

Definition runRunsList (all : bool) : cli (unit + goerror) :=
  r ← call (CStore (OpReadIndexEntries stateDir));
  match r with
  | Err e => Ret (inr (Coded Env (Plain (Fmt "read index: %w" [TErr e]))))
  | Ok l => t ← call (CFs Now); emitRunsList (shown_entries all t l)
  end.

(** ** runs.go: show *)
Definition set_meta_status (s : string) (m : Meta) : Meta :=
  mkMeta (me_RunID m) (me_ULID m) (me_Seq m) (me_WriterVersion m) (me_PipelineRef m) (me_StartedAt m) (me_EndedAt m) (me_ExitCode m) s (me_Args m).

Definition print_meta (m : Meta) : cli unit :=
  _ ← println "seq:           %d" [TInt (me_Seq m)];
  _ ← println "ulid:          %s" [TStr (me_ULID m)];
  _ ← println "pipeline_ref:  %s" [TStr (me_PipelineRef m)];
  _ ← println "started_at:    %s" [TStr (time_string (me_StartedAt m))];
  _ ← (if IsZero (me_EndedAt m) then Ret tt else println "ended_at:      %s" [TStr (time_string (me_EndedAt m))]);
  _ ← println "exit_code:     %d" [TInt (me_ExitCode m)];
  _ ← println "status:        %s" [TStr (me_Status m)];
  _ ← println "writer:        %s" [TStr (me_WriterVersion m)];
  match me_Args m with [] => Ret tt | l => println "args:          %v" [TStrs l] end.

Definition runRunsShow (id : string) : cli (unit + goerror) :=
  do? f ← find_run id (Coded Usage) (Coded Env) (Fmt "no runs recorded in %s" [TStr stateDir]);
  do? m ← (r ← call (CStore (OpReadMeta (Join [f.2; "meta.json"]))); Ret (coded Env r));
  m ← (if IsZero (me_EndedAt m) && String.eqb (me_Status m) "" then t ← call (CFs Now); Ret (set_meta_status (EffectiveStatus t f.1.2) m) else Ret m);
  if String.eqb (gf_output gf) "json" then
    if json_time (me_StartedAt m) && json_time (me_EndedAt m) then _ ← print_json (meta_json m); Ret (inl tt) else Ret (inr json_year_error)
  else _ ← print_meta m; Ret (inl tt).

Definition show_cmd (id : string) : cli (unit + goerror) :=
  if String.eqb id "" then Ret (inr (Coded Usage (Plain (lit (empty_id +:+ "to select the most recent run"))))) else runRunsShow id.

(** ** runs.go: prune *)
Definition emitRunsPruneJSON (n : nat) : cli (unit + goerror) :=
  _ ← print_json (JObj [("pruned", int_json (Z.of_nat n)); ("state_dir", JStr stateDir)]); Ret (inl tt).

Definition runRunsPrune (all yes : bool) : cli (unit + goerror) :=
  if all && negb yes then Ret (inr (Coded Usage (Plain (lit "--all is destructive; pass --yes/-y to confirm"))))
  else if yes && negb all then Ret (inr (Coded Usage (Plain (lit "--yes/-y only applies with --all; default retention applies otherwise"))))
  else
    st ← call (CStore (OpOpenReadOnly stateDir));
    match st with
    | inr (NotExist _) =>
      if String.eqb (gf_output gf) "json" then emitRunsPruneJSON 0
      else _ ← println "No state-dir at %s; nothing to prune." [TStr stateDir]; Ret (inl tt)
    | inr (OtherErr e) => Ret (inr (Coded Env (Plain e)))
    | inl store =>
      let o := retentionOpts lookup_env in
      p ← call (CStore (OpPrune store (mkPruneOptions (po_KeepRuns o) (po_KeepDays o) all zero_time 0) true));
      match p with
      | Err e | Ok (_, Some e) => Ret (inr (Coded Env (Plain e)))
      | Ok (n, None) =>
        if String.eqb (gf_output gf) "json" then emitRunsPruneJSON n
        else _ ← println "Pruned %d %s from %s" [TInt (Z.of_nat n); TStr (if (n =? 1)%nat then "run" else "runs"); TStr stateDir]; Ret (inl tt)
      end
    end.
End Stored.

(** ** list.go *)
Section Loading.
Context {K : CoreV1} {Y : Yaml} `{MapRange}.
Variables (lookup_env : string -> option string) (gf : globalFlags) (raw_ref_keys : FullBundle -> string -> nat -> list string).

Definition emitListResult (pipelines tasks : list string) : cli (unit + goerror) :=
  _ ← (if String.eqb (gf_output gf) "json" then print_json (JObj [("pipelines", JArr (map JStr pipelines)); ("tasks", JArr (map JStr tasks))])
       else
         _ ← println "Pipelines:" [];
         _ ← foldP (fun _ n => println "  - %s" [TStr n]) tt pipelines;
         _ ← println "Tasks:" [];
         foldP (fun _ n => println "  - %s" [TStr n]) tt tasks);
  Ret (inl tt).

Definition list_cmd (dir : string) : cli (unit + goerror) :=
  r ← cfs (Find (if String.eqb dir "" then "." else dir));
  match r with
  | Err e => if text_is ErrNoneFound e then emitListResult [] [] else Ret (inr (Coded Usage (Plain e)))
  | Ok files =>
    do? b ← (r ← LoadFiles files; Ret (coded ExitCode.Validate r));
    emitListResult (sort_strings (map_range (b_Pipelines (fb_Bundle b))).*1) (sort_strings (map_range (b_Tasks (fb_Bundle b))).*1)
  end.

(** ** validate.go *)
Definition emitValidateJSONResult (ok : bool) (pipeline : string) (errors : list text) : cli unit :=
  if String.eqb (gf_output gf) "json" then call (EmitValidation ok pipeline errors) else Ret tt.

(** An error on the way is part of the JSON result, and is returned. *)
Definition or_emit {A B} (pipeline : string) (p : cli (A + goerror)) (k : A -> cli (B + goerror)) : cli (B + goerror) :=
  r ← p;
  match r with
  | inl a => k a
  | inr e => _ ← emitValidateJSONResult false pipeline [message e]; Ret (inr e)
  end.

Definition validate_cmd (files args : list string) (dir pipe : string) (params : list string) : cli (unit + goerror) :=
  or_emit "" (resolveInputFiles files args dir) (fun files =>
  or_emit "" (r ← LoadFiles files; Ret (coded ExitCode.Validate r)) (fun b =>
  or_emit "" (Ret (selectPipeline (fb_Bundle b) pipe)) (fun pipe =>
  or_emit pipe (Ret (match params with
                     | [] => inl None
                     | _ => match parseParams params with inl ps => inl (Some ps.2) | inr e => inr e end
                     end)) (fun provided =>
  has ← call (CacheState (resolveResolverCacheDir lookup_env (gf_resolverCacheDir gf)));
  let errs := Validator.ValidateWithOptions (raw_ref_keys b) (fb_Bundle b) pipe provided (buildValidatorOptions gf has) in
  let ok := match errs with [] => true | _ => false end in
  _ ← (if String.eqb (gf_output gf) "json" then emitValidateJSONResult ok pipe errs
       else
         _ ← foldP (fun _ e => println "error: %s" [TErr e]) tt errs;
         if ok then println "ok" [] else Ret tt);
  Ret (if ok then inl tt
       else inr (Coded ExitCode.Validate (Plain (Fmt "%d validation error(s)" [TInt (Z.of_nat (length errs))])))))))).

(** ** cache.go *)
Definition resolveCacheDir : string := if negb (String.eqb (gf_resolverCacheDir gf) "") then gf_resolverCacheDir gf else Join [cacheDir lookup_env; "resolved"].

Definition f64_add (a b : spec_float) : spec_float := SFadd 53 1024 a b.

(** A float64 converted to an int loses its fraction. *)
Definition f64_int (f : spec_float) : Z :=
  match f with
  | S754_finite s m e => ((if s then - 1 else 1) * (if 0 <=? e then Z.pos m * 2 ^ e else Z.pos m / 2 ^ (- e)))%Z
  | _ => 0%Z
  end.

(** [d.Seconds()], [d.Minutes()], [d.Hours()]: by the unit [u]. *)
Definition in_units (d u : Z) : spec_float := f64_add (f64_of_Z (Z.quot d u)) (f64_div (f64_of_Z (Z.rem d u)) (f64_of_Z u)).

Definition humanAge (now t : Z) : string :=
  if IsZero t then "—"
  else
    let d := time_Sub now t in
    if (d <? Minute)%Z then itoa (f64_int (in_units d Second)) +:+ "s"
    else if (d <? Hour)%Z then itoa (f64_int (in_units d Minute)) +:+ "m"
    else if (d <? 24 * Hour)%Z then itoa (f64_int (in_units d Hour)) +:+ "h"
    else itoa (f64_int (f64_div (in_units d Hour) (f64_of_Z 24))) +:+ "d".

Definition cache_entry_json (e : CacheEntry) : json :=
  JObj [("resolver", JStr (ce_Resolver e)); ("key", JStr (ce_Key e)); ("path", JStr (ce_Path e)); ("size", int_json (ce_Size e));
        ("mod_time", JStr (format_time (ce_ModTime e)))].

Definition generic (e : text) : goerror := Coded Generic (Plain e).

Definition cache_row (acc : list (list string)) (e : CacheEntry) : cli (list (list string)) :=
  now ← call (CFs Now); Ret (acc ++ [[ce_Resolver e; ce_Key e; itoa (ce_Size e); humanAge now (ce_ModTime e)]]).

Definition runCacheList : cli (unit + goerror) :=
  let root := resolveCacheDir in
  '(entries, err) ← cfs (List_ (mkDiskCache root));
  match err with
  | Some e => Ret (inr (generic e))
  | None =>
    if String.eqb (gf_output gf) "json" then
      if forallb (fun e => has_json_year (ce_ModTime e)) entries then
        _ ← print_json (JObj [("root", JStr root); ("entries", JArr (map cache_entry_json entries))]); Ret (inl tt)
      else Ret (inr (Plain (lit "Time.MarshalJSON: year outside of range [0,9999]")))
    else
      match entries with
      | [] => _ ← println "(no cached entries under %s)" [TStr root]; Ret (inl tt)
      | _ => rows ← foldP cache_row [] entries; _ ← call (Table (["RESOLVER"; "KEY"; "SIZE"; "AGE"] :: rows)); Ret (inl tt)
      end
  end.

Definition runCachePrune (older : Z) : cli (unit + goerror) :=
  let root := resolveCacheDir in
  '(n, err) ← cfs (PruneOlderThan (mkDiskCache root) older);
  match err with
  | Some e => Ret (inr (generic e))
  | None =>
    _ ← (if String.eqb (gf_output gf) "json" then
           print_json (JObj [("root", JStr root); ("older_than", JStr (duration_string older)); ("pruned", int_json (Z.of_nat n))])
         else println "pruned %d entries older than %s under %s" [TInt (Z.of_nat n); TStr (duration_string older); TStr root]);
    Ret (inl tt)
  end.

Definition runCacheClear (yes : bool) : cli (unit + goerror) :=
  if negb yes then Ret (inr (Coded Usage (Plain (lit "cache clear is destructive; pass -y to confirm"))))
  else
    let root := resolveCacheDir in
    '(n, err) ← cfs (Clear (mkDiskCache root));
    match err with
    | Some e => Ret (inr (generic e))
    | None =>
      _ ← (if String.eqb (gf_output gf) "json" then print_json (JObj [("root", JStr root); ("cleared", int_json (Z.of_nat n))])
           else println "cleared %d entries from %s" [TInt (Z.of_nat n); TStr root]);
      Ret (inl tt)
    end.
End Loading.

Example age_ex : map (humanAge 1700000000000000000) [1699999999500000000; 1699999990000000000; 1699999700000000000; 1699990000000000000; 1699000000000000000]%Z =
  ["0s"; "10s"; "5m"; "2h"; "11d"].
Proof. vm_compute. reflexivity. Qed.

Example time_string_ex : time_string 1700000000500000000 = "2023-11-14 22:13:20.5 +0000 UTC".
Proof. vm_compute. reflexivity. Qed.
