(* ===== verification/CommandProps.v ===== *)
(** * cmd/tkn-act: what the other commands guarantee

    Which commands only read, down to the calls of the store ([with_store]), the code each
    cause ends with, the order of the list of runs, and that validate and run agree on what
    is valid. *)

From S2P Require Import ExitCode Prelude GoStrings GoTime Paths Effects Fs Json GoDate JsonText TektonTypes Run Loader Validator RefCache Discovery RunIndex RunStore LogLines Events Pretty Reporters Cli CliProps Commands.

(** ** Reading *)
Section Reading.
Context {K : CoreV1}.

Definition fs_reading (X : Type) (e : FsE X) : Prop :=
  match e with
  | ReadFile _ | ReadDir _ | Stat _ | Lstat _ | WalkRegular _ | Now => True
  | _ => False
  end.

(** No call that changes a file, a record or the daemon; the store is not called. *)
Definition reading (X : Type) (e : CliE X) : Prop :=
  match e with
  | CFs e => fs_reading _ e
  | Stdout _ | Stderr _ | EmitError _ _ _ | EmitValidation _ _ _ | Table _ | IsTerminal | CacheState _ => True
  | _ => False
  end.

Lemma reads_cfs {A} (p : prog FsE A) : calls fs_reading p -> calls reading (cfs p).
Proof. apply hoist_calls. done. Qed.

Lemma reads_tryE {A B} (p : cli (A + goerror)) (k : A -> cli (B + goerror)) : calls reading p -> (forall a, calls reading (k a)) -> calls reading (tryE p k).
Proof. intros Hp Hk. apply calls_bind; [done|]. by intros [a|e]. Qed.

Lemma reads_foldE {A S} (f : S -> A -> cli (S + goerror)) s l : (forall s a, calls reading (f s a)) -> calls reading (foldE f s l).
Proof. intros Hf. revert s. induction l as [|x l IH]; intros s; [done|]. apply reads_tryE; [apply Hf|done]. Qed.
End Reading.

(** One step of a proof that a program only reads. *)
Ltac reads_step :=
  lazymatch goal with
  | |- calls _ (Ret _) => exact I
  | |- calls _ (cfs _) => apply reads_cfs
  | |- calls _ (call _) => apply calls_call; exact I
  | |- calls _ (tryE _ _) => apply reads_tryE; [|intros ?]
  | |- calls _ (try_ _ _) => apply calls_try; [|intros ?]
  | |- calls _ (wrapP _ _ _) => apply calls_wrap
  | |- calls _ (fails _) => apply calls_bind; [|intros ?]
  | |- calls _ (foldP _ _ _) => apply calls_foldP; intros ? ?
  | |- calls _ (foldT _ _ _) => apply calls_foldT; intros ? ?
  | |- calls _ (foldE _ _ _) => apply reads_foldE; intros ? ?
  | |- calls _ (mbind _ _) => apply calls_bind; [|intros ?]
  | |- calls _ (match ?x with _ => _ end) => destruct x
  | |- calls _ (let '_ := ?x in _) => destruct x
  | |- calls _ (or_emit _ _ _) => apply calls_bind; [|intros ?]
  end.

(** ** Codes *)
Section Codes.
Context {E : Type -> Type}.

(** Every run of the program ends with one of the codes. *)
Definition ends_with {A} (l : list Z) (p : prog E (A + goerror)) : Prop := post p (fun _ r => exit_code r ∈ l).

(** An error has one of the codes. *)
Definition errs_in {A} (l : list Z) (r : A + goerror) : Prop := match r with inr e => From (Some e) ∈ l | inl _ => True end.

Lemma ends_ret {A} l (r : A + goerror) : OK ∈ l -> errs_in l r -> ends_with l (Ret r).
Proof. intros H0 Hr. apply post_ret. by destruct r. Qed.

Lemma ends_bind {A B} l (p : prog E A) (f : A -> prog E (B + goerror)) : (forall a, ends_with l (f a)) -> ends_with l (p ≫= f).
Proof. intros Hf. apply post_bind. intros t a _. apply Hf. Qed.

Lemma ends_tryE {A B} l (p : prog E (A + goerror)) (k : A -> prog E (B + goerror)) :
  post p (fun _ r => errs_in l r) -> (forall a, ends_with l (k a)) -> ends_with l (tryE p k).
Proof. intros Hp Hk. apply post_tryE. eapply post_mono; [exact Hp|]. intros t [a|e] Hr; [apply Hk|done]. Qed.

Lemma errs_coded {A} l c (r : result A) : c ∈ l -> errs_in l (coded c r).
Proof. by destruct r. Qed.

Lemma post_bind_any {A B} (p : prog E A) (f : A -> prog E B) (Q : B -> Prop) : (forall a, post (f a) (fun _ => Q)) -> post (p ≫= f) (fun _ => Q).
Proof. intros Hf. apply post_bind. intros t a _. apply Hf. Qed.
End Codes.

Lemma elem_of_codes (c : Z) l : existsb (Z.eqb c) l = true -> c ∈ l.
Proof. intros (x & Hx & ->%Z.eqb_eq)%existsb_exists. by apply list_elem_of_In. Qed.

(** A code of a list, by evaluation. *)
Ltac code := apply elem_of_codes; reflexivity.

(** ** The commands on stored runs *)

(** *** The calls of the store's operations, in place of the operations *)
Section Store.
Context {K : CoreV1} {HO : Host} {UL : Ulid}.

Inductive CmdE : Type -> Type :=
  | InCli {X} (e : CliE X) : CmdE X
  | InStore {X} (e : StoreE X) : CmdE X.

Definition cmd_call {X} (e : CliE X) : prog CmdE X :=
  match e in CliE X return prog CmdE X with
  | CStore o => hoist (fun X => @InStore X) (store_impl o)
  | e => call (InCli e)
  end.

Fixpoint with_store {A} (p : cli A) : prog CmdE A :=
  match p with
  | Ret a => Ret a
  | Call e k => cmd_call e ≫= (fun x => with_store (k x))
  end.

(** No lock, no temporary file, no new id: files are looked at, and results printed. *)
Definition only_reads (X : Type) (e : CmdE X) : Prop :=
  match e with
  | InCli e => reading _ e
  | InStore (SFs e) => fs_reading _ e
  | InStore _ => False
  end.

Lemma calls_bind_mono {E : Type -> Type} (P : forall X, E X -> Prop) {A B C} (q : prog E A) (g : A -> prog E B) (h : A -> prog E C) :
  calls P (q ≫= g) -> (forall x, calls P (g x) -> calls P (h x)) -> calls P (q ≫= h).
Proof. intros Hq Hgh. induction q as [a|X e k IH]; [exact (Hgh a Hq)|]. destruct Hq as [He Hk]. split; [done|]. intros x. exact (IH x (Hk x)). Qed.

Lemma with_store_bind {A B} (p : cli A) (f : A -> cli B) :
  calls only_reads (with_store p) -> (forall a, calls only_reads (with_store (f a))) -> calls only_reads (with_store (p ≫= f)).
Proof.
  intros Hp Hf. induction p as [a|X e k IH]; [apply Hf|]. change (calls only_reads (cmd_call e ≫= (fun x => with_store (k x ≫= f)))).
  eapply calls_bind_mono; [exact Hp|]. intros x Hx. by apply IH.
Qed.

Lemma with_store_tryE {A B} (p : cli (A + goerror)) (k : A -> cli (B + goerror)) :
  calls only_reads (with_store p) -> (forall a, calls only_reads (with_store (k a))) -> calls only_reads (with_store (tryE p k)).
Proof. intros Hp Hk. apply with_store_bind; [done|]. by intros [a|e]. Qed.

(** A program that reads without the store. *)
Lemma with_store_reading {A} (p : cli A) : calls reading p -> calls only_reads (with_store p).
Proof.
  induction p as [a|X e k IH]; [done|]. intros [He Hk]. assert (forall x, calls only_reads (with_store (k x))) as Hw by (intros x; by apply IH).
  by destruct e.
Qed.
End Store.

Section Stored.
Context {K : CoreV1} {HO : Host} {UL : Ulid}.
Variables (lookup_env : string -> option string) (gf : globalFlags) (now : nat -> Z).

Abbreviation dir := (stateDir lookup_env gf).

(** *** When a command ends how, read off its calls *)

(** The store has no such run, or none at all, or several. *)
Definition no_such_run (e : text) : Prop := text_is ErrNoRuns e = true \/ text_is ErrNotFound e = true \/ text_is ErrAmbiguous e = true.

(** The lookup of a run: the run, or the code the command ends with. *)
Inductive looked_up (id : string) : list (ev CliE) -> (RunStore.Store * IndexEntry * string) + Z -> Prop :=
  | lookup_no_store e : looked_up id [Ev (CStore (OpOpenReadOnly dir)) (inr (NotExist e))] (inr 2%Z)
  | lookup_closed_store e : looked_up id [Ev (CStore (OpOpenReadOnly dir)) (inr (OtherErr e))] (inr 3%Z)
  | lookup_no_run s e : no_such_run e -> looked_up id [Ev (CStore (OpOpenReadOnly dir)) (inl s); Ev (CStore (OpResolve s id)) (Err e)] (inr 2%Z)
  | lookup_broken s e : ~ no_such_run e -> looked_up id [Ev (CStore (OpOpenReadOnly dir)) (inl s); Ev (CStore (OpResolve s id)) (Err e)] (inr 3%Z)
  | lookup_invalid s x e : ParseRunID (ie_ULID x) = Err e ->
      looked_up id [Ev (CStore (OpOpenReadOnly dir)) (inl s); Ev (CStore (OpResolve s id)) (Ok x)] (inr 3%Z)
  | lookup_found s x u : ParseRunID (ie_ULID x) = Ok u ->
      looked_up id [Ev (CStore (OpOpenReadOnly dir)) (inl s); Ev (CStore (OpResolve s id)) (Ok x)] (inl (s, x, Join [st_dir s; "runs"; u])).

(** No reporter can be made of the flags. *)
Definition impossible_flags : Prop :=
  gf_output gf <> "json" /\ ((gf_quiet gf = true /\ gf_verbose gf = true) \/ is_ok (ParseColorMode (gf_color gf)) = false).

(** The terminal is asked for its color. *)
Definition terminal_asked (t : list (ev CliE)) : Prop := t = [] \/ exists b, t = [Ev IsTerminal b].

(** Every line that is not blank is an event, and none is too long for the scanner. *)
Definition readable (data : string) : Prop :=
  Forall (fun l => (size l < 4194304)%Z /\ (strip_cr l = "" \/ is_Some (UnmarshalJSON (strip_cr l)))) (raw_lines data).

Inductive logs_end (id : string) : list (ev CliE) -> Z -> Prop :=
  | logs_not_found t c : looked_up id t (inr c) -> logs_end id t c
  | logs_flags t s x d : looked_up id t (inl (s, x, d)) -> impossible_flags -> logs_end id t 2%Z
  | logs_no_events t t' s x d e : looked_up id t (inl (s, x, d)) -> ~ impossible_flags -> terminal_asked t' ->
      logs_end id (t ++ t' ++ [Ev (CFs (ReadFile (Join [d; "events.jsonl"]))) (inr e)]) 3%Z
  | logs_corrupt t t' s x d data : looked_up id t (inl (s, x, d)) -> ~ impossible_flags -> terminal_asked t' -> ~ readable data ->
      logs_end id (t ++ t' ++ [Ev (CFs (ReadFile (Join [d; "events.jsonl"]))) (inl data)]) 3%Z
  | logs_replayed t t' s x d data : looked_up id t (inl (s, x, d)) -> ~ impossible_flags -> terminal_asked t' -> readable data ->
      logs_end id (t ++ t' ++ [Ev (CFs (ReadFile (Join [d; "events.jsonl"]))) (inl data)]) 0%Z.

(** The runs to list: the last recorded first, at most twenty unless all are asked for. *)
Definition newest (all : bool) (t : Z) (l : list IndexEntry) : list IndexEntry :=
  map (fun e => set_status (EffectiveStatus t e) e) (if all then reverse l else take 20 (reverse l)).

Definition in_json_years (e : IndexEntry) : Prop := json_time (ie_StartedAt e) = true /\ json_time (ie_EndedAt e) = true.

(** What is printed of them. *)
Inductive listed (l : list IndexEntry) : list (ev CliE) -> Prop :=
  | listed_json : gf_output gf = "json" -> listed l [Ev (Stdout (Fmt "%s" [TStr (Encode (JArr (map entry_json l)))])) tt]
  | listed_none m : gf_output gf <> "json" -> l = [] -> listed l [Ev (Stdout m) tt]
  | listed_table h : gf_output gf <> "json" -> l <> [] -> listed l [Ev (Table (h :: map list_row l)) tt].

Inductive list_end (all : bool) : list (ev CliE) -> Z -> Prop :=
  | list_broken e : list_end all [Ev (CStore (OpReadIndexEntries dir)) (Err e)] 3%Z
  | list_year l t : gf_output gf = "json" -> ~ Forall in_json_years (newest all t l) ->
      list_end all [Ev (CStore (OpReadIndexEntries dir)) (Ok l); Ev (CFs Now) t] 1%Z
  | list_printed l t out : listed (newest all t l) out -> (gf_output gf = "json" -> Forall in_json_years (newest all t l)) ->
      list_end all (Ev (CStore (OpReadIndexEntries dir)) (Ok l) :: Ev (CFs Now) t :: out) 0%Z.

(** A clock reading, or output. *)
Definition shows (e : ev CliE) : Prop := match ev_call e with CFs Now | Stdout _ => True | _ => False end.

Definition meta_years (m : Meta) : Prop := json_time (me_StartedAt m) = true /\ json_time (me_EndedAt m) = true.

Inductive show_end (id : string) : list (ev CliE) -> Z -> Prop :=
  | show_not_found t c : looked_up id t (inr c) -> show_end id t c
  | show_broken t s x d e : looked_up id t (inl (s, x, d)) -> show_end id (t ++ [Ev (CStore (OpReadMeta (Join [d; "meta.json"]))) (Err e)]) 3%Z
  | show_year t t' s x d m : looked_up id t (inl (s, x, d)) -> gf_output gf = "json" -> ~ meta_years m -> Forall shows t' ->
      show_end id (t ++ Ev (CStore (OpReadMeta (Join [d; "meta.json"]))) (Ok m) :: t') 1%Z
  | show_printed t t' s x d m : looked_up id t (inl (s, x, d)) -> (gf_output gf = "json" -> meta_years m) -> Forall shows t' ->
      show_end id (t ++ Ev (CStore (OpReadMeta (Join [d; "meta.json"]))) (Ok m) :: t') 0%Z.

(** *** The lookup *)
Lemma find_run_reads id f g msg : calls only_reads (with_store (find_run lookup_env gf id f g msg)).
Proof.
  cbn. split; [done|]. intros [i|[e|e]]; [|done|done]. cbn. split; [done|]. intros [data|[e|e]]; cbn; by repeat (case_match; cbn).
Qed.

Lemma find_run_lookup id f g msg : (forall e, From (Some (f (Plain e))) = 2%Z) -> (forall e, From (Some (g (Plain e))) = 3%Z) ->
  post (find_run lookup_env gf id f g msg) (fun t r => looked_up id t (match r with inl x => inl x | inr e => inr (From (Some e)) end)).
Proof.
  intros Hf Hg. apply post_call. intros [s|[e|e]].
  - apply post_call. intros [x|e]; apply post_ret.
    + unfold RunDir. destruct (ParseRunID (ie_ULID x)) as [u|e] eqn:Eu; cbn; econstructor; exact Eu.
    + unfold resolve_error. destruct (text_is ErrNoRuns e || text_is ErrNotFound e || text_is ErrAmbiguous e) eqn:Et; cbn; constructor.
      * unfold no_such_run. rewrite !orb_true_iff in Et. tauto.
      * unfold no_such_run. rewrite !orb_false_iff in Et. destruct Et as [[-> ->] ->]. naive_solver.
  - apply post_ret. rewrite Hf. constructor.
  - apply post_ret. rewrite Hg. constructor.
Qed.

(** *** logs *)
Lemma buildReporter_reads : calls reading (buildReporter lookup_env gf).
Proof. unfold buildReporter. destruct (reporter_for _ _ _) as [[]|]; by repeat reads_step. Qed.

Lemma runLogs_reads id : calls only_reads (with_store (runLogs lookup_env gf now id)).
Proof.
  unfold runLogs. apply with_store_bind; [apply find_run_reads|]. intros [[[s e] d]|e]; [|done]. apply with_store_reading.
  apply calls_bind; [apply buildReporter_reads|]. intros [rep|x]; [|done]. by repeat reads_step.
Qed.

Lemma reporter_flags tty : is_ok (reporter_for lookup_env gf tty) = false <-> impossible_flags.
Proof.
  unfold reporter_for, impossible_flags. destruct (String.eqb_spec (gf_output gf) "json") as [Hj|Hj]; [by split; [|intros []]|].
  destruct (gf_quiet gf), (gf_verbose gf); cbn; destruct (ParseColorMode (gf_color gf)); cbn; intuition congruence.
Qed.

Lemma buildReporter_flags : post (buildReporter lookup_env gf) (fun t r =>
  terminal_asked t /\ match r with Ok _ => ~ impossible_flags | Err _ => t = [] /\ impossible_flags end).
Proof.
  unfold buildReporter. destruct (reporter_for lookup_env gf false) as [rep|e] eqn:Er.
  - assert (forall tty, match reporter_for lookup_env gf tty with Ok _ => ~ impossible_flags | Err _ => False end) as Hok.
    { intros tty. pose proof (proj2 (reporter_flags tty)) as H1. pose proof (proj1 (reporter_flags false)) as H2. pose proof (proj2 (reporter_flags false)) as H3.
      rewrite Er in H2, H3. destruct (reporter_for lookup_env gf tty) eqn:Et; [intros Hi; by specialize (H1 Hi)|].
      pose proof (proj1 (reporter_flags tty)) as H4. rewrite Et in H4. by specialize (H3 (H4 eq_refl)). }
    pose proof (Hok false) as Hf. rewrite Er in Hf.
    destruct rep; try (apply post_ret; split; [by left|done]).
    apply post_call. intros tty. apply post_ret. split; [right; by exists tty|]. specialize (Hok tty). by destruct (reporter_for lookup_env gf tty).
  - apply post_ret. split; [by left|]. split; [done|]. apply (reporter_flags false). by rewrite Er.
Qed.

Lemma replay_readable ls k rep n : (replay_lines now k ls rep n).2 = None <->
  Forall (fun l => (size l < 4194304)%Z /\ (strip_cr l = "" \/ is_Some (UnmarshalJSON (strip_cr l)))) ls.
Proof.
  revert k rep n. induction ls as [|l ls IH]; intros k rep n; cbn [replay_lines]; [by split; [constructor|]|].
  rewrite Forall_cons. unfold max_token. destruct (Z.leb_spec 4194304 (size l)) as [Hs|Hs].
  { split; [done|]. intros [[Hl _] _]. lia. }
  destruct (String.eqb_spec (strip_cr l) "") as [Eb|Eb]; [rewrite IH; naive_solver|].
  destruct (UnmarshalJSON (strip_cr l)) as [e|] eqn:Eu; [|cbn; split; [done|]; intros [[_ [?|[? ?]]] _]; done].
  destruct (emit now rep e n) as [rep' n']. rewrite IH. split; [intros H; split; [split; [done|right; by exists e]|done]|tauto].
Qed.

Lemma runLogs_ends id : post (runLogs lookup_env gf now id) (fun t r => logs_end id t (exit_code r.1)).
Proof.
  unfold runLogs. apply post_bind. eapply post_mono; [by apply find_run_lookup|]. intros t [[[s e] d]|e] Hl; [|apply post_ret; rewrite app_nil_r; by constructor].
  apply post_bind. eapply post_mono; [apply buildReporter_flags|]. intros t' [rep|x] [Ht' Hi].
  2:{ destruct Hi as [-> Hi]. apply post_ret. rewrite !app_nil_r. by eapply logs_flags. }
  apply post_call. intros [data|x]; apply post_ret; [|by eapply logs_no_events].
  cbv zeta. pose proof (replay_readable (raw_lines data) 1 (NewFilter rep (gf_taskFilter gf) (gf_stepFilter gf)) 0) as Hr.
  unfold Replay. destruct (replay_lines _ _ _ _ _) as [[rep' n] [x|]].
  - eapply logs_corrupt; [done..|]. intros H. by apply Hr in H.
  - eapply logs_replayed; [done..|]. by apply Hr.
Qed.

(** *** runs list *)

(** [runs list] shows the newest runs first: of the index, oldest first as it is stored,
    the reverse, cut to twenty unless --all is given, each with its effective status. *)
Lemma shown_entries_newest all t l : shown_entries all t l = newest all t l.
Proof.
  unfold shown_entries, newest. cbv zeta. rewrite <-(fmap_reverse (fun e => set_status (EffectiveStatus t e) e)). f_equal.
  unfold defaultListLimit. destruct all; cbn [negb andb]; [done|]. destruct (Nat.ltb_spec 20 (length l)) as [Hl|Hl].
  - set (n := length l - 20). transitivity (take 20 (reverse (drop n l) ++ reverse (take n l))).
    + rewrite take_app_length'; [done|]. rewrite length_reverse, length_drop. unfold n. lia.
    + by rewrite <-reverse_app, take_drop.
  - rewrite take_ge; [done|]. rewrite length_reverse. lia.
Qed.

Lemma encode_entries_years l : encode_entries l = None <-> ~ Forall in_json_years l.
Proof.
  unfold encode_entries. assert (forallb (fun e => json_time (ie_StartedAt e) && json_time (ie_EndedAt e)) l = true <-> Forall in_json_years l) as <-.
  { rewrite forallb_forall, Forall_forall. unfold in_json_years. setoid_rewrite andb_true_iff. by setoid_rewrite list_elem_of_In. }
  by destruct (forallb _ l).
Qed.

Lemma runRunsList_reads all : calls only_reads (with_store (runRunsList lookup_env gf all)).
Proof.
  apply with_store_bind; [cbn; split; [done|]; by intros [d|[e|e]]|]. intros [l|e]; [|done]. apply with_store_reading.
  unfold emitRunsList, print_json, println. by repeat reads_step.
Qed.

Lemma runRunsList_ends all : post (runRunsList lookup_env gf all) (fun t r => list_end all t (exit_code r)).
Proof.
  apply post_call. intros [l|e]; [|apply post_ret; constructor]. apply post_call. intros t. rewrite shown_entries_newest. unfold emitRunsList.
  destruct (String.eqb_spec (gf_output gf) "json") as [Hj|Hj].
  - destruct (encode_entries (newest all t l)) as [j|] eqn:Ej.
    + apply post_call. intros []. apply post_ret. apply list_printed.
      * assert (j = JArr (map entry_json (newest all t l))) as -> by (unfold encode_entries in Ej; destruct (forallb _ _); congruence). by constructor.
      * intros _. destruct (decide (Forall in_json_years (newest all t l))) as [H|H]; [done|]. apply encode_entries_years in H. congruence.
    + apply post_ret. constructor; [done|]. by apply encode_entries_years.
  - destruct (newest all t l) as [|e es] eqn:El; apply post_call; intros []; apply post_ret; apply list_printed; try done; rewrite El; by constructor.
Qed.

(** *** runs show *)
Lemma show_reads id : calls only_reads (with_store (runRunsShow lookup_env gf id)).
Proof.
  unfold runRunsShow. apply with_store_tryE; [apply find_run_reads|]. intros f. apply with_store_tryE.
  { cbn. split; [done|]. by intros [d|e]. }
  intros m. apply with_store_reading. unfold print_json, print_meta, println. by repeat reads_step.
Qed.

(** What is left after the metadata only prints. *)
Lemma prints_calls {A} (p : cli A) (Q : A -> Prop) : calls (fun X (e : CliE X) => match e with CFs Now | Stdout _ => True | _ => False end) p ->
  post p (fun _ a => Q a) -> post p (fun t a => Forall shows t /\ Q a).
Proof. intros Hp HQ. apply post_and; [|done]. exact (calls_post _ _ Hp). Qed.

Lemma show_ends id : post (runRunsShow lookup_env gf id) (fun t r => show_end id t (exit_code r)).
Proof.
  unfold runRunsShow. apply post_tryE. eapply post_mono; [by apply find_run_lookup|]. intros t [[[s x] d]|e] Hl; [|by constructor].
  apply post_tryE. apply post_call. intros [m|e]; apply post_ret; [|by eapply show_broken].
  eapply (post_mono _ (fun t' r => Forall shows t' /\
    ((exit_code r = 1%Z /\ gf_output gf = "json" /\ ~ meta_years m) \/ (exit_code r = 0%Z /\ (gf_output gf = "json" -> meta_years m))))).
  2:{ intros t' r [Hs [(-> & Hj & Hm)|(-> & Hm)]]; [by eapply show_year|by eapply show_printed]. }
  apply prints_calls; [unfold print_json, print_meta, println; by repeat reads_step|]. apply post_bind.
  apply (post_mono _ (fun _ m' => meta_years m' <-> meta_years m)).
  { destruct (_ && _); [apply post_call; intros ?|]; by apply post_ret. }
  intros _ m' Hm. destruct (String.eqb_spec (gf_output gf) "json") as [Hj|Hj].
  - unfold meta_years in *. rewrite <-andb_true_iff in Hm. destruct (json_time (me_StartedAt m') && json_time (me_EndedAt m'));
      [apply post_bind_any; intros ?|]; apply post_ret; [right; split; [done|intros _; by apply Hm]|left].
    split_and!; [done|done|]. intros H. by apply Hm in H.
  - apply post_bind_any. intros ?. apply post_ret. by right.
Qed.

(** C40: replaying, listing and showing runs changes nothing: down to the calls of the store,
    they only look at files, take no lock, and print; and each ends with the documented code
    for its cause.  A run that is not there (no store yet, no run of that name, several) or an
    id given as the empty string is a usage error, 2, as are flags no reporter can be made of;
    a store that cannot be read, an entry with an invalid id, a log or metadata that are
    missing or corrupt are errors of the environment, 3; a time that JSON cannot express is
    the generic error, 1; otherwise the code is 0, and [runs list] has printed the last
    recorded runs, newest first, with their effective status. *)
Theorem query_commands :
  (forall args, calls only_reads (with_store (logs_cmd lookup_env gf now args)) /\
     post (logs_cmd lookup_env gf now args) (fun t r =>
       match args with
       | [""] => t = [] /\ exit_code r.1 = 2%Z
       | id :: _ => logs_end id t (exit_code r.1)
       | [] => logs_end "" t (exit_code r.1)
       end)) /\
  (forall all, calls only_reads (with_store (runRunsList lookup_env gf all)) /\
     post (runRunsList lookup_env gf all) (fun t r => list_end all t (exit_code r))) /\
  (forall id, calls only_reads (with_store (show_cmd lookup_env gf id)) /\
     post (show_cmd lookup_env gf id) (fun t r => if String.eqb id "" then t = [] /\ exit_code r = 2%Z else show_end id t (exit_code r))).
Proof.
  split_and!.
  - intros args. unfold logs_cmd. destruct args as [|[|a s] args]; [split; [apply runLogs_reads|apply runLogs_ends]| |split; [apply runLogs_reads|apply runLogs_ends]].
    destruct args; [split; [done|by apply post_ret]|split; [apply runLogs_reads|apply runLogs_ends]].
  - intros all. split; [apply runRunsList_reads|apply runRunsList_ends].
  - intros id. unfold show_cmd. destruct (String.eqb id ""); [split; [done|by apply post_ret]|]. split; [apply show_reads|apply show_ends].
Qed.
End Stored.

(** ** The commands on files *)
Section Files.
Context {K : CoreV1} {Y : Yaml} `{MapRange}.
Variables (lookup_env : string -> option string) (parse_config : string -> result resolverConfig)
  (raw_ref_keys : FullBundle -> string -> nat -> list string) (gf : globalFlags).

Lemma Find_reads dir : calls fs_reading (Find dir).
Proof.
  unfold Find. apply calls_bind; [by split|]. intros [i|e]; [|done]. destruct (negb _); [done|].
  apply calls_bind; [|intros out; apply calls_bind; [|by intros [[|]|]]].
  - apply calls_foldP. intros s p. apply calls_bind; [|done]. by split.
  - apply calls_foldT. intros s p. unfold find_sub. apply calls_bind; [by split|]. intros b. destruct (negb b); [done|]. by split.
Qed.

Lemma resolve_reads fs args dir : calls reading (resolveInputFiles fs args dir).
Proof.
  unfold resolveInputFiles, check_positional. apply reads_tryE; [by repeat reads_step|]. intros _. destruct (fs ++ args); [|done].
  apply calls_bind; [apply reads_cfs, Find_reads|done].
Qed.

Lemma LoadFiles_reads paths : calls reading (LoadFiles paths).
Proof. unfold LoadFiles, read_and_load. apply calls_foldT. intros s p. apply calls_bind; [|done]. by apply reads_cfs, calls_bind. Qed.

Lemma emits_read ok pipe errs : calls reading (emitValidateJSONResult gf ok pipe errs).
Proof. unfold emitValidateJSONResult. by repeat reads_step. Qed.

Lemma reads_or_emit {A B} pipe (p : cli (A + goerror)) (k : A -> cli (B + goerror)) :
  calls reading p -> (forall a, calls reading (k a)) -> calls reading (or_emit gf pipe p k).
Proof. intros Hp Hk. apply calls_bind; [done|]. intros [a|e]; [done|]. apply calls_bind; [apply emits_read|done]. Qed.

(** list and validate only read, and end with success, a usage error, or the code of
    rejected YAML. *)
Theorem check_commands :
  (forall dir, calls reading (list_cmd gf dir) /\ ends_with [OK; Usage; ExitCode.Validate] (list_cmd gf dir)) /\
  (forall files args dir pipe params,
     calls reading (validate_cmd lookup_env gf raw_ref_keys files args dir pipe params) /\
     ends_with [OK; Usage; ExitCode.Validate] (validate_cmd lookup_env gf raw_ref_keys files args dir pipe params)).
Proof.
  assert (forall {A B} pipe (p : cli (A + goerror)) (k : A -> cli (B + goerror)), post p (fun _ r => errs_in [OK; Usage; ExitCode.Validate] r) ->
    (forall a, ends_with [OK; Usage; ExitCode.Validate] (k a)) -> ends_with [OK; Usage; ExitCode.Validate] (or_emit gf pipe p k)) as Hor.
  { intros A B pipe p k Hp Hk. apply post_bind. eapply post_mono; [exact Hp|]. intros t [a|e] Hr; [apply Hk|]. apply ends_bind. intros ?. by apply ends_ret; [code|]. }
  assert (forall fs args dir, post (resolveInputFiles fs args dir) (fun _ r => errs_in [OK; Usage; ExitCode.Validate] r)) as Hres.
  { intros fs args dir. apply post_tryE. assert (forall l s, post (foldE check_positional s l) (fun _ r => errs_in [OK; Usage; ExitCode.Validate] r)) as Hpos.
    { induction l as [|p l IH]; intros s; [by apply post_ret|]. apply post_tryE, post_bind_any. intros [i|e]; apply post_ret; [destruct (fi_IsDir i); [code|apply IH]|code]. }
    eapply post_mono; [apply Hpos|]. intros t [u|e] Hr; [|done]. destruct (fs ++ args); [|by apply post_ret].
    apply post_bind_any. intros r. apply post_ret, errs_coded. code. }
  split.
  - intros dir. unfold list_cmd, emitListResult, print_json, println. split.
    + apply calls_bind; [apply reads_cfs, Find_reads|]. intros [files|e]; [|by repeat reads_step].
      apply reads_tryE; [apply calls_bind; [apply LoadFiles_reads|done]|]. intros b. by repeat reads_step.
    + apply ends_bind. intros [files|e].
      * apply ends_tryE; [apply post_bind_any; intros r; apply post_ret, errs_coded; code|]. intros b. apply ends_bind. intros ?. apply ends_ret; [code|done].
      * destruct (text_is _ _); [apply ends_bind; intros ?; apply ends_ret; [code|done]|apply ends_ret; code].
  - intros files args dir pipe params. unfold validate_cmd. split.
    + apply reads_or_emit; [apply resolve_reads|intros files'].
      apply reads_or_emit; [apply calls_bind; [apply LoadFiles_reads|done]|intros b].
      apply reads_or_emit; [done|intros pipe']. apply reads_or_emit; [done|intros provided].
      apply calls_bind; [by apply calls_call|intros has]. cbv zeta. apply calls_bind; [|done]. unfold println.
      destruct (String.eqb _ _); [apply emits_read|]. apply calls_bind; [by repeat reads_step|]. intros _. by repeat reads_step.
    + apply Hor; [apply Hres|intros files']. apply Hor; [apply post_bind_any; intros r; apply post_ret, errs_coded; code|intros b].
      apply Hor; [apply post_ret|intros pipe'].
      { pose proof (selectPipeline_rejects (fb_Bundle b) pipe) as Hs. unfold selectPipeline in *. destruct (negb _); [done|].
        destruct (_.*1) as [|n [|n' l]]; [code|done|code]. }
      apply Hor; [apply post_ret|intros provided].
      { destruct params as [|p0 ps]; [done|]. assert (errs_in [OK; Usage; ExitCode.Validate] (parseParams (p0 :: ps))) as Hp.
        { unfold parseParams. generalize (∅ : gmap string ParamValue, ∅ : gmap string bool). generalize (p0 :: ps). intros l.
          induction l as [|kv l IH]; intros acc; [done|]. cbn [parse_params]. unfold parse_param. destruct (cut "=" kv) as [[k v]|]; [apply IH|code]. }
        by destruct (parseParams _). }
      apply ends_bind. intros has. cbv zeta. apply ends_bind. intros ?. apply ends_ret; [code|].
      destruct (Validator.ValidateWithOptions _ _ _ _ _); [done|code].
Qed.

(** ** validate and run *)
Section Agreement.
Context {W : Type} (ans : forall X, CliE X -> W -> X * W).

Lemma run_tryE {A B} (p : cli (A + goerror)) (k : A -> cli (B + goerror)) w :
  run ans (tryE p k) w = let '(r, w') := run ans p w in match r with inl a => run ans (k a) w' | inr e => (inr e, w') end.
Proof. unfold tryE. rewrite run_bind. by destruct (run ans p w) as [[a|e] w']. Qed.

Lemma run_or_emit {A B} pipe (p : cli (A + goerror)) (k : A -> cli (B + goerror)) w b :
  (run ans (or_emit gf pipe p k) w).1 = inl b -> exists a w', run ans p w = (inl a, w') /\ (run ans (k a) w').1 = inl b.
Proof.
  unfold or_emit. rewrite run_bind. destruct (run ans p w) as [[a|e] w']; [by eauto|].
  rewrite run_bind. destruct (run ans (emitValidateJSONResult gf false pipe [message e]) w') as [u w2]. by rewrite run_ret.
Qed.

(** The steps the two commands share. *)
Lemma validate_steps w files args dir pipe params :
  params <> [] ->
  (run ans (validate_cmd lookup_env gf raw_ref_keys files args dir pipe params) w).1 = inl tt <->
  exists fs w1 b w2 n vs has w3,
    run ans (resolveInputFiles files args dir) w = (inl fs, w1) /\
    run ans (r ← LoadFiles fs; Ret (coded ExitCode.Validate r)) w1 = (inl b, w2) /\
    selectPipeline (fb_Bundle b) pipe = inl n /\ parseParams params = inl vs /\
    run ans (call (CacheState (resolveResolverCacheDir lookup_env (gf_resolverCacheDir gf)))) w2 = (has, w3) /\
    Validator.ValidateWithOptions (raw_ref_keys b) (fb_Bundle b) n (Some vs.2) (buildValidatorOptions gf has) = [].
Proof.
  intros Hps. split.
  - intros (fs & w1 & E1 & (b & w2 & E2 & (n & w3 & E3 & (ps & w4 & E4 & Hv)%run_or_emit)%run_or_emit)%run_or_emit)%run_or_emit.
    rewrite run_ret in E3, E4. injection E3 as E3 <-. injection E4 as E4 <-. destruct params as [|p0 params]; [done|].
    destruct (parseParams (p0 :: params)) as [vs|e] eqn:Ep; [|done]. injection E4 as <-.
    rewrite run_bind in Hv. destruct (run ans (call (CacheState _)) w2) as [has w5] eqn:Ec. cbv zeta in Hv. rewrite run_bind in Hv.
    exists fs, w1, b, w2, n, vs, has, w5. split_and!; try done.
    destruct (Validator.ValidateWithOptions _ _ _ _ _) as [|e errs]; [done|].
    destruct (run ans (if String.eqb _ _ then _ else _) w5) as [u w6]. by rewrite run_ret in Hv.
  - intros (fs & w1 & b & w2 & n & vs & has & w3 & E1 & E2 & E3 & E4 & E5 & E6). destruct params as [|p0 params]; [done|].
    unfold validate_cmd, or_emit. rewrite run_bind, E1, run_bind, E2, run_bind, run_ret, E3, run_bind, run_ret, E4, run_bind, E5.
    cbv zeta. rewrite E6, run_bind. destruct (run ans (if String.eqb _ _ then _ else _) w3) as [u w6]. by rewrite run_ret.
Qed.

(** C32: validate (with its params) and run agree: when no resolver configuration is named,
    validate succeeds exactly when run gets through its checks to create workspaces and a
    record. *)
Theorem validate_agrees_with_run w files args dir pipe params wss :
  params <> [] -> gf_resolverConfig gf = "" ->
  (run ans (validate_cmd lookup_env gf raw_ref_keys files args dir pipe params) w).1 = inl tt <->
  exists p, (run ans (check_input lookup_env parse_config raw_ref_keys gf (mkrunFlags files args dir pipe params wss)) w).1 = inl p.
Proof.
  intros Hps Hc. rewrite (validate_steps w files args dir pipe params Hps). unfold check_input.
  cbn [rf_files rf_args rf_dir rf_pipeline rf_params]. split.
  - intros (fs & w1 & b & w2 & n & vs & has & w3 & E1 & E2 & E3 & E4 & E5 & E6).
    rewrite run_tryE, E1, run_tryE, E2, run_tryE, run_ret, E3, run_tryE, run_ret, E4, run_bind, E5, E6, run_tryE, run_bind.
    unfold loadResolverConfig. rewrite Hc. by eexists.
  - rewrite run_tryE. destruct (run ans (resolveInputFiles files args dir) w) as [[fs|e] w1]; [|by intros [? ?]].
    rewrite run_tryE. destruct (run ans (r ← LoadFiles fs; Ret (coded ExitCode.Validate r)) w1) as [[b|e] w2] eqn:E2; [|by intros [? ?]].
    rewrite run_tryE, run_ret. destruct (selectPipeline (fb_Bundle b) pipe) as [n|e] eqn:E3; [|by intros [? ?]].
    rewrite run_tryE, run_ret. destruct (parseParams params) as [vs|e]; [|by intros [? ?]].
    rewrite run_bind. destruct (run ans (call (CacheState _)) w2) as [has w3] eqn:E5.
    destruct (Validator.ValidateWithOptions _ _ _ _ _) as [|e errs] eqn:E6.
    + intros _. by exists fs, w1, b, w2, n, vs, has, w3.
    + rewrite run_bind. destruct (run ans (reportRunValidationErrors gf n (e :: errs)) w3) as [u w4]. by intros [? ?].
Qed.
End Agreement.
End Files.

(** ** Examples *)
Section Examples.
#[local] Existing Instance core_unit.
#[local] Existing Instance default_range.

(** Every document is the valid pipeline of the validator's examples. *)
#[local] Instance cmd_yaml : Yaml := {|
  yaml_Object _ := Ok (mkObject "tekton.dev/v1" "Pipeline" (mkMetadata "p" "" ∅ ∅));
  yaml_Task _ := Err (lit "unused"); yaml_Pipeline _ := Ok ex_ok_pl;
  yaml_PipelineRun _ := Err (lit "unused"); yaml_TaskRun _ := Err (lit "unused");
  yaml_StepAction _ := Err (lit "unused"); yaml_configMapDoc _ := Err (lit "unused"); yaml_secretDoc _ := Err (lit "unused");
|}.

(** A tree, a cache that has everything, and no store or daemon. *)
Definition store_down {X} (o : store_op X) : X :=
  match o in store_op X return X with
  | OpOpen _ _ | OpPrune _ _ _ | OpNewRun _ _ _ _ | OpFinalize _ _ _ _ | OpResolve _ _ | OpReadMeta _ | OpReadIndexEntries _ => Err (lit "down")
  | OpOpenReadOnly _ => inr (OtherErr (lit "down"))
  end.

Definition cmd_answer (X : Type) (e : CliE X) (w : world) : X * world :=
  match e in CliE X return X * world with
  | CFs e => fs_answer _ e w
  | CStore o => (store_down o, w)
  | Stdout _ | Stderr _ | EmitError _ _ _ | EmitValidation _ _ _ | Table _ | CloseReporter => (tt, w)
  | IsTerminal => (false, w)
  | CacheState _ => (fun _ => true, w)
  | NewDocker _ | NewRemote _ _ _ => (Err (lit "down"), w)
  | OpenEvents _ => (inr (OtherErr (lit "down")), w)
  | RunEngine _ m => (Err (lit "down"), false, m, w)
  end.

Definition cmd_flags : globalFlags :=
  mkglobalFlags "json" false true 4 false false "auto" false false "" "" [] [] "" [] "" false "" "default" 60000000000 false "" "" 0 0 "auto" "" "" "" false [] [].

Definition cmd_world : world := mkWorld 0 {[(true, ["p.yaml"]) := File 420 0 "pipeline"]}.

Lemma validate_agrees_with_run_witness :
  (run cmd_answer (validate_cmd (fun _ => None) cmd_flags (fun _ => no_raw) ["/p.yaml"] [] "" "" ["a=b"]) cmd_world).1 = inl tt /\
  exists p, (run cmd_answer (check_input (fun _ => None) (fun _ => Err (lit "none")) (fun _ => no_raw) cmd_flags
    (mkrunFlags ["/p.yaml"] [] "" "" ["a=b"] [])) cmd_world).1 = inl p.
Proof.
  assert ((run cmd_answer (validate_cmd (fun _ => None) cmd_flags (fun _ => no_raw) ["/p.yaml"] [] "" "" ["a=b"]) cmd_world).1 = inl tt) as Hv
    by (vm_compute; reflexivity).
  split; [exact Hv|]. apply (validate_agrees_with_run (fun _ => None) (fun _ => Err (lit "none")) (fun _ => no_raw) cmd_flags cmd_answer); [discriminate|reflexivity|exact Hv].
Defined.
End Examples.
