(* ===== verification/ClusterUp.v ===== *)
(** * internal/cluster, internal/cmdrunner: bringing a cluster up

    The k3d driver over commands, the Tekton installer over kubectl and the API server,
    Prepare of the cluster backend, and the commands cluster and doctor, as programs of
    calls to processes, to the API server, to the file system and to the terminal. *)

From S2P Require Import ExitCode Prelude GoStrings GoTime Paths Effects Fs Json GoDate JsonText RunIndex Cli.

(** ** Calls *)

(** An answer of the API server. *)
Inductive api (A : Type) : Type := Got (a : A) | NotFound (e : text) | Failed (e : text).
Arguments Got {A} a.
Arguments NotFound {A} e.
Arguments Failed {A} e.

(** Of a Deployment: its generation and its status. *)
Record Deployment := mkDeployment {
  dp_Generation : Z;
  dp_ObservedGeneration : Z;
  dp_Replicas : Z;
  dp_ReadyReplicas : Z;
  dp_UpdatedReplicas : Z;
}.

Inductive ctx_error : Type := Canceled | DeadlineExceeded.
Definition ctx_text (e : ctx_error) : text :=
  match e with Canceled => lit "context canceled" | DeadlineExceeded => lit "context deadline exceeded" end.

(** One check of doctor. *)
Record doctorCheck := mkdoctorCheck { dc_Name : string; dc_OK : bool; dc_Detail : text; dc_RequiredFor : string }.

Inductive UpE : Type -> Type :=
  | UFs {X} (e : FsE X) : UpE X
  | Exec (name : string) (args : list string) : UpE (string * string * option text)   (* stdout, stderr, the error *)
  | LookPath (name : string) : UpE (result string)
  | Combined (bin : string) (args : list string) : UpE (result string)                 (* within two seconds *)
  | GetCRD (name : string) : UpE (api unit)
  | GetDeployment (ns name : string) : UpE (api Deployment)
  | GetConfigMap (ns name : string) : UpE (api (gmap string string))
  | CreateConfigMap (ns name : string) (data : gmap string string) : UpE (result unit)
  | UpdateConfigMap (ns name : string) (data : gmap string string) : UpE (result unit)
  | Wait (d : Z) : UpE (option ctx_error)                     (* the context's error, when it ended first *)
  | LoadKubeconfig (path : string) : UpE (result unit)
  | NewClient (kind : string) : UpE (result unit)
  | Ping : UpE (result string)                                (* a docker client and its ping *)
  | ReadLine : UpE string
  | Print (t : text) : UpE unit
  | EmitReport (ok : bool) (cacheDir : string) (checks : list doctorCheck) : UpE unit.   (* doctor's report on stdout, as JSON *)

Abbreviation up := (prog UpE).

Definition ufs {A} (p : prog FsE A) : up A := hoist (fun X => @UFs X) p.
Definition now_ : up Z := call (UFs Now).

(** ** internal/cmdrunner *)
Definition Output (name : string) (args : list string) : up (result string) :=
  r ← call (Exec name args);
  Ret (match r with
       | (out, _, None) => Ok out
       | (_, err, Some e) => Err (Fmt "%s %s: %w (stderr: %s)" [TStr name; TStr (join " " args); TErr e; TStr err])
       end).

(** ** internal/cluster/k3d *)
Definition DefaultK3sImage : string := "rancher/k3s:v1.34.12-k3s1".

Record Driver := mkDriver { dr_name : string; dr_kubecfg : string; dr_image : string }.

Definition k3d_New (clusterName kubeconfigPath image : string) : Driver :=
  mkDriver (if String.eqb clusterName "" then "tkn-act" else clusterName) kubeconfigPath
    (if String.eqb image "" then DefaultK3sImage else image).

Record clusterListEntry := mkentry { ce_Name : string; ce_ServersRunning : Z; ce_AgentsRunning : Z; ce_Servers : Z; ce_Agents : Z }.

Definition entry_fields : list (field clusterListEntry) :=
  [("name", str_field (fun v e => mkentry v (ce_ServersRunning e) (ce_AgentsRunning e) (ce_Servers e) (ce_Agents e)));
   ("serversRunning", int_field (fun v e => mkentry (ce_Name e) v (ce_AgentsRunning e) (ce_Servers e) (ce_Agents e)));
   ("agentsRunning", int_field (fun v e => mkentry (ce_Name e) (ce_ServersRunning e) v (ce_Servers e) (ce_Agents e)));
   ("servers", int_field (fun v e => mkentry (ce_Name e) (ce_ServersRunning e) (ce_AgentsRunning e) v (ce_Agents e)));
   ("agents", int_field (fun v e => mkentry (ce_Name e) (ce_ServersRunning e) (ce_AgentsRunning e) (ce_Servers e) v))].

Definition zero_entry : clusterListEntry := mkentry "" 0 0 0 0.

(** [null] is an empty list, and a zero entry in one. *)
Definition decode_entry (j : json) : option clusterListEntry :=
  match j with JNull => Some zero_entry | _ => decode_struct entry_fields zero_entry j end.

Definition decode_clusters (out : string) : option (list clusterListEntry) :=
  j ← parse_json out;
  match j with JArr l => mapM decode_entry l | JNull => Some [] | _ => None end.

Definition listClusters : up (result (list clusterListEntry)) :=
  do! out ← wrapP "k3d cluster list: %w" [] (Output "k3d" ["cluster"; "list"; "-o"; "json"]);
  Ret (match decode_clusters out with
       | Some l => Ok l
       | None => Err (Fmt "parse k3d cluster list: %w" [TErr decode_error])
       end).

Section Driver.
Variable d : Driver.

Definition create_args : list string :=
  ["cluster"; "create"; dr_name d; "--image"; dr_image d; "--no-lb"; "--wait"; "--timeout"; "120s"; "--k3s-arg"; "--disable=traefik@server:0"].

Definition write_kubeconfig : up (result unit) :=
  if String.eqb (dr_kubecfg d) "" then Ret (Ok tt)
  else
    do! out ← wrapP "k3d kubeconfig get: %w" [] (Output "k3d" ["kubeconfig"; "get"; dr_name d]);
    do! _ ← ufs (fails (call (MkdirAll (Dir (dr_kubecfg d)) 493)));
    ufs (fails (call (WriteFile (dr_kubecfg d) out 384))).

Definition Ensure : up (result unit) :=
  do! entries ← listClusters;
  do! _ ← (if existsb (fun e => String.eqb (ce_Name e) (dr_name d)) entries then Ret (Ok "")
           else wrapP "k3d cluster create: %w" [] (Output "k3d" create_args));
  write_kubeconfig.

Record Status := mkStatus { st_Exists : bool; st_Running : bool; st_Detail : string }.

Definition status_of (entries : list clusterListEntry) : Status :=
  match List.find (fun e => String.eqb (ce_Name e) (dr_name d)) entries with
  | Some e =>
    mkStatus true (1 <=? ce_ServersRunning e)%Z
      ("servers=" +:+ itoa (ce_ServersRunning e) +:+ "/" +:+ itoa (ce_Servers e) +:+ " agents=" +:+ itoa (ce_AgentsRunning e) +:+ "/" +:+ itoa (ce_Agents e))
  | None => mkStatus false false ""
  end.

Definition driver_Status : up (result Status) := do! entries ← listClusters; Ret (Ok (status_of entries)).

Definition Delete : up (result unit) :=
  do! st ← driver_Status;
  if negb (st_Exists st) then Ret (Ok tt)
  else
    do! _ ← wrapP "k3d cluster delete: %w" [] (Output "k3d" ["cluster"; "delete"; dr_name d]);
    _ ← (if String.eqb (dr_kubecfg d) "" then Ret tt else ufs (ignore (call (Remove (dr_kubecfg d)))));
    Ret (Ok tt).
End Driver.

(** ** internal/cluster/tekton *)
Definition DefaultTektonVersion : string := "v1.15.5".
Definition tektonNamespace : string := "tekton-pipelines".
Definition pipelinesInfoName : string := "pipelines-info".
Definition tektonDeployments : list string := ["tekton-pipelines-controller"; "tekton-pipelines-webhook"].

(** The clients are there or not. *)
Record Installer := mkInstaller {
  in_Kubeconfig : string;
  in_Apiext : bool;
  in_Kube : bool;
  in_Version : string;
  in_Timeout : Z;
  in_installed : string;
}.

Definition tekton_New (kubeconfig : string) (apiext kube : bool) (version : string) (timeout : Z) : Installer :=
  mkInstaller kubeconfig apiext kube (if String.eqb version "" then DefaultTektonVersion else version)
    (if (timeout =? 0)%Z then 180 * Second else timeout)%Z "".

Definition ReadInstalledVersion : up (result string) :=
  cm ← call (GetConfigMap tektonNamespace pipelinesInfoName);
  Ret (match cm with
       | NotFound e | Failed e => Err (Fmt "get %s/%s: %w" [TStr tektonNamespace; TStr pipelinesInfoName; TErr e])
       | Got data =>
         let v := trim_space (default "" (data !! "version")) in
         if String.eqb v "" then Err (Fmt "%s/%s has no data.version" [TStr tektonNamespace; TStr pipelinesInfoName]) else Ok v
       end).

Definition sameVersion (a b : string) : bool := String.eqb (trim_prefix (trim_space a) "v") (trim_prefix (trim_space b) "v").

Definition deploymentRolledOut (d : Deployment) : bool :=
  (dp_Generation d <=? dp_ObservedGeneration d)%Z && (0 <? dp_Replicas d)%Z && (dp_ReadyReplicas d =? dp_Replicas d)%Z && (dp_UpdatedReplicas d =? dp_Replicas d)%Z.

Definition release_url (version : string) : string := "https://github.com/tektoncd/pipeline/releases/download/" +:+ version +:+ "/release.yaml".

(** The loop over the deployments: whether one is missing. *)
Fixpoint missing_deployment (names : list string) : up (result bool) :=
  match names with
  | [] => Ret (Ok false)
  | name :: names =>
    r ← call (GetDeployment tektonNamespace name);
    match r with
    | NotFound _ => Ret (Ok true)
    | Failed e => Ret (Err (Fmt "check deployment %s/%s: %w" [TStr tektonNamespace; TStr name; TErr e]))
    | Got _ => missing_deployment names
    end
  end.

Definition feature_flags : gmap string string := {["enable-step-actions" := "true"; "enable-api-fields" := "alpha"]}.

(** The polling loop has no bound but the deadline, which [rollout_rounds] rounds reach;
    [still_waiting] is no answer of the program. *)
Definition still_waiting : text := Sentinel "tekton: still waiting".
Definition poll_interval : Z := 2 * Second.

Fixpoint wait_rollout (name : string) (deadline : Z) (fuel : nat) : up (result unit) :=
  match fuel with
  | O => Ret (Err still_waiting)
  | S fuel =>
    d ← call (GetDeployment tektonNamespace name);
    if match d with Got d => deploymentRolledOut d | _ => false end then Ret (Ok tt)
    else
      now ← now_;
      if (deadline <? now)%Z then Ret (Err (Fmt "timeout waiting for deployment %q in tekton-pipelines" [TStr name]))
      else
        w ← call (Wait poll_interval);
        match w with Some e => Ret (Err (ctx_text e)) | None => wait_rollout name deadline fuel end
  end.

Section Installer.
Context `{MapRange}.
Variable i : Installer.

Definition needsApply : up (result bool) :=
  if negb (in_Apiext i) then Ret (Ok true)
  else
    crd ← call (GetCRD "pipelines.tekton.dev");
    match crd with
    | NotFound _ => Ret (Ok true)
    | Failed e => Ret (Err (Fmt "check tekton CRD: %w" [TErr e]))
    | Got _ =>
      if negb (in_Kube i) then Ret (Ok false)
      else
        do! missing ← missing_deployment tektonDeployments;
        if (missing : bool) then Ret (Ok true)
        else
          cm ← call (GetConfigMap tektonNamespace pipelinesInfoName);
          Ret (match cm with
               | NotFound _ => Ok true
               | Failed e => Err (Fmt "get %s/%s: %w" [TStr tektonNamespace; TStr pipelinesInfoName; TErr e])
               | Got data => Ok (negb (sameVersion (default "" (data !! "version")) (in_Version i)))
               end)
    end.

Definition rollout_rounds : nat := Z.to_nat (in_Timeout i / poll_interval) + 2.

Definition waitReady : up (result unit) :=
  if negb (in_Kube i) then Ret (Ok tt)
  else
    now ← now_;
    foldT (fun _ name => wait_rollout name (now + in_Timeout i)%Z rollout_rounds) tt tektonDeployments.

(** One flag: the data, and whether it has changed. *)
Definition set_flag (acc : gmap string string * bool) (kv : string * string) : gmap string string * bool :=
  if String.eqb (default "" (acc.1 !! kv.1)) kv.2 then acc else (<[kv.1 := kv.2]> acc.1, true).

Definition enableFeatureFlags : up (result unit) :=
  let ns := "tekton-pipelines" in
  let cmName := "feature-flags" in
  if negb (in_Kube i) then Ret (Ok tt)
  else
    cm ← call (GetConfigMap ns cmName);
    match cm with
    | NotFound _ => wrapP "create %s/%s: %w" [TStr ns; TStr cmName] (call (CreateConfigMap ns cmName feature_flags))
    | Failed e => Ret (Err (Fmt "get %s/%s: %w" [TStr ns; TStr cmName; TErr e]))
    | Got data =>
      let '(data, dirty) := foldl set_flag (data, false) (map_range feature_flags) in
      if negb dirty then Ret (Ok tt)
      else wrapP "update %s/%s: %w" [TStr ns; TStr cmName] (call (UpdateConfigMap ns cmName data))
    end.

(** The result, and [installed] afterwards. *)
Definition Install : up (result unit * string) :=
  need ← needsApply;
  applied ← match need with
    | Err e => Ret (Err e)
    | Ok need =>
      if (need : bool) then wrapP "apply tekton release: %w" [] (Output "kubectl" ["--kubeconfig"; in_Kubeconfig i; "apply"; "-f"; release_url (in_Version i)])
      else Ret (Ok "")
    end;
  ready ← match applied with Err e => Ret (Err e) | Ok _ => waitReady end;
  match ready with
  | Err e => Ret (Err e, in_installed i)
  | Ok _ =>
    installed ← (if in_Kube i then v ← ReadInstalledVersion; Ret (match v with Ok v => v | Err _ => in_installed i end) else Ret (in_installed i));
    r ← enableFeatureFlags;
    Ret (r, installed)
  end.
End Installer.

(** ** internal/backend/cluster/cluster.go *)

(** Whether the dynamic client is set: it is after its construction, also when that
    failed, since a nil pointer in an interface is not nil.  The driver may be missing. *)
Record cluster_backend := mkcluster_backend {
  cb_CacheDir : string;
  cb_Driver : option Driver;
  cb_TektonVersion : string;
  cb_Dynamic : bool;
}.

Definition cluster_New (cacheDir : string) (driver : option Driver) (tektonVersion : string) : cluster_backend :=
  mkcluster_backend (if String.eqb cacheDir "" then ".cache/tkn-act" else cacheDir) driver
    (if String.eqb tektonVersion "" then DefaultTektonVersion else tektonVersion) false.

Definition with_dynamic (b : cluster_backend) (v : bool) : cluster_backend := mkcluster_backend (cb_CacheDir b) (cb_Driver b) (cb_TektonVersion b) v.

Section Prepare.
Context `{MapRange}.

(** The result, and the backend with the clients it got. *)
Definition Prepare (b : cluster_backend) : up (result unit * cluster_backend) :=
  if cb_Dynamic b then Ret (Ok tt, b)
  else
    match cb_Driver b with
    | None => Ret (Err (lit "cluster.Backend: no Driver configured"), b)
    | Some d =>
      let kubecfgPath := if String.eqb (dr_kubecfg d) "" then Join [cb_CacheDir b; "cluster"; "kubeconfig"] else dr_kubecfg d in
      r ← (do! _ ← wrapP "cluster ensure: %w" [] (Ensure d); wrapP "load kubeconfig: %w" [] (call (LoadKubeconfig kubecfgPath)));
      match r with
      | Err e => Ret (Err e, b)
      | Ok _ =>
        r ← (do! _ ← call (NewClient "dynamic");
             do! _ ← call (NewClient "kubernetes");
             do! _ ← call (NewClient "apiextensions");
             wrapP "tekton install: %w" []
               (r ← Install (tekton_New kubecfgPath true true (cb_TektonVersion b) (3 * Minute)); Ret r.1));
        Ret (r, with_dynamic b true)
      end
    end.
End Prepare.

(** ** cmd/tkn-act/cluster.go *)
Section Commands.
Context `{MapRange}.
Variables (lookup_env : string -> option string) (gf : globalFlags).

Definition println_ (s : string) : up unit := call (Print (Fmt ("%s" +:+ String "010" "") [TStr s])).

(** The clients for the version are built from the kubeconfig: nil when that fails. *)
Definition kubeClientFor (kubeconfig : string) : up bool :=
  cfg ← call (LoadKubeconfig kubeconfig);
  match cfg with
  | Err _ => Ret false
  | Ok _ => c ← call (NewClient "kubernetes"); Ret (match c with Ok _ => true | Err _ => false end)
  end.

Definition installedTektonVersion (kube : bool) (requested : string) : up string :=
  let fallback := requested +:+ " (requested; installed version could not be read)" in
  if kube then v ← ReadInstalledVersion; Ret (match v with Ok v => v | Err _ => fallback end) else Ret fallback.

Definition newDriver : Driver := k3d_New "tkn-act" (Join [cacheDir lookup_env; "cluster"; "kubeconfig"]) "".

Definition cluster_up (tektonVersion : string) : up (unit + goerror) :=
  let drv := newDriver in
  let version := resolveTektonVersion lookup_env DefaultTektonVersion tektonVersion in
  '(r, _) ← Prepare (cluster_New (cacheDir lookup_env) (Some drv) version);
  match r with
  | Err e => Ret (inr (Coded Env (Plain e)))
  | Ok _ =>
    _ ← println_ ("cluster ready:    " +:+ dr_name drv);
    _ ← println_ ("kubeconfig:       " +:+ dr_kubecfg drv);
    kube ← kubeClientFor (dr_kubecfg drv);
    v ← installedTektonVersion kube version;
    _ ← println_ ("tekton version:   " +:+ v);
    Ret (inl tt)
  end.

Definition cluster_down (yes : bool) : up (unit + goerror) :=
  let drv := newDriver in
  go ← (if yes then Ret true
        else
          _ ← call (Print (Fmt "delete cluster %s? [y/N] " [TStr (dr_name drv)]));
          ans ← call ReadLine;
          Ret (String.eqb (to_lower (trim_space ans)) "y"));
  if negb go then Ret (inr (Coded Usage (Plain (lit "cancelled"))))
  else r ← Delete drv; Ret (match r with Ok _ => inl tt | Err e => inr (Coded Env (Plain e)) end).

Definition bool_text (b : bool) : string := if b then "true" else "false".

Definition status_json (drv : Driver) (st : Status) : json :=
  JObj ([("name", JStr (dr_name drv)); ("exists", JBool (st_Exists st)); ("running", JBool (st_Running st))] ++
        omit_empty "detail" (st_Detail st) ++ [("kubeconfig", JStr (dr_kubecfg drv))]).

Definition cluster_status : up (unit + goerror) :=
  let drv := newDriver in
  r ← driver_Status drv;
  match r with
  | Err e => Ret (inr (Coded Env (Plain e)))
  | Ok st =>
    _ ← (if String.eqb (gf_output gf) "json" then call (Print (Fmt "%s" [TStr (Encode (status_json drv st))]))
         else
           _ ← println_ ("cluster:     " +:+ dr_name drv);
           _ ← println_ ("exists:      " +:+ bool_text (st_Exists st));
           _ ← println_ ("running:     " +:+ bool_text (st_Running st));
           _ ← (if String.eqb (st_Detail st) "" then Ret tt else println_ ("detail:      " +:+ st_Detail st));
           println_ ("kubeconfig:  " +:+ dr_kubecfg drv));
    Ret (inl tt)
  end.

(** ** cmd/tkn-act/doctor.go *)
Definition checkCacheDir (path : string) : up doctorCheck :=
  let failed d := mkdoctorCheck "cache_dir" false d "default" in
  r ← call (UFs (MkdirAll path 493));
  match r with
  | inr e => Ret (failed (Fmt "cannot create %s: %v" [TStr path; TErr (errno_text e)]))
  | inl _ =>
    let probe := Join [path; ".doctor-write-probe"] in
    r ← call (UFs (WriteFile probe "ok" 420));
    match r with
    | inr e => Ret (failed (Fmt "not writable: %v" [TErr (errno_text e)]))
    | inl _ => _ ← call (UFs (Remove probe)); Ret (mkdoctorCheck "cache_dir" true (Fmt "%s" [TStr path]) "default")
    end
  end.

Definition checkDocker : up doctorCheck :=
  r ← call Ping;
  Ret (match r with
       | Err e => mkdoctorCheck "docker" false e "default"
       | Ok version => mkdoctorCheck "docker" true (Fmt "API %s" [TStr version]) "default"
       end).

(** The first line, at most 120 bytes of it. *)
Definition versionOf (bin : string) : up (result string) :=
  out ← call (Combined bin ["version"]);
  out ← match out with Ok _ => Ret out | Err _ => call (Combined bin ["version"; "--client"]) end;
  Ret (match out with
       | Err e => Err e
       | Ok out =>
         let line := trim_space (match split_n out (String "010" "") 2 with l :: _ => l | [] => "" end) in
         Ok (if 120 <? String.length line then substring 0 120 line else line)
       end).

Definition checkBinaryOnPath (name requiredFor : string) : up doctorCheck :=
  p ← call (LookPath name);
  match p with
  | Err _ => Ret (mkdoctorCheck name false (lit "not found on PATH") requiredFor)
  | Ok p =>
    v ← versionOf p;
    Ret (mkdoctorCheck name true (Fmt "%s" [TStr (match v with Ok v => if String.eqb v "" then p else v | Err _ => p end)]) requiredFor)
  end.

Record doctorReport := mkdoctorReport { rp_OK : bool; rp_CacheDir : string; rp_Checks : list doctorCheck }.

Definition buildDoctorReport : up doctorReport :=
  let dir := cacheDir lookup_env in
  c1 ← checkCacheDir dir;
  c2 ← checkDocker;
  c3 ← checkBinaryOnPath "k3d" "cluster";
  c4 ← checkBinaryOnPath "kubectl" "cluster";
  let checks := [c1; c2; c3; c4] in
  Ret (mkdoctorReport (negb (existsb (fun c => negb (dc_OK c) && String.eqb (dc_RequiredFor c) "default") checks)) dir checks).

Definition no_detail (t : text) : bool := match t with Fmt "" [] | Fmt "%s" [TStr ""] => true | _ => false end.

Definition print_check (c : doctorCheck) : up unit :=
  let mark := if dc_OK c then "OK " else "FAIL" in
  let req := if String.eqb (dc_RequiredFor c) "" then "" else " (required for: " +:+ dc_RequiredFor c +:+ ")" in
  call (Print (if no_detail (dc_Detail c) then Fmt ("  [%s] %s%s" +:+ String "010" "") [TStr mark; TStr (dc_Name c); TStr req]
               else Fmt ("  [%s] %s%s — %s" +:+ String "010" "") [TStr mark; TStr (dc_Name c); TStr req; TErr (dc_Detail c)])).

(** The version and the platform are those of the build. *)
Definition printDoctorReport (version os arch : string) (r : doctorReport) : up unit :=
  _ ← println_ ("tkn-act " +:+ version +:+ " on " +:+ os +:+ "/" +:+ arch);
  _ ← println_ ("cache dir: " +:+ rp_CacheDir r);
  _ ← foldP (fun _ c => print_check c) tt (rp_Checks r);
  println_ (String "010" "" +:+ (if rp_OK r then "ready to run pipelines" else "one or more required checks failed")).

Definition doctor (version os arch : string) : up (unit + goerror) :=
  rep ← buildDoctorReport;
  _ ← (if String.eqb (gf_output gf) "json" then call (EmitReport (rp_OK rep) (rp_CacheDir rep) (rp_Checks rep)) else printDoctorReport version os arch rep);
  Ret (if rp_OK rep then inl tt else inr (Coded Env (Plain (lit "environment check failed")))).
End Commands.
