(* ===== verification/ClusterUpProps.v ===== *)
(** * internal/cluster: what the installer, the driver and doctor guarantee

    For all answers of kubectl, k3d, the API server and the file system. *)

From S2P Require Import ExitCode Prelude GoStrings GoTime Paths Effects Fs Json JsonText RunIndex Cli ClusterUp.

(** ** What a program changes *)
Inductive effect : Type :=
  | ERun (name : string) (args : list string) (ok : bool)
  | EWrite (cm : string) (data : gmap string string) (ok : bool)
  | EFile (p data : string) (mode : Z) (ok : bool)
  | ERemove (p : string).

Definition okb {A} (r : result A) : bool := match r with Ok _ => true | Err _ => false end.
Definition inlb {A B} (r : A + B) : bool := match r with inl _ => true | inr _ => false end.

Definition effect_of (e : ev UpE) : option effect :=
  match e with
  | Ev c a =>
    (match c in UpE X return X -> option effect with
     | Exec name args => fun a => Some (ERun name args (match a.2 with None => true | Some _ => false end))
     | CreateConfigMap _ n data => fun a => Some (EWrite n data (okb a))
     | UpdateConfigMap _ n data => fun a => Some (EWrite n data (okb a))
     | UFs c =>
       match c in FsE X return X -> option effect with
       | WriteFile p data mode => fun a => Some (EFile p data mode (inlb a))
       | Remove p => fun _ => Some (ERemove p)
       | _ => fun _ => None
       end
     | _ => fun _ => None
     end) a
  end.

Definition effects (t : list (ev UpE)) : list effect := omap effect_of t.

Lemma effects_app t t' : effects (t ++ t') = effects t ++ effects t'.
Proof. apply omap_app. Qed.

(** What was read of it. *)
Definition saw {X} (c : UpE X) (a : X) (t : list (ev UpE)) : Prop := Ev c a ∈ t.

Lemma saw_r {X} (c : UpE X) a t t' : saw c a t' -> saw c a (t ++ t').
Proof. unfold saw. set_solver. Qed.

Lemma saw_l {X} (c : UpE X) a t t' : saw c a t -> saw c a (t ++ t').
Proof. unfold saw. set_solver. Qed.

Lemma saw_next {X} (c : UpE X) a e t : saw c a t -> saw c a (e :: t).
Proof. by right. Qed.

(** ** The installer *)

(** The requested release is there, by what was read. *)
Definition up_to_date (i : Installer) (t : list (ev UpE)) : Prop :=
  in_Apiext i = true /\ saw (GetCRD "pipelines.tekton.dev") (Got tt) t /\
  (in_Kube i = true ->
    (forall name, name ∈ tektonDeployments -> exists d, saw (GetDeployment tektonNamespace name) (Got d) t) /\
    exists data, saw (GetConfigMap tektonNamespace pipelinesInfoName) (Got data) t /\ sameVersion (default "" (data !! "version")) (in_Version i) = true).

Lemma missing_deployment_post names :
  post (missing_deployment names) (fun t r => effects t = [] /\
    (r = Ok false -> forall name, name ∈ names -> exists d, saw (GetDeployment tektonNamespace name) (Got d) t) /\
    (r = Ok true -> exists name e, name ∈ names /\ saw (GetDeployment tektonNamespace name) (NotFound e) t)).
Proof.
  induction names as [|name names IH]; [apply post_ret; split_and!; [done|intros _ n Hn; by apply not_elem_of_nil in Hn|done]|].
  cbn [missing_deployment]. apply post_bind, post_call. intros [d|e|e]; apply post_ret.
  - eapply post_mono; [apply IH|]. intros t r (He & H1 & H2). split_and!.
    + by rewrite effects_app, He.
    + intros Hr n [->|Hn]%elem_of_cons; [exists d; by left|]. destruct (H1 Hr n Hn) as [d' Hd']. exists d'. by right.
    + intros Hr. destruct (H2 Hr) as (n & x & Hn & Hx). exists n, x. split; by right.
  - apply post_ret. split_and!; [done|done|]. intros _. exists name, e. split; by left.
  - apply post_ret. done.
Qed.

(** What makes an apply necessary. *)
Definition outdated (i : Installer) (t : list (ev UpE)) : Prop :=
  in_Apiext i = false \/ (exists e, saw (GetCRD "pipelines.tekton.dev") (NotFound e) t) \/
  (exists name e, name ∈ tektonDeployments /\ saw (GetDeployment tektonNamespace name) (NotFound e) t) \/
  (exists e, saw (GetConfigMap tektonNamespace pipelinesInfoName) (NotFound e) t) \/
  (exists data, saw (GetConfigMap tektonNamespace pipelinesInfoName) (Got data) t /\ sameVersion (default "" (data !! "version")) (in_Version i) = false).

Lemma needsApply_post i :
  post (needsApply i) (fun t r => effects t = [] /\ (r = Ok false -> up_to_date i t) /\ (r = Ok true -> outdated i t)).
Proof.
  unfold needsApply. destruct (in_Apiext i) eqn:Ha; cbn [negb].
  2:{ apply post_ret. split_and!; [done|done|]. intros _. by left. }
  apply post_bind, post_call. intros [[]|e|e]; apply post_ret.
  2:{ apply post_ret. split_and!; [done|done|]. intros _. right. left. exists e. by left. }
  2:{ by apply post_ret. }
  destruct (in_Kube i) eqn:Hk; cbn [negb].
  2:{ apply post_ret. split_and!; [done| |done]. intros _. split_and!; [done|by left|]. intros Hk'. by rewrite Hk in Hk'. }
  apply post_try. eapply post_mono; [apply missing_deployment_post|]. intros t [[|]|x] (He & H1 & H2).
  - apply post_ret. rewrite !effects_app, He. split_and!; [done|done|]. intros _. do 2 right. left.
    destruct (H2 eq_refl) as (n & e & Hn & Hs). exists n, e. split; [done|]. by apply saw_next, saw_l.
  - apply post_bind, post_call. intros [data|e|e]; apply post_ret; apply post_ret; rewrite !effects_app, He; split_and!; try done.
    + intros [= Hv]. apply negb_false_iff in Hv. split_and!; [done|by left|]. intros _. split.
      * intros n Hn. destruct (H1 eq_refl n Hn) as [d Hd]. exists d. by apply saw_next, saw_l.
      * exists data. split; [|done]. apply saw_next, saw_r. by left.
    + intros [= Hv]. apply negb_true_iff in Hv. do 4 right. exists data. split; [|done]. apply saw_next, saw_r. by left.
    + intros _. do 3 right. left. exists e. apply saw_next, saw_r. by left.
  - rewrite effects_app, He. done.
Qed.

Definition rolled_out (name : string) (t : list (ev UpE)) : Prop :=
  exists d, saw (GetDeployment tektonNamespace name) (Got d) t /\ deploymentRolledOut d = true.

Lemma wait_rollout_post name deadline fuel :
  post (wait_rollout name deadline fuel) (fun t r => effects t = [] /\ (r = Ok tt -> rolled_out name t)).
Proof.
  induction fuel as [|fuel IH]; [by apply post_ret|]. cbn [wait_rollout]. apply post_bind, post_call. intros d; apply post_ret.
  destruct (match d with Got d => deploymentRolledOut d | _ => false end) eqn:Hd.
  { apply post_ret. split; [done|]. intros _. destruct d as [d|e|e]; [|done..]. exists d. split; [by left|done]. }
  apply post_bind, post_call. intros now; apply post_ret. destruct (deadline <? now)%Z; [by apply post_ret|].
  apply post_bind, post_call. intros [e|]; apply post_ret; [by apply post_ret|].
  eapply post_mono; [apply IH|]. intros t r [He Hr]. split; [by rewrite !effects_app, He|]. intros [d' [Hs Hr']]%Hr. exists d'.
  split; [|done]. by do 3 apply saw_r.
Qed.

Lemma waitReady_post i :
  post (waitReady i) (fun t r => effects t = [] /\ (r = Ok tt -> in_Kube i = true -> forall name, name ∈ tektonDeployments -> rolled_out name t)).
Proof.
  unfold waitReady. destruct (in_Kube i); cbn [negb]; [|by apply post_ret]. apply post_bind, post_call. intros now; apply post_ret.
  assert (forall l u, post (foldT (fun (_ : unit) name => wait_rollout name (now + in_Timeout i)%Z (rollout_rounds i)) u l)
    (fun t r => effects t = [] /\ (r = Ok tt -> forall name, name ∈ l -> rolled_out name t))) as Hl.
  { induction l as [|n l IH]; intros u; [apply post_ret; split; [done|]; intros _ n Hn; by apply not_elem_of_nil in Hn|]. cbn [foldT].
    apply post_try. eapply post_mono; [apply wait_rollout_post|]. intros t [[]|e] [He Hr]; [|done]. eapply post_mono; [apply IH|].
    intros t' r' [He' Hr']. split; [by rewrite effects_app, He, He'|]. intros Hok m [->|Hm]%elem_of_cons.
    - destruct (Hr eq_refl) as (d & Hd & Hd'). exists d. split; [by apply saw_l|done].
    - destruct (Hr' Hok m Hm) as (d & Hd & Hd'). exists d. split; [by apply saw_r|done]. }
  eapply post_mono; [apply Hl|]. intros t r [He Hr]. split; [by rewrite effects_app, He|]. intros Hok _ n Hn.
  destruct (Hr Hok n Hn) as (d & Hd & Hd'). exists d. split; [by apply saw_r|done].
Qed.

(** *** The feature flags *)
Lemma set_flag_fold l data dirty :
  NoDup l.*1 -> (forall kv, kv ∈ l -> kv.2 <> "") ->
  foldl set_flag (data, dirty) l = (list_to_map l ∪ data, dirty || negb (forallb (fun kv => bool_decide (data !! kv.1 = Some kv.2)) l)).
Proof.
  revert data dirty. induction l as [|[k v] l IH]; intros data dirty Hd Hv; [cbn; by rewrite (left_id_L ∅ (∪)), orb_false_r|].
  cbn [fmap list_fmap fst] in Hd. apply NoDup_cons in Hd as [Hk Hd]. cbn [foldl]. unfold set_flag at 2. cbn [fst snd forallb].
  assert (v <> "") as Hve by by apply (Hv (k, v)); left.
  assert (String.eqb (default "" (data !! k)) v = bool_decide (data !! k = Some v)) as ->.
  { destruct (decide (data !! k = Some v)) as [E|E].
    - rewrite bool_decide_true, E by done. cbn. apply String.eqb_refl.
    - rewrite bool_decide_false by done. apply String.eqb_neq. destruct (data !! k); cbn; intros Hx; [apply E; by rewrite Hx|by destruct Hve]. }
  assert (forall kv, kv ∈ l -> kv.2 <> "") as Hv' by (intros kv Hkv; apply Hv; by right). destruct (bool_decide (data !! k = Some v)) eqn:E.
  - rewrite (IH data dirty Hd Hv'). apply bool_decide_eq_true in E. cbn [andb]. f_equal. rewrite list_to_map_cons, <-insert_union_l. apply map_eq. intros j.
    destruct (decide (j = k)) as [->|Hj]; [rewrite lookup_insert_eq|by rewrite lookup_insert_ne].
    rewrite lookup_union, (not_elem_of_list_to_map_1 l k Hk), E. done.
  - rewrite (IH _ true Hd Hv'). cbn [andb negb orb]. rewrite orb_true_r. f_equal. rewrite list_to_map_cons, <-insert_union_l, <-insert_union_r; [done|].
    by apply not_elem_of_list_to_map_1.
Qed.

(** The flags, and every other key as it was: [old] is what was read, empty when there was
    none. *)
Definition flags_set (old : gmap string string) (l : list effect) : Prop :=
  l = if decide (feature_flags ⊆ old) then [] else [EWrite "feature-flags" (feature_flags ∪ old) true].

Lemma flags_subseteq old `{MapRange} :
  forallb (fun kv => bool_decide (old !! kv.1 = Some kv.2)) (map_range feature_flags) = bool_decide (feature_flags ⊆ old).
Proof.
  apply eq_true_iff_eq. rewrite forallb_forall, bool_decide_eq_true. split.
  - intros Ha. apply map_subseteq_spec. intros k v Hk. apply elem_of_map_to_list in Hk. rewrite <-map_range_perm in Hk.
    apply list_elem_of_In in Hk. by apply Ha, bool_decide_eq_true in Hk.
  - intros Hs [k v] Hk. apply list_elem_of_In in Hk. rewrite map_range_perm in Hk. apply elem_of_map_to_list in Hk.
    apply bool_decide_eq_true. cbn. by apply (lookup_weaken _ _ _ _ Hk).
Qed.

Lemma set_flags `{MapRange} data :
  foldl set_flag (data, false) (map_range feature_flags) = (feature_flags ∪ data, negb (bool_decide (feature_flags ⊆ data))).
Proof.
  rewrite set_flag_fold.
  - cbn [orb]. rewrite flags_subseteq. do 2 f_equal. rewrite (list_to_map_proper _ (map_to_list feature_flags)); [apply list_to_map_to_list| |apply map_range_perm].
    rewrite map_range_perm. apply NoDup_fst_map_to_list.
  - rewrite map_range_perm. apply NoDup_fst_map_to_list.
  - intros [k v] Hk. rewrite map_range_perm in Hk. apply elem_of_map_to_list in Hk. unfold feature_flags in Hk.
    apply lookup_insert_Some in Hk as [[_ <-]|[_ [_ <-]%lookup_singleton_Some]]; done.
Qed.

(** At most one write, and only of the flags. *)
Definition flag_effects (l : list effect) : Prop := l = [] \/ exists data ok, l = [EWrite "feature-flags" data ok].

Lemma enableFeatureFlags_post `{MapRange} i :
  post (enableFeatureFlags i) (fun t r => flag_effects (effects t) /\
    (in_Kube i = false -> effects t = []) /\
    (r = Ok tt -> in_Kube i = true -> exists old, flags_set old (effects t) /\
      (saw (GetConfigMap "tekton-pipelines" "feature-flags") (Got old) t \/
       old = ∅ /\ exists e, saw (GetConfigMap "tekton-pipelines" "feature-flags") (NotFound e) t))).
Proof.
  unfold enableFeatureFlags. destruct (in_Kube i); cbn [negb]; [|apply post_ret; split_and!; [by left|done|done]].
  cbv zeta. apply post_bind, post_call. intros [data|e|e]; apply post_ret.
  - rewrite set_flags. destruct (decide (feature_flags ⊆ data)) as [Hs|Hs].
    + rewrite bool_decide_true by done. cbn [negb]. apply post_ret. split_and!; [by left|done|]. intros _ _. exists data.
      split; [unfold flags_set; by rewrite decide_True|]. left. by left.
    + rewrite bool_decide_false by done. cbn [negb]. apply post_wrap, post_call. intros x. apply post_ret. split_and!; [right; by eexists _, _|done|].
      destruct x as [[]|x]; [|done]. intros _ _. exists data. split; [unfold flags_set; by rewrite decide_False|]. left. by left.
  - apply post_wrap, post_call. intros x. apply post_ret. split_and!; [right; by eexists _, _|done|]. destruct x as [[]|x]; [|done].
    intros _ _. exists ∅. split; [|right; split; [done|]; exists e; by left]. unfold flags_set. rewrite decide_False; [by rewrite (right_id_L ∅ (∪))|].
    intros Hs. assert (feature_flags !! "enable-api-fields" = Some "alpha") as Hf by (vm_compute; reflexivity).
    by pose proof (lookup_weaken _ _ _ _ Hf Hs).
  - apply post_ret. split_and!; [by left|done|done].
Qed.

(** *** Install *)
Definition apply_args (i : Installer) : list string := ["--kubeconfig"; in_Kubeconfig i; "apply"; "-f"; release_url (in_Version i)].

(** Nothing but one apply of the release, and behind it one write of the flags. *)
Definition install_effects (i : Installer) (l : list effect) : Prop :=
  exists applied flags, l = applied ++ flags /\ (applied = [] \/ exists ok, applied = [ERun "kubectl" (apply_args i) ok]) /\ flag_effects flags.

(** The one call that applies the release, with success. *)
Definition the_apply (i : Installer) (t : list (ev UpE)) : Prop :=
  exists a, t = [Ev (Exec "kubectl" (apply_args i)) a] /\ a.2 = None.

(** What a success means, by the parts of the calls: what is there is read; the apply, if
    what was read asks for one; the rollouts; the flags. *)
Definition installed_well (i : Installer) (t : list (ev UpE)) : Prop :=
  exists t1 ta t2 t3, t = t1 ++ ta ++ t2 ++ t3 /\ effects t1 = [] /\ effects t2 = [] /\
    (ta = [] /\ up_to_date i t1 \/ the_apply i ta /\ outdated i t1) /\
    (in_Kube i = false -> effects t3 = []) /\
    (in_Kube i = true ->
      (forall name, name ∈ tektonDeployments -> rolled_out name t2) /\
      exists old, flags_set old (effects t3) /\
        (saw (GetConfigMap "tekton-pipelines" "feature-flags") (Got old) t3 \/
         old = ∅ /\ exists e, saw (GetConfigMap "tekton-pipelines" "feature-flags") (NotFound e) t3)).

Lemma quiet_effects {A} (p : up A) : (calls (fun X e => forall x, effect_of (Ev e x) = None) p) -> post p (fun t _ => effects t = []).
Proof.
  intros Hp. eapply post_mono; [by apply calls_post|]. intros t a H. cbn beta in H. induction H as [|[X e x] l He Hl IH]; [done|].
  unfold effects in *. cbn [omap list_omap]. cbn beta iota in He. change (effect_of (Ev e x)) with (effect_of (Ev (ev_call (Ev e x)) x)). by rewrite (He x).
Qed.

Lemma apply_post i : post (wrapP "apply tekton release: %w" [] (Output "kubectl" (apply_args i)))
  (fun t r => effects t = [ERun "kubectl" (apply_args i) (okb r)] /\ (is_ok r = true -> the_apply i t)).
Proof.
  apply post_wrap. unfold Output. apply post_bind, post_call. intros [[out err] [e|]]; apply post_ret; apply post_ret; [done|].
  split; [done|]. intros _. by eexists.
Qed.

Lemma installed_quiet i : post (if in_Kube i then v ← ReadInstalledVersion; Ret (match v with Ok v => v | Err _ => in_installed i end) else Ret (in_installed i))
  (fun t _ => effects t = []).
Proof. apply quiet_effects. destruct (in_Kube i); [|done]. apply calls_bind; [|done]. by apply calls_bind. Qed.

(** C15: installing Tekton applies the release exactly when what is there is not the requested
    version in full (its CRD, both deployments, the version it reports), and changes nothing
    else but the feature flags, behind the apply; it reports success only when both
    deployments were seen rolled out behind the apply, and then leaves the ConfigMap with the
    two flags set and every other key as it was, written only when a flag was missing. *)
Theorem Install_correct `{MapRange} i :
  post (Install i) (fun t r => install_effects i (effects t) /\ (r.1 = Ok tt -> installed_well i t)).
Proof.
  unfold Install. apply post_bind. eapply post_mono; [apply needsApply_post|]. intros t1 need (He1 & Hup & Hout).
  apply post_bind. apply (post_mono _ (fun t r => match r, need with
    | Ok _, Ok b => effects t = (if (b : bool) then [ERun "kubectl" (apply_args i) true] else []) /\ if b then the_apply i t else t = []
    | Err _, Ok true => effects t = [ERun "kubectl" (apply_args i) false]
    | Err _, _ => effects t = []
    | _, _ => False end)).
  { destruct need as [[|]|e]; [eapply post_mono; [apply apply_post|]; intros t [s|e] [? Ha]; auto|by apply post_ret|by apply post_ret]. }
  intros t2 applied Ha. apply post_bind. apply (post_mono _ (fun t r => match applied with
    | Err _ => t = [] /\ exists e, r = Err e
    | Ok _ => effects t = [] /\ (r = Ok tt -> in_Kube i = true -> forall name, name ∈ tektonDeployments -> rolled_out name t) end)).
  { destruct applied as [s|e]; [apply waitReady_post|apply post_ret; split; [done|by eexists]]. }
  intros t3 ready Hr. destruct ready as [[]|e].
  2:{ apply post_ret. split; [|done]. rewrite app_nil_r, !effects_app, He1, app_nil_l. exists (effects t2), []. rewrite app_nil_r.
    assert (effects t3 = []) as -> by (destruct applied; [by destruct Hr|by destruct Hr as [-> _]]). rewrite app_nil_r. split; [done|]. split; [|by left].
    destruct applied as [s|x], need as [[|]|y]; try done; (match type of Ha with _ /\ _ => destruct Ha as [Ha _] | _ => idtac end); rewrite Ha; [right; by eexists|by left|right; by eexists|by left|by left]. }
  destruct applied as [s|e]; [|by destruct Hr as [_ [? ?]]]. destruct Hr as [He3 Hroll]. destruct need as [b|]; [|done]. destruct Ha as [Ha Hta].
  apply post_bind. eapply post_mono; [apply installed_quiet|]. intros t4 v He4. apply post_bind.
  eapply post_mono; [apply enableFeatureFlags_post|]. intros t5 r (Hfl & Hnk & Hok). apply post_ret. cbn [fst]. rewrite app_nil_r.
  assert (effects (t2 ++ t3 ++ t4 ++ t5) = effects t2 ++ effects t5) as E by by rewrite !effects_app, He3, He4.
  split.
  - exists (effects t2), (effects t5). rewrite effects_app, He1, E. split_and!; [done| |done]. rewrite Ha. destruct b; [right; by eexists|by left].
  - intros Hr. exists t1, t2, (t3 ++ t4), t5. rewrite <-(assoc_L (++) t3), effects_app, He3, He4. split_and!; [done|done|done| |done|].
    + destruct b; [right|left]; split; try done; [by apply Hout|by apply Hup].
    + intros Hk. split; [|by apply Hok]. intros n Hn. destruct (Hroll eq_refl Hk n Hn) as (d & Hd & Hd'). exists d. split; [|done]. by apply saw_l.
Qed.

(** ** Waiting ends *)

(** A trace that takes place from the time [c] on: the clock does not go back, and a wait
    that is not interrupted lasts as long as it should. *)
Fixpoint timely (c : Z) (t : list (ev UpE)) : Prop :=
  match t with
  | [] => True
  | Ev e a :: t =>
    (match e in UpE X return X -> Prop with
     | UFs e => match e in FsE X return X -> Prop with Now => fun x => (c <= x)%Z /\ timely x t | _ => fun _ => timely c t end
     | Wait d => fun w => match w with None => timely (c + Z.max 0 d)%Z t | Some _ => timely c t end
     | _ => fun _ => timely c t
     end) a
  end.

Lemma timely_later t : forall c c', (c' <= c)%Z -> timely c t -> timely c' t.
Proof.
  induction t as [|[X e a] t IH]; intros c c' Hc; [done|]. cbn [timely]. destruct e as [X e| | | | | | | | |d| | | | | |]; try by apply IH.
  - destruct e; try by apply IH. intros [H1 H2]. split; [lia|done].
  - destruct a; [by apply IH|]. apply IH. lia.
Qed.

Lemma timely_app t : forall c t', timely c (t ++ t') -> timely c t /\ exists c', (c <= c')%Z /\ timely c' t'.
Proof.
  induction t as [|[X e a] t IH]; intros c t'; [intros H; split; [done|]; by exists c|]. cbn [app timely].
  destruct e as [X e| | | | | | | | |d| | | | | |]; try by apply IH.
  - destruct e; try by apply IH. intros [H1 H2]. destruct (IH _ _ H2) as (H3 & c' & Hc' & H4). split; [done|]. exists c'. split; [lia|done].
  - destruct a; [by apply IH|]. intros H. destruct (IH _ _ H) as (H3 & c' & Hc' & H4). split; [done|]. exists c'. split; [lia|done].
Qed.

Lemma exec_call_bind {X B} (e : UpE X) (f : X -> up B) t b : exec (call e ≫= f) t b -> exists x t', t = Ev e x :: t' /\ exec (f x) t' b.
Proof. done. Qed.

(** The round of [fuel] more is not the last. *)
Lemma wait_rollout_ends name deadline fuel : forall t r c,
  exec (wait_rollout name deadline fuel) t r -> timely c t -> (deadline - c < (Z.of_nat fuel - 1) * poll_interval)%Z -> 1 <= fuel -> r <> Err still_waiting.
Proof.
  induction fuel as [|fuel IH]; intros t r c He Ht Hf H1; [lia|]. cbn [wait_rollout] in He.
  apply exec_call_bind in He as (d & t1 & -> & He). cbn [timely] in Ht.
  revert He. destruct (match d with Got d => deploymentRolledOut d | _ => false end); intros He; [by destruct He as [_ ->]|].
  apply exec_call_bind in He as (now & t2 & -> & He). cbn [timely] in Ht. destruct Ht as [Hc Ht].
  revert He. destruct (Z.ltb_spec deadline now) as [Hd|Hd]; intros He; [by destruct He as [_ ->]|].
  apply exec_call_bind in He as (w & t3 & -> & He). cbn [timely] in Ht.
  destruct w as [e|]; [destruct He as [_ ->]; by destruct e|].
  change (Z.max 0 poll_interval) with poll_interval in Ht. assert (0 < poll_interval)%Z by done.
  apply (IH t3 r (now + poll_interval)%Z He Ht); nia.
Qed.

Lemma rollout_rounds_enough i c : (0 <= in_Timeout i)%Z -> (c + in_Timeout i - c < (Z.of_nat (rollout_rounds i) - 1) * poll_interval)%Z.
Proof.
  intros Hi. unfold rollout_rounds. assert (0 < poll_interval)%Z as Hp by done. pose proof (Z.div_pos _ _ Hi Hp).
  rewrite Nat2Z.inj_add, Z2Nat.id by done. pose proof (Z.mod_pos_bound (in_Timeout i) _ Hp). pose proof (Z.div_mod (in_Timeout i) poll_interval ltac:(lia)). nia.
Qed.

Lemma waitReady_ends i t r c : (0 <= in_Timeout i)%Z -> exec (waitReady i) t r -> timely c t -> r <> Err still_waiting.
Proof.
  intros Hi. unfold waitReady. destruct (in_Kube i); cbn [negb]; [|by intros [_ ->]]. intros (now & t1 & -> & He)%exec_call_bind Ht. cbn [timely] in Ht.
  destruct Ht as [_ Ht]. revert t1 r He Ht. pose proof (rollout_rounds_enough i now Hi) as Hf. unfold tektonDeployments.
  assert (forall l u t r c, (now <= c)%Z -> exec (foldT (fun (_ : unit) name => wait_rollout name (now + in_Timeout i)%Z (rollout_rounds i)) u l) t r ->
    timely c t -> r <> Err still_waiting) as H; [|intros t1 r He Ht; by apply (H _ _ _ _ now ltac:(done) He)].
  induction l as [|n l IH]; intros u t r c' Hc He Ht; [by destruct He as [_ ->]|]. cbn [foldT] in He. unfold try_ in He.
  apply exec_bind in He as (t2 & t3 & x & -> & H2 & H3). apply timely_app in Ht as [Ht2 (c2 & Hc2 & Ht3)].
  pose proof (wait_rollout_ends n _ _ _ _ _ H2 Ht2 ltac:(lia) ltac:(unfold rollout_rounds; lia)) as Hx.
  destruct x as [[]|e]; [apply (IH _ _ _ c2 ltac:(lia) H3 Ht3)|]. destruct H3 as [_ ->]. intros [= ->]. done.
Qed.

(** An error that was given a text of its own. *)
Definition described {A} (r : result A) : Prop := match r with Err (Sentinel _) => False | _ => True end.

Lemma described_wrap {A} f args (p : up (result A)) : post (wrapP f args p) (fun _ r => described r).
Proof. apply post_wrap. by intros t [a|e] _. Qed.

Lemma needsApply_described i : post (needsApply i) (fun _ r => described r).
Proof.
  assert (forall names, post (missing_deployment names) (fun _ r => described r)) as Hm.
  { induction names as [|n names IH]; [by apply post_ret|]. cbn [missing_deployment]. apply post_bind, post_call.
    intros [d|e|e]; apply post_ret; [apply IH|by apply post_ret|by apply post_ret]. }
  unfold needsApply. destruct (negb (in_Apiext i)); [by apply post_ret|]. apply post_bind, post_call.
  intros [u|e|e]; apply post_ret; [|by apply post_ret|by apply post_ret]. destruct (negb (in_Kube i)); [by apply post_ret|].
  apply post_try. eapply post_mono; [apply Hm|]. intros t [[|]|x] Hx; [by apply post_ret| |done].
  apply post_bind, post_call. intros [d|e|e]; apply post_ret; by apply post_ret.
Qed.

Lemma enableFeatureFlags_described `{MapRange} i : post (enableFeatureFlags i) (fun _ r => described r).
Proof.
  unfold enableFeatureFlags. destruct (negb (in_Kube i)); [by apply post_ret|]. cbv zeta. apply post_bind, post_call. intros [d|e|e]; apply post_ret.
  - destruct (foldl _ _ _) as [data dirty]. destruct dirty; [apply described_wrap|by apply post_ret].
  - apply described_wrap.
  - by apply post_ret.
Qed.

Lemma described_not_waiting {A} (r : result A) : described r -> r <> Err still_waiting.
Proof. by intros Hr ->. Qed.

(** installing ends: in a run whose clock goes on and whose waits last as long as they
    should, the wait for the two deployments answers, by success, its timeout or the
    context's end, within the rounds of two seconds that fit its timeout and two more. *)
Theorem Install_returns `{MapRange} i t r c :
  (0 <= in_Timeout i)%Z -> exec (Install i) t r -> timely c t -> r.1 <> Err still_waiting.
Proof.
  intros Hi He Ht. unfold Install in He. apply exec_bind in He as (t1 & t' & need & -> & H1 & He). apply timely_app in Ht as [_ (c1 & _ & Ht)].
  apply exec_bind in He as (t2 & t'' & applied & -> & H2 & He). apply timely_app in Ht as [_ (c2 & _ & Ht)].
  apply exec_bind in He as (t3 & t4 & ready & -> & H3 & He). apply timely_app in Ht as [Ht3 _].
  assert (described applied) as Ha.
  { destruct need as [[|]|e]; [by apply (described_wrap _ _ _ _ _ H2)|by destruct H2 as [_ ->]|].
    destruct H2 as [_ ->]. exact (needsApply_described i _ _ H1). }
  assert (ready <> Err still_waiting) as Hr.
  { destruct applied as [s|e]; [by apply (waitReady_ends i t3 ready c2)|]. destruct H3 as [_ ->]. intros [= ->]. done. }
  destruct ready as [[]|e]; [|destruct He as [_ ->]; exact Hr].
  apply exec_bind in He as (t5 & t6 & v & -> & _ & He). apply exec_bind in He as (t7 & t8 & r' & -> & H7 & He).
  destruct He as [_ ->]. apply described_not_waiting. exact (enableFeatureFlags_described i _ _ H7).
Qed.

(** A fresh cluster on which the first look at the first deployment fails. *)
Definition ex_installer : Installer := tekton_New "/kc" true true "" 0.
Definition ex_ready : Deployment := mkDeployment 1 1 1 1 1.

Definition ex_install : list (ev UpE) :=
  let info := GetConfigMap tektonNamespace pipelinesInfoName in
  let dep n := GetDeployment tektonNamespace n in
  [Ev (GetCRD "pipelines.tekton.dev") (NotFound (lit "no")); Ev (ClusterUp.Exec "kubectl" (apply_args ex_installer)) ("", "", None); Ev (UFs Now) 10%Z;
   Ev (dep "tekton-pipelines-controller") (NotFound (lit "no")); Ev (UFs Now) 20%Z; Ev (Wait poll_interval) None;
   Ev (dep "tekton-pipelines-controller") (Got ex_ready); Ev (dep "tekton-pipelines-webhook") (Got ex_ready);
   Ev info (Got {["version" := "v1.15.5"]}); Ev (GetConfigMap "tekton-pipelines" "feature-flags") (NotFound (lit "no"));
   Ev (CreateConfigMap "tekton-pipelines" "feature-flags" feature_flags) (Ok tt)].

Lemma Install_returns_witness :
  exec (Install (H := default_range) ex_installer) ex_install (Ok tt, "v1.15.5") /\ timely 0 ex_install /\ (Ok tt, "v1.15.5").1 <> Err still_waiting.
Proof.
  assert (exec (Install (H := default_range) ex_installer) ex_install (Ok tt, "v1.15.5")) as He.
  { do 11 (hnf; eexists _, _; split; [reflexivity|]). split; reflexivity. }
  assert (timely 0 ex_install) as Ht by (cbn; lia).
  split; [exact He|]. split; [exact Ht|]. apply (Install_returns (H := default_range) ex_installer ex_install (Ok tt, "v1.15.5") 0); [vm_compute; discriminate|exact He|exact Ht].
Defined.

(** ** The driver *)
Lemma Output_post name args :
  post (Output name args) (fun t r => effects t = [ERun name args (okb r)] /\ forall out, r = Ok out -> exists err, saw (Exec name args) (out, err, None) t).
Proof.
  unfold Output. apply post_bind, post_call. intros [[out err] [e|]]; apply post_ret; apply post_ret; [done|].
  split; [done|]. intros o [= ->]. exists err. by left.
Qed.

Definition list_args : list string := ["cluster"; "list"; "-o"; "json"].

(** What k3d listed. *)
Definition listed (l : list clusterListEntry) (t : list (ev UpE)) : Prop :=
  exists out err, saw (Exec "k3d" list_args) (out, err, None) t /\ decode_clusters out = Some l.

Lemma listed_l l t t' : listed l t -> listed l (t ++ t').
Proof. intros (out & err & Hs & Hl). exists out, err. split; [by apply saw_l|done]. Qed.

Lemma listClusters_post : post listClusters (fun t r => (exists ok, effects t = [ERun "k3d" list_args ok]) /\ forall l, r = Ok l -> listed l t).
Proof.
  unfold listClusters. apply post_try, post_wrap. eapply post_mono; [apply Output_post|]. intros t [out|e] [He Ho]; [|cbn beta iota; split; [eauto|done]].
  apply post_ret. rewrite app_nil_r. split; [eauto|]. intros l. destruct (decode_clusters out) as [l'|] eqn:Hl; [|done]. intros [= ->].
  destruct (Ho out eq_refl) as [err Hs]. by exists out, err.
Qed.

Lemma post_file e (f : list (ev UpE) -> result unit -> Prop) :
  (forall x, f [Ev (UFs e) x] (match x with inl _ => Ok tt | inr e => Err (errno_text e) end)) -> post (ufs (fails (call e))) f.
Proof. intros Hf t r. cbn. intros (x & t' & -> & He). specialize (Hf x). destruct x as [[]|x]; destruct He as [-> ->]; exact Hf. Qed.

Definition kubeconfig_args (d : Driver) : list string := ["kubeconfig"; "get"; dr_name d].

(** The kubeconfig of k3d, readable by its owner alone; nothing without a path. *)
Definition kubeconfig_written (d : Driver) (t : list (ev UpE)) : Prop :=
  if String.eqb (dr_kubecfg d) "" then effects t = []
  else exists out err, saw (Exec "k3d" (kubeconfig_args d)) (out, err, None) t /\
    effects t = [ERun "k3d" (kubeconfig_args d) true; EFile (dr_kubecfg d) out 384 true].

Definition kubeconfig_effect (d : Driver) (e : effect) : Prop :=
  match e with ERun n a _ => n = "k3d" /\ a = kubeconfig_args d | EFile p _ m _ => p = dr_kubecfg d /\ m = 384%Z | _ => False end.

Lemma write_kubeconfig_post d :
  post (write_kubeconfig d) (fun t r => Forall (kubeconfig_effect d) (effects t) /\ (r = Ok tt -> kubeconfig_written d t)).
Proof.
  unfold write_kubeconfig, kubeconfig_written. destruct (String.eqb (dr_kubecfg d) ""); [apply post_ret; by split; [constructor|]|].
  apply post_try, post_wrap. eapply post_mono; [apply Output_post|]. intros t [out|e] [He Ho]; cbn beta iota; [|split; [rewrite He; by repeat constructor|done]].
  apply post_try. apply post_file. intros x. destruct x as [[]|x]; cbn beta iota.
  2:{ split; [|done]. rewrite !effects_app, He. by repeat constructor. }
  apply post_file. intros x. rewrite !effects_app, He. split; [by repeat constructor|]. destruct x as [[]|x]; [|done]. intros _.
  destruct (Ho out eq_refl) as [err Hs]. exists out, err. split; [by apply saw_l|done].
Qed.

Definition is_listed (d : Driver) (l : list clusterListEntry) : Prop := exists e, e ∈ l /\ ce_Name e = dr_name d.

Lemma is_listed_spec d l : existsb (fun e => String.eqb (ce_Name e) (dr_name d)) l = true <-> is_listed d l.
Proof.
  unfold is_listed. rewrite existsb_exists. split; intros (e & Hin & He); exists e.
  - split; [by apply list_elem_of_In|by apply String.eqb_eq].
  - split; [by apply list_elem_of_In|by apply String.eqb_eq].
Qed.

(** What Ensure does behind the listing. *)
Definition ensured (d : Driver) (l : list clusterListEntry) (created : list effect) : Prop :=
  is_listed d l /\ created = [] \/ ~ is_listed d l /\ exists ok, created = [ERun "k3d" (create_args d) ok].

(** Ensure creates the cluster exactly when k3d's own list, read first, does not name it,
    never twice, and then stores the kubeconfig k3d prints, with mode 0600; it reports
    success only when all of it succeeded. *)
Theorem Ensure_correct d :
  post (Ensure d) (fun t r => exists ok created stored, effects t = ERun "k3d" list_args ok :: created ++ stored /\
    Forall (kubeconfig_effect d) stored /\ (created = [] \/ exists l, listed l t /\ ensured d l created) /\
    (r = Ok tt -> exists l t1 t2, t = t1 ++ t2 /\ listed l t1 /\ ensured d l created /\ (forall c, c ∈ created -> c = ERun "k3d" (create_args d) true) /\
      effects t2 = stored /\ kubeconfig_written d t2)).
Proof.
  unfold Ensure. apply post_try. eapply post_mono; [apply listClusters_post|]. intros t1 [l|e] [[ok He] Hl]; cbn beta iota.
  2:{ exists ok, [], []. rewrite He. split_and!; [done|constructor|by left|done]. }
  specialize (Hl l eq_refl). apply post_try.
  apply (post_mono _ (fun t r => (is_listed d l /\ effects t = [] /\ okb r = true) \/ (~ is_listed d l /\ effects t = [ERun "k3d" (create_args d) (okb r)]))).
  { destruct (existsb _ l) eqn:Hx.
    - apply is_listed_spec in Hx. apply post_ret. by left.
    - apply post_wrap. eapply post_mono; [apply Output_post|]. intros t r [Hr _]. right.
      assert (~ is_listed d l) as Hn by (rewrite <-is_listed_spec; by rewrite Hx). by destruct r. }
  intros t2 r2 H2. assert (ensured d l (effects t2)) as Hens by (destruct H2 as [(H1 & -> & _)|[H1 ->]]; [by left|right; eauto]).
  destruct r2 as [out|e]; cbn beta iota.
  2:{ exists ok, (effects t2), []. rewrite effects_app, He, app_nil_r. split_and!; [done|constructor| |done].
      right. exists l. split; [by apply listed_l|done]. }
  eapply post_mono; [apply write_kubeconfig_post|]. intros t3 r3 [H3 Hw]. exists ok, (effects t2), (effects t3).
  rewrite !effects_app, He. split_and!; [done|done|right; exists l; split; [by apply listed_l|done]|]. intros Hr.
  exists l, (t1 ++ t2), t3. split_and!; [by rewrite <-app_assoc|by apply listed_l|done| |done|by apply Hw].
  intros c Hc. destruct H2 as [(_ & E & _)|[_ E]]; rewrite E in Hc; [by apply not_elem_of_nil in Hc|by apply list_elem_of_singleton in Hc].
Qed.

Definition delete_args (d : Driver) : list string := ["cluster"; "delete"; dr_name d].

(** Delete deletes only a cluster that k3d lists under the driver's name, and removes the
    kubeconfig file only behind a deletion that succeeded. *)
Theorem Delete_correct d :
  post (Delete d) (fun t r => exists ok deleted removed, effects t = ERun "k3d" list_args ok :: deleted ++ removed /\
    (deleted = [] \/ exists l b, listed l t /\ is_listed d l /\ deleted = [ERun "k3d" (delete_args d) b]) /\
    (removed = [] \/ removed = [ERemove (dr_kubecfg d)] /\ dr_kubecfg d <> "" /\ deleted = [ERun "k3d" (delete_args d) true]) /\
    (r = Ok tt -> exists l, listed l t /\ (~ is_listed d l \/ deleted = [ERun "k3d" (delete_args d) true]))).
Proof.
  unfold Delete, driver_Status. apply post_try, post_try. eapply post_mono; [apply listClusters_post|]. intros t1 [l|e] [[ok He] Hl]; cbn beta iota.
  2:{ exists ok, [], []. rewrite He. split_and!; [done|by left|by left|done]. }
  specialize (Hl l eq_refl). apply post_ret. cbn beta iota. rewrite app_nil_r.
  assert (st_Exists (status_of d l) = true <-> is_listed d l) as Hex.
  { rewrite <-is_listed_spec. unfold status_of. clear. induction l as [|e l IH]; [done|]. cbn. by destruct (String.eqb (ce_Name e) (dr_name d)). }
  destruct (st_Exists (status_of d l)) eqn:Hx; cbn [negb].
  2:{ apply post_ret. rewrite app_nil_r. exists ok, [], []. rewrite He. split_and!; [done|by left|by left|]. intros _. exists l. split; [done|]. left. by rewrite <-Hex. }
  assert (is_listed d l) as Hin by by apply Hex.
  apply post_try, post_wrap. eapply post_mono; [apply Output_post|]. intros t2 r2 [H2 _].
  assert (listed l (t1 ++ t2)) as Hl2 by by apply listed_l.
  destruct r2 as [out|e]; cbn beta iota.
  2:{ exists ok, (effects t2), []. rewrite effects_app, He, H2, app_nil_r. split_and!; [done|right; exists l; eauto|by left|done]. }
  apply post_bind. apply (post_mono _ (fun t _ => effects t = [] \/ effects t = [ERemove (dr_kubecfg d)] /\ dr_kubecfg d <> "")).
  { destruct (String.eqb (dr_kubecfg d) "") eqn:Hk; [apply post_ret; by left|]. apply String.eqb_neq in Hk.
    intros t r. cbn. intros (x & t' & -> & -> & ->). by right. }
  intros t3 [] H3. apply post_ret. rewrite app_nil_r. exists ok, (effects t2), (effects t3). rewrite !effects_app, He, H2. split_and!; [done| | |].
  - right. exists l, true. split_and!; [|done..]. rewrite app_assoc. by apply listed_l.
  - destruct H3 as [->|[-> Hne]]; [by left|by right].
  - intros _. exists l. split; [rewrite app_assoc; by apply listed_l|by right].
Qed.

(** ** Prepare of the backend *)

(** Which backend a Prepare leaves: its clients are set once the kubeconfig was loaded. *)
Lemma Prepare_clients `{MapRange} b :
  post (Prepare b) (fun t r => r.2 = b \/ r.2 = with_dynamic b true).
Proof.
  unfold Prepare. destruct (cb_Dynamic b); [apply post_ret; by left|]. destruct (cb_Driver b) as [d|]; [|apply post_ret; by left].
  apply post_bind. intros t1 r1 _. destruct r1 as [[]|e]; [|apply post_ret; by left].
  apply post_bind. intros t2 r2 _. apply post_ret. by right.
Qed.

(** A first Prepare whose apply of the release fails. *)
Definition ex_backend : cluster_backend := cluster_New "/c" (Some (k3d_New "" "/kc" "")) "".

Definition ex_failed_prepare : list (ev UpE) :=
  [Ev (ClusterUp.Exec "k3d" list_args) ("[]", "", None);
   Ev (ClusterUp.Exec "k3d" (create_args (k3d_New "" "/kc" ""))) ("", "", None);
   Ev (ClusterUp.Exec "k3d" ["kubeconfig"; "get"; "tkn-act"]) ("apiVersion: v1", "", None);
   Ev (UFs (MkdirAll "/" 493)) (inl tt); Ev (UFs (WriteFile "/kc" "apiVersion: v1" 384)) (inl tt);
   Ev (LoadKubeconfig "/kc") (Ok tt); Ev (NewClient "dynamic") (Ok tt); Ev (NewClient "kubernetes") (Ok tt); Ev (NewClient "apiextensions") (Ok tt);
   Ev (GetCRD "pipelines.tekton.dev") (NotFound (lit "no"));
   Ev (ClusterUp.Exec "kubectl" ["--kubeconfig"; "/kc"; "apply"; "-f"; release_url "v1.15.5"]) ("", "no route to host", Some (lit "exit status 1"))].

(** a Prepare that failed behind its clients, as when the release could not be applied, is
    not repeated: the backend keeps the clients, and its next Prepare reports success without
    a call, on a cluster that has no Tekton. *)
Theorem failed_Prepare_not_repeated `{MapRange} :
  exists e b, exec (Prepare ex_backend) ex_failed_prepare (Err e, b) /\ Prepare b = Ret (Ok tt, b) /\
    ~ exists e, e ∈ effects ex_failed_prepare /\ e = ERun "kubectl" ["--kubeconfig"; "/kc"; "apply"; "-f"; release_url "v1.15.5"] true.
Proof.
  do 2 eexists. split; [|split].
  - do 11 (hnf; eexists _, _; split; [reflexivity|]). split; reflexivity.
  - reflexivity.
  - intros (e & He & ->). apply list_elem_of_In in He. vm_compute in He. intuition discriminate.
Qed.

(** ** doctor *)

(** The answers that decide: of the cache directory and of the daemon. *)
Definition health_of (e : ev UpE) : option bool :=
  match e with
  | Ev c a =>
    (match c in UpE X return X -> option bool with
     | Ping => fun a => Some (okb a)
     | UFs c => match c in FsE X return X -> option bool with MkdirAll _ _ => fun a => Some (inlb a) | WriteFile _ _ _ => fun a => Some (inlb a) | _ => fun _ => None end
     | _ => fun _ => None
     end) a
  end.

Definition health (t : list (ev UpE)) : list bool := omap health_of t.

Lemma health_app t t' : health (t ++ t') = health t ++ health t'.
Proof. apply omap_app. Qed.

(** The probe file of the cache directory, removed after a write that succeeded. *)
Definition probed (p : string) (l : list effect) : Prop := l = [] \/ l = [EFile p "ok" 420 false] \/ l = [EFile p "ok" 420 true; ERemove p].

Definition quiet_check (t : list (ev UpE)) : Prop := health t = [] /\ effects t = [].

Lemma quiet_check_app t t' : quiet_check t -> quiet_check t' -> quiet_check (t ++ t').
Proof. intros [H1 H2] [H3 H4]. split; [by rewrite health_app, H1, H3|by rewrite effects_app, H2, H4]. Qed.

Lemma quiet_calls {A} (p : up A) :
  calls (fun X e => forall x, health_of (Ev e x) = None /\ effect_of (Ev e x) = None) p -> post p (fun t _ => quiet_check t).
Proof.
  intros Hp. eapply post_mono; [by apply calls_post|]. intros t a H. cbn beta in H. induction H as [|[X e x] l He Hl IH]; [done|].
  cbn [ev_call] in He. destruct (He x) as [H1 H2]. change (Ev e x :: l) with ([Ev e x] ++ l). apply quiet_check_app; [|done].
  change (health_of (Ev e x) = None) in H1. change (effect_of (Ev e x) = None) in H2. split.
  - change (health [Ev e x]) with (match health_of (Ev e x) with Some b => [b] | None => [] end). by rewrite H1.
  - change (effects [Ev e x]) with (match effect_of (Ev e x) with Some b => [b] | None => [] end). by rewrite H2.
Qed.

Lemma checkCacheDir_post dir :
  post (checkCacheDir dir) (fun t c => dc_RequiredFor c = "default" /\ (dc_OK c = true <-> health t = [true; true]) /\
    length (health t) <= 2 /\ forallb id (health t) = dc_OK c /\ probed (Join [dir; ".doctor-write-probe"]) (effects t)).
Proof.
  unfold checkCacheDir. apply post_bind, post_call. intros [[]|e]; apply post_ret; [|apply post_ret; split_and!; [done|done|cbn; lia|done|by left]].
  apply post_bind, post_call. intros [[]|e]; apply post_ret; [|apply post_ret; split_and!; [done|done|cbn; lia|done|right; by left]].
  apply post_bind, post_call. intros r; apply post_ret, post_ret. split_and!; [done|done|cbn; lia|done|by do 2 right].
Qed.

Lemma checkDocker_post : post checkDocker (fun t c => dc_RequiredFor c = "default" /\ health t = [dc_OK c] /\ effects t = []).
Proof. unfold checkDocker. apply post_bind, post_call. intros [v|e]; apply post_ret; by apply post_ret. Qed.

Lemma checkBinaryOnPath_post name req : post (checkBinaryOnPath name req) (fun t c => dc_RequiredFor c = req /\ quiet_check t).
Proof.
  apply post_and.
  - unfold checkBinaryOnPath. apply post_bind. intros t [p|e] _; [|by apply post_ret]. apply post_bind. intros t' v _. by apply post_ret.
  - apply quiet_calls. unfold checkBinaryOnPath, versionOf. apply calls_bind; [by split|]. intros [p|e]; [|done].
    apply calls_bind; [|done]. apply calls_bind; [by split|]. intros [o|o]; [done|]. apply calls_bind; [by split|done].
Qed.

Lemma doctor_print_quiet version os arch rep : post (printDoctorReport version os arch rep) (fun t _ => quiet_check t).
Proof.
  apply quiet_calls. unfold printDoctorReport, println_. apply calls_bind; [by split|]. intros _. apply calls_bind; [by split|]. intros _.
  apply calls_bind; [|by split]. apply calls_foldP. intros s c. by split.
Qed.

(** doctor succeeds exactly when the cache directory could be made and written and the
    daemon answered, whatever the tools of the cluster mode are; it exits with the code of a
    bad environment otherwise, and removes the probe file that it wrote. *)
Theorem doctor_correct lookup_env gf version os arch :
  post (doctor lookup_env gf version os arch) (fun t r =>
    r = (if decide (health t = [true; true; true]) then inl tt else inr (Coded Env (Plain (lit "environment check failed")))) /\
    probed (Join [cacheDir lookup_env; ".doctor-write-probe"]) (effects t)).
Proof.
  unfold doctor, buildDoctorReport. apply post_bind, post_bind. eapply post_mono; [apply checkCacheDir_post|]. intros t1 c1 (R1 & H1 & L1 & _ & P1).
  apply post_bind. eapply post_mono; [apply checkDocker_post|]. intros t2 c2 (R2 & H2 & E2).
  apply post_bind. eapply post_mono; [apply checkBinaryOnPath_post|]. intros t3 c3 (R3 & H3 & E3).
  apply post_bind. eapply post_mono; [apply checkBinaryOnPath_post|]. intros t4 c4 (R4 & H4 & E4). apply post_ret.
  apply post_bind. apply (post_mono _ (fun t _ => quiet_check t)).
  { destruct (String.eqb (gf_output gf) "json"); [apply quiet_calls; by split|apply doctor_print_quiet]. }
  intros t5 _ [H5 E5]. apply post_ret. cbn [rp_OK existsb]. rewrite R1, R2, R3, R4, !app_nil_r.
  rewrite !health_app, !effects_app, H2, H3, H4, H5, E2, E3, E4, E5, !app_nil_r. split; [|done].
  change (String.eqb "default" "default") with true. change (String.eqb "cluster" "default") with false.
  rewrite !andb_true_r, !andb_false_r, !orb_false_r.
  destruct (dc_OK c1) eqn:O1; cbn [negb orb].
  - rewrite (proj1 H1 eq_refl). by destruct (dc_OK c2).
  - rewrite decide_False; [done|]. intros Hh. apply (f_equal (take 2)) in Hh as Ht. apply (f_equal length) in Hh as Hl.
    rewrite length_app in Hl. cbn in Hl. rewrite take_app_length' in Ht by lia. by apply H1 in Ht.
Qed.
