(* ===== verification/SchemaJson.v ===== *)
(** * internal/tektontypes/types.go: reading the schema

    What json.Unmarshal makes of a JSON tree for each type of the schema: fields by their
    json tags, whatever the case of a key, and the type's own UnmarshalJSON where it has one.
    A decoder takes the value that is there, which a repeated key decodes into once more. *)

From S2P Require Import Prelude GoStrings Json JsonText TektonTypes Loader.

(** ** Decoders *)

(** [None] is an error of any kind; the caller wraps it. *)
Abbreviation dec A := (json -> A -> option A).

Definition d_str : dec string := fun j x => match j with JNull => Some x | JStr s => Some s | _ => None end.
Definition d_bool : dec bool := fun j x => match j with JNull => Some x | JBool b => Some b | _ => None end.
Definition d_int : dec Z := fun j x => match j with JNull => Some x | JNum s => atoi s | _ => None end.

(** A pointer: [null] clears it, anything else is decoded into what it points to. *)
Definition d_ptr {A} (zero : A) (d : dec A) : dec (option A) :=
  fun j x => match j with JNull => Some None | _ => a ← d j (default zero x); Some (Some a) end.

(** The elements of an array, into the elements that are there. *)
Fixpoint d_elems {A} (zero : A) (d : dec A) (l : list json) (old : list A) : option (list A) :=
  match l with
  | [] => Some []
  | j :: l =>
    a ← d j (match old with a :: _ => a | [] => zero end);
    rest ← d_elems zero d l (tail old);
    Some (a :: rest)
  end.

Definition d_list {A} (zero : A) (d : dec A) : dec (list A) :=
  fun j x => match j with JNull => Some [] | JArr l => d_elems zero d l x | _ => None end.

(** A map keeps the entries that are there. *)
Definition d_map : dec (gmap string string) :=
  fun j x =>
    match j with
    | JNull => Some ∅
    | JObj l => foldl (fun o kv => m ← o; s ← d_str kv.2 ""; Some (<[kv.1 := s]> m)) (Some x) l
    | _ => None
    end.

(** The field named [n] of an object. *)
Definition field_in {A} (l : list (string * json)) (n : string) (d : dec A) (x : A) : option A :=
  foldl (fun o kv => if String.eqb (fold_name kv.1) (fold_name n) then x ← o; d kv.2 x else o) (Some x) l.

Definition d_struct {A} (read : list (string * json) -> A -> option A) : dec A :=
  fun j x => match j with JNull => Some x | JObj l => read l x | _ => None end.

(** ** The small types *)
Definition dec_Metadata : dec Metadata := d_struct (fun l x =>
  n ← field_in l "name" d_str (md_Name x);
  ns ← field_in l "namespace" d_str (md_Namespace x);
  la ← field_in l "labels" d_map (md_Labels x);
  an ← field_in l "annotations" d_map (md_Annotations x);
  Some (mkMetadata n ns la an)).

Definition zero_Metadata : Metadata := mkMetadata "" "" ∅ ∅.
Definition zero_Object : Object := mkObject "" "" zero_Metadata.

Definition read_Object (l : list (string * json)) (x : Object) : option Object :=
  v ← field_in l "apiVersion" d_str (ob_APIVersion x);
  k ← field_in l "kind" d_str (ob_Kind x);
  m ← field_in l "metadata" dec_Metadata (ob_Metadata x);
  Some (mkObject v k m).

Definition dec_Object : dec Object := d_struct read_Object.

(** [ParamValue.UnmarshalJSON]: the text of a number or a bool is kept as it is. *)
Definition dec_ParamValue : dec ParamValue := fun j v =>
  match j with
  | JNull => Some v
  | JStr s => Some (mkParamValue ParamTypeString s (pv_ArrayVal v) (pv_ObjectVal v))
  | JArr _ => a ← d_list "" d_str j (pv_ArrayVal v); Some (mkParamValue ParamTypeArray (pv_StringVal v) a (pv_ObjectVal v))
  | JObj _ => m ← d_map j (pv_ObjectVal v); Some (mkParamValue ParamTypeObject (pv_StringVal v) (pv_ArrayVal v) m)
  | JNum s => Some (mkParamValue ParamTypeString s (pv_ArrayVal v) (pv_ObjectVal v))
  | JBool b => Some (mkParamValue ParamTypeString (if b then "true" else "false") (pv_ArrayVal v) (pv_ObjectVal v))
  end.

Definition zero_ParamValue : ParamValue := mkParamValue "" "" [] ∅.

(** [ResourceList.UnmarshalJSON]: what was there is dropped. *)
Definition quantity (j : json) : option string :=
  match j with JNull => Some "" | JStr s => Some s | JNum s => Some s | _ => None end.

Definition zero_ResourceList : ResourceList := mkResourceList "" "" ∅.

Definition set_resource (r : ResourceList) (k v : string) : ResourceList :=
  if String.eqb k "cpu" then mkResourceList v (rl_Memory r) (rl_Other r)
  else if String.eqb k "memory" then mkResourceList (rl_CPU r) v (rl_Other r)
  else mkResourceList (rl_CPU r) (rl_Memory r) (<[k := v]> (rl_Other r)).

(** The entries of the object, the last of two equal keys. *)
Definition raw_entries (l : list (string * json)) : gmap string json := list_to_map (rev l).

Definition dec_ResourceList `{MapRange} : dec ResourceList := fun j _ =>
  match j with
  | JNull => Some zero_ResourceList
  | JObj l =>
    foldl (fun o kv => r ← o; v ← quantity kv.2; Some (set_resource r kv.1 v)) (Some zero_ResourceList) (map_range (raw_entries l))
  | _ => None
  end.

Definition zero_StepResources : StepResources := mkStepResources zero_ResourceList zero_ResourceList.

Definition dec_StepResources `{MapRange} : dec StepResources := d_struct (fun l x =>
  li ← field_in l "limits" dec_ResourceList (res_Limits x);
  re ← field_in l "requests" dec_ResourceList (res_Requests x);
  Some (mkStepResources li re)).

Definition zero_Param : Param := mkParam "" zero_ParamValue.
Definition dec_Param : dec Param := d_struct (fun l x =>
  n ← field_in l "name" d_str (p_Name x);
  v ← field_in l "value" dec_ParamValue (p_Value x);
  Some (mkParam n v)).

Definition zero_ParamSpec : ParamSpec := mkParamSpec "" "" "" None.
Definition dec_ParamSpec : dec ParamSpec := d_struct (fun l x =>
  n ← field_in l "name" d_str (ps_Name x);
  t ← field_in l "type" d_str (ps_Type x);
  d ← field_in l "description" d_str (ps_Description x);
  v ← field_in l "default" (d_ptr zero_ParamValue dec_ParamValue) (ps_Default x);
  Some (mkParamSpec n t d v)).

Definition zero_ResultSpec : ResultSpec := mkResultSpec "" "" "".
Definition dec_ResultSpec : dec ResultSpec := d_struct (fun l x =>
  n ← field_in l "name" d_str (rs_Name x);
  d ← field_in l "description" d_str (rs_Description x);
  t ← field_in l "type" d_str (rs_Type x);
  Some (mkResultSpec n d t)).

Definition zero_EmptyDirSource : EmptyDirSource := mkEmptyDirSource "".
Definition dec_EmptyDirSource : dec EmptyDirSource := d_struct (fun l x =>
  m ← field_in l "medium" d_str (ed_Medium x); Some (mkEmptyDirSource m)).

Definition zero_HostPathSource : HostPathSource := mkHostPathSource "" "".
Definition dec_HostPathSource : dec HostPathSource := d_struct (fun l x =>
  p ← field_in l "path" d_str (hp_Path x);
  t ← field_in l "type" d_str (hp_Type x);
  Some (mkHostPathSource p t)).

Definition zero_KeyToPath : KeyToPath := mkKeyToPath "" "".
Definition dec_KeyToPath : dec KeyToPath := d_struct (fun l x =>
  k ← field_in l "key" d_str (kp_Key x);
  p ← field_in l "path" d_str (kp_Path x);
  Some (mkKeyToPath k p)).

Definition zero_ConfigMapSource : ConfigMapSource := mkConfigMapSource "" [] None.
Definition dec_ConfigMapSource : dec ConfigMapSource := d_struct (fun l x =>
  n ← field_in l "name" d_str (cm_Name x);
  i ← field_in l "items" (d_list zero_KeyToPath dec_KeyToPath) (cm_Items x);
  o ← field_in l "optional" (d_ptr false d_bool) (cm_Optional x);
  Some (mkConfigMapSource n i o)).

Definition zero_SecretSource : SecretSource := mkSecretSource "" [] None.
Definition dec_SecretSource : dec SecretSource := d_struct (fun l x =>
  n ← field_in l "secretName" d_str (sec_SecretName x);
  i ← field_in l "items" (d_list zero_KeyToPath dec_KeyToPath) (sec_Items x);
  o ← field_in l "optional" (d_ptr false d_bool) (sec_Optional x);
  Some (mkSecretSource n i o)).

Definition zero_Volume : Volume := mkVolume "" None None None None.
Definition dec_Volume : dec Volume := d_struct (fun l x =>
  n ← field_in l "name" d_str (vol_Name x);
  e ← field_in l "emptyDir" (d_ptr zero_EmptyDirSource dec_EmptyDirSource) (vol_EmptyDir x);
  h ← field_in l "hostPath" (d_ptr zero_HostPathSource dec_HostPathSource) (vol_HostPath x);
  c ← field_in l "configMap" (d_ptr zero_ConfigMapSource dec_ConfigMapSource) (vol_ConfigMap x);
  s ← field_in l "secret" (d_ptr zero_SecretSource dec_SecretSource) (vol_Secret x);
  Some (mkVolume n e h c s)).

Definition zero_VolumeMount : VolumeMount := mkVolumeMount "" "" false "".
Definition dec_VolumeMount : dec VolumeMount := d_struct (fun l x =>
  n ← field_in l "name" d_str (vm_Name x);
  m ← field_in l "mountPath" d_str (vm_MountPath x);
  r ← field_in l "readOnly" d_bool (vm_ReadOnly x);
  s ← field_in l "subPath" d_str (vm_SubPath x);
  Some (mkVolumeMount n m r s)).

Definition zero_WorkspaceDecl : WorkspaceDecl := mkWorkspaceDecl "" "" "" false false.
Definition dec_WorkspaceDecl : dec WorkspaceDecl := d_struct (fun l x =>
  n ← field_in l "name" d_str (wd_Name x);
  d ← field_in l "description" d_str (wd_Description x);
  m ← field_in l "mountPath" d_str (wd_MountPath x);
  r ← field_in l "readOnly" d_bool (wd_ReadOnly x);
  o ← field_in l "optional" d_bool (wd_Optional x);
  Some (mkWorkspaceDecl n d m r o)).

Definition zero_WorkspaceUsage : WorkspaceUsage := mkWorkspaceUsage "" "" "".
Definition dec_WorkspaceUsage : dec WorkspaceUsage := d_struct (fun l x =>
  n ← field_in l "name" d_str (wu_Name x);
  m ← field_in l "mountPath" d_str (wu_MountPath x);
  s ← field_in l "subPath" d_str (wu_SubPath x);
  Some (mkWorkspaceUsage n m s)).

Definition zero_ContainerPort : ContainerPort := mkContainerPort "" 0 "".
Definition dec_ContainerPort : dec ContainerPort := d_struct (fun l x =>
  n ← field_in l "name" d_str (cp_Name x);
  c ← field_in l "containerPort" d_int (cp_ContainerPort x);
  p ← field_in l "protocol" d_str (cp_Protocol x);
  Some (mkContainerPort n c p)).

Definition zero_WorkspaceBinding : WorkspaceBinding := mkWorkspaceBinding "" "" "".
Definition dec_WorkspaceBinding : dec WorkspaceBinding := d_struct (fun l x =>
  n ← field_in l "name" d_str (wb_Name x);
  w ← field_in l "workspace" d_str (wb_Workspace x);
  s ← field_in l "subPath" d_str (wb_SubPath x);
  Some (mkWorkspaceBinding n w s)).

Definition zero_WhenExpression : WhenExpression := mkWhenExpression "" "" [].
Definition dec_WhenExpression : dec WhenExpression := d_struct (fun l x =>
  i ← field_in l "input" d_str (we_Input x);
  o ← field_in l "operator" d_str (we_Operator x);
  v ← field_in l "values" (d_list "" d_str) (we_Values x);
  Some (mkWhenExpression i o v)).

Definition zero_StepActionRef : StepActionRef := mkStepActionRef "".
Definition dec_StepActionRef : dec StepActionRef := d_struct (fun l x =>
  n ← field_in l "name" d_str (sar_Name x); Some (mkStepActionRef n)).

Definition zero_ResolverParam : ResolverParam := mkResolverParam "" zero_ParamValue.
Definition dec_ResolverParam : dec ResolverParam := d_struct (fun l x =>
  n ← field_in l "name" d_str (rp_Name x);
  v ← field_in l "value" dec_ParamValue (rp_Value x);
  Some (mkResolverParam n v)).

Definition zero_TaskRef : TaskRef := mkTaskRef "" "" "" [].
Definition dec_TaskRef : dec TaskRef := d_struct (fun l x =>
  n ← field_in l "name" d_str (tr_Name x);
  k ← field_in l "kind" d_str (tr_Kind x);
  r ← field_in l "resolver" d_str (tr_Resolver x);
  p ← field_in l "params" (d_list zero_ResolverParam dec_ResolverParam) (tr_ResolverParams x);
  Some (mkTaskRef n k r p)).

Definition zero_MatrixParam : MatrixParam := mkMatrixParam "" [].
Definition dec_MatrixParam : dec MatrixParam := d_struct (fun l x =>
  n ← field_in l "name" d_str (mp_Name x);
  v ← field_in l "value" (d_list "" d_str) (mp_Value x);
  Some (mkMatrixParam n v)).

Definition zero_MatrixInclude : MatrixInclude := mkMatrixInclude "" [].
Definition dec_MatrixInclude : dec MatrixInclude := d_struct (fun l x =>
  n ← field_in l "name" d_str (mi_Name x);
  p ← field_in l "params" (d_list zero_Param dec_Param) (mi_Params x);
  Some (mkMatrixInclude n p)).

Definition zero_Matrix : Matrix := mkMatrix [] [].
Definition dec_Matrix : dec Matrix := d_struct (fun l x =>
  p ← field_in l "params" (d_list zero_MatrixParam dec_MatrixParam) (mx_Params x);
  i ← field_in l "include" (d_list zero_MatrixInclude dec_MatrixInclude) (mx_Include x);
  Some (mkMatrix p i)).

Definition zero_Timeouts : Timeouts := mkTimeouts "" "" "".
Definition dec_Timeouts : dec Timeouts := d_struct (fun l x =>
  p ← field_in l "pipeline" d_str (to_Pipeline x);
  t ← field_in l "tasks" d_str (to_Tasks x);
  f ← field_in l "finally" d_str (to_Finally x);
  Some (mkTimeouts p t f)).

Definition zero_PipelineWorkspaceDecl : PipelineWorkspaceDecl := mkPipelineWorkspaceDecl "" "" false.
Definition dec_PipelineWorkspaceDecl : dec PipelineWorkspaceDecl := d_struct (fun l x =>
  n ← field_in l "name" d_str (pwd_Name x);
  d ← field_in l "description" d_str (pwd_Description x);
  o ← field_in l "optional" d_bool (pwd_Optional x);
  Some (mkPipelineWorkspaceDecl n d o)).

Definition zero_PipelineResultSpec : PipelineResultSpec := mkPipelineResultSpec "" "" zero_ParamValue.
Definition dec_PipelineResultSpec : dec PipelineResultSpec := d_struct (fun l x =>
  n ← field_in l "name" d_str (prs_Name x);
  d ← field_in l "description" d_str (prs_Description x);
  v ← field_in l "value" dec_ParamValue (prs_Value x);
  Some (mkPipelineResultSpec n d v)).

Definition zero_PipelineRef : PipelineRef := mkPipelineRef "" "" [].
Definition dec_PipelineRef : dec PipelineRef := d_struct (fun l x =>
  n ← field_in l "name" d_str (plr_Name x);
  r ← field_in l "resolver" d_str (plr_Resolver x);
  p ← field_in l "params" (d_list zero_ResolverParam dec_ResolverParam) (plr_ResolverParams x);
  Some (mkPipelineRef n r p)).

(** [HostPath] is not read: its tag is a dash. *)
Definition zero_PipelineRunWSBinding : PipelineRunWSBinding := mkPipelineRunWSBinding "" None "".
Definition dec_PipelineRunWSBinding : dec PipelineRunWSBinding := d_struct (fun l x =>
  n ← field_in l "name" d_str (pws_Name x);
  e ← field_in l "emptyDir" (d_ptr tt (d_struct (fun _ x => Some x))) (pws_EmptyDir x);
  Some (mkPipelineRunWSBinding n e (pws_HostPath x))).

(** ** Steps, Tasks and Pipelines *)

(** [json.Unmarshal] of the Kubernetes types. *)
Class CoreDecode {K : CoreV1} := {
  dec_SecurityContext : dec SecurityContext;
  dec_EnvFromSource : dec EnvFromSource;
  dec_EnvVarSource : dec EnvVarSource;
  zero_SecurityContext : SecurityContext;
  zero_EnvFromSource : EnvFromSource;
  zero_EnvVarSource : EnvVarSource;
}.

Section Decode.
Context {K : CoreV1} {D : CoreDecode} `{MapRange}.

Definition zero_EnvVar : EnvVar := mkEnvVar "" "" None.
Definition dec_EnvVar : dec EnvVar := d_struct (fun l x =>
  n ← field_in l "name" d_str (ev_Name x);
  v ← field_in l "value" d_str (ev_Value x);
  f ← field_in l "valueFrom" (d_ptr zero_EnvVarSource dec_EnvVarSource) (ev_ValueFrom x);
  Some (mkEnvVar n v f)).

(** The v1beta1 name of the resources, when the v1 name gave none. *)
Definition or_legacy (r legacy : option StepResources) : option StepResources := match r with None => legacy | _ => r end.

Definition d_resources : dec (option StepResources) := d_ptr zero_StepResources dec_StepResources.
Definition d_secctx : dec (option SecurityContext) := d_ptr zero_SecurityContext dec_SecurityContext.
Definition d_envfrom : dec (list EnvFromSource) := d_list zero_EnvFromSource dec_EnvFromSource.
Definition d_env : dec (list EnvVar) := d_list zero_EnvVar dec_EnvVar.
Definition d_strs : dec (list string) := d_list "" d_str.
Definition d_mounts : dec (list VolumeMount) := d_list zero_VolumeMount dec_VolumeMount.
Definition d_params : dec (list Param) := d_list zero_Param dec_Param.
Definition d_pspecs : dec (list ParamSpec) := d_list zero_ParamSpec dec_ParamSpec.
Definition d_results : dec (list ResultSpec) := d_list zero_ResultSpec dec_ResultSpec.

(** A fresh struct takes the place of what was there, [null] being the empty one. *)
Definition d_fresh {A} (zero : A) (read : list (string * json) -> option A) : dec A :=
  fun j _ => match j with JNull => Some zero | JObj l => read l | _ => None end.

(** [Step.UnmarshalJSON] *)
Definition zero_Step : Step := mkStep "" "" "" None [] "" [] [] "" [] "" None "" None [] "" "" [] [].
Definition dec_Step : dec Step := d_fresh zero_Step (fun l =>
  n ← field_in l "name" d_str "";
  dn ← field_in l "displayName" d_str "";
  ds ← field_in l "description" d_str "";
  rf ← field_in l "ref" (d_ptr zero_StepActionRef dec_StepActionRef) None;
  ps ← field_in l "params" d_params [];
  im ← field_in l "image" d_str "";
  cm ← field_in l "command" d_strs [];
  ar ← field_in l "args" d_strs [];
  sc ← field_in l "script" d_str "";
  en ← field_in l "env" d_env [];
  wd ← field_in l "workingDir" d_str "";
  re ← field_in l "computeResources" d_resources None;
  lg ← field_in l "resources" d_resources None;
  pp ← field_in l "imagePullPolicy" d_str "";
  sx ← field_in l "securityContext" d_secctx None;
  ef ← field_in l "envFrom" d_envfrom [];
  ti ← field_in l "timeout" d_str "";
  oe ← field_in l "onError" d_str "";
  rs ← field_in l "results" d_results [];
  vm ← field_in l "volumeMounts" d_mounts [];
  Some (mkStep n dn ds rf ps im cm ar sc en wd (or_legacy re lg) pp sx ef ti oe rs vm)).

(** [StepTemplate.UnmarshalJSON] *)
Definition zero_StepTemplate : StepTemplate := mkStepTemplate "" [] [] [] "" None "" None [].
Definition dec_StepTemplate : dec StepTemplate := d_fresh zero_StepTemplate (fun l =>
  im ← field_in l "image" d_str "";
  cm ← field_in l "command" d_strs [];
  ar ← field_in l "args" d_strs [];
  en ← field_in l "env" d_env [];
  wd ← field_in l "workingDir" d_str "";
  re ← field_in l "computeResources" d_resources None;
  lg ← field_in l "resources" d_resources None;
  pp ← field_in l "imagePullPolicy" d_str "";
  sx ← field_in l "securityContext" d_secctx None;
  ef ← field_in l "envFrom" d_envfrom [];
  Some (mkStepTemplate im cm ar en wd (or_legacy re lg) pp sx ef)).

(** [Sidecar.UnmarshalJSON] *)
Definition zero_Sidecar : Sidecar := mkSidecar "" "" [] [] "" [] "" None [] [] [] "" None [].
Definition dec_Sidecar : dec Sidecar := d_fresh zero_Sidecar (fun l =>
  n ← field_in l "name" d_str "";
  im ← field_in l "image" d_str "";
  cm ← field_in l "command" d_strs [];
  ar ← field_in l "args" d_strs [];
  sc ← field_in l "script" d_str "";
  en ← field_in l "env" d_env [];
  wd ← field_in l "workingDir" d_str "";
  re ← field_in l "computeResources" d_resources None;
  lg ← field_in l "resources" d_resources None;
  vm ← field_in l "volumeMounts" d_mounts [];
  ws ← field_in l "workspaces" (d_list zero_WorkspaceUsage dec_WorkspaceUsage) [];
  po ← field_in l "ports" (d_list zero_ContainerPort dec_ContainerPort) [];
  pp ← field_in l "imagePullPolicy" d_str "";
  sx ← field_in l "securityContext" d_secctx None;
  ef ← field_in l "envFrom" d_envfrom [];
  Some (mkSidecar n im cm ar sc en wd (or_legacy re lg) vm ws po pp sx ef)).

Definition dec_TaskSpec : dec TaskSpec := d_struct (fun l x =>
  ps ← field_in l "params" d_pspecs (ts_Params x);
  rs ← field_in l "results" d_results (ts_Results x);
  ws ← field_in l "workspaces" (d_list zero_WorkspaceDecl dec_WorkspaceDecl) (ts_Workspaces x);
  st ← field_in l "steps" (d_list zero_Step dec_Step) (ts_Steps x);
  dn ← field_in l "displayName" d_str (ts_DisplayName x);
  ds ← field_in l "description" d_str (ts_Description x);
  ti ← field_in l "timeout" d_str (ts_Timeout x);
  vo ← field_in l "volumes" (d_list zero_Volume dec_Volume) (ts_Volumes x);
  tm ← field_in l "stepTemplate" (d_ptr zero_StepTemplate dec_StepTemplate) (ts_StepTemplate x);
  sc ← field_in l "sidecars" (d_list zero_Sidecar dec_Sidecar) (ts_Sidecars x);
  Some (mkTaskSpec ps rs ws st dn ds ti vo tm sc)).

(** Its resources have the v1beta1 name alone. *)
Definition zero_StepActionSpec : StepActionSpec := mkStepActionSpec "" [] [] "" [] [] "" [] "" "" None [].
Definition dec_StepActionSpec : dec StepActionSpec := d_struct (fun l x =>
  ds ← field_in l "description" d_str (sas_Description x);
  ps ← field_in l "params" d_pspecs (sas_Params x);
  rs ← field_in l "results" d_results (sas_Results x);
  im ← field_in l "image" d_str (sas_Image x);
  cm ← field_in l "command" d_strs (sas_Command x);
  ar ← field_in l "args" d_strs (sas_Args x);
  sc ← field_in l "script" d_str (sas_Script x);
  en ← field_in l "env" d_env (sas_Env x);
  wd ← field_in l "workingDir" d_str (sas_WorkingDir x);
  pp ← field_in l "imagePullPolicy" d_str (sas_ImagePullPolicy x);
  re ← field_in l "resources" d_resources (sas_Resources x);
  vm ← field_in l "volumeMounts" d_mounts (sas_VolumeMounts x);
  Some (mkStepActionSpec ds ps rs im cm ar sc en wd pp re vm)).

(** [MatrixInfo] is not read. *)
Definition zero_PipelineTask : PipelineTask := mkPipelineTask "" "" None None [] [] [] [] 0 "" None None.
Definition dec_PipelineTask : dec PipelineTask := d_struct (fun l x =>
  n ← field_in l "name" d_str (pt_Name x);
  dn ← field_in l "displayName" d_str (pt_DisplayName x);
  tr ← field_in l "taskRef" (d_ptr zero_TaskRef dec_TaskRef) (pt_TaskRef x);
  ts ← field_in l "taskSpec" (d_ptr zero_TaskSpec dec_TaskSpec) (pt_TaskSpec x);
  ps ← field_in l "params" d_params (pt_Params x);
  ws ← field_in l "workspaces" (d_list zero_WorkspaceBinding dec_WorkspaceBinding) (pt_Workspaces x);
  ra ← field_in l "runAfter" d_strs (pt_RunAfter x);
  wh ← field_in l "when" (d_list zero_WhenExpression dec_WhenExpression) (pt_When x);
  re ← field_in l "retries" d_int (pt_Retries x);
  ti ← field_in l "timeout" d_str (pt_Timeout x);
  mx ← field_in l "matrix" (d_ptr zero_Matrix dec_Matrix) (pt_Matrix x);
  Some (mkPipelineTask n dn tr ts ps ws ra wh re ti mx (pt_MatrixInfo x))).

Definition d_ptasks : dec (list PipelineTask) := d_list zero_PipelineTask dec_PipelineTask.

Definition zero_PipelineSpec : PipelineSpec := mkPipelineSpec "" "" [] [] [] [] [] None.
Definition dec_PipelineSpec : dec PipelineSpec := d_struct (fun l x =>
  dn ← field_in l "displayName" d_str (spec_DisplayName x);
  ds ← field_in l "description" d_str (spec_Description x);
  ps ← field_in l "params" d_pspecs (spec_Params x);
  ws ← field_in l "workspaces" (d_list zero_PipelineWorkspaceDecl dec_PipelineWorkspaceDecl) (spec_Workspaces x);
  ta ← field_in l "tasks" d_ptasks (spec_Tasks x);
  fi ← field_in l "finally" d_ptasks (spec_Finally x);
  rs ← field_in l "results" (d_list zero_PipelineResultSpec dec_PipelineResultSpec) (spec_Results x);
  ti ← field_in l "timeouts" (d_ptr zero_Timeouts dec_Timeouts) (spec_Timeouts x);
  Some (mkPipelineSpec dn ds ps ws ta fi rs ti)).

Definition zero_PipelineRunSpec : PipelineRunSpec := mkPipelineRunSpec None None [] [].
Definition dec_PipelineRunSpec : dec PipelineRunSpec := d_struct (fun l x =>
  rf ← field_in l "pipelineRef" (d_ptr zero_PipelineRef dec_PipelineRef) (prun_PipelineRef x);
  sp ← field_in l "pipelineSpec" (d_ptr zero_PipelineSpec dec_PipelineSpec) (prun_PipelineSpec x);
  ps ← field_in l "params" d_params (prun_Params x);
  ws ← field_in l "workspaces" (d_list zero_PipelineRunWSBinding dec_PipelineRunWSBinding) (prun_Workspaces x);
  Some (mkPipelineRunSpec rf sp ps ws)).

Definition zero_TaskRunSpec : TaskRunSpec := mkTaskRunSpec None None [] [].
Definition dec_TaskRunSpec : dec TaskRunSpec := d_struct (fun l x =>
  rf ← field_in l "taskRef" (d_ptr zero_TaskRef dec_TaskRef) (trun_TaskRef x);
  sp ← field_in l "taskSpec" (d_ptr zero_TaskSpec dec_TaskSpec) (trun_TaskSpec x);
  ps ← field_in l "params" d_params (trun_Params x);
  ws ← field_in l "workspaces" (d_list zero_WorkspaceBinding dec_WorkspaceBinding) (trun_Workspaces x);
  Some (mkTaskRunSpec rf sp ps ws)).

(** ** Documents: the envelope, and a spec *)
Definition d_document {S A} (dec_spec : dec S) (ob : A -> Object) (spec : A -> S) (mk : Object -> S -> A) : dec A :=
  d_struct (fun l x => o ← read_Object l (ob x); s ← field_in l "spec" dec_spec (spec x); Some (mk o s)).

Definition dec_Task : dec Task := d_document dec_TaskSpec task_Object task_Spec mkTask.
Definition dec_Pipeline : dec Pipeline := d_document dec_PipelineSpec pl_Object pl_Spec mkPipeline.
Definition dec_PipelineRun : dec PipelineRun := d_document dec_PipelineRunSpec prun_Object prun_Spec mkPipelineRun.
Definition dec_TaskRun : dec TaskRun := d_document dec_TaskRunSpec trun_Object trun_Spec mkTaskRun.
Definition dec_StepAction : dec StepAction := d_document dec_StepActionSpec sa_Object sa_Spec mkStepAction.

(** loader.go's own two. *)
Definition dec_configMapDoc : dec configMapDoc := d_struct (fun l x =>
  m ← field_in l "metadata" dec_Metadata (cmd_Metadata x);
  d ← field_in l "data" d_map (cmd_Data x);
  b ← field_in l "binaryData" d_map (cmd_BinaryData x);
  i ← field_in l "immutable" (d_ptr false d_bool) (cmd_Immutable x);
  Some (mkconfigMapDoc m d b i)).

Definition dec_secretDoc : dec secretDoc := d_struct (fun l x =>
  m ← field_in l "metadata" dec_Metadata (sd_Metadata x);
  t ← field_in l "type" d_str (sd_Type x);
  d ← field_in l "data" d_map (sd_Data x);
  s ← field_in l "stringData" d_map (sd_StringData x);
  i ← field_in l "immutable" (d_ptr false d_bool) (sd_Immutable x);
  Some (mksecretDoc m t d s i)).
End Decode.

(** *** The loader's interface, over a conversion of YAML to JSON

    The conversion is told the type it is for: it writes a scalar as a string where the
    type wants one. *)
Inductive schema_type : Type := TObject | TTask | TPipeline | TPipelineRun | TTaskRun | TStepAction | TconfigMapDoc | TsecretDoc.

Class YamlToJson := yaml_to_json : schema_type -> string -> result json.

Definition unmarshal_error : text := Sentinel "error unmarshaling JSON".

Definition unmarshal `{YamlToJson} {A} (t : schema_type) (d : dec A) (zero : A) (data : string) : result A :=
  j ← yaml_to_json t data;
  match d j zero with Some a => Ok a | None => Err unmarshal_error end.

#[export] Instance schema_yaml {K : CoreV1} {D : CoreDecode} `{MapRange} `{YamlToJson} : Yaml := {|
  yaml_Object := unmarshal TObject dec_Object zero_Object;
  yaml_Task := unmarshal TTask dec_Task (mkTask zero_Object zero_TaskSpec);
  yaml_Pipeline := unmarshal TPipeline dec_Pipeline (mkPipeline zero_Object zero_PipelineSpec);
  yaml_PipelineRun := unmarshal TPipelineRun dec_PipelineRun (mkPipelineRun zero_Object zero_PipelineRunSpec);
  yaml_TaskRun := unmarshal TTaskRun dec_TaskRun (mkTaskRun zero_Object zero_TaskRunSpec);
  yaml_StepAction := unmarshal TStepAction dec_StepAction (mkStepAction zero_Object zero_StepActionSpec);
  yaml_configMapDoc := unmarshal TconfigMapDoc dec_configMapDoc (mkconfigMapDoc zero_Metadata ∅ ∅ None);
  yaml_secretDoc := unmarshal TsecretDoc dec_secretDoc (mksecretDoc zero_Metadata "" ∅ ∅ None);
|}.
