(* ===== verification/SchemaProps.v ===== *)
(** * The schema's JSON: what is decoded, and what is submitted

    Every value that the decoders of SchemaJson build is well formed, and what ClusterSubmit
    encodes of a well-formed value decodes to it again. *)

From S2P Require Import Prelude GoStrings Json JsonText TektonTypes Loader ClusterStatus ClusterSubmit SchemaJson.

(** ** The JSON of a decoded tree *)

(** The numbers that occur are whole and small enough to be exact as a float64. *)
Definition exact_int (z : Z) : bool := (Z.abs z <=? 9007199254740992)%Z.

Fixpoint json_of (v : value) : option json :=
  match v with
  | VNull => Some JNull
  | VBool b => Some (JBool b)
  | VInt z => Some (JNum (itoa z))
  | VFloat m e => if (e =? 0)%Z && exact_int m then Some (JNum (itoa m)) else None
  | VString s => Some (JStr s)
  | VSlice l => JArr <$> (fix go l := match l with [] => Some [] | v :: l => j ← json_of v; js ← go l; Some (j :: js) end) l
  | VMap m => JObj <$> map_fold (fun k v acc => l ← acc; j ← json_of v; Some ((k, j) :: l)) (Some []) m
  end.

Lemma json_of_slice l : json_of (VSlice l) = JArr <$> mapM json_of l.
Proof. cbn [json_of]. by f_equal. Qed.

(** An object has each entry of the map once. *)
Lemma json_of_map (m : object) :
  (forall k v, m !! k = Some v -> is_Some (json_of v)) ->
  exists l, json_of (VMap m) = Some (JObj l) /\ NoDup l.*1 /\
    (forall k, k ∈ l.*1 <-> is_Some (m !! k)) /\ forall k v, m !! k = Some v -> exists j, json_of v = Some j /\ (k, j) ∈ l.
Proof.
  intros Hm. cbn [json_of].
  enough (exists l, map_fold (fun k v acc => l ← acc; j ← json_of v; Some ((k, j) :: l)) (Some []) m = Some l /\ NoDup l.*1 /\
    (forall k, k ∈ l.*1 <-> is_Some (m !! k)) /\ forall k v, m !! k = Some v -> exists j, json_of v = Some j /\ (k, j) ∈ l) as (l & -> & Hl).
  { by exists l. }
  revert Hm. refine (map_fold_weak_ind (fun acc m => (forall k v, m !! k = Some v -> is_Some (json_of v)) ->
    exists l, acc = Some l /\ NoDup l.*1 /\ (forall k, k ∈ l.*1 <-> is_Some (m !! k)) /\
      forall k v, m !! k = Some v -> exists j, json_of v = Some j /\ (k, j) ∈ l) _ _ _ _ m).
  - intros _. exists []. split_and!; [done|constructor| |intros k v Hk; by rewrite lookup_empty in Hk].
    intros k. rewrite lookup_empty. split; [intros Hk; by apply not_elem_of_nil in Hk|by intros [? ?]].
  - intros i x m' r Hi IH Hm. destruct (Hm i x (lookup_insert_eq _ _ _)) as [j Hj].
    destruct IH as (l & -> & Hnd & Hdom & Hl).
    { intros k v Hk. apply (Hm k v). rewrite lookup_insert_ne; [done|]. intros ->. by rewrite Hi in Hk. }
    exists ((i, j) :: l). cbn [mbind option_bind]. rewrite Hj. cbn [fmap list_fmap fst]. split_and!; [done| | |].
    + apply NoDup_cons. split; [|done]. rewrite Hdom, Hi. by intros [? ?].
    + intros k. rewrite elem_of_cons, Hdom. destruct (decide (k = i)) as [->|Hk]; [rewrite lookup_insert_eq; naive_solver|].
      rewrite lookup_insert_ne by done. naive_solver.
    + intros k v Hk. destruct (decide (k = i)) as [->|Hne].
      * rewrite lookup_insert_eq in Hk. injection Hk as <-. exists j. split; [done|]. by left.
      * rewrite lookup_insert_ne in Hk by done. destruct (Hl k v Hk) as (j' & Hj' & Hin). exists j'. split; [done|]. by right.
Qed.

(** ** Reading a field back *)

(** The field [n] of an object whose other keys are other names. *)
Lemma field_in_absent {A} (l : list (string * json)) n (d : dec A) x :
  (forall k, k ∈ l.*1 -> fold_name k <> fold_name n) -> field_in l n d x = Some x.
Proof.
  unfold field_in. generalize (Some x). induction l as [|[k j] l IH]; intros o Hl; [done|]. cbn [foldl fst snd].
  rewrite (proj2 (String.eqb_neq _ _)) by (apply Hl; by left). apply IH. intros k' Hk'. apply Hl. by right.
Qed.

Lemma field_in_present {A} (l : list (string * json)) n (d : dec A) x j :
  NoDup l.*1 -> (forall k, k ∈ l.*1 -> fold_name k = fold_name n -> k = n) -> (n, j) ∈ l -> field_in l n d x = d j x.
Proof.
  induction l as [|[k j'] l IH]; intros Hnd Hl Hin; [by apply not_elem_of_nil in Hin|].
  cbn [fmap list_fmap fst] in *. apply NoDup_cons in Hnd as [Hk Hnd].
  assert (forall k' : string, k' ∈ l.*1 -> fold_name k' = fold_name n -> k' = n) as Hl' by (intros k' Hk'; apply Hl; by right).
  apply elem_of_cons in Hin as [[= <- <-]|Hin].
  - unfold field_in. cbn [foldl fst snd]. rewrite String.eqb_refl. cbn [mbind option_bind].
    destruct (d j x) as [y|]; [|clear; by induction l as [|[k j] l IH]; cbn; [|case_match]].
    apply (field_in_absent l n d y). intros k Hk' Hf. by rewrite (Hl' k Hk' Hf) in Hk'.
  - unfold field_in in *. cbn [foldl fst snd]. destruct (String.eqb_spec (fold_name k) (fold_name n)) as [Hf|Hf]; [|by apply IH].
    assert (k = n) as -> by (apply Hl; [by left|done]). exfalso. apply Hk. apply list_elem_of_fmap. by exists (n, j).
Qed.

(** What a struct field contributed decodes to [a], from the zero value [x0]. *)
Definition reads_as {A} (fs : fields) (k : string) (d : dec A) (x0 a : A) : Prop :=
  fs = Some [] /\ a = x0 \/ exists v j, fs = Some [(k, v)] /\ json_of v = Some j /\ d j x0 = Some a.

(** Encoded, [a] decodes to itself from the zero value. *)
Definition roundtrips {A} (enc : A -> option value) (d : dec A) (zero a : A) : Prop :=
  exists v j, enc a = Some v /\ json_of v = Some j /\ j <> JNull /\ d j zero = Some a.

Lemma reads_f_str k s : reads_as (f_str k s) k d_str "" s.
Proof. right. by exists (VString s), (JStr s). Qed.

Lemma reads_o_str k s : reads_as (o_str k s) k d_str "" s.
Proof. unfold o_str. destruct (String.eqb_spec s "") as [->|]; [by left|apply reads_f_str]. Qed.

Lemma reads_o_bool k b : reads_as (o_bool k b) k d_bool false b.
Proof. destruct b; [right; by exists (VBool true), (JBool true)|by left]. Qed.

Lemma reads_f_int k z : exact_int z = true -> reads_as (f_int k z) k d_int 0%Z z.
Proof.
  intros Hz. right. exists (VFloat z 0), (JNum (itoa z)). split_and!; [done| |].
  - cbn [json_of]. by rewrite Hz.
  - apply atoi_itoa. apply Z.leb_le in Hz. unfold min_int, max_int. lia.
Qed.

Lemma reads_o_int k z : exact_int z = true -> reads_as (o_int k z) k d_int 0%Z z.
Proof. intros Hz. unfold o_int. destruct (Z.eqb_spec z 0) as [->|]; [by left|by apply reads_f_int]. Qed.

Lemma reads_f_enc {A} k (enc : A -> option value) d zero a : roundtrips enc d zero a -> reads_as (f_enc k (enc a)) k d zero a.
Proof. intros (v & j & He & Hj & _ & Hd). right. exists v, j. by rewrite He. Qed.

Lemma roundtrips_list {A} (enc : A -> option value) d zero l :
  Forall (roundtrips enc d zero) l -> roundtrips (fun l => VSlice <$> mapM enc l) (d_list zero d) [] l.
Proof.
  intros Hl. enough (exists vs js, mapM enc l = Some vs /\ mapM json_of vs = Some js /\ d_elems zero d js [] = Some l) as (vs & js & H1 & H2 & H3).
  { exists (VSlice vs), (JArr js). rewrite H1. split_and!; [done| |done|done]. by rewrite json_of_slice, H2. }
  induction Hl as [|a l (v & j & He & Hj & _ & Hd) Hl (vs & js & H1 & H2 & H3)]; [by exists [], []|].
  exists (v :: vs), (j :: js). cbn. rewrite He. cbn. rewrite H1. cbn. rewrite Hj. cbn. rewrite H2. cbn. split_and!; [done|done|].
  rewrite Hd. cbn. by rewrite H3.
Qed.

Lemma reads_f_list {A} k (enc : A -> option value) d zero l :
  Forall (roundtrips enc d zero) l -> reads_as (f_list k enc l) k (d_list zero d) [] l.
Proof. intros Hl. apply (reads_f_enc k (fun l => VSlice <$> mapM enc l)). by apply roundtrips_list. Qed.

Lemma reads_o_list {A} k (enc : A -> option value) d zero l :
  Forall (roundtrips enc d zero) l -> reads_as (o_list k enc l) k (d_list zero d) [] l.
Proof. intros Hl. destruct l; [by left|by apply reads_f_list]. Qed.

Definition holds {A} (P : A -> Prop) (o : option A) : Prop := match o with Some a => P a | None => True end.

Lemma reads_o_opt {A} k (enc : A -> option value) d zero o :
  holds (roundtrips enc d zero) o -> reads_as (o_opt k enc o) k (d_ptr zero d) None o.
Proof.
  destruct o as [a|]; [|by left]. intros (v & j & He & Hj & Hn & Hd). right. exists v, j. cbn [o_opt]. rewrite He.
  split_and!; [done|done|]. unfold d_ptr. cbn [default]. destruct j; [done|by rewrite Hd..].
Qed.

Lemma roundtrips_str s : roundtrips str_value d_str "" s.
Proof. by exists (VString s), (JStr s). Qed.

Lemma Forall_str l : Forall (roundtrips str_value d_str "") l.
Proof. apply Forall_true, roundtrips_str. Qed.

Lemma roundtrips_bool b : roundtrips bool_value d_bool false b.
Proof. by exists (VBool b), (JBool b). Qed.

(** *** A whole struct *)
Definition contributes (p : string * fields) : Prop := exists A (d : dec A) x0 a, reads_as p.2 p.1 d x0 a.

Lemma contributes_alt k fs : contributes (k, fs) -> exists ls, fs = Some ls /\ (ls = [] \/ exists v j, ls = [(k, v)] /\ json_of v = Some j).
Proof. unfold contributes. cbn [fst snd]. intros (A & d & x0 & a & [[-> _]|(v & j & -> & Hj & _)]); eexists; split; [done|by left|done|]. right. eauto. Qed.

Lemma obj_reads (L : list (string * fields)) :
  NoDup (map (fun p => fold_name p.1) L) -> Forall contributes L ->
  exists v l, obj (map snd L) = Some v /\ json_of v = Some (JObj l) /\
    (forall k fs A (d : dec A) x0 a, (k, fs) ∈ L -> reads_as fs k d x0 a -> field_in l k d x0 = Some a) /\
    (forall n A (d : dec A) x0, fold_name n ∉ map (fun p => fold_name p.1) L -> field_in l n d x0 = Some x0).
Proof.
  intros Hnd HL.
  assert (exists ls : list (list (string * value)), map snd L = map Some ls) as [ls Hls].
  { clear Hnd. induction HL as [|[k fs] L (x & -> & _)%contributes_alt HL [ls Hls]]; [by exists []|]. exists (x :: ls). cbn. by rewrite Hls. }
  set (m := list_to_map (concat ls) : object).
  assert (obj (map snd L) = Some (VMap m)) as Hobj.
  { unfold obj. rewrite Hls. assert (mapM id (map Some ls) = Some ls) as -> by (clear; induction ls as [|x ls IH]; [done|]; cbn; by rewrite IH). done. }
  assert (Forall2 only_key (map fst L) (map snd L)) as Hok.
  { clear Hnd Hls Hobj m ls. induction HL as [|[k fs] L H HL IH]; cbn; constructor; [|done].
    apply contributes_alt in H as (x & -> & [->|(v & j & -> & _)]); cbn; repeat constructor. }
  assert (NoDup (map fst L)) as Hnk by (apply (NoDup_fmap_1 fold_name); by rewrite <-list_fmap_compose).
  assert (forall k, is_Some (m !! k) -> k ∈ map fst L) as Hdom.
  { intros k [v Hv]. destruct (decide (k ∈ map fst L)) as [|Hk]; [done|].
    by rewrite (obj_lookup_other _ _ _ _ Hok Hobj Hk) in Hv. }
  assert (forall k fs, (k, fs) ∈ L -> m !! k = match fs with Some l => (list_to_map l : object) !! k | None => None end) as Hlook.
  { intros k fs [i Hi]%list_elem_of_lookup_1. eapply (obj_lookup _ _ _ i); [done|done|done|by rewrite list_lookup_fmap, Hi|by rewrite list_lookup_fmap, Hi]. }
  assert (forall k v, m !! k = Some v -> is_Some (json_of v)) as Hjs.
  { intros k v Hv. pose proof (Hdom k ltac:(by eexists)) as Hk. apply list_elem_of_fmap in Hk as ([k' fs] & -> & Hin). cbn [fst] in Hv.
    rewrite (Hlook _ _ Hin) in Hv. rewrite Forall_forall in HL. destruct (contributes_alt _ _ (HL _ Hin)) as (x & -> & [->|(v' & j & -> & Hj)]); [done|].
    cbn in Hv. rewrite lookup_insert_eq in Hv. injection Hv as <-. by exists j. }
  destruct (json_of_map m Hjs) as (l & Hl & Hnl & Hkeys & Hent). exists (VMap m), l. split_and!; [done|done| |].
  - intros k fs A d x0 a Hin [[-> ->]|(v & j & -> & Hj & Hd)].
    + apply field_in_absent. intros k' Hk' Hf. pose proof (Hdom k' (proj1 (Hkeys k') Hk')) as Hk2. apply list_elem_of_fmap in Hk2 as ([k2 fs2] & -> & Hin2). cbn [fst] in *.
      assert ((k, Some []) = (k2, fs2)) as [= -> <-].
      { apply list_elem_of_lookup_1 in Hin as [i Hi], Hin2 as [i2 Hi2].
        assert (i = i2) as <-; [|congruence]. apply (NoDup_lookup _ _ _ (fold_name k) Hnd); [by rewrite list_lookup_fmap, Hi|by rewrite list_lookup_fmap, Hi2; cbn; rewrite Hf]. }
      apply Hkeys in Hk' as [v Hv]. rewrite (Hlook _ _ Hin) in Hv. done.
    + rewrite <-Hd. apply field_in_present; [done| |].
      * intros k' Hk' Hf. apply Hkeys, Hdom, list_elem_of_fmap in Hk' as ([k2 fs2] & -> & Hin2). cbn [fst] in *.
        apply list_elem_of_lookup_1 in Hin as [i Hi], Hin2 as [i2 Hi2].
        assert (i = i2) as <-; [|congruence]. apply (NoDup_lookup _ _ _ (fold_name k) Hnd); [by rewrite list_lookup_fmap, Hi|by rewrite list_lookup_fmap, Hi2; cbn; rewrite Hf].
      * assert (m !! k = Some v) as Hv by (rewrite (Hlook _ _ Hin); cbn; by rewrite lookup_insert_eq).
        destruct (Hent k v Hv) as (j' & Hj' & Hin'). by rewrite Hj in Hj'; injection Hj' as <-.
  - intros n A d x0 Hn. apply field_in_absent. intros k Hk Hf. apply Hkeys, Hdom, list_elem_of_fmap in Hk as ([k2 fs2] & -> & Hin2).
    apply Hn. rewrite <-Hf. apply list_elem_of_fmap. by exists (k2, fs2).
Qed.

Lemma contrib {A} k fs (d : dec A) x0 a : reads_as fs k d x0 a -> contributes (k, fs).
Proof. intros H. by exists A, d, x0, a. Qed.

Lemma holds_all {A} (Q : A -> Prop) o : (forall a, Q a) -> holds Q o.
Proof. intros H. destruct o; cbn; auto. Qed.

Lemma holds_impl {A} (P Q : A -> Prop) o : holds P o -> (forall a, P a -> Q a) -> holds Q o.
Proof. destruct o; cbn; auto. Qed.

Create HintDb rt.
#[export] Hint Resolve roundtrips_str roundtrips_bool : rt.

Ltac rt := solve [eauto with rt].
Ltac rt_list := first [apply Forall_str | apply Forall_true; intros; rt | eapply Forall_impl; [eassumption|intros; rt]].
Ltac rt_opt := first [apply holds_all; intros; rt | eapply holds_impl; [eassumption|intros; rt]].
Ltac reads :=
  first [apply reads_f_str | apply reads_o_str | apply reads_o_bool | apply reads_f_int; assumption | apply reads_o_int; assumption
        | eapply reads_f_list; rt_list | eapply reads_o_list; rt_list | eapply reads_o_opt; rt_opt | eapply reads_f_enc; rt].
Ltac mem := first [apply list_elem_of_here | apply list_elem_of_further; mem].

(** A struct whose fields are named [ks]; the goal has its encoder and decoder unfolded. *)
Ltac struct_rt ks :=
  unfold roundtrips;
  lazymatch goal with
  | |- exists v j, obj ?fs = _ /\ _ =>
    let L := eval cbv beta iota delta [zip_with] in (zip ks fs) in
    destruct (obj_reads L) as (rt_v & rt_l & ? & ? & rt_f & rt_n);
    [apply (bool_decide_unpack _); vm_compute; exact I | repeat (constructor; [eapply contrib; reads|]); constructor |];
    exists rt_v, (JObj rt_l); split; [assumption|split; [assumption|split; [discriminate|]]];
    unfold d_struct;
    repeat (match goal with
            | |- context [@field_in ?A rt_l ?k ?d ?x0] =>
              first [rewrite (rt_n k A d x0) by (apply (bool_decide_unpack _); vm_compute; exact I)
                    | erewrite (rt_f k _ A d x0); cycle 1; [mem|reads|]]
            end)
  end.

(** ** Well-formed values

    [P] of the param values, [N] of the numbers. *)
Section Wf.
Context {K : CoreV1} (P : ParamValue -> Prop) (N : Z -> Prop).

Definition wf_Param (p : Param) : Prop := P (p_Value p).
Definition wf_ParamSpec (p : ParamSpec) : Prop := holds P (ps_Default p).
Definition wf_ResourceList (r : ResourceList) : Prop := rl_Other r !! "cpu" = None /\ rl_Other r !! "memory" = None.
Definition wf_StepResources (r : StepResources) : Prop := wf_ResourceList (res_Limits r) /\ wf_ResourceList (res_Requests r).
Definition wf_Step (s : Step) : Prop := Forall wf_Param (st_Params s) /\ holds wf_StepResources (st_Resources s).
Definition wf_StepTemplate (t : StepTemplate) : Prop := holds wf_StepResources (tm_Resources t).
Definition wf_ContainerPort (p : ContainerPort) : Prop := N (cp_ContainerPort p).
Definition wf_Sidecar (s : Sidecar) : Prop := holds wf_StepResources (sc_Resources s) /\ Forall wf_ContainerPort (sc_Ports s).

Definition wf_TaskSpec (t : TaskSpec) : Prop :=
  Forall wf_ParamSpec (ts_Params t) /\ Forall wf_Step (ts_Steps t) /\ holds wf_StepTemplate (ts_StepTemplate t) /\ Forall wf_Sidecar (ts_Sidecars t).

Definition wf_ResolverParam (p : ResolverParam) : Prop := P (rp_Value p).
Definition wf_TaskRef (r : TaskRef) : Prop := Forall wf_ResolverParam (tr_ResolverParams r).
Definition wf_MatrixInclude (i : MatrixInclude) : Prop := Forall wf_Param (mi_Params i).
Definition wf_Matrix (m : Matrix) : Prop := Forall wf_MatrixInclude (mx_Include m).

Definition wf_PipelineTask (p : PipelineTask) : Prop :=
  holds wf_TaskRef (pt_TaskRef p) /\ holds wf_TaskSpec (pt_TaskSpec p) /\ Forall wf_Param (pt_Params p) /\ N (pt_Retries p) /\
  holds wf_Matrix (pt_Matrix p) /\ pt_MatrixInfo p = None.

Definition wf_PipelineResultSpec (r : PipelineResultSpec) : Prop := P (prs_Value r).

Definition wf_PipelineSpec (s : PipelineSpec) : Prop :=
  Forall wf_ParamSpec (spec_Params s) /\ Forall wf_PipelineTask (spec_Tasks s) /\ Forall wf_PipelineTask (spec_Finally s) /\
  Forall wf_PipelineResultSpec (spec_Results s).
End Wf.

(** A value of one of the three kinds, with nothing of another kind. *)
Definition canonical (v : ParamValue) : Prop :=
  v = StringParam (pv_StringVal v) \/ v = ArrayParam (pv_ArrayVal v) \/ v = ObjectParam (pv_ObjectVal v).

Definition exact (z : Z) : Prop := exact_int z = true.

(** ** Maps of strings *)
Definition str_entry (kv : string * string) : string * json := (kv.1, JStr kv.2).

Definition insert_all (m : gmap string string) (l : list (string * string)) : gmap string string :=
  foldl (fun m kv => <[kv.1 := kv.2]> m) m l.

Lemma insert_all_perm l m x : l ≡ₚ map_to_list m -> insert_all x l = m ∪ x.
Proof.
  intros Hl. assert (NoDup l.*1) as Hnd by (rewrite Hl; apply NoDup_fst_map_to_list).
  assert (m = list_to_map l) as -> by by rewrite (list_to_map_proper l _ Hnd Hl), list_to_map_to_list.
  clear Hl. revert x. induction l as [|[k v] l IH]; intros x; [symmetry; apply (left_id_L ∅ (∪))|].
  cbn in Hnd. apply NoDup_cons in Hnd as [Hk Hnd]. cbn [insert_all foldl fst snd]. fold (insert_all (<[k := v]> x) l). rewrite IH by done.
  rewrite list_to_map_cons, <-insert_union_l, <-insert_union_r; [done|]. by apply not_elem_of_list_to_map_1.
Qed.

Lemma d_map_entries x l : d_map (JObj (map str_entry l)) x = Some (insert_all x l).
Proof.
  unfold d_map. revert x. induction l as [|[k v] l IH]; intros x; [done|]. cbn [map foldl mbind option_bind str_entry fst snd d_str]. apply IH.
Qed.

Lemma map_value_json m : exists l, json_of (map_value m) = Some (JObj (map str_entry l)) /\ l ≡ₚ map_to_list m.
Proof.
  unfold map_value. cbn [json_of]. enough (exists l,
    map_fold (fun k v acc => l ← acc; j ← json_of v; Some ((k, j) :: l)) (Some []) (VString <$> m) = Some (map str_entry l) /\ l ≡ₚ map_to_list m) as (l & -> & Hl) by by exists l.
  rewrite map_fold_fmap. refine (map_fold_weak_ind (fun acc m => exists l, acc = Some (map str_entry l) /\ l ≡ₚ map_to_list m) _ _ _ _ m).
  - by exists [].
  - intros i x m' r Hi (l & -> & Hl). exists ((i, x) :: l). split; [done|]. by rewrite Hl, map_to_list_insert.
Qed.

Lemma roundtrips_map m : roundtrips (fun m => Some (map_value m)) d_map ∅ m.
Proof.
  destruct (map_value_json m) as (l & Hl & Hp). exists (map_value m), (JObj (map str_entry l)). split_and!; [done|done|done|].
  by rewrite d_map_entries, (insert_all_perm l m), (right_id_L ∅ (∪)).
Qed.

(** *** Resources *)
Definition res_of (m : gmap string string) : ResourceList :=
  mkResourceList (default "" (m !! "cpu")) (default "" (m !! "memory")) (delete "cpu" (delete "memory" m)).

(** Maps that agree but for the two names. *)
Ltac same_rest :=
  apply map_eq; intros ?j;
  match goal with |- context [_ !! ?j] => destruct (decide (j = "cpu")) as [->|]; [|destruct (decide (j = "memory")) as [->|]] end;
  simplify_map_eq; try done.

Lemma set_resource_of m k v : set_resource (res_of m) k v = res_of (<[k := v]> m).
Proof.
  unfold set_resource, res_of. cbn [rl_CPU rl_Memory rl_Other]. destruct (String.eqb_spec k "cpu") as [->|H1].
  { simplify_map_eq. f_equal. same_rest. }
  destruct (String.eqb_spec k "memory") as [->|H2]; simplify_map_eq; f_equal; same_rest.
  destruct (decide (j = k)) as [->|]; by simplify_map_eq.
Qed.

Lemma raw_entries_strings l m : l ≡ₚ map_to_list m -> raw_entries (map str_entry l) = JStr <$> m.
Proof.
  intros Hl. assert (NoDup l.*1) as Hnd by (rewrite Hl; apply NoDup_fst_map_to_list). unfold raw_entries.
  assert (list_to_map (map str_entry l) = JStr <$> m) as <-.
  { rewrite <-(list_to_map_to_list m), <-(list_to_map_proper l (map_to_list m) Hnd Hl), <-list_to_map_fmap. f_equal. }
  assert ((map str_entry l).*1 = l.*1) as E by (clear; induction l as [|[k v] l IH]; [done|]; cbn; by rewrite IH).
  symmetry. apply list_to_map_proper; [by rewrite E|]. apply Permutation_rev.
Qed.

Lemma dec_ResourceList_map `{MapRange} l m x : l ≡ₚ map_to_list m -> dec_ResourceList (JObj (map str_entry l)) x = Some (res_of m).
Proof.
  intros Hl. cbn [dec_ResourceList]. rewrite (raw_entries_strings l m Hl).
  assert (exists l', map_range (JStr <$> m) = map str_entry l' /\ l' ≡ₚ map_to_list m) as (l' & -> & Hl').
  { pose proof (map_range_perm (JStr <$> m)) as Hp. rewrite map_to_list_fmap in Hp.
    apply Permutation_map_inv in Hp as (l' & E & Hp). exists l'. split; [|done]. rewrite E. apply map_ext. by intros [k v]. }
  change zero_ResourceList with (res_of ∅). rewrite <-(right_id_L ∅ (∪) m), <-(insert_all_perm l' m ∅ Hl'). clear.
  generalize (∅ : gmap string string) as y. induction l' as [|[k v] l IH]; intros y; [done|].
  cbn [map foldl str_entry fst snd mbind option_bind quantity]. rewrite set_resource_of. apply IH.
Qed.

Lemma ResourceList_rt `{MapRange} r : wf_ResourceList r -> roundtrips ResourceList_value dec_ResourceList zero_ResourceList r.
Proof.
  intros [H1 H2]. unfold roundtrips, ResourceList_value. cbv zeta. set (m := if String.eqb (rl_Memory r) "" then _ else _).
  destruct (map_value_json m) as (l & Hl & Hp). exists (map_value m), (JObj (map str_entry l)). split_and!; [done|done|done|].
  rewrite (dec_ResourceList_map l m) by done. f_equal. subst m. destruct r as [c me o]. cbn in *. unfold res_of. clear Hl Hp.
  destruct (String.eqb_spec me "") as [->|Hm], (String.eqb_spec c "") as [->|Hc]; simplify_map_eq; f_equal; same_rest.
Qed.

Lemma ParamValue_rt v : canonical v -> roundtrips ParamValue_value dec_ParamValue zero_ParamValue v.
Proof.
  intros [-> | [-> | ->]]; unfold roundtrips, ParamValue_value; cbn [pv_Type pv_StringVal pv_ArrayVal pv_ObjectVal StringParam ArrayParam ObjectParam].
  - by exists (VString (pv_StringVal v)), (JStr (pv_StringVal v)).
  - destruct (roundtrips_list str_value d_str "" (pv_ArrayVal v) (Forall_str _)) as (w & j & Hw & Hj & Hn & Hd).
    assert (mapM str_value (pv_ArrayVal v) = Some (map VString (pv_ArrayVal v))) as E by (clear; induction (pv_ArrayVal v) as [|s l IH]; [done|]; cbn; by rewrite IH).
    rewrite E in Hw. injection Hw as <-. exists (VSlice (map VString (pv_ArrayVal v))), j. split_and!; [done|done|done|].
    destruct j as [|b|s|s|l|l]; try done. cbn [dec_ParamValue zero_ParamValue pv_ArrayVal]. by rewrite Hd.
  - destruct (roundtrips_map (pv_ObjectVal v)) as (w & j & [= <-] & Hj & Hn & Hd). exists (map_value (pv_ObjectVal v)), j. split_and!; [done|done|done|].
    destruct j as [|b|s|s|l|l]; try done. cbn [dec_ParamValue zero_ParamValue pv_ObjectVal]. by rewrite Hd.
Qed.
#[export] Hint Resolve ParamValue_rt : rt.

(** ** Each type of the schema *)
Section Schema.
Context `{MapRange}.
#[local] Hint Resolve ResourceList_rt : rt.

Lemma StepResources_rt x : wf_StepResources x -> roundtrips StepResources_value dec_StepResources zero_StepResources x.
Proof. intros [? ?]. unfold StepResources_value, dec_StepResources. struct_rt ["limits"; "requests"]. by destruct x. Qed.
#[local] Hint Resolve StepResources_rt : rt.
Lemma Param_rt x : wf_Param canonical x -> roundtrips Param_value dec_Param zero_Param x.
Proof. intros Hx. unfold wf_Param in Hx. unfold Param_value, dec_Param. struct_rt ["name"; "value"]. by destruct x. Qed.
#[local] Hint Resolve Param_rt : rt.
Lemma ParamSpec_rt x : wf_ParamSpec canonical x -> roundtrips ParamSpec_value dec_ParamSpec zero_ParamSpec x.
Proof. intros Hx. unfold wf_ParamSpec in Hx. unfold ParamSpec_value, dec_ParamSpec. struct_rt ["name"; "type"; "description"; "default"]. by destruct x. Qed.
#[local] Hint Resolve ParamSpec_rt : rt.
Lemma ResultSpec_rt x : roundtrips ResultSpec_value dec_ResultSpec zero_ResultSpec x.
Proof. unfold ResultSpec_value, dec_ResultSpec. struct_rt ["name"; "description"; "type"]. by destruct x. Qed.
#[local] Hint Resolve ResultSpec_rt : rt.
Lemma KeyToPath_rt x : roundtrips KeyToPath_value dec_KeyToPath zero_KeyToPath x.
Proof. unfold KeyToPath_value, dec_KeyToPath. struct_rt ["key"; "path"]. by destruct x. Qed.
#[local] Hint Resolve KeyToPath_rt : rt.
Lemma EmptyDirSource_rt x : roundtrips EmptyDirSource_value dec_EmptyDirSource zero_EmptyDirSource x.
Proof. unfold EmptyDirSource_value, dec_EmptyDirSource. struct_rt ["medium"]. by destruct x. Qed.
#[local] Hint Resolve EmptyDirSource_rt : rt.
Lemma HostPathSource_rt x : roundtrips HostPathSource_value dec_HostPathSource zero_HostPathSource x.
Proof. unfold HostPathSource_value, dec_HostPathSource. struct_rt ["path"; "type"]. by destruct x. Qed.
#[local] Hint Resolve HostPathSource_rt : rt.
Lemma ConfigMapSource_rt x : roundtrips ConfigMapSource_value dec_ConfigMapSource zero_ConfigMapSource x.
Proof. unfold ConfigMapSource_value, dec_ConfigMapSource. struct_rt ["name"; "items"; "optional"]. by destruct x. Qed.
#[local] Hint Resolve ConfigMapSource_rt : rt.
Lemma SecretSource_rt x : roundtrips SecretSource_value dec_SecretSource zero_SecretSource x.
Proof. unfold SecretSource_value, dec_SecretSource. struct_rt ["secretName"; "items"; "optional"]. by destruct x. Qed.
#[local] Hint Resolve SecretSource_rt : rt.
Lemma Volume_rt x : roundtrips Volume_value dec_Volume zero_Volume x.
Proof. unfold Volume_value, dec_Volume. struct_rt ["name"; "emptyDir"; "hostPath"; "configMap"; "secret"]. by destruct x. Qed.
#[local] Hint Resolve Volume_rt : rt.
Lemma VolumeMount_rt x : roundtrips VolumeMount_value dec_VolumeMount zero_VolumeMount x.
Proof. unfold VolumeMount_value, dec_VolumeMount. struct_rt ["name"; "mountPath"; "readOnly"; "subPath"]. by destruct x. Qed.
#[local] Hint Resolve VolumeMount_rt : rt.
Lemma WorkspaceDecl_rt x : roundtrips WorkspaceDecl_value dec_WorkspaceDecl zero_WorkspaceDecl x.
Proof. unfold WorkspaceDecl_value, dec_WorkspaceDecl. struct_rt ["name"; "description"; "mountPath"; "readOnly"; "optional"]. by destruct x. Qed.
#[local] Hint Resolve WorkspaceDecl_rt : rt.
Lemma WorkspaceUsage_rt x : roundtrips WorkspaceUsage_value dec_WorkspaceUsage zero_WorkspaceUsage x.
Proof. unfold WorkspaceUsage_value, dec_WorkspaceUsage. struct_rt ["name"; "mountPath"; "subPath"]. by destruct x. Qed.
#[local] Hint Resolve WorkspaceUsage_rt : rt.
Lemma ContainerPort_rt x : wf_ContainerPort exact x -> roundtrips ContainerPort_value dec_ContainerPort zero_ContainerPort x.
Proof. intros Hx. unfold wf_ContainerPort in Hx. unfold ContainerPort_value, dec_ContainerPort. struct_rt ["name"; "containerPort"; "protocol"]. by destruct x. Qed.
#[local] Hint Resolve ContainerPort_rt : rt.
Lemma WorkspaceBinding_rt x : roundtrips WorkspaceBinding_value dec_WorkspaceBinding zero_WorkspaceBinding x.
Proof. unfold WorkspaceBinding_value, dec_WorkspaceBinding. struct_rt ["name"; "workspace"; "subPath"]. by destruct x. Qed.
#[local] Hint Resolve WorkspaceBinding_rt : rt.
Lemma WhenExpression_rt x : roundtrips WhenExpression_value dec_WhenExpression zero_WhenExpression x.
Proof. unfold WhenExpression_value, dec_WhenExpression. struct_rt ["input"; "operator"; "values"]. by destruct x. Qed.
#[local] Hint Resolve WhenExpression_rt : rt.
Lemma StepActionRef_rt x : roundtrips StepActionRef_value dec_StepActionRef zero_StepActionRef x.
Proof. unfold StepActionRef_value, dec_StepActionRef. struct_rt ["name"]. by destruct x. Qed.
#[local] Hint Resolve StepActionRef_rt : rt.
Lemma ResolverParam_rt x : wf_ResolverParam canonical x -> roundtrips ResolverParam_value dec_ResolverParam zero_ResolverParam x.
Proof. intros Hx. unfold wf_ResolverParam in Hx. unfold ResolverParam_value, dec_ResolverParam. struct_rt ["name"; "value"]. by destruct x. Qed.
#[local] Hint Resolve ResolverParam_rt : rt.
Lemma TaskRef_rt x : wf_TaskRef canonical x -> roundtrips TaskRef_value dec_TaskRef zero_TaskRef x.
Proof. intros Hx. unfold wf_TaskRef in Hx. unfold TaskRef_value, dec_TaskRef. struct_rt ["name"; "kind"; "resolver"; "params"]. by destruct x. Qed.
#[local] Hint Resolve TaskRef_rt : rt.
Lemma MatrixParam_rt x : roundtrips MatrixParam_value dec_MatrixParam zero_MatrixParam x.
Proof. unfold MatrixParam_value, dec_MatrixParam. struct_rt ["name"; "value"]. by destruct x. Qed.
#[local] Hint Resolve MatrixParam_rt : rt.
Lemma MatrixInclude_rt x : wf_MatrixInclude canonical x -> roundtrips MatrixInclude_value dec_MatrixInclude zero_MatrixInclude x.
Proof. intros Hx. unfold wf_MatrixInclude in Hx. unfold MatrixInclude_value, dec_MatrixInclude. struct_rt ["name"; "params"]. by destruct x. Qed.
#[local] Hint Resolve MatrixInclude_rt : rt.
Lemma Matrix_rt x : wf_Matrix canonical x -> roundtrips Matrix_value dec_Matrix zero_Matrix x.
Proof. intros Hx. unfold wf_Matrix in Hx. unfold Matrix_value, dec_Matrix. struct_rt ["params"; "include"]. by destruct x. Qed.
#[local] Hint Resolve Matrix_rt : rt.
Lemma Timeouts_rt x : roundtrips Timeouts_value dec_Timeouts zero_Timeouts x.
Proof. unfold Timeouts_value, dec_Timeouts. struct_rt ["pipeline"; "tasks"; "finally"]. by destruct x. Qed.
#[local] Hint Resolve Timeouts_rt : rt.
Lemma PipelineWorkspaceDecl_rt x : roundtrips PipelineWorkspaceDecl_value dec_PipelineWorkspaceDecl zero_PipelineWorkspaceDecl x.
Proof. unfold PipelineWorkspaceDecl_value, dec_PipelineWorkspaceDecl. struct_rt ["name"; "description"; "optional"]. by destruct x. Qed.
#[local] Hint Resolve PipelineWorkspaceDecl_rt : rt.
Lemma PipelineResultSpec_rt x : wf_PipelineResultSpec canonical x -> roundtrips PipelineResultSpec_value dec_PipelineResultSpec zero_PipelineResultSpec x.
Proof. intros Hx. unfold wf_PipelineResultSpec in Hx. unfold PipelineResultSpec_value, dec_PipelineResultSpec. struct_rt ["name"; "description"; "value"]. by destruct x. Qed.
#[local] Hint Resolve PipelineResultSpec_rt : rt.

(** *** Steps, Tasks and Pipelines *)

(** What is relied on of the Kubernetes types: their JSON decodes to them again. *)
Class CoreRoundtrip {K : CoreV1} {J : CoreJson} {D : CoreDecode} := {
  SecurityContext_rt : forall c, roundtrips (fun c => Some (SecurityContext_value c)) dec_SecurityContext zero_SecurityContext c;
  EnvFromSource_rt : forall c, roundtrips (fun c => Some (EnvFromSource_value c)) dec_EnvFromSource zero_EnvFromSource c;
  EnvVarSource_rt : forall c, roundtrips (fun c => Some (EnvVarSource_value c)) dec_EnvVarSource zero_EnvVarSource c;
}.

Section Core.
Context {K : CoreV1} {J : CoreJson} {D : CoreDecode} {R : CoreRoundtrip}.
#[local] Hint Resolve SecurityContext_rt EnvFromSource_rt EnvVarSource_rt : rt.

Lemma EnvVar_rt x : roundtrips EnvVar_value dec_EnvVar zero_EnvVar x.
Proof. unfold EnvVar_value, dec_EnvVar. struct_rt ["name"; "value"; "valueFrom"]. by destruct x. Qed.
#[local] Hint Resolve EnvVar_rt : rt.

Lemma Step_rt x : wf_Step canonical x -> roundtrips Step_value dec_Step zero_Step x.
Proof.
  intros [? ?]. unfold Step_value, dec_Step, d_fresh.
  struct_rt ["name"; "displayName"; "description"; "ref"; "params"; "image"; "command"; "args"; "script"; "env"; "workingDir";
             "computeResources"; "imagePullPolicy"; "securityContext"; "envFrom"; "timeout"; "onError"; "results"; "volumeMounts"].
  destruct x as [? ? ? ? ? ? ? ? ? ? ? [] ? ? ? ? ? ? ?]; done.
Qed.
#[local] Hint Resolve Step_rt : rt.

Lemma StepTemplate_rt x : wf_StepTemplate x -> roundtrips StepTemplate_value dec_StepTemplate zero_StepTemplate x.
Proof.
  intros Hx. unfold wf_StepTemplate in Hx. unfold StepTemplate_value, dec_StepTemplate, d_fresh.
  struct_rt ["image"; "command"; "args"; "env"; "workingDir"; "computeResources"; "imagePullPolicy"; "securityContext"; "envFrom"].
  destruct x as [? ? ? ? ? [] ? ? ?]; done.
Qed.
#[local] Hint Resolve StepTemplate_rt : rt.

Lemma Sidecar_rt x : wf_Sidecar exact x -> roundtrips Sidecar_value dec_Sidecar zero_Sidecar x.
Proof.
  intros [? ?]. unfold Sidecar_value, dec_Sidecar, d_fresh.
  struct_rt ["name"; "image"; "command"; "args"; "script"; "env"; "workingDir"; "computeResources"; "volumeMounts"; "workspaces"; "ports";
             "imagePullPolicy"; "securityContext"; "envFrom"].
  destruct x as [? ? ? ? ? ? ? [] ? ? ? ? ? ?]; done.
Qed.
#[local] Hint Resolve Sidecar_rt : rt.

Lemma TaskSpec_rt x : wf_TaskSpec canonical exact x -> roundtrips TaskSpec_value dec_TaskSpec zero_TaskSpec x.
Proof.
  intros (? & ? & ? & ?). unfold TaskSpec_value, dec_TaskSpec.
  struct_rt ["params"; "results"; "workspaces"; "steps"; "displayName"; "description"; "timeout"; "volumes"; "stepTemplate"; "sidecars"].
  by destruct x.
Qed.
#[local] Hint Resolve TaskSpec_rt : rt.

Lemma PipelineTask_rt x : wf_PipelineTask canonical exact x -> roundtrips PipelineTask_value dec_PipelineTask zero_PipelineTask x.
Proof.
  intros (? & ? & ? & ? & ? & Hm). unfold PipelineTask_value, dec_PipelineTask.
  struct_rt ["name"; "displayName"; "taskRef"; "taskSpec"; "params"; "workspaces"; "runAfter"; "when"; "retries"; "timeout"; "matrix"].
  destruct x. cbn in Hm. by subst.
Qed.
#[local] Hint Resolve PipelineTask_rt : rt.

Lemma PipelineSpec_rt x : wf_PipelineSpec canonical exact x -> roundtrips PipelineSpec_value dec_PipelineSpec zero_PipelineSpec x.
Proof.
  intros (? & ? & ? & ?). unfold PipelineSpec_value, dec_PipelineSpec.
  struct_rt ["displayName"; "description"; "params"; "workspaces"; "tasks"; "finally"; "results"; "timeouts"].
  by destruct x.
Qed.
End Core.
End Schema.

(** ** What decoding gives *)

(** No object names a field twice, whatever the case. *)
Fixpoint tidy (j : json) : bool :=
  match j with
  | JArr l => forallb tidy l
  | JObj l => bool_decide (NoDup (map (fun kv => fold_name kv.1) l)) && forallb (fun kv => tidy kv.2) l
  | _ => true
  end.

(** What a decoder makes of the zero value. *)
Definition gives {A} (Q : A -> Prop) (d : dec A) (zero : A) : Prop := Q zero /\ forall j y, tidy j = true -> d j zero = Some y -> Q y.

Lemma field_in_cases {A} l n (d : dec A) x y :
  NoDup (map (fun kv => fold_name kv.1) l) -> field_in l n d x = Some y -> y = x \/ exists k j, (k, j) ∈ l /\ d j x = Some y.
Proof.
  unfold field_in. induction l as [|[k j] l IH]; intros Hnd Hy; [left; by injection Hy|]. cbn [map fst] in Hnd. apply NoDup_cons in Hnd as [Hk Hnd].
  cbn [foldl fst snd] in Hy. destruct (String.eqb_spec (fold_name k) (fold_name n)) as [E|E].
  - right. exists k, j. split; [by left|]. cbn [mbind option_bind] in Hy. destruct (d j x) as [z|].
    + assert (field_in l n d z = Some z) as Hz.
      { apply field_in_absent. intros k' Hk' E'. apply Hk. rewrite E, <-E'. apply list_elem_of_fmap in Hk' as (kv & -> & Hkv).
        apply list_elem_of_fmap. by exists kv. }
      unfold field_in in Hz. rewrite Hz in Hy. by injection Hy as ->.
    + exfalso. revert Hy. clear. induction l as [|[k j] l IH]; cbn; [done|]. case_match; exact IH.
  - destruct (IH Hnd Hy) as [->|(k' & j' & Hin & Hd)]; [by left|]. right. exists k', j'. split; [by right|done].
Qed.

Lemma tidy_obj l : tidy (JObj l) = true -> NoDup (map (fun kv => fold_name kv.1) l) /\ forall k j, (k, j) ∈ l -> tidy j = true.
Proof.
  cbn [tidy]. intros [H1%bool_decide_eq_true H2]%andb_true_iff. split; [done|]. intros k j Hin. rewrite forallb_forall in H2.
  by apply (H2 (k, j)), list_elem_of_In.
Qed.

Lemma gives_field {A} (Q : A -> Prop) d zero l n y :
  gives Q d zero -> tidy (JObj l) = true -> field_in l n d zero = Some y -> Q y.
Proof.
  intros [Hz Hd] [Hnd Hl]%tidy_obj Hy. destruct (field_in_cases l n d zero y Hnd Hy) as [->|(k & j & Hin & Hj)]; [done|].
  by apply (Hd j); [eapply Hl|].
Qed.

Lemma gives_list {A} (Q : A -> Prop) d zero : gives Q d zero -> gives (Forall Q) (d_list zero d) [].
Proof.
  intros [Hz Hd]. split; [constructor|]. intros j y Ht. destruct j as [| | | |l|]; cbn [d_list]; try done; [by intros [= <-]|].
  cbn [tidy] in Ht. revert y. induction l as [|j l IH]; intros y; cbn [d_elems]; [by intros [= <-]|].
  cbn [forallb] in Ht. apply andb_true_iff in Ht as [Hj Hl]. destruct (d j zero) as [a|] eqn:Ea; [|done]. cbn [mbind option_bind tail].
  destruct (d_elems zero d l []) as [rest|] eqn:Er; [|done]. intros [= <-]. constructor; [by apply (Hd j)|by apply IH].
Qed.

Lemma gives_ptr {A} (Q : A -> Prop) d zero : gives Q d zero -> gives (holds Q) (d_ptr zero d) None.
Proof.
  intros [Hz Hd]. split; [done|]. intros j y Ht. unfold d_ptr. cbn [default].
  assert ((a ← d j zero; Some (Some a)) = Some y -> holds Q y) as Hs; [|destruct j; try done; by intros [= <-]].
  destruct (d j zero) as [a|] eqn:E; [|done]. intros [= <-]. by apply (Hd j).
Qed.

Lemma gives_any {A} (d : dec A) zero : gives (fun _ => True) d zero.
Proof. done. Qed.

Create HintDb gives.
#[export] Hint Resolve gives_list gives_ptr : gives.

(** A struct: the null case is the zero value, the fields are read one after the other. *)
Ltac split_reads :=
  repeat (let E := fresh "E" in
          lazymatch goal with |- (field_in ?l ?n ?d ?x ≫= _) = _ -> _ => destruct (field_in l n d x) eqn:E; [|discriminate]; cbn [mbind option_bind] end);
  intros [= <-].
Ltac head_of t := lazymatch t with ?f _ => head_of f | _ => t end.
Ltac gives_struct :=
  split; [repeat split; first [done | by right | constructor]|]; intros j y Ht;
  lazymatch goal with |- ?t = _ -> _ => let d := head_of t in unfold d end;
  unfold d_struct, d_fresh; destruct j; try discriminate;
  [intros [= <-]; repeat split; first [done | by right | constructor]|]; split_reads.
Ltac by_field := eapply gives_field; [|eassumption|eassumption]; eauto with gives.

(** A value as decoding makes it: of one kind, or the zero value of a param without value. *)
Definition shaped (v : ParamValue) : Prop := canonical v \/ v = zero_ParamValue.
Definition no_bound (z : Z) : Prop := True.

Lemma ParamValue_gives : gives shaped dec_ParamValue zero_ParamValue.
Proof.
  split; [by right|]. intros j y _. destruct j as [|b|s|s|l|l]; cbn [dec_ParamValue].
  1: intros [= <-]; by right.
  1-3: intros [= <-]; left; by left.
  - destruct (d_list "" d_str (JArr l) _) as [a|]; [|done]. intros [= <-]. left; right; by left.
  - destruct (d_map (JObj l) _) as [m|]; [|done]. intros [= <-]. left; right; by right.
Qed.

Lemma ResourceList_gives `{MapRange} : gives wf_ResourceList dec_ResourceList zero_ResourceList.
Proof.
  split; [done|]. intros j y _. destruct j as [| | | | |l]; cbn [dec_ResourceList]; try done; [by intros [= <-]|].
  assert (wf_ResourceList zero_ResourceList) as Hz by done. revert Hz. generalize zero_ResourceList as r.
  induction (map_range (raw_entries l)) as [|[k j] es IH]; intros r Hr; [by intros [= <-]|]. cbn [foldl mbind option_bind fst snd].
  destruct (quantity j) as [v|]; [|intros Hy; exfalso; revert Hy; clear; induction es as [|e es IH]; [done|exact IH]]. cbn [mbind option_bind]. apply IH.
  destruct Hr as [H1 H2]. unfold set_resource. destruct (String.eqb_spec k "cpu"); [done|]. destruct (String.eqb_spec k "memory"); [done|].
  split; cbn; by rewrite lookup_insert_ne.
Qed.
#[export] Hint Resolve ParamValue_gives : gives.

Section Gives.
Context `{MapRange}.
#[local] Hint Resolve ResourceList_gives : gives.

Lemma StepResources_gives : gives wf_StepResources dec_StepResources zero_StepResources.
Proof. gives_struct. split; by_field. Qed.
#[local] Hint Resolve StepResources_gives : gives.

Lemma Param_gives : gives (wf_Param shaped) dec_Param zero_Param.
Proof. gives_struct. unfold wf_Param. by_field. Qed.
#[local] Hint Resolve Param_gives : gives.

Lemma ParamSpec_gives : gives (wf_ParamSpec shaped) dec_ParamSpec zero_ParamSpec.
Proof. gives_struct. unfold wf_ParamSpec. by_field. Qed.

Lemma ContainerPort_gives : gives (wf_ContainerPort no_bound) dec_ContainerPort zero_ContainerPort.
Proof. done. Qed.

Lemma ResolverParam_gives : gives (wf_ResolverParam shaped) dec_ResolverParam zero_ResolverParam.
Proof. gives_struct. unfold wf_ResolverParam. by_field. Qed.
#[local] Hint Resolve ParamSpec_gives ContainerPort_gives ResolverParam_gives : gives.

Lemma TaskRef_gives : gives (wf_TaskRef shaped) dec_TaskRef zero_TaskRef.
Proof. gives_struct. unfold wf_TaskRef. by_field. Qed.

Lemma MatrixInclude_gives : gives (wf_MatrixInclude shaped) dec_MatrixInclude zero_MatrixInclude.
Proof. gives_struct. unfold wf_MatrixInclude. by_field. Qed.
#[local] Hint Resolve TaskRef_gives MatrixInclude_gives : gives.

Lemma Matrix_gives : gives (wf_Matrix shaped) dec_Matrix zero_Matrix.
Proof. gives_struct. unfold wf_Matrix. by_field. Qed.

Lemma PipelineResultSpec_gives : gives (wf_PipelineResultSpec shaped) dec_PipelineResultSpec zero_PipelineResultSpec.
Proof. gives_struct. unfold wf_PipelineResultSpec. by_field. Qed.
#[local] Hint Resolve Matrix_gives PipelineResultSpec_gives : gives.

Section Core.
Context {K : CoreV1} {D : CoreDecode}.

Lemma or_legacy_holds (P : StepResources -> Prop) r l : holds P r -> holds P l -> holds P (or_legacy r l).
Proof. by destruct r. Qed.

Lemma Step_gives : gives (wf_Step shaped) dec_Step zero_Step.
Proof. gives_struct. split; [by_field|]. apply or_legacy_holds; by_field. Qed.

Lemma StepTemplate_gives : gives wf_StepTemplate dec_StepTemplate zero_StepTemplate.
Proof. gives_struct. apply or_legacy_holds; by_field. Qed.

Lemma Sidecar_gives : gives (wf_Sidecar no_bound) dec_Sidecar zero_Sidecar.
Proof. gives_struct. split; [apply or_legacy_holds; by_field|by_field]. Qed.
#[local] Hint Resolve Step_gives StepTemplate_gives Sidecar_gives : gives.

Lemma TaskSpec_gives : gives (wf_TaskSpec shaped no_bound) dec_TaskSpec zero_TaskSpec.
Proof. gives_struct. split_and!; by_field. Qed.
#[local] Hint Resolve TaskSpec_gives : gives.

Lemma PipelineTask_gives : gives (wf_PipelineTask shaped no_bound) dec_PipelineTask zero_PipelineTask.
Proof. gives_struct. split_and!; [by_field..|done|by_field|done]. Qed.
#[local] Hint Resolve PipelineTask_gives : gives.

Lemma PipelineSpec_gives : gives (wf_PipelineSpec shaped no_bound) dec_PipelineSpec zero_PipelineSpec.
Proof. gives_struct. split_and!; by_field. Qed.
End Core.
End Gives.
