(* ===== verification/SchemaSubmit.v ===== *)
(** * From a file to the cluster

    A Pipeline that the loader decoded by the schema of SchemaJson, submitted by
    ClusterSubmit: the composition of the two, over the round trips of SchemaProps. *)

From S2P Require Import Prelude GoStrings Json JsonText TektonTypes Run Loader LoaderProps ClusterStatus ClusterSubmit SchemaJson SchemaProps.
(** Two conditions on the values and the numbers, joined. *)
Lemma Forall_join {A} (P Q R : A -> Prop) l : (forall a, P a -> Q a -> R a) -> Forall P l -> Forall Q l -> Forall R l.
Proof. intros Himp HP. induction HP; intros HQ; inversion HQ; constructor; auto. Qed.

Lemma holds_join {A} (P Q R : A -> Prop) o : (forall a, P a -> Q a -> R a) -> holds P o -> holds Q o -> holds R o.
Proof. destruct o; cbn; auto. Qed.

Section Join.
Context {K : CoreV1} (P1 P2 P : ParamValue -> Prop) (N1 N2 N : Z -> Prop).
Hypothesis HP : forall v, P1 v -> P2 v -> P v.
Hypothesis HN : forall z, N1 z -> N2 z -> N z.

Lemma TaskSpec_join t : wf_TaskSpec P1 N1 t -> wf_TaskSpec P2 N2 t -> wf_TaskSpec P N t.
Proof.
  intros (H1 & H2 & H3 & H4) (G1 & G2 & G3 & G4). split_and!.
  - eapply Forall_join; [|exact H1|exact G1]. intros p. by apply holds_join.
  - eapply Forall_join; [|exact H2|exact G2]. intros s [Hs ?] [Gs ?]. split; [|done]. eapply Forall_join; [|exact Hs|exact Gs]. intros p. apply HP.
  - done.
  - eapply Forall_join; [|exact H4|exact G4]. intros s [? Hs] [? Gs]. split; [done|]. eapply Forall_join; [|exact Hs|exact Gs]. intros p. apply HN.
Qed.

Lemma PipelineTask_join p : wf_PipelineTask P1 N1 p -> wf_PipelineTask P2 N2 p -> wf_PipelineTask P N p.
Proof.
  intros (H1 & H2 & H3 & H4 & H5 & H6) (G1 & G2 & G3 & G4 & G5 & _). split_and!; [..|by apply HN| |done].
  - eapply holds_join; [|exact H1|exact G1]. intros r. apply Forall_join. intros x. apply HP.
  - eapply holds_join; [|exact H2|exact G2]. apply TaskSpec_join.
  - eapply Forall_join; [|exact H3|exact G3]. intros x. apply HP.
  - eapply holds_join; [|exact H5|exact G5]. intros m. apply Forall_join. intros i. apply Forall_join. intros x. apply HP.
Qed.

Lemma PipelineSpec_join s : wf_PipelineSpec P1 N1 s -> wf_PipelineSpec P2 N2 s -> wf_PipelineSpec P N s.
Proof.
  intros (H1 & H2 & H3 & H4) (G1 & G2 & G3 & G4). split_and!.
  - eapply Forall_join; [|exact H1|exact G1]. intros p. by apply holds_join.
  - eapply Forall_join; [|exact H2|exact G2]. apply PipelineTask_join.
  - eapply Forall_join; [|exact H3|exact G3]. apply PipelineTask_join.
  - eapply Forall_join; [|exact H4|exact G4]. intros r. apply HP.
Qed.
End Join.

(** Every param has a value, and the numbers are small. *)
Definition given (v : ParamValue) : Prop := pv_Type v <> "".

Lemma shaped_given v : shaped v -> given v -> canonical v.
Proof. by intros [H| ->]. Qed.

Section Submission.
Context {K : CoreV1} {J : CoreJson} {D : CoreDecode} {R : CoreRoundtrip} `{MapRange} `{YamlToJson}.

Definition zero_Pipeline : Pipeline := mkPipeline zero_Object zero_PipelineSpec.

Lemma Pipeline_gives : gives (fun p => wf_PipelineSpec shaped no_bound (pl_Spec p)) dec_Pipeline zero_Pipeline.
Proof.
  split; [repeat split; constructor|]. intros j y Ht. unfold dec_Pipeline, d_document, d_struct. destruct j as [| | | | |l]; try done.
  { intros [= <-]. repeat split; constructor. }
  destruct (read_Object l _) as [o|]; [|done]. cbn [mbind option_bind]. split_reads. cbn [pl_Spec].
  eapply gives_field; [apply PipelineSpec_gives|exact Ht|eassumption].
Qed.

Lemma submitted_decodes p :
  wf_PipelineSpec canonical exact (pl_Spec p) ->
  exists j, json_of (VMap (pipelineSpecToMap p)) = Some j /\ dec_PipelineSpec j zero_PipelineSpec = Some (pl_Spec p).
Proof.
  intros (v & j & He & Hj & _ & Hd)%PipelineSpec_rt. exists j. split; [|done]. unfold pipelineSpecToMap, spec_map. rewrite He.
  destruct (obj_map _ _ He) as [m ->]. exact Hj.
Qed.

Lemma loaded_Pipeline d b n p : loadOne empty_bundle d = Ok b -> b_Pipelines (fb_Bundle b) !! n = Some p -> yaml_Pipeline d = Ok p.
Proof.
  unfold loadOne. destruct (yaml_Object d) as [head|]; simpl; [|done].
  assert (forall b, loadStepAction empty_bundle d = Ok b -> b_Pipelines (fb_Bundle b) = ∅) as Hs.
  { intros b'. unfold loadStepAction. destruct (yaml_StepAction d); simpl; [|done]. rewrite lookup_empty. case_match; [done|]. by intros [= <-]. }
  assert (forall b, loadConfigMap empty_bundle d = Ok b -> b_Pipelines (fb_Bundle b) = ∅) as Hc.
  { intros b'. unfold loadConfigMap. destruct (yaml_configMapDoc d); simpl; [|done]. rewrite lookup_empty.
    do 2 (case_match; [done|]). destruct (foldM _ _ _); simpl; [|done]. by intros [= <-]. }
  assert (forall b, loadSecret empty_bundle d = Ok b -> b_Pipelines (fb_Bundle b) = ∅) as He.
  { intros b'. unfold loadSecret. destruct (yaml_secretDoc d); simpl; [|done]. rewrite lookup_empty.
    case_match; [done|]. destruct (foldM _ ∅ _); simpl; [|done]. destruct (foldM _ _ _); simpl; [|done]. by intros [= <-]. }
  repeat case_match; intros Hb Hp; try done; try (rewrite ?(Hs _ Hb), ?(Hc _ Hb), ?(He _ Hb), lookup_empty in Hp; done).
  unfold load_v1_kind in Hb. destruct (String.eqb (ob_Kind head) "Task").
  { destruct (yaml_Task d); simpl in Hb; [|done]. rewrite lookup_empty in Hb. injection Hb as <-. destruct (lookup_empty_Some _ _ Hp). }
  destruct (String.eqb (ob_Kind head) "Pipeline").
  { destruct (yaml_Pipeline d) as [q|] eqn:E; simpl in Hb; [|done]. rewrite lookup_empty in Hb. injection Hb as <-. simpl in Hp.
    apply lookup_singleton_Some in Hp as [_ ->]. exact E. }
  destruct (String.eqb (ob_Kind head) "PipelineRun").
  { destruct (yaml_PipelineRun d); simpl in Hb; [|done]. injection Hb as <-. destruct (lookup_empty_Some _ _ Hp). }
  destruct (String.eqb (ob_Kind head) "TaskRun"); [|done].
  destruct (yaml_TaskRun d); simpl in Hb; [|done]. injection Hb as <-. destruct (lookup_empty_Some _ _ Hp).
Qed.

(** C37: a Pipeline that was loaded from files is one of their documents, decoded by the json
    tags of the schema; and unless a document names a field twice in different cases, a
    Pipeline whose params all have values is submitted to the cluster in full: what
    pipelineSpecToMap encodes of it decodes to the same spec, every field of its tasks,
    steps, sidecars and results kept. *)
Theorem loaded_pipeline_submitted readFile paths b n p :
  LoadFiles readFile paths = Ok b -> b_Pipelines (fb_Bundle b) !! n = Some p ->
  exists path data id j, path ∈ paths /\ readFile path = Ok data /\ id ∈ documents data /\
    yaml_to_json TPipeline id.2 = Ok j /\ dec_Pipeline j zero_Pipeline = Some p /\
    (tidy j = true -> wf_PipelineSpec given exact (pl_Spec p) ->
     exists j', json_of (VMap (pipelineSpecToMap p)) = Some j' /\ dec_PipelineSpec j' zero_PipelineSpec = Some (pl_Spec p)).
Proof.
  intros (datas & Hds & Ho)%LoadFiles_spec Hp.
  apply (foldM_lookup (fun b => b_Pipelines (fb_Bundle b)) _ _ _ _ _ (fun _ _ => eq_refl) (fun a b Hab => proj1 (proj2 Hab)) Ho)
    in Hp as [Hp|(id & b' & Hid & [->|[Ht Hb]]%load_doc_ok & Hp)]; [exfalso; exact (lookup_empty_Some _ _ Hp)..|].
  apply list_elem_of_In, in_flat_map in Hid as (data & Hd & Hid). apply list_elem_of_In in Hd, Hid.
  apply list_elem_of_lookup in Hd as [i Hi]. eapply Forall2_lookup_r in Hi as (path & Hpa & Hr); [|exact Hds].
  apply (loaded_Pipeline id.2 b' n p Hb) in Hp. cbn [yaml_Pipeline schema_yaml] in Hp. unfold unmarshal in Hp.
  destruct (yaml_to_json TPipeline id.2) as [j|] eqn:Ej; [|done]. simpl in Hp. destruct (dec_Pipeline j _) as [q|] eqn:Eq; [|done]. injection Hp as ->.
  exists path, data, id, j. split_and!; [by eapply list_elem_of_lookup_2|done|done|done|done|]. intros Hj Hg. apply submitted_decodes.
  apply (PipelineSpec_join shaped given canonical no_bound exact exact shaped_given (fun _ _ H => H)); [|done].
  exact (proj2 Pipeline_gives j p Hj Eq).
Qed.
End Submission.

(** ** Examples *)
Section Examples.
#[local] Existing Instance default_range.
#[local] Existing Instance core_unit.

#[local] Instance ex_core_json : CoreJson := {| SecurityContext_value _ := VMap ∅; EnvFromSource_value _ := VMap ∅; EnvVarSource_value _ := VMap ∅ |}.

Definition ex_unit : dec unit := d_struct (fun _ x => Some x).
#[local] Instance ex_core_decode : CoreDecode := {|
  dec_SecurityContext := ex_unit; dec_EnvFromSource := ex_unit; dec_EnvVarSource := ex_unit;
  zero_SecurityContext := tt; zero_EnvFromSource := tt; zero_EnvVarSource := tt |}.

Lemma ex_unit_rt : forall c : unit, roundtrips (fun _ => Some (VMap ∅)) ex_unit tt c.
Proof. intros []. by exists (VMap ∅), (JObj []). Qed.

#[local] Instance ex_core_roundtrip : CoreRoundtrip := {|
  SecurityContext_rt := ex_unit_rt; EnvFromSource_rt := ex_unit_rt; EnvVarSource_rt := ex_unit_rt |}.

(** A Step with the resources of v1beta1, a number as a quantity and a number as a default. *)
Definition ex_step_json : json :=
  JObj [("name", JStr "s"); ("image", JStr "alpine"); ("Resources", JObj [("limits", JObj [("cpu", JNum "1"); ("nvidia.com/gpu", JStr "2")])])].

Definition ex_pipeline_json : json :=
  JObj [("apiVersion", JStr "tekton.dev/v1"); ("kind", JStr "Pipeline"); ("metadata", JObj [("name", JStr "p")]);
        ("spec", JObj [("params", JArr [JObj [("name", JStr "n"); ("default", JNum "1.50")]]);
                       ("tasks", JArr [JObj [("name", JStr "t"); ("retries", JNum "2"); ("taskSpec", JObj [("steps", JArr [ex_step_json])])]])])].

Definition ex_pipeline : Pipeline :=
  mkPipeline (mkObject "tekton.dev/v1" "Pipeline" (mkMetadata "p" "" ∅ ∅))
    (mkPipelineSpec "" "" [mkParamSpec "n" "" "" (Some (StringParam "1.50"))] []
       [mkPipelineTask "t" "" None
          (Some (mkTaskSpec [] [] []
             [mkStep "s" "" "" None [] "alpine" [] [] "" [] "" (Some (mkStepResources (mkResourceList "1" "" {["nvidia.com/gpu" := "2"]}) zero_ResourceList))
                "" None [] "" "" [] []] "" "" "" [] None []))
          [] [] [] [] 2 "" None None] [] [] None).

#[local] Instance ex_yaml_json : YamlToJson := fun _ _ => Ok ex_pipeline_json.
Definition ex_pipeline_file (p : string) : result string := Ok "a pipeline".
Definition ex_pipeline_bundle : FullBundle := mkFullBundle (mkBundle ∅ {["p" := ex_pipeline]} [] ∅) [] ∅ ∅ ∅.

Example decode_ex : dec_Pipeline ex_pipeline_json zero_Pipeline = Some ex_pipeline.
Proof. vm_compute. reflexivity. Qed.

(** The name of v1 wins over that of v1beta1. *)
Example both_resources_ex :
  option_map st_Resources (dec_Step (JObj [("computeResources", JObj [("limits", JObj [("cpu", JStr "2")])]);
                                           ("resources", JObj [("limits", JObj [("cpu", JStr "1")])])]) zero_Step) =
  Some (Some (mkStepResources (mkResourceList "2" "" ∅) zero_ResourceList)).
Proof. vm_compute. reflexivity. Qed.

Lemma loaded_pipeline_submitted_witness :
  LoadFiles ex_pipeline_file ["p.yaml"] = Ok ex_pipeline_bundle /\ b_Pipelines (fb_Bundle ex_pipeline_bundle) !! "p" = Some ex_pipeline /\
  exists j', json_of (VMap (pipelineSpecToMap ex_pipeline)) = Some j' /\ dec_PipelineSpec j' zero_PipelineSpec = Some (pl_Spec ex_pipeline).
Proof.
  assert (LoadFiles ex_pipeline_file ["p.yaml"] = Ok ex_pipeline_bundle) as Hl by (vm_compute; reflexivity).
  assert (b_Pipelines (fb_Bundle ex_pipeline_bundle) !! "p" = Some ex_pipeline) as Hp by (vm_compute; reflexivity).
  split; [exact Hl|]. split; [exact Hp|].
  destruct (loaded_pipeline_submitted ex_pipeline_file ["p.yaml"] ex_pipeline_bundle "p" ex_pipeline Hl Hp)
    as (path & data & id & j & _ & _ & _ & Hj & _ & Hs).
  injection Hj as <-. apply Hs; [vm_compute; reflexivity|].
  split_and!; [apply Forall_singleton; discriminate| |constructor|constructor]. apply Forall_singleton.
  split_and!; [exact I| |constructor|reflexivity|exact I|reflexivity].
  split_and!; [constructor| |exact I|constructor]. apply Forall_singleton. split; [constructor|]. repeat split; vm_compute; reflexivity.
Defined.
End Examples.
