(* ===== verification/ClusterLogs.v ===== *)
(** * internal/backend/cluster/watch.go: the logs of a pod

    [streamPodLogs] with the goroutine it starts for each container, as programs of calls to
    the API server, to the clock and to the log sink, and what they log. *)

From S2P Require Import Prelude GoStrings GoTime Effects LogLines TektonTypes Run ClusterStatus ClusterSubmit.

(** ** Data *)
Record containerStatus := mkcontainerStatus { cs_Name : string; cs_Running : bool; cs_Terminated : bool }.

Record Pod := mkPod {
  pod_Containers : list string;                (* names, of the spec *)
  pod_ContainerStatuses : list containerStatus;
  pod_Phase : string;
}.

(** Where a container's lines go. *)
Inductive log_target : Type :=
  | ToStep (taskName stepName displayName : string)
  | ToSidecar (taskName sidecarName : string).

Inductive LogE : Type -> Type :=
  | GetPod : LogE (Pod + bool)                           (* an error: whether the pod is not found *)
  | OpenLog (container : string) : LogE (result source)  (* following *)
  | CloseLog (container : string) : LogE unit
  | Pause (d : Z) : LogE bool                            (* whether the context ended first *)
  | SinkLine (to : log_target) (stream line : string) : LogE unit.

Abbreviation logs := (prog LogE).

Definition logRetryMax : Z := (2 * Second)%Z.
Definition first_backoff : Z := (100 * Millisecond)%Z.
Definition next_backoff (b : Z) : Z := Z.min (b * 2) logRetryMax.

Definition started (container : string) (p : Pod) : bool :=
  existsb (fun cs => String.eqb (cs_Name cs) container && (cs_Running cs || cs_Terminated cs)) (pod_ContainerStatuses p).

Definition finished (p : Pod) : bool := String.eqb (pod_Phase p) "Succeeded" || String.eqb (pod_Phase p) "Failed".

(** Whether the logs can be streamed, and whether waiting is pointless. *)
Definition readiness (container : string) (look : Pod + bool) : bool * bool :=
  match look with
  | inr notFound => (false, notFound)
  | inl p => if started container p then (true, false) else (false, finished p)
  end.

Definition containerLogReady (container : string) : logs (bool * bool) := p ← call GetPod; Ret (readiness container p).

Definition stream_of (to : log_target) : string := match to with ToStep _ _ _ => "stdout" | ToSidecar _ _ => "sidecar-stdout" end.

(** [ScanLogLines] into the sink. *)
Definition scan_into (to : log_target) (s : source) : logs unit :=
  foldP (fun _ l => call (SinkLine to (stream_of to) l)) tt (match ScanLogLines s with Some (ls, _) => ls | None => [] end).

(** How a wait ends: with the container's log, with nothing to wait for, or with the context;
    [Waiting] is where the fuel ends, no end of the code's loop. *)
Inductive log_end : Type := Streamed | Gone | Interrupted | Waiting.

Fixpoint follow (container : string) (to : log_target) (backoff : Z) (fuel : nat) : logs log_end :=
  match fuel with
  | O => Ret Waiting
  | S fuel =>
    '(ready, gone) ← containerLogReady container;
    if (gone : bool) then Ret Gone
    else
      rc ← (if (ready : bool) then r ← call (OpenLog container); Ret (match r with Ok s => Some s | Err _ => None end) else Ret None);
      match rc with
      | Some s => _ ← scan_into to s; _ ← call (CloseLog container); Ret Streamed
      | None => stop ← call (Pause backoff); if (stop : bool) then Ret Interrupted else follow container to (next_backoff backoff) fuel
      end
  end.

Definition followContainerLogs (container : string) (to : log_target) (fuel : nat) : logs log_end := follow container to first_backoff fuel.

Fixpoint wait_pod (backoff : Z) (fuel : nat) : logs (option Pod + unit) :=
  match fuel with
  | O => Ret (inr tt)
  | S fuel =>
    p ← call GetPod;
    match p with
    | inl (mkPod (_ :: _) _ _ as p) => Ret (inl (Some p))
    | _ => stop ← call (Pause backoff); if (stop : bool) then Ret (inl None) else wait_pod (next_backoff backoff) fuel
    end
  end.

(** The pod; [None] when the context ended; the right side where the fuel ends. *)
Definition waitPodContainers (fuel : nat) : logs (option Pod + unit) := wait_pod first_backoff fuel.

Definition target_of (taskName : string) (displays : gmap string string) (container : string) : option log_target :=
  if has_prefix container "step-" then
    let stepName := trim_prefix container "step-" in Some (ToStep taskName stepName (default "" (displays !! stepName)))
  else if has_prefix container "sidecar-" then Some (ToSidecar taskName (trim_prefix container "sidecar-"))
  else None.

(** The goroutines that are started, each a container with where its lines go. *)
Definition followers (taskName : string) (displays : gmap string string) (p : Pod) : list (string * log_target) :=
  omap (fun c => to ← target_of taskName displays c; Some (c, to)) (pod_Containers p).

Definition streamPodLogs {K : CoreV1} (sink : bool) (input : PipelineRunInvocation) (taskName : string) (fuel : nat) : logs (list (string * log_target)) :=
  if negb sink then Ret []
  else
    p ← waitPodContainers fuel;
    Ret (match p with inl (Some p) => followers taskName (stepDisplayNameLookup input taskName) p | _ => [] end).

(** ** What is logged *)
Definition logged (t : list (ev LogE)) : list (log_target * string * string) :=
  omap (fun e => match e with Ev c _ => match c with SinkLine to s l => Some (to, s, l) | _ => None end end) t.

Definition lines_of_stream (s : source) : list string := match ScanLogLines s with Some (ls, _) => ls | None => [] end.

Lemma logged_app t t' : logged (t ++ t') = logged t ++ logged t'.
Proof. apply omap_app. Qed.
(** The pod shows the container running or terminated. *)
Definition shows (container : string) (p : Pod) : Prop :=
  exists cs, cs ∈ pod_ContainerStatuses p /\ cs_Name cs = container /\ (cs_Running cs = true \/ cs_Terminated cs = true).

(** A look that makes waiting pointless: there is no such pod, or it has finished and does
    not show the container. *)
Definition pointless (container : string) (look : Pod + bool) : Prop :=
  look = inr true \/ exists p, look = inl p /\ ~ shows container p /\ (pod_Phase p = "Succeeded" \/ pod_Phase p = "Failed").

(** A look in vain: nothing can be streamed yet, or it could and the stream did not open. *)
Definition in_vain (container : string) (x : (Pod + bool) * option text) : Prop :=
  ~ pointless container x.1 /\ (is_Some x.2 <-> exists p, x.1 = inl p /\ shows container p).

Definition attempt (container : string) (x : (Pod + bool) * option text) : list (ev LogE) :=
  Ev GetPod x.1 :: match x.2 with Some e => [Ev (OpenLog container) (Err e)] | None => [] end.

(** The wait behind look [i]: a tenth of a second, doubled each time, and two seconds at most. *)
Definition wait_time (i : nat) : Z := Z.min (100 * Millisecond * 2 ^ Z.of_nat i) (2 * Second).

(** Looks in vain, each with its wait, from look [i] on. *)
Fixpoint in_vain_calls (container : string) (i : nat) (l : list ((Pod + bool) * option text)) : list (ev LogE) :=
  match l with
  | [] => []
  | x :: l => attempt container x ++ [Ev (Pause (wait_time i)) false] ++ in_vain_calls container (S i) l
  end.

(** All the calls of a follower that ends with [r], from look [i] on. *)
Definition follow_calls (container : string) (to : log_target) (i fuel : nat) (t : list (ev LogE)) (r : log_end) : Prop :=
  exists vain, Forall (in_vain container) vain /\
  match r with
  | Streamed => exists p s, shows container p /\
      t = in_vain_calls container i vain ++ [Ev GetPod (inl p); Ev (OpenLog container) (Ok s)]
          ++ map (fun l => Ev (SinkLine to (stream_of to) l) tt) (lines_of_stream s) ++ [Ev (CloseLog container) tt]
  | Gone => exists look, pointless container look /\ t = in_vain_calls container i vain ++ [Ev GetPod look]
  | Interrupted => exists x, in_vain container x /\
      t = in_vain_calls container i vain ++ attempt container x ++ [Ev (Pause (wait_time (i + length vain))) true]
  | Waiting => length vain = fuel /\ t = in_vain_calls container i vain
  end.

Lemma started_shows container p : started container p = true <-> shows container p.
Proof.
  unfold started, shows. rewrite existsb_exists. setoid_rewrite andb_true_iff. setoid_rewrite orb_true_iff. setoid_rewrite String.eqb_eq.
  by setoid_rewrite <-list_elem_of_In.
Qed.

Lemma readiness_spec container look :
  match readiness container look with
  | (_, true) => pointless container look
  | (true, false) => exists p, look = inl p /\ shows container p
  | (false, false) => in_vain container (look, None)
  end.
Proof.
  unfold readiness, in_vain, pointless. destruct look as [p|[|]]; [|by left|].
  - pose proof (started_shows container p) as Hs. destruct (started container p).
    + exists p. split; [done|by apply Hs].
    + assert (~ shows container p) as Hn by (intros Hsh%Hs; done). unfold finished.
      destruct (String.eqb_spec (pod_Phase p) "Succeeded"), (String.eqb_spec (pod_Phase p) "Failed"); cbn [orb fst snd]; [right; exists p; by auto..|].
      split; [by intros [?|(p' & [= <-] & _ & [?|?])]|]. split; [by intros [? ?]|by intros (p' & [= <-] & ?)].
  - cbn [fst snd]. split; [by intros [?|(p & ? & _)]|]. split; [by intros [? ?]|by intros (p & ? & _)].
Qed.

Lemma wait_time_next i : next_backoff (wait_time i) = wait_time (S i).
Proof.
  unfold next_backoff, wait_time, logRetryMax. rewrite Nat2Z.inj_succ, Z.pow_succ_r by lia.
  assert (0 < 2 ^ Z.of_nat i)%Z by (apply Z.pow_pos_nonneg; lia). assert (0 < Millisecond)%Z by done. assert (0 < Second)%Z by done. nia.
Qed.

Lemma scan_into_post to s :
  post (scan_into to s) (fun t _ => t = map (fun l => Ev (SinkLine to (stream_of to) l) tt) (lines_of_stream s)).
Proof.
  unfold scan_into, lines_of_stream. generalize (match ScanLogLines s with Some (ls, _) => ls | None => [] end) as ls. intros ls.
  induction ls as [|l ls IH]; [by apply post_ret|]. cbn [foldP map]. apply post_bind, post_call. intros []; apply post_ret.
  eapply post_mono; [apply IH|]. by intros t [] ->.
Qed.

(** A look in vain comes first. *)
Lemma follow_calls_later container to i fuel x t r :
  in_vain container x -> follow_calls container to (S i) fuel t r ->
  follow_calls container to i (S fuel) (attempt container x ++ [Ev (Pause (wait_time i)) false] ++ t) r.
Proof.
  intros Hx (vain & Hv & Hr). exists (x :: vain). split; [by constructor|]. cbn [in_vain_calls]. destruct r.
  - destruct Hr as (p & s & Hp & ->). exists p, s. by rewrite <-!(assoc_L (++)).
  - destruct Hr as (look & Hp & ->). exists look. by rewrite <-!(assoc_L (++)).
  - destruct Hr as (y & Hy & ->). exists y. split; [done|]. cbn [length]. replace (i + S (length vain)) with (S i + length vain) by lia.
    by rewrite <-!(assoc_L (++)).
  - destruct Hr as [<- ->]. done.
Qed.

Lemma follow_post container to fuel : forall i, post (follow container to (wait_time i) fuel) (follow_calls container to i fuel).
Proof.
  induction fuel as [|fuel IH]; intros i; [apply post_ret; by exists []|]. cbn [follow]. unfold containerLogReady.
  apply post_bind, post_bind, post_call. intros look. apply post_ret, post_ret.
  pose proof (readiness_spec container look) as Hr. destruct (readiness container look) as [ready gone]. destruct gone.
  { apply post_ret. exists []. split; [done|]. exists look. split; [by destruct ready|done]. }
  assert (forall x, in_vain container x ->
    post (stop ← call (Pause (wait_time i)); if (stop : bool) then Ret Interrupted else follow container to (next_backoff (wait_time i)) fuel)
      (fun t r => follow_calls container to i (S fuel) (attempt container x ++ t) r)) as Hwait.
  { intros x Hx. apply post_bind, post_call. intros [|]; apply post_ret.
    - apply post_ret. exists []. split; [done|]. exists x. split; [done|]. cbn [length in_vain_calls app]. by rewrite Nat.add_0_r.
    - rewrite wait_time_next. eapply post_mono; [apply IH|]. intros t r Hf. by apply follow_calls_later. }
  destruct ready.
  - destruct Hr as (p & -> & Hp). apply post_bind, post_bind, post_call. intros [s|e]; apply post_ret, post_ret.
    + apply post_bind. eapply post_mono; [apply scan_into_post|]. intros t [] ->. apply post_bind, post_call. intros []; apply post_ret, post_ret.
      exists []. split; [done|]. exists p, s. by split.
    + eapply post_mono; [apply (Hwait (inl p, Some e))|intros t r H; exact H]. split.
      * by intros [?|(p' & [= <-] & ? & _)].
      * split; [intros _; by exists p|by eexists].
  - apply post_bind, post_ret. eapply post_mono; [apply (Hwait (look, None)); exact Hr|]. intros t r H. exact H.
Qed.

(** C38: following a container's log: the pod is looked at until it shows this container
    running or terminated and the container's own log opens; then that log's lines go to the
    sink, in order, under the step's or the sidecar's name, and it is closed.  A look that
    finds no pod, or one that has finished without the container, ends it at once, and so
    does the end of the context during a wait; nothing is logged then.  No other log is ever
    opened, none before the container is shown so, and the waits double from 100 ms up to
    2 s.  (With [fuel] looks or fewer; where these do not do, all of them were in vain.) *)
Theorem followContainerLogs_correct container to fuel :
  post (followContainerLogs container to fuel) (follow_calls container to 0 fuel).
Proof. apply (follow_post container to fuel 0). Qed.

(** What is logged, then, are the lines of one stream, or nothing. *)
Lemma in_vain_silent container i vain : logged (in_vain_calls container i vain) = [].
Proof.
  revert i; induction vain as [|[look [e|]] vain IH]; intros i; [done|..]; cbn [in_vain_calls attempt fst snd]; rewrite !logged_app, IH; done.
Qed.

Lemma followed_lines container to fuel t r :
  follow_calls container to 0 fuel t r ->
  logged t = [] /\ r <> Streamed \/
  r = Streamed /\ exists s, Ev (OpenLog container) (Ok s) ∈ t /\ logged t = map (fun l => (to, stream_of to, l)) (lines_of_stream s).
Proof.
  intros (vain & _ & Hr). destruct r.
  - destruct Hr as (p & s & _ & ->). right. split; [done|]. exists s. split; [rewrite !elem_of_app; right; left; by do 2 constructor|].
    rewrite !logged_app, in_vain_silent. cbn [app]. change (logged [Ev GetPod (inl p); Ev (OpenLog container) (Ok s)]) with (@nil (log_target * string * string)).
    change (logged [Ev (CloseLog container) tt]) with (@nil (log_target * string * string)). rewrite app_nil_r. cbn [app].
    induction (lines_of_stream s) as [|l ls IH]; [done|]. cbn [map]. by rewrite <-IH.
  - destruct Hr as (look & _ & ->). left. by rewrite logged_app, in_vain_silent.
  - destruct Hr as ([look [e|]] & _ & ->); left; by rewrite !logged_app, in_vain_silent.
  - destruct Hr as [_ ->]. left. by rewrite in_vain_silent.
Qed.

Example wait_time_ex : map wait_time (seq 0 7) = map (fun n => n * Millisecond)%Z [100; 200; 400; 800; 1600; 2000; 2000]%Z.
Proof. vm_compute. reflexivity. Qed.

(** ** Which containers are followed *)

(** a pod's containers whose names begin with step- or sidecar- are followed, each once
    and in the order of the pod, a step's lines tagged with the display name the run's own
    YAML gives the step; other containers are not, and without a sink nothing is asked. *)
Theorem streamPodLogs_correct {K : CoreV1} sink input taskName fuel :
  post (streamPodLogs sink input taskName fuel) (fun t r =>
    (sink = false -> t = [] /\ r = []) /\ logged t = [] /\
    (r <> [] -> exists p, Ev GetPod (inl p) ∈ t /\ r = followers taskName (stepDisplayNameLookup input taskName) p)).
Proof.
  unfold streamPodLogs. destruct sink; cbn [negb]; [|by apply post_ret].
  assert (forall f b, post (wait_pod b f) (fun t r => logged t = [] /\ forall p, r = inl (Some p) -> Ev GetPod (inl p) ∈ t)) as Hw.
  { induction f as [|f IH]; intros b; [by apply post_ret|]. cbn [wait_pod]. apply post_bind, post_call. intros look; apply post_ret.
    assert (post (stop ← call (Pause b); if (stop : bool) then Ret (inl None) else wait_pod (next_backoff b) f)
      (fun t r => logged ([Ev GetPod look] ++ t) = [] /\ forall p, r = inl (Some p) -> Ev GetPod (inl p) ∈ [Ev GetPod look] ++ t)) as Hp.
    { apply post_bind, post_call. intros [|]; apply post_ret; [by apply post_ret|]. eapply post_mono; [apply IH|].
      intros t r [Hl Hr]. rewrite !logged_app, Hl. split; [done|]. intros p Hp. specialize (Hr p Hp). set_solver. }
    destruct look as [[[|c cs] st ph]|nf]; [exact Hp| |exact Hp]. apply post_ret. split; [done|]. intros p [= <-]. by left. }
  apply post_bind. eapply post_mono; [apply (Hw fuel first_backoff)|]. intros t r [Hl Hr]. apply post_ret. rewrite app_nil_r.
  split_and!; [done|done|]. intros Hne. destruct r as [[p|]|]; [|done..]. exists p. split; [by apply Hr|done].
Qed.

Lemma elem_of_followers taskName displays p c to :
  (c, to) ∈ followers taskName displays p <-> c ∈ pod_Containers p /\ target_of taskName displays c = Some to.
Proof.
  unfold followers. rewrite list_elem_of_omap. split.
  - intros (x & Hx & Ht). destruct (target_of taskName displays x) as [to'|] eqn:E; [|done]. cbn in Ht. injection Ht as <- <-. done.
  - intros [Hx Ht]. exists c. split; [done|]. by rewrite Ht.
Qed.
