(* ===== verification/DockerDial.v ===== *)
(** * internal/backend/docker: reaching the daemon

    sshdial.go's dialer, docker.go's [New] with its client, and registryauth.go, as programs
    of calls to the environment, to the network and to golang.org/x/crypto/ssh. *)

From S2P Require Import Prelude GoStrings GoTime Paths Effects Docker.

(** ** net/url *)

(** Of a parsed URL: its username when it has userinfo, and its text without the password. *)
Record url := mkurl {
  url_Scheme : string;
  url_Hostname : string;
  url_Port : string;
  url_User : option string;
  url_Redacted : string;
}.

Class UrlParse := url_parse : string -> result url.

(** net.JoinHostPort *)
Definition JoinHostPort (host port : string) : string :=
  if contains host ":" then "[" +:+ host +:+ "]:" +:+ port else host +:+ ":" +:+ port.

(** ** Calls *)
Abbreviation conn := nat.      (* a TCP connection *)
Abbreviation sshclient := nat.
Abbreviation channel := nat.   (* a unix socket of the remote host, over the ssh client *)

(** What accepts a host key: anything, or the file that was read. *)
Inductive host_keys : Type := InsecureIgnoreHostKey | KnownHosts (path : string).

Record auth_method := mkauth { am_agent : bool; am_key : string }.

Inductive NetE : Type -> Type :=
  | Getenv (name : string) : NetE string
  | UserHomeDir : NetE (result string)
  | DialAgent (sock : string) : NetE bool                         (* whether an agent answers *)
  | ReadKey (path : string) : NetE (option string)
  | ParsePrivateKey (data : string) : NetE (option string)        (* the signer *)
  | LoadKnownHosts (path : string) : NetE (unit + bool * text)    (* an error, and whether it is ErrNotExist *)
  | WantKeys (hk : host_keys) (addr : string) : NetE (list string)   (* the key types on file for a host, by the probe *)
  | DialTCP (addr : string) (timeout : Z) : NetE (result conn)
  | TimeNow : NetE Z
  | CtxDeadline : NetE (option Z)
  | SetDeadline (c : conn) (t : option Z) : NetE unit
  | AbortOnCancel (c : conn) : NetE unit                          (* context.AfterFunc *)
  | StopAbort (c : conn) : NetE unit
  | Handshake (c : conn) (user : string) (auths : list auth_method) (hk : host_keys) (algos : list string) : NetE (result sshclient)
  | DialUnix (s : sshclient) (sock : string) : NetE (result channel)
  | CloseTCP (c : conn) : NetE unit
  | CloseSSH (s : sshclient) : NetE unit
  | CloseChannel (ch : channel) : NetE (option text)
  | NewClient (opts : list string) : NetE (result unit)
  | Ping : NetE (option text)
  | Info : NetE (result string)
  | Hostname : NetE (result string)
  | ParseReference (img : string) : NetE (option string)          (* its registry *)
  | Credentials (registry : string) : NetE (result (option string))  (* none: anonymous *)
  | Authorization (creds : string) : NetE (result (option string))   (* none: an empty config *)
  | EncodeAuthConfig (registry cfg : string) : NetE (result string).

Abbreviation net := (prog NetE).

(** ** sshdial.go *)
Definition defaultRemoteDockerSocket : string := "/var/run/docker.sock".
Definition envRemoteDockerSocket : string := "TKN_ACT_DOCKER_SOCKET".
Definition envSSHInsecure : string := "TKN_ACT_SSH_INSECURE".
Definition sshDialTimeout : Z := (10 * Second)%Z.
Definition sshHandshakeTimeout : Z := (10 * Second)%Z.

Definition remoteSocketPath : net string :=
  s ← call (Getenv envRemoteDockerSocket); Ret (if String.eqb s "" then defaultRemoteDockerSocket else s).

Definition KeyAlgoRSA : string := "ssh-rsa".
Definition KeyAlgoRSASHA256 : string := "rsa-sha2-256".
Definition KeyAlgoRSASHA512 : string := "rsa-sha2-512".
Definition CertAlgoRSAv01 : string := "ssh-rsa-cert-v01@openssh.com".
Definition CertAlgoRSASHA256v01 : string := "rsa-sha2-256-cert-v01@openssh.com".
Definition CertAlgoRSASHA512v01 : string := "rsa-sha2-512-cert-v01@openssh.com".

Definition algorithmsForKeyType (t : string) : list string :=
  if String.eqb t KeyAlgoRSA then [KeyAlgoRSASHA512; KeyAlgoRSASHA256; KeyAlgoRSA]
  else if String.eqb t CertAlgoRSAv01 then [CertAlgoRSASHA512v01; CertAlgoRSASHA256v01; CertAlgoRSAv01]
  else [t].

(** One algorithm: what has been seen, and the list. *)
Definition add_algorithm (acc : gset string * list string) (a : string) : gset string * list string :=
  if bool_decide (a ∈ acc.1) then acc else ({[a]} ∪ acc.1, acc.2 ++ [a]).

Definition known_algorithms (want : list string) : list string :=
  (foldl (fun acc k => foldl add_algorithm acc (algorithmsForKeyType k)) (∅, []) want).2.

(** The probe key gives the keys on file; the empty list is the library's default. *)
Definition knownHostKeyAlgorithms (hk : host_keys) (hostport : string) : net (list string) :=
  want ← call (WantKeys hk hostport); Ret (known_algorithms want).

Section Dial.
Context `{UrlParse}.

Definition redactURL (raw : string) : string :=
  match url_parse raw with
  | Ok u => match url_User u with Some _ => url_Redacted u | None => raw end
  | Err _ => raw
  end.

Definition parseSSHDockerHost (dockerHost : string) : net (result (string * string)) :=
  match url_parse dockerHost with
  | Err e => Ret (Err (Fmt "parse DOCKER_HOST %q: %w" [TStr (redactURL dockerHost); TErr e]))
  | Ok u =>
    if negb (String.eqb (url_Scheme u) "ssh") then Ret (Err (Fmt "not an ssh URL: %q" [TStr (url_Redacted u)]))
    else if String.eqb (url_Hostname u) "" then Ret (Err (Fmt "DOCKER_HOST %q: missing host" [TStr (url_Redacted u)]))
    else
      user ← (let user := default "" (url_User u) in if String.eqb user "" then call (Getenv "USER") else Ret user);
      Ret (if String.eqb user "" then Err (Fmt "DOCKER_HOST %q: no SSH user (set user@host or $USER)" [TStr (url_Redacted u)])
           else Ok (user, JoinHostPort (url_Hostname u) (if String.eqb (url_Port u) "" then "22" else url_Port u)))
  end.

(** One key file. *)
Definition load_key (home : string) (methods : list auth_method) (name : string) : net (list auth_method) :=
  data ← call (ReadKey (Join [home; ".ssh"; name]));
  match data with
  | None => Ret methods
  | Some data =>
    signer ← call (ParsePrivateKey data);
    Ret (match signer with None => methods | Some s => methods ++ [mkauth false s] end)
  end.

Definition loadSSHAuthMethods : net (list auth_method) :=
  sock ← call (Getenv "SSH_AUTH_SOCK");
  methods ← (if String.eqb sock "" then Ret [] else ok ← call (DialAgent sock); Ret (if (ok : bool) then [mkauth true sock] else []));
  home ← call UserHomeDir;
  match home with
  | Err _ => Ret methods
  | Ok home => foldP (load_key home) methods ["id_ed25519"; "id_rsa"]
  end.

Definition loadHostKeyCallback : net (result host_keys) :=
  insecure ← call (Getenv envSSHInsecure);
  if String.eqb insecure "1" then Ret (Ok InsecureIgnoreHostKey)
  else
    home ← call UserHomeDir;
    match home with
    | Err e => Ret (Err (Fmt "locate home dir for known_hosts: %w" [TErr e]))
    | Ok home =>
      let khPath := Join [home; ".ssh"; "known_hosts"] in
      r ← call (LoadKnownHosts khPath);
      Ret (match r with
           | inl _ => Ok (KnownHosts khPath)
           | inr (true, _) => Err (Fmt "known_hosts %s not found: ssh into the host once or set %s=1 to bypass" [TStr khPath; TStr envSSHInsecure])
           | inr (false, e) => Err (Fmt "load known_hosts %s: %w (set %s=1 to bypass)" [TStr khPath; TErr e; TStr envSSHInsecure])
           end)
    end.

(** What the dialer keeps. *)
Record dialer := mkdialer {
  di_user : string;
  di_addr : string;
  di_auths : list auth_method;
  di_hostKey : host_keys;
  di_sock : string;
}.

Definition newSSHDialer (dockerHost : string) : net (result dialer) :=
  do! ua ← parseSSHDockerHost dockerHost;
  auths ← loadSSHAuthMethods;
  match auths with
  | [] => Ret (Err (Fmt "no SSH authentication available for %s: try `ssh-add <key>` or set SSH_AUTH_SOCK" [TStr (redactURL dockerHost)]))
  | _ =>
    do! hostKey ← loadHostKeyCallback;
    sock ← remoteSocketPath;
    Ret (Ok (mkdialer ua.1 ua.2 auths hostKey sock))
  end.

(** A connection to the daemon: the channel, and the client that carries it. *)
Record sshUnixConn := mksshUnixConn { sc_Conn : channel; sc_ssh : sshclient }.

Definition dial (d : dialer) : net (result sshUnixConn) :=
  raw ← call (DialTCP (di_addr d) sshDialTimeout);
  match raw with
  | Err e => Ret (Err (Fmt "ssh tcp dial %s: %w" [TStr (di_addr d); TErr e]))
  | Ok c =>
    now ← call TimeNow;
    ctx ← call CtxDeadline;
    let deadline := (now + sshHandshakeTimeout)%Z in
    let deadline := match ctx with Some t => if (t <? deadline)%Z then t else deadline | None => deadline end in
    _ ← call (SetDeadline c (Some deadline));
    _ ← call (AbortOnCancel c);
    algos ← knownHostKeyAlgorithms (di_hostKey d) (di_addr d);
    s ← call (Handshake c (di_user d) (di_auths d) (di_hostKey d) algos);
    _ ← call (StopAbort c);
    match s with
    | Err e => _ ← call (CloseTCP c); Ret (Err (Fmt "ssh handshake %s: %w" [TStr (di_addr d); TErr e]))
    | Ok s =>
      _ ← call (SetDeadline c None);
      ch ← call (DialUnix s (di_sock d));
      match ch with
      | Err e => _ ← call (CloseSSH s); Ret (Err (Fmt "ssh dial remote unix socket %s: %w" [TStr (di_sock d); TErr e]))
      | Ok ch => Ret (Ok (mksshUnixConn ch s))
      end
    end
  end.

(** [sshUnixConn.Close] *)
Definition close_conn (c : sshUnixConn) : net (option text) :=
  err ← call (CloseChannel (sc_Conn c)); _ ← call (CloseSSH (sc_ssh c)); Ret err.

(** ** docker.go: [newDockerClient] and [New] *)

(** A client, with the dialer of an ssh address. *)
Definition newDockerClient (dockerHost : string) : net (result (option dialer)) :=
  if has_prefix dockerHost "ssh://" then
    do! d ← wrapP "ssh transport: %w" [] (newSSHDialer dockerHost);
    sock ← remoteSocketPath;
    do! _ ← wrapP "docker client (ssh): %w" [] (call (NewClient ["APIVersionNegotiation"; "Host=unix://" +:+ sock; "DialContext"]));
    Ret (Ok (Some d))
  else
    do! _ ← wrapP "docker client: %w" []
              (call (NewClient (["APIVersionNegotiation"; "FromEnv"] ++ if String.eqb dockerHost "" then [] else ["Host=" +:+ dockerHost])));
    Ret (Ok None).

Record Options := mkOptions { o_StartGrace : Z; o_StopGrace : Z; o_Remote : string; o_PauseImage : string; o_Host : string }.

Record built := mkbuilt { bt_opts : Options; bt_remote : bool; bt_pauseImg : string; bt_dialer : option dialer }.

Definition with_defaults (o : Options) : Options :=
  mkOptions (if (o_StartGrace o =? 0)%Z then 2 * Second else o_StartGrace o)%Z (if (o_StopGrace o =? 0)%Z then 30 * Second else o_StopGrace o)%Z
    (o_Remote o) (o_PauseImage o) (o_Host o).

(** Whether [decideRemote] asks the daemon. *)
Definition asks_daemon (mode dockerHost : string) : bool :=
  (String.eqb mode "" || String.eqb mode "auto") && negb (String.eqb dockerHost "" || has_prefix dockerHost "unix://").

Definition docker_New (o : Options) : net (result built) :=
  env ← (if negb (String.eqb (o_Host o) "") then Ret "" else call (Getenv "DOCKER_HOST"));
  let dockerHost := resolveDockerHost env (o_Host o) in
  do! d ← newDockerClient dockerHost;
  ping ← call Ping;
  match ping with
  | Some e => Ret (Err (Fmt "docker daemon not reachable: %w" [TErr e]))
  | None =>
    info ← (if asks_daemon (o_Remote o) dockerHost then i ← call Info; Ret (Some i) else Ret None);
    host ← (match info with Some (Ok _) => call Hostname | _ => Ret (Ok "") end);
    Ret (remote ← decideRemote (o_Remote o) dockerHost info host; Ok (mkbuilt (with_defaults o) remote (resolvePauseImage (o_PauseImage o)) d))
  end.

(** ** registryauth.go *)
Definition registryAuthFor (img : string) : net (result string) :=
  ref ← call (ParseReference img);
  match ref with
  | None => Ret (Ok "")
  | Some registry =>
    a ← call (Credentials registry);
    match a with
    | Err e => Ret (Err (Fmt "resolve registry credentials for %s: %w" [TStr registry; TErr e]))
    | Ok None => Ret (Ok "")
    | Ok (Some a) =>
      cfg ← call (Authorization a);
      match cfg with
      | Err e => Ret (Err (Fmt "registry credentials for %s: %w" [TStr registry; TErr e]))
      | Ok None => Ret (Ok "")
      | Ok (Some cfg) => call (EncodeAuthConfig registry cfg)
      end
    end
  end.
End Dial.

(** ** What is open *)
Inductive resource : Type := RTcp (c : conn) | RSsh (s : sshclient) | RChan (ch : channel).

#[export] Instance resource_eq_dec : EqDecision resource.
Proof. solve_decision. Defined.

Definition close (r : resource) (l : list resource) : list resource := filter (fun x => x <> r) l.

Lemma close_nil r : close r [] = [].
Proof. done. Qed.

Lemma close_self r l : close r (r :: l) = close r l.
Proof. apply filter_cons_False. naive_solver. Qed.

Lemma close_other r x l : x <> r -> close r (x :: l) = x :: close r l.
Proof. intros Hx. by apply filter_cons_True. Qed.

(** A handshake that succeeds hands the connection to the client, which closes it. *)
Definition live_step (l : list resource) (e : ev NetE) : list resource :=
  match e with
  | Ev c a =>
    (match c in NetE X return X -> list resource with
     | DialTCP _ _ => fun a => match a with Ok c => RTcp c :: l | Err _ => l end
     | Handshake c _ _ _ _ => fun a => match a with Ok s => RSsh s :: close (RTcp c) l | Err _ => l end
     | DialUnix _ _ => fun a => match a with Ok ch => RChan ch :: l | Err _ => l end
     | CloseTCP c => fun _ => close (RTcp c) l
     | CloseSSH s => fun _ => close (RSsh s) l
     | CloseChannel ch => fun _ => close (RChan ch) l
     | _ => fun _ => l
     end) a
  end.

Definition live (t : list (ev NetE)) : list resource := foldl live_step [] t.

Ltac live_red :=
  unfold live; cbn [foldl app live_step];
  repeat first [rewrite close_self | rewrite close_other by discriminate | rewrite close_nil]; try done.

(** What guards a connection: its deadline, and whether a cancelled context aborts it. *)
Record guard := mkguard { g_deadline : option Z; g_armed : bool }.

Definition guard_step (g : guard) (e : ev NetE) : guard :=
  match ev_call e with
  | SetDeadline _ d => mkguard d (g_armed g)
  | AbortOnCancel _ => mkguard (g_deadline g) true
  | StopAbort _ => mkguard (g_deadline g) false
  | _ => g
  end.

Definition guards (t : list (ev NetE)) : guard := foldl guard_step (mkguard None false) t.

(** The handshakes of a trace, with the guard each ran under. *)
Fixpoint handshakes (g : guard) (t : list (ev NetE)) : list (conn * string * list auth_method * host_keys * list string * guard) :=
  match t with
  | [] => []
  | e :: t =>
    match ev_call e with
    | Handshake c u auths hk algos => (c, u, auths, hk, algos, g) :: handshakes g t
    | _ => handshakes (guard_step g e) t
    end
  end.

(** A handshake runs as the dialer's user, against its host keys, with the algorithms of the
    keys on file; it ends ten seconds from now at the latest, and when the context does. *)
Definition guarded (d : dialer) (t : list (ev NetE)) : Prop :=
  forall c u auths hk algos g, (c, u, auths, hk, algos, g) ∈ handshakes (mkguard None false) t ->
    u = di_user d /\ auths = di_auths d /\ hk = di_hostKey d /\ g_armed g = true /\
    (exists want, Ev (WantKeys (di_hostKey d) (di_addr d)) want ∈ t /\ algos = known_algorithms want) /\
    exists now ctx, Ev TimeNow now ∈ t /\ Ev CtxDeadline ctx ∈ t /\
      g_deadline g = Some (match ctx with Some x => Z.min x (now + 10000000000) | None => now + 10000000000 end)%Z.

(** A step on the way was refused. *)
Definition refusal (e : ev NetE) : bool :=
  match e with
  | Ev c a =>
    (match c in NetE X return X -> bool with
     | DialTCP _ _ | Handshake _ _ _ _ _ | DialUnix _ _ => fun a => negb (is_ok a)
     | _ => fun _ => false
     end) a
  end.

(** What a dial leaves: the channel to the daemon's socket and its client, without a
    deadline; or, when a step was refused, nothing. *)
Definition dialled (d : dialer) (t : list (ev NetE)) (r : result sshUnixConn) : Prop :=
  match r with
  | Ok c =>
    existsb refusal t = false /\ live t = [RChan (sc_Conn c); RSsh (sc_ssh c)] /\ guards t = mkguard None false /\
    Ev (DialUnix (sc_ssh c) (di_sock d)) (Ok (sc_Conn c)) ∈ t /\ length (handshakes (mkguard None false) t) = 1
  | Err _ => existsb refusal t = true /\ live t = []
  end.

(** A call of a list of calls. *)
Ltac in_list := repeat first [by apply list_elem_of_here | apply list_elem_of_further].

(** The one handshake of a dial is the one described. *)
Ltac guarded_tac :=
  intros ? ? ? ? ? ? Hin; cbn in Hin; apply list_elem_of_singleton in Hin; simplify_eq; cbn [g_armed g_deadline];
  split_and!; [done..|eexists; split; [in_list|done]|];
  eexists _, _; split_and!; [in_list..|];
  f_equal; unfold sshHandshakeTimeout, Second; case_match; [case_match|]; lia.

(** C35: a dial to a daemon over ssh succeeds exactly when the host, the handshake and the
    remote socket all accept; when one refuses it, no connection is left open.  When it
    succeeds, the channel and its ssh client are open, free of the deadline and of the
    context, and Close closes both.  Each handshake runs as the configured user, checks the
    host's key against the configured ones and asks for a type of key on file, and runs under
    a deadline of ten seconds from now, or the context's when that is sooner, and is aborted
    when the context is cancelled. *)
Theorem dial_correct d :
  post (dial d) (fun t r => dialled d t r /\ guarded d t /\ (forall c, r = Ok c -> post (close_conn c) (fun t' _ => live (t ++ t') = []))).
Proof.
  unfold dial, knownHostKeyAlgorithms. apply post_call. intros [c|e].
  2:{ apply post_ret. split_and!; [done| |done]. intros c u auths hk algos g Hin. set_solver. }
  apply post_call. intros now. apply post_call. intros ctx. cbv zeta.
  apply post_call. intros []. apply post_call. intros []. apply post_call. intros want. apply post_call. intros s. apply post_call. intros [].
  destruct s as [s|e].
  - apply post_call. intros []. apply post_call. intros [ch|e].
    + apply post_ret. split_and!; [split_and!; [done|live_red|done|in_list|done]|guarded_tac|].
      intros x [= <-]. apply post_call. intros err. apply post_call. intros []. apply post_ret. live_red.
    + apply post_call. intros []. apply post_ret. split_and!; [split; [done|live_red]|guarded_tac|done].
  - apply post_call. intros []. apply post_ret. split_and!; [split; [done|live_red]|guarded_tac|done].
Qed.

(** ** Host keys *)
Lemma add_algorithms l acc :
  (forall a, a ∈ acc.1 <-> a ∈ acc.2) -> NoDup acc.2 ->
  let r := foldl add_algorithm acc l in
  (forall a, a ∈ r.1 <-> a ∈ r.2) /\ NoDup r.2 /\ (forall a, a ∈ r.2 <-> a ∈ acc.2 \/ a ∈ l) /\ acc.2 `prefix_of` r.2.
Proof.
  revert acc. induction l as [|a l IH]; intros acc Hs Hn; cbv zeta; [split_and!; [done|done| |done]; set_solver|]. cbn [foldl].
  assert ((forall x, x ∈ (add_algorithm acc a).1 <-> x ∈ (add_algorithm acc a).2) /\ NoDup (add_algorithm acc a).2 /\
    (forall x, x ∈ (add_algorithm acc a).2 <-> x ∈ acc.2 \/ x = a) /\ acc.2 `prefix_of` (add_algorithm acc a).2) as (H1 & H2 & H3 & H4).
  { unfold add_algorithm. case_bool_decide as Ha; cbn [fst snd].
    - split_and!; [done|done| |done]. intros x. split; [by left|]. intros [?| ->]; [done|by apply Hs].
    - split_and!; [set_solver| |set_solver|by eexists]. apply NoDup_app. split_and!; [done| |apply NoDup_singleton].
      intros x Hx ->%list_elem_of_singleton. by apply Ha, Hs. }
  destruct (IH _ H1 H2) as (G1 & G2 & G3 & G4). split_and!; [done|done| |by etrans]. intros x. rewrite G3, H3. set_solver.
Qed.

(** The algorithms that can verify a type of key on file, each once, RSA's SHA-2 variants
    before the SHA-1 one; none when no key is on file. *)
Theorem known_algorithms_correct want :
  NoDup (known_algorithms want) /\ (forall a, a ∈ known_algorithms want <-> exists k, k ∈ want /\ a ∈ algorithmsForKeyType k) /\
  (known_algorithms want = [] <-> want = []).
Proof.
  assert (forall acc : gset string * list string, (forall a, a ∈ acc.1 <-> a ∈ acc.2) -> NoDup acc.2 ->
    let r := foldl (fun acc k => foldl add_algorithm acc (algorithmsForKeyType k)) acc want in
    NoDup r.2 /\ forall a, a ∈ r.2 <-> a ∈ acc.2 \/ exists k, k ∈ want /\ a ∈ algorithmsForKeyType k) as H.
  { induction want as [|k want IH]; intros acc Hs Hn; cbv zeta; [split; [done|]; set_solver|]. cbn [foldl].
    destruct (add_algorithms (algorithmsForKeyType k) acc Hs Hn) as (H1 & H2 & H3 & _). destruct (IH _ H1 H2) as [G1 G2].
    split; [done|]. intros a. rewrite G2, H3. set_solver. }
  destruct (H (∅, []) ltac:(set_solver) ltac:(constructor)) as [H1 H2]. unfold known_algorithms.
  assert (forall a, a ∈ (foldl (fun acc k => foldl add_algorithm acc (algorithmsForKeyType k)) (∅, []) want).2 <-> exists k, k ∈ want /\ a ∈ algorithmsForKeyType k) as H3.
  { intros a. rewrite H2. cbn [snd]. set_solver. }
  split_and!; [done|done|]. split; [|by intros ->]. intros E. destruct want as [|k want]; [done|].
  destruct (algorithmsForKeyType k) as [|a l] eqn:Ek; [unfold algorithmsForKeyType in Ek; repeat case_match; done|].
  exfalso. eapply (not_elem_of_nil a). rewrite <-E. apply H3. exists k. split; [by left|]. rewrite Ek. by left.
Qed.

Example known_algorithms_ex : known_algorithms ["ssh-ed25519"; "ssh-rsa"; "ssh-ed25519"] = ["ssh-ed25519"; "rsa-sha2-512"; "rsa-sha2-256"; "ssh-rsa"].
Proof. vm_compute. reflexivity. Qed.

(** An address that does not parse is quoted as it is, with its password, although the
    errors are meant to redact it. *)
Theorem unparsable_host_shown `{UrlParse} h e :
  url_parse h = Err e -> newSSHDialer h = Ret (Err (Fmt "parse DOCKER_HOST %q: %w" [TStr h; TErr e])).
Proof. intros He. unfold newSSHDialer, parseSSHDockerHost, redactURL. rewrite He. reflexivity. Qed.
