(* ===== verification/GuideGen.v ===== *)
(** * cmd/tkn-act/internal/agentguide: the embedded guide's files

    order.go and generate.go: [Generate] as a program over the file system, and what it makes
    of a tree. *)

From S2P Require Import Prelude GoStrings Paths Effects Fs.

Abbreviation fs := (prog FsE).

(** ** order.go *)
Definition Order : list string :=
  ["overview"; "docker-backend"; "variables"; "cluster-backend"; "step-template"; "sidecars"; "step-actions"; "matrix";
   "pipeline-results"; "display-name"; "scheduling"; "timeouts"; "resolvers"; "debug"; "live-output"; "logs"].

Definition FileName (section : string) : string := if String.eqb section "overview" then "README.md" else section +:+ ".md".

(** [for _, section := range Order { wanted[FileName(section)] = true }] *)
Definition wanted : gset string := list_to_set (map FileName Order).

(** ** generate.go *)
Definition listMarkdown (dir : string) : fs (result (gset string)) :=
  do! entries ← fails (call (ReadDir dir));
  Ret (Ok (list_to_set (map de_Name (List.filter (fun e => negb (de_IsDir e) && has_suffix (de_Name e) ".md") entries)))).

(** The ranges over the two maps are sorted. *)
Definition validateSources (srcAbs : string) (found : gset string) : option text :=
  let missing := sort_strings (elements (wanted ∖ found)) in
  let extra := sort_strings (elements (found ∖ wanted)) in
  match missing, extra with
  | _ :: _, _ => Some (Fmt "missing in %s: %s (every entry in agentguide.Order must have a matching .md file)" [TStr srcAbs; TStr (join ", " missing)])
  | [], _ :: _ => Some (Fmt "extra in %s: %s (every .md file under docs/agent-guide/ must appear in agentguide.Order)" [TStr srcAbs; TStr (join ", " extra)])
  | [], [] => None
  end.

(** [bytes.TrimRight(raw, " \t\r\n")] *)
Definition is_blank (a : ascii) : bool := existsb (Ascii.eqb a) [" "; "009"; "013"; "010"]%char.

Fixpoint trim_blanks (s : string) : string :=
  match s with
  | "" => ""
  | String a s' => let t := trim_blanks s' in if String.eqb t "" && is_blank a then "" else String a t
  end.

Definition normalize (raw : string) : string := trim_blanks raw +:+ String "010" "".

Definition mirrorFile (srcPath dstPath : string) : fs (result unit) :=
  do! raw ← wrapP "read %s: %w" [TStr srcPath] (fails (call (ReadFile srcPath)));
  let normalized := normalize raw in
  existing ← call (ReadFile dstPath);
  if match existing with inl d => String.eqb d normalized | inr _ => false end then Ret (Ok tt)
  else wrapP "write %s: %w" [TStr dstPath] (fails (call (WriteFile dstPath normalized 420))).

Definition mirror_section (srcAbs dstAbs : string) (_ : unit) (section : string) : fs (result unit) :=
  mirrorFile (Join [srcAbs; FileName section]) (Join [dstAbs; FileName section]).

(** Whether an entry is one of the mirror's files. *)
Definition keeps (e : DirEntry) : bool := negb (de_IsDir e) && bool_decide (de_Name e ∈ wanted).

Definition sweep_entry (dstAbs : string) (_ : unit) (e : DirEntry) : fs (result unit) :=
  if keeps e then Ret (Ok tt)
  else let path := Join [dstAbs; de_Name e] in wrapP "remove stale %s: %w" [TStr path] (fails (call (RemoveAll path))).

Definition sweepStale (dstAbs : string) : fs (result unit) :=
  do! entries ← wrapP "list dst: %w" [] (fails (call (ReadDir dstAbs)));
  foldT (sweep_entry dstAbs) tt entries.

(** filepath.Abs, in the working directory [wd]. *)
Definition Abs (wd : result string) (p : string) : result string :=
  if IsAbs p then Ok (Clean p) else d ← wd; Ok (Join [d; p]).

Definition generate_abs (srcAbs dstAbs : string) : fs (result unit) :=
  do! srcMD ← wrapP "list src: %w" [] (listMarkdown srcAbs);
  match validateSources srcAbs srcMD with
  | Some e => Ret (Err e)
  | None =>
    do! _ ← wrapP "create dst: %w" [] (fails (call (MkdirAll dstAbs 493)));
    do! _ ← foldT (mirror_section srcAbs dstAbs) tt Order;
    sweepStale dstAbs
  end.

Definition Generate (wd : result string) (src dst : string) : fs (result unit) :=
  do! srcAbs ← Ret (wrap_err "resolve src: %w" [] (Abs wd src));
  do! dstAbs ← Ret (wrap_err "resolve dst: %w" [] (Abs wd dst));
  generate_abs srcAbs dstAbs.

Example normalize_ex : normalize (bytes_str [97; 32; 10; 98; 32; 13; 10; 10]) = bytes_str [97; 32; 10; 98; 10].
Proof. vm_compute. reflexivity. Qed.

(** ** Lemmas *)
Lemma trim_blanks_idem s : trim_blanks (trim_blanks s) = trim_blanks s.
Proof.
  induction s as [|a s IH]; [done|]. cbn [trim_blanks]. destruct (String.eqb (trim_blanks s) "" && is_blank a) eqn:E; [done|].
  cbn [trim_blanks]. by rewrite IH, E.
Qed.

Lemma trim_blanks_newline s : trim_blanks (s +:+ String "010" "") = trim_blanks s.
Proof. induction s as [|a s IH]; [done|]. change (trim_blanks (String a (s +:+ String "010" "")) = trim_blanks (String a s)). cbn [trim_blanks]. by rewrite IH. Qed.

(** A canonical file is its own canonical form. *)
Lemma normalize_idem s : normalize (normalize s) = normalize s.
Proof. unfold normalize. by rewrite trim_blanks_newline, trim_blanks_idem. Qed.

Lemma elem_of_wanted e : e ∈ wanted <-> exists s, s ∈ Order /\ e = FileName s.
Proof. unfold wanted. rewrite elem_of_list_to_set, list_elem_of_fmap. naive_solver. Qed.

Lemma FileName_normal s : s ∈ Order -> normal (FileName s).
Proof.
  intros Hs. assert (Forall (fun s => normal (FileName s)) Order) as H; [|by eapply Forall_forall in H].
  unfold Order. repeat (apply Forall_cons; split; [by vm_compute|]). constructor.
Qed.

Lemma validateSources_ok srcAbs found : validateSources srcAbs found = None <-> found = wanted.
Proof.
  unfold validateSources. split.
  - destruct (sort_strings (elements (wanted ∖ found))) as [|x l] eqn:E1; [|done].
    destruct (sort_strings (elements (found ∖ wanted))) as [|y l'] eqn:E2; [|done]. intros _.
    assert (forall X : gset string, sort_strings (elements X) = [] -> X = ∅) as H.
    { intros X HX. apply leibniz_equiv, elements_empty_inv. pose proof (sort_strings_length (elements X)) as Hp. rewrite HX in Hp. by destruct (elements X). }
    apply H in E1, E2. apply set_eq. intros x.
    assert (forall X Y : gset string, X ∖ Y = ∅ -> x ∈ X -> x ∈ Y) as Hd.
    { intros X Y HX Hx. destruct (decide (x ∈ Y)) as [?|Hy]; [done|]. exfalso. apply (not_elem_of_empty (C := gset string) x). rewrite <-HX. by apply elem_of_difference. }
    split; by apply Hd.
  - intros ->. rewrite difference_diag_L. reflexivity.
Qed.

(** *** The mirror *)

(** Running a loop's head, then its tail. *)
Lemma run_wrap_ok {A} f args (p : fs (result A)) w a w' : run_fs (wrapP f args p) w = (Ok a, w') -> run_fs p w = (Ok a, w').
Proof. rewrite run_wrap. destruct (run_fs p w) as [[b|e] w1]; [|done]. by intros [= -> ->]. Qed.

Lemma read_file_ok p w d w' : run_fs (fails (call (ReadFile p))) w = (Ok d, w') -> w' = w /\ contents (w_tree w) (key p) = Some d.
Proof.
  rewrite run_fails. destruct w as [now f]. cbn [fs_answer w_now w_tree]. destruct (find f (key p)) as [[m t x|]|] eqn:E; [|done|done].
  intros [= -> <-]. split; [done|]. unfold contents. by rewrite (file_lookup _ _ _ _ _ E).
Qed.

Lemma run_mirrorFile a b w w' : run_fs (mirrorFile a b) w = (Ok tt, w') ->
  exists raw, contents (w_tree w) (key a) = Some raw /\
    (forall j, contents (w_tree w') j = if decide (j = key b) then Some (normalize raw) else contents (w_tree w) j).
Proof.
  unfold mirrorFile. rewrite run_try. destruct (run_fs (wrapP _ _ _) w) as [[raw|e] w1] eqn:E; [|done]. apply run_wrap_ok, read_file_ok in E as [-> Hraw].
  destruct w as [now f]. rewrite run_bind. unfold call. rewrite run_call. cbn [fs_answer w_now w_tree] in *.
  assert (forall r : string + errno, run_fs (wrapP "write %s: %w" [TStr b] (fails (call (WriteFile b (normalize raw) 420)))) (mkWorld now f) = (Ok tt, w') ->
    exists raw, contents f (key a) = Some raw /\ forall j, contents (w_tree w') j = if decide (j = key b) then Some (normalize raw) else contents f j) as Hw.
  { intros _ H%run_wrap_ok. exists raw. split; [done|]. exact (run_WriteFile _ _ _ _ _ H). }
  destruct (find f (key b)) as [[m t x|]|] eqn:Eb; rewrite run_ret; [|by apply (Hw (inr (NotExist (lit ""))))..].
  destruct (String.eqb_spec x (normalize raw)) as [->|_]; [|by apply (Hw (inr (NotExist (lit ""))))].
  rewrite run_ret. intros [= <-]. exists raw. split; [done|]. intros j. cbn. case_decide; [subst|done]. unfold contents. by rewrite (file_lookup _ _ _ _ _ Eb).
Qed.

Section Mirror.
Context (src dst : string).
Abbreviation S' := (key src).
Abbreviation D := (key dst).
Context (Hdis : S' <> D).

Lemma run_mirror l : forall w w', Forall (fun s => s ∈ Order) l ->
  run_fs (foldT (mirror_section src dst) tt l) w = (Ok tt, w') ->
  (forall s, s ∈ l -> exists raw, contents (w_tree w) (child S' (FileName s)) = Some raw /\ contents (w_tree w') (child D (FileName s)) = Some (normalize raw)) /\
  (forall j, (forall s, s ∈ l -> j <> child D (FileName s)) -> contents (w_tree w') j = contents (w_tree w) j).
Proof.
  induction l as [|s l IH]; intros w w' Hl; cbn [foldT]; [intros [= <-]; split; [by intros s ?%not_elem_of_nil|done]|].
  apply Forall_cons in Hl as [Hs Hl]. pose proof (FileName_normal s Hs) as Hn.
  rewrite run_try. destruct (run_fs (mirror_section src dst tt s) w) as [[[]|e] w1] eqn:E; [|done].
  apply run_mirrorFile in E as (raw & Hraw & Hw1). rewrite !key_child in * by done. intros H. destruct (IH w1 w' Hl H) as [H1 H2].
  assert (forall e, contents (w_tree w1) (child S' e) = contents (w_tree w) (child S' e)) as Hsrc.
  { intros e. rewrite Hw1. rewrite decide_False; [done|]. by intros [E _]%child_inj. }
  split.
  - intros x [->|Hx]%elem_of_cons; [|destruct (H1 x Hx) as (r & Hr & ?); exists r; by rewrite <-Hsrc].
    exists raw. split; [done|]. destruct (decide (FileName s ∈ map FileName l)) as [(y & Ey & Hy)%list_elem_of_fmap|Hno].
    + rewrite Ey in *. destruct (H1 y Hy) as (r & Hr & ->). rewrite Hsrc, Hraw in Hr. by injection Hr as ->.
    + rewrite H2, Hw1; [by rewrite decide_True|]. intros y Hy [_ Ey]%child_inj. apply Hno. rewrite Ey. by apply list_elem_of_fmap_2.
  - intros j Hj. rewrite H2, Hw1; [|intros x Hx; apply Hj; by right]. rewrite decide_False; [done|]. apply Hj. by left.
Qed.

(** *** The sweep *)
Definition swept (l : list DirEntry) (j : path) : Prop := exists e, e ∈ l /\ keeps e = false /\ under (child D (de_Name e)) j.

Lemma swept_cons e l j : swept (e :: l) j <-> keeps e = false /\ under (child D (de_Name e)) j \/ swept l j.
Proof.
  split.
  - intros (x & Hx & Hk & Hu). apply elem_of_cons in Hx as [->|Hx]; [by left|]. right. by exists x.
  - intros [[Hk Hu]|(x & Hx & Hk & Hu)]; [exists e|exists x]; (split_and!; [|done|done]); [by left|by right].
Qed.

Lemma remove_all_ok p w w' : run_fs (fails (call (RemoveAll p))) w = (Ok tt, w') -> w_tree w' = remove_tree (w_now w) (key p) (w_tree w).
Proof. rewrite run_fails. cbn [fs_answer]. destruct (blocked _ _); [done|]. case_bool_decide; [done|]. by intros [= <-]. Qed.

Lemma run_sweep l : forall w w', Forall (fun e => normal (de_Name e)) l -> run_fs (foldT (sweep_entry dst) tt l) w = (Ok tt, w') ->
  (forall j, w_tree w' !! j = None <-> w_tree w !! j = None \/ swept l j) /\ (forall j, ~ swept l j -> contents (w_tree w') j = contents (w_tree w) j).
Proof.
  induction l as [|e l IH]; intros w w' Hl; cbn [foldT].
  { intros [= <-]. split; [|done]. intros j. split; [by left|]. intros [?|(e & He & _)]; [done|]. by apply not_elem_of_nil in He. }
  apply Forall_cons in Hl as [Hn Hl]. rewrite run_try. unfold sweep_entry at 1. destruct (keeps e) eqn:Ek.
  - rewrite run_ret. intros H. destruct (IH w w' Hl H) as [H1 H2]. split; intros j; rewrite swept_cons, Ek.
    + rewrite H1. clear. intuition congruence.
    + intros Hj. apply H2. intros Hs. apply Hj. by right.
  - destruct (run_fs (wrapP _ _ _) w) as [[[]|x] w1] eqn:E; [|done]. apply run_wrap_ok, remove_all_ok in E. rewrite key_child in E by done.
    intros H. destruct (IH w1 w' Hl H) as [H1 H2]. split; intros j; rewrite swept_cons, Ek.
    + rewrite H1, E, lookup_remove_tree. case_decide as Hu; [|rewrite lookup_touch_None; clear -Hu; tauto].
      split; [by right; left|by left].
    + intros Hj. rewrite H2 by (clear -Hj; tauto). rewrite E, contents_remove_tree, decide_False by (clear -Hj; tauto). done.
Qed.
End Mirror.

(** The names of a folder's entries. *)
Lemma run_ReadDir p w l w' : run_fs (fails (call (ReadDir p))) w = (Ok l, w') ->
  w' = w /\ l = map (fun e => mkDirEntry e (is_folder (w_tree w !! child (key p) e))) (names_in (w_tree w) (key p)).
Proof. rewrite run_fails. destruct w as [now f]. cbn [fs_answer w_now w_tree]. destruct (find f (key p)) as [[]|]; [done| |done]. by intros [= <- <-]. Qed.

Lemma names_normal f k e : wf f -> e ∈ names_in f k -> normal e.
Proof. intros Hf [n Hn]%elem_of_names_in. destruct (Hf _ _ Hn) as (_ & H & _). unfold child in H. cbn in H. rewrite Forall_app in H. destruct H as [_ H]. by inversion H. Qed.

Lemma run_sweepStale dst w w' : wf (w_tree w) -> run_fs (sweepStale dst) w = (Ok tt, w') ->
  (forall e, is_Some (w_tree w' !! child (key dst) e) <-> e ∈ wanted /\ is_Some (contents (w_tree w) (child (key dst) e))) /\
  (forall j, ~ under (key dst) j -> contents (w_tree w') j = contents (w_tree w) j) /\
  (forall e, e ∈ wanted -> contents (w_tree w') (child (key dst) e) = contents (w_tree w) (child (key dst) e)).
Proof.
  intros Hwf. unfold sweepStale. rewrite run_try. destruct (run_fs (wrapP _ _ _) w) as [[l|x] w1] eqn:E; [|done].
  apply run_wrap_ok, run_ReadDir in E as [-> ->]. set (l := map _ _). intros H. apply run_sweep in H as [H1 H2].
  2:{ subst l. apply Forall_forall. intros e (x & -> & Hx)%list_elem_of_fmap. by eapply names_normal. }
  assert (forall e, e ∈ l <-> exists x, x ∈ names_in (w_tree w) (key dst) /\ e = mkDirEntry x (is_folder (w_tree w !! child (key dst) x))) as Hl.
  { intros e. subst l. rewrite list_elem_of_fmap. naive_solver. }
  assert (forall e, swept dst l (child (key dst) e) <-> is_Some (w_tree w !! child (key dst) e) /\ keeps (mkDirEntry e (is_folder (w_tree w !! child (key dst) e))) = false) as Hs.
  { intros e. rewrite <-elem_of_names_in. unfold swept. setoid_rewrite Hl. split.
    - intros (? & (x & Hx & ->) & Hk & Hu). cbn [de_Name] in Hu. destruct Hu as [_ [t Ht]]. cbn in Ht. rewrite <-app_assoc in Ht. apply app_inv_head in Ht. injection Ht as -> _. done.
    - intros [Hx Hk]. eexists. split_and!; [by exists e|done|]. apply under_refl. }
  split_and!.
  - intros e. rewrite <-not_eq_None_Some, H1, Hs. unfold keeps, contents. cbn [de_IsDir de_Name].
    destruct (w_tree w !! child (key dst) e) as [[m t d|m t]|] eqn:E; cbn [is_folder negb andb].
    + case_bool_decide; [|naive_solver]. split; [by eauto|]. intros _ [?|[_ ?]]; done.
    + split; [intros Hn; exfalso; apply Hn; right; eauto|]. by intros [_ [? ?]].
    + split; [intros Hn; exfalso; apply Hn; by left|]. by intros [_ [? ?]].
  - intros j Hj. apply H2. intros (e & _ & _ & Hu). apply Hj. eapply under_trans; [apply under_child|exact Hu].
  - intros e He. destruct (is_folder (w_tree w !! child (key dst) e)) eqn:Ef.
    + unfold contents. destruct (w_tree w' !! child (key dst) e) as [n|] eqn:E'.
      * exfalso. assert (w_tree w' !! child (key dst) e = None) as HN; [|by rewrite HN in E']. apply H1. right. apply Hs. rewrite Ef.
        split; [by destruct (w_tree w !! child (key dst) e)|done].
      * by destruct (w_tree w !! child (key dst) e) as [[]|].
    + apply H2. rewrite Hs. unfold keeps. cbn [de_IsDir de_Name]. rewrite Ef, bool_decide_eq_true_2 by done. by intros [_ ?].
Qed.

Lemma Generate_abs wd src dst srcAbs dstAbs : Abs wd src = Ok srcAbs -> Abs wd dst = Ok dstAbs -> Generate wd src dst = generate_abs srcAbs dstAbs.
Proof. unfold Generate. by intros -> ->. Qed.

(** ** What Generate makes of a tree *)

(** When Generate succeeds between folders neither of which holds the other, the
    destination has exactly the curated files, each the source's with one newline at its end,
    and the source has kept its files: whatever stood in the destination before. *)
Theorem Generate_mirrors wd src dst srcAbs dstAbs w w' :
  Abs wd src = Ok srcAbs -> Abs wd dst = Ok dstAbs -> wf (w_tree w) ->
  ~ under (key srcAbs) (key dstAbs) -> ~ under (key dstAbs) (key srcAbs) ->
  run_fs (Generate wd src dst) w = (Ok tt, w') ->
  (forall e, is_Some (w_tree w' !! child (key dstAbs) e) <-> e ∈ wanted) /\
  (forall e, e ∈ wanted -> exists raw, contents (w_tree w) (child (key srcAbs) e) = Some raw /\ contents (w_tree w') (child (key dstAbs) e) = Some (normalize raw)) /\
  (forall j, under (key srcAbs) j -> contents (w_tree w') j = contents (w_tree w) j).
Proof.
  intros Es Ed Hwf Hsd Hds. rewrite (Generate_abs _ _ _ _ _ Es Ed). unfold generate_abs.
  rewrite run_try. destruct (run_fs (wrapP _ _ _) w) as [[found|x] w1] eqn:E; [|done]. apply run_wrap_ok in E. unfold listMarkdown in E. rewrite run_try in E.
  destruct (run_fs (fails (call (ReadDir srcAbs))) w) as [[l|x] w0] eqn:E0; [|done]. apply run_ReadDir in E0 as [-> ->]. rewrite run_ret in E. injection E as _ <-.
  destruct (validateSources srcAbs found); [done|]. rewrite run_try. destruct (run_fs (wrapP _ _ _) w) as [[[]|x] w1] eqn:E; [|done].
  pose proof (run_wf (wrapP "create dst: %w" [] (fails (call (MkdirAll dstAbs 493)))) w Hwf) as Hwf1. rewrite E in Hwf1. cbn [snd] in Hwf1.
  apply run_wrap_ok, run_MkdirAll in E as [_ Hc1]. rewrite run_try. destruct (run_fs (foldT _ _ _) w1) as [[[]|x] w2] eqn:E; [|done].
  pose proof (run_wf (foldT (mirror_section srcAbs dstAbs) tt Order) w1 Hwf1) as Hwf2. rewrite E in Hwf2. cbn [snd] in Hwf2.
  apply run_mirror in E as [Hm1 Hm2]; [|intros Heq; apply Hsd; rewrite Heq; apply under_refl|by apply Forall_forall].
  intros H. apply run_sweepStale in H as (H1 & H2 & H3); [|done].
  assert (forall e, e ∈ wanted -> exists raw, contents (w_tree w) (child (key srcAbs) e) = Some raw /\ contents (w_tree w2) (child (key dstAbs) e) = Some (normalize raw)) as Hall.
  { intros e (s & Hs & ->)%elem_of_wanted. destruct (Hm1 s Hs) as (raw & Hr & ?). exists raw. by rewrite <-Hc1. }
  split_and!.
  - intros e. rewrite H1. split; [by intros [? _]|]. intros He. split; [done|]. destruct (Hall e He) as (raw & _ & ->). by eexists.
  - intros e He. rewrite H3 by done. by apply Hall.
  - intros j Hj. assert (~ under (key dstAbs) j) as Hnd by (intros Hu; by destruct (under_linear _ _ _ Hj Hu)).
    rewrite H2, Hm2, Hc1; [done| |done]. intros s Hs ->. apply Hnd, under_child.
Qed.

(** A source that lacks a curated file, or has another markdown file, is refused before
    anything is changed. *)
Theorem Generate_refuses wd src dst srcAbs dstAbs w :
  Abs wd src = Ok srcAbs -> Abs wd dst = Ok dstAbs ->
  (exists e, e ∈ wanted /\ is_file (w_tree w !! child (key srcAbs) e) = false) \/
  (exists e, e ∉ wanted /\ has_suffix e ".md" = true /\ is_file (w_tree w !! child (key srcAbs) e) = true) ->
  exists err, run_fs (Generate wd src dst) w = (Err err, w).
Proof.
  intros Es Ed Hbad. rewrite (Generate_abs _ _ _ _ _ Es Ed). unfold generate_abs.
  rewrite run_try, run_wrap. unfold listMarkdown. rewrite run_try.
  destruct (run_fs (fails (call (ReadDir srcAbs))) w) as [[l|x] w0] eqn:E0.
  2:{ rewrite run_fails in E0. destruct w as [now f]. cbn [fs_answer w_now w_tree] in E0. eexists. cbn [wrap_err].
      destruct (find f (key srcAbs)) as [[]|]; by injection E0 as _ <-. }
  apply run_ReadDir in E0 as [-> ->]. rewrite run_ret. cbn [wrap_err]. set (found := list_to_set _).
  destruct (validateSources srcAbs found) as [e|] eqn:Ev; [by exists e|]. exfalso. apply validateSources_ok in Ev.
  assert (forall e, e ∈ found <-> has_suffix e ".md" = true /\ is_file (w_tree w !! child (key srcAbs) e) = true) as Hf.
  { intros e. subst found. rewrite elem_of_list_to_set, list_elem_of_fmap. setoid_rewrite list_elem_of_In. setoid_rewrite filter_In. setoid_rewrite in_map_iff.
    setoid_rewrite <-list_elem_of_In. split.
    - intros (? & -> & (x & <- & Hx) & [Hd Hs]%andb_prop). cbn [de_Name de_IsDir] in *. split; [done|]. apply elem_of_names_in in Hx as [n Hn]. rewrite Hn in *. by destruct n.
    - intros [Hs Hi]. eexists. split_and!; [|exists e; split; [reflexivity|]|]; [done| |].
      + apply elem_of_names_in. by destruct (w_tree w !! child (key srcAbs) e).
      + cbn [de_Name de_IsDir]. rewrite Hs. by destruct (w_tree w !! child (key srcAbs) e) as [[]|]. }
  destruct Hbad as [(e & He & Hn)|(e & He & Hs & Hi)].
  - rewrite <-Ev, Hf, Hn in He. by destruct He.
  - apply He. rewrite <-Ev. by apply Hf.
Qed.
