(* ===== verification/HelpJson.v ===== *)
(** * cmd/tkn-act: what the tool says about itself

    helpjson.go, agentguide.go and version.go, over internal/agentguide's list of sections.
    A command is what cobra holds of it: its name, texts, flags and subcommands; the flags of
    a set are listed as VisitAll visits them.  The embedded guide is a map from file names to
    contents, and the help text of a command is cobra's. *)

From S2P Require Import ExitCode Prelude GoStrings Effects Fs Json JsonText TektonTypes RunIndex Events Cli Commands GuideGen.

(** ** [sort.Slice] by a name *)
Section sort_by.
Context {A : Type} (name : A -> string).

Definition le_name (a b : A) : Prop := String.le (name a) (name b).

#[export] Instance le_name_dec a b : Decision (le_name a b).
Proof. unfold le_name. apply _. Defined.

Definition sort_by (l : list A) : list A := merge_sort le_name l.

#[local] Instance le_name_total : Total le_name.
Proof. intros a b. apply (total String.le). Qed.
#[local] Instance le_name_trans : Transitive le_name.
Proof. intros a b c. apply (transitivity (R := String.le)). Qed.

Lemma sort_by_perm l : sort_by l ≡ₚ l.
Proof. apply merge_sort_Permutation. Qed.

Lemma sort_by_sorted l : StronglySorted le_name (sort_by l).
Proof. apply StronglySorted_merge_sort; apply _. Qed.

Lemma elem_of_sort_by l x : x ∈ sort_by l <-> x ∈ l.
Proof. by rewrite sort_by_perm. Qed.

(** With distinct names any algorithm gives this order. *)
Lemma sort_by_unique l l' : NoDup (map name l) -> l' ≡ₚ l -> StronglySorted le_name l' -> l' = sort_by l.
Proof.
  intros Hn Hp Hs. apply (StronglySorted_unique_strong le_name); [|done|apply sort_by_sorted|by rewrite sort_by_perm].
  intros x y Hx Hy Hxy Hyx. rewrite Hp in Hx. rewrite sort_by_perm in Hy.
  assert (name x = name y) as E by (by apply (anti_symm String.le)).
  clear -Hn Hx Hy E. induction l as [|z l IH]; [by apply not_elem_of_nil in Hx|]. cbn in Hn. apply NoDup_cons in Hn as [Hz Hn].
  apply elem_of_cons in Hx as [->|Hx], Hy as [->|Hy]; [done| | |by apply IH]; exfalso; apply Hz.
  - rewrite E. by apply list_elem_of_fmap_2.
  - rewrite <-E. by apply list_elem_of_fmap_2.
Qed.
End sort_by.

(** ** Commands and flags, as cobra and pflag hold them *)
Record Flag := mkFlag { pf_Name : string; pf_Shorthand : string; pf_Type : string; pf_DefValue : string; pf_Usage : string }.

Record about := mkabout { co_Name : string; co_Short : string; co_Long : string; co_Example : string; co_Hidden : bool; co_LocalFlags : list Flag }.

Inductive Command : Type := mkCommand (a : about) (subs : list Command).

Definition the_command (c : Command) : about := match c with mkCommand a _ => a end.
Definition subcommands (c : Command) : list Command := match c with mkCommand _ l => l end.
Definition Name (c : Command) : string := co_Name (the_command c).

Section command_induction.
Context (P : Command -> Prop) (HP : forall a subs, Forall P subs -> P (mkCommand a subs)).

Fixpoint Command_induction (c : Command) : P c :=
  match c with
  | mkCommand a subs =>
    HP a subs ((fix go (l : list Command) : Forall P l :=
                  match l with [] => @List.Forall_nil _ P | c :: l => @List.Forall_cons _ P c l (Command_induction c) (go l) end) subs)
  end.
End command_induction.

(** ** helpjson.go *)
Record flagInfo := mkflagInfo { fl_Name : string; fl_Short : string; fl_Type : string; fl_Default : string; fl_Usage : string; fl_Persistent : bool }.

Record commandInfo := mkcommandInfo { ci_Path : string; ci_Short : string; ci_Long : string; ci_Examples : list string; ci_Flags : list flagInfo }.

Record exitCodeInfo := mkexitCodeInfo { ec_Code : Z; ec_Name : string; ec_When : string }.

Record helpJSON := mkhelpJSON {
  hj_Name : string; hj_Version : string; hj_ExitCodes : list exitCodeInfo; hj_GlobalFlags : list flagInfo; hj_Commands : list commandInfo;
}.

Definition collectFlags (fs : list Flag) (persistent : bool) : list flagInfo :=
  sort_by fl_Name (map (fun f => mkflagInfo (pf_Name f) (pf_Shorthand f) (pf_Type f) (pf_DefValue f) (pf_Usage f) persistent) fs).

Definition exitCodeTable : list exitCodeInfo :=
  [mkexitCodeInfo 0 "success" "command completed and (for run) the pipeline succeeded";
   mkexitCodeInfo 1 "generic" "uncategorised internal error";
   mkexitCodeInfo 2 "usage" "bad flag, contradictory inputs, missing required arg";
   mkexitCodeInfo 3 "environment" "Docker not running, k3d/kubectl missing, cache dir not writable";
   mkexitCodeInfo 4 "validate" "Tekton YAML rejected before run";
   mkexitCodeInfo 5 "pipeline" "run completed but a Task or finally task failed";
   mkexitCodeInfo 6 "timeout" "a Task or finally task ended due to its declared timeout";
   mkexitCodeInfo 130 "cancelled" "SIGINT or SIGTERM during a run"].

(** The names from the root. *)
Definition fullPath (names : list string) : string := join " " names.

(** The lines of an example that are neither empty nor comments. *)
Definition example_lines (example : string) : list string :=
  if String.eqb example "" then []
  else filter (fun t => negb (String.eqb t "") && negb (has_prefix t "#")) (map trim_space (split_all example (String "010" ""))).

Definition info_of (names : list string) (c : about) : commandInfo :=
  mkcommandInfo (fullPath names) (co_Short c) (trim_space (co_Long c)) (example_lines (co_Example c)) (collectFlags (co_LocalFlags c) false).

(** What a walk below [c] leaves out. *)
Definition skipped (c : Command) : bool := co_Hidden (the_command c) || String.eqb (Name c) "help".

(** [parents] are the names above, the root's first; the root has none and is no entry. *)
Fixpoint walkForJSON (parents : list string) (c : Command) : list commandInfo :=
  match c with
  | mkCommand a subs =>
    (match parents with
     | [] => []
     | _ => if String.eqb (co_Name a) "help" then [] else [info_of (parents ++ [co_Name a]) a]
     end) ++
    flat_map (fun sub => if skipped sub then [] else walkForJSON (parents ++ [co_Name a]) sub) subs
  end.

Definition buildHelpJSON (version : string) (persistent : list Flag) (root : Command) : helpJSON :=
  mkhelpJSON (Name root) version exitCodeTable (collectFlags persistent true) (sort_by ci_Path (walkForJSON [] root)).

(** The encoding: a nil slice is null, one tagged omitempty is left out when empty. *)
Definition slice_json (l : list json) : json := match l with [] => JNull | _ => JArr l end.
Definition omit_slice (name : string) (l : list json) : list (string * json) := match l with [] => [] | _ => [(name, JArr l)] end.

Definition flag_json (f : flagInfo) : json :=
  JObj ([("name", JStr (fl_Name f))] ++ omit_empty "short" (fl_Short f) ++ [("type", JStr (fl_Type f))] ++
        omit_empty "default" (fl_Default f) ++ [("usage", JStr (fl_Usage f))] ++ omit_false "persistent" (fl_Persistent f)).

Definition command_fields (c : commandInfo) : list (string * json) :=
  [("path", JStr (ci_Path c))] ++ omit_empty "short" (ci_Short c) ++ omit_empty "long" (ci_Long c) ++
  omit_slice "examples" (map JStr (ci_Examples c)) ++ omit_slice "flags" (map flag_json (ci_Flags c)).

Definition exit_json (e : exitCodeInfo) : json := JObj [("code", int_json (ec_Code e)); ("name", JStr (ec_Name e)); ("when", JStr (ec_When e))].

Definition help_json (h : helpJSON) : json :=
  JObj [("name", JStr (hj_Name h)); ("version", JStr (hj_Version h)); ("exit_codes", slice_json (map exit_json (hj_ExitCodes h)));
        ("global_flags", slice_json (map flag_json (hj_GlobalFlags h))); ("commands", slice_json (map (fun c => JObj (command_fields c)) (hj_Commands h)))].

(** A group's own entry, and the paths below it. *)
Definition empty_info : commandInfo := mkcommandInfo "" "" "" [] [].

Definition group_of (parents : list string) (c : Command) : commandInfo * list string :=
  let infos := walkForJSON parents c in
  let here := fullPath (parents ++ [Name c]) in
  let '(own, below) := foldl (fun '(own, below) ci => if String.eqb (ci_Path ci) here then (ci, below) else (own, below ++ [ci_Path ci])) (empty_info, []) infos in
  (own, sort_strings below).

Section Commands.
Context {K : CoreV1}.
Variables (gf : globalFlags) (version : string).
(** cobra's help text of a command, on stdout. *)
Variable Help : Command -> cli (unit + goerror).

Definition help_json_cmd (persistent : list Flag) (root : Command) : cli (unit + goerror) :=
  _ ← print_json (help_json (buildHelpJSON version persistent root)); Ret (inl tt).

Definition helpOrGroupJSON (parents : list string) (c : Command) : cli (unit + goerror) :=
  if negb (String.eqb (gf_output gf) "json") then Help c
  else let '(own, below) := group_of parents c in
       _ ← print_json (JObj (command_fields own ++ [("subcommands", JArr (map JStr below))])); Ret (inl tt).

(** version.go *)
Definition version_cmd : cli (unit + goerror) :=
  _ ← (if String.eqb (gf_output gf) "json" then print_json (JObj [("name", JStr "tkn-act"); ("version", JStr version)])
       else println "tkn-act %s" [TStr version]);
  Ret (inl tt).

(** ** agentguide.go *)

(** The embedded files. *)
Variable agentGuideFS : gmap string string.

Definition agentGuideDataDir : string := "agentguide_data".

Definition readSection (section : string) : option string := agentGuideFS !! (agentGuideDataDir +:+ "/" +:+ FileName section).

(** A section that is missing panics: [None]. *)
Fixpoint guide_from (first : bool) (order : list string) : option string :=
  match order with
  | [] => Some ""
  | section :: order =>
    body ← readSection section; rest ← guide_from false order;
    Some ((if first then "" else String "010" ("---" +:+ String "010" (String "010" ""))) +:+ body +:+ rest)
  end.

Definition AgentGuideContent : option string := guide_from true Order.

Definition writeBody (body : string) : cli unit :=
  _ ← call (Stdout (Fmt "%s" [TStr body]));
  if has_suffix body (String "010" "") then Ret tt else call (Stdout (lit (String "010" ""))).

Definition writeGuide (section body : string) : cli (unit + goerror) :=
  _ ← (if String.eqb (gf_output gf) "json" then print_json (JObj (omit_empty "section" section ++ [("markdown", JStr body)])) else writeBody body);
  Ret (inl tt).

(** [json.Marshal] is not indented. *)
Definition runListSections : cli (unit + goerror) :=
  _ ← (if String.eqb (gf_output gf) "json"
       then call (Stdout (Fmt "%s" [TStr (Marshal (JObj [("sections", JArr (map JStr Order))]) +:+ String "010" "")]))
       else foldP (fun _ s => println "%s" [TStr s]) tt Order);
  Ret (inl tt).

(** [None] is a panic. *)
Definition agent_guide_cmd (list : bool) (section : string) : option (cli (unit + goerror)) :=
  if list then Some runListSections
  else if negb (String.eqb section "") then
    Some (match readSection section with
          | None => Ret (inr (Coded Usage (Plain (Fmt "unknown section %q; valid: %s" [TStr section; TStr (join ", " Order)]))))
          | Some body => writeGuide section body
          end)
  else writeGuide "" <$> AgentGuideContent.
End Commands.

(** ** The tree as its user sees it *)

(** [visible c ns a]: from [c] down the names [ns], none of them hidden or help, lies [a]. *)
Inductive visible : Command -> list string -> about -> Prop :=
  | visible_here a subs : visible (mkCommand a subs) [] a
  | visible_below a subs sub ns b : sub ∈ subs -> skipped sub = false -> visible sub ns b -> visible (mkCommand a subs) (Name sub :: ns) b.

(** Siblings have different names, and a name has no space: cobra cuts it out of [Use]. *)
Fixpoint well_named (c : Command) : Prop :=
  match c with
  | mkCommand a subs => no_byte " " (co_Name a) = true /\ NoDup (map Name subs) /\ foldr (fun c P => well_named c /\ P) True subs
  end.

(** ** Lemmas *)
Lemma walk_entry parents c : parents <> [] -> Name c <> "help" ->
  walkForJSON parents c =
  info_of (parents ++ [Name c]) (the_command c) :: flat_map (fun sub => if skipped sub then [] else walkForJSON (parents ++ [Name c]) sub) (subcommands c).
Proof.
  destruct c as [a subs]. unfold Name. cbn [walkForJSON the_command subcommands]. intros Hp Hn. destruct parents; [done|].
  destruct (String.eqb_spec (co_Name a) "help"); [done|]. done.
Qed.

Lemma skipped_help c : skipped c = false -> Name c <> "help".
Proof. unfold skipped. intros [_ H]%orb_false_elim E. by rewrite E in H. Qed.

Lemma in_below (f : Command -> list commandInfo) subs ci :
  ci ∈ flat_map (fun sub => if skipped sub then [] else f sub) subs <-> exists sub, sub ∈ subs /\ skipped sub = false /\ ci ∈ f sub.
Proof.
  rewrite list_elem_of_In, in_flat_map. split.
  - intros (sub & Hs & Hc). exists sub. rewrite list_elem_of_In. destruct (skipped sub); [by destruct Hc|]. by rewrite list_elem_of_In.
  - intros (sub & Hs & Hk & Hc). exists sub. rewrite list_elem_of_In in Hs. rewrite Hk. by rewrite list_elem_of_In in Hc.
Qed.

(** A walk below a command with parents lists what is visible from it. *)
Lemma elem_of_walk c : forall parents ci, parents <> [] -> Name c <> "help" ->
  (ci ∈ walkForJSON parents c <-> exists ns a, visible c ns a /\ ci = info_of (parents ++ Name c :: ns) a).
Proof.
  induction c as [a subs IH] using Command_induction. intros parents ci Hp Hn. rewrite walk_entry by done. cbn [the_command subcommands].
  rewrite elem_of_cons, in_below. rewrite List.Forall_forall in IH. split.
  - intros [->|(sub & Hs & Hk & Hc)]; [exists [], a; by split; [constructor|]|].
    apply IH in Hc as (ns & b & Hv & ->); [|by apply list_elem_of_In|by destruct parents|by apply skipped_help].
    exists (Name sub :: ns), b. split; [by econstructor|]. by rewrite <-app_assoc.
  - intros (ns & b & Hv & ->). inversion Hv as [|? ? sub ns' ? Hs Hk Hv']; subst; [by left|]. right. exists sub. split_and!; [done|done|].
    apply IH; [by apply list_elem_of_In|by destruct parents|by apply skipped_help|]. exists ns', b. split; [done|]. by rewrite <-app_assoc.
Qed.

Lemma elem_of_walk_root root ci :
  ci ∈ walkForJSON [] root <-> exists n ns a, visible root (n :: ns) a /\ ci = info_of (Name root :: n :: ns) a.
Proof.
  destruct root as [a subs]. cbn [walkForJSON]. rewrite app_nil_l, in_below. split.
  - intros (sub & Hs & Hk & Hc). apply elem_of_walk in Hc as (ns & b & Hv & ->); [|done|by apply skipped_help].
    exists (Name sub), ns, b. split; [by econstructor|done].
  - intros (n & ns & b & Hv & ->). inversion Hv as [|? ? sub ns' ? Hs Hk Hv']; subst. exists sub. split_and!; [done|done|].
    apply elem_of_walk; [done|by apply skipped_help|]. by exists ns, b.
Qed.

(** *** Paths *)
Lemma cut_space a b s t : no_byte " " a = true -> no_byte " " b = true -> a +:+ String " " s = b +:+ String " " t -> a = b /\ s = t.
Proof.
  revert b. induction a as [|x a IH]; intros [|y b] Ha Hb E; cbn in *.
  - by injection E as ->.
  - injection E as <- _. done.
  - injection E as -> _. done.
  - injection E as <- E. apply andb_prop in Ha as [_ Ha], Hb as [_ Hb]. destruct (IH _ Ha Hb E) as [-> ->]. done.
Qed.

Lemma no_space_app a b s : no_byte " " b = true -> a +:+ String " " s <> b.
Proof. intros Hb <-. rewrite no_byte_app in Hb. apply andb_prop in Hb as [_ Hb]. done. Qed.

Lemma fullPath_inj l l' : l <> [] -> l' <> [] -> Forall (fun s => no_byte " " s = true) l -> Forall (fun s => no_byte " " s = true) l' ->
  fullPath l = fullPath l' -> l = l'.
Proof.
  unfold fullPath. revert l'. induction l as [|x [|x2 l] IH]; [done| |]; intros [|y [|y2 l']] _ Hl' [Hx H1]%Forall_cons H2 E; try done; apply Forall_cons in H2 as [Hy H2].
  - by cbn in E; subst.
  - cbn [join] in E. exfalso. symmetry in E. by apply no_space_app in E.
  - cbn [join] in E. exfalso. by apply no_space_app in E.
  - change (x +:+ String " " (join " " (x2 :: l)) = y +:+ String " " (join " " (y2 :: l'))) in E. apply cut_space in E as [-> E]; [|done|done].
    f_equal. by apply IH.
Qed.

Lemma well_named_sub a subs sub : well_named (mkCommand a subs) -> sub ∈ subs -> well_named sub.
Proof. intros (_ & _ & H) Hs. induction Hs as [|x y l Hs IH]; [apply H|]. apply IH, H. Qed.

Lemma well_named_Name c : well_named c -> no_byte " " (Name c) = true.
Proof. destruct c as [a subs]. by intros [H _]. Qed.

Lemma visible_names c ns a : visible c ns a -> well_named c -> Forall (fun s => no_byte " " s = true) ns.
Proof.
  induction 1 as [|a subs sub ns b Hs Hk Hv IH]; intros Hw; [constructor|]. pose proof (well_named_sub _ _ _ Hw Hs) as Hw'.
  constructor; [by apply well_named_Name|by apply IH].
Qed.

(** The names lead to one command. *)
Lemma visible_functional c ns a a' : visible c ns a -> well_named c -> visible c ns a' -> a = a'.
Proof.
  intros Hv. revert a'. induction Hv as [|a subs sub ns b Hs Hk Hv IH]; intros a' Hw Hv'; inversion Hv' as [|? ? sub' ns' ? Hs' Hk' Hv2]; subst; [done|].
  assert (sub' = sub) as ->; [|by apply IH; [by eapply well_named_sub|]].
  destruct Hw as (_ & Hnd & _). match goal with E : Name sub' = Name sub |- _ => rename E into En end. clear -Hnd Hs Hs' En.
  induction subs as [|x l IH]; [by apply not_elem_of_nil in Hs|]. cbn in Hnd. apply NoDup_cons in Hnd as [Hx Hnd].
  apply elem_of_cons in Hs as [->|Hs], Hs' as [->|Hs']; [done| | |by apply IH]; exfalso; apply Hx.
  - rewrite <-En. by apply list_elem_of_fmap_2.
  - rewrite En. by apply list_elem_of_fmap_2.
Qed.

Lemma walk_paths_extend c parents : parents <> [] -> Name c <> "help" ->
  forall p, p ∈ map ci_Path (walkForJSON parents c) -> exists ns a, visible c ns a /\ p = fullPath (parents ++ Name c :: ns).
Proof.
  intros Hp Hn p (ci & -> & Hc)%list_elem_of_fmap. apply elem_of_walk in Hc as (ns & a & Hv & ->); [|done|done]. by exists ns, a.
Qed.

Definition spaceless (l : list string) : Prop := Forall (fun s => no_byte " " s = true) l.

(** No path comes twice. *)
Lemma below_paths_NoDup subs : forall parents, parents <> [] -> spaceless parents -> NoDup (map Name subs) -> Forall well_named subs ->
  Forall (fun c => Name c <> "help" -> NoDup (map ci_Path (walkForJSON parents c))) subs ->
  NoDup (map ci_Path (flat_map (fun sub => if skipped sub then [] else walkForJSON parents sub) subs)).
Proof.
  induction subs as [|c subs IH]; intros parents Hp Hs Hn Hw Hd; cbn [flat_map]; [constructor|].
  cbn [map] in Hn. apply NoDup_cons in Hn as [Hc Hn]. apply Forall_cons in Hw as [Hwc Hw], Hd as [Hdc Hd]. rewrite map_app. apply NoDup_app.
  split_and!; [|intros p H1 H2|by apply IH].
  - destruct (skipped c) eqn:Hk; [constructor|]. by apply Hdc, skipped_help.
  - destruct (skipped c) eqn:Hk; [by apply not_elem_of_nil in H1|]. apply walk_paths_extend in H1 as (ns & a & Hv & ->); [|done|by apply skipped_help].
    apply list_elem_of_fmap in H2 as (ci & E & (sub & Hsub & Hks & Hci)%in_below).
    apply elem_of_walk in Hci as (ns' & b & Hv' & ->); [|done|by apply skipped_help]. cbn [ci_Path info_of] in E.
    rewrite Forall_forall in Hw. assert (well_named sub) as Hws by by apply Hw.
    apply fullPath_inj in E; [|by destruct parents|by destruct parents|..].
    + apply app_inv_head in E. injection E as E _. apply Hc. rewrite E. by apply list_elem_of_fmap_2.
    + apply Forall_app. split; [done|]. constructor; [by apply well_named_Name|by eapply visible_names].
    + apply Forall_app. split; [done|]. constructor; [by apply well_named_Name|by eapply visible_names].
Qed.

Lemma well_named_subs a subs : well_named (mkCommand a subs) -> Forall well_named subs.
Proof. intros H. apply Forall_forall. intros sub Hs. by eapply well_named_sub. Qed.

Lemma walk_paths_NoDup c : forall parents, parents <> [] -> spaceless parents -> well_named c -> Name c <> "help" -> NoDup (map ci_Path (walkForJSON parents c)).
Proof.
  induction c as [a subs IH] using Command_induction. intros parents Hp Hs Hw Hn. pose proof (well_named_subs _ _ Hw) as Hws.
  assert (spaceless (parents ++ [Name (mkCommand a subs)])) as Hs'.
  { apply Forall_app. split; [done|]. constructor; [by apply well_named_Name|constructor]. }
  rewrite walk_entry by done. cbn [subcommands map]. apply NoDup_cons. split.
  - intros (ci & E & (sub & Hsub & Hk & Hci)%in_below)%list_elem_of_fmap.
    apply elem_of_walk in Hci as (ns & b & Hv & ->); [|by destruct parents|by apply skipped_help]. cbn [ci_Path info_of] in E.
    rewrite Forall_forall in Hws. assert (well_named sub) as Hwsub by by apply Hws.
    apply fullPath_inj in E; [|by destruct parents|by destruct parents|done|].
    + apply (f_equal length) in E. rewrite !length_app in E. cbn in E. lia.
    + apply Forall_app. split; [done|]. constructor; [by apply well_named_Name|by eapply visible_names].
  - apply below_paths_NoDup; [by destruct parents|done|apply Hw|done|]. apply Forall_forall. intros sub Hsub Hnh.
    rewrite Forall_forall in Hws. rewrite List.Forall_forall in IH. apply IH; [by apply list_elem_of_In|by destruct parents|done|by apply Hws|done].
Qed.

Lemma root_paths_NoDup root : well_named root -> NoDup (map ci_Path (walkForJSON [] root)).
Proof.
  destruct root as [a subs]. intros Hw. cbn [walkForJSON]. rewrite app_nil_l. pose proof (well_named_subs _ _ Hw) as Hws.
  assert (spaceless ([] ++ [co_Name a])) as Hs by (constructor; [apply Hw|constructor]).
  apply below_paths_NoDup; [done|done|apply Hw|done|]. eapply Forall_impl; [exact Hws|]. intros c Hc Hn. by apply walk_paths_NoDup.
Qed.

(** ** What is said *)

(** help-json lists exactly the commands a user reaches without passing a hidden one or
    help, each once, with its full path, in the order of the paths, which is the only sorted
    order there is; the exit codes it documents are those of the contract, so the code any
    error ends the process with is one of them. *)
Theorem help_json_complete version persistent root : well_named root ->
  let h := buildHelpJSON version persistent root in
  (forall ci, ci ∈ hj_Commands h <-> exists n ns a, visible root (n :: ns) a /\ ci = info_of (Name root :: n :: ns) a) /\
  NoDup (map ci_Path (hj_Commands h)) /\
  (forall l, l ≡ₚ hj_Commands h -> StronglySorted (le_name ci_Path) l -> l = hj_Commands h) /\
  (forall err, (forall e, err = Some e -> codes_ok e) -> From err ∈ map ec_Code (hj_ExitCodes h)).
Proof.
  intros Hw h. pose proof (root_paths_NoDup root Hw) as Hn. subst h. cbn [buildHelpJSON hj_Commands hj_ExitCodes]. split_and!.
  - intros ci. rewrite elem_of_sort_by. apply elem_of_walk_root.
  - by rewrite sort_by_perm.
  - intros l Hp Hs. apply sort_by_unique; [done|by rewrite Hp, sort_by_perm|done].
  - intros [e|] He; [|unfold OK; cbn; set_solver]. apply (From_error e), He. done.
Qed.

Definition sample_tree : Command :=
  let cmd n hid subs := mkCommand (mkabout n "" "" "" hid []) subs in
  cmd "tkn-act" false [cmd "runs" false [cmd "show" false []; cmd "list" false []]; cmd "help" false [cmd "x" false []];
                       cmd "completion" true [cmd "bash" false []]; cmd "cache" false []].

Example help_json_ex : map ci_Path (hj_Commands (buildHelpJSON "dev" [] sample_tree)) = ["tkn-act cache"; "tkn-act runs"; "tkn-act runs list"; "tkn-act runs show"].
Proof. vm_compute. reflexivity. Qed.

Lemma help_json_complete_witness : well_named sample_tree /\ NoDup (map ci_Path (hj_Commands (buildHelpJSON "dev" [] sample_tree))).
Proof.
  assert (well_named sample_tree) as H; [|split; [exact H|exact (proj1 (proj2 (help_json_complete "dev" [] sample_tree H)))]].
  cbn. repeat split; first [reflexivity | apply (bool_decide_unpack _); vm_compute; exact I].
Defined.

(** A group's entry, and below it. *)
Lemma group_fold here infos : forall own below,
  here ∉ map ci_Path infos ->
  foldl (fun '(own, below) ci => if String.eqb (ci_Path ci) here then (ci, below) else (own, below ++ [ci_Path ci])) (own, below) infos = (own, below ++ map ci_Path infos).
Proof.
  induction infos as [|ci infos IH]; intros own below Hh; cbn [foldl map]; [by rewrite app_nil_r|]. apply not_elem_of_cons in Hh as [Hc Hh].
  destruct (String.eqb_spec (ci_Path ci) here) as [E|_]; [by destruct Hc|]. rewrite IH by done. by rewrite <-app_assoc.
Qed.

(** What a group prints of itself is its entry of help-json, with the paths of the commands
    visible below it, each once and in order. *)
Theorem group_of_correct parents c : parents <> [] -> spaceless parents -> well_named c -> Name c <> "help" ->
  let '(own, below) := group_of parents c in
  own = info_of (parents ++ [Name c]) (the_command c) /\
  (forall p, p ∈ below <-> exists n ns a, visible c (n :: ns) a /\ p = fullPath (parents ++ Name c :: n :: ns)) /\
  NoDup below /\ StronglySorted String.le below.
Proof.
  intros Hp Hs Hw Hn. pose proof (walk_paths_NoDup c parents Hp Hs Hw Hn) as Hnd. unfold group_of.
  rewrite walk_entry in Hnd |- * by done. set (infos := flat_map _ _) in *. cbn [map info_of ci_Path] in Hnd. apply NoDup_cons in Hnd as [Hh Hnd].
  cbn [foldl ci_Path info_of]. rewrite String.eqb_refl, group_fold by done. cbn [app]. split_and!.
  - done.
  - intros p. rewrite elem_of_sort_strings. split.
    + intros Hi. pose proof Hi as Hi'. apply list_elem_of_fmap in Hi as (ci & -> & Hci).
      assert (ci ∈ walkForJSON parents c) as Hcw by (rewrite walk_entry by done; by right).
      apply elem_of_walk in Hcw as (ns & a & Hv & ->); [|done|done]. destruct ns as [|n ns]; [|by exists n, ns, a]. by destruct Hh.
    + intros (n & ns & a & Hv & ->). assert (info_of (parents ++ Name c :: n :: ns) a ∈ walkForJSON parents c) as Hcw.
      { apply elem_of_walk; [done|done|]. by exists (n :: ns), a. }
      rewrite walk_entry in Hcw by done. apply elem_of_cons in Hcw as [E|Hcw]; [|by apply (list_elem_of_fmap_2 ci_Path) in Hcw].
      exfalso. apply (f_equal ci_Path) in E. cbn [ci_Path info_of] in E. apply fullPath_inj in E; [|by destruct parents|by destruct parents|..].
      * apply (f_equal length) in E. rewrite !length_app in E. cbn in E. lia.
      * apply Forall_app. split; [done|]. constructor; [by apply well_named_Name|by eapply visible_names].
      * apply Forall_app. split; [done|]. constructor; [by apply well_named_Name|constructor].
  - by apply sort_strings_NoDup.
  - apply sort_strings_sorted.
Qed.

(** *** The guide *)
(** A file of the curated order is found under its section's name, and README also under its own. *)
Lemma FileName_eq s s' : FileName s = FileName s' -> s = s' \/ (s = "overview" /\ s' = "README") \/ (s = "README" /\ s' = "overview").
Proof.
  unfold FileName. destruct (String.eqb_spec s "overview") as [->|Hs], (String.eqb_spec s' "overview") as [->|Hs']; intros E.
  - by left.
  - right. left. split; [done|]. change "README.md" with ("README" +:+ ".md") in E. by apply (str_app_inj_r _ _ ".md") in E.
  - right. right. split; [|done]. change "README.md" with ("README" +:+ ".md") in E. by apply (str_app_inj_r _ _ ".md") in E.
  - left. by apply (str_app_inj_r _ _ ".md").
Qed.

Lemma guide_from_some fs order : Forall (fun s => is_Some (readSection fs s)) order -> forall first, is_Some (guide_from fs first order).
Proof.
  induction 1 as [|s order [body Hs] _ IH]; intros first; cbn [guide_from]; [by eexists|]. rewrite Hs. destruct (IH false) as [rest Hr]. cbn. rewrite Hr. by eexists.
Qed.

(** With exactly the curated files embedded, agent-guide never panics, accepts as a
    section every name it lists and, besides README, no other; an unknown one is a usage
    error. *)
Theorem agent_guide_correct {K : CoreV1} gf fs section :
  (forall name, is_Some (fs !! (agentGuideDataDir +:+ "/" +:+ name)) <-> name ∈ map FileName Order) ->
  is_Some (AgentGuideContent fs) /\
  (is_Some (readSection fs section) <-> section ∈ Order \/ section = "README") /\
  (section <> "" -> section ∉ Order -> section <> "README" -> exists e, agent_guide_cmd gf fs false section = Some (Ret (inr (Coded Usage e)))).
Proof.
  intros Hfs. assert (is_Some (readSection fs section) <-> section ∈ Order \/ section = "README") as Hr.
  { unfold readSection. rewrite Hfs. split.
    - intros (s & E & Hs)%list_elem_of_fmap. apply FileName_eq in E as [->|[[-> ->]|[-> _]]]; [by left| |by right]. left. by left.
    - intros [Hs| ->]; [by apply list_elem_of_fmap_2|]. exact (list_elem_of_fmap_2 FileName Order "overview" (list_elem_of_here _ _)). }
  split_and!; [|done|].
  - apply guide_from_some. apply Forall_forall. intros s Hs. unfold readSection. apply Hfs. by apply list_elem_of_fmap_2.
  - intros Hne Ho Hre. unfold agent_guide_cmd. destruct (String.eqb_spec section "") as [->|_]; [done|]. cbn [negb].
    destruct (readSection fs section) as [body|] eqn:E; [|by eexists]. exfalso. assert (is_Some (Some body)) as [H1|H1]%Hr by done; done.
Qed.

(** What go generate leaves in the data directory is a guide agent-guide can print: each
    section shows the source's text with one newline at its end, and the full guide exists. *)
Theorem generated_guide wd src dst srcAbs dstAbs w w' fs :
  Abs wd src = Ok srcAbs -> Abs wd dst = Ok dstAbs -> wf (w_tree w) ->
  ~ under (key srcAbs) (key dstAbs) -> ~ under (key dstAbs) (key srcAbs) ->
  run_fs (Generate wd src dst) w = (Ok tt, w') ->
  (forall name, fs !! (agentGuideDataDir +:+ "/" +:+ name) = contents (w_tree w') (child (key dstAbs) name)) ->
  is_Some (AgentGuideContent fs) /\
  (forall s, s ∈ Order -> exists raw, contents (w_tree w) (child (key srcAbs) (FileName s)) = Some raw /\ readSection fs s = Some (normalize raw)).
Proof.
  intros Es Ed Hwf Hsd Hds Hrun Hfs.
  assert (forall s, s ∈ Order -> exists raw, contents (w_tree w) (child (key srcAbs) (FileName s)) = Some raw /\ readSection fs s = Some (normalize raw)) as Hall.
  { intros s Hs. destruct (Generate_mirrors _ _ _ _ _ _ _ Es Ed Hwf Hsd Hds Hrun) as (_ & Hm & _).
    destruct (Hm (FileName s)) as (raw & Hr & Hd); [apply elem_of_wanted; by exists s|]. exists raw. split; [done|]. unfold readSection. by rewrite Hfs. }
  split; [|done]. apply guide_from_some, Forall_forall. intros s Hs. destruct (Hall s Hs) as (raw & _ & ->). by eexists.
Qed.
